(* ===== verification/_CoqProject ===== *)
-Q . S2P
Prelude.v
GoFloat.v
GoTime.v
GoPath.v
Api.v
BudgetPeriod.v
BudgetWire.v
BudgetLedger.v
BudgetFacts.v
Json.v
JsonString.v
JsonValue.v
RequestBody.v
RequestClaims.v
FoldedName.v
UsageScan.v
UsageSpec.v
UsageReader.v
JsonDecode.v
RateLimit.v
Auth.v
Base64.v
Routing.v
Fallback.v
FallbackFacts.v
Translate.v
TranslateFacts.v
TranslateStream.v
StreamProtocol.v
Activity.v
LlmProxy.v
UpstreamPath.v
JsonCompact.v
ProxyFacts.v
ProblemList.v
ToolMessage.v
ToolRoute.v
McpWire.v
ToolList.v
ToolRelay.v
BudgetReducer.v
BudgetPublisher.v
CallbackPolicy.v
Conditions.v
ProviderValidation.v
Eligibility.v
SkipsFound.v
AgentLifecycle.v
TaskData.v
TaskReconcile.v
TaskLogic.v
TaskFacts.v
TaskClaims.v
TaskMailbox.v
Sha256.v
ToolSession.v
ToolBroker.v
ToolClaims.v
ChannelApi.v
ChannelAuth.v
Envelope.v
PodReady.v
Rfc3339.v
ChannelHealth.v
Delivery.v
DeliveryClaims.v
AsyncDelivery.v
Platform.v
Discord.v
WhatsApp.v
UserListener.v
PlatformClaims.v
ChannelCheck.v
ChannelReconcile.v
ChannelTrace.v
ChannelGrants.v
ChannelClaims.v
ChannelWatch.v
