(* ===== verification/Prelude.v ===== *)
(** Kaalm: a verification of its gateway and of the core of its controller.

    Kaalm is a Kubernetes operator for AI agents written in Go.  Its gateway
    authenticates workloads, forwards their LLM requests to model providers
    under budgets, rate limits and fallback rules, brokers their tool calls,
    and carries messages between users' channels and Agents.  Its controller
    reconciles the custom resources: ModelProviders with the spend the gateway
    replicas publish, Agents with their sleep and replacement, AgentTasks, and
    AgentChannels with the Roles that let the gateway read their Secrets.  The
    two sides meet in objects of the API server (ConfigMaps, annotations,
    status conditions), and much of what is proved here is that they read the
    same thing there.

    * Parts and files

    Foundations, the parts of Go and of its library the code stands on:
    - [Prelude]: tactics, the hint database [kaalm], Go map iteration
      ([MapRange]: any order), decimal printing, cutting and splitting of text.
    - [GoFloat]: float64 as [SpecFloat] at 53 bits.  [GoTime]: instants,
      durations, the UTC calendar.  [Rfc3339]: timestamps and durations as
      text.  [GoPath]: path.Match.  [Base64], [Sha256] (with SHA-1, HMAC and
      version 5 UUIDs).
    - [Json]: JSON text as trees with a parser proved sound and complete;
      [JsonString]: string tokens and UTF-8; [JsonValue]: values of type any;
      [JsonDecode]: Unmarshal into structs; [JsonCompact].
    - [Api]: resource types of src/api/v1beta1.  [Conditions]: status
      conditions behind a class.  [ProblemList]: condition and event text
      (src/internal/controller/problem_list.go, src/internal/eventrec).

    Budgets (src/internal/gateway/budget.go, budget_hard.go):
    - [BudgetPeriod]: PeriodKey, nextPeriodStart.  [BudgetWire]: the partial a
      replica publishes and the fold of the peers' partials.
    - [BudgetLedger]: the ledger, one definition per operation under its mutex;
      [BudgetFacts]: what each does, and a replica as a step relation over all
      interleavings.
    - [BudgetPublisher]: publish, fold, tick and the watch (budget_informer.go).
    - [BudgetReducer]: the controller's half
      (src/internal/controller/modelprovider_budget.go,
      modelprovider_agentspend.go).

    LLM requests (src/internal/gateway):
    - [Auth]: identity.go, tokenauth.go, auth.go, errors.go.  [Routing]:
      routing.go.  [RateLimit]: ratelimit.go.  [Activity]: activity.go.
    - [RequestBody], [RequestClaims], [FoldedName]: requestbody.go on the bytes
      of a body, with every index that could panic.
    - [UsageScan], [UsageSpec], [UsageReader]: usagescan.go and the usage
      readers of adapters.go, fed in any chunks.
    - [Fallback], [FallbackFacts]: fallback.go with the attempt closure of
      proxy.go, over a world behind the class [WalkWorld].
    - [Translate], [TranslateFacts], [TranslateStream], [StreamProtocol]:
      src/internal/llmtranslate.  [UpstreamPath]: the URL of an attempt.
    - [LlmProxy], [ProxyFacts]: handleLLMProxy of proxy.go, which composes the
      above; it refines the replica of [BudgetFacts].

    Tools (src/internal/gateway/mcpbroker.go, mcpsession.go, src/internal/mcp):
    - [ToolMessage]: the message and its header mirror; [ToolRoute]: the grant
      chain; [ToolSession]: session ids; [McpWire]: responses; [ToolList]: the
      narrowed tools/list; [ToolRelay]: the three relays; [ToolBroker]: the
      handler; [ToolClaims]: its theorems.

    Channels at the gateway (src/internal/gateway):
    - [ChannelApi]: channels and the Secrets they name (kubestore.go).
      [ChannelAuth]: channelauth.go.  [ChannelHealth]: channelhealth.go.
      [Envelope]: envelope.go.  [PodReady]: podready.go.
    - [Delivery], [DeliveryClaims]: wake, wait and delivery of user.go and
      pipeline_bound.go, as computations with a clock and costs.
    - [AsyncDelivery]: async.go.  [CallbackPolicy]: src/internal/callbackpolicy.
    - [Platform], [Discord], [WhatsApp]: platform.go and its two adapters.
      [UserListener], [PlatformClaims]: the listener over all of them.

    The controller (src/internal/controller):
    - [ProviderValidation]: the configuration checks of a ModelProvider;
      [Eligibility], [SkipsFound]: the scan of its fallbacks, against the
      gateway's walk.
    - [AgentLifecycle]: idling, hibernation, waking and the drift slots of
      Agents, fed by the answers of [Activity].
    - [TaskData], [TaskReconcile], [TaskLogic], [TaskFacts], [TaskClaims],
      [TaskMailbox]: AgentTasks.  A pass is a program over its API calls;
      [TaskLogic] gives the cluster that answers them and the abstract machine
      the passes refine.
    - [ChannelCheck], [ChannelReconcile], [ChannelTrace], [ChannelGrants],
      [ChannelClaims], [ChannelWatch]: AgentChannels, likewise, with the
      orphan pruner, the watches and the activator.

    * What the theorems show

    - The request handler returns from every state and is a run of the replica
      that gives back every slot it took (C1); what it forwards was authorized
      and admitted (C4).  One boundary request per ceiling, no slot outlives
      its request, admission fails closed (C2, C3, C5).  The reducer loses no
      spend (C34).  [FallbackFacts] has the termination of the walk, which
      attempts each provider once.
    - Bodies: the rewritten body reads as what was admitted and is the text of
      the rewritten tree (C19, C20); translated requests and streams say the
      same and keep the protocol (C21 to C23); usage is read exactly, however
      the answer is cut (C24).
    - Tools: a forwarded call has one reading, and it is granted (C25); session
      ids are owned (C26).
    - Delivery: bounded time and attempts, the Agent's own answer, no lost
      readiness event, waits that end (C6, C7, C27, C28); an asynchronous
      payload is settled once, callbacks stay in the policy, polls show own
      records (C8 to C10); platform runs are not cut short (C18).
    - Who is let in: workload identity (C35), webhooks, polls and Discord
      signatures (C29, C30, C40); the listener gives an unproved caller the one
      401 (C17).
    - AgentChannels: Roles follow the labels, Ready is earned, the finalizer
      goes last and does go, checked credentials work at the gateway, both
      sides agree who holds a path (C11 to C16).
    - AgentTasks: the stored versions follow the abstract machine under every
      interleaving, lagging cache, half-failed write and restart, with
      well-formed statuses (C31, C38); a report belongs to its attempt (C32).
    - Providers and Agents: the configuration checks are exact (C33); idling
      needs silence (C36); the drift cap holds (C37).
    - C39 and C40 describe defects: a namespace named period hides its
      replica's spend, and a Discord timestamp far ahead passes.  Others are
      the theorems [attempts_can_share_results] of [TaskMailbox] and
      [dotted_name_shifts_identity] of [Auth].

    * Modelling choices

    - An operation under the source's mutex is one step; its clock is read once
      and is an argument.  In [Delivery] and its clients the clock is part of
      the world, advanced by what each call takes.  Reconcile passes read
      clock and caches call by call.
    - Integers are [Z], wrapped with [wrap64] where the code can overflow;
      float to integer conversion out of range is amd64's.  Text is bytes.  An
      index out of range, or a channel closed twice, is [None], a panic.
    - Parameters or classes with the laws the code relies on, each with a
      concrete instance where a theorem needs one: the API server, the
      condition helpers of apimachinery, encoding/json on string maps in the
      budget wire, net/url, net's address parsers, Unicode tables, Ed25519,
      random UUIDs, intstr, JWT claims, and in [Fallback] the translator.
    - Fuel.  The walk: more than the attempts left always suffices and more
      gives the same outcome, so the handler's depth limit plus one loses
      nothing.  Walks over the providers: one more than there are.  The body
      scanner: the length of the body, which the proofs on valid bodies show
      is enough.  The splitting of runes: more than the runes.  The wait for a
      Pod: the checks that fit its window and four more (C27).  path.Match: the
      pattern's length plus one, as every round takes a byte of the pattern.

    * Not modelled

    The objects the controllers build for an Agent and the convergence of its
    Pods; health probes and advice on models; the class and ToolProvider
    reconcilers; per-Secret informers and other watches that only start a
    pass; draining, storage migration, TLS reloading, profiling and command
    wiring, which are I/O around the modelled operations; the copying of
    response bytes, metrics, tracing and logs; the console and the library
    agents link against, which are separate programs. *)

From stdpp Require Import base gmap sets list strings option.
From Stdlib Require Import ZArith Lia Ascii.

Create HintDb kaalm.

(** ** Tactics *)

(** Case on every [if] and [match] of the goal that has no binder-dependent
    scrutinee, keeping the equation, and close what congruence closes. *)
Ltac split_matches :=
  repeat (case_match; simplify_eq/=; try done).

(** Destruct the record or pair equations a state-passing call leaves. *)
Ltac inv_pairs :=
  repeat match goal with
  | H : (_, _) = (_, _) |- _ => injection H; clear H; intros; subst
  | H : Some _ = Some _ |- _ => injection H; clear H; intros; subst
  end.

(** Turn boolean tests of the code into propositions. *)
Ltac bool_to_prop :=
  repeat match goal with
  | H : (_ && _) = true |- _ => apply andb_true_iff in H as [? ?]
  | H : (_ || _) = false |- _ => apply orb_false_iff in H as [? ?]
  | H : negb _ = true |- _ => apply negb_true_iff in H
  | H : negb _ = false |- _ => apply negb_false_iff in H
  | H : (_ =? _)%Z = true |- _ => apply Z.eqb_eq in H
  | H : (_ =? _)%Z = false |- _ => apply Z.eqb_neq in H
  | H : (_ <? _)%Z = true |- _ => apply Z.ltb_lt in H
  | H : (_ <? _)%Z = false |- _ => apply Z.ltb_ge in H
  | H : (_ <=? _)%Z = true |- _ => apply Z.leb_le in H
  | H : (_ <=? _)%Z = false |- _ => apply Z.leb_gt in H
  | H : (_ =? _)%string = true |- _ => apply String.eqb_eq in H
  | H : (_ =? _)%string = false |- _ => apply String.eqb_neq in H
  | H : bool_decide _ = true |- _ => apply bool_decide_eq_true in H
  | H : bool_decide _ = false |- _ => apply bool_decide_eq_false in H
  end.

(** ** Go maps

    A Go map is a [gmap string A]; [range m] visits every entry once in an
    order the language leaves open.  [MapRange] is that order; [map_to_list]
    is one of its instances, and every theorem holds for all of them. *)
Class MapRange := {
  range : ∀ {A : Type}, gmap string A → list (string * A);
  range_perm : ∀ {A : Type} (m : gmap string A), range m ≡ₚ map_to_list m;
}.

Definition list_order : MapRange :=
  {| range := λ A m, map_to_list m; range_perm := λ A m, Permutation_refl _ |}.

Section map_range.
Context {MR : MapRange}.

Lemma elem_of_range {A} (m : gmap string A) k v :
  (k, v) ∈ range m ↔ m !! k = Some v.
Proof. by rewrite range_perm, elem_of_map_to_list. Qed.

Lemma NoDup_range {A} (m : gmap string A) : NoDup (range m).*1.
Proof. rewrite range_perm. apply NoDup_fst_map_to_list. Qed.

Lemma range_empty {A} : range (∅ : gmap string A) = [].
Proof. apply Permutation_nil_r. by rewrite range_perm, map_to_list_empty. Qed.
End map_range.

(** ** Go strings

    A Go string is its bytes. *)
Definition HasPrefix (s p : string) : bool := String.prefix p s.

Fixpoint CutPrefix (s p : string) : option string :=
  match p, s with
  | EmptyString, _ => Some s
  | String a p', String b s' => if Ascii.eqb a b then CutPrefix s' p' else None
  | String _ _, EmptyString => None
  end.

Definition TrimPrefix (s p : string) : string := default s (CutPrefix s p).

Fixpoint string_rev_app (s acc : string) : string :=
  match s with
  | EmptyString => acc
  | String a s' => string_rev_app s' (String a acc)
  end.

Definition string_rev (s : string) : string := string_rev_app s EmptyString.

Definition CutSuffix (s p : string) : option string :=
  string_rev <$> CutPrefix (string_rev s) (string_rev p).

Definition HasSuffix (s p : string) : bool :=
  bool_decide (is_Some (CutSuffix s p)).

Definition TrimSuffix (s p : string) : string := default s (CutSuffix s p).

Fixpoint contains_char (c : ascii) (s : string) : bool :=
  match s with
  | EmptyString => false
  | String a s' => Ascii.eqb a c || contains_char c s'
  end.

(** [strings.Split] on a one-byte separator. *)
Fixpoint split_char (c : ascii) (s : string) : list string :=
  match s with
  | EmptyString => [EmptyString]
  | String a s' =>
      if Ascii.eqb a c then EmptyString :: split_char c s'
      else match split_char c s' with
           | [] => [String a EmptyString]
           | w :: ws => String a w :: ws
           end
  end.

Definition ascii_Z (a : ascii) : Z := Z.of_N (N_of_ascii a).

Definition lower_ascii (a : ascii) : ascii :=
  if ((65 <=? ascii_Z a) && (ascii_Z a <=? 90))%Z
  then ascii_of_N (N_of_ascii a + 32) else a.

(** [strings.ToLower] on ASCII text. *)
Fixpoint ToLower (s : string) : string :=
  match s with
  | EmptyString => EmptyString
  | String a s' => String (lower_ascii a) (ToLower s')
  end.

Definition is_space (a : ascii) : bool :=
  ((9 <=? ascii_Z a) && (ascii_Z a <=? 13))%Z || (ascii_Z a =? 32)%Z.

Fixpoint trim_left (s : string) : string :=
  match s with
  | EmptyString => EmptyString
  | String a s' => if is_space a then trim_left s' else s
  end.

(** [strings.TrimSpace] on ASCII text. *)
Definition TrimSpace (s : string) : string :=
  string_rev (trim_left (string_rev (trim_left s))).

(** [fmt]'s %q on ASCII text: [strconv.Quote]. *)
Definition hex_digit (n : N) : ascii :=
  ascii_of_N (if (n <? 10)%N then 48 + n else 87 + n).

Definition quote_char (a : ascii) : string :=
  let n := N_of_ascii a in
  match n with
  | 7%N => "\a" | 8%N => "\b" | 9%N => "\t" | 10%N => "\n" | 11%N => "\v" | 12%N => "\f" | 13%N => "\r"
  | 34%N => String "\" (String "034" EmptyString)
  | 92%N => "\\"
  | _ => if (n <? 32)%N || (127 <=? n)%N
         then "\x" +:+ String (hex_digit (n / 16)) (String (hex_digit (n mod 16)) EmptyString)
         else String a EmptyString
  end.

Fixpoint quote_body (s : string) : string :=
  match s with
  | EmptyString => String "034" EmptyString
  | String a s' => quote_char a +:+ quote_body s'
  end.

Definition Quote (s : string) : string := String "034" (quote_body s).

(** The text before and after the first [c], [strings.Cut] on one byte. *)
Fixpoint Cut (c : ascii) (s : string) : option (string * string) :=
  match s with
  | EmptyString => None
  | String a s' =>
      if Ascii.eqb a c then Some (EmptyString, s')
      else match Cut c s' with Some (l, r) => Some (String a l, r) | None => None end
  end.

Lemma string_app_nil_r s : (s +:+ "") = s.
Proof. induction s; simpl; [done|]. unfold String.app in *. simpl. by rewrite IHs. Qed.

Lemma string_app_assoc s1 s2 s3 : (s1 +:+ (s2 +:+ s3)) = ((s1 +:+ s2) +:+ s3).
Proof. induction s1; [done|]. unfold String.app in *; simpl. by rewrite IHs1. Qed.

Lemma CutPrefix_app p s : CutPrefix (p +:+ s) p = Some s.
Proof. induction p as [|a p IH]; [by destruct s|].
  unfold String.app in *; simpl. by rewrite Ascii.eqb_refl. Qed.

Lemma CutPrefix_Some p s r : CutPrefix s p = Some r ↔ s = (p +:+ r).
Proof.
  split; [|intros ->; apply CutPrefix_app].
  revert s; induction p as [|a p IH]; intros [|b s]; simpl; try done.
  - by intros [= <-].
  - by intros [= <-].
  - destruct (Ascii.eqb_spec a b) as [->|]; [|done].
    intros H. unfold String.app; simpl. f_equal. by apply IH.
Qed.

Lemma Cut_Some c s l r : Cut c s = Some (l, r) ↔ s = (l +:+ String c r) ∧ contains_char c l = false.
Proof.
  split.
  - revert l; induction s as [|a s IH]; intros l; simpl; [done|].
    destruct (Ascii.eqb_spec a c) as [->|Hne]; [by intros [= <- <-]|].
    destruct (Cut c s) as [[l' r']|]; [|done]. intros [= <- <-].
    destruct (IH l' eq_refl) as [-> Hl]. split; [done|]. simpl. by apply Ascii.eqb_neq in Hne as ->.
  - intros [-> Hl]. induction l as [|a l IH]; [change ("" +:+ String c r) with (String c r); simpl; by rewrite Ascii.eqb_refl|].
    simpl in Hl. apply orb_false_iff in Hl as [Ha Hl].
    change (String a l +:+ String c r) with (String a (l +:+ String c r)). simpl. by rewrite Ha, IH.
Qed.

Lemma string_rev_app_spec s acc : string_rev_app s acc = (string_rev s +:+ acc).
Proof.
  unfold string_rev. revert acc; induction s as [|a s IH]; intros acc; [done|]. cbn [string_rev_app].
  rewrite (IH (String a acc)), (IH (String a "")), <- string_app_assoc. done.
Qed.

Lemma string_rev_app_distr s t : string_rev (s +:+ t) = (string_rev t +:+ string_rev s).
Proof.
  induction s as [|a s IH]; [by rewrite string_app_nil_r|].
  change (String a s +:+ t) with (String a (s +:+ t)). unfold string_rev at 1 3. cbn [string_rev_app].
  by rewrite (string_rev_app_spec (s +:+ t)), (string_rev_app_spec s), IH, string_app_assoc.
Qed.

Lemma string_rev_involutive s : string_rev (string_rev s) = s.
Proof.
  induction s as [|a s IH]; [done|].
  change (string_rev (String a s)) with (string_rev_app s (String a "")).
  by rewrite string_rev_app_spec, string_rev_app_distr, IH.
Qed.

Lemma CutSuffix_Some s p r : CutSuffix s p = Some r ↔ s = (r +:+ p).
Proof.
  unfold CutSuffix. rewrite fmap_Some. setoid_rewrite CutPrefix_Some. split.
  - intros (x & E & ->). apply (f_equal string_rev) in E.
    by rewrite string_rev_app_distr, !string_rev_involutive in E.
  - intros ->. exists (string_rev r). by rewrite string_rev_involutive, string_rev_app_distr.
Qed.

Lemma HasSuffix_spec s p : HasSuffix s p = true ↔ ∃ r, s = (r +:+ p).
Proof. unfold HasSuffix. rewrite bool_decide_eq_true. unfold is_Some. by setoid_rewrite CutSuffix_Some. Qed.

(** *** Splitting *)

Lemma split_char_nonnil c s : split_char c s ≠ [].
Proof. destruct s as [|a s]; simpl; [done|]. destruct (Ascii.eqb a c); [done|]. by destruct (split_char c s). Qed.

Lemma split_char_free c s : contains_char c s = false → split_char c s = [s].
Proof.
  induction s as [|a s IH]; simpl; [done|]. intros [-> Hs]%orb_false_iff. by rewrite (IH Hs).
Qed.

Lemma split_char_app c s t : split_char c (s +:+ String c t) = split_char c s ++ split_char c t.
Proof.
  induction s as [|a s IH].
  - change ("" +:+ String c t) with (String c t). simpl. by rewrite Ascii.eqb_refl.
  - change (String a s +:+ String c t) with (String a (s +:+ String c t)). cbn [split_char].
    rewrite IH. destruct (Ascii.eqb a c); [done|].
    pose proof (split_char_nonnil c s). by destruct (split_char c s).
Qed.

Lemma split_char_pieces c s : Forall (λ w, contains_char c w = false) (split_char c s).
Proof.
  induction s as [|a s IH]; simpl; [by constructor|].
  destruct (Ascii.eqb a c) eqn:E; [by constructor|].
  pose proof (split_char_nonnil c s). destruct (split_char c s) as [|w ws]; [done|].
  inversion IH; subst. constructor; [|done]. simpl. by rewrite E.
Qed.

Lemma split_char_pair c s a b : split_char c s = [a; b] → s = (a +:+ String c b).
Proof.
  revert a; induction s as [|x s IH]; intros a; simpl; [done|].
  destruct (Ascii.eqb_spec x c) as [->|].
  - intros [= <- E]. destruct s as [|y s]; [by simplify_eq/=|].
    change ("" +:+ String c b) with (String c b). f_equal.
    clear IH. revert E. generalize (String y s) as t. clear. intros t.
    revert b. induction t as [|y t IH]; intros b; simpl; [by intros [= <-]|].
    destruct (Ascii.eqb y c).
    + intros [= <- E]. by apply split_char_nonnil in E.
    + pose proof (split_char_nonnil c t). destruct (split_char c t) as [|w ws]; [done|].
      intros [= <- ->]. by rewrite (IH w).
  - pose proof (split_char_nonnil c s). destruct (split_char c s) as [|w ws]; [done|].
    intros [= <- ->]. change (String x w +:+ String c b) with (String x (w +:+ String c b)).
    by rewrite (IH w).
Qed.

#[export] Hint Resolve CutPrefix_app : kaalm.
Create Rewrite HintDb kaalm_rw.
#[export] Hint Rewrite @CutPrefix_app @string_app_nil_r : kaalm_rw.
