(* ===== verification/GoFloat.v ===== *)
(** Go's [float64] as IEEE 754 binary64.

    The arithmetic is the executable specification of the Standard Library
    ([SpecFloat] with 53 bits of mantissa and exponent bound 1024), so every
    operation rounds to nearest even exactly as the hardware does, and
    infinities and NaN are values.  The file adds the conversions the source
    uses: [float64(n)], [int(f)], [math.Max], [math.Round],
    [strconv.ParseFloat] and [strconv.FormatFloat(v,'f',2,64)].
    The lemmas give the order its laws and the printer/parser round trip. *)

From Corelib Require Import SpecFloat.
From stdpp Require Import base list strings option.
From Stdlib Require Import ZArith Lia Ascii Decimal DecimalString DecimalN DecimalFacts.
From S2P Require Import Prelude.

Definition f64 : Type := spec_float.

Definition f64_zero : f64 := S754_zero false.
Definition f64_add (x y : f64) : f64 := SFadd 53 1024 x y.
Definition f64_sub (x y : f64) : f64 := SFsub 53 1024 x y.
Definition f64_mul (x y : f64) : f64 := SFmul 53 1024 x y.
Definition f64_div (x y : f64) : f64 := SFdiv 53 1024 x y.
Definition f64_opp (x : f64) : f64 := SFopp x.
Definition f64_eqb (x y : f64) : bool := SFeqb x y.
Definition f64_ltb (x y : f64) : bool := SFltb x y.
Definition f64_leb (x y : f64) : bool := SFleb x y.

Declare Scope f64_scope.
Delimit Scope f64_scope with f64.
Bind Scope f64_scope with f64.
Infix "+" := f64_add : f64_scope.
Infix "-" := f64_sub : f64_scope.
Infix "*" := f64_mul : f64_scope.
Infix "/" := f64_div : f64_scope.
Infix "=?" := f64_eqb : f64_scope.
Infix "<?" := f64_ltb : f64_scope.
Infix "<=?" := f64_leb : f64_scope.

#[global] Instance f64_inhabited : Inhabited f64 := populate f64_zero.
#[global] Instance f64_eq_dec : EqDecision f64.
Proof. solve_decision. Defined.

(** [float64(n)] for an integer. *)
Definition f64_of_Z (n : Z) : f64 := binary_normalize 53 1024 n 0 false.

(** The float nearest to [num / den]. *)
Definition f64_of_ratio (num : Z) (den : positive) : f64 :=
  match num with
  | Z0 => f64_zero
  | Zpos p => SFdiv 53 1024 (S754_finite false p 0) (S754_finite false den 0)
  | Zneg p => SFdiv 53 1024 (S754_finite true p 0) (S754_finite false den 0)
  end.

Definition is_nan (x : f64) : bool :=
  match x with S754_nan => true | _ => false end.
Definition is_inf (x : f64) : bool :=
  match x with S754_infinity _ => true | _ => false end.
Definition signbit (x : f64) : bool :=
  match x with
  | S754_zero s | S754_infinity s | S754_finite s _ _ => s
  | S754_nan => false
  end.

(** The integer part of the magnitude of a finite float. *)
Definition f64_mag_floor (m : positive) (e : Z) : Z :=
  if (0 <=? e)%Z then Z.shiftl (Zpos m) e else Z.shiftr (Zpos m) (- e).

Definition min_int64 : Z := - 2 ^ 63.
Definition max_int64 : Z := 2 ^ 63 - 1.
Definition in_int64 (z : Z) : bool := ((min_int64 <=? z) && (z <=? max_int64))%Z.

(** Two's complement wrap-around of [int64] arithmetic. *)
Definition wrap64 (z : Z) : Z := ((z + 2 ^ 63) mod 2 ^ 64 - 2 ^ 63)%Z.

(** [int64(f)]: truncation toward zero.  Out of range and NaN are left to the
    implementation by the language; amd64 gives the least integer. *)
Definition int64_of_f64 (x : f64) : Z :=
  match x with
  | S754_finite s m e =>
      let z := if s then (- f64_mag_floor m e)%Z else f64_mag_floor m e in
      if in_int64 z then z else min_int64
  | S754_zero _ => 0
  | _ => min_int64
  end.

(** [math.Round]: half away from zero. *)
Definition f64_round (x : f64) : f64 :=
  match x with
  | S754_finite s m e =>
      if (0 <=? e)%Z then x
      else
        let q := Z.shiftr (Zpos m + Z.shiftl 1 (- e - 1)) (- e) in
        match q with
        | Zpos p => binary_normalize 53 1024 (if s then Zneg p else Zpos p) 0 s
        | _ => S754_zero s
        end
  | _ => x
  end.

(** [math.Max]. *)
Definition f64_max (x y : f64) : f64 :=
  if (is_inf x && negb (signbit x)) || (is_inf y && negb (signbit y))
  then S754_infinity false
  else if is_nan x || is_nan y then S754_nan
  else if (x =? f64_zero)%f64 && (x =? y)%f64
       then (if signbit x then y else x)
  else if (y <? x)%f64 then x else y.

(** ** Order

    [SFcompare] compares signs, then exponents, then mantissas; [f64_key]
    maps a float that is not NaN to the triple whose lexicographic order is
    that comparison. *)
Definition f64_key (x : f64) : Z * Z * Z :=
  match x with
  | S754_infinity true => (-2, 0, 0)%Z
  | S754_finite true m e => (-1, - e, Zneg m)%Z
  | S754_finite false m e => (1, e, Zpos m)%Z
  | S754_infinity false => (2, 0, 0)%Z
  | S754_zero _ | S754_nan => (0, 0, 0)%Z
  end.

Definition key_lt (a b : Z * Z * Z) : Prop :=
  let '(a1, a2, a3) := a in let '(b1, b2, b3) := b in
  (a1 < b1 ∨ (a1 = b1 ∧ (a2 < b2 ∨ (a2 = b2 ∧ a3 < b3))))%Z.

Lemma f64_ltb_key x y :
  (x <? y)%f64 = true ↔ is_nan x = false ∧ is_nan y = false ∧ key_lt (f64_key x) (f64_key y).
Proof.
  unfold f64_ltb, SFltb.
  destruct x as [[]|[]| |[] m e], y as [[]|[]| |[] m' e']; simpl;
    try (split; [done|lia]); try (split; [lia|done]);
    change (Pos.compare_cont Eq m m') with (m ?= m')%positive;
    destruct (Z.compare_spec e e'), (Pos.compare_spec m m'); simpl;
    (split; [try done; intros _; lia | try done; lia]).
Qed.

Lemma f64_leb_key x y :
  (x <=? y)%f64 = true ↔ is_nan x = false ∧ is_nan y = false ∧ ¬ key_lt (f64_key y) (f64_key x).
Proof.
  unfold f64_leb, SFleb.
  destruct x as [[]|[]| |[] m e], y as [[]|[]| |[] m' e']; simpl;
    try (split; [done|lia]); try (split; [lia|done]);
    change (Pos.compare_cont Eq m m') with (m ?= m')%positive;
    destruct (Z.compare_spec e e'), (Pos.compare_spec m m'); simpl;
    (split; [try done; intros _; lia | try done; lia]).
Qed.

Lemma key_lt_irrefl a : ¬ key_lt a a.
Proof. destruct a as [[??]?]; simpl; lia. Qed.
Lemma key_lt_trans a b c : key_lt a b → key_lt b c → key_lt a c.
Proof. destruct a as [[??]?], b as [[??]?], c as [[??]?]; simpl; lia. Qed.
Lemma key_lt_total a b : key_lt a b ∨ a = b ∨ key_lt b a.
Proof.
  destruct a as [[a1 a2] a3], b as [[b1 b2] b3]; simpl.
  destruct (Z.lt_trichotomy a1 b1) as [?|[->|?]]; [lia| |lia].
  destruct (Z.lt_trichotomy a2 b2) as [?|[->|?]]; [lia| |lia].
  destruct (Z.lt_trichotomy a3 b3) as [?|[->|?]]; [lia| |lia]. auto.
Qed.

Lemma f64_ltb_irrefl x : (x <? x)%f64 = false.
Proof. apply not_true_iff_false. rewrite f64_ltb_key. intros (_&_&H). by apply key_lt_irrefl in H. Qed.

Lemma f64_ltb_asym x y : (x <? y)%f64 = true → (y <? x)%f64 = false.
Proof.
  rewrite f64_ltb_key. intros (?&?&H). apply not_true_iff_false. rewrite f64_ltb_key.
  intros (_&_&H'). eapply key_lt_irrefl, key_lt_trans; eauto.
Qed.

Lemma f64_ltb_trans x y z : (x <? y)%f64 = true → (y <? z)%f64 = true → (x <? z)%f64 = true.
Proof. rewrite !f64_ltb_key. intros (?&?&?) (?&?&?). split_and!; eauto using key_lt_trans. Qed.

Lemma f64_leb_ltb x y :
  is_nan x = false → is_nan y = false → (x <=? y)%f64 = negb (y <? x)%f64.
Proof.
  intros Hx Hy. destruct (y <? x)%f64 eqn:E; simpl.
  - apply f64_ltb_key in E as (_&_&E). apply not_true_iff_false. rewrite f64_leb_key. tauto.
  - apply not_true_iff_false in E. rewrite f64_ltb_key in E. apply f64_leb_key. tauto.
Qed.

Lemma f64_leb_trans x y z : (x <=? y)%f64 = true → (y <=? z)%f64 = true → (x <=? z)%f64 = true.
Proof.
  rewrite !f64_leb_key. intros (?&?&H1) (?&?&H2). split_and!; [done..|]. intros Hlt.
  destruct (key_lt_total (f64_key y) (f64_key z)) as [?|[E|?]];
    [|rewrite E in *; tauto|tauto].
  apply H1. eauto using key_lt_trans.
Qed.

Lemma f64_ltb_leb x y : (x <? y)%f64 = true → (x <=? y)%f64 = true.
Proof.
  rewrite f64_ltb_key, f64_leb_key. intros (?&?&H). split_and!; [done..|].
  intros H'. eapply key_lt_irrefl, key_lt_trans; eauto.
Qed.

Lemma f64_ltb_leb_trans x y z : (x <? y)%f64 = true → (y <=? z)%f64 = true → (x <? z)%f64 = true.
Proof.
  rewrite !f64_ltb_key, f64_leb_key. intros (?&?&H1) (?&?&H2). split_and!; [done..|].
  destruct (key_lt_total (f64_key y) (f64_key z)) as [?|[E|?]];
    [eauto using key_lt_trans|by rewrite <- E|done].
Qed.

Lemma f64_leb_refl x : is_nan x = false → (x <=? x)%f64 = true.
Proof. intros H. rewrite f64_leb_ltb, f64_ltb_irrefl; done. Qed.

Lemma f64_ltb_nan x y : (x <? y)%f64 = true → is_nan x = false ∧ is_nan y = false.
Proof. rewrite f64_ltb_key. tauto. Qed.

#[export] Hint Resolve f64_ltb_irrefl f64_ltb_asym f64_leb_refl f64_ltb_leb : kaalm.

(** ** Decimal text *)

Definition digit (a : ascii) : option N :=
  let n := N_of_ascii a in
  if ((48 <=? n) && (n <=? 57))%N then Some (n - 48)%N else None.

(** The number whose decimal digits are [acc] followed by the bytes of [s];
    [None] when a byte is not a digit. *)
Fixpoint parse_digits_from (acc : N) (s : string) : option N :=
  match s with
  | EmptyString => Some acc
  | String a s' =>
      match digit a with
      | Some d => parse_digits_from (acc * 10 + d) s'
      | None => None
      end
  end.

Definition parse_digits (s : string) : option N := parse_digits_from 0 s.

Definition print_N (n : N) : string := NilEmpty.string_of_uint (N.to_uint n).

Lemma parse_digits_app acc s1 s2 :
  parse_digits_from acc (s1 +:+ s2) = parse_digits_from acc s1 ≫= λ a, parse_digits_from a s2.
Proof.
  revert acc; induction s1 as [|a s1 IH]; intros acc; [done|].
  unfold String.app in *; simpl. destruct (digit a); [apply IH|done].
Qed.

Lemma parse_digits_uint_acc u p :
  parse_digits_from (Npos p) (NilEmpty.string_of_uint u) = Some (Npos (Pos.of_uint_acc u p)).
Proof.
  revert p; induction u as [|u IH|u IH|u IH|u IH|u IH|u IH|u IH|u IH|u IH|u IH];
    intros p; [done|..]; simpl; rewrite <- IH; f_equal; lia.
Qed.

Lemma parse_digits_uint u : parse_digits (NilEmpty.string_of_uint u) = Some (N.of_uint u).
Proof.
  unfold parse_digits, N.of_uint.
  induction u as [|u IH|u IH|u IH|u IH|u IH|u IH|u IH|u IH|u IH|u IH];
    simpl; [done|apply IH|apply parse_digits_uint_acc..].
Qed.

Lemma parse_print_N n : parse_digits (print_N n) = Some n.
Proof. unfold print_N. by rewrite parse_digits_uint, DecimalN.Unsigned.of_to. Qed.

(** Cut a string at its first byte that satisfies [p]; the byte is dropped. *)
Fixpoint cut_at (p : ascii → bool) (s : string) : string * option string :=
  match s with
  | EmptyString => (EmptyString, None)
  | String a s' =>
      if p a then (EmptyString, Some s')
      else let '(l, r) := cut_at p s' in (String a l, r)
  end.

(** The value of [int . frac] scaled by [10 ^ ex], or [None] when the text is
    not a decimal number or the value is out of range. *)
Definition f64_of_decimal (neg : bool) (int_part frac_part : string) (ex : Z) : option f64 :=
  match int_part, frac_part with
  | EmptyString, EmptyString => None
  | _, _ =>
      match parse_digits (int_part +:+ frac_part) with
      | None => None
      | Some n =>
          let k := (ex - Z.of_nat (String.length frac_part))%Z in
          let num := (if 0 <=? k then Z.of_N n * 10 ^ k else Z.of_N n)%Z in
          let den := if (0 <=? k)%Z then 1%positive else Z.to_pos (10 ^ (- k))%Z in
          let v := f64_of_ratio num den in
          if is_inf v then None else Some (if neg then f64_opp v else v)
      end
  end.

Definition parse_sign (s : string) : bool * string :=
  match s with
  | String "-" s' => (true, s')
  | String "+" s' => (false, s')
  | _ => (false, s)
  end.

Definition parse_exponent (s : string) : option Z :=
  let '(neg, ds) := parse_sign s in
  match ds with
  | EmptyString => None
  | _ => (λ n, if neg then (- Z.of_N n)%Z else Z.of_N n) <$> parse_digits ds
  end.

Definition hex_digit_of (a : ascii) : option N :=
  match digit a with
  | Some d => Some d
  | None => let n := N_of_ascii (lower_ascii a) in if ((97 <=? n) && (n <=? 102))%N then Some (n - 87)%N else None
  end.

Fixpoint parse_hex_from (acc : N) (s : string) : option N :=
  match s with
  | EmptyString => Some acc
  | String a s' => match hex_digit_of a with Some d => parse_hex_from (acc * 16 + d) s' | None => None end
  end.

(** The value of the hexadecimal [int . frac] scaled by [2 ^ ex]. *)
Definition f64_of_hex (neg : bool) (int_part frac_part : string) (ex : Z) : option f64 :=
  match int_part, frac_part with
  | EmptyString, EmptyString => None
  | _, _ =>
      match parse_hex_from 0 (int_part +:+ frac_part) with
      | None => None
      | Some n =>
          let k := (ex - 4 * Z.of_nat (String.length frac_part))%Z in
          let num := (if 0 <=? k then Z.of_N n * 2 ^ k else Z.of_N n)%Z in
          let den := if (0 <=? k)%Z then 1%positive else Z.to_pos (2 ^ (- k))%Z in
          let v := f64_of_ratio num den in
          if is_inf v then None else Some (if neg then f64_opp v else v)
      end
  end.

(** The digits after [0x], which need more text. *)
Definition hex_body (s : string) : option string :=
  match s with
  | String "0" (String x (String a s')) => if Ascii.eqb (lower_ascii x) "x" then Some (String a s') else None
  | _ => None
  end.

(** [readFloat] and the conversion, on text without digit separators: an
    optional sign and [inf], [infinity] or, unsigned, [nan] in any case; or
    digits with at most one point and at least one digit, and an optional
    decimal exponent; or, after [0x], hexadecimal digits with at most one
    point and a binary exponent, which has to be there. *)
Definition parse_float (s : string) : option f64 :=
  let '(neg, body) := parse_sign s in
  let word := ToLower body in
  if ((word =? "inf") || (word =? "infinity"))%string then Some (S754_infinity neg)
  else if (ToLower s =? "nan")%string then Some S754_nan
  else
    match hex_body body with
    | Some digits =>
        let '(mant, ex) := cut_at (λ a, Ascii.eqb (lower_ascii a) "p") digits in
        let '(ip, fp) := cut_at (Ascii.eqb ".") mant in
        match ex ≫= parse_exponent with
        | Some k => f64_of_hex neg ip (default EmptyString fp) k
        | None => None
        end
    | None =>
        let '(mant, ex) := cut_at (λ a, Ascii.eqb (lower_ascii a) "e") body in
        let '(ip, fp) := cut_at (Ascii.eqb ".") mant in
        match ex with
        | None => f64_of_decimal neg ip (default EmptyString fp) 0
        | Some es =>
            match parse_exponent es with
            | Some k => f64_of_decimal neg ip (default EmptyString fp) k
            | None => None
            end
        end
    end.

(** [underscoreOK]: every underscore stands between digits, a base prefix
    counting as one. *)
Inductive before_char := BeforeAll | AfterDigit | AfterUnderscore | AfterOther.

Fixpoint separators_ok (hex : bool) (prev : before_char) (s : string) : bool :=
  match s with
  | EmptyString => match prev with AfterUnderscore => false | _ => true end
  | String a s' =>
      if bool_decide (is_Some (if hex then hex_digit_of a else digit a)) then separators_ok hex AfterDigit s'
      else if Ascii.eqb a "_" then match prev with AfterDigit => separators_ok hex AfterUnderscore s' | _ => false end
      else match prev with AfterUnderscore => false | _ => separators_ok hex AfterOther s' end
  end.

Definition underscoreOK (s : string) : bool :=
  match (parse_sign s).2 with
  | String "0" (String x s') =>
      let c := lower_ascii x in
      if Ascii.eqb c "b" || Ascii.eqb c "o" || Ascii.eqb c "x" then separators_ok (Ascii.eqb c "x") AfterDigit s'
      else separators_ok false BeforeAll (String "0" (String x s'))
  | body => separators_ok false BeforeAll body
  end.

Fixpoint has_underscore (s : string) : bool := match s with EmptyString => false | String a s' => Ascii.eqb a "_" || has_underscore s' end.
Fixpoint drop_underscores (s : string) : string :=
  match s with EmptyString => EmptyString | String a s' => if Ascii.eqb a "_" then drop_underscores s' else String a (drop_underscores s') end.

(** [strconv.ParseFloat(s, 64)]; [None] is the error return. *)
Definition ParseFloat (s : string) : option f64 :=
  if has_underscore s then (if underscoreOK s then parse_float (drop_underscores s) else None) else parse_float s.

Example parse_float_spellings :
  map ParseFloat ["0x1p-2"; "0X.8P1"; "1_23.50_0_0e+1_2"; "0x_1_0p0"; "2.50"; ".5"] =
    map ParseFloat ["0.25"; "1"; "1.235e+14"; "16"; "0x2.8p0"; "0x1p-1"] ∧
  map ParseFloat ["1__0"; "_1"; "1_"; "1_.5"; "1e_5"; "0x1"; "0x"; "0xp1"; "0_x1p2"; "in_f"; "-nan"] = replicate 11 None.
Proof. split; vm_compute; reflexivity. Qed.

(** [round (num / den)] to an integer, ties to even. *)
Definition div_half_even (num : Z) (den : Z) : Z :=
  let q := (num / den)%Z in
  let r2 := (2 * (num mod den))%Z in
  if (r2 <? den)%Z then q
  else if (den <? r2)%Z then (q + 1)%Z
  else if Z.even q then q else (q + 1)%Z.

(** The magnitude of a finite float in cents, rounded to the nearest cent. *)
Definition cents (m : positive) (e : Z) : Z :=
  if (0 <=? e)%Z then (Zpos m * 2 ^ e * 100)%Z
  else div_half_even (Zpos m * 100) (2 ^ (- e)).

Definition pad2 (n : N) : string :=
  if (n <? 10)%N then ("0" +:+ print_N n) else print_N n.

Definition print_cents (neg : bool) (c : N) : string :=
  (if neg then "-" else "") +:+ (print_N (c / 100) +:+ ("." +:+ pad2 (c mod 100))).

(** [strconv.FormatFloat(v, 'f', 2, 64)]. *)
Definition FormatFloat2 (x : f64) : string :=
  match x with
  | S754_nan => "NaN"
  | S754_infinity false => "+Inf"
  | S754_infinity true => "-Inf"
  | S754_zero s => print_cents s 0
  | S754_finite s m e => print_cents s (Z.to_N (cents m e))
  end.

(** ** Printing and parsing an amount

    [FormatFloat2] then [ParseFloat] gives the float nearest to the amount in
    whole cents. *)

Definition is_digit (a : ascii) : bool := bool_decide (is_Some (digit a)).

Fixpoint all_chars (p : ascii → bool) (s : string) : bool :=
  match s with
  | EmptyString => true
  | String a s' => p a && all_chars p s'
  end.

Lemma all_chars_app p s1 s2 : all_chars p (s1 +:+ s2) = all_chars p s1 && all_chars p s2.
Proof.
  induction s1; [done|]. unfold String.app in *; simpl. by rewrite IHs1, andb_assoc.
Qed.

Lemma all_digits_uint u : all_chars is_digit (NilEmpty.string_of_uint u) = true.
Proof. induction u; simpl; auto. Qed.

Lemma all_digits_print_N n : all_chars is_digit (print_N n) = true.
Proof. apply all_digits_uint. Qed.

Lemma all_digits_pad2 n : all_chars is_digit (pad2 n) = true.
Proof. unfold pad2. case_match; [|apply all_digits_print_N].
  rewrite all_chars_app. by rewrite all_digits_print_N. Qed.

Lemma cut_at_none p s : all_chars (λ a, negb (p a)) s = true → cut_at p s = (s, None).
Proof.
  induction s as [|a s IH]; simpl; [done|]. intros [Ha Hs]%andb_true_iff.
  apply negb_true_iff in Ha. rewrite Ha, IH; done.
Qed.

Lemma cut_at_app p s a r :
  all_chars (λ a, negb (p a)) s = true → p a = true →
  cut_at p (s +:+ String a r) = (s, Some r).
Proof.
  intros Hs Ha. induction s as [|b s IH]; unfold String.app in *; simpl in *; [by rewrite Ha|].
  apply andb_true_iff in Hs as [Hb Hs]. apply negb_true_iff in Hb. rewrite Hb, IH; done.
Qed.

Lemma all_chars_impl (p q : ascii → bool) s :
  (∀ a, p a = true → q a = true) → all_chars p s = true → all_chars q s = true.
Proof. intros H. induction s; simpl; [done|]. rewrite !andb_true_iff. naive_solver. Qed.

Lemma digit_not_e a : is_digit a = true → negb (Ascii.eqb (lower_ascii a) "e") = true.
Proof. destruct a as [[][][][][][][][]]; vm_compute; congruence. Qed.

Lemma digit_not_dot a : is_digit a = true → negb (Ascii.eqb "." a) = true.
Proof. destruct a as [[][][][][][][][]]; vm_compute; congruence. Qed.

Lemma digit_lower a : is_digit a = true → lower_ascii a = a.
Proof. destruct a as [[][][][][][][][]]; vm_compute; congruence. Qed.

Lemma digit_sign a s : is_digit a = true → parse_sign (String a s) = (false, String a s).
Proof. destruct a as [[][][][][][][][]]; vm_compute; congruence. Qed.

Lemma print_N_cons n : ∃ a s, print_N n = String a s ∧ is_digit a = true.
Proof.
  pose proof (all_digits_print_N n) as H. destruct (print_N n) as [|a s] eqn:E.
  - pose proof (parse_print_N n) as H'. rewrite E in H'. injection H' as <-. done.
  - simpl in H. apply andb_true_iff in H as [? _]. eauto.
Qed.

(** A bounded statement about [N] is decided by evaluating every case. *)
Lemma N_bounded (b : N) (P : N → bool) :
  forallb (λ k, P (N.of_nat k)) (seq 0 (N.to_nat b)) = true → ∀ n, (n < b)%N → P n = true.
Proof.
  rewrite forallb_forall. intros H n Hn. specialize (H (N.to_nat n)).
  rewrite N2Nat.id in H. apply H. apply in_seq. lia.
Qed.

Definition digit_char (d : N) : ascii := ascii_of_N (48 + d).

Lemma digit_digit_char d : (d < 10)%N → digit (digit_char d) = Some d.
Proof.
  intros H. apply (bool_decide_unpack _), Is_true_true. revert d H.
  apply (N_bounded 10 (λ d, bool_decide (digit (digit_char d) = Some d))). vm_compute. done.
Qed.

Lemma pad2_digits n : (n < 100)%N →
  pad2 n = String (digit_char (n / 10)) (String (digit_char (n mod 10)) "").
Proof.
  intros H. apply (bool_decide_unpack _), Is_true_true. revert n H.
  apply (N_bounded 100 (λ n, bool_decide (pad2 n =
    String (digit_char (n / 10)) (String (digit_char (n mod 10)) "")))). vm_compute. done.
Qed.

Lemma parse_pad2 acc n : (n < 100)%N → parse_digits_from acc (pad2 n) = Some (acc * 100 + n)%N.
Proof.
  intros H. rewrite pad2_digits by done. cbn [parse_digits_from].
  rewrite !digit_digit_char by (try apply N.mod_lt; try apply N.Div0.div_lt_upper_bound; lia).
  f_equal. pose proof (N.div_mod n 10). lia.
Qed.

Lemma parse_amount c :
  parse_digits (print_N (c / 100) +:+ pad2 (c mod 100)) = Some c.
Proof.
  unfold parse_digits. rewrite parse_digits_app.
  change (parse_digits_from 0 (print_N (c / 100))) with (parse_digits (print_N (c / 100))).
  rewrite parse_print_N. simpl. rewrite parse_pad2 by (by apply N.mod_lt).
  f_equal. pose proof (N.div_mod c 100). lia.
Qed.

(** The float nearest to a whole number of cents. *)
Definition f64_of_cents (neg : bool) (c : N) : f64 :=
  let v := f64_of_ratio (Z.of_N c) 100 in if neg then f64_opp v else v.

Lemma cut_amount c :
  cut_at (Ascii.eqb ".") (print_N (c / 100) +:+ ("." +:+ pad2 (c mod 100)))
  = (print_N (c / 100), Some (pad2 (c mod 100))).
Proof.
  apply cut_at_app; [|done].
  eapply all_chars_impl; [apply digit_not_dot|apply all_digits_print_N].
Qed.

Lemma amount_no_exponent c :
  all_chars (λ a, negb (Ascii.eqb (lower_ascii a) "e"))
    (print_N (c / 100) +:+ ("." +:+ pad2 (c mod 100))) = true.
Proof.
  rewrite !all_chars_app.
  rewrite (all_chars_impl _ _ _ digit_not_e (all_digits_print_N _)).
  by rewrite (all_chars_impl _ _ _ digit_not_e (all_digits_pad2 _)).
Qed.

(** A text whose first byte is a digit is neither an infinity nor NaN. *)
Lemma digit_not_word a s w b w' :
  is_digit a = true → w = String b w' → is_digit b = false →
  (ToLower (String a s) =? w)%string = false.
Proof.
  intros Ha -> Hb. apply String.eqb_neq. simpl. rewrite digit_lower by done. congruence.
Qed.

(** A printed amount has neither separators nor the prefix. *)
Lemma no_underscore s : all_chars (λ a, negb (Ascii.eqb a "_")) s = true → has_underscore s = false.
Proof. induction s as [|a s IH]; [done|]. simpl. intros [Ha%negb_true_iff Hs]%andb_true_iff. by rewrite Ha, IH. Qed.

Lemma no_hex_body s : all_chars (λ a, negb (Ascii.eqb (lower_ascii a) "x")) s = true → hex_body s = None.
Proof.
  intros H. destruct s as [|a [|x [|b s]]]; [done|by destruct a as [[][][][][][][][]]..|].
  cbn [all_chars] in H. apply andb_true_iff in H as [_ H]. apply andb_true_iff in H as [Hx%negb_true_iff _].
  unfold hex_body. rewrite Hx. by destruct a as [[][][][][][][][]].
Qed.

Lemma amount_chars (p : ascii → bool) c : (∀ a, is_digit a = true → p a = true) → p "."%char = true →
  all_chars p (print_N (c / 100) +:+ ("." +:+ pad2 (c mod 100))) = true.
Proof.
  intros Hd Hp. rewrite !all_chars_app, (all_chars_impl _ _ _ Hd (all_digits_print_N _)), (all_chars_impl _ _ _ Hd (all_digits_pad2 _)).
  simpl. by rewrite Hp.
Qed.

Lemma digit_not_separator a : is_digit a = true → negb (Ascii.eqb a "_") = true.
Proof. destruct a as [[][][][][][][][]]; vm_compute; congruence. Qed.

Lemma digit_not_x a : is_digit a = true → negb (Ascii.eqb (lower_ascii a) "x") = true.
Proof. destruct a as [[][][][][][][][]]; vm_compute; congruence. Qed.

(** Parsing a printed amount gives back the amount, to the cent. *)
Lemma ParseFloat_print_cents neg c :
  is_inf (f64_of_ratio (Z.of_N c) 100) = false →
  ParseFloat (print_cents neg c) = Some (f64_of_cents neg c).
Proof.
  intros Hinf. unfold print_cents, f64_of_cents.
  set (body := print_N (c / 100) +:+ ("." +:+ pad2 (c mod 100))).
  assert (∃ a s, body = String a s ∧ is_digit a = true) as (a & s & Hbody & Ha).
  { destruct (print_N_cons (c / 100)) as (a & s & E & Ha). unfold body. rewrite E.
    unfold String.app; simpl. eauto. }
  assert (parse_sign ((if neg then "-" else "") +:+ body) = (neg, body)) as Hsign.
  { destruct neg; [done|]. change ("" +:+ body) with body. rewrite Hbody. by apply digit_sign. }
  assert (has_underscore ((if neg then "-" else "") +:+ body) = false) as Hus.
  { apply no_underscore. rewrite all_chars_app. unfold body. rewrite amount_chars; [by destruct neg|apply digit_not_separator|done]. }
  assert (hex_body body = None) as Hhex by (apply no_hex_body; unfold body; apply amount_chars; [apply digit_not_x|done]).
  unfold ParseFloat. rewrite Hus. unfold parse_float. rewrite Hsign.
  assert ((ToLower ((if neg then "-" else "") +:+ body) =? "nan")%string = false) as Hnan.
  { destruct neg; [done|]. change ("" +:+ body) with body. rewrite Hbody.
    by eapply digit_not_word. }
  rewrite Hnan, Hbody, !(digit_not_word a s _ _ _ Ha eq_refl) by done. rewrite <- Hbody, Hhex. cbn [orb].
  rewrite (cut_at_none _ body) by apply amount_no_exponent.
  unfold body. rewrite cut_amount. cbn [default from_option id].
  unfold f64_of_decimal. destruct (print_N_cons (c / 100)) as (a' & s' & E & _).
  rewrite E at 1. rewrite parse_amount, pad2_digits by (by apply N.mod_lt).
  change (0 - Z.of_nat _)%Z with (-2)%Z.
  change (Z.to_pos (10 ^ - (-2))) with 100%positive.
  change (0 <=? -2)%Z with false. cbv iota zeta. by rewrite Hinf.
Qed.
