(* ===== verification/GoTime.v ===== *)
(** Go's [time.Time], [time.Duration] and the UTC calendar.

    A [Time] is the number of nanoseconds since the zero [Time],
    0001-01-01 00:00:00 UTC, which was a Monday, so [IsZero] is a comparison
    with 0 and the day of the week is the day number modulo 7.  A [Duration]
    is an [int64] number of nanoseconds; [Sub] saturates as the library does.
    The calendar is the proleptic Gregorian one the library implements. *)

From stdpp Require Import base list strings option.
From Stdlib Require Import ZArith Lia Ascii.
From S2P Require Import Prelude GoFloat.
Local Open Scope Z_scope.

Definition Time : Type := Z.
Definition Duration : Type := Z.

Definition Nanosecond : Duration := 1.
Definition Millisecond : Duration := 1000000.
Definition Second : Duration := 1000000000.
Definition Minute : Duration := 60 * Second.
Definition Hour : Duration := 60 * Minute.

Definition IsZero (t : Time) : bool := t =? 0.
Definition After (t u : Time) : bool := u <? t.
Definition Before (t u : Time) : bool := t <? u.

(** [t.Sub(u)], saturating at the range of [int64]. *)
Definition Sub (t u : Time) : Duration := Z.max min_int64 (Z.min max_int64 (t - u)).

(** [t.Truncate(d)]; [metav1.Time] keeps whole seconds in the API server. *)
Definition TruncateTime (t : Time) (d : Duration) : Time := (t - t mod d)%Z.
Definition stored_time (t : Time) : Time := TruncateTime t Second.

Lemma TruncateTime_le t d : (0 < d)%Z → (TruncateTime t d <= t)%Z.
Proof. unfold TruncateTime, Time, Duration in *. intros. pose proof (Z.mod_pos_bound t d). lia. Qed.

Lemma TruncateTime_mono t t' d : (0 < d)%Z → (t <= t')%Z → (TruncateTime t d <= TruncateTime t' d)%Z.
Proof.
  unfold TruncateTime, Time, Duration in *. intros Hd Hle. pose proof (Z.div_le_mono t t' d Hd Hle).
  rewrite (Z.mod_eq t d), (Z.mod_eq t' d) by lia. nia.
Qed.

(** [d.Seconds()] and [d.Minutes()]. *)
Definition Seconds (d : Duration) : f64 :=
  (f64_of_Z (Z.quot d Second) + f64_of_Z (Z.rem d Second) / f64_of_Z 1000000000)%f64.
Definition Minutes (d : Duration) : f64 :=
  (f64_of_Z (Z.quot d Minute) + f64_of_Z (Z.rem d Minute) / f64_of_Z (60 * 1000000000))%f64.

(** ** The calendar *)

Definition ns_per_day : Z := 86400 * 1000000000.

Definition day_of (t : Time) : Z := t / ns_per_day.
Definition midnight (d : Z) : Time := d * ns_per_day.

Definition is_leap (y : Z) : bool :=
  (y mod 4 =? 0) && (negb (y mod 100 =? 0) || (y mod 400 =? 0)).

(** Days from 0001-01-01 to the first day of year [y]. *)
Definition year_start (y : Z) : Z :=
  let k := y - 1 in 365 * k + k / 4 - k / 100 + k / 400.

(** The year of a day: the 400-year average gives it up to one. *)
Definition year_of_day (d : Z) : Z :=
  let y := d * 400 / 146097 + 1 in
  if d <? year_start y then y - 1
  else if year_start (y + 1) <=? d then y + 1 else y.

(** Days of a year before month [m] (1 to 13). *)
Definition month_start (leap : bool) (m : Z) : Z :=
  let l := if leap then 1 else 0 in
  match m with
  | 1 => 0 | 2 => 31 | 3 => 59 + l | 4 => 90 + l | 5 => 120 + l | 6 => 151 + l
  | 7 => 181 + l | 8 => 212 + l | 9 => 243 + l | 10 => 273 + l | 11 => 304 + l
  | 12 => 334 + l | _ => 365 + l
  end.

Definition year_len (leap : bool) : Z := if leap then 366 else 365.

Definition month_of_yday (leap : bool) (yd : Z) : Z :=
  if yd <? month_start leap 2 then 1 else if yd <? month_start leap 3 then 2
  else if yd <? month_start leap 4 then 3 else if yd <? month_start leap 5 then 4
  else if yd <? month_start leap 6 then 5 else if yd <? month_start leap 7 then 6
  else if yd <? month_start leap 8 then 7 else if yd <? month_start leap 9 then 8
  else if yd <? month_start leap 10 then 9 else if yd <? month_start leap 11 then 10
  else if yd <? month_start leap 12 then 11 else 12.

(** [t.Date()]: year, month (1 to 12) and day of the month (from 1). *)
Definition civil_of_day (d : Z) : Z * Z * Z :=
  let y := year_of_day d in
  let yd := d - year_start y in
  let m := month_of_yday (is_leap y) yd in
  (y, m, yd - month_start (is_leap y) m + 1).

(** The day number of [time.Date(y, m, dd, ...)]: months outside 1..12 carry
    into the year, and the day of the month may take any value. *)
Definition day_of_civil (y m dd : Z) : Z :=
  let y' := y + (m - 1) / 12 in
  let m' := (m - 1) mod 12 + 1 in
  year_start y' + month_start (is_leap y') m' + (dd - 1).

(** [t.Weekday()]: Sunday is 0. *)
Definition Weekday (d : Z) : Z := (d + 1) mod 7.

(** [t.ISOWeek()]: the year and week of the Thursday of the day's week. *)
Definition ISOWeek (d : Z) : Z * Z :=
  let thursday := d - d mod 7 + 3 in
  let y := year_of_day thursday in
  (y, (thursday - year_start y) / 7 + 1).

(** ** Lemmas *)

Ltac zdm := Z.to_euclidean_division_equations; lia.

Lemma year_start_succ y : year_start (y + 1) = year_start y + year_len (is_leap y).
Proof.
  unfold year_start, year_len, is_leap.
  destruct (Z.eqb_spec (y mod 4) 0), (Z.eqb_spec (y mod 100) 0), (Z.eqb_spec (y mod 400) 0);
    simpl; zdm.
Qed.

Lemma year_of_day_spec d :
  let y := year_of_day d in year_start y <= d < year_start (y + 1).
Proof.
  unfold year_of_day. set (y := d * 400 / 146097 + 1).
  assert (year_start (y - 1) <= d < year_start (y + 2)) as H.
  { unfold y, year_start; zdm. }
  destruct (Z.ltb_spec d (year_start y)); [|destruct (Z.leb_spec (year_start (y + 1)) d)].
  - replace (y - 1 + 1) with y by lia. lia.
  - replace (y + 1 + 1) with (y + 2) by lia. lia.
  - lia.
Qed.

Lemma year_start_lt y z : y < z → year_start y + 365 <= year_start z.
Proof. unfold year_start. intros. zdm. Qed.

Lemma year_of_day_unique d y : year_start y <= d < year_start (y + 1) → year_of_day d = y.
Proof.
  intros H. pose proof (year_of_day_spec d) as H'. simpl in H'.
  destruct (Z.lt_trichotomy (year_of_day d) y) as [Hlt|[?|Hlt]]; [|done|].
  - assert (year_of_day d + 1 = y ∨ year_of_day d + 1 < y) as [E|E] by lia.
    + rewrite E in H'. lia.
    + apply year_start_lt in E. lia.
  - assert (y + 1 = year_of_day d ∨ y + 1 < year_of_day d) as [E|E] by lia.
    + rewrite E in H. lia.
    + apply year_start_lt in E. lia.
Qed.

Lemma year_of_day_mono d d' : d <= d' → year_of_day d <= year_of_day d'.
Proof.
  intros H. destruct (Z.le_gt_cases (year_of_day d) (year_of_day d')) as [?|Hlt]; [done|].
  pose proof (year_of_day_spec d). pose proof (year_of_day_spec d'). simpl in *.
  assert (year_of_day d' + 1 = year_of_day d ∨ year_of_day d' + 1 < year_of_day d) as [E|E] by lia.
  - rewrite E in *. lia.
  - apply year_start_lt in E. lia.
Qed.

Lemma month_of_yday_spec leap yd : 0 <= yd < year_len leap →
  let m := month_of_yday leap yd in
  1 <= m <= 12 ∧ month_start leap m <= yd < month_start leap (m + 1).
Proof.
  unfold month_of_yday, year_len. intros H; simpl.
  destruct leap; simpl;
  repeat match goal with |- context [?a <? ?b] => destruct (Z.ltb_spec a b) end; simpl; lia.
Qed.

(** The twelve cases of a month number. *)
Ltac case_month m :=
  let Hc := fresh in
  assert (m = 1 ∨ m = 2 ∨ m = 3 ∨ m = 4 ∨ m = 5 ∨ m = 6 ∨ m = 7 ∨ m = 8 ∨ m = 9
    ∨ m = 10 ∨ m = 11 ∨ m = 12) as Hc by lia;
  repeat destruct Hc as [->|Hc]; try subst m.

Lemma month_of_yday_unique leap yd m :
  1 <= m <= 12 → month_start leap m <= yd < month_start leap (m + 1) → month_of_yday leap yd = m.
Proof.
  intros Hm. unfold month_of_yday. destruct leap; case_month m; simpl; intros H;
  repeat match goal with |- context [?a <? ?b] => destruct (Z.ltb_spec a b); try lia end; lia.
Qed.

Lemma civil_of_day_spec d y m dd :
  civil_of_day d = (y, m, dd) →
  year_of_day d = y ∧ 1 <= m <= 12 ∧
  d = year_start y + month_start (is_leap y) m + (dd - 1) ∧
  1 <= dd ∧ d < year_start y + month_start (is_leap y) (m + 1).
Proof.
  unfold civil_of_day. intros [= <- <- <-].
  pose proof (year_of_day_spec d) as Hy. simpl in Hy. rewrite year_start_succ in Hy.
  pose proof (month_of_yday_spec (is_leap (year_of_day d)) (d - year_start (year_of_day d))).
  simpl in *. lia.
Qed.

Lemma day_of_civil_month y m dd : 1 <= m <= 12 →
  day_of_civil y m dd = year_start y + month_start (is_leap y) m + (dd - 1).
Proof.
  intros H. unfold day_of_civil. rewrite Z.div_small, Z.mod_small by lia.
  replace (m - 1 + 1) with m by lia. by replace (y + 0) with y by lia.
Qed.

(** The first day of the month after month [m] of year [y]. *)
Lemma day_of_civil_next_month y m : 1 <= m <= 12 →
  day_of_civil y (m + 1) 1 = year_start y + month_start (is_leap y) (m + 1).
Proof.
  intros H. destruct (Z.eq_dec m 12) as [->|].
  - change (12 + 1) with 13. unfold day_of_civil.
    change ((13 - 1) / 12) with 1. change ((13 - 1) mod 12 + 1) with 1.
    rewrite year_start_succ. simpl. destruct (is_leap y), (is_leap (y + 1)); simpl; lia.
  - rewrite day_of_civil_month by lia. lia.
Qed.

Lemma day_of_midnight d : day_of (midnight d) = d.
Proof. unfold day_of, midnight. apply Z.div_mul. done. Qed.

Lemma midnight_le_day d t : midnight d <= t ↔ d <= day_of t.
Proof. unfold midnight, day_of, ns_per_day. zdm. Qed.

Lemma lt_midnight_day d t : t < midnight d ↔ day_of t < d.
Proof. unfold midnight, day_of, ns_per_day. zdm. Qed.

Lemma day_of_mono t u : t <= u → day_of t <= day_of u.
Proof. unfold day_of, ns_per_day. zdm. Qed.

(** [time.Date(y, m, d, 0, 0, 0, 0, time.UTC)] and [t.AddDate(yy, mm, dd)]. *)
Definition Date (y m d : Z) : Time := midnight (day_of_civil y m d).

Definition AddDate (t : Time) (yy mm dd : Z) : Time :=
  let '(y, m, d) := civil_of_day (day_of t) in
  midnight (day_of_civil (y + yy) (m + mm) (d + dd)) + t mod ns_per_day.

Lemma midnight_mod d : midnight d mod ns_per_day = 0.
Proof. unfold midnight. by apply Z.mod_mul. Qed.

Lemma AddDate_days d n : AddDate (midnight d) 0 0 n = midnight (d + n).
Proof.
  unfold AddDate. rewrite day_of_midnight.
  destruct (civil_of_day d) as [[y m] dd] eqn:E.
  apply civil_of_day_spec in E as (_&Hm&Hd&_). rewrite midnight_mod, !Z.add_0_r.
  rewrite day_of_civil_month by done. f_equal. lia.
Qed.

Lemma month_start_bounds leap m : 1 <= m <= 12 →
  0 <= month_start leap m ∧ month_start leap m < month_start leap (m + 1) <= year_len leap.
Proof.
  intros Hm. case_month m; destruct leap; vm_compute; intuition congruence.
Qed.

Lemma month_start_mono leap m m' : 1 <= m → m < m' <= 12 →
  month_start leap (m + 1) <= month_start leap m'.
Proof.
  intros Hm Hm'. case_month m; case_month m'; try lia; destruct leap; vm_compute; congruence.
Qed.

Lemma civil_first_of_month y m : 1 <= m <= 12 → civil_of_day (day_of_civil y m 1) = (y, m, 1).
Proof.
  intros Hm. rewrite day_of_civil_month by done.
  set (d := year_start y + month_start (is_leap y) m + (1 - 1)).
  pose proof (month_start_bounds (is_leap y) m Hm) as Hms.
  assert (year_of_day d = y) as Hy.
  { apply year_of_day_unique. rewrite year_start_succ. unfold d. lia. }
  unfold civil_of_day. rewrite Hy.
  rewrite (month_of_yday_unique _ _ m) by (unfold d; lia). repeat f_equal. unfold d. lia.
Qed.

Lemma AddDate_month y m : 1 <= m <= 12 →
  AddDate (Date y m 1) 0 1 0 = midnight (day_of_civil y (m + 1) 1).
Proof.
  intros Hm. unfold AddDate, Date. rewrite day_of_midnight, civil_first_of_month by done.
  by rewrite midnight_mod, !Z.add_0_r.
Qed.
