(* ===== verification/GoPath.v ===== *)
(** Go's [path.Match] on ASCII text, as the allowlists of the resources use
    it: [*] matches any run of bytes but '/', [?] one such byte, [[a-z]] a
    class, '\\' quotes.  [None] is ErrBadPattern.  The lemmas give the two
    pattern shapes the resources document: a literal name and "*". *)

From stdpp Require Import base list strings option.
From Stdlib Require Import ZArith Lia Ascii.
From S2P Require Import Prelude.

(** The pattern's leading stars, the chunk up to the next star outside a
    class, and the rest. *)
Fixpoint strip_stars (pattern : string) : bool * string :=
  match pattern with
  | String "*" rest => (true, (strip_stars rest).2)
  | _ => (false, pattern)
  end.

Fixpoint scan_body (pattern : string) (inrange : bool) : string * string :=
  match pattern with
  | EmptyString => ("", "")
  | String "\" (String c rest) =>
      let '(chunk, rest) := scan_body rest inrange in (String "\" (String c chunk), rest)
  | String c rest =>
      if (ascii_Z c =? 42)%Z && negb inrange then ("", pattern)
      else
        let inrange := if (ascii_Z c =? 91)%Z then true
                       else if (ascii_Z c =? 93)%Z then false else inrange in
        let '(chunk, rest) := scan_body rest inrange in (String c chunk, rest)
  end.

Definition scanChunk (pattern : string) : bool * string * string :=
  let '(star, pattern) := strip_stars pattern in
  let '(chunk, rest) := scan_body pattern false in
  (star, chunk, rest).

(** One possibly quoted character of a class; the class must go on. *)
Definition getEsc (chunk : string) : option (Z * string) :=
  match chunk with
  | EmptyString => None
  | String c rest =>
      if (ascii_Z c =? 45)%Z || (ascii_Z c =? 93)%Z then None
      else
        match (if (ascii_Z c =? 92)%Z then rest else chunk) with
        | EmptyString => None
        | String c rest => match rest with EmptyString => None | _ => Some (ascii_Z c, rest) end
        end
  end.

(** The ranges of a class up to its ']': whether one holds [r], and the rest. *)
Fixpoint class_ranges (fuel : nat) (chunk : string) (r : Z) (nrange : bool) (matched : bool)
  : option (bool * string) :=
  match fuel with
  | O => None
  | S fuel =>
      match chunk, nrange with
      | String "]" rest, true => Some (matched, rest)
      | _, _ =>
          match getEsc chunk with
          | None => None
          | Some (lo, chunk) =>
              match (match chunk with
                     | String "-" rest => getEsc rest
                     | _ => Some (lo, chunk)
                     end) with
              | None => None
              | Some (hi, chunk) =>
                  class_ranges fuel chunk r true (matched || ((lo <=? r) && (r <=? hi))%Z)
              end
          end
      end
  end.

(** [matchChunk]: the outer option is the pattern error, the inner one the
    match's rest of the name; after a failure only the pattern is checked. *)
Fixpoint matchChunk (fuel : nat) (chunk s : string) (failed : bool) : option (option string) :=
  match fuel with
  | O => None
  | S fuel =>
      match chunk with
      | EmptyString => Some (if failed then None else Some s)
      | String c rest =>
          let failed := failed || match s with EmptyString => true | _ => false end in
          let head := match s with String a _ => ascii_Z a | EmptyString => 0%Z end in
          let tail := match s with String _ t => t | EmptyString => EmptyString end in
          if (ascii_Z c =? 91)%Z then
            let r := if failed then 0%Z else head in
            let '(negated, rest) := match rest with
                                    | String "^" rest => (true, rest)
                                    | _ => (false, rest)
                                    end in
            match class_ranges (S (String.length rest)) rest r false false with
            | None => None
            | Some (m, rest) => matchChunk fuel rest (if failed then s else tail) (failed || Bool.eqb m negated)
            end
          else if (ascii_Z c =? 63)%Z then
            matchChunk fuel rest (if failed then s else tail) (failed || (head =? 47)%Z)
          else
            match (if (ascii_Z c =? 92)%Z then rest else chunk) with
            | EmptyString => None
            | String c rest => matchChunk fuel rest (if failed then s else tail) (failed || negb (ascii_Z c =? head)%Z)
            end
      end
  end.

Definition match_chunk (chunk s : string) : option (option string) :=
  matchChunk (S (String.length chunk)) chunk s false.

(** The rest of a failed pattern is still checked. *)
Fixpoint pattern_valid (fuel : nat) (pattern : string) : bool :=
  match fuel with
  | O => false
  | S fuel =>
      match pattern with
      | EmptyString => true
      | _ =>
          let '(_, chunk, rest) := scanChunk pattern in
          match match_chunk chunk "" with
          | None => false
          | Some _ => pattern_valid fuel rest
          end
      end
  end.

(** The star loop: the chunk at every later position up to a '/'. *)
Fixpoint skip_match (chunk : string) (last : bool) (name : string) : option (option string) :=
  match name with
  | EmptyString => Some None
  | String a name' =>
      if (ascii_Z a =? 47)%Z then Some None
      else
        match match_chunk chunk name' with
        | None => None
        | Some (Some t) =>
            if last && negb (t =? "")%string then skip_match chunk last name' else Some (Some t)
        | Some None => skip_match chunk last name'
        end
  end.

Fixpoint path_match (fuel : nat) (pattern name : string) : option bool :=
  match fuel with
  | O => None
  | S fuel =>
      match pattern with
      | EmptyString => Some (name =? "")%string
      | _ =>
          let '(star, chunk, rest) := scanChunk pattern in
          if star && (chunk =? "")%string then Some (negb (contains_char "/" name))
          else
            let last := (rest =? "")%string in
            let fail := if pattern_valid fuel rest then Some false else None in
            match match_chunk chunk name with
            | None => None
            | Some m =>
                match m with
                | Some t =>
                    if (t =? "")%string || negb last then path_match fuel rest t
                    else if star then
                      match skip_match chunk last name with
                      | None => None
                      | Some (Some t) => path_match fuel rest t
                      | Some None => fail
                      end
                    else fail
                | None =>
                    if star then
                      match skip_match chunk last name with
                      | None => None
                      | Some (Some t) => path_match fuel rest t
                      | Some None => fail
                      end
                    else fail
                end
            end
      end
  end.

Definition Match (pattern name : string) : option bool :=
  path_match (S (String.length pattern)) pattern name.

Example match_examples :
  map (λ pn, Match pn.1 pn.2)
    [("*", "team-a"); ("team-*", "team-a"); ("team-*", "other"); ("t?am-[a-c]", "team-b");
     ("t?am-[^a-c]", "team-b"); ("team-[a", "team-a"); ("*-a", "team-b-a"); ("team-a", "team-a");
     ("a\*", "a*"); ("[", ""); ("*x[", "y"); ("*", "a/b"); ("", ""); ("[a]*[", "z")]
  = [Some true; Some true; Some false; Some true; Some false; None; Some true; Some true;
     Some true; None; None; Some false; Some true; None].
Proof. vm_compute. reflexivity. Qed.

(** ** Literal patterns *)

Definition literal_char (c : ascii) : bool :=
  negb ((ascii_Z c =? 42)%Z || (ascii_Z c =? 63)%Z || (ascii_Z c =? 91)%Z || (ascii_Z c =? 92)%Z).

Fixpoint literal (p : string) : bool :=
  match p with
  | EmptyString => true
  | String c p' => literal_char c && literal p'
  end.

Lemma scan_body_lit p b : literal p = true → scan_body p b = (p, "").
Proof.
  revert b; induction p as [|c p IH]; intros b; [done|].
  cbn [literal]. intros [Hc Hp]%andb_true_iff.
  assert (Hne : c ≠ "\"%char) by (intros ->; done).
  assert (H42 : (ascii_Z c =? 42)%Z = false)
    by (unfold literal_char in Hc; destruct (ascii_Z c =? 42)%Z; done).
  transitivity (let inrange := if (ascii_Z c =? 91)%Z then true
                       else if (ascii_Z c =? 93)%Z then false else b in
        let '(chunk, rest) := scan_body p inrange in (String c chunk, rest)).
  - cbn [scan_body]. rewrite H42. cbn [andb].
    destruct c as [[] [] [] [] [] [] [] []]; try reflexivity; done.
  - cbv zeta. by rewrite IH.
Qed.

Lemma matchChunk_failed fuel p s :
  literal p = true → String.length p < fuel → matchChunk fuel p s true = Some None.
Proof.
  revert fuel s; induction p as [|c p IH]; intros [|fuel] s; simpl; try lia; [done|].
  intros [Hc Hp]%andb_true_iff Hf. unfold literal_char in Hc.
  destruct (ascii_Z c =? 91)%Z; [destruct (ascii_Z c =? 42)%Z, (ascii_Z c =? 63)%Z; done|].
  destruct (ascii_Z c =? 63)%Z; [destruct (ascii_Z c =? 42)%Z; done|].
  destruct (ascii_Z c =? 92)%Z; [destruct (ascii_Z c =? 42)%Z; done|].
  apply IH; [done|lia].
Qed.

Lemma ascii_Z_eqb a b : (ascii_Z a =? ascii_Z b)%Z = Ascii.eqb a b.
Proof.
  destruct (Ascii.eqb_spec a b) as [->|Hne]; [apply Z.eqb_refl|].
  apply Z.eqb_neq. unfold ascii_Z. intros E%N2Z.inj. apply Hne.
  by rewrite <- (ascii_N_embedding a), <- (ascii_N_embedding b), E.
Qed.

Lemma matchChunk_lit fuel p s :
  literal p = true → String.length p < fuel → matchChunk fuel p s false = Some (CutPrefix s p).
Proof.
  revert fuel s; induction p as [|c p IH]; intros [|fuel] s; simpl; try lia; [by destruct s|].
  intros [Hc Hp]%andb_true_iff Hf. unfold literal_char in Hc.
  destruct (ascii_Z c =? 91)%Z; [destruct (ascii_Z c =? 42)%Z, (ascii_Z c =? 63)%Z; done|].
  destruct (ascii_Z c =? 63)%Z; [destruct (ascii_Z c =? 42)%Z; done|].
  destruct (ascii_Z c =? 92)%Z; [destruct (ascii_Z c =? 42)%Z; done|].
  destruct s as [|a s]; [apply matchChunk_failed; [done|lia]|].
  rewrite ascii_Z_eqb. destruct (Ascii.eqb_spec c a) as [->|Hn]; simpl.
  - rewrite ?Ascii.eqb_refl. apply IH; [done|lia].
  - apply Ascii.eqb_neq in Hn. rewrite ?Hn. apply matchChunk_failed; [done|lia].
Qed.

Lemma strip_stars_lit p : literal p = true → strip_stars p = (false, p).
Proof. by destruct p as [|[[] [] [] [] [] [] [] []] p]. Qed.

(** A literal pattern matches exactly itself. *)
Lemma Match_literal p name : literal p = true → Match p name = Some (p =? name)%string.
Proof.
  intros Hp. unfold Match. destruct p as [|c p]; [by destruct name|].
  cbn [path_match]. unfold scanChunk. rewrite strip_stars_lit, scan_body_lit by done. cbn [andb].
  unfold match_chunk. rewrite matchChunk_lit by (first [exact Hp | simpl; lia]).
  destruct (CutPrefix name (String c p)) as [t|] eqn:E.
  - apply CutPrefix_Some in E as ->. destruct t as [|a t]; cbn -[String.eqb].
    + rewrite string_app_nil_r, (String.eqb_refl (String c p)). done.
    + destruct (String.eqb_spec (String c p) (String c p +:+ String a t)) as [Heq|]; [|done].
      exfalso. apply (f_equal (λ s, CutPrefix s (String c p))) in Heq.
      pose proof (CutPrefix_app (String c p) "") as E'. autorewrite with kaalm_rw in E'.
      rewrite CutPrefix_app in Heq. congruence.
  - cbn -[String.eqb]. destruct (String.eqb_spec (String c p) name) as [<-|]; [|done].
    pose proof (CutPrefix_app (String c p) "") as E'. autorewrite with kaalm_rw in E'. congruence.
Qed.

(** "*" matches every name without a '/'. *)
Lemma Match_star name : Match "*" name = Some (negb (contains_char "/" name)).
Proof. by destruct name. Qed.

#[export] Hint Rewrite Match_star : kaalm_rw.

(** ** Malformed patterns

    Whether a pattern is malformed does not depend on the name. *)

Lemma class_ranges_rest fuel chunk r r' b m m' :
  snd <$> class_ranges fuel chunk r b m = snd <$> class_ranges fuel chunk r' b m'.
Proof.
  revert chunk b m m'; induction fuel as [|fuel IH]; intros chunk b m m'; [done|]. cbn [class_ranges].
  repeat case_match; simplify_eq; try done; apply IH.
Qed.

Lemma matchChunk_error fuel chunk s s' f f' :
  matchChunk fuel chunk s f = None ↔ matchChunk fuel chunk s' f' = None.
Proof.
  revert chunk s s' f f'; induction fuel as [|fuel IH]; intros chunk s s' f f'; [done|]. cbn [matchChunk].
  destruct chunk as [|c rest]; [done|]. destruct (ascii_Z c =? 91)%Z.
  - destruct (match rest with String "^" rest0 => _ | _ => _ end) as [neg rest'].
    pose proof (class_ranges_rest (S (String.length rest')) rest'
      (if f || match s with "" => true | _ => false end then 0%Z else match s with String a _ => ascii_Z a | "" => 0%Z end)
      (if f' || match s' with "" => true | _ => false end then 0%Z else match s' with String a _ => ascii_Z a | "" => 0%Z end)
      false false false) as H.
    destruct (class_ranges _ _ _ _ _) as [[m1 r1]|], (class_ranges _ _ _ _ _) as [[m2 r2]|]; simplify_eq/=; [apply IH|done].
  - destruct (ascii_Z c =? 63)%Z; [apply IH|]. destruct (if (ascii_Z c =? 92)%Z then rest else _) as [|c' rest']; [done|apply IH].
Qed.

Lemma skip_match_error chunk last name : match_chunk chunk "" ≠ None → skip_match chunk last name ≠ None.
Proof.
  intros H. induction name as [|a name IH]; [done|]. cbn [skip_match]. destruct (_ =? 47)%Z; [done|].
  destruct (match_chunk chunk name) as [[t|]|] eqn:E; [by destruct (_ && _)|done|].
  exfalso. apply H. unfold match_chunk in *. by eapply matchChunk_error.
Qed.

Lemma strip_stars_spec p s p' : strip_stars p = (s, p') → String.length p' ≤ String.length p ∧
  (s = true → String.length p' < String.length p) ∧ ∀ r, p' ≠ String "*" r.
Proof.
  revert s p'; induction p as [|c p IH]; intros s p'; simpl; [intros [= <- <-]; split_and!; [done|done|done]|].
  destruct (decide (c = "*"%char)) as [->|Hc].
  - intros [= <- <-]. destruct (strip_stars p) as [s' p'']. destruct (IH s' p'' eq_refl) as (H1 & H2 & H3). simpl. split_and!; [lia|lia|done].
  - intros H. assert (Hsame : (s, p') = (false, String c p)).
    { rewrite <- H. destruct c as [[] [] [] [] [] [] [] []]; try done; by destruct Hc. }
    injection Hsame as -> ->. split_and!; [simpl; lia|done|by intros r [= ? ?]].
Qed.

Lemma scan_body_length p b chunk rest : scan_body p b = (chunk, rest) → String.length rest ≤ String.length p.
Proof.
  assert (H : ∀ n p b chunk rest, String.length p ≤ n → scan_body p b = (chunk, rest) → String.length rest ≤ String.length p).
  2: by apply (H (String.length p)).
  clear. induction n as [|n IH]; intros [|c p] b chunk rest Hn; simpl in Hn; try lia; [by intros [= <- <-]..|].
  assert (Hgen : ∀ f, (if (ascii_Z c =? 42)%Z && negb b then ("", String c p)
      else let '(chunk, rest) := scan_body p f in (String c chunk, rest)) = (chunk, rest) → String.length rest ≤ String.length (String c p)).
  { intros f. destruct (_ && _); [by intros [= <- <-]|]. destruct (scan_body p f) as [c' r'] eqn:E. intros [= <- <-].
    apply IH in E; simpl; lia. }
  destruct (decide (c = "\"%char)) as [->|Hc].
  - destruct p as [|d p]; [apply (Hgen b)|]. cbn [scan_body]. destruct (scan_body p b) as [c' r'] eqn:E. intros [= <- <-].
    apply IH in E; simpl in *; lia.
  - intros H. apply (Hgen (if (ascii_Z c =? 91)%Z then true else if (ascii_Z c =? 93)%Z then false else b)).
    rewrite <- H. destruct c as [[] [] [] [] [] [] [] []]; try done; by destruct Hc.
Qed.

Lemma scanChunk_rest p s chunk rest : p ≠ "" → scanChunk p = (s, chunk, rest) → String.length rest < String.length p.
Proof.
  intros Hp. unfold scanChunk. destruct (strip_stars p) as [s' p'] eqn:E. destruct (strip_stars_spec _ _ _ E) as (H1 & H2 & H3).
  destruct (scan_body p' false) as [c r] eqn:Eb. intros [= <- <- <-]. pose proof (scan_body_length _ _ _ _ Eb) as Hl.
  destruct s'; [specialize (H2 eq_refl); lia|].
  destruct p' as [|a p']; [destruct p; [done|simpl in *; injection Eb as <- <-; simpl; lia]|].
  assert (String.length r < String.length (String a p')); [|lia].
  assert (Hgen : ∀ f, (if (ascii_Z a =? 42)%Z && negb false then ("", String a p')
      else let '(chunk, rest) := scan_body p' f in (String a chunk, rest)) = (c, r) → String.length r < String.length (String a p')).
  { intros f. destruct (ascii_Z a =? 42)%Z eqn:E42; simpl.
    - exfalso. apply (H3 p'). f_equal. apply Z.eqb_eq in E42. rewrite <- (ascii_N_embedding a), <- (ascii_N_embedding "*"). f_equal.
      unfold ascii_Z in E42. change (N_of_ascii "*") with 42%N. lia.
    - destruct (scan_body p' f) as [c' r'] eqn:E'. intros [= <- <-]. apply scan_body_length in E'. lia. }
  destruct (decide (a = "\"%char)) as [->|Hc].
  - destruct p' as [|d p']; [by apply (Hgen false)|]. cbn [scan_body] in Eb. destruct (scan_body p' false) as [c' r'] eqn:E'.
    injection Eb as <- <-. apply scan_body_length in E'. simpl. lia.
  - apply (Hgen (if (ascii_Z a =? 91)%Z then true else if (ascii_Z a =? 93)%Z then false else false)).
    rewrite <- Eb. destruct a as [[] [] [] [] [] [] [] []]; try done; by destruct Hc.
Qed.

Lemma path_match_error fuel pattern name : String.length pattern < fuel →
  path_match fuel pattern name = None ↔ pattern_valid fuel pattern = false.
Proof.
  revert pattern name; induction fuel as [|fuel IH]; intros pattern name Hf; [lia|]. cbn [path_match pattern_valid].
  destruct pattern as [|c pattern]; [done|]. destruct (scanChunk (String c pattern)) as [[star chunk] rest] eqn:Es.
  apply scanChunk_rest in Es as Hr; [|done].
  assert (Hrest : ∀ t, path_match fuel rest t = None ↔ pattern_valid fuel rest = false) by (intros; apply IH; lia).
  destruct (star && (chunk =? "")%string) eqn:E0.
  { apply andb_true_iff in E0 as [-> ->%String.eqb_eq].
    assert (Hnil : rest = "").
    { unfold scanChunk in Es. destruct (strip_stars _) as [s' p'] eqn:E. destruct (strip_stars_spec _ _ _ E) as (_ & _ & H3).
      destruct (scan_body p' false) as [c' r'] eqn:Eb. injection Es as -> -> ->. destruct p' as [|a p']; [by injection Eb|].
      destruct a as [[] [] [] [] [] [] [] []]; cbn in Eb; try (destruct (scan_body p' _); done);
        [by destruct (H3 p')|destruct p'; [done|destruct (scan_body p' _); done]]. }
    subst rest. split; [done|]. destruct fuel; [simpl in Hf; lia|done]. }
  pose proof (matchChunk_error (S (String.length chunk)) chunk name "" false false) as He. fold (match_chunk chunk name) (match_chunk chunk "") in He.
  pose proof (skip_match_error chunk (rest =? "")%string name) as Hs.
  assert (Hfail : (if pattern_valid fuel rest then Some false else None) = None ↔ pattern_valid fuel rest = false)
    by (by destruct (pattern_valid fuel rest)).
  destruct (match_chunk chunk "") as [m0|] eqn:E1; [|by rewrite (proj2 He eq_refl)].
  specialize (Hs ltac:(done)). destruct (match_chunk chunk name) as [m|] eqn:E2; [|by pose proof (proj1 He eq_refl)].
  destruct (skip_match _ _ _) as [[t|]|]; [..|done]; destruct m as [u|]; repeat case_match; first [apply Hrest | apply Hfail].
Qed.

(** A pattern is malformed for one name exactly when it is for every name. *)
Lemma Match_error pattern name name' : Match pattern name = None ↔ Match pattern name' = None.
Proof. unfold Match. rewrite !path_match_error by lia. done. Qed.
