(* ===== verification/Api.v ===== *)
(** The resource types of api/v1beta1 that the modelled components read.

    Records keep the source's fields in the source's order.  A field no
    modelled component reads (endpoint, credential reference, display name,
    health check, status) is left out; pointers are [option]s. *)

From stdpp Require Import base gmap list strings option.
From Stdlib Require Import ZArith.
From S2P Require Import Prelude.

(** ** ModelProvider *)

Definition ProviderTypeAnthropic : string := "anthropic".
Definition ProviderTypeOpenAI : string := "openai".
Definition ProviderTypeOpenAICompatible : string := "openai-compatible".
Definition ProviderTypeGoogleVertex : string := "google-vertex".

Definition BudgetActionWarn : string := "warn".
Definition BudgetActionDegrade : string := "degrade".
Definition BudgetActionBlock : string := "block".
Definition BudgetEnforcementSoft : string := "soft".
Definition BudgetEnforcementHard : string := "hard".
Definition BudgetStateNormal : string := "Normal".
Definition BudgetStateThrottled : string := "Throttled".
Definition BudgetStateBlocked : string := "Blocked".

Record ModelProviderModel := mk_model {
  ID : string;
  CostPer1MInputTokens : string;
  CostPer1MOutputTokens : string;
  MaxOutputTokens : option Z;
}.

Record FallbackReference := mk_fallback_ref {
  fb_Name : string;
  ModelMap : gmap string string;
}.

Record ModelProviderBudgetHard := mk_budget_hard {
  BoundaryMarginPercent : Z;
}.

Record ModelProviderBudgetPolicy := mk_policy {
  AtPercent : Z;
  pol_Action : string;
  pol_DegradeTo : option string;
}.

Record ModelProviderBudget := mk_budget {
  Period : string;
  PerNamespaceUSD : string;
  Policies : list ModelProviderBudgetPolicy;
  ClusterUSD : option string;
  Enforcement : string;
  Hard : option ModelProviderBudgetHard;
}.

Record ModelProviderRateLimits := mk_rate_limits {
  RequestsPerMinute : Z;
  TokensPerMinute : Z;
}.

Record ModelProviderSpec := mk_provider_spec {
  Type_ : string;
  Models : list ModelProviderModel;
  AllowedNamespaces : list string;
  Budget : ModelProviderBudget;
  RateLimits : ModelProviderRateLimits;
  Fallback : list FallbackReference;
}.

Record ModelProvider := mk_provider {
  Name : string;
  UID : string;
  Spec : ModelProviderSpec;
}.

(** ** Workloads and their class *)

Record AgentProviderReference := mk_provider_ref { pr_Name : string }.

(** A grant of a ToolProvider; no tools means all of its tools. *)
Record AgentToolGrant := mk_grant {
  tg_ProviderRef : string;
  tg_Tools : list string;
}.

(** Agent and AgentTask as the routing reads them. *)
Record Workload := mk_workload {
  wl_Providers : list AgentProviderReference;
  AgentClassRef : string;
  wl_Tools : list AgentToolGrant;
}.

Record AgentClass := mk_class {
  class_AllowedNamespaces : list string;
  AllowedProviders : list string;
  AllowedToolProviders : list string;
}.

(** ** Tool providers *)

Record ToolProviderSpec := mk_tool_provider_spec {
  tp_Endpoint : string;
  tp_AllowedNamespaces : list string;
  tp_Tools : list string;
  tp_RequestsPerMinute : Z;
}.

Record ToolProvider := mk_tool_provider {
  tp_Name : string;
  tp_Spec : ToolProviderSpec;
}.

#[global] Instance policy_eq_dec : EqDecision ModelProviderBudgetPolicy.
Proof. solve_decision. Defined.

(** ** Fallback formats (api/v1beta1/fallback.go) *)

Definition ProviderFormat (providerType : string) : string :=
  if (providerType =? ProviderTypeOpenAICompatible)%string
  then ProviderTypeOpenAI else providerType.

Definition translatableFormat (providerType : string) : bool :=
  ((providerType =? ProviderTypeAnthropic) || (providerType =? ProviderTypeOpenAI)
   || (providerType =? ProviderTypeOpenAICompatible))%string.

Definition FallbackFormatCompatible (parent child : string) : bool :=
  if (parent =? child)%string then true
  else translatableFormat parent && translatableFormat child.

Definition FallbackCrossesFormat (parent child : string) : bool :=
  negb (ProviderFormat parent =? ProviderFormat child)%string.

(** An edge rule 12 admits crosses formats only between the two formats the
    gateway translates. *)
Lemma crossing_is_translatable parent child :
  FallbackFormatCompatible parent child = true →
  FallbackCrossesFormat parent child = true →
  translatableFormat parent = true ∧ translatableFormat child = true.
Proof.
  unfold FallbackFormatCompatible, FallbackCrossesFormat.
  destruct (String.eqb_spec parent child) as [->|].
  - intros _. by rewrite String.eqb_refl.
  - by intros [??]%andb_true_iff.
Qed.
