(* ===== verification/BudgetPeriod.v ===== *)
(** Budget periods: [PeriodKey] and [nextPeriodStart] of
    internal/gateway/budget.go.

    A period key names a month, an ISO week or a day in UTC.  The theorems
    say that a key holds for exactly one half-open window of time, that the
    window ends at [nextPeriodStart], and that keys sort as strings in the
    order of time, which the reducer's archive relies on. *)

From stdpp Require Import base list strings option.
From Stdlib Require Import ZArith Lia Ascii.
From S2P Require Import Prelude GoFloat GoTime.
Local Open Scope Z_scope.

(** [Format]'s zero-padded fields and [%d], [%02d]. *)
Fixpoint zeros (n : nat) : string :=
  match n with O => "" | S n' => String "0" (zeros n') end.

Definition zpad (w : nat) (n : Z) : string :=
  let s := print_N (Z.to_N n) in zeros (w - String.length s) +:+ s.

Definition PeriodKey (scheme : string) (t : Time) : string :=
  if (scheme =? "monthly")%string then
    let '(y, m, _) := civil_of_day (day_of t) in
    zpad 4 y +:+ ("-" +:+ zpad 2 m)
  else if (scheme =? "weekly")%string then
    let '(year, week) := ISOWeek (day_of t) in
    zpad 1 year +:+ ("-W" +:+ zpad 2 week)
  else if (scheme =? "daily")%string then
    let '(y, m, d) := civil_of_day (day_of t) in
    zpad 4 y +:+ ("-" +:+ (zpad 2 m +:+ ("-" +:+ zpad 2 d)))
  else "".

Definition nextPeriodStart (scheme : string) (t : Time) : Time :=
  let '(y, m, d) := civil_of_day (day_of t) in
  if (scheme =? "monthly")%string then AddDate (Date y m 1) 0 1 0
  else if (scheme =? "weekly")%string then
    let daysUntilMonday := (8 - Weekday (day_of t)) mod 7 in
    let daysUntilMonday := if daysUntilMonday =? 0 then 7 else daysUntilMonday in
    AddDate (Date y m d) 0 0 daysUntilMonday
  else AddDate (Date y m d) 0 0 1.

(** The schemes that track a budget. *)
Definition tracked_scheme (scheme : string) : bool :=
  ((scheme =? "monthly") || (scheme =? "weekly") || (scheme =? "daily"))%string.

(** Times whose calendar year and ISO year have four digits. *)
Definition four_digit_day (d : Z) : Prop :=
  1000 <= year_of_day (d - 3) ∧ year_of_day (d + 3) <= 9999.
Definition four_digit_year (t : Time) : Prop := four_digit_day (day_of t).

(** ** The period as a day interval *)

Definition period_first_day (scheme : string) (d : Z) : Z :=
  if (scheme =? "monthly")%string then
    let '(y, m, _) := civil_of_day d in day_of_civil y m 1
  else if (scheme =? "weekly")%string then d - d mod 7
  else d.

Definition period_next_day (scheme : string) (d : Z) : Z :=
  if (scheme =? "monthly")%string then
    let '(y, m, _) := civil_of_day d in day_of_civil y (m + 1) 1
  else if (scheme =? "weekly")%string then d - d mod 7 + 7
  else d + 1.

Lemma nextPeriodStart_day scheme t :
  tracked_scheme scheme = true →
  nextPeriodStart scheme t = midnight (period_next_day scheme (day_of t)).
Proof.
  unfold tracked_scheme, nextPeriodStart, period_next_day. intros Hs.
  destruct (civil_of_day (day_of t)) as [[y m] dd] eqn:E.
  pose proof (civil_of_day_spec _ _ _ _ E) as (_&Hm&Hd&_).
  assert (Date y m dd = midnight (day_of t)) as HD.
  { unfold Date. rewrite day_of_civil_month by done. f_equal. lia. }
  repeat case_match; bool_to_prop; subst; try done.
  - by apply AddDate_month.
  - rewrite HD, AddDate_days. f_equal. unfold Weekday in *. zdm.
  - rewrite HD, AddDate_days. f_equal. unfold Weekday in *. zdm.
  - rewrite HD. apply AddDate_days.
Qed.

Lemma period_day_bounds scheme d :
  period_first_day scheme d <= d < period_next_day scheme d.
Proof.
  unfold period_first_day, period_next_day.
  destruct (civil_of_day d) as [[y m] dd] eqn:E.
  apply civil_of_day_spec in E as (_&Hm&Hd&Hdd&Hn).
  repeat case_match; [|zdm|lia].
  rewrite day_of_civil_next_month, day_of_civil_month by done. lia.
Qed.

(** ** Decimal fields compare as numbers *)

Fixpoint digits (w : nat) (n : N) : string :=
  match w with
  | O => ""
  | S w' => String (digit_char (n / 10 ^ N.of_nat w' mod 10)) (digits w' n)
  end.

Lemma compare_digit_char a b : (a < 10)%N → (b < 10)%N →
  Ascii.compare (digit_char a) (digit_char b) = N.compare a b.
Proof.
  intros Ha Hb. unfold Ascii.compare, digit_char. rewrite !N_ascii_embedding by lia.
  destruct (N.compare_spec (48 + a) (48 + b)), (N.compare_spec a b); lia || done.
Qed.

Lemma digits_mod_split w n :
  (n mod 10 ^ N.of_nat (S w)
   = 10 ^ N.of_nat w * (n / 10 ^ N.of_nat w mod 10) + n mod 10 ^ N.of_nat w)%N.
Proof.
  rewrite Nat2N.inj_succ, N.pow_succ_r', (N.mul_comm 10).
  rewrite N.Div0.mod_mul_r. lia.
Qed.

Lemma digits_carry (p a a' r r' : N) :
  (p * a + r < p * a' + r')%N → (r' < p)%N → (a' < a)%N → False.
Proof. intros. assert (p * (a' + 1) <= p * a)%N by (apply N.mul_le_mono_l; lia). lia. Qed.

Lemma compare_digits w n n' s s' :
  (n mod 10 ^ N.of_nat w < n' mod 10 ^ N.of_nat w)%N →
  String.compare (digits w n +:+ s) (digits w n' +:+ s') = Lt.
Proof.
  revert n n'; induction w as [|w IH]; intros n n'.
  - change (10 ^ N.of_nat 0)%N with 1%N. rewrite !N.mod_1_r. lia.
  - rewrite !digits_mod_split. intros Hlt. unfold String.app in *; cbn [digits String.append String.compare].
    rewrite compare_digit_char by (by apply N.mod_lt).
    assert (0 < 10 ^ N.of_nat w)%N as Hp by (apply N.neq_0_lt_0, N.pow_nonzero; done).
    pose proof (N.mod_lt n (10 ^ N.of_nat w) ltac:(lia)) as H1.
    pose proof (N.mod_lt n' (10 ^ N.of_nat w) ltac:(lia)) as H2.
    destruct (N.compare_spec (n / 10 ^ N.of_nat w mod 10) (n' / 10 ^ N.of_nat w mod 10)) as [E|E|E]; [|done|].
    2: { exfalso. by eapply (digits_carry (10 ^ N.of_nat w)). }
    apply IH. rewrite E in Hlt. lia.
Qed.

Lemma N_bounded_string (b : N) (f g : N → string) :
  forallb (λ k, String.eqb (f (N.of_nat k)) (g (N.of_nat k))) (seq 0 (N.to_nat b)) = true →
  ∀ n, (n < b)%N → f n = g n.
Proof. intros H n Hn. apply String.eqb_eq. by apply (N_bounded b (λ k, String.eqb (f k) (g k))). Qed.

Lemma zpad4_digits y : 0 <= y <= 9999 → zpad 4 y = digits 4 (Z.to_N y).
Proof.
  intros H. rewrite <- (Z2N.id y) at 1 by lia.
  apply (N_bounded_string 10000 (λ k, zpad 4 (Z.of_N k)) (digits 4)); [by vm_compute|lia].
Qed.

Lemma zpad1_digits y : 1000 <= y <= 9999 → zpad 1 y = digits 4 (Z.to_N y).
Proof.
  intros H. replace y with (Z.of_N (Z.to_N (y - 1000)) + 1000) at 1 by lia.
  replace (Z.to_N y) with (Z.to_N (y - 1000) + 1000)%N by lia.
  apply (N_bounded_string 9000 (λ k, zpad 1 (Z.of_N k + 1000)) (λ k, digits 4 (k + 1000)));
    [by vm_compute|lia].
Qed.

Lemma zpad2_digits m : 0 <= m <= 99 → zpad 2 m = digits 2 (Z.to_N m).
Proof.
  intros H. rewrite <- (Z2N.id m) at 1 by lia.
  apply (N_bounded_string 100 (λ k, zpad 2 (Z.of_N k)) (digits 2)); [by vm_compute|lia].
Qed.

Lemma compare_app p s s' : String.compare (p +:+ s) (p +:+ s') = String.compare s s'.
Proof.
  induction p as [|a p IH]; [done|]. unfold String.app in *; simpl.
  unfold Ascii.compare. by rewrite N.compare_refl.
Qed.

(** Go's [<] on strings. *)
Definition str_lt (s s' : string) : Prop := String.compare s s' = Lt.

Lemma str_lt_year y y' s s' :
  1000 <= y <= 9999 → 1000 <= y' <= 9999 → y < y' →
  str_lt (zpad 4 y +:+ s) (zpad 4 y' +:+ s') ∧ str_lt (zpad 1 y +:+ s) (zpad 1 y' +:+ s').
Proof.
  intros. rewrite !zpad4_digits, !zpad1_digits by lia.
  split; apply compare_digits; change (10 ^ N.of_nat 4)%N with 10000%N;
    rewrite !N.mod_small; lia.
Qed.

Lemma str_lt_two m m' s s' :
  0 <= m <= 99 → 0 <= m' <= 99 → m < m' → str_lt (zpad 2 m +:+ s) (zpad 2 m' +:+ s').
Proof.
  intros. rewrite !zpad2_digits by lia. apply compare_digits.
  change (10 ^ N.of_nat 2)%N with 100%N. rewrite !N.mod_small; lia.
Qed.

Lemma str_lt_two2 m m' :
  0 <= m <= 99 → 0 <= m' <= 99 → m < m' → str_lt (zpad 2 m) (zpad 2 m').
Proof.
  intros. rewrite <- (string_app_nil_r (zpad 2 m)), <- (string_app_nil_r (zpad 2 m')).
  by apply str_lt_two.
Qed.

Lemma str_lt_app p s s' : str_lt s s' → str_lt (p +:+ s) (p +:+ s').
Proof. unfold str_lt. by rewrite compare_app. Qed.

Lemma str_lt_neq s s' : str_lt s s' → s ≠ s'.
Proof.
  intros H ->. unfold str_lt in H.
  rewrite <- (string_app_nil_r s'), compare_app in H. done.
Qed.

(** ** Keys, windows and order *)

(** Within one period the key does not change. *)
Lemma key_same_period scheme d d' t t' :
  tracked_scheme scheme = true → day_of t = d → day_of t' = d' →
  period_first_day scheme d <= d' < period_next_day scheme d →
  PeriodKey scheme t' = PeriodKey scheme t.
Proof.
  unfold PeriodKey, period_first_day, period_next_day, tracked_scheme.
  intros Hs -> -> Hd. destruct (scheme =? "monthly")%string; [|destruct (scheme =? "weekly")%string].
  - destruct (civil_of_day d) as [[y m] dd] eqn:E.
    apply civil_of_day_spec in E as (Hy&Hm&_&_).
    rewrite day_of_civil_month, day_of_civil_next_month in Hd by done.
    destruct (civil_of_day d') as [[y' m'] dd'] eqn:E'.
    assert (year_of_day d' = y) as Hy'.
    { apply year_of_day_unique. rewrite year_start_succ.
      pose proof (month_start_bounds (is_leap y) m Hm). lia. }
    unfold civil_of_day in E'. rewrite Hy' in E'. injection E' as <- <- _.
    rewrite (month_of_yday_unique _ _ m) by (done || lia). done.
  - unfold ISOWeek. replace (d' - d' mod 7) with (d - d mod 7) by zdm. done.
  - simpl in Hs. rewrite Hs. replace d' with d by lia. done.
Qed.

(** The month after a given one, and the year order, in terms of days. *)
Lemma civil_order d d' y m dd y' m' dd' :
  civil_of_day d = (y, m, dd) → civil_of_day d' = (y', m', dd') → d < d' →
  y < y' ∨ (y = y' ∧ (m < m' ∨ (m = m' ∧ dd < dd'))).
Proof.
  intros E E' Hlt.
  pose proof (year_of_day_mono d d').
  apply civil_of_day_spec in E as (Hy&Hm&Hd&Hdd&Hn).
  apply civil_of_day_spec in E' as (Hy'&Hm'&Hd'&Hdd'&Hn').
  destruct (Z.lt_trichotomy y y') as [?|[<-|?]]; [by left| |lia].
  right; split; [done|]. destruct (Z.lt_trichotomy m m') as [?|[<-|Hlt']]; [by left|right; lia|].
  pose proof (month_start_mono (is_leap y) m' m). lia.
Qed.

Lemma four_digit_year_bounds d : four_digit_day d → 1000 <= year_of_day d <= 9999.
Proof.
  intros [H1 H2]. pose proof (year_of_day_mono (d - 3) d). pose proof (year_of_day_mono d (d + 3)). lia.
Qed.

Lemma four_digit_thursday d : four_digit_day d → 1000 <= year_of_day (d - d mod 7 + 3) <= 9999.
Proof.
  intros [H1 H2]. pose proof (Z.mod_pos_bound d 7).
  pose proof (year_of_day_mono (d - 3) (d - d mod 7 + 3)).
  pose proof (year_of_day_mono (d - d mod 7 + 3) (d + 3)). lia.
Qed.

(** The week number of a Thursday. *)
Lemma thursday_week th :
  let w := (th - year_start (year_of_day th)) / 7 + 1 in 1 <= w <= 53.
Proof.
  simpl. pose proof (year_of_day_spec th) as H. simpl in H. rewrite year_start_succ in H.
  unfold year_len in H. destruct (is_leap _); zdm.
Qed.

Lemma civil_field_bounds d y m dd : civil_of_day d = (y, m, dd) → 1 <= m <= 12 ∧ 1 <= dd <= 31.
Proof.
  intros E. apply civil_of_day_spec in E as (_&Hm&Hd&Hdd&Hn). split; [done|split; [done|]].
  revert Hn Hd. case_month m; destruct (is_leap y); simpl; lia.
Qed.

(** A day at or after the end of a period has a later key. *)
Lemma key_later_period scheme t t' :
  tracked_scheme scheme = true → four_digit_year t → four_digit_year t' →
  period_next_day scheme (day_of t) <= day_of t' →
  str_lt (PeriodKey scheme t) (PeriodKey scheme t').
Proof.
  unfold PeriodKey, period_next_day, tracked_scheme, four_digit_year.
  generalize (day_of t) (day_of t'). clear t t'. intros d d' Hs Hd Hd' Hn.
  pose proof (four_digit_year_bounds d Hd) as Hb. pose proof (four_digit_year_bounds d' Hd') as Hb'.
  destruct (scheme =? "monthly")%string; [|destruct (scheme =? "weekly")%string].
  - destruct (civil_of_day d) as [[y m] dd] eqn:E, (civil_of_day d') as [[y' m'] dd'] eqn:E'.
    pose proof (civil_of_day_spec _ _ _ _ E) as (Hy&Hm&Hd1&Hdd&Hn1).
    pose proof (civil_of_day_spec _ _ _ _ E') as (Hy'&Hm'&Hd1'&Hdd'&Hn1').
    rewrite day_of_civil_next_month in Hn by done.
    destruct (civil_order _ _ _ _ _ _ _ _ E E') as [?|[-> [?|[-> _]]]]; [lia| | |lia].
    + apply str_lt_year; lia.
    + do 2 apply str_lt_app. apply str_lt_two2; lia.
  - unfold ISOWeek. set (th := d - d mod 7 + 3). set (th' := d' - d' mod 7 + 3).
    assert (th + 7 <= th') as Hth by (unfold th, th'; zdm).
    pose proof (four_digit_thursday d Hd) as Hy. pose proof (four_digit_thursday d' Hd') as Hy'.
    fold th in Hy. fold th' in Hy'. pose proof (year_of_day_mono th th').
    destruct (Z.eq_dec (year_of_day th) (year_of_day th')) as [E|].
    + pose proof (thursday_week th) as Hw. pose proof (thursday_week th') as Hw'.
      cbv zeta in Hw, Hw'. rewrite E in Hw |- *. clearbody th th'.
      do 2 apply str_lt_app. apply str_lt_two2; [lia|lia|zdm].
    + apply str_lt_year; lia.
  - simpl in Hs. rewrite Hs.
    destruct (civil_of_day d) as [[y m] dd] eqn:E, (civil_of_day d') as [[y' m'] dd'] eqn:E'.
    pose proof (civil_of_day_spec _ _ _ _ E) as (Hy&_). pose proof (civil_of_day_spec _ _ _ _ E') as (Hy'&_).
    pose proof (civil_field_bounds _ _ _ _ E). pose proof (civil_field_bounds _ _ _ _ E').
    destruct (civil_order _ _ _ _ _ _ _ _ E E') as [?|[-> [?|[-> ?]]]]; [lia|..].
    + apply str_lt_year; lia.
    + do 2 apply str_lt_app. apply str_lt_two; lia.
    + do 4 apply str_lt_app. apply str_lt_two2; lia.
Qed.

(** A period key names exactly one window.  From any time in a tracked
    scheme up to [nextPeriodStart], which is strictly later, the key stays the
    same; at [nextPeriodStart] and after it the key is a different string that
    sorts later, so keys of one scheme sort by time. *)
Theorem period_key_window scheme t t' :
  tracked_scheme scheme = true → four_digit_year t → four_digit_year t' → t <= t' →
  t < nextPeriodStart scheme t ∧
  (t' < nextPeriodStart scheme t → PeriodKey scheme t' = PeriodKey scheme t) ∧
  (nextPeriodStart scheme t <= t' →
   str_lt (PeriodKey scheme t) (PeriodKey scheme t') ∧ PeriodKey scheme t ≠ PeriodKey scheme t').
Proof.
  intros Hs H4 H4' Hle. rewrite (nextPeriodStart_day scheme t Hs).
  pose proof (period_day_bounds scheme (day_of t)) as Hb.
  split; [apply lt_midnight_day; lia|split].
  - intros Hlt%lt_midnight_day. eapply key_same_period; [done..|].
    apply day_of_mono in Hle. lia.
  - intros Hge%midnight_le_day. assert (str_lt (PeriodKey scheme t) (PeriodKey scheme t')) as H
      by by apply key_later_period. split; [done|by apply str_lt_neq].
Qed.

Lemma period_key_window_witness :
  PeriodKey "weekly" (Date 2026 1 1) = "2026-W01" ∧
  PeriodKey "weekly" (Date 2025 12 29) = PeriodKey "weekly" (Date 2026 1 1) ∧
  (Date 2026 1 1 < nextPeriodStart "weekly" (Date 2026 1 1) ∧
   (Date 2026 1 5 < nextPeriodStart "weekly" (Date 2026 1 1) →
    PeriodKey "weekly" (Date 2026 1 5) = PeriodKey "weekly" (Date 2026 1 1)) ∧
   (nextPeriodStart "weekly" (Date 2026 1 1) <= Date 2026 1 5 →
    str_lt (PeriodKey "weekly" (Date 2026 1 1)) (PeriodKey "weekly" (Date 2026 1 5)) ∧
    PeriodKey "weekly" (Date 2026 1 1) ≠ PeriodKey "weekly" (Date 2026 1 5))).
Proof.
  split; [by vm_compute|split; [by vm_compute|]].
  apply (period_key_window "weekly" (Date 2026 1 1) (Date 2026 1 5));
    [done| split; vm_compute; congruence | split; vm_compute; congruence | vm_compute; congruence].
Defined.
