(* ===== verification/BudgetWire.v ===== *)
(** The wire format of the spend exchange: [budgetPartial], its JSON codec
    and [FoldPartials] of internal/gateway/budget.go.

    Each gateway replica publishes one value per provider, a flat JSON object
    of strings that mixes the period tag, flags (names with a leading
    underscore) and one amount per namespace.  The theorems give the round
    trip of a partial, what a fold sums, and the name that breaks the round
    trip. *)

From stdpp Require Import base gmap list strings option fin_maps.
From Stdlib Require Import ZArith Lia Ascii.
From S2P Require Import Prelude GoFloat.

(** ** encoding/json on [map[string]string]

    The library's [Marshal] and [Unmarshal] of a string map.  The law is the
    documented round trip for text JSON carries unchanged; ASCII text is
    such text, and Kubernetes names and the amounts are ASCII. *)
Definition is_ascii (s : string) : bool := all_chars (λ a, ascii_Z a <? 128)%Z s.

Definition ascii_map (m : gmap string string) : Prop :=
  map_Forall (λ k v, is_ascii k = true ∧ is_ascii v = true) m.

Class JsonMap := {
  json_marshal : gmap string string → string;
  json_unmarshal : string → option (gmap string string);
  json_roundtrip : ∀ m, ascii_map m → json_unmarshal (json_marshal m) = Some m;
}.

(** One codec, used by the witnesses: the positive number that encodes the
    map, in binary. *)
Fixpoint print_bits (p : positive) : string :=
  match p with
  | xH => "1"
  | xO p' => String "0" (print_bits p')
  | xI p' => String "2" (print_bits p')
  end.

Fixpoint parse_bits (s : string) : option positive :=
  match s with
  | String "1" EmptyString => Some xH
  | String "0" s' => xO <$> parse_bits s'
  | String "2" s' => xI <$> parse_bits s'
  | _ => None
  end.

Lemma parse_print_bits p : parse_bits (print_bits p) = Some p.
Proof. induction p; simpl; try rewrite IHp; done. Qed.

#[local] Instance string_map_countable : Countable (gmap string string) := _.

Lemma bits_roundtrip (m : gmap string string) : parse_bits (print_bits (encode m)) ≫= decode = Some m.
Proof. rewrite parse_print_bits. simpl. apply decode_encode. Qed.

Definition bits_codec : JsonMap := {|
  json_marshal m := print_bits (encode m);
  json_unmarshal s := parse_bits s ≫= decode;
  json_roundtrip m _ := bits_roundtrip m;
|}.

(** ** Partials *)

Definition BudgetConfigMapName (providerName : string) : string := "kaalm-budget-" +:+ providerName.
Definition AgentSpendConfigMapName (providerName : string) : string := "kaalm-agentspend-" +:+ providerName.
Definition SpendConfigMapLabel : string := "kaalm.io/spend".
Definition SpendLabelBudget : string := "budget".
Definition SpendLabelAgentSpend : string := "agent-spend".
Definition UnattributedWorkload : string := "(unattributed)".
Definition CanonicalKey : string := "_canonical".
Definition RetiredKey : string := "_retired".
Definition PreviousKey : string := "_previous".
Definition marginExceededField : string := "_marginExceeded".
Definition providerUIDField : string := "_providerUID".

Record budgetPartial := mk_partial {
  bp_Period : string;
  bp_Spend : gmap string string;
  bp_MarginExceeded : bool;
  bp_ProviderUID : string;
}.

(** [m[k] += v] on a map of amounts; a missing key reads as zero. *)
Definition get0 (m : gmap string f64) (k : string) : f64 := default f64_zero (m !! k).
Definition add_at (m : gmap string f64) (k : string) (v : f64) : gmap string f64 :=
  <[k := (get0 m k + v)%f64]> m.

(** [for k, v := range src { dst[k] += v }]. *)
Definition sum_into {MR : MapRange} (dst src : gmap string f64) : gmap string f64 :=
  foldl (λ m kv, add_at m kv.1 kv.2) dst (range src).

(** The state of [ParseBudgetPartial]'s loop. *)
Record parsed := mk_parsed {
  pp_period : string;
  pp_spend : gmap string f64;
  pp_marginExceeded : bool;
  pp_providerUID : string;
}.

Section wire.
Context {MR : MapRange} {JM : JsonMap}.

(** The object a partial marshals to. *)
Definition partial_object (p : budgetPartial) : gmap string string :=
  let out := {[ "period" := bp_Period p ]} in
  let out := foldl (λ m kv, <[kv.1 := kv.2]> m) out (range (bp_Spend p)) in
  let out := if bp_MarginExceeded p then <[marginExceededField := "true"]> out else out in
  if negb (bp_ProviderUID p =? "")%string
  then <[providerUIDField := bp_ProviderUID p]> out else out.

Definition MarshalJSON (p : budgetPartial) : string := json_marshal (partial_object p).

Definition parse_field (r : parsed) (kv : string * string) : parsed :=
  let '(k, v) := kv in
  if (k =? "period")%string then mk_parsed v (pp_spend r) (pp_marginExceeded r) (pp_providerUID r)
  else if HasPrefix k "_" then
    if ((k =? marginExceededField) && (v =? "true"))%string
    then mk_parsed (pp_period r) (pp_spend r) true (pp_providerUID r)
    else if (k =? providerUIDField)%string
    then mk_parsed (pp_period r) (pp_spend r) (pp_marginExceeded r) v
    else r
  else
    match ParseFloat v with
    | None => r
    | Some f => mk_parsed (pp_period r) (<[k := f]> (pp_spend r)) (pp_marginExceeded r) (pp_providerUID r)
    end.

Definition parse_fields (flat : list (string * string)) : parsed :=
  foldl parse_field (mk_parsed "" ∅ false "") flat.

Definition ParseBudgetPartial (raw : string) : option parsed :=
  match json_unmarshal raw with
  | None => None
  | Some flat => Some (parse_fields (range flat))
  end.

Definition format_all (spend : gmap string f64) : gmap string string :=
  FormatFloat2 <$> spend.

Definition RetiredPartial (period : string) (spend : gmap string f64) (providerUID : string) : budgetPartial :=
  mk_partial period (format_all spend) false providerUID.

(** One key of [FoldPartials]' loop. *)
Definition fold_key (ownPodName currentPeriod providerUID : string)
    (peers : gmap string f64) (kv : string * string) : gmap string f64 :=
  let '(key, raw) := kv in
  if ((key =? ownPodName) || (key =? CanonicalKey) || (key =? PreviousKey))%string then peers
  else
    match ParseBudgetPartial raw with
    | None => peers
    | Some p =>
        if negb (pp_period p =? currentPeriod)%string
           || (negb (pp_providerUID p =? "") && negb (pp_providerUID p =? providerUID))%string
        then peers else sum_into peers (pp_spend p)
    end.

Definition FoldPartials (data : gmap string string) (ownPodName currentPeriod providerUID : string)
  : gmap string f64 :=
  foldl (fold_key ownPodName currentPeriod providerUID) ∅ (range data).
End wire.

(** ** Lemmas *)

Lemma foldl_insert_list {A} (l : list (string * A)) (m : gmap string A) :
  NoDup l.*1 → foldl (λ m kv, <[kv.1 := kv.2]> m) m l = list_to_map l ∪ m.
Proof.
  revert m; induction l as [|[k v] l IH]; intros m; simpl; [by rewrite (left_id_L ∅ (∪))|].
  intros [Hk Hl]%NoDup_cons. rewrite IH by done.
  assert (list_to_map l !! k = (None : option A)) as Hn by by apply not_elem_of_list_to_map_1.
  rewrite <- insert_union_r by done. by rewrite insert_union_l.
Qed.

Lemma list_to_map_range {MR : MapRange} {A} (m : gmap string A) : list_to_map (range m) = m.
Proof.
  apply map_eq. intros k. apply option_eq. intros v.
  rewrite <- elem_of_list_to_map by apply NoDup_range. apply elem_of_range.
Qed.

Lemma foldl_insert_range {MR : MapRange} {A} (m m0 : gmap string A) :
  foldl (λ m kv, <[kv.1 := kv.2]> m) m0 (range m) = m ∪ m0.
Proof. rewrite foldl_insert_list by apply NoDup_range. by rewrite list_to_map_range. Qed.

(** A name the parser takes for an amount. *)
Definition spend_name (k : string) : bool := negb (k =? "period")%string && negb (HasPrefix k "_").

(** The loop's result in closed form. *)
Definition parse_closed (r : parsed) (flat : gmap string string) : parsed :=
  mk_parsed (default (pp_period r) (flat !! "period"))
    (omap ParseFloat (filter (λ kv, spend_name kv.1 = true) flat) ∪ pp_spend r)
    (if decide (flat !! marginExceededField = Some "true") then true else pp_marginExceeded r)
    (default (pp_providerUID r) (flat !! providerUIDField)).

Lemma filter_spend_insert k v (m : gmap string string) : m !! k = None →
  filter (λ kv, spend_name kv.1 = true) (<[k:=v]> m)
  = if spend_name k then <[k:=v]> (filter (λ kv, spend_name kv.1 = true) m)
    else filter (λ kv, spend_name kv.1 = true) m.
Proof.
  intros Hk. destruct (spend_name k) eqn:E.
  - by rewrite map_filter_insert_True.
  - rewrite map_filter_insert_False by (simpl; congruence). by rewrite delete_id.
Qed.

Lemma parse_closed_step r k v (m : gmap string string) : m !! k = None →
  parse_closed (parse_field r (k, v)) m = parse_closed r (<[k := v]> m).
Proof.
  intros Hk. unfold parse_closed, parse_field. rewrite filter_spend_insert by done.
  change (spend_name k) with (negb (k =? "period")%string && negb (HasPrefix k "_")).
  destruct (String.eqb_spec k "period") as [->|Hp].
  { simpl. rewrite lookup_insert_eq, !lookup_insert_ne, Hk by done. done. }
  destruct (HasPrefix k "_") eqn:Hu; simpl.
  - rewrite (lookup_insert_ne m k "period") by done.
    destruct (String.eqb_spec k marginExceededField) as [->|Hm]; simpl.
    + rewrite lookup_insert_eq, lookup_insert_ne, Hk by done.
      destruct (String.eqb_spec v "true") as [->|Hv]; simpl.
      * by repeat (case_decide; simplify_eq/=).
      * by repeat (case_decide; simplify_eq/=).
    + rewrite (lookup_insert_ne m k marginExceededField) by done.
      destruct (String.eqb_spec k providerUIDField) as [->|Hd]; simpl.
      * rewrite lookup_insert_eq, Hk. done.
      * rewrite lookup_insert_ne by done. done.
  - assert (k ≠ marginExceededField ∧ k ≠ providerUIDField) as [??].
    { split; intros ->; done. }
    rewrite !(lookup_insert_ne m k) by done.
    assert (filter (λ kv : string * string, spend_name kv.1 = true) m !! k = None) as Hf.
    { rewrite map_lookup_filter_None. by left. }
    destruct (ParseFloat v) as [f|] eqn:Ef; simpl.
    + rewrite omap_insert, Ef. rewrite <- insert_union_r; [by rewrite insert_union_l|].
      by rewrite lookup_omap, Hf.
    + rewrite omap_insert, Ef, delete_id; [done|]. by rewrite lookup_omap, Hf.
Qed.

Lemma parse_fields_closed r l : NoDup l.*1 →
  foldl parse_field r l = parse_closed r (list_to_map l).
Proof.
  revert r; induction l as [|[k v] l IH]; intros r; simpl.
  - intros _. unfold parse_closed. rewrite map_filter_empty, omap_empty, !lookup_empty.
    rewrite (left_id_L ∅ (∪)), decide_False by done. by destruct r.
  - intros [Hk Hl]%NoDup_cons. rewrite IH by done. apply parse_closed_step.
    by apply not_elem_of_list_to_map_1.
Qed.

(** The result of a parse does not depend on the iteration order. *)
Lemma parse_range_closed {MR : MapRange} (flat : gmap string string) :
  parse_fields (range flat) = parse_closed (mk_parsed "" ∅ false "") flat.
Proof. unfold parse_fields. rewrite parse_fields_closed by apply NoDup_range. by rewrite list_to_map_range. Qed.

(** An amount as it comes back from the wire: rounded to the cent. *)
Definition to_cents (x : f64) : f64 :=
  match x with
  | SpecFloat.S754_zero s => f64_of_cents s 0
  | SpecFloat.S754_finite s m e => f64_of_cents s (Z.to_N (cents m e))
  | _ => x
  end.

(** The amounts a parse gives back: rounding to the cent leaves the range of
    floats only next to the largest one. *)
Definition printable (x : f64) : bool :=
  match x with
  | SpecFloat.S754_finite _ m e => negb (is_inf (f64_of_ratio (Z.of_N (Z.to_N (cents m e))) 100))
  | _ => true
  end.

Lemma ParseFloat_FormatFloat2 x : printable x = true → ParseFloat (FormatFloat2 x) = Some (to_cents x).
Proof.
  destruct x as [s|[]| |s m e]; simpl; try done.
  - intros _. by apply ParseFloat_print_cents.
  - intros H%negb_true_iff. by apply ParseFloat_print_cents.
Qed.

Lemma is_ascii_digits s : all_chars is_digit s = true → is_ascii s = true.
Proof.
  apply all_chars_impl. intros a. destruct a as [[][][][][][][][]]; vm_compute; congruence.
Qed.

Lemma is_ascii_FormatFloat2 x : is_ascii (FormatFloat2 x) = true.
Proof.
  assert (∀ neg c, is_ascii (print_cents neg c) = true) as H.
  { intros neg c. unfold print_cents, is_ascii. rewrite !all_chars_app.
    pose proof (is_ascii_digits _ (all_digits_print_N (c / 100))) as H1.
    pose proof (is_ascii_digits _ (all_digits_pad2 (c mod 100))) as H2.
    unfold is_ascii in H1, H2. rewrite H1, H2. by destruct neg. }
  destruct x as [s|[]| |s m e]; simpl; auto.
Qed.

Lemma HasPrefix_period : HasPrefix "period" "_" = false. Proof. done. Qed.

(** The names a partial carries as namespaces. *)
Definition spend_names (m : gmap string f64) : Prop := map_Forall (λ k _, spend_name k = true) m.
Definition printable_map (m : gmap string f64) : Prop := map_Forall (λ _ v, printable v = true) m.
Definition ascii_names (m : gmap string f64) : Prop := map_Forall (λ k _, is_ascii k = true) m.

Lemma spend_name_fields k :
  spend_name k = true → k ≠ "period" ∧ k ≠ marginExceededField ∧ k ≠ providerUIDField.
Proof. intros H. split_and!; intros ->; done. Qed.

Section roundtrip.
Context {MR : MapRange} {JM : JsonMap}.

Lemma partial_object_eq p :
  partial_object p =
    (if negb (bp_ProviderUID p =? "")%string then <[providerUIDField := bp_ProviderUID p]> else id)
    ((if bp_MarginExceeded p then <[marginExceededField := "true"]> else id)
      (bp_Spend p ∪ {[ "period" := bp_Period p ]})).
Proof. unfold partial_object. rewrite foldl_insert_range. by repeat case_match. Qed.

Lemma partial_object_ascii p :
  ascii_map (bp_Spend p) → is_ascii (bp_Period p) = true → is_ascii (bp_ProviderUID p) = true →
  ascii_map (partial_object p).
Proof.
  intros Hs Hp Hu. rewrite partial_object_eq.
  assert (ascii_map (bp_Spend p ∪ {[ "period" := bp_Period p ]})) as Hbase.
  { apply map_Forall_union_2; [done|]. by apply map_Forall_singleton. }
  assert (∀ k v m, is_ascii k = true → is_ascii v = true → ascii_map m → ascii_map (<[k:=v]> m)) as Hi
    by (intros; by apply map_Forall_insert_2).
  destruct (negb _), (bp_MarginExceeded p); unfold id; auto.
Qed.

Lemma partial_object_name p k : spend_name k = true →
  partial_object p !! k = bp_Spend p !! k.
Proof.
  intros (Hk1&Hk2&Hk3)%spend_name_fields. rewrite partial_object_eq.
  assert ((bp_Spend p ∪ {[ "period" := bp_Period p ]}) !! k = bp_Spend p !! k) as H.
  { rewrite lookup_union_l; [done|]. by rewrite lookup_singleton_ne. }
  destruct (negb _), (bp_MarginExceeded p); unfold id; rewrite ?lookup_insert_ne by done; done.
Qed.

(** The parse of a marshalled partial, name by name, with no condition on
    the namespaces. *)
Lemma parse_marshal p :
  ascii_map (bp_Spend p) → is_ascii (bp_Period p) = true → is_ascii (bp_ProviderUID p) = true →
  bp_Spend p !! marginExceededField = None → bp_Spend p !! providerUIDField = None →
  ∃ r, ParseBudgetPartial (MarshalJSON p) = Some r ∧
    pp_period r = default (bp_Period p) (bp_Spend p !! "period") ∧
    pp_marginExceeded r = bp_MarginExceeded p ∧
    pp_providerUID r = bp_ProviderUID p ∧
    ∀ k, pp_spend r !! k = if spend_name k then bp_Spend p !! k ≫= ParseFloat else None.
Proof.
  intros Hs Hp Hu Hm Hd. unfold ParseBudgetPartial, MarshalJSON.
  rewrite json_roundtrip by by apply partial_object_ascii.
  eexists; split; [done|]. rewrite parse_range_closed. simpl. split_and!.
  - rewrite partial_object_eq.
    assert ((bp_Spend p ∪ {["period" := bp_Period p]}) !! "period" = Some (default (bp_Period p) (bp_Spend p !! "period"))) as H.
    { rewrite lookup_union, lookup_singleton_eq. by destruct (bp_Spend p !! "period"). }
    destruct (negb _), (bp_MarginExceeded p); unfold id; rewrite ?lookup_insert_ne by done; by rewrite H.
  - rewrite partial_object_eq.
    assert ((bp_Spend p ∪ {["period" := bp_Period p]}) !! marginExceededField = None) as H.
    { rewrite lookup_union, Hm, lookup_singleton_ne; done. }
    destruct (negb _), (bp_MarginExceeded p); unfold id; rewrite ?lookup_insert_eq, ?lookup_insert_ne, ?lookup_insert_eq, ?H by done;
      by case_decide.
  - rewrite partial_object_eq.
    assert ((bp_Spend p ∪ {["period" := bp_Period p]}) !! providerUIDField = None) as H.
    { rewrite lookup_union, Hd, lookup_singleton_ne; done. }
    destruct (String.eqb_spec (bp_ProviderUID p) "") as [E|]; simpl; [|by rewrite lookup_insert_eq].
    rewrite E. destruct (bp_MarginExceeded p); unfold id; rewrite ?lookup_insert_ne, H by done; done.
  - intros k. rewrite (right_id_L ∅ (∪)), lookup_omap, map_lookup_filter.
    destruct (spend_name k) eqn:E.
    + rewrite partial_object_name by done. destruct (bp_Spend p !! k); simpl; [|done].
      by rewrite option_guard_True.
    + destruct (partial_object p !! k); simpl; [|done]. by rewrite option_guard_False by congruence.
Qed.

Lemma format_all_ascii m : ascii_names m → ascii_map (format_all m).
Proof.
  intros H k v. unfold format_all. rewrite lookup_fmap. intros (x&Hx&->)%fmap_Some_1.
  split; [by eapply H|apply is_ascii_FormatFloat2].
Qed.

Lemma parse_format_lookup m k : printable_map m →
  (format_all m !! k ≫= ParseFloat) = to_cents <$> m !! k.
Proof.
  intros Hm. unfold format_all. rewrite lookup_fmap. destruct (m !! k) as [x|] eqn:E; simpl; [|done].
  rewrite ParseFloat_FormatFloat2; [done|by eapply Hm].
Qed.

(** A replica's partial survives the wire.  When no namespace is called
    [period] or starts with an underscore, parsing what [MarshalJSON] wrote
    gives back the period, the margin flag, the provider tag and, for
    exactly the same namespaces, the spend to the cent. *)
Theorem partial_roundtrip period m margin uid :
  spend_names m → printable_map m → ascii_names m →
  is_ascii period = true → is_ascii uid = true →
  ParseBudgetPartial (MarshalJSON (mk_partial period (format_all m) margin uid))
  = Some (mk_parsed period (to_cents <$> m) margin uid).
Proof.
  intros Hn Hp Ha Hper Huid.
  assert (∀ k, spend_name k = false → m !! k = None) as Hnone.
  { intros k Hk. destruct (m !! k) eqn:E; [|done]. apply Hn in E. congruence. }
  destruct (parse_marshal (mk_partial period (format_all m) margin uid)) as (r&Hr&H1&H2&H3&H4);
    simpl; try done; try (unfold format_all; rewrite lookup_fmap, Hnone by done; done).
  { by apply format_all_ascii. }
  rewrite Hr. f_equal. destruct r as [rp rs rm ru]; simpl in *. subst.
  f_equal; [unfold format_all; rewrite lookup_fmap, Hnone by done; done|].
  apply map_eq. intros k. rewrite H4, lookup_fmap. destruct (spend_name k) eqn:E.
  - by rewrite parse_format_lookup.
  - by rewrite Hnone.
Qed.
End roundtrip.

(** ** The fold *)

Lemma get0_add_at m k v k' :
  get0 (add_at m k v) k' = if decide (k = k') then (get0 m k' + v)%f64 else get0 m k'.
Proof.
  unfold get0, add_at. rewrite lookup_insert. case_decide; [subst|]; done.
Qed.

Lemma get0_fold_list (l : list (string * f64)) m k : NoDup l.*1 →
  get0 (foldl (λ m kv, add_at m kv.1 kv.2) m l) k
  = match (list_to_map l : gmap string f64) !! k with Some v => (get0 m k + v)%f64 | None => get0 m k end.
Proof.
  revert m; induction l as [|[k' v] l IH]; intros m; simpl; [done|].
  intros [Hk Hl]%NoDup_cons. rewrite IH by done. rewrite get0_add_at, lookup_insert.
  case_decide as E; [|done]. subst. by rewrite (not_elem_of_list_to_map_1 _ _ Hk).
Qed.

Lemma get0_sum_into {MR : MapRange} dst src k :
  get0 (sum_into dst src) k
  = match src !! k with Some v => (get0 dst k + v)%f64 | None => get0 dst k end.
Proof.
  unfold sum_into. rewrite get0_fold_list by apply NoDup_range. by rewrite list_to_map_range.
Qed.

Section fold_spec.
Context {MR : MapRange} {JM : JsonMap}.

(** What one stored value adds to a namespace's peer spend: the amount of a
    readable, current-period value of this provider under another replica's
    key or [_retired]. *)
Definition contribution (own cur uid ns : string) (kv : string * string) : option f64 :=
  if ((kv.1 =? own) || (kv.1 =? CanonicalKey) || (kv.1 =? PreviousKey))%string then None
  else p ← ParseBudgetPartial kv.2;
       if (pp_period p =? cur)%string && ((pp_providerUID p =? "") || (pp_providerUID p =? uid))%string
       then pp_spend p !! ns else None.

Lemma fold_key_contribution own cur uid peers kv ns :
  get0 (fold_key own cur uid peers kv) ns
  = match contribution own cur uid ns kv with
    | Some v => (get0 peers ns + v)%f64
    | None => get0 peers ns
    end.
Proof.
  destruct kv as [k raw]. unfold fold_key, contribution; simpl.
  destruct ((k =? own) || (k =? CanonicalKey) || (k =? PreviousKey))%string; [done|].
  destruct (ParseBudgetPartial raw) as [p|]; simpl; [|done].
  destruct (pp_period p =? cur)%string, (pp_providerUID p =? "")%string, (pp_providerUID p =? uid)%string;
    simpl; try done; apply get0_sum_into.
Qed.

(** The enforcement fold.  For every namespace [FoldPartials] gives the
    float sum, in the order of the pass, of the amounts that readable values
    of the current period hold for it: its own replica's key, [_canonical],
    [_previous], unreadable values, other periods and other provider UIDs add
    nothing, while peers and [_retired] do. *)
Theorem FoldPartials_sum data own cur uid ns :
  get0 (FoldPartials data own cur uid) ns
  = foldl f64_add f64_zero (omap (contribution own cur uid ns) (range data)).
Proof.
  unfold FoldPartials.
  assert (∀ l m, get0 (foldl (fold_key own cur uid) m l) ns
    = foldl f64_add (get0 m ns) (omap (contribution own cur uid ns) l)) as H.
  { intros l. induction l as [|kv l IH]; intros m; simpl; [done|].
    rewrite IH, fold_key_contribution. by destruct (contribution own cur uid ns kv). }
  apply H.
Qed.

(** C39: a namespace called [period] hides a replica's spend.  Its amount
    overwrites the period tag of the marshalled object, so every other
    replica's fold drops the whole partial: all namespaces' spend on that
    replica disappears from the peers' enforcement view. *)
Theorem period_namespace_hides_partial m x margin uid pod own cur :
  m !! "period" = Some x → map_Forall (λ k _, k = "period" ∨ spend_name k = true) m →
  ascii_names m → is_ascii cur = true → is_ascii uid = true →
  FormatFloat2 x ≠ cur →
  FoldPartials {[ pod := MarshalJSON (mk_partial cur (format_all m) margin uid) ]} own cur uid = ∅.
Proof.
  intros Hx Hn Ha Hc Hu Hne. unfold FoldPartials.
  replace (range _) with [(pod, MarshalJSON (mk_partial cur (format_all m) margin uid))].
  2: { symmetry. apply Permutation_singleton_r. by rewrite range_perm, map_to_list_singleton. }
  simpl. destruct (_ || _); [done|].
  assert (∀ k, k ≠ "period" → spend_name k = false → m !! k = None) as Hnone.
  { intros k Hp Hk. destruct (m !! k) eqn:E; [|done]. apply Hn in E as [?|?]; congruence. }
  destruct (parse_marshal (mk_partial cur (format_all m) margin uid)) as (r&->&Hper&_); simpl;
    try done; try (unfold format_all; rewrite lookup_fmap, Hnone by done; done).
  { by apply format_all_ascii. }
  unfold format_all in Hper. simpl in Hper. rewrite lookup_fmap, Hx in Hper. simpl in Hper. rewrite Hper.
  apply String.eqb_neq in Hne. by rewrite Hne.
Qed.
End fold_spec.

(** ** Witnesses *)

Definition usd (s : string) : f64 := default f64_zero (ParseFloat s).

Lemma partial_roundtrip_witness :
  @ParseBudgetPartial list_order bits_codec
    (@MarshalJSON list_order bits_codec
      (mk_partial "2026-09" (format_all {[ "team-a" := usd "12.345"; "team-b" := usd "0.1" ]}) true "u1"))
  = Some (mk_parsed "2026-09" (to_cents <$> {[ "team-a" := usd "12.345"; "team-b" := usd "0.1" ]}) true "u1")
  ∧ to_cents (usd "12.345") = usd "12.35".
Proof.
  split; [|by vm_compute].
  apply (@partial_roundtrip list_order bits_codec); try done; apply (bool_decide_unpack _); by vm_compute.
Defined.

Lemma period_namespace_hides_partial_witness :
  @FoldPartials list_order bits_codec
    {[ "gw-1" := @MarshalJSON list_order bits_codec
        (mk_partial "2026-09" (format_all {[ "period" := usd "3"; "team-a" := usd "950" ]}) false "u1") ]}
    "gw-2" "2026-09" "u1" = ∅
  ∧ @FoldPartials list_order bits_codec
    {[ "gw-1" := @MarshalJSON list_order bits_codec
        (mk_partial "2026-09" (format_all {[ "team-p" := usd "3"; "team-a" := usd "950" ]}) false "u1") ]}
    "gw-2" "2026-09" "u1" = {[ "team-p" := usd "3"; "team-a" := usd "950" ]}.
Proof.
  split; [|by vm_compute].
  apply (@period_namespace_hides_partial list_order bits_codec _ (usd "3")); try done;
    apply (bool_decide_unpack _); by vm_compute.
Defined.
