(* ===== verification/BudgetLedger.v ===== *)
(** The budget ledger of one gateway replica: internal/gateway/budget.go
    (state, soft enforcement, views) and internal/gateway/budget_hard.go
    (admission slots, margins, settle).

    [BudgetLedger] holds one [providerLedger] per provider name and the UIDs
    of superseded providers.  Every operation is a function from the ledger
    and the current time to the ledger and the operation's result; the mutex
    makes each one atomic in the source.  The clock is read once per
    operation.  A pointer returned by [ledgerFor] is a [ledger_ref]: it says
    whether writing through it reaches the stored ledger or a detached one. *)

From stdpp Require Import base gmap list strings option fin_maps.
From Stdlib Require Import ZArith Lia.
From S2P Require Import Prelude GoFloat GoTime Api BudgetPeriod BudgetWire.

Definition defaultPublishInterval : Duration := (10 * Second)%Z.
Definition rateBucketWidth : Duration := (10 * Second)%Z.
Definition clusterSlotKey : string := "".
Definition kickCap : nat := 64.

(** ** State *)

Record providerLedger := mk_ledger {
  l_uid : string;
  l_period : string;
  own : gmap string f64;
  peers : gmap string f64;
  ownW : gmap string f64;
  peersW : gmap string f64;
  adm : gmap string N;
  nextToken : N;
  maxCostPerCall : f64;
  rateBucketStart : Time;
  rateBucketSum : f64;
  peakRatePerSec : f64;
  dirtySince : Time;
  lastFoldOK : Time;
  marginRaised : bool;
}.

Record BudgetLedger := mk_budget_ledger {
  kick : list string;
  stalenessWindow : Duration;
  replicas : option Z;
  providers : gmap string providerLedger;
  superseded : gset string;
}.

Definition NewBudgetLedger : BudgetLedger :=
  mk_budget_ledger [] (3 * defaultPublishInterval)%Z None ∅ ∅.

Definition newProviderLedger (period uid : string) : providerLedger :=
  mk_ledger uid period ∅ ∅ ∅ ∅ ∅ 0%N f64_zero 0%Z f64_zero f64_zero 0%Z 0%Z false.

(** *** Field updates *)
Definition set_peers (l : providerLedger) (m : gmap string f64) : providerLedger :=
  mk_ledger (l_uid l) (l_period l) (own l) m (ownW l) (peersW l) (adm l) (nextToken l)
    (maxCostPerCall l) (rateBucketStart l) (rateBucketSum l) (peakRatePerSec l)
    (dirtySince l) (lastFoldOK l) (marginRaised l).
Definition set_peersW (l : providerLedger) (m : gmap string f64) : providerLedger :=
  mk_ledger (l_uid l) (l_period l) (own l) (peers l) (ownW l) m (adm l) (nextToken l)
    (maxCostPerCall l) (rateBucketStart l) (rateBucketSum l) (peakRatePerSec l)
    (dirtySince l) (lastFoldOK l) (marginRaised l).
Definition set_own (l : providerLedger) (o w : gmap string f64) : providerLedger :=
  mk_ledger (l_uid l) (l_period l) o (peers l) w (peersW l) (adm l) (nextToken l)
    (maxCostPerCall l) (rateBucketStart l) (rateBucketSum l) (peakRatePerSec l)
    (dirtySince l) (lastFoldOK l) (marginRaised l).
Definition set_adm (l : providerLedger) (a : gmap string N) (n : N) : providerLedger :=
  mk_ledger (l_uid l) (l_period l) (own l) (peers l) (ownW l) (peersW l) a n
    (maxCostPerCall l) (rateBucketStart l) (rateBucketSum l) (peakRatePerSec l)
    (dirtySince l) (lastFoldOK l) (marginRaised l).
Definition set_track (l : providerLedger) (mc : f64) (bs : Time) (sum peak : f64) : providerLedger :=
  mk_ledger (l_uid l) (l_period l) (own l) (peers l) (ownW l) (peersW l) (adm l) (nextToken l)
    mc bs sum peak (dirtySince l) (lastFoldOK l) (marginRaised l).
Definition set_dirtySince (l : providerLedger) (t : Time) : providerLedger :=
  mk_ledger (l_uid l) (l_period l) (own l) (peers l) (ownW l) (peersW l) (adm l) (nextToken l)
    (maxCostPerCall l) (rateBucketStart l) (rateBucketSum l) (peakRatePerSec l)
    t (lastFoldOK l) (marginRaised l).
Definition set_lastFoldOK (l : providerLedger) (t : Time) : providerLedger :=
  mk_ledger (l_uid l) (l_period l) (own l) (peers l) (ownW l) (peersW l) (adm l) (nextToken l)
    (maxCostPerCall l) (rateBucketStart l) (rateBucketSum l) (peakRatePerSec l)
    (dirtySince l) t (marginRaised l).
Definition set_marginRaised (l : providerLedger) (r : bool) : providerLedger :=
  mk_ledger (l_uid l) (l_period l) (own l) (peers l) (ownW l) (peersW l) (adm l) (nextToken l)
    (maxCostPerCall l) (rateBucketStart l) (rateBucketSum l) (peakRatePerSec l)
    (dirtySince l) (lastFoldOK l) r.

(** The period rollover of [ledgerFor]: spend, slots and the traffic tracker
    start again; the token counter and the liveness stamps are kept. *)
Definition rollover (l : providerLedger) (period : string) : providerLedger :=
  mk_ledger (l_uid l) period ∅ ∅ ∅ ∅ ∅ (nextToken l) f64_zero 0%Z f64_zero f64_zero
    (dirtySince l) (lastFoldOK l) false.

Definition set_providers (b : BudgetLedger) (m : gmap string providerLedger) : BudgetLedger :=
  mk_budget_ledger (kick b) (stalenessWindow b) (replicas b) m (superseded b).
Definition set_kick (b : BudgetLedger) (k : list string) : BudgetLedger :=
  mk_budget_ledger k (stalenessWindow b) (replicas b) (providers b) (superseded b).
Definition supersede (b : BudgetLedger) (uid : string) : BudgetLedger :=
  mk_budget_ledger (kick b) (stalenessWindow b) (replicas b) (providers b) ({[uid]} ∪ superseded b).

(** ** ledgerFor

    [inl l] is a pointer to the stored ledger, [inr l] to a detached one. *)
Definition ledger_ref : Type := providerLedger + providerLedger.
Definition deref (r : ledger_ref) : providerLedger := match r with inl l | inr l => l end.

(** Writing through the pointer. *)
Definition store (b : BudgetLedger) (name : string) (r : ledger_ref) (l : providerLedger) : BudgetLedger :=
  match r with
  | inl _ => set_providers b (<[name := l]> (providers b))
  | inr _ => b
  end.

Definition ledgerFor (b : BudgetLedger) (now : Time) (providerName uid scheme : string)
  : BudgetLedger * ledger_ref :=
  let period := PeriodKey scheme now in
  if decide (uid ∈ superseded b) then (b, inr (newProviderLedger period uid))
  else
    let l := providers b !! providerName in
    let '(b, ok) :=
      match l with
      | Some l => if negb (l_uid l =? uid)%string then (supersede b (l_uid l), None) else (b, Some l)
      | None => (b, None)
      end in
    let l := match ok with Some l => l | None => newProviderLedger period uid end in
    let l := if negb (l_period l =? period)%string then rollover l period else l in
    (set_providers b (<[providerName := l]> (providers b)), inl l).

(** ** Spend *)

(** The traffic tracker. *)
Definition trackLocked (now : Time) (l : providerLedger) (cost : f64) : providerLedger :=
  if (cost <=? f64_zero)%f64 then l
  else
    let mc := if (maxCostPerCall l <? cost)%f64 then cost else maxCostPerCall l in
    let '(start, sum, peak) :=
      if IsZero (rateBucketStart l) || (rateBucketWidth <=? Sub now (rateBucketStart l))%Z then
        let peak :=
          if negb (IsZero (rateBucketStart l)) then
            let r := (rateBucketSum l / Seconds rateBucketWidth)%f64 in
            if (peakRatePerSec l <? r)%f64 then r else peakRatePerSec l
          else peakRatePerSec l in
        (now, f64_zero, peak)
      else (rateBucketStart l, rateBucketSum l, peakRatePerSec l) in
    set_track l mc start (sum + cost)%f64 peak.

(** The body [Add] and [settle] share: count the cost, feed the tracker and
    stamp the first unpublished settle. *)
Definition record_cost (now : Time) (l : providerLedger) (namespace workload : string) (cost : f64)
  : providerLedger :=
  let l := set_own l (add_at (own l) namespace cost)
             (add_at (ownW l) (namespace +:+ ("/" +:+ workload)) cost) in
  let l := trackLocked now l cost in
  if IsZero (dirtySince l) then set_dirtySince l now else l.

Definition tracks_budget (p : ModelProvider) (now : Time) : bool :=
  negb (PeriodKey (Period (Budget (Spec p))) now =? "")%string.

Definition ledgerOf (b : BudgetLedger) (now : Time) (p : ModelProvider) : BudgetLedger * ledger_ref :=
  ledgerFor b now (Name p) (UID p) (Period (Budget (Spec p))).

Definition Add (b : BudgetLedger) (now : Time) (p : ModelProvider) (namespace workload : string)
    (costUSD : f64) : BudgetLedger :=
  if negb (tracks_budget p now) || (costUSD =? f64_zero)%f64 then b
  else
    let '(b, r) := ledgerOf b now p in
    store b (Name p) r (record_cost now (deref r) namespace workload costUSD).

Definition FoldPeers (b : BudgetLedger) (now : Time) (p : ModelProvider) (m : gmap string f64) : BudgetLedger :=
  let '(b, r) := ledgerOf b now p in
  store b (Name p) r (set_lastFoldOK (set_peers (deref r) m) now).

Definition InitCanonical (b : BudgetLedger) (now : Time) (p : ModelProvider) (canonical : gmap string f64)
  : BudgetLedger := FoldPeers b now p canonical.

Definition FoldWorkloadPeers (b : BudgetLedger) (now : Time) (p : ModelProvider) (m : gmap string f64)
  : BudgetLedger :=
  let '(b, r) := ledgerOf b now p in
  store b (Name p) r (set_peersW (deref r) m).

Definition boundLedger (b : BudgetLedger) (p : ModelProvider) : option providerLedger :=
  match providers b !! Name p with
  | Some l => if negb (l_uid l =? UID p)%string then None else Some l
  | None => None
  end.

Definition OwnWorkloadPartial (b : BudgetLedger) (p : ModelProvider) : option (string * gmap string string) :=
  match boundLedger b p with
  | None => None
  | Some l => if decide (ownW l = ∅) then None else Some (l_period l, format_all (ownW l))
  end.

Definition OwnPartial (b : BudgetLedger) (p : ModelProvider)
  : option (string * gmap string string * bool) :=
  match boundLedger b p with
  | None => None
  | Some l => if decide (own l = ∅) then None else Some (l_period l, format_all (own l), marginRaised l)
  end.

Definition MarkPublished (b : BudgetLedger) (p : ModelProvider) (snapshot : Time) : BudgetLedger :=
  match boundLedger b p with
  | None => b
  | Some l =>
      if negb (IsZero (dirtySince l)) && negb (After (dirtySince l) snapshot)
      then set_providers b (<[Name p := set_dirtySince l 0%Z]> (providers b)) else b
  end.

(** ** Enforcement *)

Section enforcement.
Context {MR : MapRange}.

(** One pass of [WorkloadSpend]'s loop over a workload map. *)
Definition sum_workloads (prefix : string) (sums : gmap string f64) (kv : string * f64) : gmap string f64 :=
  match CutPrefix kv.1 prefix with
  | Some workload => add_at sums workload kv.2
  | None => sums
  end.

Definition workload_rows (prefix : string) (l : providerLedger) : gmap string f64 :=
  foldl (sum_workloads prefix) (foldl (sum_workloads prefix) ∅ (range (ownW l))) (range (peersW l)).

Definition WorkloadSpend (b : BudgetLedger) (namespace : string) : gmap string (string * gmap string string) :=
  omap (λ l,
    let sums := workload_rows (namespace +:+ "/") l in
    if decide (sums = ∅) then None else Some (l_period l, format_all sums)) (providers b).

Definition spent (l : providerLedger) (namespace : string) : f64 :=
  (get0 (own l) namespace + get0 (peers l) namespace)%f64.

Definition clusterSpent (l : providerLedger) : f64 :=
  foldl (λ t kv, (t + kv.2)%f64)
    (foldl (λ t kv, (t + kv.2)%f64) f64_zero (range (own l))) (range (peers l)).

Record utilization := mk_utilization {
  nsPct : f64; clPct : f64;
  nsUSD : f64; clUSD : f64;
  worst : f64;
  worstIsCluster : bool;
}.

(** An enforced ceiling: set, parsable and positive. *)
Definition ceiling_of (s : string) : option f64 :=
  match ParseFloat s with
  | Some c => if (f64_zero <? c)%f64 then Some c else None
  | None => None
  end.

Definition utilizationOf (budget : ModelProviderBudget) (nsSpent clusterSpent : f64) : utilization :=
  let u := mk_utilization f64_zero f64_zero f64_zero f64_zero f64_zero false in
  let u :=
    match ceiling_of (PerNamespaceUSD budget) with
    | Some c =>
        let pct := (nsSpent / c * f64_of_Z 100)%f64 in
        mk_utilization pct (clPct u) c (clUSD u) pct (worstIsCluster u)
    | None => u
    end in
  match ClusterUSD budget with
  | None => u
  | Some s =>
      match ceiling_of s with
      | Some c =>
          let pct := (clusterSpent / c * f64_of_Z 100)%f64 in
          if (worst u <? pct)%f64
          then mk_utilization (nsPct u) pct (nsUSD u) c pct true
          else mk_utilization (nsPct u) pct (nsUSD u) c (worst u) (worstIsCluster u)
      | None => u
      end
  end.

Definition utilizationLocked (budget : ModelProviderBudget) (l : providerLedger) (namespace : string)
  : utilization := utilizationOf budget (spent l namespace) (clusterSpent l).

Definition BudgetUtilization (budget : ModelProviderBudget) (nsSpent clusterSpent : f64) : f64 :=
  worst (utilizationOf budget nsSpent clusterSpent).

(** One step of the policy ladder. *)
Definition ladder_step (percent : f64) (winner : option ModelProviderBudgetPolicy)
    (p : ModelProviderBudgetPolicy) : option ModelProviderBudgetPolicy :=
  if (f64_of_Z (AtPercent p) <=? percent)%f64
     && match winner with None => true | Some w => (AtPercent w <? AtPercent p)%Z end
  then Some p else winner.

Definition BudgetPolicyAt (budget : ModelProviderBudget) (percent : f64) : option ModelProviderBudgetPolicy :=
  foldl (ladder_step percent) None (Policies budget).

Record budgetDecision := mk_decision {
  Action : string;
  DegradeTo : string;
  RetryAfter : Z;
  Percent : Z;
  Ceiling : string;
  Throttled : bool;
  Unavailable : bool;
  BoundaryEngaged : bool;
  MarginRaisedNow : bool;
}.

Definition no_decision : budgetDecision := mk_decision "" "" 0 0 "" false false false false.

Definition set_throttled (d : budgetDecision) : budgetDecision :=
  mk_decision (Action d) (DegradeTo d) (RetryAfter d) (Percent d) (Ceiling d) true (Unavailable d)
    (BoundaryEngaged d) (MarginRaisedNow d).
Definition set_unavailable (d : budgetDecision) : budgetDecision :=
  mk_decision (Action d) (DegradeTo d) (RetryAfter d) (Percent d) (Ceiling d) (Throttled d) true
    (BoundaryEngaged d) (MarginRaisedNow d).
Definition set_engaged (d : budgetDecision) (raised : bool) : budgetDecision :=
  mk_decision (Action d) (DegradeTo d) (RetryAfter d) (Percent d) (Ceiling d) (Throttled d)
    (Unavailable d) true raised.

(** Named [decide] in the source. *)
Definition decide_budget (budget : ModelProviderBudget) (now : Time) (u : utilization) : budgetDecision :=
  let percent := int64_of_f64 (worst u) in
  let ceiling := if worstIsCluster u then "cluster" else "namespace" in
  match BudgetPolicyAt budget (worst u) with
  | None => mk_decision "" "" 0 percent ceiling false false false false
  | Some w =>
      let degrade := if (pol_Action w =? BudgetActionDegrade)%string
                     then default "" (pol_DegradeTo w) else "" in
      let retry := if (pol_Action w =? BudgetActionBlock)%string
                   then (int64_of_f64 (Seconds (Sub (nextPeriodStart (Period budget) now) now)) + 1)%Z
                   else 0%Z in
      mk_decision (pol_Action w) degrade retry percent ceiling false false false false
  end.

Definition enforces (p : ModelProvider) (now : Time) : bool :=
  tracks_budget p now && negb (bool_decide (Policies (Budget (Spec p)) = [])).

Definition Enforce (b : BudgetLedger) (now : Time) (p : ModelProvider) (namespace : string)
  : BudgetLedger * budgetDecision :=
  if negb (enforces p now) then (b, no_decision)
  else
    let '(b, r) := ledgerOf b now p in
    (b, decide_budget (Budget (Spec p)) now (utilizationLocked (Budget (Spec p)) (deref r) namespace)).

(** The usage of a call. *)
Record Usage := mk_usage { InputTokens : Z; OutputTokens : Z; ServerTools : gmap string Z }.
Definition zeroUsage : Usage := mk_usage 0 0 ∅.

Definition isZero (u : Usage) : bool :=
  (InputTokens u =? 0)%Z && (OutputTokens u =? 0)%Z && bool_decide (ServerTools u = ∅).

(** [costOf]: the price of a call. *)
Definition costOf (p : ModelProvider) (modelID : string) (usage : Usage) : f64 :=
  match List.find (λ m, (ID m =? modelID)%string) (Models (Spec p)) with
  | None => f64_zero
  | Some m =>
      match ParseFloat (CostPer1MInputTokens m), ParseFloat (CostPer1MOutputTokens m) with
      | Some i, Some o =>
          (f64_of_Z (InputTokens usage) * i / f64_of_Z 1000000
           + f64_of_Z (OutputTokens usage) * o / f64_of_Z 1000000)%f64
      | _, _ => f64_zero
      end
  end.

(** ** Hard enforcement (budget_hard.go) *)

Definition hardActive (p : ModelProvider) : bool :=
  if negb (Enforcement (Budget (Spec p)) =? BudgetEnforcementHard)%string then false
  else existsb (λ pol, (pol_Action pol =? BudgetActionBlock)%string) (Policies (Budget (Spec p))).

Definition min_block_step (at_ : f64) (p : ModelProviderBudgetPolicy) : f64 :=
  if (pol_Action p =? BudgetActionBlock)%string && (f64_of_Z (AtPercent p) <? at_)%f64
  then f64_of_Z (AtPercent p) else at_.

Definition minBlockAt (budget : ModelProviderBudget) : f64 :=
  foldl min_block_step (f64_of_Z 101) (Policies budget).

Definition configuredMarginPercent (budget : ModelProviderBudget) : f64 :=
  match Hard budget with
  | Some h => f64_of_Z (BoundaryMarginPercent h)
  | None => f64_of_Z 5
  end.

Definition replicasCount (b : BudgetLedger) : Z :=
  match replicas b with
  | None => 1
  | Some r => if (1 <? r)%Z then r else 1
  end.

Definition effectiveMarginPctLocked (b : BudgetLedger) (l : providerLedger) (ceilingUSD configured : f64) : f64 :=
  if (ceilingUSD <=? f64_zero)%f64 then configured
  else
    let reps := f64_of_Z (replicasCount b) in
    let marginUSD := (reps * maxCostPerCall l
      + (reps - f64_of_Z 1) * peakRatePerSec l * Seconds (stalenessWindow b))%f64 in
    let pct := (f64_of_Z 100 * marginUSD / ceilingUSD)%f64 in
    if (configured <? pct)%f64 then pct else configured.

(** The arguments [Admit]'s settle closure captures. *)
Record settle_handle := mk_handle {
  h_provider : string;
  h_uid : string;
  h_scheme : string;
  h_period : string;
  h_namespace : string;
  h_workload : string;
  h_keys : list string;
  h_token : N;
}.

(** The fail-closed test: unpublished settles or a peer view older than the
    staleness window. *)
Definition cannot_verify (b : BudgetLedger) (now : Time) (l : providerLedger) : bool :=
  (negb (IsZero (dirtySince l)) && (stalenessWindow b <? Sub now (dirtySince l))%Z)
  || IsZero (lastFoldOK l) || (stalenessWindow b <? Sub now (lastFoldOK l))%Z.

#[global] Instance settle_handle_eq_dec : EqDecision settle_handle.
Proof. solve_decision. Defined.

(** What [Admit] computes about the two boundaries. *)
Record boundary := mk_boundary {
  effNS : f64; effCL : f64; inBoundaryNS : bool; inBoundaryCL : bool;
}.

Definition boundary_of (b : BudgetLedger) (l : providerLedger) (budget : ModelProviderBudget) (u : utilization)
  : boundary :=
  let blockAt := minBlockAt budget in
  let configured := configuredMarginPercent budget in
  let effNS := effectiveMarginPctLocked b l (nsUSD u) configured in
  let effCL := effectiveMarginPctLocked b l (clUSD u) configured in
  mk_boundary effNS effCL
    ((f64_zero <? nsUSD u)%f64 && (blockAt - effNS <=? nsPct u)%f64)
    ((f64_zero <? clUSD u)%f64 && (blockAt - effCL <=? clPct u)%f64).

Definition margin_exceeded (budget : ModelProviderBudget) (bd : boundary) : bool :=
  let configured := configuredMarginPercent budget in
  (inBoundaryNS bd && (configured <? effNS bd)%f64) || (inBoundaryCL bd && (configured <? effCL bd)%f64).

(** Taking the slots of the boundaries the request is in. *)
Definition boundary_keys (bd : boundary) (namespace : string) : list string :=
  (if inBoundaryNS bd then [namespace] else []) ++ (if inBoundaryCL bd then [clusterSlotKey] else []).

Definition take_slots (l : providerLedger) (keys : list string) : providerLedger :=
  let token := (nextToken l + 1)%N in
  set_adm l (foldl (λ m k, <[k := token]> m) (adm l) keys) token.

Definition Admit (b : BudgetLedger) (now : Time) (p : ModelProvider) (namespace workload : string)
  : BudgetLedger * (budgetDecision * option settle_handle) :=
  let budget := Budget (Spec p) in
  let scheme := Period budget in
  if negb (enforces p now) then (b, (no_decision, None))
  else
    let '(b, r) := ledgerFor b now (Name p) (UID p) scheme in
    let l := deref r in
    let u := utilizationLocked budget l namespace in
    let d := decide_budget budget now u in
    if negb (hardActive p) || (Action d =? BudgetActionBlock)%string then (b, (d, None))
    else if bool_decide (is_Some (adm l !! namespace)) then (b, (set_throttled d, None))
    else if bool_decide (is_Some (adm l !! clusterSlotKey)) && (f64_zero <? clUSD u)%f64
    then (b, (set_throttled d, None))
    else
      let bd := boundary_of b l budget u in
      if negb (inBoundaryNS bd) && negb (inBoundaryCL bd) then (b, (d, None))
      else if cannot_verify b now l then (b, (set_unavailable d, None))
      else
        let raise := margin_exceeded budget bd && negb (marginRaised l) in
        let l := if raise then set_marginRaised l true else l in
        let keys := boundary_keys bd namespace in
        let l := take_slots l keys in
        (store b (Name p) r l,
         (set_engaged d raise,
          Some (mk_handle (Name p) (UID p) scheme (l_period l) namespace workload keys (nextToken l)))).

(** Freeing the slots that still carry the handle's token. *)
Definition free_slots (a : gmap string N) (keys : list string) (token : N) : gmap string N :=
  foldl (λ m k, if decide (m !! k = Some token) then delete k m else m) a keys.

Definition settle (b : BudgetLedger) (now : Time) (h : settle_handle) (costUSD : f64) : BudgetLedger :=
  let '(b, r) := ledgerFor b now (h_provider h) (h_uid h) (h_scheme h) in
  let l := deref r in
  let l := if (l_period l =? h_period h)%string
           then set_adm l (free_slots (adm l) (h_keys h) (h_token h)) (nextToken l) else l in
  if negb (costUSD =? f64_zero)%f64 then
    let l := record_cost now l (h_namespace h) (h_workload h) costUSD in
    let b := store b (h_provider h) r l in
    if (length (kick b) <? kickCap)%nat then set_kick b (kick b ++ [h_provider h]) else b
  else store b (h_provider h) r l.
End enforcement.
