(* ===== verification/BudgetFacts.v ===== *)
(** Functional properties of the budget ledger: the policy ladder,
    utilization and margins, the isolation and rollover of [ledgerFor], the
    branches of [Admit], and what [settle] and the publish path do.

    The second half is a replica as a step relation over all interleavings of
    the operations, with the invariant of the admission slots. *)

From stdpp Require Import base gmap list strings option fin_maps.
From Stdlib Require Import ZArith Lia.
From S2P Require Import Prelude GoFloat GoTime Api BudgetPeriod BudgetWire BudgetLedger.

(** ** The policy ladder *)

Definition crosses_policy (percent : f64) (p : ModelProviderBudgetPolicy) : bool :=
  (f64_of_Z (AtPercent p) <=? percent)%f64.

(** [w] is the first policy with the highest crossed threshold of [ps]. *)
Definition ladder_winner (percent : f64) (ps : list ModelProviderBudgetPolicy)
    (w : option ModelProviderBudgetPolicy) : Prop :=
  match w with
  | None => Forall (λ p, crosses_policy percent p = false) ps
  | Some w => ∃ i, ps !! i = Some w ∧ crosses_policy percent w = true ∧
      ∀ j p, ps !! j = Some p → crosses_policy percent p = true →
        (AtPercent p <= AtPercent w)%Z ∧ (AtPercent p = AtPercent w → i ≤ j)
  end.

Lemma ladder_winner_snoc percent ps w p :
  ladder_winner percent ps w → ladder_winner percent (ps ++ [p]) (ladder_step percent w p).
Proof.
  unfold ladder_step. change (f64_of_Z (AtPercent p) <=? percent)%f64 with (crosses_policy percent p).
  destruct w as [w|]; simpl.
  - intros (i&Hi&Hw&Hmax). pose proof (lookup_lt_Some _ _ _ Hi).
    destruct (crosses_policy percent p) eqn:Hp; simpl; [destruct (Z.ltb_spec (AtPercent w) (AtPercent p))|].
    + exists (length ps). split; [by rewrite lookup_app_r, Nat.sub_diag by lia|]. split; [done|].
      intros j q [Hq|[Hj Hq]]%lookup_app_Some Hc.
      * destruct (Hmax j q Hq Hc). lia.
      * apply list_lookup_singleton_Some in Hq as [_ <-]. lia.
    + exists i. split; [by apply lookup_app_l_Some|]. split; [done|].
      intros j q [Hq|[Hj Hq]]%lookup_app_Some Hc; [by apply Hmax|].
      apply list_lookup_singleton_Some in Hq as [_ <-]. lia.
    + exists i. split; [by apply lookup_app_l_Some|]. split; [done|].
      intros j q [Hq|[Hj Hq]]%lookup_app_Some Hc; [by apply Hmax|].
      apply list_lookup_singleton_Some in Hq as [_ <-]. congruence.
  - intros Hnone. destruct (crosses_policy percent p) eqn:Hp; simpl.
    + exists (length ps). split; [by rewrite lookup_app_r, Nat.sub_diag by lia|]. split; [done|].
      intros j q [Hq|[Hj Hq]]%lookup_app_Some Hc.
      * rewrite Forall_lookup in Hnone. apply Hnone in Hq. congruence.
      * apply list_lookup_singleton_Some in Hq as [_ <-]. lia.
    + apply Forall_app. auto.
Qed.

(** The policy ladder.  [BudgetPolicyAt] returns no policy exactly when
    the utilization is below every threshold, and otherwise a crossed policy
    whose threshold no crossed policy exceeds, the first one in declaration
    order among equals. *)
Theorem BudgetPolicyAt_winner budget percent :
  ladder_winner percent (Policies budget) (BudgetPolicyAt budget percent).
Proof.
  unfold BudgetPolicyAt. set (ps := Policies budget). clearbody ps.
  induction ps as [|p ps IH] using rev_ind; simpl; [constructor|].
  rewrite foldl_app. simpl. by apply ladder_winner_snoc.
Qed.

(** ** ledgerFor *)

(** The ledger of one operation is bound to the provider and to the current
    period, in a ledger that differs from the old one at that name only. *)
Lemma ledgerFor_cases b now name uid scheme :
  (uid ∈ superseded b ∧
   ledgerFor b now name uid scheme = (b, inr (newProviderLedger (PeriodKey scheme now) uid))) ∨
  (uid ∉ superseded b ∧ ∃ l sup,
    ledgerFor b now name uid scheme =
      (mk_budget_ledger (kick b) (stalenessWindow b) (replicas b) (<[name := l]> (providers b)) sup, inl l) ∧
    l_uid l = uid ∧ l_period l = PeriodKey scheme now ∧
    match providers b !! name with
    | None => l = newProviderLedger (PeriodKey scheme now) uid ∧ sup = superseded b
    | Some l0 =>
        (l_uid l0 ≠ uid ∧ l = newProviderLedger (PeriodKey scheme now) uid
         ∧ sup = {[l_uid l0]} ∪ superseded b)
        ∨ (l_uid l0 = uid ∧ l_period l0 = PeriodKey scheme now ∧ l = l0 ∧ sup = superseded b)
        ∨ (l_uid l0 = uid ∧ l_period l0 ≠ PeriodKey scheme now
           ∧ l = rollover l0 (PeriodKey scheme now) ∧ sup = superseded b)
    end).
Proof.
  unfold ledgerFor. case_decide as Hsup; [by left|right]. split; [done|].
  destruct (providers b !! name) as [l0|] eqn:E; simpl.
  - destruct (String.eqb_spec (l_uid l0) uid) as [<-|Hne]; simpl.
    + destruct (String.eqb_spec (l_period l0) (PeriodKey scheme now)) as [Hp|Hp]; simpl;
        eexists _, _; split; [done| |done|]; naive_solver.
    + rewrite String.eqb_refl; simpl. eexists _, _; split; [done|]. naive_solver.
  - rewrite String.eqb_refl; simpl. eexists _, _; split; [done|]. naive_solver.
Qed.

Lemma ledgerFor_deref b now name uid scheme b' r :
  ledgerFor b now name uid scheme = (b', r) →
  l_uid (deref r) = uid ∧ l_period (deref r) = PeriodKey scheme now.
Proof.
  intros E. destruct (ledgerFor_cases b now name uid scheme) as [[_ E']|(_&l&sup&E'&?&?&_)];
    rewrite E in E'; by simplify_eq/=.
Qed.

Lemma ledgerFor_other b now name uid scheme b' r name' :
  ledgerFor b now name uid scheme = (b', r) → name' ≠ name →
  providers b' !! name' = providers b !! name'.
Proof.
  intros E Hne. destruct (ledgerFor_cases b now name uid scheme) as [[_ E']|(_&l&sup&E'&_)];
    rewrite E in E'; simplify_eq/=; [done|]. by rewrite lookup_insert_ne.
Qed.

Lemma store_other b name r l name' :
  name' ≠ name → providers (store b name r l) !! name' = providers b !! name'.
Proof. intros. destruct r; simpl; [by rewrite lookup_insert_ne|done]. Qed.

(** ** Isolation *)

(** The operations of the ledger, as one type. *)
Inductive ledger_op :=
| OpAdd (p : ModelProvider) (namespace workload : string) (cost : f64)
| OpFoldPeers (p : ModelProvider) (m : gmap string f64)
| OpFoldWorkloadPeers (p : ModelProvider) (m : gmap string f64)
| OpMarkPublished (p : ModelProvider) (snapshot : Time)
| OpEnforce (p : ModelProvider) (namespace : string)
| OpAdmit (p : ModelProvider) (namespace workload : string)
| OpSettle (h : settle_handle) (cost : f64).

Section facts.
Context {MR : MapRange}.

Definition run_op (b : BudgetLedger) (now : Time) (op : ledger_op) : BudgetLedger :=
  match op with
  | OpAdd p ns w c => Add b now p ns w c
  | OpFoldPeers p m => FoldPeers b now p m
  | OpFoldWorkloadPeers p m => FoldWorkloadPeers b now p m
  | OpMarkPublished p s => MarkPublished b p s
  | OpEnforce p ns => (Enforce b now p ns).1
  | OpAdmit p ns w => (Admit b now p ns w).1
  | OpSettle h c => settle b now h c
  end.

Definition op_target (op : ledger_op) : string * string :=
  match op with
  | OpAdd p _ _ _ | OpFoldPeers p _ | OpFoldWorkloadPeers p _ | OpMarkPublished p _
  | OpEnforce p _ | OpAdmit p _ _ => (Name p, UID p)
  | OpSettle h _ => (h_provider h, h_uid h)
  end.

(** Every operation goes through [ledgerFor] or [boundLedger] of its target
    and writes at most through the pointer it got. *)
Lemma run_op_shape b now op :
  run_op b now op = b ∨
  (∃ scheme b' r l k, ledgerFor b now (op_target op).1 (op_target op).2 scheme = (b', r) ∧
     (run_op b now op = b' ∨
      run_op b now op = store b' (op_target op).1 r l ∨
      run_op b now op = set_kick (store b' (op_target op).1 r l) k)) ∨
  (∃ l0 l, providers b !! (op_target op).1 = Some l0 ∧ l_uid l0 = (op_target op).2 ∧
     run_op b now op = set_providers b (<[(op_target op).1 := l]> (providers b))).
Proof.
  destruct op; simpl.
  - unfold Add. case_match; [by left|]. unfold ledgerOf. destruct (ledgerFor _ _ _ _ _) as [b' r] eqn:E.
    right; left. eexists _, _, _, _, []; split; [done|]. right; left; done.
  - unfold FoldPeers, ledgerOf. destruct (ledgerFor _ _ _ _ _) as [b' r] eqn:E.
    right; left. eexists _, _, _, _, []; split; [done|]. right; left; done.
  - unfold FoldWorkloadPeers, ledgerOf. destruct (ledgerFor _ _ _ _ _) as [b' r] eqn:E.
    right; left. eexists _, _, _, _, []; split; [done|]. right; left; done.
  - unfold MarkPublished, boundLedger. destruct (providers b !! Name p) as [l0|] eqn:E; [|by left].
    destruct (String.eqb_spec (l_uid l0) (UID p)); simpl; [|by left]. case_match; [|by left].
    right; right. eauto.
  - unfold Enforce. case_match; [by left|]. unfold ledgerOf. destruct (ledgerFor _ _ _ _ _) as [b' r] eqn:E.
    right; left. eexists _, _, _, (deref r), []; split; [done|]. by left.
  - unfold Admit. case_match; [by left|]. destruct (ledgerFor _ _ _ _ _) as [b' r] eqn:E.
    right; left.
    repeat case_match; eexists _, b', r, _, []; (split; [done|]); (by left) || (right; left; done).
  - unfold settle. destruct (ledgerFor _ _ _ _ _) as [b' r] eqn:E.
    right; left. repeat case_match; eexists _, b', r, _, _; (split; [done|]); try (right; right; done);
      right; left; done.
  Unshelve. all: exact [] || exact (deref r).
Qed.

(** Isolation.  An operation for one provider changes no other
    provider's ledger, and an operation that still carries the UID of a
    deleted provider (an in-flight settle, a request holding the old object)
    changes no stored ledger at all. *)
Theorem run_op_isolated b now op :
  (∀ name, name ≠ (op_target op).1 → providers (run_op b now op) !! name = providers b !! name) ∧
  ((op_target op).2 ∈ superseded b →
   map_Forall (λ _ l, l_uid l ∉ superseded b) (providers b) →
   providers (run_op b now op) = providers b ∧ superseded (run_op b now op) = superseded b).
Proof.
  destruct (run_op_shape b now op) as [->|[(scheme&b'&r&l&k&E&H)|(l0&l&Hl0&Hu&->)]].
  - done.
  - split.
    + intros name Hne. pose proof (ledgerFor_other _ _ _ _ _ _ _ name E Hne) as Ho.
      destruct H as [->|[->| ->]]; simpl; rewrite ?store_other; done.
    + intros Hs _. destruct (ledgerFor_cases b now (op_target op).1 (op_target op).2 scheme) as [[_ E']|[? _]]; [|done].
      rewrite E in E'. simplify_eq/=. by destruct H as [->|[->| ->]].
  - split; [intros name Hne; simpl; by rewrite lookup_insert_ne|].
    intros Hs Hall. apply Hall in Hl0. congruence.
Qed.

(** Period rollover and recreation.  Every operation that counts or
    enforces works on a ledger of the current period; one that meets a ledger
    of an older period, or of a deleted provider of the same name, starts from
    empty spend and free slots. *)
Theorem ledgerFor_fresh_period b now name uid scheme b' l :
  ledgerFor b now name uid scheme = (b', inl l) →
  providers b' !! name = Some l ∧ l_uid l = uid ∧ l_period l = PeriodKey scheme now ∧
  (∀ l0, providers b !! name = Some l0 →
    (l_uid l0 = uid ∧ l_period l0 = PeriodKey scheme now ∧ l = l0) ∨
    ((l_uid l0 ≠ uid ∨ l_period l0 ≠ PeriodKey scheme now) ∧
     own l = ∅ ∧ peers l = ∅ ∧ ownW l = ∅ ∧ peersW l = ∅ ∧ adm l = ∅ ∧
     maxCostPerCall l = f64_zero ∧ peakRatePerSec l = f64_zero ∧ marginRaised l = false)) ∧
  (∀ l0, providers b !! name = Some l0 → l_uid l0 ≠ uid → l_uid l0 ∈ superseded b').
Proof.
  intros E. destruct (ledgerFor_cases b now name uid scheme) as [[_ E']|(_&l'&sup&E'&Hu&Hp&H)];
    rewrite E in E'; simplify_eq/=.
  split; [by rewrite lookup_insert_eq|]. split_and!; [done|done|..].
  - intros l0 Hl0. rewrite Hl0 in H. destruct H as [(?&->&->)|[(?&?&->&->)|(?&?&->&->)]]; [|left; done|].
    + right. split; [by left|]. done.
    + right. split; [by right|]. done.
  - intros l0 Hl0 Hne. rewrite Hl0 in H. destruct H as [(?&_&->)|[(?&?)|(?&?)]]; set_solver.
Qed.

(** ** Margins *)

(** The configured margin is a floor: whatever traffic was observed, the
    effective boundary margin is never below the configured percentage. *)
Lemma effective_margin_floor b l ceiling configured :
  (effectiveMarginPctLocked b l ceiling configured <? configured)%f64 = false.
Proof.
  unfold effectiveMarginPctLocked. repeat case_match; auto with kaalm.
Qed.

(** ** Admission *)

(** The ledger [Admit] decides on, and its utilization and boundary. *)
Definition admit_view (b : BudgetLedger) (now : Time) (p : ModelProvider) (namespace : string)
  : BudgetLedger * providerLedger * utilization * boundary :=
  let budget := Budget (Spec p) in
  let '(b', r) := ledgerFor b now (Name p) (UID p) (Period budget) in
  let u := utilizationLocked budget (deref r) namespace in
  (b', deref r, u, boundary_of b' (deref r) budget u).

Definition in_boundary (bd : boundary) : bool := inBoundaryNS bd || inBoundaryCL bd.

Lemma boundary_CL_positive b l budget u :
  inBoundaryCL (boundary_of b l budget u) = true → (f64_zero <? clUSD u)%f64 = true.
Proof. simpl. by intros [? _]%andb_true_iff. Qed.

(** The slots that govern a request: its namespace's inside the namespace
    boundary, the cluster's inside the cluster boundary. *)
Definition governed (bd : boundary) (ns k : string) : Prop :=
  (inBoundaryNS bd = true ∧ k = ns) ∨ (inBoundaryCL bd = true ∧ k = clusterSlotKey).

Lemma elem_of_boundary_keys bd ns k : k ∈ boundary_keys bd ns ↔ governed bd ns k.
Proof. unfold boundary_keys, governed. destruct (inBoundaryNS bd), (inBoundaryCL bd); set_solver. Qed.

(** The replica cannot verify its budget state: settles not published, or no
    peer view, for longer than the staleness window. *)
Definition unverified (b : BudgetLedger) (now : Time) (l : providerLedger) : Prop :=
  (dirtySince l ≠ 0 ∧ stalenessWindow b < Sub now (dirtySince l))%Z ∨
  lastFoldOK l = 0%Z ∨ (stalenessWindow b < Sub now (lastFoldOK l))%Z.

Lemma cannot_verify_spec b now l : cannot_verify b now l = true ↔ unverified b now l.
Proof.
  unfold cannot_verify, unverified, IsZero.
  rewrite !orb_true_iff, andb_true_iff, negb_true_iff, Z.eqb_neq, Z.eqb_eq, !Z.ltb_lt. tauto.
Qed.

Lemma lookup_take_slots l keys k :
  adm (take_slots l keys) !! k = if decide (k ∈ keys) then Some (nextToken l + 1)%N else adm l !! k.
Proof.
  unfold take_slots; simpl. generalize (adm l) as a.
  induction keys as [|k' keys IH]; intros a; cbn [foldl]; [by rewrite decide_False by set_solver|].
  rewrite IH. destruct (decide (k ∈ keys)).
  - rewrite decide_True by set_solver. done.
  - rewrite lookup_insert. case_decide; [subst; by rewrite decide_True by set_solver|].
    by rewrite decide_False by set_solver.
Qed.

Lemma decide_budget_flags budget now u :
  let d := decide_budget budget now u in
  Throttled d = false ∧ Unavailable d = false ∧ BoundaryEngaged d = false ∧ MarginRaisedNow d = false.
Proof. unfold decide_budget. by case_match. Qed.

(** No unserialised admission inside a boundary.  When [Admit] lets a
    request of a hard-enforced provider through (no block, no throttle, not
    unavailable) and the request is inside a boundary region, then the replica
    could verify its budget state, every governed slot was free, and the
    request takes exactly those slots under a fresh token that its settle
    handle carries: that ledger is what is stored when the provider's UID is
    current. *)
Theorem admit_in_boundary_holds_slots b now p ns w b' d oh b0 l u bd :
  enforces p now = true → hardActive p = true →
  admit_view b now p ns = (b0, l, u, bd) →
  Admit b now p ns w = (b', (d, oh)) →
  Action d ≠ BudgetActionBlock → Throttled d = false → Unavailable d = false →
  in_boundary bd = true →
  ¬ unverified b0 now l ∧
  (∀ k, governed bd ns k → adm l !! k = None) ∧
  ∃ h l', oh = Some h ∧ BoundaryEngaged d = true ∧
    (∀ k, k ∈ h_keys h ↔ governed bd ns k) ∧ h_token h = (nextToken l + 1)%N ∧ h_period h = l_period l ∧
    (∀ k, adm l' !! k = if decide (k ∈ h_keys h) then Some (h_token h) else adm l !! k) ∧
    own l' = own l ∧ peers l' = peers l ∧
    (UID p ∉ superseded b → providers b' !! Name p = Some l').
Proof.
  unfold admit_view, in_boundary. intros Hen Hhard Hview Hadm Hblock Hthr Hun Hin.
  unfold Admit in Hadm. rewrite Hen in Hadm. cbn [negb orb] in Hadm.
  destruct (ledgerFor b now (Name p) (UID p) (Period (Budget (Spec p)))) as [b1 r] eqn:E.
  injection Hview as <- <- <- <-. rewrite Hhard in Hadm. cbn [negb orb] in Hadm.
  set (u := utilizationLocked (Budget (Spec p)) (deref r) ns) in *.
  set (bd := boundary_of b1 (deref r) (Budget (Spec p)) u) in *.
  destruct (String.eqb_spec (Action (decide_budget (Budget (Spec p)) now u)) BudgetActionBlock) as [Eb|_];
    cbn [negb orb] in Hadm; [simplify_eq; done|].
  destruct (bool_decide (is_Some (adm (deref r) !! ns))) eqn:Hns; [simplify_eq/=; done|].
  destruct (bool_decide (is_Some (adm (deref r) !! clusterSlotKey)) && (f64_zero <? clUSD u)%f64) eqn:Hcl;
    [simplify_eq/=; done|].
  assert (negb (inBoundaryNS bd) && negb (inBoundaryCL bd) = false) as Hin'
    by (destruct (inBoundaryNS bd), (inBoundaryCL bd); done).
  rewrite Hin' in Hadm. destruct (cannot_verify b1 now (deref r)) eqn:Hcv; [simplify_eq/=; done|].
  split; [rewrite <- cannot_verify_spec; congruence|]. split.
  { apply bool_decide_eq_false in Hns. rewrite <- eq_None_not_Some in Hns.
    intros k [[_ ->]|[HCL ->]]; [done|].
    apply boundary_CL_positive in HCL. rewrite HCL, andb_true_r in Hcl.
    apply bool_decide_eq_false in Hcl. by rewrite <- eq_None_not_Some in Hcl. }
  set (raise := margin_exceeded (Budget (Spec p)) bd && negb (marginRaised (deref r))) in *.
  set (l1 := if raise then set_marginRaised (deref r) true else deref r) in *.
  assert (adm l1 = adm (deref r) ∧ nextToken l1 = nextToken (deref r) ∧ l_period l1 = l_period (deref r)
    ∧ own l1 = own (deref r) ∧ peers l1 = peers (deref r)) as (Ha&Ht&Hp&Ho&Hpe).
  { unfold l1. by destruct raise. }
  injection Hadm as <- <- <-.
  eexists _, (take_slots l1 (boundary_keys bd ns)). split; [done|]. split; [done|].
  split; [intros k; apply elem_of_boundary_keys|]. split; [simpl; by rewrite Ht|]. split; [simpl; by rewrite Hp|].
  split; [intros k; rewrite lookup_take_slots; simpl; by rewrite Ht, Ha|].
  split; [simpl; congruence|]. split; [simpl; congruence|].
  intros Hlive. destruct (ledgerFor_cases b now (Name p) (UID p) (Period (Budget (Spec p))))
    as [[? _]|(_&l'&sup&E'&_)]; [done|]. rewrite E in E'. simplify_eq/=. by rewrite lookup_insert_eq.
Qed.

(** C5: fail closed.  Inside a boundary whose slots are free, a replica with
    unpublished settles or a peer view older than the staleness window (or no
    peer view yet) answers Unavailable, admits nothing and takes no slot. *)
Theorem admit_fails_closed b now p ns w b0 l u bd :
  enforces p now = true → hardActive p = true →
  admit_view b now p ns = (b0, l, u, bd) →
  Action (decide_budget (Budget (Spec p)) now u) ≠ BudgetActionBlock →
  adm l !! ns = None → adm l !! clusterSlotKey = None →
  in_boundary bd = true → unverified b0 now l →
  Admit b now p ns w = (b0, (set_unavailable (decide_budget (Budget (Spec p)) now u), None)).
Proof.
  unfold admit_view, in_boundary, Admit. intros Hen Hhard Hview Hblock Hns Hcl Hin Hcv%cannot_verify_spec.
  rewrite Hen. cbn [negb]. destruct (ledgerFor _ _ _ _ _) as [b1 r] eqn:E. simplify_eq.
  rewrite Hhard. apply String.eqb_neq in Hblock. rewrite Hblock, Hns, Hcl. cbn [negb orb].
  rewrite !(bool_decide_eq_false_2 (is_Some None)) by (by intros []). cbn [andb].
  destruct (inBoundaryNS _), (inBoundaryCL _); cbn [negb andb]; by rewrite ?Hcv.
Qed.

(** Soft mode.  A provider without hard enforcement is admitted exactly
    as [Enforce] decides, never with a settle handle, and the ledger changes
    by the period rollover only. *)
Lemma admit_soft_is_enforce b now p ns w :
  hardActive p = false →
  Admit b now p ns w = ((Enforce b now p ns).1, ((Enforce b now p ns).2, None)).
Proof.
  intros Hsoft. unfold Admit, Enforce, ledgerOf. destruct (enforces p now); simpl; [|done].
  destruct (ledgerFor _ _ _ _ _) as [b1 r]. by rewrite Hsoft.
Qed.

(** ** Settle and publish *)

Lemma lookup_free_slots a keys token k :
  free_slots a keys token !! k
  = if decide (k ∈ keys ∧ a !! k = Some token) then None else a !! k.
Proof.
  unfold free_slots. revert a. induction keys as [|k' keys IH]; intros a; cbn [foldl].
  { by rewrite decide_False by set_solver. }
  rewrite IH. clear IH. destruct (decide (a !! k' = Some token)) as [Hk'|Hk'].
  - destruct (decide (k = k')) as [->|Hne].
    + rewrite lookup_delete_eq. rewrite !(decide_True (P := k' ∈ k' :: keys ∧ _)) by (split; [set_solver|done]).
      by case_decide.
    + rewrite lookup_delete_ne by done. repeat case_decide; set_solver.
  - destruct (decide (k = k')) as [->|Hne]; repeat case_decide; set_solver.
Qed.

Lemma record_cost_fields now l ns w c :
  let l' := record_cost now l ns w c in
  l_uid l' = l_uid l ∧ l_period l' = l_period l ∧ adm l' = adm l ∧ nextToken l' = nextToken l ∧
  own l' = add_at (own l) ns c ∧ peers l' = peers l ∧ peersW l' = peersW l ∧
  ownW l' = add_at (ownW l) (ns +:+ ("/" +:+ w)) c ∧
  lastFoldOK l' = lastFoldOK l ∧ marginRaised l' = marginRaised l ∧
  dirtySince l' = if IsZero (dirtySince l) then now else dirtySince l.
Proof.
  unfold record_cost, trackLocked. cbn zeta.
  destruct (c <=? f64_zero)%f64; [|destruct (_ || _)]; simpl;
    destruct (IsZero (dirtySince l)) eqn:E; simpl; rewrite ?E; done.
Qed.

(** Settling.  For a handle whose provider and period are current,
    [settle] frees exactly the slots that carry the handle's token, adds the
    actual cost to the namespace's spend in the same step, asks for an
    immediate publish, and marks the ledger as having unpublished spend, so
    the next admission sees the request's real cost. *)
Theorem settle_frees_and_counts b now h c l :
  h_uid h ∉ superseded b → providers b !! h_provider h = Some l →
  l_uid l = h_uid h → l_period l = h_period h → h_period h = PeriodKey (h_scheme h) now →
  (c =? f64_zero)%f64 = false → now ≠ 0%Z → length (kick b) < kickCap →
  ∃ l', providers (settle b now h c) !! h_provider h = Some l' ∧
    (∀ k, adm l' !! k = if decide (k ∈ h_keys h ∧ adm l !! k = Some (h_token h)) then None else adm l !! k) ∧
    (∀ ns, get0 (own l') ns = if decide (h_namespace h = ns) then (get0 (own l) ns + c)%f64 else get0 (own l) ns) ∧
    peers l' = peers l ∧ dirtySince l' ≠ 0%Z ∧
    kick (settle b now h c) = kick b ++ [h_provider h].
Proof.
  intros Hlive Hl Hu Hp Hper Hc Hnow Hk. unfold settle.
  destruct (ledgerFor_cases b now (h_provider h) (h_uid h) (h_scheme h)) as [[? _]|(_&l1&sup&E&_&_&H)]; [done|].
  rewrite E, Hl in *. destruct H as [(?&_)|[(_&_&->&->)|(_&?&_)]]; [done| |congruence].
  cbn [deref]. rewrite Hp, String.eqb_refl, Hc. cbn [negb store].
  set (l1 := set_adm l _ _). destruct (record_cost_fields now l1 (h_namespace h) (h_workload h) c)
    as (_&_&Ha&_&Ho&Hpe&_&_&_&_&Hd).
  rewrite (proj2 (Nat.ltb_lt _ _)) by done. simpl. rewrite lookup_insert_eq.
  eexists; split; [done|]. split_and!.
  - intros k. rewrite Ha. apply lookup_free_slots.
  - intros ns. rewrite Ho, get0_add_at. by case_decide; subst.
  - by rewrite Hpe.
  - rewrite Hd. unfold IsZero. subst l1; simpl. by destruct (Z.eqb_spec (dirtySince l) 0).
  - done.
Qed.

(** The write-path signal can miss a settle.  [MarkPublished] is meant
    to keep the unpublished-spend signal when a newer settle landed after the
    snapshot.  When the ledger was already dirty before the snapshot, a
    settle between the snapshot and [MarkPublished] keeps the older stamp, and
    [MarkPublished] clears it: the settle's cost is in the ledger, is not in
    the published snapshot, and no longer counts toward the fail-closed
    check. *)
Theorem mark_published_drops_newer_settle b now p ns w c l snapshot :
  UID p ∉ superseded b → providers b !! Name p = Some l → l_uid l = UID p →
  tracks_budget p now = true → l_period l = PeriodKey (Period (Budget (Spec p))) now →
  (c =? f64_zero)%f64 = false →
  (0 < dirtySince l <= snapshot)%Z → (snapshot < now)%Z →
  ∃ l', providers (MarkPublished (Add b now p ns w c) p snapshot) !! Name p = Some l' ∧
    get0 (own l') ns = (get0 (own l) ns + c)%f64 ∧ dirtySince l' = 0%Z.
Proof.
  intros Hlive Hl Hu Ht Hp Hc Hd Hs. unfold Add, ledgerOf. rewrite Ht, Hc. cbn [negb orb].
  destruct (ledgerFor_cases b now (Name p) (UID p) (Period (Budget (Spec p)))) as [[? _]|(_&l1&sup&E&_&_&H)]; [done|].
  rewrite E, Hl in *. destruct H as [(?&_)|[(_&_&->&->)|(_&?&_)]]; [done| |congruence].
  cbn [store deref]. destruct (record_cost_fields now l ns w c) as (Hu'&_&_&_&Ho&_&_&_&_&_&Hd').
  set (l1 := record_cost now l ns w c) in *. cbv zeta in *.
  unfold MarkPublished, boundLedger; simpl. rewrite lookup_insert_eq, Hu', Hu, String.eqb_refl.
  cbn [negb]. unfold IsZero in *. rewrite (proj2 (Z.eqb_neq (dirtySince l) 0)) in Hd' by lia.
  rewrite Hd', (proj2 (Z.eqb_neq (dirtySince l) 0)) by lia. unfold After.
  rewrite (proj2 (Z.ltb_ge snapshot (dirtySince l))) by lia. simpl. rewrite lookup_insert_eq.
  eexists; split; [done|]. split; [|done]. simpl. rewrite Ho, get0_add_at. by rewrite decide_True.
Qed.
End facts.

(** ** Witnesses

    A hard-enforced provider with a monthly ceiling of 100 USD per namespace,
    blocking at 100 percent with a margin of 5. *)
Definition example_budget (mode : string) : ModelProviderBudget :=
  mk_budget "monthly" "100" [mk_policy 80 "warn" None; mk_policy 100 "block" None] None mode
    (Some (mk_budget_hard 5)).

Definition example_provider (mode : string) : ModelProvider :=
  mk_provider "claude" "uid-1"
    (mk_provider_spec "anthropic" [] ["*"] (example_budget mode) (mk_rate_limits 0 0) []).

Definition example_now : Time := Date 2026 9 14.

(** The replica after folding peers at [example_now] and counting 96 USD one
    second later. *)
Definition example_ledger : BudgetLedger :=
  let b := FoldPeers NewBudgetLedger example_now (example_provider "hard") {[ "team-b" := usd "1" ]} in
  Add b (example_now + Second)%Z (example_provider "hard") "team-a" "agent/x" (usd "96").

Definition example_view : BudgetLedger * providerLedger * utilization * boundary :=
  @admit_view list_order example_ledger (example_now + 2 * Second)%Z (example_provider "hard") "team-a".

Definition example_admit : BudgetLedger * (budgetDecision * option settle_handle) :=
  @Admit list_order example_ledger (example_now + 2 * Second)%Z (example_provider "hard") "team-a" "agent/x".

Lemma ledgerFor_fresh_period_witness :
  match ledgerFor example_ledger (Date 2026 10 1) "claude" "uid-1" "monthly" with
  | (b', inl l) =>
      own l = ∅ ∧ providers b' !! "claude" = Some l ∧ l_period l = "2026-10"
  | (_, inr _) => False
  end.
Proof.
  destruct (ledgerFor example_ledger (Date 2026 10 1) "claude" "uid-1" "monthly") as [b' [l|l]] eqn:E.
  - destruct (ledgerFor_fresh_period _ _ _ _ _ _ _ E) as (H1&_&H3&_).
    split; [|split; [done|rewrite H3; by vm_compute]].
    vm_compute in E. injection E as <- <-. by vm_compute.
  - exfalso. vm_compute in E. discriminate E.
Defined.

Lemma admit_view_eta b now p ns :
  let v := @admit_view list_order b now p ns in v = (v.1.1.1, v.1.1.2, v.1.2, v.2).
Proof. cbv zeta. by destruct (admit_view b now p ns) as [[[??]?]?]. Qed.

Lemma Admit_eta b now p ns w :
  let v := @Admit list_order b now p ns w in v = (v.1, (v.2.1, v.2.2)).
Proof. cbv zeta. by destruct (Admit b now p ns w) as [? [??]]. Qed.

Lemma admit_in_boundary_holds_slots_witness :
  in_boundary example_view.2 = true ∧
  (∀ k, governed example_view.2 "team-a" k → adm example_view.1.1.2 !! k = None) ∧
  (∃ h, example_admit.2.2 = Some h ∧ "team-a" ∈ h_keys h).
Proof.
  destruct (@admit_in_boundary_holds_slots list_order example_ledger (example_now + 2 * Second)%Z
    (example_provider "hard") "team-a" "agent/x" example_admit.1 example_admit.2.1 example_admit.2.2
    example_view.1.1.1 example_view.1.1.2 example_view.1.2 example_view.2
    ltac:(vm_compute; reflexivity) ltac:(vm_compute; reflexivity)
    (admit_view_eta _ _ _ _) (Admit_eta _ _ _ _ _)
    ltac:(vm_compute; congruence) ltac:(vm_compute; reflexivity) ltac:(vm_compute; reflexivity)
    ltac:(vm_compute; reflexivity)) as (_&Hfree&h&l'&Hoh&_&Hk&_).
  split; [vm_compute; reflexivity|]. split; [exact Hfree|].
  exists h. split; [exact Hoh|]. apply Hk. left. split; [vm_compute; reflexivity|reflexivity].
Defined.

Definition example_late : Time := (example_now + 60 * Second)%Z.
Definition example_late_view : BudgetLedger * providerLedger * utilization * boundary :=
  @admit_view list_order example_ledger example_late (example_provider "hard") "team-a".

Lemma admit_fails_closed_witness :
  (@Admit list_order example_ledger example_late (example_provider "hard") "team-a" "agent/x").2.2 = None ∧
  Unavailable (@Admit list_order example_ledger example_late (example_provider "hard") "team-a" "agent/x").2.1 = true.
Proof.
  rewrite (@admit_fails_closed list_order example_ledger example_late (example_provider "hard")
    "team-a" "agent/x" example_late_view.1.1.1 example_late_view.1.1.2 example_late_view.1.2 example_late_view.2
    ltac:(vm_compute; reflexivity) ltac:(vm_compute; reflexivity) (admit_view_eta _ _ _ _)
    ltac:(vm_compute; congruence) ltac:(vm_compute; reflexivity) ltac:(vm_compute; reflexivity)
    ltac:(vm_compute; reflexivity) ltac:(right; right; vm_compute; reflexivity)).
  split; reflexivity.
Defined.

Lemma admit_soft_is_enforce_witness :
  Action (@Enforce list_order example_ledger example_now (example_provider "soft") "team-a").2 = "warn" ∧
  (@Admit list_order example_ledger example_now (example_provider "soft") "team-a" "agent/x").2
  = ((@Enforce list_order example_ledger example_now (example_provider "soft") "team-a").2, None).
Proof.
  split; [by vm_compute|].
  by rewrite (@admit_soft_is_enforce list_order example_ledger example_now (example_provider "soft") "team-a" "agent/x" eq_refl).
Defined.

Definition example_handle : settle_handle :=
  mk_handle "claude" "uid-1" "monthly" "2026-09" "team-a" "agent/x" ["team-a"] 1%N.

Definition stored (b : BudgetLedger) (name : string) : providerLedger :=
  default (newProviderLedger "" "") (providers b !! name).

Ltac vm_decide := apply (bool_decide_unpack _); vm_compute; exact I.

Lemma settle_frees_and_counts_witness :
  example_admit.2.2 = Some example_handle ∧
  match providers (settle example_admit.1 (example_now + 3 * Second)%Z example_handle (usd "2.5"))
        !! h_provider example_handle with
  | Some l' => adm l' !! "team-a" = None ∧ get0 (own l') "team-a" = usd "98.5"
  | None => False
  end.
Proof.
  split; [vm_compute; reflexivity|].
  destruct (settle_frees_and_counts example_admit.1 (example_now + 3 * Second)%Z example_handle (usd "2.5")
    (stored example_admit.1 "claude")
    ltac:(vm_decide) ltac:(vm_compute; reflexivity) ltac:(vm_compute; reflexivity)
    ltac:(vm_compute; reflexivity) ltac:(vm_compute; reflexivity) ltac:(vm_compute; reflexivity)
    ltac:(vm_decide) ltac:(vm_decide)) as (l'&E&Ha&Ho&_).
  rewrite E, (Ha "team-a"), (Ho "team-a"). vm_compute. split; reflexivity.
Defined.

Lemma mark_published_drops_newer_settle_witness :
  match providers (MarkPublished
          (Add example_ledger (example_now + 3 * Second)%Z (example_provider "hard") "team-a" "agent/x" (usd "2"))
          (example_provider "hard") (example_now + 2 * Second)%Z) !! Name (example_provider "hard") with
  | Some l' => get0 (own l') "team-a" = usd "98" ∧ dirtySince l' = 0%Z
  | None => False
  end.
Proof.
  destruct (mark_published_drops_newer_settle example_ledger (example_now + 3 * Second)%Z
    (example_provider "hard") "team-a" "agent/x" (usd "2") (stored example_ledger "claude")
    (example_now + 2 * Second)%Z
    ltac:(vm_decide) ltac:(vm_compute; reflexivity) ltac:(vm_compute; reflexivity)
    ltac:(vm_compute; reflexivity) ltac:(vm_compute; reflexivity) ltac:(vm_compute; reflexivity)
    ltac:(vm_decide) ltac:(vm_decide)) as (l'&E&Ho&Hd).
  rewrite E, Ho, Hd. vm_compute. split; reflexivity.
Defined.

(** The admission slots of hard budget enforcement, over every interleaving
    of one replica's operations.

    [step] is the step relation of a replica: time passes, requests are
    admitted and settled, spend is counted, peers are folded in and partials
    are published, in any order.  [world] adds to the ledger the handles of
    the requests that hold slots.  The invariant ties slots and handles
    together; the theorems say that a governed ceiling never has two boundary
    requests in flight in one period, and that no slot outlives its request. *)

From stdpp Require Import relations.

Record world := mk_world {
  w_b : BudgetLedger;
  w_now : Time;
  w_inflight : list settle_handle;
}.

Section slots.
Context {MR : MapRange}.

(** The name of the object a UID belongs to, which never changes, and the
    budget periods a run may see on that object: spec.budget.period can be
    edited, and a settle acts under the period its request was admitted with. *)
Variable name_of : string → string.
Variable may : string → string → Prop.

Definition consistent (p : ModelProvider) : Prop :=
  name_of (UID p) = Name p ∧ may (UID p) (Period (Budget (Spec p))).

Definition counts (op : ledger_op) : Prop :=
  match op with
  | OpAdd p _ _ _ | OpFoldPeers p _ | OpFoldWorkloadPeers p _ | OpMarkPublished p _ | OpEnforce p _ =>
      consistent p
  | OpAdmit _ _ _ | OpSettle _ _ => False
  end.

Inductive step : world → world → Prop :=
| step_tick b now fl t :
    (now <= t)%Z → four_digit_year t → step (mk_world b now fl) (mk_world b t fl)
| step_count b now fl op :
    counts op → step (mk_world b now fl) (mk_world (run_op b now op) now fl)
| step_admit b now fl p ns w b' d oh :
    consistent p → Admit b now p ns w = (b', (d, oh)) →
    step (mk_world b now fl) (mk_world b' now (option_list oh ++ fl))
| step_settle b now fl1 h fl2 c :
    may (h_uid h) (h_scheme h) →
    step (mk_world b now (fl1 ++ h :: fl2)) (mk_world (settle b now h c) now (fl1 ++ fl2))
| step_kick b now fl name k :
    kick b = name :: k → step (mk_world b now fl) (mk_world (set_kick b k) now fl)
| step_replicas b now fl n :
    step (mk_world b now fl)
      (mk_world (mk_budget_ledger (kick b) (stalenessWindow b) n (providers b) (superseded b)) now fl).

(** The invariant follows the slots of some of the handles, those of one
    provider while its period stays the same. *)
Variable tracked : settle_handle → Prop.
Variable scheme0 : string.
Hypothesis one_scheme : ∀ h s, tracked h → may (h_uid h) s → s = scheme0.

Definition handle_id (h : settle_handle) : string * N := (h_uid h, h_token h).

(** The slots of [l] against the handles in flight. *)
Record ledger_inv (l : providerLedger) (now : Time) (fl : list settle_handle) : Prop := mk_ledger_inv {
  li_token : ∀ h, h ∈ fl → h_uid h = l_uid l → (h_token h <= nextToken l)%N;
  li_back : ∀ k t, adm l !! k = Some t →
    ∃ h, h ∈ fl ∧ h_uid h = l_uid l ∧ h_period h = l_period l ∧ h_token h = t ∧ k ∈ h_keys h;
  li_hold : ∀ h, h ∈ fl → tracked h → h_uid h = l_uid l → h_period h = l_period l →
    ∀ k, k ∈ h_keys h → adm l !! k = Some (h_token h);
  li_time : ∀ h, h ∈ fl → tracked h → h_uid h = l_uid l → ∃ th tl,
    h_period h = PeriodKey scheme0 th ∧ l_period l = PeriodKey scheme0 tl ∧
    (th <= tl)%Z ∧ (tl <= now)%Z ∧ four_digit_year th ∧ four_digit_year tl;
}.

Record inv (P : gmap string providerLedger) (S : gset string) (now : Time) (fl : list settle_handle) : Prop := mk_inv {
  inv_now : four_digit_year now;
  inv_names : ∀ h, h ∈ fl → name_of (h_uid h) = h_provider h;
  inv_stored : ∀ name l, P !! name = Some l → name_of (l_uid l) = name ∧ l_uid l ∉ S;
  inv_live : ∀ h, h ∈ fl → h_uid h ∉ S → ∃ l, P !! h_provider h = Some l ∧ l_uid l = h_uid h;
  inv_nodup : NoDup (handle_id <$> fl);
  inv_ledger : ∀ name l, P !! name = Some l → ledger_inv l now fl;
}.

Definition world_inv (w : world) : Prop :=
  inv (providers (w_b w)) (superseded (w_b w)) (w_now w) (w_inflight w).

(** ** Time and periods *)

(** A period key does not come back once it has changed. *)
Lemma PeriodKey_convex scheme t1 t2 t3 :
  four_digit_year t1 → four_digit_year t2 → four_digit_year t3 → (t1 <= t2)%Z → (t2 <= t3)%Z →
  PeriodKey scheme t1 = PeriodKey scheme t3 → PeriodKey scheme t2 = PeriodKey scheme t3.
Proof.
  intros H1 H2 H3 H12 H23 E. destruct (tracked_scheme scheme) eqn:Hs.
  - destruct (Z.lt_ge_cases (day_of t3) (period_next_day scheme (day_of t1))) as [Hlt|Hge].
    + rewrite <- E. eapply key_same_period; [done..|].
      apply day_of_mono in H12, H23. pose proof (period_day_bounds scheme (day_of t1)). lia.
    + exfalso. eapply str_lt_neq; [|exact E]. by apply key_later_period.
  - unfold PeriodKey, tracked_scheme in *. apply orb_false_iff in Hs as [[-> ->]%orb_false_iff ->]. done.
Qed.

Lemma ledger_inv_tick l now t fl : (now <= t)%Z → ledger_inv l now fl → ledger_inv l t fl.
Proof.
  intros Hle [? ? ? Ht]. split; try done. intros h Hh Htr Hu. destruct (Ht h Hh Htr Hu) as (th&tl&?&?&?&?&?).
  exists th, tl. split_and!; try tauto; lia.
Qed.

(** Only the UID, the period, the slots and the token counter matter. *)
Lemma ledger_inv_same l l' now fl :
  l_uid l' = l_uid l → l_period l' = l_period l → adm l' = adm l → nextToken l' = nextToken l →
  ledger_inv l now fl → ledger_inv l' now fl.
Proof. intros Hu Hp Ha Hn [? ? ? ?]. split; rewrite ?Hu, ?Hp, ?Ha, ?Hn; done. Qed.

Lemma inv_store P S now fl name l l' :
  inv P S now fl → P !! name = Some l → l_uid l' = l_uid l → ledger_inv l' now fl →
  inv (<[name := l']> P) S now fl.
Proof.
  intros [Hn Hnames Hst Hlive Hnd Hl] Hlook Hu Hl'. split; try done.
  - intros name' l1 [[<- <-]|[? ?]]%lookup_insert_Some; [|by apply Hst]. rewrite Hu. by apply Hst.
  - intros h Hh HS. destruct (Hlive h Hh HS) as (l1&Hl1&Hu1). destruct (decide (h_provider h = name)) as [E|].
    + rewrite E in *. exists l'. rewrite lookup_insert_eq. split; [done|]. congruence.
    + exists l1. by rewrite lookup_insert_ne.
  - intros name' l1 [[<- <-]|[? ?]]%lookup_insert_Some; [done|by eapply Hl].
Qed.

Lemma ledger_inv_fresh period uid now fl :
  (∀ h, h ∈ fl → h_uid h ≠ uid) → ledger_inv (newProviderLedger period uid) now fl.
Proof. intros Hno. split; simpl; try (intros h Hh; intros; by destruct (Hno h Hh)). intros k t. by rewrite lookup_empty. Qed.

Lemma ledger_inv_rollover l now fl scheme :
  four_digit_year now → ledger_inv l now fl → may (l_uid l) scheme → l_period l ≠ PeriodKey scheme now →
  ledger_inv (rollover l (PeriodKey scheme now)) now fl.
Proof.
  intros H4 [Htok Hback Hhold Ht] Hmay Hne. split; simpl.
  - done.
  - intros k t. by rewrite lookup_empty.
  - intros h Hin Htr Hu Hp. exfalso. destruct (Ht h Hin Htr Hu) as (th&tl&Eh&El&?&?&?&?).
    rewrite <- Hu in Hmay. rewrite (one_scheme h scheme Htr Hmay) in *.
    apply Hne. rewrite El. apply (PeriodKey_convex _ th); [done..|congruence].
  - intros h Hin Htr Hu. destruct (Ht h Hin Htr Hu) as (th&tl&?&?&?&?&?&?). exists th, now.
    rewrite <- Hu in Hmay. rewrite (one_scheme h scheme Htr Hmay) in *. split_and!; try done; lia.
Qed.

(** No handle carries a UID that is neither stored nor superseded. *)
Lemma inv_no_handle P S now fl uid name :
  inv P S now fl → name_of uid = name → uid ∉ S →
  (∀ l, P !! name = Some l → l_uid l ≠ uid) → ∀ h, h ∈ fl → h_uid h ≠ uid.
Proof.
  intros Hinv Hcat HS Hno h Hh <-. destruct (inv_live _ _ _ _ Hinv h Hh HS) as (l&Hl&Hu).
  pose proof (inv_names _ _ _ _ Hinv h Hh) as Hn. rewrite Hn in Hcat. simplify_eq. by eapply Hno.
Qed.

(** A new provider takes over a name: the UID stored there is superseded. *)
Lemma inv_bind P S now fl uid name period S' :
  inv P S now fl → name_of uid = name → uid ∉ S' → S ⊆ S' →
  (∀ l0, P !! name = Some l0 → l_uid l0 ∈ S') →
  (∀ u, u ∈ S' → u ∉ S → ∃ l0, P !! name = Some l0 ∧ l_uid l0 = u) →
  inv (<[name := newProviderLedger period uid]> P) S' now fl.
Proof.
  intros Hinv Hcat HS' Hsub Hold Hnew.
  assert (∀ h, h ∈ fl → h_uid h ≠ uid) as Hnoh
    by (eapply inv_no_handle; [done|done|set_solver|]; intros l0 Hl0 <-; by apply HS', Hold).
  destruct Hinv as [H4 Hnames Hst Hlive Hnd Hl]. split; try done.
  - intros name' l1 [[<- <-]|[Hne Hl1]]%lookup_insert_Some; simpl; [done|].
    destruct (Hst _ _ Hl1) as [Hc Hs]. split; [done|]. intros Hin. destruct (Hnew _ Hin Hs) as (l0&Hl0&Hu0).
    destruct (Hst _ _ Hl0) as [Hc0 _]. congruence.
  - intros h Hh Hs. destruct (Hlive h Hh) as (l1&Hl1&Hu1); [set_solver|]. exists l1. split; [|done].
    rewrite lookup_insert_ne; [done|]. intros ->. apply Hs. rewrite <- Hu1. by apply Hold.
  - intros name' l1 [[<- <-]|[Hne Hl1]]%lookup_insert_Some; [|by eapply Hl]. by apply ledger_inv_fresh.
Qed.

(** What a pointer of [ledgerFor] points to. *)
Definition ref_ok (b : BudgetLedger) (now : Time) (name uid scheme : string) (r : ledger_ref) : Prop :=
  match r with
  | inl l => providers b !! name = Some l ∧ l_uid l = uid ∧ l_period l = PeriodKey scheme now ∧ uid ∉ superseded b
  | inr l => l = newProviderLedger (PeriodKey scheme now) uid ∧ uid ∈ superseded b
  end.

Lemma inv_ledgerFor b now fl name uid scheme b' r :
  inv (providers b) (superseded b) now fl → name_of uid = name → may uid scheme →
  ledgerFor b now name uid scheme = (b', r) →
  inv (providers b') (superseded b') now fl ∧ ref_ok b' now name uid scheme r.
Proof.
  intros Hinv Hcat Hmay E.
  destruct (ledgerFor_cases b now name uid scheme) as [[Hs E']|(Hs&l&sup&E'&Hu&Hp&H)];
    rewrite E in E'; injection E' as -> ->; simpl; [done|].
  destruct (providers b !! name) as [l0|] eqn:Hl0.
  - destruct H as [(Hne&->&->)|[(Hu0&Hp0&->&->)|(Hu0&Hp0&->&->)]].
    + split; [|split_and!; [by rewrite lookup_insert_eq|done|done|set_solver]].
      eapply inv_bind; [done|done|set_solver|set_solver| |].
      * intros l1 Hl1. rewrite Hl0 in Hl1. set_solver.
      * intros u Hin Hnin. exists l0. split; [done|]. set_solver.
    + rewrite insert_id by done. split; [done|]. done.
    + split; [|split_and!; [by rewrite lookup_insert_eq|done|done|done]].
      eapply inv_store; [done|done|done|].
      apply ledger_inv_rollover; [by eapply inv_now|by eapply inv_ledger|by rewrite Hu0|done].
  - destruct H as [-> ->]. split; [|split_and!; [by rewrite lookup_insert_eq|done|done|done]].
    eapply inv_bind; [done|done|done|done| |]; [intros l1 Hl1; congruence|set_solver].
Qed.

(** Writing through the pointer. *)
Lemma inv_write b now fl name uid scheme r l :
  inv (providers b) (superseded b) now fl → ref_ok b now name uid scheme r →
  l_uid l = uid → (∀ l0, r = inl l0 → ledger_inv l0 now fl → ledger_inv l now fl) →
  inv (providers (store b name r l)) (superseded (store b name r l)) now fl.
Proof.
  intros Hinv Hr Hu Hl. destruct r as [l0|l0]; simpl; [|done].
  destruct Hr as (Hl0&Hu0&_&_). eapply inv_store; [done|done|congruence|].
  apply (Hl l0); [done|]. by eapply inv_ledger.
Qed.

(** ** The steps *)

Lemma inv_count b now fl op :
  counts op → inv (providers b) (superseded b) now fl →
  inv (providers (run_op b now op)) (superseded (run_op b now op)) now fl.
Proof.
  intros Hc Hinv. destruct op as [p ns w c|p m|p m|p snap|p ns| |]; simpl in *; try done.
  - unfold BudgetLedger.Add. case_match; [done|]. unfold ledgerOf. destruct (ledgerFor _ _ _ _ _) as [b' r] eqn:E.
    destruct (inv_ledgerFor _ _ _ _ _ _ _ _ Hinv (proj1 Hc) (proj2 Hc) E) as [Hinv' Hr].
    destruct (record_cost_fields now (deref r) ns w c) as (Hu&Hp&Ha&Hn&_).
    eapply inv_write; [done|done|by rewrite Hu; eapply ledgerFor_deref|].
    intros l0 ->. by apply ledger_inv_same.
  - unfold FoldPeers, ledgerOf. destruct (ledgerFor _ _ _ _ _) as [b' r] eqn:E.
    destruct (inv_ledgerFor _ _ _ _ _ _ _ _ Hinv (proj1 Hc) (proj2 Hc) E) as [Hinv' Hr].
    eapply inv_write; [done|done|by eapply ledgerFor_deref|]. intros l0 ->. by apply ledger_inv_same.
  - unfold FoldWorkloadPeers, ledgerOf. destruct (ledgerFor _ _ _ _ _) as [b' r] eqn:E.
    destruct (inv_ledgerFor _ _ _ _ _ _ _ _ Hinv (proj1 Hc) (proj2 Hc) E) as [Hinv' Hr].
    eapply inv_write; [done|done|by eapply ledgerFor_deref|]. intros l0 ->. by apply ledger_inv_same.
  - unfold MarkPublished, boundLedger. destruct (providers b !! Name p) as [l|] eqn:El; [|done].
    destruct (negb (l_uid l =? UID p)%string); [done|]. case_match; [|done]. simpl.
    eapply inv_store; [done|done|done|]. eapply ledger_inv_same; [..|by eapply inv_ledger]; done.
  - unfold Enforce. case_match; [done|]. unfold ledgerOf. destruct (ledgerFor _ _ _ _ _) as [b' r] eqn:E.
    by destruct (inv_ledgerFor _ _ _ _ _ _ _ _ Hinv (proj1 Hc) (proj2 Hc) E).
Qed.

(** A detached ledger never engages the boundary: it has no peer view. *)
Lemma Admit_handle b now p ns w b' d h :
  Admit b now p ns w = (b', (d, Some h)) →
  ∃ b0 r l keys, ledgerFor b now (Name p) (UID p) (Period (Budget (Spec p))) = (b0, r) ∧
    b' = store b0 (Name p) r (take_slots l keys) ∧
    l_uid l = l_uid (deref r) ∧ l_period l = l_period (deref r) ∧ adm l = adm (deref r) ∧
    nextToken l = nextToken (deref r) ∧
    h = mk_handle (Name p) (UID p) (Period (Budget (Spec p))) (l_period l) ns w keys (nextToken l + 1)%N ∧
    (∀ k, k ∈ keys → adm l !! k = None) ∧ lastFoldOK (deref r) ≠ 0%Z.
Proof.
  unfold Admit. destruct (enforces p now); cbn [negb]; [|congruence].
  destruct (ledgerFor _ _ _ _ _) as [b0 r] eqn:E.
  set (u := utilizationLocked _ _ _). set (bd := boundary_of _ _ _ _).
  destruct (negb (hardActive p) || _); [congruence|].
  destruct (bool_decide (is_Some (adm (deref r) !! ns))) eqn:Hns; [congruence|].
  destruct (bool_decide (is_Some (adm (deref r) !! clusterSlotKey)) && _) eqn:Hcl; [congruence|].
  destruct (negb (inBoundaryNS bd) && negb (inBoundaryCL bd)); [congruence|].
  destruct (cannot_verify b0 now (deref r)) eqn:Hcv; [congruence|].
  intros H. injection H as <- _ <-.
  set (raise := margin_exceeded _ _ && _). set (l1 := if raise then _ else _).
  exists b0, r, l1, (boundary_keys bd ns).
  assert (l_uid l1 = l_uid (deref r) ∧ l_period l1 = l_period (deref r) ∧ adm l1 = adm (deref r)
    ∧ nextToken l1 = nextToken (deref r)) as (Hu&Hp&Ha&Hn) by (unfold l1; by destruct raise).
  split_and!; try done.
  - intros k Hk. rewrite Ha. unfold boundary_keys in Hk. apply elem_of_app in Hk as [Hk|Hk].
    + destruct (inBoundaryNS bd); [|by apply elem_of_nil in Hk]. apply list_elem_of_singleton in Hk as ->.
      apply bool_decide_eq_false in Hns. by apply eq_None_not_Some.
    + destruct (inBoundaryCL bd) eqn:HCL; [|by apply elem_of_nil in Hk]. apply list_elem_of_singleton in Hk as ->.
      apply boundary_CL_positive in HCL. rewrite HCL, andb_true_r in Hcl.
      apply bool_decide_eq_false in Hcl. by apply eq_None_not_Some.
  - unfold cannot_verify, IsZero in Hcv. apply orb_false_iff in Hcv as [[_ Hz]%orb_false_iff _].
    by apply Z.eqb_neq.
Qed.

Lemma Admit_no_handle b now p ns w b' d :
  Admit b now p ns w = (b', (d, None)) →
  b' = b ∨ ∃ r, ledgerFor b now (Name p) (UID p) (Period (Budget (Spec p))) = (b', r).
Proof.
  unfold Admit. destruct (enforces p now); cbn [negb]; [|left; congruence].
  destruct (ledgerFor _ _ _ _ _) as [b0 r] eqn:E. right. exists r.
  repeat case_match; congruence.
Qed.

(** A new handle with a fresh token that takes free slots. *)
Lemma ledger_inv_take l now fl h keys :
  ledger_inv l now fl → h_uid h = l_uid l → h_period h = l_period l → h_keys h = keys →
  h_token h = (nextToken l + 1)%N → (∀ k, k ∈ keys → adm l !! k = None) →
  (tracked h → l_period l = PeriodKey scheme0 now ∧ four_digit_year now) →
  ledger_inv (take_slots l keys) now (h :: fl).
Proof.
  intros [Htok Hback Hhold Ht] Hu Hp Hk Htk Hfree Hnew. split; simpl.
  - intros h' [->|Hin]%elem_of_cons Hu'; [lia|]. specialize (Htok h' Hin Hu'). lia.
  - intros k t. change (foldl _ _ _ !! k) with (adm (take_slots l keys) !! k). rewrite lookup_take_slots.
    case_decide as Hkin; intros Hadm.
    + exists h. simplify_eq. split_and!; try done. set_solver.
    + destruct (Hback k t Hadm) as (h'&?&?). exists h'. split; [set_solver|done].
  - intros h' [->|Hin]%elem_of_cons Htr Hu' Hp' k Hkk;
      change (foldl _ _ _ !! k) with (adm (take_slots l keys) !! k); rewrite lookup_take_slots.
    + rewrite decide_True by congruence. by rewrite Htk.
    + pose proof (Hhold h' Hin Htr Hu' Hp' k Hkk) as Hadm. rewrite decide_False; [done|].
      intros Hkin. rewrite (Hfree k Hkin) in Hadm. done.
  - intros h' [->|Hin]%elem_of_cons Htr Hu'; [|by apply Ht].
    destruct (Hnew Htr) as [? ?]. exists now, now. split_and!; try done; [congruence|lia..].
Qed.

(** Handles of other providers do not matter. *)
Lemma ledger_inv_other l now fl h :
  h_uid h ≠ l_uid l → ledger_inv l now fl → ledger_inv l now (h :: fl).
Proof.
  intros Hne [Htok Hback Hhold Ht]. split.
  - intros h' [->|Hin]%elem_of_cons ?; [done|by apply Htok].
  - intros k t Hadm. destruct (Hback k t Hadm) as (h'&?&?). exists h'. split; [set_solver|done].
  - intros h' [->|Hin]%elem_of_cons ? ?; [done|by apply Hhold].
  - intros h' [->|Hin]%elem_of_cons ? ?; [done|by apply Ht].
Qed.

Lemma inv_admit b now fl p ns w b' d oh :
  consistent p → Admit b now p ns w = (b', (d, oh)) →
  inv (providers b) (superseded b) now fl →
  inv (providers b') (superseded b') now (option_list oh ++ fl).
Proof.
  intros Hc Hadm Hinv. destruct oh as [h|]; simpl.
  2: { destruct (Admit_no_handle _ _ _ _ _ _ _ Hadm) as [->|[r E]]; [done|].
       by destruct (inv_ledgerFor _ _ _ _ _ _ _ _ Hinv (proj1 Hc) (proj2 Hc) E). }
  destruct (Admit_handle _ _ _ _ _ _ _ _ Hadm) as (b0&r&l&keys&E&->&Hu&Hp&Ha&Hn&->&Hfree&Hfold).
  destruct (inv_ledgerFor _ _ _ _ _ _ _ _ Hinv (proj1 Hc) (proj2 Hc) E) as [Hinv' Hr].
  destruct r as [l0|l0]; simpl in *; [|destruct Hr as [-> _]; done].
  destruct Hr as (Hl0&Hu0&Hp0&Hlive).
  assert (ledger_inv l now fl) as Hli by (eapply ledger_inv_same; [..|by eapply inv_ledger]; done).
  set (h := mk_handle _ _ _ _ _ _ _ _). destruct Hinv' as [H4 Hnames Hst Hlv Hnd Hl]. split; try done.
  - intros h' [->|Hin]%elem_of_cons; [|by apply Hnames]. apply Hc.
  - intros name' l1 [[<- <-]|[? ?]]%lookup_insert_Some; [|by apply Hst]. simpl. rewrite Hu. by apply Hst.
  - intros h' [->|Hin]%elem_of_cons Hs; simpl.
    + eexists. rewrite lookup_insert_eq. split; [done|]. simpl. congruence.
    + destruct (Hlv h' Hin Hs) as (l1&Hl1&Hu1). destruct (decide (h_provider h' = Name p)) as [Ep|].
      * rewrite Ep in *. eexists. rewrite lookup_insert_eq. split; [done|]. simpl. congruence.
      * exists l1. by rewrite lookup_insert_ne.
  - apply NoDup_cons; split; [|done]. intros (h'&Eh&Hin)%list_elem_of_fmap.
    unfold handle_id in Eh. simpl in Eh. injection Eh as Eu Et.
    pose proof (li_token _ _ _ Hli h' Hin). assert (h_uid h' = l_uid l) as Hx by congruence. specialize (H Hx). lia.
  - intros name' l1 [[<- <-]|[Hne Hl1]]%lookup_insert_Some.
    + apply ledger_inv_take; try done; simpl; [congruence..|].
      intros Htr. rewrite <- (one_scheme h _ Htr (proj2 Hc)). split; [congruence|done].
    + apply ledger_inv_other; [|by eapply Hl]. simpl. intros E'.
      destruct (Hst _ _ Hl1) as [Hc1 _]. rewrite <- E', (proj1 Hc) in Hc1. congruence.
Qed.

Lemma nodup_middle fl1 h fl2 :
  NoDup (handle_id <$> (fl1 ++ h :: fl2)) →
  NoDup (handle_id <$> (fl1 ++ fl2)) ∧ ∀ h', h' ∈ fl1 ++ fl2 → handle_id h' ≠ handle_id h.
Proof.
  rewrite !fmap_app, fmap_cons. rewrite <- Permutation_middle, NoDup_cons. intros [Hn Hnd].
  split; [done|]. intros h' Hin E. apply Hn. rewrite <- E, <- fmap_app. by apply list_elem_of_fmap_2.
Qed.

(** The handle leaves; its slots were freed when its period was current. *)
Lemma ledger_inv_free l now fl1 h fl2 :
  ledger_inv l now (fl1 ++ h :: fl2) → (∀ h', h' ∈ fl1 ++ fl2 → handle_id h' ≠ handle_id h) →
  ledger_inv
    (if (l_period l =? h_period h)%string && (l_uid l =? h_uid h)%string
     then set_adm l (free_slots (adm l) (h_keys h) (h_token h)) (nextToken l) else l)
    now (fl1 ++ fl2).
Proof.
  intros [Htok Hback Hhold Ht] Hne.
  assert (∀ h', h' ∈ fl1 ++ fl2 → h' ∈ fl1 ++ h :: fl2) as Hsub by set_solver.
  assert (∀ h', h' ∈ fl1 ++ h :: fl2 → h' = h ∨ h' ∈ fl1 ++ fl2) as Hcase by set_solver.
  destruct (String.eqb_spec (l_period l) (h_period h)) as [Hp|Hp];
    [destruct (String.eqb_spec (l_uid l) (h_uid h)) as [Hu|Hu]|]; simpl.
  - split; simpl; [auto| | |auto].
    + intros k t. rewrite lookup_free_slots. case_decide as Hc; [done|]. intros Hadm.
      destruct (Hback k t Hadm) as (h'&Hin&?&?&?&?).
      destruct (Hcase _ Hin) as [->|?]; [|by eauto 10]. destruct Hc. split; congruence.
    + intros h' Hin Htr Hu' Hp' k Hk. rewrite lookup_free_slots.
      pose proof (Hhold h' (Hsub _ Hin) Htr Hu' Hp' k Hk) as Hadm.
      rewrite decide_False; [done|]. intros [_ Htk]. apply (Hne h' Hin). unfold handle_id. congruence.
  - split; [auto| |auto|auto]. intros k t Hadm. destruct (Hback k t Hadm) as (h'&Hin&?&?&?&?).
    destruct (Hcase _ Hin) as [->|?]; [congruence|by eauto 10].
  - split; [auto| |auto|auto]. intros k t Hadm. destruct (Hback k t Hadm) as (h'&Hin&?&?&?&?).
    destruct (Hcase _ Hin) as [->|?]; [congruence|by eauto 10].
Qed.

(** [settle]'s ledger, before the cost is counted. *)
Lemma inv_drop P S now fl1 h fl2 :
  inv P S now (fl1 ++ h :: fl2) →
  inv ((λ l, if (l_period l =? h_period h)%string && (l_uid l =? h_uid h)%string
             then set_adm l (free_slots (adm l) (h_keys h) (h_token h)) (nextToken l) else l) <$> P)
    S now (fl1 ++ fl2).
Proof.
  intros [H4 Hnames Hst Hlv Hnd Hl]. apply nodup_middle in Hnd as [Hnd Hne].
  assert (∀ h', h' ∈ fl1 ++ fl2 → h' ∈ fl1 ++ h :: fl2) as Hsub by set_solver.
  split; try done.
  - auto.
  - intros name l. rewrite lookup_fmap. intros (l0&Hl0&->)%fmap_Some_1. case_match; simpl; by apply Hst.
  - intros h' Hin Hs. destruct (Hlv h' (Hsub _ Hin) Hs) as (l&Hlk&Hu). rewrite lookup_fmap, Hlk. simpl.
    eexists; split; [done|]. by case_match.
  - intros name l. rewrite lookup_fmap. intros (l0&Hl0&->)%fmap_Some_1.
    apply ledger_inv_free; [by eapply Hl|done].
Qed.

Lemma fmap_at (P : gmap string providerLedger) name (f : providerLedger → providerLedger) l :
  P !! name = Some l → (∀ name' l', P !! name' = Some l' → name' ≠ name → f l' = l') →
  f <$> P = <[name := f l]> P.
Proof.
  intros Hl Hf. apply map_eq. intros name'. rewrite lookup_fmap, lookup_insert. case_decide as E.
  - subst. by rewrite Hl.
  - destruct (P !! name') eqn:E'; simpl; [|done]. by erewrite Hf by eauto.
Qed.

Lemma fmap_none (P : gmap string providerLedger) (f : providerLedger → providerLedger) :
  (∀ name l, P !! name = Some l → f l = l) → f <$> P = P.
Proof.
  intros Hf. apply map_eq. intros name. rewrite lookup_fmap.
  destruct (P !! name) eqn:E; simpl; [|done]. by erewrite Hf by eauto.
Qed.

Lemma inv_settle b now fl1 h fl2 c :
  may (h_uid h) (h_scheme h) →
  inv (providers b) (superseded b) now (fl1 ++ h :: fl2) →
  inv (providers (settle b now h c)) (superseded (settle b now h c)) now (fl1 ++ fl2).
Proof.
  intros Hmay Hinv. assert (name_of (h_uid h) = h_provider h) as Hcat
    by (eapply inv_names; [done|set_solver]).
  unfold settle. destruct (ledgerFor _ _ _ _ _) as [b0 r] eqn:E.
  destruct (inv_ledgerFor _ _ _ _ _ _ _ _ Hinv Hcat Hmay E) as [Hinv0 Hr].
  pose proof (inv_drop _ _ _ _ _ _ Hinv0) as Hdrop.
  set (f := λ l, if (l_period l =? h_period h)%string && (l_uid l =? h_uid h)%string
                 then set_adm l (free_slots (adm l) (h_keys h) (h_token h)) (nextToken l) else l) in Hdrop.
  destruct r as [l|l]; simpl deref.
  - destruct Hr as (Hl&Hu&Hp&Hs).
    set (l1 := if (l_period l =? h_period h)%string then _ else l).
    assert (f l = l1) as Hf by (unfold f, l1; by rewrite Hu, String.eqb_refl, andb_true_r).
    rewrite (fmap_at _ (h_provider h) f l Hl) in Hdrop.
    2: { intros name' l' Hl' Hne. unfold f. destruct (String.eqb_spec (l_uid l') (h_uid h)) as [Hu'|];
         [|by rewrite andb_false_r]. destruct (inv_stored _ _ _ _ Hinv0 _ _ Hl') as [Hc _].
         rewrite Hu', Hcat in Hc. congruence. }
    rewrite Hf in Hdrop.
    assert (l_uid l1 = l_uid l) as Hu1 by (unfold l1; by case_match).
    destruct (negb (c =? f64_zero)%f64); [|done].
    destruct (record_cost_fields now l1 (h_namespace h) (h_workload h) c) as (Hu2&Hp2&Ha2&Hn2&_).
    assert (inv (<[h_provider h := record_cost now l1 (h_namespace h) (h_workload h) c]> (providers b0))
              (superseded b0) now (fl1 ++ fl2)) as Hfin; [|case_match; done].
    rewrite <- (insert_insert_eq _ (h_provider h) _ l1).
    eapply inv_store; [done|by rewrite lookup_insert_eq|done|].
    eapply ledger_inv_same; [done|done|done|done|].
    eapply (inv_ledger _ _ _ _ Hdrop (h_provider h)). by rewrite lookup_insert_eq.
  - destruct Hr as [-> Hs]. rewrite fmap_none in Hdrop.
    + repeat case_match; done.
    + intros name l' Hl'. unfold f. destruct (String.eqb_spec (l_uid l') (h_uid h)) as [Hu'|];
        [|by rewrite andb_false_r]. destruct (inv_stored _ _ _ _ Hinv0 _ _ Hl') as [_ Hns]. congruence.
Qed.

Lemma world_inv_step w w' : step w w' → world_inv w → world_inv w'.
Proof.
  destruct 1 as [b now fl t Hle H4|b now fl op Hc|b now fl p ns wl b' d oh Hc Hadm|b now fl1 h fl2 c Hmay| |];
    unfold world_inv; simpl; intros Hinv; try done.
  - destruct Hinv as [? ? ? ? ? Hl]. split; try done. intros name l Hlk. eapply ledger_inv_tick; eauto.
  - by apply inv_count.
  - by eapply inv_admit.
  - by apply inv_settle.
Qed.

Lemma world_inv_run w w' : rtc step w w' → world_inv w → world_inv w'.
Proof. induction 1; eauto using world_inv_step. Qed.
End slots.

(** ** What a replica can reach *)

Section reach.
Context {MR : MapRange} (name_of : string → string).

Definition initial (w : world) : Prop :=
  w_b w = NewBudgetLedger ∧ four_digit_year (w_now w) ∧ w_inflight w = [].

(** Budget periods may be edited at any moment. *)
Definition reachable (w : world) : Prop := ∃ w0, initial w0 ∧ rtc (step name_of (λ _ _, True)) w0 w.

(** The provider of the UID has the budget period [scheme]. *)
Definition keeps (uid scheme : string) (uid' scheme' : string) : Prop := uid' = uid → scheme' = scheme.

(** A run during which the budget period of one provider stays [scheme]. *)
Definition unedited (uid scheme : string) : world → world → Prop := rtc (step name_of (keeps uid scheme)).

Definition none : settle_handle → Prop := λ _, False.

Lemma world_inv_reachable w : reachable w → world_inv name_of none "" w.
Proof.
  intros (w0&(Hb&H4&Hfl)&Hs). eapply world_inv_run; [|exact Hs|]; [by intros ? ? []|].
  unfold world_inv. rewrite Hb, Hfl. split; try done.
  - intros h Hh. by apply elem_of_nil in Hh.
  - intros h Hh. by apply elem_of_nil in Hh.
  - constructor.
Qed.

(** The handles of the provider that were admitted since [w0]. *)
Definition since (w0 : world) (uid : string) (h : settle_handle) : Prop := h ∉ w_inflight w0 ∧ h_uid h = uid.

Lemma world_inv_unedited w0 w uid scheme : reachable w0 → unedited uid scheme w0 w →
  world_inv name_of (since w0 uid) scheme w.
Proof.
  intros Hr Hs. eapply world_inv_run; [|exact Hs|].
  - intros h s' [_ <-] Hk. by apply Hk.
  - destruct (world_inv_reachable w0 Hr) as [? ? ? ? ? Hl]. split; try done. intros name l Hlk.
    destruct (Hl name l Hlk) as [? ? _ _]. split; try done; by intros h Hh [? _].
Qed.


(** C3: no slot leaks.  In every reachable state, budget periods edited or not,
    each held slot belongs to a request in flight, of the ledger's provider and
    current period, whose settle frees it; with nothing in flight every slot of
    every provider is free, so boundary admission cannot wedge. *)
Theorem boundary_slots_released w name l :
  reachable w → providers (w_b w) !! name = Some l →
  (∀ k t, adm l !! k = Some t → ∃ h, h ∈ w_inflight w ∧ h_provider h = name ∧ h_uid h = l_uid l ∧
     h_period h = l_period l ∧ h_token h = t ∧ k ∈ h_keys h) ∧
  (w_inflight w = [] → adm l = ∅).
Proof.
  intros Hr Hl. pose proof (world_inv_reachable w Hr) as Hinv.
  pose proof (inv_ledger _ _ _ _ _ _ _ Hinv _ _ Hl) as Hli. split.
  - intros k t Ha. destruct (li_back _ _ _ _ _ Hli k t Ha) as (h&Hin&Hu&?). exists h. split_and!; try tauto.
    destruct (inv_stored _ _ _ _ _ _ _ Hinv _ _ Hl) as [Hc _].
    by rewrite <- Hu, (inv_names _ _ _ _ _ _ _ Hinv h Hin) in Hc.
  - intros Hnil. apply map_empty. intros k. destruct (adm l !! k) eqn:Ha; [|done].
    destruct (li_back _ _ _ _ _ Hli k _ Ha) as (h&Hin&_). rewrite Hnil in Hin. by apply elem_of_nil in Hin.
Qed.
End reach.

(** ** Witnesses

    A replica folds its peers, counts 96 of 100 USD and admits one request
    inside the boundary. *)
Definition example_name (uid : string) : string := "claude".

Definition example_world : world :=
  mk_world example_admit.1 (example_now + 2 * Second)%Z (option_list example_admit.2.2).

Definition example_start : world := mk_world NewBudgetLedger example_now [].

Lemma example_run may : may "uid-1" "monthly" → rtc (@step list_order example_name may) example_start example_world.
Proof.
  intros Hmay.
  eapply rtc_l. { apply (step_count _ _ _ _ _ (OpFoldPeers (example_provider "hard") {[ "team-b" := usd "1" ]})). done. }
  eapply rtc_l. { apply (step_tick _ _ _ _ _ (example_now + Second)%Z);
    [vm_compute; congruence|split; vm_compute; congruence]. }
  eapply rtc_l. { apply (step_count _ _ _ _ _ (OpAdd (example_provider "hard") "team-a" "agent/x" (usd "96"))). done. }
  eapply rtc_l. { apply (step_tick _ _ _ _ _ (example_now + 2 * Second)%Z);
    [vm_compute; congruence|split; vm_compute; congruence]. }
  eapply rtc_l; [|apply rtc_refl]. unfold example_world. rewrite <- (app_nil_r (option_list _)).
  eapply (step_admit _ _ _ _ _ (example_provider "hard") "team-a" "agent/x"); [done|]. apply Admit_eta.
Qed.

Lemma example_initial : initial example_start.
Proof. split; [done|]. split; [split; vm_compute; congruence|done]. Qed.

Lemma example_reachable : @reachable list_order example_name example_world.
Proof. exists example_start. split; [apply example_initial|by apply example_run]. Qed.


Lemma boundary_slots_released_witness :
  adm (stored example_admit.1 "claude") !! "team-a" = Some 1%N ∧
  ∃ h, h ∈ w_inflight example_world ∧ h_token h = 1%N.
Proof.
  assert (adm (stored example_admit.1 "claude") !! "team-a" = Some 1%N) as Ha by (vm_compute; reflexivity).
  split; [exact Ha|].
  destruct (@boundary_slots_released list_order example_name example_world "claude"
    (stored example_admit.1 "claude") example_reachable ltac:(vm_compute; reflexivity)) as [H _].
  destruct (H _ _ Ha) as (h&Hin&_&_&_&Ht&_). exists h. split; [exact Hin|exact Ht].
Defined.

(** The budget period edited to daily and back with a request in flight. *)
Definition edited_provider : ModelProvider :=
  let p := example_provider "hard" in
  mk_provider (Name p) (UID p) (mk_provider_spec "anthropic" [] ["*"]
    (mk_budget "daily" "100" [mk_policy 80 "warn" None; mk_policy 100 "block" None] None "hard" (Some (mk_budget_hard 5)))
    (mk_rate_limits 0 0) []).

Definition after_edits : BudgetLedger * (budgetDecision * option settle_handle) :=
  let now := (example_now + 2 * Second)%Z in
  let b := FoldPeers example_admit.1 now edited_provider ∅ in
  let b := FoldPeers b now (example_provider "hard") {[ "team-b" := usd "1" ]} in
  let b := BudgetLedger.Add b now (example_provider "hard") "team-a" "agent/x" (usd "96") in
  @Admit list_order b now (example_provider "hard") "team-a" "agent/x".

(** Each edit starts the ledger afresh, so the ceiling admits a second request
    while the first is in flight. *)
Lemma period_edit_admits_second : match after_edits.2.2 with
  | Some h => h_keys h = h_keys example_handle ∧ h_period h = h_period example_handle ∧ h ≠ example_handle
  | None => False
  end.
Proof. vm_compute. split_and!; [done|done|congruence]. Qed.

(** A request admitted before an edit settles under the old period: the spend
    counted since under the new one is gone. *)
Lemma old_settle_drops_new_spend :
  let now := (example_now + 3 * Second)%Z in
  let b := BudgetLedger.Add example_admit.1 now edited_provider "team-a" "agent/x" (usd "40") in
  get0 (own (stored b "claude")) "team-a" = usd "40" ∧
  (let b := settle b now example_handle (usd "1") in
   let b := BudgetLedger.Add b now edited_provider "team-a" "agent/x" (usd "2") in
   get0 (own (stored b "claude")) "team-a" = usd "2").
Proof. vm_compute. done. Qed.
