(* ===== verification/Json.v ===== *)
(** JSON text, as encoding/json reads it.

    A document is a concrete syntax tree [cst] that keeps its white space and
    the bytes of its strings and scalars, so that its text is a function of
    it.  [parse] is the grammar of [json.Valid], nesting limit included; it is
    sound: what it accepts is the text of the well-formed tree it returns.
    [jsonStringValue]'s decoder and [json.Marshal] of a string are modelled at
    the end. *)

From stdpp Require Import base list strings option.
From Stdlib Require Import ZArith Lia Ascii Wf_nat.
From S2P Require Import Prelude.

Definition bytes : Type := list ascii.
Definition bs (s : string) : bytes := String.list_ascii_of_string s.
Definition str (b : bytes) : string := String.string_of_list_ascii b.

Definition quote : ascii := "034".
Definition backslash : ascii := "\".

(** ** Lexemes *)

Definition json_space (c : ascii) : bool :=
  Ascii.eqb c " " || Ascii.eqb c "009" || Ascii.eqb c "010" || Ascii.eqb c "013".

(** The bytes that end a scalar. *)
Definition delimiter (c : ascii) : bool :=
  json_space c || Ascii.eqb c "," || Ascii.eqb c ":" || Ascii.eqb c "}" || Ascii.eqb c "]"
  || Ascii.eqb c quote || Ascii.eqb c "{" || Ascii.eqb c "[".

Definition is_digit (c : ascii) : bool := ((48 <=? ascii_Z c) && (ascii_Z c <=? 57))%Z.
Definition is_hex (c : ascii) : bool :=
  is_digit c || ((97 <=? ascii_Z c) && (ascii_Z c <=? 102))%Z || ((65 <=? ascii_Z c) && (ascii_Z c <=? 70))%Z.

Fixpoint span (f : ascii → bool) (b : bytes) : bytes * bytes :=
  match b with
  | [] => ([], [])
  | c :: b' => if f c then let '(l, r) := span f b' in (c :: l, r) else ([], b)
  end.

(** A number: an optional minus, an integer part without leading zeros, an
    optional fraction, an optional exponent. *)
Definition number_exponent (b : bytes) : bool :=
  match b with
  | [] => true
  | c :: b =>
      (Ascii.eqb c "e" || Ascii.eqb c "E")
      && let b := match b with s :: b' => if Ascii.eqb s "+" || Ascii.eqb s "-" then b' else b | [] => b end in
         negb (bool_decide (b = [])) && forallb is_digit b
  end.

Definition number_fraction (b : bytes) : bool :=
  match b with
  | "."%char :: b =>
      let '(ds, b) := span is_digit b in negb (bool_decide (ds = [])) && number_exponent b
  | _ => number_exponent b
  end.

Definition is_number (b : bytes) : bool :=
  let b := match b with "-"%char :: b' => b' | _ => b end in
  match b with
  | "0"%char :: b => number_fraction b
  | c :: _ => is_digit c && number_fraction (span is_digit b).2
  | [] => false
  end.

Definition is_scalar (b : bytes) : bool :=
  bool_decide (b = bs "true") || bool_decide (b = bs "false") || bool_decide (b = bs "null") || is_number b.

(** The bytes between the quotes of a string: no control byte, and every
    backslash starts an escape. *)
Fixpoint string_body_ok (b : bytes) : bool :=
  match b with
  | [] => true
  | c :: b =>
      if Ascii.eqb c backslash then
        match b with
        | [] => false
        | e :: b =>
            if Ascii.eqb e "u" then
              match b with
              | h1 :: h2 :: h3 :: h4 :: b => is_hex h1 && is_hex h2 && is_hex h3 && is_hex h4 && string_body_ok b
              | _ => false
              end
            else
              (Ascii.eqb e "b" || Ascii.eqb e "f" || Ascii.eqb e "n" || Ascii.eqb e "r" || Ascii.eqb e "t"
               || Ascii.eqb e backslash || Ascii.eqb e "/" || Ascii.eqb e quote) && string_body_ok b
        end
      else negb (Ascii.eqb c quote) && (32 <=? ascii_Z c)%Z && string_body_ok b
  end.

(** ** Trees *)

(** An element: the space before it, itself, the space after it.  A member
    also has its name's bytes and the space around the colon. *)
Inductive cst :=
  | CScalar (t : bytes)
  | CString (body : bytes)
  | CEmpty (array : bool) (sp : bytes)
  | CArray (first : bytes * cst * bytes) (rest : list (bytes * cst * bytes))
  | CObject (first : bytes * (bytes * bytes * bytes) * cst * bytes)
            (rest : list (bytes * (bytes * bytes * bytes) * cst * bytes)).

Definition element : Type := bytes * cst * bytes.
Definition member : Type := bytes * (bytes * bytes * bytes) * cst * bytes.

Definition el_value (e : element) : cst := e.1.2.
Definition mb_name (m : member) : bytes := m.1.1.2.1.1.
Definition mb_value (m : member) : cst := m.1.2.

(** Induction over the nested lists. *)
Section cst_induction.
Variable P : cst → Prop.
Hypothesis Hscalar : ∀ t, P (CScalar t).
Hypothesis Hstring : ∀ b, P (CString b).
Hypothesis Hempty : ∀ a sp, P (CEmpty a sp).
Hypothesis Harray : ∀ (e : element) (es : list element), P (el_value e) → Forall (λ e, P (el_value e)) es → P (CArray e es).
Hypothesis Hobject : ∀ (m : member) (ms : list member), P (mb_value m) → Forall (λ m, P (mb_value m)) ms → P (CObject m ms).

Fixpoint cst_ind' (c : cst) : P c :=
  match c with
  | CScalar t => Hscalar t
  | CString b => Hstring b
  | CEmpty a sp => Hempty a sp
  | CArray e es =>
      Harray e es (cst_ind' (el_value e))
        ((fix go (l : list element) : Forall (λ e, P (el_value e)) l :=
            match l with
            | [] => List.Forall_nil _
            | x :: l => List.Forall_cons _ x l (cst_ind' (el_value x)) (go l)
            end) es)
  | CObject m ms =>
      Hobject m ms (cst_ind' (mb_value m))
        ((fix go (l : list member) : Forall (λ m, P (mb_value m)) l :=
            match l with
            | [] => List.Forall_nil _
            | x :: l => List.Forall_cons _ x l (cst_ind' (mb_value x)) (go l)
            end) ms)
  end.
End cst_induction.

Definition string_token (body : bytes) : bytes := quote :: body ++ [quote].

Fixpoint text (c : cst) : bytes :=
  let element_text (e : element) := e.1.1 ++ text e.1.2 ++ e.2 in
  let member_text (m : member) :=
    m.1.1.1 ++ string_token m.1.1.2.1.1 ++ m.1.1.2.1.2 ++ ":"%char :: m.1.1.2.2 ++ text m.1.2 ++ m.2 in
  match c with
  | CScalar t => t
  | CString b => string_token b
  | CEmpty true sp => "["%char :: sp ++ ["]"%char]
  | CEmpty false sp => "{"%char :: sp ++ ["}"%char]
  | CArray e es => "["%char :: element_text e ++ concat (map (λ e, ","%char :: element_text e) es) ++ ["]"%char]
  | CObject m ms => "{"%char :: member_text m ++ concat (map (λ m, ","%char :: member_text m) ms) ++ ["}"%char]
  end.

Definition element_text (e : element) : bytes := e.1.1 ++ text e.1.2 ++ e.2.
Definition member_text (m : member) : bytes :=
  m.1.1.1 ++ string_token m.1.1.2.1.1 ++ m.1.1.2.1.2 ++ ":"%char :: m.1.1.2.2 ++ text m.1.2 ++ m.2.

Definition spaces (b : bytes) : Prop := forallb json_space b = true.

Inductive wf : cst → Prop :=
  | wf_scalar t : is_scalar t = true → forallb (λ c, negb (delimiter c)) t = true → wf (CScalar t)
  | wf_string b : string_body_ok b = true → wf (CString b)
  | wf_empty a sp : spaces sp → wf (CEmpty a sp)
  | wf_array (e : element) (es : list element) : wf_element e → Forall wf_element es → wf (CArray e es)
  | wf_object (m : member) (ms : list member) : wf_member m → Forall wf_member ms → wf (CObject m ms)
with wf_element : element → Prop :=
  | wf_el s1 c s2 : spaces s1 → wf c → spaces s2 → wf_element (s1, c, s2)
with wf_member : member → Prop :=
  | wf_mb s1 k s2 s3 c s4 : spaces s1 → string_body_ok k = true → spaces s2 → spaces s3 → wf c → spaces s4 →
      wf_member (s1, (k, s2, s3), c, s4).

(** ** The grammar of [json.Valid] *)

(** The body of a string up to its closing quote, and what follows. *)
Fixpoint parse_string (b : bytes) : option (bytes * bytes) :=
  match b with
  | [] => None
  | c :: b =>
      if Ascii.eqb c quote then Some ([], b)
      else if Ascii.eqb c backslash then
        match b with
        | [] => None
        | e :: b => match parse_string b with Some (s, r) => Some (c :: e :: s, r) | None => None end
        end
      else match parse_string b with Some (s, r) => Some (c :: s, r) | None => None end
  end.

Definition parse_name (b : bytes) : option (bytes * bytes) :=
  match b with
  | c :: b => if Ascii.eqb c quote
              then match parse_string b with
                   | Some (s, r) => if string_body_ok s then Some (s, r) else None
                   | None => None
                   end
              else None
  | [] => None
  end.

Definition maxNestingDepth : Z := 10000.

(** [depth] containers are open.  [parse_elements] and [parse_members] read
    up to and including the closing byte. *)
Fixpoint parse_value (fuel : nat) (depth : Z) (b : bytes) : option (cst * bytes) :=
  match fuel with
  | O => None
  | S fuel =>
      match b with
      | [] => None
      | c :: b' =>
          if Ascii.eqb c quote then
            match parse_name b with Some (s, r) => Some (CString s, r) | None => None end
          else if Ascii.eqb c "[" || Ascii.eqb c "{" then
            if (maxNestingDepth <? depth + 1)%Z then None
            else
              let '(sp, r) := span json_space b' in
              match r with
              | [] => None
              | d :: r' =>
                  if Ascii.eqb d (if Ascii.eqb c "[" then "]" else "}") then Some (CEmpty (Ascii.eqb c "[") sp, r')
                  else if Ascii.eqb c "[" then
                    match parse_elements fuel (depth + 1)%Z b' with
                    | Some (e :: es, r) => Some (CArray e es, r)
                    | _ => None
                    end
                  else
                    match parse_members fuel (depth + 1)%Z b' with
                    | Some (m :: ms, r) => Some (CObject m ms, r)
                    | _ => None
                    end
              end
          else
            let '(t, r) := span (λ c, negb (delimiter c)) b in
            if is_scalar t then Some (CScalar t, r) else None
      end
  end
with parse_elements (fuel : nat) (depth : Z) (b : bytes) : option (list element * bytes) :=
  match fuel with
  | O => None
  | S fuel =>
      let '(s1, b) := span json_space b in
      match parse_value fuel depth b with
      | None => None
      | Some (v, b) =>
          let '(s2, b) := span json_space b in
          match b with
          | c :: b =>
              if Ascii.eqb c "]" then Some ([(s1, v, s2)], b)
              else if Ascii.eqb c "," then
                match parse_elements fuel depth b with
                | Some (es, r) => Some ((s1, v, s2) :: es, r)
                | None => None
                end
              else None
          | [] => None
          end
      end
  end
with parse_members (fuel : nat) (depth : Z) (b : bytes) : option (list member * bytes) :=
  match fuel with
  | O => None
  | S fuel =>
      let '(s1, b) := span json_space b in
      match parse_name b with
      | None => None
      | Some (k, b) =>
          let '(s2, b) := span json_space b in
          match b with
          | c :: b =>
              if negb (Ascii.eqb c ":") then None
              else
                let '(s3, b) := span json_space b in
                match parse_value fuel depth b with
                | None => None
                | Some (v, b) =>
                    let '(s4, b) := span json_space b in
                    match b with
                    | c :: b =>
                        let m := (s1, (k, s2, s3), v, s4) in
                        if Ascii.eqb c "}" then Some ([m], b)
                        else if Ascii.eqb c "," then
                          match parse_members fuel depth b with
                          | Some (ms, r) => Some (m :: ms, r)
                          | None => None
                          end
                        else None
                    | [] => None
                    end
                end
          | [] => None
          end
      end
  end.

(** A document: one value with space around it. *)
Definition parse (b : bytes) : option (bytes * cst * bytes) :=
  let '(s1, r) := span json_space b in
  match parse_value (S (2 * length b)) 0 r with
  | Some (c, r) => if forallb json_space r then Some (s1, c, r) else None
  | None => None
  end.

Definition Valid (b : bytes) : bool := bool_decide (is_Some (parse b)).

(** ** Soundness and completeness *)

(** [r] does not go on with a byte of [f]. *)
Definition stops (f : ascii → bool) (r : bytes) : Prop :=
  match r with [] => True | c :: _ => f c = false end.

Lemma span_spec f b l r : span f b = (l, r) → b = l ++ r ∧ forallb f l = true ∧ stops f r.
Proof.
  revert l; induction b as [|c b IH]; intros l; simpl; [by intros [= <- <-]|].
  destruct (f c) eqn:E; [|by intros [= <- <-]].
  destruct (span f b) as [l' r']. intros [= <- <-]. destruct (IH l' eq_refl) as (-> & Hl & Hr).
  split_and!; [done|simpl; by rewrite E|done].
Qed.

Lemma span_app f l r : forallb f l = true → stops f r → span f (l ++ r) = (l, r).
Proof.
  induction l as [|c l IH]; simpl.
  - intros _. destruct r as [|c r]; simpl; [done|]. by intros ->.
  - intros [-> Hl]%andb_true_iff Hr. by rewrite (IH Hl Hr).
Qed.

Lemma parse_string_sound b s r : parse_string b = Some (s, r) → b = s ++ quote :: r.
Proof.
  revert s. induction b as [b IH] using (induction_ltof1 _ (@length ascii)). unfold ltof in IH.
  destruct b as [|c b]; [done|]. intros s; simpl.
  destruct (Ascii.eqb_spec c quote) as [->|]; [by intros [= <- <-]|].
  destruct (Ascii.eqb c backslash).
  - destruct b as [|e b]; [done|]. destruct (parse_string b) as [[s' r']|] eqn:E; [|done]. intros [= <- <-].
    rewrite (IH b ltac:(simpl; lia) _ E). done.
  - destruct (parse_string b) as [[s' r']|] eqn:E; [|done]. intros [= <- <-].
    rewrite (IH b ltac:(simpl; lia) _ E). done.
Qed.

(** A string body ends exactly at its quote. *)
Lemma parse_string_complete s r : string_body_ok s = true → parse_string (s ++ quote :: r) = Some (s, r).
Proof.
  induction s as [s IH] using (induction_ltof1 _ (@length ascii)). unfold ltof in IH.
  destruct s as [|c s]; [done|]. simpl. destruct (Ascii.eqb_spec c backslash) as [->|Hb].
  - change (Ascii.eqb backslash quote) with false. cbn [Ascii.eqb].
    destruct s as [|e s]; [done|]. intros He. cbn [app].
    assert (Hs : parse_string (s ++ quote :: r) = Some (s, r)); [|by rewrite Hs].
    destruct (Ascii.eqb e "u").
    + destruct s as [|h1 [|h2 [|h3 [|h4 s]]]]; try done. rewrite !andb_true_iff in He. destruct He as [[[[H1 H2] H3] H4] Hs].
      assert (Hhex : ∀ h, is_hex h = true → Ascii.eqb h quote = false ∧ Ascii.eqb h backslash = false).
      { intros h Hh. split; apply Ascii.eqb_neq; intros ->; by vm_compute in Hh. }
      destruct (Hhex h1 H1) as [E1 F1], (Hhex h2 H2) as [E2 F2], (Hhex h3 H3) as [E3 F3], (Hhex h4 H4) as [E4 F4].
      cbn [app parse_string]. rewrite E1, F1, E2, F2, E3, F3, E4, F4, IH by (simpl; done || lia). done.
    + apply andb_true_iff in He as [_ Hs]. apply IH; [simpl; lia|done].
  - intros [[Hq Hc]%andb_true_iff Hs]%andb_true_iff. apply negb_true_iff in Hq. cbn [app]. rewrite Hq.
    rewrite IH by (simpl; done || lia). done.
Qed.

Lemma parse_name_sound b s r : parse_name b = Some (s, r) → b = string_token s ++ r ∧ string_body_ok s = true.
Proof.
  unfold parse_name. destruct b as [|c b]; [done|]. destruct (Ascii.eqb_spec c quote) as [->|]; [|done].
  destruct (parse_string b) as [[s' r']|] eqn:E; [|done]. destruct (string_body_ok s') eqn:Ok; [|done]. intros [= <- <-].
  apply parse_string_sound in E as ->. unfold string_token. simpl. by rewrite <- app_assoc.
Qed.

Lemma parse_name_complete s r : string_body_ok s = true → parse_name (string_token s ++ r) = Some (s, r).
Proof.
  intros Hs. unfold parse_name, string_token. cbn [app]. rewrite Ascii.eqb_refl, <- app_assoc. cbn [app].
  by rewrite parse_string_complete, Hs.
Qed.

Definition elements_text (es : list element) : bytes :=
  match es with
  | [] => []
  | e :: es => element_text e ++ concat (map (λ e, ","%char :: element_text e) es) ++ ["]"%char]
  end.

Definition members_text (ms : list member) : bytes :=
  match ms with
  | [] => []
  | m :: ms => member_text m ++ concat (map (λ m, ","%char :: member_text m) ms) ++ ["}"%char]
  end.

Lemma elements_text_cons e e' es :
  elements_text (e :: e' :: es) = element_text e ++ ","%char :: elements_text (e' :: es).
Proof. simpl. by rewrite <- !app_assoc. Qed.

Lemma members_text_cons m m' ms :
  members_text (m :: m' :: ms) = member_text m ++ ","%char :: members_text (m' :: ms).
Proof. simpl. by rewrite <- !app_assoc. Qed.

Lemma text_array (e : element) (es : list element) : text (CArray e es) = "["%char :: elements_text (e :: es).
Proof. done. Qed.

Lemma text_object (m : member) (ms : list member) : text (CObject m ms) = "{"%char :: members_text (m :: ms).
Proof. done. Qed.

Ltac spans :=
  repeat match goal with
  | H : context [span ?f ?b] |- _ =>
      let l := fresh "sp" in let r := fresh "rest" in let E := fresh "Hsp" in
      destruct (span f b) as [l r] eqn:E; apply span_spec in E as (-> & ? & ?)
  end.

(** Both sides right-nested. *)
Ltac flat := unfold string_token; repeat progress (rewrite <- ?app_assoc; cbn [fst snd app]); try done.

Lemma parse_sound fuel :
  (∀ d b c r, parse_value fuel d b = Some (c, r) → b = text c ++ r ∧ wf c) ∧
  (∀ d b es r, parse_elements fuel d b = Some (es, r) → b = elements_text es ++ r ∧ Forall wf_element es ∧ es ≠ []) ∧
  (∀ d b ms r, parse_members fuel d b = Some (ms, r) → b = members_text ms ++ r ∧ Forall wf_member ms ∧ ms ≠ []).
Proof.
  induction fuel as [|fuel (IHv & IHe & IHm)]; [done|]. split_and!.
  - intros d b c r. cbn [parse_value]. destruct b as [|x b]; [done|].
    destruct (Ascii.eqb_spec x quote) as [->|Hq].
    { destruct (parse_name _) as [[s r']|] eqn:E; [|done]. intros [= <- <-].
      apply parse_name_sound in E as [E ?]. split; [exact E|by constructor]. }
    destruct (Ascii.eqb x "[" || Ascii.eqb x "{") eqn:Ex.
    + destruct (_ <? _)%Z; [done|]. intros H. destruct (span json_space b) as [sp rest] eqn:Esp.
      destruct rest as [|y rest]; [done|]. destruct (Ascii.eqb_spec x "[") as [->|Hx].
      * destruct (Ascii.eqb_spec y "]") as [->|].
        { injection H as <- <-. apply span_spec in Esp as (-> & ? & _). split; [simpl; by rewrite <- app_assoc|by constructor]. }
        destruct (parse_elements _ _ _) as [[[|e es] r']|] eqn:E; try done. injection H as <- <-.
        apply IHe in E as (-> & Hw & _). inversion Hw; subst. split; [by rewrite text_array|by constructor].
      * apply orb_true_iff in Ex as [Ex|Ex]; [by apply Ascii.eqb_neq in Hx; congruence|]. apply Ascii.eqb_eq in Ex as ->.
        destruct (Ascii.eqb_spec y "}") as [->|].
        { injection H as <- <-. apply span_spec in Esp as (-> & ? & _). split; [simpl; by rewrite <- app_assoc|by constructor]. }
        destruct (parse_members _ _ _) as [[[|m ms] r']|] eqn:E; try done. injection H as <- <-.
        apply IHm in E as (-> & Hw & _). inversion Hw; subst. split; [by rewrite text_object|by constructor].
    + destruct (span _ (x :: b)) as [t r'] eqn:E. destruct (is_scalar t) eqn:Et; [|done]. intros [= <- <-].
      apply span_spec in E as (-> & ? & _). split; [done|by constructor].
  - intros d b es r. cbn [parse_elements]. intros H. spans.
    destruct (parse_value fuel d rest) as [[v b1]|] eqn:Ev; [|done]. apply IHv in Ev as (-> & Hv). spans.
    destruct rest as [|c rest]; [done|]. destruct (Ascii.eqb_spec c "]") as [->|].
    { injection H as <- <-. split_and!; [|by repeat constructor|done]. simpl. unfold element_text; simpl.
      by rewrite <- !app_assoc. }
    destruct (Ascii.eqb_spec c ",") as [->|]; [|done].
    destruct (parse_elements fuel d rest) as [[es' r']|] eqn:E; [|done]. injection H as <- <-.
    apply IHe in E as (-> & Hes & Hne). destruct es' as [|e' es']; [done|].
    split_and!; [|by constructor; [constructor|]|done]. rewrite elements_text_cons. unfold element_text at 1. flat.
  - intros d b ms r. cbn [parse_members]. intros H. spans.
    destruct (parse_name rest) as [[k b1]|] eqn:Ek; [|done]. apply parse_name_sound in Ek as (-> & Hk). spans.
    destruct rest as [|c rest]; [done|]. destruct (Ascii.eqb_spec c ":") as [->|]; [|done]. cbn [negb] in H. spans.
    destruct (parse_value fuel d rest0) as [[v b2]|] eqn:Ev; [|done]. apply IHv in Ev as (-> & Hv). spans.
    destruct rest as [|c rest]; [done|]. destruct (Ascii.eqb_spec c "}") as [->|].
    { injection H as <- <-. split_and!; [|by repeat constructor|done]. simpl. unfold member_text; simpl.
      repeat (rewrite <- !app_assoc; simpl). done. }
    destruct (Ascii.eqb_spec c ",") as [->|]; [|done].
    destruct (parse_members fuel d rest) as [[ms' r']|] eqn:E; [|done]. injection H as <- <-.
    apply IHm in E as (-> & Hms & Hne). destruct ms' as [|m' ms']; [done|].
    split_and!; [|by constructor; [constructor|]|done]. rewrite members_text_cons. unfold member_text at 1. flat.
Qed.

Fixpoint nesting (c : cst) : Z :=
  match c with
  | CScalar _ | CString _ => 0
  | CEmpty _ _ => 1
  | CArray e es => 1 + foldr (λ e n, nesting e.1.2 `max` n)%Z (nesting e.1.2) es
  | CObject m ms => 1 + foldr (λ m n, nesting m.1.2 `max` n)%Z (nesting m.1.2) ms
  end%Z.

(** What a value starts with. *)
Definition value_start (x : ascii) : bool :=
  Ascii.eqb x quote || Ascii.eqb x "[" || Ascii.eqb x "{" || negb (delimiter x).

Lemma value_start_spec x : value_start x = true →
  json_space x = false ∧ x ≠ "]"%char ∧ x ≠ "}"%char ∧ x ≠ ","%char.
Proof. by destruct x as [[] [] [] [] [] [] [] []]. Qed.

Lemma text_first c : wf c → ∃ x t, text c = x :: t ∧ value_start x = true.
Proof.
  destruct 1 as [t Hs Hd|b _|[] sp _|e es _ _|m ms _ _]; try (by eexists _, _; split; [reflexivity|]).
  destruct t as [|x t]; [done|]. eexists _, _; split; [reflexivity|]. simpl in Hd.
  apply andb_true_iff in Hd as [Hd _]. unfold value_start. by rewrite Hd, !orb_true_r.
Qed.

Lemma stops_value c r : wf c → stops json_space (text c ++ r).
Proof. intros (x & t & -> & Hx)%text_first. simpl. by destruct (value_start_spec x Hx). Qed.

(** A byte that ends whatever was before it. *)
Definition separator (r : bytes) : Prop :=
  match r with [] => True | c :: _ => delimiter c = true end.

Lemma separator_app s r : spaces s → separator r → separator (s ++ r).
Proof.
  destruct s as [|c s]; [done|]. unfold spaces; simpl. intros [Hc _]%andb_true_iff _. unfold delimiter. by rewrite Hc.
Qed.

Lemma separator_stops r : separator r → stops (λ c, negb (delimiter c)) r.
Proof. destruct r; simpl; [done|]. by intros ->. Qed.

Definition complete_at (c : cst) : Prop :=
  wf c → ∀ fuel d r, 2 * length (text c) ≤ fuel → (d + nesting c ≤ maxNestingDepth)%Z → separator r →
  parse_value fuel d (text c ++ r) = Some (c, r).

Lemma elements_text_length (e : element) es : length (text (el_value e)) + 1 ≤ length (elements_text (e :: es)).
Proof.
  destruct es as [|e' es]; [simpl|rewrite elements_text_cons]; unfold element_text, el_value;
    rewrite ?length_app; simpl; rewrite ?length_app; lia.
Qed.

Lemma members_text_length (m : member) ms : length (text (mb_value m)) + 4 ≤ length (members_text (m :: ms)).
Proof.
  destruct ms as [|m' ms]; [simpl|rewrite members_text_cons]; unfold member_text, string_token, mb_value;
    repeat (rewrite ?length_app; simpl); lia.
Qed.

Lemma parse_elements_complete es fuel d r :
  Forall (λ e, complete_at (el_value e)) es → Forall wf_element es → es ≠ [] → 2 * length (elements_text es) ≤ fuel →
  Forall (λ e, d + nesting (el_value e) ≤ maxNestingDepth)%Z es →
  parse_elements fuel d (elements_text es ++ r) = Some (es, r).
Proof.
  revert fuel. induction es as [|e es IH]; [done|]. intros fuel Hc Hw _ Hf Hd.
  inversion Hc as [|?? Hc1 Hc2]; inversion Hw as [|?? Hw1 Hw2]; inversion Hd as [|?? Hd1 Hd2]; subst.
  destruct Hw1 as [s1 c s2 Hs1 Hwc Hs2]. change (el_value (s1, c, s2)) with c in *.
  assert (Hlen := elements_text_length (s1, c, s2) es). change (el_value (s1, c, s2)) with c in *.
  destruct fuel as [|fuel]; [lia|].
  assert (Htail : ∀ r', elements_text ((s1, c, s2) :: es) ++ r' = s1 ++ text c ++ s2 ++
     match es with [] => "]"%char :: r' | _ => ","%char :: elements_text es ++ r' end).
  { intros r'. destruct es as [|e' es]; [simpl; unfold element_text|rewrite elements_text_cons; unfold element_text at 1]; flat. }
  rewrite Htail. cbn [parse_elements]. rewrite span_app by (done || by apply stops_value).
  rewrite Hc1 by (done || lia || (apply separator_app; [done|by destruct es])).
  rewrite span_app by (done || by destruct es). destruct es as [|e' es]; [done|]. cbn [Ascii.eqb].
  rewrite elements_text_cons, length_app in Hf; simpl in Hf.
  change (Ascii.eqb "," "]") with false. change (Ascii.eqb "," ",") with true. cbn match.
  rewrite (IH fuel) by (done || (simpl; lia)). done.
Qed.

Lemma parse_members_complete ms fuel d r :
  Forall (λ m, complete_at (mb_value m)) ms → Forall wf_member ms → ms ≠ [] → 2 * length (members_text ms) ≤ fuel →
  Forall (λ m, d + nesting (mb_value m) ≤ maxNestingDepth)%Z ms →
  parse_members fuel d (members_text ms ++ r) = Some (ms, r).
Proof.
  revert fuel. induction ms as [|m ms IH]; [done|]. intros fuel Hc Hw _ Hf Hd.
  inversion Hc as [|?? Hc1 Hc2]; inversion Hw as [|?? Hw1 Hw2]; inversion Hd as [|?? Hd1 Hd2]; subst.
  destruct Hw1 as [s1 k s2 s3 c s4 Hs1 Hk Hs2 Hs3 Hwc Hs4]. change (mb_value (s1, (k, s2, s3), c, s4)) with c in *.
  assert (Hlen := members_text_length (s1, (k, s2, s3), c, s4) ms). change (mb_value (s1, (k, s2, s3), c, s4)) with c in *.
  destruct fuel as [|fuel]; [lia|].
  assert (Htail : ∀ r', members_text ((s1, (k, s2, s3), c, s4) :: ms) ++ r' = s1 ++ string_token k ++ s2 ++ ":"%char :: s3 ++
     text c ++ s4 ++ match ms with [] => "}"%char :: r' | _ => ","%char :: members_text ms ++ r' end).
  { intros r'. destruct ms as [|m' ms]; [simpl; unfold member_text|rewrite members_text_cons; unfold member_text at 1]; flat. }
  rewrite Htail. cbn [parse_members]. rewrite span_app by done. rewrite parse_name_complete by done.
  rewrite span_app by done. cbn [Ascii.eqb]. change (negb (Ascii.eqb ":" ":")) with false. cbn match.
  rewrite span_app by (done || by apply stops_value).
  rewrite Hc1 by (done || lia || (apply separator_app; [done|by destruct ms])).
  rewrite span_app by (done || by destruct ms). destruct ms as [|m' ms]; [done|].
  rewrite members_text_cons, length_app in Hf; simpl in Hf.
  change (Ascii.eqb "," "}") with false. change (Ascii.eqb "," ",") with true. cbn match.
  rewrite (IH fuel) by (done || (simpl; lia)). done.
Qed.

Lemma foldr_max_le {A} (f : A → Z) (x : A) xs n :
  (foldr (λ y n, f y `max` n)%Z (f x) xs ≤ n)%Z → Forall (λ y, f y ≤ n)%Z (x :: xs).
Proof.
  induction xs as [|y xs IH]; simpl; intros Hn; [by repeat constructor|].
  assert (Hx := IH ltac:(lia)). inversion Hx; subst. constructor; [done|]. constructor; [lia|done].
Qed.

Lemma nesting_nonneg c : (0 ≤ nesting c)%Z.
Proof.
  induction c as [t|b|a sp|e es IHe IHes|m ms IHm IHms] using cst_ind'; simpl; try lia.
  - clear IHes. unfold el_value in *. induction es; simpl; lia.
  - clear IHms. unfold mb_value in *. induction ms; simpl; lia.
Qed.

Lemma elements_text_start e es r : wf_element e →
  ∃ s y b, span json_space (elements_text (e :: es) ++ r) = (s, y :: b) ∧ value_start y = true.
Proof.
  intros He. assert (∃ s y b, elements_text (e :: es) ++ r = s ++ y :: b ∧ spaces s ∧ value_start y = true)
    as (s & y & b & -> & Hs & Hy).
  - destruct He as [s1 c s2 H1 Hw H2]. destruct (text_first c Hw) as (y & t & Ht & Hy). exists s1, y. eexists.
    split; [|done]. simpl. unfold element_text. cbn [fst snd]. rewrite Ht. flat.
  - destruct (value_start_spec y Hy) as (Hn & _). exists s, y, b. by rewrite span_app.
Qed.

Lemma members_text_start m ms r : wf_member m →
  ∃ s b, span json_space (members_text (m :: ms) ++ r) = (s, quote :: b).
Proof.
  intros Hm. assert (∃ s b, members_text (m :: ms) ++ r = s ++ quote :: b ∧ spaces s) as (s & b & -> & Hs).
  - destruct Hm as [s1 k s2 s3 c s4 H1 Hk H2 H3 Hw H4]. exists s1. eexists. split; [|done]. simpl. unfold member_text. flat.
  - exists s, b. by rewrite span_app.
Qed.

Lemma parse_value_complete c : complete_at c.
Proof.
  induction c as [t|b|a sp|e es IHe IHes|m ms IHm IHms] using cst_ind'; intros Hw fuel d r Hf Hd Hr;
    inversion Hw; subst; destruct (text_first _ Hw) as (x & t' & Ht & Hx);
    (destruct fuel as [|fuel]; [rewrite Ht in Hf; simpl in Hf; lia|]).
  - simpl in *. subst t. cbn [app].
    assert (Hdx : delimiter x = false) by (simpl in *; destruct (delimiter x); [done|done]).
    assert (Hne : Ascii.eqb x quote = false ∧ Ascii.eqb x "[" = false ∧ Ascii.eqb x "{" = false)
      by (by destruct x as [[] [] [] [] [] [] [] []]).
    destruct Hne as (-> & -> & ->). cbn [orb]. change (x :: t' ++ r) with ((x :: t') ++ r).
    rewrite span_app by (done || by apply separator_stops). by rewrite H0.
  - cbn [text parse_value]. cbn [string_token app]. rewrite Ascii.eqb_refl.
    change (quote :: (b ++ [quote]) ++ r) with (string_token b ++ r). by rewrite parse_name_complete.
  - assert (E : (maxNestingDepth <? d + 1)%Z = false) by (apply Z.ltb_ge; simpl in Hd; lia).
    destruct a; simpl; rewrite E, <- app_assoc, span_app; done.
  - change (d + (1 + foldr (λ (e : element) n, nesting (el_value e) `max` n)%Z (nesting (el_value e)) es) ≤ maxNestingDepth)%Z in Hd.
    assert (Hn : Forall (λ e, (d + 1) + nesting (el_value e) ≤ maxNestingDepth)%Z (e :: es)).
    { assert (Hf' := foldr_max_le (λ e : element, nesting (el_value e)) e es (maxNestingDepth - d - 1)%Z
        ltac:(cbv beta; lia)). eapply List.Forall_impl; [|exact Hf']. simpl; intros; lia. }
    assert (E : (maxNestingDepth <? d + 1)%Z = false) by (apply Z.ltb_ge; inversion Hn; pose proof (nesting_nonneg (el_value e)); lia).
    rewrite text_array. cbn [app parse_value]. rewrite E.
    change (Ascii.eqb "[" quote) with false. change (Ascii.eqb "[" "[") with true. cbn [orb].
    destruct (elements_text_start e es r H1) as (s & y & b & -> & Hy). destruct (value_start_spec y Hy) as (_ & Hy1 & _).
    apply Ascii.eqb_neq in Hy1. cbn match. rewrite Hy1.
    rewrite parse_elements_complete; try done; [by constructor..|]. rewrite text_array in Hf. simpl in Hf. simpl. lia.
  - change (d + (1 + foldr (λ (m : member) n, nesting (mb_value m) `max` n)%Z (nesting (mb_value m)) ms) ≤ maxNestingDepth)%Z in Hd.
    assert (Hn : Forall (λ m, (d + 1) + nesting (mb_value m) ≤ maxNestingDepth)%Z (m :: ms)).
    { assert (Hf' := foldr_max_le (λ m : member, nesting (mb_value m)) m ms (maxNestingDepth - d - 1)%Z
        ltac:(cbv beta; lia)). eapply List.Forall_impl; [|exact Hf']. simpl; intros; lia. }
    assert (E : (maxNestingDepth <? d + 1)%Z = false) by (apply Z.ltb_ge; inversion Hn; pose proof (nesting_nonneg (mb_value m)); lia).
    rewrite text_object. cbn [app parse_value]. rewrite E.
    change (Ascii.eqb "{" quote) with false. change (Ascii.eqb "{" "[") with false. change (Ascii.eqb "{" "{") with true. cbn [orb].
    destruct (members_text_start m ms r H1) as (s & b & ->). cbn match. change (Ascii.eqb quote "}") with false. cbn match.
    rewrite parse_members_complete; try done; [by constructor..|]. rewrite text_object in Hf. simpl in Hf. simpl. lia.
Qed.

(** Every well-formed tree within the nesting limit is what its text parses
    to. *)
Lemma parse_complete s1 c s2 : spaces s1 → wf c → spaces s2 → (nesting c ≤ maxNestingDepth)%Z →
  parse (s1 ++ text c ++ s2) = Some (s1, c, s2).
Proof.
  intros H1 Hw H2 Hn. unfold parse. rewrite span_app by (done || by apply stops_value).
  rewrite parse_value_complete; try done.
  - by rewrite H2.
  - rewrite !length_app. lia.
  - rewrite <- (app_nil_r s2). by apply separator_app.
Qed.

Lemma parse_spec b s1 c s2 : parse b = Some (s1, c, s2) → b = s1 ++ text c ++ s2 ∧ spaces s1 ∧ wf c ∧ spaces s2.
Proof.
  unfold parse. intros H. spans. destruct (parse_value _ _ _) as [[c' r]|] eqn:E; [|done].
  apply (proj1 (parse_sound _)) in E as (-> & Hw). destruct (forallb json_space r) eqn:Er; [|done].
  by injection H as <- <- <-.
Qed.

Lemma Valid_spec b : Valid b = true ↔ ∃ s1 c s2, parse b = Some (s1, c, s2).
Proof.
  unfold Valid. rewrite bool_decide_eq_true. split; [intros [[[s1 c] s2] H]; by eexists _, _, _|].
  intros (s1 & c & s2 & H). by eexists.
Qed.

(** A parsed value keeps within the nesting limit. *)
Lemma parse_nesting fuel :
  (∀ d b c r, (d ≤ maxNestingDepth)%Z → parse_value fuel d b = Some (c, r) → d + nesting c ≤ maxNestingDepth)%Z ∧
  (∀ d b es r, (d ≤ maxNestingDepth)%Z → parse_elements fuel d b = Some (es, r) →
     Forall (λ e, d + nesting (el_value e) ≤ maxNestingDepth)%Z es) ∧
  (∀ d b ms r, (d ≤ maxNestingDepth)%Z → parse_members fuel d b = Some (ms, r) →
     Forall (λ m, d + nesting (mb_value m) ≤ maxNestingDepth)%Z ms).
Proof.
  assert (Hfold : ∀ {A} (f : A → Z) x xs n, Forall (λ y, f y ≤ n)%Z (x :: xs) → (foldr (λ y n, f y `max` n) (f x) xs ≤ n)%Z).
  { intros A f x xs n Hx. inversion Hx as [|?? H1 H2]; subst. clear Hx. induction H2; simpl; lia. }
  induction fuel as [|fuel (IHv & IHe & IHm)]; [done|]. split_and!.
  - intros d b c r Hd. cbn [parse_value]. destruct b as [|x b]; [done|].
    destruct (Ascii.eqb x quote); [destruct (parse_name _) as [[? ?]|]; [intros [= <- <-]; simpl; lia|done]|].
    destruct (_ || _); [|destruct (span _ _); destruct (is_scalar _); [intros [= <- <-]; simpl; lia|done]].
    destruct (Z.ltb_spec maxNestingDepth (d + 1)); [done|]. destruct (span json_space b) as [sp [|y rest]]; [done|].
    destruct (Ascii.eqb y _); [intros [= <- <-]; simpl; lia|]. destruct (Ascii.eqb x "[").
    + destruct (parse_elements _ _ _) as [[[|e es] r']|] eqn:E; try done. intros [= <- <-]. apply IHe in E; [|lia].
      cut (foldr (λ (e : element) n, nesting (el_value e) `max` n) (nesting (el_value e)) es ≤ maxNestingDepth - d - 1)%Z;
        [change (nesting (CArray e es)) with (1 + foldr (λ (e : element) n, nesting (el_value e) `max` n)%Z (nesting (el_value e)) es)%Z; lia|].
      apply (Hfold _ (λ e : element, nesting (el_value e))). eapply List.Forall_impl; [|exact E]. simpl; intros; lia.
    + destruct (parse_members _ _ _) as [[[|m ms] r']|] eqn:E; try done. intros [= <- <-]. apply IHm in E; [|lia].
      cut (foldr (λ (m : member) n, nesting (mb_value m) `max` n) (nesting (mb_value m)) ms ≤ maxNestingDepth - d - 1)%Z;
        [change (nesting (CObject m ms)) with (1 + foldr (λ (m : member) n, nesting (mb_value m) `max` n)%Z (nesting (mb_value m)) ms)%Z; lia|].
      apply (Hfold _ (λ m : member, nesting (mb_value m))). eapply List.Forall_impl; [|exact E]. simpl; intros; lia.
  - intros d b es r Hd. cbn [parse_elements]. intros H. repeat case_match; simplify_eq; constructor; eauto.
  - intros d b ms r Hd. cbn [parse_members]. intros H. repeat case_match; simplify_eq; constructor; eauto.
Qed.

Lemma parse_depth b s1 c s2 : parse b = Some (s1, c, s2) → (nesting c ≤ maxNestingDepth)%Z.
Proof.
  unfold parse. intros H. destruct (span _ _). destruct (parse_value _ _ _) as [[c' r]|] eqn:E; [|done].
  apply (proj1 (parse_nesting _)) in E; [|done]. destruct (forallb _ _); [|done]. by injection H as <- <- <-.
Qed.
