(* ===== verification/JsonString.v ===== *)
(** Strings in JSON: UTF-8, the decoding of a string token and the encoding
    of a string by json.Marshal.

    Strings are bytes.  Each routine works rune by rune; it is written as a
    step on the bytes at a position, which says what it puts out and how many
    bytes it takes, and a walk that skips the bytes a step has taken. *)

From stdpp Require Import base list strings option.
From Stdlib Require Import ZArith Lia Ascii.
From S2P Require Import Prelude Json.

Local Open Scope Z_scope.

Definition byte (z : Z) : ascii := ascii_of_N (Z.to_N z).

(** ** UTF-8 *)

Definition RuneError : Z := 65533.

Definition in_range (lo hi : Z) (c : ascii) : bool := (lo <=? ascii_Z c) && (ascii_Z c <=? hi).
Definition cont (c : ascii) : bool := in_range 128 191 c.
Definition low6 (c : ascii) : Z := ascii_Z c mod 64.

(** What the byte after a leading byte [c] of a three or four byte sequence
    may be: no overlong form, no surrogate, nothing past U+10FFFF. *)
Definition second_ok (c : Z) (b : ascii) : bool :=
  if c =? 224 then in_range 160 191 b
  else if c =? 237 then in_range 128 159 b
  else if c =? 240 then in_range 144 191 b
  else if c =? 244 then in_range 128 143 b
  else cont b.

(** utf8.DecodeRune: the rune and its width; a byte that starts no valid
    sequence is [RuneError] of width 1. *)
Definition DecodeRune (b : bytes) : Z * nat :=
  match b with
  | [] => (RuneError, 0%nat)
  | b0 :: t =>
      let c := ascii_Z b0 in
      if c <? 128 then (c, 1%nat)
      else match t with
      | b1 :: t =>
          if (194 <=? c) && (c <=? 223) then
            if cont b1 then ((c - 192) * 64 + low6 b1, 2%nat) else (RuneError, 1%nat)
          else if (224 <=? c) && (c <=? 244) && second_ok c b1 then
            match t with
            | b2 :: t =>
                if negb (cont b2) then (RuneError, 1%nat)
                else if c <=? 239 then ((c - 224) * 4096 + low6 b1 * 64 + low6 b2, 3%nat)
                else match t with
                     | b3 :: _ =>
                         if cont b3 then ((c - 240) * 262144 + low6 b1 * 4096 + low6 b2 * 64 + low6 b3, 4%nat)
                         else (RuneError, 1%nat)
                     | [] => (RuneError, 1%nat)
                     end
            | [] => (RuneError, 1%nat)
            end
          else (RuneError, 1%nat)
      | [] => (RuneError, 1%nat)
      end
  end.

Definition is_surrogate (r : Z) : bool := (55296 <=? r) && (r <=? 57343).

(** utf8.AppendRune. *)
Definition EncodeRune (r : Z) : bytes :=
  let r := if (r <? 0) || (1114111 <? r) || is_surrogate r then RuneError else r in
  if r <? 128 then [byte r]
  else if r <? 2048 then [byte (192 + r / 64); byte (128 + r mod 64)]
  else if r <? 65536 then [byte (224 + r / 4096); byte (128 + r / 64 mod 64); byte (128 + r mod 64)]
  else [byte (240 + r / 262144); byte (128 + r / 4096 mod 64); byte (128 + r / 64 mod 64); byte (128 + r mod 64)].

(** The runes of a string, as a range loop over it yields them. *)
Fixpoint runes_from (skip : nat) (b : bytes) : list Z :=
  match b, skip with
  | [], _ => []
  | _ :: b', S k => runes_from k b'
  | _ :: b', O => let '(r, n) := DecodeRune b in r :: runes_from (n - 1) b'
  end.

Definition runes (b : bytes) : list Z := runes_from 0 b.

(** The string with every byte of an invalid sequence replaced by U+FFFD:
    strings.ToValidUTF8 rune by rune. *)
Definition coerce (b : bytes) : bytes := flat_map EncodeRune (runes b).

(** ** Decoding a string token *)

Definition hex_val (c : ascii) : option Z :=
  let z := ascii_Z c in
  if is_digit c then Some (z - 48)
  else if (97 <=? z) && (z <=? 102) then Some (z - 87)
  else if (65 <=? z) && (z <=? 70) then Some (z - 55)
  else None.

(** getu4: the value of a [\uXXXX] escape at the start of [b]. *)
Definition getu4 (b : bytes) : option Z :=
  match b with
  | c :: u :: h1 :: h2 :: h3 :: h4 :: _ =>
      if Ascii.eqb c backslash && Ascii.eqb u "u" then
        match hex_val h1, hex_val h2, hex_val h3, hex_val h4 with
        | Some a, Some b, Some c, Some d => Some (((a * 16 + b) * 16 + c) * 16 + d)
        | _, _, _, _ => None
        end
      else None
  | _ => None
  end.

(** utf16.DecodeRune of a pair, when it is one. *)
Definition decode_pair (r1 r2 : Z) : option Z :=
  if (55296 <=? r1) && (r1 <? 56320) && (56320 <=? r2) && (r2 <? 57344)
  then Some ((r1 - 55296) * 1024 + (r2 - 56320) + 65536) else None.

(** The decoder of encoding/json at one position inside the quotes: the bytes
    it writes and the bytes it takes. *)
Definition unquote_step (b : bytes) : option (bytes * nat) :=
  match b with
  | [] => None
  | c :: b' =>
      if Ascii.eqb c backslash then
        match b' with
        | [] => None
        | e :: _ =>
            if Ascii.eqb e quote || Ascii.eqb e backslash || Ascii.eqb e "/" || Ascii.eqb e "'" then Some ([e], 2%nat)
            else if Ascii.eqb e "b" then Some (["008"%char], 2%nat)
            else if Ascii.eqb e "f" then Some (["012"%char], 2%nat)
            else if Ascii.eqb e "n" then Some (["010"%char], 2%nat)
            else if Ascii.eqb e "r" then Some (["013"%char], 2%nat)
            else if Ascii.eqb e "t" then Some (["009"%char], 2%nat)
            else if Ascii.eqb e "u" then
              match getu4 b with
              | None => None
              | Some r =>
                  if is_surrogate r then
                    match (match getu4 (drop 6 b) with Some r2 => decode_pair r r2 | None => None end) with
                    | Some dec => Some (EncodeRune dec, 12%nat)
                    | None => Some (EncodeRune RuneError, 6%nat)
                    end
                  else Some (EncodeRune r, 6%nat)
              end
            else None
        end
      else if Ascii.eqb c quote || (ascii_Z c <? 32) then None
      else if ascii_Z c <? 128 then Some ([c], 1%nat)
      else let '(r, n) := DecodeRune b in Some (EncodeRune r, n)
  end.

Fixpoint unquote_from (skip : nat) (b : bytes) : option bytes :=
  match b, skip with
  | [], _ => Some []
  | _ :: b', S k => unquote_from k b'
  | _ :: b', O =>
      match unquote_step b with
      | Some (out, n) => match unquote_from (n - 1) b' with Some rest => Some (out ++ rest) | None => None end
      | None => None
      end
  end.

(** A byte the decoder copies. *)
Definition plain (c : ascii) : bool := negb (Ascii.eqb c backslash) && (ascii_Z c <? 128).

(** [token[1 : len(token)-1]]. *)
Definition inner (token : bytes) : bytes := removelast (tail token).

(** jsonStringValue: json.Unmarshal leaves the string empty when the token
    does not decode. *)
Definition jsonStringValue (token : bytes) : bytes :=
  if forallb plain (inner token) then inner token else default [] (unquote_from 0 (inner token)).

(** ** Encoding a string *)

Definition hex_digit (z : Z) : ascii := byte (if z <? 10 then 48 + z else 87 + z).

Definition u_escape (r : Z) : bytes :=
  [backslash; "u"%char; hex_digit (r / 4096 mod 16); hex_digit (r / 256 mod 16); hex_digit (r / 16 mod 16); hex_digit (r mod 16)].

(** json.Marshal of a string at one position, HTML characters escaped. *)
Definition marshal_step (b : bytes) : bytes * nat :=
  match b with
  | [] => ([], 0%nat)
  | c :: _ =>
      let z := ascii_Z c in
      if z <? 128 then
        (if Ascii.eqb c quote || Ascii.eqb c backslash then [backslash; c]
         else if z =? 8 then [backslash; "b"%char]
         else if z =? 12 then [backslash; "f"%char]
         else if z =? 10 then [backslash; "n"%char]
         else if z =? 13 then [backslash; "r"%char]
         else if z =? 9 then [backslash; "t"%char]
         else if (z <? 32) || Ascii.eqb c "<" || Ascii.eqb c ">" || Ascii.eqb c "&" then u_escape z
         else [c], 1%nat)
      else
        let '(r, n) := DecodeRune b in
        (if (r =? RuneError) && (n =? 1)%nat then u_escape RuneError
         else if (r =? 8232) || (r =? 8233) then u_escape r
         else take n b, n)
  end.

Fixpoint marshal_from (skip : nat) (b : bytes) : bytes :=
  match b, skip with
  | [], _ => []
  | _ :: b', S k => marshal_from k b'
  | _ :: b', O => let '(out, n) := marshal_step b in out ++ marshal_from (n - 1) b'
  end.

Definition marshal_body (b : bytes) : bytes := marshal_from 0 b.
Definition Marshal (b : bytes) : bytes := string_token (marshal_body b).

(** ** Names *)

(** Whether a rune folds to the lowercase ASCII byte [c]. *)
Definition folds_to (r c : Z) : bool :=
  (r =? c)
  || ((97 <=? c) && (c <=? 122) && (r =? c - 32))
  || ((c =? 115) && (r =? 383))
  || ((c =? 107) && (r =? 8490)).

Definition lower_z (c : Z) : Z := if (65 <=? c) && (c <=? 90) then c + 32 else c.

Fixpoint fold_match (rs : list Z) (field : bytes) : bool :=
  match rs, field with
  | [], [] => true
  | r :: rs, c :: field => folds_to r (lower_z (ascii_Z c)) && fold_match rs field
  | _, _ => false
  end.

(** strings.EqualFold against an ASCII [field], which every field the gateway
    compares with is. *)
Definition jsonNameMatches (name field : bytes) : bool := fold_match (runes name) field.

(** ** The round trip *)

Lemma ascii_Z_range c : 0 ≤ ascii_Z c < 256.
Proof. unfold ascii_Z. pose proof (N_ascii_bounded c). lia. Qed.

Lemma ascii_Z_byte z : 0 ≤ z < 256 → ascii_Z (byte z) = z.
Proof. intros H. unfold ascii_Z, byte. rewrite N_ascii_embedding by lia. lia. Qed.

Lemma byte_ascii_Z c : byte (ascii_Z c) = c.
Proof. unfold ascii_Z, byte. rewrite N2Z.id. apply ascii_N_embedding. Qed.

Lemma byte_eq z c : z = ascii_Z c → byte z = c.
Proof. intros ->. apply byte_ascii_Z. Qed.

(** Every fact the tests of [DecodeRune] give about a byte, as inequalities. *)
Ltac bytes_facts :=
  unfold cont, in_range, low6, is_surrogate in *;
  repeat match goal with
  | H : _ && _ = true |- _ => apply andb_true_iff in H as [? ?]
  | H : (_ <=? _) = true |- _ => apply Z.leb_le in H
  | H : (_ <? _) = true |- _ => apply Z.ltb_lt in H
  | H : (_ <? _) = false |- _ => apply Z.ltb_ge in H
  | H : (_ <=? _) = false |- _ => apply Z.leb_gt in H
  | H : (_ =? _) = true |- _ => apply Z.eqb_eq in H
  | H : (_ =? _) = false |- _ => apply Z.eqb_neq in H
  | H : negb _ = false |- _ => apply negb_false_iff in H
  end.

Lemma second_ok_spec c b : second_ok c b = true → 224 ≤ c ≤ 244 →
  128 ≤ ascii_Z b ≤ 191 ∧ (c = 224 → 160 ≤ ascii_Z b) ∧ (c = 237 → ascii_Z b ≤ 159) ∧
  (c = 240 → 144 ≤ ascii_Z b) ∧ (c = 244 → ascii_Z b ≤ 143).
Proof.
  unfold second_ok. intros H Hc.
  destruct (c =? 224) eqn:E1; [bytes_facts; lia|]. destruct (c =? 237) eqn:E2; [bytes_facts; lia|].
  destruct (c =? 240) eqn:E3; [bytes_facts; lia|]. destruct (c =? 244) eqn:E4; bytes_facts; lia.
Qed.

Definition rune_ok (r : Z) : Prop := 0 ≤ r ≤ 1114111 ∧ ¬ (55296 ≤ r ≤ 57343).

Lemma EncodeRune_ok r : rune_ok r →
  EncodeRune r =
  if r <? 128 then [byte r]
  else if r <? 2048 then [byte (192 + r / 64); byte (128 + r mod 64)]
  else if r <? 65536 then [byte (224 + r / 4096); byte (128 + r / 64 mod 64); byte (128 + r mod 64)]
  else [byte (240 + r / 262144); byte (128 + r / 4096 mod 64); byte (128 + r / 64 mod 64); byte (128 + r mod 64)].
Proof.
  intros [H1 H2]. unfold EncodeRune.
  assert (Hb : (r <? 0) || (1114111 <? r) || is_surrogate r = false); [|by rewrite Hb].
  unfold is_surrogate. rewrite !orb_false_iff, andb_false_iff, !Z.leb_gt, !Z.ltb_ge. lia.
Qed.

Lemma rune3 a b c : 224 ≤ a ≤ 239 → 128 ≤ b ≤ 191 → (a = 224 → 160 ≤ b) → (a = 237 → b ≤ 159) → 128 ≤ c ≤ 191 →
  let r := (a - 224) * 4096 + b mod 64 * 64 + c mod 64 in
  rune_ok r ∧ 2048 ≤ r < 65536 ∧ r / 4096 = a - 224 ∧ r / 64 mod 64 = b - 128 ∧ r mod 64 = c - 128.
Proof.
  intros Ha Hb H1 H2 Hc. simpl. replace (b mod 64) with (b - 128) by (Z.to_euclidean_division_equations; lia).
  replace (c mod 64) with (c - 128) by (Z.to_euclidean_division_equations; lia).
  assert (D : ((a - 224) * 4096 + (b - 128) * 64 + (c - 128)) / 64 = (a - 224) * 64 + (b - 128))
    by (Z.to_euclidean_division_equations; lia).
  unfold rune_ok. split_and!; try lia; rewrite ?D; Z.to_euclidean_division_equations; lia.
Qed.

Lemma rune4 a b c d : 240 ≤ a ≤ 244 → 128 ≤ b ≤ 191 → (a = 240 → 144 ≤ b) → (a = 244 → b ≤ 143) → 128 ≤ c ≤ 191 → 128 ≤ d ≤ 191 →
  let r := (a - 240) * 262144 + b mod 64 * 4096 + c mod 64 * 64 + d mod 64 in
  rune_ok r ∧ 65536 ≤ r ∧ r / 262144 = a - 240 ∧ r / 4096 mod 64 = b - 128 ∧ r / 64 mod 64 = c - 128 ∧ r mod 64 = d - 128.
Proof.
  intros Ha Hb H1 H2 Hc Hd. simpl. replace (b mod 64) with (b - 128) by (Z.to_euclidean_division_equations; lia).
  replace (c mod 64) with (c - 128) by (Z.to_euclidean_division_equations; lia).
  replace (d mod 64) with (d - 128) by (Z.to_euclidean_division_equations; lia).
  assert (D : ((a - 240) * 262144 + (b - 128) * 4096 + (c - 128) * 64 + (d - 128)) / 64
              = (a - 240) * 4096 + (b - 128) * 64 + (c - 128)) by (Z.to_euclidean_division_equations; lia).
  assert (D' : ((a - 240) * 262144 + (b - 128) * 4096 + (c - 128) * 64 + (d - 128)) / 4096
              = (a - 240) * 64 + (b - 128)) by (Z.to_euclidean_division_equations; lia).
  unfold rune_ok. split_and!; try lia; rewrite ?D, ?D'; Z.to_euclidean_division_equations; lia.
Qed.

(** A decoded sequence is its rune's encoding, whatever follows it. *)
Lemma DecodeRune_spec b r n : DecodeRune b = (r, n) → b ≠ [] →
  (r, n) = (RuneError, 1%nat) ∨
  (rune_ok r ∧ (1 ≤ n)%nat ∧ EncodeRune r = take n b ∧ ∀ tail, DecodeRune (take n b ++ tail) = (r, n)).
Proof.
  destruct b as [|b0 t]; [done|]. intros H _. unfold DecodeRune in H. pose proof (ascii_Z_range b0) as R0.
  destruct (ascii_Z b0 <? 128) eqn:E0.
  { injection H as <- <-. right. assert (Hr : rune_ok (ascii_Z b0)) by (bytes_facts; unfold rune_ok; lia).
    split_and!; [done|lia| |].
    - rewrite EncodeRune_ok, E0 by done. simpl. by rewrite byte_ascii_Z.
    - intros tail. simpl. by rewrite E0. }
  destruct t as [|b1 t]; [by left; simplify_eq|]. pose proof (ascii_Z_range b1) as R1.
  destruct ((194 <=? ascii_Z b0) && (ascii_Z b0 <=? 223)) eqn:E2.
  { destruct (cont b1) eqn:C1; [|by left; simplify_eq]. injection H as <- <-. right.
    set (r := (ascii_Z b0 - 192) * 64 + low6 b1).
    assert (Hr : 128 ≤ r < 2048 ∧ r / 64 = ascii_Z b0 - 192 ∧ r mod 64 = ascii_Z b1 - 128)
      by (subst r; bytes_facts; Z.to_euclidean_division_equations; lia).
    destruct Hr as (Hr & D0 & D1). assert (rune_ok r) by (unfold rune_ok; lia). split_and!; [done|lia| |].
    - rewrite EncodeRune_ok by done. rewrite (proj2 (Z.ltb_ge r 128)), (proj2 (Z.ltb_lt r 2048)), D0, D1 by lia.
      simpl. f_equal; [|f_equal]; apply byte_eq; lia.
    - intros tail. simpl. by rewrite E0, E2, C1. }
  destruct ((224 <=? ascii_Z b0) && (ascii_Z b0 <=? 244) && second_ok (ascii_Z b0) b1) eqn:E3; [|by left; simplify_eq].
  destruct t as [|b2 t]; [by left; simplify_eq|]. pose proof (ascii_Z_range b2) as R2.
  destruct (cont b2) eqn:C2; simpl in H; [|by left; simplify_eq].
  assert (E3' := E3). apply andb_true_iff in E3' as [E3' S1].
  destruct (second_ok_spec _ _ S1 ltac:(bytes_facts; lia)) as (B1 & B2 & B3 & B4 & B5).
  destruct (ascii_Z b0 <=? 239) eqn:E4.
  { injection H as <- <-. right. assert (R := rune3 (ascii_Z b0) (ascii_Z b1) (ascii_Z b2) ltac:(bytes_facts; lia) B1 B2 B3 ltac:(bytes_facts; lia)).
    unfold low6 in *. set (r := (ascii_Z b0 - 224) * 4096 + ascii_Z b1 mod 64 * 64 + ascii_Z b2 mod 64) in *.
    destruct R as (Hok & Hr & D0 & D1 & D2). split_and!; [done|lia| |].
    - rewrite EncodeRune_ok by done. rewrite (proj2 (Z.ltb_ge r 128)), (proj2 (Z.ltb_ge r 2048)), (proj2 (Z.ltb_lt r 65536)), D0, D1, D2 by lia.
      simpl. f_equal; [|f_equal; [|f_equal]]; apply byte_eq; lia.
    - intros tail. simpl. by rewrite E0, E2, E3, C2, E4. }
  destruct t as [|b3 t]; [by left; simplify_eq|]. pose proof (ascii_Z_range b3) as R3.
  destruct (cont b3) eqn:C3; [|by left; simplify_eq]. injection H as <- <-. right.
  assert (R := rune4 (ascii_Z b0) (ascii_Z b1) (ascii_Z b2) (ascii_Z b3) ltac:(bytes_facts; lia) B1 B4 B5
    ltac:(bytes_facts; lia) ltac:(bytes_facts; lia)).
  unfold low6 in *. set (r := (ascii_Z b0 - 240) * 262144 + ascii_Z b1 mod 64 * 4096 + ascii_Z b2 mod 64 * 64 + ascii_Z b3 mod 64) in *.
  destruct R as (Hok & Hr & D0 & D1 & D2 & D3). split_and!; [done|lia| |].
  - rewrite EncodeRune_ok by done.
    rewrite (proj2 (Z.ltb_ge r 128)), (proj2 (Z.ltb_ge r 2048)), (proj2 (Z.ltb_ge r 65536)), D0, D1, D2, D3 by lia.
    simpl. f_equal; [|f_equal; [|f_equal; [|f_equal]]]; apply byte_eq; lia.
  - intros tail. simpl. by rewrite E0, E2, E3, C2, E4, C3.
Qed.

Lemma hex_val_digit z : 0 ≤ z < 16 → hex_val (hex_digit z) = Some z ∧ is_hex (hex_digit z) = true.
Proof.
  intros H. assert (Hz : z = Z.of_nat (Z.to_nat z)) by lia. rewrite Hz. assert (Z.to_nat z < 16)%nat by lia.
  generalize dependent (Z.to_nat z). intros n _ Hn. do 16 (destruct n as [|n]; [done|]). lia.
Qed.

Lemma u_escape_step r tail : 0 ≤ r < 65536 → is_surrogate r = false →
  unquote_step (u_escape r ++ tail) = Some (EncodeRune r, 6%nat) ∧
  string_body_ok (u_escape r ++ tail) = string_body_ok tail.
Proof.
  intros Hr Hs. assert (Hm : ∀ x, 0 ≤ x mod 16 < 16) by (intros; apply Z.mod_pos_bound; lia).
  destruct (hex_val_digit _ (Hm (r / 4096))) as [V1 X1], (hex_val_digit _ (Hm (r / 256))) as [V2 X2],
    (hex_val_digit _ (Hm (r / 16))) as [V3 X3], (hex_val_digit _ (Hm r)) as [V4 X4].
  split.
  - assert (G : getu4 (u_escape r ++ tail) = Some r).
    { unfold u_escape. cbn [app getu4]. change (Ascii.eqb backslash backslash && Ascii.eqb "u" "u") with true. cbn match.
      rewrite V1, V2, V3, V4. f_equal. Z.to_euclidean_division_equations. lia. }
    unfold unquote_step. rewrite G, Hs. reflexivity.
  - unfold u_escape. cbn [app]. cbn [string_body_ok]. change (Ascii.eqb backslash backslash) with true.
    change (Ascii.eqb "u" "u") with true. cbn match. by rewrite X1, X2, X3, X4.
Qed.

Lemma cont_high_ok l tail : forallb (λ c, 128 <=? ascii_Z c) l = true → string_body_ok (l ++ tail) = string_body_ok tail.
Proof.
  induction l as [|c l IH]; [done|]. simpl. intros [Hc Hl]%andb_true_iff. apply Z.leb_le in Hc.
  assert (Hb : Ascii.eqb c backslash = false) by (apply Ascii.eqb_neq; intros ->; by vm_compute in Hc).
  assert (Hq : Ascii.eqb c quote = false) by (apply Ascii.eqb_neq; intros ->; by vm_compute in Hc).
  rewrite Hb, Hq, (proj2 (Z.leb_le 32 _)) by lia. simpl. by apply IH.
Qed.

(** Every byte of a sequence that starts past ASCII is past ASCII. *)
Lemma DecodeRune_high c b r n : DecodeRune (c :: b) = (r, n) → (ascii_Z c <? 128) = false →
  forallb (λ c, 128 <=? ascii_Z c) (take n (c :: b)) = true.
Proof.
  unfold DecodeRune. intros H E0. rewrite E0 in H. assert (H0 : 128 <=? ascii_Z c = true) by (bytes_facts; lia).
  assert (Hc : ∀ x, cont x = true → 128 <=? ascii_Z x = true) by (intros x Hx; bytes_facts; lia).
  destruct b as [|b1 b]; [simplify_eq; simpl; by rewrite H0|].
  destruct ((194 <=? _) && _).
  { destruct (cont b1) eqn:C1; simplify_eq; simpl; rewrite H0; [by rewrite (Hc _ C1)|done]. }
  destruct (_ && _ && _) eqn:E3; [|simplify_eq; simpl; by rewrite H0].
  assert (H1 : 128 <=? ascii_Z b1 = true).
  { apply andb_true_iff in E3 as [E3 S1]. destruct (second_ok_spec _ _ S1) as [? _]; bytes_facts; lia. }
  destruct b as [|b2 b]; [simplify_eq; simpl; by rewrite H0|].
  destruct (cont b2) eqn:C2; simpl in H; [|simplify_eq; simpl; by rewrite H0]. apply Hc in C2.
  destruct (_ <=? 239); [simplify_eq; simpl; by rewrite H0, H1, C2|].
  destruct b as [|b3 b]; [simplify_eq; simpl; by rewrite H0|].
  destruct (cont b3) eqn:C3; [apply Hc in C3|]; simplify_eq; simpl; [by rewrite H0, H1, C2, C3|by rewrite H0].
Qed.

Lemma DecodeRune_width b r n : DecodeRune b = (r, n) → (n ≤ length b)%nat.
Proof. unfold DecodeRune. intros H. repeat case_match; simplify_eq; simpl; lia. Qed.

(** What the encoder puts out at a position, the decoder reads back as the
    rune there. *)
Definition step_roundtrip (out : bytes) (r : Z) : Prop :=
  out ≠ [] ∧ ∀ tail, unquote_step (out ++ tail) = Some (EncodeRune r, length out) ∧
                     string_body_ok (out ++ tail) = string_body_ok tail.

Lemma marshal_step_ascii c b : ascii_Z c < 128 → step_roundtrip (marshal_step (c :: b)).1 (ascii_Z c).
Proof.
  intros H. assert (E : ascii_Z c <? 128 = true) by (by apply Z.ltb_lt).
  split; [|intros tail]; revert H; destruct c as [[] [] [] [] [] [] [] []]; intros H; try (by vm_compute in H); clear H E; done.
Qed.

Lemma marshal_step_spec c b : ∃ out r n, marshal_step (c :: b) = (out, n) ∧ DecodeRune (c :: b) = (r, n) ∧ step_roundtrip out r.
Proof.
  destruct (ascii_Z c <? 128) eqn:E.
  { pose proof (marshal_step_ascii c b ltac:(bytes_facts; lia)) as H. destruct (marshal_step (c :: b)) as [out n] eqn:M.
    exists out, (ascii_Z c), 1%nat. unfold marshal_step in M. rewrite E in M. injection M as <- <-.
    split_and!; [done|by simpl; rewrite E|done]. }
  destruct (DecodeRune (c :: b)) as [r n] eqn:D. unfold marshal_step. rewrite E, D.
  pose proof (DecodeRune_high _ _ _ _ D E) as Hh.
  destruct (DecodeRune_spec _ _ _ D ltac:(done)) as [[= -> ->]|(Hok & Hn & He & Ht)].
  { eexists _, _, _. split_and!; [done|done|]. split; [done|]. intros tail. by apply u_escape_step. }
  destruct ((r =? RuneError) && (n =? 1)%nat) eqn:Er.
  { apply andb_true_iff in Er as [->%Z.eqb_eq ->%Nat.eqb_eq].
    eexists _, _, _. split_and!; [done|done|]. split; [done|]. intros tail. by apply u_escape_step. }
  eexists _, _, _. split_and!; [done|done|]. destruct ((r =? 8232) || (r =? 8233)) eqn:El.
  { split; [done|]. intros tail. apply orb_true_iff in El as [->%Z.eqb_eq| ->%Z.eqb_eq]; by apply u_escape_step. }
  destruct n as [|n]; [lia|]. split; [done|]. intros tail. split; [|by apply cont_high_ok].
  specialize (Ht tail). assert (Hlen : length (take (S n) (c :: b)) = S n).
  { rewrite length_take. apply DecodeRune_width in D. lia. }
  rewrite Hlen. revert Ht. cbn [take app]. unfold unquote_step. intros ->. rewrite E.
  assert (Hb : Ascii.eqb c backslash = false) by (apply Ascii.eqb_neq; intros ->; by vm_compute in E).
  assert (Hq : Ascii.eqb c quote = false) by (apply Ascii.eqb_neq; intros ->; by vm_compute in E).
  rewrite Hb, Hq, (proj2 (Z.ltb_ge (ascii_Z c) 32)) by (bytes_facts; lia). done.
Qed.

Lemma unquote_skip l tail : unquote_from (length l) (l ++ tail) = unquote_from 0 tail.
Proof. induction l as [|c l IH]; [by destruct tail|done]. Qed.

Lemma unquote_piece out r tail : step_roundtrip out r →
  unquote_from 0 (out ++ tail) = match unquote_from 0 tail with Some rest => Some (EncodeRune r ++ rest) | None => None end.
Proof.
  intros [Hne H]. destruct (H tail) as [Hs _]. destruct out as [|c out]; [done|]. cbn [app unquote_from].
  cbn [app] in Hs. rewrite Hs. cbn [length]. replace (S (length out) - 1)%nat with (length out) by lia.
  by rewrite unquote_skip.
Qed.

Lemma marshal_from_spec b k :
  unquote_from 0 (marshal_from k b) = Some (flat_map EncodeRune (runes_from k b)) ∧ string_body_ok (marshal_from k b) = true.
Proof.
  revert k. induction b as [|c b IH]; intros k; [done|]. destruct k as [|k]; [|apply IH].
  destruct (marshal_step_spec c b) as (out & r & n & Hm & Hd & Hs). cbn [marshal_from runes_from]. rewrite Hm, Hd.
  destruct (IH (n - 1)%nat) as [Hu Ho]. rewrite (unquote_piece out r), Hu by done. split; [done|].
  by rewrite (proj2 (proj2 Hs _)).
Qed.

Lemma marshal_body_ok b : string_body_ok (marshal_body b) = true.
Proof. apply marshal_from_spec. Qed.

(** The fast path copies what the decoder would. *)
Lemma unquote_plain l : forallb plain l = true → string_body_ok l = true → unquote_from 0 l = Some l.
Proof.
  induction l as [|c l IH]; [done|]. cbn [forallb string_body_ok]. intros [Hc Hl]%andb_true_iff.
  unfold plain in Hc. apply andb_true_iff in Hc as [Hb Hz]. apply negb_true_iff in Hb. rewrite Hb.
  intros [[Hq H32]%andb_true_iff Ho]%andb_true_iff. apply negb_true_iff in Hq.
  cbn [unquote_from unquote_step]. rewrite Hb, Hq, Hz, (proj2 (Z.ltb_ge (ascii_Z c) 32)) by (bytes_facts; lia).
  simpl. by rewrite IH.
Qed.

Lemma inner_token b : inner (string_token b) = b.
Proof. unfold inner, string_token. simpl. apply removelast_last. Qed.

Lemma jsonStringValue_unquote b : string_body_ok b = true → jsonStringValue (string_token b) = default [] (unquote_from 0 b).
Proof.
  intros Hb. unfold jsonStringValue. rewrite inner_token. destruct (forallb plain b) eqn:E; [|done].
  by rewrite unquote_plain.
Qed.

(** Decoding what json.Marshal writes gives the string back, invalid UTF-8
    replaced. *)
Lemma jsonStringValue_Marshal b : jsonStringValue (Marshal b) = coerce b.
Proof.
  unfold Marshal. rewrite jsonStringValue_unquote by apply marshal_body_ok.
  unfold marshal_body. by rewrite (proj1 (marshal_from_spec b 0)).
Qed.

(** ASCII text is valid, so it comes back as it is. *)
Lemma coerce_ascii b : forallb (λ c, ascii_Z c <? 128) b = true → coerce b = b.
Proof.
  unfold coerce, runes. induction b as [|c b IH]; [done|]. cbn [forallb]. intros [Hc Hb]%andb_true_iff.
  cbn [runes_from DecodeRune]. rewrite Hc. simpl. rewrite IH by done.
  rewrite EncodeRune_ok, Hc; [simpl; by rewrite byte_ascii_Z|]. pose proof (ascii_Z_range c). bytes_facts. unfold rune_ok; lia.
Qed.
