(* ===== verification/JsonValue.v ===== *)
(** Go's dynamic JSON values: what [json.Unmarshal] puts in an [any], what
    [json.Marshal] writes for one, and what [fmt] prints for it with %v.

    A number decodes to the float64 nearest to it and prints as the shortest
    decimal that reads back as the same float64.  Object keys are written in
    byte order.  A slice that was never appended to is nil and is written as
    null. *)

From Corelib Require Import SpecFloat.
From stdpp Require Import base list strings option gmap sorting.
From Stdlib Require Import ZArith Lia Ascii Decimal DecimalString DecimalN DecimalFacts.
From S2P Require Import Prelude GoFloat Json JsonString.

Inductive any :=
  | VNull
  | VBool (b : bool)
  | VFloat (f : f64)
  | VInt (z : Z)
  | VStr (s : string)
  | VNilArr
  | VArr (l : list any)
  | VObj (m : gmap string any).

(** Type assertions: [v, _ := x.(T)]. *)
Definition as_obj (v : any) : gmap string any := match v with VObj m => m | _ => ∅ end.
Definition as_arr (v : any) : option (list any) := match v with VArr l => Some l | VNilArr => Some [] | _ => None end.
Definition as_str (v : any) : option string := match v with VStr s => Some s | _ => None end.
Definition as_bool (v : any) : option bool := match v with VBool b => Some b | _ => None end.

(** [m[k]]: nil when there is no such key. *)
Definition get (m : gmap string any) (k : string) : any := default VNull (m !! k).

(** [x == "s"] on an interface. *)
Definition is_str (v : any) (s : string) : bool := match v with VStr t => (t =? s)%string | _ => false end.

(** A slice declared with var and appended to. *)
Definition slice_of (l : list any) : any := match l with [] => VNilArr | _ => VArr l end.

(** ** Shortest decimal *)

(** The absolute value as a ratio. *)
Definition ratio_of (x : f64) : Z * Z :=
  match x with
  | S754_finite _ m e => if (0 <=? e)%Z then (Zpos m * 2 ^ e, 1)%Z else (Zpos m, 2 ^ (- e))%Z
  | _ => (0, 1)%Z
  end.

(** The least [k] with [num / den < 10 ^ k], looked for around its estimate. *)
Definition decimal_point (num den : Z) : Z :=
  let below k := if (0 <=? k)%Z then (num <? den * 10 ^ k)%Z else (num * 10 ^ (- k) <? den)%Z in
  let k0 := ((Z.log2 num - Z.log2 den) * 30103 / 100000)%Z in
  default (k0 + 2)%Z (find below [k0 - 2; k0 - 1; k0; k0 + 1; k0 + 2]%Z).

(** [n / 10 ^ s]. *)
Definition f64_scaled (n s : Z) : f64 :=
  if (0 <=? s)%Z then f64_of_ratio n (Z.to_pos (10 ^ s)) else f64_of_ratio (n * 10 ^ (- s)) 1.

(** The [d]-digit decimals next to the value that read back as it, the nearest
    one first. *)
Definition candidates (x : f64) (num den k : Z) (d : nat) : list Z :=
  let s := (Z.of_nat d - k)%Z in
  let '(a, b) := if (0 <=? s)%Z then (num * 10 ^ s, den)%Z else (num, den * 10 ^ (- s))%Z in
  let n := (a / b)%Z in
  let near := if (2 * (a - n * b) <=? b)%Z then [n; n + 1]%Z else [n + 1; n]%Z in
  filter (λ c, f64_scaled c s = SFabs x) near.

Fixpoint shortest_from (x : f64) (num den k : Z) (d fuel : nat) : Z * nat :=
  match fuel with
  | O => (0%Z, d)
  | S fuel => match candidates x num den k d with c :: _ => (c, d) | [] => shortest_from x num den k (S d) fuel end
  end.

Fixpoint strip_zeros (ds : bytes) : bytes :=
  match ds with
  | [] => []
  | c :: ds => match strip_zeros ds with
               | [] => if Ascii.eqb c "0" then [] else [c]
               | r => c :: r
               end
  end.

(** The digits [ds] and the point [p]: the value is 0.ds times 10 ^ p. *)
Definition shortest (x : f64) : bytes * Z :=
  let '(num, den) := ratio_of x in
  if (num =? 0)%Z then ([], 0%Z)
  else
    let k := decimal_point num den in
    let '(c, d) := shortest_from x num den k 1 17 in
    let ds := bs (print_N (Z.to_N c)) in
    (strip_zeros ds, (k + Z.of_nat (length ds) - Z.of_nat d)%Z).

Definition zeros (n : Z) : bytes := replicate (Z.to_nat n) "0"%char.

(** The format 'f'. *)
Definition format_f (ds : bytes) (p : Z) : bytes :=
  match ds with
  | [] => ["0"%char]
  | _ =>
      if (p <=? 0)%Z then bs "0." ++ zeros (- p) ++ ds
      else if (Z.of_nat (length ds) <=? p)%Z then ds ++ zeros (p - Z.of_nat (length ds))
      else take (Z.to_nat p) ds ++ "."%char :: drop (Z.to_nat p) ds
  end.

(** The format 'e'; [pad] writes at least two digits of exponent. *)
Definition format_e (pad : bool) (ds : bytes) (p : Z) : bytes :=
  match ds with
  | [] => ["0"%char]
  | d :: r =>
      let e := (p - 1)%Z in
      let es := bs (print_N (Z.to_N (Z.abs e))) in
      d :: (match r with [] => [] | _ => "."%char :: r end)
        ++ "e"%char :: (if (e <? 0)%Z then "-"%char else "+"%char)
        :: (if pad && (length es <? 2)%nat then "0"%char :: es else es)
  end.

Definition signed (x : f64) (b : bytes) : bytes := if signbit x then "-"%char :: b else b.

(** A float64 in encoding/json: 'e' below 1e-6 and from 1e21 on. *)
Definition json_float (x : f64) : bytes :=
  let '(ds, p) := shortest x in
  signed x (if (p <? -5)%Z || (21 <? p)%Z then format_e false ds p else format_f ds p).

(** A float64 under %v: 'g' with the shortest digits, 'e' below 1e-4 and from
    1e6 on. *)
Definition fmt_float (x : f64) : bytes :=
  let '(ds, p) := shortest x in
  signed x (if (p <? -3)%Z || (6 <? p)%Z then format_e true ds p else format_f ds p).

(** ** Decoding *)

(** json.Unmarshal into an [any]: [None] is a number out of range. *)
Fixpoint any_of (c : cst) : option any :=
  match c with
  | CScalar t =>
      if bool_decide (t = bs "null") then Some VNull
      else if bool_decide (t = bs "true") then Some (VBool true)
      else if bool_decide (t = bs "false") then Some (VBool false)
      else VFloat <$> ParseFloat (str t)
  | CString b => Some (VStr (str (jsonStringValue (string_token b))))
  | CEmpty a _ => Some (if a then VArr [] else VObj ∅)
  | CArray e es =>
      v ← any_of (e.1.2);
      vs ← mapM (λ e, any_of (e.1.2)) es;
      Some (VArr (v :: vs))
  | CObject m ms =>
      v ← any_of (m.1.2);
      vs ← mapM (λ m, pair (str (jsonStringValue (string_token (mb_name m)))) <$> any_of (m.1.2)) ms;
      Some (VObj (foldl (λ acc kv, <[kv.1 := kv.2]> acc) ∅ ((str (jsonStringValue (string_token (mb_name m))), v) :: vs)))
  end.

Definition UnmarshalAny (b : bytes) : option any :=
  match parse b with Some (_, c, _) => any_of c | None => None end.

(** ** Encoding *)

Definition print_Z (z : Z) : bytes := (if (z <? 0)%Z then ["-"%char] else []) ++ bs (print_N (Z.to_N (Z.abs z))).

Definition key_le (a b : string * cst) : Prop := String.leb a.1 b.1 = true.
#[global] Instance key_le_dec : RelDecision key_le := λ a b, decide (String.leb a.1 b.1 = true).

Definition mk_array (vs : list cst) : cst :=
  match vs with
  | [] => CEmpty true []
  | v :: vs => CArray ([], v, []) (map (λ v, ([], v, [])) vs)
  end.

Definition mk_member (kv : string * cst) : member := ([], (marshal_body (bs kv.1), [], []), kv.2, []).

Definition mk_map (kvs : list (string * cst)) : cst :=
  match map mk_member kvs with
  | [] => CEmpty false []
  | m :: ms => CObject m ms
  end.

(** The document json.Marshal writes for a value; NaN and the infinities,
    which no decoded value holds, are an error there. *)
Fixpoint tree_of (v : any) : cst :=
  match v with
  | VNull | VNilArr => CScalar (bs "null")
  | VBool b => CScalar (if b then bs "true" else bs "false")
  | VFloat f => CScalar (json_float f)
  | VInt z => CScalar (print_Z z)
  | VStr s => CString (marshal_body (bs s))
  | VArr l => mk_array (map tree_of l)
  | VObj m => mk_map (merge_sort key_le (map_fold (λ k v l, (k, tree_of v) :: l) [] m))
  end.

Definition MarshalAny (v : any) : bytes := text (tree_of v).

(** ** %v *)

Definition join (sep : string) (l : list string) : string := String.concat sep l.

Definition key_le_s (a b : string * string) : Prop := String.leb a.1 b.1 = true.
#[global] Instance key_le_s_dec : RelDecision key_le_s := λ a b, decide (String.leb a.1 b.1 = true).

Fixpoint fmt_v (v : any) : string :=
  match v with
  | VNull => "<nil>"
  | VBool b => if b then "true" else "false"
  | VFloat f => str (fmt_float f)
  | VInt z => str (print_Z z)
  | VStr s => s
  | VNilArr => "[]"
  | VArr l => "[" +:+ (join " " (map fmt_v l) +:+ "]")
  | VObj m =>
      let kvs := merge_sort key_le_s (map_fold (λ k v l, (k, fmt_v v) :: l) [] m) in
      "map[" +:+ (join " " (map (λ kv, kv.1 +:+ (":" +:+ kv.2)) kvs) +:+ "]")
  end.

(** ** Induction *)

Fixpoint any_size (v : any) : nat :=
  match v with
  | VArr l => S (foldr (λ v n, any_size v + n) 0 l)
  | VObj m => S (map_fold (λ _ v n, any_size v + n) 0 m)
  | _ => 0
  end.

Lemma size_lookup (f : any → nat) (m : gmap string any) k v : m !! k = Some v → f v ≤ map_fold (λ _ v n, f v + n) 0 m.
Proof.
  intros Hk. rewrite (map_fold_delete_L _ 0 k v m) by (done || lia). lia.
Qed.

Lemma any_ind' (P : any → Prop) : P VNull → (∀ b, P (VBool b)) → (∀ f, P (VFloat f)) → (∀ z, P (VInt z)) → (∀ s, P (VStr s)) → P VNilArr →
  (∀ l, Forall P l → P (VArr l)) → (∀ m, map_Forall (λ _ v, P v) m → P (VObj m)) → ∀ v, P v.
Proof.
  intros H1 H2 H3 H4 H5 H6 H7 H8 v. remember (any_size v) as n eqn:Hn. revert v Hn.
  induction n as [n IH] using lt_wf_ind. intros [|b|f|z|s| |l|m] ->; auto.
  - apply H7. rewrite Forall_forall. intros v Hv. apply (IH (any_size v)); [|done]. simpl. clear -Hv.
    induction l as [|w l IH]; [by apply not_elem_of_nil in Hv|]. apply elem_of_cons in Hv as [->|Hv]; simpl; [lia|]. specialize (IH Hv). lia.
  - apply H8. intros k v Hv. apply (IH (any_size v)); [|done]. simpl. apply (size_lookup any_size) in Hv. lia.
Qed.

(** ** The round trip *)

(** Valid UTF-8. *)
Definition utf8 (s : string) : bool := bool_decide (coerce (bs s) = bs s).

(** The shortest decimal reads back. *)
Definition float_ok (f : f64) : bool :=
  bool_decide (ParseFloat (str (json_float f)) = Some f)
  && (is_number (json_float f) && forallb (λ c, negb (delimiter c)) (json_float f)).

(** A value as json.Unmarshal leaves it. *)
Fixpoint plain (v : any) : bool :=
  match v with
  | VNull | VBool _ => true
  | VFloat f => float_ok f
  | VInt _ | VNilArr => false
  | VStr s => utf8 s
  | VArr l => forallb plain l
  | VObj m => map_fold (λ k v b, utf8 k && plain v && b) true m
  end.

Lemma plain_lookup m k v : plain (VObj m) = true → m !! k = Some v → utf8 k = true ∧ plain v = true.
Proof.
  simpl. intros Hp Hk. rewrite (map_fold_delete_L _ true k v m) in Hp; [|by intros; destruct (utf8 _), (utf8 _), (plain _), (plain _)|done].
  apply andb_true_iff in Hp as [[? ?]%andb_true_iff _]. done.
Qed.

Lemma str_bs s : str (bs s) = s.
Proof. apply String.string_of_list_ascii_of_string. Qed.
Lemma bs_str b : bs (str b) = b.
Proof. apply String.list_ascii_of_string_of_list_ascii. Qed.

Lemma decode_marshal s : utf8 s = true → str (jsonStringValue (string_token (marshal_body (bs s)))) = s.
Proof. intros H%bool_decide_eq_true. fold (Marshal (bs s)). by rewrite jsonStringValue_Marshal, H, str_bs. Qed.

Lemma map_fold_map {B} (f : string → any → B) (m : gmap string any) :
  map_fold (λ k v l, (k, f k v) :: l) [] m = map (λ kv, (kv.1, f kv.1 kv.2)) (map_to_list m).
Proof. rewrite map_fold_foldr. induction (map_to_list m) as [|[k v] l IH]; [done|]. simpl. by rewrite IH. Qed.

(** An object's members are its map's, in some order. *)
Lemma tree_members m : ∃ kvs : list (string * any), kvs ≡ₚ map_to_list m ∧
  tree_of (VObj m) = mk_map (map (λ kv, (kv.1, tree_of kv.2)) kvs).
Proof.
  simpl. rewrite (map_fold_map (λ _ v, tree_of v)).
  destruct (Permutation_map_inv _ _ (merge_sort_Permutation key_le (map (λ kv : string * any, (kv.1, tree_of kv.2)) (map_to_list m))))
    as (kvs & -> & Hp). by exists kvs.
Qed.

Lemma foldl_insert_any (l : list (string * any)) (m0 : gmap string any) : NoDup l.*1 →
  foldl (λ acc kv, <[kv.1 := kv.2]> acc) m0 l = list_to_map l ∪ m0.
Proof.
  revert m0. induction l as [|[k v] l IH]; intros m0; simpl; [by rewrite (left_id_L ∅ (∪))|].
  intros [Hk Hl]%NoDup_cons. rewrite IH by done. rewrite <- insert_union_l, <- insert_union_r; [done|]. by apply not_elem_of_list_to_map_1.
Qed.

Lemma mapM_map {A B C} (f : B → option C) (g : A → B) (l : list A) : mapM f (map g l) = mapM (λ x, f (g x)) l.
Proof. induction l as [|x l IH]; [done|]. simpl. by rewrite IH. Qed.

Lemma mapM_pure {A B} (f : A → option B) (g : A → B) (l : list A) : Forall (λ x, f x = Some (g x)) l → mapM f l = Some (map g l).
Proof. induction 1 as [|x l Hx _ IH]; [done|]. simpl. by rewrite Hx, IH. Qed.

Lemma decode_array (vs : list any) : Forall (λ v, any_of (tree_of v) = Some v) vs → any_of (mk_array (map tree_of vs)) = Some (VArr vs).
Proof.
  intros H. destruct vs as [|v vs]; [done|]. apply Forall_cons in H as [Hv Hvs]. simpl. rewrite Hv. simpl.
  rewrite map_map, mapM_map. simpl. rewrite (mapM_pure _ (λ v, v)) by done. simpl. by rewrite map_id.
Qed.

Lemma decode_map kvs : Forall (λ kv : string * any, utf8 kv.1 = true ∧ any_of (tree_of kv.2) = Some kv.2) kvs →
  any_of (mk_map (map (λ kv, (kv.1, tree_of kv.2)) kvs)) = Some (VObj (foldl (λ acc kv, <[kv.1 := kv.2]> acc) ∅ kvs)).
Proof.
  intros H. destruct kvs as [|[k v] kvs]; [done|]. apply Forall_cons in H as [[Hk Hv] Hvs]. simpl in *. rewrite Hv. simpl.
  rewrite map_map, mapM_map. simpl. rewrite (mapM_pure _ (λ kv, kv)).
  - simpl. rewrite map_id. unfold mb_name. simpl. by rewrite decode_marshal.
  - eapply List.Forall_impl; [|exact Hvs]. intros [k' v'] [Hk' Hv']. unfold mb_name. simpl in *. by rewrite Hv', decode_marshal.
Qed.

(** The decoder on an encoder's tree. *)
Lemma any_of_tree v : plain v = true → any_of (tree_of v) = Some v.
Proof.
  induction v as [|b|f|z|s| |l IH|m IH] using any_ind'; intros Hp; try done.
  - by destruct b.
  - simpl in *. apply andb_true_iff in Hp as [Hp%bool_decide_eq_true [Hn _]%andb_true_iff].
    rewrite !bool_decide_false; [by rewrite Hp|..]; intros E; rewrite E in Hn; by vm_compute in Hn.
  - simpl. by rewrite decode_marshal.
  - apply decode_array. simpl in Hp. rewrite Forall_forall in IH |- *. intros v Hv. apply IH; [done|].
    rewrite forallb_forall in Hp. by apply Hp, list_elem_of_In.
  - destruct (tree_members m) as (kvs & Hperm & ->). rewrite decode_map.
    + rewrite foldl_insert_any, (right_id_L ∅ (∪)) by (rewrite Hperm; apply NoDup_fst_map_to_list).
      do 2 f_equal. rewrite (list_to_map_proper _ (map_to_list m)), list_to_map_to_list; [done| |done]. rewrite Hperm. apply NoDup_fst_map_to_list.
    + rewrite Forall_forall. intros [k v] Hkv. rewrite Hperm in Hkv. apply elem_of_map_to_list in Hkv.
      destruct (plain_lookup _ _ _ Hp Hkv). split; [done|]. by apply (IH k v).
Qed.

(** ** The text is a document *)

(** Every float prints as a number that reads back. *)
Fixpoint floats_ok (v : any) : bool :=
  match v with
  | VFloat f => float_ok f
  | VArr l => forallb floats_ok l
  | VObj m => map_fold (λ _ v b, floats_ok v && b) true m
  | _ => true
  end.

Lemma floats_lookup m k v : floats_ok (VObj m) = true → m !! k = Some v → floats_ok v = true.
Proof.
  simpl. intros Hp Hk. rewrite (map_fold_delete_L _ true k v m) in Hp; [|by intros; destruct (floats_ok _), (floats_ok _)|done].
  by apply andb_true_iff in Hp as [? _].
Qed.

Lemma plain_floats v : plain v = true → floats_ok v = true.
Proof.
  induction v as [|b|f|z|s| |l IH|m IH] using any_ind'; try done; intros Hp.
  - simpl in *. apply forallb_forall. intros v Hv. rewrite Forall_forall in IH. rewrite forallb_forall in Hp. apply IH, Hp; [by apply list_elem_of_In|done].
  - assert (Hm : ∀ m', m' ⊆ m → floats_ok (VObj m') = true); [|by apply Hm].
    induction m' as [|k v m' Hk IHm] using map_ind; intros Hsub; [done|].
    assert (Hkv : m !! k = Some v) by (eapply lookup_weaken; [apply lookup_insert_eq|done]).
    cbn [floats_ok]. rewrite map_fold_insert_L; [|intros; rewrite !andb_assoc; f_equal; apply andb_comm|done].
    rewrite (IH k v Hkv) by (by eapply plain_lookup). simpl. apply IHm. etrans; [by apply insert_subseteq|done].
Qed.

Lemma nzhead_head d : match nzhead d with D0 _ => False | _ => True end.
Proof. by induction d. Qed.

Lemma to_uint_head n : N.to_uint n = D0 Nil ∨ match N.to_uint n with D0 _ | Nil => False | _ => True end.
Proof.
  assert (E : N.to_uint n = unorm (N.to_uint n)) by (by rewrite <- DecimalN.Unsigned.to_of, DecimalN.Unsigned.of_to).
  rewrite E. unfold unorm. pose proof (nzhead_head (N.to_uint n)). destruct (nzhead _); auto.
Qed.

Lemma digits_of_uint d : forallb is_digit (bs (NilEmpty.string_of_uint d)) = true.
Proof. induction d; simpl; try done; by rewrite IHd. Qed.

Lemma span_all f (l : bytes) : forallb f l = true → span f l = (l, []).
Proof. intros H. rewrite <- (List.app_nil_r l) at 1. by apply span_app. Qed.

Lemma digits_number d : d = D0 Nil ∨ match d with D0 _ | Nil => False | _ => True end →
  is_number (bs (NilEmpty.string_of_uint d)) = true ∧ is_number ("-"%char :: bs (NilEmpty.string_of_uint d)) = true.
Proof.
  intros [->|Hd]; [done|]. pose proof (digits_of_uint d) as Hs. destruct d; try done; simpl in Hs; unfold is_number; simpl;
  (rewrite (span_all is_digit (bs (NilEmpty.string_of_uint d)) Hs); done).
Qed.

Lemma digits_undelimited l : forallb is_digit l = true → forallb (λ c, negb (delimiter c)) l = true.
Proof.
  induction l as [|c l IH]; [done|]. simpl. intros [Hc Hl]%andb_true_iff. rewrite IH by done. rewrite andb_true_r.
  by destruct c as [[] [] [] [] [] [] [] []].
Qed.

Lemma print_Z_scalar z : is_scalar (print_Z z) = true ∧ forallb (λ c, negb (delimiter c)) (print_Z z) = true.
Proof.
  unfold print_Z, print_N. set (d := N.to_uint (Z.to_N (Z.abs z))).
  destruct (digits_number d (to_uint_head _)) as [H1 H2]. pose proof (digits_undelimited _ (digits_of_uint d)) as H3. unfold is_scalar.
  destruct (z <? 0)%Z; [change (["-"%char] ++ ?x) with ("-"%char :: x)|change ([] ++ ?x) with x]; rewrite ?H1, ?H2, orb_true_r; split; try done.
Qed.

Lemma wf_mk_array (vs : list cst) : Forall wf vs → wf (mk_array vs).
Proof.
  intros H. destruct vs as [|v vs]; [by constructor|]. apply Forall_cons in H as [Hv Hvs]. constructor; [by constructor|].
  apply List.Forall_map. eapply List.Forall_impl; [|exact Hvs]. intros x Hx. by constructor.
Qed.

Lemma wf_mk_map (kvs : list (string * cst)) : Forall (λ kv, wf kv.2) kvs → wf (mk_map kvs).
Proof.
  intros H. assert (Hm : Forall wf_member (map mk_member kvs)).
  { apply List.Forall_map. eapply List.Forall_impl; [|exact H]. intros kv Hx. constructor; try done. apply marshal_body_ok. }
  unfold mk_map. destruct (map mk_member kvs); [by constructor|]. apply Forall_cons in Hm as [? ?]. by constructor.
Qed.

Lemma tree_wf v : floats_ok v = true → wf (tree_of v).
Proof.
  induction v as [|b|f|z|s| |l IH|m IH] using any_ind'; intros Hp; try by constructor.
  - destruct b; by constructor.
  - simpl in *. apply andb_true_iff in Hp as [_ [Hn Hd]%andb_true_iff]. constructor; [|done]. unfold is_scalar. by rewrite Hn, orb_true_r.
  - constructor; apply print_Z_scalar.
  - constructor. apply marshal_body_ok.
  - apply wf_mk_array, List.Forall_map. simpl in Hp. rewrite Forall_forall in IH |- *. intros v Hv. apply IH; [done|].
    rewrite forallb_forall in Hp. by apply Hp, list_elem_of_In.
  - destruct (tree_members m) as (kvs & Hperm & ->). apply wf_mk_map, List.Forall_map. rewrite Forall_forall. intros [k v] Hkv.
    rewrite Hperm in Hkv. apply elem_of_map_to_list in Hkv. apply (IH k v Hkv). by eapply floats_lookup.
Qed.

Lemma Marshal_parse v : floats_ok v = true → (nesting (tree_of v) ≤ maxNestingDepth)%Z →
  parse (MarshalAny v) = Some ([], tree_of v, []).
Proof. intros H Hn. pose proof (parse_complete [] (tree_of v) [] eq_refl (tree_wf v H) eq_refl Hn) as Hp. by rewrite List.app_nil_r in Hp. Qed.

(** A decoded value written out reads back as itself. *)
Lemma Unmarshal_Marshal v : plain v = true → (nesting (tree_of v) ≤ maxNestingDepth)%Z → UnmarshalAny (MarshalAny v) = Some v.
Proof.
  intros Hp Hn. unfold UnmarshalAny. rewrite Marshal_parse by (done || by apply plain_floats). by apply any_of_tree.
Qed.
