(* ===== verification/RequestBody.v ===== *)
(** Reading and rewriting a request body: internal/gateway/requestbody.go.

    The Go code works on offsets into the body and indexes without checks,
    because the body has passed json.Valid.  Here an index out of range is
    [None], a panic; [None] also stands for a loop whose fuel, the length of
    the body, ran out.  The second half of the file shows neither happens on a
    valid body.  A span of -1 offsets is [None]. *)

From stdpp Require Import base list strings option.
From Stdlib Require Import ZArith Lia Ascii.
From S2P Require Import Prelude Json JsonString.

(** ** Skipping *)

Definition sub (b : bytes) (i j : nat) : bytes := take (j - i) (drop i b).

Fixpoint skip_space (l : bytes) (i : nat) : nat :=
  match l with
  | c :: l' => if json_space c then skip_space l' (S i) else i
  | [] => i
  end.

Definition skipJSONSpace (b : bytes) (i : nat) : nat := skip_space (drop i b) i.

(** The loop of skipJSONString at [j]: a backslash takes the next byte with
    it. *)
Fixpoint skip_string (l : bytes) (j : nat) : option nat :=
  match l with
  | [] => None
  | c :: l' =>
      if Ascii.eqb c backslash then
        match l' with [] => None | _ :: l'' => skip_string l'' (S (S j)) end
      else if Ascii.eqb c quote then Some (S j)
      else skip_string l' (S j)
  end.

Definition skipJSONString (b : bytes) (i : nat) : option nat := skip_string (drop (S i) b) (S i).

Fixpoint skip_container (fuel : nat) (b : bytes) (j : nat) (depth : Z) : option nat :=
  match fuel with
  | O => None
  | S fuel =>
      match b !! j with
      | None => None
      | Some c =>
          if Ascii.eqb c quote then
            match skipJSONString b j with Some e => skip_container fuel b e depth | None => None end
          else if Ascii.eqb c "{" || Ascii.eqb c "[" then skip_container fuel b (S j) (depth + 1)
          else if Ascii.eqb c "}" || Ascii.eqb c "]" then
            if (depth - 1 =? 0)%Z then Some (S j) else skip_container fuel b (S j) (depth - 1)
          else skip_container fuel b (S j) depth
      end
  end.

(** The bytes that end a number or a literal. *)
Definition ends_scalar (c : ascii) : bool :=
  Ascii.eqb c "," || Ascii.eqb c "}" || Ascii.eqb c "]" || json_space c.

Fixpoint skip_scalar (l : bytes) (j : nat) : nat :=
  match l with
  | [] => j
  | c :: l' => if ends_scalar c then j else skip_scalar l' (S j)
  end.

Definition skipJSONValue (b : bytes) (i : nat) : option nat :=
  match b !! i with
  | None => None
  | Some c =>
      if Ascii.eqb c quote then skipJSONString b i
      else if Ascii.eqb c "{" || Ascii.eqb c "[" then skip_container (length b) b i 0
      else Some (skip_scalar (drop i b) i)
  end.

(** ** Members *)

(** One turn of the member loops: the closing brace, or the spans of a
    member's name token and value. *)
Inductive turn :=
  | Closed (at_ : nat)
  | Member (key value : nat * nat).

Definition next_member (b : bytes) (i : nat) : option turn :=
  let i := skipJSONSpace b i in
  match b !! i with
  | None => None
  | Some c =>
      if Ascii.eqb c "}" then Some (Closed i)
      else
        let i := if Ascii.eqb c "," then skipJSONSpace b (S i) else i in
        match skipJSONString b i with
        | None => None
        | Some keyEnd =>
            let valueStart := skipJSONSpace b (S (skipJSONSpace b keyEnd)) in
            match skipJSONValue b valueStart with
            | None => None
            | Some valueEnd => Some (Member (i, keyEnd) (valueStart, valueEnd))
            end
        end
  end.

Definition slice (b : bytes) (s : nat * nat) : bytes := sub b s.1 s.2.

(** forEachJSONMember: [fn] folds over the members and says whether to go
    on. *)
Fixpoint forEachJSONMember_loop {A} (fuel : nat) (b : bytes) (i : nat) (fn : bytes → nat → nat → A → A * bool) (a : A)
    : option A :=
  match fuel with
  | O => None
  | S fuel =>
      match next_member b i with
      | None => None
      | Some (Closed _) => Some a
      | Some (Member key value) =>
          let '(a, go_on) := fn (jsonStringValue (slice b key)) value.1 value.2 a in
          if go_on then forEachJSONMember_loop fuel b value.2 fn a else Some a
      end
  end.

Definition forEachJSONMember {A} (b : bytes) (open : nat) (fn : bytes → nat → nat → A → A * bool) (a : A) : option A :=
  forEachJSONMember_loop (length b) b (S open) fn a.

(** The callback of repeatsJSONMember. *)
Definition count_member (field name : bytes) (valueStart valueEnd count : nat) : nat * bool :=
  let count := if jsonNameMatches name field then S count else count in (count, (count <? 2)%nat).

Definition repeatsJSONMember (b : bytes) (open : nat) (field : bytes) : option bool :=
  match forEachJSONMember b open (count_member field) 0 with
  | Some count => Some (1 <? count)%nat
  | None => None
  end.

(** ** The routing members *)

Definition routingNames : list bytes := [bs "model"; bs "stream"; bs "stream_options"].
Definition routingKeys : list bytes := map string_token routingNames.
Definition memberModel : nat := 0.
Definition memberStream : nat := 1.
Definition memberStreamOptions : nat := 2.

Record requestFields := RequestFields {
  keySpan : list (option (nat * nat));
  modelSpan : option (nat * nat);
  streamTrue : bool;
  optionsSpan : option (nat * nat);
  members : nat;
  closeBrace : option nat
}.

Definition noFields : requestFields := RequestFields [None; None; None] None false None 0 None.

Inductive scanError :=
  | duplicateFieldError (name : bytes)
  | errStreamNotBoolean
  | errNotObject.

(** The index of the first routing name the member's name matches. *)
Definition routing_index (name : bytes) : option nat := fst <$> list_find (λ r, jsonNameMatches name r = true) routingNames.

(** The body of the loop over the routing names, at the one that matches. *)
Definition record_member (b : bytes) (key value : nat * nat) (f : requestFields) (badStream : bool)
    : requestFields * bool + requestFields * scanError :=
  let f := RequestFields (keySpan f) (modelSpan f) (streamTrue f) (optionsSpan f) (S (members f)) (closeBrace f) in
  match routing_index (jsonStringValue (slice b key)) with
  | None => inl (f, badStream)
  | Some idx =>
      match keySpan f !! idx with
      | Some (Some _) => inr (f, duplicateFieldError (default [] (routingNames !! idx)))
      | _ =>
          let keys := <[idx := Some key]> (keySpan f) in
          let v := slice b value in
          if (idx =? memberModel)%nat then
            inl (RequestFields keys (Some value) (streamTrue f) (optionsSpan f) (members f) (closeBrace f), badStream)
          else if (idx =? memberStream)%nat then
            let st := bool_decide (v = bs "true") in
            inl (RequestFields keys (modelSpan f) st (optionsSpan f) (members f) (closeBrace f),
                 negb st && negb (bool_decide (v = bs "false")) && negb (bool_decide (v = bs "null")))
          else inl (RequestFields keys (modelSpan f) (streamTrue f) (Some value) (members f) (closeBrace f), badStream)
      end
  end.

Fixpoint scan_loop (fuel : nat) (b : bytes) (i : nat) (f : requestFields) (badStream : bool)
    : option (requestFields * option scanError) :=
  match fuel with
  | O => None
  | S fuel =>
      match next_member b i with
      | None => None
      | Some (Closed at_) =>
          let f := RequestFields (keySpan f) (modelSpan f) (streamTrue f) (optionsSpan f) (members f) (Some at_) in
          Some (f, if badStream then Some errStreamNotBoolean else None)
      | Some (Member key value) =>
          match record_member b key value f badStream with
          | inr (f, e) => Some (f, Some e)
          | inl (f, badStream) => scan_loop fuel b value.2 f badStream
          end
      end
  end.

Definition scanRequestFields (b : bytes) : option (requestFields * option scanError) :=
  let i := skipJSONSpace b 0 in
  match b !! i with
  | None => None
  | Some c =>
      if Ascii.eqb c "n" then Some (noFields, None)
      else if negb (Ascii.eqb c "{") then Some (noFields, Some errNotObject)
      else scan_loop (length b) b (S i) noFields false
  end.

(** requestFields.model. *)
Definition model (f : requestFields) (b : bytes) : option bytes :=
  match modelSpan f with
  | None => Some []
  | Some s =>
      match b !! s.1 with
      | None => None
      | Some c => if Ascii.eqb c quote then Some (jsonStringValue (slice b s)) else Some []
      end
  end.

(** ** Rewriting *)

Definition streamOptionsName : bytes := string_token (bs "stream_options") ++ [":"%char].
Definition includeUsage : bytes := string_token (bs "include_usage") ++ bs ":true".
Definition streamOptionsMember : bytes := streamOptionsName ++ "{"%char :: includeUsage ++ ["}"%char].

Fixpoint options_loop (fuel : nat) (b : bytes) (i : nat) (out : bytes) (kept : bool) : option bytes :=
  match fuel with
  | O => None
  | S fuel =>
      match next_member b i with
      | None => None
      | Some (Closed _) => Some (out ++ (if kept then [","%char] else []) ++ includeUsage ++ ["}"%char])
      | Some (Member key value) =>
          if jsonNameMatches (jsonStringValue (slice b key)) (bs "include_usage") then options_loop fuel b value.2 out kept
          else options_loop fuel b value.2 (out ++ (if kept then [","%char] else []) ++ sub b key.1 value.2) true
      end
  end.

Definition streamOptionsWithUsage (b : bytes) (optionsStart : nat) : option bytes :=
  match b !! optionsStart with
  | None => None
  | Some c =>
      if negb (Ascii.eqb c "{") then Some streamOptionsMember
      else options_loop (length b) b (S optionsStart) (streamOptionsName ++ ["{"%char]) false
  end.

Record bodyEdit := BodyEdit { start : nat; end_ : nat; text_ : bytes }.

(** The name edits, in the order of the routing names. *)
Definition name_edit (b : bytes) (f : requestFields) (forceUsage : bool) (idx : nat) : list bodyEdit :=
  if (idx =? memberStreamOptions)%nat && forceUsage && bool_decide (is_Some (optionsSpan f)) then []
  else match keySpan f !! idx, routingKeys !! idx with
       | Some (Some s), Some key => if bool_decide (slice b s = key) then [] else [BodyEdit s.1 s.2 key]
       | _, _ => []
       end.

Definition model_edit (f : requestFields) (model : bytes) : list bodyEdit :=
  match modelSpan f with Some s => [BodyEdit s.1 s.2 (Marshal model)] | None => [] end.

Definition options_edit (b : bytes) (f : requestFields) (forceUsage : bool) : option (list bodyEdit) :=
  if negb forceUsage then Some []
  else match optionsSpan f with
       | Some s =>
           match keySpan f !! memberStreamOptions, streamOptionsWithUsage b s.1 with
           | Some (Some k), Some text => Some [BodyEdit k.1 s.2 text]
           | _, _ => None
           end
       | None =>
           match closeBrace f with
           | Some c => Some [BodyEdit c c (if (members f =? 0)%nat then streamOptionsMember else ","%char :: streamOptionsMember)]
           | None => None
           end
       end.

(** The insertion sort by start: an edit moves left past the later ones. *)
Fixpoint insert_edit (e : bodyEdit) (sorted : list bodyEdit) : list bodyEdit :=
  match sorted with
  | [] => [e]
  | x :: l => if (start e <? start x)%nat then e :: x :: l else x :: insert_edit e l
  end.

Definition sort_edits (edits : list bodyEdit) : list bodyEdit := foldl (λ l e, insert_edit e l) [] edits.

(** A slice whose bounds are out of order panics. *)
Fixpoint apply_edits (b : bytes) (at_ : nat) (edits : list bodyEdit) : option bytes :=
  match edits with
  | [] => if (length b <? at_)%nat then None else Some (drop at_ b)
  | e :: edits =>
      if ((start e <? at_) || (length b <? start e))%nat then None
      else match apply_edits b (end_ e) edits with
           | Some rest => Some (sub b at_ (start e) ++ text_ e ++ rest)
           | None => None
           end
  end.

Definition rewriteRequestBody (b : bytes) (f : requestFields) (model : bytes) (forceUsage : bool) : option bytes :=
  match options_edit b f forceUsage with
  | None => None
  | Some oe =>
      let edits := concat (map (name_edit b f forceUsage) [memberModel; memberStream; memberStreamOptions])
                   ++ model_edit f model ++ oe in
      apply_edits b 0 (sort_edits edits)
  end.

(** needsStreamOptions, given the adapter's streamUsageOption. *)
Definition needsStreamOptions (streamUsageOption : bool) (f : requestFields) : bool := streamUsageOption && streamTrue f.

(** ** Cheap tests for a folded name *)

Definition has_prefix (p l : bytes) : bool := bool_decide (take (length p) l = p).

Definition long_s : bytes := ["197"%char; "191"%char].
Definition kelvin : bytes := ["226"%char; "132"%char; "170"%char].

Fixpoint folded_prefix (name data : bytes) (j : nat) : nat :=
  match name with
  | [] => j
  | c :: name =>
      let z := ascii_Z c in
      match data with
      | d :: data' =>
          if ((97 <=? z) && (z <=? 122) && (Z.lor (ascii_Z d) 32 =? z))%Z then folded_prefix name data' (S j)
          else if Ascii.eqb d c then folded_prefix name data' (S j)
          else if (z =? 115)%Z && has_prefix long_s data then folded_prefix name (drop 2 data) (j + 2)
          else if (z =? 107)%Z && has_prefix kelvin data then folded_prefix name (drop 3 data) (j + 3)
          else 0
      | [] => 0
      end
  end.

Definition foldedPrefixLen (data name : bytes) : nat := folded_prefix name data 0.

Fixpoint tails (l : bytes) : list bytes := match l with [] => [] | _ :: l' => l :: tails l' end.

Definition mayHoldFoldedName (data name : bytes) : bool :=
  existsb (has_prefix [backslash; "u"%char]) (tails data) || existsb (λ d, (0 <? foldedPrefixLen d name)%nat) (tails data).

(** The request body reader and rewriter are right on every valid body.

    A valid body is the text of a tree.  The skipping routines stop where the
    tree's tokens end, so the member loop visits exactly the tree's members;
    the rewritten body is the text of the rewritten tree. *)

From Stdlib Require Import Wf_nat.

(** ** Offsets *)

(** At offset [i], [b] goes on with [l] and then [r]. *)
Definition at_offset (b : bytes) (i : nat) (l : bytes) : Prop := drop i b = l ∧ i ≤ length b.

Lemma at_app b i l r : at_offset b i (l ++ r) → at_offset b (i + length l) r.
Proof.
  intros [H Hi]. assert (Hl : length b - i = length l + length r) by (by rewrite <- length_drop, H, length_app).
  split; [|lia]. by rewrite <- drop_drop, H, drop_app_length.
Qed.

Lemma at_cons b i c r : at_offset b i (c :: r) → at_offset b (S i) r.
Proof. intros H. replace (S i) with (i + length [c]) by (simpl; lia). by apply at_app. Qed.

Lemma at_lookup b i c r : at_offset b i (c :: r) → b !! i = Some c.
Proof. intros [H _]. pose proof (lookup_drop b i 0) as E. rewrite H, Nat.add_0_r in E. by symmetry. Qed.

Lemma at_sub b i l r : at_offset b i (l ++ r) → sub b i (i + length l) = l.
Proof. intros [H _]. unfold sub. rewrite H. replace (i + length l - i) with (length l) by lia. by rewrite take_app_length. Qed.

Lemma at_zero b : at_offset b 0 b.
Proof. split; [done|lia]. Qed.

Lemma at_length b i l : at_offset b i l → length b = i + length l.
Proof. intros [<- H]. rewrite length_drop. lia. Qed.

(** ** Skipping *)

Lemma skip_space_spec s r i : spaces s → stops json_space r → skip_space (s ++ r) i = i + length s.
Proof.
  revert i. unfold spaces. induction s as [|c s IH]; intros i; simpl.
  - intros _. destruct r as [|c r]; simpl; [lia|]. intros ->. lia.
  - intros [-> Hs]%andb_true_iff Hr. rewrite IH by done. lia.
Qed.

Lemma skipJSONSpace_at b i s r : at_offset b i (s ++ r) → spaces s → stops json_space r → skipJSONSpace b i = i + length s.
Proof. intros [H _] Hs Hr. unfold skipJSONSpace. rewrite H. by apply skip_space_spec. Qed.

Lemma skip_string_spec k r j : string_body_ok k = true → skip_string (k ++ quote :: r) j = Some (j + length k + 1).
Proof.
  revert j. induction k as [k IH] using (induction_ltof1 _ (@length ascii)). unfold ltof in IH. intros j.
  destruct k as [|c k]; [intros _; simpl; f_equal; lia|]. cbn [string_body_ok app skip_string].
  destruct (Ascii.eqb_spec c backslash) as [->|Hb].
  - destruct k as [|e k]; [done|]. intros He. cbn [app].
    assert (Hs : ∀ j, skip_string (k ++ quote :: r) j = Some (j + length k + 1)); [|rewrite Hs; f_equal; simpl; lia].
    clear j. intros j. destruct (Ascii.eqb e "u").
    + destruct k as [|h1 [|h2 [|h3 [|h4 k]]]]; try done. rewrite !andb_true_iff in He. destruct He as [[[[H1 H2] H3] H4] Hs].
      assert (Hhex : ∀ h, is_hex h = true → Ascii.eqb h quote = false ∧ Ascii.eqb h backslash = false).
      { intros h Hh. split; apply Ascii.eqb_neq; intros ->; by vm_compute in Hh. }
      destruct (Hhex h1 H1) as [E1 F1], (Hhex h2 H2) as [E2 F2], (Hhex h3 H3) as [E3 F3], (Hhex h4 H4) as [E4 F4].
      cbn [app skip_string]. rewrite E1, F1, E2, F2, E3, F3, E4, F4, IH by (simpl; done || lia). f_equal; simpl; lia.
    + apply andb_true_iff in He as [_ Hs]. apply IH; [simpl; lia|done].
  - intros [[Hq Hc]%andb_true_iff Hs]%andb_true_iff. apply negb_true_iff in Hq. rewrite Hq.
    rewrite IH by (simpl; done || lia). f_equal; simpl; lia.
Qed.

Lemma skipJSONString_at b i k r : at_offset b i (string_token k ++ r) → string_body_ok k = true →
  skipJSONString b i = Some (i + length (string_token k)).
Proof.
  intros H Hk. unfold string_token in H. cbn [app] in H. rewrite <- app_assoc in H. apply at_cons in H as [H _].
  unfold skipJSONString. rewrite H. simpl. rewrite skip_string_spec by done. unfold string_token. simpl.
  rewrite length_app. f_equal. simpl. lia.
Qed.

Lemma skip_container_mono k fuel b j d e : skip_container fuel b j d = Some e → skip_container (k + fuel) b j d = Some e.
Proof.
  revert k j d. induction fuel as [|fuel IH]; intros k j d; [done|]. rewrite Nat.add_succ_r. cbn [skip_container].
  destruct (b !! j) as [c|]; [|done]. destruct (Ascii.eqb c quote); [destruct (skipJSONString b j); [apply IH|done]|].
  destruct (_ || _); [apply IH|]. destruct (_ || _); [|apply IH]. destruct (_ =? _)%Z; [done|apply IH].
Qed.

(** Over the bytes [l] the container loop goes from depth [d] to [d'], in at
    most as many turns as bytes. *)
Definition passes (b l : bytes) (d d' : Z) : Prop := ∀ j r fuel e,
  at_offset b j (l ++ r) → skip_container fuel b (j + length l) d' = Some e → skip_container (length l + fuel) b j d = Some e.

Lemma passes_nil b d : passes b [] d d.
Proof. intros j r fuel e _. simpl. by rewrite Nat.add_0_r. Qed.

Lemma passes_app b l1 l2 d d1 d2 : passes b l1 d d1 → passes b l2 d1 d2 → passes b (l1 ++ l2) d d2.
Proof.
  intros H1 H2 j r fuel e Ha He. rewrite <- app_assoc in Ha. rewrite length_app, <- Nat.add_assoc.
  apply (H1 _ (l2 ++ r)); [done|]. apply (H2 _ r); [by apply at_app|]. by rewrite length_app, Nat.add_assoc in He.
Qed.

Definition dull (c : ascii) : bool :=
  negb (Ascii.eqb c quote || Ascii.eqb c "{" || Ascii.eqb c "[" || Ascii.eqb c "}" || Ascii.eqb c "]").

Lemma passes_dull b l d : forallb dull l = true → passes b l d d.
Proof.
  induction l as [|c l IH]; [intros _; apply passes_nil|]. simpl. intros [Hc Hl]%andb_true_iff j r fuel e Ha He.
  cbn [length Nat.add skip_container]. rewrite (at_lookup _ _ _ _ Ha).
  unfold dull in Hc. apply negb_true_iff in Hc. rewrite !orb_false_iff in Hc. destruct Hc as [[[[-> ->] ->] ->] ->]. simpl.
  apply (IH Hl _ r); [by apply (at_cons _ _ c)|]. by replace (S j + length l) with (j + length (c :: l)) by (simpl; lia).
Qed.

Lemma spaces_dull s : spaces s → forallb dull s = true.
Proof.
  unfold spaces. induction s as [|c s IH]; [done|]. simpl. intros [Hc Hs]%andb_true_iff. rewrite IH, andb_true_r by done.
  by destruct c as [[] [] [] [] [] [] [] []].
Qed.

Lemma scalar_dull t : forallb (λ c, negb (delimiter c)) t = true → forallb dull t = true.
Proof.
  induction t as [|c t IH]; [done|]. simpl. intros [Hc Hs]%andb_true_iff. rewrite IH, andb_true_r by done.
  by destruct c as [[] [] [] [] [] [] [] []].
Qed.

Lemma passes_string b k d : string_body_ok k = true → passes b (string_token k) d d.
Proof.
  intros Hk j r fuel e Ha He.
  replace (length (string_token k) + fuel) with ((length (string_token k) - 1) + S fuel) by (simpl; lia).
  apply skip_container_mono. cbn [skip_container]. rewrite (at_lookup b j quote ((k ++ [quote]) ++ r)) by exact Ha.
  rewrite Ascii.eqb_refl, (skipJSONString_at _ _ k r) by done. done.
Qed.

Lemma passes_open b c d : c = "{"%char ∨ c = "["%char → passes b [c] d (d + 1).
Proof.
  intros Hc j r fuel e Ha He. cbn [length Nat.add skip_container]. rewrite (at_lookup b j c r) by exact Ha.
  replace (S j) with (j + length [c]) by (simpl; lia). by destruct Hc as [-> | ->].
Qed.

Lemma passes_close b c d : c = "}"%char ∨ c = "]"%char → (d ≠ 1)%Z → passes b [c] d (d - 1).
Proof.
  intros Hc Hd j r fuel e Ha He. cbn [length Nat.add skip_container]. rewrite (at_lookup b j c r) by exact Ha.
  replace (S j) with (j + length [c]) by (simpl; lia). assert (E : (d - 1 =? 0)%Z = false) by (apply Z.eqb_neq; lia).
  destruct Hc as [-> | ->]; simpl; by rewrite E.
Qed.

Lemma passes_concat {A} b (f : A → bytes) (l : list A) d : Forall (λ x, passes b (f x) d d) l → passes b (concat (map f l)) d d.
Proof. induction 1 as [|x l Hx _ IH]; [apply passes_nil|]. simpl. by eapply passes_app. Qed.

(** The values directly inside a value. *)
Definition children (c : cst) : list cst :=
  match c with
  | CArray e es => map el_value (e :: es)
  | CObject m ms => map mb_value (m :: ms)
  | _ => []
  end.

Definition is_container (c : cst) : bool := match c with CScalar _ | CString _ => false | _ => true end.

Definition value_passes (b : bytes) (c : cst) : Prop := ∀ d, (1 ≤ d)%Z → passes b (text c) d d.

Lemma element_passes b e : wf_element e → value_passes b (el_value e) → value_passes b (el_value e) ∧
  ∀ d, (1 ≤ d)%Z → passes b (element_text e) d d.
Proof.
  intros [s1 c s2 H1 Hw H2] Hc. split; [done|]. intros d Hd. unfold element_text. cbn [fst snd].
  eapply passes_app; [apply passes_dull, spaces_dull, H1|]. eapply passes_app; [by apply Hc|].
  by apply passes_dull, spaces_dull.
Qed.

Lemma member_passes b m : wf_member m → value_passes b (mb_value m) → ∀ d, (1 ≤ d)%Z → passes b (member_text m) d d.
Proof.
  intros [s1 k s2 s3 c s4 H1 Hk H2 H3 Hw H4] Hc d Hd. unfold member_text. cbn [fst snd].
  eapply passes_app; [apply passes_dull, spaces_dull, H1|]. eapply passes_app; [by apply passes_string|].
  eapply passes_app; [apply passes_dull, spaces_dull, H2|].
  change (":"%char :: s3 ++ text c ++ s4) with ([":"%char] ++ s3 ++ text c ++ s4).
  eapply passes_app; [by apply passes_dull|]. eapply passes_app; [apply passes_dull, spaces_dull, H3|].
  eapply passes_app; [by apply Hc|]. by apply passes_dull, spaces_dull.
Qed.

Lemma comma_passes b l d : passes b l d d → passes b (","%char :: l) d d.
Proof. intros H. change (","%char :: l) with ([","%char] ++ l). eapply passes_app; [by apply passes_dull|done]. Qed.

Lemma container_shape b c : wf c → is_container c = true → Forall (value_passes b) (children c) →
  ∃ o i cl, text c = o :: i ++ [cl] ∧ (o = "{" ∨ o = "[")%char ∧ (cl = "}" ∨ cl = "]")%char ∧ ∀ d, (1 ≤ d)%Z → passes b i d d.
Proof.
  destruct 1 as [t|k|a sp Hsp|e es He Hes|m ms Hm Hms]; try done; intros _ Hch.
  - destruct a; eexists _, _, _; (split_and!; [reflexivity|auto|auto|]); intros d _; by apply passes_dull, spaces_dull.
  - exists "["%char, (element_text e ++ concat (map (λ e, ","%char :: element_text e) es)), "]"%char.
    split_and!; [rewrite text_array; unfold elements_text; by rewrite <- app_assoc|auto|auto|]. inversion Hch as [|?? H1 H2]; subst. intros d Hd.
    eapply passes_app; [by apply element_passes|]. apply passes_concat. rewrite Forall_map in H2. apply Forall_forall.
    intros x Hx. apply comma_passes. rewrite Forall_forall in Hes, H2. apply element_passes; auto.
  - exists "{"%char, (member_text m ++ concat (map (λ m, ","%char :: member_text m) ms)), "}"%char.
    split_and!; [rewrite text_object; unfold members_text; by rewrite <- app_assoc|auto|auto|]. inversion Hch as [|?? H1 H2]; subst. intros d Hd.
    eapply passes_app; [by apply member_passes|]. apply passes_concat. rewrite Forall_map in H2. apply Forall_forall.
    intros x Hx. apply comma_passes. rewrite Forall_forall in Hms, H2. apply member_passes; auto.
Qed.

Lemma shape_passes b o i cl : (o = "{" ∨ o = "[")%char → (cl = "}" ∨ cl = "]")%char → (∀ d, (1 ≤ d)%Z → passes b i d d) →
  ∀ d, (1 ≤ d)%Z → passes b (o :: i ++ [cl]) d d.
Proof.
  intros Ho Hcl Hi d Hd. change (o :: i ++ [cl]) with ([o] ++ i ++ [cl]).
  eapply passes_app; [by apply passes_open|]. eapply passes_app; [apply Hi; lia|].
  replace d with (d + 1 - 1)%Z at 2 by lia. apply passes_close; [done|lia].
Qed.

Lemma passes_value b c : wf c → value_passes b c.
Proof.
  assert (Hcont : ∀ c, wf c → is_container c = true → Forall (value_passes b) (children c) → value_passes b c).
  { intros c' Hw Hc Hch d Hd. destruct (container_shape b c' Hw Hc Hch) as (o & i & cl & -> & ? & ? & ?). by apply shape_passes. }
  induction c as [t|k|a sp|e es IHe IHes|m ms IHm IHms] using cst_ind'; intros Hw; inversion Hw; subst.
  - intros d _. by apply passes_dull, scalar_dull.
  - intros d _. by apply passes_string.
  - apply Hcont; [done|done|constructor].
  - apply Hcont; [done|done|]. simpl. constructor; [apply IHe; by destruct H1|]. apply Forall_map, Forall_forall.
    intros x Hx. rewrite Forall_forall in IHes, H2. apply IHes; [done|]. by destruct (H2 x Hx).
  - apply Hcont; [done|done|]. simpl. constructor; [apply IHm; by destruct H1|]. apply Forall_map, Forall_forall.
    intros x Hx. rewrite Forall_forall in IHms, H2. apply IHms; [done|]. by destruct (H2 x Hx).
Qed.

Lemma children_wf c : wf c → Forall wf (children c).
Proof.
  destruct 1 as [t|k|a sp Hsp|e es He Hes|m ms Hm Hms]; simpl; try constructor.
  - by destruct He.
  - apply Forall_map, Forall_forall. intros x Hx. rewrite Forall_forall in Hes. by destruct (Hes x Hx).
  - by destruct Hm.
  - apply Forall_map, Forall_forall. intros x Hx. rewrite Forall_forall in Hms. by destruct (Hms x Hx).
Qed.

(** A value is followed by a byte that would end a scalar, or by nothing. *)
Definition value_end (r : bytes) : Prop := match r with [] => True | c :: _ => ends_scalar c = true end.

Lemma value_end_app s r : spaces s → value_end r → value_end (s ++ r).
Proof.
  destruct s as [|c s]; [done|]. unfold spaces; simpl. intros [Hc _]%andb_true_iff _. unfold ends_scalar. by rewrite Hc, orb_true_r.
Qed.

Lemma skip_scalar_spec t r j : forallb (λ c, negb (delimiter c)) t = true → value_end r → skip_scalar (t ++ r) j = j + length t.
Proof.
  revert j. induction t as [|c t IH]; intros j; simpl.
  - intros _. destruct r as [|c r]; simpl; [lia|]. intros ->. lia.
  - intros [Hc Ht]%andb_true_iff Hr. assert (E : ends_scalar c = false) by (by destruct c as [[] [] [] [] [] [] [] []]).
    rewrite E, IH by done. lia.
Qed.

Lemma skipJSONValue_at b i c r : at_offset b i (text c ++ r) → wf c → value_end r → skipJSONValue b i = Some (i + length (text c)).
Proof.
  intros Ha Hw Hr. unfold skipJSONValue. destruct (is_container c) eqn:Hc.
  - destruct (container_shape b c Hw Hc) as (o & l & cl & Ht & Ho & Hcl & Hl).
    { eapply List.Forall_impl; [|by apply children_wf]. intros v Hv. by apply passes_value. }
    rewrite Ht in *. rewrite (at_lookup b i o ((l ++ [cl]) ++ r)) by exact Ha.
    assert (E : Ascii.eqb o quote = false ∧ Ascii.eqb o "{" || Ascii.eqb o "[" = true) by (by destruct Ho as [-> | ->]).
    destruct E as [-> ->].
    assert (Hlen : length b = (length b - (length ([o] ++ l) + 1)) + (length ([o] ++ l) + 1)).
    { apply at_length in Ha. revert Ha. simpl. rewrite !length_app. simpl. lia. }
    rewrite Hlen. apply skip_container_mono.
    assert (Hp : passes b ([o] ++ l) 0 1) by (eapply passes_app; [by apply (passes_open b o 0)|by apply Hl]).
    assert (Ha' : at_offset b i (([o] ++ l) ++ cl :: r)) by (cbn [app] in Ha |- *; rewrite <- app_assoc in Ha; exact Ha).
    apply (Hp i (cl :: r)); [done|]. pose proof (at_app _ _ _ _ Ha') as Hcl'. cbn [skip_container]. rewrite (at_lookup _ _ _ _ Hcl').
    replace (S (i + length ([o] ++ l))) with (i + length (o :: l ++ [cl])) by (simpl; rewrite !length_app; simpl; lia).
    by destruct Hcl as [-> | ->].
  - destruct Hw as [t Hs Hd|k Hk| | |]; try done.
    + destruct (text_first (CScalar t)) as (x & t' & Ht & Hx); [by constructor|]. simpl in Ht. subst t. simpl in Ha.
      rewrite (at_lookup _ _ _ _ Ha). simpl in Hd. apply andb_true_iff in Hd as [Hdx Hd].
      assert (E : Ascii.eqb x quote = false ∧ Ascii.eqb x "{" || Ascii.eqb x "[" = false) by (by destruct x as [[] [] [] [] [] [] [] []]).
      destruct E as [-> ->]. destruct Ha as [-> _]. f_equal. apply (skip_scalar_spec (x :: t')); [by simpl; rewrite Hdx|done].
    + simpl in Ha. rewrite (at_lookup b i quote ((k ++ [quote]) ++ r)) by exact Ha. rewrite Ascii.eqb_refl.
      by apply (skipJSONString_at _ _ k r).
Qed.

(** ** The member loop visits the members *)

Definition mb_lead (m : member) : bytes := m.1.1.1.
Definition mb_before_colon (m : member) : bytes := m.1.1.2.1.2.
Definition mb_after_colon (m : member) : bytes := m.1.1.2.2.
Definition mb_trail (m : member) : bytes := m.2.

(** The spans of a member's name token and value when the member starts at
    [o]. *)
Definition member_span (o : nat) (m : member) : (nat * nat) * (nat * nat) :=
  let ks := o + length (mb_lead m) in
  let ke := ks + length (string_token (mb_name m)) in
  let vs := ke + length (mb_before_colon m) + 1 + length (mb_after_colon m) in
  ((ks, ke), (vs, vs + length (text (mb_value m)))).

Fixpoint member_spans (o : nat) (ms : list member) : list ((nat * nat) * (nat * nat)) :=
  match ms with
  | [] => []
  | m :: ms => member_span o m :: member_spans (o + length (member_text m) + 1) ms
  end.

Lemma member_text_eq m : member_text m =
  mb_lead m ++ string_token (mb_name m) ++ mb_before_colon m ++ ":"%char :: mb_after_colon m ++ text (mb_value m) ++ mb_trail m.
Proof. done. Qed.

Lemma wf_member_inv m : wf_member m → spaces (mb_lead m) ∧ string_body_ok (mb_name m) = true ∧ spaces (mb_before_colon m) ∧
  spaces (mb_after_colon m) ∧ wf (mb_value m) ∧ spaces (mb_trail m).
Proof. by destruct 1. Qed.

(** A member without the space around it. *)
Definition strip (m : member) : member := ([], m.1.1.2, m.1.2, []).

(** The spans [s] of [b] are those of [m]. *)
Definition slices (b : bytes) (s : (nat * nat) * (nat * nat)) (m : member) : Prop :=
  slice b s.1 = string_token (mb_name m) ∧ slice b s.2 = text (mb_value m) ∧ sub b s.1.1 s.2.2 = member_text (strip m) ∧
  ∃ r, at_offset b s.2.1 (text (mb_value m) ++ r).

Lemma member_rest b i m r : wf_member m → value_end r →
  at_offset b i (string_token (mb_name m) ++ mb_before_colon m ++ ":"%char :: mb_after_colon m ++ text (mb_value m) ++ mb_trail m ++ r) →
  let s := member_span (i - length (mb_lead m)) m in
  length (mb_lead m) ≤ i →
  skipJSONString b i = Some s.1.2 ∧ skipJSONSpace b (S (skipJSONSpace b s.1.2)) = s.2.1 ∧ skipJSONValue b s.2.1 = Some s.2.2 ∧
  slices b s m.
Proof.
  intros Hm Hr Ha s Hi. destruct (wf_member_inv m Hm) as (H1 & Hk & H2 & H3 & Hw & H4).
  assert (Es : s.1.1 = i) by (subst s; simpl; lia). assert (Es2 : s.1.2 = i + length (string_token (mb_name m))) by (subst s; simpl; lia).
  pose proof (at_app _ _ _ _ Ha) as Ha2. rewrite <- Es2 in Ha2. pose proof (at_app _ _ _ _ Ha2) as Ha3. pose proof (at_cons _ _ _ _ Ha3) as Ha4.
  pose proof (at_app _ _ _ _ Ha4) as Ha5.
  assert (Ev : s.2.1 = S (s.1.2 + length (mb_before_colon m)) + length (mb_after_colon m)) by (subst s; simpl; lia). rewrite <- Ev in Ha5.
  assert (Ev2 : s.2.2 = s.2.1 + length (text (mb_value m))) by (subst s; done).
  unfold slices. split_and!.
  - rewrite Es2. by apply (skipJSONString_at _ _ _ _ Ha).
  - rewrite (skipJSONSpace_at _ _ _ _ Ha2), (skipJSONSpace_at _ _ _ _ Ha4), Ev by (done || by apply stops_value). done.
  - rewrite Ev2. apply (skipJSONValue_at _ _ _ _ Ha5); [done|by apply value_end_app].
  - unfold slice. rewrite Es, Es2. by apply (at_sub _ _ _ _ Ha).
  - unfold slice. rewrite Ev2. by apply (at_sub _ _ _ _ Ha5).
  - rewrite Es. replace s.2.2 with (i + length (member_text (strip m))) by
      (rewrite Ev2, Ev, Es2; unfold strip, member_text, mb_name, mb_value, mb_before_colon, mb_after_colon; cbn [fst snd app];
       rewrite !length_app; cbn [length]; rewrite !length_app; cbn [length]; lia).
    apply (at_sub _ _ _ (mb_trail m ++ r)). eapply (eq_ind _ (at_offset b i)); [exact Ha|]. unfold strip, member_text. flat.
  - by eexists.
Qed.

Lemma member_first b o m r : at_offset b o (member_text m ++ r) →
  at_offset b (o + length (mb_lead m))
    (string_token (mb_name m) ++ mb_before_colon m ++ ":"%char :: mb_after_colon m ++ text (mb_value m) ++ mb_trail m ++ r).
Proof. intros Ha. apply at_app. rewrite member_text_eq in Ha. revert Ha. repeat (rewrite <- app_assoc; cbn [app]). done. Qed.

(** A turn before which [lead] is left of the previous member: nothing, or
    space and a comma. *)
Definition between (lead : bytes) : Prop := lead = [] ∨ ∃ s, spaces s ∧ lead = s ++ [","%char].

Lemma next_member_at b p lead m r : between lead → wf_member m → value_end r → at_offset b p (lead ++ member_text m ++ r) →
  let s := member_span (p + length lead) m in
  next_member b p = Some (Member s.1 s.2) ∧ slices b s m.
Proof.
  intros Hl Hm Hr Ha s. pose proof (at_app _ _ _ _ Ha) as Ho. set (o := p + length lead) in *. pose proof (member_first _ _ _ _ Ho) as Hk.
  destruct (member_rest b (o + length (mb_lead m)) m r Hm Hr Hk ltac:(lia)) as (E1 & E2 & E3 & E4).
  replace (o + length (mb_lead m) - length (mb_lead m)) with o in * by lia. fold s in E1, E2, E3, E4. split; [|done].
  destruct (wf_member_inv m Hm) as (H1 & _). unfold next_member.
  assert (Hstart : ∃ c, b !! skipJSONSpace b p = Some c ∧ Ascii.eqb c "}" = false ∧
            (if Ascii.eqb c "," then skipJSONSpace b (S (skipJSONSpace b p)) else skipJSONSpace b p) = o + length (mb_lead m)).
  { rewrite member_text_eq in Ho. rewrite <- app_assoc in Ho. destruct Hl as [->|(sp & Hsp & ->)].
    - exists quote. subst o. simpl in *. rewrite Nat.add_0_r in *. rewrite (skipJSONSpace_at _ _ _ _ Ho) by done.
      split; [|done]. by apply (at_lookup _ _ _ _ Hk).
    - exists ","%char. rewrite <- app_assoc in Ha. rewrite (skipJSONSpace_at _ _ _ _ Ha) by done.
      apply at_app in Ha. split; [by apply (at_lookup _ _ _ _ Ha)|]. split; [done|]. cbn [Ascii.eqb].
      assert (Eo : S (p + length sp) = o) by (subst o; rewrite length_app; simpl; lia). rewrite Eo. by apply (skipJSONSpace_at _ _ _ _ Ho). }
  destruct Hstart as (c & -> & -> & ->). rewrite E1, E2, E3. destruct s as [[? ?] [? ?]] eqn:Es; simpl.
  do 3 f_equal. assert (s.1.1 = o + length (mb_lead m)) by done. rewrite Es in *. simpl in *. congruence.
Qed.

Lemma next_member_close b p s r : spaces s → at_offset b p (s ++ "}"%char :: r) → next_member b p = Some (Closed (p + length s)).
Proof.
  intros Hs Ha. unfold next_member. rewrite (skipJSONSpace_at _ _ _ _ Ha) by done. apply at_app in Ha. by rewrite (at_lookup _ _ _ _ Ha).
Qed.

(** The turns of a member loop from [p]: its members' spans, then the closing
    brace. *)
Inductive turns (b : bytes) : nat → list ((nat * nat) * (nat * nat)) → nat → Prop :=
  | turns_nil p c : next_member b p = Some (Closed c) → turns b p [] c
  | turns_cons p key value l c : next_member b p = Some (Member key value) → turns b value.2 l c → turns b p ((key, value) :: l) c.

Lemma member_span_end o m : (member_span o m).2.2 + length (mb_trail m) = o + length (member_text m).
Proof. rewrite member_text_eq. simpl. repeat (rewrite length_app; simpl). lia. Qed.

Lemma member_after b o m r : at_offset b o (member_text m ++ r) → at_offset b (member_span o m).2.2 (mb_trail m ++ r).
Proof.
  intros Ha%member_first. do 2 apply at_app in Ha. apply at_cons in Ha. do 2 apply at_app in Ha.
  eapply (eq_ind _ (λ x, at_offset b x _)); [exact Ha|]. simpl. lia.
Qed.

Lemma members_turns b p lead ms r : between lead → Forall wf_member ms → ms ≠ [] → at_offset b p (lead ++ members_text ms ++ r) →
  turns b p (member_spans (p + length lead) ms) (p + length lead + length (members_text ms) - 1) ∧
  Forall2 (slices b) (member_spans (p + length lead) ms) ms.
Proof.
  revert p lead. induction ms as [|m ms IH]; intros p lead Hl Hw Hne Ha; [done|]. inversion Hw as [|?? Hm Hms]; subst.
  set (o := p + length lead). cbn [member_spans]. rewrite (surjective_pairing (member_span o m)).
  assert (Htrail : spaces (mb_trail m)) by apply (wf_member_inv m Hm). pose proof (member_span_end o m) as He.
  destruct ms as [|m' ms].
  - assert (Ha' : at_offset b p (lead ++ member_text m ++ "}"%char :: r)) by (simpl in Ha; by rewrite <- !app_assoc in Ha).
    destruct (next_member_at b p lead m ("}"%char :: r) Hl Hm eq_refl Ha') as (E & S1). fold o in E, S1.
    split; [|constructor; [done|constructor]]. eapply turns_cons; [exact E|]. apply turns_nil.
    rewrite (next_member_close _ _ (mb_trail m) r Htrail); [|apply member_after; by apply at_app in Ha'].
    rewrite He. cbn [members_text map concat]. rewrite !length_app. cbn [length]. do 2 f_equal. lia.
  - rewrite members_text_cons, <- app_assoc in Ha. cbn [app] in Ha.
    destruct (next_member_at b p lead m (","%char :: members_text (m' :: ms) ++ r) Hl Hm eq_refl Ha) as (E & S1). fold o in E, S1.
    pose proof (at_app _ _ _ _ Ha) as Ho. fold o in Ho. apply member_after in Ho.
    destruct (IH (member_span o m).2.2 (mb_trail m ++ [","%char])) as [IH1 IH2]; [right; by exists (mb_trail m)|done|done|by rewrite <- app_assoc|].
    rewrite !length_app in IH1, IH2. cbn [length] in IH1, IH2. rewrite !Nat.add_assoc, He in IH1, IH2.
    split; [|by constructor]. eapply turns_cons; [exact E|]. eapply (eq_ind _ (turns b _ _)); [exact IH1|].
    rewrite members_text_cons, length_app. simpl. lia.
Qed.

(** The members of a value that is an object. *)
Definition object_members (c : cst) : option (list member) :=
  match c with
  | CObject m ms => Some (@cons member m ms)
  | CEmpty false _ => Some []
  | _ => None
  end.

Lemma object_members_wf c ms : wf c → object_members c = Some ms → Forall wf_member ms.
Proof. destruct 1 as [| |[]| |]; intros [= <-]; by constructor. Qed.

Lemma object_turns b i c r ms : at_offset b i (text c ++ r) → wf c → object_members c = Some ms →
  turns b (S i) (member_spans (S i) ms) (i + length (text c) - 1) ∧ Forall2 (slices b) (member_spans (S i) ms) ms.
Proof.
  intros Ha Hw Ho. destruct Hw as [| |[] sp Hsp| |m ms' Hm Hms]; try done; injection Ho as <-.
  - cbn [text app] in Ha. apply at_cons in Ha. rewrite <- app_assoc in Ha. split; [|constructor]. apply turns_nil.
    rewrite (next_member_close b (S i) sp r Hsp Ha). simpl. rewrite length_app. simpl. do 2 f_equal. lia.
  - rewrite text_object in Ha. cbn [app] in Ha. apply at_cons in Ha.
    destruct (members_turns b (S i) [] (m :: ms') r) as [H1 H2]; [by left|by constructor|done|done|].
    cbn [length] in H1, H2. rewrite Nat.add_0_r in H1, H2. split; [|done]. eapply (eq_ind _ (turns b _ _)); [exact H1|].
    rewrite text_object. simpl length. lia.
Qed.

(** ** What the scan finds *)

(** A member's name as the scan reads it, and the routing name it matches. *)
Definition mb_key (m : member) : bytes := jsonStringValue (string_token (mb_name m)).
Definition routing_of (m : member) : option nat := routing_index (mb_key m).

Definition spanned : Type := ((nat * nat) * (nat * nat)) * member.

Definition routed (idx : nat) (l : list spanned) : option spanned := find (λ x, bool_decide (routing_of x.2 = Some idx)) l.

Definition is_text (s : string) (m : member) : bool := bool_decide (text (mb_value m) = bs s).

Definition stream_bad (l : list spanned) : bool :=
  match routed memberStream l with
  | Some x => negb (is_text "true" x.2) && negb (is_text "false" x.2) && negb (is_text "null" x.2)
  | None => false
  end.

(** The fields of an object whose routing members are distinct. *)
Definition fields_of (l : list spanned) (close : option nat) : requestFields := {|
  keySpan := map (λ idx, (λ x : spanned, x.1.1) <$> routed idx l) [memberModel; memberStream; memberStreamOptions];
  modelSpan := (λ x : spanned, x.1.2) <$> routed memberModel l;
  streamTrue := match routed memberStream l with Some x => is_text "true" x.2 | None => false end;
  optionsSpan := (λ x : spanned, x.1.2) <$> routed memberStreamOptions l;
  members := length l;
  closeBrace := close
|}.

(** The first routing name met a second time. *)
Fixpoint first_dup (seen : list nat) (ms : list member) : option nat :=
  match ms with
  | [] => None
  | m :: ms =>
      match routing_of m with
      | Some idx => if bool_decide (idx ∈ seen) then Some idx else first_dup (idx :: seen) ms
      | None => first_dup seen ms
      end
  end.

Lemma routing_index_lt name idx : routing_index name = Some idx → idx < 3.
Proof.
  unfold routing_index. intros H. apply fmap_Some in H as ([i r] & E & H). simpl in H; subst.
  apply list_find_Some in E as (E & _). by apply lookup_lt_Some in E.
Qed.

Lemma routed_snoc idx l x : routed idx (l ++ [x]) =
  match routed idx l with Some y => Some y | None => if bool_decide (routing_of x.2 = Some idx) then Some x else None end.
Proof.
  unfold routed. induction l as [|y l IH]; [done|]. cbn [find app].
  destruct (bool_decide (routing_of y.2 = Some idx)); [done|apply IH].
Qed.

Definition same_set (seen : list nat) (l : list spanned) : Prop := ∀ idx, idx ∈ seen ↔ is_Some (routed idx l).

Lemma same_set_snoc seen l x idx : same_set seen l → routing_of x.2 = Some idx → same_set (idx :: seen) (l ++ [x]).
Proof.
  intros Hs Hx i. rewrite routed_snoc, elem_of_cons, (Hs i), Hx. split.
  - intros [-> |[y ->]]; [|by eexists]. destruct (routed idx l); [by eexists|]. rewrite bool_decide_true by done. by eexists.
  - destruct (routed i l); [intros _; right; by eexists|]. case_bool_decide; [intros _; left; congruence|by intros []].
Qed.

Lemma same_set_skip seen l x : same_set seen l → routing_of x.2 = None → same_set seen (l ++ [x]).
Proof.
  intros Hs Hx i. rewrite routed_snoc, (Hs i), Hx. destruct (routed i l); [done|]. by rewrite bool_decide_false.
Qed.

Lemma key_lookup l close idx : idx < 3 → keySpan (fields_of l close) !! idx = Some ((λ x : spanned, x.1.1) <$> routed idx l).
Proof. intros H. do 3 (destruct idx as [|idx]; [done|]). lia. Qed.

(** Reading one more member. *)
Lemma record_member_spec b l s m : slices b s m →
  record_member b s.1 s.2 (fields_of l None) (stream_bad l) =
  match routing_of m with
  | Some idx =>
      if bool_decide (is_Some (routed idx l))
      then inr (RequestFields (keySpan (fields_of l None)) (modelSpan (fields_of l None)) (streamTrue (fields_of l None))
                  (optionsSpan (fields_of l None)) (S (length l)) None, duplicateFieldError (default [] (routingNames !! idx)))
      else inl (fields_of (l ++ [(s, m)]) None, stream_bad (l ++ [(s, m)]))
  | None => inl (fields_of (l ++ [(s, m)]) None, stream_bad (l ++ [(s, m)]))
  end.
Proof.
  intros (Hk & Hv & _ & _). unfold record_member. rewrite Hk, Hv. fold (mb_key m). fold (routing_of m).
  assert (Hlen : length (l ++ [(s, m)]) = S (length l)) by (rewrite length_app; simpl; lia).
  destruct (routing_of m) as [idx|] eqn:Hr.
  - assert (Hlt := routing_index_lt _ _ Hr). cbn [keySpan]. rewrite key_lookup by done.
    destruct (routed idx l) as [y|] eqn:Hy; [done|].
    change (bool_decide (is_Some None)) with false. cbn match. unfold fields_of, stream_bad, memberModel, memberStream, memberStreamOptions.
    cbn [map]. rewrite Hlen, !routed_snoc. cbn [snd]. rewrite Hr.
    destruct idx as [|[|[|idx]]]; [| | |lia]; rewrite Hy; simpl; by destruct (routed 0 l), (routed 1 l), (routed 2 l).
  - unfold fields_of, stream_bad. cbn [map]. rewrite Hlen, !routed_snoc. cbn [snd]. rewrite Hr.
    rewrite !bool_decide_false by done. by destruct (routed _ l), (routed _ l), (routed _ l).
Qed.

Lemma scan_loop_spec b p spans close ms l seen fuel :
  turns b p spans close → Forall2 (slices b) spans ms → same_set seen l → length spans < fuel →
  match first_dup seen ms with
  | Some idx => ∃ f, scan_loop fuel b p (fields_of l None) (stream_bad l) =
                     Some (f, Some (duplicateFieldError (default [] (routingNames !! idx))))
  | None => let l' := l ++ zip spans ms in
            scan_loop fuel b p (fields_of l None) (stream_bad l) =
              Some (fields_of l' (Some close), if stream_bad l' then Some errStreamNotBoolean else None)
  end.
Proof.
  intros Ht. revert ms l seen fuel. induction Ht as [p close E|p key value spans close E Ht IH]; intros ms l seen fuel Hs Hseen Hf;
    inversion Hs as [|? m ? ms' Hm Hms]; subst; (destruct fuel as [|fuel]; [simpl in Hf; lia|]); cbn [scan_loop first_dup]; rewrite E.
  - simpl. by rewrite app_nil_r.
  - assert (Hrec := record_member_spec b l (key, value) m Hm). cbn [fst snd] in Hrec. rewrite Hrec. simpl in Hf.
    destruct (routing_of m) as [idx|] eqn:Hr.
    + rewrite (bool_decide_ext _ _ (Hseen idx)). case_bool_decide; [by eexists|].
      specialize (IH ms' (l ++ [((key, value), m)]) (idx :: seen) fuel Hms (same_set_snoc _ _ ((key, value), m) _ Hseen Hr) ltac:(lia)).
      destruct (first_dup (idx :: seen) ms'); [done|]. simpl. by rewrite <- app_assoc in IH.
    + specialize (IH ms' (l ++ [((key, value), m)]) seen fuel Hms (same_set_skip _ _ ((key, value), m) Hseen Hr) ltac:(lia)).
      destruct (first_dup seen ms'); [done|]. simpl. by rewrite <- app_assoc in IH.
Qed.

Lemma length_members ms : length ms ≤ length (members_text ms).
Proof.
  induction ms as [|m ms IH]; [done|]. destruct ms as [|m' ms]; [pose proof (members_text_length m []); simpl in *; lia|].
  rewrite members_text_cons, length_app. simpl in *. lia.
Qed.

Lemma length_spans o ms : length (member_spans o ms) = length ms.
Proof. revert o; induction ms as [|m ms IH]; intros o; [done|]. simpl. by rewrite IH. Qed.

Lemma object_members_length c ms : wf c → object_members c = Some ms → length ms < length (text c).
Proof.
  destruct 1 as [| |[] sp Hsp| |m ms' Hm Hms]; try done; intros [= <-]; [simpl; lia|].
  rewrite text_object. pose proof (length_members (m :: ms')). simpl in *. lia.
Qed.

(** The members of the object at [i] with their spans. *)
Definition spanned_members (i : nat) (ms : list member) : list spanned := zip (member_spans (S i) ms) ms.

Lemma object_first c ms : wf c → object_members c = Some ms → ∃ t, text c = "{"%char :: t.
Proof. destruct 1 as [| |[] sp Hsp| |m ms' Hm Hms]; try done; intros _; by eexists. Qed.

Lemma null_first t : is_scalar t = true → ∃ x t', t = x :: t' ∧ Ascii.eqb x "{" = false ∧ (Ascii.eqb x "n" = true ↔ t = bs "null").
Proof.
  unfold is_scalar. rewrite !orb_true_iff, !bool_decide_eq_true.
  intros [[[-> | ->]| ->]|H]; [by eexists _, _..|].
  destruct t as [|x t]; [done|]. exists x, t. split; [done|]. unfold is_number in H.
  destruct (Ascii.eqb_spec x "n") as [->|Hn]; [done|]. destruct (Ascii.eqb_spec x "{") as [->|]; [done|].
  split; [done|]. split; [done|]. by intros [= ->].
Qed.

(** What the scan of a valid body is, by its tree. *)
Lemma scan_spec b s1 c s2 : parse b = Some (s1, c, s2) →
  match object_members c with
  | None => scanRequestFields b = Some (noFields, if bool_decide (text c = bs "null") then None else Some errNotObject)
  | Some ms =>
      let l := spanned_members (length s1) ms in
      Forall2 (λ x m, x.2 = m ∧ slices b x.1 m) l ms ∧
      match first_dup [] ms with
      | Some idx => ∃ f, scanRequestFields b = Some (f, Some (duplicateFieldError (default [] (routingNames !! idx))))
      | None => scanRequestFields b = Some (fields_of l (Some (length s1 + length (text c) - 1)),
                                            if stream_bad l then Some errStreamNotBoolean else None)
      end
  end.
Proof.
  intros (Hb & H1 & Hw & H2)%parse_spec. pose proof (at_zero b) as H0. rewrite Hb in H0 at 2.
  pose proof (at_app _ _ _ _ H0) as Ha. simpl in Ha. unfold scanRequestFields.
  rewrite (skipJSONSpace_at _ _ _ _ H0) by (done || by apply stops_value). simpl.
  destruct (object_members c) as [ms|] eqn:Ho.
  - destruct (object_turns b _ c s2 ms Ha Hw Ho) as [Ht Hs]. split.
    { unfold spanned_members. clear -Hs. induction Hs; simpl; by constructor. }
    destruct (object_first c ms Hw Ho) as [t Hc]. rewrite (at_lookup b _ "{"%char (t ++ s2)) by (by rewrite Hc in Ha). cbn match.
    change (Ascii.eqb "{" "n") with false. change (negb (Ascii.eqb "{" "{")) with false. cbn match.
    assert (Hf : length (member_spans (S (length s1)) ms) < length b).
    { rewrite length_spans. apply at_length in Ha. rewrite length_app in Ha. pose proof (object_members_length c ms Hw Ho). lia. }
    assert (Hseen : same_set [] []) by (intros idx; split; [by intros ?%not_elem_of_nil|by intros []]).
    exact (scan_loop_spec b _ _ _ ms [] [] (length b) Ht Hs Hseen Hf).
  - assert (Hfirst : ∃ x t, text c = x :: t ∧ Ascii.eqb x "{" = false ∧ (Ascii.eqb x "n" = true ↔ text c = bs "null")).
    { destruct Hw as [t Hs _|k|[] sp|e es|]; try done; [by apply null_first|..]; by eexists _, _. }
    destruct Hfirst as (x & t & Ht & Hx & Hn). rewrite (at_lookup b _ x (t ++ s2)) by (by rewrite Ht in Ha). rewrite Hx.
    destruct (Ascii.eqb x "n"); [by rewrite bool_decide_true by by apply Hn|]. cbn [negb].
    rewrite bool_decide_false; [done|]. intros E. by apply Hn in E.
Qed.
