(* ===== verification/RequestClaims.v ===== *)
(** The rewritten body is the text of the rewritten tree.

    [rewrite_tree] says on the tree what rewriteRequestBody does to the bytes:
    the routing members get their exact names, the model its new value, and
    stream_options its usage flag.  Every other member, and every byte of
    space the rewrite does not own, stays. *)

From stdpp Require Import base list strings option sorting sets.
From Stdlib Require Import ZArith Lia Ascii.
From S2P Require Import Prelude Json JsonString RequestBody.

(** ** The rewrite on trees *)

Definition usage_member : member := ([], (bs "include_usage", [], []), CScalar (bs "true"), []).

Definition mk_object (ms : list member) : cst := match ms with [] => CEmpty false [] | m :: ms => CObject m ms end.

Definition is_include_usage (m : member) : bool := jsonNameMatches (mb_key m) (bs "include_usage").

(** The stream_options value with include_usage true, and nothing else of
    that name. *)
Definition options_tree (v : cst) : cst :=
  mk_object (map strip (filter (λ m, is_include_usage m = false) (default [] (object_members v))) ++ [usage_member]).

Definition rename (name : bytes) (m : member) : member := (mb_lead m, (name, mb_before_colon m, mb_after_colon m), mb_value m, mb_trail m).

Definition options_member (lead : bytes) (v : cst) (trail : bytes) : member :=
  (lead, (bs "stream_options", [], []), options_tree v, trail).

Definition rewrite_member (model : bytes) (forceUsage : bool) (m : member) : member :=
  match routing_of m with
  | Some 0 => (mb_lead m, (bs "model", mb_before_colon m, mb_after_colon m), CString (marshal_body model), mb_trail m)
  | Some 1 => rename (bs "stream") m
  | Some 2 => if forceUsage then options_member (mb_lead m) (mb_value m) (mb_trail m) else rename (bs "stream_options") m
  | _ => m
  end.

Definition has_options (ms : list member) : bool := existsb (λ m, bool_decide (routing_of m = Some memberStreamOptions)) ms.

(** The member appended when usage is forced and there is none; an empty
    object's space comes before it. *)
Definition appended (forceUsage : bool) (lead : bytes) (ms : list member) : list member :=
  if forceUsage && negb (has_options ms) then [options_member lead (CEmpty false []) []] else [].

Definition rewrite_tree (model : bytes) (forceUsage : bool) (c : cst) : cst :=
  match c with
  | CObject m ms => mk_object (map (rewrite_member model forceUsage) (m :: ms) ++ appended forceUsage [] (m :: ms))
  | CEmpty false sp => if forceUsage then mk_object (appended true sp []) else c
  | _ => c
  end.

(** ** The options loop *)

Lemma text_mk_object ms : ms ≠ [] → text (mk_object ms) = "{"%char :: members_text ms.
Proof. destruct ms; [done|]. intros _. apply text_object. Qed.

Lemma includeUsage_text : includeUsage ++ ["}"%char] = members_text [usage_member].
Proof. done. Qed.

Lemma members_text_cons' m ms : ms ≠ [] → members_text (m :: ms) = member_text m ++ ","%char :: members_text ms.
Proof. destruct ms; [done|]. intros _. apply members_text_cons. Qed.

Lemma options_loop_spec b p spans close ms fuel out kept :
  turns b p spans close → Forall2 (slices b) spans ms → length spans < fuel →
  options_loop fuel b p out kept =
  Some (out ++ (if kept then [","%char] else []) ++
        members_text (map strip (filter (λ m, is_include_usage m = false) ms) ++ [usage_member])).
Proof.
  intros Ht. revert ms fuel out kept. induction Ht as [p close E|p key value spans close E Ht IH]; intros ms fuel out kept Hs Hf;
    inversion Hs as [|? m ? ms' Hm Hms]; subst; (destruct fuel as [|fuel]; [simpl in Hf; lia|]); cbn [options_loop]; rewrite E.
  - by rewrite includeUsage_text.
  - destruct Hm as (Hk & _ & Hsub & _). cbn [fst snd] in Hk, Hsub. rewrite Hk. fold (mb_key m). fold (is_include_usage m). simpl in Hf.
    rewrite filter_cons. destruct (is_include_usage m) eqn:Hu.
    + rewrite (IH ms') by (done || lia). done.
    + rewrite (IH ms') by (done || lia). rewrite decide_True by done. cbn [map app].
      rewrite members_text_cons' by (by destruct (map _ _)). rewrite Hsub, <- !app_assoc. done.
Qed.

Lemma streamOptionsWithUsage_at b i v r : at_offset b i (text v ++ r) → wf v →
  streamOptionsWithUsage b i = Some (streamOptionsName ++ text (options_tree v)).
Proof.
  intros Ha Hw. unfold streamOptionsWithUsage. destruct (text_first v Hw) as (x & t & Ht & Hx).
  rewrite (at_lookup b i x (t ++ r)) by (by rewrite Ht in Ha). destruct (object_members v) as [ms|] eqn:Ho.
  - destruct (object_first v ms Hw Ho) as [t' Ht']. rewrite Ht' in Ht. injection Ht as <- <-. cbn [Ascii.eqb negb].
    destruct (object_turns b i v r ms Ha Hw Ho) as [Hturns Hs].
    change (negb (Ascii.eqb "{" "{")) with false. cbn match.
    rewrite (options_loop_spec b _ _ _ ms _ _ _ Hturns Hs).
    + unfold options_tree. rewrite Ho. cbn [default]. rewrite text_mk_object by (by destruct (map _ _)). by rewrite <- app_assoc.
    + rewrite length_spans. apply at_length in Ha. rewrite length_app in Ha. pose proof (object_members_length v ms Hw Ho). lia.
  - assert (Hne : Ascii.eqb x "{" = false).
    { destruct Hw as [t' Hs _|k|[] sp|e es|]; try done; simpl in Ht; [|by injection Ht as <- <-..].
      subst. destruct (null_first _ Hs) as (? & ? & [= <- <-] & ? & _). done. }
    rewrite Hne. unfold options_tree. rewrite Ho. done.
Qed.

(** ** Applying edits in the order of the document *)

(** From any offset up to [o], the edits copy up to [o] and then give [x]. *)
Definition gives (b : bytes) (o : nat) (edits : list bodyEdit) (x : bytes) : Prop :=
  o ≤ length b ∧ ∀ at_, at_ ≤ o → apply_edits b at_ edits = Some (sub b at_ o ++ x).

Lemma sub_split b i j k : i ≤ j → j ≤ k → sub b i k = sub b i j ++ sub b j k.
Proof.
  intros H1 H2. unfold sub. replace (k - i) with ((j - i) + (k - j)) by lia.
  replace (drop j b) with (drop (j - i) (drop i b)) by (rewrite drop_drop; f_equal; lia). by rewrite take_take_drop.
Qed.

Lemma gives_copy b o l r edits x : at_offset b o (l ++ r) → gives b (o + length l) edits x → gives b o edits (l ++ x).
Proof.
  intros Ha [Hlen H]. split; [lia|]. intros at_ Hat. rewrite H by lia. f_equal.
  rewrite (sub_split b at_ o) by lia. by rewrite (at_sub _ _ _ _ Ha), <- app_assoc.
Qed.

Lemma gives_edit b o l r t edits x : at_offset b o (l ++ r) → gives b (o + length l) edits x →
  gives b o (BodyEdit o (o + length l) t :: edits) (t ++ x).
Proof.
  intros Ha [Hlen H]. split; [lia|]. intros at_ Hat. cbn [apply_edits start end_ text_].
  destruct (Nat.ltb_spec o at_); [lia|]. destruct (Nat.ltb_spec (length b) o); [lia|]. cbn [orb].
  rewrite H by lia. unfold sub at 2. by rewrite Nat.sub_diag.
Qed.

Lemma gives_end b o r : at_offset b o r → gives b o [] r.
Proof.
  intros [H Hlen]. split; [done|]. intros at_ Hat. cbn [apply_edits]. destruct (Nat.ltb_spec (length b) at_); [lia|].
  f_equal. unfold sub. rewrite <- H. replace (drop o b) with (drop (o - at_) (drop at_ b)) by (rewrite drop_drop; f_equal; lia).
  by rewrite take_drop.
Qed.

(** The edits of one member, in the order of the document. *)
Definition member_edits (model : bytes) (forceUsage : bool) (x : spanned) : list bodyEdit :=
  let '((k, v), m) := x in
  let name n := if bool_decide (string_token (mb_name m) = string_token n) then [] else [BodyEdit k.1 k.2 (string_token n)] in
  match routing_of m with
  | Some 0 => name (bs "model") ++ [BodyEdit v.1 v.2 (Marshal model)]
  | Some 1 => name (bs "stream")
  | Some 2 => if forceUsage then [BodyEdit k.1 v.2 (streamOptionsName ++ text (options_tree (mb_value m)))] else name (bs "stream_options")
  | _ => []
  end.

Lemma member_name_gives b o m n r edits x : at_offset b o (string_token (mb_name m) ++ r) →
  gives b (o + length (string_token (mb_name m))) edits x →
  gives b o ((if bool_decide (string_token (mb_name m) = string_token n) then []
              else [BodyEdit o (o + length (string_token (mb_name m))) (string_token n)]) ++ edits) (string_token n ++ x).
Proof.
  intros Ha Hg. case_bool_decide as E; cbn [app]; [rewrite <- E; by eapply gives_copy|by eapply gives_edit].
Qed.

Lemma member_gives b o m r model force edits x : wf_member m → at_offset b o (member_text m ++ r) →
  gives b (o + length (member_text m)) edits x →
  gives b o (member_edits model force (member_span o m, m) ++ edits) (member_text (rewrite_member model force m) ++ x).
Proof.
  intros Hm Ha Hg. pose proof (member_first _ _ _ _ Ha) as Hk. set (ks := o + length (mb_lead m)) in Hk.
  pose proof (at_app _ _ _ _ Hk) as H2. set (ke := ks + length (string_token (mb_name m))) in H2.
  pose proof (at_app _ _ _ _ H2) as H3. pose proof (at_cons _ _ _ _ H3) as H4. pose proof (at_app _ _ _ _ H4) as H5.
  set (vs := S (ke + length (mb_before_colon m)) + length (mb_after_colon m)) in H5.
  pose proof (at_app _ _ _ _ H5) as H6. set (ve := vs + length (text (mb_value m))) in H6.
  assert (Hspan : member_span o m = ((ks, ke), (vs, ve))).
  { unfold member_span, ve, vs, ke, ks. repeat f_equal; lia. }
  assert (Hend : gives b ve edits (mb_trail m ++ x)).
  { eapply gives_copy; [exact H6|]. pose proof (member_span_end o m) as He. rewrite Hspan in He. cbn [fst snd] in He. by rewrite He. }
  assert (Hlead : ∀ E y, gives b ks E y → gives b o E (mb_lead m ++ y)).
  { intros E y Hy. eapply gives_copy; [|exact Hy]. rewrite member_text_eq, <- app_assoc in Ha. exact Ha. }
  assert (Hmid : ∀ E y, gives b vs E y → gives b ke E (mb_before_colon m ++ ":"%char :: mb_after_colon m ++ y)).
  { intros E y Hy. eapply gives_copy; [exact H2|].
    change (":"%char :: mb_after_colon m ++ y) with ([":"%char] ++ mb_after_colon m ++ y). eapply gives_copy; [exact H3|].
    replace (ke + length (mb_before_colon m) + length [":"%char]) with (S (ke + length (mb_before_colon m))) by (simpl; lia).
    by eapply gives_copy. }
  assert (Hval : gives b vs edits (text (mb_value m) ++ mb_trail m ++ x)) by (by eapply gives_copy).
  assert (Hrename : ∀ n, gives b o ((if bool_decide (string_token (mb_name m) = string_token n) then []
              else [BodyEdit ks ke (string_token n)]) ++ edits) (member_text (rename n m) ++ x)).
  { intros n. assert (E : member_text (rename n m) ++ x = mb_lead m ++ string_token n ++ mb_before_colon m ++ ":"%char ::
      mb_after_colon m ++ text (mb_value m) ++ mb_trail m ++ x) by (unfold rename, member_text; flat).
    rewrite E. apply Hlead. eapply member_name_gives; [exact Hk|]. by apply Hmid. }
  assert (Hsame : gives b o ([] ++ edits) (member_text m ++ x)).
  { rewrite member_text_eq. repeat (rewrite <- app_assoc; cbn [app]). apply Hlead. eapply gives_copy; [exact Hk|]. by apply Hmid. }
  rewrite Hspan. unfold member_edits, rewrite_member. cbn [fst snd].
  destruct (routing_of m) as [[|[|[|idx]]]|] eqn:Er.
  - set (m' := (mb_lead m, (bs "model", mb_before_colon m, mb_after_colon m), CString (marshal_body model), mb_trail m) : member).
    assert (E : member_text m' ++ x = mb_lead m ++ string_token (bs "model") ++ mb_before_colon m ++ ":"%char ::
      mb_after_colon m ++ Marshal model ++ mb_trail m ++ x) by (unfold m', member_text, Marshal; cbn [text fst snd]; flat).
    rewrite E, <- app_assoc. apply Hlead. eapply member_name_gives; [exact Hk|]. apply Hmid. cbn [app]. by eapply gives_edit.
  - apply Hrename.
  - destruct force; [|apply Hrename]. cbn [app].
    assert (E : member_text (options_member (mb_lead m) (mb_value m) (mb_trail m)) ++ x =
      mb_lead m ++ (streamOptionsName ++ text (options_tree (mb_value m))) ++ mb_trail m ++ x)
      by (unfold options_member, member_text, streamOptionsName; flat).
    rewrite E. apply Hlead.
    set (tok := string_token (mb_name m) ++ mb_before_colon m ++ ":"%char :: mb_after_colon m ++ text (mb_value m)).
    assert (Htok : ve = ks + length tok) by (unfold tok, ve, vs, ke; rewrite !length_app; simpl; rewrite !length_app; lia).
    rewrite Htok. apply (gives_edit b ks tok (mb_trail m ++ r)); [|by rewrite <- Htok].
    eapply (eq_ind _ (at_offset b ks)); [exact Hk|]. unfold tok. flat.
  - apply Hsame.
  - apply Hsame.
Qed.

(** The members without the closing brace. *)
Definition members_inner (ms : list member) : bytes :=
  match ms with [] => [] | m :: ms => member_text m ++ concat (map (λ m, ","%char :: member_text m) ms) end.

Lemma members_text_inner ms : ms ≠ [] → members_text ms = members_inner ms ++ ["}"%char].
Proof. destruct ms; [done|]. intros _. simpl. by rewrite <- app_assoc. Qed.

Lemma members_inner_cons m ms : ms ≠ [] → members_inner (m :: ms) = member_text m ++ ","%char :: members_inner ms.
Proof. destruct ms; [done|]. done. Qed.

Lemma members_inner_snoc ms m : ms ≠ [] → members_inner (ms ++ [m]) = members_inner ms ++ ","%char :: member_text m.
Proof.
  induction ms as [|m1 ms IH]; [done|]. intros _. destruct ms as [|m2 ms]; [simpl; by rewrite !app_nil_r|].
  cbn [app] in *. rewrite (members_inner_cons m1), (members_inner_cons m1), IH by done. by rewrite <- app_assoc.
Qed.

Definition all_edits (model : bytes) (forceUsage : bool) (l : list spanned) : list bodyEdit := flat_map (member_edits model forceUsage) l.

Lemma members_gives b o ms r model force edits x : Forall wf_member ms → ms ≠ [] → at_offset b o (members_text ms ++ r) →
  gives b (o + length (members_inner ms)) edits x →
  gives b o (all_edits model force (zip (member_spans o ms) ms) ++ edits) (members_inner (map (rewrite_member model force) ms) ++ x).
Proof.
  intros Hw. revert o. induction Hw as [|m ms Hm Hms IH]; intros o Hne Ha Hg; [done|]. cbn [member_spans zip zip_with all_edits flat_map].
  destruct ms as [|m' ms].
  - cbn [members_inner map concat app] in *. rewrite app_nil_r in *. cbn [zip zip_with flat_map]. rewrite app_nil_r.
    apply (member_gives b o m ("}"%char :: r)); [done| |done]. cbn [members_text map concat app] in Ha. by rewrite <- app_assoc in Ha.
  - rewrite members_text_cons in Ha. rewrite members_inner_cons in Hg by done. cbn [map]. rewrite members_inner_cons by done.
    rewrite <- !app_assoc in *. cbn [app] in *. apply (member_gives b o m (","%char :: members_text (m' :: ms) ++ r)); [done|done|].
    pose proof (at_app _ _ _ _ Ha) as Hc. change (","%char :: members_inner (map (rewrite_member model force) (m' :: ms)) ++ x)
      with ([","%char] ++ members_inner (map (rewrite_member model force) (m' :: ms)) ++ x).
    eapply (gives_copy _ _ [","%char]); [exact Hc|]. cbn [length]. apply IH; [done| |].
    + replace (o + length (member_text m) + 1) with (S (o + length (member_text m))) by lia. by apply at_cons in Hc.
    + rewrite length_app in Hg. cbn [length] in Hg.
      eapply (eq_ind _ (λ z, gives b z _ _)); [exact Hg|]. lia.
Qed.

(** The edit that appends the member, when there is one. *)
Definition append_edit (forceUsage : bool) (ms : list member) (close : nat) : list bodyEdit :=
  if forceUsage && negb (has_options ms)
  then [BodyEdit close close (if (length ms =? 0)%nat then streamOptionsMember else ","%char :: streamOptionsMember)] else [].

Definition doc_edits (model : bytes) (forceUsage : bool) (i : nat) (ms : list member) (close : nat) : list bodyEdit :=
  all_edits model forceUsage (spanned_members i ms) ++ append_edit forceUsage ms close.

Lemma streamOptionsMember_text lead : lead ++ streamOptionsMember = member_text (options_member lead (CEmpty false []) []).
Proof. unfold options_member, member_text. cbn [fst snd]. f_equal. Qed.

Lemma gives_append b o r t : at_offset b o r → gives b o [BodyEdit o o t] (t ++ r).
Proof.
  intros Ha. replace (BodyEdit o o t) with (BodyEdit o (o + length ([] : bytes)) t) by (simpl; f_equal; lia).
  apply (gives_edit b o [] r); [done|]. simpl. rewrite Nat.add_0_r. by apply gives_end.
Qed.

Lemma empty_gives b i sp s2 force : at_offset b i (text (CEmpty false sp) ++ s2) →
  gives b i (append_edit force [] (i + length (text (CEmpty false sp)) - 1)) (text (rewrite_tree [] force (CEmpty false sp)) ++ s2).
Proof.
  intros Ha. unfold append_edit, rewrite_tree, appended. cbn [has_options existsb negb]. rewrite andb_true_r.
  destruct force; [|by apply gives_end]. cbn [text app] in Ha. rewrite <- app_assoc in Ha.
  change ("{"%char :: sp ++ ["}"%char] ++ s2) with (("{"%char :: sp) ++ "}"%char :: s2) in Ha. pose proof (at_app _ _ _ _ Ha) as Hc.
  change (length [] =? 0)%nat with true. cbn match. cbn [andb negb]. rewrite text_mk_object by done.
  cbn [members_text map concat app]. rewrite <- streamOptionsMember_text, <- !app_assoc.
  change ("{"%char :: sp ++ streamOptionsMember ++ ["}"%char] ++ s2) with (("{"%char :: sp) ++ streamOptionsMember ++ "}"%char :: s2).
  eapply gives_copy; [exact Ha|]. replace (i + length (text (CEmpty false sp)) - 1) with (i + length ("{"%char :: sp)); [by apply gives_append|].
  simpl. rewrite length_app. simpl. lia.
Qed.

Lemma object_gives b i (m : member) (ms : list member) s2 model force : at_offset b i (text (CObject m ms) ++ s2) → Forall wf_member (m :: ms) →
  gives b i (doc_edits model force i (m :: ms) (i + length (text (CObject m ms)) - 1)) (text (rewrite_tree model force (CObject m ms)) ++ s2).
Proof.
  intros Ha Hw. rewrite text_object in *. cbn [app] in Ha. pose proof (at_cons _ _ _ _ Ha) as Hi.
  assert (Hc : at_offset b (S i + length (members_inner (m :: ms))) ("}"%char :: s2)).
  { apply at_app. rewrite members_text_inner, <- app_assoc in Hi by done. exact Hi. }
  replace (i + length ("{"%char :: members_text (m :: ms)) - 1) with (S i + length (members_inner (m :: ms)))
    by (rewrite members_text_inner by done; cbn [length]; rewrite length_app; cbn [length]; lia).
  set (ms' := map (rewrite_member model force) (m :: ms)).
  assert (E : text (rewrite_tree model force (CObject m ms)) ++ s2 =
    ["{"%char] ++ members_inner (ms' ++ appended force [] (m :: ms)) ++ "}"%char :: s2).
  { unfold rewrite_tree. fold ms'. rewrite text_mk_object, members_text_inner by done. cbn [app]. by rewrite <- app_assoc. }
  rewrite E. eapply (gives_copy _ _ ["{"%char]); [exact Ha|]. replace (i + length ["{"%char]) with (S i) by (simpl; lia).
  unfold doc_edits, append_edit, appended. destruct (force && negb (has_options (m :: ms))).
  - rewrite members_inner_snoc, <- (streamOptionsMember_text []), <- app_assoc by done.
    apply (members_gives b (S i) (m :: ms) s2); [done|done|done|]. apply (gives_append b _ _ (","%char :: streamOptionsMember) Hc).
  - rewrite !app_nil_r, <- (app_nil_r (all_edits _ _ _)).
    apply (members_gives b (S i) (m :: ms) s2); [done|done|done|]. by apply gives_end.
Qed.

Lemma tree_gives b i c s2 ms model force : at_offset b i (text c ++ s2) → wf c → object_members c = Some ms →
  gives b i (doc_edits model force i ms (i + length (text c) - 1)) (text (rewrite_tree model force c) ++ s2).
Proof.
  intros Ha Hw Ho. destruct Hw as [| |[] sp Hsp| |m ms' Hm Hms]; try done; injection Ho as <-.
  - by apply empty_gives.
  - apply object_gives; [done|by constructor].
Qed.

(** ** The edits sort into the order of the document *)

Definition before (e1 e2 : bodyEdit) : Prop := start e1 < start e2.
Definition starts_in (lo hi : nat) (e : bodyEdit) : Prop := lo ≤ start e < hi.

Lemma sorted_app l1 l2 mid lo hi : StronglySorted before l1 → StronglySorted before l2 →
  Forall (starts_in lo mid) l1 → Forall (starts_in mid hi) l2 → lo ≤ mid ≤ hi →
  StronglySorted before (l1 ++ l2) ∧ Forall (starts_in lo hi) (l1 ++ l2).
Proof.
  intros H1 H2 F1 F2 Hm. split.
  - induction H1 as [|e l1 H1 IH Hall]; [done|]. inversion F1; subst. constructor; [by apply IH|]. apply Forall_app; split; [done|].
    eapply List.Forall_impl; [|exact F2]. intros e' He'. unfold before, starts_in in *. lia.
  - apply Forall_app; split; (eapply List.Forall_impl; [|eassumption]); intros e He; unfold starts_in in *; lia.
Qed.

Lemma member_edits_sorted model force o m : wf_member m → StronglySorted before (member_edits model force (member_span o m, m)) ∧
  Forall (starts_in o (o + length (member_text m))) (member_edits model force (member_span o m, m)).
Proof.
  intros Hm. destruct (wf_member_inv m Hm) as (_ & _ & _ & _ & Hw & _). destruct (text_first _ Hw) as (x & t & Ht & _).
  assert (Hl : 1 ≤ length (text (mb_value m))) by (rewrite Ht; simpl; lia). clear Ht x t.
  pose proof (member_span_end o m) as He. unfold member_edits.
  destruct (member_span o m) as [[ks ke] [vs ve]] eqn:Es. cbn [fst snd] in *.
  assert (Hr : o ≤ ks ∧ ks < vs ∧ vs ≤ ve ∧ ks < ve ∧ vs < o + length (member_text m)).
  { unfold member_span in Es. injection Es as <- <- <- <-. rewrite member_text_eq. repeat (rewrite length_app; cbn [length string_token]). lia. }
  assert (Hone : ∀ s e t, ks ≤ s → s ≤ vs → StronglySorted before [BodyEdit s e t] ∧ Forall (starts_in o (o + length (member_text m))) [BodyEdit s e t]).
  { intros s e t H1 H2. split; [repeat constructor|]. constructor; [|constructor]. unfold starts_in; simpl. lia. }
  assert (Hnil : StronglySorted before [] ∧ Forall (starts_in o (o + length (member_text m))) []) by (split; constructor).
  destruct (routing_of m) as [[|[|[|idx]]]|]; try apply Hnil.
  - case_bool_decide; cbn [app]; [apply Hone; lia|]. destruct (Hone ks ke (string_token (bs "model")) ltac:(lia) ltac:(lia)) as [_ F].
    destruct (Hone vs ve (Marshal model) ltac:(lia) ltac:(lia)) as [S2 F2]. split.
    + constructor; [done|]. constructor; [|constructor]. unfold before; simpl; lia.
    + inversion F; subst. by constructor.
  - case_bool_decide; [apply Hnil|apply Hone; lia].
  - destruct force; [apply Hone; lia|]. case_bool_decide; [apply Hnil|apply Hone; lia].
Qed.

Lemma all_edits_sorted model force o ms : Forall wf_member ms → StronglySorted before (all_edits model force (zip (member_spans o ms) ms)) ∧
  Forall (starts_in o (o + length (members_inner ms))) (all_edits model force (zip (member_spans o ms) ms)).
Proof.
  intros Hw. revert o. induction Hw as [|m ms Hm Hms IH]; intros o; [split; constructor|]. cbn [member_spans zip zip_with all_edits flat_map].
  destruct (member_edits_sorted model force o m Hm) as [S1 F1]. destruct (IH (o + length (member_text m) + 1)) as [S2 F2].
  apply (sorted_app _ _ (o + length (member_text m))); try done.
  - destruct ms as [|m' ms]; [constructor|]. rewrite members_inner_cons by done. eapply List.Forall_impl; [|exact F2].
    intros e He. unfold starts_in in *. rewrite length_app. cbn [length]. lia.
  - destruct ms as [|m' ms]; [simpl; rewrite app_nil_r; lia|]. rewrite members_inner_cons by done. rewrite length_app. lia.
Qed.

Lemma doc_edits_sorted model force i c ms : wf c → object_members c = Some ms →
  StronglySorted before (doc_edits model force i ms (i + length (text c) - 1)).
Proof.
  intros Hw Ho. unfold doc_edits. destruct (all_edits_sorted model force (S i) ms (object_members_wf c ms Hw Ho)) as [S1 F1].
  eapply (sorted_app _ _ (S i + length (members_inner ms)) (S i) (S (i + length (text c)))); [done| |done| |].
  - unfold append_edit. case_match; repeat constructor.
  - assert (Hc : S i + length (members_inner ms) ≤ i + length (text c) - 1 ∨ ms = []).
    { destruct Hw as [| |[] sp Hsp| |m ms' Hm Hms]; try done; injection Ho as <-; [by right|left].
      rewrite text_object, members_text_inner by done. cbn [length]. rewrite length_app. cbn [length]. lia. }
    assert (Hpos : 1 ≤ length (text c)) by (destruct (object_first c ms Hw Ho) as [t ->]; simpl; lia).
    unfold append_edit. case_match; [|constructor]. constructor; [|constructor]. unfold starts_in. cbn [start].
    destruct Hc as [Hc| ->]; [lia|]. simpl. destruct Hw as [| |[] sp Hsp| |]; try done. simpl. rewrite length_app. simpl. lia.
  - destruct Hw as [| |[] sp Hsp| |m ms' Hm Hms]; try done; injection Ho as <-; [simpl; rewrite length_app; simpl; lia|].
    rewrite text_object, members_text_inner by done. cbn [length]. rewrite length_app. lia.
Qed.

Lemma insert_edit_perm e l : insert_edit e l ≡ₚ e :: l.
Proof.
  induction l as [|x l IH]; [done|]. simpl. destruct (_ <? _); [done|]. rewrite IH. apply Permutation_swap.
Qed.

Lemma sort_edits_perm l : sort_edits l ≡ₚ l.
Proof.
  unfold sort_edits. assert (H : ∀ acc, foldl (λ l e, insert_edit e l) acc l ≡ₚ acc ++ l).
  { induction l as [|e l IH]; intros acc; simpl; [by rewrite app_nil_r|]. rewrite IH, insert_edit_perm. simpl. by rewrite Permutation_middle. }
  apply H.
Qed.

Definition upto (e1 e2 : bodyEdit) : Prop := start e1 ≤ start e2.

Lemma insert_edit_sorted e l : StronglySorted upto l → StronglySorted upto (insert_edit e l).
Proof.
  induction 1 as [|x l Hl IH Hall]; [repeat constructor|]. simpl. destruct (Nat.ltb_spec (start e) (start x)).
  - constructor; [by constructor|]. constructor; [unfold upto; lia|]. eapply List.Forall_impl; [|exact Hall]. unfold upto; intros; lia.
  - constructor; [done|]. rewrite Forall_forall in Hall |- *. intros y Hy.
    rewrite insert_edit_perm in Hy. apply elem_of_cons in Hy as [->|Hy]; [done|]. by apply Hall.
Qed.

Lemma sort_edits_sorted l : StronglySorted upto (sort_edits l).
Proof.
  unfold sort_edits. assert (H : ∀ acc, StronglySorted upto acc → StronglySorted upto (foldl (λ l e, insert_edit e l) acc l)).
  { induction l as [|e l IH]; intros acc Ha; simpl; [done|]. apply IH. by apply insert_edit_sorted. }
  apply H. constructor.
Qed.

Lemma sorted_before_inj l e1 e2 : StronglySorted before l → e1 ∈ l → e2 ∈ l → start e1 = start e2 → e1 = e2.
Proof.
  induction 1 as [|x l Hl IH Hall]; intros H1 H2 E; [by apply not_elem_of_nil in H1|].
  rewrite Forall_forall in Hall. apply elem_of_cons in H1 as [->|H1], H2 as [->|H2]; [done|..].
  - apply Hall in H2. unfold before in H2. lia.
  - apply Hall in H1. unfold before in H1. lia.
  - auto.
Qed.

(** A permutation of strictly ordered edits sorts to them. *)
Lemma sort_edits_unique l d : l ≡ₚ d → StronglySorted before d → sort_edits l = d.
Proof.
  intros Hp Hd. apply (StronglySorted_unique_strong upto).
  - intros e1 e2 H1 H2 L1 L2. apply (sorted_before_inj d); [done| |done|unfold upto in *; lia]. by rewrite <- Hp, <- (sort_edits_perm l).
  - apply sort_edits_sorted.
  - clear Hp. induction Hd as [|x d Hd IH Hall]; constructor; [done|]. eapply List.Forall_impl; [|exact Hall]. unfold before, upto; intros; lia.
  - by rewrite sort_edits_perm.
Qed.

(** ** The code's edits are the document's *)

Section routed_edits.
Variables (model : bytes) (forceUsage : bool).

Definition routed_name (idx : nat) (r : option spanned) : list bodyEdit :=
  match r with
  | None => []
  | Some x =>
      if (idx =? memberStreamOptions)%nat && forceUsage then []
      else let key := string_token (default [] (routingNames !! idx)) in
           if bool_decide (string_token (mb_name x.2) = key) then [] else [BodyEdit x.1.1.1 x.1.1.2 key]
  end.

Definition routed_model (r : option spanned) : list bodyEdit :=
  match r with Some x => [BodyEdit x.1.2.1 x.1.2.2 (Marshal model)] | None => [] end.

Definition routed_options (r : option spanned) : list bodyEdit :=
  match r with
  | Some x => if forceUsage then [BodyEdit x.1.1.1 x.1.2.2 (streamOptionsName ++ text (options_tree (mb_value x.2)))] else []
  | None => []
  end.

Lemma routed_cons idx x l : routed idx (x :: l) = if bool_decide (routing_of x.2 = Some idx) then Some x else routed idx l.
Proof. done. Qed.

Definition distinct (l : list spanned) : Prop := NoDup (omap (λ x, routing_of x.2) l).

Lemma routed_none idx l : idx ∉ omap (λ x : spanned, routing_of x.2) l → routed idx l = None.
Proof.
  induction l as [|x l IH]; [done|]. cbn [omap list_omap]. intros H. rewrite routed_cons.
  rewrite bool_decide_false; [apply IH; destruct (routing_of x.2); set_solver|].
  intros E. rewrite E in H. set_solver.
Qed.

Lemma routed_edits_perm l : distinct l →
  routed_name 0 (routed 0 l) ++ routed_name 1 (routed 1 l) ++ routed_name 2 (routed 2 l) ++
  routed_model (routed 0 l) ++ routed_options (routed 2 l) ≡ₚ all_edits model forceUsage l.
Proof.
  induction l as [|x l IH]; [done|]. unfold distinct. cbn [omap list_omap]. intros Hd. cbn [all_edits flat_map].
  rewrite !routed_cons. destruct x as [[k v] m]. cbn [fst snd] in *.
  destruct (routing_of m) as [idx|] eqn:Hr.
  - assert (Hlt := routing_index_lt _ _ Hr). apply NoDup_cons in Hd as [Hn Hd]. specialize (IH Hd). apply routed_none in Hn.
    unfold all_edits in IH. rewrite <- IH. unfold member_edits. rewrite Hr.
    destruct idx as [|[|[|idx]]]; [| | |lia]; rewrite Hn.
    + rewrite (bool_decide_true (Some 0 = Some 0)), !(bool_decide_false (Some 0 = _)) by done. simpl.
      destruct (bool_decide _); solve_Permutation.
    + rewrite (bool_decide_true (Some 1 = Some 1)), !(bool_decide_false (Some 1 = _)) by done. simpl.
      destruct (bool_decide _); solve_Permutation.
    + rewrite (bool_decide_true (Some 2 = Some 2)), !(bool_decide_false (Some 2 = _)) by done. simpl.
      destruct forceUsage; [|destruct (bool_decide _)]; simpl; solve_Permutation.
  - rewrite !bool_decide_false by done. unfold member_edits. rewrite Hr. cbn [app]. by apply IH.
Qed.
End routed_edits.

Definition good (b : bytes) (x : spanned) : Prop := slices b x.1 x.2 ∧ wf_member x.2.

Lemma routed_good b idx l x : Forall (good b) l → routed idx l = Some x → good b x.
Proof. unfold routed. intros Hl Hx. apply find_some in Hx as [Hx _]. rewrite Forall_forall in Hl. by apply Hl, list_elem_of_In. Qed.

Lemma name_edit_routed b l close force idx : Forall (good b) l → idx < 3 →
  name_edit b (fields_of l (Some close)) force idx = routed_name force idx (routed idx l).
Proof.
  intros Hl Hidx. unfold name_edit, routed_name. rewrite key_lookup by done.
  assert (Ho : idx = memberStreamOptions → bool_decide (is_Some (optionsSpan (fields_of l (Some close)))) = bool_decide (is_Some (routed idx l))).
  { intros ->. apply bool_decide_ext. simpl. by rewrite fmap_is_Some. }
  assert (Hkey : routingKeys !! idx = Some (string_token (default [] (routingNames !! idx)))).
  { do 3 (destruct idx as [|idx]; [done|]). lia. }
  rewrite Hkey. destruct (routed idx l) as [x|] eqn:Hx; cbn [fmap option_fmap option_map].
  - destruct (routed_good _ _ _ _ Hl Hx) as [(Hk & _) _]. rewrite Hk.
    destruct (idx =? memberStreamOptions)%nat eqn:E; [|done]. apply Nat.eqb_eq in E. rewrite (Ho E). by destruct force.
  - by destruct (_ && _ && _).
Qed.

Lemma has_options_routed i ms : has_options ms = bool_decide (is_Some (routed memberStreamOptions (spanned_members i ms))).
Proof.
  unfold spanned_members. generalize (S i). induction ms as [|m ms IH]; intros o; [done|]. cbn [member_spans zip zip_with has_options existsb].
  rewrite routed_cons. cbn [snd]. destruct (bool_decide (routing_of m = Some memberStreamOptions)); [done|]. apply IH.
Qed.

Lemma length_spanned i ms : length (spanned_members i ms) = length ms.
Proof. unfold spanned_members. pose proof (length_zip (member_spans (S i) ms) ms) as E. rewrite length_spans in E. unfold spanned. lia. Qed.

Lemma options_edit_routed b i ms close force : Forall (good b) (spanned_members i ms) →
  options_edit b (fields_of (spanned_members i ms) (Some close)) force =
  Some (routed_options force (routed memberStreamOptions (spanned_members i ms)) ++ append_edit force ms close).
Proof.
  intros Hl. unfold options_edit, append_edit. rewrite (has_options_routed i), key_lookup by (unfold memberStreamOptions; lia).
  destruct force; cbn [negb andb]; [|by destruct (routed memberStreamOptions _)].
  cbn [fields_of optionsSpan closeBrace members]. rewrite length_spanned.
  destruct (routed memberStreamOptions (spanned_members i ms)) as [x|] eqn:Hx; [|done].
  destruct (routed_good _ _ _ _ Hl Hx) as [(_ & _ & _ & r & Ha) Hm]. cbn [fmap option_fmap option_map].
  by rewrite (streamOptionsWithUsage_at b _ _ r Ha) by apply (wf_member_inv _ Hm).
Qed.

Lemma first_dup_distinct i ms : first_dup [] ms = None → distinct (spanned_members i ms).
Proof.
  unfold distinct, spanned_members. generalize (S i).
  assert (H : ∀ seen o, first_dup seen ms = None →
    NoDup (omap (λ x : spanned, routing_of x.2) (zip (member_spans o ms) ms)) ∧
    ∀ idx, idx ∈ omap (λ x : spanned, routing_of x.2) (zip (member_spans o ms) ms) → idx ∉ seen).
  { induction ms as [|m ms IH]; intros seen o; cbn [first_dup member_spans zip zip_with omap list_omap snd]; [split; [constructor|set_solver]|].
    destruct (routing_of m) as [idx|]; [|apply IH]. case_bool_decide as Hin; [done|].
    intros Hd. destruct (IH (idx :: seen) (o + length (member_text m) + 1) Hd) as [Hn Hs].
    split; [constructor; [intros Hi; apply (Hs idx Hi); set_solver|done]|]. set_solver. }
  intros o Hd. by apply (H [] o).
Qed.

(** On every valid body the scan accepts, the rewrite gives the text of the
    rewritten tree. *)
Lemma rewrite_spec b s1 c s2 f model force : parse b = Some (s1, c, s2) → scanRequestFields b = Some (f, None) →
  (force = true → is_Some (object_members c)) →
  rewriteRequestBody b f model force = Some (s1 ++ text (rewrite_tree model force c) ++ s2).
Proof.
  intros Hp Hs Hf. pose proof (scan_spec _ _ _ _ Hp) as H. destruct (parse_spec _ _ _ _ Hp) as (Hb & H1 & Hw & H2).
  pose proof (at_zero b) as H0. rewrite Hb in H0 at 2. pose proof (at_app _ _ _ _ H0) as Ha. simpl in Ha.
  destruct (object_members c) as [ms|] eqn:Ho.
  - destruct H as [Hsl H]. destruct (first_dup [] ms) eqn:Hd; [destruct H as [f' H]; congruence|].
    rewrite Hs in H. injection H as Hfe Hbad. subst f.
    assert (Hgood : Forall (good b) (spanned_members (length s1) ms)).
    { assert (Hms := object_members_wf c ms Hw Ho). clear -Hsl Hms. induction Hsl as [|x m l ms [<- Hx] Hl IH]; inversion Hms; subst; constructor; [by split|auto]. }
    unfold rewriteRequestBody. rewrite options_edit_routed by done.
    cbn [map concat]. rewrite !name_edit_routed by (done || (unfold memberModel, memberStream, memberStreamOptions; lia)).
    assert (Hm : ∀ l cl, model_edit (fields_of l cl) model = routed_model model (routed 0 l))
      by (intros l cl; unfold model_edit, routed_model, fields_of, memberModel; simpl; by destruct (routed 0 l)).
    rewrite Hm, app_nil_r.
    rewrite (sort_edits_unique _ (doc_edits model force (length s1) ms (length s1 + length (text c) - 1))).
    + destruct (tree_gives b (length s1) c s2 ms model force Ha Hw Ho) as [_ Hg]. rewrite (Hg 0) by lia. f_equal.
      f_equal. exact (at_sub _ _ _ _ H0).
    + unfold doc_edits. rewrite <- (routed_edits_perm model force _ (first_dup_distinct (length s1) ms Hd)).
      unfold memberModel, memberStream, memberStreamOptions. by rewrite <- !app_assoc.
    + by apply doc_edits_sorted.
  - rewrite Hs in H. destruct force; [by destruct (Hf eq_refl)|]. case_bool_decide as Hn; [|done]. injection H as ->.
    unfold rewriteRequestBody, options_edit. cbn. assert (E : rewrite_tree model false c = c) by (by destruct c as [| |[]| |]).
    by rewrite E, <- Hb.
Qed.

(** ** The rewritten body is valid and scans to what was admitted *)

Lemma Forall_filter_keep {A} (P Q : A → Prop) `{∀ x, Decision (Q x)} (l : list A) : Forall P l → Forall P (filter Q l).
Proof. rewrite !Forall_forall. intros Hl x [_ Hx]%list_elem_of_filter. by apply Hl. Qed.

Lemma strip_wf m : wf_member m → wf_member (strip m).
Proof. destruct 1. by constructor. Qed.

Lemma usage_member_wf : wf_member usage_member.
Proof. by repeat constructor. Qed.

Lemma mk_object_wf ms : Forall wf_member ms → wf (mk_object ms).
Proof. destruct 1; by constructor. Qed.

Lemma mk_object_members ms : object_members (mk_object ms) = Some ms.
Proof. by destruct ms. Qed.

Lemma options_members_wf v : wf v → Forall wf_member (default [] (object_members v)).
Proof. intros Hv. destruct (object_members v) eqn:E; [by eapply object_members_wf|constructor]. Qed.

Lemma options_tree_wf v : wf v → wf (options_tree v).
Proof.
  intros Hv. apply mk_object_wf, Forall_app. split; [|constructor; [apply usage_member_wf|constructor]].
  apply List.Forall_map. apply options_members_wf in Hv. apply Forall_filter_keep. eapply List.Forall_impl; [|exact Hv]. apply strip_wf.
Qed.

Lemma rewrite_member_wf model force m : wf_member m → wf_member (rewrite_member model force m).
Proof.
  intros Hm. destruct (wf_member_inv m Hm) as (H1 & Hk & H2 & H3 & Hw & H4). unfold rewrite_member.
  destruct (routing_of m) as [[|[|[|idx]]]|]; try done.
  - constructor; try done. constructor. apply marshal_body_ok.
  - destruct force; [|by constructor]. constructor; try done. by apply options_tree_wf.
Qed.

Lemma appended_wf force lead ms : spaces lead → Forall wf_member (appended force lead ms).
Proof.
  intros Hl. unfold appended. destruct (_ && _); constructor; [|constructor]. constructor; try done. apply options_tree_wf. by constructor.
Qed.

Lemma rewrite_tree_wf model force c : wf c → wf (rewrite_tree model force c).
Proof.
  intros Hw. destruct Hw as [| |[] sp Hsp| |m ms Hm Hms]; try (by constructor).
  - unfold rewrite_tree. destruct force; [|by constructor]. by apply mk_object_wf, appended_wf.
  - unfold rewrite_tree. apply mk_object_wf, Forall_app. split; [|by apply appended_wf]. apply List.Forall_map.
    constructor; [by apply rewrite_member_wf|]. eapply List.Forall_impl; [|exact Hms]. intros; by apply rewrite_member_wf.
Qed.

Definition nested_in (n : Z) (m : member) : Prop := (nesting (mb_value m) ≤ n)%Z.

Lemma mk_object_nesting ms n : (0 ≤ n)%Z → Forall (nested_in n) ms → (nesting (mk_object ms) ≤ 1 + n)%Z.
Proof.
  intros Hn Hms. destruct Hms as [|m ms Hm Hms]; [simpl; lia|]. unfold nested_in in *.
  change (nesting (mk_object (m :: ms))) with (1 + foldr (λ (m : member) n, nesting (mb_value m) `max` n)%Z (nesting (mb_value m)) ms)%Z.
  assert (H : (foldr (λ (m : member) n, nesting (mb_value m) `max` n)%Z (nesting (mb_value m)) ms ≤ n)%Z); [|lia].
  induction Hms; simpl; lia.
Qed.

Lemma object_nesting c ms : object_members c = Some ms → Forall (nested_in (nesting c - 1)) ms ∧ (1 ≤ nesting c)%Z.
Proof.
  intros Ho. destruct c as [| |[] sp| |m ms']; try done; injection Ho as <-; [split; [constructor|simpl; lia]|].
  change (nesting (CObject m ms')) with (1 + foldr (λ (m : member) n, nesting (mb_value m) `max` n)%Z (nesting (mb_value m)) ms')%Z.
  assert (F := foldr_max_le (λ m : member, nesting (mb_value m)) m ms' _ (Z.le_refl _)). cbv beta in F.
  split; [eapply List.Forall_impl; [|exact F]; unfold nested_in; intros; simpl in *; lia|].
  inversion F; subst. pose proof (nesting_nonneg (mb_value m)). lia.
Qed.

Lemma options_tree_nesting v : (nesting (options_tree v) ≤ 1 `max` nesting v)%Z.
Proof.
  pose proof (nesting_nonneg v). assert (H1 : (nesting (options_tree v) ≤ 1 + (0 `max` (nesting v - 1)))%Z); [|lia].
  apply mk_object_nesting; [lia|]. apply Forall_app. split; [|repeat constructor; unfold nested_in; simpl; lia].
  apply List.Forall_map, Forall_filter_keep. destruct (object_members v) as [ms|] eqn:E; [|constructor]. cbn [default].
  destruct (object_nesting v ms E) as [F _]. eapply List.Forall_impl; [|exact F]. intros m Hm. unfold nested_in in *.
  change (mb_value (strip m)) with (mb_value m). lia.
Qed.

Lemma rewrite_member_nesting model force m : (nesting (mb_value (rewrite_member model force m)) ≤ 1 `max` nesting (mb_value m))%Z.
Proof.
  pose proof (options_tree_nesting (mb_value m)). unfold rewrite_member. destruct (routing_of m) as [[|[|[|idx]]]|]; try lia.
  - simpl. lia.
  - change (mb_value (rename (bs "stream") m)) with (mb_value m). lia.
  - destruct force; [exact H|]. change (mb_value (rename (bs "stream_options") m)) with (mb_value m). lia.
Qed.

Lemma rewrite_tree_nesting model force c : (nesting c ≤ maxNestingDepth)%Z → (nesting (rewrite_tree model force c) ≤ maxNestingDepth)%Z.
Proof.
  intros Hn. assert (Happ : ∀ lead ms n, (1 ≤ n)%Z → Forall (nested_in n) (appended force lead ms)).
  { intros lead ms n Hlt. unfold appended. destruct (_ && _); constructor; [|constructor]. unfold nested_in; simpl. lia. }
  destruct c as [| |[] sp| |m ms]; try done.
  - unfold rewrite_tree. destruct force; [|done]. assert (H := mk_object_nesting (appended true sp []) 1 ltac:(lia) (Happ sp [] 1%Z ltac:(lia))).
    unfold maxNestingDepth in *. lia.
  - destruct (object_nesting (CObject m ms) (m :: ms) eq_refl) as [F H1].
    assert (H : (nesting (rewrite_tree model force (CObject m ms)) ≤ 1 + (1 `max` (nesting (CObject m ms) - 1)))%Z).
    { apply mk_object_nesting; [lia|]. apply Forall_app. split; [|apply Happ; lia]. apply List.Forall_map.
      eapply List.Forall_impl; [|exact F]. intros m' Hm'. pose proof (rewrite_member_nesting model force m'). unfold nested_in in *. lia. }
    unfold maxNestingDepth in *. lia.
Qed.

(** What the gateway may rely on: the scan reads the tree, the rewrite is the
    tree's, and a rewritten body scans to what the gateway admitted. *)


(** ** Routing members of a member list *)

Definition find_routing (idx : nat) (ms : list member) : option member := find (λ m, bool_decide (routing_of m = Some idx)) ms.

Definition routings (ms : list member) : list nat := omap routing_of ms.

(** The model a member list names: its model member's string, else "". *)
Definition model_of (ms : list member) : bytes :=
  match find_routing memberModel ms with
  | Some m => match mb_value m with CString k => jsonStringValue (string_token k) | _ => [] end
  | None => []
  end.

Definition stream_is (s : string) (ms : list member) : bool :=
  match find_routing memberStream ms with Some m => is_text s m | None => false end.

Definition stream_ok (ms : list member) : bool :=
  match find_routing memberStream ms with Some m => is_text "true" m || is_text "false" m || is_text "null" m | None => true end.

(** The optional span [s] of [b] holds [t]. *)
Definition holds (b : bytes) (s : option (nat * nat)) (t : option bytes) : Prop := slice b <$> s = t.

Record reads (b : bytes) (f : requestFields) (ms : list member) : Prop := {
  reads_names : ∀ idx, idx < 3 → ∃ s, keySpan f !! idx = Some s ∧ holds b s ((λ m, string_token (mb_name m)) <$> find_routing idx ms);
  reads_model : holds b (modelSpan f) ((λ m, text (mb_value m)) <$> find_routing memberModel ms);
  reads_model_value : model f b = Some (model_of ms);
  reads_options : holds b (optionsSpan f) ((λ m, text (mb_value m)) <$> find_routing memberStreamOptions ms);
  reads_stream : streamTrue f = stream_is "true" ms;
  reads_members : members f = length ms
}.

Lemma routed_find idx i ms : snd <$> routed idx (spanned_members i ms) = find_routing idx ms.
Proof.
  unfold spanned_members. generalize (S i). induction ms as [|m ms IH]; intros o; [done|].
  cbn [member_spans zip zip_with]. rewrite routed_cons. unfold find_routing. cbn [find snd].
  destruct (bool_decide (routing_of m = Some idx)); [done|apply IH].
Qed.

Lemma first_dup_spec seen ms : match first_dup seen ms with
  | None => NoDup (routings ms) ∧ (∀ idx, idx ∈ routings ms → idx ∉ seen)
  | Some idx => idx ∈ routings ms ∧ (idx ∈ seen ∨ 2 ≤ length (filter (λ m, routing_of m = Some idx) ms))
  end.
Proof.
  unfold routings. revert seen. induction ms as [|m ms IH]; intros seen; cbn [first_dup omap list_omap]; [split; [constructor|set_solver]|].
  destruct (routing_of m) as [idx|] eqn:Hr.
  - case_bool_decide as Hin; [set_solver|]. specialize (IH (idx :: seen)). destruct (first_dup (idx :: seen) ms) as [j|].
    + destruct IH as [Hj [Hs|Hl]]; (split; [set_solver|]).
      * destruct (decide (j = idx)) as [->|]; [right|left; set_solver]. rewrite filter_cons, decide_True by done. simpl.
        apply list_elem_of_omap in Hj as (m' & Hm' & E).
        assert (Hf : m' ∈ filter (λ m, routing_of m = Some idx) ms) by (by apply list_elem_of_filter).
        destruct (filter _ _); [by apply not_elem_of_nil in Hf|simpl; lia].
      * right. rewrite filter_cons. case_decide; simpl; lia.
    + destruct IH as [Hn Hs]. split; [constructor; [intros Hi; apply (Hs idx Hi); set_solver|done]|set_solver].
  - specialize (IH seen). destruct (first_dup seen ms) as [j|]; [|done]. destruct IH as [Hj Hl]. split; [done|].
    rewrite filter_cons. rewrite decide_False by congruence. done.
Qed.

Lemma stream_bad_ok i ms : stream_bad (spanned_members i ms) = negb (stream_ok ms).
Proof.
  unfold stream_bad, stream_ok. pose proof (routed_find memberStream i ms) as H.
  destruct (routed memberStream _) as [x|]; simpl in H; rewrite <- H; [|done]. by rewrite !negb_orb.
Qed.

Lemma Forall2_good b l ms : Forall2 (λ x m, x.2 = m ∧ slices b x.1 m) l ms → Forall (λ x : spanned, slices b x.1 x.2) l.
Proof. induction 1 as [|x m l ms [<- H] _ IH]; by constructor. Qed.

Lemma routed_slices b idx i ms x : Forall (λ x : spanned, slices b x.1 x.2) (spanned_members i ms) →
  routed idx (spanned_members i ms) = Some x → slices b x.1 x.2.
Proof. unfold routed. intros Hl Hx. apply find_some in Hx as [Hx _]. rewrite Forall_forall in Hl. by apply Hl, list_elem_of_In. Qed.

Lemma fields_reads b i ms close : Forall (λ x : spanned, slices b x.1 x.2) (spanned_members i ms) →
  (∀ m, m ∈ ms → wf (mb_value m)) → reads b (fields_of (spanned_members i ms) (Some close)) ms.
Proof.
  intros Hs Hw. set (l := spanned_members i ms) in *.
  assert (Hval : ∀ idx, holds b ((λ x : spanned, x.1.2) <$> routed idx l) ((λ m, text (mb_value m)) <$> find_routing idx ms)).
  { intros idx. unfold holds. rewrite <- (routed_find idx i). fold l. destruct (routed idx l) as [x|] eqn:Hx; [|done].
    destruct (routed_slices _ _ _ _ _ Hs Hx) as (_ & Hv & _). simpl. by rewrite Hv. }
  constructor.
  - intros idx Hidx. eexists; split; [by apply key_lookup|]. unfold holds. rewrite <- (routed_find idx i). fold l.
    destruct (routed idx l) as [x|] eqn:Hx; [|done]. destruct (routed_slices _ _ _ _ _ Hs Hx) as (Hk & _). simpl. by rewrite Hk.
  - apply Hval.
  - unfold model, model_of. cbn [fields_of modelSpan]. rewrite <- (routed_find memberModel i). fold l.
    destruct (routed memberModel l) as [x|] eqn:Hx; [|done]. cbn [fmap option_fmap option_map].
    destruct (routed_slices _ _ _ _ _ Hs Hx) as (_ & Hv & _ & r & Ha).
    assert (Hwx : wf (mb_value x.2)).
    { apply Hw. unfold find_routing in *. pose proof (routed_find memberModel i ms) as Hf. fold l in Hf. rewrite Hx in Hf. simpl in Hf.
      symmetry in Hf. apply find_some in Hf as [Hf _]. by apply list_elem_of_In. }
    destruct (text_first _ Hwx) as (c & t & Ht & Hc). rewrite Ht in Ha. rewrite (at_lookup _ _ _ _ Ha), Hv, Ht.
    destruct (mb_value x.2) as [u|k|a sp|e es|m' ms'] eqn:Ev; inversion Hwx; subst; try (destruct a); simpl in Ht; try (by injection Ht as <- <-).
    subst u. simpl in *. assert (E : Ascii.eqb c quote = false); [|by rewrite E].
    by destruct c as [[] [] [] [] [] [] [] []].
  - apply Hval.
  - unfold stream_is. cbn [fields_of streamTrue]. rewrite <- (routed_find memberStream i). fold l. by destruct (routed memberStream l).
  - cbn [fields_of members]. apply length_spanned.
Qed.

(** What the scan of a valid body gives. *)
Definition scan_result (b : bytes) (c : cst) : Prop :=
  match object_members c with
  | None => scanRequestFields b = Some (noFields, if bool_decide (text c = bs "null") then None else Some errNotObject)
  | Some ms =>
      if bool_decide (NoDup (routings ms))
      then ∃ f, scanRequestFields b = Some (f, if stream_ok ms then None else Some errStreamNotBoolean) ∧ reads b f ms
      else ∃ f idx name, scanRequestFields b = Some (f, Some (duplicateFieldError name)) ∧ routingNames !! idx = Some name ∧
                         2 ≤ length (filter (λ m, routing_of m = Some idx) ms)
  end.

Lemma scan_reads b s1 c s2 : parse b = Some (s1, c, s2) → scan_result b c.
Proof.
  intros Hp. unfold scan_result. pose proof (scan_spec _ _ _ _ Hp) as H. destruct (parse_spec _ _ _ _ Hp) as (_ & _ & Hw & _).
  destruct (object_members c) as [ms|] eqn:Ho; [|done]. destruct H as [Hs H]. pose proof (first_dup_spec [] ms) as Hd.
  destruct (first_dup [] ms) as [idx|].
  - destruct Hd as [Hin [Hs'|Hl]]; [by apply not_elem_of_nil in Hs'|]. destruct H as [f H].
    assert (Hidx : idx < 3) by (apply list_elem_of_omap in Hin as (m & _ & Hm); by apply routing_index_lt in Hm).
    assert (Hname : is_Some (routingNames !! idx)) by (by apply lookup_lt_is_Some). destruct Hname as [name Hname].
    rewrite bool_decide_false; [exists f, idx, name; split; [rewrite H; do 4 f_equal; exact (f_equal (default []) Hname)|done]|]. intros Hn. clear -Hn Hl. unfold routings in Hn.
    induction ms as [|m ms IH]; [simpl in Hl; lia|]. rewrite filter_cons in Hl. cbn [omap list_omap] in Hn. case_decide as Hm.
    + rewrite Hm in Hn. apply NoDup_cons in Hn as [Hn _]. simpl in Hl. apply Hn. apply list_elem_of_omap.
      destruct (filter _ ms) as [|m' l] eqn:E; [simpl in Hl; lia|]. exists m'.
      assert (Hm' : m' ∈ filter (λ m, routing_of m = Some idx) ms) by (rewrite E; by left).
      apply list_elem_of_filter in Hm' as [? ?]. done.
    + destruct (routing_of m); [apply NoDup_cons in Hn as [_ Hn]|]; by apply IH.
  - rewrite bool_decide_true by apply Hd. eexists. rewrite H, stream_bad_ok. split; [by destruct (stream_ok ms)|].
    apply fields_reads; [by eapply Forall2_good|]. intros m Hm. assert (F := object_members_wf c ms Hw Ho).
    rewrite Forall_forall in F. apply (wf_member_inv m). by apply F.
Qed.

(** On every body json.Valid accepts, the scan returns (no index is ever
    out of range and no loop runs on): a null body has no members, any other
    non-object is errNotObject; an object that names a routing member twice is
    the duplicate error for a name two members match; otherwise the fields are
    those of the tree, with errStreamNotBoolean exactly when stream is neither
    true, false nor null. *)
Theorem scan_reads_tree b s1 c s2 : parse b = Some (s1, c, s2) →
  match object_members c with
  | None => scanRequestFields b = Some (noFields, if bool_decide (text c = bs "null") then None else Some errNotObject)
  | Some ms =>
      if bool_decide (NoDup (routings ms))
      then ∃ f, scanRequestFields b = Some (f, if stream_ok ms then None else Some errStreamNotBoolean) ∧ reads b f ms
      else ∃ f idx name, scanRequestFields b = Some (f, Some (duplicateFieldError name)) ∧ routingNames !! idx = Some name ∧
                         2 ≤ length (filter (λ m, routing_of m = Some idx) ms)
  end.
Proof. apply scan_reads. Qed.

(** C20: on every valid object body the scan accepts, the rewrite returns the
    text of the rewritten tree with the space around it: exact routing names,
    the new model, stream_options with usage when it is forced, and every other
    byte as it was. *)
Theorem rewrite_is_tree_rewrite b s1 c s2 ms f model force : parse b = Some (s1, c, s2) → object_members c = Some ms →
  scanRequestFields b = Some (f, None) →
  rewriteRequestBody b f model force = Some (s1 ++ text (rewrite_tree model force c) ++ s2).
Proof. intros Hp Ho Hs. apply (rewrite_spec b s1 c s2 f model force Hp Hs). intros _. by rewrite Ho. Qed.

(** ** The rewritten members *)

Definition rewritten_members (model : bytes) (force : bool) (c : cst) : list member := default [] (object_members (rewrite_tree model force c)).

Lemma routing_model : routing_index (jsonStringValue (string_token (bs "model"))) = Some 0.
Proof. by vm_compute. Qed.
Lemma routing_stream : routing_index (jsonStringValue (string_token (bs "stream"))) = Some 1.
Proof. by vm_compute. Qed.
Lemma routing_options : routing_index (jsonStringValue (string_token (bs "stream_options"))) = Some 2.
Proof. by vm_compute. Qed.

Lemma routing_rewrite model force m : routing_of (rewrite_member model force m) = routing_of m.
Proof.
  unfold rewrite_member. destruct (routing_of m) as [[|[|[|idx]]]|] eqn:E; try done; try (destruct force); exact routing_model || exact routing_stream || exact routing_options.
Qed.

Lemma rewritten_members_eq model force c ms : object_members c = Some ms →
  ∃ lead, object_members (rewrite_tree model force c) = Some (map (rewrite_member model force) ms ++ appended force lead ms).
Proof.
  intros Ho. destruct c as [| |[] sp| |m ms']; try done; injection Ho as <-.
  - exists sp. unfold rewrite_tree, appended. destruct force; [by rewrite mk_object_members|done].
  - exists []. unfold rewrite_tree. by rewrite mk_object_members.
Qed.

Lemma routings_rewritten model force ms lead : NoDup (routings ms) →
  NoDup (routings (map (rewrite_member model force) ms ++ appended force lead ms)).
Proof.
  intros Hn. unfold routings in *. rewrite omap_app. assert (E : omap routing_of (map (rewrite_member model force) ms) = omap routing_of ms).
  { induction ms as [|m ms IH]; [done|]. cbn [map omap list_omap]. rewrite routing_rewrite. cbn [omap list_omap] in Hn.
    destruct (routing_of m); [apply NoDup_cons in Hn as [_ Hn]|]; rewrite IH by done; done. }
  rewrite E. unfold appended. destruct (force && negb (has_options ms)) eqn:Ha; [|by rewrite app_nil_r].
  apply andb_true_iff in Ha as [_ Ha%negb_true_iff]. apply NoDup_app. split_and!; [done| |].
  - intros idx Hi Hj. cbn [omap list_omap] in Hj. assert (Ho : routing_of (options_member lead (CEmpty false []) []) = Some 2) by exact routing_options.
    rewrite Ho in Hj. apply elem_of_cons in Hj as [->|Hj]; [|by apply not_elem_of_nil in Hj].
    apply list_elem_of_omap in Hi as (m & Hm & Hr). assert (Hex : has_options ms = true); [|congruence].
    apply existsb_exists. exists m. split; [by apply list_elem_of_In|]. by rewrite bool_decide_true.
  - cbn [omap list_omap]. destruct (routing_of _); [apply NoDup_singleton|constructor].
Qed.

Lemma find_rewritten model force lead ms idx :
  find_routing idx (map (rewrite_member model force) ms ++ appended force lead ms) =
  match find_routing idx ms with
  | Some m => Some (rewrite_member model force m)
  | None => find_routing idx (appended force lead ms)
  end.
Proof.
  generalize (appended force lead ms). intros l. unfold find_routing. induction ms as [|m ms IH]; [done|]. cbn [map app find].
  rewrite routing_rewrite. destruct (bool_decide _); [done|apply IH].
Qed.

Lemma find_appended idx force lead ms : idx ≠ 2 → find_routing idx (appended force lead ms) = None.
Proof.
  intros Hi. unfold appended. destruct (_ && _); [|done]. unfold find_routing. cbn [find].
  assert (Ho : routing_of (options_member lead (CEmpty false []) []) = Some 2) by exact routing_options.
  rewrite Ho, bool_decide_false; [done|congruence].
Qed.

Lemma find_routing_of idx ms m : find_routing idx ms = Some m → routing_of m = Some idx.
Proof. unfold find_routing. intros [_ H]%find_some. by apply bool_decide_eq_true in H. Qed.

Lemma rewrite_stream model force m : routing_of m = Some 1 → mb_value (rewrite_member model force m) = mb_value m.
Proof. intros H. unfold rewrite_member. by rewrite H. Qed.

Lemma stream_rewritten model force lead ms : let ms' := map (rewrite_member model force) ms ++ appended force lead ms in
  (∀ s, stream_is s ms' = stream_is s ms) ∧ stream_ok ms' = stream_ok ms.
Proof.
  cbv zeta. unfold stream_is, stream_ok, is_text. rewrite find_rewritten, find_appended by done.
  destruct (find_routing memberStream ms) as [m|] eqn:E; [|done]. apply find_routing_of in E. by rewrite rewrite_stream.
Qed.

Lemma model_rewritten model force lead ms : model_of (map (rewrite_member model force) ms ++ appended force lead ms) =
  match find_routing memberModel ms with Some _ => coerce model | None => [] end.
Proof.
  unfold model_of. rewrite find_rewritten, find_appended by done. destruct (find_routing memberModel ms) as [m|] eqn:E; [|done].
  apply find_routing_of in E. unfold rewrite_member. rewrite E. exact (jsonStringValue_Marshal model).
Qed.

(** Every routing member has its exact name. *)
Definition exact_names (ms : list member) : Prop := ∀ m idx, m ∈ ms → routing_of m = Some idx → routingNames !! idx = Some (mb_name m).

Lemma names_rewritten model force lead ms : exact_names (map (rewrite_member model force) ms ++ appended force lead ms).
Proof.
  intros m' idx [Hm|Hm]%elem_of_app Hr.
  - apply list_elem_of_In, in_map_iff in Hm as (m & <- & _). rewrite routing_rewrite in Hr. unfold rewrite_member. rewrite Hr.
    assert (Hlt := routing_index_lt _ _ Hr). destruct idx as [|[|[|idx]]]; [done|done|by destruct force|lia].
  - unfold appended in Hm. destruct (_ && _); [|by apply not_elem_of_nil in Hm].
    apply elem_of_cons in Hm as [->|Hm]; [|by apply not_elem_of_nil in Hm].
    assert (Ho : routing_of (options_member lead (CEmpty false []) []) = Some 2) by exact routing_options.
    rewrite Ho in Hr. by injection Hr as <-.
Qed.

(** Usage is asked for: include_usage is true, is there once, and is last. *)
Definition asks_usage (v : cst) : Prop := ∃ kept,
  object_members v = Some (kept ++ [usage_member]) ∧ Forall (λ m, is_include_usage m = false) kept.

Lemma options_tree_asks v : asks_usage (options_tree v).
Proof.
  eexists. split; [apply mk_object_members|]. apply List.Forall_map, Forall_forall. intros m Hm.
  by apply list_elem_of_filter in Hm as [Hm _].
Qed.

Lemma options_rewritten model lead ms : ∃ m, find_routing memberStreamOptions (map (rewrite_member model true) ms ++ appended true lead ms) = Some m ∧
  asks_usage (mb_value m).
Proof.
  rewrite find_rewritten. destruct (find_routing memberStreamOptions ms) as [m|] eqn:E.
  - apply find_routing_of in E. eexists. split; [done|]. unfold rewrite_member. rewrite E. apply options_tree_asks.
  - unfold appended. destruct (has_options ms) eqn:Ho; cbn [andb negb].
    + apply existsb_exists in Ho as (m & Hm & Hr). apply (find_none _ _ E) in Hm. congruence.
    + exists (options_member lead (CEmpty false []) []). split; [|apply options_tree_asks]. unfold find_routing. cbn [find].
      assert (Hr : routing_of (options_member lead (CEmpty false []) []) = Some 2) by exact routing_options. rewrite Hr. done.
Qed.

Lemma options_kept model lead ms :
  mb_value <$> find_routing memberStreamOptions (map (rewrite_member model false) ms ++ appended false lead ms) =
  mb_value <$> find_routing memberStreamOptions ms.
Proof.
  rewrite find_rewritten. destruct (find_routing memberStreamOptions ms) as [m|] eqn:E; [|done].
  apply find_routing_of in E. unfold rewrite_member. by rewrite E.
Qed.

Lemma unrouted_rewritten model force lead ms :
  filter (λ m, routing_of m = None) (map (rewrite_member model force) ms ++ appended force lead ms) = filter (λ m, routing_of m = None) ms.
Proof.
  rewrite filter_app. assert (E : filter (λ m, routing_of m = None) (appended force lead ms) = []).
  { unfold appended. destruct (_ && _); [|done]. rewrite filter_cons, decide_False; [done|].
    intros Hr. assert (Ho : routing_of (options_member lead (CEmpty false []) []) = Some 2) by exact routing_options. congruence. }
  rewrite E, app_nil_r. clear E. induction ms as [|m ms IH]; [done|]. cbn [map]. rewrite !filter_cons, routing_rewrite, IH.
  case_decide as H; [|done]. f_equal. unfold rewrite_member. by rewrite H.
Qed.

(** The rewritten body scans to what the rewrite put in it. *)
Lemma rewrite_scans b s1 c s2 ms f new force : parse b = Some (s1, c, s2) → object_members c = Some ms →
  scanRequestFields b = Some (f, None) →
  ∃ out c' ms' f', rewriteRequestBody b f new force = Some out ∧ parse out = Some (s1, c', s2) ∧ object_members c' = Some ms' ∧
    scanRequestFields out = Some (f', None) ∧
    model f' out = Some (if bool_decide (is_Some (modelSpan f)) then coerce new else []) ∧
    (is_Some (modelSpan f') ↔ is_Some (modelSpan f)) ∧ streamTrue f' = streamTrue f ∧ exact_names ms' ∧
    filter (λ m, routing_of m = None) ms' = filter (λ m, routing_of m = None) ms ∧
    (force = true → ∃ m, find_routing memberStreamOptions ms' = Some m ∧ asks_usage (mb_value m)) ∧
    (force = false → mb_value <$> find_routing memberStreamOptions ms' = mb_value <$> find_routing memberStreamOptions ms).
Proof.
  intros Hp Ho Hs. assert (Hr := rewrite_spec b s1 c s2 f new force Hp Hs ltac:(intros _; by rewrite Ho)).
  destruct (parse_spec _ _ _ _ Hp) as (_ & H1 & Hw & H2). set (c' := rewrite_tree new force c) in *.
  assert (Hp' : parse (s1 ++ text c' ++ s2) = Some (s1, c', s2)).
  { apply parse_complete; [done|by apply rewrite_tree_wf|done|]. by eapply rewrite_tree_nesting, parse_depth. }
  destruct (rewritten_members_eq new force c ms Ho) as [lead Ho']. fold c' in Ho'.
  assert (Hscan := scan_reads _ _ _ _ Hp). unfold scan_result in Hscan. rewrite Ho in Hscan. case_bool_decide as Hn; [|destruct Hscan as (? & ? & ? & ? & _); congruence].
  destruct Hscan as (f0 & Hf0 & Hreads). rewrite Hs in Hf0. injection Hf0 as <- Hok.
  assert (Hscan' := scan_reads _ _ _ _ Hp'). unfold scan_result in Hscan'. rewrite Ho' in Hscan'. rewrite bool_decide_true in Hscan' by (by apply routings_rewritten).
  destruct (stream_rewritten new force lead ms) as [Hst Hst']. rewrite Hst' in Hscan'. destruct (stream_ok ms); [|done].
  destruct Hscan' as (f' & Hf' & Hreads').
  eexists _, c', _, f'. split_and!; [done|done|done|done| | | | | | |].
  - rewrite (reads_model_value _ _ _ Hreads'), model_rewritten. f_equal.
    assert (Hm := reads_model _ _ _ Hreads). unfold holds in Hm.
    destruct (modelSpan f), (find_routing memberModel ms); try done.
  - assert (Hm := reads_model _ _ _ Hreads). assert (Hm' := reads_model _ _ _ Hreads'). unfold holds in Hm, Hm'.
    rewrite find_rewritten, find_appended in Hm' by done.
    by destruct (modelSpan f), (modelSpan f'), (find_routing memberModel ms).
  - by rewrite (reads_stream _ _ _ Hreads'), (reads_stream _ _ _ Hreads), Hst.
  - apply names_rewritten.
  - apply unrouted_rewritten.
  - intros ->. apply options_rewritten.
  - intros ->. apply options_kept.
Qed.

(** C19: the body the gateway sends is a valid document with the same space
    around it whose members of other names are the agent's, unchanged and in
    order; scanning it again finds the model the gateway admitted, the agent's
    stream flag, each routing name spelt exactly, and the agent's stream
    options or, when usage is forced, exactly one include_usage, true. *)
Theorem rewrite_admits_same b s1 c s2 ms f new force : parse b = Some (s1, c, s2) → object_members c = Some ms →
  scanRequestFields b = Some (f, None) →
  ∃ out c' ms' f', rewriteRequestBody b f new force = Some out ∧ parse out = Some (s1, c', s2) ∧ object_members c' = Some ms' ∧
    scanRequestFields out = Some (f', None) ∧
    model f' out = Some (if bool_decide (is_Some (modelSpan f)) then coerce new else []) ∧
    (is_Some (modelSpan f') ↔ is_Some (modelSpan f)) ∧ streamTrue f' = streamTrue f ∧ exact_names ms' ∧
    filter (λ m, routing_of m = None) ms' = filter (λ m, routing_of m = None) ms ∧
    (force = true → ∃ m, find_routing memberStreamOptions ms' = Some m ∧ asks_usage (mb_value m)) ∧
    (force = false → mb_value <$> find_routing memberStreamOptions ms' = mb_value <$> find_routing memberStreamOptions ms).
Proof. apply rewrite_scans. Qed.

(** ** Examples *)

Definition quoted (s : string) : bytes := map (λ c, if Ascii.eqb c "'" then quote else c) (bs s).

Definition example_body : bytes :=
  quoted " { 'Model' : 'x', 'a':[1,{'b':2}] , 'STREAM':true , 'stream_options' : {'Include_Usage':false , 'z' : 1 } } ".

Definition example_parts : bytes * cst * bytes := Eval vm_compute in default ([], CEmpty false [], []) (parse example_body).
Definition example_tree : cst := example_parts.1.2.
Definition example_members : list member := Eval vm_compute in default [] (object_members example_tree).
Definition example_fields : requestFields := Eval vm_compute in default noFields (fst <$> scanRequestFields example_body).

Lemma scan_reads_tree_witness : parse example_body = Some example_parts ∧ scan_result example_body example_tree.
Proof.
  split; [vm_compute; reflexivity|].
  exact (scan_reads_tree example_body example_parts.1.1 example_tree example_parts.2 ltac:(vm_compute; reflexivity)).
Defined.

Lemma rewrite_is_tree_rewrite_witness :
  rewriteRequestBody example_body example_fields (bs "m<1") true =
  Some (example_parts.1.1 ++ text (rewrite_tree (bs "m<1") true example_tree) ++ example_parts.2).
Proof.
  exact (rewrite_is_tree_rewrite example_body example_parts.1.1 example_tree example_parts.2 example_members example_fields (bs "m<1") true
    ltac:(vm_compute; reflexivity) ltac:(vm_compute; reflexivity) ltac:(vm_compute; reflexivity)).
Defined.

Example example_rewrite : rewriteRequestBody example_body example_fields (bs "m<1") true =
  Some (quoted " { 'model' : 'm\u003c1', 'a':[1,{'b':2}] , 'stream':true , 'stream_options':{'z' : 1,'include_usage':true} } ").
Proof. vm_compute. reflexivity. Qed.

Lemma rewrite_admits_same_witness : ∃ out c' ms' f', rewriteRequestBody example_body example_fields (bs "m<1") true = Some out ∧
  parse out = Some (example_parts.1.1, c', example_parts.2) ∧ object_members c' = Some ms' ∧ scanRequestFields out = Some (f', None) ∧
  model f' out = Some (bs "m<1").
Proof.
  destruct (rewrite_admits_same example_body example_parts.1.1 example_tree example_parts.2 example_members example_fields (bs "m<1") true
    ltac:(vm_compute; reflexivity) ltac:(vm_compute; reflexivity) ltac:(vm_compute; reflexivity))
    as (out & c' & ms' & f' & H1 & H2 & H3 & H4 & H5 & _).
  exists out, c', ms', f'. repeat (split; [assumption|]). exact H5.
Defined.
