(* ===== verification/FoldedName.v ===== *)
(** The cheap tests on raw JSON used before a decode: mayHoldFoldedName never
    misses a name, repeatsJSONMember counts exactly (internal/gateway/requestbody.go). *)

From stdpp Require Import base list strings option.
From Stdlib Require Import ZArith Lia Ascii.
From S2P Require Import Prelude Json JsonString RequestBody.

(** ** Repeated members *)

Definition matching (field : bytes) (ms : list member) : list member := filter (λ m, jsonNameMatches (mb_key m) field = true) ms.

Lemma repeats_loop b p spans close ms field fuel count :
  turns b p spans close → Forall2 (slices b) spans ms → length spans < fuel → count < 2 →
  ∃ n, forEachJSONMember_loop fuel b p (count_member field) count = Some n ∧
       (1 <? n)%nat = (1 <? count + length (matching field ms))%nat.
Proof.
  intros Ht. revert ms fuel count. induction Ht as [p close E|p key value spans close E Ht IH]; intros ms fuel count Hs Hf Hc;
    inversion Hs as [|? m ? ms' Hm Hms]; subst; (destruct fuel as [|fuel]; [simpl in Hf; lia|]); cbn [forEachJSONMember_loop]; rewrite E.
  - exists count. split; [done|]. simpl. by rewrite Nat.add_0_r.
  - destruct Hm as (Hk & _). cbn [fst snd] in Hk. rewrite Hk. fold (mb_key m). unfold matching, count_member in *. rewrite filter_cons. simpl in Hf.
    destruct (jsonNameMatches (mb_key m) field) eqn:Hj; cbv zeta.
    + rewrite decide_True by done. destruct (Nat.ltb_spec (S count) 2).
      * destruct (IH ms' fuel (S count) Hms ltac:(lia) ltac:(lia)) as (n & -> & Hn). exists n. split; [done|]. rewrite Hn. simpl. f_equal. lia.
      * exists (S count). split; [done|]. simpl. symmetry. destruct (count =? 0)%nat eqn:E0; [apply Nat.eqb_eq in E0; lia|].
        apply Nat.eqb_neq in E0. rewrite (proj2 (Nat.ltb_lt 1 (S count))) by lia. apply Nat.ltb_lt. lia.
    + rewrite decide_False by done. destruct (Nat.ltb_spec count 2); [|lia].
      destruct (IH ms' fuel count Hms ltac:(lia) ltac:(lia)) as (n & -> & Hn). by exists n.
Qed.

(** For an object value of a body, repeatsJSONMember returns, and tells
    exactly whether two or more of its members have a name encoding/json would
    read as [field]. *)
Lemma repeats_exact b i v r ms field : at_offset b i (text v ++ r) → wf v → object_members v = Some ms →
  repeatsJSONMember b i field = Some (1 <? length (matching field ms))%nat.
Proof.
  intros Ha Hw Ho. destruct (object_turns b i v r ms Ha Hw Ho) as [Ht Hs]. unfold repeatsJSONMember, forEachJSONMember.
  destruct (repeats_loop b _ _ _ ms field (length b) 0 Ht Hs) as (n & -> & Hn); [|lia|by rewrite Hn].
  rewrite length_spans. apply at_length in Ha. rewrite length_app in Ha. pose proof (object_members_length v ms Hw Ho). lia.
Qed.

(** ** Folded names *)

Definition lower_letter (c : ascii) : bool := ((97 <=? ascii_Z c) && (ascii_Z c <=? 122))%Z.

Definition u_free (k : bytes) : Prop := existsb (has_prefix [backslash; "u"%char]) (tails k) = false.

Lemma u_free_cons c k : u_free (c :: k) → u_free k ∧ has_prefix [backslash; "u"%char] (c :: k) = false.
Proof. unfold u_free. cbn [tails existsb]. by intros [-> ->]%orb_false_iff. Qed.

Lemma u_free_drop n k : u_free k → u_free (drop n k).
Proof. revert k. induction n as [|n IH]; intros [|c k]; try done. intros [H _]%u_free_cons. by apply IH. Qed.

Lemma unquote_skip_drop n k : unquote_from n k = unquote_from 0 (drop n k).
Proof. revert k. induction n as [|n IH]; intros [|c k]; try done. apply IH. Qed.

Lemma runes_skip_drop n k : runes_from n k = runes_from 0 (drop n k).
Proof. revert k. induction n as [|n IH]; intros [|c k]; try done. apply IH. Qed.

Lemma runes_decode l r n tail : l ≠ [] → DecodeRune (l ++ tail) = (r, n) → length l = n → runes (l ++ tail) = r :: runes tail.
Proof.
  intros Hl Hd Hn. destruct l as [|c l]; [done|]. unfold runes. cbn [app runes_from]. cbn [app] in Hd. rewrite Hd.
  rewrite runes_skip_drop. do 2 f_equal. subst n. simpl. rewrite Nat.sub_0_r. apply drop_app_length.
Qed.

Lemma runes_encode_error tail : runes (EncodeRune RuneError ++ tail) = RuneError :: runes tail.
Proof. by apply (runes_decode _ _ 3). Qed.

Lemma runes_ascii e tail : (ascii_Z e < 128)%Z → runes (e :: tail) = ascii_Z e :: runes tail.
Proof. intros H. apply (runes_decode [e] _ 1); [done| |done]. simpl. by rewrite (proj2 (Z.ltb_lt _ _)). Qed.

Lemma folds_to_letter r z : folds_to r z = true → (97 ≤ z ≤ 122)%Z → (r = z ∨ r = z - 32 ∨ (z = 115 ∧ r = 383) ∨ (z = 107 ∧ r = 8490))%Z.
Proof.
  unfold folds_to. intros H Hz. rewrite !orb_true_iff, !andb_true_iff, !Z.eqb_eq in H. lia.
Qed.

(** What the raw bytes are where the decoded rune folds to the letter [z]. *)
Definition raw_folds (z : Z) (k : bytes) (n : nat) : Prop :=
  (n = 1 ∧ ∃ c k', k = c :: k' ∧ (ascii_Z c = z ∨ ascii_Z c = z - 32)%Z) ∨
  (z = 115%Z ∧ n = 2 ∧ take 2 k = long_s) ∨ (z = 107%Z ∧ n = 3 ∧ take 3 k = kelvin).

Lemma step_folds c k out n tail z : unquote_step (c :: k) = Some (out, n) → has_prefix [backslash; "u"%char] (c :: k) = false →
  (97 ≤ z ≤ 122)%Z → ∃ r, runes (out ++ tail) = r :: runes tail ∧ (folds_to r z = true → raw_folds z (c :: k) n).
Proof.
  intros Hs Hu Hz. unfold unquote_step in Hs. destruct (Ascii.eqb_spec c backslash) as [->|Hb].
  - destruct k as [|e k]; [done|]. unfold has_prefix in Hu. cbn [length take] in Hu.
    assert (Hne : Ascii.eqb e "u" = false).
    { apply Ascii.eqb_neq. intros ->. by apply bool_decide_eq_false in Hu. }
    assert (Hone : ∃ x, out = [x] ∧ (ascii_Z x < 65 ∨ ascii_Z x = 92)%Z).
    { destruct (Ascii.eqb e quote || Ascii.eqb e backslash || Ascii.eqb e "/" || Ascii.eqb e "'") eqn:E.
      - injection Hs as <- <-. exists e. split; [done|]. rewrite !orb_true_iff, !Ascii.eqb_eq in E.
        destruct E as [[[->| ->]| ->]| ->]; vm_compute; auto.
      - rewrite Hne in Hs. repeat case_match; simplify_eq; eexists; (split; [done|]); vm_compute; auto. }
    destruct Hone as (x & -> & Hx). exists (ascii_Z x). split; [apply runes_ascii; lia|]. intros Hf%folds_to_letter; [|done]. lia.
  - destruct (Ascii.eqb c quote || (ascii_Z c <? 32)%Z); [done|]. destruct (ascii_Z c <? 128)%Z eqn:Ec.
    + injection Hs as <- <-. apply Z.ltb_lt in Ec. exists (ascii_Z c). split; [by apply runes_ascii|].
      intros Hf%folds_to_letter; [|done]. left. split; [done|]. exists c, k. split; [done|]. lia.
    + apply Z.ltb_ge in Ec. destruct (DecodeRune (c :: k)) as [r m] eqn:D. injection Hs as <- <-.
      pose proof (DecodeRune_width _ _ _ D) as Hw.
      destruct (DecodeRune_spec _ _ _ D ltac:(done)) as [[= -> ->]|(Hok & Hm & He & Ht)].
      { exists RuneError. split; [apply runes_encode_error|]. intros Hf%folds_to_letter; [|done]. unfold RuneError in Hf. lia. }
      assert (Hlen : length (take m (c :: k)) = m) by (rewrite length_take; lia).
      exists r. split.
      { rewrite He. apply (runes_decode _ _ m); [by destruct m; [lia|]|apply Ht|done]. }
      assert (Hhigh : (128 ≤ r)%Z).
      { destruct (Z.ltb_spec r 128) as [Hr|]; [|done]. rewrite EncodeRune_ok, (proj2 (Z.ltb_lt _ _) Hr) in He by done.
        destruct m as [|m]; [lia|]. injection He as He _. subst c. rewrite ascii_Z_byte in Ec; unfold rune_ok in Hok; lia. }
      intros [Hf|[Hf|[[-> ->]|[-> ->]]]]%folds_to_letter; [lia|lia| | |done].
      * right; left. rewrite <- He in Hlen. vm_compute in Hlen. subst m. split; [done|]. split; [done|]. by rewrite <- He.
      * right; right. rewrite <- He in Hlen. vm_compute in Hlen. subst m. split; [done|]. split; [done|]. by rewrite <- He.
Qed.

Lemma lor_32 d z : (97 ≤ z ≤ 122)%Z → (ascii_Z d = z ∨ ascii_Z d = z - 32)%Z → Z.lor (ascii_Z d) 32 = z.
Proof.
  intros Hz [H|H]; (replace z with (Z.of_nat (Z.to_nat z - 97) + 97)%Z in * by lia);
    set (n := Z.to_nat z - 97) in *; assert (Hn : n < 26) by lia; clearbody n; rewrite H; clear H Hz;
    do 26 (destruct n as [|n]; [done|]); lia.
Qed.

Lemma take_prefix p k post : p ≠ [] → take (length p) k = p → has_prefix p (k ++ post) = true ∧ drop (length p) (k ++ post) = drop (length p) k ++ post.
Proof.
  intros Hp H. assert (Hl : length p ≤ length k) by (apply (f_equal length) in H; rewrite length_take in H; lia).
  unfold has_prefix. rewrite take_app_le, drop_app_le by lia. by rewrite H, bool_decide_true.
Qed.

Lemma folded_prefix_step z c name data n j k : ascii_Z c = z → (97 ≤ z ≤ 122)%Z → raw_folds z k n →
  folded_prefix (c :: name) (k ++ data) j = folded_prefix name (drop n k ++ data) (j + n).
Proof.
  intros Hc Hz Hr. cbn [folded_prefix]. rewrite Hc.
  destruct Hr as [(-> & d & k' & -> & Hd)|[(-> & -> & Ht)|(-> & -> & Ht)]].
  - cbn [app drop]. rewrite (lor_32 d z Hz Hd), Z.eqb_refl, (proj2 (Z.leb_le 97 z)), (proj2 (Z.leb_le z 122)) by lia. cbn [andb].
    by rewrite Nat.add_1_r, drop_0.
  - destruct (take_prefix long_s k data ltac:(done) Ht) as [Hp Hd]. destruct k as [|d [|d2 k]]; [done|done|]. injection Ht as -> ->.
    cbn [app] in *. rewrite Hp. change (drop 2 ("197"%char :: "191"%char :: k ++ data)) with (k ++ data).
    change (Ascii.eqb "197" c) with (Ascii.eqb "197" c). assert (E : Ascii.eqb "197" c = false).
    { apply Ascii.eqb_neq. intros <-. by vm_compute in Hc. }
    rewrite E. done.
  - destruct (take_prefix kelvin k data ltac:(done) Ht) as [Hp Hd]. destruct k as [|d [|d2 [|d3 k]]]; [done|done|done|]. injection Ht as -> -> ->.
    cbn [app] in *. rewrite Hp. assert (E : Ascii.eqb "226" c = false).
    { apply Ascii.eqb_neq. intros <-. by vm_compute in Hc. }
    rewrite E. done.
Qed.

Lemma folded_prefix_found name k post u j : forallb lower_letter name = true → u_free k → unquote_from 0 k = Some u →
  fold_match (runes u) name = true → j + length name ≤ folded_prefix name (k ++ post) j.
Proof.
  revert k u j. induction name as [|c name IH]; intros k u j Hl Hu Hq Hm; [simpl; lia|].
  cbn [forallb] in Hl. apply andb_true_iff in Hl as [Hc Hl]. unfold lower_letter in Hc. apply andb_true_iff in Hc as [Hc1%Z.leb_le Hc2%Z.leb_le].
  destruct k as [|d k]; [injection Hq as <-; done|]. cbn [unquote_from] in Hq.
  destruct (unquote_step (d :: k)) as [[out n]|] eqn:Hs; [|done]. rewrite unquote_skip_drop in Hq.
  destruct (unquote_from 0 (drop (n - 1) k)) as [rest|] eqn:Hrest; [|done]. injection Hq as <-.
  destruct (step_folds d k out n rest (ascii_Z c) Hs (proj2 (u_free_cons _ _ Hu)) ltac:(lia)) as (r & Hr & Hraw).
  rewrite Hr in Hm. cbn [fold_match] in Hm. apply andb_true_iff in Hm as [Hf Hm].
  assert (El : lower_z (ascii_Z c) = ascii_Z c) by (unfold lower_z; destruct (Z.leb_spec (ascii_Z c) 90); [lia|by rewrite andb_false_r]).
  rewrite El in Hf. specialize (Hraw Hf). rewrite (folded_prefix_step (ascii_Z c) c name post n j (d :: k)) by (done || lia).
  assert (Hn : 1 ≤ n) by (destruct Hraw as [[-> _]|[(_ & -> & _)|(_ & -> & _)]]; lia).
  assert (Ed : drop (n - 1) k = drop n (d :: k)) by (destruct n; [lia|]; simpl; by rewrite Nat.sub_0_r).
  rewrite Ed in Hrest. specialize (IH (drop n (d :: k)) rest (j + n) Hl (u_free_drop n _ Hu) Hrest Hm). simpl. lia.
Qed.

Lemma tails_app f pre l : existsb f (tails l) = true → existsb f (tails (pre ++ l)) = true.
Proof. induction pre as [|c pre IH]; [done|]. intros H. cbn [app tails existsb]. by rewrite IH, orb_true_r. Qed.

Lemma tails_prefix p k post : existsb (has_prefix p) (tails k) = true → p ≠ [] → existsb (has_prefix p) (tails (k ++ post)) = true.
Proof.
  induction k as [|c k IH]; [done|]. cbn [app tails existsb]. intros [H|H]%orb_true_iff Hp; [|by rewrite IH, orb_true_r].
  unfold has_prefix in H. apply bool_decide_eq_true in H. destruct (take_prefix p (c :: k) post Hp H) as [H' _]. cbn [app] in H'. by rewrite H'.
Qed.

(** A string token of the data whose decoded value encoding/json would
    read as the lowercase [name] is never missed, whatever escapes, case or
    Unicode folding it is spelt with. *)
Theorem mayHoldFoldedName_complete data pre k post name : data = pre ++ string_token k ++ post → string_body_ok k = true →
  forallb lower_letter name = true → name ≠ [] → jsonNameMatches (jsonStringValue (string_token k)) name = true →
  mayHoldFoldedName data name = true.
Proof.
  intros -> Hk Hl Hne Hm. unfold mayHoldFoldedName. unfold string_token at 1 2. cbn [app]. rewrite <- !app_assoc.
  change (quote :: k ++ [quote] ++ post) with ([quote] ++ k ++ quote :: post).
  destruct (existsb (has_prefix [backslash; "u"%char]) (tails k)) eqn:Hu.
  { rewrite (tails_app _ pre); [done|]. apply (tails_app _ [quote]). by apply tails_prefix. }
  apply orb_true_iff. right. do 2 apply tails_app.
  rewrite jsonStringValue_unquote in Hm by done. unfold jsonNameMatches in Hm.
  assert (Hq : ∃ u, unquote_from 0 k = Some u ∧ fold_match (runes u) name = true).
  { destruct (unquote_from 0 k) as [u|]; [by exists u|]. by destruct name. }
  destruct Hq as (u & Hq & Hfm). pose proof (folded_prefix_found name k (quote :: post) u 0 Hl Hu Hq Hfm) as Hlen.
  assert (Hn : 1 ≤ length name) by (destruct name; [done|simpl; lia]).
  destruct (k ++ quote :: post) as [|x l] eqn:E; [by destruct k|]. cbn [tails existsb].
  unfold foldedPrefixLen. rewrite (proj2 (Nat.ltb_lt 0 _)); [done|lia].
Qed.

(** ** Examples *)

(** [cacheScope] with U+017F for its s. *)
Definition long_s_key : bytes := bs "cache" ++ long_s ++ bs "cope".
Definition long_s_body : bytes := ["{"%char] ++ string_token long_s_key ++ bs ":1}".

Lemma mayHoldFoldedName_complete_witness : mayHoldFoldedName long_s_body (bs "cachescope") = true.
Proof.
  exact (mayHoldFoldedName_complete long_s_body ["{"%char] long_s_key (bs ":1}") (bs "cachescope") ltac:(vm_compute; reflexivity)
    ltac:(vm_compute; reflexivity) ltac:(vm_compute; reflexivity) ltac:(discriminate) ltac:(vm_compute; reflexivity)).
Defined.

Definition repeated_body : bytes := ["{"%char] ++ string_token (bs "name") ++ bs ":1," ++ string_token (bs "NAME") ++ bs ":2}".
Definition repeated_tree : cst := Eval vm_compute in default (CEmpty false []) ((λ x, x.1.2) <$> parse repeated_body).

Lemma repeats_exact_witness : repeatsJSONMember repeated_body 0 (bs "name") = Some true.
Proof.
  exact (repeats_exact repeated_body 0 repeated_tree [] (default [] (object_members repeated_tree)) (bs "name")
    ltac:(split; [vm_compute; reflexivity|apply Nat.le_0_l])
    (proj1 (proj2 (proj2 (parse_spec repeated_body [] repeated_tree [] ltac:(vm_compute; reflexivity)))))
    ltac:(vm_compute; reflexivity)).
Defined.
