(* ===== verification/UsageScan.v ===== *)
(** The push-mode usage scanner: internal/gateway/usagescan.go.

    [Write] works on one chunk of the answer with offsets into it, as the code
    does; a value captured across chunks is kept in [capBuf].  The values
    reported to onValue are the list a Write returns with the new state.
    Masks are 32 bit words: one bit per path, at most 32 paths.

    The second half shows the state does not depend on how the answer is cut
    into chunks. *)

From stdpp Require Import base list strings option.
From Stdlib Require Import ZArith Lia Ascii.
From S2P Require Import Prelude Json RequestBody.

Definition jsonPath : Type := list bytes.
Definition usageCaptureLimit : nat := Z.to_nat 65536.
Definition usageKeyLimit : nat := 64.
Definition maxScanDepth : nat := 4.

Record scanFrame := ScanFrame { array : bool; expectKey : bool; mask : Z }.

Inductive capture_kind := captureContainer | captureString | captureScalar.
#[export] Instance capture_kind_eq_dec : EqDecision capture_kind.
Proof. solve_decision. Defined.

Record usageScanner := UsageScanner {
  frames : list scanFrame;
  depth : nat;
  dead : bool;
  rootDone : bool;
  inString : bool;
  escape : bool;
  stringIsKey : bool;
  inScalar : bool;
  key : bytes;
  keyOver : bool;
  pending : Z;
  capturing : bool;
  capKind : capture_kind;
  capPath : nat;
  capDepth : nat;
  capStart : nat;
  capOver : bool;
  capBuf : bytes
}.

(** The values reported: the path and the raw bytes. *)
Definition reported : Type := list (nat * bytes).

(** ** Masks *)

Definition bit (i : nat) : Z := Z.shiftl 1 (Z.of_nat i).

Fixpoint all_from (i : nat) (paths : list jsonPath) : Z :=
  match paths with [] => 0 | _ :: paths => Z.lor (bit i) (all_from (S i) paths) end.

Definition all (paths : list jsonPath) : Z := all_from 0 paths.

(** The loops of match and matchElement: the paths of [m] whose segment at
    [depth] is [name]. *)
Fixpoint match_from (i : nat) (paths : list jsonPath) (depth : nat) (m : Z) (name : bytes) : Z :=
  match paths with
  | [] => 0
  | p :: paths =>
      let out := match_from (S i) paths depth m name in
      if Z.testbit m (Z.of_nat i) && (depth <=? length p) && bool_decide (p !! (depth - 1) = Some name)
      then Z.lor (bit i) out else out
  end.

Section scanner.
Variable paths : list jsonPath.

Definition newUsageScanner : option usageScanner :=
  if (32 <? length paths)%nat || existsb (λ p, (length p =? 0) || (maxScanDepth <? length p))%nat paths then None
  else Some (UsageScanner (replicate maxScanDepth (ScanFrame false false 0)) 0 false false false false false false [] false 0
               false captureContainer 0 0 0 false []).

Definition match_ (s : usageScanner) (m : Z) (name : bytes) : Z := match_from 0 paths (depth s) m name.
Definition matchElement (s : usageScanner) (m : Z) : Z := match_from 0 paths (depth s) m (bs "*").

Definition top (s : usageScanner) : option scanFrame :=
  if (depth s =? 0)%nat || (maxScanDepth <? depth s)%nat then None else frames s !! (depth s - 1).

Definition set_top (s : usageScanner) (f : scanFrame) : usageScanner :=
  UsageScanner (<[depth s - 1 := f]> (frames s)) (depth s) (dead s) (rootDone s) (inString s) (escape s) (stringIsKey s) (inScalar s)
    (key s) (keyOver s) (pending s) (capturing s) (capKind s) (capPath s) (capDepth s) (capStart s) (capOver s) (capBuf s).

Definition set_dead (s : usageScanner) : usageScanner :=
  UsageScanner (frames s) (depth s) true (rootDone s) (inString s) (escape s) (stringIsKey s) (inScalar s)
    (key s) (keyOver s) (pending s) (capturing s) (capKind s) (capPath s) (capDepth s) (capStart s) (capOver s) (capBuf s).

Definition set_rootDone (s : usageScanner) : usageScanner :=
  UsageScanner (frames s) (depth s) (dead s) true (inString s) (escape s) (stringIsKey s) (inScalar s)
    (key s) (keyOver s) (pending s) (capturing s) (capKind s) (capPath s) (capDepth s) (capStart s) (capOver s) (capBuf s).

Definition set_string (s : usageScanner) (inS esc isKey : bool) : usageScanner :=
  UsageScanner (frames s) (depth s) (dead s) (rootDone s) inS esc isKey (inScalar s)
    (key s) (keyOver s) (pending s) (capturing s) (capKind s) (capPath s) (capDepth s) (capStart s) (capOver s) (capBuf s).

Definition set_inScalar (s : usageScanner) (b : bool) : usageScanner :=
  UsageScanner (frames s) (depth s) (dead s) (rootDone s) (inString s) (escape s) (stringIsKey s) b
    (key s) (keyOver s) (pending s) (capturing s) (capKind s) (capPath s) (capDepth s) (capStart s) (capOver s) (capBuf s).

Definition set_key (s : usageScanner) (k : bytes) (over : bool) : usageScanner :=
  UsageScanner (frames s) (depth s) (dead s) (rootDone s) (inString s) (escape s) (stringIsKey s) (inScalar s)
    k over (pending s) (capturing s) (capKind s) (capPath s) (capDepth s) (capStart s) (capOver s) (capBuf s).

Definition set_pending (s : usageScanner) (m : Z) : usageScanner :=
  UsageScanner (frames s) (depth s) (dead s) (rootDone s) (inString s) (escape s) (stringIsKey s) (inScalar s)
    (key s) (keyOver s) m (capturing s) (capKind s) (capPath s) (capDepth s) (capStart s) (capOver s) (capBuf s).

Definition set_depth (s : usageScanner) (fs : list scanFrame) (d : nat) : usageScanner :=
  UsageScanner fs d (dead s) (rootDone s) (inString s) (escape s) (stringIsKey s) (inScalar s)
    (key s) (keyOver s) (pending s) (capturing s) (capKind s) (capPath s) (capDepth s) (capStart s) (capOver s) (capBuf s).

Definition set_cap (s : usageScanner) (c : bool) (k : capture_kind) (p d st : nat) (over : bool) (buf : bytes) : usageScanner :=
  UsageScanner (frames s) (depth s) (dead s) (rootDone s) (inString s) (escape s) (stringIsKey s) (inScalar s)
    (key s) (keyOver s) (pending s) c k p d st over buf.

Definition set_capStart (s : usageScanner) (st : nat) : usageScanner :=
  set_cap s (capturing s) (capKind s) (capPath s) (capDepth s) st (capOver s) (capBuf s).

(** ** Captures *)

Definition appendCapture (s : usageScanner) (b : bytes) : usageScanner :=
  if capOver s then s
  else if (usageCaptureLimit <? length (capBuf s) + length b)%nat
  then set_cap s (capturing s) (capKind s) (capPath s) (capDepth s) (capStart s) true []
  else set_cap s (capturing s) (capKind s) (capPath s) (capDepth s) (capStart s) false (capBuf s ++ b).

Definition endCapture (s : usageScanner) (p : bytes) (end_ : nat) : usageScanner * reported :=
  let s := appendCapture s (sub p (capStart s) end_) in
  (set_cap s false (capKind s) (capPath s) (capDepth s) (capStart s) (capOver s) [],
   if capOver s then [] else [(capPath s, capBuf s)]).

(** The first path of [m] that ends at [depth]. *)
Fixpoint path_at (i : nat) (paths : list jsonPath) (depth : nat) (m : Z) : option nat :=
  match paths with
  | [] => None
  | p :: paths => if Z.testbit m (Z.of_nat i) && (length p =? depth)%nat then Some i else path_at (S i) paths depth m
  end.

Definition startValue (s : usageScanner) (i : nat) (kind : capture_kind) : usageScanner * Z :=
  if (depth s =? 0)%nat then
    if rootDone s then (set_dead s, 0%Z) else (s, all paths)
  else
    let '(s, m) := match top s with
                   | Some f => if array f then (s, matchElement s (mask f)) else (set_pending s 0, pending s)
                   | None => (s, 0%Z)
                   end in
    if capturing s || (m =? 0)%Z then (s, m)
    else match path_at 0 paths (depth s) m with
         | Some idx => (set_cap s true kind idx (depth s) i false [], 0%Z)
         | None => (s, m)
         end.

(** ** Strings *)

Definition startString (s : usageScanner) (i : nat) : usageScanner :=
  let s := set_string s true false false in
  match top s with
  | Some f =>
      if negb (array f) && expectKey f then
        let s := set_top s (ScanFrame (array f) false (mask f)) in
        set_key (set_string s true false true) [] (mask f =? 0)%Z
      else (startValue s i captureString).1
  | None => (startValue s i captureString).1
  end.

Definition keyAppend (s : usageScanner) (b : bytes) : usageScanner :=
  if negb (stringIsKey s) || keyOver s then s
  else if (usageKeyLimit <? length (key s) + length b)%nat then set_key s (key s) true
  else set_key s (key s ++ b) false.

(** bytes.IndexAny of a quote or a backslash. *)
Fixpoint index_any (b : bytes) : option nat :=
  match b with
  | [] => None
  | c :: b => if Ascii.eqb c quote || Ascii.eqb c backslash then Some 0 else S <$> index_any b
  end.

(** The closing quote at [k]. *)
Definition string_end (s : usageScanner) (p : bytes) (k : nat) : usageScanner * reported :=
  let s := set_string s false (escape s) (stringIsKey s) in
  if stringIsKey s then
    (set_pending s (if keyOver s then 0%Z else match top s with Some f => match_ s (mask f) (key s) | None => 0%Z end), [])
  else if capturing s && bool_decide (capKind s = captureString) && (depth s =? capDepth s)%nat then endCapture s p (S k)
  else if (depth s =? 0)%nat then (set_rootDone s, [])
  else (s, []).

Definition stringBytes (s : usageScanner) (p : bytes) (i : nat) : usageScanner * reported * nat :=
  if escape s then (keyAppend (set_string s (inString s) false (stringIsKey s)) (sub p i (S i)), [], S i)
  else match index_any (drop i p) with
       | None => (keyAppend s (drop i p), [], length p)
       | Some j =>
           let k := i + j in
           if bool_decide (p !! k = Some backslash)
           then (let s := keyAppend s (sub p i (S k)) in set_string s (inString s) true (stringIsKey s), [], S k)
           else let '(s, out) := string_end (keyAppend s (sub p i k)) p k in (s, out, S k)
       end.

(** ** Scalars and containers *)

Definition scalarEnds (c : ascii) : bool := delimiter c.

Definition endScalar (s : usageScanner) (p : bytes) (i : nat) : usageScanner * reported :=
  let s := set_inScalar s false in
  if capturing s && bool_decide (capKind s = captureScalar) && (depth s =? capDepth s)%nat then endCapture s p i
  else if (depth s =? 0)%nat then (set_rootDone s, [])
  else (s, []).

Definition open (s : usageScanner) (i : nat) (arr : bool) : usageScanner :=
  let '(s, m) := startValue s i captureContainer in
  let fs := if (depth s <? maxScanDepth)%nat then <[depth s := ScanFrame arr (negb arr) m]> (frames s) else frames s in
  set_depth s fs (S (depth s)).

Definition close (s : usageScanner) (p : bytes) (i : nat) : usageScanner * reported :=
  if (depth s =? 0)%nat then (set_dead s, [])
  else
    let s := set_depth s (frames s) (depth s - 1) in
    if capturing s && bool_decide (capKind s = captureContainer) && (depth s =? capDepth s)%nat then endCapture s p (S i)
    else if (depth s =? 0)%nat then (set_rootDone s, [])
    else (s, []).

(** The switch of Write on the byte at [i], outside strings and scalars. *)
Definition structural (s : usageScanner) (p : bytes) (i : nat) (c : ascii) : usageScanner * reported :=
  if json_space c || Ascii.eqb c ":" then (s, [])
  else if Ascii.eqb c quote then (startString s i, [])
  else if Ascii.eqb c "," then
    (match top s with Some f => if array f then s else set_top s (ScanFrame (array f) true (mask f)) | None => s end, [])
  else if Ascii.eqb c "{" || Ascii.eqb c "[" then (open s i (Ascii.eqb c "["), [])
  else if Ascii.eqb c "}" || Ascii.eqb c "]" then close s p i
  else (set_inScalar (startValue s i captureScalar).1 true, []).

(** One turn of Write's loop at [i]. *)
Definition turn_ (s : usageScanner) (p : bytes) (i : nat) (c : ascii) : usageScanner * reported * nat :=
  if inString s then stringBytes s p i
  else if inScalar s && negb (scalarEnds c) then (s, [], S i)
  else
    let '(s, out1) := if inScalar s then endScalar s p i else (s, []) in
    let '(s, out2) := structural s p i c in
    (s, out1 ++ out2, S i).

Fixpoint write_loop (fuel : nat) (s : usageScanner) (p : bytes) (i : nat) : usageScanner * reported :=
  match fuel with
  | O => (s, [])
  | S fuel =>
      if dead s then (s, [])
      else match p !! i with
           | None => (s, [])
           | Some c =>
               let '(s, out, i) := turn_ s p i c in
               let '(s, rest) := write_loop fuel s p i in (s, out ++ rest)
           end
  end.

(** Every turn advances, so the chunk's length bounds the turns. *)
Definition Write (s : usageScanner) (p : bytes) : usageScanner * reported :=
  if dead s then (s, [])
  else
    let '(s, out) := write_loop (length p) (set_capStart s 0) p 0 in
    (if capturing s then appendCapture s (drop (capStart s) p) else s, out).

(** The chunks of an answer, one Write each. *)
Fixpoint writes (s : usageScanner) (chunks : list bytes) : usageScanner * reported :=
  match chunks with
  | [] => (s, [])
  | p :: chunks => let '(s, out) := Write s p in let '(s, rest) := writes s chunks in (s, out ++ rest)
  end.
End scanner.

(** The usage scanner does not depend on how the answer is cut into chunks.

    [norm p i s] is the state the scanner would have if the chunk [p] ended
    at [i]: the part of a captured value read so far is in the buffer.  [feed]
    takes one byte, as a Write of that byte alone would.  A turn of Write's
    loop over several bytes is the feeds of those bytes. *)


Section facts.
Variable paths : list jsonPath.

Local Abbreviation turn_ := (turn_ paths).
Local Abbreviation startValue := (startValue paths).
Local Abbreviation startString := (startString paths).
Local Abbreviation structural := (structural paths).
Local Abbreviation stringBytes := (stringBytes paths).
Local Abbreviation string_end := (string_end paths).
Local Abbreviation open := (open paths).
Local Abbreviation write_loop := (write_loop paths).
Local Abbreviation Write := (Write paths).
Local Abbreviation writes := (writes paths).

(** ** The state at an offset *)

(** A captured value so far, [None] once it passed the limit. *)
Definition capture : Type := option bytes.

Definition extend (v : capture) (l : bytes) : capture :=
  match v with
  | Some b => if (usageCaptureLimit <? length b + length l)%nat then None else Some (b ++ l)
  | None => None
  end.

Definition buffered (s : usageScanner) : capture := if capOver s then None else Some (capBuf s).
Definition captured (p : bytes) (i : nat) (s : usageScanner) : capture :=
  if capturing s then extend (buffered s) (sub p (capStart s) i) else Some [].
Definition is_over (v : capture) : bool := match v with None => true | Some _ => false end.

Definition live (p : bytes) (i : nat) (s : usageScanner) : usageScanner := {|
  frames := frames s; depth := depth s; dead := dead s; rootDone := rootDone s;
  inString := inString s; escape := escape s; stringIsKey := stringIsKey s; inScalar := inScalar s;
  key := if keyOver s then [] else key s; keyOver := keyOver s; pending := pending s;
  capturing := capturing s;
  capKind := if capturing s then capKind s else captureContainer;
  capPath := if capturing s then capPath s else 0;
  capDepth := if capturing s then capDepth s else 0;
  capStart := 0;
  capOver := is_over (captured p i s);
  capBuf := default [] (captured p i s)
|}.

(** A dead scanner ignores everything. *)
Definition deadScanner : usageScanner :=
  UsageScanner [] 0 true false false false false false [] false 0 false captureContainer 0 0 0 false [].

Definition norm (p : bytes) (i : nat) (s : usageScanner) : usageScanner := if dead s then deadScanner else live p i s.

Definition feed (r : usageScanner) (c : ascii) : usageScanner * reported :=
  if dead r then (r, [])
  else let '(s, out, _) := turn_ r [c] 0 c in (norm [c] 1 s, out).

Fixpoint feeds (r : usageScanner) (l : bytes) : usageScanner * reported :=
  match l with
  | [] => (r, [])
  | c :: l => let '(r, out) := feed r c in let '(r, rest) := feeds r l in (r, out ++ rest)
  end.

Lemma feeds_app r l1 l2 : feeds r (l1 ++ l2) =
  let '(r1, out1) := feeds r l1 in let '(r2, out2) := feeds r1 l2 in (r2, out1 ++ out2).
Proof.
  revert r. induction l1 as [|c l1 IH]; intros r; simpl; [by destruct (feeds r l2)|].
  destruct (feed r c) as [r1 o1]. rewrite IH. destruct (feeds r1 l1) as [r2 o2]. destruct (feeds r2 l2) as [r3 o3]. by rewrite app_assoc.
Qed.

Lemma feeds_dead l : feeds deadScanner l = (deadScanner, []).
Proof. induction l as [|c l IH]; [done|]. simpl. by rewrite IH. Qed.

(** ** One more byte *)

Lemma sub_snoc p i st c : p !! i = Some c → st ≤ i → sub p st (S i) = sub p st i ++ [c].
Proof.
  intros Hc Hst. unfold sub. replace (S i - st) with (S (i - st)) by lia.
  apply take_S_r. rewrite lookup_drop. by replace (st + (i - st)) with i by lia.
Qed.

Lemma sub_one p i c : p !! i = Some c → sub p i (S i) = [c].
Proof. intros Hc. rewrite (sub_snoc _ _ _ c) by (done || lia). unfold sub. by rewrite Nat.sub_diag. Qed.

Lemma sub_nil p i : sub p i i = [].
Proof. unfold sub. by rewrite Nat.sub_diag. Qed.

Lemma length_snoc (l : bytes) c : length (l ++ [c]) = S (length l).
Proof. rewrite length_app. simpl. lia. Qed.

Lemma extend_app v l1 l2 : extend (extend v l1) l2 = extend v (l1 ++ l2).
Proof.
  destruct v as [b|]; [|done]. simpl. rewrite length_app. destruct (Nat.ltb_spec usageCaptureLimit (length b + length l1)); simpl.
  - destruct (Nat.ltb_spec usageCaptureLimit (length b + (length l1 + length l2))); [done|lia].
  - rewrite length_app, Nat.add_assoc. destruct (_ <? _)%nat; [done|]. by rewrite app_assoc.
Qed.

Lemma buffered_live p i s : buffered (live p i s) = captured p i s.
Proof. unfold buffered; simpl. by destruct (captured p i s). Qed.

Lemma captured_step p i s c : p !! i = Some c → capStart s ≤ i → captured p (S i) s = captured [c] 1 (live p i s).
Proof.
  intros Hc Hst. unfold captured at 1 2. rewrite buffered_live. simpl. destruct (capturing s) eqn:E; [|done].
  unfold captured. rewrite E, (sub_snoc _ _ _ c) by done. by rewrite <- extend_app.
Qed.

(** Reading the byte at [i] without acting on it. *)
Lemma live_step p i s c : p !! i = Some c → capStart s ≤ i → live p (S i) s = live [c] 1 (live p i s).
Proof.
  intros Hc Hst. unfold live at 1 2. rewrite <- (captured_step p i s c) by done. simpl.
  f_equal; try (by destruct (capturing s)); by destruct (keyOver s).
Qed.

(** ** Corresponding states *)

(** [s1], in the chunk [p] up to [i], and [s2], in [q] up to [j], are the
    same state. *)
Record same (p : bytes) (i : nat) (q : bytes) (j : nat) (s1 s2 : usageScanner) : Prop := Same {
  same_live : live p i s1 = live q j s2;
  same_start1 : capStart s1 ≤ i;
  same_start2 : capStart s2 ≤ j;
  same_key1 : length (key s1) ≤ usageKeyLimit;
  same_key2 : length (key s2) ≤ usageKeyLimit
}.

Section same.
Context (p : bytes) (i : nat) (q : bytes) (j : nat).
Local Abbreviation R := (same p i q j).

Lemma same_frames s1 s2 : R s1 s2 → frames s1 = frames s2.
Proof. by intros [E%(f_equal frames) _ _ _ _]. Qed.
Lemma same_depth s1 s2 : R s1 s2 → depth s1 = depth s2.
Proof. by intros [E%(f_equal depth) _ _ _ _]. Qed.
Lemma same_dead s1 s2 : R s1 s2 → dead s1 = dead s2.
Proof. by intros [E%(f_equal dead) _ _ _ _]. Qed.
Lemma same_rootDone s1 s2 : R s1 s2 → rootDone s1 = rootDone s2.
Proof. by intros [E%(f_equal rootDone) _ _ _ _]. Qed.
Lemma same_inString s1 s2 : R s1 s2 → inString s1 = inString s2.
Proof. by intros [E%(f_equal inString) _ _ _ _]. Qed.
Lemma same_escape s1 s2 : R s1 s2 → escape s1 = escape s2.
Proof. by intros [E%(f_equal escape) _ _ _ _]. Qed.
Lemma same_isKey s1 s2 : R s1 s2 → stringIsKey s1 = stringIsKey s2.
Proof. by intros [E%(f_equal stringIsKey) _ _ _ _]. Qed.
Lemma same_inScalar s1 s2 : R s1 s2 → inScalar s1 = inScalar s2.
Proof. by intros [E%(f_equal inScalar) _ _ _ _]. Qed.
Lemma same_keyOver s1 s2 : R s1 s2 → keyOver s1 = keyOver s2.
Proof. by intros [E%(f_equal keyOver) _ _ _ _]. Qed.
Lemma same_key s1 s2 : R s1 s2 → keyOver s1 = false → key s1 = key s2.
Proof. intros H Hk. pose proof (same_keyOver _ _ H) as Hk2. destruct H as [E%(f_equal key) _ _ _ _]. simpl in E. by rewrite <- Hk2, Hk in E. Qed.
Lemma same_pending s1 s2 : R s1 s2 → pending s1 = pending s2.
Proof. by intros [E%(f_equal pending) _ _ _ _]. Qed.
Lemma same_capturing s1 s2 : R s1 s2 → capturing s1 = capturing s2.
Proof. by intros [E%(f_equal capturing) _ _ _ _]. Qed.
Lemma same_capKind s1 s2 : R s1 s2 → capturing s1 = true → capKind s1 = capKind s2.
Proof. intros H Hk. pose proof (same_capturing _ _ H) as Hk2. destruct H as [E%(f_equal capKind) _ _ _ _]. simpl in E. by rewrite <- Hk2, Hk in E. Qed.
Lemma same_capPath s1 s2 : R s1 s2 → capturing s1 = true → capPath s1 = capPath s2.
Proof. intros H Hk. pose proof (same_capturing _ _ H) as Hk2. destruct H as [E%(f_equal capPath) _ _ _ _]. simpl in E. by rewrite <- Hk2, Hk in E. Qed.
Lemma same_capDepth s1 s2 : R s1 s2 → capturing s1 = true → capDepth s1 = capDepth s2.
Proof. intros H Hk. pose proof (same_capturing _ _ H) as Hk2. destruct H as [E%(f_equal capDepth) _ _ _ _]. simpl in E. by rewrite <- Hk2, Hk in E. Qed.
Lemma same_captured s1 s2 : R s1 s2 → captured p i s1 = captured q j s2.
Proof. intros [E _ _ _ _]. by rewrite <- (buffered_live p i s1), E, buffered_live. Qed.
Lemma same_top s1 s2 : R s1 s2 → top s1 = top s2.
Proof. intros H. unfold top. by rewrite (same_depth _ _ H), (same_frames _ _ H). Qed.

(** Updates outside the capture keep states corresponding. *)
Lemma same_update f s1 s2 : (∀ p i s, live p i (f s) = f (live p i s)) →
  (∀ s, capStart (f s) = capStart s) → (∀ s, key (f s) = key s) → R s1 s2 → R (f s1) (f s2).
Proof. intros Hf Hc Hk [E H1 H2 H3 H4]. constructor; rewrite ?Hc, ?Hk; try done. by rewrite !Hf, E. Qed.

Lemma same_set_top f s1 s2 : R s1 s2 → R (set_top s1 f) (set_top s2 f).
Proof. by apply (same_update (λ s, set_top s f)). Qed.
Lemma same_set_dead s1 s2 : R s1 s2 → R (set_dead s1) (set_dead s2).
Proof. by apply (same_update set_dead). Qed.
Lemma same_set_rootDone s1 s2 : R s1 s2 → R (set_rootDone s1) (set_rootDone s2).
Proof. by apply (same_update set_rootDone). Qed.
Lemma same_set_string a b c s1 s2 : R s1 s2 → R (set_string s1 a b c) (set_string s2 a b c).
Proof. by apply (same_update (λ s, set_string s a b c)). Qed.
Lemma same_set_inScalar b s1 s2 : R s1 s2 → R (set_inScalar s1 b) (set_inScalar s2 b).
Proof. by apply (same_update (λ s, set_inScalar s b)). Qed.
Lemma same_set_pending m s1 s2 : R s1 s2 → R (set_pending s1 m) (set_pending s2 m).
Proof. by apply (same_update (λ s, set_pending s m)). Qed.
Lemma same_set_depth fs d s1 s2 : R s1 s2 → R (set_depth s1 fs d) (set_depth s2 fs d).
Proof. by apply (same_update (λ s, set_depth s fs d)). Qed.
Lemma same_set_key k o s1 s2 : length k ≤ usageKeyLimit → R s1 s2 → R (set_key s1 k o) (set_key s2 k o).
Proof.
  intros Hk [E H1 H2 H3 H4]. constructor; try done. assert (Hf : ∀ p i s, live p i (set_key s k o) = set_key (live p i s) (if o then [] else k) o) by done.
  by rewrite !Hf, E.
Qed.
Lemma same_over k1 k2 s1 s2 : length k1 ≤ usageKeyLimit → length k2 ≤ usageKeyLimit → R s1 s2 → R (set_key s1 k1 true) (set_key s2 k2 true).
Proof.
  intros Hk1 Hk2 [E H1 H2 H3 H4]. constructor; try done. assert (Hf : ∀ p i s k, live p i (set_key s k true) = set_key (live p i s) [] true) by done.
  by rewrite !Hf, E.
Qed.

Lemma same_keyAppend l s1 s2 : R s1 s2 → R (keyAppend s1 l) (keyAppend s2 l).
Proof.
  intros H. unfold keyAppend. rewrite <- (same_isKey _ _ H), <- (same_keyOver _ _ H).
  destruct (stringIsKey s1); [|done]. destruct (keyOver s1) eqn:Ho; [done|]. cbn [negb orb]. rewrite <- (same_key _ _ H Ho).
  destruct (Nat.ltb_spec usageKeyLimit (length (key s1) + length l)); [apply same_over; [apply H|apply H|done]|].
  apply same_set_key; [rewrite length_app; lia|done].
Qed.

(** Ending a capture reports the value read so far. *)
Lemma endCapture_live s k : (endCapture s p k).2 = (if capturing s then match captured p k s with Some v => [(capPath s, v)] | None => [] end
  else (endCapture s p k).2) ∧ capturing (endCapture s p k).1 = false ∧ capStart (endCapture s p k).1 = capStart s ∧ key (endCapture s p k).1 = key s ∧
  ∀ p' i', live p' i' (endCapture s p k).1 =
    set_cap (live p' i' s) false captureContainer 0 0 0 false [].
Proof.
  unfold endCapture, appendCapture, captured, buffered. destruct (capOver s) eqn:E; cbn [fst snd].
  - split_and!; [destruct (capturing s); [by rewrite E|done]|done..].
  - simpl. destruct (_ <? _)%nat; cbn [fst snd]; (split_and!; [by destruct (capturing s)|done..]).
Qed.
End same.

(** ** One byte *)

Section one_byte.
Context (p : bytes) (i : nat) (c : ascii) (Hc : p !! i = Some c).
Local Abbreviation R := (same p (S i) [c] 1).

Lemma same_here s : capStart s ≤ i → length (key s) ≤ usageKeyLimit → R s (live p i s).
Proof.
  intros Hs Hk. constructor; [by apply live_step|lia|simpl; lia|done|]. simpl. destruct (keyOver s); [simpl; unfold usageKeyLimit; lia|done].
Qed.

(** A capture that starts at the byte. *)
Lemma same_start kind idx d s1 s2 : R s1 s2 → R (set_cap s1 true kind idx d i false []) (set_cap s2 true kind idx d 0 false []).
Proof.
  intros H. constructor; simpl; [|lia|lia|apply H|apply H].
  assert (Hf : ∀ p' i' st s v, captured p' i' (set_cap s true kind idx d st false []) = v →
    live p' i' (set_cap s true kind idx d st false []) = set_cap (live p' i' s) true kind idx d 0 (is_over v) (default [] v))
    by (intros ????? <-; done).
  rewrite (Hf _ _ _ _ (Some [c])), (Hf _ _ _ _ (Some [c])); [by rewrite (same_live _ _ _ _ _ _ H)|done|].
  unfold captured, buffered. simpl. by rewrite (sub_one _ _ _ Hc).
Qed.

Lemma same_startValue kind s1 s2 : R s1 s2 → R (startValue s1 i kind).1 (startValue s2 0 kind).1 ∧ (startValue s1 i kind).2 = (startValue s2 0 kind).2.
Proof.
  intros H. unfold UsageScan.startValue.
  replace (depth s2 =? 0)%nat with (depth s1 =? 0)%nat by (by rewrite (same_depth _ _ _ _ _ _ H)).
  rewrite <- (same_rootDone _ _ _ _ _ _ H), <- (same_top _ _ _ _ _ _ H).
  destruct (depth s1 =? 0)%nat; [destruct (rootDone s1); [split; [by apply same_set_dead|done]|done]|].
  assert (Hgo : ∀ t1 t2 m, R t1 t2 → depth t1 = depth s1 →
    let r1 := (if capturing t1 || (m =? 0)%Z then (t1, m) else match path_at 0 paths (depth t1) m with
         | Some idx => (set_cap t1 true kind idx (depth t1) i false [], 0%Z) | None => (t1, m) end) in
    let r2 := (if capturing t2 || (m =? 0)%Z then (t2, m) else match path_at 0 paths (depth t2) m with
         | Some idx => (set_cap t2 true kind idx (depth t2) 0 false [], 0%Z) | None => (t2, m) end) in R r1.1 r2.1 ∧ r1.2 = r2.2).
  { intros t1 t2 m Ht Hd. cbv zeta. rewrite <- (same_capturing _ _ _ _ _ _ Ht), <- (same_depth _ _ _ _ _ _ Ht).
    destruct (capturing t1 || _); [done|]. destruct (path_at _ _ _ _); [|done]. split; [by apply same_start|done]. }
  destruct (top s1) as [f|].
  - destruct (array f).
    + replace (matchElement paths s2 (mask f)) with (matchElement paths s1 (mask f)); [by apply Hgo|].
      unfold matchElement. by rewrite (same_depth _ _ _ _ _ _ H).
    + rewrite <- (same_pending _ _ _ _ _ _ H). apply (Hgo (set_pending s1 0) (set_pending s2 0)); [by apply same_set_pending|done].
  - by apply Hgo.
Qed.

Lemma same_startString s1 s2 : R s1 s2 → R (startString s1 i) (startString s2 0).
Proof.
  intros H. unfold UsageScan.startString. apply (same_set_string _ _ _ _ true false false) in H. rewrite <- (same_top _ _ _ _ _ _ H).
  destruct (top _) as [f|]; [|by apply same_startValue]. destruct (negb (array f) && expectKey f); [|by apply same_startValue].
  apply same_set_key; [simpl; unfold usageKeyLimit; lia|]. by apply same_set_string, same_set_top.
Qed.

Lemma same_endCapture s1 s2 : R s1 s2 → capturing s1 = true →
  R (endCapture s1 p (S i)).1 (endCapture s2 [c] 1).1 ∧ (endCapture s1 p (S i)).2 = (endCapture s2 [c] 1).2.
Proof.
  intros H Hcap. destruct (endCapture_live p s1 (S i)) as (O1 & _ & C1 & K1 & L1). destruct (endCapture_live [c] s2 1) as (O2 & _ & C2 & K2 & L2).
  rewrite <- (same_capturing _ _ _ _ _ _ H), Hcap in O2. rewrite Hcap in O1. split.
  - constructor; rewrite ?C1, ?C2, ?K1, ?K2; try apply H. by rewrite L1, L2, (same_live _ _ _ _ _ _ H).
  - by rewrite O1, O2, (same_captured _ _ _ _ _ _ H), (same_capPath _ _ _ _ _ _ H Hcap).
Qed.

(** The tests on the capture agree. *)
Lemma same_ends kind s1 s2 : R s1 s2 →
  capturing s1 && bool_decide (capKind s1 = kind) && (depth s1 =? capDepth s1)%nat =
  capturing s2 && bool_decide (capKind s2 = kind) && (depth s2 =? capDepth s2)%nat.
Proof.
  intros H. rewrite <- (same_capturing _ _ _ _ _ _ H). destruct (capturing s1) eqn:E; [|done].
  by rewrite (same_capKind _ _ _ _ _ _ H E), (same_depth _ _ _ _ _ _ H), (same_capDepth _ _ _ _ _ _ H E).
Qed.

Definition same_out (r1 r2 : usageScanner * reported) : Prop := R r1.1 r2.1 ∧ r1.2 = r2.2.

(** What every end of a value does once its capture is looked after. *)
Lemma same_finish kind s1 s2 : R s1 s2 →
  same_out (if capturing s1 && bool_decide (capKind s1 = kind) && (depth s1 =? capDepth s1)%nat then endCapture s1 p (S i)
            else if (depth s1 =? 0)%nat then (set_rootDone s1, []) else (s1, []))
           (if capturing s2 && bool_decide (capKind s2 = kind) && (depth s2 =? capDepth s2)%nat then endCapture s2 [c] 1
            else if (depth s2 =? 0)%nat then (set_rootDone s2, []) else (s2, [])).
Proof.
  intros H. rewrite <- (same_ends kind _ _ H), <- (same_depth _ _ _ _ _ _ H).
  destruct (capturing s1 && _ && _) eqn:E.
  - apply same_endCapture; [done|]. by apply andb_true_iff in E as [[E _]%andb_true_iff _].
  - destruct (depth s1 =? 0)%nat; split; try done. by apply same_set_rootDone.
Qed.

Lemma same_string_end s1 s2 : R s1 s2 → same_out (string_end s1 p i) (string_end s2 [c] 0).
Proof.
  intros H. unfold UsageScan.string_end. rewrite <- (same_escape _ _ _ _ _ _ H), <- (same_isKey _ _ _ _ _ _ H).
  apply (same_set_string _ _ _ _ false (escape s1) (stringIsKey s1)) in H.
  set (t1 := set_string s1 false (escape s1) (stringIsKey s1)) in *. set (t2 := set_string s2 false (escape s1) (stringIsKey s1)) in *.
  rewrite <- (same_isKey _ _ _ _ _ _ H). destruct (stringIsKey t1).
  - unfold match_. rewrite <- (same_keyOver _ _ _ _ _ _ H), <- (same_top _ _ _ _ _ _ H), <- (same_depth _ _ _ _ _ _ H).
    destruct (keyOver t1) eqn:Ho; [split; [by apply same_set_pending|done]|]. rewrite <- (same_key _ _ _ _ _ _ H Ho).
    split; [by apply same_set_pending|done].
  - by apply (same_finish captureString).
Qed.

Lemma same_open arr s1 s2 : R s1 s2 → R (open s1 i arr) (open s2 0 arr).
Proof.
  intros H. unfold UsageScan.open. destruct (same_startValue captureContainer s1 s2 H) as [Hs Hm].
  destruct (startValue s1 i captureContainer) as [t1 m1], (startValue s2 0 captureContainer) as [t2 m2]. cbn [fst snd] in *. subst m2.
  rewrite <- (same_depth _ _ _ _ _ _ Hs), <- (same_frames _ _ _ _ _ _ Hs). by apply same_set_depth.
Qed.

Lemma same_close s1 s2 : R s1 s2 → same_out (close s1 p i) (close s2 [c] 0).
Proof.
  intros H. unfold close. rewrite <- (same_depth _ _ _ _ _ _ H), <- (same_frames _ _ _ _ _ _ H).
  destruct (depth s1 =? 0)%nat; [split; [by apply same_set_dead|done]|]. by apply (same_finish captureContainer), same_set_depth.
Qed.

Lemma same_structural s1 s2 : R s1 s2 → same_out (structural s1 p i c) (structural s2 [c] 0 c).
Proof.
  intros H. unfold UsageScan.structural. destruct (_ || _); [done|]. destruct (Ascii.eqb c quote); [split; [by apply same_startString|done]|].
  destruct (Ascii.eqb c ",").
  { rewrite <- (same_top _ _ _ _ _ _ H). destruct (top s1) as [f|]; [|done]. destruct (array f); [done|]. split; [by apply same_set_top|done]. }
  destruct (_ || _); [split; [by apply same_open|done]|]. destruct (_ || _); [by apply same_close|].
  split; [|done]. by apply same_set_inScalar, same_startValue.
Qed.

(** Ending a scalar reports what came before the byte. *)
Lemma same_endScalar s : capStart s ≤ i → length (key s) ≤ usageKeyLimit → same_out (endScalar s p i) (endScalar (live p i s) [c] 0).
Proof.
  intros Hs Hk. unfold endScalar. assert (H : R (set_inScalar s false) (set_inScalar (live p i s) false)) by (by apply same_set_inScalar, same_here).
  rewrite <- (same_ends captureScalar _ _ H), <- (same_depth _ _ _ _ _ _ H). destruct (capturing _ && _ && _) eqn:E.
  - apply andb_true_iff in E as [[E _]%andb_true_iff _]. destruct (endCapture_live p (set_inScalar s false) i) as (O1 & _ & C1 & K1 & L1).
    destruct (endCapture_live [c] (set_inScalar (live p i s) false) 0) as (O2 & _ & C2 & K2 & L2).
    split.
    + constructor; rewrite ?C1, ?C2, ?K1, ?K2; try apply H. by rewrite L1, L2, (same_live _ _ _ _ _ _ H).
    + rewrite O1, O2, <- (same_capturing _ _ _ _ _ _ H), E. simpl in E.
      assert (Ec : captured [c] 0 (set_inScalar (live p i s) false) = captured p i (set_inScalar s false)).
      { unfold captured at 1. simpl. rewrite E. change (buffered (set_inScalar (live p i s) false)) with (buffered (live p i s)).
        rewrite buffered_live. unfold sub; simpl. change (captured p i (set_inScalar s false)) with (captured p i s).
        destruct (captured p i s) as [v|] eqn:Ev; [|done]. simpl. rewrite Nat.add_0_r, app_nil_r.
        unfold captured in Ev. rewrite E in Ev. destruct (buffered s) as [b|]; [|done]. simpl in Ev.
        destruct (Nat.ltb_spec usageCaptureLimit (length b + length (sub p (capStart s) i))); [done|]. injection Ev as <-.
        rewrite length_app. destruct (Nat.ltb_spec usageCaptureLimit (length b + length (sub p (capStart s) i))); [lia|done]. }
      rewrite Ec. simpl. by rewrite E.
  - destruct (depth _ =? 0)%nat; split; try done. by apply same_set_rootDone.
Qed.
End one_byte.

(** ** Turns *)

Lemma same_norm p i q j s1 s2 : same p i q j s1 s2 → norm p i s1 = norm q j s2.
Proof. intros H. unfold norm. by rewrite (same_dead _ _ _ _ _ _ H), (same_live _ _ _ _ _ _ H). Qed.

Definition bounded (i : nat) (s : usageScanner) : Prop := capStart s ≤ i ∧ length (key s) ≤ usageKeyLimit.

Lemma same_bounded p i q j s1 s2 : same p i q j s1 s2 → bounded i s1.
Proof. intros H. split; apply H. Qed.

(** A feed of the byte at [i], from the state there. *)
Lemma feed_out p i c s s' out f : p !! i = Some c → dead s = false →
  turn_ (live p i s) [c] 0 c = (f, out, 1) → same p (S i) [c] 1 s' f → feed (norm p i s) c = (norm p (S i) s', out).
Proof.
  intros Hc Hd Ht Hs. unfold norm at 1. rewrite Hd. unfold feed. simpl. rewrite Hd, Ht. by rewrite <- (same_norm _ _ _ _ _ _ Hs).
Qed.

Lemma turn_single p i c s : p !! i = Some c → dead s = false → bounded i s → inString s = false →
  ∃ s' out, turn_ s p i c = (s', out, S i) ∧ bounded (S i) s' ∧ feed (norm p i s) c = (norm p (S i) s', out).
Proof.
  intros Hc Hd [Hs Hk] Hi. unfold UsageScan.turn_ at 1. rewrite Hi.
  assert (H0 := same_here p i c Hc s Hs Hk).
  destruct (inScalar s && negb (scalarEnds c)) eqn:E.
  - exists s, []. split; [done|]. split; [split; [lia|done]|]. apply (feed_out p i c s s [] (live p i s)); try done.
    unfold UsageScan.turn_. simpl. by rewrite Hi, E.
  - assert (H1 : same_out p i c (if inScalar s then endScalar s p i else (s, []))
                   (if inScalar s then endScalar (live p i s) [c] 0 else (live p i s, []))).
    { destruct (inScalar s); [by apply same_endScalar|by split]. }
    destruct (if inScalar s then endScalar s p i else (s, [])) as [t1 o1] eqn:E1.
    destruct (if inScalar s then endScalar (live p i s) [c] 0 else (live p i s, [])) as [t2 o2] eqn:E2.
    destruct H1 as [H1 Ho1]. cbn [fst snd] in *. subst o2. destruct (same_structural p i c Hc t1 t2 H1) as [H2 Ho2].
    destruct (structural t1 p i c) as [u1 q1]. destruct (structural t2 [c] 0 c) as [u2 q2] eqn:E3. cbn [fst snd] in *. subst q2.
    exists u1, (o1 ++ q1). split; [done|]. split; [by apply same_bounded in H2|].
    apply (feed_out p i c s u1 _ u2); try done. unfold UsageScan.turn_. simpl. by rewrite Hi, E, E2, E3.
Qed.

Definition plain_string (c : ascii) : bool := negb (Ascii.eqb c quote || Ascii.eqb c backslash).

Lemma index_any_spec b : match index_any b with
  | None => forallb plain_string b = true
  | Some j => ∃ l x r, b = l ++ x :: r ∧ length l = j ∧ forallb plain_string l = true ∧ (x = quote ∨ x = backslash)
  end.
Proof.
  induction b as [|c b IH]; [done|]. cbn [index_any forallb].
  assert (Hp : plain_string c = negb (Ascii.eqb c quote || Ascii.eqb c backslash)) by done.
  destruct (Ascii.eqb c quote || Ascii.eqb c backslash) eqn:E.
  - exists [], c, b. split_and!; try done. apply orb_true_iff in E as [->%Ascii.eqb_eq| ->%Ascii.eqb_eq]; auto.
  - destruct (index_any b) as [j|]; cbn [fmap option_fmap option_map]; [|by rewrite Hp]. destruct IH as (l & x & r & -> & <- & Hl & Hx).
    exists (c :: l), x, r. cbn [forallb]. by rewrite Hp.
Qed.

Lemma keyAppend_nil s : length (key s) ≤ usageKeyLimit → keyAppend s [] = s.
Proof.
  intros H. unfold keyAppend. destruct (stringIsKey s) eqn:E1; [|done]. destruct (keyOver s) eqn:E2; [done|]. simpl.
  destruct (Nat.ltb_spec usageKeyLimit (length (key s) + 0)); [lia|]. rewrite app_nil_r. rewrite <- E2. by destruct s.
Qed.

Lemma keyAppend_bound s l : length (key s) ≤ usageKeyLimit → length (key (keyAppend s l)) ≤ usageKeyLimit.
Proof.
  intros H. unfold keyAppend. destruct (_ || _); [done|]. destruct (Nat.ltb_spec usageKeyLimit (length (key s) + length l)); [done|].
  simpl. rewrite length_app. lia.
Qed.

Lemma keyAppend_app p i s l1 l2 : length (key s) ≤ usageKeyLimit → live p i (keyAppend (keyAppend s l1) l2) = live p i (keyAppend s (l1 ++ l2)).
Proof.
  intros H. unfold keyAppend. destruct (stringIsKey s) eqn:E1; cbn [negb orb]; [|by rewrite E1]. destruct (keyOver s) eqn:E2; [by rewrite E1, E2|].
  rewrite length_app. destruct (Nat.ltb_spec usageKeyLimit (length (key s) + length l1)).
  - simpl. rewrite E1. simpl. destruct (Nat.ltb_spec usageKeyLimit (length (key s) + (length l1 + length l2))); [done|lia].
  - simpl. rewrite E1, length_app. simpl. rewrite Nat.add_assoc. destruct (_ <? _)%nat; [done|]. by rewrite app_assoc.
Qed.

(** The fields a key append keeps. *)
Lemma keyAppend_keeps s l : inString (keyAppend s l) = inString s ∧ escape (keyAppend s l) = escape s ∧ dead (keyAppend s l) = dead s ∧
  capStart (keyAppend s l) = capStart s.
Proof. unfold keyAppend. destruct (_ || _); [done|]. by destruct (_ <? _)%nat. Qed.

(** Plain bytes of a string, fed one by one. *)
Lemma feeds_plain p i l s : (∃ r, drop i p = l ++ r) → forallb plain_string l = true → bounded i s →
  dead s = false → inString s = true → escape s = false →
  feeds (norm p i s) l = (norm p (i + length l) (keyAppend s l), []).
Proof.
  revert i s. induction l as [|c l IH]; intros i s [r Hr] Hl [Hs Hk] Hd Hi He.
  { simpl. by rewrite Nat.add_0_r, keyAppend_nil. }
  assert (Hc : p !! i = Some c) by (pose proof (lookup_drop p i 0) as E; rewrite Hr, Nat.add_0_r in E; by symmetry).
  simpl in Hl. apply andb_true_iff in Hl as [Hcp Hl]. unfold plain_string in Hcp. apply negb_true_iff in Hcp.
  destruct (keyAppend_keeps s [c]) as (K1 & K2 & K3 & K4).
  assert (Hfeed : feed (norm p i s) c = (norm p (S i) (keyAppend s [c]), [])).
  { apply (feed_out p i c s _ _ (keyAppend (live p i s) [c])); try done.
    - unfold UsageScan.turn_. simpl. rewrite Hi. unfold UsageScan.stringBytes. simpl. by rewrite He, Hcp.
    - apply same_keyAppend. by apply same_here. }
  cbn [feeds]. rewrite Hfeed. rewrite (IH (S i) (keyAppend s [c])); [| |done| |by rewrite K3|by rewrite K1|by rewrite K2].
  - simpl. f_equal. replace (S (i + length l)) with (i + S (length l)) by lia. unfold norm.
    destruct (keyAppend_keeps (keyAppend s [c]) l) as (_ & _ & -> & _). rewrite K3. destruct (keyAppend_keeps s (c :: l)) as (_ & _ & -> & _).
    rewrite Hd. by rewrite keyAppend_app.
  - exists r. replace (S i) with (i + 1) by lia. rewrite <- drop_drop, Hr. done.
  - split; [rewrite K4; lia|by apply keyAppend_bound].
Qed.

Lemma drop_sub (p : bytes) i l r : drop i p = l ++ r → sub p i (i + length l) = l.
Proof. intros H. unfold sub. rewrite H. replace (i + length l - i) with (length l) by lia. apply take_app_length. Qed.

Lemma drop_lookup (p : bytes) i l x r : drop i p = l ++ x :: r → p !! (i + length l) = Some x ∧ i + length l < length p.
Proof.
  intros H. assert (E : p !! (i + length l) = Some x).
  { pose proof (lookup_drop p i (length l)) as E. rewrite H in E. transitivity ((l ++ x :: r) !! length l); [by symmetry|by apply list_lookup_middle]. }
  split; [done|]. by apply lookup_lt_Some in E.
Qed.

Lemma turn_string p i c s : p !! i = Some c → dead s = false → bounded i s → inString s = true →
  ∃ s' out i', turn_ s p i c = (s', out, i') ∧ i < i' ≤ length p ∧ bounded i' s' ∧ feeds (norm p i s) (sub p i i') = (norm p i' s', out).
Proof.
  intros Hc Hd [Hs Hk] Hi. assert (Hlt := lookup_lt_Some _ _ _ Hc). unfold UsageScan.turn_. rewrite Hi. unfold UsageScan.stringBytes.
  destruct (escape s) eqn:He.
  - set (s1 := set_string s (inString s) false (stringIsKey s)). exists (keyAppend s1 [c]), [], (S i). rewrite (sub_one _ _ _ Hc).
    destruct (keyAppend_keeps s1 [c]) as (_ & _ & _ & K4). split_and!; [done|lia|lia|split; [rewrite K4; simpl; lia|by apply keyAppend_bound]|].
    simpl. rewrite (feed_out p i c s (keyAppend s1 [c]) [] (keyAppend (set_string (live p i s) true false (stringIsKey s)) [c])); try done.
    + unfold UsageScan.turn_. simpl. rewrite Hi. unfold UsageScan.stringBytes. simpl. by rewrite He, Hi.
    + apply same_keyAppend. subst s1. rewrite Hi. apply same_set_string. by apply same_here.
  - pose proof (index_any_spec (drop i p)) as Hidx. destruct (index_any (drop i p)) as [j|].
    + destruct Hidx as (l & x & r & Hl & <- & Hplain & Hx). destruct (drop_lookup p i l x r Hl) as [Hxk Hklt]. set (k := i + length l) in *.
      assert (Hsub : sub p i k = l) by (by apply (drop_sub p i l (x :: r))).
      assert (HsubS : sub p i (S k) = l ++ [x]) by (rewrite (sub_snoc _ _ _ x), Hsub by (done || unfold k; lia); done).
      destruct (keyAppend_keeps s l) as (K1 & K2 & K3 & K4). set (s1 := keyAppend s l) in *.
      assert (Hf1 : feeds (norm p i s) l = (norm p k s1, [])) by (apply feeds_plain; [by exists (x :: r)|done|by split|done|done|done]).
      assert (Hb1 : capStart s1 ≤ k ∧ length (key s1) ≤ usageKeyLimit) by (split; [rewrite K4; unfold k; lia|by apply keyAppend_bound]).
      destruct Hb1 as [B1 B2]. rewrite Hi in K1. rewrite He in K2. rewrite Hd in K3. rewrite HsubS, Hsub. fold s1.
      destruct Hx as [-> | ->]; rewrite Hxk.
      * rewrite bool_decide_false by done. pose proof (same_here p k quote Hxk s1 B1 B2) as Hsame.
        destruct (same_string_end p k quote s1 (live p k s1) Hsame) as [E1 E2].
        destruct (string_end s1 p k) as [s' out] eqn:Ee. destruct (string_end (live p k s1) [quote] 0) as [f out'] eqn:Ef. cbn [fst snd] in *. subst out'.
        exists s', out, (S k). split_and!; [done|unfold k; lia|lia|by apply same_bounded in E1|].
        rewrite HsubS, feeds_app, Hf1. cbn [feeds].
        rewrite (feed_out p k quote s1 s' out f); [by rewrite app_nil_r|done|by rewrite K3| |done].
        unfold UsageScan.turn_. simpl. rewrite K1. unfold UsageScan.stringBytes. simpl. rewrite K2. unfold sub; simpl.
        rewrite keyAppend_nil by (simpl; destruct (keyOver s1); [simpl; lia|done]). by rewrite Ef.
      * rewrite bool_decide_true by done. set (s2 := keyAppend s (l ++ [backslash])). destruct (keyAppend_keeps s (l ++ [backslash])) as (L1 & L2 & L3 & L4).
        fold s2 in L1, L2, L3, L4. exists (set_string s2 (inString s2) true (stringIsKey s2)), [], (S k). cbn match.
        split_and!; [done|unfold k; lia|lia|split; simpl; [rewrite L4; unfold k; lia|by apply keyAppend_bound]|].
        rewrite HsubS, feeds_app, Hf1. cbn [feeds].
        assert (Hsame : same p (S k) [backslash] 1 s2 (keyAppend (live p k s1) [backslash])).
        { pose proof (same_keyAppend _ _ _ _ [backslash] _ _ (same_here p k backslash Hxk s1 B1 B2)) as [Q1 Q2 Q3 Q4 Q5].
          constructor; [|rewrite L4; unfold k; lia|done|by apply keyAppend_bound|done]. rewrite <- Q1. unfold s2, s1. symmetry. by apply keyAppend_app. }
        rewrite (feed_out p k backslash s1 (set_string s2 (inString s2) true (stringIsKey s2)) []
          (set_string (keyAppend (live p k s1) [backslash]) (inString s2) true (stringIsKey s2))); [done|done|by rewrite K3| |by apply same_set_string].
        unfold UsageScan.turn_. simpl. rewrite K1. unfold UsageScan.stringBytes. simpl. rewrite K2.
        change (bool_decide (Some backslash = Some backslash)) with true. cbn match. change (sub [backslash] 0 1) with [backslash].
        by rewrite (same_inString _ _ _ _ _ _ Hsame), (same_isKey _ _ _ _ _ _ Hsame).
    + exists (keyAppend s (drop i p)), [], (length p). destruct (keyAppend_keeps s (drop i p)) as (_ & _ & _ & K4).
      split_and!; [done|lia|lia|split; [rewrite K4; lia|by apply keyAppend_bound]|].
      replace (sub p i (length p)) with (drop i p) by (unfold sub; symmetry; apply take_ge; rewrite length_drop; lia).
      rewrite feeds_plain by (done || by exists []; rewrite app_nil_r). rewrite length_drop. do 2 f_equal. lia.
Qed.

(** ** Writes *)

Lemma write_loop_feeds fuel s (p : bytes) i : length p - i ≤ fuel → i ≤ length p → bounded i s →
  ∃ s' out, write_loop fuel s p i = (s', out) ∧ bounded (length p) s' ∧ feeds (norm p i s) (drop i p) = (norm p (length p) s', out).
Proof.
  assert (Hend : ∀ s, bounded (length p) s → feeds (norm p (length p) s) (drop (length p) p) = (norm p (length p) s, [])).
  { intros s' _. by rewrite drop_all. }
  revert s i. induction fuel as [|fuel IH]; intros s i Hf Hi [Hs Hk].
  { assert (i = length p) as -> by lia. exists s, []. split; [done|]. split; [by split|]. apply Hend. by split. }
  cbn [UsageScan.write_loop]. destruct (dead s) eqn:Hd.
  { exists s, []. split; [done|]. split; [split; [lia|done]|]. unfold norm. rewrite Hd. apply feeds_dead. }
  destruct (p !! i) as [c|] eqn:Hc.
  2: { apply lookup_ge_None in Hc. assert (i = length p) as -> by lia. exists s, []. split; [done|]. split; [by split|]. apply Hend. by split. }
  assert (Hlt := lookup_lt_Some _ _ _ Hc).
  assert (Hturn : ∃ s' out i', turn_ s p i c = (s', out, i') ∧ i < i' ≤ length p ∧ bounded i' s' ∧
    feeds (norm p i s) (sub p i i') = (norm p i' s', out)).
  { destruct (inString s) eqn:Hin; [by apply turn_string|]. destruct (turn_single p i c s Hc Hd (conj Hs Hk) Hin) as (s' & out & E & B & F).
    exists s', out, (S i). split_and!; [done|lia|lia|done|]. rewrite (sub_one _ _ _ Hc). simpl. by rewrite F, app_nil_r. }
  destruct Hturn as (s' & out & i' & -> & Hi' & Hb & Hfeeds). destruct (IH s' i') as (s2 & out2 & -> & Hb2 & F2); [lia|lia|done|].
  exists s2, (out ++ out2). split; [done|]. split; [done|].
  assert (Hsplit : drop i p = sub p i i' ++ drop i' p).
  { unfold sub. replace (drop i' p) with (drop (i' - i) (drop i p)) by (rewrite drop_drop; f_equal; lia). by rewrite take_drop. }
  by rewrite Hsplit, feeds_app, Hfeeds, F2.
Qed.

Definition key_ok (s : usageScanner) : Prop := length (key s) ≤ usageKeyLimit.

Lemma sub_empty i j : sub [] i j = [].
Proof. unfold sub. by rewrite drop_nil, take_nil. Qed.

Lemma captured_start p s : captured p 0 (set_capStart s 0) = captured [] 0 s.
Proof.
  unfold captured. simpl. destruct (capturing s); [|done]. by rewrite sub_empty, sub_nil.
Qed.

Lemma captured_flush p s : capturing s = true → captured [] 0 (appendCapture s (drop (capStart s) p)) = captured p (length p) s.
Proof.
  intros Hc. assert (Hb : ∀ l, buffered (appendCapture s l) = extend (buffered s) l).
  { intros l. unfold appendCapture, buffered. destruct (capOver s) eqn:E; [by rewrite E|]. simpl. by destruct (_ <? _)%nat. }
  assert (Hcap : ∀ l, capturing (appendCapture s l) = true).
  { intros l. unfold appendCapture. destruct (capOver s); [done|]. by destruct (_ <? _)%nat. }
  unfold captured. rewrite Hcap, Hc, Hb, sub_empty, extend_app, app_nil_r. unfold sub.
  replace (take (length p - capStart s) (drop (capStart s) p)) with (drop (capStart s) p) by (symmetry; apply take_ge; rewrite length_drop; lia).
  done.
Qed.

(** A Write is the feeds of its bytes. *)
Lemma Write_feeds s p : key_ok s → ∃ s' out, Write s p = (s', out) ∧ key_ok s' ∧ feeds (norm [] 0 s) p = (norm [] 0 s', out).
Proof.
  intros Hk. unfold UsageScan.Write. destruct (dead s) eqn:Hd.
  { exists s, []. split; [done|]. split; [done|]. unfold norm. rewrite Hd. apply feeds_dead. }
  destruct (write_loop_feeds (length p) (set_capStart s 0) p 0) as (s' & out & -> & [_ Hk'] & Hf); [lia|lia|by split; [simpl; lia|]|].
  assert (Hn : norm p 0 (set_capStart s 0) = norm [] 0 s).
  { unfold norm. simpl. rewrite Hd. unfold live. by rewrite captured_start. }
  rewrite Hn in Hf. rewrite drop_0 in Hf.
  eexists _, out. split; [done|]. split; [unfold key_ok; destruct (capturing s'); [|done]; unfold appendCapture; by repeat case_match|].
  rewrite Hf. f_equal. destruct (capturing s') eqn:Hc.
  - assert (Hl : live [] 0 (appendCapture s' (drop (capStart s') p)) = live p (length p) s').
    { pose proof (captured_flush p s' Hc) as E. unfold live. rewrite E. unfold appendCapture. destruct (capOver s'); [done|].
      by destruct (_ <? _)%nat. }
    unfold norm. rewrite Hl. unfold appendCapture. destruct (capOver s'); [done|]. by destruct (_ <? _)%nat.
  - unfold norm, live, captured. by rewrite Hc.
Qed.

Lemma writes_feeds s chunks : key_ok s → ∃ s' out, writes s chunks = (s', out) ∧ key_ok s' ∧ feeds (norm [] 0 s) (concat chunks) = (norm [] 0 s', out).
Proof.
  revert s. induction chunks as [|p chunks IH]; intros s Hk; [by exists s, []|]. cbn [UsageScan.writes concat].
  destruct (Write_feeds s p Hk) as (s1 & o1 & -> & Hk1 & F1). destruct (IH s1 Hk1) as (s2 & o2 & -> & Hk2 & F2).
  exists s2, (o1 ++ o2). split; [done|]. split; [done|]. by rewrite feeds_app, F1, F2.
Qed.
End facts.
