(* ===== verification/UsageSpec.v ===== *)
(** The usage scanner reports exactly the values at its paths.

    [report] says on the tree of an answer which values are at the paths, in
    the order of the document; the scanner, fed the text of the tree in any
    chunks, reports those. *)

From stdpp Require Import base list strings option.
From Stdlib Require Import ZArith Lia Ascii Wf_nat.
From S2P Require Import Prelude Json RequestBody UsageScan.

Section spec.
Variable paths : list jsonPath.
Local Abbreviation feed := (feed paths).
Local Abbreviation feeds := (feeds paths).
Local Abbreviation turn_ := (turn_ paths).

(** ** What is at the paths *)

(** The paths that go on with [name] below [m], for a value under [depth] open
    containers. *)
Definition narrow (depth : nat) (m : Z) (name : bytes) : Z :=
  if (depth <=? maxScanDepth)%nat then match_from 0 paths depth m name else 0.

Definition narrow_key (depth : nat) (m : Z) (name : bytes) : Z :=
  if (usageKeyLimit <? length name)%nat then 0 else narrow depth m name.

(** The values at the paths of [m] in the value [c], which [depth] containers
    hold.  A value at a path is reported whole, unless it passes the limit, and
    is not looked into. *)
Fixpoint report (depth : nat) (m : Z) (c : cst) : reported :=
  match (if (depth =? 0)%nat then None else path_at 0 paths depth m) with
  | Some idx => if (usageCaptureLimit <? length (text c))%nat then [] else [(idx, text c)]
  | None =>
      match c with
      | CArray e es => flat_map (λ e : element, report (S depth) (narrow (S depth) m (bs "*")) e.1.2) (e :: es)
      | CObject mb ms => flat_map (λ mb : member, report (S depth) (narrow_key (S depth) m mb.1.1.2.1.1) mb.1.2) (mb :: ms)
      | _ => []
      end
  end.

(** ** Settled states *)

(** The end of a scalar, which the next byte brings. *)
Definition flush (r : usageScanner) : usageScanner * reported :=
  if inScalar r then let '(s, o) := endScalar r [] 0 in (norm [] 0 s, o) else (r, []).

Definition run (r : usageScanner) (l : bytes) : usageScanner * reported :=
  let '(r1, o1) := feeds r l in let '(r2, o2) := flush r1 in (r2, o1 ++ o2).

(** A state of the one byte scanner. *)
Definition normal (r : usageScanner) : Prop := norm [] 0 r = r ∧ length (key r) ≤ usageKeyLimit ∧ dead r = false.

Lemma norm_any p s : capStart s = 0 → norm p 0 s = norm [] 0 s.
Proof. intros H. unfold norm, live, captured. rewrite H. by rewrite sub_nil, sub_empty. Qed.

Lemma live_normal p i s : live [] 0 (live p i s) = live p i s.
Proof.
  assert (E : captured [] 0 (live p i s) = captured p i s).
  { unfold captured at 1. rewrite buffered_live, sub_empty. simpl. destruct (capturing s) eqn:Hc; unfold captured; rewrite Hc; [|done].
    by rewrite extend_app, app_nil_r. }
  unfold live at 1. rewrite E. unfold live. simpl. f_equal; try (by destruct (capturing s)); by destruct (keyOver s).
Qed.

Lemma norm_normal p i s : norm [] 0 (norm p i s) = norm p i s.
Proof. unfold norm. destruct (dead s) eqn:E; [done|]. simpl. rewrite E. apply live_normal. Qed.

Lemma normal_capStart r : normal r → capStart r = 0.
Proof. intros (<- & _ & _). unfold norm. by destruct (dead r). Qed.

Lemma endScalar_start s p i : capStart (endScalar s p i).1 = capStart s ∧ key (endScalar s p i).1 = key s ∧ dead (endScalar s p i).1 = dead s ∧
  inScalar (endScalar s p i).1 = false ∧ inString (endScalar s p i).1 = inString s.
Proof.
  unfold endScalar. destruct (_ && _ && _); [|by destruct (_ =? _)%nat].
  unfold endCapture, appendCapture. destruct (capOver _); [done|]. by destruct (_ <? _)%nat.
Qed.

Lemma endScalar_here s p : capStart s = 0 → endScalar s p 0 = endScalar s [] 0.
Proof. intros H. unfold endScalar, endCapture. simpl. rewrite H. by rewrite sub_nil, sub_empty. Qed.

(** A delimiter first settles. *)
Lemma feed_delimiter r d : normal r → inString r = false → delimiter d = true →
  feed r d = let '(r1, o1) := flush r in let '(r2, o2) := feed r1 d in (r2, o1 ++ o2).
Proof.
  intros Hn Hs Hd. destruct Hn as (Hn & Hk & Hdead). unfold flush. destruct (inScalar r) eqn:Hi; [|by destruct (feed r d)].
  assert (Hst : capStart r = 0) by (apply normal_capStart; by split).
  unfold UsageScan.feed at 1. rewrite Hdead. unfold UsageScan.turn_. rewrite Hs, Hi. unfold scalarEnds. rewrite Hd. cbn [negb andb].
  rewrite endScalar_here by done. destruct (endScalar_start r [] 0) as (E1 & E2 & E3 & E4 & E5).
  destruct (endScalar r [] 0) as [s o] eqn:Ee. cbn [fst snd] in *.
  destruct (turn_single paths [d] 0 d s eq_refl ltac:(congruence) ltac:(split; [lia|congruence]) ltac:(congruence)) as (s' & out & Ht & _ & Hf).
  rewrite norm_any in Hf by congruence. rewrite Hf. unfold UsageScan.turn_ in Ht. rewrite E5, Hs, E4 in Ht. cbn [andb] in Ht.
  destruct (structural paths s [d] 0 d) as [s2 o2]. by injection Ht as <- <-.
Qed.

(** ** Steps *)

(** Reading a byte without acting on it. *)
Definition scan_tick (r : usageScanner) (c : ascii) : usageScanner := live [c] 1 r.

(** [r'] after reading [l] from [r] has the same containers open; an open
    capture has grown by [l]. *)
Record keeps (r r' : usageScanner) (l : bytes) : Prop := Keeps {
  kp_normal : normal r';
  kp_depth : depth r' = depth r;
  kp_len : length (frames r') = maxScanDepth;
  kp_frames : ∀ k, k < depth r → frames r' !! k = frames r !! k;
  kp_string : inString r' = false;
  kp_scalar : inScalar r' = false;
  kp_root : depth r ≠ 0 → rootDone r' = rootDone r;
  kp_cap : capturing r' = capturing r;
  kp_value : capturing r = true → capKind r' = capKind r ∧ capPath r' = capPath r ∧ capDepth r' = capDepth r ∧ buffered r' = extend (buffered r) l
}.

Lemma keeps_trans r r1 r2 l1 l2 : keeps r r1 l1 → keeps r1 r2 l2 → keeps r r2 (l1 ++ l2).
Proof.
  intros [N1 D1 L1 F1 S1 C1 T1 P1 V1] [N2 D2 L2 F2 S2 C2 T2 P2 V2]. constructor; try done.
  - congruence.
  - intros k Hk. rewrite F2 by lia. by apply F1.
  - intros Hd. rewrite T2 by congruence. by apply T1.
  - congruence.
  - intros Hc. destruct (V1 Hc) as (A1 & A2 & A3 & A4). destruct (V2 ltac:(congruence)) as (B1 & B2 & B3 & B4).
    split_and!; [congruence|congruence|congruence|]. by rewrite B4, A4, extend_app.
Qed.

(** A state between tokens. *)
Record idle (r : usageScanner) : Prop := Idle {
  id_normal : normal r;
  id_len : length (frames r) = maxScanDepth;
  id_string : inString r = false;
  id_scalar : inScalar r = false
}.

Lemma keeps_idle r r' l : keeps r r' l → idle r'.
Proof. intros []. by constructor. Qed.

Lemma tick_normal r c : normal r → normal (scan_tick r c).
Proof.
  intros (Hn & Hk & Hd). split_and!; [|simpl; destruct (keyOver r); [simpl; unfold usageKeyLimit; lia|done]|done].
  unfold scan_tick, norm. simpl. rewrite Hd. apply live_normal.
Qed.

Lemma tick_capture r c : capturing r = true → capStart r = 0 → buffered (scan_tick r c) = extend (buffered r) [c].
Proof. intros Hc Hs. unfold scan_tick. rewrite buffered_live. unfold captured. by rewrite Hc, Hs. Qed.

(** A scan_tick after an update that leaves the capture alone. *)
Lemma tick_keeps r s c : normal s → capStart s = 0 → depth s = depth r → length (frames s) = maxScanDepth →
  (∀ k, k < depth r → frames s !! k = frames r !! k) → inString s = false → inScalar s = false →
  (depth r ≠ 0 → rootDone s = rootDone r) → capturing s = capturing r →
  (capturing r = true → capKind s = capKind r ∧ capPath s = capPath r ∧ capDepth s = capDepth r ∧ buffered s = buffered r) →
  keeps r (scan_tick s c) [c].
Proof.
  intros Hn Hst D L F S C T P V. constructor; try done; [by apply tick_normal|].
  intros Hc. destruct (V Hc) as (V1 & V2 & V3 & V4). simpl. rewrite P, Hc. split_and!; try done.
  rewrite tick_capture by congruence. by rewrite V4.
Qed.

Lemma feed_out1 r c s out : normal r → turn_ r [c] 0 c = (s, out, 1) → dead s = false → capStart s ≤ 1 → feed r c = (live [c] 1 s, out).
Proof. intros (_ & _ & Hd) Ht Hs _. unfold UsageScan.feed. rewrite Hd, Ht. unfold norm. by rewrite Hs. Qed.

Lemma feed_space r c : idle r → json_space c = true ∨ c = ":"%char → feed r c = (scan_tick r c, []) ∧ keeps r (scan_tick r c) [c].
Proof.
  intros [Hn Hl Hs Hc] Hsp. assert (Hst := normal_capStart r Hn). split; [|by apply tick_keeps].
  apply feed_out1; [done| |apply Hn|lia]. unfold UsageScan.turn_. rewrite Hs, Hc. cbn [andb]. unfold structural.
  assert (E : json_space c || Ascii.eqb c ":" = true) by (destruct Hsp as [->| ->]; [done|by rewrite orb_true_r]). by rewrite E.
Qed.

Lemma feeds_spaces r l : idle r → spaces l → ∃ r', feeds r l = (r', []) ∧ keeps r r' l ∧ pending r' = pending r ∧ rootDone r' = rootDone r.
Proof.
  revert r. unfold spaces. induction l as [|c l IH]; intros r Hi Hl.
  - exists r. split; [done|]. split; [|done]. destruct Hi as [Hn Hlen Hs Hc]. constructor; try done. intros Hcap. split_and!; try done.
    destruct Hn as (Hn & _ & Hd). assert (E : buffered r = buffered (live [] 0 r)) by (unfold norm in Hn; rewrite Hd in Hn; by rewrite Hn at 1).
    rewrite E at 1. rewrite buffered_live. unfold captured. rewrite Hcap. by rewrite sub_empty.
  - simpl in Hl. apply andb_true_iff in Hl as [Hc Hl]. destruct (feed_space r c Hi (or_introl Hc)) as [Hf Hk].
    destruct (IH (scan_tick r c) (keeps_idle _ _ _ Hk) Hl) as (r' & Hf' & Hk' & Hp & Hr). exists r'. simpl. rewrite Hf, Hf'.
    split; [done|]. split; [by apply (keeps_trans _ _ _ [c] l Hk Hk')|done].
Qed.

(** ** Strings *)

(** A state inside a string. *)
Record in_string (r : usageScanner) (esc isKey : bool) : Prop := InString {
  ins_normal : normal r;
  ins_len : length (frames r) = maxScanDepth;
  ins_in : inString r = true;
  ins_escape : escape r = esc;
  ins_key : stringIsKey r = isKey;
  ins_scalar : inScalar r = false
}.

(** What is kept while the body of a string goes by. *)
Record in_keeps (r r' : usageScanner) (l : bytes) : Prop := InKeeps {
  ik_depth : depth r' = depth r;
  ik_frames : frames r' = frames r;
  ik_root : rootDone r' = rootDone r;
  ik_pending : pending r' = pending r;
  ik_cap : capturing r' = capturing r;
  ik_value : capturing r = true → capKind r' = capKind r ∧ capPath r' = capPath r ∧ capDepth r' = capDepth r ∧ buffered r' = extend (buffered r) l;
  ik_keyOver : keyOver r' = keyOver r || (stringIsKey r && (usageKeyLimit <? length (key r) + length l)%nat);
  ik_key : keyOver r' = false → key r' = if stringIsKey r then key r ++ l else key r
}.

Lemma in_keeps_trans r r1 r2 l1 l2 : stringIsKey r1 = stringIsKey r → in_keeps r r1 l1 → in_keeps r1 r2 l2 → in_keeps r r2 (l1 ++ l2).
Proof.
  intros Hk [D1 F1 T1 P1 C1 V1 O1 K1] [D2 F2 T2 P2 C2 V2 O2 K2]. constructor; try congruence.
  - intros Hc. destruct (V1 Hc) as (A1 & A2 & A3 & A4). destruct (V2 ltac:(congruence)) as (B1 & B2 & B3 & B4).
    split_and!; [congruence..|]. by rewrite B4, A4, extend_app.
  - rewrite O2, O1, Hk, length_app. destruct (keyOver r) eqn:E; [done|]. simpl. destruct (stringIsKey r) eqn:Es; [|done]. simpl in *.
    destruct (Nat.ltb_spec usageKeyLimit (length (key r) + length l1)).
    + simpl. symmetry. apply Nat.ltb_lt. lia.
    + rewrite (K1 O1), length_app. simpl. f_equal. lia.
  - intros Ho. assert (Ho1 : keyOver r1 = false) by (rewrite O2 in Ho; by apply orb_false_iff in Ho as [Ho _]).
    rewrite K2, Hk, K1 by done. destruct (stringIsKey r); [by rewrite app_assoc|done].
Qed.

Lemma keyAppend_fields r l : length (key r) ≤ usageKeyLimit →
  let r' := keyAppend r l in
  (depth r' = depth r ∧ frames r' = frames r ∧ rootDone r' = rootDone r ∧ pending r' = pending r ∧ capturing r' = capturing r ∧
   capKind r' = capKind r ∧ capPath r' = capPath r ∧ capDepth r' = capDepth r ∧ buffered r' = buffered r ∧
   stringIsKey r' = stringIsKey r ∧ inScalar r' = inScalar r) ∧
  keyOver r' = keyOver r || (stringIsKey r && (usageKeyLimit <? length (key r) + length l)%nat) ∧
  (keyOver r' = false → key r' = if stringIsKey r then key r ++ l else key r).
Proof.
  intros Hk. unfold keyAppend. destruct (stringIsKey r) eqn:E1; simpl; [|split_and!; try done; by rewrite orb_false_r].
  destruct (keyOver r) eqn:E2; simpl; [split_and!; try done; congruence|].
  destruct (_ <? _)%nat; simpl; by split_and!.
Qed.

(** One byte of a string body. *)
Lemma feed_in_string r esc isKey c : in_string r esc isKey → (esc = false → c ≠ quote) →
  ∃ r', feed r c = (r', []) ∧ in_string r' (negb esc && Ascii.eqb c backslash) isKey ∧ in_keeps r r' [c].
Proof.
  intros [Hn Hl Hi He Hk Hs] Hq. assert (Hst := normal_capStart r Hn). destruct Hn as (Hnn & Hkey & Hd).
  set (esc' := negb esc && Ascii.eqb c backslash). set (s := set_string (keyAppend r [c]) true esc' isKey).
  destruct (keyAppend_keeps r [c]) as (K1 & K2 & K3 & K4). destruct (keyAppend_fields r [c] Hkey) as ((A1 & A2 & A3 & A4 & A5 & A6 & A7 & A8 & A9 & A10 & A11) & Ho & Hke).
  assert (Ht : turn_ r [c] 0 c = (s, [], 1)).
  { unfold UsageScan.turn_. rewrite Hi. unfold stringBytes. rewrite He. unfold s, esc'. destruct esc; simpl.
    - rewrite Hk. change (sub [c] 0 1) with [c]. do 2 f_equal. unfold keyAppend. simpl. rewrite Hk. rewrite Hi. destruct isKey; simpl; [|done].
      destruct (keyOver r); [done|]. by destruct (_ <? _)%nat.
    - assert (Hq' : Ascii.eqb c quote = false) by (by apply Ascii.eqb_neq, Hq). rewrite Hq'. simpl.
      assert (Hset : set_string (keyAppend r [c]) true false isKey = keyAppend r [c]).
      { unfold keyAppend. rewrite Hk. destruct isKey; simpl; [destruct (keyOver r); [|destruct (_ <? _)%nat]|];
          destruct r; simpl in *; subst; done. }
      destruct (Ascii.eqb_spec c backslash) as [->|Hb]; simpl; [|by rewrite Hset].
      change (sub [backslash] 0 1) with [backslash]. by rewrite K1, Hi, A10, Hk. }
  exists (live [c] 1 s). split; [apply feed_out1; [by split_and!|done|by simpl; rewrite K3|simpl; lia]|].
  assert (Hns : normal (live [c] 1 s)).
  { split_and!; [unfold norm; simpl; rewrite K3, Hd; apply live_normal| |by simpl; rewrite K3].
    simpl. destruct (keyOver (keyAppend r [c])) eqn:E; [simpl; unfold usageKeyLimit; lia|]. by apply keyAppend_bound. }
  split; [constructor; try done; [by simpl; rewrite A2|by simpl; rewrite A11]|].
  constructor; simpl; [exact A1|exact A2|exact A3|exact A4|exact A5| |exact Ho|].
  - intros Hc. rewrite A5, Hc. split_and!; [congruence..|]. rewrite buffered_live. unfold captured. simpl. rewrite A5, Hc.
    change (buffered s) with (buffered (keyAppend r [c])). rewrite A9, K4, Hst. done.
  - intros E. rewrite E. by apply Hke.
Qed.

(** The bytes of a string body, an escape taking the byte after it. *)
Inductive body_shape : bytes → Prop :=
  | shape_nil : body_shape []
  | shape_plain c k : c ≠ quote → c ≠ backslash → body_shape k → body_shape (c :: k)
  | shape_escape e k : body_shape k → body_shape (backslash :: e :: k).

Lemma string_body_shape k : string_body_ok k = true → body_shape k.
Proof.
  induction k as [k IH] using (induction_ltof1 _ (@length ascii)). unfold ltof in IH. destruct k as [|c k]; [constructor|].
  cbn [string_body_ok]. destruct (Ascii.eqb_spec c backslash) as [->|Hb].
  - destruct k as [|e k]; [done|]. intros He. apply shape_escape. destruct (Ascii.eqb e "u").
    + destruct k as [|h1 [|h2 [|h3 [|h4 k]]]]; try done. rewrite !andb_true_iff in He. destruct He as [[[[H1 H2] H3] H4] Hs].
      assert (Hhex : ∀ h, is_hex h = true → h ≠ quote ∧ h ≠ backslash) by (intros h Hh; split; intros ->; by vm_compute in Hh).
      do 4 (apply shape_plain; [by apply Hhex|by apply Hhex|]). apply IH; [simpl; lia|done].
    + apply andb_true_iff in He as [_ Hs]. apply IH; [simpl; lia|done].
  - intros [[Hq Hc]%andb_true_iff Hs]%andb_true_iff. apply negb_true_iff, Ascii.eqb_neq in Hq. constructor; try done. apply IH; [simpl; lia|done].
Qed.

Lemma feeds_body r isKey k : body_shape k → in_string r false isKey →
  ∃ r', feeds r k = (r', []) ∧ in_string r' false isKey ∧ in_keeps r r' k.
Proof.
  intros Hk. revert r. induction Hk as [|c k Hq Hb Hk IH|e k Hk IH]; intros r Hr.
  - exists r. split; [done|]. split; [done|]. destruct Hr as [Hn ? ? ? ? ?]. constructor; try done.
    + intros Hc. split_and!; try done. destruct Hn as (Hn & _ & Hd).
      assert (E : buffered r = buffered (live [] 0 r)) by (unfold norm in Hn; rewrite Hd in Hn; by rewrite Hn at 1).
      rewrite E at 1. rewrite buffered_live. unfold captured. rewrite Hc. by rewrite sub_empty.
    + destruct Hn as (_ & Hkk & _). rewrite Nat.add_0_r. destruct (Nat.ltb_spec usageKeyLimit (length (key r))); [lia|]. by rewrite andb_false_r, orb_false_r.
    + intros _. rewrite app_nil_r. by destruct (stringIsKey r).
  - destruct (feed_in_string r false isKey c Hr (λ _, Hq)) as (r1 & F1 & S1 & K1). apply Ascii.eqb_neq in Hb. rewrite Hb in S1. simpl in S1.
    destruct (IH r1 S1) as (r2 & F2 & S2 & K2). exists r2. simpl. rewrite F1, F2. split; [done|]. split; [done|].
    apply (in_keeps_trans _ r1 _ [c] k); [by rewrite (ins_key _ _ _ S1), (ins_key _ _ _ Hr)|done|done].
  - destruct (feed_in_string r false isKey backslash Hr) as (r1 & F1 & S1 & K1); [done|]. change (negb false && Ascii.eqb backslash backslash) with true in S1.
    destruct (feed_in_string r1 true isKey e S1) as (r2 & F2 & S2 & K2); [done|]. change (negb true && Ascii.eqb e backslash) with false in S2.
    destruct (IH r2 S2) as (r3 & F3 & S3 & K3). exists r3. simpl. rewrite F1, F2, F3. split; [done|]. split; [done|].
    apply (in_keeps_trans _ r1 _ [backslash] (e :: k)); [by rewrite (ins_key _ _ _ S1), (ins_key _ _ _ Hr)|done|].
    apply (in_keeps_trans _ r2 _ [e] k); [by rewrite (ins_key _ _ _ S1), (ins_key _ _ _ S2)|done|done].
Qed.

(** ** Values *)

(** The paths a value here may be at. *)
Definition vmask (r : usageScanner) : Z :=
  if (depth r =? 0)%nat then all paths
  else match top r with Some f => if array f then matchElement paths r (mask f) else pending r | None => 0 end.

Definition target (r : usageScanner) : option nat := if (depth r =? 0)%nat then None else path_at 0 paths (depth r) (vmask r).

(** A state before a value. *)
Record value_pos (r : usageScanner) : Prop := ValuePos {
  vp_idle : idle r;
  vp_root : depth r = 0 → rootDone r = false;
  vp_key : ∀ f, top r = Some f → array f = false → expectKey f = false;
  vp_cap : capturing r = true → capKind r = captureContainer ∧ capDepth r < depth r
}.

Lemma path_at_zero i ps d : path_at i ps d 0 = None.
Proof. revert i. induction ps as [|p ps IH]; intros i; [done|]. cbn [path_at]. rewrite Z.testbit_0_l. apply IH. Qed.

(** What the scanner does at the first byte of a value. *)
Lemma startValue_spec r kind : capStart r = 0 → (depth r = 0 → rootDone r = false) → (capturing r = true → capDepth r < depth r) →
  let '(s, m) := startValue paths r 0 kind in
  (depth s = depth r ∧ frames s = frames r ∧ rootDone s = rootDone r ∧ dead s = dead r ∧ inString s = inString r ∧ escape s = escape r ∧
   stringIsKey s = stringIsKey r ∧ inScalar s = inScalar r ∧ key s = key r ∧ keyOver s = keyOver r ∧ capStart s = capStart r) ∧
  (if capturing r then capturing s = true ∧ capKind s = capKind r ∧ capPath s = capPath r ∧ capDepth s = capDepth r ∧ buffered s = buffered r
   else match target r with
        | Some idx => m = 0%Z ∧ capturing s = true ∧ capKind s = kind ∧ capPath s = idx ∧ capDepth s = depth r ∧ buffered s = Some []
        | None => m = vmask r ∧ capturing s = false
        end).
Proof.
  intros Hst Hroot Hcap. unfold startValue, target, vmask.
  destruct (Nat.eqb_spec (depth r) 0) as [E0|E0].
  { rewrite (Hroot E0). destruct (capturing r) eqn:Hc; [specialize (Hcap eq_refl); lia|]. split_and!; try done. by apply Hroot. }
  destruct (top r) as [f|]; [destruct (array f)|].
  - destruct (capturing r) eqn:Hc; cbn [orb]; [by split_and!|].
    destruct (Z.eqb_spec (matchElement paths r (mask f)) 0) as [->|]; [rewrite path_at_zero; by split_and!|].
    destruct (path_at _ _ _ _); by split_and!.
  - cbn [capturing set_pending]. destruct (capturing r) eqn:Hc; cbn [orb]; [by split_and!|].
    destruct (Z.eqb_spec (pending r) 0) as [->|]; [rewrite path_at_zero; by split_and!|].
    cbn [depth set_pending]. destruct (path_at _ _ _ _); by split_and!.
  - destruct (capturing r) eqn:Hc; cbn [orb]; [by split_and!|]. rewrite path_at_zero. by split_and!.
Qed.

(** [s] is inside the value that began at [r], of which it has read [l]. *)
Record began (r s : usageScanner) (kind : capture_kind) (l : bytes) : Prop := Began {
  bg_frames : ∀ k, k < depth r → frames s !! k = frames r !! k;
  bg_len : length (frames s) = maxScanDepth;
  bg_root : rootDone s = rootDone r;
  bg_cap : if capturing r then capturing s = true ∧ capKind s = capKind r ∧ capPath s = capPath r ∧ capDepth s = capDepth r ∧
                               buffered s = extend (buffered r) l
           else match target r with
                | Some idx => capturing s = true ∧ capKind s = kind ∧ capPath s = idx ∧ capDepth s = depth r ∧ buffered s = extend (Some []) l
                | None => capturing s = false
                end
}.

(** Reading on inside the value. *)
Lemma began_more r s s' kind l l' : began r s kind l → (∀ k, k < depth r → frames s' !! k = frames s !! k) → length (frames s') = maxScanDepth →
  rootDone s' = rootDone s → capturing s' = capturing s →
  (capturing s = true → capKind s' = capKind s ∧ capPath s' = capPath s ∧ capDepth s' = capDepth s ∧ buffered s' = extend (buffered s) l') →
  began r s' kind (l ++ l').
Proof.
  intros [F L T C] F' L' T' C' V'. constructor; [|done|congruence|].
  - intros k Hk. rewrite F' by done. by apply F.
  - destruct (capturing r).
    + destruct C as (C1 & C2 & C3 & C4 & C5). destruct (V' C1) as (V1 & V2 & V3 & V4). split_and!; [congruence..|]. by rewrite V4, C5, extend_app.
    + destruct (target r); [|congruence]. destruct C as (C1 & C2 & C3 & C4 & C5). destruct (V' C1) as (V1 & V2 & V3 & V4).
      split_and!; [congruence..|]. by rewrite V4, C5, extend_app.
Qed.

(** What is reported when the value [l] ends. *)
Definition end_report (r : usageScanner) (l : bytes) : reported :=
  if capturing r then []
  else match target r with Some idx => if (usageCaptureLimit <? length l)%nat then [] else [(idx, l)] | None => [] end.

(** The end of a value, at [e] in [p]. *)
Lemma finish_spec r s kind l p e : value_pos r → began r s kind l → depth s = depth r → capStart s = 0 → length (key s) ≤ usageKeyLimit →
  dead s = false → inString s = false → inScalar s = false →
  let '(s', out) := (if capturing s && bool_decide (capKind s = kind) && (depth s =? capDepth s)%nat then endCapture s p e
                     else if (depth s =? 0)%nat then (set_rootDone s, []) else (s, [])) in
  out = end_report r (l ++ sub p 0 e) ∧ keeps r (norm p e s') (l ++ sub p 0 e) ∧ dead s' = false.
Proof.
  intros Hv [F L T C] Hd Hst Hk Hdead Hs Hsc. unfold end_report.
  assert (Hns : ∀ t, dead t = false → length (key t) ≤ usageKeyLimit → normal (norm p e t)).
  { intros t Ht Hkt. split_and!; [apply norm_normal| |unfold norm; by rewrite Ht]. unfold norm. rewrite Ht. simpl.
    destruct (keyOver t); [simpl; unfold usageKeyLimit; lia|done]. }
  assert (Hcv : capturing s = true → captured p e s = extend (buffered s) (sub p 0 e)) by (intros Hc; unfold captured; by rewrite Hc, Hst).
  assert (Hbuf : ∀ t, buffered (live p e t) = captured p e t) by (intros; apply buffered_live).
  destruct (capturing r) eqn:Hcr.
  - destruct C as (C1 & C2 & C3 & C4 & C5). destruct (vp_cap _ Hv Hcr) as [K1 K2].
    assert (E : (depth s =? capDepth s)%nat = false) by (apply Nat.eqb_neq; rewrite C4, Hd; lia). rewrite E, andb_false_r.
    destruct (Nat.eqb_spec (depth s) 0) as [E0|E0]; [lia|]. split; [done|]. split; [|done].
    assert (Hn : norm p e s = live p e s) by (unfold norm; by rewrite Hdead). constructor; rewrite ?Hn; simpl; try done; try congruence.
    + rewrite <- Hn. by apply Hns.
    + intros _. rewrite C1, Hbuf, Hcv, C5, extend_app by done. by split_and!.
  - destruct (target r) as [idx|] eqn:Ht.
    + destruct C as (C1 & C2 & C3 & C4 & C5). rewrite C1, C2, C4, Hd, Nat.eqb_refl, bool_decide_true by done. cbn [andb].
      destruct (endCapture_live p s e) as (O & CC & CS & CK & CL). destruct (endCapture s p e) as [s' out] eqn:Ee. cbn [fst snd] in *.
      assert (Hds : dead s' = false).
      { unfold endCapture in Ee. injection Ee as <- _. simpl. unfold appendCapture. destruct (capOver s); [done|]. by destruct (_ <? _)%nat. }
      split; [|split; [|done]].
      * rewrite O, C1, Hcv, C5, extend_app, C3 by done. simpl. by destruct (_ <? _)%nat.
      * assert (Hn : norm p e s' = set_cap (live p e s) false captureContainer 0 0 0 false []) by (unfold norm; by rewrite Hds, CL).
        constructor; try (rewrite Hn; simpl; done || congruence). apply Hns; [done|congruence].
    + rewrite C. cbn [andb]. destruct (Nat.eqb_spec (depth s) 0) as [E0|E0]; (split; [done|]); (split; [|done]).
      * assert (Hn : norm p e (set_rootDone s) = live p e (set_rootDone s)) by (unfold norm; simpl; by rewrite Hdead).
        constructor; try (rewrite Hn; simpl; done || congruence || lia). by apply Hns.
      * assert (Hn : norm p e s = live p e s) by (unfold norm; by rewrite Hdead).
        constructor; try (rewrite Hn; simpl; done || congruence). by apply Hns.
Qed.

(** The first byte of a value: what the state is once it is read. *)
Lemma first_byte r t kind c : value_pos r →
  (depth t = depth r ∧ frames t = frames r ∧ rootDone t = rootDone r ∧ dead t = false ∧ capStart t = 0 ∧ length (key t) ≤ usageKeyLimit ∧
   pending t = pending r ∧ capturing t = capturing r ∧ capKind t = capKind r ∧ capPath t = capPath r ∧ capDepth t = capDepth r ∧ buffered t = buffered r) →
  let s := (startValue paths t 0 kind).1 in
  began r (live [c] 1 s) kind [c] ∧ normal (live [c] 1 s) ∧ dead s = false ∧ capStart s = 0 ∧ depth s = depth r ∧
  (capturing r = false → (startValue paths t 0 kind).2 = match target r with Some _ => 0%Z | None => vmask r end) ∧
  inString s = inString t ∧ escape s = escape t ∧ stringIsKey s = stringIsKey t ∧ inScalar s = inScalar t ∧ frames s = frames r.
Proof.
  intros Hv (T1 & T2 & T3 & T4 & T5 & T6 & T7 & T8 & T9 & T10 & T11 & T12).
  assert (Htop : top t = top r) by (unfold top; by rewrite T1, T2).
  assert (Hvm : vmask t = vmask r) by (unfold vmask, matchElement; by rewrite Htop, T1, T7).
  assert (Htg : target t = target r) by (unfold target; by rewrite Hvm, T1).
  assert (H := startValue_spec t kind T5 ltac:(rewrite T1, T3; apply Hv) ltac:(intros Hc; rewrite T11, T1; apply (vp_cap _ Hv); congruence)).
  destruct (startValue paths t 0 kind) as [s m]. destruct H as ((S1 & S2 & S3 & S4 & S5 & S6 & S7 & S8 & S9 & S10 & S11) & C). cbn [fst snd].
  rewrite T8, Htg, Hvm, T9, T10, T11, T12, T1 in C.
  assert (Hb : capturing s = true → buffered (live [c] 1 s) = extend (buffered s) [c]).
  { intros Hc. rewrite buffered_live. unfold captured. by rewrite Hc, S11, T5. }
  split_and!; try congruence.
  - constructor; simpl; [by rewrite S2, T2|rewrite S2, T2; apply (id_len _ (vp_idle _ Hv))|congruence|].
    destruct (capturing r).
    + destruct C as (C1 & C2 & C3 & C4 & C5). rewrite C1, Hb, C5 by done. by split_and!.
    + destruct (target r); [|apply C]. destruct C as (_ & C1 & C2 & C3 & C4 & C5). rewrite C1, Hb, C5 by done. by split_and!.
  - unfold normal. split_and!; [unfold norm; simpl; rewrite S4, T4; apply live_normal| |simpl; congruence].
    simpl. destruct (keyOver s); [simpl; unfold usageKeyLimit; lia|congruence].
  - intros Hc. rewrite Hc in C. destruct (target r); [apply C|apply C].
Qed.

(** The containers stay, and an open capture grows by [l]. *)
Record grows (r r' : usageScanner) (l : bytes) : Prop := Grows {
  gr_depth : depth r' = depth r;
  gr_frames : frames r' = frames r;
  gr_root : rootDone r' = rootDone r;
  gr_cap : capturing r' = capturing r;
  gr_value : capturing r = true → capKind r' = capKind r ∧ capPath r' = capPath r ∧ capDepth r' = capDepth r ∧ buffered r' = extend (buffered r) l
}.

Lemma in_keeps_grows r r' l : in_keeps r r' l → grows r r' l.
Proof. intros []. by constructor. Qed.

Lemma grows_trans r r1 r2 l1 l2 : grows r r1 l1 → grows r1 r2 l2 → grows r r2 (l1 ++ l2).
Proof.
  intros [D1 F1 T1 C1 V1] [D2 F2 T2 C2 V2]. constructor; try congruence.
  intros Hc. destruct (V1 Hc) as (A1 & A2 & A3 & A4). destruct (V2 ltac:(congruence)) as (B1 & B2 & B3 & B4).
  split_and!; [congruence..|]. by rewrite B4, A4, extend_app.
Qed.

Lemma grows_nil r : normal r → grows r r [].
Proof.
  intros Hn. constructor; try done. intros Hc. split_and!; try done. destruct Hn as (Hn & _ & Hd).
  assert (E : buffered r = buffered (live [] 0 r)) by (unfold norm in Hn; rewrite Hd in Hn; by rewrite Hn at 1).
  rewrite E at 1. rewrite buffered_live. unfold captured. rewrite Hc. by rewrite sub_empty.
Qed.

Lemma began_in r s s' kind l l' : began r s kind l → grows s s' l' → began r s' kind (l ++ l').
Proof.
  intros Hb [D F T C V]. eapply began_more; [exact Hb|by rewrite F|rewrite F; apply Hb|done|done|done].
Qed.

Lemma last_app (l1 : bytes) x l2 d : List.last (l1 ++ x :: l2) d = List.last (x :: l2) d.
Proof. induction l1 as [|y l1 IH]; [done|]. rewrite <- IH. simpl. by destruct l1. Qed.

Lemma last_forallb f (l : bytes) d : l ≠ [] → forallb f l = true → f (List.last l d) = true.
Proof.
  induction l as [|x l IH]; [done|]. intros _ H. simpl in H. apply andb_true_iff in H as [Hx Hl]. destruct l as [|y l]; [done|]. by apply IH.
Qed.

(** Reading [l] from [r] and settling. *)
Record runs (r : usageScanner) (l : bytes) (r' : usageScanner) (out : reported) : Prop := Runs {
  rn_run : run r l = (r', out);
  rn_normal : normal (feeds r l).1;
  rn_string : inString (feeds r l).1 = false;
  rn_last : inScalar (feeds r l).1 = false ∨ delimiter (List.last l " "%char) = false
}.

Lemma runs_idle r l r' out : feeds r l = (r', out) → idle r' → runs r l r' out.
Proof.
  intros H [Hn _ Hs Hc]. constructor; [unfold run, flush; by rewrite H, Hc, app_nil_r|by rewrite H|by rewrite H|left; by rewrite H].
Qed.

Lemma runs_feeds_app r l1 r1 o1 l2 r2 o2 : feeds r l1 = (r1, o1) → runs r1 l2 r2 o2 → runs r (l1 ++ l2) r2 (o1 ++ o2).
Proof.
  intros H [R N S L]. assert (E : feeds r (l1 ++ l2) = ((feeds r1 l2).1, o1 ++ (feeds r1 l2).2)) by (rewrite feeds_app, H; by destruct (feeds r1 l2)).
  constructor; rewrite ?E; try done.
  2: { destruct L as [L|L]; [by left|right]. destruct l2 as [|x l2]; [by vm_compute in L|]. by rewrite last_app. }
  unfold run in *. rewrite E. destruct (feeds r1 l2) as [q p]. cbn [fst snd]. destruct (flush q) as [q' p'].
  injection R as <- <-. by rewrite app_assoc.
Qed.

(** What follows a scalar settles it first. *)
Lemma runs_delim_app r l1 r1 o1 d l r2 o2 : runs r l1 r1 o1 → delimiter d = true → runs r1 (d :: l) r2 o2 → runs r (l1 ++ d :: l) r2 (o1 ++ o2).
Proof.
  intros [R1 N1 S1 _] Hd [R2 N2 S2 L2]. destruct (feeds r l1) as [q p] eqn:Eq. cbn [fst] in *. unfold run in R1. rewrite Eq in R1.
  pose proof (feed_delimiter q d N1 S1 Hd) as Hf. destruct (flush q) as [q1 p1]. injection R1 as -> <-.
  assert (E : feeds q (d :: l) = ((feeds r1 (d :: l)).1, p1 ++ (feeds r1 (d :: l)).2)).
  { cbn [UsageScan.feeds]. rewrite Hf. destruct (feed r1 d) as [q2 p2]. destruct (feeds q2 l) as [q3 p3]. cbn [fst snd]. by rewrite app_assoc. }
  assert (E' : feeds r (l1 ++ d :: l) = ((feeds r1 (d :: l)).1, p ++ p1 ++ (feeds r1 (d :: l)).2)) by (rewrite feeds_app, Eq, E; done).
  constructor; rewrite ?E'; try done. 2: { destruct L2 as [L|L]; [by left|right]. by rewrite last_app. }
  unfold run in *. rewrite E'. destruct (feeds r1 (d :: l)) as [q3 p3]. cbn [fst snd]. destruct (flush q3) as [q4 p4].
  injection R2 as <- <-. by rewrite <- !app_assoc.
Qed.

Lemma live_normal_here s : normal s → live [] 0 s = s.
Proof. intros (Hn & _ & Hd). unfold norm in Hn. by rewrite Hd in Hn. Qed.

Definition value_reports (r : usageScanner) (c : cst) : reported := if capturing r then [] else report (depth r) (vmask r) c.

Definition is_leaf (c : cst) : bool := match c with CArray _ _ | CObject _ _ => false | _ => true end.

Lemma leaf_reports r c : is_leaf c = true → value_reports r c = end_report r (text c).
Proof.
  intros Hl. unfold value_reports, end_report. destruct (capturing r); [done|]. unfold target.
  destruct c; try done; simpl; by destruct (if (depth r =? 0)%nat then None else path_at 0 paths (depth r) (vmask r)).
Qed.

Definition value_ok (c : cst) : Prop := ∀ r, value_pos r → ∃ r', runs r (text c) r' (value_reports r c) ∧ keeps r r' (text c).

Lemma feeds_string k : string_body_ok k = true → ∀ r, value_pos r →
  ∃ r', feeds r (string_token k) = (r', value_reports r (CString k)) ∧ keeps r r' (string_token k).
Proof.
  intros Hk r Hv. destruct (vp_idle _ Hv) as [Hn Hlen Hs Hsc]. assert (Hst := normal_capStart r Hn). pose proof Hn as (_ & Hkey & Hd).
  set (t := set_string r true false false).
  destruct (first_byte r t captureString quote Hv) as (B1 & N1 & D1 & S1 & E1 & _ & I1 & I2 & I3 & I4 & I5); [by split_and!|].
  set (s1 := (startValue paths t 0 captureString).1) in *.
  assert (F1 : feed r quote = (live [quote] 1 s1, [])).
  { apply feed_out1; [done| |done|lia]. unfold UsageScan.turn_. rewrite Hs, Hsc. cbn [andb]. unfold structural, startString.
    change (json_space quote || Ascii.eqb quote ":") with false. change (Ascii.eqb quote quote) with true. cbn match. fold t.
    change (top t) with (top r). destruct (top r) as [f|] eqn:Hf; [|done].
    assert (Hke : negb (array f) && expectKey f = false) by (destruct (array f) eqn:Ha; [done|by rewrite (vp_key _ Hv f Hf Ha)]). by rewrite Hke. }
  destruct (feeds_body (live [quote] 1 s1) false k (string_body_shape k Hk)) as (r2 & F2 & In2 & K2).
  { constructor; simpl; [done|rewrite I5; done|done|done|done|by rewrite I4]. }
  pose proof (began_in _ _ _ _ _ _ B1 (in_keeps_grows _ _ _ K2)) as B2. destruct In2 as [N2 L2 Is2 Ie2 Ik2 Sc2]. pose proof N2 as (_ & Hkey2 & Hd2).
  set (t2 := set_string r2 false false false).
  pose proof (finish_spec r t2 captureString ([quote] ++ k) [quote] 1 Hv) as Hfin.
  specialize (Hfin ltac:(destruct B2; by constructor) ltac:(simpl; rewrite (ik_depth _ _ _ K2); simpl; done)
    ltac:(exact (normal_capStart r2 N2)) Hkey2 Hd2 eq_refl Sc2).
  destruct (if capturing t2 && bool_decide (capKind t2 = captureString) && (depth t2 =? capDepth t2)%nat then endCapture t2 [quote] 1
            else if (depth t2 =? 0)%nat then (set_rootDone t2, []) else (t2, [])) as [s' out] eqn:Ef.
  destruct Hfin as (-> & Hkeeps & Hd'). change (sub [quote] 0 1) with [quote] in *.
  assert (F3 : feed r2 quote = (norm [quote] 1 s', end_report r (([quote] ++ k) ++ [quote]))).
  { unfold UsageScan.feed. rewrite Hd2. unfold UsageScan.turn_. rewrite Is2. unfold stringBytes. rewrite Ie2. cbn [drop index_any].
    change (Ascii.eqb quote quote || Ascii.eqb quote backslash) with true. cbn match. change (sub [quote] 0 (0 + 0)) with ([] : bytes).
    change ([quote] !! (0 + 0)) with (Some quote). rewrite bool_decide_false by done. rewrite keyAppend_nil by done.
    assert (Hse : string_end paths r2 [quote] (0 + 0) = (s', end_report r (([quote] ++ k) ++ [quote])))
      by (unfold string_end; rewrite Ie2, Ik2; exact Ef).
    by rewrite Hse. }
  exists (norm [quote] 1 s'). rewrite leaf_reports by done. cbn [text]. unfold string_token.
  split; [|exact Hkeeps]. cbn [feeds]. rewrite F1, feeds_app, F2. cbn [feeds]. rewrite F3. simpl. by rewrite app_nil_r.
Qed.

Lemma value_string k : string_body_ok k = true → value_ok (CString k).
Proof.
  intros Hk r Hv. destruct (feeds_string k Hk r Hv) as (r' & F & K). exists r'. split; [|done]. apply runs_idle; [done|by eapply keeps_idle].
Qed.

(** The bytes of a scalar after its first. *)
Lemma feeds_scalar r l : normal r → inString r = false → inScalar r = true → forallb (λ c, negb (delimiter c)) l = true →
  ∃ r', feeds r l = (r', []) ∧ normal r' ∧ inString r' = false ∧ inScalar r' = true ∧ grows r r' l.
Proof.
  revert r. induction l as [|c l IH]; intros r Hn Hs Hsc Hl.
  - exists r. split_and!; try done. by apply grows_nil.
  - simpl in Hl. apply andb_true_iff in Hl as [Hc Hl]. assert (Hst := normal_capStart r Hn).
    assert (F1 : feed r c = (scan_tick r c, [])).
    { apply feed_out1; [done| |apply Hn|lia]. unfold UsageScan.turn_, scalarEnds. by rewrite Hs, Hsc, Hc. }
    assert (G1 : grows r (scan_tick r c) [c]).
    { constructor; try done. intros Hcap. simpl. rewrite Hcap. split_and!; try done. by apply tick_capture. }
    destruct (IH (scan_tick r c)) as (r' & F2 & N2 & S2 & C2 & G2); [by apply tick_normal|done|done|done|].
    exists r'. simpl. rewrite F1, F2. split_and!; try done. by apply (grows_trans _ _ _ [c] l G1 G2).
Qed.

Lemma value_scalar t : is_scalar t = true → forallb (λ c, negb (delimiter c)) t = true → value_ok (CScalar t).
Proof.
  intros Ht Hdl r Hv. destruct (vp_idle _ Hv) as [Hn Hlen Hs Hsc]. assert (Hst := normal_capStart r Hn). pose proof Hn as (_ & Hkey & Hd).
  destruct t as [|c t]; [done|]. simpl in Hdl. apply andb_true_iff in Hdl as [Hc Hdl].
  destruct (first_byte r r captureScalar c Hv) as (B1 & N1 & D1 & S1 & E1 & _ & I1 & I2 & I3 & I4 & I5); [by split_and!|].
  set (s0 := (startValue paths r 0 captureScalar).1) in *. set (s1 := set_inScalar s0 true).
  assert (F1 : feed r c = (live [c] 1 s1, [])).
  { apply feed_out1; [done| |done|simpl; lia]. unfold UsageScan.turn_. rewrite Hs, Hsc. cbn [andb]. unfold structural.
    assert (E : json_space c || Ascii.eqb c ":" = false ∧ Ascii.eqb c quote = false ∧ Ascii.eqb c "," = false ∧ Ascii.eqb c "{" || Ascii.eqb c "[" = false ∧
      Ascii.eqb c "}" || Ascii.eqb c "]" = false) by (by destruct c as [[] [] [] [] [] [] [] []]).
    destruct E as (-> & -> & -> & -> & ->). done. }
  assert (Nn : normal (live [c] 1 s1)).
  { destruct N1 as (Q1 & Q2 & Q3). split_and!; [|exact Q2|exact Q3]. unfold norm. simpl. rewrite D1. apply live_normal. }
  destruct (feeds_scalar (live [c] 1 s1) t Nn) as (r2 & F2 & N2 & Is2 & Sc2 & G2); [simpl; congruence|done|done|].
  assert (B1' : began r (live [c] 1 s1) captureScalar [c]) by (destruct B1; by constructor).
  pose proof (began_in _ _ _ _ _ _ B1' G2) as B2. pose proof N2 as (_ & Hkey2 & Hd2).
  set (t2 := set_inScalar r2 false). pose proof (finish_spec r t2 captureScalar ([c] ++ t) [] 0 Hv) as Hfin.
  specialize (Hfin ltac:(destruct B2; by constructor) ltac:(simpl; rewrite (gr_depth _ _ _ G2); simpl; done)
    ltac:(exact (normal_capStart r2 N2)) Hkey2 Hd2 Is2 eq_refl).
  destruct (if capturing t2 && bool_decide (capKind t2 = captureScalar) && (depth t2 =? capDepth t2)%nat then endCapture t2 [] 0
            else if (depth t2 =? 0)%nat then (set_rootDone t2, []) else (t2, [])) as [s' out] eqn:Ef.
  destruct Hfin as (-> & Hkeeps & Hd'). change (sub [] 0 0) with ([] : bytes) in *. rewrite app_nil_r in *.
  exists (norm [] 0 s'). rewrite leaf_reports by done. cbn [text]. split; [|exact Hkeeps].
  assert (F : feeds r (c :: t) = (r2, [])) by (cbn [UsageScan.feeds]; by rewrite F1, F2).
  assert (Hse : endScalar r2 [] 0 = (s', end_report r ([c] ++ t))) by exact Ef.
  constructor; rewrite ?F; try done; [unfold run; rewrite F; unfold flush; by rewrite Sc2, Hse|right].
  apply negb_true_iff. apply (last_forallb (λ c, negb (delimiter c))); [done|]. simpl. by rewrite Hc.
Qed.

(** ** Containers *)

(** The frame the container opened at [r] has. *)
Definition frame_at (r : usageScanner) (arr ek : bool) (m : Z) : option scanFrame :=
  if (depth r <? maxScanDepth)%nat then Some (ScanFrame arr ek m) else None.

(** Directly inside the container that began at [r]. *)
Record inside (r s : usageScanner) (l : bytes) (f : option scanFrame) : Prop := Inside {
  in_began : began r s captureContainer l;
  in_idle : idle s;
  in_depth : depth s = S (depth r);
  in_top : top s = f
}.

Lemma inside_keeps r s s' l l' f : inside r s l f → keeps s s' l' → inside r s' (l ++ l') f.
Proof.
  intros [B I D T] K. constructor; [|by apply keeps_idle in K|rewrite (kp_depth _ _ _ K); done|].
  - destruct K as [? KD KL KF ? ? KR KC KV]. eapply began_more; [exact B| |done|apply KR; lia|done|done].
    intros k Hk. apply KF. lia.
  - unfold top in *. rewrite (kp_depth _ _ _ K). rewrite <- T. destruct (_ || _); [done|]. apply (kp_frames _ _ _ K). lia.
Qed.

Lemma inside_value r s l f : value_pos r → inside r s l f → (∀ g, f = Some g → array g = false → expectKey g = false) → value_pos s.
Proof.
  intros Hv [B I D T] Hf. constructor; [done|lia|by rewrite T|]. intros Hc. destruct B as [_ _ _ C]. destruct (capturing r) eqn:Hcr.
  - destruct C as (_ & C2 & _ & C4 & _). destruct (vp_cap _ Hv Hcr). split; [congruence|lia].
  - destruct (target r); [|congruence]. destruct C as (_ & C2 & _ & C4 & _). split; [done|lia].
Qed.

(** Whether what is inside is looked at: the container is not captured. *)
Lemma inside_capturing r s l f : inside r s l f → capturing s = capturing r || bool_decide (is_Some (target r)).
Proof. intros [[_ _ _ C] _ _ _]. destruct (capturing r); [apply C|]. destruct (target r); [apply C|done]. Qed.

Lemma feed_open r (arr : bool) : value_pos r → ∃ s m, feed r (if arr then "["%char else "{"%char) = (s, []) ∧
  inside r s [if arr then "["%char else "{"%char] (frame_at r arr (negb arr) m) ∧
  (capturing r = false → target r = None → m = vmask r).
Proof.
  intros Hv. destruct (vp_idle _ Hv) as [Hn Hlen Hs Hsc]. assert (Hst := normal_capStart r Hn). pose proof Hn as (_ & Hkey & Hd).
  set (c := if arr then "["%char else "{"%char).
  destruct (first_byte r r captureContainer c Hv) as (B1 & N1 & D1 & S1 & E1 & M1 & I1 & I2 & I3 & I4 & I5); [by split_and!|].
  destruct (startValue paths r 0 captureContainer) as [s0 m] eqn:Esv. cbn [fst snd] in *.
  set (fs := if (depth s0 <? maxScanDepth)%nat then <[depth s0 := ScanFrame arr (negb arr) m]> (frames s0) else frames s0).
  set (s1 := set_depth s0 fs (S (depth s0))).
  assert (Hfs : length fs = maxScanDepth) by (unfold fs; rewrite I5; destruct (_ <? _)%nat; [by rewrite length_insert|done]).
  exists (live [c] 1 s1), m. split_and!.
  - apply feed_out1; [done| |done|simpl; lia]. unfold UsageScan.turn_. rewrite Hs, Hsc. cbn [andb]. unfold structural, open.
    rewrite Esv. fold fs s1. by destruct arr.
  - constructor; [|constructor; simpl; try done; [|congruence|congruence]|simpl; congruence|].
    + destruct B1 as [BF BL BT BC]. constructor; [|done|exact BT|exact BC]. intros k Hk. simpl. unfold fs. rewrite I5, E1.
      destruct (depth r <? maxScanDepth)%nat; [|done]. rewrite list_lookup_insert_ne by lia. done.
    + destruct N1 as (Q1 & Q2 & Q3). split_and!; [|exact Q2|exact Q3]. unfold norm. simpl. rewrite D1. apply live_normal.
    + unfold top, frame_at. simpl. rewrite E1. unfold fs. rewrite I5, E1.
      destruct (Nat.ltb_spec (depth r) maxScanDepth), (Nat.ltb_spec maxScanDepth (S (depth r))); try lia; [|done].
      rewrite Nat.sub_0_r. apply list_lookup_insert_eq. by rewrite Hlen.
  - intros Hc Ht. rewrite (M1 Hc). by rewrite Ht.
Qed.

Lemma feed_close r s l f (arr : bool) : value_pos r → inside r s l f →
  ∃ r', feed s (if arr then "]"%char else "}"%char) = (r', end_report r (l ++ [if arr then "]"%char else "}"%char])) ∧
        keeps r r' (l ++ [if arr then "]"%char else "}"%char]).
Proof.
  intros Hv [B I D T]. destruct I as [Hn Hlen Hs Hsc]. assert (Hst := normal_capStart s Hn). pose proof Hn as (_ & Hkey & Hd).
  set (c := if arr then "]"%char else "}"%char). set (t := set_depth s (frames s) (depth s - 1)).
  pose proof (finish_spec r t captureContainer l [c] 1 Hv) as Hfin.
  specialize (Hfin ltac:(destruct B; by constructor) ltac:(simpl; lia) Hst Hkey Hd Hs Hsc).
  destruct (if capturing t && bool_decide (capKind t = captureContainer) && (depth t =? capDepth t)%nat then endCapture t [c] 1
            else if (depth t =? 0)%nat then (set_rootDone t, []) else (t, [])) as [s' out] eqn:Ef.
  destruct Hfin as (-> & Hkeeps & Hd'). change (sub [c] 0 1) with [c] in *. exists (norm [c] 1 s'). split; [|done].
  unfold UsageScan.feed. rewrite Hd. unfold UsageScan.turn_. rewrite Hs, Hsc. cbn [andb].
  assert (Hcl : structural paths s [c] 0 c = close s [c] 0) by (unfold c; by destruct arr).
  rewrite Hcl. unfold close. assert (E : (depth s =? 0)%nat = false) by (apply Nat.eqb_neq; lia). rewrite E. fold t. rewrite Ef. done.
Qed.

Lemma feed_comma r s l arr ek m : inside r s l (frame_at r arr ek m) → ∃ s', feed s ","%char = (s', []) ∧
  inside r s' (l ++ [","%char]) (frame_at r arr (if arr then ek else true) m).
Proof.
  intros [B I D T]. destruct I as [Hn Hlen Hs Hsc]. assert (Hst := normal_capStart s Hn). pose proof Hn as (_ & Hkey & Hd).
  set (t := match top s with Some f => if array f then s else set_top s (ScanFrame (array f) true (mask f)) | None => s end).
  assert (Ht : depth t = depth s ∧ length (frames t) = maxScanDepth ∧ rootDone t = rootDone s ∧ dead t = false ∧ inString t = false ∧ inScalar t = false ∧
    capStart t = 0 ∧ capturing t = capturing s ∧ capKind t = capKind s ∧ capPath t = capPath s ∧ capDepth t = capDepth s ∧ buffered t = buffered s ∧
    key t = key s ∧ (∀ k, k < depth r → frames t !! k = frames s !! k)).
  { unfold t. destruct (top s) as [f|]; [destruct (array f)|]; split_and!; try done; simpl; [by rewrite length_insert|].
    intros k Hk. apply list_lookup_insert_ne. lia. }
  destruct Ht as (T1 & T2 & T3 & T4 & T5 & T6 & T7 & T8 & T9 & T10 & T11 & T12 & T13 & T14).
  exists (scan_tick t ","%char). split; [apply feed_out1; [done| |done|lia]; unfold UsageScan.turn_; by rewrite Hs, Hsc|]. constructor.
  - eapply began_more; [exact B|exact T14|done|done|done|]. intros Hc. simpl. rewrite T8, Hc. split_and!; try done.
    rewrite tick_capture by congruence. by rewrite T12.
  - constructor; try done. split_and!; [unfold norm; simpl; rewrite T4; apply live_normal| |done].
    simpl. destruct (keyOver t); [simpl; unfold usageKeyLimit; lia|by rewrite T13].
  - simpl. congruence.
  - change (top (scan_tick t ",")) with (top t). clear - T D Hlen. unfold frame_at in *. subst t.
    destruct (Nat.ltb_spec (depth r) maxScanDepth); rewrite T; [|done]. cbn [array]. destruct arr; [done|].
    unfold top. simpl. rewrite D. destruct (Nat.ltb_spec maxScanDepth (S (depth r))); [lia|]. simpl. rewrite Nat.sub_0_r.
    apply list_lookup_insert_eq. by rewrite Hlen.
Qed.

Lemma match_from_zero i ps d name : match_from i ps d 0 name = 0%Z.
Proof. revert i. induction ps as [|p ps IH]; intros i; [done|]. cbn [match_from]. rewrite Z.testbit_0_l. apply IH. Qed.

Lemma narrow_key_zero d name : narrow_key d 0 name = 0%Z.
Proof. unfold narrow_key, narrow. rewrite match_from_zero. by destruct (usageKeyLimit <? length name)%nat, (d <=? maxScanDepth)%nat. Qed.

(** A name where the paths reach: the paths it leads to are pending. *)
Lemma feeds_key_frame r s l m k : inside r s l (Some (ScanFrame false true m)) → depth r < maxScanDepth → string_body_ok k = true →
  ∃ s', feeds s (string_token k) = (s', []) ∧ inside r s' (l ++ string_token k) (Some (ScanFrame false false m)) ∧
        pending s' = narrow_key (S (depth r)) m k.
Proof.
  intros [B I D T] Hr Hk. destruct I as [Hn Hlen Hs Hsc]. assert (Hst := normal_capStart s Hn). pose proof Hn as (_ & Hkey & Hd).
  set (t := set_key (set_string (set_top (set_string s true false false) (ScanFrame false false m)) true false true) [] (m =? 0)%Z).
  assert (F1 : feed s quote = (live [quote] 1 t, [])).
  { apply feed_out1; [done| |done|simpl; lia]. unfold UsageScan.turn_. rewrite Hs, Hsc. cbn [andb]. unfold structural, startString.
    change (json_space quote || Ascii.eqb quote ":") with false. change (Ascii.eqb quote quote) with true. cbn match.
    change (top (set_string s true false false)) with (top s). rewrite T. done. }
  assert (Ns : normal (live [quote] 1 t)).
  { split_and!; [unfold norm; simpl; rewrite Hd; apply live_normal|simpl; destruct (m =? 0)%Z; simpl; unfold usageKeyLimit; lia|done]. }
  destruct (feeds_body (live [quote] 1 t) true k (string_body_shape k Hk)) as (r2 & F2 & In2 & K2).
  { constructor; simpl; try done. by rewrite length_insert. }
  assert (B1 : began r (live [quote] 1 t) captureContainer (l ++ [quote])).
  { eapply began_more; [exact B| |simpl; by rewrite length_insert|done|done|].
    - intros j Hj. simpl. apply list_lookup_insert_ne. lia.
    - intros Hc. simpl. rewrite Hc. split_and!; try done. rewrite buffered_live. unfold captured. simpl. by rewrite Hc, Hst. }
  pose proof (began_in _ _ _ _ _ _ B1 (in_keeps_grows _ _ _ K2)) as B2. destruct In2 as [N2 L2 Is2 Ie2 Ik2 Sc2]. pose proof N2 as (_ & Hkey2 & Hd2).
  pose proof (normal_capStart r2 N2) as Hst2. assert (D2 : depth r2 = S (depth r)) by (by rewrite (ik_depth _ _ _ K2)).
  assert (T2 : top r2 = Some (ScanFrame false false m)).
  { unfold top. rewrite D2, (ik_frames _ _ _ K2). destruct (Nat.ltb_spec maxScanDepth (S (depth r))); [lia|]. simpl. rewrite D. simpl. rewrite Nat.sub_0_r.
    apply list_lookup_insert_eq. by rewrite Hlen. }
  set (m' := if keyOver r2 then 0%Z else match_from 0 paths (S (depth r)) m (key r2)).
  assert (Hm' : m' = narrow_key (S (depth r)) m k).
  { unfold m'. pose proof (ik_keyOver _ _ _ K2) as Ho. pose proof (ik_key _ _ _ K2) as Hke. simpl in Ho, Hke.
    destruct (Z.eqb_spec m 0) as [->|Hm]; [rewrite narrow_key_zero; by rewrite Ho|]. simpl in Ho, Hke.
    unfold narrow_key, narrow. rewrite <- Ho. destruct (keyOver r2); [done|]. rewrite (Hke eq_refl).
    destruct (Nat.leb_spec (S (depth r)) maxScanDepth); [done|lia]. }
  set (t2 := set_pending (set_string r2 false false true) m').
  assert (F3 : feed r2 quote = (live [quote] 1 t2, [])).
  { apply feed_out1; [done| |done|simpl; lia]. unfold UsageScan.turn_. rewrite Is2. unfold stringBytes. rewrite Ie2. cbn [drop index_any].
    change (Ascii.eqb quote quote || Ascii.eqb quote backslash) with true. cbn match. change (sub [quote] 0 (0 + 0)) with ([] : bytes).
    change ([quote] !! (0 + 0)) with (Some quote). rewrite bool_decide_false by done. rewrite keyAppend_nil by done.
    unfold string_end. rewrite Ie2, Ik2. cbn [stringIsKey set_string]. change (top (set_string r2 false false true)) with (top r2). rewrite T2.
    unfold match_. cbn [depth set_string keyOver key mask]. rewrite D2. done. }
  exists (live [quote] 1 t2). split; [unfold string_token; cbn [UsageScan.feeds]; rewrite F1, feeds_app, F2; cbn [UsageScan.feeds]; by rewrite F3|].
  split; [|exact Hm']. constructor.
  - unfold string_token. replace (l ++ quote :: k ++ [quote]) with (((l ++ [quote]) ++ k) ++ [quote]) by (by rewrite <- !app_assoc).
    eapply began_more; [exact B2|done|done|done|done|]. intros Hc. simpl. rewrite Hc. split_and!; try done.
    rewrite buffered_live. unfold captured. simpl. by rewrite Hc, Hst2.
  - constructor; simpl; try done. split_and!; [unfold norm; simpl; rewrite Hd2; apply live_normal|simpl; destruct (keyOver r2); [simpl; unfold usageKeyLimit; lia|done]|done].
  - done.
  - exact T2.
Qed.

(** A name anywhere: the value after it may be at the paths it leads to. *)
Lemma feeds_key r s l m k : value_pos r → inside r s l (frame_at r false true m) → string_body_ok k = true →
  ∃ s', feeds s (string_token k) = (s', []) ∧
        inside r s' (l ++ string_token k) (frame_at r false false m) ∧ vmask s' = narrow_key (S (depth r)) m k.
Proof.
  intros Hv Hi Hk. unfold frame_at in *. destruct (Nat.ltb_spec (depth r) maxScanDepth) as [Hr|Hr].
  - destruct (feeds_key_frame r s l m k Hi Hr Hk) as (s' & F & I & P). exists s'. destruct I as [Ib Ii Id It].
    split; [done|]. split; [by constructor|]. unfold vmask. rewrite Id, It. done.
  - assert (Hvs : value_pos s) by (eapply inside_value; [exact Hv|exact Hi|done]).
    destruct (feeds_string k Hk s Hvs) as (s' & Hrun & Hkeeps). pose proof (inside_keeps _ _ _ _ _ _ Hi Hkeeps) as Hi'.
    assert (Hrep : value_reports s (CString k) = []).
    { unfold value_reports. destruct (capturing s); [done|]. unfold vmask. destruct (depth s =? 0)%nat eqn:E0; [apply Nat.eqb_eq in E0; destruct Hi; lia|].
      rewrite (in_top _ _ _ _ Hi). cbn [report]. rewrite E0, path_at_zero. done. }
    rewrite Hrep in Hrun. exists s'. split; [done|].
    split; [done|]. unfold vmask. destruct Hi' as [_ _ Hd' Ht']. rewrite Hd', Ht'. unfold narrow_key, narrow.
    destruct (Nat.leb_spec (S (depth r)) maxScanDepth); [lia|]. by destruct (_ <? _)%nat.
Qed.

(** The paths inside the container that began at [r]. *)
Definition inner_reports (r : usageScanner) (l : reported) : reported := if capturing r || bool_decide (is_Some (target r)) then [] else l.

(** A value inside, with the space after it. *)
Lemma inside_value_runs r s l f c s2 : value_pos r → inside r s l f → (∀ g, f = Some g → array g = false → expectKey g = false) →
  value_ok c → spaces s2 →
  ∃ s', inside r s' (l ++ text c ++ s2) f ∧
        ∀ d tl r' out, delimiter d = true → runs s' (d :: tl) r' out → runs s (text c ++ s2 ++ d :: tl) r' (value_reports s c ++ out).
Proof.
  intros Hv Hi Hf Hc Hs2. destruct (Hc s (inside_value _ _ _ _ Hv Hi Hf)) as (s1 & R1 & K1).
  pose proof (inside_keeps _ _ _ _ _ _ Hi K1) as I1. destruct (feeds_spaces s1 s2 (in_idle _ _ _ _ I1) Hs2) as (s3 & F3 & K3 & _).
  pose proof (inside_keeps _ _ _ _ _ _ I1 K3) as I3. rewrite <- app_assoc in I3. exists s3. split; [done|]. intros d tl r' out Hd Hk.
  pose proof (runs_feeds_app _ _ _ _ _ _ _ F3 Hk) as R3. simpl in R3.
  destruct (s2 ++ d :: tl) as [|x y] eqn:E; [by destruct s2|]. apply (runs_delim_app _ _ s1); [done| |done].
  destruct s2 as [|b s2]; injection E as <- _; [done|]. unfold spaces in Hs2. simpl in Hs2. apply andb_true_iff in Hs2 as [Hs2 _].
  unfold delimiter. by rewrite Hs2.
Qed.

Lemma runs_single r c r' out : feed r c = (r', out) → idle r' → runs r [c] r' out.
Proof. intros H Hi. apply runs_idle; [|done]. simpl. by rewrite H, app_nil_r. Qed.

Lemma runs_cons r c r1 l r2 o2 : feed r c = (r1, []) → runs r1 l r2 o2 → runs r (c :: l) r2 o2.
Proof. intros H R. apply (runs_feeds_app r [c] r1 [] l r2 o2); [|done]. simpl. by rewrite H. Qed.

Lemma element_reports r s l ek m c : inside r s l (frame_at r true ek m) →
  value_reports s c = inner_reports r (report (S (depth r)) (narrow (S (depth r)) m (bs "*")) c).
Proof.
  intros I1. unfold value_reports, inner_reports. rewrite (inside_capturing _ _ _ _ I1). destruct (_ || _); [done|].
  rewrite (in_depth _ _ _ _ I1). f_equal. unfold vmask. rewrite (in_depth _ _ _ _ I1), (in_top _ _ _ _ I1). simpl.
  unfold frame_at, narrow. destruct (Nat.ltb_spec (depth r) maxScanDepth), (Nat.leb_spec (S (depth r)) maxScanDepth); try lia; try done.
  unfold matchElement. cbn [array mask]. by rewrite (in_depth _ _ _ _ I1).
Qed.

Definition element_out (r : usageScanner) (m : Z) (e : element) : reported :=
  inner_reports r (report (S (depth r)) (narrow (S (depth r)) m (bs "*")) (el_value e)).

Lemma elements_runs r s l ek m es : value_pos r → inside r s l (frame_at r true ek m) → Forall wf_element es → es ≠ [] →
  Forall (λ e, value_ok (el_value e)) es →
  ∃ r', runs s (elements_text es) r' (flat_map (element_out r m) es ++ end_report r (l ++ elements_text es)) ∧ keeps r r' (l ++ elements_text es).
Proof.
  intros Hv. revert s l. induction es as [|e es IH]; intros s l Hi Hw Hne Hok; [done|].
  inversion Hw as [|?? Hw1 Hw2]; inversion Hok as [|?? Ho1 Ho2]; subst. destruct Hw1 as [s1 c s2 H1 Hwc H2]. change (el_value (s1, c, s2)) with c in Ho1.
  destruct (feeds_spaces s s1 (in_idle _ _ _ _ Hi) H1) as (t1 & F1 & K1 & _). pose proof (inside_keeps _ _ _ _ _ _ Hi K1) as I1.
  assert (Hf : ∀ g, frame_at r true ek m = Some g → array g = false → expectKey g = false).
  { unfold frame_at. intros g. destruct (_ <? _)%nat; [|done]. by intros [= <-]. }
  destruct (inside_value_runs r t1 _ _ c s2 Hv I1 Hf Ho1 H2) as (t2 & I2 & Hgo). rewrite (element_reports _ _ _ _ _ c I1) in Hgo.
  cbn [flat_map]. change (element_out r m (s1, c, s2)) with (inner_reports r (report (S (depth r)) (narrow (S (depth r)) m (bs "*")) c)).
  rewrite <- app_assoc.
  destruct es as [|e' es].
  - destruct (feed_close r t2 _ _ true Hv I2) as (r' & F & K).
    assert (E : ((l ++ s1) ++ text c ++ s2) ++ ["]"%char] = l ++ elements_text [(s1, c, s2) : element]) by (simpl; unfold element_text; flat).
    assert (E2 : elements_text [(s1, c, s2) : element] = s1 ++ text c ++ s2 ++ ["]"%char]) by (simpl; unfold element_text; flat).
    rewrite E in F, K. exists r'. split; [|done]. rewrite E2 at 1. apply (runs_feeds_app _ _ t1 []); [done|]. apply Hgo; [done|].
    apply runs_single; [done|by eapply keeps_idle].
  - destruct (feed_comma r t2 _ _ _ _ I2) as (t3 & F3 & I3). destruct (IH t3 _ I3 Hw2 ltac:(done) Ho2) as (r' & R & K).
    assert (E : (((l ++ s1) ++ text c ++ s2) ++ [","%char]) ++ elements_text (e' :: es) = l ++ elements_text ((s1, c, s2) :: e' :: es))
      by (rewrite elements_text_cons; unfold element_text; flat).
    assert (E2 : elements_text ((s1, c, s2) :: e' :: es) = s1 ++ text c ++ s2 ++ ","%char :: elements_text (e' :: es))
      by (rewrite elements_text_cons; unfold element_text; flat).
    rewrite E in R, K. exists r'. split; [|done]. rewrite E2 at 1. apply (runs_feeds_app _ _ t1 []); [done|]. apply Hgo; [done|].
    by apply (runs_cons _ _ t3).
Qed.

Definition member_out (r : usageScanner) (m : Z) (mb : member) : reported :=
  inner_reports r (report (S (depth r)) (narrow_key (S (depth r)) m (mb_name mb)) (mb_value mb)).

(** A name and its colon, up to the value. *)
Lemma member_start r s l m s1 k s2 s3 : value_pos r → inside r s l (frame_at r false true m) → spaces s1 → string_body_ok k = true →
  spaces s2 → spaces s3 →
  ∃ s', feeds s (s1 ++ string_token k ++ s2 ++ ":"%char :: s3) = (s', []) ∧
        inside r s' (l ++ s1 ++ string_token k ++ s2 ++ ":"%char :: s3) (frame_at r false false m) ∧ vmask s' = narrow_key (S (depth r)) m k.
Proof.
  intros Hv Hi H1 Hk H2 H3. destruct (feeds_spaces s s1 (in_idle _ _ _ _ Hi) H1) as (t1 & F1 & K1 & _). pose proof (inside_keeps _ _ _ _ _ _ Hi K1) as I1.
  destruct (feeds_key r t1 _ m k Hv I1 Hk) as (t2 & F2 & I2 & V2).
  destruct (feeds_spaces t2 s2 (in_idle _ _ _ _ I2) H2) as (t3 & F3 & K3 & P3 & _). pose proof (inside_keeps _ _ _ _ _ _ I2 K3) as I3.
  destruct (feed_space t3 ":" (in_idle _ _ _ _ I3)) as [F4 K4]; [by right|]. pose proof (inside_keeps _ _ _ _ _ _ I3 K4) as I4.
  destruct (feeds_spaces (scan_tick t3 ":") s3 (in_idle _ _ _ _ I4) H3) as (t5 & F5 & K5 & P5 & _). pose proof (inside_keeps _ _ _ _ _ _ I4 K5) as I5.
  exists t5. split.
  - rewrite feeds_app, F1, feeds_app, F2, feeds_app, F3. cbn [UsageScan.feeds]. by rewrite F4, F5.
  - split; [replace (l ++ s1 ++ string_token k ++ s2 ++ ":"%char :: s3) with (((((l ++ s1) ++ string_token k) ++ s2) ++ [":"%char]) ++ s3); [done|flat]|].
    rewrite <- V2. unfold vmask, matchElement. rewrite (in_depth _ _ _ _ I5), (in_depth _ _ _ _ I2), (in_top _ _ _ _ I5), (in_top _ _ _ _ I2), P5.
    change (pending (scan_tick t3 ":")) with (pending t3). by rewrite P3.
Qed.

Lemma members_runs r s l m ms : value_pos r → inside r s l (frame_at r false true m) → Forall wf_member ms → ms ≠ [] →
  Forall (λ mb, value_ok (mb_value mb)) ms →
  ∃ r', runs s (members_text ms) r' (flat_map (member_out r m) ms ++ end_report r (l ++ members_text ms)) ∧ keeps r r' (l ++ members_text ms).
Proof.
  intros Hv. revert s l. induction ms as [|mb ms IH]; intros s l Hi Hw Hne Hok; [done|].
  inversion Hw as [|?? Hw1 Hw2]; inversion Hok as [|?? Ho1 Ho2]; subst. destruct Hw1 as [s1 k s2 s3 c s4 H1 Hk H2 H3 Hwc H4].
  change (mb_value (s1, (k, s2, s3), c, s4)) with c in Ho1.
  destruct (member_start r s l m s1 k s2 s3 Hv Hi H1 Hk H2 H3) as (t1 & F1 & I1 & V1).
  assert (Hf : ∀ g, frame_at r false false m = Some g → array g = false → expectKey g = false).
  { unfold frame_at. intros g. destruct (_ <? _)%nat; [|done]. by intros [= <-]. }
  destruct (inside_value_runs r t1 _ _ c s4 Hv I1 Hf Ho1 H4) as (t2 & I2 & Hgo).
  assert (Hrep : value_reports t1 c = member_out r m (s1, (k, s2, s3), c, s4)).
  { unfold value_reports, member_out, inner_reports. rewrite (inside_capturing _ _ _ _ I1), (in_depth _ _ _ _ I1), V1. done. }
  rewrite Hrep in Hgo. cbn [flat_map]. rewrite <- app_assoc. set (mb := (s1, (k, s2, s3), c, s4) : member) in *.
  destruct ms as [|mb' ms].
  - destruct (feed_close r t2 _ _ false Hv I2) as (r' & F & K).
    assert (E : ((l ++ s1 ++ string_token k ++ s2 ++ ":"%char :: s3) ++ text c ++ s4) ++ ["}"%char] = l ++ members_text [mb])
      by (simpl; unfold mb, member_text; flat).
    assert (E2 : members_text [mb] = (s1 ++ string_token k ++ s2 ++ ":"%char :: s3) ++ text c ++ s4 ++ ["}"%char]) by (simpl; unfold mb, member_text; flat).
    rewrite E in F, K. exists r'. split; [|done]. rewrite E2 at 1. apply (runs_feeds_app _ _ t1 []); [done|]. apply Hgo; [done|].
    apply runs_single; [done|by eapply keeps_idle].
  - destruct (feed_comma r t2 _ _ _ _ I2) as (t3 & F3 & I3). destruct (IH t3 _ I3 Hw2 ltac:(done) Ho2) as (r' & R & K).
    assert (E : (((l ++ s1 ++ string_token k ++ s2 ++ ":"%char :: s3) ++ text c ++ s4) ++ [","%char]) ++ members_text (mb' :: ms) = l ++ members_text (mb :: mb' :: ms))
      by (rewrite members_text_cons; unfold mb, member_text at 1; flat).
    assert (E2 : members_text (mb :: mb' :: ms) = (s1 ++ string_token k ++ s2 ++ ":"%char :: s3) ++ text c ++ s4 ++ ","%char :: members_text (mb' :: ms))
      by (rewrite members_text_cons; unfold mb, member_text at 1; flat).
    rewrite E in R, K. exists r'. split; [|done]. rewrite E2 at 1. apply (runs_feeds_app _ _ t1 []); [done|]. apply Hgo; [done|].
    by apply (runs_cons _ _ t3).
Qed.

Lemma flat_map_nil {A B} (f : A → list B) l : (∀ x, f x = []) → flat_map f l = [].
Proof. intros H. induction l as [|x l IH]; [done|]. simpl. by rewrite H, IH. Qed.

(** What a container reports is what is inside it, unless it is captured. *)
Lemma container_reports r (c : cst) (inner : reported) {A} (f : A → reported) xs m :
  inner = flat_map f xs → (capturing r = false → target r = None → m = vmask r) →
  (∀ x, capturing r || bool_decide (is_Some (target r)) = true → f x = []) →
  (capturing r = false → target r = None → report (depth r) (vmask r) c = flat_map f xs) →
  inner ++ end_report r (text c) = value_reports r c.
Proof.
  intros -> _ Hnil Hrep. unfold value_reports, end_report. destruct (capturing r) eqn:Hc.
  - rewrite app_nil_r. apply flat_map_nil. intros x. by apply Hnil.
  - destruct (target r) as [idx|] eqn:Ht.
    + rewrite flat_map_nil by (intros x; apply Hnil; by rewrite bool_decide_true by by eexists). simpl. unfold target in Ht. destruct c; simpl; by rewrite Ht.
    + rewrite app_nil_r. by rewrite Hrep.
Qed.

Lemma inner_free r l : capturing r = false → target r = None → inner_reports r l = l.
Proof. intros Hc Ht. unfold inner_reports. by rewrite Hc, Ht. Qed.

Lemma array_reports r m e es : capturing r = false → target r = None → m = vmask r →
  report (depth r) m (CArray e es) = flat_map (element_out r m) (e :: es).
Proof.
  intros Hc Ht ->. pose proof Ht as Ht'. unfold target in Ht'. cbn [report]. rewrite Ht'. apply flat_map_ext. intros x.
  unfold element_out. by rewrite inner_free.
Qed.

Lemma object_reports r m mb ms : capturing r = false → target r = None → m = vmask r →
  report (depth r) m (CObject mb ms) = flat_map (member_out r m) (mb :: ms).
Proof.
  intros Hc Ht ->. pose proof Ht as Ht'. unfold target in Ht'. cbn [report]. rewrite Ht'. apply flat_map_ext. intros x.
  unfold member_out. by rewrite inner_free.
Qed.

Lemma value_all c : wf c → value_ok c.
Proof.
  induction c as [t|k|a sp|e es IHe IHes|mb ms IHm IHms] using cst_ind'; intros Hw; inversion Hw; subst.
  - by apply value_scalar.
  - by apply value_string.
  - intros r Hv. destruct (feed_open r a Hv) as (s & m & F1 & I1 & _).
    destruct (feeds_spaces s sp (in_idle _ _ _ _ I1)) as (s2 & F2 & K2 & _); [done|]. pose proof (inside_keeps _ _ _ _ _ _ I1 K2) as I2.
    destruct (feed_close r s2 _ _ a Hv I2) as (r' & F3 & K3). rewrite leaf_reports by done.
    assert (Et : ([if a then "["%char else "{"%char] ++ sp) ++ [if a then "]"%char else "}"%char] = text (CEmpty a sp)) by (by destruct a).
    rewrite Et in F3, K3. exists r'. split; [|done]. rewrite <- Et at 1. rewrite <- app_assoc. apply (runs_cons _ _ s); [done|].
    apply (runs_feeds_app _ _ s2 []); [done|]. apply runs_single; [done|by eapply keeps_idle].
  - intros r Hv. destruct (feed_open r true Hv) as (s & m & F1 & I1 & M1).
    assert (Hok : Forall (λ e, value_ok (el_value e)) (e :: es)).
    { constructor; [apply IHe; by destruct H1|]. rewrite Forall_forall in *. intros x Hx. apply IHes; [done|]. by destruct (H2 x Hx). }
    destruct (elements_runs r s _ _ m (e :: es) Hv I1) as (r' & R & K); [by constructor|done|done|].
    change ([if true then "["%char else "{"%char] ++ elements_text (e :: es)) with (text (CArray e es)) in R, K.
    exists r'. split; [|done]. rewrite text_array. apply (runs_cons _ _ s); [done|].
    erewrite <- (container_reports r (CArray e es)); [exact R|reflexivity|exact M1| |].
    + intros x Hx. unfold element_out, inner_reports. by rewrite Hx.
    + intros Hc Ht. rewrite <- (M1 Hc Ht). apply array_reports; auto.
  - intros r Hv. destruct (feed_open r false Hv) as (s & m & F1 & I1 & M1).
    assert (Hok : Forall (λ mb, value_ok (mb_value mb)) (mb :: ms)).
    { constructor; [apply IHm; by destruct H1|]. rewrite Forall_forall in *. intros x Hx. apply IHms; [done|]. by destruct (H2 x Hx). }
    destruct (members_runs r s _ m (mb :: ms) Hv I1) as (r' & R & K); [by constructor|done|done|].
    change ([if false then "["%char else "{"%char] ++ members_text (mb :: ms)) with (text (CObject mb ms)) in R, K.
    exists r'. split; [|done]. rewrite text_object. apply (runs_cons _ _ s); [done|].
    erewrite <- (container_reports r (CObject mb ms)); [exact R|reflexivity|exact M1| |].
    + intros x Hx. unfold member_out, inner_reports. by rewrite Hx.
    + intros Hc Ht. rewrite <- (M1 Hc Ht). apply object_reports; auto.
Qed.

(** ** Answers *)

Lemma new_pos s : newUsageScanner paths = Some s → value_pos s ∧ key_ok s ∧ capturing s = false ∧ depth s = 0 ∧ norm [] 0 s = s.
Proof.
  unfold newUsageScanner. destruct (_ || _); [done|]. intros [= <-]. split_and!; try done; [|unfold key_ok; simpl; unfold usageKeyLimit; lia].
  constructor; try done. constructor; try done. split_and!; try done. simpl; unfold usageKeyLimit; lia.
Qed.

Lemma writes_report s chunks s1 c s2 : newUsageScanner paths = Some s → concat chunks = s1 ++ text c ++ s2 → spaces s1 → wf c → spaces s2 →
  (writes paths s chunks).2 = report 0 (all paths) c.
Proof.
  intros Hnew Hb H1 Hw H2. destruct (new_pos s Hnew) as (Hv & Hk & Hc & Hd & Hn).
  destruct (writes_feeds paths s chunks Hk) as (s' & out & -> & _ & Hf). rewrite Hn, Hb in Hf. cbn [snd].
  destruct (feeds_spaces s s1 (vp_idle _ Hv) H1) as (t1 & F1 & K1 & _ & Hr1).
  assert (Hd1 : depth t1 = 0) by (rewrite (kp_depth _ _ _ K1); done).
  assert (Hc1 : capturing t1 = false) by (rewrite (kp_cap _ _ _ K1); done).
  assert (Hv1 : value_pos t1).
  { constructor; [by eapply keeps_idle|intros _; rewrite Hr1; by apply (vp_root _ Hv)| |congruence]. unfold top. by rewrite Hd1. }
  destruct (value_all c Hw t1 Hv1) as (r' & [R N S L] & K).
  assert (Hrep : value_reports t1 c = report 0 (all paths) c) by (unfold value_reports, vmask; by rewrite Hc1, Hd1).
  rewrite Hrep in R. rewrite feeds_app, F1 in Hf. unfold run in R. destruct (feeds t1 (text c)) as [q o1] eqn:Eq. cbn [fst] in *.
  destruct s2 as [|d s2].
  - rewrite app_nil_r, Eq in Hf. injection Hf as _ <-. simpl. unfold flush in R. destruct (inScalar q) eqn:Ei; [|injection R as _ <-; by rewrite app_nil_r].
    destruct L as [?|L]; [done|]. destruct (endScalar q [] 0) as [z o2]. injection R as _ R.
    destruct Hw as [t Ht Hdl|k Hkk|a sp Hsp|e es He Hes|m ms Hm Hms].
    + simpl in *. by apply app_eq_nil in R as [-> _].
    + cbn [text] in L. unfold string_token in L. rewrite app_comm_cons, last_app in L. by vm_compute in L.
    + exfalso. destruct a; cbn [text] in L; rewrite app_comm_cons, last_app in L; by vm_compute in L.
    + rewrite text_array in L. unfold elements_text in L. rewrite app_assoc, app_comm_cons, last_app in L. by vm_compute in L.
    + rewrite text_object in L. unfold members_text in L. rewrite app_assoc, app_comm_cons, last_app in L. by vm_compute in L.
  - rewrite feeds_app, Eq in Hf. unfold spaces in H2. simpl in H2. apply andb_true_iff in H2 as [Hsd H2].
    assert (Hdd : delimiter d = true) by (unfold delimiter; by rewrite Hsd). cbn [UsageScan.feeds] in Hf.
    rewrite (feed_delimiter q d N S Hdd) in Hf. destruct (flush q) as [q1 o2]. injection R as -> R.
    destruct (feed_space r' d (keeps_idle _ _ _ K) (or_introl Hsd)) as [Fd Kd]. rewrite Fd in Hf.
    destruct (feeds_spaces (scan_tick r' d) s2 (keeps_idle _ _ _ Kd) H2) as (t3 & F3 & _). rewrite F3 in Hf. injection Hf as _ <-.
    simpl. by rewrite !app_nil_r.
Qed.
End spec.
