(* ===== verification/UsageReader.v ===== *)
(** Usage readers: the callbacks of usagescan.go and the stream filters of
    adapters.go (internal/gateway).

    json.Unmarshal into the small structs the callbacks use is modelled on the
    tree: a member fills the field its name folds to, null leaves the field, a
    later member replaces an earlier one, and one value of the wrong type fails
    the whole decode. *)

From stdpp Require Import base list strings option gmap.
From Stdlib Require Import ZArith Lia Ascii.
From S2P Require Import Prelude GoFloat Api BudgetLedger Json JsonString RequestBody RequestClaims FoldedName UsageScan UsageSpec.

(** ** Decoding *)

Fixpoint digits_val (acc : Z) (b : bytes) : option Z :=
  match b with
  | [] => Some acc
  | c :: b => if is_digit c then digits_val (acc * 10 + (ascii_Z c - 48)) b else None
  end.

(** strconv.ParseInt of a JSON number at 64 bits. *)
Definition parse_int64 (t : bytes) : option Z :=
  let '(neg, ds) := match t with c :: t' => if Ascii.eqb c "-" then (true, t') else (false, t) | [] => (false, t) end in
  match ds with
  | [] => None
  | _ =>
      match digits_val 0 ds with
      | Some v =>
          let v := if neg then (- v)%Z else v in
          if ((- 2 ^ 63 <=? v) && (v <? 2 ^ 63))%Z then Some v else None
      | None => None
      end
  end.

(** The members a struct or map decodes from: none of null, an error for
    anything else that is not an object. *)
Definition unmarshal_object (v : bytes) : option (list member) :=
  match parse v with
  | Some (_, c, _) =>
      match object_members c with
      | Some ms => Some ms
      | None => if bool_decide (text c = bs "null") then Some [] else None
      end
  | None => None
  end.

(** An int64 value; null keeps what is there. *)
Definition decode_int (old : Z) (c : cst) : option Z :=
  match c with
  | CScalar t => if bool_decide (t = bs "null") then Some old else parse_int64 t
  | _ => None
  end.

(** An int64 field after the members. *)
Fixpoint int_field (field : bytes) (acc : Z) (ms : list member) : option Z :=
  match ms with
  | [] => Some acc
  | m :: ms =>
      if jsonNameMatches (mb_key m) field
      then match decode_int acc (mb_value m) with Some z => int_field field z ms | None => None end
      else int_field field acc ms
  end.

(** A json.RawMessage field: the bytes of the last member, [] for none. *)
Definition raw_field (field : bytes) (ms : list member) : bytes :=
  foldl (λ acc m, if jsonNameMatches (mb_key m) field then text (mb_value m) else acc) [] ms.


(** json.Unmarshal into map[string]int64. *)
Fixpoint int_map (acc : gmap string Z) (ms : list member) : option (gmap string Z) :=
  match ms with
  | [] => Some acc
  | m :: ms => match decode_int 0 (mb_value m) with Some z => int_map (<[str (mb_key m) := z]> acc) ms | None => None end
  end.

(** ** Usage *)

Section readers.
Context {MR : MapRange}.

Definition serverToolCounts (raw : bytes) : gmap string Z :=
  match raw with
  | [] => ∅
  | _ =>
      match (match unmarshal_object raw with Some ms => int_map ∅ ms | None => None end) with
      | Some counts => foldl (λ tools kn, if (kn.2 <=? 0)%Z then tools else <[TrimSuffix kn.1 "_requests" := kn.2]> tools) ∅ (range counts)
      | None => ∅
      end
  end.

Definition anthropicPaths : list jsonPath := [[bs "usage"]].
Definition openaiPaths : list jsonPath := [[bs "usage"]].
Definition vertexPaths : list jsonPath := [[bs "usageMetadata"]; [bs "candidates"; bs "*"; bs "groundingMetadata"; bs "webSearchQueries"]].

(** The callback of newAnthropicUsageReader. *)
Definition onAnthropic (u : Usage) (pv : nat * bytes) : Usage :=
  match unmarshal_object pv.2 with
  | Some ms =>
      match int_field (bs "input_tokens") 0 ms, int_field (bs "output_tokens") 0 ms with
      | Some i, Some o => mk_usage i o (serverToolCounts (raw_field (bs "server_tool_use") ms))
      | _, _ => u
      end
  | None => u
  end.

Definition onOpenAI (u : Usage) (pv : nat * bytes) : Usage :=
  match unmarshal_object pv.2 with
  | Some ms =>
      match int_field (bs "prompt_tokens") 0 ms, int_field (bs "completion_tokens") 0 ms with
      | Some i, Some o => mk_usage i o ∅
      | _, _ => u
      end
  | None => u
  end.

(** json.Unmarshal into a slice of raw messages: its length. *)
Definition raw_slice (v : bytes) : option nat :=
  match parse v with
  | Some (_, CArray e es, _) => Some (S (length es))
  | Some (_, CEmpty true _, _) => Some 0
  | Some (_, CScalar t, _) => if bool_decide (t = bs "null") then Some 0 else None
  | _ => None
  end.

Definition onVertex (u : Usage) (pv : nat * bytes) : Usage :=
  match pv.1 with
  | 0 =>
      match unmarshal_object pv.2 with
      | Some ms =>
          match int_field (bs "promptTokenCount") 0 ms, int_field (bs "candidatesTokenCount") 0 ms, int_field (bs "thoughtsTokenCount") 0 ms with
          | Some p, Some c, Some t => mk_usage p (wrap64 (c + t)) (ServerTools u)
          | _, _, _ => u
          end
      | None => u
      end
  | _ =>
      match raw_slice pv.2 with
      | Some (S n) => mk_usage (InputTokens u) (OutputTokens u)
                        (<["google_search" := wrap64 (default 0%Z (ServerTools u !! "google_search") + Z.of_nat (S n))]> (ServerTools u))
      | _ => u
      end
  end.

(** usageReader: the scanner and the usage its callback folds into. *)
Record usageReader := UsageReaderMk { rd_paths : list jsonPath; rd_onValue : Usage → nat * bytes → Usage; rd_scan : usageScanner; rd_usage : Usage }.

Definition newReader (paths : list jsonPath) (onValue : Usage → nat * bytes → Usage) : option usageReader :=
  (λ s, UsageReaderMk paths onValue s zeroUsage) <$> newUsageScanner paths.

Definition newAnthropicUsageReader : option usageReader := newReader anthropicPaths onAnthropic.
Definition newOpenAIUsageReader : option usageReader := newReader openaiPaths onOpenAI.
Definition newVertexUsageReader : option usageReader := newReader vertexPaths onVertex.

(** usageReader.Write. *)
Definition reader_Write (r : usageReader) (p : bytes) : usageReader :=
  let '(s, out) := Write (rd_paths r) (rd_scan r) p in
  UsageReaderMk (rd_paths r) (rd_onValue r) s (foldl (rd_onValue r) (rd_usage r) out).

(** usageReader.result. *)
Definition result (r : usageReader) : Usage * bool := if isZero (rd_usage r) then (zeroUsage, false) else (rd_usage r, true).
End readers.

(** ** Stream filters *)

Definition contains (p data : bytes) : bool := existsb (has_prefix p) (tails data).

Definition mayBeAnthropicUsageEvent (data : bytes) : bool :=
  contains (bs "message_start") data || contains (bs "message_delta") data || contains [backslash; "u"%char] data.

Definition lor_is (c : ascii) (z : Z) : bool := (Z.lor (ascii_Z c) 32 =? z)%Z.

(** The last three letters of usage. *)
Definition age_at (d : bytes) : bool := match d with a :: g :: e :: _ => lor_is a 97 && lor_is g 103 && lor_is e 101 | _ => false end.

(** The body of mayCarryOpenAIUsage's loop, on the bytes from [i] on. *)
Definition openai_usage_at (d : bytes) : bool :=
  (5 <=? length d)%nat
  && match d with
     | u :: d' =>
         lor_is u 117
         && match (match d' with
                   | s :: d2 =>
                       if lor_is s 115 then Some d2
                       else if (ascii_Z s =? 197)%Z && match d2 with x :: _ => (ascii_Z x =? 191)%Z | [] => false end then Some (drop 1 d2)
                       else None
                   | [] => None
                   end) with
            | Some d => age_at d
            | None => false
            end
     | [] => false
     end.

Definition mayCarryOpenAIUsage (data : bytes) : bool := contains [backslash; "u"%char] data || existsb openai_usage_at (tails data).

(** ** Chunks *)

(** What the scanner reports depends only on the bytes of the answer,
    malformed ones too, and not on where the writes cut it. *)
Theorem scan_chunks_irrelevant paths s chunks1 chunks2 : newUsageScanner paths = Some s → concat chunks1 = concat chunks2 →
  (writes paths s chunks1).2 = (writes paths s chunks2).2.
Proof.
  intros Hn E. destruct (new_pos paths s Hn) as (_ & Hk & _).
  destruct (writes_feeds paths s chunks1 Hk) as (s1 & o1 & -> & _ & F1). destruct (writes_feeds paths s chunks2 Hk) as (s2 & o2 & -> & _ & F2).
  rewrite E, F2 in F1. by injection F1 as _ <-.
Qed.

(** On a valid answer, written in any chunks, the scanner reports exactly
    the values at its paths, in document order, each as its raw bytes; a value
    past the capture limit, or under a name past the key limit, is left out. *)
Theorem scan_reports_paths paths s chunks b s1 c s2 : newUsageScanner paths = Some s → concat chunks = b → parse b = Some (s1, c, s2) →
  (writes paths s chunks).2 = report paths 0 (all paths) c.
Proof.
  intros Hn <- (Hb & H1 & Hw & H2)%parse_spec. by apply (writes_report paths s chunks s1 c s2).
Qed.

(** ** The top-level usage member *)

(** The values of the members named exactly [name], those past the limit left out. *)
Definition top_values (name : bytes) (c : cst) : reported :=
  flat_map (λ m : member, if bool_decide (mb_name m = name) then (if (usageCaptureLimit <? length (text (mb_value m)))%nat then [] else [(0, text (mb_value m))]) else [])
    (default [] (object_members c)).

Lemma flat_map_nil_in {A B} (f : A → list B) l : (∀ x, In x l → f x = []) → flat_map f l = [].
Proof. induction l as [|x l IH]; intros H; [done|]. simpl. rewrite H by (by left). apply IH. intros y Hy. apply H. by right. Qed.

Lemma report_zero paths d c : report paths d 0 c = [].
Proof.
  revert d. induction c as [t|k|a sp|e es IHe IHes|mb ms IHm IHms] using cst_ind'; intros d; cbn [report];
    (assert (E : (if (d =? 0)%nat then None else path_at 0 paths d 0) = None) by (rewrite path_at_zero; by destruct (d =? 0)%nat)); rewrite E; try done.
  - apply flat_map_nil_in. intros x Hx. assert (En : narrow paths (S d) 0 (bs "*") = 0%Z) by (unfold narrow; rewrite match_from_zero; by destruct (_ <=? _)%nat).
    rewrite En. destruct Hx as [<-|Hx]; [apply IHe|]. rewrite List.Forall_forall in IHes. by apply IHes.
  - apply flat_map_nil_in. intros x Hx. rewrite narrow_key_zero. destruct Hx as [<-|Hx]; [apply IHm|]. rewrite List.Forall_forall in IHms. by apply IHms.
Qed.

Lemma single_match name k : match_from 0 [[name]] 1 1 k = if bool_decide (name = k) then 1%Z else 0%Z.
Proof.
  cbn [match_from]. change (Z.testbit 1 (Z.of_nat 0)) with true. change (1 <=? length [name])%nat with true. cbn [andb].
  change ([name] !! (1 - 1)) with (Some name). destruct (decide (name = k)) as [->|Hne]; [by rewrite !bool_decide_true|].
  rewrite !bool_decide_false; [done|done|congruence].
Qed.

Lemma report_one name v : report [[name]] 1 1 v = if (usageCaptureLimit <? length (text v))%nat then [] else [(0, text v)].
Proof. by destruct v. Qed.

(** One path of one name: the top-level members of that name. *)
Lemma report_single name c : name ≠ bs "*" → length name ≤ usageKeyLimit → report [[name]] 0 (all [[name]]) c = top_values name c.
Proof.
  intros Hs Hl. change (all [[name]]) with 1%Z. unfold top_values. destruct c as [t|k|[] sp|e es|mb ms]; try done.
  - cbn [report]. change (0 =? 0)%nat with true. cbn match. apply flat_map_nil_in. intros x _. unfold narrow.
    change (1 <=? maxScanDepth)%nat with true. cbn match. rewrite single_match, bool_decide_false by done. apply report_zero.
  - cbn [report object_members default]. change (0 =? 0)%nat with true. cbn match. apply flat_map_ext. intros x.
    change (x.1.1.2.1.1) with (mb_name x). change (x.1.2) with (mb_value x). unfold narrow_key, narrow.
    change (1 <=? maxScanDepth)%nat with true. cbn match. rewrite single_match. destruct (decide (mb_name x = name)) as [->|Hne].
    + rewrite !bool_decide_true by done. destruct (Nat.ltb_spec usageKeyLimit (length name)); [lia|]. apply report_one.
    + rewrite !bool_decide_false by congruence. destruct (_ <? _)%nat; apply report_zero.
Qed.

Lemma reader_writes r chunks : let r' := foldl reader_Write r chunks in
  rd_scan r' = (writes (rd_paths r) (rd_scan r) chunks).1 ∧ rd_usage r' = foldl (rd_onValue r) (rd_usage r) (writes (rd_paths r) (rd_scan r) chunks).2.
Proof.
  revert r. induction chunks as [|p chunks IH]; intros r; [done|]. cbn [foldl writes]. specialize (IH (reader_Write r p)). cbv zeta in *.
  destruct IH as [IH1 IH2]. rewrite IH1, IH2. unfold reader_Write. destruct (Write (rd_paths r) (rd_scan r) p) as [s o]. cbn [rd_paths rd_scan rd_usage rd_onValue].
  destruct (writes (rd_paths r) s chunks) as [s2 o2]. cbn [fst snd]. split; [done|]. by rewrite foldl_app.
Qed.

(** ** What a usage member says, read off its tree *)

Definition is_null (v : cst) : bool := bool_decide (text v = bs "null").
Definition int_literal (v : cst) : option Z := match v with CScalar t => parse_int64 t | _ => None end.
Definition countable (v : cst) : bool := is_null v || bool_decide (is_Some (int_literal v)).

(** The values of the members a field takes. *)
Definition taken (field : bytes) (ms : list member) : list cst :=
  map mb_value (List.filter (λ m : member, jsonNameMatches (mb_key m) field) ms).

(** A count: the last integer under its name, 0 for none; a value that is
    neither an integer nor null spoils it. *)
Definition count_of (field : bytes) (ms : list member) : option Z :=
  if forallb countable (taken field ms) then Some (default 0%Z (last (omap int_literal (taken field ms)))) else None.

(** The members of an object, and none of null. *)
Definition fields_of (v : cst) : option (list member) :=
  match object_members v with Some ms => Some ms | None => if is_null v then Some [] else None end.

(** The counts of the tools the provider ran, where they all count. *)
Definition server_tools (ms : list member) : list member :=
  match last (taken (bs "server_tool_use") ms) with
  | Some v => match fields_of v with Some es => if forallb (λ e, countable (mb_value e)) es then es else [] | None => [] end
  | None => []
  end.

Definition entries (name : string) (es : list member) : list cst := map mb_value (List.filter (λ e : member, bool_decide (str (mb_key e) = name)) es).
Definition tool_count (name : string) (es : list member) : Z := default 0%Z (last (entries name es) ≫= int_literal).

(** A tool is billed what the member of its name says, where that is
    positive; the name is cut of its suffix. *)
Definition tools_billed (es : list member) (tools : gmap string Z) : Prop :=
  (∀ tool n, tools !! tool = Some n → ∃ name, TrimSuffix name "_requests" = tool ∧ tool_count name es = n ∧ (0 < n)%Z) ∧
  (∀ name, (0 < tool_count name es)%Z → is_Some (tools !! TrimSuffix name "_requests")).

(** The two readers of one top-level member. *)
Inductive usage_api := AnthropicUsage | OpenAIUsage.

Definition count_names (a : usage_api) : bytes * bytes :=
  match a with AnthropicUsage => (bs "input_tokens", bs "output_tokens") | OpenAIUsage => (bs "prompt_tokens", bs "completion_tokens") end.

(** The input count, the output count and the members of a usage value that
    decodes. *)
Definition usage_says (a : usage_api) (v : cst) : option (Z * Z * list member) :=
  ms ← fields_of v; i ← count_of (count_names a).1 ms; o ← count_of (count_names a).2 ms; Some (i, o, ms).

(** The values of the top-level members named usage, those past the limit left out. *)
Definition usage_values (c : cst) : list cst :=
  List.filter (λ v, negb (usageCaptureLimit <? length (text v))%nat)
    (map mb_value (List.filter (λ m : member, bool_decide (mb_name m = bs "usage")) (default [] (object_members c)))).

Lemma usage_values_top c : top_values (bs "usage") c = map (λ v, (0, text v)) (usage_values c).
Proof.
  unfold top_values, usage_values. induction (default [] (object_members c)) as [|m ms IH]; [done|]. cbn [flat_map List.filter].
  destruct (bool_decide (mb_name m = bs "usage")); [|done]. cbn [map List.filter]. rewrite IH. by destruct (_ <? _)%nat.
Qed.

Lemma decode_int_tree z v : decode_int z v = if countable v then Some (default z (int_literal v)) else None.
Proof.
  unfold countable, is_null, decode_int, int_literal. destruct v as [t|k|[] sp|e es|m ms]; try done. cbn [text]. case_bool_decide as E; [by subst t|].
  by destruct (parse_int64 t).
Qed.

Lemma int_field_tree field z ms :
  int_field field z ms = if forallb countable (taken field ms) then Some (default z (last (omap int_literal (taken field ms)))) else None.
Proof.
  revert z. induction ms as [|m ms IH]; intros z; [done|]. unfold taken. cbn [int_field List.filter].
  destruct (jsonNameMatches (mb_key m) field); [|apply IH]. cbn [map forallb]. rewrite decode_int_tree. destruct (countable (mb_value m)); [|done].
  rewrite IH. fold (taken field ms). cbn [andb]. destruct (forallb _ _); [|done]. csimpl. f_equal.
  destruct (int_literal (mb_value m)); [|done]. rewrite last_cons. by destruct (last _).
Qed.

Lemma raw_field_tree field ms : raw_field field ms = match last (taken field ms) with Some v => text v | None => [] end.
Proof.
  unfold raw_field. generalize (@nil ascii) as b. induction ms as [|m ms IH]; intros b; [done|]. unfold taken. cbn [foldl List.filter]. rewrite IH.
  destruct (jsonNameMatches (mb_key m) field); [|done]. cbn [map]. rewrite last_cons. fold (taken field ms). by destruct (last (taken field ms)).
Qed.

(** A value whose text the decoder reads back. *)
Definition sound (v : cst) : Prop := wf v ∧ (nesting v ≤ maxNestingDepth)%Z.

Lemma member_sound c ms m : sound c → object_members c = Some ms → In m ms → sound (mb_value m).
Proof.
  intros [Hw Hn] Ho Hm. pose proof (object_members_wf c ms Hw Ho) as F. rewrite List.Forall_forall in F.
  destruct (object_nesting c ms Ho) as [N H1]. rewrite List.Forall_forall in N. specialize (N m Hm). unfold nested_in in N.
  split; [apply (wf_member_inv m (F m Hm))|lia].
Qed.

Lemma taken_sound c ms field v : sound c → fields_of c = Some ms → In v (taken field ms) → sound v.
Proof.
  intros Hc Hf Hv. unfold fields_of in Hf. destruct (object_members c) as [ms'|] eqn:Ho; [injection Hf as ->|destruct (is_null c); [by injection Hf as <-|done]].
  unfold taken in Hv. apply in_map_iff in Hv as (m & <- & Hm). apply List.filter_In in Hm as [Hm _]. by apply (member_sound c ms).
Qed.

Lemma unmarshal_tree v : sound v → unmarshal_object (text v) = fields_of v.
Proof.
  intros [Hw Hn]. pose proof (parse_complete [] v [] eq_refl Hw eq_refl Hn) as Hp. rewrite app_nil_r in Hp. cbn [app] in Hp.
  unfold unmarshal_object. by rewrite Hp.
Qed.

Lemma int_map_tree es acc :
  match int_map acc es with
  | Some counts => forallb (λ e, countable (mb_value e)) es = true ∧
      ∀ k, counts !! k = match last (entries k es) with Some v => Some (default 0%Z (int_literal v)) | None => acc !! k end
  | None => forallb (λ e, countable (mb_value e)) es = false
  end.
Proof.
  revert acc. induction es as [|e es IH]; intros acc; [done|]. cbn [int_map forallb]. rewrite decode_int_tree. destruct (countable (mb_value e)); [|done].
  specialize (IH (<[str (mb_key e) := default 0%Z (int_literal (mb_value e))]> acc)). destruct (int_map _ es) as [counts|]; [|done].
  destruct IH as [-> IH]. split; [done|]. intros k. rewrite IH. unfold entries. cbn [List.filter]. case_bool_decide as Ek.
  - subst k. cbn [map]. rewrite last_cons. destruct (last _); [done|]. by rewrite lookup_insert_eq.
  - destruct (last _); [done|]. by rewrite lookup_insert_ne.
Qed.

Section reader_claims.
Context {MR : MapRange}.

Lemma bill_spec (l : list (string * Z)) (acc : gmap string Z) :
  let T := foldl (λ tools kn, if (kn.2 <=? 0)%Z then tools else <[TrimSuffix kn.1 "_requests" := kn.2]> tools) acc l in
  (∀ tool n, T !! tool = Some n → acc !! tool = Some n ∨ ∃ name, (name, n) ∈ l ∧ TrimSuffix name "_requests" = tool ∧ (0 < n)%Z) ∧
  (∀ name n, (name, n) ∈ l → (0 < n)%Z → is_Some (T !! TrimSuffix name "_requests")) ∧
  (∀ tool, is_Some (acc !! tool) → is_Some (T !! tool)).
Proof.
  revert acc. induction l as [|[k z] l IH]; intros acc; cbn [foldl fst snd].
  { split_and!; [by left|by intros ? ? ?%not_elem_of_nil|done]. }
  set (acc' := if (z <=? 0)%Z then acc else <[TrimSuffix k "_requests" := z]> acc). destruct (IH acc') as (I1 & I2 & I3).
  assert (Hmono : ∀ tool, is_Some (acc !! tool) → is_Some (acc' !! tool)).
  { intros tool H. unfold acc'. destruct (z <=? 0)%Z; [done|]. apply lookup_insert_is_Some'. by right. }
  split_and!.
  - intros tool n H. destruct (I1 tool n H) as [Ha|(name & Hin & Hrest)]; [|right; exists name; split; [by right|done]].
    unfold acc' in Ha. destruct (Z.leb_spec z 0); [by left|]. apply lookup_insert_Some in Ha as [[<- <-]|[_ Ha]]; [|by left].
    right. exists k. split; [by left|done].
  - intros name n [[= -> ->]|Hin]%elem_of_cons Hn; [|by apply (I2 name n)]. apply I3. unfold acc'. destruct (Z.leb_spec z 0); [lia|].
    apply lookup_insert_is_Some'. by left.
  - intros tool H. by apply I3, Hmono.
Qed.

Lemma counted_tools (counts : gmap string Z) es : (∀ k, counts !! k = (λ v, default 0%Z (int_literal v)) <$> last (entries k es)) →
  tools_billed es (foldl (λ tools kn, if (kn.2 <=? 0)%Z then tools else <[TrimSuffix kn.1 "_requests" := kn.2]> tools) ∅ (range counts)).
Proof.
  intros Hc. destruct (bill_spec (range counts) ∅) as (I1 & I2 & _). unfold tools_billed, tool_count. split.
  - intros tool n [Ha|(name & Hin & Ht & Hn)]%I1; [by rewrite lookup_empty in Ha|]. exists name. split_and!; [done| |done].
    apply elem_of_range in Hin. rewrite Hc in Hin. destruct (last (entries name es)) as [v|]; [|done]. by injection Hin as <-.
  - intros name Hn. eapply I2; [|exact Hn]. apply elem_of_range. rewrite Hc. by destruct (last (entries name es)).
Qed.

Lemma no_tools : tools_billed [] ∅.
Proof. split; [intros tool n H; by rewrite lookup_empty in H|intros name; unfold tool_count; simpl; lia]. Qed.

Lemma serverToolCounts_tree c ms : sound c → fields_of c = Some ms → tools_billed (server_tools ms) (serverToolCounts (raw_field (bs "server_tool_use") ms)).
Proof.
  intros Hc Hf. rewrite raw_field_tree. unfold server_tools. destruct (last (taken (bs "server_tool_use") ms)) as [v|] eqn:El; [|apply no_tools].
  assert (Hv : sound v) by (apply (taken_sound c ms (bs "server_tool_use")); [done..|]; apply list_elem_of_In, last_Some_elem_of, El).
  unfold serverToolCounts. rewrite unmarshal_tree by done. destruct (text v) as [|x t] eqn:Et.
  { pose proof (unmarshal_tree v Hv) as Hu. rewrite Et in Hu. change (unmarshal_object []) with (@None (list member)) in Hu. rewrite <- Hu. apply no_tools. }
  destruct (fields_of v) as [es|]; [|apply no_tools]. pose proof (int_map_tree es ∅) as Hm.
  destruct (int_map ∅ es) as [counts|]; [destruct Hm as [-> Hm]|rewrite Hm; apply no_tools].
  apply counted_tools. intros k. rewrite Hm. by destruct (last _).
Qed.

Definition newUsageReader (a : usage_api) : option usageReader :=
  match a with AnthropicUsage => newAnthropicUsageReader | OpenAIUsage => newOpenAIUsageReader end.

(** The usage a decoded value leaves. *)
Definition usage_left (a : usage_api) (x : Z * Z * list member) : Usage :=
  mk_usage x.1.1 x.1.2 (match a with AnthropicUsage => serverToolCounts (raw_field (bs "server_tool_use") x.2) | OpenAIUsage => ∅ end).

Lemma onValue_tree a r u v : newUsageReader a = Some r → sound v →
  rd_onValue r u (0, text v) = from_option (usage_left a) u (usage_says a v).
Proof.
  intros Hr Hv. assert (Hon : rd_onValue r = match a with AnthropicUsage => onAnthropic | OpenAIUsage => onOpenAI end).
  { unfold newUsageReader, newAnthropicUsageReader, newOpenAIUsageReader, newReader in Hr. destruct a; by destruct (newUsageScanner _); [injection Hr as <-|]. }
  rewrite Hon. unfold usage_says. destruct a; unfold onAnthropic, onOpenAI; cbn [snd count_names fst]; rewrite unmarshal_tree by done.
  all: destruct (fields_of v) as [ms|]; [|done]; rewrite !int_field_tree; cbn [mbind option_bind]; unfold count_of.
  all: destruct (forallb countable (taken _ ms)); [|done]; cbn [mbind option_bind]; by destruct (forallb countable (taken _ ms)).
Qed.

Lemma usage_values_sound c v : sound c → v ∈ usage_values c → sound v.
Proof.
  intros Hc Hv. unfold usage_values in Hv. apply list_elem_of_In, List.filter_In in Hv as [Hv _]. apply in_map_iff in Hv as (m & <- & Hm).
  apply List.filter_In in Hm as [Hm _]. destruct (object_members c) as [ms|] eqn:Ho; [|done]. by apply (member_sound c ms).
Qed.

Lemma fold_last {B} (g : cst → option B) (F : B → Usage) vs h u :
  (∀ u v, v ∈ vs → h u (0, text v) = from_option F u (g v)) → foldl h u (map (λ v, (0, text v)) vs) = from_option F u (last (omap g vs)).
Proof.
  revert u. induction vs as [|v vs IH]; intros u H; [done|]. cbn [foldl map]. rewrite (H u v) by (by left). rewrite IH by (intros; apply H; by right).
  csimpl. destruct (g v) as [x|]; [|done]. rewrite last_cons. by destruct (last _).
Qed.

(** C24: for a valid answer written in any chunks, the Anthropic and OpenAI
    readers hold what the last top-level member named usage that decodes says
    (members past the capture limit apart): the input and the output count are
    the integers under input_tokens and output_tokens, prompt_tokens and
    completion_tokens for OpenAI, 0 where there is none, never a sum over
    members; for Anthropic every tool with a positive count under
    server_tool_use is billed a count the answer gives it, and no other.
    Without such a member the reader holds nothing; whatever the answer holds
    elsewhere does not count. *)
Theorem usage_reader_exact a r chunks b s1 c s2 : newUsageReader a = Some r → concat chunks = b → parse b = Some (s1, c, s2) →
  let u := rd_usage (foldl reader_Write r chunks) in
  match last (omap (usage_says a) (usage_values c)) with
  | None => u = zeroUsage
  | Some (i, o, ms) =>
      InputTokens u = i ∧ OutputTokens u = o ∧
      match a with AnthropicUsage => tools_billed (server_tools ms) (ServerTools u) | OpenAIUsage => ServerTools u = ∅ end
  end.
Proof.
  intros Hr <- Hp. destruct (parse_spec _ _ _ _ Hp) as (Hb & H1 & Hw & H2). pose proof (reader_writes r chunks) as [_ Hu]. cbv zeta in *. rewrite Hu. clear Hu.
  assert (Hn : newUsageScanner [[bs "usage"]] = Some (rd_scan r) ∧ rd_paths r = [[bs "usage"]] ∧ rd_usage r = zeroUsage)
    by (unfold newUsageReader, newAnthropicUsageReader, newOpenAIUsageReader, newReader, anthropicPaths, openaiPaths in Hr;
        destruct (newUsageScanner [[bs "usage"]]) as [s|]; [|by destruct a]; destruct a; by injection Hr as <-).
  destruct Hn as (Hn & -> & ->). rewrite (writes_report _ _ chunks s1 c s2 Hn Hb H1 Hw H2), report_single by (done || (vm_compute; lia)).
  assert (Hc : sound c) by (split; [done|by apply (parse_depth _ _ _ _ Hp)]).
  rewrite usage_values_top, (fold_last (usage_says a) (usage_left a)) by (intros u v Hv; by apply onValue_tree; [|apply (usage_values_sound c)]).
  destruct (last (omap (usage_says a) (usage_values c))) as [[[i o] ms]|] eqn:El; [|done]. split_and!; [done..|].
  destruct a; [|done]. apply last_Some_elem_of, list_elem_of_omap in El as (v & Hv & Hsays). unfold usage_says in Hsays.
  apply (serverToolCounts_tree v); [by apply (usage_values_sound c)|]. apply bind_Some in Hsays as (ms' & -> & Hsays).
  repeat (apply bind_Some in Hsays as (? & _ & Hsays)). by injection Hsays as _ _ ->.
Qed.
End reader_claims.

(** ** Memory *)

Definition buf_ok (s : usageScanner) : Prop := length (capBuf s) ≤ usageCaptureLimit.

Lemma appendCapture_ok s b : buf_ok s → buf_ok (appendCapture s b).
Proof.
  unfold buf_ok, appendCapture. intros H. destruct (capOver s); [done|]. destruct (Nat.ltb_spec usageCaptureLimit (length (capBuf s) + length b)); simpl; [lia|].
  rewrite length_app. lia.
Qed.

Lemma endCapture_ok s p e : buf_ok (endCapture s p e).1.
Proof. unfold buf_ok, endCapture. simpl. lia. Qed.

Lemma startValue_ok paths s i k : buf_ok s → buf_ok (startValue paths s i k).1.
Proof.
  intros H. unfold startValue. destruct (depth s =? 0)%nat; [by destruct (rootDone s)|].
  destruct (top s) as [f|]; [destruct (array f)|]; (destruct (capturing _ || _); [done|]); (destruct (path_at _ _ _ _); [unfold buf_ok; simpl; lia|done]).
Qed.

Lemma keyAppend_ok s b : buf_ok s → buf_ok (keyAppend s b).
Proof. intros H. unfold keyAppend. destruct (_ || _); [done|]. by destruct (_ <? _)%nat. Qed.

Lemma string_end_ok paths s p k : buf_ok s → buf_ok (string_end paths s p k).1.
Proof.
  intros H. unfold string_end. destruct (stringIsKey _); [done|]. destruct (_ && _ && _); [apply endCapture_ok|]. by destruct (_ =? _)%nat.
Qed.

Lemma turn_ok paths s p i c : buf_ok s → buf_ok (turn_ paths s p i c).1.1.
Proof.
  intros H. unfold turn_. destruct (inString s).
  - unfold stringBytes. destruct (escape s); [by apply keyAppend_ok|]. destruct (index_any _) as [j|]; [|by apply keyAppend_ok].
    case_bool_decide; [by apply keyAppend_ok|]. pose proof (string_end_ok paths _ p (i + j) (keyAppend_ok _ (sub p i (i + j)) H)) as Hs.
    by destruct (string_end _ _ _ _).
  - destruct (_ && _); [done|].
    assert (H1 : buf_ok (if inScalar s then endScalar s p i else (s, [])).1).
    { destruct (inScalar s); [|done]. unfold endScalar. destruct (_ && _ && _); [apply endCapture_ok|]. by destruct (_ =? _)%nat. }
    destruct (if inScalar s then endScalar s p i else (s, [])) as [t o]. cbn [fst] in H1.
    assert (H2 : buf_ok (structural paths t p i c).1).
    { unfold structural, startString, open, close. destruct (_ || _); [done|]. destruct (Ascii.eqb c quote).
      { destruct (top _) as [f|]; [destruct (_ && _); [done|]|]; by apply startValue_ok. }
      destruct (Ascii.eqb c ","); [destruct (top t) as [f|]; [destruct (array f)|]; done|]. destruct (_ || _).
      { pose proof (startValue_ok paths t i captureContainer H1) as Hs. by destruct (startValue _ _ _ _). }
      destruct (_ || _); [|by apply startValue_ok]. destruct (depth t =? 0)%nat; [done|].
      destruct (_ && _ && _); [apply endCapture_ok|]. by destruct (_ =? _)%nat. }
    by destruct (structural _ _ _ _ _).
Qed.

Lemma write_loop_ok paths fuel s p i : buf_ok s → buf_ok (write_loop paths fuel s p i).1.
Proof.
  revert s i. induction fuel as [|fuel IH]; intros s i H; [done|]. cbn [write_loop]. destruct (dead s); [done|]. destruct (p !! i) as [c|]; [|done].
  pose proof (turn_ok paths s p i c H) as Ht. destruct (turn_ paths s p i c) as [[s' o] i']. specialize (IH s' i' Ht).
  by destruct (write_loop paths fuel s' p i').
Qed.

Lemma Write_ok paths s p : buf_ok s → buf_ok (Write paths s p).1.
Proof.
  intros H. unfold Write. destruct (dead s); [done|]. pose proof (write_loop_ok paths (length p) (set_capStart s 0) p 0 H) as Hl.
  destruct (write_loop _ _ _ _ _) as [s' o]. cbn [fst] in *. destruct (capturing s'); [by apply appendCapture_ok|done].
Qed.

(** Whatever answer is written, valid or not and in any chunks, the
    scanner holds at most 64 bytes of a name and 64 KiB of a value. *)
Theorem scanner_memory_bounded paths s chunks : newUsageScanner paths = Some s →
  length (key (writes paths s chunks).1) ≤ usageKeyLimit ∧ length (capBuf (writes paths s chunks).1) ≤ usageCaptureLimit.
Proof.
  intros Hn. destruct (new_pos paths s Hn) as (_ & Hk & _).
  split; [by destruct (writes_feeds paths s chunks Hk) as (s1 & o1 & -> & H & _)|].
  assert (H : buf_ok s) by (unfold newUsageScanner in Hn; destruct (_ || _); [done|]; injection Hn as <-; unfold buf_ok; simpl; lia).
  clear Hn Hk. revert s H. induction chunks as [|p chunks IH]; intros s H; [done|]. cbn [writes]. pose proof (Write_ok paths s p H) as Hw.
  destruct (Write paths s p) as [s1 o1]. specialize (IH s1 Hw). by destruct (writes paths s1 chunks).
Qed.

(** ** The stream filter for usage *)

Lemma eqb_lor d z : (97 ≤ z ≤ 122)%Z → ascii_Z d = z → lor_is d z = true.
Proof. intros Hz H. unfold lor_is. apply Z.eqb_eq. by apply lor_32; [|left]. Qed.

(** One letter that is not s or k. *)
Lemma folded_letter c name d data j : (97 ≤ ascii_Z c ≤ 122)%Z → ascii_Z c ≠ 115%Z → ascii_Z c ≠ 107%Z →
  folded_prefix (c :: name) (d :: data) j = if lor_is d (ascii_Z c) then folded_prefix name data (S j) else 0.
Proof.
  intros Hc Hs Hk. cbn [folded_prefix]. rewrite (proj2 (Z.leb_le 97 _)), (proj2 (Z.leb_le _ 122)) by lia. cbn [andb]. unfold lor_is.
  destruct (Z.lor (ascii_Z d) 32 =? ascii_Z c)%Z eqn:E; [done|].
  assert (Hne : Ascii.eqb d c = false).
  { apply Ascii.eqb_neq. intros ->. assert (H := eqb_lor c (ascii_Z c) Hc eq_refl). unfold lor_is in H. congruence. }
  rewrite Hne, (proj2 (Z.eqb_neq _ 115)), (proj2 (Z.eqb_neq _ 107)) by done. done.
Qed.

Lemma folded_age d j : (0 < folded_prefix (bs "age") d (S j)) ↔ match d with a :: g :: e :: _ => lor_is a 97 && lor_is g 103 && lor_is e 101 = true | _ => False end.
Proof.
  assert (Hl : ∀ c, c ∈ bs "age" → (97 ≤ ascii_Z c ≤ 122)%Z ∧ ascii_Z c ≠ 115%Z ∧ ascii_Z c ≠ 107%Z).
  { intros c Hc. cbn in Hc. repeat (apply elem_of_cons in Hc as [->|Hc]; [vm_compute; split_and!; congruence|]). by apply not_elem_of_nil in Hc. }
  change (bs "age") with ["a"; "g"; "e"]%char in *.
  destruct d as [|a d]; [simpl; lia|]. rewrite folded_letter by (apply Hl; set_solver). change (ascii_Z "a") with 97%Z.
  destruct (lor_is a 97); [|destruct d as [|g [|e d]]; simpl; lia || (split; [lia|done])].
  destruct d as [|g d]; [simpl; lia|]. rewrite folded_letter by (apply Hl; set_solver). change (ascii_Z "g") with 103%Z.
  destruct (lor_is g 103); [|destruct d; simpl; lia || (split; [lia|done])].
  destruct d as [|e d]; [simpl; lia|]. rewrite folded_letter by (apply Hl; set_solver). change (ascii_Z "e") with 101%Z.
  destruct (lor_is e 101); simpl; split; (lia || done).
Qed.

Lemma folded_age_at d j : (0 <? folded_prefix (bs "age") d (S j))%nat = age_at d.
Proof.
  apply eq_bool_prop_intro. rewrite !Is_true_true, Nat.ltb_lt, folded_age. unfold age_at. destruct d as [|a [|g [|e d]]]; try done.
Qed.

Lemma age_at_length d : age_at d = true → 3 ≤ length d.
Proof. destruct d as [|a [|g [|e d]]]; try done. simpl. lia. Qed.

Lemma long_s_prefix s d : has_prefix long_s (s :: d) = (ascii_Z s =? 197)%Z && match d with x :: _ => (ascii_Z x =? 191)%Z | [] => false end.
Proof.
  assert (Hz : ∀ x y, (ascii_Z x =? ascii_Z y)%Z = Ascii.eqb x y).
  { intros x y. apply eq_bool_prop_intro. rewrite !Is_true_true, Z.eqb_eq, Ascii.eqb_eq. split; [|by intros ->].
    intros E. rewrite <- (byte_ascii_Z x), <- (byte_ascii_Z y). by rewrite E. }
  change 197%Z with (ascii_Z "197"). change 191%Z with (ascii_Z "191"). rewrite Hz. unfold has_prefix, long_s. cbn [length take].
  destruct d as [|x d]; [rewrite andb_false_r; by rewrite bool_decide_false|]. rewrite Hz. cbn [take].
  apply eq_bool_prop_intro. rewrite !Is_true_true, bool_decide_eq_true, andb_true_iff, !Ascii.eqb_eq. split; [by intros [= -> ->]|by intros [-> ->]].
Qed.

(** The loop's test is the general one at the name usage. *)
Lemma openai_at d : openai_usage_at d = (0 <? foldedPrefixLen d (bs "usage"))%nat.
Proof.
  unfold openai_usage_at, foldedPrefixLen. change (bs "usage") with ("u"%char :: "s"%char :: bs "age").
  destruct d as [|u d]; [done|]. rewrite folded_letter by (vm_compute; first [split; congruence|congruence]). change (ascii_Z "u") with 117%Z.
  destruct (lor_is u 117); [|by rewrite andb_false_l, andb_false_r]. cbn [andb]. destruct d as [|s d]; [by rewrite andb_false_r|].
  cbn [folded_prefix]. change (ascii_Z "s") with 115%Z. change ((97 <=? 115)%Z && (115 <=? 122)%Z) with true. cbn [andb].
  change (115 =? 115)%Z with true. change (115 =? 107)%Z with false. cbn [andb]. fold (lor_is s 115). rewrite long_s_prefix.
  assert (Hgo : ∀ d' j, length d' ≤ length d → (5 <=? length (u :: s :: d))%nat && age_at d' = (0 <? folded_prefix (bs "age") d' (S j))%nat).
  { intros d' j Hlen. rewrite folded_age_at. destruct (age_at d') eqn:E; [|by rewrite andb_false_r].
    apply age_at_length in E. rewrite andb_true_r. apply Nat.leb_le. simpl. lia. }
  destruct (lor_is s 115) eqn:Es; [apply (Hgo d 1); lia|].
  assert (Hne : Ascii.eqb s "s" = false) by (apply Ascii.eqb_neq; intros ->; by vm_compute in Es).
  rewrite Hne. destruct ((ascii_Z s =? 197)%Z && match d with x :: _ => (ascii_Z x =? 191)%Z | [] => false end); [|by rewrite andb_false_r].
  change (drop 2 (s :: d)) with (drop 1 d). change (1 + 2) with 3. apply (Hgo (drop 1 d) 2).
  rewrite length_drop. lia.
Qed.

(** The loop that looks for a usage member in an OpenAI stream payload
    decides exactly what mayHoldFoldedName does for the name usage. *)
Theorem mayCarryOpenAIUsage_folded data : mayCarryOpenAIUsage data = mayHoldFoldedName data (bs "usage").
Proof.
  unfold mayCarryOpenAIUsage, mayHoldFoldedName, contains. f_equal. induction (tails data) as [|d l IH]; [done|]. simpl. by rewrite openai_at, IH.
Qed.

(** ** Examples *)

Definition answer : bytes := map (λ c, if Ascii.eqb c "'" then quote else c)
  (bs " {'id':'a\'b','n':[1,{'usage':7}],'usage':{'prompt_tokens':3,'completion_tokens':4}} ").
Definition answer_parts : bytes * cst * bytes := Eval vm_compute in default ([], CEmpty false [], []) (parse answer).
Definition answer_chunks : list bytes := [take 3 answer; take 40 (drop 3 answer); drop 43 answer].
Definition usage_scanner : usageScanner := Eval vm_compute in default deadScanner (newUsageScanner openaiPaths).

Lemma scan_chunks_irrelevant_witness : (writes openaiPaths usage_scanner answer_chunks).2 = (writes openaiPaths usage_scanner [answer]).2.
Proof. exact (scan_chunks_irrelevant openaiPaths usage_scanner answer_chunks [answer] ltac:(vm_compute; reflexivity) ltac:(vm_compute; reflexivity)). Defined.

Lemma scan_reports_paths_witness : (writes openaiPaths usage_scanner answer_chunks).2 = report openaiPaths 0 (all openaiPaths) answer_parts.1.2.
Proof.
  exact (scan_reports_paths openaiPaths usage_scanner answer_chunks answer answer_parts.1.1 answer_parts.1.2 answer_parts.2
    ltac:(vm_compute; reflexivity) ltac:(vm_compute; reflexivity) ltac:(vm_compute; reflexivity)).
Defined.

Definition openai_reader : usageReader := UsageReaderMk openaiPaths onOpenAI usage_scanner zeroUsage.

Lemma usage_reader_exact_witness : InputTokens (rd_usage (foldl reader_Write openai_reader answer_chunks)) = 3%Z ∧
  OutputTokens (rd_usage (foldl reader_Write openai_reader answer_chunks)) = 4%Z ∧
  ServerTools (rd_usage (foldl reader_Write openai_reader answer_chunks)) = ∅.
Proof.
  pose proof (usage_reader_exact (MR := list_order) OpenAIUsage openai_reader answer_chunks answer answer_parts.1.1 answer_parts.1.2 answer_parts.2
    eq_refl ltac:(vm_compute; reflexivity) ltac:(vm_compute; reflexivity)) as H.
  assert (E : ∃ ms, last (omap (usage_says OpenAIUsage) (usage_values answer_parts.1.2)) = Some (3%Z, 4%Z, ms)) by (eexists; vm_compute; reflexivity).
  destruct E as [ms E]. cbv zeta in H. rewrite E in H. exact H.
Defined.

Example answer_usage : result (foldl reader_Write openai_reader answer_chunks) = (mk_usage 3 4 ∅, true).
Proof. vm_compute. reflexivity. Qed.

Lemma scanner_memory_bounded_witness : length (key (writes openaiPaths usage_scanner answer_chunks).1) ≤ usageKeyLimit ∧
  length (capBuf (writes openaiPaths usage_scanner answer_chunks).1) ≤ usageCaptureLimit.
Proof. exact (scanner_memory_bounded openaiPaths usage_scanner answer_chunks ltac:(vm_compute; reflexivity)). Defined.
