(* ===== verification/JsonDecode.v ===== *)
(** [json.Unmarshal] into Go structs, as the translator and the gateway use
    it: a type description, the values of a type, and the decoder.

    A member fills the field its name folds to, and decodes into what the
    field already holds; null leaves a field unless it can be nil; a value of
    the wrong type leaves the field and is remembered as an error, and the
    decoding goes on.  A [json.RawMessage] keeps the bytes of its value, null
    included. *)

From stdpp Require Import base list strings option gmap.
From Stdlib Require Import ZArith Lia Ascii.
From S2P Require Import Prelude GoFloat Json JsonString JsonValue RequestBody UsageReader.

Inductive gty :=
  | TString | TInt | TFloat | TAny | TMap
  | TRaw | TRawMap
  | TMapOf (t : gty)
  | TPtr (t : gty)
  | TSlice (t : gty)
  | TStruct (fields : list (string * gty)).

Inductive gval :=
  | GStr (s : string)
  | GInt (z : Z)
  | GFloat (f : f64)
  | GAny (v : any)
  | GRaw (b : bytes)
  | GRawMap (m : gmap string bytes)
  | GMap (m : gmap string gval)
  | GNil
  | GPtr (v : gval)
  | GSlice (l : list gval)
  | GStruct (l : list gval).

Fixpoint gzero (t : gty) : gval :=
  match t with
  | TString => GStr ""
  | TInt => GInt 0
  | TFloat => GFloat f64_zero
  | TAny | TMap => GAny VNull
  | TPtr _ | TSlice _ | TRaw | TRawMap | TMapOf _ => GNil
  | TStruct fields => GStruct (map (λ f, gzero f.2) fields)
  end.

(** An [any] with the numbers out of range left nil, and whether there were
    any. *)
Fixpoint any_lossy (c : cst) : any :=
  match c with
  | CArray e es => VArr (any_lossy e.1.2 :: map (λ e, any_lossy e.1.2) es)
  | CObject m ms =>
      VObj (foldl (λ acc kv, <[kv.1 := kv.2]> acc) ∅
        ((str (jsonStringValue (string_token (mb_name m))), any_lossy m.1.2)
         :: map (λ m, (str (jsonStringValue (string_token (mb_name m))), any_lossy m.1.2)) ms))
  | _ => default VNull (any_of c)
  end.

Definition is_null (c : cst) : bool := match c with CScalar t => bool_decide (t = bs "null") | _ => false end.

(** The position of the field a name fills. *)
Definition field_index (fields : list (string * gty)) (name : bytes) : option nat :=
  fst <$> list_find (λ f, jsonNameMatches name (bs f.1) = true) fields.

(** A [map[string]json.RawMessage]: the last member of a name wins. *)
Definition raw_members (ms : list member) (old : gmap string bytes) : gmap string bytes :=
  foldl (λ acc m, <[str (mb_key m) := text (mb_value m)]> acc) old ms.

Definition array_elements (c : cst) : option (list cst) :=
  match c with
  | CEmpty true _ => Some []
  | CArray e es => Some (map el_value (e :: es))
  | _ => None
  end.

Section decode_loops.
Context (dec : gty → gval → cst → gval * bool).

(** The elements into the old elements, then into zero values. *)
Fixpoint decode_elements (t : gty) (old : list gval) (cs : list cst) : list gval * bool :=
  match cs with
  | [] => ([], false)
  | c :: cs =>
      let '(v, e1) := dec t (default (gzero t) (head old)) c in
      let '(vs, e2) := decode_elements t (tail old) cs in
      (v :: vs, e1 || e2)
  end.

(** The members into the fields. *)
Fixpoint decode_members (fields : list (string * gty)) (vs : list gval) (ms : list (bytes * cst)) : list gval * bool :=
  match ms with
  | [] => (vs, false)
  | (name, c) :: ms =>
      match field_index fields name with
      | None => decode_members fields vs ms
      | Some i =>
          match fields !! i, vs !! i with
          | Some (_, t), Some old =>
              let '(v, e1) := dec t old c in
              let '(vs, e2) := decode_members fields (<[i := v]> vs) ms in
              (vs, e1 || e2)
          | _, _ => decode_members fields vs ms
          end
      end
  end.

(** The members into a map, each into a zero value. *)
Fixpoint decode_map (t : gty) (m : gmap string gval) (ms : list (bytes * cst)) : gmap string gval * bool :=
  match ms with
  | [] => (m, false)
  | (name, c) :: ms =>
      let '(v, e1) := dec t (gzero t) c in
      let '(m, e2) := decode_map t (<[str name := v]> m) ms in
      (m, e1 || e2)
  end.
End decode_loops.

(** The fuel bounds the depth of the type. *)
Fixpoint decode (fuel : nat) (t : gty) (old : gval) (c : cst) : gval * bool :=
  match fuel with
  | O => (old, false)
  | S fuel =>
      match t with
      | TPtr t =>
          if is_null c then (GNil, false)
          else let '(v, e) := decode fuel t (match old with GPtr v => v | _ => gzero t end) c in (GPtr v, e)
      | TSlice t =>
          if is_null c then (GNil, false)
          else match array_elements c with
               | None => (old, true)
               | Some cs => let '(vs, e) := decode_elements (decode fuel) t (match old with GSlice l => l | _ => [] end) cs in (GSlice vs, e)
               end
      | TStruct fields =>
          if is_null c then (old, false)
          else match object_members c, old with
               | Some ms, GStruct vs =>
                   let '(vs, e) := decode_members (decode fuel) fields vs (map (λ m, (mb_key m, mb_value m)) ms) in (GStruct vs, e)
               | _, _ => (old, true)
               end
      | TMap =>
          if is_null c then (GAny VNull, false)
          else match object_members c with
               | None => (old, true)
               | Some _ =>
                   let m := match old with GAny (VObj m) => m | _ => ∅ end in
                   (GAny (VObj (as_obj (any_lossy c) ∪ m)), bool_decide (any_of c = None))
               end
      | TRaw => (GRaw (text c), false)
      | TRawMap =>
          if is_null c then (GNil, false)
          else match object_members c with
               | None => (old, true)
               | Some ms => (GRawMap (raw_members ms (match old with GRawMap m => m | _ => ∅ end)), false)
               end
      | TMapOf t =>
          if is_null c then (GNil, false)
          else match object_members c with
               | None => (old, true)
               | Some ms =>
                   let '(m, e) := decode_map (decode fuel) t (match old with GMap m => m | _ => ∅ end) (map (λ m, (mb_key m, mb_value m)) ms) in (GMap m, e)
               end
      | TAny =>
          match any_of c with
          | Some v => (GAny v, false)
          | None => (match c with CScalar _ => old | _ => GAny (any_lossy c) end, true)
          end
      | TString =>
          if is_null c then (old, false)
          else match c with CString b => (GStr (str (jsonStringValue (string_token b))), false) | _ => (old, true) end
      | TInt =>
          if is_null c then (old, false)
          else match c with
               | CScalar t => match parse_int64 t with Some z => (GInt z, false) | None => (old, true) end
               | _ => (old, true)
               end
      | TFloat =>
          if is_null c then (old, false)
          else match c with
               | CScalar t => match ParseFloat (str t) with Some f => (GFloat f, false) | None => (old, true) end
               | _ => (old, true)
               end
      end
  end.

Fixpoint gdepth (t : gty) : nat :=
  match t with
  | TPtr t | TSlice t | TMapOf t => S (gdepth t)
  | TStruct fields => S (foldr (λ f n, Nat.max (gdepth f.2) n) 0 fields)
  | _ => 1
  end.

(** The value, and whether there was a type error; [None] is a syntax error. *)
Definition UnmarshalType (t : gty) (b : bytes) : option (gval * bool) :=
  match parse b with
  | Some (_, c, _) => Some (decode (gdepth t) t (gzero t) c)
  | None => None
  end.

(** json.Unmarshal with the error. *)
Definition UnmarshalInto (t : gty) (b : bytes) : option gval :=
  match UnmarshalType t b with Some (v, false) => Some v | _ => None end.

(** Field access. *)
Definition gfield (v : gval) (i : nat) : gval := match v with GStruct l => default GNil (l !! i) | _ => GNil end.
Definition gmap_of (v : gval) : gmap string gval := match v with GMap m => m | _ => ∅ end.
Definition gstr (v : gval) : string := match v with GStr s => s | _ => "" end.
Definition gint (v : gval) : Z := match v with GInt z => z | _ => 0%Z end.
Definition gfloat (v : gval) : f64 := match v with GFloat f => f | _ => f64_zero end.
Definition gany (v : gval) : any := match v with GAny a => a | _ => VNull end.
Definition graw (v : gval) : bytes := match v with GRaw b => b | _ => [] end.
Definition glist (v : gval) : list gval := match v with GSlice l => l | _ => [] end.
Definition gptr (v : gval) : option gval := match v with GPtr v => Some v | _ => None end.
