(* ===== verification/RateLimit.v ===== *)
(** The rate limiter: internal/gateway/ratelimit.go.

    [RateLimiter] maps a bucket key to a token bucket.  Every operation reads
    the replica count before it takes the lock and refills the bucket it
    touches to the current time; both are arguments here.  The theorems bound
    bucket levels, show that a refused call consumes nothing and that the
    four families of buckets never share a key. *)

From stdpp Require Import base gmap list strings option fin_maps.
From Stdlib Require Import ZArith Lia Ascii.
From S2P Require Import Prelude GoFloat GoTime Api.

Record tokenBucket := mk_bucket {
  tokens : f64;
  lastRefill : Time;
}.

Abbreviation RateLimiter := (gmap string tokenBucket).

Definition NewRateLimiter : RateLimiter := ∅.

Definition heartbeatPerMinute : Z := 120.
Definition heartbeatBurst : Z := 5.

Definition live_replicas (n : Z) : Z := if (1 <? n)%Z then n else 1%Z.

Definition perReplica (limit replicas : Z) : f64 := (f64_of_Z limit / f64_of_Z replicas)%f64.

Definition requestBurst (share : f64) : f64 := f64_max share (f64_of_Z 1).

Definition tokenKey (namespace model : string) : string :=
  "tpm:" +:+ (namespace +:+ ("/" +:+ model)).

Definition requestKey (namespace model : string) : string := namespace +:+ ("/" +:+ model).

Definition retryAfterSeconds (deficit perMinute : f64) : Z :=
  let wait := int64_of_f64 (f64_round (deficit / perMinute * f64_of_Z Minute)%f64) in
  let secs := Z.quot (wrap64 (wrap64 (wait + Second) - 1)) Second in
  if (secs <? 1)%Z then 1%Z else secs.

(** [refilled]'s new level: the debt clamp, the refill, the cap. *)
Definition refill (b : tokenBucket) (now : Time) (perMinute burst : f64) : tokenBucket :=
  let b := if (tokens b <? f64_opp burst)%f64 then mk_bucket (f64_opp burst) (lastRefill b) else b in
  let elapsed := Minutes (Sub now (lastRefill b)) in
  let b := if (f64_zero <? elapsed)%f64
           then mk_bucket (tokens b + elapsed * perMinute)%f64 now else b in
  if (burst <? tokens b)%f64 then mk_bucket burst (lastRefill b) else b.

(** The pointer [refilled] returns is the stored bucket: the limiter already
    holds the refilled level. *)
Definition refilled (r : RateLimiter) (now : Time) (key : string) (perMinute burst : f64)
  : RateLimiter * tokenBucket :=
  let b := default (mk_bucket burst now) (r !! key) in
  let b := refill b now perMinute burst in
  (<[key := b]> r, b).

Definition set_tokens (r : RateLimiter) (key : string) (b : tokenBucket) (t : f64) : RateLimiter :=
  <[key := mk_bucket t (lastRefill b)]> r.

Definition take (r : RateLimiter) (now : Time) (key : string) (perMinute burst : f64)
  : RateLimiter * (bool * Z) :=
  let '(r, b) := refilled r now key perMinute burst in
  if (f64_of_Z 1 <=? tokens b)%f64
  then (set_tokens r key b (tokens b - f64_of_Z 1)%f64, (true, 0%Z))
  else (r, (false, retryAfterSeconds (f64_of_Z 1 - tokens b)%f64 perMinute)).

Definition Allow (r : RateLimiter) (now : Time) (nreplicas : Z) (p : ModelProvider) (namespace model : string)
  : RateLimiter * (bool * Z) :=
  let limits := RateLimits (Spec p) in
  if ((TokensPerMinute limits <=? 0) && (RequestsPerMinute limits <=? 0))%Z then (r, (true, 0%Z))
  else
    let replicas := live_replicas nreplicas in
    let tokenShare := perReplica (TokensPerMinute limits) replicas in
    let requestShare := perReplica (RequestsPerMinute limits) replicas in
    let '(r, refused) :=
      if (0 <? TokensPerMinute limits)%Z then
        let '(r, b) := refilled r now (tokenKey namespace model) tokenShare tokenShare in
        (r, if (tokens b <=? f64_zero)%f64
            then Some (retryAfterSeconds (f64_opp (tokens b)) tokenShare) else None)
      else (r, None) in
    match refused with
    | Some wait => (r, (false, wait))
    | None =>
        if (0 <? RequestsPerMinute limits)%Z then
          let '(r, b) := refilled r now (requestKey namespace model) requestShare (requestBurst requestShare) in
          if (tokens b <? f64_of_Z 1)%f64
          then (r, (false, retryAfterSeconds (f64_of_Z 1 - tokens b)%f64 requestShare))
          else (set_tokens r (requestKey namespace model) b (tokens b - f64_of_Z 1)%f64, (true, 0%Z))
        else (r, (true, 0%Z))
    end.

Definition DebitTokens (r : RateLimiter) (now : Time) (nreplicas : Z) (p : ModelProvider)
    (namespace model : string) (n : Z) : RateLimiter :=
  let limit := TokensPerMinute (RateLimits (Spec p)) in
  if ((limit <=? 0) || (n <=? 0))%Z then r
  else
    let share := perReplica limit (live_replicas nreplicas) in
    let '(r, b) := refilled r now (tokenKey namespace model) share share in
    let t := (tokens b - f64_of_Z n)%f64 in
    set_tokens r (tokenKey namespace model) b
      (if (t <? f64_opp share)%f64 then f64_opp share else t).

Definition allow (r : RateLimiter) (now : Time) (nreplicas limit : Z) (key : string)
  : RateLimiter * (bool * Z) :=
  if (limit <=? 0)%Z then (r, (true, 0%Z))
  else
    let share := perReplica limit (live_replicas nreplicas) in
    take r now key share (requestBurst share).

Definition toolKey (namespace tool : string) : string := "mcp:" +:+ (namespace +:+ ("/" +:+ tool)).
Definition heartbeatKey (namespace agent : string) : string := "hb:" +:+ (namespace +:+ ("/" +:+ agent)).

Definition AllowTool (r : RateLimiter) (now : Time) (nreplicas requestsPerMinute : Z)
    (tpName namespace : string) : RateLimiter * (bool * Z) :=
  allow r now nreplicas requestsPerMinute (toolKey namespace tpName).

Definition AllowHeartbeat (r : RateLimiter) (now : Time) (namespace agent : string) : RateLimiter * bool :=
  let '(r, (ok, _)) :=
    take r now (heartbeatKey namespace agent) (f64_of_Z heartbeatPerMinute) (f64_of_Z heartbeatBurst) in
  (r, ok).

(** ** Bucket families

    The four kinds of bucket and the key each operation builds for it. *)
Inductive bucketId :=
  | TokenBucket (namespace model : string)
  | RequestBucket (namespace model : string)
  | ToolBucket (namespace tool : string)
  | HeartbeatBucket (namespace agent : string).

#[global] Instance bucketId_eq_dec : EqDecision bucketId.
Proof. solve_decision. Defined.

Definition bucket_key (b : bucketId) : string :=
  match b with
  | TokenBucket ns m => tokenKey ns m
  | RequestBucket ns m => requestKey ns m
  | ToolBucket ns t => toolKey ns t
  | HeartbeatBucket ns a => heartbeatKey ns a
  end.

Definition bucket_namespace (b : bucketId) : string :=
  match b with
  | TokenBucket ns _ | RequestBucket ns _ | ToolBucket ns _ | HeartbeatBucket ns _ => ns
  end.

(** What a Kubernetes namespace name guarantees: it holds neither separator. *)
Definition separator_free (ns : string) : bool :=
  negb (contains_char ":" ns) && negb (contains_char "/" ns).

(** The limiter's calls. *)
Inductive rate_op :=
  | RAllow (nreplicas : Z) (p : ModelProvider) (namespace model : string)
  | RDebit (nreplicas : Z) (p : ModelProvider) (namespace model : string) (n : Z)
  | RTool (nreplicas requestsPerMinute : Z) (tool namespace : string)
  | RHeartbeat (namespace agent : string).

Definition run_rate_op (now : Time) (r : RateLimiter) (o : rate_op) : RateLimiter :=
  match o with
  | RAllow n p ns m => (Allow r now n p ns m).1
  | RDebit n p ns m k => DebitTokens r now n p ns m k
  | RTool n rpm t ns => (AllowTool r now n rpm t ns).1
  | RHeartbeat ns a => (AllowHeartbeat r now ns a).1
  end.

Definition op_buckets (o : rate_op) : list bucketId :=
  match o with
  | RAllow _ _ ns m => [TokenBucket ns m; RequestBucket ns m]
  | RDebit _ _ ns m _ => [TokenBucket ns m]
  | RTool _ _ t ns => [ToolBucket ns t]
  | RHeartbeat ns a => [HeartbeatBucket ns a]
  end.

(** The level an operation sees: the stored bucket, or a full one, refilled. *)
Definition level (r : RateLimiter) (now : Time) (key : string) (perMinute burst : f64) : f64 :=
  tokens (refill (default (mk_bucket burst now) (r !! key)) now perMinute burst).

(** ** Lemmas *)

Lemma cons_app a s t : (String a s +:+ t) = String a (s +:+ t).
Proof. done. Qed.

(** A separator outside both prefixes determines where they end. *)
Lemma split_at_sep c s1 s2 t1 t2 :
  contains_char c s1 = false → contains_char c s2 = false →
  (s1 +:+ String c t1) = (s2 +:+ String c t2) → s1 = s2 ∧ t1 = t2.
Proof.
  revert s2; induction s1 as [|a s1 IH]; intros [|b s2]; rewrite ?cons_app; cbn [contains_char].
  - by intros _ _ [= ->].
  - intros _ [Hb _]%orb_false_iff [= <- _]. by rewrite Ascii.eqb_refl in Hb.
  - intros [Ha _]%orb_false_iff _ [= -> _]. by rewrite Ascii.eqb_refl in Ha.
  - intros [_ H1]%orb_false_iff [_ H2]%orb_false_iff [= -> E].
    by destruct (IH s2 H1 H2 E) as [-> ->].
Qed.

Lemma app_nil_l s : ("" +:+ s) = s.
Proof. done. Qed.

(** A key with a ':' in its prefix is no request key. *)
Lemma prefixed_not_request p ns m ns' m' :
  contains_char ":" ns' = false → contains_char "/" p = false →
  (p +:+ (":" +:+ (ns +:+ ("/" +:+ m)))) = requestKey ns' m' → contains_char "/" ns' = false → False.
Proof.
  unfold requestKey. intros Hc Hp. revert ns' Hc.
  induction p as [|a p IH]; intros [|b ns']; rewrite ?cons_app, ?app_nil_l; cbn [contains_char] in *; try done.
  - by intros [Hb _]%orb_false_iff [= <- _].
  - apply orb_false_iff in Hp as [Ha _]. by intros _ [= -> _].
  - apply orb_false_iff in Hp as [_ Hp]. intros [_ Hc]%orb_false_iff [= _ E] [_ Hs]%orb_false_iff. eauto.
Qed.

Lemma request_key_inj ns m ns' m' :
  contains_char "/" ns = false → contains_char "/" ns' = false →
  requestKey ns m = requestKey ns' m' → ns = ns' ∧ m = m'.
Proof. unfold requestKey. apply split_at_sep. Qed.

Lemma bucket_key_inj b b' :
  separator_free (bucket_namespace b) = true → separator_free (bucket_namespace b') = true →
  bucket_key b = bucket_key b' → b = b'.
Proof.
  unfold separator_free. intros H H'. bool_to_prop.
  destruct b as [ns m|ns m|ns m|ns m], b' as [ns' m'|ns' m'|ns' m'|ns' m']; simpl in *;
    unfold tokenKey, toolKey, heartbeatKey; rewrite ?cons_app, ?app_nil_l; intros E; try discriminate E.
  all: try (injection E as E; apply request_key_inj in E as [-> ->]; done).
  all: try (apply request_key_inj in E as [-> ->]; done).
  all: exfalso;
    first [ eapply (prefixed_not_request "tpm"); [..|exact E|]; done
          | eapply (prefixed_not_request "mcp"); [..|exact E|]; done
          | eapply (prefixed_not_request "hb"); [..|exact E|]; done
          | symmetry in E;
            first [ eapply (prefixed_not_request "tpm"); [..|exact E|]; done
                  | eapply (prefixed_not_request "mcp"); [..|exact E|]; done
                  | eapply (prefixed_not_request "hb"); [..|exact E|]; done ] ].
Qed.

Lemma token_key_not_request ns m : tokenKey ns m ≠ requestKey ns m.
Proof.
  intros E%(f_equal String.length). unfold tokenKey, requestKey in E.
  rewrite !cons_app, !app_nil_l in E. simpl in E. lia.
Qed.

Lemma refilled_lookup r now k pm burst :
  (refilled r now k pm burst).1 !! k = Some (refill (default (mk_bucket burst now) (r !! k)) now pm burst).
Proof. apply lookup_insert_eq. Qed.

Lemma refilled_other r now k pm burst k' :
  k ≠ k' → (refilled r now k pm burst).1 !! k' = r !! k'.
Proof. intros. by apply lookup_insert_ne. Qed.

Lemma set_tokens_other r k b t k' : k ≠ k' → set_tokens r k b t !! k' = r !! k'.
Proof. intros. by apply lookup_insert_ne. Qed.

Lemma refill_capped b now pm burst : (burst <? tokens (refill b now pm burst))%f64 = false.
Proof.
  unfold refill. cbv zeta.
  match goal with |- context [if (burst <? tokens ?b')%f64 then _ else _] =>
    destruct (burst <? tokens b')%f64 eqn:E; [auto with kaalm|exact E] end.
Qed.

Lemma retryAfterSeconds_pos d pm : (1 <= retryAfterSeconds d pm)%Z.
Proof. unfold retryAfterSeconds. destruct (_ <? 1)%Z eqn:E; bool_to_prop; lia. Qed.

Lemma take_other r now k pm burst k' : k ≠ k' → (take r now k pm burst).1 !! k' = r !! k'.
Proof.
  intros. unfold take, refilled. case_match; simpl; unfold set_tokens; by rewrite ?lookup_insert_ne.
Qed.

Lemma Allow_other r now n p ns m k :
  tokenKey ns m ≠ k → requestKey ns m ≠ k → (Allow r now n p ns m).1 !! k = r !! k.
Proof.
  intros Ht Hr. unfold Allow, refilled.
  repeat (case_match; simplify_eq/=); unfold set_tokens; by rewrite ?lookup_insert_ne.
Qed.

Lemma run_rate_op_frame now r o k :
  Forall (λ b, bucket_key b ≠ k) (op_buckets o) → run_rate_op now r o !! k = r !! k.
Proof.
  rewrite Forall_forall. intros Hk. destruct o as [n p ns m|n p ns m q|n rpm t ns|ns a]; simpl in *.
  - apply Allow_other; [apply (Hk (TokenBucket ns m))|apply (Hk (RequestBucket ns m))]; set_solver.
  - specialize (Hk (TokenBucket ns m) ltac:(set_solver)). simpl in Hk.
    unfold DebitTokens, refilled, set_tokens. case_match; [done|]. by rewrite !lookup_insert_ne.
  - specialize (Hk (ToolBucket ns t) ltac:(set_solver)). simpl in Hk.
    unfold AllowTool, allow. case_match; [done|]. by apply take_other.
  - specialize (Hk (HeartbeatBucket ns a) ltac:(set_solver)). simpl in Hk.
    unfold AllowHeartbeat. pose proof (take_other r now _ (f64_of_Z heartbeatPerMinute) (f64_of_Z heartbeatBurst) k Hk).
    destruct (take _ _ _ _ _) as [r' [ok w]]. done.
Qed.

(** ** Properties *)

(** Isolation.  A call changes only the buckets it names: for every other
    bucket, whatever its kind, its namespace and its model, tool or agent
    name, the limiter stores what it stored before.  Namespace names contain
    no ':' and no '/', which is what keeps the four key families apart; the
    other name may be any string. *)
Theorem rate_buckets_isolated now r o b
    (Hops : Forall (λ b', separator_free (bucket_namespace b') = true) (op_buckets o))
    (Hb : separator_free (bucket_namespace b) = true)
    (Hne : b ∉ op_buckets o) :
  run_rate_op now r o !! bucket_key b = r !! bucket_key b.
Proof.
  apply run_rate_op_frame. rewrite Forall_forall in *. intros b' Hb' E.
  apply bucket_key_inj in E; [by subst|by apply Hops|done].
Qed.

Lemma rate_buckets_isolated_witness :
  run_rate_op 5%Z NewRateLimiter (RHeartbeat "team-a" "x/y") !! bucket_key (ToolBucket "team-a" "x/y") = None.
Proof.
  apply (rate_buckets_isolated 5%Z NewRateLimiter (RHeartbeat "team-a" "x/y") (ToolBucket "team-a" "x/y")).
  - constructor; [vm_compute; reflexivity|constructor].
  - vm_compute; reflexivity.
  - intros H. apply list_elem_of_singleton in H. discriminate H.
Defined.

(** The admission rule.  A request passes exactly when its refilled token
    bucket is above zero (where a token ceiling is set) and its refilled
    request bucket does not hold less than one (where a request ceiling is
    set); then one request token is consumed and the token bucket only
    refilled. *)
Theorem Allow_admits_iff r now n p ns m :
  let limits := RateLimits (Spec p) in
  let tshare := perReplica (TokensPerMinute limits) (live_replicas n) in
  let rshare := perReplica (RequestsPerMinute limits) (live_replicas n) in
  let tlevel := level r now (tokenKey ns m) tshare tshare in
  let rlevel := level r now (requestKey ns m) rshare (requestBurst rshare) in
  let '(r', (ok, wait)) := Allow r now n p ns m in
  (ok = true ↔
    ((0 < TokensPerMinute limits)%Z → (tlevel <=? f64_zero)%f64 = false) ∧
    ((0 < RequestsPerMinute limits)%Z → (rlevel <? f64_of_Z 1)%f64 = false)) ∧
  (ok = true → wait = 0%Z ∧
    ((0 < TokensPerMinute limits)%Z → tokens <$> r' !! tokenKey ns m = Some tlevel) ∧
    ((0 < RequestsPerMinute limits)%Z →
      tokens <$> r' !! requestKey ns m = Some (rlevel - f64_of_Z 1)%f64)).
Proof.
  pose proof (token_key_not_request ns m) as Hne. cbv zeta.
  destruct (Z.ltb_spec 0 (TokensPerMinute (RateLimits (Spec p)))) as [Ht|Ht];
  destruct (Z.ltb_spec 0 (RequestsPerMinute (RateLimits (Spec p)))) as [Hr|Hr];
  unfold Allow; rewrite ?(proj2 (Z.leb_le _ _) Ht), ?(proj2 (Z.leb_le _ _) Hr),
    ?(proj2 (Z.leb_gt _ _) Ht), ?(proj2 (Z.leb_gt _ _) Hr),
    ?(proj2 (Z.ltb_lt _ _) Ht), ?(proj2 (Z.ltb_lt _ _) Hr),
    ?(proj2 (Z.ltb_ge _ _) Ht), ?(proj2 (Z.ltb_ge _ _) Hr); cbn [andb];
  unfold level, refilled, set_tokens; rewrite ?lookup_insert_ne by done.
  all: repeat case_match; simplify_eq/=.
  all: rewrite ?lookup_insert_eq, ?(lookup_insert_ne _ (requestKey ns m)), ?lookup_insert_eq by done.
  all: split; [naive_solver lia|intros; split_and!; done || (intros; done || lia)].
Qed.

(** A refusal costs nothing.  A refused request leaves the limiter with
    nothing but the refills of the buckets it looked at, so no request token
    and no LLM token is spent, and the advertised wait is at least a second;
    a refused tool call or heartbeat likewise. *)
Lemma rate_refusal_consumes_nothing r now n p ns m key pm burst :
  let limits := RateLimits (Spec p) in
  let tshare := perReplica (TokensPerMinute limits) (live_replicas n) in
  let rshare := perReplica (RequestsPerMinute limits) (live_replicas n) in
  let look_tokens r := (refilled r now (tokenKey ns m) tshare tshare).1 in
  let look_requests r := (refilled r now (requestKey ns m) rshare (requestBurst rshare)).1 in
  (let '(r', (ok, wait)) := Allow r now n p ns m in
   ok = false → (1 <= wait)%Z ∧
     r' ∈ [look_tokens r; look_requests r; look_requests (look_tokens r)]) ∧
  (let '(r', (ok, wait)) := take r now key pm burst in
   ok = false → (1 <= wait)%Z ∧ r' = (refilled r now key pm burst).1).
Proof.
  cbv zeta. split.
  - unfold Allow, refilled. repeat (case_match; simplify_eq/=); intros; try discriminate.
    all: split; [apply retryAfterSeconds_pos|set_solver].
  - unfold take, refilled. repeat (case_match; simplify_eq/=); intros; try discriminate.
    all: split; [apply retryAfterSeconds_pos|done].
Qed.

(** The token debt.  A settled call's tokens are subtracted from the
    refilled level of the bucket that admitted it, clamped at minus one
    share, so the stored level is never below that; a provider without a
    token ceiling, or a call without tokens, leaves the limiter alone. *)
Lemma DebitTokens_clamped r now n p ns m k :
  let limit := TokensPerMinute (RateLimits (Spec p)) in
  let share := perReplica limit (live_replicas n) in
  let r' := DebitTokens r now n p ns m k in
  if ((limit <=? 0) || (k <=? 0))%Z then r' = r
  else ∃ b', r' !! tokenKey ns m = Some b' ∧
       (tokens b' <? f64_opp share)%f64 = false ∧
       let t := (level r now (tokenKey ns m) share share - f64_of_Z k)%f64 in
       tokens b' = if (t <? f64_opp share)%f64 then f64_opp share else t.
Proof.
  cbv zeta. unfold DebitTokens. case_match; [done|].
  unfold refilled, set_tokens, level. rewrite lookup_insert_eq.
  eexists; split; [done|]. cbn [tokens]. split; [|done].
  case_match; auto with kaalm.
Qed.

