(* ===== verification/Auth.v ===== *)
(** Client authentication on the gateway's agent listener:
    internal/gateway/identity.go (workload SANs), tokenauth.go (bearer tokens
    and their cache), auth.go (the per-path regimes) and the error envelope of
    errors.go.

    A request is its client certificate's DNS names, its Authorization header
    and its source IP.  A handler wrapper is a function from the request and
    the Pod cache to an [auth_outcome]: the response it writes, or the caller
    it passes on.  A wrapper that reads the cache twice takes the two
    snapshots.  SHA-256, the JWT claim decoding and the API group parser are
    parameters. *)

From stdpp Require Import base gmap list strings option fin_maps.
From Stdlib Require Import ZArith Lia Ascii.
From S2P Require Import Prelude GoFloat GoTime.

(** ** Errors (errors.go) *)

Record errorBody := mk_error {
  err_Type : string;
  err_Message : string;
  err_Provider : string;
  Retryable : bool;
}.

Definition errInvalidRequest : string := "invalid_request".
Definition errUnauthorized : string := "unauthorized".
Definition errAccessDenied : string := "access_denied".
Definition errInvalidCert : string := "invalid_cert".
Definition errInternalUnavailable : string := "internal_unavailable".
Definition errProviderError : string := "provider_error".
Definition errProviderUnavailable : string := "provider_unavailable".
Definition errProviderTimeout : string := "provider_timeout".
Definition errRateLimited : string := "rate_limited".
Definition errBudgetExhausted : string := "budget_exhausted".
Definition errBudgetThrottled : string := "budget_throttled".
Definition errBudgetUnavailable : string := "budget_state_unavailable".

(** What [writeError] puts on the wire: the status, the envelope and the
    Retry-After header, absent unless positive. *)
Record error_response := mk_response {
  resp_status : Z;
  resp_error : errorBody;
  resp_retry_after : option Z;
}.

Definition writeError (status : Z) (body : errorBody) (retryAfter : Z) : error_response :=
  mk_response status body (if (0 <? retryAfter)%Z then Some retryAfter else None).

Definition unauthorized (msg : string) : error_response :=
  writeError 401 (mk_error errUnauthorized msg "" false) 0.
Definition forbidden (errType msg : string) : error_response :=
  writeError 403 (mk_error errType msg "" false) 0.
Definition badRequest (msg : string) : error_response :=
  writeError 400 (mk_error errInvalidRequest msg "" false) 0.

(** ** Workload identity (identity.go) *)

Inductive WorkloadKind := KindAgent | KindAgentTask.

#[global] Instance WorkloadKind_eq_dec : EqDecision WorkloadKind.
Proof. solve_decision. Defined.

Definition kind_string (k : WorkloadKind) : string :=
  match k with KindAgent => "Agent" | KindAgentTask => "AgentTask" end.

Record Identity := mk_identity {
  id_Namespace : string;
  id_Name : string;
  id_Kind : WorkloadKind;
}.

#[global] Instance Identity_eq_dec : EqDecision Identity.
Proof. solve_decision. Defined.

Definition AgentSANSuffix : string := "svc.cluster.local".
Definition TaskSANSuffix : string := "task.kaalm.io".
Definition AgentSANLabels : nat := 5.
Definition TaskSANLabels : nat := 5.

Inductive san_error := errNoRecognizedSAN | errMultipleRecognizedSANs | errBadLabelCount.

Definition san_error_string (e : san_error) : string :=
  match e with
  | errNoRecognizedSAN => "no recognized workload SAN"
  | errMultipleRecognizedSANs => "multiple recognized workload SANs"
  | errBadLabelCount => "recognized SAN has the wrong label count"
  end.

(** A certificate is its DNS names. *)
Definition Certificate : Type := list string.

(** One turn of the loop over the DNS names. *)
Definition scan_san (acc : list Identity * bool) (san : string) : list Identity * bool :=
  let '(matched, badCount) := acc in
  let labels := split_char "." san in
  let label i := default "" (labels !! i) in
  if HasSuffix san ("." +:+ AgentSANSuffix) then
    if negb (length labels =? AgentSANLabels)%nat then (matched, true)
    else (matched ++ [mk_identity (label 1%nat) (label 0%nat) KindAgent], badCount)
  else if HasSuffix san ("." +:+ TaskSANSuffix) then
    if negb (length labels =? TaskSANLabels)%nat then (matched, true)
    else (matched ++ [mk_identity (label 1%nat) (label 0%nat) KindAgentTask], badCount)
  else (matched, badCount).

Definition ParseWorkloadSAN (cert : Certificate) : Identity + san_error :=
  let '(matched, badCount) := foldl scan_san ([], false) cert in
  match matched with
  | [id] => inl id
  | _ :: _ :: _ => inr errMultipleRecognizedSANs
  | [] => inr (if badCount then errBadLabelCount else errNoRecognizedSAN)
  end.

Definition isServiceCert (cert : Certificate) (service operatorNamespace : string) : bool :=
  let long := service +:+ ("." +:+ (operatorNamespace +:+ ".svc.cluster.local")) in
  let short := service +:+ ("." +:+ (operatorNamespace +:+ ".svc")) in
  existsb (λ san, (san =? long)%string || (san =? short)%string) cert.

Definition IsControllerCert (cert : Certificate) (operatorNamespace : string) : bool :=
  isServiceCert cert "kaalm-controller" operatorNamespace.
Definition IsConsoleCert (cert : Certificate) (operatorNamespace : string) : bool :=
  isServiceCert cert "kaalm-console" operatorNamespace.

(** The DNS names of the certificates the controller requests for an Agent
    (internal/controller/agent_desired.go) and an AgentTask
    (agenttask_desired.go). *)
Definition desiredCertificate (name ns : string) : Certificate :=
  [name +:+ ("." +:+ (ns +:+ ".svc.cluster.local"));
   name +:+ ("." +:+ (ns +:+ ".svc"));
   name +:+ ("." +:+ ns)].

Definition desiredTaskCertificate (name ns : string) : Certificate :=
  [name +:+ ("." +:+ (ns +:+ ("." +:+ TaskSANSuffix)))].

(** ** Bearer tokens (tokenauth.go) *)

Definition tokenCacheMaxTTL : Duration := (5 * Minute)%Z.
Definition tokenCacheSafetyMargin : Duration := (60 * Second)%Z.

Record tokenCacheEntry := mk_cache_entry {
  tc_namespace : string;
  tc_expires : Time;
}.

Definition bearerToken (header : string) : option string :=
  match CutPrefix header "Bearer " with
  | Some t => if (t =? "")%string then None else Some t
  | None => None
  end.

Definition namespaceFromUsername (username : string) : option string :=
  match split_char ":" username with
  | [a; b; ns; _] =>
      if negb (a =? "system")%string || negb (b =? "serviceaccount")%string || (ns =? "")%string
      then None else Some ns
  | _ => None
  end.

(** [time.Unix(sec, 0)]. *)
Definition Unix (sec : Z) : Time := (wrap64 (sec + 62135596800) * Second)%Z.

(** What a [TokenReviewer] answers: an error, or the username and whether the
    token is authenticated. *)
Inductive review := ReviewError | Reviewed (username : string) (authenticated : bool).

(** The reviewer's calls that [Authenticate] leaves to the outside. *)
Inductive auth_result := AuthError | AuthRejected | AuthOK (namespace : string).

Abbreviation tokenCache := (gmap string tokenCacheEntry).

Section tokens.
(** SHA-256 of a token, and the [exp] member of a JWT payload segment: [None]
    when the base64 or JSON decoding fails, 0 when the member is absent. *)
Context (Sum256 : string → string) (exp_claim : string → option Z).

Definition jwtExpiry (token : string) : option Time :=
  match split_char "." token with
  | [_; payload; _] =>
      match exp_claim payload with
      | None => None
      | Some e => if (e =? 0)%Z then None else Some (Unix e)
      end
  | _ => None
  end.

Definition cacheTTL (token : string) (now : Time) : Duration :=
  match jwtExpiry token with
  | None => tokenCacheMaxTTL
  | Some exp =>
      let ttl := wrap64 (Sub exp now - tokenCacheSafetyMargin) in
      if (tokenCacheMaxTTL <? ttl)%Z then tokenCacheMaxTTL
      else if (ttl <? 0)%Z then 0%Z else ttl
  end.

(** [Authenticate]: the clock at the lookup and at the store, and the review's
    answer, used only on a miss.  The flag says whether a review ran. *)
Definition Authenticate (cache : tokenCache) (now now' : Time) (token : string) (rv : review)
  : tokenCache * (auth_result * bool) :=
  let key := Sum256 token in
  let hit := match cache !! key with
             | Some entry => if Before now (tc_expires entry) then Some (tc_namespace entry) else None
             | None => None
             end in
  match hit with
  | Some ns => (cache, (AuthOK ns, false))
  | None =>
      match rv with
      | ReviewError => (cache, (AuthError, true))
      | Reviewed username authenticated =>
          if negb authenticated then (cache, (AuthRejected, true))
          else
            match namespaceFromUsername username with
            | None => (cache, (AuthRejected, true))
            | Some ns =>
                (<[key := mk_cache_entry ns (now' + cacheTTL token now')%Z]> cache, (AuthOK ns, true))
            end
      end
  end.
End tokens.

(** ** The per-path regimes (auth.go) *)

Record caller := mk_caller {
  c_Namespace : string;
  c_Workload : option Identity;
}.

Record ownerRef := mk_owner { own_APIVersion : string; own_Kind : string }.

Record Pod := mk_pod {
  pod_Namespace : string;
  OwnerReferences : list ownerRef;
  pod_Labels : gmap string string;
}.

Record request := mk_request {
  peerCert : option Certificate;
  Authorization : string;
  sourceIP : string;
}.

Record Authenticator := mk_authenticator {
  OperatorNamespace : string;
  DisableSourceIPCheck : bool;
}.

(** What a wrapper does: answer, pass the request on without a caller (the
    controller and console paths), or pass it on with one. *)
Inductive auth_outcome := Denied (r : error_response) | Next | NextAs (c : caller).

(** The Pod cache, by IP. *)
Definition podIndex : Type := string → option Pod.

Definition crossCheck (a : Authenticator) (PodByIP : podIndex) (r : request) (namespace : string) : bool :=
  if DisableSourceIPCheck a then true
  else match PodByIP (sourceIP r) with
       | None => false
       | Some pod => (pod_Namespace pod =? namespace)%string
       end.

(** The live list is scoped to the namespace it is asked for. *)
Definition crossCheckLive (a : Authenticator) (PodByIP : podIndex) (PodByIPLive : string → podIndex)
    (r : request) (namespace : string) : bool :=
  if DisableSourceIPCheck a then true
  else
    let ip := sourceIP r in
    match (match PodByIP ip with Some pod => Some pod | None => PodByIPLive namespace ip end) with
    | None => false
    | Some pod => (pod_Namespace pod =? namespace)%string
    end.

Definition source_mismatch : auth_outcome :=
  Denied (unauthorized "source IP does not match the authenticated namespace").
Definition must_use_mtls : auth_outcome :=
  Denied (unauthorized "Kaalm-managed Pods must authenticate with mTLS").

Section wrappers.
(** The group of an apiVersion, [None] when it does not parse. *)
Context (ParseGroupVersion : string → option string).
Context (a : Authenticator).

Definition isKaalmManagedPod (pod : Pod) : bool :=
  existsb (λ ref,
    match ParseGroupVersion (own_APIVersion ref) with
    | Some group => (group =? "kaalm.io")%string
                    && ((own_Kind ref =? "Agent")%string || (own_Kind ref =? "AgentTask")%string)
    | None => false
    end) (OwnerReferences pod)
  || bool_decide (is_Some (pod_Labels pod !! "kaalm.io/workload")).

(** Mode 2 after the bearer token is extracted: [before] and [after] are the
    Pod cache before and after the review. *)
Definition bearer_caller (before after : podIndex) (r : request) (rv : auth_result) : auth_outcome :=
  let check := negb (DisableSourceIPCheck a) in
  let first := if check then before (sourceIP r) else None in
  if match first with Some pod => isKaalmManagedPod pod | None => false end then must_use_mtls
  else
    match rv with
    | AuthError =>
        Denied (writeError 503 (mk_error errInternalUnavailable "TokenReview unavailable" "" true) 1)
    | AuthRejected => Denied (unauthorized "token rejected")
    | AuthOK ns =>
        if check then
          let again := match first with Some pod => Some pod | None => after (sourceIP r) end in
          if match first with
             | Some _ => false
             | None => match again with Some pod => isKaalmManagedPod pod | None => false end
             end
          then must_use_mtls
          else match again with
               | Some pod => if (pod_Namespace pod =? ns)%string then NextAs (mk_caller ns None)
                             else source_mismatch
               | None => source_mismatch
               end
        else NextAs (mk_caller ns None)
    end.

(** [rv] is the answer [Authenticate] gives for the request's token. *)
Definition DualModePaths (before after : podIndex) (r : request) (rv : string → auth_result) : auth_outcome :=
  match peerCert r with
  | Some cert =>
      match ParseWorkloadSAN cert with
      | inr e => Denied (forbidden errInvalidCert (san_error_string e))
      | inl id =>
          if negb (crossCheck a before r (id_Namespace id)) then source_mismatch
          else NextAs (mk_caller (id_Namespace id) (Some id))
      end
  | None =>
      match bearerToken (Authorization r) with
      | None => Denied (unauthorized "no client certificate or bearer token presented")
      | Some token => bearer_caller before after r (rv token)
      end
  end.

Definition AgentReportPaths (requiredKind : WorkloadKind) (PodByIP : podIndex)
    (PodByIPLive : string → podIndex) (r : request) : auth_outcome :=
  let check := match requiredKind with
               | KindAgentTask => crossCheckLive a PodByIP PodByIPLive
               | KindAgent => crossCheck a PodByIP
               end in
  match peerCert r with
  | None => Denied (unauthorized "client certificate required")
  | Some cert =>
      match ParseWorkloadSAN cert with
      | inr e => Denied (forbidden errInvalidCert (san_error_string e))
      | inl id =>
          if negb (bool_decide (id_Kind id = requiredKind)) then
            let msg := kind_string (id_Kind id) +:+ " callers are not accepted on this path" in
            let msg := match requiredKind with
                       | KindAgentTask => "NotAgentTaskPod: " +:+ msg
                       | KindAgent => msg
                       end in
            Denied (forbidden errAccessDenied msg)
          else if negb (check r (id_Namespace id)) then source_mismatch
          else NextAs (mk_caller (id_Namespace id) (Some id))
      end
  end.

Definition ControllerPaths (PodByIP : podIndex) (r : request) : auth_outcome :=
  match peerCert r with
  | None => Denied (unauthorized "client certificate required")
  | Some cert =>
      if negb (IsControllerCert cert (OperatorNamespace a))
      then Denied (forbidden errAccessDenied "this path requires the controller identity")
      else if negb (crossCheck a PodByIP r (OperatorNamespace a))
      then Denied (unauthorized "source IP does not match the operator namespace")
      else Next
  end.

Definition ConsolePaths (PodByIP : podIndex) (r : request) : auth_outcome :=
  match peerCert r with
  | None => Denied (unauthorized "client certificate required")
  | Some cert =>
      if negb (IsConsoleCert cert (OperatorNamespace a))
      then Denied (forbidden errAccessDenied "this path requires the console identity")
      else if negb (crossCheck a PodByIP r (OperatorNamespace a))
      then Denied (unauthorized "source IP does not match the operator namespace")
      else Next
  end.
End wrappers.

(** ** Workload SANs: lemmas *)

(** The SAN a workload's certificate carries. *)
Definition workload_san (id : Identity) : string :=
  id_Name id +:+ ("." +:+ (id_Namespace id +:+ ("." +:+
    match id_Kind id with KindAgent => AgentSANSuffix | KindAgentTask => TaskSANSuffix end))).

Definition dot_free (s : string) : bool := negb (contains_char "." s).

Definition san_shaped (id : Identity) : bool := dot_free (id_Name id) && dot_free (id_Namespace id).

Definition recognized (san : string) : option Identity := head (scan_san ([], false) san).1.

Lemma scan_san_matched acc san : (scan_san acc san).1 = acc.1 ++ option_list (recognized san).
Proof.
  unfold recognized, scan_san. destruct acc as [matched b]. cbv zeta.
  repeat (case_match; simplify_eq/=); by rewrite ?app_nil_r.
Qed.

Lemma scan_sans_matched acc sans : (foldl scan_san acc sans).1 = acc.1 ++ omap recognized sans.
Proof.
  revert acc; induction sans as [|san sans IH]; intros acc; simpl; [by rewrite app_nil_r|].
  rewrite IH, scan_san_matched, <- app_assoc. f_equal. by destruct (recognized san).
Qed.

Lemma split_suffixed x suffix :
  split_char "." (x +:+ ("." +:+ suffix)) = split_char "." x ++ split_char "." suffix.
Proof. apply split_char_app. Qed.

Lemma split_workload_san id :
  san_shaped id = true →
  split_char "." (workload_san id) =
    id_Name id :: id_Namespace id ::
      match id_Kind id with KindAgent => ["svc"; "cluster"; "local"] | KindAgentTask => ["task"; "kaalm"; "io"] end.
Proof.
  unfold san_shaped, dot_free. intros [Hn Hs]%andb_true_iff. bool_to_prop. unfold workload_san.
  rewrite !split_suffixed, !split_char_free by done.
  by destruct (id_Kind id).
Qed.

Lemma recognized_sound san id : recognized san = Some id → san = workload_san id ∧ san_shaped id = true.
Proof.
  assert (Hsound : ∀ suffix kind ls,
    suffix = match kind with KindAgent => AgentSANSuffix | KindAgentTask => TaskSANSuffix end →
    HasSuffix san ("." +:+ suffix) = true → split_char "." san = ls → length ls = 5%nat →
    mk_identity (default "" (ls !! 1%nat)) (default "" (ls !! 0%nat)) kind = id →
    san = workload_san id ∧ san_shaped id = true).
  { intros suffix kind ls -> [x ->]%HasSuffix_spec Hls Hlen <-.
    rewrite split_suffixed in Hls. pose proof (split_char_pieces "." x) as Hfree.
    destruct (split_char "." x) as [|n [|ns [|? ?]]] eqn:Ex; subst ls; destruct kind; rewrite length_app in Hlen; simpl in Hlen; try lia.
    all: apply split_char_pair in Ex as ->; apply Forall_cons_1 in Hfree as [Hn Hrest]; apply Forall_cons_1 in Hrest as [Hns _].
    all: unfold workload_san, san_shaped, dot_free; simpl; rewrite Hn.
    all: split; [by rewrite <- string_app_assoc|]. all: by rewrite Hns. }
  unfold recognized, scan_san. cbv zeta. repeat (case_match; simplify_eq/=; bool_to_prop); intros; simplify_eq/=.
  - eapply (Hsound _ KindAgent); eauto. by apply Nat.eqb_eq.
  - eapply (Hsound _ KindAgentTask); eauto. by apply Nat.eqb_eq.
Qed.

Lemma recognized_complete id : san_shaped id = true → recognized (workload_san id) = Some id.
Proof.
  intros Hid. pose proof (split_workload_san id Hid) as Hsplit. destruct id as [ns n k].
  unfold recognized, scan_san. cbv zeta. rewrite Hsplit.
  destruct (HasSuffix (workload_san (mk_identity ns n k)) ("." +:+ AgentSANSuffix)) eqn:Ha.
  - apply HasSuffix_spec in Ha as [x Hx]. destruct k; [done|]. exfalso. rewrite Hx, split_suffixed in Hsplit.
    apply (f_equal last) in Hsplit. rewrite last_app in Hsplit. discriminate Hsplit.
  - destruct k.
    { exfalso. apply not_true_iff_false in Ha. apply Ha, HasSuffix_spec.
      exists (n +:+ ("." +:+ ns)). unfold workload_san. simpl. by rewrite <- string_app_assoc. }
    replace (HasSuffix _ ("." +:+ TaskSANSuffix)) with true; [done|].
    symmetry. apply HasSuffix_spec.
    exists (n +:+ ("." +:+ ns)). unfold workload_san. simpl. by rewrite <- string_app_assoc.
Qed.

(** Equal names split into equal labels. *)
Lemma split_long n ns :
  dot_free n = true → dot_free ns = true →
  split_char "." (n +:+ ("." +:+ (ns +:+ ".svc.cluster.local"))) = [n; ns; "svc"; "cluster"; "local"].
Proof. intros Hn Hs. apply (split_workload_san (mk_identity ns n KindAgent)). unfold san_shaped. simpl. by rewrite Hn, Hs. Qed.

Lemma split_short n ns :
  dot_free n = true → dot_free ns = true →
  split_char "." (n +:+ ("." +:+ (ns +:+ ".svc"))) = [n; ns; "svc"].
Proof.
  unfold dot_free. intros Hn Hs. bool_to_prop. change ".svc" with ("." +:+ "svc").
  by rewrite !split_suffixed, !split_char_free by done.
Qed.

Lemma split_bare n ns :
  dot_free n = true → dot_free ns = true → split_char "." (n +:+ ("." +:+ ns)) = [n; ns].
Proof. unfold dot_free. intros Hn Hs. bool_to_prop. by rewrite split_suffixed, !split_char_free by done. Qed.

Lemma split_task n ns :
  dot_free n = true → dot_free ns = true →
  split_char "." (n +:+ ("." +:+ (ns +:+ ("." +:+ TaskSANSuffix)))) = [n; ns; "task"; "kaalm"; "io"].
Proof. intros Hn Hs. apply (split_workload_san (mk_identity ns n KindAgentTask)). unfold san_shaped. simpl. by rewrite Hn, Hs. Qed.

Lemma split_neq s t : split_char "." s ≠ split_char "." t → (s =? t)%string = false.
Proof. intros H. apply String.eqb_neq. by intros ->. Qed.

Lemma service_cert_agent service op n ns :
  dot_free service = true → dot_free op = true → dot_free n = true → dot_free ns = true →
  isServiceCert (desiredCertificate n ns) service op = true ↔ n = service ∧ ns = op.
Proof.
  intros Hv Ho Hn Hs. unfold isServiceCert, desiredCertificate. cbn [existsb].
  split; [|intros [-> ->]; by rewrite String.eqb_refl].
  rewrite !orb_true_iff, !String.eqb_eq.
  intros H. repeat destruct H as [H|H]; try done; apply (f_equal (split_char ".")) in H.
  all: rewrite ?split_long, ?split_short, ?split_bare in H by done; by simplify_eq.
Qed.

Lemma service_cert_task service op n ns :
  dot_free service = true → dot_free op = true → dot_free n = true → dot_free ns = true →
  isServiceCert (desiredTaskCertificate n ns) service op = false.
Proof.
  intros Hv Ho Hn Hs. unfold isServiceCert, desiredTaskCertificate. cbn [existsb].
  rewrite !orb_false_iff. split_and!; try done; apply split_neq;
    by rewrite split_task, ?split_long, ?split_short by done.
Qed.

Lemma ParseWorkloadSAN_one sans id : ParseWorkloadSAN sans = inl id ↔ omap recognized sans = [id].
Proof.
  unfold ParseWorkloadSAN. pose proof (scan_sans_matched ([], false) sans) as E.
  destruct (foldl scan_san ([], false) sans) as [matched bad]. simpl in E. subst matched.
  destruct (omap recognized sans) as [|i [|? ?]]; naive_solver.
Qed.

Lemma recognized_labels san id :
  recognized san = Some id → length (split_char "." san) = 5%nat.
Proof. intros [-> H]%recognized_sound. rewrite split_workload_san by done. by destruct (id_Kind id). Qed.

Lemma unrecognized san : length (split_char "." san) ≠ 5%nat → recognized san = None.
Proof. intros H. destruct (recognized san) eqn:E; [|done]. by apply recognized_labels in E. Qed.

(** ** Properties *)

(** Certificate identity.  The gateway reads an identity from a
    certificate exactly when one of its DNS names is that identity's SAN,
    with a dot-free name and namespace, and no other DNS name is the SAN of
    any workload. *)
Theorem ParseWorkloadSAN_exact sans id :
  ParseWorkloadSAN sans = inl id ↔
  ∃ pre post, sans = pre ++ workload_san id :: post ∧ san_shaped id = true ∧
    ∀ san id', san ∈ pre ++ post → san_shaped id' = true → san ≠ workload_san id'.
Proof.
  rewrite ParseWorkloadSAN_one. split.
  - induction sans as [|san sans IH]; simpl; [done|].
    destruct (recognized san) as [i|] eqn:E.
    + intros [= -> Hnil]. change (omap recognized sans = []) in Hnil. apply recognized_sound in E as [-> Hid]. exists [], sans. split_and!; [done..|].
      intros san id' Hin Hid' ->. apply recognized_complete in Hid'.
      assert (Hin' : id' ∈ omap recognized sans) by (apply list_elem_of_omap; eauto).
      rewrite Hnil in Hin'. by apply not_elem_of_nil in Hin'.
    + intros (pre & post & -> & Hid & Hno)%IH. exists (san :: pre), post. split_and!; [done..|].
      intros san' id' [->|Hin]%elem_of_cons Hid'; [|by apply Hno].
      intros ->. by rewrite recognized_complete in E.
  - intros (pre & post & -> & Hid & Hno).
    assert (Hnone : ∀ l, (∀ san, san ∈ l → san ∈ pre ++ post) → omap recognized l = []).
    { induction l as [|san l IH]; intros Hl; [done|]. simpl.
      destruct (recognized san) as [i|] eqn:E.
      - apply recognized_sound in E as [-> Hi]. exfalso. eapply Hno; [|exact Hi|done]. apply Hl. set_solver.
      - apply IH. set_solver. }
    rewrite omap_app, (Hnone pre) by set_solver. simpl.
    rewrite recognized_complete by done. f_equal. apply (Hnone post). set_solver.
Qed.

(** Issued certificates.  The certificate the controller requests for an
    Agent or AgentTask with a dot-free name and namespace is read back by the
    gateway as exactly that workload; an Agent's certificate opens the
    controller-only or console-only paths only for an Agent of that Service's
    own name in the operator namespace, and a task's certificate never. *)
Theorem issued_certificate_identity name ns op
    (Hname : dot_free name = true) (Hns : dot_free ns = true) (Hop : dot_free op = true) :
  ParseWorkloadSAN (desiredCertificate name ns) = inl (mk_identity ns name KindAgent) ∧
  ParseWorkloadSAN (desiredTaskCertificate name ns) = inl (mk_identity ns name KindAgentTask) ∧
  (IsControllerCert (desiredCertificate name ns) op = true ↔ name = "kaalm-controller" ∧ ns = op) ∧
  (IsConsoleCert (desiredCertificate name ns) op = true ↔ name = "kaalm-console" ∧ ns = op) ∧
  IsControllerCert (desiredTaskCertificate name ns) op = false ∧
  IsConsoleCert (desiredTaskCertificate name ns) op = false.
Proof.
  assert (Hshape : ∀ k, san_shaped (mk_identity ns name k) = true)
    by (intros k; unfold san_shaped; simpl; by rewrite Hname, Hns).
  split_and!.
  - apply ParseWorkloadSAN_one. unfold desiredCertificate.
    change (name +:+ ("." +:+ (ns +:+ ".svc.cluster.local"))) with (workload_san (mk_identity ns name KindAgent)).
    cbn [omap list_omap]. rewrite (recognized_complete (mk_identity ns name KindAgent)) by done.
    rewrite !unrecognized; [done|..]; by rewrite ?split_short, ?split_bare.
  - apply ParseWorkloadSAN_one. change (desiredTaskCertificate name ns) with [workload_san (mk_identity ns name KindAgentTask)].
    cbn [omap list_omap].
    by rewrite (recognized_complete (mk_identity ns name KindAgentTask)).
  - by apply service_cert_agent.
  - by apply service_cert_agent.
  - by apply service_cert_task.
  - by apply service_cert_task.
Qed.

Lemma issued_certificate_identity_witness :
  ParseWorkloadSAN (desiredCertificate "billing" "team-a") = inl (mk_identity "team-a" "billing" KindAgent).
Proof.
  apply (issued_certificate_identity "billing" "team-a" "kaalm-system"); vm_compute; reflexivity.
Defined.

(** The label count alone does not stop a dotted name: the bare
    [name.namespace] DNS name of an Agent in a namespace called "local" can
    be another workload's SAN.  The schema's rule on names is what excludes
    it. *)
Lemma dotted_name_shifts_identity :
  ParseWorkloadSAN (desiredCertificate "victim.team-a.svc.cluster" "local")
  = inl (mk_identity "team-a" "victim" KindAgent).
Proof. vm_compute. reflexivity. Qed.

(** C35: the dual-mode listener.  With the source-IP check on, a request the
    listener passes on comes from the IP of a Pod in the namespace it is
    attributed to.  With a client certificate its identity is the one the
    certificate attests, whatever bearer header it carries; without one it is
    a bearer caller without workload identity, whose token the review
    accepted for that namespace and whose Pod Kaalm does not manage. *)
Theorem DualModePaths_caller ParseGroupVersion a before after r rv c
    (Hcheck : DisableSourceIPCheck a = false)
    (Hnext : DualModePaths ParseGroupVersion a before after r rv = NextAs c) :
  ∃ pod, (before (sourceIP r) = Some pod ∨ (before (sourceIP r) = None ∧ after (sourceIP r) = Some pod)) ∧
    pod_Namespace pod = c_Namespace c ∧
    match peerCert r with
    | Some cert => ∃ id, ParseWorkloadSAN cert = inl id ∧ c = mk_caller (id_Namespace id) (Some id)
    | None => isKaalmManagedPod ParseGroupVersion pod = false ∧ c_Workload c = None ∧
        ∃ token, bearerToken (Authorization r) = Some token ∧ rv token = AuthOK (c_Namespace c)
    end.
Proof.
  unfold DualModePaths, crossCheck, bearer_caller, source_mismatch, must_use_mtls in Hnext.
  rewrite Hcheck in Hnext. cbn [negb] in Hnext.
  repeat (case_match; simplify_eq/=; bool_to_prop); eauto 12.
Qed.

Lemma DualModePaths_caller_witness :
  ∃ pod, pod_Namespace pod = "team-a" ∧ isKaalmManagedPod (λ _, Some "apps") pod = false.
Proof.
  pose (pod := mk_pod "team-a" [mk_owner "apps/v1" "ReplicaSet"] ∅).
  destruct (DualModePaths_caller (λ _, Some "apps") (mk_authenticator "kaalm-system" false)
    (λ _, None) (λ _, Some pod) (mk_request None "Bearer abc" "10.0.0.7") (λ _, AuthOK "team-a")
    (mk_caller "team-a" None) eq_refl ltac:(vm_compute; reflexivity)) as (pod' & _ & Hns & Hm & _).
  exists pod'. exact (conj Hns Hm).
Defined.

(** The certificate-only paths.  A report path passes a caller exactly
    when its certificate attests an identity of the required kind and the
    source check holds for the attested namespace; there is no bearer
    fallback.  The controller and console paths pass exactly a certificate
    that names their Service, from the operator namespace. *)
Theorem certificate_paths_exact a PodByIP PodByIPLive r kind c :
  (AgentReportPaths a kind PodByIP PodByIPLive r = NextAs c ↔
    ∃ cert id, peerCert r = Some cert ∧ ParseWorkloadSAN cert = inl id ∧ id_Kind id = kind ∧
      match kind with
      | KindAgent => crossCheck a PodByIP r (id_Namespace id)
      | KindAgentTask => crossCheckLive a PodByIP PodByIPLive r (id_Namespace id)
      end = true ∧ c = mk_caller (id_Namespace id) (Some id)) ∧
  (ControllerPaths a PodByIP r = Next ↔
    ∃ cert, peerCert r = Some cert ∧ IsControllerCert cert (OperatorNamespace a) = true ∧
      crossCheck a PodByIP r (OperatorNamespace a) = true) ∧
  (ConsolePaths a PodByIP r = Next ↔
    ∃ cert, peerCert r = Some cert ∧ IsConsoleCert cert (OperatorNamespace a) = true ∧
      crossCheck a PodByIP r (OperatorNamespace a) = true).
Proof.
  split_and!.
  - unfold AgentReportPaths, source_mismatch. split.
    + intros H. repeat (case_match; simplify_eq/=; bool_to_prop); eauto 10.
    + intros (cert & id & -> & -> & <- & Hx & ->). rewrite bool_decide_true by done. cbn [negb].
      destruct (id_Kind id); by rewrite Hx.
  - unfold ControllerPaths. split.
    + intros H. repeat (case_match; simplify_eq/=; bool_to_prop); eauto.
    + intros (cert & -> & -> & ->). done.
  - unfold ConsolePaths. split.
    + intros H. repeat (case_match; simplify_eq/=; bool_to_prop); eauto.
    + intros (cert & -> & -> & ->). done.
Qed.

(** *** The token cache over time *)

Section cache.
Context (Sum256 : string → string) (exp_claim : string → option Z).

(** One call of [Authenticate]: the clock at the lookup and at the store, the
    token and the answer a review would give. *)
Record auth_call := mk_call { call_now : Time; call_store : Time; call_token : string; call_review : review }.

(** The accepted reviews so far: when, which token, which namespace. *)
Definition review_log : Type := list (Time * string * string).

Definition run_call (st : tokenCache * review_log) (c : auth_call) : tokenCache * review_log :=
  let '(cache, (res, reviewed)) :=
    Authenticate Sum256 exp_claim st.1 (call_now c) (call_store c) (call_token c) (call_review c) in
  (cache, st.2 ++ match res, reviewed with
                  | AuthOK ns, true => [(call_store c, call_token c, ns)]
                  | _, _ => []
                  end).

Definition cache_backed (st : tokenCache * review_log) : Prop :=
  map_Forall (λ key e, ∃ t0 token, (t0, token, tc_namespace e) ∈ st.2 ∧ key = Sum256 token ∧
    tc_expires e = (t0 + cacheTTL exp_claim token t0)%Z) st.1.

Lemma run_call_backed st c : cache_backed st → cache_backed (run_call st c).
Proof.
  destruct st as [cache log]. unfold run_call, Authenticate, cache_backed. simpl. intros H.
  assert (Hgrow : ∀ l, map_Forall (λ key e, ∃ t0 token, (t0, token, tc_namespace e) ∈ log ++ l ∧ key = Sum256 token ∧
    tc_expires e = (t0 + cacheTTL exp_claim token t0)%Z) cache).
  { intros l. eapply map_Forall_impl; [exact H|]. cbv beta. intros key e (t0 & token & Hin & ? & ?).
    exists t0, token. split_and!; [set_solver|done|done]. }
  repeat (case_match; simplify_eq/=); try apply Hgrow.
  all: apply map_Forall_insert_2; [|apply Hgrow]; eexists _, _; split_and!; [|done|done]; set_solver.
Qed.

Lemma run_calls_backed calls st : cache_backed st → cache_backed (foldl run_call st calls).
Proof. revert st; induction calls as [|c calls IH]; intros st H; simpl; [done|]. by apply IH, run_call_backed. Qed.

Lemma cacheTTL_bounds token t0 : (0 <= cacheTTL exp_claim token t0 <= tokenCacheMaxTTL)%Z.
Proof.
  unfold cacheTTL. destruct (jwtExpiry exp_claim token); [|unfold tokenCacheMaxTTL, Minute, Second; lia].
  repeat case_match; bool_to_prop; unfold tokenCacheMaxTTL, Minute, Second in *; lia.
Qed.

Lemma wrap64_id z : (- 2 ^ 63 <= z < 2 ^ 63)%Z → wrap64 z = z.
Proof. intros H. unfold wrap64. rewrite Z.mod_small; lia. Qed.

Lemma cacheTTL_expiry token t0 exp :
  jwtExpiry exp_claim token = Some exp → (- 2 ^ 62 <= exp - t0)%Z →
  (cacheTTL exp_claim token t0 <= Z.max 0 (exp - t0 - tokenCacheSafetyMargin))%Z.
Proof.
  intros E Hlow. unfold cacheTTL. rewrite E. cbv zeta.
  assert (Hs : (Sub exp t0 <= exp - t0 ∧ - 2 ^ 62 <= Sub exp t0 <= 2 ^ 63 - 1)%Z)
    by (unfold Sub, min_int64, max_int64; lia).
  rewrite wrap64_id by (unfold tokenCacheSafetyMargin, Second; lia).
  repeat case_match; bool_to_prop; unfold tokenCacheMaxTTL, tokenCacheSafetyMargin, Minute, Second in *; lia.
Qed.

(** The token cache.  Whatever calls ran before, a token that is accepted
    without a review was accepted by a review for the same namespace less
    than five minutes ago, and if the token carries an expiry, the cached
    answer ends a minute before it. *)
Theorem cached_token_was_reviewed calls now now' token rv cache' ns
    (Hinj : Inj (=) (=) Sum256)
    (Hhit : Authenticate Sum256 exp_claim (foldl run_call (∅, []) calls).1 now now' token rv
            = (cache', (AuthOK ns, false))) :
  ∃ t0, (t0, token, ns) ∈ (foldl run_call (∅, []) calls).2 ∧ (now < t0 + tokenCacheMaxTTL)%Z ∧
    (∀ exp, jwtExpiry exp_claim token = Some exp → (- 2 ^ 62 <= exp - t0)%Z →
       (now < t0 ∨ now < exp - tokenCacheSafetyMargin)%Z).
Proof.
  pose proof (run_calls_backed calls (∅, []) (map_Forall_empty _)) as Hb.
  destruct (foldl run_call (∅, []) calls) as [cache log]. simpl in *. unfold Authenticate in Hhit.
  repeat (case_match; simplify_eq/=); unfold Before in *; bool_to_prop.
  match goal with Hl : _ !! Sum256 token = Some ?e |- _ =>
    destruct (Hb _ _ Hl) as (t0 & token' & Hin & Hk & He) end.
  apply Hinj in Hk as <-. exists t0. pose proof (cacheTTL_bounds token t0).
  split_and!; [done|lia|]. intros exp Hexp Hlow. pose proof (cacheTTL_expiry token t0 exp Hexp Hlow). lia.
Qed.
End cache.

Definition example_cache : tokenCache := <["a.b.c" := mk_cache_entry "team-a" (310 * Second)%Z]> ∅.

Lemma cached_token_was_reviewed_witness :
  ∃ t0, (t0, "a.b.c", "team-a") ∈ [(10 * Second, "a.b.c", "team-a")%Z] ∧ (11 * Second < t0 + tokenCacheMaxTTL)%Z.
Proof.
  destruct (cached_token_was_reviewed (λ s, s) (λ _, Some 1000000%Z)
    [mk_call (10 * Second)%Z (10 * Second)%Z "a.b.c" (Reviewed "system:serviceaccount:team-a:ci" true)]
    (11 * Second)%Z (11 * Second)%Z "a.b.c" ReviewError
    example_cache "team-a"
    (λ x y E, E) ltac:(vm_compute; reflexivity)) as (t0 & Hin & Hlt & _).
  exists t0. exact (conj Hin Hlt).
Defined.
