(* ===== verification/Base64.v ===== *)
(** encoding/base64, as the tool broker uses it: RawURLEncoding for session
    ids, StdEncoding for header values.

    The decoder is Go's lax one: it drops line breaks anywhere and ignores
    the bits left over in the last digit. *)

From stdpp Require Import base list strings option.
From Stdlib Require Import ZArith Lia Ascii.
From S2P Require Import Prelude Json JsonString.

Local Open Scope Z_scope.

Record Encoding := mk_encoding {
  alphabet : bytes;
  padded : bool;
}.

Definition letters : bytes := bs "ABCDEFGHIJKLMNOPQRSTUVWXYZabcdefghijklmnopqrstuvwxyz0123456789".
Definition StdEncoding : Encoding := mk_encoding (letters ++ bs "+/") true.
Definition RawURLEncoding : Encoding := mk_encoding (letters ++ bs "-_") false.

Definition pad : ascii := "=".

Section codec.
Context (e : Encoding).

Definition enc_digit (z : Z) : ascii := default pad (alphabet e !! Z.to_nat (z mod 64)).

(** The value of a digit; [None] for any other byte. *)
Definition dec_digit (c : ascii) : option Z := (λ x, Z.of_nat x.1) <$> list_find (λ d, d = c) (alphabet e).

Definition padding (n : nat) : bytes := if padded e then replicate n pad else [].

Fixpoint Encode (b : bytes) : bytes :=
  match b with
  | [] => []
  | [x] =>
      let v := ascii_Z x * 16 in
      [enc_digit (v / 64); enc_digit v] ++ padding 2
  | [x; y] =>
      let v := (ascii_Z x * 256 + ascii_Z y) * 4 in
      [enc_digit (v / 4096); enc_digit (v / 64); enc_digit v] ++ padding 1
  | x :: y :: z :: b =>
      let v := (ascii_Z x * 256 + ascii_Z y) * 256 + ascii_Z z in
      enc_digit (v / 262144) :: enc_digit (v / 4096) :: enc_digit (v / 64) :: enc_digit v :: Encode b
  end.

(** The last, short quantum of one or two bytes. *)
Definition dec_one (a b : ascii) : option bytes :=
  match dec_digit a, dec_digit b with
  | Some a, Some b => Some [byte ((a * 64 + b) / 16)]
  | _, _ => None
  end.

Definition dec_two (a b c : ascii) : option bytes :=
  match dec_digit a, dec_digit b, dec_digit c with
  | Some a, Some b, Some c =>
      let v := ((a * 64 + b) * 64 + c) / 4 in Some [byte (v / 256); byte (v mod 256)]
  | _, _, _ => None
  end.

Fixpoint decode_quanta (l : bytes) : option bytes :=
  match l with
  | [] => Some []
  | [_] => None
  | [a; b] => if padded e then None else dec_one a b
  | [a; b; c] => if padded e then None else dec_two a b c
  | a :: b :: c :: d :: r =>
      if padded e && Ascii.eqb d pad then
        match r with
        | [] => if Ascii.eqb c pad then dec_one a b else dec_two a b c
        | _ => None
        end
      else
        match dec_digit a, dec_digit b, dec_digit c, dec_digit d, decode_quanta r with
        | Some a, Some b, Some c, Some d, Some r =>
            let v := ((a * 64 + b) * 64 + c) * 64 + d in
            Some (byte (v / 65536) :: byte (v / 256 mod 256) :: byte (v mod 256) :: r)
        | _, _, _, _, _ => None
        end
  end.

Definition line_break (c : ascii) : bool := Ascii.eqb c "010" || Ascii.eqb c "013".

Definition unbroken (s : list ascii) : list ascii := filter (λ c, line_break c = false) s.

Definition DecodeString (s : bytes) : option bytes := decode_quanta (unbroken s).

(** ** The round trip *)

(** 64 distinct digits, none of them a line break or the padding. *)
Definition sound_alphabet : Prop :=
  length (alphabet e) = 64%nat ∧ NoDup (alphabet e) ∧ Forall (λ c, line_break c = false ∧ c ≠ pad) (alphabet e).

Hypothesis Hsound : sound_alphabet.

Lemma enc_digit_lookup z : alphabet e !! Z.to_nat (z mod 64) = Some (enc_digit z).
Proof.
  assert (is_Some (alphabet e !! Z.to_nat (z mod 64))) as [c Hc].
  { apply lookup_lt_is_Some_2. destruct Hsound as (-> & _). pose proof (Z.mod_pos_bound z 64). lia. }
  unfold enc_digit. by rewrite Hc.
Qed.

Lemma dec_enc z : dec_digit (enc_digit z) = Some (z mod 64).
Proof.
  unfold dec_digit. pose proof (enc_digit_lookup z) as Hl.
  rewrite (proj2 (list_find_Some _ _ (Z.to_nat (z mod 64)) (enc_digit z))).
  - simpl. f_equal. pose proof (Z.mod_pos_bound z 64). lia.
  - split_and!; [done|done|]. intros j y Hj Hlt ->. destruct Hsound as (_ & Hnd & _).
    pose proof (NoDup_lookup _ _ _ _ Hnd Hj Hl). lia.
Qed.

Lemma enc_digit_ok z : line_break (enc_digit z) = false ∧ Ascii.eqb (enc_digit z) pad = false.
Proof.
  destruct Hsound as (_ & _ & Hf). pose proof (Forall_lookup_1 _ _ _ _ Hf (enc_digit_lookup z)) as [Hb Hp].
  split; [done|]. by apply Ascii.eqb_neq.
Qed.

Lemma unbroken_cons c l : line_break c = false → unbroken (c :: l) = c :: unbroken l.
Proof. intros H. unfold unbroken. by rewrite filter_cons, decide_True. Qed.

Lemma padding_clean n : unbroken (padding n) = padding n.
Proof. unfold padding. destruct (padded e); [|done]. induction n as [|n IH]; [done|]. cbn [replicate]. by rewrite unbroken_cons, IH. Qed.

(** Three bytes at a time. *)
Lemma bytes3_ind (P : bytes → Prop) : P [] → (∀ x, P [x]) → (∀ x y, P [x; y]) → (∀ x y z b, P b → P (x :: y :: z :: b)) → ∀ b, P b.
Proof.
  intros H0 H1 H2 H3 b. assert (P b ∧ (∀ x, P (x :: b)) ∧ (∀ x y, P (x :: y :: b))) as [? _]; [|done].
  induction b as [|c b (IH0 & IH1 & IH2)]; [by split_and!|]. split_and!; auto.
Qed.

Lemma Encode_clean b : unbroken (Encode b) = Encode b.
Proof.
  induction b as [|x|x y|x y z b IH] using bytes3_ind; cbn [Encode app]; [done|..];
    rewrite ?unbroken_cons by apply enc_digit_ok; by rewrite ?padding_clean, ?IH.
Qed.

Lemma byte_of z c : z = ascii_Z c → byte z = c.
Proof. intros ->. apply byte_ascii_Z. Qed.

Lemma decode_quanta_Encode b : decode_quanta (Encode b) = Some b.
Proof.
  induction b as [|x|x y|x y z b IH] using bytes3_ind; [done|..]; cbn [Encode app].
  - pose proof (ascii_Z_range x). assert (Hd : ∀ v, v = ascii_Z x * 16 → dec_one (enc_digit (v / 64)) (enc_digit v) = Some [x]).
    { intros v Hv. unfold dec_one. rewrite !dec_enc. do 2 f_equal. apply byte_of. subst v. Z.div_mod_to_equations. lia. }
    unfold padding. cbn [decode_quanta]. destruct (padded e) eqn:Ep; cbn [replicate app decode_quanta]; rewrite ?Ep; by apply Hd.
  - pose proof (ascii_Z_range x). pose proof (ascii_Z_range y).
    assert (Hd : ∀ v, v = (ascii_Z x * 256 + ascii_Z y) * 4 → dec_two (enc_digit (v / 4096)) (enc_digit (v / 64)) (enc_digit v) = Some [x; y]).
    { intros v Hv. unfold dec_two. rewrite !dec_enc. cbv zeta. f_equal. f_equal; [|f_equal]; apply byte_of; subst v; Z.div_mod_to_equations; lia. }
    unfold padding. destruct (padded e) eqn:Ep; cbn [replicate app decode_quanta]; rewrite ?Ep; [|by apply Hd].
    cbn [andb]. rewrite Ascii.eqb_refl. rewrite (proj2 (enc_digit_ok _)). by apply Hd.
  - pose proof (ascii_Z_range x). pose proof (ascii_Z_range y). pose proof (ascii_Z_range z). cbv zeta. cbn [decode_quanta].
    rewrite (proj2 (enc_digit_ok _)), andb_false_r, !dec_enc, IH. cbv zeta.
    f_equal. f_equal; [|f_equal; [|f_equal]]; apply byte_of; Z.div_mod_to_equations; lia.
Qed.

Lemma DecodeString_Encode b : DecodeString (Encode b) = Some b.
Proof. unfold DecodeString. by rewrite Encode_clean, decode_quanta_Encode. Qed.
End codec.

Lemma Std_sound : sound_alphabet StdEncoding.
Proof.
  split_and!; [done|apply (bool_decide_unpack _); by vm_compute|].
  apply (bool_decide_unpack _). by vm_compute.
Qed.

Lemma RawURL_sound : sound_alphabet RawURLEncoding.
Proof.
  split_and!; [done|apply (bool_decide_unpack _); by vm_compute|].
  apply (bool_decide_unpack _). by vm_compute.
Qed.

(** No dot in a raw URL encoding. *)
Lemma RawURL_no_dot b : "."%char ∉ Encode RawURLEncoding b.
Proof.
  assert (Hd : ∀ z, enc_digit RawURLEncoding z ≠ "."%char).
  { intros z E. pose proof (enc_digit_lookup _ RawURL_sound z) as H. rewrite E in H. apply list_elem_of_lookup_2 in H.
    revert H. by apply (bool_decide_unpack (¬ _)). }
  induction b as [|x|x y|x y z b IH] using bytes3_ind; cbn [Encode app]; rewrite ?list.not_elem_of_cons; split_and?; auto using not_elem_of_nil;
    intros E; by apply (Hd _ (eq_sym E)).
Qed.
