(* ===== verification/Routing.v ===== *)
(** Tenancy: internal/gateway/routing.go (qualified model names, the
    authorization chain of an LLM request, namespace globs) and
    api/v1beta1/agentclass_namespaces.go.

    The informer-backed [Store] is a record of lookups.  The theorems give
    the chain's exact acceptance condition and show that a namespace a
    provider does not admit learns nothing about the provider's models. *)

From stdpp Require Import base gmap list strings option.
From Stdlib Require Import ZArith Lia Ascii.
From S2P Require Import Prelude GoFloat GoTime GoPath Api Auth.

(** The lookups of the gateway's [Store] the LLM and tool planes use. *)
Record Store := mk_store {
  AgentByName : string → string → option Workload;
  TaskByName : string → string → option Workload;
  ClassByName : string → option AgentClass;
  ProviderByName : string → option ModelProvider;
  ToolProviderByName : string → option ToolProvider;
}.

Definition splitQualifiedModel (qualified : string) : option (string * string) :=
  match Cut "/" qualified with
  | None => None
  | Some (provider, model) =>
      if (provider =? "")%string || (model =? "")%string then None else Some (provider, model)
  end.

Record routeDenial := mk_denial {
  status : Z;
  errType : string;
  message : string;
}.

(** A pattern list admits a name one of its well-formed patterns matches. *)
Definition glob_any (ns : string) (patterns : list string) : bool :=
  existsb (λ pattern, match Match pattern ns with Some true => true | _ => false end) patterns.

Definition namespaceGlobAllowed (ns : string) (allowed : list string) : bool :=
  match allowed with
  | [] => false
  | _ => glob_any ns allowed
  end.

Definition AdmitsNamespace (c : AgentClass) (ns : string) : bool :=
  match class_AllowedNamespaces c with
  | [] => true
  | patterns => glob_any ns patterns
  end.

Definition workloadProviders (s : Store) (ns : string) (id : Identity)
  : option (list AgentProviderReference * string) :=
  match id_Kind id with
  | KindAgent =>
      match AgentByName s ns (id_Name id) with
      | None => None
      | Some agent => Some (wl_Providers agent, AgentClassRef agent)
      end
  | KindAgentTask =>
      match TaskByName s ns (id_Name id) with
      | None => None
      | Some task => Some (wl_Providers task, AgentClassRef task)
      end
  end.

Definition containsProviderRef (refs : list AgentProviderReference) (name : string) : bool :=
  existsb (λ r, (pr_Name r =? name)%string) refs.

Definition offers (p : ModelProvider) (modelID : string) : bool :=
  existsb (λ m, (ID m =? modelID)%string) (Models (Spec p)).

(** The workload half of the chain: [None] lets the request go on. *)
Definition workload_denial (s : Store) (c : caller) (providerName : string) : option routeDenial :=
  match c_Workload c with
  | None => None
  | Some id =>
      match workloadProviders s (c_Namespace c) id with
      | None =>
          Some (mk_denial 403 errAccessDenied
            (kind_string (id_Kind id) +:+ (" " +:+ (Quote (id_Name id) +:+ (" not found in namespace "
             +:+ Quote (c_Namespace c))))))
      | Some (refs, classRef) =>
          if negb (containsProviderRef refs providerName) then
            Some (mk_denial 403 errAccessDenied
              ("provider " +:+ (Quote providerName +:+ " is not in the workload's spec.providers")))
          else
            match ClassByName s classRef with
            | None => Some (mk_denial 403 errAccessDenied ("AgentClass " +:+ (Quote classRef +:+ " not found")))
            | Some class =>
                if negb (AdmitsNamespace class (c_Namespace c)) then
                  Some (mk_denial 403 errAccessDenied
                    ("namespace " +:+ (Quote (c_Namespace c) +:+ (" is not in AgentClass "
                     +:+ (Quote classRef +:+ " allowedNamespaces")))))
                else if negb (existsb (λ ap, (ap =? providerName)%string) (AllowedProviders class)) then
                  Some (mk_denial 403 errAccessDenied
                    ("provider " +:+ (Quote providerName +:+ (" is not in AgentClass "
                     +:+ (Quote classRef +:+ " allowedProviders")))))
                else None
            end
      end
  end.

Definition authorizeRoute (s : Store) (c : caller) (providerName modelID : string)
  : ModelProvider + routeDenial :=
  match workload_denial s c providerName with
  | Some d => inr d
  | None =>
      match ProviderByName s providerName with
      | None => inr (mk_denial 400 errInvalidRequest ("unknown provider " +:+ Quote providerName))
      | Some provider =>
          if negb (namespaceGlobAllowed (c_Namespace c) (AllowedNamespaces (Spec provider))) then
            inr (mk_denial 403 errAccessDenied
              ("namespace " +:+ (Quote (c_Namespace c) +:+ (" is not allowed to use provider "
               +:+ Quote providerName))))
          else if offers provider modelID then inl provider
          else inr (mk_denial 400 errInvalidRequest
                 ("model " +:+ (Quote modelID +:+ (" is not offered by provider " +:+ Quote providerName))))
      end
  end.

(** ** Lemmas *)

(** A name of Kubernetes' alphabet is a literal pattern: an allowlist of such
    names admits exactly its members. *)
Lemma glob_any_literal ns patterns :
  Forall (λ p, literal p = true) patterns → glob_any ns patterns = true ↔ ns ∈ patterns.
Proof.
  induction 1 as [|p patterns Hp _ IH]; [split; [done|intros H; by apply not_elem_of_nil in H]|].
  unfold glob_any in *. simpl. rewrite orb_true_iff, IH, Match_literal, elem_of_cons by done.
  destruct (String.eqb_spec p ns) as [->|]; naive_solver.
Qed.

(** What the workload half of the chain requires. *)
Definition workload_admitted (s : Store) (c : caller) (providerName : string) : Prop :=
  ∀ id, c_Workload c = Some id →
    ∃ refs classRef class,
      workloadProviders s (c_Namespace c) id = Some (refs, classRef) ∧
      containsProviderRef refs providerName = true ∧
      ClassByName s classRef = Some class ∧ AdmitsNamespace class (c_Namespace c) = true ∧
      providerName ∈ AllowedProviders class.

Lemma existsb_string_elem x l : existsb (λ y, (y =? x)%string) l = true ↔ x ∈ l.
Proof.
  rewrite existsb_exists. setoid_rewrite String.eqb_eq. split.
  - intros (y & Hin & ->). by apply list_elem_of_In.
  - intros H. exists x. by rewrite <- list_elem_of_In.
Qed.

Lemma workload_denial_None s c name : workload_denial s c name = None ↔ workload_admitted s c name.
Proof.
  unfold workload_denial, workload_admitted. split.
  - intros H id Hid. rewrite Hid in H.
    repeat (case_match; simplify_eq/=; bool_to_prop). eexists _, _, _. split_and!; [done..|].
    by apply existsb_string_elem.
  - destruct (c_Workload c) as [id|]; [|done]. intros H.
    destruct (H id eq_refl) as (refs & cr & class & -> & -> & -> & -> & Hin). cbn [negb].
    by apply existsb_string_elem in Hin as ->.
Qed.

Lemma workload_denial_403 s c name d : workload_denial s c name = Some d → status d = 403%Z.
Proof. unfold workload_denial. intros H. repeat (case_match; simplify_eq/=); done. Qed.

(** ** Properties *)

(** The authorization chain.  A route is authorized to a provider exactly
    when, for a caller with a workload, the workload exists, lists the
    provider, and its class exists, admits the namespace and allows the
    provider; and the provider exists, its allowlist admits the namespace and
    it offers the model.  Every other request is refused with 403, or with
    400 when only the provider or the model does not exist. *)
Theorem authorizeRoute_exact s c name model :
  match authorizeRoute s c name model with
  | inl p => workload_admitted s c name ∧ ProviderByName s name = Some p ∧
      namespaceGlobAllowed (c_Namespace c) (AllowedNamespaces (Spec p)) = true ∧ offers p model = true
  | inr d =>
      (status d = 403%Z ∧ (¬ workload_admitted s c name ∨
         ∃ p, ProviderByName s name = Some p ∧
              namespaceGlobAllowed (c_Namespace c) (AllowedNamespaces (Spec p)) = false)) ∨
      (status d = 400%Z ∧ workload_admitted s c name ∧
         ∀ p, ProviderByName s name = Some p → offers p model = false)
  end.
Proof.
  unfold authorizeRoute. destruct (workload_denial s c name) as [d|] eqn:E.
  - left. split; [by eapply workload_denial_403|]. left. intros H.
    apply workload_denial_None in H. congruence.
  - apply workload_denial_None in E. destruct (ProviderByName s name) as [p|] eqn:Ep; [|right; naive_solver].
    destruct (namespaceGlobAllowed _ _) eqn:En; cbn [negb]; [|left; naive_solver].
    destruct (offers p model) eqn:Eo; [done|]. right. naive_solver.
Qed.

(** Two stores that differ at most in the models of their providers. *)
Definition forget_models (p : ModelProvider) : ModelProvider :=
  mk_provider (Name p) (UID p) (mk_provider_spec (Type_ (Spec p)) [] (AllowedNamespaces (Spec p))
    (Budget (Spec p)) (RateLimits (Spec p)) (Fallback (Spec p))).

Definition same_but_models (s s' : Store) : Prop :=
  (∀ ns n, AgentByName s ns n = AgentByName s' ns n) ∧
  (∀ ns n, TaskByName s ns n = TaskByName s' ns n) ∧
  (∀ n, ClassByName s n = ClassByName s' n) ∧
  (∀ n, forget_models <$> ProviderByName s n = forget_models <$> ProviderByName s' n).

Lemma workload_denial_models s s' c name :
  same_but_models s s' → workload_denial s c name = workload_denial s' c name.
Proof.
  intros (Ha & Ht & Hc & _). unfold workload_denial, workloadProviders.
  destruct (c_Workload c) as [id|]; [|done]. rewrite !Ha, !Ht. by repeat (case_match; rewrite ?Hc).
Qed.

(** No model disclosure.  A caller whose namespace the provider does not
    admit gets the same refusal for every model it asks for, whatever models
    the provider offers. *)
Theorem denied_namespace_learns_no_models s s' c name model model'
    (Hsame : same_but_models s s')
    (Hdenied : ∀ p, ProviderByName s name = Some p →
       namespaceGlobAllowed (c_Namespace c) (AllowedNamespaces (Spec p)) = false) :
  authorizeRoute s c name model = authorizeRoute s' c name model'.
Proof.
  unfold authorizeRoute. rewrite (workload_denial_models s s') by done.
  destruct (workload_denial s' c name); [done|].
  destruct Hsame as (_ & _ & _ & Hp). specialize (Hp name).
  destruct (ProviderByName s name) as [p|] eqn:E, (ProviderByName s' name) as [p'|]; try done.
  specialize (Hdenied p eq_refl). injection Hp as _ _ _ Hallowed _ _ _.
  rewrite <- Hallowed, Hdenied. done.
Qed.

Definition example_route_provider (models : list ModelProviderModel) : ModelProvider :=
  mk_provider "openai" "u1" (mk_provider_spec "openai" models ["team-b"; "prod-*"]
    (mk_budget "" "" [] None "" None) (mk_rate_limits 0 0) []).

Definition example_store (models : list ModelProviderModel) : Store :=
  mk_store (λ _ _, None) (λ _ _, None) (λ _, None) (λ _, Some (example_route_provider models)) (λ _, None).

Lemma denied_namespace_learns_no_models_witness :
  authorizeRoute (example_store []) (mk_caller "team-a" None) "openai" "gpt-4"
  = authorizeRoute (example_store [mk_model "gpt-5" "1" "1" None]) (mk_caller "team-a" None) "openai" "gpt-5".
Proof.
  apply (denied_namespace_learns_no_models (example_store []) (example_store [mk_model "gpt-5" "1" "1" None])
    (mk_caller "team-a" None) "openai" "gpt-4" "gpt-5").
  - split_and!; reflexivity.
  - intros p [= <-]. vm_compute. reflexivity.
Defined.

(** Qualified model names: a name splits into a provider and a model
    exactly when it is those two, both non-empty, joined by a '/', the
    provider without one; a model may contain further slashes. *)
Lemma splitQualifiedModel_exact q p m :
  splitQualifiedModel q = Some (p, m) ↔
  q = (p +:+ String "/" m) ∧ contains_char "/" p = false ∧ p ≠ "" ∧ m ≠ "".
Proof.
  unfold splitQualifiedModel. split.
  - destruct (Cut "/" q) as [[l r]|] eqn:E; [|done]. apply Cut_Some in E as [-> Hl].
    case_match eqn:Hz; [done|]. bool_to_prop. intros [= <- <-]. done.
  - intros (-> & Hp & Hpe & Hme). rewrite (proj2 (Cut_Some "/" _ p m)) by done.
    apply String.eqb_neq in Hpe as ->, Hme as ->. done.
Qed.
