(* ===== verification/Fallback.v ===== *)
(** The fallback walk of an LLM request: internal/gateway/fallback.go, and
    from proxy.go the attempt closure of handleLLMProxy and the outcome
    classification of forwardOnce and of vertex_token.go's vertexCredential.

    The walk is a function on explicit state: the [walkState] of the source,
    a world (the budget ledger, the informer store, the upstream providers)
    behind the class [WalkWorld], and the trace of what the walk did.  The
    recursion through the fallback tree is bounded by fuel; every call with
    more fuel than attempts left returns ([tryWithFallbacks_terminates]).
    The request translator is behind the class [Translator]. *)

From stdpp Require Import base gmap sets list strings option fin_maps.
From Stdlib Require Import ZArith Lia Ascii.
From S2P Require Import Prelude GoFloat GoTime GoPath Api BudgetWire BudgetLedger Auth Routing.

(** ** Failure classes *)

Inductive failClass :=
  | classNone | classConnect | classTimeout | classUpstream | classBudget
  | classNonFallle | classBudgetUnavailable.

#[global] Instance failClass_eq_dec : EqDecision failClass.
Proof. solve_decision. Defined.

Definition failClass_index (c : failClass) : nat :=
  match c with
  | classNone => 0 | classConnect => 1 | classTimeout => 2 | classUpstream => 3
  | classBudget => 4 | classNonFallle => 5 | classBudgetUnavailable => 6
  end.

Definition failClass_of_index (n : nat) : failClass :=
  match n with
  | 0 => classNone | 1 => classConnect | 2 => classTimeout | 3 => classUpstream
  | 4 => classBudget | 5 => classNonFallle | _ => classBudgetUnavailable
  end%nat.

#[global] Instance failClass_countable : Countable failClass.
Proof. refine (inj_countable' failClass_index failClass_of_index _). by intros []. Defined.

Definition failClassName (c : failClass) : string :=
  match c with
  | classConnect => "connect_error"
  | classTimeout => "timeout"
  | classBudget => "budget_blocked"
  | classBudgetUnavailable => "budget_unavailable"
  | classUpstream => "upstream_error"
  | _ => "other"
  end.

Definition isFallbackable (status : Z) : bool * failClass :=
  if ((200 <=? status) && (status <=? 299))%Z then (false, classNone)
  else if ((status =? 429) || ((500 <=? status) && (status <=? 599)))%Z then (true, classUpstream)
  else if ((status =? 401) || (status =? 403))%Z then (true, classUpstream)
  else if ((status =? 400) || (status =? 422))%Z then (false, classNonFallle)
  else if ((400 <=? status) && (status <=? 499))%Z then (false, classNonFallle)
  else (true, classUpstream).

(** ** Formats *)

(** [llmtranslate.Format]; "" is a format that cannot cross. *)
Definition Format : Type := string.
Definition FormatAnthropic : Format := "anthropic".
Definition FormatOpenAI : Format := "openai".

Definition formatForType (providerType : string) : Format :=
  let f := ProviderFormat providerType in
  if (f =? ProviderTypeAnthropic)%string then FormatAnthropic
  else if (f =? ProviderTypeOpenAI)%string then FormatOpenAI
  else "".

Definition canonicalPath (format : Format) : string :=
  if (format =? FormatAnthropic)%string then "/v1/messages" else "/v1/chat/completions".

Fixpoint max_output_of (models : list ModelProviderModel) (model : string) : Z :=
  match models with
  | [] => 0%Z
  | m :: rest =>
      match (if (ID m =? model)%string then MaxOutputTokens m else None) with
      | Some n => n
      | None => max_output_of rest model
      end
  end.

Definition maxOutputTokensOf (p : ModelProvider) (model : string) : Z := max_output_of (Models (Spec p)) model.

Definition crossingHoldFloor : Z := 2 ^ 20.
Definition crossingHoldBytesPerToken : Z := 16.

Definition crossingHoldLimit (maxTokens : Z) : Z :=
  if (Z.quot (max_int64 - crossingHoldFloor) crossingHoldBytesPerToken <? maxTokens)%Z then max_int64
  else (crossingHoldFloor + Z.max maxTokens 0 * crossingHoldBytesPerToken)%Z.

(** What the walk uses of the translator and of encoding/json: decoding a body
    to an object, translating an object between formats, and the output
    limit a body carries. *)
Class Translator := {
  object : Type;
  Unmarshal : string → option object;
  TranslateRequest : Format → Format → object → string → Z → object + string;
  MaxTokens : object → option Z;
}.

(** ** One attempt *)

Record response := mk_resp { StatusCode : Z; sse : bool }.

Record forwardResult := mk_result {
  resp : option response;
  fr_body : string;
  fallilable : bool;
  class : failClass;
  fr_err : bool;
  fr_provider : string;
  chosen : option ModelProvider;
  fr_model : string;
  fr_format : Format;
  holdLimit : Z;
  credentialRejected : bool;
  fr_settle : option settle_handle;
}.

Definition no_result : forwardResult :=
  mk_result None "" false classNone false "" None "" "" 0 false None.

Definition failed (c : failClass) : forwardResult :=
  mk_result None "" true c true "" None "" "" 0 false None.

Definition budget_refused (c : failClass) : forwardResult :=
  mk_result None "" false c false "" None "" "" 0 false None.

Definition set_settle (r : forwardResult) (h : option settle_handle) : forwardResult :=
  mk_result (resp r) (fr_body r) (fallilable r) (class r) (fr_err r) (fr_provider r) (chosen r)
    (fr_model r) (fr_format r) (holdLimit r) (credentialRejected r) h.

(** The access-token exchange of a google-vertex provider. *)
Inductive token_exchange := TokenMinted | TokenInvalidKey | TokenRejected | TokenFailed (deadline : bool).

(** Reading a non-2xx body to its limit: its bytes, and the error if the read
    failed, with whether the idle bound fired. *)
Record body_read := mk_read { read_bytes : string; read_error : option bool }.

(** What the outside answers to one forwarded request: whether the store gives
    the credential, the token exchange (for google-vertex), and the HTTP round
    trip. *)
Inductive round_trip :=
  | RequestInvalid
  | TransportFailed (timedOut : bool)
  | Answered (r : response) (body : body_read).

Record upstream := mk_upstream {
  up_credential : bool;
  up_exchange : token_exchange;
  up_trip : round_trip;
}.

(** The result of a failed exchange; [None] when a token was minted. *)
Definition vertexCredential (e : token_exchange) : option forwardResult :=
  match e with
  | TokenMinted => None
  | TokenInvalidKey => Some (failed classConnect)
  | TokenRejected => Some (mk_result None "" true classUpstream true "" None "" "" 0 true None)
  | TokenFailed deadline => Some (failed (if deadline then classTimeout else classConnect))
  end.

(** [left] is whether the caller has left when a body read fails. *)
Definition forwardOnce (left : bool) (p : ModelProvider) (u : upstream) : forwardResult :=
  if negb (up_credential u) then failed classConnect
  else
    match (if (Type_ (Spec p) =? ProviderTypeGoogleVertex)%string then vertexCredential (up_exchange u) else None) with
    | Some fr => fr
    | None =>
        match up_trip u with
        | RequestInvalid => failed classConnect
        | TransportFailed timedOut => failed (if timedOut then classTimeout else classConnect)
        | Answered r b =>
            let '(fallback, c) := isFallbackable (StatusCode r) in
            let fr body := mk_result (Some r) body fallback c false (Name p) (Some p) "" "" 0 false None in
            if bool_decide (c = classNone) then fr ""
            else match read_error b with
                 | None => fr (read_bytes b)
                 | Some idle => if left then fr (read_bytes b)
                                else failed (if idle then classTimeout else classConnect)
                 end
        end
    end.

(** ** Walk state *)

Section walk.
Context {TR : Translator}.

Record walkState := mk_walk_state {
  primary : ModelProvider;
  ws_namespace : string;
  ws_workload : string;
  modelID : string;
  attemptCount : Z;
  maxDepth : Z;
  visited : gset string;
  observed : gset failClass;
  maxRetryAfter : Z;
  budgetBlocked : bool;
  primarySettle : option settle_handle;
  ws_body : string;
  parsed : option object;
  parsedDone : bool;
  inboundFormat : Format;
  modelFor : gmap string string;
  translated : gmap string object;
}.

Definition visit (st : walkState) (name : string) : walkState :=
  mk_walk_state (primary st) (ws_namespace st) (ws_workload st) (modelID st) (attemptCount st) (maxDepth st)
    ({[name]} ∪ visited st) (observed st) (maxRetryAfter st) (budgetBlocked st) (primarySettle st)
    (ws_body st) (parsed st) (parsedDone st) (inboundFormat st) (modelFor st) (translated st).
Definition count_attempt (st : walkState) : walkState :=
  mk_walk_state (primary st) (ws_namespace st) (ws_workload st) (modelID st) (attemptCount st + 1)%Z (maxDepth st)
    (visited st) (observed st) (maxRetryAfter st) (budgetBlocked st) (primarySettle st)
    (ws_body st) (parsed st) (parsedDone st) (inboundFormat st) (modelFor st) (translated st).
Definition observe (st : walkState) (c : failClass) : walkState :=
  mk_walk_state (primary st) (ws_namespace st) (ws_workload st) (modelID st) (attemptCount st) (maxDepth st)
    (visited st) ({[c]} ∪ observed st) (maxRetryAfter st) (budgetBlocked st) (primarySettle st)
    (ws_body st) (parsed st) (parsedDone st) (inboundFormat st) (modelFor st) (translated st).
Definition set_retry (st : walkState) (retry : Z) (blocked : bool) : walkState :=
  mk_walk_state (primary st) (ws_namespace st) (ws_workload st) (modelID st) (attemptCount st) (maxDepth st)
    (visited st) (observed st) retry blocked (primarySettle st)
    (ws_body st) (parsed st) (parsedDone st) (inboundFormat st) (modelFor st) (translated st).
Definition set_parsed (st : walkState) (o : option object) : walkState :=
  mk_walk_state (primary st) (ws_namespace st) (ws_workload st) (modelID st) (attemptCount st) (maxDepth st)
    (visited st) (observed st) (maxRetryAfter st) (budgetBlocked st) (primarySettle st)
    (ws_body st) o true (inboundFormat st) (modelFor st) (translated st).
Definition set_model_for (st : walkState) (name model : string) : walkState :=
  mk_walk_state (primary st) (ws_namespace st) (ws_workload st) (modelID st) (attemptCount st) (maxDepth st)
    (visited st) (observed st) (maxRetryAfter st) (budgetBlocked st) (primarySettle st)
    (ws_body st) (parsed st) (parsedDone st) (inboundFormat st) (<[name := model]> (modelFor st)) (translated st).
Definition set_translated (st : walkState) (name : string) (o : object) : walkState :=
  mk_walk_state (primary st) (ws_namespace st) (ws_workload st) (modelID st) (attemptCount st) (maxDepth st)
    (visited st) (observed st) (maxRetryAfter st) (budgetBlocked st) (primarySettle st)
    (ws_body st) (parsed st) (parsedDone st) (inboundFormat st) (modelFor st) (<[name := o]> (translated st)).

(** Named [request] in the source: decodes the body on first use. *)
Definition request_object (st : walkState) : walkState * option object :=
  let st := if parsedDone st then st
            else set_parsed st (if (ws_body st =? "")%string then parsed st
                                else match Unmarshal (ws_body st) with Some o => Some o | None => parsed st end) in
  (st, parsed st).

Definition candidateModel (st : walkState) (p : ModelProvider) : string :=
  match modelFor st !! Name p with
  | Some m => if (m =? "")%string then modelID st else m
  | None => modelID st
  end.

Definition crosses (st : walkState) (p : ModelProvider) : bool :=
  let target := formatForType (Type_ (Spec p)) in
  negb (inboundFormat st =? "")%string && negb (target =? "")%string
  && negb (target =? inboundFormat st)%string.

(** The reason a candidate is skipped without an attempt, [None] when it is
    eligible; a crossing candidate's translated body is cached. *)
Definition staticallyIneligible (st : walkState) (p : ModelProvider) : walkState * option string :=
  let fallback := negb (Name p =? Name (primary st))%string in
  let ptype := Type_ (Spec p) in
  let primary_type := Type_ (Spec (primary st)) in
  if fallback && negb (FallbackFormatCompatible primary_type ptype) then
    (st, Some ("type " +:+ (Quote ptype +:+ (" cannot follow primary type " +:+ (Quote primary_type
          +:+ " (rule 12)")))))
  else if fallback && FallbackCrossesFormat primary_type ptype && (inboundFormat st =? "")%string then
    (st, Some ("the request's format cannot cross into type " +:+ Quote ptype))
  else if negb (namespaceGlobAllowed (ws_namespace st) (AllowedNamespaces (Spec p))) then
    (st, Some ("namespace " +:+ (Quote (ws_namespace st) +:+ " not in allowedNamespaces")))
  else
    let model := candidateModel st p in
    if negb (offers p model) then (st, Some ("model " +:+ (Quote model +:+ " not offered")))
    else if crosses st p then
      let '(st, req) := request_object st in
      match req, translated st !! Name p with
      | Some o, None =>
          match TranslateRequest (inboundFormat st) (formatForType ptype) o model (maxOutputTokensOf p model) with
          | inr err => (st, Some err)
          | inl body => (set_translated st (Name p) body, None)
          end
      | _, _ => (st, None)
      end
    else (st, None).

(** ** The world of a walk *)

Class WalkWorld (W : Type) := {
  admit_candidate : W → ModelProvider → string → string → W * (budgetDecision * option settle_handle);
  settle_handle_at : W → settle_handle → f64 → W;
  providerByName : W → string → option ModelProvider;
  forward : W → walkState → ModelProvider → W * upstream;
  caller_left : W → bool;
}.

(** What the walk does, in order. *)
Inductive walk_effect :=
  | Ineligible (related : option string) (note : string)
  | CredentialsInvalid (p note : string)
  | Boundary (p label : string)
  | Admission (p : string) (h : option settle_handle)
  | Attempted (p : string)
  | Settled (h : settle_handle).

Context {W : Type} {WW : WalkWorld W} (hasBudget : bool).

Record walk := mk_walk { w_st : walkState; w_world : W; w_trace : list walk_effect }.

Definition emit (w : walk) (es : list walk_effect) : walk := mk_walk (w_st w) (w_world w) (w_trace w ++ es).
Definition with_st (w : walk) (st : walkState) : walk := mk_walk st (w_world w) (w_trace w).
Definition with_world (w : walk) (x : W) : walk := mk_walk (w_st w) x (w_trace w).

Definition fallbackCandidate (primary candidate : ModelProvider) : option string :=
  if (Name candidate =? Name primary)%string then None else Some (Name candidate).

(** The closure handleLLMProxy passes to the walk. *)
Definition run_attempt (w : walk) (p : ModelProvider) : walk * forwardResult :=
  let st := w_st w in
  let '(x, u) := forward (w_world w) st p in
  let fr := forwardOnce (caller_left x) p u in
  let model := candidateModel st p in
  let limit := if crosses st p
               then crossingHoldLimit (default (maxOutputTokensOf p model) (translated st !! Name p ≫= MaxTokens))
               else holdLimit fr in
  let fr := mk_result (resp fr) (fr_body fr) (fallilable fr) (class fr) (fr_err fr) (fr_provider fr) (chosen fr)
              model (formatForType (Type_ (Spec p))) limit (credentialRejected fr) (fr_settle fr) in
  let w := emit (with_world w x) [Attempted (Name p)] in
  let w := if negb (caller_left x) && negb (bool_decide (class fr = classNone))
           then with_st w (observe (w_st w) (class fr)) else w in
  (w, fr).

(** The Warning on a provider whose credential failed. *)
Definition recordCredentialFailure (p : ModelProvider) (r : forwardResult) : list walk_effect :=
  if negb (bool_decide (class r = classUpstream)) then []
  else if credentialRejected r then
    [CredentialsInvalid (Name p) "the token endpoint rejected the service-account key; credential rotation may be needed"]
  else match resp r with
       | Some a => if ((StatusCode a =? 401) || (StatusCode a =? 403))%Z
                   then [CredentialsInvalid (Name p) ("upstream returned " +:+ (print_N (Z.to_N (StatusCode a))
                          +:+ "; credential rotation may be needed"))] else []
       | None => []
       end.

(** The outcome of a candidate's budget admission: refused with a class, or
    admitted with the slot its attempt holds. *)
Definition budget_step (w : walk) (p : ModelProvider) : walk * (failClass + option settle_handle) :=
  let st := w_st w in
  if negb hasBudget then (w, inr None)
  else if (Name p =? Name (primary st))%string then (w, inr (primarySettle st))
  else
    let '(x, (d, h)) := admit_candidate (w_world w) p (ws_namespace st) (ws_workload st) in
    let w := emit (with_world w x) [Admission (Name p) h] in
    let w := if MarginRaisedNow d then emit w [Boundary (Name p) "margin_raised"] else w in
    if Unavailable d then
      (with_st (emit w [Boundary (Name p) "fail_closed"]) (observe st classBudgetUnavailable),
       inl classBudgetUnavailable)
    else if Throttled d then
      let st := observe st classBudget in
      (with_st (emit w [Boundary (Name p) "throttled"])
         (if (maxRetryAfter st <? 1)%Z then set_retry st 1 (budgetBlocked st) else st), inl classBudget)
    else if (Action d =? BudgetActionBlock)%string then
      let st := observe st classBudget in
      (with_st w (set_retry st (if (maxRetryAfter st <? RetryAfter d)%Z then RetryAfter d else maxRetryAfter st) true),
       inl classBudget)
    else
      (match h with Some _ => emit w [Boundary (Name p) "engaged"] | None => w end, inr h).

(** A 2xx answer. *)
Definition succeeded (r : forwardResult) : bool :=
  bool_decide (class r = classNone) && negb (fr_err r)
  && match resp r with Some a => ((200 <=? StatusCode a) && (StatusCode a <=? 299))%Z | None => false end.

Definition walk_result : Type := option (walk * (forwardResult * bool)).

(** The loop of [walkChildren] over the fallback references. *)
Fixpoint walk_refs (try : ModelProvider → walk → walk_result) (parentModel : string)
    (refs : list FallbackReference) (w : walk) : walk_result :=
  match refs with
  | [] => Some (w, (no_result, false))
  | ref :: refs =>
      match providerByName (w_world w) (fb_Name ref) with
      | None =>
          walk_refs try parentModel refs
            (emit w [Ineligible None ("fallback " +:+ (Quote (fb_Name ref) +:+ " skipped: provider does not exist"))])
      | Some next =>
          let model := match ModelMap ref !! parentModel with
                       | Some mapped => if (mapped =? "")%string then parentModel else mapped
                       | None => parentModel
                       end in
          match try next (with_st w (set_model_for (w_st w) (Name next) model)) with
          | None => None
          | Some (w, (res, true)) => Some (w, (res, true))
          | Some (w, (_, false)) => walk_refs try parentModel refs w
          end
      end
  end.

Definition walkChildren (try : ModelProvider → walk → walk_result) (p : ModelProvider) (w : walk) : walk_result :=
  walk_refs try (candidateModel (w_st w) p) (Fallback (Spec p)) w.

(** What follows when the children did not answer: [fallthrough] is returned. *)
Definition or_children (children : walk_result) (fallthrough : forwardResult) : walk_result :=
  match children with
  | None => None
  | Some (w, (res, true)) => Some (w, (res, true))
  | Some (w, (_, false)) => Some (w, (fallthrough, false))
  end.

Fixpoint tryWithFallbacks (fuel : nat) (p : ModelProvider) (w : walk) : walk_result :=
  match fuel with
  | O => None
  | S fuel =>
      let st := w_st w in
      if decide (Name p ∈ visited st) then Some (w, (no_result, false))
      else
        let st := visit st (Name p) in
        let '(st, reason) := staticallyIneligible st p in
        let w := with_st w st in
        match reason with
        | Some reason =>
            Some (emit w [Ineligible (fallbackCandidate (primary st) p)
                            ("fallback " +:+ (Quote (Name p) +:+ (" skipped: " +:+ reason)))],
                  (no_result, false))
        | None =>
            if (maxDepth st <=? attemptCount st)%Z then Some (w, (no_result, false))
            else
              let w := with_st w (count_attempt st) in
              match budget_step w p with
              | (w, inl c) => or_children (walkChildren (tryWithFallbacks fuel) p w) (budget_refused c)
              | (w, inr h) =>
                  let '(w, res) := run_attempt w p in
                  let res := set_settle res h in
                  if caller_left (w_world w) then Some (w, (res, true))
                  else if succeeded res then Some (w, (res, true))
                  else if negb (fallilable res) then Some (w, (res, true))
                  else
                    let '(w, res) :=
                      match h with
                      | Some h => (emit (with_world w (settle_handle_at (w_world w) h f64_zero)) [Settled h],
                                   set_settle res None)
                      | None => (w, res)
                      end in
                    let w := emit w (recordCredentialFailure p res) in
                    or_children (walkChildren (tryWithFallbacks fuel) p w) res
              end
        end
  end.
End walk.

(** ** Exhaustion *)

Definition exhaustionError (observed : gset failClass) (maxRetryAfter : Z) (blocked : bool) (providerName : string)
  : Z * errorBody * Z :=
  let budgetOnly := negb (bool_decide (observed = ∅))
    && forallb (λ c, bool_decide (c = classBudget) || bool_decide (c = classBudgetUnavailable)) (elements observed) in
  if budgetOnly && bool_decide (classBudgetUnavailable ∈ observed) then
    (503%Z, mk_error errBudgetUnavailable
       "budget state could not be verified for the provider and all fallbacks; failing closed" providerName true, 1%Z)
  else if budgetOnly then
    (429%Z, mk_error errBudgetExhausted "the provider and all fallbacks are budget-blocked" providerName (negb blocked),
     maxRetryAfter)
  else if bool_decide (size observed = 1%nat) && bool_decide (classConnect ∈ observed) then
    (503%Z, mk_error errProviderUnavailable "all providers were unreachable" providerName false, 0%Z)
  else if bool_decide (size observed = 1%nat) && bool_decide (classTimeout ∈ observed) then
    (504%Z, mk_error errProviderTimeout "all provider attempts timed out" providerName false, 0%Z)
  else
    (502%Z, mk_error errProviderError "the provider and all fallbacks failed" providerName false, 0%Z).
