(* ===== verification/FallbackFacts.v ===== *)
(** Theorems on the fallback walk of Fallback.v: it returns, it attempts each
    provider at most once and at most [maxDepth] in all, it never holds a
    boundary slot while another provider is tried, and a walk that fails
    answers by what it observed. *)

From stdpp Require Import base gmap sets list strings option fin_maps.
From Stdlib Require Import ZArith Lia Ascii.
From S2P Require Import Prelude GoFloat GoTime GoPath Api BudgetWire BudgetLedger Auth Routing Fallback.

Section facts.
Context {TR : Translator} {W : Type} {WW : WalkWorld W} (hasBudget : bool).

(** The providers an effect list attempts, in order. *)
Definition attempts (l : list walk_effect) : list string :=
  omap (λ e, match e with Attempted p => Some p | _ => None end) l.

Lemma attempts_app l l' : attempts (l ++ l') = attempts l ++ attempts l'.
Proof. apply omap_app. Qed.

(** What never changes during a walk. *)
Definition walk_frame (st : walkState) :=
  (primary st, ws_namespace st, ws_workload st, maxDepth st, primarySettle st, inboundFormat st).

(** Progress of a walk: counters and sets grow, the trace is extended by
    attempts of providers visited meanwhile, each counted. *)
Record walk_rel (w w' : walk (W := W)) : Prop := mk_walk_rel {
  rel_frame : walk_frame (w_st w) = walk_frame (w_st w');
  rel_count : (attemptCount (w_st w) <= attemptCount (w_st w') <= Z.max (attemptCount (w_st w)) (maxDepth (w_st w)))%Z;
  rel_visited : visited (w_st w) ⊆ visited (w_st w');
  rel_observed : observed (w_st w) ⊆ observed (w_st w');
  rel_trace : ∃ l, w_trace w' = w_trace w ++ l ∧ NoDup (attempts l) ∧
    (∀ n, n ∈ attempts l → n ∉ visited (w_st w) ∧ n ∈ visited (w_st w')) ∧
    (Z.of_nat (length (attempts l)) <= attemptCount (w_st w') - attemptCount (w_st w))%Z;
}.

(** A step that attempts nothing and visits nothing. *)
Record quiet (w w' : walk (W := W)) : Prop := mk_quiet {
  quiet_frame : walk_frame (w_st w) = walk_frame (w_st w');
  quiet_count : attemptCount (w_st w) = attemptCount (w_st w');
  quiet_visited : visited (w_st w) = visited (w_st w');
  quiet_observed : observed (w_st w) ⊆ observed (w_st w');
  quiet_trace : ∃ l, w_trace w' = w_trace w ++ l ∧ attempts l = [];
}.

Lemma quiet_trans w1 w2 w3 : quiet w1 w2 → quiet w2 w3 → quiet w1 w3.
Proof.
  intros [] []. constructor; [congruence..|set_solver|].
  destruct quiet_trace0 as (l & E & Hl), quiet_trace1 as (l' & E' & Hl').
  exists (l ++ l'). by rewrite E', E, app_assoc, attempts_app, Hl, Hl'.
Qed.

#[global] Instance quiet_preorder : PreOrder quiet.
Proof.
  split; [|exact quiet_trans].
  intros w. constructor; [done..|]. exists []. by rewrite app_nil_r.
Qed.

Lemma frame_maxDepth st st' : walk_frame st = walk_frame st' → maxDepth st = maxDepth st'.
Proof. unfold walk_frame. by intros [= _ _ _ ? _ _]. Qed.

Lemma quiet_rel w w' : quiet w w' → walk_rel w w'.
Proof.
  intros []. constructor; [done|lia|set_solver|done|].
  destruct quiet_trace0 as (l & -> & Hl). exists l. rewrite Hl. split_and!; [done|constructor|set_solver|simpl; lia].
Qed.

Lemma walk_rel_trans w1 w2 w3 : walk_rel w1 w2 → walk_rel w2 w3 → walk_rel w1 w3.
Proof.
  intros [F1 C1 V1 O1 (l & T1 & D1 & N1 & L1)] [F2 C2 V2 O2 (l' & T2 & D2 & N2 & L2)].
  pose proof (frame_maxDepth _ _ F1). constructor; [congruence|lia|set_solver|set_solver|].
  exists (l ++ l'). rewrite attempts_app, T2, T1, app_assoc, length_app. split_and!; [done|..].
  - apply NoDup_app. split_and!; [done| |done]. intros n Hn Hn'. apply N1 in Hn as [_ Hn]. apply N2 in Hn' as [? _]. done.
  - intros n [Hn|Hn]%elem_of_app; [apply N1 in Hn; set_solver|apply N2 in Hn; set_solver].
  - lia.
Qed.

#[global] Instance walk_rel_preorder : PreOrder walk_rel.
Proof. split; [|exact walk_rel_trans]. intros w. by apply quiet_rel. Qed.

(** ** The primitive steps *)

Lemma emit_quiet w es : attempts es = [] → quiet w (emit w es).
Proof. intros H. constructor; [done..|]. by exists es. Qed.

Lemma with_world_quiet w x : quiet w (with_world w x).
Proof. constructor; [done..|]. exists []. by rewrite app_nil_r. Qed.

Lemma with_st_quiet w st :
  walk_frame (w_st w) = walk_frame st → attemptCount (w_st w) = attemptCount st →
  visited (w_st w) = visited st → observed (w_st w) ⊆ observed st → quiet w (with_st w st).
Proof. intros. constructor; [done..|]. exists []. by rewrite app_nil_r. Qed.

Lemma staticallyIneligible_frame st p st' r :
  staticallyIneligible st p = (st', r) →
  walk_frame st = walk_frame st' ∧ attemptCount st = attemptCount st' ∧ visited st = visited st' ∧ observed st = observed st'.
Proof.
  unfold staticallyIneligible, request_object. intros H.
  repeat (case_match; simplify_eq/=); done.
Qed.

Lemma staticallyIneligible_None st p st' :
  staticallyIneligible st p = (st', None) → namespaceGlobAllowed (ws_namespace st) (AllowedNamespaces (Spec p)) = true.
Proof.
  unfold staticallyIneligible. intros H. repeat (case_match; simplify_eq/=); by bool_to_prop.
Qed.

Lemma budget_step_quiet w p w' r : budget_step hasBudget w p = (w', r) → quiet w w'.
Proof.
  unfold budget_step. intros H.
  destruct hasBudget; [|by simplify_eq/=]. cbn [negb] in H.
  destruct (Name p =? _)%string; [by simplify_eq/=|].
  destruct (admit_candidate _ _ _ _) as [x [d h]].
  assert (Hw : quiet w (let w := emit (with_world w x) [Admission (Name p) h] in
    if MarginRaisedNow d then emit w [Boundary (Name p) "margin_raised"] else w)).
  { destruct (MarginRaisedNow d); constructor; simpl; try done; rewrite <- ?app_assoc; by eexists. }
  cbv zeta in Hw, H. destruct (MarginRaisedNow d).
  all: repeat case_match; simplify_eq; (etrans; [exact Hw|]).
  all: try reflexivity.
  all: constructor; simpl; try done; try set_solver.
  all: try (exists []; by rewrite app_nil_r). all: by eexists.
Qed.

Lemma run_attempt_trace w p w' r :
  run_attempt w p = (w', r) →
  walk_frame (w_st w) = walk_frame (w_st w') ∧ attemptCount (w_st w) = attemptCount (w_st w') ∧
  visited (w_st w) = visited (w_st w') ∧ observed (w_st w) ⊆ observed (w_st w') ∧
  w_trace w' = w_trace w ++ [Attempted (Name p)].
Proof.
  unfold run_attempt. intros H. destruct (forward _ _ _) as [x u]. case_match; simplify_eq/=; set_solver.
Qed.

(** Entering a candidate: visited, eligible and counted. *)
Record entered (w : walk (W := W)) (p : ModelProvider) (w1 : walk (W := W)) : Prop := mk_entered {
  ent_fresh : Name p ∉ visited (w_st w);
  ent_depth : (attemptCount (w_st w) < maxDepth (w_st w))%Z;
  ent_frame : walk_frame (w_st w) = walk_frame (w_st w1);
  ent_count : attemptCount (w_st w1) = (attemptCount (w_st w) + 1)%Z;
  ent_visited : visited (w_st w1) = {[Name p]} ∪ visited (w_st w);
  ent_observed : observed (w_st w1) = observed (w_st w);
  ent_trace : w_trace w1 = w_trace w;
  ent_world : w_world w1 = w_world w;
  ent_allowed : namespaceGlobAllowed (ws_namespace (w_st w)) (AllowedNamespaces (Spec p)) = true;
}.

Lemma entered_rel w p w1 : entered w p w1 → walk_rel w w1.
Proof.
  intros []. constructor; [done|lia|set_solver|set_solver|].
  exists []. rewrite ent_trace0, app_nil_r. split_and!; [done|constructor|set_solver|simpl; lia].
Qed.

Lemma attempted_rel w p w1 w2 w3 r :
  entered w p w1 → quiet w1 w2 → run_attempt w2 p = (w3, r) → walk_rel w w3.
Proof.
  intros [] [] (F & C & V & O & T)%run_attempt_trace. destruct quiet_trace0 as (l & Tl & Hl).
  constructor; [congruence|lia|set_solver|set_solver|].
  exists (l ++ [Attempted (Name p)]). rewrite T, Tl, ent_trace0, attempts_app, Hl, app_assoc.
  split_and!; [done|apply NoDup_singleton| |simpl; lia].
  intros n ->%list_elem_of_singleton. set_solver.
Qed.

(** The cases of one call. *)
Inductive node_case (fuel : nat) (p : ModelProvider) (w : walk (W := W)) : walk (W := W) → forwardResult → bool → Prop :=
  | node_skipped w' (Hrel : walk_rel w w') (Htr : ∃ l, w_trace w' = w_trace w ++ l ∧ Forall (λ e, ∃ o n, e = Ineligible o n) l)
      (Hobs : observed (w_st w') = observed (w_st w)) (Hworld : w_world w' = w_world w) :
      node_case fuel p w w' no_result false
  | node_refused w1 w2 c w' res ok (Hin : entered w p w1) (Hb : budget_step hasBudget w1 p = (w2, inl c))
      (Hc : or_children (walkChildren (tryWithFallbacks hasBudget fuel) p w2) (budget_refused c) = Some (w', (res, ok))) :
      node_case fuel p w w' res ok
  | node_answered w1 w2 h w3 res (Hin : entered w p w1) (Hb : budget_step hasBudget w1 p = (w2, inr h))
      (Ha : run_attempt w2 p = (w3, res))
      (Hend : caller_left (w_world w3) || succeeded res || negb (fallilable res) = true) :
      node_case fuel p w w3 (set_settle res h) true
  | node_failed w1 w2 h w3 r0 w' res ok (Hin : entered w p w1) (Hb : budget_step hasBudget w1 p = (w2, inr h))
      (Ha : run_attempt w2 p = (w3, r0)) (Hfall : fallilable r0 = true) (Hstay : caller_left (w_world w3) = false)
      (Hc : let w4 := match h with
                      | Some h => emit (with_world w3 (settle_handle_at (w_world w3) h f64_zero)) [Settled h]
                      | None => w3
                      end in
            or_children (walkChildren (tryWithFallbacks hasBudget fuel) p
              (emit w4 (recordCredentialFailure p (set_settle r0 None)))) (set_settle r0 None) = Some (w', (res, ok))) :
      node_case fuel p w w' res ok.

Lemma credential_settle p r h : recordCredentialFailure p (set_settle r h) = recordCredentialFailure p r.
Proof. done. Qed.

Lemma set_settle_twice r h h' : set_settle (set_settle r h) h' = set_settle r h'.
Proof. done. Qed.

Lemma try_cases fuel p w w' res ok :
  tryWithFallbacks hasBudget (S fuel) p w = Some (w', (res, ok)) → node_case fuel p w w' res ok.
Proof.
  cbn [tryWithFallbacks]. destruct (decide (Name p ∈ visited (w_st w))) as [Hv|Hv].
  { intros [= <- <- <-]. constructor; [reflexivity| |done|done]. exists []. by rewrite app_nil_r. }
  destruct (staticallyIneligible (visit (w_st w) (Name p)) p) as [st reason] eqn:Es.
  pose proof (staticallyIneligible_None (visit (w_st w) (Name p)) p st) as Hallowed. rewrite Es in Hallowed.
  apply staticallyIneligible_frame in Es as (F & C & V & O). simpl in F, C, V, O.
  change (walk_frame (w_st w) = walk_frame st) in F. pose proof (frame_maxDepth _ _ F) as Hd.
  destruct reason as [reason|].
  { intros [= <- <- <-]. constructor; simpl; [|eexists; split; [done|]; repeat constructor; eauto|done|done].
    constructor; simpl; [done|lia|set_solver|set_solver|].
    eexists; split; [done|]. split_and!; [constructor|set_solver|simpl; lia]. }
  destruct (Z.leb_spec (maxDepth st) (attemptCount st)) as [Hmax|Hmax].
  { intros [= <- <- <-]. constructor; simpl; [|exists []; by rewrite app_nil_r|done|done].
    constructor; simpl; [done|lia|set_solver|set_solver|].
    exists []. rewrite app_nil_r. split_and!; [done|constructor|set_solver|simpl; lia]. }
  assert (Hin : entered w p (with_st w (count_attempt st))).
  { constructor; simpl; [done|lia|done|lia|done|done|done|done|by apply Hallowed]. }
  destruct (budget_step hasBudget _ p) as [w2 [c|h]] eqn:Eb; [intros Hc; by eapply node_refused|].
  destruct (run_attempt w2 p) as [w3 r0] eqn:Ea.
  destruct (caller_left (w_world w3)) eqn:El.
  { intros [= <- <- <-]. eapply node_answered; eauto. by rewrite El. }
  destruct (succeeded (set_settle r0 h)) eqn:Esu.
  { intros [= <- <- <-]. eapply node_answered; eauto. change (succeeded r0 = true) in Esu. by rewrite El, Esu. }
  destruct (fallilable r0) eqn:Ef.
  2: { change (fallilable (set_settle r0 h)) with (fallilable r0). rewrite Ef. intros [= <- <- <-].
       eapply node_answered; eauto. by rewrite Ef, orb_true_r. }
  change (fallilable (set_settle r0 h)) with (fallilable r0). rewrite Ef. cbn [negb].
  intros Hc. eapply node_failed; eauto. by destruct h.
Qed.

Lemma walk_refs_rel try model refs w w' r :
  (∀ p w w' r, try p w = Some (w', r) → walk_rel w w') →
  walk_refs try model refs w = Some (w', r) → walk_rel w w'.
Proof.
  intros Htry. revert w; induction refs as [|ref refs IH]; intros w; cbn [walk_refs]; [by intros [= <- <-]|].
  destruct (providerByName _ _) as [next|].
  - destruct (try next _) as [[w1 [res []]]|] eqn:Et; [| |done].
    + intros [= <- <-]. apply Htry in Et. etrans; [|exact Et]. by apply quiet_rel, with_st_quiet.
    + intros Hr%IH. apply Htry in Et. etrans; [|exact Hr]. etrans; [|exact Et]. by apply quiet_rel, with_st_quiet.
  - intros Hr%IH. etrans; [|exact Hr]. by apply quiet_rel, emit_quiet.
Qed.

Lemma or_children_Some o f w r :
  or_children (W := W) o f = Some (w, r) → ∃ r', o = Some (w, r') ∧ r'.2 = r.2 ∧ (r.2 = true → r' = r) ∧ (r.2 = false → r.1 = f).
Proof.
  unfold or_children. intros H. destruct o as [[w1 [res []]]|]; simplify_eq/=; eexists; split_and!; done.
Qed.

Lemma credential_quiet w p r : quiet w (emit w (recordCredentialFailure p r)).
Proof. apply emit_quiet. unfold recordCredentialFailure. by repeat case_match. Qed.

Lemma try_rel fuel p w w' r : tryWithFallbacks hasBudget fuel p w = Some (w', r) → walk_rel w w'.
Proof.
  revert p w w' r; induction fuel as [|fuel IH]; intros p w w' [res ok]; [done|].
  intros [w1 Hrel|w1 w2 c w1' res1 ok1 Hin Hb Hc|w1 w2 h w3 res1 Hin Hb Ha Hend|w1 w2 h w3 r0 w1' res1 ok1 Hin Hb Ha Hf Hl Hc]%try_cases.
  - done.
  - apply or_children_Some in Hc as (r' & Hc & _). apply walk_refs_rel in Hc; [|exact IH].
    etrans; [by eapply entered_rel|]. etrans; [|exact Hc]. by eapply quiet_rel, budget_step_quiet.
  - eapply attempted_rel; eauto using budget_step_quiet.
  - cbv zeta in Hc. apply or_children_Some in Hc as (r' & Hc & _). apply walk_refs_rel in Hc; [|exact IH].
    etrans; [eapply attempted_rel; eauto using budget_step_quiet|]. etrans; [|exact Hc].
    apply quiet_rel. etrans; [|apply credential_quiet].
    destruct h; [|reflexivity]. etrans; [apply with_world_quiet|by apply emit_quiet].
Qed.

(** ** Fuel *)

Lemma walk_refs_mono try try' model refs w out :
  (∀ p w out, try p w = Some out → try' p w = Some out) →
  walk_refs (W := W) try model refs w = Some out → walk_refs try' model refs w = Some out.
Proof.
  intros Hmono. revert w; induction refs as [|ref refs IH]; intros w; cbn [walk_refs]; [done|].
  destruct (providerByName _ _) as [next|]; [|apply IH].
  destruct (try next _) as [[w1 [res []]]|] eqn:Et; [| |done]; rewrite (Hmono _ _ _ Et); [done|apply IH].
Qed.

Lemma or_children_mono o o' f (out : walk (W := W) * (forwardResult * bool)) :
  (∀ out, o = Some out → o' = Some out) → or_children o f = Some out → or_children o' f = Some out.
Proof. intros H. destruct o as [[w1 r]|]; [|done]. by rewrite (H _ eq_refl). Qed.

Lemma try_level_mono fuel fuel' p w out :
  (∀ p w out, tryWithFallbacks hasBudget fuel p w = Some out → tryWithFallbacks hasBudget fuel' p w = Some out) →
  tryWithFallbacks hasBudget (S fuel) p w = Some out → tryWithFallbacks hasBudget (S fuel') p w = Some out.
Proof.
  intros IH. cbn [tryWithFallbacks].
  repeat case_match; simplify_eq; try done.
  all: apply or_children_mono; intros out'; apply walk_refs_mono, IH.
Qed.

Lemma try_fuel_mono fuel fuel' p w out :
  fuel ≤ fuel' → tryWithFallbacks hasBudget fuel p w = Some out → tryWithFallbacks hasBudget fuel' p w = Some out.
Proof.
  revert fuel' p w out; induction fuel as [|fuel IH]; intros [|fuel'] p w out; try done; [lia|].
  intros Hle. apply try_level_mono. intros. eapply IH; [lia|done].
Qed.

(** The nesting of calls is bounded by the attempts left. *)
Definition attempts_left (w : walk (W := W)) : nat := Z.to_nat (maxDepth (w_st w) - attemptCount (w_st w)).

Lemma walk_rel_left w w' : walk_rel w w' → attempts_left w' ≤ attempts_left w.
Proof. intros [F C _ _ _]. apply frame_maxDepth in F. unfold attempts_left. lia. Qed.

Lemma walk_refs_total fuel model refs w :
  (∀ p w', attempts_left w' < fuel → is_Some (tryWithFallbacks hasBudget fuel p w')) →
  attempts_left w < fuel → is_Some (walk_refs (tryWithFallbacks hasBudget fuel) model refs w).
Proof.
  intros Htry. revert w; induction refs as [|ref refs IH]; intros w Hw; cbn [walk_refs]; [done|].
  destruct (providerByName _ _) as [next|]; [|by apply IH].
  destruct (Htry next (with_st w (set_model_for (w_st w) (Name next)
    match ModelMap ref !! model with Some m => if (m =? "")%string then model else m | None => model end)) Hw)
    as [[w1 [res ok]] Et]. rewrite Et. destruct ok; [done|].
  apply IH. apply try_rel, walk_rel_left in Et. unfold attempts_left in *. simpl in *. lia.
Qed.

Lemma or_children_total (o : walk_result (W := W)) f : is_Some o → is_Some (or_children o f).
Proof. intros [[w [r []]] ->]; done. Qed.

Lemma try_total fuel p w :
  attempts_left w < fuel → is_Some (tryWithFallbacks hasBudget fuel p w).
Proof.
  revert p w; induction fuel as [|fuel IH]; intros p w Hw; [lia|]. cbn [tryWithFallbacks].
  destruct (decide _) as [Hv|Hv]; [done|].
  destruct (staticallyIneligible _ p) as [st reason] eqn:Es.
  apply staticallyIneligible_frame in Es as (F & C & V & O). change (walk_frame (w_st w) = walk_frame st) in F.
  simpl in C. apply frame_maxDepth in F. destruct reason; [done|].
  destruct (Z.leb_spec (maxDepth st) (attemptCount st)) as [Hmax|Hmax]; [done|].
  assert (Hless : ∀ w2, quiet (with_st w (count_attempt st)) w2 → attempts_left w2 < fuel).
  { intros w2 [F2 C2 _ _ _]. apply frame_maxDepth in F2. unfold attempts_left in *. simpl in F2, C2. lia. }
  destruct (budget_step hasBudget _ p) as [w2 [c|h]] eqn:Eb; apply budget_step_quiet in Eb.
  { apply or_children_total, walk_refs_total; [done|by apply Hless]. }
  destruct (run_attempt w2 p) as [w3 r0] eqn:Ea. apply run_attempt_trace in Ea as (F3 & C3 & _).
  apply frame_maxDepth in F3. specialize (Hless w2 Eb).
  repeat case_match; simplify_eq; try done.
  all: apply or_children_total, walk_refs_total; [done|].
  all: unfold attempts_left in *; simpl in *; lia.
Qed.

(** ** Slots *)

(** The slot a trace leaves held, with the candidate that holds it.  The
    outer [None] marks a violation: a second slot taken while one is held, a
    provider attempted while another one's slot is held, or a settle of a
    slot that is not held. *)
Definition hold_step (s : option (option (string * settle_handle))) (e : walk_effect)
  : option (option (string * settle_handle)) :=
  match s with
  | None => None
  | Some cur =>
      match e with
      | Admission p (Some h) => match cur with None => Some (Some (p, h)) | Some _ => None end
      | Attempted p => match cur with
                       | Some (q, _) => if decide (p = q) then s else None
                       | None => s
                       end
      | Settled h => match cur with
                     | Some (_, h') => if decide (h = h') then Some None else None
                     | None => None
                     end
      | _ => s
      end
  end.

Definition held (l : list walk_effect) : option (option (string * settle_handle)) :=
  foldl hold_step (Some None) l.

Lemma held_app l l' : held (l ++ l') = foldl hold_step (held l) l'.
Proof. apply foldl_app. Qed.

(** A budget that refuses a candidate gives it no slot. *)
Definition refused (d : budgetDecision) : bool :=
  Unavailable d || Throttled d || (Action d =? BudgetActionBlock)%string.

Class WalkBudgetLaws := {
  refused_holds_no_slot : ∀ x p ns wl x' d h,
    admit_candidate x p ns wl = (x', (d, h)) → refused d = true → h = None;
}.

Context {WL : WalkBudgetLaws}.

Definition tag (p : string) (h : option settle_handle) : option (string * settle_handle) := (λ h, (p, h)) <$> h.

Lemma budget_step_held w p w' r :
  Name p ≠ Name (primary (w_st w)) → held (w_trace w) = Some None → budget_step hasBudget w p = (w', r) →
  held (w_trace w') = Some (match r with inl _ => None | inr h => tag (Name p) h end).
Proof.
  intros Hne%String.eqb_neq Hheld. unfold budget_step. destruct hasBudget; cbn [negb]; [|by intros [= <- <-]].
  rewrite Hne. destruct (admit_candidate _ _ _ _) as [x [d h]] eqn:Ea.
  pose proof (refused_holds_no_slot _ _ _ _ _ _ _ Ea) as Hlaw. unfold refused in Hlaw.
  cbv zeta. intros H.
  destruct (Unavailable d); [rewrite (Hlaw eq_refl) in *|destruct (Throttled d);
    [rewrite (Hlaw eq_refl) in *|destruct (Action d =? BudgetActionBlock)%string; [rewrite (Hlaw eq_refl) in *|]]].
  all: destruct (MarginRaisedNow d); simplify_eq/=; repeat case_match; simplify_eq/=.
  all: rewrite ?held_app, Hheld; done.
Qed.

Lemma credential_held l p r : foldl hold_step l (recordCredentialFailure p r) = l.
Proof. unfold recordCredentialFailure. destruct l; by repeat case_match. Qed.

Lemma ineligible_held l es : Forall (λ e, ∃ o n, e = Ineligible o n) es → foldl hold_step l es = l.
Proof. intros H. induction H as [|e es (o & n & ->) _ IH]; [done|]. simpl. by destruct l. Qed.

(** What a call leaves held: the slot of the answer it returns, or nothing. *)
Definition slot_post (w : walk (W := W)) (r : forwardResult * bool) : Prop :=
  if r.2 then ∃ q, held (w_trace w) = Some (tag q (fr_settle r.1)) else held (w_trace w) = Some None.

Lemma walk_refs_slots fuel model refs w w' r :
  (∀ p w w' r, Name (primary (w_st w)) ∈ visited (w_st w) → held (w_trace w) = Some None →
     tryWithFallbacks hasBudget fuel p w = Some (w', r) → slot_post w' r) →
  Name (primary (w_st w)) ∈ visited (w_st w) → held (w_trace w) = Some None →
  walk_refs (tryWithFallbacks hasBudget fuel) model refs w = Some (w', r) → slot_post w' r.
Proof.
  intros Htry. revert w; induction refs as [|ref refs IH]; intros w Hv Hh; cbn [walk_refs];
    [by intros [= <- <-]|].
  destruct (providerByName _ _) as [next|].
  - destruct (tryWithFallbacks _ _ next _) as [[w1 [res ok]]|] eqn:Et; [|done].
    assert (Hpost : slot_post w1 (res, ok)) by (eapply Htry; [| |exact Et]; done). destruct ok; [by intros [= <- <-]|].
    apply IH; [|done]. apply try_rel in Et as [F _ V _ _].
    unfold walk_frame in F. simpl in F. injection F as F1 _ _ _ _ _. simpl in V. rewrite <- F1. set_solver.
  - apply IH; [done|]. simpl. by rewrite held_app, Hh.
Qed.

Lemma or_children_slots fuel p w f w' r :
  (∀ p w w' r, Name (primary (w_st w)) ∈ visited (w_st w) → held (w_trace w) = Some None →
     tryWithFallbacks hasBudget fuel p w = Some (w', r) → slot_post w' r) →
  Name (primary (w_st w)) ∈ visited (w_st w) → held (w_trace w) = Some None →
  or_children (walkChildren (tryWithFallbacks hasBudget fuel) p w) f = Some (w', r) → slot_post w' r.
Proof.
  intros Htry Hv Hh (r' & Hc & Hok & Heq & _)%or_children_Some.
  pose proof (walk_refs_slots _ _ _ _ _ _ Htry Hv Hh Hc) as Hpost.
  unfold slot_post in *. destruct r as [res []]; simpl in *; [by rewrite (Heq eq_refl) in Hpost|]. by rewrite Hok in Hpost.
Qed.

(** The primary's slot was taken before the walk; any other candidate enters
    with nothing held. *)
Lemma try_slots_from fuel p w w' r h0 :
  (∀ p w w' r, Name (primary (w_st w)) ∈ visited (w_st w) → held (w_trace w) = Some None →
     tryWithFallbacks hasBudget fuel p w = Some (w', r) → slot_post w' r) →
  (Name (primary (w_st w)) ∈ visited (w_st w) ∨ Name p = Name (primary (w_st w))) →
  held (w_trace w) = Some (tag (Name p) h0) →
  (∀ w1 w2 r2, entered w p w1 → budget_step hasBudget w1 p = (w2, r2) →
     held (w_trace w2) = Some (match r2 with inl _ => None | inr h => tag (Name p) h end)) →
  tryWithFallbacks hasBudget (S fuel) p w = Some (w', r) →
  slot_post w' r ∨ (r = (no_result, false) ∧ ∃ es, w_trace w' = w_trace w ++ es ∧ Forall (λ e, ∃ o n, e = Ineligible o n) es).
Proof.
  intros IH Hprim Hheld Hbudget. destruct r as [res ok].
  assert (Hvis : ∀ w1 w2, entered w p w1 → quiet w1 w2 → Name (primary (w_st w2)) ∈ visited (w_st w2)).
  { intros w1 w2 [] []. rewrite <- quiet_visited0, ent_visited0.
    unfold walk_frame in ent_frame0, quiet_frame0.
    injection quiet_frame0 as <- _ _ _ _ _. injection ent_frame0 as <- _ _ _ _ _.
    destruct Hprim as [?| ->]; set_solver. }
  intros [w1 Hrel Htr Hobs|w1 w2 c w1' res1 ok1 Hin Hb Hc|w1 w2 h w3 res1 Hin Hb Ha Hend|w1 w2 h w3 r0 w1' res1 ok1 Hin Hb Ha Hf Hl Hc]%try_cases.
  - right. eauto.
  - left. eapply or_children_slots; [exact IH|by eauto using budget_step_quiet|exact (Hbudget _ _ _ Hin Hb)|exact Hc].
  - left. pose proof (Hbudget _ _ _ Hin Hb) as Hh. apply run_attempt_trace in Ha as (_ & _ & _ & _ & T).
    exists (Name p). simpl. rewrite T, held_app, Hh. destruct h; simpl; [by rewrite decide_True|done].
  - left. pose proof (Hbudget _ _ _ Hin Hb) as Hh.
    assert (Hq : Name (primary (w_st w3)) ∈ visited (w_st w3)).
    { pose proof (Hvis _ _ Hin (budget_step_quiet _ _ _ _ Hb)) as Hq.
      apply run_attempt_trace in Ha as (F & _ & <- & _). unfold walk_frame in F. by injection F as <- _ _ _ _ _. }
    apply run_attempt_trace in Ha as (_ & _ & _ & _ & T).
    cbv zeta in Hc. eapply or_children_slots; [exact IH| |..|exact Hc].
    + by destruct h.
    + simpl. rewrite held_app, credential_held.
      destruct h; simpl; rewrite T, ?held_app, Hh; simpl; repeat (rewrite decide_True by done; simpl); done.
Qed.

Lemma child_slots fuel p w w' r :
  Name (primary (w_st w)) ∈ visited (w_st w) → held (w_trace w) = Some None →
  tryWithFallbacks hasBudget fuel p w = Some (w', r) → slot_post w' r.
Proof.
  revert p w w' r; induction fuel as [|fuel IH]; intros p w w' r Hv Hh Htry; [done|].
  destruct (try_slots_from fuel p w w' r None) as [Hpost|(-> & es & T & Hes)]; eauto.
  - intros w1 w2 r2 Hin Hb. apply (budget_step_held w1 p w2 r2); [|by rewrite (ent_trace _ _ _ Hin)|done].
    intros E. apply (ent_fresh _ _ _ Hin). pose proof (ent_frame _ _ _ Hin) as F.
    unfold walk_frame in F. injection F as F _ _ _ _ _. by rewrite E, <- F.
  - unfold slot_post. simpl. by rewrite T, held_app, ineligible_held.
Qed.

Lemma root_slots fuel p w w' res ok
    (Hbudget : hasBudget = true)
    (Hprimary : primary (w_st w) = p)
    (Htrace : w_trace w = [Admission (Name p) (primarySettle (w_st w))])
    (Hwalk : tryWithFallbacks hasBudget fuel p w = Some (w', (res, ok))) :
  if ok then ∃ q, held (w_trace w') = Some (tag q (fr_settle res))
  else held (w_trace w') = Some None ∨
       (held (w_trace w') = Some (tag (Name p) (primarySettle (w_st w))) ∧ attempts (w_trace w') = []).
Proof.
  destruct fuel as [|fuel]; [done|].
  assert (Hheld : held (w_trace w) = Some (tag (Name p) (primarySettle (w_st w))))
    by (rewrite Htrace; by destruct (primarySettle (w_st w))).
  destruct (try_slots_from fuel p w w' (res, ok) (primarySettle (w_st w))) as [Hpost|(E & es & T & Hes)].
  - intros ????. apply child_slots.
  - right. by rewrite Hprimary.
  - done.
  - intros w1 w2 r2 [] Hb. unfold budget_step in Hb. rewrite Hbudget in Hb. cbn [negb] in Hb.
    unfold walk_frame in ent_frame0. injection ent_frame0 as E1 _ _ _ E2 _.
    rewrite <- E1, Hprimary, String.eqb_refl in Hb. simplify_eq. by rewrite ent_trace0, Hheld, E2.
  - done.
  - unfold slot_post in Hpost. destruct ok; simpl in *; eauto.
  - simplify_eq. right. rewrite T. split; [by rewrite held_app, ineligible_held|].
    rewrite attempts_app, Htrace. simpl. clear -Hes. induction Hes as [|e es (o & n & ->) _ IH]; [done|exact IH].
Qed.

(** ** What a failed walk observed *)

Definition upstream_classes : gset failClass := {[classConnect; classTimeout; classUpstream]}.
Definition budget_classes : gset failClass := {[classBudget; classBudgetUnavailable]}.

(** A stretch of a failing walk: without an attempt it observes only budget
    outcomes, with one it has observed an upstream failure. *)
Record failed_rel (w w' : walk (W := W)) : Prop := mk_failed_rel {
  fail_mono : observed (w_st w) ⊆ observed (w_st w');
  fail_trace : ∃ l, w_trace w' = w_trace w ++ l ∧
    (attempts l = [] → observed (w_st w') ⊆ observed (w_st w) ∪ budget_classes) ∧
    (attempts l ≠ [] → ∃ c, c ∈ observed (w_st w') ∧ c ∈ upstream_classes);
}.

Lemma failed_trans w1 w2 w3 : failed_rel w1 w2 → failed_rel w2 w3 → failed_rel w1 w3.
Proof.
  intros [M1 (l & T1 & B1 & U1)] [M2 (l' & T2 & B2 & U2)]. constructor; [set_solver|].
  exists (l ++ l'). rewrite attempts_app, T2, T1, app_assoc. split_and!; [done|..].
  - intros [H1 H2]%app_nil. specialize (B1 H1). specialize (B2 H2). set_solver.
  - intros Hne. destruct (attempts l') eqn:E; [|by apply U2].
    rewrite app_nil_r in Hne. destruct (U1 Hne) as (c & Hc & ?). exists c. set_solver.
Qed.

#[global] Instance failed_preorder : PreOrder failed_rel.
Proof. split; [|exact failed_trans]. intros w. constructor; [done|]. exists []. rewrite app_nil_r. set_solver. Qed.

(** A step that observes nothing and attempts nothing. *)
Lemma unobserved_failed w w' l :
  observed (w_st w') = observed (w_st w) → w_trace w' = w_trace w ++ l → attempts l = [] → failed_rel w w'.
Proof. intros O T A. constructor; [by rewrite O|]. exists l. rewrite O, A. set_solver. Qed.

Lemma budget_step_failed w p w' r : budget_step hasBudget w p = (w', r) → failed_rel w w'.
Proof.
  intros H. pose proof (budget_step_quiet _ _ _ _ H) as [_ _ _ Hm (l & T & A)].
  constructor; [done|]. exists l. rewrite A. split_and!; [done| |done]. intros _.
  unfold budget_step in H. repeat (case_match; simplify_eq/=); unfold budget_classes; set_solver.
Qed.

Lemma forwardOnce_fallilable left p u :
  fallilable (forwardOnce left p u) = true → class (forwardOnce left p u) ∈ upstream_classes.
Proof.
  unfold forwardOnce, vertexCredential, isFallbackable, upstream_classes.
  repeat (case_match; simplify_eq/=); set_solver.
Qed.

Lemma run_attempt_failed w p w' r :
  run_attempt w p = (w', r) → fallilable r = true → caller_left (w_world w') = false → failed_rel w w'.
Proof.
  intros H Hf Hl. pose proof (run_attempt_trace _ _ _ _ H) as (_ & _ & _ & M & T).
  constructor; [done|]. eexists; split; [exact T|]. split; [done|]. intros _.
  unfold run_attempt in H. destruct (forward _ _ _) as [x u].
  pose proof (forwardOnce_fallilable (caller_left x) p u) as Hc.
  destruct (negb (caller_left x) && _) eqn:E; simplify_eq/=.
  - exists (class (forwardOnce (caller_left x) p u)). split; [set_solver|by apply Hc].
  - exfalso. specialize (Hc Hf). rewrite Hl in E. cbn [negb andb] in E. bool_to_prop.
    rewrite Hl in Hc. unfold upstream_classes in Hc. rewrite E in Hc. set_solver.
Qed.

Lemma credential_attempts p r : attempts (recordCredentialFailure p r) = [].
Proof. unfold recordCredentialFailure. by repeat case_match. Qed.

Lemma walk_refs_failed try model refs w w' res :
  (∀ p w w' res, try p w = Some (w', (res, false)) → failed_rel w w') →
  walk_refs try model refs w = Some (w', (res, false)) → failed_rel w w'.
Proof.
  intros Htry. revert w; induction refs as [|ref refs IH]; intros w; cbn [walk_refs]; [by intros [= <- _]|].
  destruct (providerByName _ _) as [next|].
  - destruct (try next _) as [[w1 [res1 []]]|] eqn:Et; [done| |done].
    intros Hr%IH. apply Htry in Et. etrans; [|exact Hr]. etrans; [|exact Et].
    apply (unobserved_failed _ _ []); [done|by rewrite app_nil_r|done].
  - intros Hr%IH. etrans; [|exact Hr]. by eapply unobserved_failed.
Qed.

Lemma entered_failed w p w1 : entered w p w1 → failed_rel w w1.
Proof. intros []. apply (unobserved_failed _ _ []); [done|by rewrite app_nil_r|done]. Qed.

Lemma try_failed fuel p w w' res :
  tryWithFallbacks hasBudget fuel p w = Some (w', (res, false)) → failed_rel w w'.
Proof.
  revert p w w' res; induction fuel as [|fuel IH]; intros p w w' res; [done|].
  intros H%try_cases. inversion H as [w1 Hrel (l & T & Hl) Hobs|w1 w2 c w1' res1 ok1 Hin Hb Hc| |w1 w2 h w3 r0 w1' res1 ok1 Hin Hb Ha Hf Hl Hc];
    subst.
  - eapply unobserved_failed; [done|exact T|]. clear -Hl. induction Hl as [|e es (o & n & ->) _ IHl]; [done|exact IHl].
  - apply or_children_Some in Hc as ([res2 ok2] & Hc & Hok & _). simpl in Hok. subst ok2.
    apply walk_refs_failed in Hc; [|exact IH]. etrans; [by eapply entered_failed|].
    etrans; [by eapply budget_step_failed|done].
  - cbv zeta in Hc. apply or_children_Some in Hc as ([res2 ok2] & Hc & Hok & _). simpl in Hok. subst ok2.
    apply walk_refs_failed in Hc; [|exact IH]. etrans; [by eapply entered_failed|].
    etrans; [by eapply budget_step_failed|]. etrans; [by eapply run_attempt_failed|]. etrans; [|exact Hc].
    destruct h; (eapply unobserved_failed; [done|simpl; rewrite <- ?app_assoc; reflexivity|]);
      by rewrite ?attempts_app, credential_attempts.
Qed.

Lemma budget_only_spec (o : gset failClass) :
  negb (bool_decide (o = ∅)) && forallb (λ c, bool_decide (c = classBudget) || bool_decide (c = classBudgetUnavailable)) (elements o) = true
  ↔ o ≠ ∅ ∧ o ⊆ budget_classes.
Proof.
  rewrite andb_true_iff, negb_true_iff, bool_decide_eq_false, forallb_forall. apply and_iff_compat_l.
  unfold budget_classes. split.
  - intros H c Hc. specialize (H c). rewrite <- list_elem_of_In, elem_of_elements, orb_true_iff, !bool_decide_eq_true in H. set_solver.
  - intros H c Hc%list_elem_of_In%elem_of_elements. rewrite orb_true_iff, !bool_decide_eq_true. set_solver.
Qed.

(** ** Properties *)

(** Termination.  From every state the walk returns, and every fuel above
    the number of attempts left gives the same outcome: cycles in the
    fallback graph, missing providers and the answers of the outside do not
    make it loop. *)
Theorem tryWithFallbacks_terminates p w :
  ∃ out, ∀ fuel, (Z.to_nat (maxDepth (w_st w) - attemptCount (w_st w)) < fuel)%nat →
    tryWithFallbacks hasBudget fuel p w = Some out.
Proof.
  destruct (try_total (S (attempts_left w)) p w (Nat.lt_succ_diag_r _)) as [out Hout].
  exists out. intros fuel Hfuel. eapply try_fuel_mono; [|exact Hout]. exact Hfuel.
Qed.

(** Bounded attempts.  Whatever the outcome, the providers a walk
    attempted are pairwise different, were not visited before, and are at
    most the attempts its depth allowed. *)
Theorem walk_attempts_bounded fuel p w w' r
    (Hwalk : tryWithFallbacks hasBudget fuel p w = Some (w', r)) :
  ∃ l, w_trace w' = w_trace w ++ l ∧ NoDup (attempts l) ∧
    (∀ n, n ∈ attempts l → n ∉ visited (w_st w)) ∧
    (Z.of_nat (length (attempts l)) <= Z.max 0 (maxDepth (w_st w) - attemptCount (w_st w)))%Z.
Proof.
  apply try_rel in Hwalk as [F C V O (l & T & D & N & L)].
  exists l. split_and!; [done|done|naive_solver|lia].
Qed.

(** Slots.  The primary enters the walk holding the slot of its pre-flight
    admission.  At every point of the walk at most one slot is held, and only
    by the candidate being attempted: a failed candidate's slot is settled
    before any other candidate is admitted or attempted.  An answer comes
    back with exactly its own slot held; a failed walk holds none, unless it
    attempted nothing at all. *)
Theorem walk_holds_one_slot fuel p w w' res ok
    (Hbudget : hasBudget = true)
    (Hprimary : primary (w_st w) = p)
    (Htrace : w_trace w = [Admission (Name p) (primarySettle (w_st w))])
    (Hwalk : tryWithFallbacks hasBudget fuel p w = Some (w', (res, ok))) :
  if ok then ∃ q, held (w_trace w') = Some (tag q (fr_settle res))
  else held (w_trace w') = Some None ∨
       (held (w_trace w') = Some (tag (Name p) (primarySettle (w_st w))) ∧ attempts (w_trace w') = []).
Proof. by eapply root_slots. Qed.

(** The terminal error.  A walk that fails after attempting a provider is
    answered as a provider failure, never as a budget error; a walk that
    fails on budget outcomes alone is answered as a budget error, never as a
    provider failure, and a fail-closed candidate makes it a retryable 503. *)
Theorem failed_walk_error fuel p w w' res name
    (Hobserved : observed (w_st w) = ∅)
    (Htrace : attempts (w_trace w) = [])
    (Hwalk : tryWithFallbacks hasBudget fuel p w = Some (w', (res, false))) :
  let o := observed (w_st w') in
  let '(code, body, retry) := exhaustionError o (maxRetryAfter (w_st w')) (budgetBlocked (w_st w')) name in
  (attempts (w_trace w') ≠ [] →
     err_Type body ∈ [errProviderUnavailable; errProviderTimeout; errProviderError] ∧ code ∈ [502; 503; 504]%Z) ∧
  (attempts (w_trace w') = [] → o ≠ ∅ →
     if bool_decide (classBudgetUnavailable ∈ o)
     then code = 503%Z ∧ err_Type body = errBudgetUnavailable ∧ Retryable body = true ∧ retry = 1%Z
     else code = 429%Z ∧ err_Type body = errBudgetExhausted ∧ Retryable body = negb (budgetBlocked (w_st w')) ∧
          retry = maxRetryAfter (w_st w')).
Proof.
  cbv zeta. apply try_failed in Hwalk as [M (l & T & B & U)].
  assert (Hatt : attempts (w_trace w') = attempts l) by (rewrite T, attempts_app, Htrace; done).
  rewrite Hatt. unfold exhaustionError. cbv zeta.
  destruct (negb _ && forallb _ _) eqn:Eb.
  - apply budget_only_spec in Eb as [Hne Hsub]. cbn [andb].
    assert (Hno : attempts l ≠ [] → False).
    { intros (c & Hc & Hup)%U. specialize (Hsub c Hc). unfold budget_classes, upstream_classes in *. set_solver. }
    destruct (bool_decide (classBudgetUnavailable ∈ _)); naive_solver.
  - assert (Hno : attempts l = [] → observed (w_st w') ≠ ∅ → False).
    { intros Hnil Hne. apply not_true_iff_false in Eb. apply Eb, budget_only_spec. split; [done|].
      specialize (B Hnil). rewrite Hobserved, (left_id_L ∅ (∪)) in B. exact B. }
    cbn [andb]. repeat (case_match; simplify_eq/=); (split; [intros _; set_solver|naive_solver]).
Qed.
End facts.

(** ** The gateway's world

    The ledger of BudgetLedger.v, the store of Routing.v, a clock, and a
    script of what the outside does in each forwarded request: how long it
    takes, what it answers and whether the caller has left by then. *)
Record gatewayWorld := mk_gateway {
  gw_ledger : BudgetLedger;
  gw_clock : Time;
  gw_store : Store;
  gw_script : list (Duration * upstream * bool);
  gw_left : bool;
}.

Section gateway.
Context {MR : MapRange} {TR : Translator}.

Definition gateway_admit (g : gatewayWorld) (p : ModelProvider) (ns workload : string)
  : gatewayWorld * (budgetDecision * option settle_handle) :=
  let '(b, r) := Admit (gw_ledger g) (gw_clock g) p ns workload in
  (mk_gateway b (gw_clock g) (gw_store g) (gw_script g) (gw_left g), r).

Definition gateway_settle (g : gatewayWorld) (h : settle_handle) (cost : f64) : gatewayWorld :=
  mk_gateway (settle (gw_ledger g) (gw_clock g) h cost) (gw_clock g) (gw_store g) (gw_script g) (gw_left g).

Definition gateway_forward (g : gatewayWorld) (st : walkState) (p : ModelProvider) : gatewayWorld * upstream :=
  match gw_script g with
  | [] => (g, mk_upstream false TokenMinted RequestInvalid)
  | (d, u, gone) :: rest =>
      (mk_gateway (gw_ledger g) (gw_clock g + d)%Z (gw_store g) rest (gw_left g || gone), u)
  end.

#[global] Instance gateway_world : WalkWorld gatewayWorld := {|
  admit_candidate := gateway_admit;
  settle_handle_at := gateway_settle;
  providerByName g n := ProviderByName (gw_store g) n;
  forward := gateway_forward;
  caller_left := gw_left;
|}.

Lemma decide_budget_admits budget now u :
  Throttled (decide_budget budget now u) = false ∧ Unavailable (decide_budget budget now u) = false.
Proof. unfold decide_budget. by destruct (BudgetPolicyAt _ _). Qed.

(** The ledger keeps the promise the walk relies on: [Admit] never returns a
    settle handle with a refusal. *)
Lemma Admit_refused_no_handle b now p ns workload b' d h :
  Admit b now p ns workload = (b', (d, h)) → refused d = true → h = None.
Proof.
  unfold Admit, refused. intros H Href.
  destruct (negb (enforces p now)); [by simplify_eq|].
  destruct (ledgerFor _ _ _ _ _) as [b1 r].
  set (u := utilizationLocked _ _ _) in H. set (d0 := decide_budget _ _ _) in H.
  assert (Hd : Throttled d0 = false ∧ Unavailable d0 = false) by apply decide_budget_admits.
  destruct (negb (hardActive p) || (Action d0 =? BudgetActionBlock)%string) eqn:E; [by simplify_eq|].
  apply orb_false_iff in E as [_ Eblock]. destruct Hd as [Ht Hu].
  repeat (case_match; [by simplify_eq|]). simplify_eq. exfalso.
  unfold set_engaged in Href. cbn [Unavailable Throttled Action] in Href. by rewrite Ht, Hu, Eblock in Href.
Qed.

#[global] Instance gateway_laws : WalkBudgetLaws (W := gatewayWorld).
Proof.
  constructor. intros x p ns wl x' d h. simpl. unfold gateway_admit.
  destruct (Admit _ _ _ _ _) as [b [d0 h0]] eqn:E. intros [= _ <- <-]. by eapply Admit_refused_no_handle.
Qed.
End gateway.

(** ** A concrete walk: the primary answers 500 and lists itself among its
    fallbacks' fallbacks; the second provider answers 200. *)
#[local] Instance no_translator : Translator :=
  {| object := unit; Unmarshal _ := None; TranslateRequest _ _ _ _ _ := inr "untranslatable"; MaxTokens _ := None |}.
#[local] Instance example_order : MapRange := list_order.

Definition example_candidate (name : string) (fallbacks : list string) : ModelProvider :=
  mk_provider name name (mk_provider_spec "openai" [mk_model "m" "1" "1" None] ["*"]
    (mk_budget "" "" [] None "" None) (mk_rate_limits 0 0) (map (λ n, mk_fallback_ref n ∅) fallbacks)).

Definition example_providers (name : string) : option ModelProvider :=
  if (name =? "a")%string then Some (example_candidate "a" ["b"])
  else if (name =? "b")%string then Some (example_candidate "b" ["a"]) else None.

Definition answers (code : Z) : Duration * upstream * bool :=
  (Second, mk_upstream true TokenMinted (Answered (mk_resp code false) (mk_read "" None)), false).

Definition example_slot : settle_handle := mk_handle "a" "a" "monthly" "2026-01" "ns" "agent/x" ["ns"] 1.

Definition example_walk (codes : list Z) : walk (W := gatewayWorld) :=
  mk_walk (mk_walk_state (example_candidate "a" ["b"]) "ns" "agent/x" "m" 0 3 ∅ ∅ 0 false (Some example_slot)
             "" None false FormatOpenAI ∅ ∅)
    (mk_gateway NewBudgetLedger (1000 * Second)%Z
       (mk_store (λ _ _, None) (λ _ _, None) (λ _, None) example_providers (λ _, None)) (map answers codes) false)
    [Admission "a" (Some example_slot)].

Definition example_out (codes : list Z) : walk (W := gatewayWorld) * (forwardResult * bool) :=
  default (example_walk [], (no_result, false))
    (tryWithFallbacks true 4 (example_candidate "a" ["b"]) (example_walk codes)).

Lemma example_runs codes b :
  (example_out codes).2.2 = b →
  tryWithFallbacks true 4 (example_candidate "a" ["b"]) (example_walk codes)
  = Some ((example_out codes).1, ((example_out codes).2.1, b)).
Proof.
  intros <-. unfold example_out.
  destruct (try_total true 4 (example_candidate "a" ["b"]) (example_walk codes)) as [[w [r ok]] ->];
    [unfold attempts_left; simpl; lia|done].
Qed.

Lemma walk_attempts_bounded_witness :
  ∃ l, w_trace (example_out [500; 500]%Z).1 = w_trace (example_walk [500; 500]%Z) ++ l ∧ NoDup (attempts l).
Proof.
  destruct (walk_attempts_bounded true 4 (example_candidate "a" ["b"]) (example_walk [500; 500]%Z)
    (example_out [500; 500]%Z).1 _ (example_runs [500; 500]%Z false ltac:(vm_compute; reflexivity)))
    as (l & T & D & _).
  exists l. exact (conj T D).
Defined.

Lemma walk_holds_one_slot_witness :
  ∃ q, held (w_trace (example_out [500; 200]%Z).1) = Some (tag q (fr_settle (example_out [500; 200]%Z).2.1)).
Proof.
  assert (H := walk_holds_one_slot true 4 (example_candidate "a" ["b"]) (example_walk [500; 200]%Z)
    (example_out [500; 200]%Z).1 (example_out [500; 200]%Z).2.1 true eq_refl eq_refl eq_refl
    (example_runs [500; 200]%Z true ltac:(vm_compute; reflexivity))).
  cbv beta iota in H. exact H.
Defined.

Lemma failed_walk_error_witness :
  let w' := (example_out [500; 503]%Z).1 in
  let '(code, body, retry) :=
    exhaustionError (observed (w_st w')) (maxRetryAfter (w_st w')) (budgetBlocked (w_st w')) "a" in
  err_Type body ∈ [errProviderUnavailable; errProviderTimeout; errProviderError].
Proof.
  assert (H := failed_walk_error true 4 (example_candidate "a" ["b"]) (example_walk [500; 503]%Z)
    (example_out [500; 503]%Z).1 (example_out [500; 503]%Z).2.1 "a" eq_refl eq_refl
    (example_runs [500; 503]%Z false ltac:(vm_compute; reflexivity))).
  cbv zeta in H |- *. destruct (exhaustionError _ _ _ _) as [[code body] retry].
  destruct H as [H _]. apply H. apply (bool_decide_unpack _). vm_compute. exact I.
Defined.
