(* ===== verification/Translate.v ===== *)
(** Requests between the Anthropic messages format and the OpenAI chat
    completions format: internal/llmtranslate/translate.go.

    A body is the map json.Unmarshal decodes it to.  A failure is its error
    text. *)

From stdpp Require Import base list strings option gmap.
From Stdlib Require Import ZArith Lia Ascii.
From S2P Require Import Prelude GoFloat Json JsonString JsonValue Api BudgetLedger Auth Routing Fallback.

Notation body := (gmap string any).

Definition Untranslatable (feature : string) : string := "request uses " +:+ feature.

(** [map[string]any{...}]. *)
Definition obj (kvs : list (string * any)) : any := VObj (list_to_map kvs).

(** [unicode.IsSpace], and [strings.TrimSpace(s) == ""]. *)
Definition unicode_space (r : Z) : bool :=
  ((9 <=? r) && (r <=? 13) || (r =? 32) || (r =? 133) || (r =? 160) || (r =? 5760) || (8192 <=? r) && (r <=? 8202)
   || (r =? 8232) || (r =? 8233) || (r =? 8239) || (r =? 8287) || (r =? 12288))%Z.
Definition blank (s : string) : bool := forallb unicode_space (runes (bs s)).

(** ** Helpers *)

(** The text strings of a list of parts. *)
Definition text_strings (parts : list any) : list string := omap (λ raw, as_str (get (as_obj raw) "text")) parts.

Definition newline : string := String "010" EmptyString.

Definition contentText (content : any) : string :=
  match content with
  | VStr s => s
  | _ => match as_arr content with Some parts => join newline (text_strings parts) | None => "" end
  end.

Definition joinTextParts (parts : list any) : string := join newline (text_strings parts).

Definition allText (parts : list any) : bool := forallb (λ raw, is_str (get (as_obj raw) "type") "text") parts.

Definition copyIf (i out : body) (from to : string) : body :=
  match i !! from with
  | None | Some VNull => out
  | Some v => <[to := v]> out
  end.

(** No decoded value is a json.Number. *)
Definition numberOf (v : any) : option Z :=
  match v with
  | VFloat f => Some (int64_of_f64 f)
  | VInt z => Some z
  | _ => None
  end.

(** ** Anthropic messages to OpenAI chat completions *)

Definition anthropic_features : list (string * string) :=
  [("thinking", "extended thinking"); ("mcp_servers", "MCP servers"); ("container", "a container");
   ("output_format", "structured outputs")].

Definition blank_line : string := newline +:+ newline.

Fixpoint system_parts (blocks : list any) : list string + string :=
  match blocks with
  | [] => inl []
  | raw :: blocks =>
      let b := as_obj raw in
      if negb (is_str (get b "type") "text") then
        inr (Untranslatable "a non-text system block, which openai cannot express")
      else match system_parts blocks with
           | inr e => inr e
           | inl parts => inl (match as_str (get b "text") with Some t => t :: parts | None => parts end)
           end
  end.

Definition anthropicSystemText (system : any) : string + string :=
  match system with
  | VStr v => inl v
  | _ => match as_arr system with
         | Some blocks => match system_parts blocks with inl parts => inl (join blank_line parts) | inr e => inr e end
         | None => inl ""
         end
  end.

Definition anthropicImageURL (b : body) : string + string :=
  let src := as_obj (get b "source") in
  if is_str (get src "type") "base64" then
    inl ("data:" +:+ (fmt_v (get src "media_type") +:+ (";base64," +:+ fmt_v (get src "data"))))
  else if is_str (get src "type") "url" then inl (default "" (as_str (get src "url")))
  else inr (Untranslatable "an image source openai cannot express").

Definition anthropicToolResultText (b : body) : string :=
  match get b "content" with
  | VStr c => c
  | v => match as_arr v with Some parts => join newline (text_strings parts) | None => "" end
  end.

(** The blocks of a message, in three lists: tool messages, parts and tool
    calls. *)
Record split_blocks := mk_split { toolMessages : list any; parts : list any; toolCalls : list any }.

(** The call a tool_use block becomes. *)
Definition tool_call (b : body) : any :=
  obj [("id", get b "id"); ("type", VStr "function");
       ("function", obj [("name", get b "name"); ("arguments", VStr (str (MarshalAny (get b "input"))))])].

Definition tool_message (b : body) : any :=
  let text := anthropicToolResultText b in
  let text := match as_bool (get b "is_error") with Some true => "[error] " +:+ text | _ => text end in
  obj [("role", VStr "tool"); ("tool_call_id", get b "tool_use_id"); ("content", VStr text)].

(** One block of the loop. *)
Definition anthropic_block (raw : any) (s : split_blocks) : split_blocks + string :=
  let b := as_obj raw in
  let t := get b "type" in
  if is_str t "text" then
    inl (mk_split (toolMessages s) (parts s ++ [obj [("type", VStr "text"); ("text", get b "text")]]) (toolCalls s))
  else if is_str t "image" then
    match anthropicImageURL b with
    | inr e => inr e
    | inl url =>
        inl (mk_split (toolMessages s)
               (parts s ++ [obj [("type", VStr "image_url"); ("image_url", obj [("url", VStr url)])]]) (toolCalls s))
    end
  else if is_str t "tool_use" then
    inl (mk_split (toolMessages s) (parts s) (toolCalls s ++ [tool_call b]))
  else if is_str t "tool_result" then
    inl (mk_split (toolMessages s ++ [tool_message b]) (parts s) (toolCalls s))
  else if is_str t "thinking" || is_str t "redacted_thinking" then inl s
  else if is_str t "document" then inr (Untranslatable "a document block, which openai cannot express")
  else inr (Untranslatable ("a " +:+ (fmt_v t +:+ " content block, which openai cannot express"))).

Fixpoint anthropic_blocks (blocks : list any) (s : split_blocks) : split_blocks + string :=
  match blocks with
  | [] => inl s
  | raw :: blocks => match anthropic_block raw s with inl s => anthropic_blocks blocks s | inr e => inr e end
  end.

(** [if len(toolCalls) > 0]. *)
Definition with_calls (calls : list any) (msg : body) : body :=
  match calls with [] => msg | _ => <["tool_calls" := VArr calls]> msg end.

Definition anthropicMessageToOpenAI (role : string) (content : any) : list any + string :=
  match content with
  | VStr s => inl [obj [("role", VStr role); ("content", VStr s)]]
  | _ =>
      match anthropic_blocks (default [] (as_arr content)) (mk_split [] [] []) with
      | inr e => inr e
      | inl s =>
          if (role =? "assistant")%string then
            let text := joinTextParts (parts s) in
            let msg := list_to_map [("role", VStr "assistant"); ("content", if (text =? "")%string then VNull else VStr text)] : body in
            let msg := with_calls (toolCalls s) msg in
            inl (toolMessages s ++ [VObj msg])
          else
            inl (toolMessages s ++
                 match parts s with
                 | [] => []
                 | ps => [obj [("role", VStr role); ("content", if allText ps then VStr (joinTextParts ps) else VArr ps)]]
                 end)
      end
  end.

Fixpoint anthropic_messages (msgs : list any) : list any + string :=
  match msgs with
  | [] => inl []
  | raw :: msgs =>
      let m := as_obj raw in
      match anthropicMessageToOpenAI (default "" (as_str (get m "role"))) (get m "content") with
      | inr e => inr e
      | inl out => match anthropic_messages msgs with inl rest => inl (out ++ rest) | inr e => inr e end
      end
  end.

Fixpoint anthropic_tools (tools : list any) : list any + string :=
  match tools with
  | [] => inl []
  | raw :: tools =>
      let t := as_obj raw in
      let typ := default "" (as_str (get t "type")) in
      if negb (typ =? "custom")%string && negb (typ =? "")%string then
        inr (Untranslatable ("the server tool type " +:+ (Quote typ +:+ ", which openai cannot express")))
      else
        let fn := {["name" := get t "name"]} : body in
        let fn := match t !! "description" with Some d => <["description" := d]> fn | None => fn end in
        let fn := match t !! "input_schema" with Some schema => <["parameters" := schema]> fn | None => fn end in
        match anthropic_tools tools with
        | inl out => inl (obj [("type", VStr "function"); ("function", VObj fn)] :: out)
        | inr e => inr e
        end
  end.

Definition anthropic_tool_choice (tc out : body) : body :=
  let t := get tc "type" in
  let out :=
    if is_str t "auto" then <["tool_choice" := VStr "auto"]> out
    else if is_str t "any" then <["tool_choice" := VStr "required"]> out
    else if is_str t "none" then <["tool_choice" := VStr "none"]> out
    else if is_str t "tool" then
      <["tool_choice" := obj [("type", VStr "function"); ("function", obj [("name", get tc "name")])]]> out
    else out in
  match as_bool (get tc "disable_parallel_tool_use") with
  | Some true => <["parallel_tool_calls" := VBool false]> out
  | _ => out
  end.

Definition anthropicToOpenAIRequest (i : body) (model : string) : body + string :=
  match find (λ f, bool_decide (is_Some (i !! f.1))) anthropic_features with
  | Some f => inr (Untranslatable (f.2 +:+ ", which openai cannot express"))
  | None =>
      match (match i !! "system" with Some system => anthropicSystemText system | None => inl "" end) with
      | inr e => inr e
      | inl text =>
          match anthropic_messages (default [] (as_arr (get i "messages"))) with
          | inr e => inr e
          | inl converted =>
              let sys := if (text =? "")%string then [] else [obj [("role", VStr "system"); ("content", VStr text)]] in
              let out := list_to_map [("model", VStr model); ("messages", slice_of (sys ++ converted))] : body in
              match (match as_arr (get i "tools") with
                     | Some tools => match anthropic_tools tools with
                                     | inl ts => inl (<["tools" := slice_of ts]> out)
                                     | inr e => inr e
                                     end
                     | None => inl out
                     end) with
              | inr e => inr e
              | inl out =>
                  let out := match get i "tool_choice" with VObj tc => anthropic_tool_choice tc out | _ => out end in
                  let out := copyIf i out "max_tokens" "max_tokens" in
                  let out := copyIf i out "temperature" "temperature" in
                  let out := copyIf i out "top_p" "top_p" in
                  let out := copyIf i out "stop_sequences" "stop" in
                  let out := copyIf i out "stream" "stream" in
                  inl (match get i "metadata" with
                       | VObj md => match md !! "user_id" with Some user => <["user" := user]> out | None => out end
                       | _ => out
                       end)
              end
          end
      end
  end.

(** ** OpenAI chat completions to Anthropic messages *)

Definition openai_features : list (string * string) :=
  [("logprobs", "logprobs"); ("top_logprobs", "logprobs"); ("response_format", "response_format");
   ("functions", "the legacy functions field"); ("function_call", "the legacy function_call field")].

(** [v != nil && v != false]. *)
Definition is_set (v : any) : bool := match v with VNull | VBool false => false | _ => true end.

Definition openAIUntranslatable (i : body) : option string :=
  if match numberOf (get i "n") with Some n => (1 <? n)%Z | None => false end then
    Some (Untranslatable "n greater than 1, which anthropic cannot express")
  else match find (λ f, is_set (get i f.1)) openai_features with
       | Some f => Some (Untranslatable (f.2 +:+ ", which anthropic cannot express"))
       | None => None
       end.

Definition imageSource (u : string) : any :=
  match CutPrefix u "data:" with
  | Some rest =>
      match Cut "," rest with
      | Some (meta, data) => obj [("type", VStr "base64"); ("media_type", VStr (TrimSuffix meta ";base64")); ("data", VStr data)]
      | None => obj [("type", VStr "url"); ("url", VStr u)]
      end
  | None => obj [("type", VStr "url"); ("url", VStr u)]
  end.

Definition text_block (t : any) : any := obj [("type", VStr "text"); ("text", t)].

Definition openai_part (raw : any) : any + string :=
  let part := as_obj raw in
  let t := get part "type" in
  if is_str t "text" then inl (text_block (get part "text"))
  else if is_str t "image_url" then
    inl (obj [("type", VStr "image"); ("source", imageSource (default "" (as_str (get (as_obj (get part "image_url")) "url"))))])
  else if is_str t "input_audio" then inr (Untranslatable "audio content, which anthropic cannot express")
  else inr (Untranslatable ("a " +:+ (fmt_v t +:+ " content part, which anthropic cannot express"))).

(** A loop over a slice that stops at the first error. *)
Fixpoint each {A B} (f : A → B + string) (l : list A) : list B + string :=
  match l with
  | [] => inl []
  | x :: l =>
      match f x with
      | inr e => inr e
      | inl y => match each f l with inl ys => inl (y :: ys) | inr e => inr e end
      end
  end.

(** [nil] for a content that is neither a string nor a slice. *)
Definition openAIContentToBlocks (content : any) : list any + string :=
  match content with
  | VStr c => inl [text_block (VStr c)]
  | _ => each openai_part (default [] (as_arr content))
  end.

(** The block a tool call becomes. *)
Definition openai_call (raw : any) : any + string :=
  let call := as_obj raw in
  let fn := as_obj (get call "function") in
  let block input := obj [("type", VStr "tool_use"); ("id", get call "id"); ("name", get fn "name"); ("input", input)] in
  match as_str (get fn "arguments") with
  | Some args =>
      if blank args then inl (block (VObj ∅))
      else match UnmarshalAny (bs args) with
           | Some input => inl (block input)
           | None => inr (Untranslatable "tool call arguments that are not JSON")
           end
  | None => inl (block (VObj ∅))
  end.

Definition openAIAssistantBlocks (m : body) : list any + string :=
  let text := contentText (get m "content") in
  match each openai_call (default [] (as_arr (get m "tool_calls"))) with
  | inl calls => inl ((if (text =? "")%string then [] else [text_block (VStr text)]) ++ calls)
  | inr e => inr e
  end.

Definition tool_result_block (m : body) : any :=
  obj [("type", VStr "tool_result"); ("tool_use_id", get m "tool_call_id"); ("content", VStr (contentText (get m "content")))].

(** A translated message. *)
Record message := mk_message { msg_role : string; msg_content : list any }.
Definition message_any (m : message) : any := obj [("role", VStr (msg_role m)); ("content", slice_of (msg_content m))].

(** Appends to the last message when it is a user's. *)
Definition appendUser (messages : list message) (blocks : list any) : list message :=
  match last messages with
  | Some l =>
      if (msg_role l =? "user")%string
      then take (length messages - 1) messages ++ [mk_message "user" (msg_content l ++ blocks)]
      else messages ++ [mk_message "user" blocks]
  | None => messages ++ [mk_message "user" blocks]
  end.

Fixpoint openai_messages (msgs : list any) (system : list string) (messages : list message)
  : list string * list message + string :=
  match msgs with
  | [] => inl (system, messages)
  | raw :: msgs =>
      let m := as_obj raw in
      let role := default "" (as_str (get m "role")) in
      if (role =? "system")%string || (role =? "developer")%string then
        openai_messages msgs (system ++ [contentText (get m "content")]) messages
      else if (role =? "user")%string then
        match openAIContentToBlocks (get m "content") with
        | inr e => inr e
        | inl blocks => openai_messages msgs system (appendUser messages blocks)
        end
      else if (role =? "assistant")%string then
        match openAIAssistantBlocks m with
        | inr e => inr e
        | inl blocks => openai_messages msgs system (messages ++ [mk_message "assistant" blocks])
        end
      else if (role =? "tool")%string then
        openai_messages msgs system (appendUser messages [tool_result_block m])
      else inr (Untranslatable ("the " +:+ (Quote role +:+ " message role, which anthropic cannot express")))
  end.

Definition openAIMessagesToAnthropic (raw : any) : string * list any + string :=
  match openai_messages (default [] (as_arr raw)) [] [] with
  | inl (system, messages) => inl (join blank_line system, map message_any messages)
  | inr e => inr e
  end.

Definition openai_tool (raw : any) : any + string :=
  let t := as_obj raw in
  if negb (is_str (get t "type") "function") then
    inr (Untranslatable ("the tool type " +:+ (fmt_v (get t "type") +:+ ", which anthropic cannot express")))
  else
    let fn := as_obj (get t "function") in
    let tool := {["name" := get fn "name"]} : body in
    let tool := match fn !! "description" with Some d => <["description" := d]> tool | None => tool end in
    inl (VObj (<["input_schema" := default (obj [("type", VStr "object"); ("properties", VObj ∅)]) (fn !! "parameters")]> tool)).

Definition openAIToolsToAnthropic (tools : list any) : list any + string := each openai_tool tools.

Definition openAIToolChoiceToAnthropic (i : body) : option body :=
  let choice : option body :=
    match get i "tool_choice" with
    | VStr tc =>
        if (tc =? "auto")%string then Some {["type" := VStr "auto"]}
        else if (tc =? "required")%string then Some {["type" := VStr "any"]}
        else if (tc =? "none")%string then Some {["type" := VStr "none"]}
        else None
    | VObj tc => Some (list_to_map [("type", VStr "tool"); ("name", get (as_obj (get tc "function")) "name")])
    | _ => None
    end in
  match as_bool (get i "parallel_tool_calls") with
  | Some false => Some (<["disable_parallel_tool_use" := VBool true]> (default {["type" := VStr "auto"]} choice))
  | _ => choice
  end.

Definition MaxTokens (b : body) : option Z :=
  match numberOf (get b "max_completion_tokens") with
  | Some n => Some n
  | None => numberOf (get b "max_tokens")
  end.

Definition openAIMaxTokens (i : body) (model : string) (maxOutputTokens : Z) : Z + string :=
  match MaxTokens i with
  | None =>
      if (maxOutputTokens <=? 0)%Z then
        inr (Untranslatable ("no max_tokens, which anthropic requires, and model " +:+ (Quote model
               +:+ " declares no maxOutputTokens")))
      else inl maxOutputTokens
  | Some maxTokens =>
      if ((0 <? maxOutputTokens) && (maxOutputTokens <? maxTokens))%Z then inl maxOutputTokens else inl maxTokens
  end.

Definition openAIToAnthropicRequest (i : body) (model : string) (maxOutputTokens : Z) : body + string :=
  match openAIUntranslatable i with
  | Some e => inr e
  | None =>
      match openAIMessagesToAnthropic (get i "messages") with
      | inr e => inr e
      | inl (system, messages) =>
          let out := {["model" := VStr model]} : body in
          let out := if (system =? "")%string then out else <["system" := VStr system]> out in
          let out := <["messages" := VArr messages]> out in
          match (match as_arr (get i "tools") with
                 | Some tools => match openAIToolsToAnthropic tools with
                                 | inl ts => inl (<["tools" := slice_of ts]> out)
                                 | inr e => inr e
                                 end
                 | None => inl out
                 end) with
          | inr e => inr e
          | inl out =>
              let out := match openAIToolChoiceToAnthropic i with Some tc => <["tool_choice" := VObj tc]> out | None => out end in
              match openAIMaxTokens i model maxOutputTokens with
              | inr e => inr e
              | inl maxTokens =>
                  let out := <["max_tokens" := VInt maxTokens]> out in
                  let out := copyIf i out "temperature" "temperature" in
                  let out := copyIf i out "top_p" "top_p" in
                  let out := copyIf i out "stream" "stream" in
                  let out := match get i "stop" with
                             | VStr stop => <["stop_sequences" := VArr [VStr stop]]> out
                             | v => match as_arr v with Some _ => <["stop_sequences" := v]> out | None => out end
                             end in
                  inl (match i !! "user" with Some user => <["metadata" := obj [("user_id", user)]]> out | None => out end)
              end
          end
      end
  end.

(** ** Request *)

Definition Request (from to : Format) (b : body) (model : string) (maxOutputTokens : Z) : body + string :=
  if (from =? to)%string then inl (<["model" := VStr model]> b)
  else if (from =? FormatAnthropic)%string && (to =? FormatOpenAI)%string then anthropicToOpenAIRequest b model
  else if (from =? FormatOpenAI)%string && (to =? FormatAnthropic)%string then openAIToAnthropicRequest b model maxOutputTokens
  else inr ("no translation from " +:+ (from +:+ (" to " +:+ to))).

(** json.Unmarshal of a request body into a map. *)
Definition UnmarshalMap (b : bytes) : option (option body) :=
  match UnmarshalAny b with
  | Some (VObj m) => Some (Some m)
  | Some VNull => Some None
  | _ => None
  end.

(** The translator the gateway's walk uses. *)
#[global] Instance llmtranslate : Translator := {|
  object := body;
  Unmarshal s := default None (UnmarshalMap (bs s));
  TranslateRequest := Request;
  Fallback.MaxTokens := MaxTokens;
|}.
