(* ===== verification/TranslateFacts.v ===== *)
(** What a translated request means: the conversation it carries, the limits
    it states, and the tool calls that survive both directions. *)

From stdpp Require Import base list strings option gmap sets.
From Stdlib Require Import ZArith Lia Ascii.
From S2P Require Import Prelude GoFloat Json JsonString JsonValue Api BudgetLedger Auth Routing Fallback Translate.

(** ** Conversations *)

(** What a request's messages say, without the way a format spells it. *)
Inductive item :=
  | IText (t : any)
  | IImage (url : string)
  | ICall (id name input : any)
  | IResult (id : any) (text : any).

(** The texts of a content: the string it is, or the text of each of its parts
    that has one. *)
Definition content_texts (content : any) : list string :=
  match content with
  | VStr s => [s]
  | VArr parts => flat_map (λ raw, match raw with
                                   | VObj part => match part !! "text" with Some (VStr t) => [t] | _ => [] end
                                   | _ => []
                                   end) parts
  | _ => []
  end.

(** What it says, a text to a line. *)
Definition spoken (content : any) : string := String.concat (String "010" "") (content_texts content).

(** The text of a tool result, an error marked as one. *)
Definition result_text (b : body) : string :=
  match as_bool (get b "is_error") with
  | Some true => "[error] " +:+ spoken (get b "content")
  | _ => spoken (get b "content")
  end.

Lemma text_strings_parts parts : text_strings parts = content_texts (VArr parts).
Proof.
  induction parts as [|raw parts IH]; [done|]. cbn [content_texts flat_map] in *. rewrite <- IH. unfold text_strings. cbn [omap list_omap].
  destruct raw as [| | | | | | |part]; try done. unfold get, as_obj. by destruct (part !! "text") as [[]|].
Qed.

Lemma contentText_spoken content : contentText content = spoken content.
Proof. destruct content; try done. cbn [contentText as_arr]. by rewrite text_strings_parts. Qed.

Lemma anthropicToolResultText_spoken b : anthropicToolResultText b = spoken (get b "content").
Proof. unfold anthropicToolResultText. destruct (get b "content"); try done. cbn [as_arr]. by rewrite text_strings_parts. Qed.

(** The Anthropic reading of a block and of a message list. *)
Definition read_block (raw : any) : list item :=
  let b := as_obj raw in
  let t := get b "type" in
  if is_str t "text" then [IText (get b "text")]
  else if is_str t "image" then match anthropicImageURL b with inl u => [IImage u] | inr _ => [] end
  else if is_str t "tool_use" then [ICall (get b "id") (get b "name") (get b "input")]
  else if is_str t "tool_result" then [IResult (get b "tool_use_id") (VStr (result_text b))]
  else [].

Definition read_anthropic (raw : any) : list (string * item) :=
  let m := as_obj raw in
  pair (default "" (as_str (get m "role"))) <$> flat_map read_block (default [] (as_arr (get m "content"))).

(** The URL of an image as a base64 source reads it back: a data URL that is
    not base64 is relabelled as one. *)
Definition base64_url (u : string) : string :=
  match CutPrefix u "data:" with
  | Some rest =>
      match Cut "," rest with
      | Some (meta, data) => "data:" +:+ (TrimSuffix meta ";base64" +:+ (";base64," +:+ data))
      | None => u
      end
  | None => u
  end.

(** A data URL says that it is base64. *)
Definition base64_labelled (u : string) : Prop :=
  ∀ meta data, u = "data:" +:+ (meta +:+ String "," data) → contains_char "," meta = false → ∃ media, meta = media +:+ ";base64".

Lemma base64_url_labelled u : base64_labelled u → base64_url u = u.
Proof.
  intros H. unfold base64_url. destruct (CutPrefix u "data:") as [rest|] eqn:Ep; [|done]. apply CutPrefix_Some in Ep as ->.
  destruct (Cut "," rest) as [[meta data]|] eqn:Ec; [|done]. apply Cut_Some in Ec as [-> Hn].
  destruct (H meta data eq_refl Hn) as [media ->]. unfold TrimSuffix.
  rewrite (proj2 (CutSuffix_Some (media +:+ ";base64") ";base64" media) eq_refl). cbn [default from_option id].
  by rewrite <- string_app_assoc.
Qed.

Definition rebase (x : item) : item := match x with IImage u => IImage (base64_url u) | _ => x end.

(** The OpenAI reading.  A tool message is the user's result. *)
Definition read_part (raw : any) : list item :=
  let part := as_obj raw in
  let t := get part "type" in
  if is_str t "text" then [IText (get part "text")]
  else if is_str t "image_url" then [IImage (default "" (as_str (get (as_obj (get part "image_url")) "url")))]
  else [].

Definition call_input (fn : body) : any :=
  match as_str (get fn "arguments") with
  | Some args => if blank args then VObj ∅ else default VNull (UnmarshalAny (bs args))
  | None => VObj ∅
  end.

Definition read_call (raw : any) : list item :=
  let call := as_obj raw in
  let fn := as_obj (get call "function") in
  [ICall (get call "id") (get fn "name") (call_input fn)].

Definition read_openai (raw : any) : list (string * item) :=
  let m := as_obj raw in
  let role := default "" (as_str (get m "role")) in
  let content := get m "content" in
  if (role =? "user")%string then
    pair "user" <$> match content with
                    | VStr s => [IText (VStr s)]
                    | _ => flat_map read_part (default [] (as_arr content))
                    end
  else if (role =? "assistant")%string then
    let text := spoken content in
    pair "assistant" <$> (if (text =? "")%string then [] else [IText (VStr text)])
                         ++ flat_map read_call (default [] (as_arr (get m "tool_calls")))
  else if (role =? "tool")%string then
    [("user", IResult (get m "tool_call_id") (VStr (spoken content)))]
  else [].

Definition system_text (raw : any) : list string :=
  let m := as_obj raw in
  let role := default "" (as_str (get m "role")) in
  if (role =? "system")%string || (role =? "developer")%string then [spoken (get m "content")] else [].

(** ** Loops *)

Lemma each_spec {A B} (f : A → B + string) l ys : each f l = inl ys → Forall2 (λ x y, f x = inl y) l ys.
Proof.
  revert ys. induction l as [|x l IH]; intros ys; simpl; [by intros [= <-]|].
  destruct (f x) eqn:Hx; [|done]. destruct (each f l) eqn:Hl; [|done]. intros [= <-]. constructor; [done|by apply IH].
Qed.

Lemma each_read {A B C} (f : A → B + string) (g : A → list C) (h : B → list C) l ys :
  (∀ x y, f x = inl y → h y = g x) → each f l = inl ys → flat_map h ys = flat_map g l.
Proof. intros Hf H%each_spec. induction H as [|x y l ys Hx _ IH]; [done|]. simpl. by rewrite (Hf _ _ Hx), IH. Qed.

Lemma flat_map_fmap {A B C} (f : B → C) (g : A → list B) l : flat_map (λ x, f <$> g x) l = f <$> flat_map g l.
Proof. induction l as [|x l IH]; [done|]. simpl. by rewrite IH, fmap_app. Qed.

(** Lookups in the maps the translation builds. *)
Ltac lookups := unfold obj, as_obj, get; simpl; repeat (rewrite lookup_insert_eq || (rewrite lookup_insert_ne by done) || rewrite lookup_empty); simpl.

Lemma read_text_block t : read_block (text_block t) = [IText t].
Proof. unfold read_block, text_block. by lookups. Qed.

Lemma image_source_url b u : get b "source" = imageSource u → anthropicImageURL b = inl (base64_url u).
Proof.
  unfold anthropicImageURL. intros ->.
  unfold anthropicImageURL, imageSource, base64_url. destruct (CutPrefix u "data:") as [rest|]; [destruct (Cut "," rest) as [[meta data]|]|]; by lookups.
Qed.

Lemma read_part_block raw y : openai_part raw = inl y → read_block y = rebase <$> read_part raw.
Proof.
  unfold openai_part, read_part. destruct (is_str _ "text"); [intros [= <-]; apply read_text_block|].
  destruct (is_str _ "image_url"); [|by repeat case_match]. intros [= <-].
  set (u := default "" _). unfold read_block.
  assert (E : ∀ s, is_str (get (as_obj (obj [("type", VStr "image"); ("source", imageSource u)])) "type") s = ("image" =? s)%string) by (intros; by lookups).
  rewrite !E. cbn [String.eqb Ascii.eqb Bool.eqb]. erewrite image_source_url; [done|by lookups].
Qed.

Lemma read_call_block raw y : openai_call raw = inl y → read_block y = rebase <$> read_call raw.
Proof.
  unfold openai_call, read_call, call_input, read_block. destruct (as_str _) as [args|]; [destruct (blank args); [|destruct (UnmarshalAny _) eqn:E; [|done]]|];
    intros [= <-]; by lookups.
Qed.

(** ** OpenAI to Anthropic *)

Definition read_message (m : message) : list (string * item) := pair (msg_role m) <$> flat_map read_block (msg_content m).

Lemma read_message_any m : read_anthropic (message_any m) = read_message m.
Proof.
  unfold read_anthropic, message_any, read_message. lookups. by destruct (msg_content m).
Qed.

(** No two user messages in a row. *)
Definition merged (roles : list string) : Prop := ∀ k, roles !! k = Some "user" → roles !! S k = Some "user" → False.

Definition roles_ok (roles : list string) : Prop := Forall (λ r, r = "user" ∨ r = "assistant") roles.

Lemma merged_snoc rs r : merged rs → (last rs = Some "user" → r ≠ "user") → merged (rs ++ [r]).
Proof.
  intros Hm Hl k Ha Hb. apply lookup_app_Some in Hb as [Hb|[Hk Hb]].
  - apply (Hm k); [|done]. rewrite lookup_app_l in Ha; [done|]. apply lookup_lt_Some in Hb. lia.
  - apply list_lookup_singleton_Some in Hb as [Hz ->]. apply Hl; [|done]. rewrite last_lookup. replace (pred (length rs)) with k by lia.
    rewrite lookup_app_l in Ha; [done|lia].
Qed.

(** The state of the message loop against what it has read. *)
Record so_far (ms : list message) (conv : list (string * item)) : Prop := {
  so_merged : merged (msg_role <$> ms);
  so_roles : roles_ok (msg_role <$> ms);
  so_conv : flat_map read_message ms = conv;
}.

Lemma so_far_snoc ms conv m : so_far ms conv → (msg_role m = "user" ∨ msg_role m = "assistant") →
  (last (msg_role <$> ms) = Some "user" → msg_role m ≠ "user") → so_far (ms ++ [m]) (conv ++ read_message m).
Proof.
  intros [Hm Hr Hc] Hrole Hl. constructor.
  - rewrite fmap_app. by apply merged_snoc.
  - rewrite fmap_app. apply Forall_app. split; [done|]. by constructor.
  - rewrite flat_map_app, Hc. simpl. by rewrite app_nil_r.
Qed.

Lemma so_far_user ms conv blocks : so_far ms conv → so_far (appendUser ms blocks) (conv ++ (pair "user" <$> flat_map read_block blocks)).
Proof.
  intros H. unfold appendUser. destruct ms as [|l ms _] using rev_ind; [by apply (so_far_snoc [] _ (mk_message "user" blocks)); [|left|]|].
  rewrite last_snoc. destruct (String.eqb_spec (msg_role l) "user") as [Hl|Hl].
  - rewrite length_app. simpl. rewrite Nat.add_sub, take_app_length. destruct H as [Hm Hr <-]. constructor.
    + rewrite fmap_app in *. simpl in *. by rewrite Hl in Hm.
    + rewrite fmap_app in *. simpl in *. by rewrite Hl in Hr.
    + rewrite !flat_map_app. simpl. rewrite !app_nil_r. unfold read_message. simpl. rewrite Hl, flat_map_app, fmap_app. by rewrite app_assoc.
  - apply (so_far_snoc _ _ (mk_message "user" blocks)); [done|by left|]. rewrite fmap_app. simpl. rewrite last_snoc. by intros [= ?].
Qed.

Lemma read_tool_result m : flat_map read_block [tool_result_block m] = [IResult (get m "tool_call_id") (VStr (spoken (get m "content")))].
Proof. rewrite <- contentText_spoken. unfold tool_result_block, read_block. simpl. by lookups. Qed.

Lemma read_user_blocks content blocks : openAIContentToBlocks content = inl blocks →
  flat_map read_block blocks = rebase <$> match content with VStr s => [IText (VStr s)] | _ => flat_map read_part (default [] (as_arr content)) end.
Proof.
  unfold openAIContentToBlocks. destruct content; try (intros H; rewrite <- flat_map_fmap; by apply (each_read _ _ _ _ _ read_part_block)).
  intros [= <-]. simpl. by rewrite read_text_block.
Qed.

Lemma read_assistant_blocks m blocks : openAIAssistantBlocks m = inl blocks →
  flat_map read_block blocks = rebase <$> (let text := spoken (get m "content") in if (text =? "")%string then [] else [IText (VStr text)])
    ++ flat_map read_call (default [] (as_arr (get m "tool_calls"))).
Proof.
  rewrite <- contentText_spoken. unfold openAIAssistantBlocks. destruct (each _ _) as [calls|] eqn:E; [|done]. intros [= <-].
  rewrite flat_map_app, (each_read _ _ _ _ _ read_call_block E), flat_map_fmap, fmap_app. f_equal. simpl. case_match; [done|]. simpl. by rewrite read_text_block.
Qed.

Lemma pair_rebase r l : prod_map id rebase <$> (pair r <$> l) = pair r <$> (rebase <$> l) :> list (string * item).
Proof. by rewrite <- !list_fmap_compose. Qed.

Lemma openai_messages_spec msgs system ms sys' ms' conv : so_far ms conv → openai_messages msgs system ms = inl (sys', ms') →
  sys' = system ++ flat_map system_text msgs ∧ so_far ms' (conv ++ (prod_map id rebase <$> flat_map read_openai msgs)).
Proof.
  revert system ms conv. induction msgs as [|raw msgs IH]; intros system ms conv Hs; cbn [openai_messages flat_map].
  { intros [= <- <-]. rewrite fmap_nil. by rewrite !app_nil_r. }
  rewrite fmap_app. unfold system_text at 1, read_openai at 1. set (m := as_obj raw). set (role := default "" _).
  destruct (String.eqb_spec role "system") as [->|Hsys]; [|destruct (String.eqb_spec role "developer") as [->|Hdev]]; cbn [orb].
  1,2: rewrite <- contentText_spoken; intros H; apply (IH _ _ _ Hs) in H as [-> H]; rewrite <- app_assoc; done.
  destruct (String.eqb_spec role "user") as [Hu|Hu].
  { destruct (openAIContentToBlocks _) as [blocks|] eqn:E; [|done]. intros H. apply (IH _ _ _ (so_far_user _ _ blocks Hs)) in H as [-> H].
    rewrite (read_user_blocks _ _ E), <- app_assoc, <- pair_rebase in H. done. }
  destruct (String.eqb_spec role "assistant") as [Ha|Ha].
  { destruct (openAIAssistantBlocks m) as [blocks|] eqn:E; [|done]. intros H.
    apply (IH _ _ (conv ++ read_message (mk_message "assistant" blocks))) in H as [-> H]; [|by apply so_far_snoc; [|right|]].
    unfold read_message in H. cbn [msg_role msg_content] in H. rewrite (read_assistant_blocks _ _ E), <- app_assoc, <- pair_rebase in H. done. }
  destruct (String.eqb_spec role "tool") as [Ht|Ht]; [|done].
  intros H. apply (IH _ _ _ (so_far_user _ _ _ Hs)) in H as [-> H]. rewrite read_tool_result, <- app_assoc in H. done.
Qed.

Lemma openAIMessages_spec raw system messages : openAIMessagesToAnthropic raw = inl (system, messages) →
  let msgs := default [] (as_arr raw) in
  system = join blank_line (flat_map system_text msgs) ∧
  flat_map read_anthropic messages = prod_map id rebase <$> flat_map read_openai msgs ∧
  ∃ ms, messages = map message_any ms ∧ merged (msg_role <$> ms) ∧ roles_ok (msg_role <$> ms).
Proof.
  unfold openAIMessagesToAnthropic. destruct (openai_messages _ _ _) as [[sys ms]|] eqn:E; [|done]. intros [= <- <-].
  apply (openai_messages_spec _ _ _ _ _ []) in E as [-> [Hm Hr Hc]]; [|by split; [intros ? ?|constructor|]].
  split; [done|]. split; [|by exists ms]. simpl in Hc. rewrite <- Hc. clear. induction ms as [|m ms IH]; [done|]. simpl. by rewrite read_message_any, IH.
Qed.

(** An optional field of an object. *)
Definition upd (k : string) (v : option any) (out : body) : body := match v with Some v => <[k := v]> out | None => out end.

Lemma upd_eq k v out : upd k v out !! k = match v with Some v => Some v | None => out !! k end.
Proof. destruct v; simpl; [apply lookup_insert_eq|done]. Qed.
Lemma upd_ne k v out j : k ≠ j → upd k v out !! j = out !! j.
Proof. destruct v; simpl; [by apply lookup_insert_ne|done]. Qed.
Lemma upd_is_Some k v out j : is_Some (upd k v out !! j) → j = k ∨ is_Some (out !! j).
Proof. destruct (decide (k = j)) as [->|]; [by left|rewrite upd_ne by done; by right]. Qed.
Lemma insert_key k v (out : body) j : is_Some (<[k := v]> out !! j) → j = k ∨ is_Some (out !! j).
Proof. apply (upd_is_Some k (Some v)). Qed.

Definition non_null (v : option any) : option any := match v with Some VNull => None | _ => v end.

Lemma copyIf_upd i out from to : copyIf i out from to = upd to (non_null (i !! from)) out.
Proof. unfold copyIf. by destruct (i !! from) as [[]|]. Qed.

Ltac upds := repeat (rewrite upd_eq || (rewrite upd_ne by done) || rewrite lookup_insert_eq || (rewrite lookup_insert_ne by done)).

Lemma rebase_labelled (conv : list (string * item)) : (∀ who u, (who, IImage u) ∈ conv → base64_labelled u) → prod_map id rebase <$> conv = conv.
Proof.
  induction conv as [|[who x] conv IH]; intros H; [done|]. rewrite fmap_cons, IH by (intros ??; set_solver). f_equal.
  destruct x as [|u| |]; try done. unfold prod_map. cbn. by rewrite (base64_url_labelled u (H who u ltac:(by left))).
Qed.

(** A successful translation, field by field. *)
Record anthropic_request (i : body) (model : string) (ceiling : Z) (out : body) : Prop := {
  ar_supported : openAIUntranslatable i = None;
  ar_model : out !! "model" = Some (VStr model);
  ar_messages : ∃ system messages, openAIMessagesToAnthropic (get i "messages") = inl (system, messages) ∧
    out !! "messages" = Some (VArr messages) ∧ out !! "system" = (if (system =? "")%string then None else Some (VStr system));
  ar_max : ∃ n, openAIMaxTokens i model ceiling = inl n ∧ out !! "max_tokens" = Some (VInt n);
  ar_stream : out !! "stream" = match i !! "stream" with Some VNull | None => None | v => v end;
  ar_keys : ∀ k, is_Some (out !! k) → k ∈ ["model"; "system"; "messages"; "tools"; "tool_choice"; "max_tokens"; "temperature";
                                         "top_p"; "stream"; "stop_sequences"; "metadata"];
}.

Lemma openAIToAnthropicRequest_spec i model ceiling out :
  openAIToAnthropicRequest i model ceiling = inl out → anthropic_request i model ceiling out.
Proof.
  unfold openAIToAnthropicRequest. destruct (openAIUntranslatable i) eqn:Hs; [done|].
  destruct (openAIMessagesToAnthropic _) as [[system messages]|] eqn:Hm; [|done].
  set (tools := match as_arr (get i "tools") with Some _ => _ | None => _ end).
  assert (Htools : ∀ o, tools = inl o → ∃ ts, o = upd "tools" ts (upd "messages" (Some (VArr messages))
    (upd "system" (if (system =? "")%string then None else Some (VStr system)) (upd "model" (Some (VStr model)) ∅)))).
  { unfold tools. intros o. destruct (as_arr _) as [ts|]; [destruct (openAIToolsToAnthropic ts); [|done]|]; intros [= <-]; [eexists (Some _)|exists None]; by case_match. }
  destruct tools as [o|]; [|done]. destruct (Htools o eq_refl) as [ts ->]. clear Htools.
  destruct (openAIMaxTokens _ _ _) as [n|] eqn:Hn; [|done]. intros [= <-]. rewrite !copyIf_upd.
  set (tc := openAIToolChoiceToAnthropic i). set (base := upd "tools" _ _).
  replace (match tc with Some tc => <["tool_choice" := VObj tc]> base | None => base end) with (upd "tool_choice" (VObj <$> tc) base) by (by destruct tc).
  change (<["max_tokens" := VInt n]> ?o) with (upd "max_tokens" (Some (VInt n)) o).
  set (o2 := upd "stream" _ _).
  replace (match get i "stop" with VStr stop => _ | _ => _ end) with
    (upd "stop_sequences" (match get i "stop" with VStr stop => Some (VArr [VStr stop]) | v => match as_arr v with Some _ => Some v | None => None end end) o2)
    by (by destruct (get i "stop")).
  set (o3 := upd "stop_sequences" _ _).
  replace (match i !! "user" with Some user => _ | None => _ end) with (upd "metadata" ((λ user, obj [("user_id", user)]) <$> i !! "user") o3)
    by (by destruct (i !! "user")).
  unfold o3, o2, base. constructor.
  - done.
  - by upds.
  - exists system, messages. upds. by case_match.
  - exists n. by upds.
  - upds. rewrite lookup_empty. by destruct (i !! "stream") as [[]|].
  - intros k Hk. repeat ((apply upd_is_Some in Hk || apply insert_key in Hk); destruct Hk as [->|Hk]; [set_solver|]). rewrite lookup_empty in Hk. by destruct Hk.
Qed.


(** The limits of a translated request.  Anthropic requires max_tokens:
    a translated request always has it, at most the target model's declared
    ceiling, and the agent's own limit wherever that is lower; a request with
    no limit for a model with no ceiling is refused.  The request names the
    candidate's model, keeps the stream flag, asks for one answer, and has no
    member Anthropic does not know. *)
Theorem openai_request_bounded i model ceiling out
    (Ht : openAIToAnthropicRequest i model ceiling = inl out) :
  out !! "model" = Some (VStr model) ∧
  (∃ n, out !! "max_tokens" = Some (VInt n) ∧ ((0 < ceiling)%Z → (n ≤ ceiling)%Z) ∧
     n = match MaxTokens i with Some m => if (0 <? ceiling)%Z then Z.min m ceiling else m | None => ceiling end ∧
     (MaxTokens i = None → (0 < ceiling)%Z)) ∧
  out !! "stream" = non_null (i !! "stream") ∧
  (∀ n, numberOf (get i "n") = Some n → (n ≤ 1)%Z) ∧
  (∀ k, is_Some (out !! k) → k ∈ ["model"; "system"; "messages"; "tools"; "tool_choice"; "max_tokens"; "temperature";
                                 "top_p"; "stream"; "stop_sequences"; "metadata"]).
Proof.
  destruct (openAIToAnthropicRequest_spec _ _ _ _ Ht) as [Hs Hm _ (n & Hn & Hmax) Hst Hk]. split_and!; try done.
  - exists n. split; [done|]. unfold openAIMaxTokens in Hn. destruct (MaxTokens i) as [m|].
    + destruct (Z.ltb_spec 0 ceiling), (Z.ltb_spec ceiling m); simpl in Hn; injection Hn as <-; split_and!; try done; lia.
    + destruct (Z.leb_spec ceiling 0); [done|]. injection Hn as <-. split_and!; try done; lia.
  - rewrite Hst. by destruct (i !! "stream") as [[]|].
  - unfold openAIUntranslatable in Hs. intros k Hn'. rewrite Hn' in Hs. destruct (Z.ltb_spec 1 k); [done|lia].
Qed.

(** The first byte of a value. *)
Definition value_first (x : ascii) : bool :=
  existsb (Ascii.eqb x) [quote; "["; "{"; "t"; "f"; "n"; "-"]%char || is_digit x.

Lemma scalar_first t : is_scalar t = true → ∃ x r, t = x :: r ∧ value_first x = true.
Proof.
  unfold is_scalar. rewrite !orb_true_iff, !bool_decide_eq_true. intros [[[-> | ->]| ->]|Hn]; try (by do 2 eexists).
  destruct t as [|x r]; [done|]. exists x, r. split; [done|]. unfold value_first. unfold is_number in Hn.
  destruct x as [[] [] [] [] [] [] [] []]; done.
Qed.

Lemma wf_first c : wf c → ∃ x r, text c = x :: r ∧ value_first x = true.
Proof.
  intros H. destruct H as [t Ht _|b _|[] sp _|e es _ _|m ms _ _]; try (by do 2 eexists). by apply scalar_first.
Qed.

Lemma value_first_not_blank x t : value_first x = true → forallb unicode_space (runes (x :: t)) = false.
Proof. by destruct x as [[] [] [] [] [] [] [] []]. Qed.

Lemma Marshal_not_blank v : floats_ok v = true → blank (str (MarshalAny v)) = false.
Proof.
  intros Hv. destruct (wf_first _ (tree_wf v Hv)) as (x & t & Ht & Hx). unfold blank, MarshalAny. rewrite bs_str, Ht.
  by apply value_first_not_blank.
Qed.

(** A tool call survives both directions.  The OpenAI call an Anthropic
    tool_use block becomes reads back as a tool_use block with the same id,
    name and input, whatever JSON value the input is. *)
Theorem tool_call_roundtrip b
    (Hp : plain (get b "input") = true) (Hn : (nesting (tree_of (get b "input")) ≤ maxNestingDepth)%Z) :
  openai_call (tool_call b) = inl (obj [("type", VStr "tool_use"); ("id", get b "id"); ("name", get b "name"); ("input", get b "input")]).
Proof.
  pose proof (Unmarshal_Marshal _ Hp Hn) as Hu. unfold openai_call.
  assert (Ef : get (as_obj (tool_call b)) "function" = obj [("name", get b "name"); ("arguments", VStr (str (MarshalAny (get b "input"))))])
    by (unfold tool_call; by lookups).
  assert (Ei : get (as_obj (tool_call b)) "id" = get b "id") by (unfold tool_call; by lookups).
  rewrite Ef, Ei. set (fn := as_obj (obj _)).
  assert (Ea : get fn "arguments" = VStr (str (MarshalAny (get b "input")))) by (unfold fn; by lookups).
  assert (En : get fn "name" = get b "name") by (unfold fn; by lookups).
  rewrite Ea, En. cbn [as_str]. by rewrite Marshal_not_blank, bs_str, Hu by (by apply plain_floats).
Qed.

(** ** Anthropic to OpenAI *)

Definition results (l : list item) : list (any * any) := omap (λ x, match x with IResult i t => Some (i, t) | _ => None end) l.
Definition calls (l : list item) : list (any * any * any) := omap (λ x, match x with ICall i n v => Some (i, n, v) | _ => None end) l.
Definition images (l : list item) : list string := omap (λ x, match x with IImage u => Some u | _ => None end) l.
Definition texts (l : list item) : list string := omap (λ x, match x with IText (VStr s) => Some s | _ => None end) l.

Definition said (l : list item) : list item := omap (λ x, match x with IText _ | IImage _ => Some x | _ => None end) l.

(** A block whose tool input is a value json.Unmarshal gives. *)
Definition decoded_block (raw : any) : bool :=
  let input := get (as_obj raw) "input" in
  negb (is_str (get (as_obj raw) "type") "tool_use") || plain input && (nesting (tree_of input) <=? maxNestingDepth)%Z.

(** How a run of blocks that read as [I] grows the three lists. *)
Record grows (s s' : split_blocks) (I : list item) : Prop := {
  g_results : flat_map read_openai (toolMessages s') = flat_map read_openai (toolMessages s) ++ ((λ it, ("user", IResult it.1 it.2)) <$> results I);
  g_calls : flat_map read_call (toolCalls s') = flat_map read_call (toolCalls s) ++ ((λ c, ICall c.1.1 c.1.2 c.2) <$> calls I);
  g_parts : flat_map read_part (parts s') = flat_map read_part (parts s) ++ said I;
  g_text : text_strings (parts s') = text_strings (parts s) ++ texts I;
  g_all : allText (parts s') = allText (parts s) && bool_decide (images I = []);
}.

Lemma is_str_eq v s : is_str v s = true → v = VStr s.
Proof. destruct v; try done. by intros ->%String.eqb_eq. Qed.

Lemma read_tool_call b : plain (get b "input") = true → (nesting (tree_of (get b "input")) ≤ maxNestingDepth)%Z →
  read_call (tool_call b) = [ICall (get b "id") (get b "name") (get b "input")].
Proof.
  intros Hp Hn. unfold read_call, call_input.
  assert (Ef : get (as_obj (tool_call b)) "function" = obj [("name", get b "name"); ("arguments", VStr (str (MarshalAny (get b "input"))))])
    by (unfold tool_call; by lookups).
  assert (Ei : get (as_obj (tool_call b)) "id" = get b "id") by (unfold tool_call; by lookups).
  rewrite Ef, Ei. set (fn := as_obj (obj _)).
  assert (Ea : get fn "arguments" = VStr (str (MarshalAny (get b "input")))) by (unfold fn; by lookups).
  assert (En : get fn "name" = get b "name") by (unfold fn; by lookups).
  rewrite Ea, En. cbn [as_str]. by rewrite Marshal_not_blank, bs_str, (Unmarshal_Marshal _ Hp Hn) by (by apply plain_floats).
Qed.

Lemma read_tool_message b : read_openai (tool_message b) = [("user", IResult (get b "tool_use_id") (VStr (result_text b)))].
Proof. unfold read_openai, tool_message, result_text. rewrite anthropicToolResultText_spoken. lookups. by destruct (default _ _) as [|[]| | | | | |]. Qed.

Lemma block_grows raw s s' : anthropic_block raw s = inl s' → decoded_block raw = true → grows s s' (read_block raw).
Proof.
  unfold anthropic_block, decoded_block, read_block. set (b := as_obj raw). set (t := get b "type").
  destruct (is_str t "text") eqn:Et.
  { intros [= <-] _. constructor; cbn [toolMessages toolCalls parts]; rewrite ?app_nil_r; try done.
    - rewrite flat_map_app. f_equal; lookups; by rewrite ?app_nil_r.
    - unfold text_strings. rewrite omap_app. f_equal; lookups; by rewrite ?app_nil_r.
    - unfold allText. rewrite forallb_app. f_equal; lookups; by rewrite ?app_nil_r. }
  destruct (is_str t "image") eqn:Ei.
  { destruct (anthropicImageURL b) as [u|]; [|done]. intros [= <-] _. constructor; cbn [toolMessages toolCalls parts]; rewrite ?app_nil_r; try done.
    - rewrite flat_map_app. f_equal; lookups; by rewrite ?app_nil_r.
    - unfold text_strings. rewrite omap_app. f_equal; lookups; by rewrite ?app_nil_r.
    - unfold allText. rewrite forallb_app. f_equal; lookups; by rewrite ?app_nil_r. }
  destruct (is_str t "tool_use") eqn:Eu.
  { intros [= <-] [Hp Hn%Z.leb_le]%andb_true_iff. constructor; cbn [toolMessages toolCalls parts]; rewrite ?app_nil_r, ?andb_true_r; try done.
    rewrite flat_map_app. f_equal. cbn [flat_map]. by rewrite read_tool_call. }
  destruct (is_str t "tool_result") eqn:Er.
  { intros [= <-] _. constructor; cbn [toolMessages toolCalls parts]; rewrite ?app_nil_r, ?andb_true_r; try done.
    rewrite flat_map_app. f_equal; cbn [flat_map]; by rewrite read_tool_message. }
  destruct (is_str t "thinking" || is_str t "redacted_thinking"); [|by case_match].
  intros [= <-] _. constructor; rewrite ?app_nil_r, ?andb_true_r; done.
Qed.

Lemma says_grows_trans s1 s2 s3 I J : grows s1 s2 I → grows s2 s3 J → grows s1 s3 (I ++ J).
Proof.
  intros [R1 C1 P1 T1 A1] [R2 C2 P2 T2 A2]. constructor; unfold results, calls, said, texts, images in *; rewrite omap_app, ?fmap_app.
  - by rewrite R2, R1, app_assoc.
  - by rewrite C2, C1, app_assoc.
  - by rewrite P2, P1, app_assoc.
  - by rewrite T2, T1, app_assoc.
  - rewrite A2, A1, <- andb_assoc. f_equal. rewrite <- bool_decide_and. apply bool_decide_ext. rewrite app_nil. done.
Qed.

Lemma blocks_grow blocks s s' : anthropic_blocks blocks s = inl s' → forallb decoded_block blocks = true →
  grows s s' (flat_map read_block blocks).
Proof.
  revert s. induction blocks as [|raw blocks IH]; intros s; simpl.
  - intros [= <-] _. constructor; rewrite ?app_nil_r, ?andb_true_r; done.
  - destruct (anthropic_block raw s) as [s1|] eqn:E; [|done]. intros H [Hd Hb]%andb_true_iff.
    eapply says_grows_trans; [by apply block_grows|by apply IH].
Qed.

(** The same results, calls, images and text. *)
Record says_same (I O : list item) : Prop := {
  ss_results : results O = results I;
  ss_calls : calls O = calls I;
  ss_images : images O = images I;
  ss_text : join newline (texts O) = join newline (texts I);
}.

Definition read_content (content : any) : list item :=
  match content with VStr s => [IText (VStr s)] | _ => flat_map read_block (default [] (as_arr content)) end.

(** A message the Anthropic format allows: no tool call of the user, no image
    of the assistant, and tool inputs as decoded. *)
Definition message_ok (role : string) (content : any) : Prop :=
  (role = "user" ∧ calls (read_content content) = [] ∨ role = "assistant" ∧ images (read_content content) = []) ∧
  forallb decoded_block (default [] (as_arr content)) = true.

Lemma said_obs I : results (said I) = [] ∧ calls (said I) = [] ∧ images (said I) = images I ∧ texts (said I) = texts I.
Proof.
  unfold results, calls, images, texts, said. induction I as [|[t|u|i n v|i r] I (IH1 & IH2 & IH3 & IH4)]; [done|..]; csimpl; rewrite ?IH1, ?IH2, ?IH3, ?IH4; split_and!; try done.
Qed.

Definition as_results (l : list (any * any)) : list item := (λ it, IResult it.1 it.2) <$> l.
Definition as_calls (l : list (any * any * any)) : list item := (λ c, ICall c.1.1 c.1.2 c.2) <$> l.

Lemma results_obs l : results (as_results l) = l ∧ calls (as_results l) = [] ∧ images (as_results l) = [] ∧ texts (as_results l) = [].
Proof.
  unfold results, calls, images, texts, as_results. induction l as [|[i t] l (IH1 & IH2 & IH3 & IH4)]; [done|]. csimpl.
  by rewrite IH1, IH2, IH3, IH4.
Qed.
Lemma calls_obs l : results (as_calls l) = [] ∧ calls (as_calls l) = l ∧ images (as_calls l) = [] ∧ texts (as_calls l) = [].
Proof.
  unfold results, calls, images, texts, as_calls. induction l as [|[[i n] v] l (IH1 & IH2 & IH3 & IH4)]; [done|]. csimpl.
  by rewrite IH1, IH2, IH3, IH4.
Qed.

Lemma obs_app l k : results (l ++ k) = results l ++ results k ∧ calls (l ++ k) = calls l ++ calls k ∧
  images (l ++ k) = images l ++ images k ∧ texts (l ++ k) = texts l ++ texts k.
Proof. unfold results, calls, images, texts. by rewrite !omap_app. Qed.

(** Results first, then what was said, then calls. *)
Lemma says_same_parts I mid : results mid = [] → calls mid = [] → images mid = images I → join newline (texts mid) = join newline (texts I) →
  says_same I (as_results (results I) ++ mid ++ as_calls (calls I)).
Proof.
  intros H1 H2 H3 H4. destruct (results_obs (results I)) as (R1 & R2 & R3 & R4), (calls_obs (calls I)) as (K1 & K2 & K3 & K4).
  destruct (obs_app (as_results (results I)) (mid ++ as_calls (calls I))) as (A1 & A2 & A3 & A4), (obs_app mid (as_calls (calls I))) as (B1 & B2 & B3 & B4).
  constructor; rewrite ?A1, ?A2, ?A3, ?A4, ?B1, ?B2, ?B3, ?B4, ?R1, ?R2, ?R3, ?R4, ?K1, ?K2, ?K3, ?K4, ?H1, ?H2, ?H3, ?app_nil_r; try done.
Qed.

Lemma read_results s' I : grows (mk_split [] [] []) s' I → snd <$> flat_map read_openai (toolMessages s') = as_results (results I).
Proof. intros [R _ _ _ _]. rewrite R. simpl. unfold as_results. by rewrite <- list_fmap_compose. Qed.

Lemma read_assistant text (calls : list any) :
  let msg := list_to_map [("role", VStr "assistant"); ("content", if (text =? "")%string then VNull else VStr text)] : body in
  snd <$> read_openai (VObj (with_calls calls msg)) =
    (if (text =? "")%string then [] else [IText (VStr text)]) ++ flat_map read_call calls.
Proof.
  cbv zeta. unfold read_openai. assert (Hr : ∀ c (m : body), get (with_calls c m) "role" = get m "role") by (intros [] ?; unfold with_calls; by lookups).
  assert (Hc : ∀ c (m : body), get (with_calls c m) "content" = get m "content") by (intros [] ?; unfold with_calls; by lookups).
  set (m := list_to_map _). cbn [as_obj]. rewrite Hr, Hc.
  assert (E1 : get m "role" = VStr "assistant") by (unfold m; by lookups).
  assert (E2 : get m "content" = if (text =? "")%string then VNull else VStr text) by (unfold m; by lookups).
  assert (E3 : default [] (as_arr (get (with_calls calls m) "tool_calls")) = calls) by (unfold m; destruct calls; unfold with_calls; by lookups).
  rewrite E1, E2, E3. cbn [as_str default from_option id]. change ("assistant" =? "user")%string with false. cbv iota. change ("assistant" =? "assistant")%string with true. cbv iota.
  assert (Et : spoken (if (text =? "")%string then VNull else VStr text) = text) by (destruct (String.eqb_spec text "") as [->|]; reflexivity).
  rewrite Et. cbv zeta. rewrite <- list_fmap_compose. apply list_fmap_id.
Qed.

Lemma read_user ps : snd <$> read_openai (obj [("role", VStr "user"); ("content", if allText ps then VStr (joinTextParts ps) else VArr ps)]) =
  if allText ps then [IText (VStr (joinTextParts ps))] else flat_map read_part ps.
Proof.
  unfold read_openai. set (m := as_obj _).
  assert (E1 : get m "role" = VStr "user") by (unfold m; by lookups).
  assert (E2 : get m "content" = if allText ps then VStr (joinTextParts ps) else VArr ps) by (unfold m; by lookups).
  rewrite E1, E2. cbn [as_str default from_option id]. change ("user" =? "user")%string with true. cbv iota. rewrite <- list_fmap_compose.
  destruct (allText ps); [done|]. cbn [as_arr default]. apply list_fmap_id.
Qed.

Lemma flat_map_one {A B} (f : A → list B) x : flat_map f [x] = f x.
Proof. apply app_nil_r. Qed.

Lemma user_says s I : grows (mk_split [] [] []) s I → calls I = [] →
  says_same I (snd <$> flat_map read_openai (toolMessages s ++ match parts s with
                 | [] => []
                 | ps => [obj [("role", VStr "user"); ("content", if allText ps then VStr (joinTextParts ps) else VArr ps)]]
                 end)).
Proof.
  intros Hg Hc. rewrite flat_map_app, fmap_app, (read_results _ _ Hg). destruct Hg as [_ _ Hp Ht Ha]. simpl in Hp, Ht, Ha.
  destruct (said_obs I) as (S1 & S2 & S3 & S4).
  assert (H : ∀ mid, results mid = [] → calls mid = [] → images mid = images I → join newline (texts mid) = join newline (texts I) →
    says_same I (as_results (results I) ++ mid)).
  { intros mid H1 H2 H3 H4. pose proof (says_same_parts I mid H1 H2 H3 H4) as H. rewrite Hc in H. simpl in H. by rewrite app_nil_r in H. }
  destruct (parts s) as [|p ps].
  - assert (Hn : said I = []) by done. rewrite Hn in S3, S4. apply (H []); try done. by rewrite <- S4.
  - set (P := p :: ps) in *. rewrite flat_map_one, (read_user P).
    destruct (allText P).
    + symmetry in Ha. apply bool_decide_eq_true in Ha. apply H; try done. simpl. unfold joinTextParts. by rewrite Ht.
    + change (flat_map read_part P = said I) in Hp. rewrite Hp. apply H; [done|done|done|by rewrite S4].
Qed.

Lemma assistant_says s I : grows (mk_split [] [] []) s I → images I = [] →
  says_same I (snd <$> flat_map read_openai (toolMessages s ++ [VObj (
     let msg := list_to_map [("role", VStr "assistant");
                  ("content", if (joinTextParts (parts s) =? "")%string then VNull else VStr (joinTextParts (parts s)))] : body in
     with_calls (toolCalls s) msg)])).
Proof.
  intros Hg Hi. rewrite flat_map_app, fmap_app, (read_results _ _ Hg). destruct Hg as [_ Hk _ Ht _]. simpl in Hk, Ht.
  cbv zeta. rewrite flat_map_one, (read_assistant (joinTextParts (parts s)) (toolCalls s)), Hk.
  apply says_same_parts; try (by case_match); unfold joinTextParts; rewrite Ht.
  destruct (String.eqb_spec (join newline (texts I)) "") as [->|]; done.
Qed.

Lemma message_says role content out : message_ok role content → anthropicMessageToOpenAI role content = inl out →
  says_same (read_content content) (snd <$> flat_map read_openai out).
Proof.
  intros [Hrole Hd] H. destruct (as_str content) as [s|] eqn:Es.
  - destruct content as [| | | |s'| | |]; try done. injection H as <-. simpl.
    destruct Hrole as [[-> _]|[-> _]]; unfold read_openai; lookups; [done|].
    change (spoken (VStr s')) with s'. by destruct (String.eqb_spec s' "") as [->|].
  - assert (Hr : read_content content = flat_map read_block (default [] (as_arr content))) by (by destruct content).
    assert (He : anthropicMessageToOpenAI role content = match anthropic_blocks (default [] (as_arr content)) (mk_split [] [] []) with
      | inr e => inr e | inl s => if (role =? "assistant")%string then
            let text := joinTextParts (parts s) in
            let msg := list_to_map [("role", VStr "assistant"); ("content", if (text =? "")%string then VNull else VStr text)] : body in
            let msg := with_calls (toolCalls s) msg in
            inl (toolMessages s ++ [VObj msg])
          else inl (toolMessages s ++ match parts s with [] => []
                 | ps => [obj [("role", VStr role); ("content", if allText ps then VStr (joinTextParts ps) else VArr ps)]] end) end)
      by (by destruct content).
    rewrite He in H. destruct (anthropic_blocks _ _) as [s|] eqn:Eb; [|done]. pose proof (blocks_grow _ _ _ Eb Hd) as Hg. rewrite <- Hr in Hg.
    destruct Hrole as [[-> Hc]|[-> Hi]]; injection H as <-; [by apply user_says|by apply assistant_says].
Qed.

Lemma messages_say msgs outs : Forall (λ m, message_ok (default "" (as_str (get (as_obj m) "role"))) (get (as_obj m) "content")) msgs →
  anthropic_messages msgs = inl outs → ∃ l, outs = concat l ∧
  Forall2 (λ m out, says_same (read_content (get (as_obj m) "content")) (snd <$> flat_map read_openai out)) msgs l.
Proof.
  intros H. revert outs. induction H as [|m msgs Hm _ IH]; intros outs; cbn [anthropic_messages]; [intros [= <-]; by exists []|].
  destruct (anthropicMessageToOpenAI _ _) as [o|] eqn:Eo; [|done]. destruct (anthropic_messages msgs) as [rest|]; [|done].
  intros [= <-]. destruct (IH rest eq_refl) as (l & -> & Hl). exists (o :: l). split; [done|]. constructor; [|done]. by apply (message_says _ _ _ Hm Eo).
Qed.

Lemma anthropic_tool_choice_ne tc out k : k ≠ "tool_choice" → k ≠ "parallel_tool_calls" → anthropic_tool_choice tc out !! k = out !! k.
Proof.
  intros H1 H2. unfold anthropic_tool_choice. repeat case_match; by rewrite ?lookup_insert_ne by done.
Qed.

Lemma anthropicToOpenAIRequest_messages i model out : anthropicToOpenAIRequest i model = inl out →
  ∃ system converted, anthropicSystemText (get i "system") = inl system ∧
    anthropic_messages (default [] (as_arr (get i "messages"))) = inl converted ∧
    out !! "messages" = Some (slice_of ((if (system =? "")%string then [] else [obj [("role", VStr "system"); ("content", VStr system)]]) ++ converted)).
Proof.
  unfold anthropicToOpenAIRequest. destruct (find _ _); [done|].
  replace (match i !! "system" with Some system => _ | None => _ end) with (anthropicSystemText (get i "system")) by (unfold get; by destruct (i !! "system")).
  destruct (anthropicSystemText _) as [system|]; [|done]. destruct (anthropic_messages _) as [converted|]; [|done].
  set (msgs := slice_of _). set (tools := match as_arr _ with Some _ => _ | None => _ end).
  assert (Htools : ∀ o, tools = inl o → o !! "messages" = Some msgs).
  { unfold tools. intros o. destruct (as_arr _) as [ts|]; [destruct (anthropic_tools ts); [|done]|]; intros [= <-]; by lookups. }
  destruct tools as [o|]; [|done]. specialize (Htools o eq_refl). intros [= <-]. exists system, converted. split_and!; [done|done|].
  rewrite !copyIf_upd. destruct (get i "metadata") as [| | | | | | |md]; [..|destruct (md !! "user_id")];
    upds; (destruct (get i "tool_choice"); [done..|by rewrite anthropic_tool_choice_ne]).
Qed.

(** A request crossing from Anthropic to OpenAI says the same.  Whenever
    the translation succeeds on messages the Anthropic format allows, the
    OpenAI messages are the system prompt and, for each message in order, the
    messages that carry its tool results, its tool calls with arguments that
    decode to their inputs, its images and its text, with nothing lost and
    nothing added. *)
Theorem anthropic_request_says_same i model out
    (Ht : anthropicToOpenAIRequest i model = inl out)
    (Hok : Forall (λ m, message_ok (default "" (as_str (get (as_obj m) "role"))) (get (as_obj m) "content"))
                  (default [] (as_arr (get i "messages")))) :
  ∃ system outs, out !! "messages" = Some (slice_of ((if (system =? "")%string then [] else
                     [obj [("role", VStr "system"); ("content", VStr system)]]) ++ concat outs)) ∧
    anthropicSystemText (get i "system") = inl system ∧
    Forall2 (λ m out, says_same (read_content (get (as_obj m) "content")) (snd <$> flat_map read_openai out))
      (default [] (as_arr (get i "messages"))) outs.
Proof.
  destruct (anthropicToOpenAIRequest_messages _ _ _ Ht) as (system & converted & Hs & Hc & Hm).
  destruct (messages_say _ _ Hok Hc) as (outs & -> & Ho). by exists system, outs.
Qed.

(** ** Examples *)

Definition quoted_json (s : string) : bytes := map (λ c, if Ascii.eqb c "'" then quote else c) (bs s).
Definition decode_body (s : string) : body := match UnmarshalAny (quoted_json s) with Some (VObj m) => m | _ => ∅ end.

Definition openai_example : body := Eval vm_compute in decode_body
  "{'model':'a/m','stream':true,'max_tokens':9000,'messages':[{'role':'system','content':'be brief'},{'role':'user','content':'hi'},{'role':'assistant','content':'','tool_calls':[{'id':'t1','type':'function','function':{'name':'f','arguments':'{}'}}]},{'role':'tool','tool_call_id':'t1','content':'42'},{'role':'user','content':[{'type':'text','text':'and?'}]}]}".
Definition anthropic_example : body := Eval vm_compute in
  match openAIToAnthropicRequest openai_example "claude" 4096 with inl out => out | inr _ => ∅ end.

Example example_translation : MarshalAny (VObj anthropic_example) = quoted_json
  "{'max_tokens':4096,'messages':[{'content':[{'text':'hi','type':'text'}],'role':'user'},{'content':[{'id':'t1','input':{},'name':'f','type':'tool_use'}],'role':'assistant'},{'content':[{'content':'42','tool_use_id':'t1','type':'tool_result'},{'text':'and?','type':'text'}],'role':'user'}],'model':'claude','stream':true,'system':'be brief'}".
Proof. vm_compute. reflexivity. Qed.


Lemma openai_request_bounded_witness : ∃ n, anthropic_example !! "max_tokens" = Some (VInt n) ∧ (n ≤ 4096)%Z.
Proof.
  destruct (openai_request_bounded openai_example "claude" 4096 anthropic_example ltac:(vm_compute; reflexivity)) as (_ & (n & H1 & H2 & _) & _).
  exists n. split; [exact H1|]. apply H2. lia.
Defined.

Definition tool_use_example : body := Eval vm_compute in decode_body "{'type':'tool_use','id':'t1','name':'f','input':{'a':[1,2.5,null],'b<':'x'}}".

Lemma tool_call_roundtrip_witness : openai_call (tool_call tool_use_example) =
  inl (obj [("type", VStr "tool_use"); ("id", VStr "t1"); ("name", VStr "f"); ("input", get tool_use_example "input")]).
Proof.
  exact (tool_call_roundtrip tool_use_example ltac:(vm_compute; reflexivity) ltac:(vm_compute; congruence)).
Defined.

Definition anthropic_request_example : body := Eval vm_compute in decode_body
  "{'model':'a/m','system':'be brief','max_tokens':10,'messages':[{'role':'user','content':[{'type':'text','text':'a'},{'type':'text','text':'b'}]},{'role':'assistant','content':[{'type':'tool_use','id':'t1','name':'f','input':{'x':1}}]},{'role':'user','content':[{'type':'tool_result','tool_use_id':'t1','content':'42','is_error':true},{'type':'text','text':'ok'}]}]}".
Definition anthropic_messages_example : list any := Eval vm_compute in default [] (as_arr (get anthropic_request_example "messages")).
Definition openai_out_example : body := Eval vm_compute in
  match anthropicToOpenAIRequest anthropic_request_example "gpt" with inl out => out | inr _ => ∅ end.

Lemma anthropic_request_says_same_witness : ∃ system outs, anthropicSystemText (get anthropic_request_example "system") = inl system ∧
  Forall2 (λ m out, says_same (read_content (get (as_obj m) "content")) (snd <$> flat_map read_openai out))
    (default [] (as_arr (get anthropic_request_example "messages"))) outs.
Proof.
  destruct (anthropic_request_says_same anthropic_request_example "gpt" openai_out_example ltac:(vm_compute; reflexivity)) as (system & outs & _ & H2 & H3).
  { change (default [] (as_arr (get anthropic_request_example "messages"))) with anthropic_messages_example. unfold anthropic_messages_example.
    repeat (apply List.Forall_cons;
      [split; [first [left; split; vm_compute; reflexivity|right; split; vm_compute; reflexivity]|vm_compute; reflexivity]|]). apply List.Forall_nil. }
  exists system, outs. split; [exact H2|exact H3].
Defined.
