(* ===== verification/TranslateStream.v ===== *)
(** Success bodies and error envelopes between the two formats:
    internal/llmtranslate/response.go.

    Then the line-by-line stream translators of
    internal/llmtranslate/stream.go. *)

From stdpp Require Import base list strings option gmap.
From Stdlib Require Import ZArith Lia Ascii.
From S2P Require Import Prelude GoFloat Json JsonString JsonValue JsonDecode Api BudgetLedger Auth Routing Fallback Translate TranslateFacts.

(** ** Stop reasons *)

Definition stopToFinish : gmap string string := list_to_map
  [("end_turn", "stop"); ("max_tokens", "length"); ("tool_use", "tool_calls");
   ("stop_sequence", "stop"); ("refusal", "content_filter"); ("pause_turn", "stop")].

Definition finishToStop : gmap string string := list_to_map
  [("stop", "end_turn"); ("length", "max_tokens"); ("tool_calls", "tool_use"); ("content_filter", "refusal")].

(** [m[k]], with a default for "". *)
Definition lookup_or (m : gmap string string) (k d : string) : string :=
  let v := default "" (m !! k) in if (v =? "")%string then d else v.

(** ** Anthropic to OpenAI *)

Record anthropicResponse := mk_anthropic_response {
  ar_ID : string; ar_Model : string; ar_Content : list any; ar_StopReason : string;
  ar_InputTokens : Z; ar_OutputTokens : Z; ar_CacheRead : Z; ar_CacheCreation : Z;
}.

Definition anthropicResponse_type : gty := TStruct
  [("id", TString); ("model", TString); ("content", TSlice TMap); ("stop_reason", TString);
   ("usage", TStruct [("input_tokens", TInt); ("output_tokens", TInt);
                      ("cache_read_input_tokens", TInt); ("cache_creation_input_tokens", TInt)])].

Definition anthropicResponse_of (v : gval) : anthropicResponse :=
  let u := gfield v 4 in
  mk_anthropic_response (gstr (gfield v 0)) (gstr (gfield v 1)) (map gany (glist (gfield v 2))) (gstr (gfield v 3))
    (gint (gfield u 0)) (gint (gfield u 1)) (gint (gfield u 2)) (gint (gfield u 3)).

(** One block of the loop: the text so far and the calls so far. *)
Definition response_block (acc : string * list any) (raw : any) : string * list any :=
  let b := as_obj raw in
  let '(text, calls) := acc in
  if is_str (get b "type") "text" then
    match as_str (get b "text") with
    | Some t => ((if (text =? "")%string then "" else text +:+ newline) +:+ t, calls)
    | None => acc
    end
  else if is_str (get b "type") "tool_use" then (text, calls ++ [tool_call b])
  else acc.

Definition response_message (content : list any) : body :=
  let '(text, calls) := foldl response_block ("", []) content in
  with_calls calls (list_to_map [("role", VStr "assistant"); ("content", if (text =? "")%string then VNull else VStr text)]).

Definition openai_response (now : Z) (r : anthropicResponse) : any :=
  let prompt := wrap64 (wrap64 (ar_InputTokens r + ar_CacheRead r) + ar_CacheCreation r) in
  obj [("id", VStr (ar_ID r)); ("object", VStr "chat.completion"); ("created", VInt now); ("model", VStr (ar_Model r));
       ("choices", VArr [obj [("index", VInt 0); ("message", VObj (response_message (ar_Content r)));
                              ("finish_reason", VStr (lookup_or stopToFinish (ar_StopReason r) "stop"))]]);
       ("usage", obj [("prompt_tokens", VInt prompt); ("completion_tokens", VInt (ar_OutputTokens r));
                      ("total_tokens", VInt (wrap64 (prompt + ar_OutputTokens r)))])].

Definition anthropicToOpenAIResponse (now : Z) (b : bytes) : option bytes :=
  match UnmarshalInto anthropicResponse_type b with
  | Some v => Some (MarshalAny (openai_response now (anthropicResponse_of v)))
  | None => None
  end.

(** ** OpenAI to Anthropic *)

Record openAICall := mk_openai_call { oc_ID : string; oc_Name : string; oc_Arguments : string }.
Record openAIResponse := mk_openai_response {
  or_ID : string; or_Model : string;
  or_Choices : list (any * list openAICall * string);
  or_PromptTokens : Z; or_CompletionTokens : Z;
}.

Definition openAIResponse_type : gty := TStruct
  [("id", TString); ("model", TString);
   ("choices", TSlice (TStruct
      [("message", TStruct [("content", TAny);
         ("tool_calls", TSlice (TStruct [("id", TString); ("function", TStruct [("name", TString); ("arguments", TString)])]))]);
       ("finish_reason", TString)]));
   ("usage", TStruct [("prompt_tokens", TInt); ("completion_tokens", TInt)])].

Definition openAICall_of (v : gval) : openAICall :=
  let f := gfield v 1 in mk_openai_call (gstr (gfield v 0)) (gstr (gfield f 0)) (gstr (gfield f 1)).

Definition openAIResponse_of (v : gval) : openAIResponse :=
  let choice c := let m := gfield c 0 in (gany (gfield m 0), map openAICall_of (glist (gfield m 1)), gstr (gfield c 1)) in
  mk_openai_response (gstr (gfield v 0)) (gstr (gfield v 1)) (map choice (glist (gfield v 2)))
    (gint (gfield (gfield v 3) 0)) (gint (gfield (gfield v 3) 1)).

(** Arguments that are not JSON are kept under _arguments. *)
Definition response_input (args : string) : any :=
  if (args =? "")%string then VObj ∅
  else match UnmarshalAny (bs args) with Some v => v | None => obj [("_arguments", VStr args)] end.

Definition response_call (c : openAICall) : any :=
  obj [("type", VStr "tool_use"); ("id", VStr (oc_ID c)); ("name", VStr (oc_Name c)); ("input", response_input (oc_Arguments c))].

Definition response_content (content : any) (calls : list openAICall) : list any :=
  let text := contentText content in
  (if (text =? "")%string then [] else [text_block (VStr text)]) ++ map response_call calls.

Definition anthropic_response (r : openAIResponse) : any :=
  let '(content, stop) :=
    match or_Choices r with
    | [] => ([], "end_turn")
    | (c, calls, finish) :: _ =>
        (response_content c calls,
         match calls with [] => default "end_turn" (finishToStop !! finish) | _ => "tool_use" end)
    end in
  obj [("id", VStr (or_ID r)); ("type", VStr "message"); ("role", VStr "assistant"); ("model", VStr (or_Model r));
       ("content", VArr content); ("stop_reason", VStr stop); ("stop_sequence", VNull);
       ("usage", obj [("input_tokens", VInt (or_PromptTokens r)); ("output_tokens", VInt (or_CompletionTokens r))])].

Definition openAIToAnthropicResponse (b : bytes) : option bytes :=
  match UnmarshalInto openAIResponse_type b with
  | Some v => Some (MarshalAny (anthropic_response (openAIResponse_of v)))
  | None => None
  end.

Definition Response (now : Z) (from to : Format) (b : bytes) : option bytes :=
  if (from =? to)%string then Some b
  else if (from =? FormatAnthropic)%string && (to =? FormatOpenAI)%string then anthropicToOpenAIResponse now b
  else if (from =? FormatOpenAI)%string && (to =? FormatAnthropic)%string then openAIToAnthropicResponse b
  else None.

(** ** Error *)

Definition errorEnvelope_type : gty := TStruct [("error", TStruct [("type", TString); ("message", TString)])].

(** The type and message of an error body, "" where it has none. *)
Definition errorFields (from : Format) (b : bytes) : string * string :=
  if negb ((from =? FormatAnthropic)%string || (from =? FormatOpenAI)%string) then ("", "")
  else match UnmarshalInto errorEnvelope_type b with
       | Some v =>
           let e := gfield v 0 in
           if (gstr (gfield e 1) =? "")%string then ("", "") else (gstr (gfield e 0), gstr (gfield e 1))
       | None => ("", "")
       end.

Definition error_envelope (to : Format) (errType message : string) : any :=
  if (to =? FormatAnthropic)%string then
    obj [("type", VStr "error"); ("error", obj [("type", VStr errType); ("message", VStr message)])]
  else obj [("error", obj [("message", VStr message); ("type", VStr errType); ("code", VNull)])].

Definition Error (from to : Format) (b : bytes) : bytes :=
  if (from =? to)%string then b
  else
    let '(errType, message) := errorFields from b in
    let message := if (message =? "")%string then str b else message in
    let errType := if (errType =? "")%string then "invalid_request_error" else errType in
    MarshalAny (error_envelope to errType message).

(** ** What a translated answer says *)

(** The texts of a message, a line each, empty ones at the start dropped. *)
Definition add_line (text t : string) : string := (if (text =? "")%string then "" else text +:+ newline) +:+ t.
Definition lines_of (ts : list string) : string := foldl add_line "" ts.

Lemma lines_from ts acc : acc ≠ "" → Forall (λ t, t ≠ "") ts →
  foldl add_line acc ts = join newline (acc :: ts).
Proof.
  revert acc. induction ts as [|t ts IH]; intros acc Ha Ht; [done|]. apply Forall_cons in Ht as [H1 H2]. cbn [foldl]. unfold add_line at 2.
  destruct (String.eqb_spec acc "") as [|_]; [done|]. rewrite IH; [|by destruct acc|done].
  unfold join. destruct ts; cbn [String.concat]; unfold String.app; fold String.append; by rewrite <- ?string_app_assoc.
Qed.

Lemma lines_of_join ts : Forall (λ t, t ≠ "") ts → lines_of ts = join newline ts.
Proof.
  intros Ht. unfold lines_of. destruct ts as [|t ts]; [done|]. apply Forall_cons in Ht as [H1 H2]. cbn [foldl]. by apply lines_from.
Qed.

Lemma response_block_spec text cs raw : decoded_block raw = true →
  (response_block (text, cs) raw).1 = foldl add_line text (texts (read_block raw)) ∧
  flat_map read_call (response_block (text, cs) raw).2 = flat_map read_call cs ++ as_calls (calls (read_block raw)).
Proof.
  unfold response_block, read_block, decoded_block. set (b := as_obj raw). set (t := get b "type").
  destruct (is_str t "text") eqn:E1; [intros _; destruct (get b "text"); cbn [as_str]; by rewrite app_nil_r|].
  destruct (is_str t "tool_use") eqn:E2.
  { apply is_str_eq in E2. rewrite E2. intros [Hp Hn%Z.leb_le]%andb_true_iff. cbn [is_str]. change ("tool_use" =? "image")%string with false.
    change ("tool_use" =? "tool_use")%string with true. cbv iota. split; [done|]. cbn [snd]. by rewrite flat_map_app, flat_map_one, read_tool_call. }
  intros _. destruct (is_str t "image"); [destruct (anthropicImageURL b)|destruct (is_str t "tool_result")]; by rewrite app_nil_r.
Qed.

Lemma response_blocks_spec content text cs : forallb decoded_block content = true →
  let r := foldl response_block (text, cs) content in
  r.1 = foldl add_line text (texts (flat_map read_block content)) ∧
  flat_map read_call r.2 = flat_map read_call cs ++ as_calls (calls (flat_map read_block content)).
Proof.
  cbv zeta. revert text cs. induction content as [|raw content IH]; intros text cs; cbn [forallb foldl flat_map]; [by rewrite app_nil_r|].
  intros [Hd Hc]%andb_true_iff. destruct (obs_app (read_block raw) (flat_map read_block content)) as (_ & Ek & _ & Et). rewrite Ek, Et, foldl_app.
  destruct (response_block_spec text cs raw Hd) as [H1 H2]. destruct (response_block (text, cs) raw) as [text' cs']. simpl in H1, H2. subst text'.
  destruct (IH (foldl add_line text (texts (read_block raw))) cs' Hc) as [-> H4]. split; [done|]. rewrite H4, H2. unfold as_calls. by rewrite fmap_app, app_assoc.
Qed.

(** An answer crossing from Anthropic to OpenAI says the same: its
    message carries the text blocks, a line each, and every tool call in
    order with arguments that decode to its input, and the usage it shows has
    the cached input in the prompt and adds up. *)
Theorem anthropic_response_says_same now r
    (Hd : forallb decoded_block (ar_Content r) = true)
    (Hn : Forall (λ t, t ≠ "") (texts (flat_map read_block (ar_Content r)))) :
  let I := flat_map read_block (ar_Content r) in
  let O := snd <$> read_openai (VObj (response_message (ar_Content r))) in
  calls O = calls I ∧ join newline (texts O) = join newline (texts I) ∧ images O = [] ∧ results O = [] ∧
  let prompt := wrap64 (wrap64 (ar_InputTokens r + ar_CacheRead r) + ar_CacheCreation r) in
  as_obj (openai_response now r) !! "usage" = Some (obj [("prompt_tokens", VInt prompt);
    ("completion_tokens", VInt (ar_OutputTokens r)); ("total_tokens", VInt (wrap64 (prompt + ar_OutputTokens r)))]).
Proof.
  cbv zeta. destruct (response_blocks_spec (ar_Content r) "" [] Hd) as [Ht Hc]. unfold response_message.
  destruct (foldl response_block ("", []) (ar_Content r)) as [text cs]. simpl in Ht, Hc. subst text.
  set (I := flat_map read_block (ar_Content r)) in *. fold (lines_of (texts I)). rewrite (lines_of_join _ Hn). rewrite (read_assistant (join newline (texts I)) cs), Hc.
  destruct (calls_obs (calls I)) as (K1 & K2 & K3 & K4). set (mid := if (_ =? _)%string then _ else _).
  assert (Hm : results mid = [] ∧ calls mid = [] ∧ images mid = [] ∧ join newline (texts mid) = join newline (texts I))
    by (unfold mid; destruct (String.eqb_spec (join newline (texts I)) "") as [->|]; done).
  destruct Hm as (M1 & M2 & M3 & M4). destruct (obs_app mid (as_calls (calls I))) as (A1 & A2 & A3 & A4).
  rewrite A1, A2, A3, A4, K1, K2, K3, K4, M1, M2, M3, app_nil_r. split_and!; done.
Qed.

Definition answer_example : bytes := quoted_json
  "{'id':'m1','model':'claude','content':[{'type':'text','text':'a'},{'type':'tool_use','id':'t1','name':'f','input':{'x':[1.5]}},{'type':'text','text':'b'}],'stop_reason':'tool_use','usage':{'input_tokens':3,'output_tokens':4,'cache_read_input_tokens':2}}".
Definition answer_response : anthropicResponse := Eval vm_compute in
  match UnmarshalInto anthropicResponse_type answer_example with Some v => anthropicResponse_of v | None => mk_anthropic_response "" "" [] "" 0 0 0 0 end.

Lemma anthropic_response_says_same_witness :
  calls (snd <$> read_openai (VObj (response_message (ar_Content answer_response)))) = calls (flat_map read_block (ar_Content answer_response)).
Proof.
  exact (proj1 (anthropic_response_says_same 0 answer_response ltac:(vm_compute; reflexivity) ltac:(vm_compute; repeat (constructor; [discriminate|]); constructor))).
Defined.

Example answer_translated : anthropicToOpenAIResponse 7 answer_example = Some
  (map (λ c, if Ascii.eqb c "'" then quote else if Ascii.eqb c "~" then backslash else c) (bs
  "{'choices':[{'finish_reason':'tool_calls','index':0,'message':{'content':'a~nb','role':'assistant','tool_calls':[{'function':{'arguments':'{~'x~':[1.5]}','name':'f'},'id':'t1','type':'function'}]}}],'created':7,'id':'m1','model':'claude','object':'chat.completion','usage':{'completion_tokens':4,'prompt_tokens':5,'total_tokens':9}}")).
Proof. vm_compute. reflexivity. Qed.

(** Streams between the two formats: internal/llmtranslate/stream.go.

    A translator takes the upstream's SSE lines one by one.  Its steps are
    written on events, a name (or none) with a payload, and the lines it
    returns are those events rendered. *)


(** ** Lines *)

Inductive sse :=
  | Event (name : string) (payload : any)
  | Data (payload : any)
  | DataDone.

(** [sseLines.event] and [sseLines.data]: the event's lines and the blank one
    that ends it. *)
Definition data_lines (payload : any) : list bytes := [bs "data: " ++ MarshalAny payload; []].
Definition event_lines (name : string) (payload : any) : list bytes := bs ("event: " +:+ name) :: data_lines payload.

Definition render (e : sse) : list bytes :=
  match e with
  | Event name payload => event_lines name payload
  | Data payload => data_lines payload
  | DataDone => [bs "data: [DONE]"; []]
  end.

(** [bytes.TrimSpace] on UTF-8 text: the runes up to the last that is no
    space. *)
Fixpoint trim_right (rs : list (bytes * Z)) : bytes :=
  match rs with
  | [] => []
  | (b, r) :: rs => match trim_right rs with
                    | [] => if unicode_space r then [] else b
                    | t => b ++ t
                    end
  end.

Fixpoint rune_pieces (skip : nat) (b : bytes) : list (bytes * Z) :=
  match b, skip with
  | [], _ => []
  | _ :: b', S k => rune_pieces k b'
  | c :: b', O => let '(r, n) := DecodeRune b in (take n b, r) :: rune_pieces (n - 1) b'
  end.

Fixpoint trim_left (rs : list (bytes * Z)) : list (bytes * Z) :=
  match rs with
  | [] => []
  | (b, r) :: rs' => if unicode_space r then trim_left rs' else rs
  end.

Definition TrimSpaceBytes (b : bytes) : bytes := trim_right (trim_left (rune_pieces 0 b)).

(** The rest after a prefix. *)
Definition cut_prefix (p b : bytes) : option bytes := if bool_decide (take (length p) b = p) then Some (drop (length p) b) else None.

(** ** OpenAI chunks to Anthropic events *)

Record toolDelta := mk_tool_delta { td_index : Z; td_id : string; td_function : option (string * string) }.
Record choiceDelta := mk_choice_delta { cd_content : option string; cd_toolCalls : list toolDelta; cd_finish : option string }.
Record openAIChunk := mk_openai_chunk { ck_model : string; ck_choices : list choiceDelta; ck_usage : option (Z * Z) }.

Definition openAIChunk_type : gty := TStruct
  [("model", TString);
   ("choices", TSlice (TStruct
      [("delta", TStruct
         [("content", TPtr TString);
          ("tool_calls", TSlice (TStruct
             [("index", TInt); ("id", TString);
              ("function", TPtr (TStruct [("name", TString); ("arguments", TString)]))]))]);
       ("finish_reason", TPtr TString)]));
   ("usage", TPtr (TStruct [("prompt_tokens", TInt); ("completion_tokens", TInt)]))].

Definition toolDelta_of (v : gval) : toolDelta :=
  mk_tool_delta (gint (gfield v 0)) (gstr (gfield v 1)) ((λ f, (gstr (gfield f 0), gstr (gfield f 1))) <$> gptr (gfield v 2)).
Definition choiceDelta_of (v : gval) : choiceDelta :=
  let d := gfield v 0 in
  mk_choice_delta (gstr <$> gptr (gfield d 0)) (map toolDelta_of (glist (gfield d 1))) (gstr <$> gptr (gfield v 1)).
Definition openAIChunk_of (v : gval) : openAIChunk :=
  mk_openai_chunk (gstr (gfield v 0)) (map choiceDelta_of (glist (gfield v 1)))
    ((λ u, (gint (gfield u 0), gint (gfield u 1))) <$> gptr (gfield v 2)).

Record openAIToAnthropicStream := mk_o2a {
  oa_model : string;
  oa_id : string;
  started : bool;
  blockOpen : bool;
  blockIndex : Z;
  blockIsTool : bool;
  toolIndexes : option (gmap Z Z);
  oa_finish : string;
  deltaSent : bool;
  stopped : bool;
  outputTokens : Z;
  inputTokens : Z;
}.

Definition new_o2a (model id : string) : openAIToAnthropicStream :=
  mk_o2a model id false false 0 false None "" false false 0 0.

(** The payloads, with the fields of the typed structs. *)
Definition usage_any (i o : Z) : any := obj [("input_tokens", VInt i); ("output_tokens", VInt o)].
Definition message_start (id model : string) : sse :=
  Event "message_start" (obj [("type", VStr "message_start");
    ("message", obj [("content", VArr []); ("id", VStr id); ("model", VStr model); ("role", VStr "assistant");
                     ("stop_reason", VNull); ("stop_sequence", VNull); ("type", VStr "message"); ("usage", usage_any 0 0)])]).
Definition block_start (index : Z) (block : any) : sse :=
  Event "content_block_start" (obj [("type", VStr "content_block_start"); ("index", VInt index); ("content_block", block)]).
Definition block_delta (index : Z) (delta : any) : sse :=
  Event "content_block_delta" (obj [("type", VStr "content_block_delta"); ("index", VInt index); ("delta", delta)]).
Definition block_stop (index : Z) : sse :=
  Event "content_block_stop" (obj [("type", VStr "content_block_stop"); ("index", VInt index)]).
Definition message_delta (stop : string) (i o : Z) : sse :=
  Event "message_delta" (obj [("type", VStr "message_delta");
    ("delta", obj [("stop_reason", VStr stop); ("stop_sequence", VNull)]); ("usage", usage_any i o)]).
Definition message_stop : sse := Event "message_stop" (obj [("type", VStr "message_stop")]).

Definition text_start : any := obj [("type", VStr "text"); ("text", VStr "")].
Definition tool_start (id name : string) : any :=
  obj [("type", VStr "tool_use"); ("id", VStr id); ("input", VObj ∅); ("name", VStr name)].
Definition text_delta (t : string) : any := obj [("type", VStr "text_delta"); ("text", VStr t)].
Definition input_json_delta (t : string) : any := obj [("type", VStr "input_json_delta"); ("partial_json", VStr t)].

Definition set_block (s : openAIToAnthropicStream) (open : bool) (index : Z) (tool : bool) : openAIToAnthropicStream :=
  mk_o2a (oa_model s) (oa_id s) (started s) open index tool (toolIndexes s) (oa_finish s) (deltaSent s) (stopped s)
    (outputTokens s) (inputTokens s).
Definition set_tools (s : openAIToAnthropicStream) (m : gmap Z Z) : openAIToAnthropicStream :=
  mk_o2a (oa_model s) (oa_id s) (started s) (blockOpen s) (blockIndex s) (blockIsTool s) (Some m) (oa_finish s) (deltaSent s)
    (stopped s) (outputTokens s) (inputTokens s).
Definition set_finish (s : openAIToAnthropicStream) (f : string) : openAIToAnthropicStream :=
  mk_o2a (oa_model s) (oa_id s) (started s) (blockOpen s) (blockIndex s) (blockIsTool s) (toolIndexes s) f (deltaSent s)
    (stopped s) (outputTokens s) (inputTokens s).
Definition set_delta_sent (s : openAIToAnthropicStream) : openAIToAnthropicStream :=
  mk_o2a (oa_model s) (oa_id s) (started s) (blockOpen s) (blockIndex s) (blockIsTool s) (toolIndexes s) (oa_finish s) true
    (stopped s) (outputTokens s) (inputTokens s).
Definition set_stopped (s : openAIToAnthropicStream) : openAIToAnthropicStream :=
  mk_o2a (oa_model s) (oa_id s) (started s) (blockOpen s) (blockIndex s) (blockIsTool s) (toolIndexes s) (oa_finish s)
    (deltaSent s) true (outputTokens s) (inputTokens s).
Definition set_started (s : openAIToAnthropicStream) (model : string) : openAIToAnthropicStream :=
  mk_o2a model (oa_id s) true (blockOpen s) (blockIndex s) (blockIsTool s) (toolIndexes s) (oa_finish s) (deltaSent s)
    (stopped s) (outputTokens s) (inputTokens s).
Definition set_usage (s : openAIToAnthropicStream) (i o : Z) : openAIToAnthropicStream :=
  mk_o2a (oa_model s) (oa_id s) (started s) (blockOpen s) (blockIndex s) (blockIsTool s) (toolIndexes s) (oa_finish s)
    (deltaSent s) (stopped s) o i.

Definition step : Type := openAIToAnthropicStream * list sse.

Definition openBlock (s : openAIToAnthropicStream) (block : any) (isTool : bool) : step :=
  let '(index, closing) := if blockOpen s then ((blockIndex s + 1)%Z, [block_stop (blockIndex s)]) else (blockIndex s, []) in
  (set_block s true index isTool, closing ++ [block_start index block]).

Definition messageDelta (s : openAIToAnthropicStream) : step :=
  let closing := if blockOpen s then [block_stop (blockIndex s)] else [] in
  let s := set_block s false (blockIndex s) (blockIsTool s) in
  let stop := if (oa_finish s =? "tool_calls")%string
                 || bool_decide (is_Some (toolIndexes s)) && (oa_finish s =? "stop")%string
              then "tool_use" else lookup_or finishToStop (oa_finish s) "end_turn" in
  (set_delta_sent s, closing ++ [message_delta stop (inputTokens s) (outputTokens s)]).

Definition Finish (s : openAIToAnthropicStream) : step :=
  if stopped s then (s, [])
  else
    let s := set_stopped s in
    if negb (started s) then (s, [])
    else
      let '(s, out) := if deltaSent s then (s, []) else messageDelta s in
      (s, out ++ [message_stop]).

Definition feed_text (s : openAIToAnthropicStream) (t : string) : step :=
  let '(s, out) := if negb (blockOpen s) || blockIsTool s then openBlock s text_start false else (s, []) in
  (s, out ++ [block_delta (blockIndex s) (text_delta t)]).

Definition feed_call (s : openAIToAnthropicStream) (c : toolDelta) : step :=
  let s := set_tools s (default ∅ (toolIndexes s)) in
  let known := default ∅ (toolIndexes s) in
  let '(s, out) :=
    match known !! td_index c with
    | Some _ => (s, [])
    | None =>
        let name := match td_function c with Some (name, _) => name | None => "" end in
        let '(s, out) := openBlock s (tool_start (td_id c) name) true in
        (set_tools s (<[td_index c := blockIndex s]> known), out)
    end in
  match td_function c with
  | Some (_, args) =>
      if (args =? "")%string then (s, out)
      else (s, out ++ [block_delta (default 0%Z (default ∅ (toolIndexes s) !! td_index c)) (input_json_delta args)])
  | None => (s, out)
  end.

(** A loop that carries the state and appends the events. *)
Fixpoint each_step {S A} (f : S → A → S * list sse) (s : S) (l : list A) : S * list sse :=
  match l with
  | [] => (s, [])
  | x :: l => let '(s, o1) := f s x in let '(s, o2) := each_step f s l in (s, o1 ++ o2)
  end.

Definition feed_choice (s : openAIToAnthropicStream) (c : choiceDelta) : step :=
  let '(s, o1) := match cd_content c with
                  | Some t => if (t =? "")%string then (s, []) else feed_text s t
                  | None => (s, [])
                  end in
  let '(s, o2) := each_step feed_call s (cd_toolCalls c) in
  (match cd_finish c with Some f => if (f =? "")%string then s else set_finish s f | None => s end, o1 ++ o2).

(** What Feed does with a decoded chunk. *)
Definition feed_chunk (s : openAIToAnthropicStream) (c : openAIChunk) : step :=
  let '(s, o1) := if started s then (s, [])
                  else let model := if (ck_model c =? "")%string then oa_model s else ck_model c in
                       (set_started s model, [message_start (oa_id s) model]) in
  let s := match ck_usage c with Some (i, o) => set_usage s i o | None => s end in
  let '(s, o2) := each_step feed_choice s (ck_choices c) in
  if negb (oa_finish s =? "")%string && bool_decide (is_Some (ck_usage c)) && negb (deltaSent s)
  then let '(s, o3) := messageDelta s in (s, o1 ++ o2 ++ o3)
  else (s, o1 ++ o2).

Definition feed_events (s : openAIToAnthropicStream) (line : bytes) : step :=
  match cut_prefix (bs "data:") line with
  | None => (s, [])
  | Some data =>
      let data := TrimSpaceBytes data in
      if bool_decide (data = bs "[DONE]") then Finish s
      else match UnmarshalInto openAIChunk_type data with
           | None => (s, [])
           | Some v => feed_chunk s (openAIChunk_of v)
           end
  end.

Definition Feed (s : openAIToAnthropicStream) (line : bytes) : openAIToAnthropicStream * list bytes :=
  let '(s, out) := feed_events s line in (s, flat_map render out).

(** ** Anthropic events to OpenAI chunks *)

Record anthropicEvent := mk_anthropic_event {
  ev_type : string;
  ev_index : f64;
  ev_delta_type : string;
  ev_delta_text : any;
  ev_delta_json : any;
  ev_stop_reason : string;
  ev_message : any;
  ev_block : any;
  ev_usage : any;
  ev_error : any;
}.

Definition anthropicEvent_type : gty := TStruct
  [("type", TString); ("index", TFloat);
   ("delta", TStruct [("type", TString); ("text", TAny); ("partial_json", TAny); ("stop_reason", TString)]);
   ("message", TAny); ("content_block", TAny); ("usage", TAny); ("error", TAny)].

Definition anthropicEvent_of (v : gval) : anthropicEvent :=
  let d := gfield v 2 in
  mk_anthropic_event (gstr (gfield v 0)) (gfloat (gfield v 1)) (gstr (gfield d 0)) (gany (gfield d 1)) (gany (gfield d 2))
    (gstr (gfield d 3)) (gany (gfield v 3)) (gany (gfield v 4)) (gany (gfield v 5)) (gany (gfield v 6)).

Record anthropicToOpenAIStream := mk_a2o {
  ao_model : string;
  ao_id : string;
  ao_created : Z;
  ao_event : string;
  toolIndex : Z;
  ao_blocks : gmap Z Z;
  usage_in : Z;
  usage_out : Z;
  finished : bool;
  done_ : bool;
}.

Definition new_a2o (model id : string) (created : Z) : anthropicToOpenAIStream :=
  mk_a2o model id created "" 0 ∅ 0 0 false false.

Definition with_event (s : anthropicToOpenAIStream) (e : string) : anthropicToOpenAIStream :=
  mk_a2o (ao_model s) (ao_id s) (ao_created s) e (toolIndex s) (ao_blocks s) (usage_in s) (usage_out s) (finished s) (done_ s).
Definition with_model (s : anthropicToOpenAIStream) (model : string) : anthropicToOpenAIStream :=
  mk_a2o model (ao_id s) (ao_created s) (ao_event s) (toolIndex s) (ao_blocks s) (usage_in s) (usage_out s) (finished s) (done_ s).
Definition with_tokens (s : anthropicToOpenAIStream) (i o : Z) : anthropicToOpenAIStream :=
  mk_a2o (ao_model s) (ao_id s) (ao_created s) (ao_event s) (toolIndex s) (ao_blocks s) i o (finished s) (done_ s).
Definition with_tool (s : anthropicToOpenAIStream) (index : Z) : anthropicToOpenAIStream :=
  mk_a2o (ao_model s) (ao_id s) (ao_created s) (ao_event s) (toolIndex s + 1) (<[index := toolIndex s]> (ao_blocks s))
    (usage_in s) (usage_out s) (finished s) (done_ s).
Definition with_flags (s : anthropicToOpenAIStream) (f d : bool) : anthropicToOpenAIStream :=
  mk_a2o (ao_model s) (ao_id s) (ao_created s) (ao_event s) (toolIndex s) (ao_blocks s) (usage_in s) (usage_out s) f d.

Definition chunk (s : anthropicToOpenAIStream) (delta finish : any) : sse :=
  Data (obj [("choices", VArr [obj [("delta", delta); ("finish_reason", finish); ("index", VInt 0)]]);
             ("created", VInt (ao_created s)); ("id", VStr (ao_id s)); ("model", VStr (ao_model s));
             ("object", VStr "chat.completion.chunk")]).

Definition usage_chunk (s : anthropicToOpenAIStream) : sse :=
  Data (obj [("choices", VArr []); ("created", VInt (ao_created s)); ("id", VStr (ao_id s)); ("model", VStr (ao_model s));
             ("object", VStr "chat.completion.chunk");
             ("usage", obj [("completion_tokens", VInt (usage_out s)); ("prompt_tokens", VInt (usage_in s));
                            ("total_tokens", VInt (wrap64 (usage_in s + usage_out s)))])]).

Definition role_delta : any := obj [("content", VStr ""); ("role", VStr "assistant")].
Definition content_delta (t : any) : any := obj [("content", t)].
Definition calls_delta (call : any) : any := obj [("tool_calls", VArr [call])].
Definition tool_call_start (index : Z) (id name : any) : any :=
  obj [("function", obj [("arguments", VStr ""); ("name", name)]); ("id", id); ("index", VInt index); ("type", VStr "function")].
Definition tool_call_arguments (index : Z) (args : any) : any :=
  obj [("function", obj [("arguments", args)]); ("index", VInt index)].

Definition FinishOpenAI (s : anthropicToOpenAIStream) : anthropicToOpenAIStream * list sse :=
  if done_ s then (s, [])
  else
    let s := with_flags s (finished s) true in
    (s, (if finished s then [] else [chunk s (VObj ∅) (VStr "stop")]) ++ [usage_chunk s; DataDone]).

(** What Feed does with a decoded event. *)
Definition feed_event (s : anthropicToOpenAIStream) (e : anthropicEvent) : anthropicToOpenAIStream * list sse :=
  let typ := if (ev_type e =? "")%string then ao_event s else ev_type e in
  if (typ =? "message_start")%string then
    let msg := as_obj (ev_message e) in
    let s := match as_str (get msg "model") with
             | Some m => if (m =? "")%string then s else with_model s m
             | None => s
             end in
    let s := match get msg "usage" with
             | VObj u => with_tokens s (default 0%Z (numberOf (get u "input_tokens"))) (usage_out s)
             | _ => s
             end in
    (s, [chunk s role_delta VNull])
  else if (typ =? "content_block_start")%string then
    let block := as_obj (ev_block e) in
    if negb (is_str (get block "type") "tool_use") then (s, [])
    else (with_tool s (int64_of_f64 (ev_index e)),
          [chunk s (calls_delta (tool_call_start (toolIndex s) (get block "id") (get block "name"))) VNull])
  else if (typ =? "content_block_delta")%string then
    if (ev_delta_type e =? "text_delta")%string then (s, [chunk s (content_delta (ev_delta_text e)) VNull])
    else if (ev_delta_type e =? "input_json_delta")%string then
      (s, [chunk s (calls_delta (tool_call_arguments (default 0%Z (ao_blocks s !! int64_of_f64 (ev_index e))) (ev_delta_json e))) VNull])
    else (s, [])
  else if (typ =? "message_delta")%string then
    let s := match ev_usage e with
             | VObj u =>
                 let out := default (usage_out s) (numberOf (get u "output_tokens")) in
                 let inp := match numberOf (get u "input_tokens") with
                            | Some n => if (0 <? n)%Z then n else usage_in s
                            | None => usage_in s
                            end in
                 with_tokens s inp out
             | _ => s
             end in
    let s := with_flags s true (done_ s) in
    (s, [chunk s (VObj ∅) (VStr (lookup_or stopToFinish (ev_stop_reason e) "stop"))])
  else if (typ =? "message_stop")%string then FinishOpenAI s
  else if (typ =? "error")%string then
    (with_flags s (finished s) true, [Data (obj [("error", ev_error e)]); DataDone])
  else (s, []).

(** A field of the wrong type reads as absent in an object; anything that is
    no object, or not JSON, drops. *)
Definition feed_openai (s : anthropicToOpenAIStream) (line : bytes) : anthropicToOpenAIStream * list sse :=
  match cut_prefix (bs "event:") line with
  | Some name => (with_event s (str (TrimSpaceBytes name)), [])
  | None =>
      match cut_prefix (bs "data:") line with
      | None => (s, [])
      | Some data =>
          let data := TrimSpaceBytes data in
          match UnmarshalType anthropicEvent_type data with
          | None => (s, [])
          | Some (v, err) =>
              if err && negb (bool_decide (head data = Some "{"%char)) then (s, [])
              else feed_event s (anthropicEvent_of v)
          end
      end
  end.

Definition FeedOpenAI (s : anthropicToOpenAIStream) (line : bytes) : anthropicToOpenAIStream * list bytes :=
  let '(s, out) := feed_openai s line in (s, flat_map render out).

(** ** NewStream *)

Inductive Stream := StreamOpenAI (s : anthropicToOpenAIStream) | StreamAnthropic (s : openAIToAnthropicStream).

(** [nanos] is the clock; the identifiers are made of it. *)
Definition NewStream (nanos : Z) (from to : Format) (model : string) : option Stream :=
  let stamp := str (print_Z nanos) in
  if (from =? FormatOpenAI)%string && (to =? FormatAnthropic)%string then Some (StreamAnthropic (new_o2a model ("msg_" +:+ stamp)))
  else if (from =? FormatAnthropic)%string && (to =? FormatOpenAI)%string then
    Some (StreamOpenAI (new_a2o model ("chatcmpl-" +:+ stamp) (nanos / 1000000000)))
  else None.
