(* ===== verification/StreamProtocol.v ===== *)
(** The order of the events a translated stream carries: an Anthropic client
    reads message_start, then content blocks one after another, each started,
    filled and stopped under the next index, then one message_delta and
    message_stop.  This file shows the OpenAI-to-Anthropic translator keeps
    it, and that nothing the upstream said is lost or reordered. *)

From stdpp Require Import base list strings option gmap sets.
From Stdlib Require Import ZArith Lia Ascii.
From S2P Require Import Prelude GoFloat Json JsonString JsonValue JsonDecode Api BudgetLedger Auth Routing Fallback Translate TranslateFacts TranslateStream.

(** ** The protocol *)

Inductive token := KStart | KBlockStart (i : Z) | KBlockDelta (i : Z) | KBlockStop (i : Z) | KMessageDelta | KMessageStop.

Definition payload_index (p : any) : Z := match get (as_obj p) "index" with VInt i => i | _ => (-1)%Z end.

Definition token_of (e : sse) : option token :=
  match e with
  | Event name p =>
      if (name =? "message_start")%string then Some KStart
      else if (name =? "content_block_start")%string then Some (KBlockStart (payload_index p))
      else if (name =? "content_block_delta")%string then Some (KBlockDelta (payload_index p))
      else if (name =? "content_block_stop")%string then Some (KBlockStop (payload_index p))
      else if (name =? "message_delta")%string then Some KMessageDelta
      else if (name =? "message_stop")%string then Some KMessageStop
      else None
  | _ => None
  end.

(** [PIdle n]: no block is open and the next has index [n]. *)
Inductive pstate := PInit | PIdle (n : Z) | POpen (n : Z) | PDelta | PDone.

Definition advance (p : pstate) (e : sse) : option pstate :=
  match p, token_of e with
  | PInit, Some KStart => Some (PIdle 0)
  | PIdle n, Some (KBlockStart i) => if (i =? n)%Z then Some (POpen n) else None
  | POpen n, Some (KBlockDelta i) => if (i =? n)%Z then Some (POpen n) else None
  | POpen n, Some (KBlockStop i) => if (i =? n)%Z then Some (PIdle (n + 1)) else None
  | PIdle _, Some KMessageDelta => Some PDelta
  | PDelta, Some KMessageStop => Some PDone
  | _, _ => None
  end.

Fixpoint accepts (p : pstate) (es : list sse) : option pstate :=
  match es with
  | [] => Some p
  | e :: es => match advance p e with Some p => accepts p es | None => None end
  end.

Lemma accepts_app p es1 es2 : accepts p (es1 ++ es2) = match accepts p es1 with Some p => accepts p es2 | None => None end.
Proof. revert p. induction es1 as [|e es1 IH]; intros p; [done|]. simpl. by destruct (advance p e). Qed.

(** ** An orderly upstream *)

(** What a chunk says, in the translator's order: a text, or a piece of the
    tool call of an index. *)
Inductive said_item := SText (t : string) | SCall (c : toolDelta).

Definition choice_items (c : choiceDelta) : list said_item :=
  (match cd_content c with Some t => if (t =? "")%string then [] else [SText t] | None => [] end) ++ map SCall (cd_toolCalls c).

Definition chunk_items (c : openAIChunk) : list said_item := flat_map choice_items (ck_choices c).

Definition has_arguments (c : toolDelta) : bool :=
  match td_function c with Some (_, args) => negb (args =? "")%string | None => false end.

(** The upstream's place: the tool call being written, the calls begun, the
    finish reason, and whether the finish and the usage have both come. *)
Record place := mk_place { pl_current : option Z; pl_seen : gset Z; pl_finish : string; pl_closed : bool }.

(** A tool call's arguments come in one run. *)
Definition item_ok (p : place) (i : said_item) : option place :=
  match i with
  | SText _ => Some (mk_place None (pl_seen p) (pl_finish p) (pl_closed p))
  | SCall c =>
      if bool_decide (td_index c ∈ pl_seen p) then
        if has_arguments c && negb (bool_decide (pl_current p = Some (td_index c))) then None else Some p
      else Some (mk_place (Some (td_index c)) ({[td_index c]} ∪ pl_seen p) (pl_finish p) (pl_closed p))
  end.

Fixpoint items_ok (p : place) (l : list said_item) : option place :=
  match l with
  | [] => Some p
  | i :: l => match item_ok p i with Some p => items_ok p l | None => None end
  end.

Definition chunk_finish (f : string) (c : openAIChunk) : string :=
  foldl (λ f ch, match cd_finish ch with Some g => if (g =? "")%string then f else g | None => f end) f (ck_choices c).

(** Nothing is said after the finish and the usage. *)
Definition chunk_ok (p : place) (c : openAIChunk) : option place :=
  if pl_closed p && negb (bool_decide (chunk_items c = [])) then None
  else match items_ok p (chunk_items c) with
       | None => None
       | Some q =>
           let f := chunk_finish (pl_finish p) c in
           Some (mk_place (pl_current q) (pl_seen q) f (pl_closed p || negb (f =? "")%string && bool_decide (is_Some (ck_usage c))))
       end.

Fixpoint orderly (p : place) (cs : list openAIChunk) : bool :=
  match cs with
  | [] => true
  | c :: cs => match chunk_ok p c with Some p => orderly p cs | None => false end
  end.

Definition new_place : place := mk_place None ∅ "" false.

(** ** Simulation *)

(** The translator's state seen by the client. *)
Definition client (s : openAIToAnthropicStream) : pstate :=
  if negb (started s) then PInit
  else if deltaSent s then PDelta
  else if blockOpen s then POpen (blockIndex s)
  else PIdle (blockIndex s).

(** The state in the middle of a chunk. *)
Record open_state (s : openAIToAnthropicStream) (p : place) : Prop := {
  os_started : started s = true;
  os_live : deltaSent s = false;
  os_seen : dom (default ∅ (toolIndexes s)) = pl_seen p;
  os_current : ∀ i, pl_current p = Some i → blockOpen s = true ∧ blockIsTool s = true ∧ default ∅ (toolIndexes s) !! i = Some (blockIndex s);
}.

Lemma token_block_start i b : token_of (block_start i b) = Some (KBlockStart i).
Proof. unfold token_of, block_start, payload_index. simpl. by lookups. Qed.
Lemma token_block_delta i b : token_of (block_delta i b) = Some (KBlockDelta i).
Proof. unfold token_of, block_delta, payload_index. simpl. by lookups. Qed.
Lemma token_block_stop i : token_of (block_stop i) = Some (KBlockStop i).
Proof. unfold token_of, block_stop, payload_index. simpl. by lookups. Qed.

Lemma advance_start n b : advance (PIdle n) (block_start n b) = Some (POpen n).
Proof. unfold advance. by rewrite token_block_start, Z.eqb_refl. Qed.
Lemma advance_delta n b : advance (POpen n) (block_delta n b) = Some (POpen n).
Proof. unfold advance. by rewrite token_block_delta, Z.eqb_refl. Qed.
Lemma advance_stop n : advance (POpen n) (block_stop n) = Some (PIdle (n + 1)).
Proof. unfold advance. by rewrite token_block_stop, Z.eqb_refl. Qed.

(** The fields that the loop over a chunk's items leaves alone. *)
Definition same_rest (s s' : openAIToAnthropicStream) : Prop :=
  started s' = started s ∧ deltaSent s' = deltaSent s ∧ stopped s' = stopped s ∧ oa_finish s' = oa_finish s.

Lemma openBlock_spec s b tool : started s = true → deltaSent s = false →
  let '(s', out) := openBlock s b tool in
  accepts (client s) out = Some (POpen (blockIndex s')) ∧ blockOpen s' = true ∧ blockIsTool s' = tool ∧
  toolIndexes s' = toolIndexes s ∧ same_rest s s'.
Proof.
  intros Hs Hd. unfold openBlock, client. rewrite Hs, Hd. cbn [negb].
  destruct (blockOpen s); cbn [app accepts]; rewrite ?advance_stop, advance_start; done.
Qed.

Definition feed_item (s : openAIToAnthropicStream) (i : said_item) : step :=
  match i with SText t => feed_text s t | SCall c => feed_call s c end.

Lemma client_open s : started s = true → deltaSent s = false → blockOpen s = true → client s = POpen (blockIndex s).
Proof. intros H1 H2 H3. unfold client. by rewrite H1, H2, H3. Qed.

Lemma feed_text_spec s p t : open_state s p →
  let '(s', out) := feed_text s t in
  accepts (client s) out = Some (client s') ∧
  open_state s' (mk_place None (pl_seen p) (pl_finish p) (pl_closed p)) ∧ same_rest s s'.
Proof.
  intros [Hs Hd Hseen _]. unfold feed_text. destruct (negb (blockOpen s) || blockIsTool s) eqn:E.
  - pose proof (openBlock_spec s text_start false Hs Hd) as Ho. destruct (openBlock s text_start false) as [s' out].
    destruct Ho as (Ha & Hb & _ & Ht & Hr). assert (Hr' := Hr). destruct Hr' as (R1 & R2 & _). rewrite accepts_app, Ha. cbn [accepts].
    rewrite advance_delta, client_open by congruence. split_and!; try done. constructor; [congruence|congruence|by rewrite Ht|done].
  - apply orb_false_iff in E as [Hb%negb_false_iff _]. rewrite client_open by done. cbn [app accepts]. rewrite advance_delta. split_and!; try done.
Qed.

Lemma feed_call_spec s p c p' : open_state s p → item_ok p (SCall c) = Some p' →
  let '(s', out) := feed_call s c in
  accepts (client s) out = Some (client s') ∧ open_state s' p' ∧ same_rest s s'.
Proof.
  intros [Hs Hd Hseen Hcur] Hi. unfold feed_call. set (known := default ∅ (toolIndexes s)) in *. set (s0 := set_tools s known).
  change (default ∅ (toolIndexes s0)) with known.
  assert (Hc0 : client s0 = client s) by done. unfold item_ok in Hi.
  destruct (known !! td_index c) as [b|] eqn:Ek.
  - assert (Hin : td_index c ∈ pl_seen p) by (rewrite <- Hseen; apply elem_of_dom; by exists b).
    rewrite (bool_decide_true _ Hin) in Hi. unfold has_arguments in Hi.
    assert (Hos : open_state s0 p) by (by constructor).
    destruct (td_function c) as [[name args]|]; [destruct (args =? "")%string eqn:Ha|]; try (by injection Hi as <-).
    cbn [negb andb] in Hi. case_bool_decide as Hcu; [|done]. injection Hi as <-. destruct (Hcur _ Hcu) as (Hb & _ & Hx).
    cbn [app accepts]. fold known in Hx. change (default ∅ (toolIndexes s0)) with known. rewrite Hx. cbn [default from_option id]. rewrite <- Hc0, (client_open s0 Hs Hd Hb).
    change (blockIndex s) with (blockIndex s0). by rewrite advance_delta.
  - assert (Hin : td_index c ∉ pl_seen p) by (rewrite <- Hseen; by apply not_elem_of_dom).
    rewrite (bool_decide_false _ Hin) in Hi. injection Hi as <-.
    pose proof (openBlock_spec s0 (tool_start (td_id c) (match td_function c with Some (name, _) => name | None => "" end)) true Hs Hd) as Ho.
    destruct (openBlock s0 _ true) as [s1 out]. destruct Ho as (Ha & Hb & Htool & Ht & R1 & R2 & R3 & R4).
    set (s2 := set_tools s1 _).
    assert (Hc2 : client s2 = POpen (blockIndex s1)) by (exact (client_open s2 (eq_trans R1 Hs) (eq_trans R2 Hd) Hb)).
    assert (Hos : open_state s2 (mk_place (Some (td_index c)) ({[td_index c]} ∪ pl_seen p) (pl_finish p) (pl_closed p))).
    { constructor; [exact (eq_trans R1 Hs)|exact (eq_trans R2 Hd)| |].
      - change (default ∅ (toolIndexes s2)) with (<[td_index c := blockIndex s1]> known). by rewrite dom_insert_L, Hseen.
      - intros i [= <-]. split_and!; [done|done|]. change (default ∅ (toolIndexes s2)) with (<[td_index c := blockIndex s1]> known). apply lookup_insert_eq. }
    rewrite Hc0 in Ha. destruct (td_function c) as [[name args]|]; [destruct (args =? "")%string|]; rewrite ?Hc2; try done.
    rewrite accepts_app, Ha. cbn [accepts]. change (default ∅ (toolIndexes s2)) with (<[td_index c := blockIndex s1]> known).
    rewrite lookup_insert_eq. cbn [default from_option id]. by rewrite advance_delta.
Qed.

Lemma feed_items_spec l s p p' : open_state s p → items_ok p l = Some p' →
  let '(s', out) := each_step feed_item s l in
  accepts (client s) out = Some (client s') ∧ open_state s' p' ∧ same_rest s s'.
Proof.
  revert s p. induction l as [|i l IH]; intros s p Hs; cbn [items_ok each_step]; [by intros [= <-]|].
  destruct (item_ok p i) as [q|] eqn:Ei; [|done]. intros Hl.
  assert (H1 : let '(s', out) := feed_item s i in accepts (client s) out = Some (client s') ∧ open_state s' q ∧ same_rest s s').
  { destruct i as [t|c]; [injection Ei as <-; by apply feed_text_spec|by apply feed_call_spec with p]. }
  destruct (feed_item s i) as [s1 o1]. destruct H1 as (Ha & Ho & R1 & R2 & R3 & R4). specialize (IH s1 q Ho Hl).
  destruct (each_step feed_item s1 l) as [s2 o2]. destruct IH as (Ha' & Ho' & Q1 & Q2 & Q3 & Q4).
  rewrite accepts_app, Ha, Ha'. unfold same_rest. split_and!; try done; congruence.
Qed.

(** ** Chunks *)

Lemma each_step_app {S A} (f : S → A → S * list sse) s l k :
  each_step f s (l ++ k) = let '(s1, o1) := each_step f s l in let '(s2, o2) := each_step f s1 k in (s2, o1 ++ o2).
Proof.
  revert s. induction l as [|x l IH]; intros s; simpl; [by destruct (each_step f s k)|].
  destruct (f s x) as [s1 o1]. rewrite IH. destruct (each_step f s1 l) as [s2 o2]. destruct (each_step f s2 k) as [s3 o3]. by rewrite app_assoc.
Qed.

Lemma each_step_map {S A B} (f : S → B → S * list sse) (g : A → B) s l : each_step f s (map g l) = each_step (λ s x, f s (g x)) s l.
Proof. revert s. induction l as [|x l IH]; intros s; simpl; [done|]. destruct (f s (g x)). by rewrite IH. Qed.

Definition finish_of (s : openAIToAnthropicStream) (c : choiceDelta) : openAIToAnthropicStream :=
  match cd_finish c with Some f => if (f =? "")%string then s else set_finish s f | None => s end.

Lemma feed_choice_items s c : feed_choice s c = let '(s1, out) := each_step feed_item s (choice_items c) in (finish_of s1 c, out).
Proof.
  assert (Hcalls : ∀ s, each_step feed_item s (map SCall (cd_toolCalls c)) = each_step feed_call s (cd_toolCalls c)) by (intros s0; exact (each_step_map feed_item SCall s0 (cd_toolCalls c))).
  unfold feed_choice, choice_items. rewrite each_step_app. destruct (cd_content c) as [t|]; [destruct (t =? "")%string|]; cbn [each_step].
  2: cbn [feed_item]; destruct (feed_text s t) as [s1 o1]; rewrite app_nil_r.
  all: rewrite Hcalls; by destruct (each_step feed_call _ (cd_toolCalls c)).
Qed.

Lemma open_finish s p c : open_state s p → open_state (finish_of s c) p.
Proof. intros [? ? ? ?]. unfold finish_of. destruct (cd_finish c) as [f|]; [destruct (f =? "")%string|]; by constructor. Qed.

Lemma finish_of_eq s c : oa_finish (finish_of s c) = match cd_finish c with Some g => if (g =? "")%string then oa_finish s else g | None => oa_finish s end ∧
  client (finish_of s c) = client s ∧ stopped (finish_of s c) = stopped s.
Proof. unfold finish_of. destruct (cd_finish c) as [f|]; [destruct (f =? "")%string|]; done. Qed.

Lemma items_ok_app p l k : items_ok p (l ++ k) = match items_ok p l with Some p => items_ok p k | None => None end.
Proof. revert p. induction l as [|i l IH]; intros p; [done|]. simpl. by destruct (item_ok p i). Qed.

Lemma feed_choices_spec l s p p' : open_state s p → items_ok p (flat_map choice_items l) = Some p' →
  let '(s', out) := each_step feed_choice s l in
  accepts (client s) out = Some (client s') ∧ open_state s' p' ∧ stopped s' = stopped s ∧
  oa_finish s' = foldl (λ f ch, match cd_finish ch with Some g => if (g =? "")%string then f else g | None => f end) (oa_finish s) l.
Proof.
  revert s p. induction l as [|c l IH]; intros s p Hs; cbn [flat_map each_step foldl]; [by intros [= <-]|].
  rewrite items_ok_app. destruct (items_ok p (choice_items c)) as [q|] eqn:Ei; [|done]. intros Hl.
  rewrite feed_choice_items. pose proof (feed_items_spec _ _ _ _ Hs Ei) as H1. destruct (each_step feed_item s (choice_items c)) as [s1 o1].
  destruct H1 as (Ha & Ho & _ & _ & R3 & R4). specialize (IH _ _ (open_finish _ _ c Ho) Hl).
  destruct (finish_of_eq s1 c) as (F1 & F2 & F3). destruct (each_step feed_choice (finish_of s1 c) l) as [s2 o2]. destruct IH as (Ha' & Ho' & Q3 & Q4).
  rewrite accepts_app, Ha, <- F2, Ha'. split_and!; [done|done|congruence|]. by rewrite Q4, F1, R4.
Qed.

(** The state between chunks. *)
Record between (s : openAIToAnthropicStream) (p : place) : Prop := {
  bt_live : stopped s = false;
  bt_closed : deltaSent s = pl_closed p;
  bt_started : deltaSent s = true → started s = true;
  bt_finish : oa_finish s = pl_finish p;
  bt_seen : dom (default ∅ (toolIndexes s)) = pl_seen p;
  bt_current : pl_closed p = false → ∀ i, pl_current p = Some i → blockOpen s = true ∧ blockIsTool s = true ∧ default ∅ (toolIndexes s) !! i = Some (blockIndex s);
  bt_fresh : started s = false → blockOpen s = false ∧ blockIndex s = 0%Z ∧ pl_current p = None;
}.

Lemma advance_message_delta n stop i o : advance (PIdle n) (message_delta stop i o) = Some PDelta.
Proof. done. Qed.

Lemma messageDelta_spec s : started s = true → deltaSent s = false →
  let '(s', out) := messageDelta s in
  accepts (client s) out = Some PDelta ∧ started s' = true ∧ deltaSent s' = true ∧ stopped s' = stopped s ∧ oa_finish s' = oa_finish s ∧
  toolIndexes s' = toolIndexes s.
Proof.
  intros Hs Hd. unfold messageDelta, client. rewrite Hs, Hd. cbn [negb]. destruct (blockOpen s); cbn [app accepts];
    rewrite ?advance_stop, ?advance_message_delta; done.
Qed.

Lemma client_delta s : started s = true → deltaSent s = true → client s = PDelta.
Proof. intros H1 H2. unfold client. by rewrite H1, H2. Qed.

Lemma feed_choices_silent l s : flat_map choice_items l = [] →
  let '(s', out) := each_step feed_choice s l in
  out = [] ∧ s' = set_finish s (foldl (λ f ch, match cd_finish ch with Some g => if (g =? "")%string then f else g | None => f end) (oa_finish s) l).
Proof.
  revert s. induction l as [|c l IH]; intros s; cbn [flat_map each_step foldl]; [by destruct s|].
  intros [Hc Hl]%app_nil. rewrite feed_choice_items, Hc. cbn [each_step]. specialize (IH (finish_of s c) Hl). destruct (finish_of_eq s c) as (F1 & _).
  destruct (each_step feed_choice (finish_of s c) l) as [s2 o2]. destruct IH as [-> ->]. split; [done|]. rewrite F1.
  unfold finish_of. destruct (cd_finish c) as [f|]; [destruct (f =? "")%string|]; done.
Qed.

(** The start of a chunk: message_start once, and the usage. *)
Definition begin_chunk (s : openAIToAnthropicStream) (c : openAIChunk) : step :=
  let '(s, o1) := if started s then (s, [])
                  else let model := if (ck_model c =? "")%string then oa_model s else ck_model c in
                       (set_started s model, [message_start (oa_id s) model]) in
  (match ck_usage c with Some (i, o) => set_usage s i o | None => s end, o1).

Lemma feed_chunk_begin s c : feed_chunk s c =
  let '(s1, o1) := begin_chunk s c in
  let '(s2, o2) := each_step feed_choice s1 (ck_choices c) in
  if negb (oa_finish s2 =? "")%string && bool_decide (is_Some (ck_usage c)) && negb (deltaSent s2)
  then let '(s3, o3) := messageDelta s2 in (s3, o1 ++ o2 ++ o3)
  else (s2, o1 ++ o2).
Proof. unfold feed_chunk, begin_chunk. by destruct (started s). Qed.

Lemma begin_chunk_spec s p c : between s p →
  let '(s1, o1) := begin_chunk s c in
  accepts (client s) o1 = Some (client s1) ∧ started s1 = true ∧ deltaSent s1 = deltaSent s ∧ stopped s1 = false ∧ oa_finish s1 = pl_finish p ∧
  toolIndexes s1 = toolIndexes s ∧ blockOpen s1 = blockOpen s ∧ blockIsTool s1 = blockIsTool s ∧ blockIndex s1 = blockIndex s.
Proof.
  intros [Hl Hc Hst Hf _ _ Hfr]. unfold begin_chunk. destruct (started s) eqn:Es.
  - destruct (ck_usage c) as [[i o]|]; split_and!; try done; unfold client; by rewrite ?Es.
  - destruct (Hfr eq_refl) as (Hb & Hi & _). destruct (deltaSent s) eqn:Ed; [by specialize (Hst eq_refl)|].
    assert (Hcl : ∀ s', started s' = true → deltaSent s' = false → blockOpen s' = false → blockIndex s' = 0%Z → client s' = PIdle 0)
      by (intros s' H1 H2 H3 H4; unfold client; by rewrite H1, H2, H3, H4).
    destruct (ck_usage c) as [[i o]|]; (split; [unfold client at 1; rewrite Es; cbn [negb accepts]; f_equal; symmetry; by apply Hcl|done]).
Qed.

Lemma feed_chunk_spec s p c p' : between s p → chunk_ok p c = Some p' →
  let '(s', out) := feed_chunk s c in
  accepts (client s) out = Some (client s') ∧ between s' p' ∧ started s' = true.
Proof.
  intros Hb Hok. rewrite feed_chunk_begin. pose proof (begin_chunk_spec s p c Hb) as H1. destruct (begin_chunk s c) as [s1 o1].
  destruct H1 as (Ha & Hs1 & Hd1 & Hst1 & Hf1 & Ht1 & Hbo & Hbt & Hbi). destruct Hb as [_ Hcl _ _ Hseen Hcur Hfr].
  unfold chunk_ok in Hok. destruct (pl_closed p) eqn:Hp; cbn [andb orb] in Hok.
  - case_bool_decide as Hnil; [cbn [negb] in Hok|done]. unfold chunk_items in *. rewrite Hnil in Hok. cbn [items_ok] in Hok. injection Hok as <-.
    pose proof (feed_choices_silent (ck_choices c) s1 Hnil) as H2. destruct (each_step feed_choice s1 (ck_choices c)) as [s2 o2]. destruct H2 as [-> ->].
    cbn [set_finish oa_finish deltaSent]. rewrite Hd1, Hcl. rewrite andb_false_r, app_nil_r. split_and!; [exact Ha| |done].
    constructor; cbn [pl_closed pl_finish pl_seen pl_current]; try done; [by rewrite <- Hcl, <- Hd1|by rewrite <- Hf1|cbn; by rewrite Ht1|cbn; congruence].
  - destruct (items_ok p (chunk_items c)) as [q|] eqn:Ei; [|done]. injection Hok as <-.
    assert (Hos : open_state s1 p).
    { constructor; [done|congruence|by rewrite Ht1|]. intros i Hi. rewrite Hbo, Hbt, Hbi, Ht1. by apply Hcur. }
    pose proof (feed_choices_spec (ck_choices c) s1 p q Hos Ei) as H2. destruct (each_step feed_choice s1 (ck_choices c)) as [s2 o2].
    destruct H2 as (Ha2 & [Q1 Q2 Q3 Q4] & Hst2 & Hf2). rewrite Hf1 in Hf2. fold (chunk_finish (pl_finish p) c) in Hf2. rewrite Hf2, Q2, andb_true_r.
    destruct (negb (chunk_finish (pl_finish p) c =? "")%string && bool_decide (is_Some (ck_usage c))).
    + pose proof (messageDelta_spec s2 Q1 Q2) as H3. destruct (messageDelta s2) as [s3 o3]. destruct H3 as (Ha3 & T1 & T2 & T3 & T4 & T5).
      rewrite accepts_app, Ha, accepts_app, Ha2, Ha3. rewrite (client_delta s3 T1 T2). split_and!; [done| |done].
      constructor; cbn [pl_closed pl_finish pl_seen pl_current]; try done; try congruence.
    + rewrite accepts_app, Ha, Ha2. split_and!; [done| |done]. constructor; cbn [pl_closed pl_finish pl_seen pl_current]; try done; try congruence.
Qed.

Lemma feed_chunks_spec cs s p : between s p → orderly p cs = true →
  ∃ p', let '(s', out) := each_step feed_chunk s cs in
  accepts (client s) out = Some (client s') ∧ between s' p' ∧ (started s' = true ∨ cs = [] ∧ started s' = started s).
Proof.
  revert s p. induction cs as [|c cs IH]; intros s p Hb; cbn [orderly each_step]; [exists p; by auto|].
  destruct (chunk_ok p c) as [q|] eqn:Ec; [|done]. intros Ho. pose proof (feed_chunk_spec s p c q Hb Ec) as H1.
  destruct (feed_chunk s c) as [s1 o1]. destruct H1 as (Ha & Hb1 & Hs1). destruct (IH s1 q Hb1 Ho) as [p' H2].
  exists p'. destruct (each_step feed_chunk s1 cs) as [s2 o2]. destruct H2 as (Ha2 & Hb2 & Hs2). rewrite accepts_app, Ha, Ha2.
  split_and!; try done. left. destruct Hs2 as [?|[_ ->]]; done.
Qed.

Lemma Finish_spec s p : between s p → started s = true → let '(s', out) := Finish s in accepts (client s) out = Some PDone ∧ stopped s' = true.
Proof.
  intros [Hl _ _ _ _ _ _] Hs. unfold Finish. rewrite Hl. change (started (set_stopped s)) with (started s). rewrite Hs. cbn [negb].
  change (deltaSent (set_stopped s)) with (deltaSent s). destruct (deltaSent s) eqn:Ed; [by rewrite (client_delta s Hs Ed)|].
  pose proof (messageDelta_spec (set_stopped s) Hs Ed) as H. destruct (messageDelta (set_stopped s)) as [s1 o1]. destruct H as (Ha & _ & _ & H & _).
  change (client (set_stopped s)) with (client s) in Ha. by rewrite accepts_app, Ha.
Qed.

Lemma between_new model id : between (new_o2a model id) new_place.
Proof. by constructor. Qed.

(** ** Lines *)

(** What a line of the upstream carries. *)
Inductive line_kind := LSkip | LDone | LChunk (c : openAIChunk).

Definition read_line (line : bytes) : line_kind :=
  match cut_prefix (bs "data:") line with
  | None => LSkip
  | Some data =>
      let data := TrimSpaceBytes data in
      if bool_decide (data = bs "[DONE]") then LDone
      else match UnmarshalInto openAIChunk_type data with Some v => LChunk (openAIChunk_of v) | None => LSkip end
  end.

Lemma feed_events_line s line : feed_events s line = match read_line line with
  | LSkip => (s, []) | LDone => Finish s | LChunk c => feed_chunk s c end.
Proof. unfold feed_events, read_line. by repeat case_match. Qed.

Definition chunks_of (lines : list bytes) : list openAIChunk :=
  omap (λ l, match read_line l with LChunk c => Some c | _ => None end) lines.

Lemma feed_lines lines s : Forall (λ l, read_line l ≠ LDone) lines → each_step feed_events s lines = each_step feed_chunk s (chunks_of lines).
Proof.
  intros H. revert s. induction H as [|l lines Hl _ IH]; intros s; [done|]. cbn [each_step]. unfold chunks_of. csimpl. rewrite feed_events_line.
  destruct (read_line l) as [| |c]; [|done|].
  - rewrite IH. unfold chunks_of. by destruct (each_step _ _ _).
  - cbn [each_step]. destruct (feed_chunk s c). by rewrite IH.
Qed.

(** The whole stream: the lines, then the end. *)
Definition translate_all (s : openAIToAnthropicStream) (lines : list bytes) : step :=
  let '(s, o1) := each_step feed_events s lines in let '(s, o2) := Finish s in (s, o1 ++ o2).

(** What follows the first [DONE] line. *)
Fixpoint after_done (lines : list bytes) : list bytes :=
  match lines with
  | [] => []
  | l :: lines => match read_line l with LDone => lines | _ => after_done lines end
  end.

Lemma chunks_of_cons l lines : chunks_of (l :: lines) = match read_line l with LChunk c => c :: chunks_of lines | _ => chunks_of lines end.
Proof. unfold chunks_of. csimpl. by destruct (read_line l). Qed.

Lemma finished_stays s lines : stopped s = true → chunks_of lines = [] → each_step feed_events s lines = (s, []).
Proof.
  intros Hs. induction lines as [|l lines IH]; [done|]. rewrite chunks_of_cons. cbn [each_step]. rewrite feed_events_line.
  assert (Hf : Finish s = (s, [])) by (unfold Finish; by rewrite Hs).
  destruct (read_line l); intros Hc; [..|done]; rewrite ?Hf, IH by done; done.
Qed.

(** The lines split at the first [DONE], if there is one. *)
Lemma done_split lines : chunks_of (after_done lines) = [] →
  ∃ before rest, lines = before ++ rest ∧ Forall (λ l, read_line l ≠ LDone) before ∧ chunks_of before = chunks_of lines ∧
    (rest = [] ∨ ∃ l after, rest = l :: after ∧ read_line l = LDone ∧ chunks_of after = []).
Proof.
  induction lines as [|l lines IH]; cbn [after_done]; intros H; [exists [], []; by eauto|].
  destruct (read_line l) as [| |c] eqn:El.
  2: { exists [], (l :: lines). split_and!; [done..| |right; by eauto]. by rewrite chunks_of_cons, El, H. }
  all: destruct (IH H) as (before & rest & -> & Hf & Hc & Hr); exists (l :: before), rest;
    (split_and!; [done|constructor; [by rewrite El|done]|by rewrite !chunks_of_cons, El, ?Hc|done]).
Qed.

(** C22: a translated stream is a stream an Anthropic client can read.  For
    every sequence of upstream lines with at least one chunk, closed by a
    [DONE] line or cut off without one, in which each tool call's arguments
    come in one run, nothing is said after the finish reason and the usage,
    and no chunk follows a [DONE] line, the events are message_start, then
    blocks numbered from 0, each started, filled while open and stopped
    before the next, then exactly one message_delta and one message_stop.
    A [DONE] line, however often repeated, and the end of the stream
    together write that end once. *)
Theorem translated_stream_is_anthropic model id lines
    (Hlast : chunks_of (after_done lines) = []) (Hne : chunks_of lines ≠ [])
    (Ho : orderly new_place (chunks_of lines) = true) :
  let '(s, out) := translate_all (new_o2a model id) lines in
  accepts PInit out = Some PDone ∧ Finish s = (s, []).
Proof.
  destruct (done_split lines Hlast) as (before & rest & -> & Hf & Hc & Hr). rewrite <- Hc in Hne, Ho.
  unfold translate_all. rewrite each_step_app, feed_lines by done. destruct (feed_chunks_spec _ _ _ (between_new model id) Ho) as [p H].
  destruct (each_step feed_chunk (new_o2a model id) (chunks_of before)) as [s o1]. destruct H as (Ha & Hb & [Hs|[? _]]); [|done].
  pose proof (Finish_spec s p Hb Hs) as H. change (client (new_o2a model id)) with PInit in Ha.
  assert (Hend : each_step feed_events s rest = (s, []) ∧ rest = [] ∨ each_step feed_events s rest = Finish s).
  { destruct Hr as [->|(l & after & -> & El & Hafter)]; [by left|right]. cbn [each_step]. rewrite feed_events_line, El.
    destruct (Finish s) as [s2 o2]. destruct H as [_ Hst]. by rewrite finished_stays, app_nil_r. }
  destruct Hend as [[-> _]| ->]; destruct (Finish s) as [s2 o2]; destruct H as [Ha2 Hst];
    assert (Hf2 : Finish s2 = (s2, [])) by (unfold Finish; by rewrite Hst);
    rewrite ?Hf2, ?app_nil_r, accepts_app, Ha, Ha2; done.
Qed.

(** ** Nothing is lost *)

(** The texts and the pieces of arguments, in order. *)
Definition said_in (i : said_item) : list (string + string) :=
  match i with
  | SText t => [inl t]
  | SCall c => match td_function c with Some (_, args) => if (args =? "")%string then [] else [inr args] | None => [] end
  end.

Definition said_out (e : sse) : list (string + string) :=
  match e with
  | Event name p =>
      if (name =? "content_block_delta")%string then
        let d := as_obj (get (as_obj p) "delta") in
        match as_str (get d "text"), as_str (get d "partial_json") with
        | Some t, _ => [inl t]
        | None, Some a => [inr a]
        | _, _ => []
        end
      else []
  | _ => []
  end.

Lemma said_text i t : said_out (block_delta i (text_delta t)) = [inl t].
Proof. unfold said_out, block_delta, text_delta. simpl. by lookups. Qed.
Lemma said_args i t : said_out (block_delta i (input_json_delta t)) = [inr t].
Proof. unfold said_out, block_delta, input_json_delta. simpl. by lookups. Qed.

Lemma openBlock_silent s b t : flat_map said_out (openBlock s b t).2 = [].
Proof. unfold openBlock. by destruct (blockOpen s). Qed.
Lemma messageDelta_silent s : flat_map said_out (messageDelta s).2 = [].
Proof. unfold messageDelta. by destruct (blockOpen s). Qed.
Lemma Finish_silent s : flat_map said_out (Finish s).2 = [].
Proof.
  unfold Finish. destruct (stopped s); [done|]. destruct (negb _); [done|]. destruct (deltaSent _); [done|].
  pose proof (messageDelta_silent (set_stopped s)) as H. destruct (messageDelta _) as [s1 o1]. simpl in *. by rewrite flat_map_app, H.
Qed.

Lemma feed_item_says s i : flat_map said_out (feed_item s i).2 = said_in i.
Proof.
  destruct i as [t|c]; cbn [feed_item said_in].
  - unfold feed_text. destruct (_ || _).
    + pose proof (openBlock_silent s text_start false) as H. destruct (openBlock _ _ _) as [s1 o1]. simpl in *. by rewrite flat_map_app, H, flat_map_one, said_text.
    + cbn [snd app]. by rewrite flat_map_one, said_text.
  - unfold feed_call. set (s0 := set_tools s _).
    destruct (default ∅ (toolIndexes s0) !! td_index c).
    + destruct (td_function c) as [[name args]|]; [|done]. destruct (args =? "")%string; [done|]. cbn [snd app]. by rewrite flat_map_one, said_args.
    + match goal with |- context [openBlock s0 ?b true] => pose proof (openBlock_silent s0 b true) as H; destruct (openBlock s0 b true) as [s1 o1] end.
      simpl in H. destruct (td_function c) as [[name args]|]; [|done]. destruct (args =? "")%string; [done|]. cbn [snd]. by rewrite flat_map_app, H, flat_map_one, said_args.
Qed.

Lemma each_step_says {S A} (f : S → A → S * list sse) (g : A → list (string + string)) s l :
  (∀ s x, flat_map said_out (f s x).2 = g x) → flat_map said_out (each_step f s l).2 = flat_map g l.
Proof.
  intros H. revert s. induction l as [|x l IH]; intros s; [done|]. cbn [each_step flat_map]. specialize (H s x). destruct (f s x) as [s1 o1].
  specialize (IH s1). destruct (each_step f s1 l) as [s2 o2]. simpl in *. by rewrite flat_map_app, H, IH.
Qed.

Lemma flat_map_flat_map {A B C} (f : B → list C) (g : A → list B) l : flat_map f (flat_map g l) = flat_map (λ x, flat_map f (g x)) l.
Proof. induction l as [|x l IH]; [done|]. simpl. by rewrite flat_map_app, IH. Qed.

Lemma feed_choice_says s c : flat_map said_out (feed_choice s c).2 = flat_map said_in (choice_items c).
Proof.
  rewrite feed_choice_items. pose proof (each_step_says feed_item said_in s (choice_items c) feed_item_says) as H.
  by destruct (each_step feed_item s (choice_items c)).
Qed.

Lemma feed_chunk_says s c : flat_map said_out (feed_chunk s c).2 = flat_map said_in (chunk_items c).
Proof.
  rewrite feed_chunk_begin. assert (Hb : flat_map said_out (begin_chunk s c).2 = []) by (unfold begin_chunk; by destruct (started s)).
  destruct (begin_chunk s c) as [s1 o1]. simpl in Hb.
  pose proof (each_step_says feed_choice _ s1 (ck_choices c) feed_choice_says) as H. destruct (each_step feed_choice s1 (ck_choices c)) as [s2 o2].
  simpl in H. unfold chunk_items. rewrite flat_map_flat_map, <- H. destruct (_ && _ && _).
  - pose proof (messageDelta_silent s2) as Hm. destruct (messageDelta s2) as [s3 o3]. simpl in *. by rewrite !flat_map_app, Hb, Hm, app_nil_r.
  - simpl. by rewrite flat_map_app, Hb.
Qed.

(** C23: a translated stream loses and reorders nothing.  Whatever the
    upstream sends, orderly or not, the texts and the pieces of tool
    arguments of the events are those of the chunks, in order. *)
Theorem translated_stream_keeps_content s lines :
  flat_map said_out (each_step feed_events s lines).2 = flat_map said_in (flat_map chunk_items (chunks_of lines)).
Proof.
  rewrite (each_step_says feed_events (λ l, match read_line l with LChunk c => flat_map said_in (chunk_items c) | _ => [] end)).
  - rewrite flat_map_flat_map. induction lines as [|l lines IH]; [done|]. unfold chunks_of in *. csimpl. cbn [flat_map]. rewrite IH. by destruct (read_line l).
  - intros s0 l. rewrite feed_events_line. destruct (read_line l); [done|apply Finish_silent|apply feed_chunk_says].
Qed.

(** ** A concrete stream *)

Definition example_lines : list bytes := map quoted_json
  ["data: {'model':'gpt','choices':[{'delta':{'content':'Hi'}}]}"; "";
   "data: {'choices':[{'delta':{'content':' there'}}]}"; ": ping";
   "data: {'choices':[{'delta':{'tool_calls':[{'index':0,'id':'t1','function':{'name':'f','arguments':''}}]}}]}";
   "data: {'choices':[{'delta':{'tool_calls':[{'index':0,'function':{'arguments':'{}'}}]},'finish_reason':'tool_calls'}]}";
   "data: {'choices':[],'usage':{'prompt_tokens':3,'completion_tokens':4}}";
   ""; "data: [DONE]"; ""].

Lemma translated_stream_is_anthropic_witness :
  accepts PInit (translate_all (new_o2a "m" "msg_1") example_lines).2 = Some PDone.
Proof.
  pose proof (translated_stream_is_anthropic "m" "msg_1" example_lines) as H.
  destruct (translate_all (new_o2a "m" "msg_1") example_lines) as [s out].
  refine (proj1 (H _ _ _)).
  - vm_compute. reflexivity.
  - vm_compute. discriminate.
  - vm_compute. reflexivity.
Defined.

Example example_stream : map str (flat_map render (translate_all (new_o2a "m" "msg_1") example_lines).2) = map (λ s, str (quoted_json s))
  ["event: message_start"; "data: {'message':{'content':[],'id':'msg_1','model':'gpt','role':'assistant','stop_reason':null,'stop_sequence':null,'type':'message','usage':{'input_tokens':0,'output_tokens':0}},'type':'message_start'}"; "";
   "event: content_block_start"; "data: {'content_block':{'text':'','type':'text'},'index':0,'type':'content_block_start'}"; "";
   "event: content_block_delta"; "data: {'delta':{'text':'Hi','type':'text_delta'},'index':0,'type':'content_block_delta'}"; "";
   "event: content_block_delta"; "data: {'delta':{'text':' there','type':'text_delta'},'index':0,'type':'content_block_delta'}"; "";
   "event: content_block_stop"; "data: {'index':0,'type':'content_block_stop'}"; "";
   "event: content_block_start"; "data: {'content_block':{'id':'t1','input':{},'name':'f','type':'tool_use'},'index':1,'type':'content_block_start'}"; "";
   "event: content_block_delta"; "data: {'delta':{'partial_json':'{}','type':'input_json_delta'},'index':1,'type':'content_block_delta'}"; "";
   "event: content_block_stop"; "data: {'index':1,'type':'content_block_stop'}"; "";
   "event: message_delta"; "data: {'delta':{'stop_reason':'tool_use','stop_sequence':null},'type':'message_delta','usage':{'input_tokens':3,'output_tokens':4}}"; "";
   "event: message_stop"; "data: {'type':'message_stop'}"; ""].
Proof. vm_compute. reflexivity. Qed.

(** ** The end of an OpenAI stream *)

Definition is_done (e : sse) : bool := match e with DataDone => true | _ => false end.
Definition is_error (e : sse) : bool := match e with Data p => bool_decide (is_Some (as_obj p !! "error")) | _ => false end.
Definition count (f : sse → bool) (es : list sse) : nat := length (List.filter f es).
Definition flag (b : bool) : nat := if b then 1 else 0.

Lemma count_app f l k : count f (l ++ k) = count f l + count f k.
Proof. unfold count. by rewrite List.filter_app, length_app. Qed.

(** The terminators a step writes, against the flag. *)
Definition ends (s s' : anthropicToOpenAIStream) (out : list sse) : Prop :=
  count is_done out + flag (done_ s) ≤ count is_error out + flag (done_ s') ∧
  flag (done_ s') ≤ flag (done_ s) + count is_done out.

Lemma ends_nothing s : ends s s [].
Proof. unfold ends, count. simpl. lia. Qed.

Lemma ends_chunk s s' e : done_ s' = done_ s → is_done e = false → ends s s' [e].
Proof. intros Hd He. unfold ends, count. rewrite Hd. cbn [List.filter]. rewrite He. simpl. lia. Qed.

Lemma FinishOpenAI_ends s : ends s (FinishOpenAI s).1 (FinishOpenAI s).2 ∧ done_ (FinishOpenAI s).1 = true.
Proof.
  unfold FinishOpenAI. destruct (done_ s) eqn:E; [by split; [apply ends_nothing|]|]. split; [|done].
  unfold ends, count. rewrite E. cbn [fst snd]. destruct (finished s); simpl; lia.
Qed.

Lemma feed_event_ends s e : ends s (feed_event s e).1 (feed_event s e).2.
Proof.
  unfold feed_event. set (typ := if (ev_type e =? "")%string then ao_event s else ev_type e).
  destruct (typ =? "message_start")%string; [apply ends_chunk; [|done]; by repeat case_match|].
  destruct (typ =? "content_block_start")%string; [destruct (negb _); [apply ends_nothing|by apply ends_chunk]|].
  destruct (typ =? "content_block_delta")%string; [repeat case_match; by (apply ends_nothing || apply ends_chunk)|].
  destruct (typ =? "message_delta")%string; [apply ends_chunk; [|done]; by repeat case_match|].
  destruct (typ =? "message_stop")%string; [apply FinishOpenAI_ends|].
  destruct (typ =? "error")%string; [|apply ends_nothing].
  unfold ends, count. cbn [fst snd List.filter is_done is_error length]. rewrite bool_decide_true by (by lookups). destruct (done_ s); simpl; lia.
Qed.

Lemma feed_openai_ends s l : ends s (feed_openai s l).1 (feed_openai s l).2.
Proof.
  unfold feed_openai. repeat case_match; try apply ends_nothing; try apply feed_event_ends. unfold ends, count. simpl. lia.
Qed.

Lemma ends_trans s1 s2 s3 o1 o2 : ends s1 s2 o1 → ends s2 s3 o2 → ends s1 s3 (o1 ++ o2).
Proof. unfold ends. rewrite !count_app. lia. Qed.

Lemma feed_all_ends lines s : ends s (each_step feed_openai s lines).1 (each_step feed_openai s lines).2.
Proof.
  revert s. induction lines as [|l lines IH]; intros s; [apply ends_nothing|]. cbn [each_step]. pose proof (feed_openai_ends s l) as H1.
  destruct (feed_openai s l) as [s1 o1]. specialize (IH s1). destruct (each_step feed_openai s1 lines) as [s2 o2]. by apply (ends_trans _ s1).
Qed.

(** A stream translated to OpenAI always ends.  Whatever events come, in
    whatever order, once the upstream is over the client has been sent [DONE],
    and once only unless the upstream reports errors after its end. *)
Theorem translated_stream_ends model id created lines :
  let '(s, o1) := each_step feed_openai (new_a2o model id created) lines in
  let '(s, o2) := FinishOpenAI s in
  let out := o1 ++ o2 in
  1 ≤ count is_done out ≤ 1 + count is_error out ∧ FinishOpenAI s = (s, []).
Proof.
  pose proof (feed_all_ends lines (new_a2o model id created)) as H1. destruct (each_step feed_openai _ lines) as [s o1]. cbn [fst snd] in H1.
  destruct (FinishOpenAI_ends s) as [H2 Hd]. destruct (FinishOpenAI s) as [s2 o2]. cbn [fst snd] in H2, Hd.
  destruct (ends_trans _ _ _ _ _ H1 H2) as [E1 E2]. rewrite Hd in E1, E2. simpl in E1, E2. split; [lia|]. unfold FinishOpenAI. by rewrite Hd.
Qed.
