(* ===== verification/Activity.v ===== *)
(** The gateway's activity store: internal/gateway/activity.go.

    Timestamps of the last traffic and the last heartbeat of each Agent, kept
    per namespace in memory, and the two handlers over them.  The clock is an
    argument of the operations that read it. *)

From stdpp Require Import base gmap list strings option fin_maps.
From Stdlib Require Import ZArith Lia Ascii.
From S2P Require Import Prelude GoFloat GoTime RateLimit Auth.

Record activityEntry := mk_entry { gatewayTraffic : Time; heartbeat : Time }.

Record ActivityStore := mk_activity {
  startedAt : Time;
  byNamespace : gmap string (gmap string activityEntry);
}.

Definition NewActivityStore (now : Time) : ActivityStore := mk_activity now ∅.

Definition no_entry : activityEntry := mk_entry 0%Z 0%Z.

(** [entry]: the record of an Agent, created when missing; the caller writes
    one timestamp of it. *)
Definition entry (s : ActivityStore) (ns agent : string) (write : activityEntry → activityEntry) : ActivityStore :=
  let agents := default ∅ (byNamespace s !! ns) in
  let e := default no_entry (agents !! agent) in
  mk_activity (startedAt s) (<[ns := <[agent := write e]> agents]> (byNamespace s)).

Definition RecordTraffic (s : ActivityStore) (now : Time) (ns agent : string) : ActivityStore :=
  entry s ns agent (λ e, mk_entry now (heartbeat e)).

Definition RecordHeartbeat (s : ActivityStore) (now : Time) (ns agent : string) : ActivityStore :=
  entry s ns agent (λ e, mk_entry (gatewayTraffic e) now).

Definition Forget (s : ActivityStore) (ns agent : string) : ActivityStore :=
  match byNamespace s !! ns with
  | None => s
  | Some agents =>
      let agents := delete agent agents in
      mk_activity (startedAt s)
        (if decide (agents = ∅) then delete ns (byNamespace s) else <[ns := agents]> (byNamespace s))
  end.

Record activitySource := mk_source { GatewayTraffic : option Time; Heartbeat : option Time }.
Record activityResponse := mk_activity_response { ReplicaStartedAt : Time; Agents : gmap string activitySource }.

Definition source_of (e : activityEntry) : activitySource :=
  mk_source (if negb (IsZero (gatewayTraffic e)) then Some (gatewayTraffic e) else None)
            (if negb (IsZero (heartbeat e)) then Some (heartbeat e) else None).

Definition Snapshot (s : ActivityStore) (ns : string) : activityResponse :=
  mk_activity_response (startedAt s) (source_of <$> default ∅ (byNamespace s !! ns)).

Definition methodNotAllowed (allow : string) : error_response :=
  writeError 405 (mk_error errInvalidRequest (allow +:+ " required") "" false) 0.

Definition handleActivity (s : ActivityStore) (method namespace : string) : activityResponse + error_response :=
  if negb (method =? "GET")%string then inr (methodNotAllowed "GET")
  else if (namespace =? "")%string then inr (badRequest "namespace query parameter is required")
  else inl (Snapshot s namespace).

(** The caller is an Agent: the middleware passes nothing else. *)
Definition handleHeartbeat (s : ActivityStore) (r : RateLimiter) (now : Time) (method namespace agent : string)
  : ActivityStore * RateLimiter * option error_response :=
  if negb (method =? "POST")%string then (s, r, Some (methodNotAllowed "POST"))
  else
    let '(r, ok) := AllowHeartbeat r now namespace agent in
    if negb ok then
      (s, r, Some (writeError 429 (mk_error errRateLimited
        ("heartbeat rate limit exceeded for agent " +:+ (namespace +:+ ("/" +:+ agent))) "" true) 1))
    else (RecordHeartbeat s now namespace agent, r, None).

(** ** What the store reports *)

Inductive activity_op := OTraffic (now : Time) (ns agent : string) | OHeartbeat (now : Time) (ns agent : string)
  | OForget (ns agent : string).

Definition activity_step (s : ActivityStore) (o : activity_op) : ActivityStore :=
  match o with
  | OTraffic now ns a => RecordTraffic s now ns a
  | OHeartbeat now ns a => RecordHeartbeat s now ns a
  | OForget ns a => Forget s ns a
  end.

(** The record of one Agent alone, under the same operations. *)
Definition agent_step (ns agent : string) (e : option activityEntry) (o : activity_op) : option activityEntry :=
  match o with
  | OTraffic now ns' a => if decide (ns' = ns ∧ a = agent) then Some (mk_entry now (heartbeat (default no_entry e))) else e
  | OHeartbeat now ns' a => if decide (ns' = ns ∧ a = agent) then Some (mk_entry (gatewayTraffic (default no_entry e)) now) else e
  | OForget ns' a => if decide (ns' = ns ∧ a = agent) then None else e
  end.

Definition record_of (s : ActivityStore) (ns agent : string) : option activityEntry :=
  byNamespace s !! ns ≫= λ agents, agents !! agent.

(** No namespace is kept without Agents. *)
Definition activity_ok (s : ActivityStore) : Prop := ∀ ns, byNamespace s !! ns ≠ Some ∅.

Lemma entry_record s ns a f ns' a' :
  record_of (entry s ns a f) ns' a' =
    if decide (ns = ns' ∧ a = a') then Some (f (default no_entry (record_of s ns a))) else record_of s ns' a'.
Proof.
  unfold record_of, entry; cbn [byNamespace]. destruct (decide (ns = ns')) as [->|Hne].
  - rewrite lookup_insert_eq; cbn [mbind option_bind]. destruct (decide (a = a')) as [->|Ha].
    + rewrite lookup_insert_eq, decide_True by done. by destruct (byNamespace s !! ns').
    + rewrite lookup_insert_ne, decide_False by naive_solver. by destruct (byNamespace s !! ns').
  - rewrite lookup_insert_ne, decide_False by naive_solver. done.
Qed.

Lemma forget_record s ns a ns' a' :
  record_of (Forget s ns a) ns' a' = if decide (ns = ns' ∧ a = a') then None else record_of s ns' a'.
Proof.
  unfold record_of, Forget. destruct (byNamespace s !! ns) as [agents|] eqn:E.
  2: { destruct (decide _) as [[<- <-]|]; [by rewrite E|done]. }
  cbn [byNamespace]. destruct (decide (ns = ns')) as [->|Hne].
  - assert (H : ∀ k, delete a agents !! k = if decide (ns' = ns' ∧ a = k) then None else agents !! k).
    { intros k. destruct (decide (a = k)) as [->|].
      - by rewrite lookup_delete_eq, decide_True.
      - by rewrite lookup_delete_ne, decide_False by naive_solver. }
    rewrite E; cbn [mbind option_bind]. rewrite <- H. destruct (decide (delete a agents = ∅)) as [->|].
    + by rewrite lookup_delete_eq, lookup_empty.
    + by rewrite lookup_insert_eq.
  - rewrite (decide_False (P := ns = ns' ∧ a = a')) by naive_solver.
    destruct (decide _); by rewrite ?lookup_delete_ne, ?lookup_insert_ne.
Qed.

Lemma activity_step_record s o ns a : record_of (activity_step s o) ns a = agent_step ns a (record_of s ns a) o.
Proof.
  destruct o as [t n b|t n b|n b]; cbn [activity_step agent_step];
    [unfold RecordTraffic|unfold RecordHeartbeat|]; rewrite ?entry_record, ?forget_record;
    destruct (decide _) as [[-> ->]|]; done.
Qed.

Lemma activity_step_ok s o : activity_ok s → activity_ok (activity_step s o).
Proof.
  intros Hok. assert (Hentry : ∀ ns a f, activity_ok (entry s ns a f)).
  { intros ns a f n. unfold entry; cbn [byNamespace]. destruct (decide (ns = n)) as [->|].
    - rewrite lookup_insert_eq. intros [= H]. by apply insert_non_empty in H.
    - by rewrite lookup_insert_ne. }
  destruct o as [t ns b|t ns b|ns b]; cbn [activity_step]; [apply Hentry|apply Hentry|].
  intros n. unfold Forget. destruct (byNamespace s !! ns) as [agents|]; [|done]. cbn [byNamespace].
  destruct (decide (ns = n)) as [->|].
  - destruct (decide _); [by rewrite lookup_delete_eq|rewrite lookup_insert_eq; naive_solver].
  - destruct (decide _); by rewrite ?lookup_delete_ne, ?lookup_insert_ne.
Qed.

(** Whatever the replica recorded, a namespace's snapshot shows for each Agent
    the timestamps of its own operations since it was last forgotten, and the
    store holds no namespace without Agents. *)
Lemma activity_snapshot_exact now ops ns agent :
  let s := foldl activity_step (NewActivityStore now) ops in
  Agents (Snapshot s ns) !! agent = source_of <$> foldl (agent_step ns agent) None ops ∧ activity_ok s.
Proof.
  cbv zeta. assert (H : ∀ s, activity_ok s →
    record_of (foldl activity_step s ops) ns agent = foldl (agent_step ns agent) (record_of s ns agent) ops
    ∧ activity_ok (foldl activity_step s ops)).
  { induction ops as [|o ops IH]; intros s Hs; [done|]. cbn [foldl]. rewrite <- activity_step_record.
    by apply IH, activity_step_ok. }
  destruct (H (NewActivityStore now)) as [Hr Hok]; [by intros ?; cbn [NewActivityStore byNamespace]; rewrite lookup_empty|].
  split; [|done]. change (record_of (NewActivityStore now) ns agent) with (@None activityEntry) in Hr.
  rewrite <- Hr. unfold Snapshot, record_of; cbn [Agents]. rewrite lookup_fmap.
  by destruct (byNamespace _ !! ns).
Qed.
