(* ===== verification/LlmProxy.v ===== *)
(** The LLM request handler: handleLLMProxy of internal/gateway/proxy.go with
    applyBudgetDecision, settleUsage, settleRelay, settleCallerLeft and the
    path adapters of adapters.go and vertex.go it routes by.

    The handler composes the other components in the source's order: parse
    the path and the qualified model, authorize the route, admit the request
    against the primary's budget, pass the rate limiter, walk the fallback
    tree, relay the answer and settle its usage, and settle the primary's
    slot on the way out.  The body is scanned and rewritten by RequestBody.v.
    Reading it from the connection and relaying the answer are inputs: the
    bytes read, and the usage the relay read.

    The last part is the body an attempt sends. *)

From stdpp Require Import base gmap sets list strings option fin_maps.
From Stdlib Require Import ZArith Lia Ascii.
From S2P Require Import Prelude Json JsonString RequestBody GoFloat GoTime Api BudgetWire BudgetLedger RateLimit Auth Routing Fallback FallbackFacts Activity.

(** ** Adapters *)

Inductive providerAdapter := anthropicAdapter | openaiAdapter | vertexAdapter.

Definition formatName (a : providerAdapter) : string :=
  match a with
  | anthropicAdapter => ProviderTypeAnthropic
  | openaiAdapter => "openai"
  | vertexAdapter => ProviderTypeGoogleVertex
  end.

Record vertexPath := mk_vertex_path {
  vp_version : string; vp_project : string; vp_location : string;
  vp_providerRef : string; vp_model : string; vp_method : string;
}.

Definition parseVertexPath (path : string) : option vertexPath :=
  match split_char "/" path with
  | [s0; version; s2; project; s4; location; s6; ref; s8; last] =>
      if negb (s0 =? "")%string || negb (s2 =? "projects")%string || negb (s4 =? "locations")%string
         || negb (s6 =? "publishers")%string || negb (s8 =? "models")%string then None
      else if negb (version =? "v1")%string && negb (version =? "v1beta1")%string then None
      else
        match Cut ":" last with
        | None => None
        | Some (model, method) =>
            if negb (method =? "generateContent")%string && negb (method =? "streamGenerateContent")%string then None
            else if (project =? "")%string || (location =? "")%string || (ref =? "")%string || (model =? "")%string
            then None
            else Some (mk_vertex_path version project location ref model method)
        end
  | _ => None
  end.

Definition qualified (p : vertexPath) : string := vp_providerRef p +:+ ("/" +:+ vp_model p).

Definition adapterForPath (urlPath : string) : option providerAdapter :=
  let path := match Cut "?" urlPath with Some (l, _) => l | None => urlPath end in
  if (path =? "/v1/messages")%string then Some anthropicAdapter
  else if (path =? "/v1/chat/completions")%string || (path =? "/v1/completions")%string then Some openaiAdapter
  else match parseVertexPath urlPath with Some _ => Some vertexAdapter | None => None end.

Definition adapterForProviderType (providerType : string) : option providerAdapter :=
  if (providerType =? ProviderTypeAnthropic)%string then Some anthropicAdapter
  else if (providerType =? ProviderTypeOpenAI)%string || (providerType =? ProviderTypeOpenAICompatible)%string
  then Some openaiAdapter
  else if (providerType =? ProviderTypeGoogleVertex)%string then Some vertexAdapter
  else None.

Definition modelFromPath (a : providerAdapter) (path : string) : string :=
  match a with
  | vertexAdapter => match parseVertexPath path with Some p => qualified p | None => "" end
  | _ => ""
  end.

Definition streamUsageOption (a : providerAdapter) : bool :=
  match a with openaiAdapter => true | _ => false end.

(** ** The request and the server *)

(** Reading the body to its limit: a failure, or its bytes. *)
Inductive body_input :=
  | BodyTooLarge
  | BodyReadError (msg : string)
  | BodyRead (b : bytes).

Record llm_request := mk_llm_request {
  lr_caller : caller;
  lr_path : string;
  lr_body : body_input;
}.

(** What a relay took and read: the time until it ended and the usage. *)
Record relay_usage := mk_relay_usage { ru_elapsed : Duration; ru_usage : Usage }.

Record Config := mk_config { MaxBodyBytes : Z; MaxFallbackDepth : Z; liveReplicas : Z }.

Record server := mk_server {
  sv_world : gatewayWorld;
  sv_limiter : RateLimiter;
  sv_spend : gmap string Usage;
  sv_activity : ActivityStore;
}.

Definition set_world (s : server) (g : gatewayWorld) : server := mk_server g (sv_limiter s) (sv_spend s) (sv_activity s).
Definition set_limiter (s : server) (r : RateLimiter) : server := mk_server (sv_world s) r (sv_spend s) (sv_activity s).
Definition set_spend (s : server) (m : gmap string Usage) : server := mk_server (sv_world s) (sv_limiter s) m (sv_activity s).
Definition set_activity (s : server) (a : ActivityStore) : server := mk_server (sv_world s) (sv_limiter s) (sv_spend s) a.

(** [MemorySpend.Record]. *)
Definition RecordSpend (m : gmap string Usage) (namespace provider model : string) (u : Usage) : gmap string Usage :=
  let key := namespace +:+ ("/" +:+ (provider +:+ ("/" +:+ model))) in
  let t := default zeroUsage (m !! key) in
  <[key := mk_usage (wrap64 (InputTokens t + InputTokens u)) (wrap64 (OutputTokens t + OutputTokens u))
                     (ServerTools t)]> m.

Definition workloadKey (c : caller) : string :=
  match c_Workload c with
  | None => UnattributedWorkload
  | Some id => match id_Kind id with
               | KindAgentTask => "task/" +:+ id_Name id
               | KindAgent => "agent/" +:+ id_Name id
               end
  end.

(** Validating and scanning the body; the outer [None] is an index out of
    range in the scan. *)
Definition bodyFields (b : bytes) : option (requestFields + error_response) :=
  if negb (Valid b) then Some (inr (badRequest "request body is not valid JSON"))
  else match scanRequestFields b with
       | None => None
       | Some (f, None) => Some (inl f)
       | Some (_, Some (duplicateFieldError name)) =>
           Some (inr (badRequest ("request body has more than one " +:+ (Quote (str name) +:+ " field"))))
       | Some (_, Some errStreamNotBoolean) => Some (inr (badRequest "stream must be a boolean"))
       | Some (_, Some errNotObject) => Some (inr (badRequest "request body is not valid JSON"))
       end.

(** The qualified model: in the path of a Vertex request, in the body of the
    others. *)
Definition requestedModel (a : providerAdapter) (path : string) (f : requestFields) (b : bytes) : option string :=
  let fromPath := modelFromPath a path in
  if (fromPath =? "")%string then str <$> RequestBody.model f b else Some fromPath.

(** The terminal response of a refused admission, or the model to serve. *)
Definition applyBudgetDecision (d : budgetDecision) (providerName namespace modelID : string)
  : string + error_response :=
  if Unavailable d then
    inr (writeError 503 (mk_error errBudgetUnavailable
      ("budget state for provider " +:+ (providerName +:+ " cannot be verified inside the boundary region; failing closed"))
      providerName true) 1)
  else if Throttled d then
    inr (writeError 429 (mk_error errBudgetThrottled
      ("boundary admission for namespace " +:+ (namespace +:+ (" on provider " +:+ (providerName
        +:+ " is busy; retry shortly")))) providerName true) 1)
  else if (Action d =? BudgetActionBlock)%string then
    let ceiling := if (Ceiling d =? "cluster")%string then "cluster budget exhausted"
                   else "namespace budget exhausted: " +:+ namespace in
    inr (writeError 429 (mk_error errBudgetExhausted
      (ceiling +:+ (" on provider " +:+ (providerName +:+ (" (" +:+ (print_N (Z.to_N (Percent d)) +:+ "% used)")))))
      providerName false) (RetryAfter d))
  else if (Action d =? BudgetActionDegrade)%string then
    inl (if (DegradeTo d =? "")%string then modelID else DegradeTo d)
  else inl modelID.

Section handler.
Context {MR : MapRange} {TR : Translator} (cfg : Config).

(** The settle closure of [Admit]: it acts once per request; [tr] is what this
    request did so far. *)
Definition settle_once (st : gatewayWorld * list walk_effect) (h : option settle_handle) (cost : f64)
  : gatewayWorld * list walk_effect :=
  match h with
  | None => st
  | Some h => if existsb (λ e, match e with Settled h' => bool_decide (h = h') | _ => false end) st.2 then st
              else (gateway_settle st.1 h cost, st.2 ++ [Settled h])
  end.

(** [debitTokens]: the closure over the primary and the admitted model. *)
Definition debit (s : server) (primary : ModelProvider) (namespace admittedModel : string) (u : Usage) : server :=
  set_limiter s (DebitTokens (sv_limiter s) (gw_clock (sv_world s)) (liveReplicas cfg) primary namespace admittedModel
    (wrap64 (InputTokens u + OutputTokens u))).

Definition settleUsage (s : server) (tr : list walk_effect) (primary chosen : ModelProvider)
    (namespace workload admittedModel servedModel : string) (u : Usage) (h : option settle_handle)
  : server * list walk_effect :=
  let s := debit s primary namespace admittedModel u in
  let cost := costOf chosen servedModel u in
  let s := set_spend s (RecordSpend (sv_spend s) namespace (Name chosen) servedModel u) in
  match h with
  | Some _ =>
      let '(g, tr) := settle_once (sv_world s, tr) h cost in (set_world s g, tr)
  | None =>
      let g := sv_world s in
      (set_world s (mk_gateway (Add (gw_ledger g) (gw_clock g) chosen namespace workload cost)
                      (gw_clock g) (gw_store g) (gw_script g) (gw_left g)), tr)
  end.

Definition settleRelay (s : server) (tr : list walk_effect) (primary chosen : ModelProvider)
    (namespace workload admittedModel servedModel : string) (u : relay_usage) (h : option settle_handle)
  : server * list walk_effect :=
  if negb (isZero (ru_usage u))
  then settleUsage s tr primary chosen namespace workload admittedModel servedModel (ru_usage u) h
  else let '(g, tr) := settle_once (sv_world s, tr) h f64_zero in (set_world s g, tr).

Inductive reply :=
  | ReplyError (r : error_response)
  | ReplyNothing
  | ReplyRelayed (res : forwardResult).

(** A non-streamed 2xx is read to its end after the caller left. *)
Definition readsOnAfterCallerLeft (r : forwardResult) : bool :=
  match resp r with
  | Some a => ((200 <=? StatusCode a) && (StatusCode a <=? 299))%Z && negb (sse a)
  | None => false
  end.

(** The clock at the end of a relay. *)
Definition after_relay (g : gatewayWorld) (d : Duration) : gatewayWorld :=
  mk_gateway (gw_ledger g) (gw_clock g + d)%Z (gw_store g) (gw_script g) (gw_left g).

(** [writeWalkResult]: an error status settles zero; a 2xx settles what its
    relay read, when it ends. *)
Definition writeWalkResult (s : server) (tr : list walk_effect) (primary : ModelProvider)
    (namespace workload admittedModel : string) (res : forwardResult) (u : relay_usage) : server * list walk_effect :=
  let served := if (fr_model res =? "")%string then admittedModel else fr_model res in
  if match resp res with Some a => ((StatusCode a <? 200) || (299 <? StatusCode a))%Z | None => true end
  then let '(g, tr) := settle_once (sv_world s, tr) (fr_settle res) f64_zero in (set_world s g, tr)
  else settleRelay (set_world s (after_relay (sv_world s) (ru_elapsed u))) tr primary (default primary (chosen res))
         namespace workload admittedModel served u (fr_settle res).

(** From the rate limiter on: the part of the handler that runs once the
    primary is admitted.  [h] is the primary's slot, [tr] starts with its
    admission. *)
Definition serve (s : server) (r : llm_request) (primary : ModelProvider) (adapter : providerAdapter)
    (body : bytes) (fields : requestFields) (modelID : string) (h : option settle_handle) (u : relay_usage)
  : option (server * list walk_effect * reply) :=
  let c := lr_caller r in
  let ns := c_Namespace c in
  let workload := workloadKey c in
  let tr := [Admission (Name primary) h] in
  let '(limiter, (ok, retryAfter)) :=
    Allow (sv_limiter s) (gw_clock (sv_world s)) (liveReplicas cfg) primary ns modelID in
  let s := set_limiter s limiter in
  if negb ok then
    Some (s, tr, ReplyError (writeError 429 (mk_error errRateLimited
      ("rate limit exceeded for namespace " +:+ (ns +:+ (" on model " +:+ modelID))) (Name primary) true) retryAfter))
  else match rewriteRequestBody body fields (bs modelID) (needsStreamOptions (streamUsageOption adapter) fields) with
  | None => None
  | Some outBody =>
    let s := match c_Workload c with
             | Some id => match id_Kind id with
                          | KindAgent => set_activity s (RecordTraffic (sv_activity s) (gw_clock (sv_world s)) ns (id_Name id))
                          | KindAgentTask => s
                          end
             | None => s
             end in
    let inbound := if (lr_path r =? "/v1/completions")%string then "" else formatForType (formatName adapter) in
    let st := mk_walk_state primary ns workload modelID 0 (MaxFallbackDepth cfg) ∅ ∅ 0 false h (str outBody)
                None false inbound (<[Name primary := modelID]> ∅) ∅ in
    match tryWithFallbacks true (S (Z.to_nat (MaxFallbackDepth cfg))) primary (mk_walk st (sv_world s) tr) with
    | None => None
    | Some (w, (res, ok)) =>
        let s := set_world s (w_world w) in
        let tr := w_trace w in
        if gw_left (w_world w) && negb (readsOnAfterCallerLeft res) then
          let '(g, tr) := settle_once (sv_world s, tr) (fr_settle res) f64_zero in
          Some (set_world s g, tr, ReplyNothing)
        else if negb ok then
          let '(code, body, retry) :=
            exhaustionError (observed (w_st w)) (maxRetryAfter (w_st w)) (budgetBlocked (w_st w)) (Name primary) in
          Some (s, tr, ReplyError (writeError code body retry))
        else
          let '(s, tr) := writeWalkResult s tr primary ns workload modelID res u in
          Some (s, tr, ReplyRelayed res)
    end
  end.

(** The whole handler; [u] is the usage the relay of the answer reads.  The
    outer [None] is the walk running out of fuel or an index out of range in
    the body scan; neither happens. *)
Definition handleLLMProxy (s : server) (r : llm_request) (u : relay_usage)
  : option (server * list walk_effect * reply) :=
  let refuse e := Some (s, [], ReplyError e) in
  let c := lr_caller r in
  match adapterForPath (lr_path r) with
  | None => refuse (badRequest "unrecognized path")
  | Some adapter =>
      if match adapter with vertexAdapter => (modelFromPath adapter (lr_path r) =? "")%string | _ => false end
      then refuse (badRequest "unrecognized path")
      else
        match lr_body r with
        | BodyTooLarge =>
            refuse (writeError 413 (mk_error "request_too_large"
              ("request body exceeds " +:+ (print_N (Z.to_N (MaxBodyBytes cfg)) +:+ " bytes")) "" false) 0)
        | BodyReadError msg => refuse (badRequest ("reading request body: " +:+ msg))
        | BodyRead body =>
          match bodyFields body with
          | None => None
          | Some (inr e) => refuse e
          | Some (inl fields) =>
            match splitQualifiedModel <$> requestedModel adapter (lr_path r) fields body with
            | None => None
            | Some None => refuse (badRequest ("model must be a qualified " +:+ (Quote "{providerRef}/{modelId}" +:+ " name")))
            | Some (Some (providerName, modelID)) =>
                match authorizeRoute (gw_store (sv_world s)) c providerName modelID with
                | inr d => refuse (writeError (status d) (mk_error (errType d) (message d) providerName false) 0)
                | inl provider =>
                    match adapterForProviderType (Type_ (Spec provider)) with
                    | None =>
                        refuse (writeError 400 (mk_error errInvalidRequest
                          ("provider type " +:+ (Quote (Type_ (Spec provider))
                            +:+ " is not supported by this gateway build")) providerName false) 0)
                    | Some _ =>
                        let '(g, (d, h)) := gateway_admit (sv_world s) provider (c_Namespace c) (workloadKey c) in
                        let s := set_world s g in
                        let out :=
                          match applyBudgetDecision d providerName (c_Namespace c) modelID with
                          | inr e => Some (s, [Admission (Name provider) h], ReplyError e)
                          | inl modelID => serve s r provider adapter body fields modelID h u
                          end in
                        match out with
                        | None => None
                        | Some (s, tr, rep) =>
                            let '(g, tr) := settle_once (sv_world s, tr) h f64_zero in
                            Some (set_world s g, tr, rep)
                        end
                    end
                end
            end
          end
        end
  end.
End handler.

(** The body of an LLM request inside the handler: bodyFields never indexes
    out of range, every rewrite it leads to returns, and candidateRequest of
    internal/gateway/proxy.go sends each candidate the body the agent sent
    with that candidate's model; upstreamPath of vertex.go and the URL of an
    attempt. *)

From S2P Require Import RequestClaims.

(** ** Scanning *)

Lemma bodyFields_returns b : is_Some (bodyFields b).
Proof.
  unfold bodyFields. destruct (Valid b) eqn:Hv; [|done]. apply Valid_spec in Hv as (s1 & c & s2 & Hp). cbn [negb].
  pose proof (scan_reads _ _ _ _ Hp) as H. unfold scan_result in H. destruct (object_members c) as [ms|].
  - case_bool_decide; [destruct H as (f & -> & _)|destruct H as (f & idx & name & -> & _)]; [|done]. by destruct (stream_ok ms).
  - rewrite H. by case_bool_decide.
Qed.

Lemma bodyFields_inl b f : bodyFields b = Some (inl f) ↔ Valid b = true ∧ scanRequestFields b = Some (f, None).
Proof.
  unfold bodyFields. destruct (Valid b); cbn [negb]; [|by split; [|intros []]].
  destruct (scanRequestFields b) as [[f' [[]|]]|]; (split; [intros [= ->] || done|intros [_ [= ->]] || (by intros [_ ?])]; try done).
Qed.

(** An accepted body is null or an object whose routing members the fields
    hold. *)
Lemma accepted_body b f : bodyFields b = Some (inl f) → ∃ s1 c s2, parse b = Some (s1, c, s2) ∧
  scanRequestFields b = Some (f, None) ∧
  match object_members c with
  | None => text c = bs "null" ∧ f = noFields
  | Some ms => NoDup (routings ms) ∧ stream_ok ms = true ∧ reads b f ms
  end.
Proof.
  intros [(s1 & c & s2 & Hp)%Valid_spec Hs]%bodyFields_inl. exists s1, c, s2. split_and!; [done|done|].
  pose proof (scan_reads _ _ _ _ Hp) as H. unfold scan_result in H. rewrite Hs in H. destruct (object_members c) as [ms|].
  - case_bool_decide; [|by destruct H as (? & ? & ? & ? & _)]. destruct H as (f' & H & Hr). destruct (stream_ok ms); by simplify_eq.
  - case_bool_decide; by simplify_eq.
Qed.

Lemma accepted_model b f : bodyFields b = Some (inl f) → is_Some (RequestBody.model f b).
Proof.
  intros (s1 & c & s2 & _ & _ & H)%accepted_body. destruct (object_members c).
  - destruct H as (_ & _ & Hr). by rewrite (reads_model_value _ _ _ Hr).
  - destruct H as [_ ->]. done.
Qed.

Lemma requestedModel_returns a path b f : bodyFields b = Some (inl f) → is_Some (requestedModel a path f b).
Proof. intros [m Hm]%accepted_model. unfold requestedModel. rewrite Hm. by case_match. Qed.

Lemma accepted_rewrites b f m o : bodyFields b = Some (inl f) → is_Some (rewriteRequestBody b f m (needsStreamOptions o f)).
Proof.
  intros (s1 & c & s2 & Hp & Hs & H)%accepted_body. rewrite (rewrite_spec _ _ _ _ _ m _ Hp Hs); [done|].
  intros Hn. destruct (object_members c); [done|]. destruct H as [_ ->]. unfold needsStreamOptions in Hn. by rewrite andb_false_r in Hn.
Qed.

(** ** What a candidate is sent *)

Section candidate.
Context {TR : Translator} (Marshal : object → option bytes).

(** The body of a same-format candidate: the prepared body, with only the
    model value replaced when the candidate's model differs. *)
Definition sameFormatBody (st : walkState) (outBody : bytes) (model : string) : option bytes :=
  if negb (model =? modelID st)%string && negb (ws_body st =? "")%string then
    match scanRequestFields (bs (ws_body st)) with
    | None => None
    | Some (f, None) => rewriteRequestBody (bs (ws_body st)) f (bs model) false
    | Some (_, Some _) => Some outBody
    end
  else Some outBody.

(** [candidateRequest]: the body, the path, the adapter of the path, the
    candidate's adapter and its model.  [Marshal] encodes a translated
    object. *)
Definition candidateRequest (st : walkState) (cand : ModelProvider) (outBody : bytes) (inboundPath : string)
    (adapter typeAdapter : providerAdapter) : option (bytes * string * providerAdapter * providerAdapter * string) :=
  let model := candidateModel st cand in
  let candAdapter := default typeAdapter (adapterForProviderType (Type_ (Spec cand))) in
  let same := (λ b, (b, inboundPath, adapter, candAdapter, model)) <$> sameFormatBody st outBody model in
  match (if crosses st cand then translated st !! Name cand ≫= Marshal else None) with
  | None => same
  | Some encoded =>
      match scanRequestFields encoded with
      | None => None
      | Some (_, Some _) => same
      | Some (f, None) =>
          (λ b, (b, canonicalPath (formatForType (Type_ (Spec cand))), candAdapter, candAdapter, model)) <$>
            rewriteRequestBody encoded f (bs model) (needsStreamOptions (streamUsageOption candAdapter) f)
      end
  end.

(** The prepared body again with another model: the routing members, the
    others and the usage option stay. *)
Lemma sameFormatBody_spec st b s1 c s2 ms f out model force : parse b = Some (s1, c, s2) → object_members c = Some ms →
  scanRequestFields b = Some (f, None) → rewriteRequestBody b f (bs (modelID st)) force = Some out → ws_body st = str out →
  ∃ body c' ms' f', sameFormatBody st out model = Some body ∧ parse body = Some (s1, c', s2) ∧ object_members c' = Some ms' ∧
    scanRequestFields body = Some (f', None) ∧
    RequestBody.model f' body = Some (if bool_decide (is_Some (modelSpan f)) then coerce (bs model) else []) ∧
    streamTrue f' = streamTrue f ∧ exact_names ms' ∧
    filter (λ m, routing_of m = None) ms' = filter (λ m, routing_of m = None) ms ∧
    (force = true → ∃ m, find_routing memberStreamOptions ms' = Some m ∧ asks_usage (mb_value m)).
Proof.
  intros Hp Ho Hs Hr Hb.
  destruct (rewrite_scans b s1 c s2 ms f (bs (modelID st)) force Hp Ho Hs)
    as (out' & c1 & ms1 & f1 & Hr' & Hp1 & Ho1 & Hs1 & Hm1 & Hspan & Hst & Hn & Hu & Hf & _).
  rewrite Hr in Hr'. injection Hr' as <-.
  assert (Hbs : bs (ws_body st) = out) by (rewrite Hb; apply String.list_ascii_of_string_of_list_ascii).
  unfold sameFormatBody. destruct (_ && _) eqn:E.
  - rewrite Hbs, Hs1.
    destruct (rewrite_scans out s1 c1 s2 ms1 f1 (bs model) false Hp1 Ho1 Hs1)
      as (body & c2 & ms2 & f2 & -> & Hp2 & Ho2 & Hs2 & Hm2 & _ & Hst2 & Hn2 & Hu2 & _ & Hk).
    exists body, c2, ms2, f2. rewrite (bool_decide_ext _ _ Hspan) in Hm2. split_and!; try done; try congruence.
    intros Hf'. destruct (Hf Hf') as (m & Hm & Ha). specialize (Hk eq_refl). rewrite Hm in Hk. simpl in Hk.
    destruct (find_routing memberStreamOptions ms2) as [m2|]; [|done]. injection Hk as Hk. exists m2. by rewrite Hk.
  - exists out, c1, ms1, f1. split_and!; try done. rewrite Hm1. f_equal. case_bool_decide; [|done].
    apply andb_false_iff in E as [E|E]; apply negb_false_iff, String.eqb_eq in E; [by rewrite E|].
    exfalso. rewrite E in Hbs. subst out. by vm_compute in Hs1.
Qed.

(** What every same-format candidate of the walk is sent.  Whatever model
    the budget ladder or a fallback edge gives a candidate, its body is a
    valid document that scans to that model, with the agent's stream flag,
    exact routing names and the agent's other members unchanged and in order;
    a stream whose format meters by stream_options asks for its usage on
    every candidate, not only on the primary. *)
Theorem candidate_keeps_request st cand b s1 c s2 ms f out path adapter typeAdapter
    (Hp : parse b = Some (s1, c, s2)) (Ho : object_members c = Some ms) (Hs : scanRequestFields b = Some (f, None))
    (Hr : rewriteRequestBody b f (bs (modelID st)) (needsStreamOptions (streamUsageOption adapter) f) = Some out)
    (Hb : ws_body st = str out) (Hc : crosses st cand = false) :
  ∃ body candAdapter c' ms' f',
    candidateRequest st cand out path adapter typeAdapter = Some (body, path, adapter, candAdapter, candidateModel st cand) ∧
    parse body = Some (s1, c', s2) ∧ object_members c' = Some ms' ∧ scanRequestFields body = Some (f', None) ∧
    RequestBody.model f' body = Some (if bool_decide (is_Some (modelSpan f)) then coerce (bs (candidateModel st cand)) else []) ∧
    streamTrue f' = streamTrue f ∧ exact_names ms' ∧
    filter (λ m, routing_of m = None) ms' = filter (λ m, routing_of m = None) ms ∧
    (streamUsageOption adapter = true → streamTrue f = true →
     ∃ m, find_routing memberStreamOptions ms' = Some m ∧ asks_usage (mb_value m)).
Proof.
  destruct (sameFormatBody_spec st b s1 c s2 ms f out (candidateModel st cand) _ Hp Ho Hs Hr Hb)
    as (body & c' & ms' & f' & E & H1 & H2 & H3 & H4 & H5 & H6 & H7 & H8).
  exists body, (default typeAdapter (adapterForProviderType (Type_ (Spec cand)))), c', ms', f'.
  unfold candidateRequest. rewrite Hc, E. split_and!; try done.
  intros Ha Hst. apply H8. unfold needsStreamOptions. by rewrite Ha, Hst.
Qed.
End candidate.

(** ** A concrete candidate *)

#[local] Instance body_translator : Translator :=
  {| object := unit; Unmarshal _ := None; TranslateRequest _ _ _ _ _ := inr "untranslatable"; MaxTokens _ := None |}.

Definition sent_out : bytes := Eval vm_compute in default [] (rewriteRequestBody example_body example_fields (bs "m") true).
Definition body_provider (name : string) : ModelProvider :=
  mk_provider name name (mk_provider_spec ProviderTypeOpenAI [] [] (mk_budget "monthly" "1" [] None "soft" None) (mk_rate_limits 0 0) []).
Definition body_state : walkState :=
  mk_walk_state (body_provider "a") "team-a" "agent/x" "m" 0 3 ∅ ∅ 0 false None (str sent_out) None false FormatOpenAI
    {[ "a" := "m"; "b" := "other" ]} ∅.

Lemma candidate_keeps_request_witness : candidateModel body_state (body_provider "b") = "other" ∧
  ∃ body candAdapter f', candidateRequest (λ _, None) body_state (body_provider "b") sent_out "/v1/chat/completions" openaiAdapter openaiAdapter
    = Some (body, "/v1/chat/completions", openaiAdapter, candAdapter, "other") ∧
  scanRequestFields body = Some (f', None) ∧ RequestBody.model f' body = Some (bs "other") ∧ streamTrue f' = true.
Proof.
  split; [vm_compute; reflexivity|].
  destruct (candidate_keeps_request (λ _, None) body_state (body_provider "b") example_body example_parts.1.1 example_tree
    example_parts.2 example_members example_fields sent_out "/v1/chat/completions" openaiAdapter openaiAdapter
    ltac:(vm_compute; reflexivity) ltac:(vm_compute; reflexivity) ltac:(vm_compute; reflexivity) ltac:(vm_compute; reflexivity)
    ltac:(vm_compute; reflexivity) ltac:(vm_compute; reflexivity))
    as (body & ca & c' & ms' & f' & H1 & _ & _ & H2 & H3 & H4 & _).
  exists body, ca, f'. split; [exact H1|]. split; [exact H2|]. split; [exact H3|exact H4].
Defined.
