(* ===== verification/UpstreamPath.v ===== *)
(** The URL an attempt is sent to: upstreamPath of the adapters
    (internal/gateway/adapters.go, vertex.go) and the URL forwardOnce builds.
    url.PathEscape is written out. *)

From stdpp Require Import base sets list strings option.
From Stdlib Require Import ZArith Lia Ascii.
From S2P Require Import Prelude Api LlmProxy.

(** ** url.PathEscape *)

Definition alnum (z : Z) : bool :=
  ((97 <=? z) && (z <=? 122) || (65 <=? z) && (z <=? 90) || (48 <=? z) && (z <=? 57))%Z.

(** The bytes a path segment keeps: letters, digits and [-_.~$&+=:@]. *)
Definition segment_char (a : ascii) : bool :=
  alnum (ascii_Z a) || existsb (Ascii.eqb a) ["-"; "_"; "."; "~"; "$"; "&"; "+"; "="; ":"; "@"]%char.

Definition upper_hex (n : N) : ascii := ascii_of_N (if (n <? 10)%N then 48 + n else 55 + n).

Definition escape_char (a : ascii) : string :=
  if segment_char a then String a EmptyString
  else String "%" (String (upper_hex (N_of_ascii a / 16)) (String (upper_hex (N_of_ascii a mod 16)) EmptyString)).

Fixpoint PathEscape (s : string) : string :=
  match s with
  | EmptyString => EmptyString
  | String a s' => escape_char a +:+ PathEscape s'
  end.

(** ** The path and the URL *)

Definition vertexUpstreamPath (inboundPath modelID : string) : string :=
  match parseVertexPath inboundPath with
  | None => inboundPath
  | Some p =>
      let out := "/" +:+ (vp_version p +:+ ("/projects/" +:+ (PathEscape (vp_project p)
                   +:+ ("/locations/" +:+ (PathEscape (vp_location p)
                   +:+ ("/publishers/google/models/" +:+ (PathEscape modelID +:+ (":" +:+ vp_method p)))))))) in
      if (vp_method p =? "streamGenerateContent")%string then out +:+ "?alt=sse" else out
  end.

Definition upstreamPath (a : providerAdapter) (inboundPath modelID : string) : string :=
  match a with
  | vertexAdapter => vertexUpstreamPath inboundPath modelID
  | anthropicAdapter | openaiAdapter => inboundPath
  end.

(** [upstreamURL] of forwardOnce. *)
Definition upstreamURL (endpoint : string) (a : providerAdapter) (inboundPath modelID : string) : string :=
  TrimSuffix endpoint "/" +:+ upstreamPath a inboundPath modelID.

(** ** Escaping *)

Definition hex_value (a : ascii) : N := let n := N_of_ascii a in (if n <? 58 then n - 48 else n - 55)%N.

Fixpoint PathUnescape (s : string) : string :=
  match s with
  | String "%" (String h (String l s')) => String (ascii_of_N (16 * hex_value h + hex_value l)) (PathUnescape s')
  | String a s' => String a (PathUnescape s')
  | EmptyString => EmptyString
  end.

Lemma unescape_char a s : PathUnescape (escape_char a +:+ s) = String a (PathUnescape s).
Proof. by destruct a as [[] [] [] [] [] [] [] []]. Qed.

Lemma PathUnescape_Escape s : PathUnescape (PathEscape s) = s.
Proof. induction s as [|a s IH]; [done|]. cbn [PathEscape]. by rewrite unescape_char, IH. Qed.

Lemma PathEscape_inj s t : PathEscape s = PathEscape t → s = t.
Proof. intros H%(f_equal PathUnescape). by rewrite !PathUnescape_Escape in H. Qed.

Lemma contains_char_app c s t : contains_char c (s +:+ t) = contains_char c s || contains_char c t.
Proof. induction s as [|a s IH]; [done|]. change (String a s +:+ t) with (String a (s +:+ t)). simpl. by rewrite IH, orb_assoc. Qed.

Lemma PathEscape_free c s : c ∈ ["/"; "?"; "#"; ";"; ","; " "]%char → contains_char c (PathEscape s) = false.
Proof.
  intros Hc. induction s as [|a s IH]; [done|]. cbn [PathEscape]. rewrite contains_char_app, IH, orb_false_r. clear IH.
  repeat (apply elem_of_cons in Hc as [->|Hc]; [by destruct a as [[] [] [] [] [] [] [] []]|]). by apply not_elem_of_nil in Hc.
Qed.

Lemma parseVertexPath_parts path p : parseVertexPath path = Some p →
  (vp_version p = "v1" ∨ vp_version p = "v1beta1") ∧ (vp_method p = "generateContent" ∨ vp_method p = "streamGenerateContent").
Proof.
  unfold parseVertexPath. repeat (case_match; try done). intros [= <-]. cbn [vp_version vp_method].
  repeat match goal with H : _ || _ = false |- _ => apply orb_false_iff in H as [? ?] end.
  repeat match goal with H : negb _ && negb _ = false |- _ => apply andb_false_iff in H as [H|H]; apply negb_false_iff, String.eqb_eq in H; subst end;
  auto.
Qed.

(** The query of a streaming call. *)
Definition alt_sse (p : vertexPath) : string := if (vp_method p =? "streamGenerateContent")%string then "?alt=sse" else "".

Lemma vertexUpstreamPath_eq path p m : parseVertexPath path = Some p →
  vertexUpstreamPath path m = "/" +:+ (vp_version p +:+ ("/projects/" +:+ (PathEscape (vp_project p)
    +:+ ("/locations/" +:+ (PathEscape (vp_location p)
    +:+ ("/publishers/google/models/" +:+ (PathEscape m +:+ (":" +:+ (vp_method p +:+ alt_sse p))))))))).
Proof.
  intros H. unfold vertexUpstreamPath, alt_sse. rewrite H. case_match; rewrite ?string_app_nil_r; [|done].
  by rewrite <- !string_app_assoc.
Qed.

Lemma split_segments w s x : contains_char "/" w = false → contains_char "/" s = false →
  split_char "/" (w +:+ (String "/" s +:+ String "/" x)) = w :: s :: split_char "/" x.
Proof.
  intros Hw Hs. change (String "/" s +:+ String "/" x) with (String "/" (s +:+ String "/" x)).
  by rewrite !split_char_app, (split_char_free _ _ Hw), (split_char_free _ _ Hs).
Qed.

Lemma Cut_skip c s t : contains_char c s = false → snd <$> Cut c (s +:+ t) = snd <$> Cut c t.
Proof.
  induction s as [|a s IH]; [done|]. simpl. intros [-> Hs]%orb_false_iff. rewrite <- IH by done. unfold String.app.
  by destruct (Cut c _) as [[]|].
Qed.

Lemma app_cancel_r s s' t : (s +:+ t) = (s' +:+ t) → s = s'.
Proof.
  intros H%(f_equal string_rev). rewrite !string_rev_app_distr in H. apply (inj (String.app (string_rev t))) in H.
  apply (f_equal string_rev) in H. by rewrite !string_rev_involutive in H.
Qed.

Lemma vertex_segments path p m : parseVertexPath path = Some p →
  split_char "/" (vertexUpstreamPath path m) =
    [""; vp_version p; "projects"; PathEscape (vp_project p); "locations"; PathEscape (vp_location p);
     "publishers"; "google"; "models"; PathEscape m +:+ (":" +:+ (vp_method p +:+ alt_sse p))].
Proof.
  intros Hp. destruct (parseVertexPath_parts _ _ Hp) as [Hv Hm]. rewrite (vertexUpstreamPath_eq _ _ _ Hp).
  assert (Hslash : ∀ s, contains_char "/" (PathEscape s) = false) by (intros; apply PathEscape_free; set_solver).
  generalize (Hslash (vp_project p)), (Hslash (vp_location p)), (Hslash m).
  generalize (PathEscape (vp_project p)), (PathEscape (vp_location p)), (PathEscape m). clear Hslash. intros e1 e2 e3 H1 H2 H3.
  assert (Hlast : contains_char "/" (e3 +:+ (":" +:+ (vp_method p +:+ alt_sse p))) = false).
  { rewrite contains_char_app, H3. unfold alt_sse. by destruct Hm as [-> | ->]. }
  revert Hlast. generalize (e3 +:+ (":" +:+ (vp_method p +:+ alt_sse p))). intros last Hlast.
  change ("/" +:+ (vp_version p +:+ ?x)) with (String "/" (vp_version p +:+ x)).
  assert (Hvs : contains_char "/" (vp_version p) = false) by (by destruct Hv as [-> | ->]).
  etrans; [apply (split_char_app "/" "")|]. change (split_char "/" "") with [""]. cbn [app]. f_equal.
  etrans; [apply (split_segments (vp_version p) "projects"); done|]. do 2 f_equal.
  etrans; [apply (split_segments e1 "locations"); done|]. do 2 f_equal.
  change ("/publishers/google/models/" +:+ last) with (String "/" "publishers" +:+ String "/" ("google" +:+ (String "/" "models" +:+ String "/" last))).
  rewrite !split_segments by done. by rewrite (split_char_free _ _ Hlast).
Qed.

Lemma vertex_query path p m : parseVertexPath path = Some p →
  snd <$> Cut "?" (vertexUpstreamPath path m) = (if (vp_method p =? "streamGenerateContent")%string then Some "alt=sse" else None).
Proof.
  intros Hp. destruct (parseVertexPath_parts _ _ Hp) as [Hv Hm]. rewrite (vertexUpstreamPath_eq _ _ _ Hp).
  assert (Hq : ∀ s, contains_char "?" (PathEscape s) = false) by (intros; apply PathEscape_free; set_solver).
  assert (Hvs : contains_char "?" (vp_version p) = false) by (by destruct Hv as [-> | ->]).
  assert (Hms : contains_char "?" (vp_method p) = false) by (by destruct Hm as [-> | ->]).
  rewrite !Cut_skip by done. unfold alt_sse. by case_match.
Qed.

(** The upstream URL of a Vertex request has the path the gateway built
    and nothing the request put there: its segments are the fixed ones, with
    the project, the location and the model each escaped into one segment,
    the publisher is google, the only query is alt=sse, on a stream, and two
    models never share a URL. *)
Theorem vertex_path_fixed path p m
    (Hp : parseVertexPath path = Some p) :
  split_char "/" (upstreamPath vertexAdapter path m) =
    [""; vp_version p; "projects"; PathEscape (vp_project p); "locations"; PathEscape (vp_location p);
     "publishers"; "google"; "models"; PathEscape m +:+ (":" +:+ (vp_method p +:+ alt_sse p))] ∧
  snd <$> Cut "?" (upstreamPath vertexAdapter path m) = (if (vp_method p =? "streamGenerateContent")%string then Some "alt=sse" else None) ∧
  PathUnescape (PathEscape m) = m ∧
  (∀ m', upstreamPath vertexAdapter path m' = upstreamPath vertexAdapter path m → m' = m).
Proof.
  unfold upstreamPath. split_and!.
  - by apply vertex_segments.
  - by apply vertex_query.
  - apply PathUnescape_Escape.
  - intros m' H%(f_equal (split_char "/")). rewrite !(vertex_segments _ _ _ Hp) in H. injection H as H.
    by apply PathEscape_inj, (app_cancel_r _ _ _ H).
Qed.

Definition vertex_example : string := "/v1/projects/p/locations/us/publishers/gemini/models/m:streamGenerateContent".

Lemma vertex_path_fixed_witness : split_char "/" (upstreamPath vertexAdapter vertex_example "a/../b?x") =
  [""; "v1"; "projects"; "p"; "locations"; "us"; "publishers"; "google"; "models"; "a%2F..%2Fb%3Fx:streamGenerateContent?alt=sse"].
Proof.
  exact (proj1 (vertex_path_fixed vertex_example (mk_vertex_path "v1" "p" "us" "gemini" "m" "streamGenerateContent") "a/../b?x"
    ltac:(vm_compute; reflexivity))).
Defined.
