(* ===== verification/JsonCompact.v ===== *)
(** json.Compact with HTML escaping, which json.Marshal applies to the bytes
    of a json.RawMessage: white space goes, [<], [>], [&], U+2028 and U+2029
    in strings become escapes.  Nothing a reader decodes changes. *)

From stdpp Require Import base list strings option.
From Stdlib Require Import ZArith Lia Ascii Wf_nat.
From S2P Require Import Prelude Json JsonString RequestBody FoldedName RequestClaims.

Definition html_char (c : ascii) : bool := Ascii.eqb c "<" || Ascii.eqb c ">" || Ascii.eqb c "&".

(** U+2028 and U+2029 are E2 80 A8 and E2 80 A9. *)
Fixpoint html_escape (b : bytes) : bytes :=
  match b with
  | [] => []
  | c :: b' =>
      if html_char c then u_escape (ascii_Z c) ++ html_escape b'
      else
        match b' with
        | d :: e :: b'' =>
            if Ascii.eqb c "226" && Ascii.eqb d "128" && (Ascii.eqb e "168" || Ascii.eqb e "169")
            then u_escape (8064 + ascii_Z e) ++ html_escape b''
            else c :: html_escape b'
        | _ => c :: html_escape b'
        end
  end.

Fixpoint compact (c : cst) : cst :=
  match c with
  | CScalar t => CScalar t
  | CString b => CString (html_escape b)
  | CEmpty array _ => CEmpty array []
  | CArray e es => CArray ([], compact e.1.2, []) (map (λ e, ([], compact e.1.2, [])) es)
  | CObject m ms =>
      CObject ([], (html_escape m.1.1.2.1.1, [], []), compact m.1.2, [])
              (map (λ m, ([], (html_escape m.1.1.2.1.1, [], []), compact m.1.2, [])) ms)
  end.

Definition compact_member (m : member) : member := ([], (html_escape (mb_name m), [], []), compact (mb_value m), []).

(** ** Escaping keeps what a string decodes to *)

Local Open Scope Z_scope.

Lemma escape_copy c b : html_char c = false → Ascii.eqb c "226" = false → html_escape (c :: b) = c :: html_escape b.
Proof. intros H E. cbn [html_escape]. rewrite H, E. by destruct b as [|d [|e b]]. Qed.

Lemma html_char_spec c : html_char c = true → (ascii_Z c = 60 ∨ ascii_Z c = 62 ∨ ascii_Z c = 38).
Proof. unfold html_char. rewrite !orb_true_iff, !Ascii.eqb_eq. intros [[->| ->]| ->]; vm_compute; auto. Qed.

Lemma cont_copy c b : cont c = true → html_escape (c :: b) = c :: html_escape b.
Proof.
  unfold cont, in_range. intros [H1%Z.leb_le H2%Z.leb_le]%andb_true_iff. apply escape_copy.
  - destruct (html_char c) eqn:E; [apply html_char_spec in E; lia|done].
  - apply Ascii.eqb_neq. intros ->. by vm_compute in H2.
Qed.

Lemma hex_copy c b : is_hex c = true → html_escape (c :: b) = c :: html_escape b.
Proof.
  intros H. apply escape_copy; [destruct (html_char c) eqn:E; [|done]|apply Ascii.eqb_neq; intros ->; by vm_compute in H].
  unfold html_char in E. rewrite !orb_true_iff, !Ascii.eqb_eq in E. destruct E as [[->| ->]| ->]; by vm_compute in H.
Qed.

Lemma escape_conts l b : forallb cont l = true → html_escape (l ++ b) = l ++ html_escape b.
Proof. induction l as [|c l IH]; [done|]. cbn [forallb app]. intros [Hc Hl]%andb_true_iff. by rewrite cont_copy, IH. Qed.

Lemma escape_stops_cont b : stops cont b → stops cont (html_escape b).
Proof.
  destruct b as [|c b]; [done|]. cbn [stops html_escape]. intros H. destruct (html_char c); [done|].
  destruct b as [|d [|e b]]; [done|done|]. by destruct (_ && _).
Qed.

Lemma second_cont c b : second_ok c b = true → cont b = true.
Proof.
  unfold second_ok, cont, in_range. intros H. repeat case_match; rewrite ?andb_true_iff, ?Z.leb_le in *; lia.
Qed.

(** What follows the continuation bytes does not matter. *)
Lemma DecodeRune_conts c l r r' : forallb cont l = true → stops cont r → stops cont r' → DecodeRune (c :: l ++ r) = DecodeRune (c :: l ++ r').
Proof.
  intros Hl Hr Hr'. unfold DecodeRune. destruct (ascii_Z c <? 128); [done|].
  assert (S : ∀ d, cont d = false → second_ok (ascii_Z c) d = false).
  { intros d Hd. destruct (second_ok (ascii_Z c) d) eqn:E; [|done]. apply second_cont in E. congruence. }
  destruct l as [|x [|y [|z l]]]; cbn [forallb app] in *; rewrite ?andb_true_iff in Hl; [| | |done];
    destruct r as [|d r], r' as [|d' r']; cbn [stops] in Hr, Hr'; rewrite ?Hr, ?Hr'; rewrite ?(S _ Hr), ?(S _ Hr'); rewrite ?andb_false_r;
    cbn [negb]; repeat case_match; congruence.
Qed.

Lemma DecodeRune_take_conts c l r rn n : forallb cont l = true → stops cont r → DecodeRune (c :: l ++ r) = (rn, n) → (n ≤ S (length l))%nat.
Proof.
  intros Hl Hr H. rewrite (DecodeRune_conts c l r [] Hl Hr I) in H. apply DecodeRune_width in H. by rewrite app_nil_r in H.
Qed.

(** One step of the decoder on both sides. *)
Definition same_step (b : bytes) : Prop := ∃ out n n', unquote_step b = Some (out, n) ∧ unquote_step (html_escape b) = Some (out, n') ∧
  (1 ≤ n)%nat ∧ (1 ≤ n')%nat ∧ drop n' (html_escape b) = html_escape (drop n b) ∧ string_body_ok (drop n b) = true ∧
  string_body_ok (html_escape b) = string_body_ok (html_escape (drop n b)).

Lemma getu4_hex h1 h2 h3 h4 r : is_hex h1 = true → is_hex h2 = true → is_hex h3 = true → is_hex h4 = true →
  is_Some (getu4 (backslash :: "u"%char :: h1 :: h2 :: h3 :: h4 :: r)).
Proof.
  intros H1 H2 H3 H4. assert (V : ∀ h, is_hex h = true → is_Some (hex_val h)).
  { intros h. unfold is_hex, hex_val. intros H. repeat case_match; by try rewrite !orb_false_r in *. }
  cbn [getu4]. change (Ascii.eqb backslash backslash && Ascii.eqb "u" "u") with true. cbn match.
  destruct (V h1 H1) as [? ->], (V h2 H2) as [? ->], (V h3 H3) as [? ->], (V h4 H4) as [? ->]. by eexists.
Qed.

Lemma getu4_prefix h1 h2 h3 h4 r r' : getu4 (backslash :: "u"%char :: h1 :: h2 :: h3 :: h4 :: r) = getu4 (backslash :: "u"%char :: h1 :: h2 :: h3 :: h4 :: r').
Proof. done. Qed.

Lemma escape_hex4 h1 h2 h3 h4 r : is_hex h1 = true → is_hex h2 = true → is_hex h3 = true → is_hex h4 = true →
  html_escape (backslash :: "u"%char :: h1 :: h2 :: h3 :: h4 :: r) = backslash :: "u"%char :: h1 :: h2 :: h3 :: h4 :: html_escape r.
Proof. intros H1 H2 H3 H4. by rewrite !(escape_copy backslash), !(escape_copy "u"), !hex_copy. Qed.

Lemma getu4_u_escape v t : 0 ≤ v < 65536 → getu4 (u_escape v ++ t) = Some v.
Proof.
  intros Hv. assert (Hm : ∀ x, 0 ≤ x mod 16 < 16) by (intros; apply Z.mod_pos_bound; lia).
  unfold u_escape. cbn [app getu4]. change (Ascii.eqb backslash backslash && Ascii.eqb "u" "u") with true. cbn match.
  rewrite !(λ x, proj1 (hex_val_digit _ (Hm x))). f_equal. Z.to_euclidean_division_equations. lia.
Qed.

Lemma pair_low r1 v t : 0 ≤ v < 56320 → match getu4 (u_escape v ++ t) with Some r2 => decode_pair r1 r2 | None => None end = None.
Proof.
  intros Hv. rewrite getu4_u_escape by lia. unfold decode_pair. destruct (Z.leb_spec 56320 v); [lia|]. by rewrite andb_false_r.
Qed.

(** A look past an escape for the second half of a pair sees the same. *)
Lemma getu4_escape r : string_body_ok r = true →
  (getu4 (html_escape r) = getu4 r ∧ (is_Some (getu4 r) → drop 6 (html_escape r) = html_escape (drop 6 r) ∧
     string_body_ok (drop 6 r) = true ∧ string_body_ok (html_escape r) = string_body_ok (html_escape (drop 6 r)))) ∨
  (getu4 r = None ∧ ∀ r1, match getu4 (html_escape r) with Some r2 => decode_pair r1 r2 | None => None end = None).
Proof.
  intros Hr. destruct r as [|c r]; [by left|]. destruct (Ascii.eqb_spec c backslash) as [->|Hb].
  { destruct r as [|e r]; [done|]. cbn [string_body_ok] in Hr. change (Ascii.eqb backslash backslash) with true in Hr. cbn match in Hr.
    destruct (Ascii.eqb_spec e "u") as [->|He].
    - destruct r as [|h1 [|h2 [|h3 [|h4 r]]]]; try done. rewrite !andb_true_iff in Hr. destruct Hr as [[[[H1 H2] H3] H4] Hr].
      left. rewrite escape_hex4 by done. split; [done|]. intros _. cbn [drop]. split_and!; [done|done|].
      cbn [string_body_ok]. change (Ascii.eqb backslash backslash) with true. change (Ascii.eqb "u" "u") with true. cbn match.
      by rewrite H1, H2, H3, H4.
    - left. assert (N : ∀ t, getu4 (backslash :: e :: t) = None).
      { intros t. unfold getu4. apply Ascii.eqb_neq in He. destruct t as [|h1 [|h2 [|h3 [|h4 t]]]]; try done. by rewrite He, andb_false_r. }
      rewrite !(escape_copy backslash) by done. rewrite N. split; [|by intros [? [=]]].
      apply andb_true_iff in Hr as [Hr _]. assert (Hc : html_char e = false ∧ Ascii.eqb e "226" = false).
      { rewrite !orb_true_iff, !Ascii.eqb_eq in Hr. destruct Hr as [[[[[[[->| ->]| ->]| ->]| ->]| ->]| ->]| ->]; done. }
      destruct Hc. by rewrite escape_copy, N. }
  assert (N : ∀ t, getu4 (c :: t) = None).
  { intros t. unfold getu4. apply Ascii.eqb_neq in Hb. destruct t as [|u [|h1 [|h2 [|h3 [|h4 t]]]]]; try done. by rewrite Hb. }
  right. split; [done|]. intros r1. cbn [html_escape]. destruct (html_char c) eqn:Hh.
  { apply html_char_spec in Hh. apply pair_low. lia. }
  destruct r as [|d [|e r]]; [by rewrite N..|]. destruct (_ && _ && _) eqn:E; [|by rewrite N].
  apply andb_true_iff in E as [_ E]. rewrite orb_true_iff, !Ascii.eqb_eq in E.
  destruct E as [->| ->]; by apply pair_low.
Qed.

Lemma step_backslash e r : string_body_ok (backslash :: e :: r) = true → same_step (backslash :: e :: r).
Proof.
  intros Hb. cbn [string_body_ok] in Hb. change (Ascii.eqb backslash backslash) with true in Hb. cbn match in Hb.
  destruct (Ascii.eqb_spec e "u") as [->|He].
  - destruct r as [|h1 [|h2 [|h3 [|h4 r]]]]; try done. rewrite !andb_true_iff in Hb. destruct Hb as [[[[H1 H2] H3] H4] Hr].
    unfold same_step. rewrite escape_hex4 by done. destruct (getu4_hex h1 h2 h3 h4 r H1 H2 H3 H4) as [v Hv].
    assert (Ho : ∀ t, string_body_ok (backslash :: "u"%char :: h1 :: h2 :: h3 :: h4 :: t) = string_body_ok t).
    { intros t. cbn [string_body_ok]. change (Ascii.eqb backslash backslash) with true. change (Ascii.eqb "u" "u") with true. cbn match.
      by rewrite H1, H2, H3, H4. }
    assert (Hs : ∀ t, unquote_step (backslash :: "u"%char :: h1 :: h2 :: h3 :: h4 :: t) =
      if is_surrogate v then match (match getu4 t with Some r2 => decode_pair v r2 | None => None end) with
        | Some dec => Some (EncodeRune dec, 12%nat) | None => Some (EncodeRune RuneError, 6%nat) end
      else Some (EncodeRune v, 6%nat)).
    { intros t. unfold unquote_step. rewrite (getu4_prefix _ _ _ _ t r), Hv. done. }
    rewrite !Hs. destruct (is_surrogate v); [|eexists _, 6%nat, 6%nat; rewrite Ho; split_and!; (done || lia)].
    destruct (getu4_escape r Hr) as [[-> Hd]|[-> Hn]].
    + destruct (getu4 r) as [r2|] eqn:Hg; [|eexists _, 6%nat, 6%nat; rewrite Ho; split_and!; (done || lia)].
      destruct (decode_pair v r2); [|eexists _, 6%nat, 6%nat; rewrite Ho; split_and!; (done || lia)].
      destruct Hd as (Hd & Hok & Hoe); [by eexists|]. eexists _, 12%nat, 12%nat. rewrite Ho.
      change (drop 12 (backslash :: "u"%char :: h1 :: h2 :: h3 :: h4 :: ?t)) with (drop 6 t). split_and!; (done || lia).
    + rewrite Hn. eexists _, 6%nat, 6%nat. rewrite Ho. split_and!; (done || lia).
  - apply andb_true_iff in Hb as [Hb Hr]. assert (He' := Hb). rewrite !orb_true_iff, !Ascii.eqb_eq in He'.
    assert (Hc : html_char e = false ∧ Ascii.eqb e "226" = false).
    { destruct He' as [[[[[[[->| ->]| ->]| ->]| ->]| ->]| ->]| ->]; done. }
    destruct Hc as [Hc1 Hc2]. unfold same_step. rewrite escape_copy, (escape_copy e) by done.
    assert (Hs : ∃ out, ∀ t, unquote_step (backslash :: e :: t) = Some (out, 2%nat)).
    { destruct He' as [[[[[[[->| ->]| ->]| ->]| ->]| ->]| ->]| ->]; by eexists. }
    destruct Hs as [out Hs]. exists out, 2%nat, 2%nat. rewrite !Hs. cbn [drop]. split_and!; try (done || lia).
    cbn [string_body_ok]. change (Ascii.eqb backslash backslash) with true. apply Ascii.eqb_neq in He. by rewrite He, Hb.
Qed.

Lemma step_u_escape b out v n r : unquote_step b = Some (out, n) → (1 ≤ n)%nat → html_escape b = u_escape v ++ html_escape r →
  drop n b = r → string_body_ok r = true → 0 ≤ v < 65536 → is_surrogate v = false → out = EncodeRune v → same_step b.
Proof.
  intros Hs Hn He Hd Ho Hv Hsu ->. exists (EncodeRune v), n, 6%nat. rewrite He, Hd.
  destruct (u_escape_step v (html_escape r) Hv Hsu) as [-> ->]. split_and!; (done || lia).
Qed.

Lemma body_ok_plain c b : string_body_ok (c :: b) = true → c ≠ backslash → Ascii.eqb c quote = false ∧ 32 ≤ ascii_Z c ∧ string_body_ok b = true.
Proof.
  intros H Hb. cbn [string_body_ok] in H. apply Ascii.eqb_neq in Hb. rewrite Hb in H. rewrite !andb_true_iff, negb_true_iff, Z.leb_le in H. tauto.
Qed.

Lemma body_ok_cons c b : c ≠ backslash → Ascii.eqb c quote = false → 32 ≤ ascii_Z c → string_body_ok (c :: b) = string_body_ok b.
Proof. intros Hb Hq H. cbn [string_body_ok]. apply Ascii.eqb_neq in Hb. by rewrite Hb, Hq, (proj2 (Z.leb_le _ _) H). Qed.

Lemma step_ascii c b : string_body_ok (c :: b) = true → c ≠ backslash → ascii_Z c < 128 → same_step (c :: b).
Proof.
  intros Hb Hc Hz. destruct (body_ok_plain _ _ Hb Hc) as (Hq & H32 & Ho).
  assert (Hs : ∀ t, unquote_step (c :: t) = Some ([c], 1%nat)).
  { intros t. unfold unquote_step. apply Ascii.eqb_neq in Hc. by rewrite Hc, Hq, (proj2 (Z.ltb_ge _ _) H32), (proj2 (Z.ltb_lt _ _) Hz). }
  destruct (html_char c) eqn:Hh.
  - apply (step_u_escape _ [c] (ascii_Z c) 1 b); [apply Hs|lia|cbn [html_escape]; by rewrite Hh|done|done| | |].
    + apply html_char_spec in Hh. lia.
    + apply html_char_spec in Hh. unfold is_surrogate. destruct (Z.leb_spec 55296 (ascii_Z c)); [lia|done].
    + apply html_char_spec in Hh. rewrite EncodeRune_ok by (unfold rune_ok; lia). rewrite (proj2 (Z.ltb_lt _ _) Hz). by rewrite byte_ascii_Z.
  - assert (E : html_escape (c :: b) = c :: html_escape b).
    { apply escape_copy; [done|]. apply Ascii.eqb_neq. intros ->. by vm_compute in Hz. }
    exists [c], 1%nat, 1%nat. rewrite E, !Hs. cbn [drop]. split_and!; try (done || lia). by apply body_ok_cons.
Qed.

(** A sequence past ASCII, with its continuation bytes [l]. *)
Lemma step_high c l r : forallb cont l = true → stops cont r → string_body_ok (c :: l ++ r) = true → 128 ≤ ascii_Z c →
  html_escape (c :: l ++ r) = c :: html_escape (l ++ r) → same_step (c :: l ++ r).
Proof.
  intros Hl Hr Hb Hz He. assert (Hc : c ≠ backslash) by (intros ->; by vm_compute in Hz).
  destruct (body_ok_plain _ _ Hb Hc) as (Hq & H32 & Ho).
  assert (Hs : ∀ t, unquote_step (c :: t) = let '(rn, n) := DecodeRune (c :: t) in Some (EncodeRune rn, n)).
  { intros t. unfold unquote_step. apply Ascii.eqb_neq in Hc. by rewrite Hc, Hq, (proj2 (Z.ltb_ge _ _) H32), (proj2 (Z.ltb_ge _ _) Hz). }
  unfold same_step. rewrite He, escape_conts by done. rewrite !Hs.
  rewrite (DecodeRune_conts c l (html_escape r) r Hl (escape_stops_cont r Hr) Hr).
  destruct (DecodeRune (c :: l ++ r)) as [rn n] eqn:D. pose proof (DecodeRune_take_conts _ _ _ _ _ Hl Hr D) as Hn.
  assert (H1 : (1 ≤ n)%nat).
  { destruct (DecodeRune_spec _ _ _ D ltac:(done)) as [[= _ ->]|(_ & ? & _)]; lia. }
  exists (EncodeRune rn), n, n. destruct n as [|n]; [lia|]. cbn [drop].
  assert (Hc1 : forallb cont (take n l) = true ∧ forallb cont (drop n l) = true).
  { rewrite <- (take_drop n l), forallb_app in Hl. by apply andb_true_iff in Hl. }
  assert (Hk : ∀ l' t, forallb cont l' = true → string_body_ok (l' ++ t) = string_body_ok t).
  { intros l' t Hl'. apply cont_high_ok. rewrite forallb_forall in Hl' |- *. intros x Hx. apply Hl' in Hx. unfold cont, in_range in Hx. by apply andb_true_iff in Hx as [-> _]. }
  rewrite !drop_app_le by lia. split_and!; try (done || lia).
  - rewrite escape_conts by apply Hc1. done.
  - rewrite Hk by apply Hc1. by rewrite Hk in Ho.
  - rewrite body_ok_cons by done. rewrite escape_conts by apply Hc1. rewrite !Hk by (done || apply Hc1). done.
Qed.

Lemma span_cont b : ∃ l r, b = l ++ r ∧ forallb cont l = true ∧ stops cont r.
Proof. destruct (span cont b) as [l r] eqn:E. exists l, r. by apply span_spec. Qed.

Lemma step_same b : b ≠ [] → string_body_ok b = true → same_step b.
Proof.
  destruct b as [|c b]; [done|]. intros _ Hb. destruct (Ascii.eqb_spec c backslash) as [->|Hc].
  { destruct b as [|e b]; [done|]. by apply step_backslash. }
  destruct (Z.ltb_spec (ascii_Z c) 128) as [Hz|Hz]; [by apply step_ascii|].
  destruct (span_cont b) as (l & r & -> & Hl & Hr).
  assert (Hh : html_char c = false) by (destruct (html_char c) eqn:E; [apply html_char_spec in E; lia|done]).
  destruct (l ++ r) as [|d [|e t]] eqn:El; [rewrite <- El in *; apply step_high; try done; rewrite El; cbn [html_escape]; by rewrite Hh..|].
  destruct (Ascii.eqb c "226" && Ascii.eqb d "128" && (Ascii.eqb e "168" || Ascii.eqb e "169")) eqn:E.
  - assert (Ht : string_body_ok t = true).
    { apply body_ok_plain in Hb as (_ & _ & Hb); [|done]. rewrite !andb_true_iff, orb_true_iff, !Ascii.eqb_eq in E.
      destruct E as [[_ ->] E]. destruct E as [->| ->]; exact Hb. }
    rewrite !andb_true_iff, orb_true_iff, !Ascii.eqb_eq in E. destruct E as [[-> ->] [->| ->]];
      [apply (step_u_escape _ (EncodeRune 8232) 8232 3 t)|apply (step_u_escape _ (EncodeRune 8233) 8233 3 t)]; (done || lia).
  - rewrite <- El in *. apply step_high; try done. rewrite El. cbn [html_escape]. by rewrite Hh, E.
Qed.

(** A string and its escaped form decode to the same bytes. *)
Lemma unquote_escape b : string_body_ok b = true → unquote_from 0 (html_escape b) = unquote_from 0 b ∧ string_body_ok (html_escape b) = true.
Proof.
  induction b as [b IH] using (induction_ltof1 _ (@length ascii)). unfold ltof in IH. intros Hb.
  destruct b as [|c b]; [done|]. destruct (step_same (c :: b) ltac:(done) Hb) as (out & n & n' & Hs & Hs' & Hn & Hn' & Hd & Ho & Hoe).
  destruct n as [|n]; [lia|]. destruct n' as [|n']; [lia|]. cbn [drop] in *.
  destruct (IH (drop n b)) as [Hu Hk]; [simpl; rewrite length_drop; lia|done|].
  destruct (html_escape (c :: b)) as [|x t] eqn:E; [discriminate Hs'|]. split; [|exact (eq_trans Hoe Hk)].
  cbn [unquote_from]. rewrite Hs, Hs'. cbn [Nat.sub]. rewrite !Nat.sub_0_r, (unquote_skip_drop n'), (unquote_skip_drop n). cbn [drop] in Hd. by rewrite Hd, Hu.
Qed.

Lemma value_escape b : string_body_ok b = true → jsonStringValue (string_token (html_escape b)) = jsonStringValue (string_token b).
Proof. intros H. destruct (unquote_escape b H) as [Hu Ho]. by rewrite !jsonStringValue_unquote, Hu. Qed.

(** ** Compacted trees *)

Lemma compact_members c : object_members (compact c) = map compact_member <$> object_members c.
Proof. destruct c as [| |[]| |]; done. Qed.

Lemma compact_key m : wf_member m → mb_key (compact_member m) = mb_key m.
Proof. intros (_ & Hk & _)%wf_member_inv. apply (value_escape _ Hk). Qed.

Lemma wf_compact c : wf c → wf (compact c).
Proof.
  induction c as [t|b|a sp|e es IHe IHes|m ms IHm IHms] using cst_ind'; intros Hw; inversion Hw; subst; cbn [compact].
  - done.
  - constructor. by apply unquote_escape.
  - by constructor.
  - assert (He : ∀ e, (wf (el_value e) → wf (compact (el_value e))) → wf_element e → wf_element ([], compact e.1.2, [])).
    { intros e' IH He. destruct He as [s1 c s2 ? Hc ?]. constructor; [done|by apply IH|done]. }
    constructor; [by apply He|]. apply List.Forall_map. rewrite Forall_forall in IHes. match goal with H : Forall wf_element es |- _ => rewrite Forall_forall in H; rename H into Hes end.
    rewrite Forall_forall. intros x Hx. apply He; auto.
  - assert (He : ∀ m, (wf (mb_value m) → wf (compact (mb_value m))) → wf_member m → wf_member (compact_member m)).
    { intros m' IH Hm. apply wf_member_inv in Hm as (_ & Hk & _ & _ & Hv & _). constructor; try done; [by apply unquote_escape|by apply IH]. }
    constructor; [by apply He|]. apply List.Forall_map. rewrite Forall_forall in IHms. match goal with H : Forall wf_member ms |- _ => rewrite Forall_forall in H; rename H into Hms end.
    rewrite Forall_forall. intros x Hx. apply He; auto.
Qed.

Lemma nesting_compact c : nesting (compact c) = nesting c.
Proof.
  induction c as [t|b|a sp|e es IHe IHes|m ms IHm IHms] using cst_ind'; cbn [compact nesting]; try done.
  - unfold el_value in *. cbn [fst snd]. rewrite IHe. f_equal. induction IHes as [|x es Hx _ IH]; [done|]. cbn [map foldr fst snd]. by rewrite Hx, IH.
  - unfold mb_value in *. cbn [fst snd]. rewrite IHm. f_equal. induction IHms as [|x es Hx _ IH]; [done|]. cbn [map foldr fst snd]. by rewrite Hx, IH.
Qed.

(** ** Names that went through json.Marshal *)

Definition decodes (r : Z) : Prop := EncodeRune r ≠ [] ∧ ∀ tail, DecodeRune (EncodeRune r ++ tail) = (r, length (EncodeRune r)).

Lemma runes_decodes b k : Forall decodes (runes_from k b).
Proof.
  revert k. induction b as [|c b IH]; intros k; [constructor|]. destruct k as [|k]; [|apply IH]. cbn [runes_from].
  destruct (DecodeRune (c :: b)) as [r n] eqn:D. constructor; [|apply IH].
  destruct (DecodeRune_spec _ _ _ D ltac:(done)) as [[= -> ->]|(Hok & Hn & He & Ht)]; [by split|].
  apply DecodeRune_width in D. assert (Hl : length (EncodeRune r) = n) by (rewrite He, length_take; lia).
  split; [intros E; rewrite E in Hl; simpl in Hl; lia|]. intros tail. by rewrite Hl, He.
Qed.

Lemma runes_coerce b : runes (coerce b) = runes b.
Proof.
  unfold coerce. pose proof (runes_decodes b 0) as H. change (runes_from 0 b) with (runes b) in H.
  induction H as [|r rs [Hne Hd] _ IH]; [done|]. cbn [flat_map].
  rewrite (runes_decode _ _ _ _ Hne (Hd _) eq_refl). by rewrite IH.
Qed.

(** Replacing invalid UTF-8 does not change what a name matches. *)
Lemma matches_coerce name field : jsonNameMatches (coerce name) field = jsonNameMatches name field.
Proof. unfold jsonNameMatches. by rewrite runes_coerce. Qed.

Lemma Marshal_key name : jsonStringValue (string_token (marshal_body name)) = coerce name.
Proof. apply jsonStringValue_Marshal. Qed.
