(* ===== verification/ProxyFacts.v ===== *)
(** What the LLM request handler guarantees.

    The handler of LlmProxy.v is a refinement of the replica of
    BudgetFacts.v: running it from any ledger is a sequence of the replica's
    steps that returns every admission slot it took, so the invariants proved
    there over all interleavings hold with requests served by the handler.
    The second group says what a forwarded request had to pass. *)

From stdpp Require Import base gmap sets list strings option fin_maps relations.
From Stdlib Require Import ZArith Lia Ascii.
From S2P Require Import Prelude Json JsonString RequestBody RequestClaims GoFloat GoTime Api BudgetPeriod BudgetWire BudgetLedger BudgetFacts RateLimit Auth Routing Fallback FallbackFacts Activity LlmProxy.

Section simulation.
Context {MR : MapRange} {TR : Translator}.
Variable name_of : string → string.
Variable may : string → string → Prop.

(** How long the relay of the answer takes. *)
Variable relay : Duration.

(** The outside takes no negative time and ends before the year 10000. *)
Fixpoint script_ok (now : Time) (script : list (Duration * upstream * bool)) : Prop :=
  (0 <= relay)%Z ∧ four_digit_year (now + relay)%Z ∧
  match script with
  | [] => True
  | (d, _, _) :: rest => (0 <= d)%Z ∧ four_digit_year (now + d)%Z ∧ script_ok (now + d)%Z rest
  end.

(** The store's providers carry their own names and periods. *)
Definition world_ok (g : gatewayWorld) : Prop :=
  (∀ n p, ProviderByName (gw_store g) n = Some p → consistent name_of may p) ∧ script_ok (gw_clock g) (gw_script g).

(** The other requests in flight. *)
Variable fl : list settle_handle.

Definition replica (g : gatewayWorld) (i : option settle_handle) : world :=
  mk_world (gw_ledger g) (gw_clock g) (option_list i ++ fl).

(** [hp] is the primary's handle, [i] the slot held now: it is not settled,
    and the primary's slot is held or settled. *)
Record slot_ok (hp : option settle_handle) (tr : list walk_effect) (i : option settle_handle) : Prop :=
  mk_slot_ok {
    so_fresh : ∀ h, i = Some h → Settled h ∉ tr;
    so_primary : ∀ h, hp = Some h → i = Some h ∨ Settled h ∈ tr;
    so_may : ∀ h, i = Some h → may (h_uid h) (h_scheme h);
  }.

(** ** The operations are steps of the replica *)

Lemma admit_runs g p ns wl g' d h :
  world_ok g → consistent name_of may p → gateway_admit g p ns wl = (g', (d, h)) →
  rtc (step name_of may) (replica g None) (replica g' h) ∧ world_ok g' ∧
  (∀ h', h = Some h' → h_provider h' = Name p ∧ may (h_uid h') (h_scheme h')) ∧ (refused d = true → h = None).
Proof.
  unfold gateway_admit. intros Hok Hp. destruct (Admit _ _ _ _ _) as [b [d0 h0]] eqn:E. intros [= <- <- <-].
  split_and!; [|done| |by eapply Admit_refused_no_handle].
  - apply rtc_once. by eapply step_admit.
  - intros h' ->. destruct (Admit_handle _ _ _ _ _ _ _ _ E) as (?&?&?&?&_&_&_&_&_&_&->&_). split; [done|apply Hp].
Qed.

Lemma settle_runs g h c : may (h_uid h) (h_scheme h) → rtc (step name_of may) (replica g (Some h)) (replica (gateway_settle g h c) None).
Proof. intros Hm. apply rtc_once. by apply (step_settle name_of may (gw_ledger g) (gw_clock g) [] h fl). Qed.

Lemma forward_runs g st p g' u i :
  world_ok g → gateway_forward g st p = (g', u) →
  rtc (step name_of may) (replica g i) (replica g' i) ∧ world_ok g'.
Proof.
  unfold gateway_forward. intros [Hs Hscript]. destruct (gw_script g) as [|[[d v] gone] rest] eqn:E; intros [= <- <-].
  - split; [done|]. split; [done|by rewrite E].
  - destruct Hscript as (_ & _ & Hd & H4 & Hrest). split; [|by split].
    apply rtc_once, step_tick; [simpl; unfold Time, Duration in *; lia|done].
Qed.

Lemma add_runs g p ns wl c :
  consistent name_of may p →
  rtc (step name_of may) (replica g None)
    (replica (mk_gateway (Add (gw_ledger g) (gw_clock g) p ns wl c) (gw_clock g) (gw_store g) (gw_script g) (gw_left g)) None).
Proof. intros Hp. apply rtc_once. by apply (step_count name_of may (gw_ledger g) (gw_clock g) fl (OpAdd p ns wl c)). Qed.

Lemma settled_in (h : settle_handle) tr :
  existsb (λ e, match e with Settled h' => bool_decide (h = h') | _ => false end) tr = true ↔ Settled h ∈ tr.
Proof.
  rewrite existsb_exists. split.
  - intros (e & He & Hb). destruct e; try done. apply bool_decide_eq_true in Hb as ->. by apply list_elem_of_In.
  - intros H%list_elem_of_In. exists (Settled h). by rewrite bool_decide_true.
Qed.

(** Settling the slot that is held. *)
Lemma settle_once_held hp g tr i c g' tr' :
  slot_ok hp tr i → settle_once (g, tr) i c = (g', tr') →
  rtc (step name_of may) (replica g i) (replica g' None) ∧ slot_ok hp tr' None.
Proof.
  intros [Hf Hp Hm]. unfold settle_once. destruct i as [h|]; cbn [fst snd]; [|by intros [= <- <-]].
  destruct (existsb _ tr) eqn:E. { apply settled_in in E. by destruct (Hf h eq_refl). }
  intros [= <- <-]. split; [by apply settle_runs, Hm|]. split; [done| |done].
  intros h' Hh. right. apply elem_of_app. destruct (Hp h' Hh) as [[= ->]|]; [right; set_solver|by left].
Qed.

(** The deferred settle of the primary's slot, whatever became of it. *)
Lemma settle_once_primary hp g tr i c g' tr' :
  slot_ok hp tr i → i = hp ∨ i = None → settle_once (g, tr) hp c = (g', tr') →
  rtc (step name_of may) (replica g i) (replica g' None).
Proof.
  intros Hok [->| ->] H; [by eapply settle_once_held|].
  destruct Hok as [_ Hp _]. unfold settle_once in H. destruct hp as [h|]; [|by injection H as <- <-].
  destruct (Hp h eq_refl) as [|Hin]; [done|]. cbn [fst snd] in H.
  apply settled_in in Hin. rewrite Hin in H. by injection H as <- <-.
Qed.

(** ** The walk *)

Implicit Types w : walk (W := gatewayWorld).

Definition is_settled (e : walk_effect) : bool := match e with Settled _ => true | _ => false end.

(** The walk settled only slots of providers it visited. *)
Record walk_ok w (i : option settle_handle) : Prop := mk_walk_ok {
  wo_world : world_ok (w_world w);
  wo_slot : slot_ok (primarySettle (w_st w)) (w_trace w) i;
  wo_visited : ∀ h, Settled h ∈ w_trace w → h_provider h ∈ visited (w_st w);
}.

(** [w], holding [i], runs to [w'], holding [i']. *)
Definition sim w (i : option settle_handle) w' (i' : option settle_handle) : Prop :=
  rtc (step name_of may) (replica (w_world w) i) (replica (w_world w') i') ∧ walk_ok w' i'.

Lemma sim_trans w1 i1 w2 i2 w3 i3 : sim w1 i1 w2 i2 → sim w2 i2 w3 i3 → sim w1 i1 w3 i3.
Proof. intros [H1 _] [H2 Hok]. split; [by etrans|done]. Qed.

Lemma frame_settle st st' : walk_frame st = walk_frame st' → primarySettle st = primarySettle st' ∧ primary st = primary st'.
Proof. unfold walk_frame. intros [= E1 _ _ _ E2 _]. done. Qed.

Lemma settled_app_quiet (l l' : list walk_effect) h :
  forallb (λ e, negb (is_settled e)) l' = true → Settled h ∈ l ++ l' ↔ Settled h ∈ l.
Proof.
  intros Hl. rewrite elem_of_app. split; [|by left]. intros [|Hin]; [done|].
  rewrite forallb_forall in Hl. by specialize (Hl _ (proj1 (list_elem_of_In _ _) Hin)).
Qed.

(** A step that settles nothing and keeps the slot. *)
Lemma walk_ok_step w w' i l :
  walk_ok w i → world_ok (w_world w') → walk_frame (w_st w) = walk_frame (w_st w') → visited (w_st w) ⊆ visited (w_st w') →
  w_trace w' = w_trace w ++ l → forallb (λ e, negb (is_settled e)) l = true → walk_ok w' i.
Proof.
  intros [_ [Hf Hp Hm] Hv] Hw (E & _)%frame_settle Hvis Ht Hl. constructor; [done|constructor; [| |exact Hm]|].
  - intros h Hi. rewrite Ht, (settled_app_quiet _ _ _ Hl). by apply Hf.
  - intros h Hh. rewrite Ht, (settled_app_quiet _ _ _ Hl). apply Hp. by rewrite E.
  - intros h. rewrite Ht, (settled_app_quiet _ _ _ Hl). intros Hin. by apply Hvis, Hv.
Qed.

Lemma sim_idle w w' i l :
  walk_ok w i → w_world w' = w_world w → walk_frame (w_st w) = walk_frame (w_st w') → visited (w_st w) ⊆ visited (w_st w') →
  w_trace w' = w_trace w ++ l → forallb (λ e, negb (is_settled e)) l = true → sim w i w' i.
Proof.
  intros Hok Hw Hf Hv Ht Hl. split; [by rewrite Hw|].
  eapply walk_ok_step; eauto. rewrite Hw. apply Hok.
Qed.

Lemma entered_sim w p w1 i : walk_ok w i → entered w p w1 → sim w i w1 i.
Proof.
  intros Hok []. apply (sim_idle _ _ _ []); [done..| |by rewrite app_nil_r|done].
  rewrite ent_visited. set_solver.
Qed.

Lemma run_attempt_sim w p w' r i :
  walk_ok w i → run_attempt w p = (w', r) → sim w i w' i ∧ (∀ q, chosen r = Some q → q = p).
Proof.
  intros Hok H. pose proof (run_attempt_trace _ _ _ _ H) as (F & _ & V & _ & T).
  unfold run_attempt in H. destruct (forward _ _ _) as [x u] eqn:E.
  destruct (forward_runs _ _ _ _ _ i (wo_world _ _ Hok) E) as [Hr Hw].
  assert (Hx : w_world w' = x) by (case_match; by simplify_eq/=). split.
  - split; [by rewrite Hx|]. eapply walk_ok_step; [exact Hok|by rewrite Hx|done|by rewrite V|exact T|done].
  - assert (Hc : chosen r = chosen (forwardOnce (caller_left x) p u)) by (case_match; by simplify_eq/=).
    rewrite Hc. intros q. unfold forwardOnce, vertexCredential. repeat (case_match; simplify_eq/=); congruence.
Qed.

Definition slot_of (r : failClass + option settle_handle) : option settle_handle :=
  match r with inl _ => None | inr h => h end.

(** A candidate's admission: it takes at most its own slot. *)
Definition budget_sim w p (i : option settle_handle) : Prop := ∀ w1 w2 r,
  entered w p w1 → budget_step true w1 p = (w2, r) →
  sim w i w2 (slot_of r) ∧ (∀ h, slot_of r = Some h → h_provider h = Name p).

Lemma budget_sim_primary w p :
  walk_ok w (primarySettle (w_st w)) → Name p = Name (primary (w_st w)) →
  (∀ h, primarySettle (w_st w) = Some h → h_provider h = Name p) →
  budget_sim w p (primarySettle (w_st w)).
Proof.
  intros Hok Hp Hh w1 w2 r Hin Hb. pose proof (frame_settle _ _ (ent_frame _ _ _ Hin)) as [E1 E2].
  unfold budget_step in Hb. cbn [negb] in Hb. rewrite <- E2, <- Hp, String.eqb_refl in Hb. injection Hb as <- <-.
  cbn [slot_of]. rewrite <- E1. split; [by eapply entered_sim|done].
Qed.

(** The trace of an admission: nothing is settled. *)
Lemma budget_step_emits w p w' r :
  budget_step true w p = (w', r) → ∃ l, w_trace w' = w_trace w ++ l ∧ forallb (λ e, negb (is_settled e)) l = true.
Proof.
  unfold budget_step. cbn [negb]. intros H. repeat (case_match; simplify_eq/=); rewrite <- ?app_assoc;
    try (by eexists). exists []. by rewrite app_nil_r.
Qed.

(** The admission itself, of a candidate that is not the primary. *)
Lemma budget_step_admits w p w' r :
  Name p ≠ Name (primary (w_st w)) → budget_step true w p = (w', r) →
  ∃ d h, gateway_admit (w_world w) p (ws_namespace (w_st w)) (ws_workload (w_st w)) = (w_world w', (d, h)) ∧
    (refused d = false → slot_of r = h) ∧ (refused d = true → slot_of r = None).
Proof.
  intros Hne%String.eqb_neq. unfold budget_step, refused. cbn [negb]. rewrite Hne. cbn [admit_candidate gateway_world].
  destruct (gateway_admit _ _ _ _) as [x [d h]]. intros H. exists d, h.
  repeat (case_match; simplify_eq/=); split_and!; done.
Qed.

Lemma budget_sim_child w p :
  walk_ok w None → consistent name_of may p → Name (primary (w_st w)) ∈ visited (w_st w) → budget_sim w p None.
Proof.
  intros Hok Hc Hprim w1 w2 r Hin Hb. destruct (entered_sim _ _ _ _ Hok Hin) as [_ Hok1].
  pose proof (frame_settle _ _ (ent_frame _ _ _ Hin)) as [_ E].
  assert (Hne : Name p ≠ Name (primary (w_st w1))).
  { intros Hp. apply (ent_fresh _ _ _ Hin). by rewrite Hp, <- E. }
  destruct (budget_step_admits _ _ _ _ Hne Hb) as (d & h & Hadm & Hs0 & Hs1).
  destruct (admit_runs _ _ _ _ _ _ _ (wo_world _ _ Hok1) Hc Hadm) as (Hr & Hw & Hprov & Hnone).
  assert (Hs : slot_of r = h) by (destruct (refused d); [by rewrite Hs1, Hnone|by apply Hs0]).
  rewrite Hs. split; [|intros h' Hh'; by apply Hprov].
  destruct (budget_step_emits _ _ _ _ Hb) as (l & Ht & Hl). pose proof (budget_step_quiet _ _ _ _ _ Hb) as [F _ V _ _].
  split; [by rewrite <- (ent_world _ _ _ Hin)|].
  assert (Hok2 : walk_ok w2 None) by (eapply walk_ok_step; eauto; by rewrite V).
  destruct Hok2 as [Hw2 [_ Hp2 _] Hv2]. constructor; [done|constructor; [| |intros h' Hh'; by apply Hprov]|done].
  - intros h' -> Hin'. rewrite Ht, (settled_app_quiet _ _ _ Hl), (ent_trace _ _ _ Hin) in Hin'.
    apply (ent_fresh _ _ _ Hin). rewrite <- (proj1 (Hprov h' eq_refl)). by apply (wo_visited _ _ Hok).
  - intros h' Hh. destruct (Hp2 h' Hh); [done|by right].
Qed.

(** Settling the slot of a failed attempt. *)
Lemma settle_sim w h :
  walk_ok w (Some h) → h_provider h ∈ visited (w_st w) →
  sim w (Some h) (emit (with_world w (gateway_settle (w_world w) h f64_zero)) [Settled h]) None.
Proof.
  intros [Hw [Hf Hp Hm] Hv] Hh. split; [by apply settle_runs, Hm|]. constructor; [done|constructor; [done| |done]|]; simpl.
  - intros h' Hh'. right. apply elem_of_app. destruct (Hp h' Hh') as [[= ->]|]; [right; set_solver|by left].
  - intros h'. rewrite elem_of_app, list_elem_of_singleton. intros [?|[= ->]]; auto.
Qed.

(** A result names a provider of the store, and holds a slot only when it
    answers. *)
Definition result_ok (res : forwardResult) (ok : bool) : Prop :=
  (∀ q, chosen res = Some q → consistent name_of may q) ∧ (ok = false → fr_settle res = None).

Definition child_sim (try : ModelProvider → walk → walk_result) : Prop := ∀ p w w' res ok,
  consistent name_of may p → Name (primary (w_st w)) ∈ visited (w_st w) → walk_ok w None →
  try p w = Some (w', (res, ok)) → sim w None w' (fr_settle res) ∧ result_ok res ok.

Lemma walk_refs_sim fuel model refs w w' res ok :
  child_sim (tryWithFallbacks true fuel) → Name (primary (w_st w)) ∈ visited (w_st w) → walk_ok w None →
  walk_refs (tryWithFallbacks true fuel) model refs w = Some (w', (res, ok)) →
  sim w None w' (fr_settle res) ∧ result_ok res ok.
Proof.
  intros Htry. revert w; induction refs as [|ref refs IH]; intros w Hv Hok; cbn [walk_refs].
  { intros [= <- <- <-]. split; [by split|by split]. }
  destruct (providerByName _ _) as [next|] eqn:En.
  2: { intros H. set (w1 := emit w _) in H. assert (Hs : sim w None w1 None) by (eapply sim_idle; [done|done|done|done|reflexivity|done]).
       apply IH in H as [Hsim Hres]; [|done|apply Hs]. split; [exact (sim_trans _ _ _ _ _ _ Hs Hsim)|done]. }
  set (w0 := with_st w _). assert (Hs0 : sim w None w0 None).
  { apply (sim_idle _ _ _ []); try done. by rewrite app_nil_r. }
  destruct (tryWithFallbacks _ _ next w0) as [[w1 [res1 ok1]]|] eqn:Et; [|done].
  pose proof (try_rel _ _ _ _ _ _ Et) as [F _ V _ _].
  apply Htry in Et as [Hs1 [Hc1 Hr1]]; [|exact (proj1 (wo_world _ _ Hok) _ _ En)|done|apply Hs0].
  destruct ok1. { intros [= <- <- <-]. split; [exact (sim_trans _ _ _ _ _ _ Hs0 Hs1)|done]. }
  rewrite Hr1 in Hs1 by done. intros H. apply IH in H as [Hs2 Hres]; [|..|apply Hs1].
  - split; [|done]. exact (sim_trans _ _ _ _ _ _ Hs0 (sim_trans _ _ _ _ _ _ Hs1 Hs2)).
  - apply frame_settle in F as [_ <-]. by apply V.
Qed.

(** Descending into the children with nothing held; [f] is what an
    unanswered walk returns. *)
Lemma or_children_sim fuel p w f w' res ok :
  child_sim (tryWithFallbacks true fuel) → Name (primary (w_st w)) ∈ visited (w_st w) → walk_ok w None →
  fr_settle f = None → (∀ q, chosen f = Some q → consistent name_of may q) →
  or_children (walkChildren (tryWithFallbacks true fuel) p w) f = Some (w', (res, ok)) →
  sim w None w' (fr_settle res) ∧ result_ok res ok.
Proof.
  intros Htry Hv Hok Hf Hc ([res' ok'] & H & Hok' & Htrue & Hfalse)%or_children_Some. simpl in *. subst ok'.
  apply walk_refs_sim in H as [Hs [Hc' Hr']]; [|done..]. destruct ok.
  - injection (Htrue eq_refl) as ->. done.
  - rewrite (Hfalse eq_refl). rewrite Hf. rewrite Hr' in Hs by done. done.
Qed.

Lemma node_sim fuel p w w' res ok i :
  child_sim (tryWithFallbacks true fuel) → walk_ok w i → consistent name_of may p →
  (Name (primary (w_st w)) ∈ visited (w_st w) ∨ Name p = Name (primary (w_st w))) → budget_sim w p i →
  tryWithFallbacks true (S fuel) p w = Some (w', (res, ok)) →
  (sim w i w' (fr_settle res) ∧ result_ok res ok) ∨ (res = no_result ∧ ok = false ∧ sim w i w' i).
Proof.
  intros Htry Hok Hcons Hprim Hbud.
  assert (Hvis : ∀ w1 w2, entered w p w1 → walk_frame (w_st w1) = walk_frame (w_st w2) →
    visited (w_st w1) = visited (w_st w2) → Name (primary (w_st w2)) ∈ visited (w_st w2) ∧ Name p ∈ visited (w_st w2)).
  { intros w1 w2 [] F <-. apply frame_settle in F as [_ <-], ent_frame as [_ <-]. rewrite ent_visited.
    destruct Hprim as [?| ->]; set_solver. }
  intros [w1 Hrel (l & Ht & Hl) Hobs Hw|w1 w2 c w1' res1 ok1 Hin Hb Hc|w1 w2 h w3 res1 Hin Hb Ha Hend
         |w1 w2 h w3 r0 w1' res1 ok1 Hin Hb Ha Hf Hl Hc]%try_cases.
  - right. split_and!; [done..|]. destruct Hrel as [F _ V _ _]. eapply sim_idle; eauto.
    clear -Hl. induction Hl as [|e l (o & n & ->) _ IH]; [done|exact IH].
  - left. destruct (Hbud _ _ _ Hin Hb) as [Hs _]. pose proof (budget_step_quiet _ _ _ _ _ Hb) as [F _ V _ _].
    destruct (Hvis _ _ Hin F V). apply or_children_sim in Hc as [Hs2 Hres]; [|done..|apply Hs|done|done].
    split; [exact (sim_trans _ _ _ _ _ _ Hs Hs2)|done].
  - left. destruct (Hbud _ _ _ Hin Hb) as [Hs _]. destruct (run_attempt_sim _ _ _ _ h (proj2 Hs) Ha) as [Hs3 Hc].
    split; [exact (sim_trans _ _ _ _ _ _ Hs Hs3)|]. split; [|done]. intros q Hq. by rewrite (Hc q Hq).
  - left. destruct (Hbud _ _ _ Hin Hb) as [Hs Hprov]. pose proof (budget_step_quiet _ _ _ _ _ Hb) as [F _ V _ _].
    pose proof (run_attempt_trace _ _ _ _ Ha) as (F3 & _ & V3 & _).
    destruct (Hvis w1 w3) as [Hv3 Hp3]; [done|congruence|congruence|].
    destruct (run_attempt_sim _ _ _ _ h (proj2 Hs) Ha) as [Hs3 Hch]. cbv zeta in Hc.
    set (w4 := match h with Some h => _ | None => w3 end) in Hc.
    assert (Hs4 : sim w3 h w4 None).
    { unfold w4. destruct h as [h|]; [|by split; [|apply Hs3]].
      apply settle_sim; [apply Hs3|]. by rewrite (Hprov h eq_refl). }
    assert (Hs5 : sim w4 None (emit w4 (recordCredentialFailure p (set_settle r0 None))) None).
    { eapply sim_idle; [apply Hs4|done..|]. unfold recordCredentialFailure. by repeat case_match. }
    apply or_children_sim in Hc as [Hs6 Hres]; [|done| |apply Hs5|done|].
    + split; [|done]. eapply sim_trans; [exact Hs|]. eapply sim_trans; [exact Hs3|].
      eapply sim_trans; [exact Hs4|]. exact (sim_trans _ _ _ _ _ _ Hs5 Hs6).
    + unfold w4. by destruct h.
    + intros q Hq. by rewrite (Hch q Hq).
Qed.

Lemma child_try_sim fuel : child_sim (tryWithFallbacks true fuel).
Proof.
  induction fuel as [|fuel IH]; intros p w w' res ok Hc Hv Hok Htry; [done|].
  eapply node_sim in Htry as [?|(-> & -> & Hs)]; [done|by split; [|split]|done|done|done|by left|by apply budget_sim_child].
Qed.

(** The whole walk: it returns with the slot of its answer held, or, when it
    skipped the primary, with the primary's. *)
Lemma walk_sim fuel w w' res ok :
  walk_ok w (primarySettle (w_st w)) → consistent name_of may (primary (w_st w)) →
  (∀ h, primarySettle (w_st w) = Some h → h_provider h = Name (primary (w_st w))) →
  tryWithFallbacks true fuel (primary (w_st w)) w = Some (w', (res, ok)) →
  ∃ i, sim w (primarySettle (w_st w)) w' i ∧ (∀ q, chosen res = Some q → consistent name_of may q) ∧
    (i = fr_settle res ∨ (i = primarySettle (w_st w) ∧ ok = false ∧ fr_settle res = None)) ∧
    (ok = false → fr_settle res = None).
Proof.
  destruct fuel as [|fuel]; [done|]. intros Hok Hc Hh Htry.
  eapply node_sim in Htry as [[Hs [Hch Hf]]|(-> & -> & Hs)];
    [eexists; split_and!; [exact Hs|done|by left|done]|eexists; split_and!; [exact Hs|done|by right|done]
    |apply child_try_sim|done|done|by right|by apply budget_sim_primary].
Qed.

(** ** The handler *)

Variable cfg : Config.

Lemma settleUsage_sim hp s tr primary chosen ns wl am sm u i s' tr' :
  slot_ok hp tr i → consistent name_of may chosen →
  settleUsage cfg s tr primary chosen ns wl am sm u i = (s', tr') →
  rtc (step name_of may) (replica (sv_world s) i) (replica (sv_world s') None) ∧ slot_ok hp tr' None.
Proof.
  intros Hok Hc. unfold settleUsage. destruct i as [h|].
  - destruct (settle_once _ _ _) as [g tr1] eqn:E. intros [= <- <-]. simpl in E |- *. by eapply settle_once_held.
  - intros [= <- <-]. simpl. split; [by apply add_runs|done].
Qed.

(** A relay passes time. *)
Lemma relay_runs g i : world_ok g → rtc (step name_of may) (replica g i) (replica (after_relay g relay) i).
Proof.
  intros [_ Hs]. assert (H : (0 <= relay)%Z ∧ four_digit_year (gw_clock g + relay)%Z) by (destruct (gw_script g); simpl in Hs; tauto).
  apply rtc_once, step_tick; [simpl; unfold Time, Duration in *; lia|tauto].
Qed.

Lemma writeWalkResult_sim hp s tr primary ns wl am res u s' tr' :
  ru_elapsed u = relay → world_ok (sv_world s) → slot_ok hp tr (fr_settle res) → consistent name_of may primary →
  (∀ q, chosen res = Some q → consistent name_of may q) →
  writeWalkResult cfg s tr primary ns wl am res u = (s', tr') →
  rtc (step name_of may) (replica (sv_world s) (fr_settle res)) (replica (sv_world s') None) ∧ slot_ok hp tr' None.
Proof.
  intros Hu Hw Hok Hp Hc. unfold writeWalkResult, settleRelay. rewrite Hu.
  pose proof (relay_runs (sv_world s) (fr_settle res) Hw) as Hrelay.
  set (s1 := set_world s _). change (after_relay (sv_world s) relay) with (sv_world s1) in Hrelay.
  destruct (match resp res with Some _ => _ | None => true end); [|destruct (negb (isZero (ru_usage u)))]; intros H.
  - destruct (settle_once _ _ _) as [g tr1] eqn:E. injection H as <- <-. by eapply settle_once_held.
  - eapply settleUsage_sim in H as [Hrun Hok']; [|exact Hok|destruct (chosen res); simpl; auto].
    split; [etrans; [exact Hrelay|exact Hrun]|done].
  - destruct (settle_once _ _ _) as [g tr1] eqn:E. injection H as <- <-.
    destruct (settle_once_held _ _ _ _ _ _ _ Hok E) as [Hrun Hok']. split; [etrans; [exact Hrelay|exact Hrun]|done].
Qed.

(** The part of the handler after the admission: it returns, with the
    primary's slot or none. *)
Lemma serve_sim s r primary adapter body fields modelID h u :
  bodyFields body = Some (inl fields) →
  ru_elapsed u = relay → world_ok (sv_world s) → consistent name_of may primary →
  (∀ h', h = Some h' → h_provider h' = Name primary ∧ may (h_uid h') (h_scheme h')) →
  ∃ s' tr rep i, serve cfg s r primary adapter body fields modelID h u = Some (s', tr, rep) ∧
    rtc (step name_of may) (replica (sv_world s) h) (replica (sv_world s') i) ∧ slot_ok h tr i ∧ (i = h ∨ i = None).
Proof.
  intros Hb Hu Hw Hc Hh. unfold serve. destruct (Allow _ _ _ _ _ _) as [limiter [ok retry]].
  assert (Hstart : slot_ok h [Admission (Name primary) h] h).
  { constructor; [|by left|intros h' Hh'; by apply Hh]. intros h' _ Hin%list_elem_of_singleton. done. }
  destruct ok; cbn [negb]. 2: { do 4 eexists. split; [done|]. split_and!; [done|done|by left]. }
  destruct (accepted_rewrites body fields (bs modelID) (streamUsageOption adapter) Hb) as [outBody ->].
  set (s1 := match c_Workload _ with Some _ => _ | None => _ end).
  assert (Hs1 : sv_world s1 = sv_world s) by (unfold s1; by repeat case_match).
  set (st := mk_walk_state _ _ _ _ _ _ _ _ _ _ _ _ _ _ _ _ _).
  rewrite Hs1. set (w := mk_walk st (sv_world s) _).
  destruct (try_total true (S (Z.to_nat (MaxFallbackDepth cfg))) primary w) as [[w' [res ok]] Htry].
  { unfold attempts_left. simpl. rewrite Z.sub_0_r. lia. }
  rewrite Htry. assert (Hwok : walk_ok w (primarySettle (w_st w))).
  { constructor; [exact Hw|exact Hstart|]. intros h' Hin%list_elem_of_singleton. done. }
  pose proof (frame_settle _ _ (rel_frame _ _ (try_rel _ _ _ _ _ _ Htry))) as [Hsettle _].
  apply (walk_sim _ w) in Htry as (i & [Hrun [Hwok' Hslot _]] & Hchosen & Hi & Hnone); [|done|done|intros h' Hh'; by apply Hh].
  rewrite <- Hsettle in Hslot. simpl in Hslot, Hrun, Hi.
  destruct (gw_left (w_world w') && _) eqn:Eleft; [|destruct ok; cbn [negb]].
  - destruct (settle_once _ _ _) as [g tr] eqn:E. simpl in E. destruct Hi as [->|(-> & -> & Hf)].
    + destruct (settle_once_held _ _ _ _ _ _ _ Hslot E) as [Hrun' Hok'].
      do 4 eexists. split; [done|]. split_and!; [etrans; [exact Hrun|exact Hrun']|done|by right].
    + rewrite Hf in E. injection E as <- <-. do 4 eexists. split; [done|]. split_and!; [done|done|by left].
  - destruct Hi as [->|(_ & ? & _)]; [|done]. destruct (writeWalkResult _ _ _ _ _ _ _ _ _) as [s2 tr] eqn:E.
    eapply writeWalkResult_sim in E as [Hrun' Hok']; [|done|exact Hwok'|exact Hslot|done|done].
    do 4 eexists. split; [done|]. split_and!; [etrans; [exact Hrun|exact Hrun']|done|by right].
  - destruct (exhaustionError _ _ _ _) as [[code ebody] retry']. do 4 eexists. split; [done|]. simpl.
    split_and!; [exact Hrun|done|]. destruct Hi as [->|(-> & _)]; [right; by apply Hnone|by left].
Qed.

End simulation.

(** ** Who is attempted *)

Section attempted.
Context {MR : MapRange} {TR : Translator}.
Implicit Types w : walk (W := gatewayWorld).

(** [w] runs to [w'] attempting only providers of [Q] that admit the
    request's namespace. *)
Record served_rel (Q : ModelProvider → Prop) w w' : Prop := mk_served_rel {
  sr_store : gw_store (w_world w') = gw_store (w_world w);
  sr_namespace : ws_namespace (w_st w') = ws_namespace (w_st w);
  sr_attempts : ∃ l, w_trace w' = w_trace w ++ l ∧ ∀ n, n ∈ attempts l →
    ∃ p, Name p = n ∧ Q p ∧ namespaceGlobAllowed (ws_namespace (w_st w)) (AllowedNamespaces (Spec p)) = true;
}.

#[global] Instance served_preorder Q : PreOrder (served_rel Q).
Proof.
  split.
  - intros w. constructor; [done..|]. exists []. rewrite app_nil_r. split; [done|]. intros n Hn. by apply elem_of_nil in Hn.
  - intros w1 w2 w3 [S1 N1 (l1 & T1 & A1)] [S2 N2 (l2 & T2 & A2)]. constructor; [congruence..|].
    exists (l1 ++ l2). split; [by rewrite T2, T1, app_assoc|]. intros n. rewrite attempts_app, elem_of_app.
    rewrite N1 in A2. intros [?|?]; auto.
Qed.

Lemma frame_namespace st st' : walk_frame st = walk_frame st' → ws_namespace st' = ws_namespace st.
Proof. unfold walk_frame. by intros [= _ -> _ _ _ _]. Qed.

Lemma quiet_served Q w w' : quiet w w' → gw_store (w_world w') = gw_store (w_world w) → served_rel Q w w'.
Proof.
  intros [F _ _ _ (l & T & A)] Hs. constructor; [done|by apply frame_namespace|]. exists l. split; [done|].
  rewrite A. intros n Hn. by apply elem_of_nil in Hn.
Qed.

Lemma budget_step_store hasBudget w p w' r :
  budget_step hasBudget w p = (w', r) → gw_store (w_world w') = gw_store (w_world w).
Proof.
  unfold budget_step. cbn [admit_candidate gateway_world]. unfold gateway_admit. intros H.
  repeat (case_match; simplify_eq/=); done.
Qed.

Lemma run_attempt_served (Q : ModelProvider → Prop) w p w' r :
  run_attempt w p = (w', r) → Q p → namespaceGlobAllowed (ws_namespace (w_st w)) (AllowedNamespaces (Spec p)) = true →
  served_rel Q w w'.
Proof.
  intros H HQ Ha. pose proof (run_attempt_trace _ _ _ _ H) as (F & _ & _ & _ & T). constructor.
  - unfold run_attempt in H. cbn [forward gateway_world] in H. unfold gateway_forward in H.
    repeat (case_match; simplify_eq/=); done.
  - by apply frame_namespace.
  - exists [Attempted (Name p)]. split; [done|]. intros n ->%list_elem_of_singleton. eauto.
Qed.

Lemma entered_served Q w p w1 : entered w p w1 → served_rel Q w w1.
Proof.
  intros []. constructor; [by rewrite ent_world|by apply frame_namespace|].
  exists []. rewrite app_nil_r. split; [done|]. intros n Hn. by apply elem_of_nil in Hn.
Qed.

Definition stored_in (Q : ModelProvider → Prop) w : Prop :=
  ∀ n q, ProviderByName (gw_store (w_world w)) n = Some q → Q q.

Lemma walk_refs_served (Q : ModelProvider → Prop) try model refs w w' r :
  (∀ p w w' r, Q p → stored_in Q w → try p w = Some (w', r) → served_rel Q w w') →
  stored_in Q w → walk_refs try model refs w = Some (w', r) → served_rel Q w w'.
Proof.
  intros Htry. revert w; induction refs as [|ref refs IH]; intros w HQ; cbn [walk_refs]; [by intros [= <- _]|].
  destruct (providerByName _ _) as [next|] eqn:En.
  2: { intros Hr. apply IH in Hr; [|done]. etrans; [|exact Hr]. apply quiet_served; [by apply emit_quiet|done]. }
  set (w0 := with_st w _). assert (H0 : served_rel Q w w0) by (apply quiet_served; [by apply with_st_quiet|done]).
  destruct (try next w0) as [[w1 [res ok]]|] eqn:Et; [|done]. apply Htry in Et; [|by eapply HQ|done].
  assert (H1 : served_rel Q w w1) by (by etrans).
  destruct ok; [by intros [= <- _]|]. intros Hr. apply IH in Hr; [by etrans|].
  intros n q. rewrite (sr_store _ _ _ H1). apply HQ.
Qed.

Lemma try_served (Q : ModelProvider → Prop) hasBudget fuel p w w' r :
  Q p → stored_in Q w → tryWithFallbacks hasBudget fuel p w = Some (w', r) → served_rel Q w w'.
Proof.
  revert p w w' r; induction fuel as [|fuel IH]; intros p w w' [res ok] Hp HQ; [done|].
  assert (Hst : ∀ w1, served_rel Q w w1 → stored_in Q w1).
  { intros w1 H1 n q. rewrite (sr_store _ _ _ H1). apply HQ. }
  assert (Hadm : ∀ w1 w2 r2, entered w p w1 → budget_step hasBudget w1 p = (w2, r2) → served_rel Q w w2).
  { intros w1 w2 r2 Hin Hb. etrans; [by eapply entered_served|].
    eapply quiet_served; [by eapply budget_step_quiet|by eapply budget_step_store]. }
  assert (Hatt : ∀ w1 w2 r2 w3 r3, entered w p w1 → budget_step hasBudget w1 p = (w2, r2) →
    run_attempt w2 p = (w3, r3) → served_rel Q w w3).
  { intros w1 w2 r2 w3 r3 Hin Hb Ha. pose proof (Hadm _ _ _ Hin Hb) as H2. etrans; [exact H2|].
    eapply run_attempt_served; [done..|]. rewrite (sr_namespace _ _ _ H2). by eapply ent_allowed. }
  intros [w1 Hrel (l & Ht & Hl) Hobs Hw|w1 w2 c w1' res1 ok1 Hin Hb Hc|w1 w2 h w3 res1 Hin Hb Ha Hend
         |w1 w2 h w3 r0 w1' res1 ok1 Hin Hb Ha Hf Hl Hc]%try_cases.
  - destruct Hrel as [F _ _ _ _]. constructor; [by rewrite Hw|by apply frame_namespace|]. exists l. split; [done|].
    assert (Hnil : attempts l = []) by (clear -Hl; induction Hl as [|e l (o & n & ->) _ IH]; [done|exact IH]).
    rewrite Hnil. intros n Hn. by apply elem_of_nil in Hn.
  - apply or_children_Some in Hc as (r' & Hc & _). pose proof (Hadm _ _ _ Hin Hb) as H2.
    apply walk_refs_served with (Q := Q) in Hc; [by etrans|exact IH|by apply Hst].
  - by eapply Hatt.
  - cbv zeta in Hc. apply or_children_Some in Hc as (r' & Hc & _). pose proof (Hatt _ _ _ _ _ Hin Hb Ha) as H3.
    assert (H4 : served_rel Q w (emit (match h with
      | Some h => emit (with_world w3 (settle_handle_at (w_world w3) h f64_zero)) [Settled h] | None => w3 end)
      (recordCredentialFailure p (set_settle r0 None)))).
    { etrans; [exact H3|]. apply quiet_served; [|by destruct h]. etrans; [|apply credential_quiet].
      destruct h; [|reflexivity]. etrans; [apply with_world_quiet|by apply emit_quiet]. }
    apply walk_refs_served with (Q := Q) in Hc; [by etrans|exact IH|by apply Hst].
Qed.
End attempted.

(** ** Properties *)

Section handler_facts.
Context {MR : MapRange} {TR : Translator} (cfg : Config).

Lemma settle_once_attempts st h c : attempts (settle_once st h c).2 = attempts st.2.
Proof. unfold settle_once. repeat case_match; simpl; rewrite ?attempts_app, ?app_nil_r; done. Qed.

Lemma settleUsage_attempts s tr primary chosen ns wl am sm u h :
  attempts (settleUsage cfg s tr primary chosen ns wl am sm u h).2 = attempts tr.
Proof.
  unfold settleUsage. destruct h as [h|]; [|done].
  pose proof (settle_once_attempts) as H. set (x := (sv_world _, tr)). specialize (H x (Some h)).
  set (c := costOf _ _ _). specialize (H c). destruct (settle_once x _ c). simpl in *. by rewrite H.
Qed.

Lemma writeWalkResult_attempts s tr primary ns wl am res u :
  attempts (writeWalkResult cfg s tr primary ns wl am res u).2 = attempts tr.
Proof.
  unfold writeWalkResult, settleRelay.
  assert (H : ∀ s h, attempts (let '(g, tr) := settle_once (sv_world s, tr) h f64_zero in (set_world s g, tr)).2 = attempts tr).
  { intros s' h. pose proof (settle_once_attempts (sv_world s', tr) h f64_zero). by destruct (settle_once _ _ _). }
  destruct (match resp res with Some _ => _ | None => true end); [apply H|].
  destruct (negb (isZero (ru_usage u))); [apply settleUsage_attempts|apply H].
Qed.

Lemma authorizeRoute_store store c name modelID p :
  authorizeRoute store c name modelID = inl p → ProviderByName store name = Some p.
Proof. unfold authorizeRoute. intros H. repeat (case_match; simplify_eq/=); done. Qed.

(** What a request had to pass to be forwarded to [q]. *)
Lemma serve_attempts s r primary adapter body fields modelID h u s' tr rep q :
  serve cfg s r primary adapter body fields modelID h u = Some (s', tr, rep) → q ∈ attempts tr →
  (Allow (sv_limiter s) (gw_clock (sv_world s)) (liveReplicas cfg) primary (c_Namespace (lr_caller r)) modelID).2.1 = true ∧
  ∃ cand, Name cand = q ∧ (cand = primary ∨ ∃ n, ProviderByName (gw_store (sv_world s)) n = Some cand) ∧
    namespaceGlobAllowed (c_Namespace (lr_caller r)) (AllowedNamespaces (Spec cand)) = true.
Proof.
  unfold serve. destruct (Allow _ _ _ _ _ _) as [limiter [ok retry]]. cbn [fst snd].
  destruct ok; cbn [negb]; [|intros [= <- <- <-] Hq; by apply elem_of_nil in Hq]. intros H Hq. split; [done|].
  destruct (rewriteRequestBody _ _ _ _) as [outBody|]; [|done].
  set (s1 := match c_Workload _ with Some _ => _ | None => _ end) in H.
  assert (Hs1 : sv_world s1 = sv_world s) by (unfold s1; by repeat case_match). rewrite Hs1 in H.
  set (st := mk_walk_state _ _ _ _ _ _ _ _ _ _ _ _ _ _ _ _ _) in H. set (w := mk_walk st (sv_world s) _) in H.
  destruct (tryWithFallbacks _ _ _ w) as [[w' [res ok]]|] eqn:Etry; [|done].
  set (Q := λ cand, cand = primary ∨ ∃ n, ProviderByName (gw_store (sv_world s)) n = Some cand).
  apply try_served with (Q := Q) in Etry as [_ _ (l & T & A)]; [|by left|by intros n p Hp; right; exists n].
  assert (Hl : attempts tr = attempts l).
  { assert (Hw : attempts (w_trace w') = attempts l) by (by rewrite T, attempts_app).
    rewrite <- Hw. clear -H. destruct (gw_left _ && _); [|destruct ok; cbn [negb] in H].
    - destruct (settle_once _ _ _) as [g tr0] eqn:E. injection H as <- <- <-.
      pose proof (settle_once_attempts (w_world w', w_trace w') (fr_settle res) f64_zero) as Ha.
      simpl in E. by rewrite E in Ha.
    - destruct (writeWalkResult _ _ _ _ _ _ _ _ _) as [s2 tr0] eqn:E. injection H as <- <- <-.
      pose proof (writeWalkResult_attempts (set_world s1 (w_world w')) (w_trace w') primary (c_Namespace (lr_caller r))
        (workloadKey (lr_caller r)) modelID res u) as Ha. by rewrite E in Ha.
    - destruct (exhaustionError _ _ _ _) as [[code ebody] retry']. by injection H as <- <- <-. }
  rewrite Hl in Hq. destruct (A q Hq) as (cand & ? & ? & ?). by exists cand.
Qed.

(** The model the ladder serves: the requested one, or the one it degrades to. *)
Definition laddered_model (d : budgetDecision) (modelID : string) : string :=
  if (Action d =? BudgetActionDegrade)%string && negb (DegradeTo d =? "")%string then DegradeTo d else modelID.

Lemma applyBudgetDecision_spec d name ns modelID :
  match applyBudgetDecision d name ns modelID with
  | inl m => refused d = false ∧ m = laddered_model d modelID
  | inr e => refused d = true ∧ resp_status e ∈ [429; 503]%Z
  end.
Proof.
  unfold applyBudgetDecision, refused, laddered_model. repeat (case_match; simplify_eq/=); split; try done; set_solver.
Qed.

(** C1: the handler is a refinement of the replica.  From every state the
    handler returns, and what it did to the ledger is a run of the replica's
    step relation that ends with the same requests in flight: every slot it
    took, for the primary or a fallback, is settled when it returns, whatever
    the answers, the errors and the moment the caller leaves.  So the mutual
    exclusion and the release of slots proved over all interleavings hold of
    requests served by the handler. *)
Theorem handler_refines_replica name_of may s r u fl
    (Hstore : ∀ n p, ProviderByName (gw_store (sv_world s)) n = Some p → consistent name_of may p)
    (Hscript : script_ok (ru_elapsed u) (gw_clock (sv_world s)) (gw_script (sv_world s))) :
  ∃ s' tr rep, handleLLMProxy cfg s r u = Some (s', tr, rep) ∧
    rtc (step name_of may) (mk_world (gw_ledger (sv_world s)) (gw_clock (sv_world s)) fl)
                   (mk_world (gw_ledger (sv_world s')) (gw_clock (sv_world s')) fl).
Proof.
  assert (Hidle : ∀ e, ∃ s' tr rep, Some (s, @nil walk_effect, ReplyError e) = Some (s', tr, rep) ∧
    rtc (step name_of may) (mk_world (gw_ledger (sv_world s)) (gw_clock (sv_world s)) fl)
                   (mk_world (gw_ledger (sv_world s')) (gw_clock (sv_world s')) fl)) by (intros e; by do 3 eexists).
  unfold handleLLMProxy. destruct (adapterForPath _) as [adapter|]; [|apply Hidle].
  case_match; [apply Hidle|]. destruct (lr_body r) as [| |body]; [apply Hidle..|].
  destruct (bodyFields_returns body) as [[fields|e] Ebody]; rewrite Ebody; [|apply Hidle].
  destruct (requestedModel_returns adapter (lr_path r) body fields Ebody) as [m ->]. cbn [fmap option_fmap option_map].
  destruct (splitQualifiedModel _) as [[name modelID]|]; [|apply Hidle].
  destruct (authorizeRoute _ _ _ _) as [p|d0] eqn:Eauth; [|apply Hidle].
  destruct (adapterForProviderType _); [|apply Hidle].
  destruct (gateway_admit _ _ _ _) as [g [d h]] eqn:Eadm.
  pose proof (Hstore _ _ (authorizeRoute_store _ _ _ _ _ Eauth)) as Hp.
  destruct (admit_runs name_of may (ru_elapsed u) fl _ _ _ _ _ _ _ (conj Hstore Hscript) Hp Eadm) as (Hrun & Hok & Hprov & _).
  assert (Hmid : ∃ s1 tr rep i,
    match applyBudgetDecision d name (c_Namespace (lr_caller r)) modelID with
    | inl m0 => serve cfg (set_world s g) r p adapter body fields m0 h u
    | inr e => Some (set_world s g, [Admission (Name p) h], ReplyError e)
    end = Some (s1, tr, rep) ∧ rtc (step name_of may) (replica fl g h) (replica fl (sv_world s1) i) ∧
    slot_ok may h tr i ∧ (i = h ∨ i = None)).
  { destruct (applyBudgetDecision _ _ _ _) as [m0|e]; [by apply (serve_sim name_of may (ru_elapsed u) fl cfg (set_world s g))|].
    do 4 eexists. split; [done|]. split_and!; [done| |by left].
    constructor; [|by left|intros h' Hh'; by apply Hprov]. intros h' _ Hin%list_elem_of_singleton. done. }
  destruct Hmid as (s1 & tr & rep & i & -> & Hrun1 & Hslot & Hi).
  destruct (settle_once _ _ _) as [g2 tr2] eqn:E. pose proof (settle_once_primary name_of may fl _ _ _ _ _ _ _ Hslot Hi E) as Hrun2.
  do 3 eexists. split; [done|]. etrans; [exact Hrun|]. etrans; [exact Hrun1|exact Hrun2].
Qed.

(** C4: what is forwarded.  A request reaches a provider only when its
    body is valid JSON the scan accepts, the qualified model it names was
    authorized for the caller, the primary's budget did
    not refuse it, the rate limiter passed the model the budget ladder
    serves, and the provider it reaches is the primary or another provider of
    the store, whose allowlist admits the caller's namespace. *)
Theorem proxy_forwards_only_admitted s r u s' tr rep q
    (Hrun : handleLLMProxy cfg s r u = Some (s', tr, rep))
    (Hq : q ∈ attempts tr) :
  let c := lr_caller r in
  let store := gw_store (sv_world s) in
  ∃ adapter body fields name modelID primary d h g cand,
    adapterForPath (lr_path r) = Some adapter ∧ lr_body r = BodyRead body ∧ bodyFields body = Some (inl fields) ∧
    splitQualifiedModel <$> requestedModel adapter (lr_path r) fields body = Some (Some (name, modelID)) ∧
    authorizeRoute store c name modelID = inl primary ∧
    gateway_admit (sv_world s) primary (c_Namespace c) (workloadKey c) = (g, (d, h)) ∧ refused d = false ∧
    (Allow (sv_limiter s) (gw_clock g) (liveReplicas cfg) primary (c_Namespace c) (laddered_model d modelID)).2.1 = true ∧
    Name cand = q ∧ (cand = primary ∨ ∃ n, ProviderByName store n = Some cand) ∧
    namespaceGlobAllowed (c_Namespace c) (AllowedNamespaces (Spec cand)) = true.
Proof.
  assert (Hnone : ∀ e, Some (s, @nil walk_effect, ReplyError e) = Some (s', tr, rep) → False).
  { intros e [= <- <- <-]. by apply elem_of_nil in Hq. }
  revert Hrun. unfold handleLLMProxy. destruct (adapterForPath _) as [adapter|]; [|by intros ?%Hnone].
  case_match; [by intros ?%Hnone|].
  destruct (lr_body r) as [| |body]; try (by intros ?%Hnone).
  destruct (bodyFields body) as [[fields|e]|] eqn:Ebody; [|by intros ?%Hnone|done].
  destruct (splitQualifiedModel <$> _) as [[[name modelID]|]|] eqn:Esplit; [|by intros ?%Hnone|done].
  destruct (authorizeRoute _ _ _ _) as [p|d0] eqn:Eauth; [|by intros ?%Hnone].
  destruct (adapterForProviderType _); [|by intros ?%Hnone].
  destruct (gateway_admit _ _ _ _) as [g [d h]] eqn:Eadm.
  assert (Hg : gw_store g = gw_store (sv_world s)).
  { unfold gateway_admit in Eadm. destruct (Admit _ _ _ _ _). by injection Eadm as <- _. }
  pose proof (applyBudgetDecision_spec d name (c_Namespace (lr_caller r)) modelID) as Hd.
  intros Hrun. set (out := match applyBudgetDecision _ _ _ _ with inl _ => _ | inr _ => _ end) in Hrun.
  destruct out as [[[s1 tr1] rep1]|] eqn:Eout; [|done].
  destruct (settle_once _ _ _) as [g2 tr2] eqn:E. injection Hrun as <- <- <-.
  pose proof (settle_once_attempts (sv_world s1, tr1) h f64_zero) as Ha. rewrite E in Ha. simpl in Ha. rewrite Ha in Hq.
  subst out. destruct (applyBudgetDecision _ _ _ _) as [m|e].
  - destruct Hd as [Href ->]. destruct (serve_attempts _ _ _ _ _ _ _ _ _ _ _ _ _ Eout Hq) as (Hallow & cand & Hn & Hin & Hns).
    simpl in Hallow, Hin. rewrite Hg in Hin. exists adapter, body, fields, name, modelID, p, d, h, g, cand. done.
  - injection Eout as <- <- <-. by apply elem_of_nil in Hq.
Qed.
End handler_facts.

(** ** A concrete request: the primary answers 500, its fallback 200. *)
#[local] Instance proxy_translator : Translator :=
  {| object := unit; Unmarshal _ := None; TranslateRequest _ _ _ _ _ := inr "untranslatable"; MaxTokens _ := None |}.
#[local] Instance proxy_order : MapRange := list_order.

Definition proxy_now : Time := midnight (day_of_civil 2026 1 15).
Definition proxy_store : Store := mk_store (λ _ _, None) (λ _ _, None) (λ _, None) example_providers (λ _, None).
Definition proxy_server : server :=
  mk_server (mk_gateway NewBudgetLedger proxy_now proxy_store (map answers [500; 200]%Z) false)
    NewRateLimiter ∅ (NewActivityStore proxy_now).
Definition proxy_config : Config := mk_config 1000 3 1.
Definition proxy_request : llm_request :=
  mk_llm_request (mk_caller "team-a" None) "/v1/chat/completions" (BodyRead (quoted "{'model':'a/m','stream':true}")).
Definition proxy_usage : relay_usage := mk_relay_usage Minute (mk_usage 10 5 ∅).

Definition proxy_trace : list walk_effect :=
  match handleLLMProxy proxy_config proxy_server proxy_request proxy_usage with Some (_, tr, _) => tr | None => [] end.

Lemma handler_refines_replica_witness :
  ∃ s' tr rep, handleLLMProxy proxy_config proxy_server proxy_request proxy_usage = Some (s', tr, rep) ∧
    rtc (step (λ uid, uid) (λ _ scheme, scheme = "")) (mk_world NewBudgetLedger proxy_now [])
      (mk_world (gw_ledger (sv_world s')) (gw_clock (sv_world s')) []).
Proof.
  apply (handler_refines_replica proxy_config (λ uid, uid) (λ _ scheme, scheme = "") proxy_server proxy_request proxy_usage []).
  - intros n p. simpl. unfold example_providers. destruct (n =? "a")%string; [by intros [= <-]|].
    destruct (n =? "b")%string; [by intros [= <-]|done].
  - simpl. split_and!; try done; vm_compute; congruence.
Defined.

Lemma proxy_forwards_only_admitted_witness :
  attempts proxy_trace = ["a"; "b"] ∧
  ∃ cand, Name cand = "b" ∧ namespaceGlobAllowed "team-a" (AllowedNamespaces (Spec cand)) = true.
Proof.
  assert (Htr : attempts proxy_trace = ["a"; "b"]) by (vm_compute; reflexivity). split; [exact Htr|].
  unfold proxy_trace in Htr.
  destruct (handleLLMProxy proxy_config proxy_server proxy_request proxy_usage) as [[[s' tr] rep]|] eqn:E; [|discriminate].
  assert (Hq : "b" ∈ attempts tr) by (rewrite Htr; right; left).
  destruct (proxy_forwards_only_admitted proxy_config proxy_server proxy_request proxy_usage s' tr rep "b" E Hq)
    as (?&?&?&?&?&?&?&?&?&cand&_&_&_&_&_&_&_&_&Hn&_&Hns).
  exists cand. exact (conj Hn Hns).
Defined.
