(* ===== verification/ProblemList.v ===== *)
(** The text of status conditions and event notes:
    internal/controller/problem_list.go, Truncate of
    internal/eventrec/eventrec.go, and strconv.Quote ([%q]).

    Condition messages are bytes.  A quoted value is bounded, a list of
    entries names ten and counts the rest, and what is joined is cut at the
    limit of the condition schema. *)

From stdpp Require Import base gmap list strings option sorting.
From Stdlib Require Import ZArith Lia Ascii Wf_nat.
From S2P Require Import Prelude GoFloat Json JsonString.

Local Open Scope Z_scope.

(** ** Truncation *)

(** utf8.RuneStart. *)
Definition RuneStart (c : ascii) : bool := negb (cont c).

Definition byte_at (s : bytes) (i : nat) : ascii := nth i s "000"%char.

Definition MaxNoteBytes : nat := 1024.
Definition truncatedSuffix : bytes := bs "... (truncated)".

(** The loop that steps back to the start of a rune. *)
Fixpoint back_to_start (s : bytes) (cut : nat) : nat :=
  match cut with
  | O => O
  | S k => if RuneStart (byte_at s cut) then cut else back_to_start s k
  end.

Definition Truncate (s : bytes) (max : nat) : bytes :=
  if (length s <=? max)%nat then s
  else take (back_to_start s (max - length truncatedSuffix)) s ++ truncatedSuffix.

Definition maxQuotedEntryBytes : nat := 256.
Definition maxListedEntries : nat := 10.
Definition maxDetailBytes : nat := MaxNoteBytes.
Definition maxConditionMessageBytes : nat := Z.to_nat 32768.

Definition cutConditionMessage (s : bytes) : bytes := Truncate s maxConditionMessageBytes.
Definition cutDetail (s : bytes) : bytes := Truncate s maxDetailBytes.

(** ** Quoting *)

(** Which runes past ASCII print is a table of the Unicode version. *)
Class Unicode := { isPrint : Z → bool }.

Definition hex (r : Z) : ascii := hex_digit (r mod 16).

Section quoting.
Context {U : Unicode}.

Definition escaped_rune (r : Z) (text : bytes) : bytes :=
  if (r =? 34) || (r =? 92) then [backslash; byte r]
  else if (32 <=? r) && (r <? 127) || (128 <=? r) && isPrint r then text
  else if r =? 7 then [backslash; "a"%char]
  else if r =? 8 then [backslash; "b"%char]
  else if r =? 12 then [backslash; "f"%char]
  else if r =? 10 then [backslash; "n"%char]
  else if r =? 13 then [backslash; "r"%char]
  else if r =? 9 then [backslash; "t"%char]
  else if r =? 11 then [backslash; "v"%char]
  else if (r <? 32) || (r =? 127) then [backslash; "x"%char; hex (r / 16); hex r]
  else if r <? 65536 then [backslash; "u"%char; hex (r / 4096); hex (r / 256); hex (r / 16); hex r]
  else [backslash; "U"%char; hex (r / 268435456); hex (r / 16777216); hex (r / 1048576); hex (r / 65536);
        hex (r / 4096); hex (r / 256); hex (r / 16); hex r].

(** What is put out for the rune at the start of [b], and its width. *)
Definition quote_step (b : bytes) : bytes * nat :=
  match b with
  | [] => ([], 0%nat)
  | c :: _ =>
      let '(r, n) := DecodeRune b in
      (if (n =? 1)%nat && (r =? RuneError) then [backslash; "x"%char; hex (ascii_Z c / 16); hex (ascii_Z c)]
       else escaped_rune r (take n b), n)
  end.

Fixpoint quote_from (skip : nat) (b : bytes) : bytes :=
  match b, skip with
  | [], _ => []
  | _ :: b', S k => quote_from k b'
  | _ :: b', O => let '(out, n) := quote_step b in out ++ quote_from (n - 1) b'
  end.

(** strconv.Quote. *)
Definition QuoteText (b : bytes) : bytes := string_token (quote_from 0 b).

Definition print_nat (n : nat) : bytes := bs (print_N (N.of_nat n)).

(** The loop of quotedEntry, at most [utf8.UTFMax - 1] steps back. *)
Fixpoint step_back (k : nat) (s : bytes) (cut : nat) : nat :=
  match k with
  | O => cut
  | S k => if RuneStart (byte_at s cut) then cut else step_back k s (cut - 1)
  end.

Definition quotedEntry (s : bytes) : bytes :=
  if (length s <=? maxQuotedEntryBytes)%nat then QuoteText s
  else
    let cut := step_back 3 s maxQuotedEntryBytes in
    let cut := if RuneStart (byte_at s cut) then cut else maxQuotedEntryBytes in
    QuoteText (take cut s) ++ bs " (first " ++ print_nat cut ++ bs " of " ++ print_nat (length s) ++ bs " bytes)".
End quoting.

(** ** Bounded lists *)

Record entryList := mk_entries { seen : gset string; listed : list bytes; more : nat }.

Definition no_entries : entryList := mk_entries ∅ [] 0.

Definition add (l : entryList) (key : string) (message : bytes) : entryList :=
  if decide (key ∈ seen l) then l
  else if (length (listed l) <? maxListedEntries)%nat
  then mk_entries ({[key]} ∪ seen l) (listed l ++ [message]) (more l)
  else mk_entries ({[key]} ∪ seen l) (listed l) (S (more l)).

(** [many] is the source's format with a single %d. *)
Definition messages (l : entryList) (one : bytes) (many : nat → bytes) : list bytes :=
  match more l with
  | O => listed l
  | S O => listed l ++ [one]
  | _ => listed l ++ [many (more l)]
  end.

(** strings.Join. *)
Fixpoint Join (sep : bytes) (parts : list bytes) : bytes :=
  match parts with
  | [] => []
  | [p] => p
  | p :: parts => p ++ sep ++ Join sep parts
  end.

(** The byte order of Go strings. *)
Fixpoint bytes_leb (a b : bytes) : bool :=
  match a, b with
  | [], _ => true
  | _ :: _, [] => false
  | x :: a, y :: b => if Ascii.eqb x y then bytes_leb a b else ascii_Z x <? ascii_Z y
  end.

Definition bytes_le (a b : bytes) : Prop := bytes_leb a b = true.
#[global] Instance bytes_le_dec a b : Decision (bytes_le a b) := decide (bytes_leb a b = true).

Definition joinProblems (msgs : list bytes) : bytes := cutConditionMessage (Join (bs "; ") (merge_sort bytes_le msgs)).

(** ** Truncation keeps the limit and the encoding *)

(** utf8.Valid. *)
Fixpoint valid_from (skip : nat) (b : bytes) : bool :=
  match b, skip with
  | [], _ => true
  | _ :: b', S k => valid_from k b'
  | _ :: b', O => let '(r, n) := DecodeRune b in negb ((r =? RuneError) && (n =? 1)%nat) && valid_from (n - 1) b'
  end.

Definition Valid (b : bytes) : bool := valid_from 0 b.

Lemma valid_skip k b : valid_from k b = Valid (drop k b).
Proof. revert k; induction b as [|c b IH]; intros [|k]; try done. apply IH. Qed.

Lemma Valid_cons b : b ≠ [] →
  Valid b = true ↔ ∃ r n, rune_ok r ∧ (1 ≤ n ≤ length b)%nat ∧ EncodeRune r = take n b ∧
    (∀ tail, DecodeRune (take n b ++ tail) = (r, n)) ∧ negb ((r =? RuneError) && (n =? 1)%nat) = true ∧ Valid (drop n b) = true.
Proof.
  intros Hb. destruct b as [|c b]; [done|]. unfold Valid at 1. cbn [valid_from].
  destruct (DecodeRune (c :: b)) as [r n] eqn:E. pose proof (DecodeRune_width _ _ _ E) as Hw. rewrite andb_true_iff. split.
  - intros [Hne Hv]. destruct (DecodeRune_spec _ _ _ E Hb) as [[= -> ->]|(Hr & Hn & He & Ht)]; [done|].
    exists r, n. rewrite valid_skip in Hv. split_and!; try done. by destruct n; [lia|]; rewrite Nat.sub_succ, Nat.sub_0_r in Hv.
  - intros (r' & n' & Hr & Hn & He & Ht & Hne & Hv).
    specialize (Ht (drop n' (c :: b))). rewrite take_drop, E in Ht. simplify_eq. split; [done|].
    rewrite valid_skip. by destruct n'; [lia|]; rewrite Nat.sub_succ, Nat.sub_0_r.
Qed.

Lemma Valid_app b1 b2 : Valid b1 = true → Valid b2 = true → Valid (b1 ++ b2) = true.
Proof.
  induction b1 as [b1 IH] using (induction_ltof1 _ length). intros H1 H2.
  destruct (decide (b1 = [])) as [->|Hne]; [done|].
  destruct (proj1 (Valid_cons _ Hne) H1) as (r & n & Hr & Hn & He & Ht & Hnr & Hv).
  apply Valid_cons; [by destruct b1|]. exists r, n. rewrite length_app, take_app_le, drop_app_le by lia.
  split_and!; try done; try lia. apply IH; [|done..]. unfold ltof. rewrite length_drop. lia.
Qed.

Lemma Valid_ascii b : forallb (λ c, ascii_Z c <? 128) b = true → Valid b = true.
Proof.
  induction b as [|c b IH]; [done|]. intros [Hc Hb]%andb_true_iff. unfold Valid in *. cbn [valid_from DecodeRune].
  rewrite Hc. cbn [Nat.sub Nat.eqb]. rewrite IH by done. bytes_facts.
  rewrite (proj2 (Z.eqb_neq (ascii_Z c) RuneError)); [done|unfold RuneError; lia].
Qed.

(** Past its first byte a rune's encoding has continuation bytes only. *)
Lemma EncodeRune_conts r : rune_ok r → ∃ c l, EncodeRune r = c :: l ∧ Forall (λ c, cont c = true) l.
Proof.
  intros Hr. rewrite EncodeRune_ok by done.
  assert (Hc : ∀ x, cont (byte (128 + x mod 64)) = true).
  { intros x. pose proof (Z.mod_pos_bound x 64). unfold cont, in_range. rewrite ascii_Z_byte by lia.
    rewrite andb_true_iff, !Z.leb_le. lia. }
  repeat case_match; eexists _, _; split; try reflexivity; repeat constructor; done.
Qed.

Lemma Valid_take s cut : Valid s = true → (cut < length s)%nat → cut = 0%nat ∨ RuneStart (byte_at s cut) = true →
  Valid (take cut s) = true.
Proof.
  revert cut; induction s as [s IH] using (induction_ltof1 _ length). intros cut Hs Hcut Hstart.
  destruct (decide (cut = 0%nat)) as [->|H0]; [done|]. destruct Hstart as [->|Hstart]; [done|].
  assert (Hne : s ≠ []) by (by destruct s; [simpl in Hcut; lia|]).
  destruct (proj1 (Valid_cons _ Hne) Hs) as (r & n & Hr & Hn & He & Ht & Hnr & Hv).
  destruct (decide (cut < n)%nat) as [Hlt|Hge].
  - destruct (EncodeRune_conts r Hr) as (c & l & Hcl & Hl). rewrite He in Hcl.
    assert (Hat : take n s !! cut = Some (byte_at s cut)).
    { rewrite lookup_take_lt by done. unfold byte_at. rewrite nth_lookup. by destruct (lookup_lt_is_Some_2 _ _ Hcut) as [x ->]. }
    rewrite Hcl in Hat. destruct cut as [|cut]; [done|]. simpl in Hat.
    pose proof (Forall_lookup_1 _ _ _ _ Hl Hat) as Hc. cbv beta in Hc. unfold RuneStart in Hstart. by rewrite Hc in Hstart.
  - rewrite <- (take_drop n s), take_app_ge by (rewrite length_take; lia). rewrite length_take_le by lia.
    assert (Hn' : take n s ≠ []) by (intros E; apply (f_equal length) in E; rewrite length_take_le in E by lia; simpl in E; lia).
    apply Valid_cons; [by destruct (take n s)|]. exists r, n.
    assert (Hl : length (take n s) = n) by (rewrite length_take; lia).
    rewrite length_app, take_app_le, take_take, Nat.min_id, drop_app_ge, Hl, Nat.sub_diag, drop_0 by lia.
    split_and!; try done; try lia. apply IH; unfold ltof; rewrite ?length_drop; try done; try lia.
    destruct (decide (cut = n)) as [->|]; [left; lia|right]. unfold byte_at in *. rewrite nth_lookup in Hstart |- *.
    rewrite lookup_drop. by replace (n + (cut - n))%nat with cut by lia.
Qed.

Lemma back_to_start_spec s cut : let c := back_to_start s cut in (c ≤ cut)%nat ∧ (c = 0%nat ∨ RuneStart (byte_at s c) = true).
Proof.
  induction cut as [|k IH]; simpl; [auto|]. destruct (RuneStart _) eqn:E; [auto|]. simpl in IH. split; [lia|]. apply IH.
Qed.

Lemma Truncate_length s max : (length truncatedSuffix ≤ max)%nat → (length (Truncate s max) ≤ max)%nat.
Proof.
  intros Hm. unfold Truncate. destruct (Nat.leb_spec (length s) max) as [|Hlt]; [done|].
  pose proof (back_to_start_spec s (max - length truncatedSuffix)) as [Hc _]. rewrite length_app, length_take. lia.
Qed.

Lemma Truncate_Valid s max : Valid s = true → Valid (Truncate s max) = true.
Proof.
  intros Hs. unfold Truncate. destruct (Nat.leb_spec (length s) max) as [|Hlt]; [done|].
  pose proof (back_to_start_spec s (max - length truncatedSuffix)) as [Hc Hstart].
  apply Valid_app; [|by vm_compute]. apply Valid_take; [done| |done]. lia.
Qed.

Lemma Truncate_short s max : (length s ≤ max)%nat → Truncate s max = s.
Proof. intros H. unfold Truncate. by rewrite (proj2 (Nat.leb_le _ _) H). Qed.

(** ** A quoted value is bounded and keeps its quotes to itself *)

(** A byte that neither ends a quoted value nor escapes. *)
Definition unremarkable (c : ascii) : Prop := c ≠ quote ∧ c ≠ backslash.

(** What stands for one rune inside the quotes. *)
Definition quoted_unit (out : bytes) : Prop :=
  Forall unremarkable out ∨ ∃ c l, out = backslash :: c :: l ∧ Forall unremarkable l.

Lemma hex_unremarkable r : unremarkable (hex r).
Proof.
  unfold hex. assert (H : 0 ≤ r mod 16 < 16) by (apply Z.mod_pos_bound; lia).
  assert (Hall : forallb (λ n, negb (Ascii.eqb (hex_digit (Z.of_nat n)) quote) && negb (Ascii.eqb (hex_digit (Z.of_nat n)) backslash))
    (seq 0 16) = true) by by vm_compute.
  rewrite forallb_forall in Hall. specialize (Hall (Z.to_nat (r mod 16))).
  rewrite in_seq, Z2Nat.id, andb_true_iff, !negb_true_iff, !Ascii.eqb_neq in Hall by lia. apply Hall. lia.
Qed.

Lemma high_unremarkable l : forallb (λ c, 128 <=? ascii_Z c) l = true → Forall unremarkable l.
Proof.
  rewrite forallb_forall, List.Forall_forall. intros H c Hc%H%Z.leb_le. split; intros ->; by vm_compute in Hc.
Qed.

Lemma DecodeRune_ascii c b : (ascii_Z c <? 128) = true → DecodeRune (c :: b) = (ascii_Z c, 1%nat).
Proof. intros H. simpl. by rewrite H. Qed.

Lemma EncodeRune_wide r : rune_ok r → 128 ≤ r →
  (2 ≤ length (EncodeRune r))%nat ∧ (65536 ≤ r → length (EncodeRune r) = 4%nat).
Proof. intros Hr H. rewrite EncodeRune_ok by done. repeat case_match; bytes_facts; simpl; lia. Qed.

Section quoted.
Context {U : Unicode}.

Lemma escaped_ascii r c : 0 ≤ r < 128 → r = ascii_Z c →
  quoted_unit (escaped_rune r [c]) ∧ (length (escaped_rune r [c]) ≤ 4)%nat.
Proof.
  intros Hr Hc. unfold escaped_rune.
  assert (Hesc : ∀ c l, Forall unremarkable l → quoted_unit (backslash :: c :: l)) by (right; eauto).
  destruct ((r =? 34) || (r =? 92)) eqn:E1; [split; [apply Hesc; constructor|simpl; lia]|].
  destruct (_ || _ && _) eqn:E2.
  { split; [|simpl; lia]. left. constructor; [|constructor]. apply orb_false_iff in E1 as [E1 E1'].
    bytes_facts. subst. split; intros ->; [by apply E1|by apply E1']. }
  repeat match goal with |- context [if ?c then _ else _] => destruct c eqn:? end;
    split; try (simpl; lia); apply Hesc; repeat constructor; try apply hex_unremarkable.
  all: rewrite orb_false_iff in *; bytes_facts; lia.
Qed.

Lemma escaped_wide r text : rune_ok r → 128 ≤ r → EncodeRune r = text → Forall unremarkable text →
  quoted_unit (escaped_rune r text) ∧ (length (escaped_rune r text) ≤ 4 * length text)%nat.
Proof.
  intros Hr H He Ht. destruct (EncodeRune_wide r Hr H) as [H2 H4]. rewrite He in H2, H4. unfold escaped_rune.
  assert (Hesc : ∀ c l, Forall unremarkable l → quoted_unit (backslash :: c :: l)) by (right; eauto).
  repeat match goal with |- context [if ?c then _ else _] => destruct c eqn:? end;
    split; try (simpl; lia); try (by left); try (apply Hesc; repeat constructor; apply hex_unremarkable).
  all: bytes_facts; simpl; specialize (H4 ltac:(lia)); lia.
Qed.

Lemma quote_step_unit c b out n : quote_step (c :: b) = (out, n) →
  (1 ≤ n ≤ length (c :: b))%nat ∧ quoted_unit out ∧ (length out ≤ 4 * n)%nat.
Proof.
  unfold quote_step. destruct (DecodeRune (c :: b)) as [r n'] eqn:E. pose proof (DecodeRune_width _ _ _ E) as Hw.
  assert (Hesc : ∀ c l, Forall unremarkable l → quoted_unit (backslash :: c :: l)) by (right; eauto).
  destruct ((n' =? 1)%nat && (r =? RuneError)) eqn:Eerr.
  { apply andb_true_iff in Eerr as [->%Nat.eqb_eq _]. intros [= <- <-]. split_and!; [simpl; lia..| |simpl; lia].
    apply Hesc. repeat constructor; apply hex_unremarkable. }
  intros [= <- <-]. destruct (DecodeRune_spec _ _ _ E) as [[= -> ->]|(Hr & Hn & He & _)]; [done|done|].
  split; [simpl in *; lia|]. destruct (ascii_Z c <? 128) eqn:Ec.
  - rewrite (DecodeRune_ascii _ _ Ec) in E. injection E as <- <-.
    pose proof (ascii_Z_range c). bytes_facts. apply escaped_ascii; [lia|done].
  - pose proof (DecodeRune_high _ _ _ _ E Ec) as Hh. assert (Hl : length (take n' (c :: b)) = n') by (rewrite length_take; lia).
    rewrite <- Hl at 3. apply escaped_wide; [done| |done|by apply high_unremarkable].
    destruct (Z.le_gt_cases 128 r) as [|Hlt]; [done|]. rewrite EncodeRune_ok in He by done.
    rewrite (proj2 (Z.ltb_lt r 128)) in He by lia. destruct n' as [|n']; [lia|]. simpl in He. injection He as Hb _.
    apply (f_equal ascii_Z) in Hb. destruct Hr. rewrite ascii_Z_byte in Hb by lia. bytes_facts. lia.
Qed.

(** Every rune of the text is one unit, and four bytes stand for each byte at
    most. *)
Lemma quote_from_units k b : (k ≤ length b)%nat → ∃ us,
  quote_from k b = concat us ∧ Forall quoted_unit us ∧ (length (concat us) ≤ 4 * (length b - k))%nat.
Proof.
  revert k; induction b as [|c b IH]; intros k Hk.
  { exists []. destruct k; [|simpl in Hk; lia]. simpl. split_and!; [done|constructor|lia]. }
  destruct k as [|k]; cbn [quote_from].
  - destruct (quote_step (c :: b)) as [out n] eqn:E. apply quote_step_unit in E as (Hn & Hu & Hl).
    destruct (IH (n - 1)%nat) as (us & -> & Hus & Hlen); [simpl in Hn; lia|]. exists (out :: us). simpl in *.
    rewrite length_app. split_and!; [done|by constructor|lia].
  - simpl in Hk. destruct (IH k) as (us & -> & ? & ?); [lia|]. by exists us.
Qed.

Lemma QuoteText_length b : (length (QuoteText b) ≤ 4 * length b + 2)%nat.
Proof.
  unfold QuoteText, string_token. destruct (quote_from_units 0 b) as (us & -> & _ & Hl); [lia|].
  simpl. rewrite length_app. simpl. lia.
Qed.

Lemma step_back_le k s cut : (step_back k s cut ≤ cut)%nat.
Proof. revert cut; induction k as [|k IH]; intros cut; simpl; [lia|]. case_match; [lia|]. pose proof (IH (cut - 1)%nat). lia. Qed.
End quoted.

(** ** A list names ten entries and counts the rest *)

Definition entries_wf (l : entryList) : Prop :=
  (size (seen l) = length (listed l) + more l)%nat ∧ (length (listed l) ≤ maxListedEntries)%nat ∧
  (more l = 0%nat ∨ length (listed l) = maxListedEntries).

Lemma no_entries_wf : entries_wf no_entries.
Proof. split_and!; [done| |by left]. apply Nat.le_0_l. Qed.

Lemma add_wf l key m : entries_wf l → entries_wf (add l key m).
Proof.
  intros (Hs & Hl & Hm). unfold add. destruct (decide (key ∈ seen l)) as [|Hk]; [done|].
  assert (Hsz : size ({[key]} ∪ seen l) = S (size (seen l))) by (rewrite size_union by set_solver; by rewrite size_singleton).
  destruct (Nat.ltb_spec (length (listed l)) maxListedEntries) as [Hlt|Hge]; unfold entries_wf; cbn [seen listed more];
    rewrite ?length_app; cbn [length]; lia.
Qed.

Lemma seen_add l key m : seen (add l key m) = {[key]} ∪ seen l.
Proof. unfold add. repeat case_match; cbn [seen]; set_solver. Qed.

Lemma messages_nil l one many : entries_wf l → messages l one many = [] ↔ seen l = ∅.
Proof.
  intros (Hs & Hl & Hm). unfold messages. rewrite <- leibniz_equiv_iff, <- size_empty_iff, Hs. split.
  - destruct (more l) as [|[|]]; [intros ->; done|by intros []%app_nil..].
  - intros H. destruct (more l); [|lia]. apply nil_length_inv. lia.
Qed.

Lemma messages_bounded l one many : entries_wf l → (length (messages l one many) ≤ S maxListedEntries)%nat.
Proof. intros (Hs & Hl & Hm). unfold messages. repeat case_match; rewrite ?length_app; simpl; lia. Qed.

(** The list of distinct entries: the first ten in order, the rest counted. *)
Definition entries_of (kvs : list (string * bytes)) : entryList := foldl (λ l kv, add l kv.1 kv.2) no_entries kvs.

Lemma entries_of_distinct kvs : NoDup kvs.*1 →
  entries_of kvs = mk_entries (list_to_set kvs.*1) (take maxListedEntries kvs.*2) (length kvs - maxListedEntries).
Proof.
  unfold entries_of. induction kvs as [|[k m] kvs IH] using rev_ind; [done|]. rewrite !fmap_app. intros (Hd & Hk & _)%NoDup_app.
  rewrite foldl_app, IH by done. cbn [foldl fst snd]. unfold add. cbn [seen listed more].
  rewrite decide_False by (rewrite elem_of_list_to_set; intros H; apply (Hk k H); simpl; set_solver).
  rewrite length_take, length_fmap, length_app. cbn [length]. rewrite list_to_set_app_L, (union_comm_L {[k]}).
  destruct (Nat.ltb_spec (maxListedEntries `min` length kvs) maxListedEntries) as [Hlt|Hge]; f_equal; try lia; try set_solver.
  - rewrite take_app_ge by (rewrite length_fmap; lia). rewrite take_ge by (rewrite length_fmap; lia).
    rewrite length_fmap. f_equal. simpl. by destruct (maxListedEntries - length kvs)%nat as [|[|]] eqn:E; [lia|..].
  - by rewrite take_app_le by (rewrite length_fmap; lia).
Qed.
