(* ===== verification/ToolMessage.v ===== *)
(** The JSON-RPC message of a brokered call: internal/gateway/mcpbroker.go,
    decodeMCPMessage to decodeMCPHeaderValue.

    The broker governs what it decodes and forwards the bytes it received, so
    the two must not differ for any reader of those bytes.  [one_reading] is
    that property; a message that passes decodeMCPMessage has it.  [None] is
    a panic of the offset scanner; it does not occur. *)

From stdpp Require Import base list strings option gmap.
From Stdlib Require Import ZArith Lia Ascii.
From S2P Require Import Prelude Json JsonString JsonValue RequestBody FoldedName JsonDecode Base64 ProblemList.

Definition methodToolsCall : string := "tools/call".

Record mcpRequest := mk_mcp_request {
  JSONRPC : string;
  msg_ID : bytes;
  Method : string;
  Params : bytes;
}.

Definition mcpRequest_type : gty := TStruct [("jsonrpc", TString); ("id", TRaw); ("method", TString); ("params", TRaw)].

Definition mcpRequest_of (v : gval) : mcpRequest :=
  mk_mcp_request (gstr (gfield v 0)) (graw (gfield v 1)) (gstr (gfield v 2)) (graw (gfield v 3)).

Definition isJSONBatch (b : bytes) : bool :=
  match (span json_space b).2 with c :: _ => Ascii.eqb c "[" | [] => false end.

(** *** Repeated members *)

Record member_count := mk_member_count {
  methods : nat;
  params : nat;
  paramsStart : option nat;
  repeated : option bytes;
}.

(** The callback of repeatedMCPMember; forEachJSONMember has found a value at
    [valueStart], so the index is in range. *)
Definition count_mcp_member (b name : bytes) (valueStart valueEnd : nat) (st : member_count) : member_count * bool :=
  let st :=
    if jsonNameMatches name (bs "method") then
      mk_member_count (S (methods st)) (params st) (paramsStart st)
        (if (1 <? S (methods st))%nat then Some (bs "method") else repeated st)
    else if jsonNameMatches name (bs "params") then
      if (1 <? S (params st))%nat then mk_member_count (methods st) (S (params st)) (paramsStart st) (Some (bs "params"))
      else mk_member_count (methods st) (S (params st))
             (if bool_decide (b !! valueStart = Some "{"%char) then Some valueStart else paramsStart st) (repeated st)
    else st in
  (st, bool_decide (repeated st = None)).

(** The name of the repeated member, if there is one. *)
Definition repeatedMCPMember (b : bytes) : option (option bytes) :=
  let i := skipJSONSpace b 0 in
  match b !! i with
  | None => None
  | Some c =>
      if negb (Ascii.eqb c "{") then Some None
      else
        match forEachJSONMember b i (count_mcp_member b) (mk_member_count 0 0 None None) with
        | None => None
        | Some st =>
            match repeated st, paramsStart st with
            | Some name, _ => Some (Some name)
            | None, None => Some None
            | None, Some start =>
                match repeatsJSONMember b start (bs "name") with
                | None => None
                | Some true => Some (Some (bs "params.name"))
                | Some false => Some None
                end
            end
        end
  end.

Definition duplicate_field (name : bytes) : string := "request body has more than one " +:+ (Quote (str name) +:+ " field").

(** The message, and why it is refused. *)
Definition decodeMCPMessage (body : bytes) : option (mcpRequest * string) :=
  if isJSONBatch body then Some (mcpRequest_of (gzero mcpRequest_type), "JSON-RPC batch requests are not supported")
  else
    match UnmarshalType mcpRequest_type body with
    | None => Some (mcpRequest_of (gzero mcpRequest_type), "request body is not a JSON-RPC message")
    | Some (v, true) => Some (mcpRequest_of v, "request body is not a JSON-RPC message")
    | Some (v, false) =>
        match repeatedMCPMember body with
        | None => None
        | Some (Some name) => Some (mcpRequest_of v, duplicate_field name)
        | Some None => Some (mcpRequest_of v, "")
        end
    end.

Definition toolParams_type : gty := TStruct [("name", TString)].

Definition governedToolName (msg : mcpRequest) : string :=
  if negb (Method msg =? methodToolsCall)%string then ""
  else match UnmarshalType toolParams_type (Params msg) with
       | Some (v, _) => gstr (gfield v 0)
       | None => ""
       end.

Definition mcpAllowedMethod (method : string) : bool :=
  existsb (λ m, (m =? method)%string) ["server/discover"; "tools/list"; methodToolsCall; "initialize"; "ping"]
  || HasPrefix method "notifications/".

(** *** The mirrored headers of the modern revision *)

(** http.Header, by canonical name. *)
Definition Header : Type := gmap string (list string).
Definition Get (h : Header) (name : string) : string := default "" (head (default [] (h !! name))).
Definition Set_ (h : Header) (name value : string) : Header := <[name := [value]]> h.

Definition ModernRevision : string := "2026-07-28".
Definition IsModern (revision : string) : bool := String.leb ModernRevision revision.

Definition sentinel_pre : string := "=?base64?".
Definition sentinel_suf : string := "?=".

Definition decodeMCPHeaderValue (v : string) : string :=
  if HasPrefix v sentinel_pre && HasSuffix v sentinel_suf && (String.length sentinel_pre + String.length sentinel_suf <? String.length v)%nat then
    match DecodeString StdEncoding (sub (bs v) (String.length sentinel_pre) (String.length v - String.length sentinel_suf)) with
    | Some raw => str raw
    | None => v
    end
  else v.

Section texts.
Context {U : Unicode}.

(** %q. *)
Definition fmt_q (s : string) : string := str (QuoteText (bs s)).

Definition modernHeaderRejection (modern : bool) (h : Header) (msg : mcpRequest) (toolName : string) : string :=
  if negb modern then ""
  else
    let m := Get h "Mcp-Method" in
    if (m =? "")%string then "Mcp-Method header is required on this protocol revision"
    else if negb (m =? Method msg)%string then
      "Mcp-Method header " +:+ (fmt_q m +:+ (" does not match body method " +:+ fmt_q (Method msg)))
    else if (Method msg =? methodToolsCall)%string then
      let n := decodeMCPHeaderValue (Get h "Mcp-Name") in
      if (n =? "")%string then "Mcp-Name header is required on tools/call"
      else if negb (n =? toolName)%string then
        "Mcp-Name header " +:+ (fmt_q n +:+ (" does not match body tool " +:+ fmt_q toolName))
      else ""
    else "".
End texts.

(** What decodeMCPMessage accepts has one reading: every reader of the
    forwarded bytes finds the method and the tool the broker decoded. *)

From S2P Require Import RequestClaims.

(** ** Names match one field *)

Lemma folds_to_det r c d : folds_to r (lower_z (ascii_Z c)) = true → folds_to r (lower_z (ascii_Z d)) = true →
  lower_z (ascii_Z c) = lower_z (ascii_Z d).
Proof.
  assert (Hup : ∀ c, ¬ (65 ≤ lower_z (ascii_Z c) ≤ 90)%Z ∧ (lower_z (ascii_Z c) < 300)%Z).
  { intros x. pose proof (ascii_Z_range x). unfold lower_z. destruct (Z.leb_spec 65 (ascii_Z x)), (Z.leb_spec (ascii_Z x) 90); simpl; lia. }
  pose proof (Hup c). pose proof (Hup d). unfold folds_to. rewrite !orb_true_iff, !andb_true_iff, !Z.eqb_eq, !Z.leb_le. intros. lia.
Qed.

Definition lower (f : bytes) : list Z := map (λ c, lower_z (ascii_Z c)) f.

(** A name that matches two fields: they are one up to case. *)
Lemma matches_det name f g : jsonNameMatches name f = true → jsonNameMatches name g = true → lower f = lower g.
Proof.
  unfold jsonNameMatches. generalize (runes name). intros rs. revert f g.
  induction rs as [|r rs IH]; intros [|c f] [|d g]; try done. cbn [fold_match]. intros [H1 H2]%andb_true_iff [H3 H4]%andb_true_iff.
  unfold lower. cbn [map]. f_equal; [by eapply folds_to_det|by apply IH].
Qed.

Definition distinct_fields (fields : list (string * gty)) : Prop := NoDup (map (λ f, lower (bs f.1)) fields).

Lemma field_index_spec fields name i f : distinct_fields fields → fields !! i = Some f →
  field_index fields name = Some i ↔ jsonNameMatches name (bs f.1) = true.
Proof.
  intros Hd Hi. unfold field_index. split.
  - intros ([j x] & Hj & ->)%fmap_Some. simpl in *. apply list_find_Some in Hj as (Hx & Hm & _). by simplify_eq.
  - intros Hm. apply fmap_Some. exists (i, f). split; [|done]. apply list_find_Some. split_and!; [done|done|].
    intros j y Hy Hlt Hmy. assert (E := matches_det _ _ _ Hm Hmy).
    assert (i = j); [|lia]. apply (NoDup_lookup _ i j (lower (bs f.1)) Hd); rewrite list_lookup_fmap; [by rewrite Hi|by rewrite Hy; simpl; rewrite E].
Qed.

(** ** Decoding a struct *)

Section members.
Context (dec : gty → gval → cst → gval * bool) (fields : list (string * gty)).

Definition of_field (i : nat) (ms : list (bytes * cst)) : list cst :=
  omap (λ m, if bool_decide (field_index fields m.1 = Some i) then Some m.2 else None) ms.

Lemma length_decode_members vs ms : length (decode_members dec fields vs ms).1 = length vs.
Proof.
  revert vs. induction ms as [|[name c] ms IH]; intros vs; [done|]. cbn [decode_members].
  destruct (field_index fields name) as [i|]; [|apply IH].
  destruct (fields !! i) as [[fname t]|]; [|apply IH]. destruct (vs !! i) as [old|]; [|apply IH].
  destruct (dec t old c) as [v e1]. specialize (IH (<[i:=v]> vs)). destruct (decode_members dec fields (<[i:=v]> vs) ms). simpl in *.
  by rewrite IH, length_insert.
Qed.

(** A field ends with its members decoded one into the other; without an
    error none of them had one. *)
Lemma decode_members_field vs ms i name t old : fields !! i = Some (name, t) → vs !! i = Some old →
  (decode_members dec fields vs ms).1 !! i = Some (foldl (λ v c, (dec t v c).1) old (of_field i ms)) ∧
  ((decode_members dec fields vs ms).2 = false → ∀ c cs, of_field i ms = c :: cs → (dec t old c).2 = false).
Proof.
  intros Hf. revert vs old. induction ms as [|[nm c] ms IH]; intros vs old Hv; [done|].
  cbn [decode_members of_field omap list_omap fst]. destruct (field_index fields nm) as [j|] eqn:Ej.
  2:{ rewrite bool_decide_false by done. apply IH, Hv. }
  destruct (decide (j = i)) as [->|Hne].
  - rewrite bool_decide_true, Hf, Hv by done. destruct (dec t old c) as [v e1] eqn:Ed. cbn [foldl snd].
    destruct (IH (<[i:=v]> vs) v) as [IH1 _]; [apply list_lookup_insert_eq; by eapply lookup_lt_Some|].
    destruct (decode_members dec fields (<[i:=v]> vs) ms) as [vs' e2]. simpl in *. rewrite Ed. split; [done|].
    intros [-> _]%orb_false_iff c' cs [= <- _]. by rewrite Ed.
  - rewrite bool_decide_false by congruence. destruct (fields !! j) as [[fname t']|]; [|apply IH, Hv].
    destruct (vs !! j) as [old'|]; [|apply IH, Hv]. destruct (dec t' old' c) as [v e1].
    destruct (IH (<[j:=v]> vs) old) as [IH1 IH2]; [by rewrite list_lookup_insert_ne|].
    destruct (decode_members dec fields (<[j:=v]> vs) ms) as [vs' e2]. simpl in *. split; [done|]. intros [_ He]%orb_false_iff. by apply IH2.
Qed.
End members.

Lemma of_field_matching fields i f ms : distinct_fields fields → fields !! i = Some f →
  of_field fields i (map (λ m, (mb_key m, mb_value m)) ms) = map mb_value (matching (bs f.1) ms).
Proof.
  intros Hd Hi. unfold matching. induction ms as [|m ms IH]; [done|]. cbn [map of_field omap list_omap fst snd]. rewrite filter_cons.
  fold (of_field fields i (map (λ m, (mb_key m, mb_value m)) ms)). rewrite IH.
  pose proof (field_index_spec fields (mb_key m) i f Hd Hi) as Hs. destruct (decide (jsonNameMatches (mb_key m) (bs f.1) = true)) as [Hm|Hm].
  - by rewrite bool_decide_true by (by apply Hs).
  - by rewrite bool_decide_false by (by rewrite Hs).
Qed.

(** ** Repeated members *)

Notation copies field ms := (length (matching (bs field) ms)).

Lemma matching_cons field m ms : matching field (m :: ms) =
  if jsonNameMatches (mb_key m) field then m :: matching field ms else matching field ms.
Proof. unfold matching. rewrite filter_cons. destruct (jsonNameMatches _ _) eqn:E; [by rewrite decide_True|by rewrite decide_False]. Qed.

(** Where the object of a params member starts, after the loop. *)
Definition params_found (b : bytes) (ms : list member) (before after : option nat) : Prop :=
  match matching (bs "params") ms with
  | [] => after = before
  | m :: _ =>
      match object_members (mb_value m) with
      | None => after = before
      | Some _ => ∃ start r, after = Some start ∧ at_offset b start (text (mb_value m) ++ r)
      end
  end.

Lemma object_starts b i v r : at_offset b i (text v ++ r) → wf v →
  bool_decide (b !! i = Some "{"%char) = bool_decide (is_Some (object_members v)).
Proof.
  intros Ha Hw. apply bool_decide_ext. destruct (object_members v) as [ms|] eqn:Ho.
  - destruct (object_first v ms Hw Ho) as [t Ht]. rewrite Ht in Ha. cbn [app] in Ha. by rewrite (at_lookup _ _ _ _ Ha).
  - assert (Hx : ∃ x t, text v = x :: t ∧ x ≠ "{"%char).
    { destruct Hw as [t Hs _|k _|[] sp _|e es _ _|]; try done; [|by eexists _, _..].
      destruct (null_first t Hs) as (x & t' & -> & Hx & _). eexists _, _. split; [done|]. by apply Ascii.eqb_neq. }
    destruct Hx as (x & t & Ht & Hx). rewrite Ht in Ha. rewrite (at_lookup _ _ _ _ Ha).
    split; [intros [= ->]; done|by intros []].
Qed.

Lemma mcp_loop b p spans close ms fuel st :
  turns b p spans close → Forall2 (slices b) spans ms → Forall wf_member ms → length spans < fuel →
  repeated st = None → methods st ≤ 1 → params st ≤ 1 →
  ∃ st', forEachJSONMember_loop fuel b p (count_mcp_member b) st = Some st' ∧
    (repeated st' = None ↔ methods st + copies "method" ms ≤ 1 ∧ params st + copies "params" ms ≤ 1) ∧
    (repeated st' = None → params_found b ms (paramsStart st) (paramsStart st')).
Proof.
  intros Ht. revert ms fuel st. induction Ht as [p close E|p key value spans close E Ht IH]; intros ms fuel st Hs Hw Hf Hr Hm Hp;
    inversion Hs as [|? m ? ms' Hsm Hms]; subst; (destruct fuel as [|fuel]; [simpl in Hf; lia|]); cbn [forEachJSONMember_loop]; rewrite E.
  { exists st. split; [done|]. split; [|done]. simpl. split; [lia|done]. }
  apply Forall_cons in Hw as [Hwm Hws]. destruct Hsm as (Hk & _ & _ & r & Ha). cbn [fst snd] in Hk, Ha. rewrite Hk. fold (mb_key m).
  assert (Hx : jsonNameMatches (mb_key m) (bs "method") = true → jsonNameMatches (mb_key m) (bs "params") = false).
  { intros H1. destruct (jsonNameMatches (mb_key m) (bs "params")) eqn:H2; [|done]. by pose proof (matches_det _ _ _ H1 H2). }
  simpl in Hf. assert (Hstep : ∀ st1, repeated st1 = None → methods st1 ≤ 1 → params st1 ≤ 1 → ∃ st',
    forEachJSONMember_loop fuel b value.2 (count_mcp_member b) st1 = Some st' ∧
    (repeated st' = None ↔ methods st1 + copies "method" ms' ≤ 1 ∧ params st1 + copies "params" ms' ≤ 1) ∧
    (repeated st' = None → params_found b ms' (paramsStart st1) (paramsStart st'))).
  { intros st1 H1 H2 H3. apply IH; (done || lia). }
  unfold params_found. rewrite !matching_cons. unfold count_mcp_member at 1.
  destruct (jsonNameMatches (mb_key m) (bs "method")) eqn:Em.
  - rewrite (Hx eq_refl). destruct (Nat.ltb_spec 1 (S (methods st))); cbn [repeated methods params paramsStart].
    + rewrite bool_decide_false by done. eexists. split; [done|]. simpl. split; [|done]. split; [done|lia].
    + rewrite bool_decide_true by done. destruct (Hstep (mk_member_count (S (methods st)) (params st) (paramsStart st) (repeated st)) Hr ltac:(cbn [methods]; lia) Hp) as (st' & -> & Hc & Hp').
      exists st'. split; [done|]. split; [|done]. rewrite Hc. cbn [methods params length]. lia.
  - destruct (jsonNameMatches (mb_key m) (bs "params")) eqn:Ep.
    + destruct (Nat.ltb_spec 1 (S (params st))); cbn [repeated methods params paramsStart].
      * rewrite bool_decide_false by done. eexists. split; [done|]. simpl. split; [|done]. split; [done|lia].
      * rewrite bool_decide_true by done. destruct (wf_member_inv m Hwm) as (_ & _ & _ & _ & Hv & _). rewrite (object_starts _ _ _ _ Ha Hv).
        set (found := if bool_decide (is_Some (object_members (mb_value m))) then Some value.1 else paramsStart st) in *.
        destruct (Hstep (mk_member_count (methods st) (S (params st)) found (repeated st)) Hr Hm ltac:(cbn [params]; lia)) as (st' & -> & Hc & Hp'). exists st'. split; [done|].
        split; [rewrite Hc; cbn [methods params length]; lia|]. intros Hn. specialize (Hp' Hn). apply Hc in Hn as [_ Hn]. cbn [params] in Hn.
        unfold params_found in Hp'. destruct (matching (bs "params") ms') as [|x xs]; [|simpl in Hn; lia]. cbn [paramsStart] in Hp'. subst found.
        destruct (object_members (mb_value m)); [|done]. exists value.1, r. by rewrite Hp', bool_decide_true by done.
    + cbn [repeated]. rewrite bool_decide_true by done. destruct (Hstep st Hr Hm Hp) as (st' & -> & Hc & Hp'). by exists st'.
Qed.

(** What the check means: one method, one params, one name in its object. *)
Definition one_copy (c : cst) : Prop :=
  ∀ ms, object_members c = Some ms → copies "method" ms ≤ 1 ∧ copies "params" ms ≤ 1 ∧
    ∀ m pms, m ∈ matching (bs "params") ms → object_members (mb_value m) = Some pms → copies "name" pms ≤ 1.

Lemma object_not_first b i c r : at_offset b i (text c ++ r) → wf c → ∃ x, b !! i = Some x ∧ Ascii.eqb x "{" = bool_decide (is_Some (object_members c)).
Proof.
  intros Ha Hw. destruct (text_first c Hw) as (x & t & Ht & _). assert (Ha' := Ha). rewrite Ht in Ha'. apply at_lookup in Ha'.
  exists x. split; [done|]. rewrite <- (object_starts _ _ _ _ Ha Hw), Ha'. destruct (Ascii.eqb_spec x "{") as [->|Hne]; symmetry; [by apply bool_decide_true|].
  apply bool_decide_false. by intros [= ->].
Qed.

Lemma repeated_spec b s1 c s2 : parse b = Some (s1, c, s2) → ∃ r, repeatedMCPMember b = Some r ∧ (r = None ↔ one_copy c).
Proof.
  intros (Hb & H1 & Hw & H2)%parse_spec. pose proof (at_zero b) as H0. rewrite Hb in H0 at 2.
  pose proof (at_app _ _ _ _ H0) as Ha. simpl in Ha. unfold repeatedMCPMember.
  rewrite (skipJSONSpace_at _ _ _ _ H0) by (done || by apply stops_value). rewrite Nat.add_0_l.
  destruct (object_not_first b _ c s2 Ha Hw) as (x & Hx & Hobj). rewrite Hx, Hobj. clear x Hx Hobj.
  destruct (object_members c) as [ms|] eqn:Ho.
  2:{ rewrite bool_decide_false by (by intros []). eexists. split; [done|]. split; [|done]. intros _ ms Hms. congruence. }
  rewrite bool_decide_true by done. cbn [negb]. destruct (object_turns b _ c s2 ms Ha Hw Ho) as [Ht Hs].
  pose proof (object_members_wf c ms Hw Ho) as Hwms.
  destruct (mcp_loop b _ _ _ ms (length b) (mk_member_count 0 0 None None) Ht Hs Hwms) as (st & E & Hr & Hp); [|done|simpl; lia|simpl; lia|].
  { rewrite length_spans. apply at_length in Ha. rewrite length_app in Ha. pose proof (object_members_length c ms Hw Ho). lia. }
  unfold forEachJSONMember. rewrite E. cbn [methods params] in Hr. unfold one_copy. rewrite Ho.
  destruct (repeated st) as [nm|] eqn:Er.
  { eexists. split; [done|]. split; [done|]. intros Hall. destruct (Hall ms eq_refl) as (Hm & Hq & _). apply Hr. by split. }
  specialize (Hp eq_refl). destruct (proj1 Hr eq_refl) as [Hm Hq]. unfold params_found in Hp. cbn [paramsStart] in Hp.
  assert (Hnone : (∀ m pms, m ∈ matching (bs "params") ms → object_members (mb_value m) = Some pms → copies "name" pms ≤ 1) →
    ∀ ms', Some ms = Some ms' → copies "method" ms' ≤ 1 ∧ copies "params" ms' ≤ 1 ∧
      ∀ m pms, m ∈ matching (bs "params") ms' → object_members (mb_value m) = Some pms → copies "name" pms ≤ 1).
  { intros Hn ms' [= <-]. by split_and!. }
  destruct (matching (bs "params") ms) as [|m rest] eqn:Emat.
  { rewrite Hp. eexists. split; [done|]. split; [|done]. intros _. apply Hnone. intros m pms Hin. by apply not_elem_of_nil in Hin. }
  destruct rest; [|simpl in Hq; lia]. assert (Hin : m ∈ ms) by (eapply list_elem_of_filter; rewrite Emat || idtac; unfold matching in Emat; rewrite Emat; by left).
  rewrite Forall_forall in Hwms. destruct (wf_member_inv m (Hwms m Hin)) as (_ & _ & _ & _ & Hv & _).
  destruct (object_members (mb_value m)) as [pms|] eqn:Hpo.
  - destruct Hp as (start & r & -> & Hat). cbv beta match. rewrite (repeats_exact b start _ r pms (bs "name") Hat Hv Hpo).
    destruct (Nat.ltb_spec 1 (copies "name" pms)) as [Hlt|Hle].
    + eexists. split; [done|]. split; [done|]. intros Hall. destruct (Hall ms eq_refl) as (_ & _ & Hn).
      rewrite Emat in Hn. specialize (Hn m pms ltac:(by left) Hpo). lia.
    + eexists. split; [done|]. split; [|done]. intros _. apply Hnone. intros m' pms' [->|Hm']%elem_of_cons Hpo'; [by simplify_eq|by apply not_elem_of_nil in Hm'].
  - rewrite Hp. eexists. split; [done|]. split; [|done]. intros _. apply Hnone. intros m' pms' [->|Hm']%elem_of_cons Hpo'; [congruence|by apply not_elem_of_nil in Hm'].
Qed.

(** ** One reading *)

(** A string as encoding/json puts it into a fresh field. *)
Definition string_of (v : cst) : string := match v with CString b => str (jsonStringValue (string_token b)) | _ => "" end.

Lemma decode_string fuel v : gstr (decode (S fuel) TString (GStr "") v).1 = string_of v.
Proof. cbn [decode]. destruct v as [t|b|a sp|e es|m ms]; cbn [is_null]; try done. by destruct (bool_decide (t = bs "null")). Qed.

Lemma decode_struct fuel fields vs c ms : object_members c = Some ms → decode (S fuel) (TStruct fields) (GStruct vs) c =
  let '(vs, e) := decode_members (decode fuel) fields vs (map (λ m, (mb_key m, mb_value m)) ms) in (GStruct vs, e).
Proof. intros Ho. cbn [decode]. rewrite Ho. by destruct c. Qed.

(** A string field with at most one member holds that member's string. *)
Lemma string_field fields fuel vs ms i name : distinct_fields fields → fields !! i = Some (name, TString) → vs !! i = Some (GStr "") →
  copies name ms ≤ 1 →
  ∃ v, (decode_members (decode (S fuel)) fields vs (map (λ m, (mb_key m, mb_value m)) ms)).1 !! i = Some v ∧
       (∀ m, m ∈ matching (bs name) ms → string_of (mb_value m) = gstr v) ∧ (gstr v ≠ "" → ∃ m, m ∈ matching (bs name) ms).
Proof.
  intros Hd Hf Hv Hc. destruct (decode_members_field (decode (S fuel)) fields vs (map (λ m, (mb_key m, mb_value m)) ms) i name TString (GStr "") Hf Hv) as [-> _].
  eexists. split; [done|]. rewrite (of_field_matching _ _ _ _ Hd Hf). cbn [fst].
  destruct (matching (bs name) ms) as [|x [|y l]]; [split; [by intros m Hm%not_elem_of_nil|done]| |simpl in Hc; lia].
  split; [|intros _; exists x; by apply list_elem_of_singleton]. intros m Hm.
  apply list_elem_of_singleton in Hm as ->. cbn [map foldl]. by rewrite decode_string.
Qed.

(** A reading is there: a message that says something of its method and tool
    says it in a member. *)
Definition some_reading (c : cst) (method tool : string) : Prop :=
  (method ≠ "" → ∃ ms m, object_members c = Some ms ∧ m ∈ matching (bs "method") ms) ∧
  (tool ≠ "" → ∃ ms m pms p, object_members c = Some ms ∧ m ∈ matching (bs "params") ms ∧ object_members (mb_value m) = Some pms ∧
                 p ∈ matching (bs "name") pms).

(** Every reader of the tree finds [method] as its method and, when that is
    tools/call, [tool] as the name in its params. *)
Definition one_reading (c : cst) (method tool : string) : Prop :=
  ∀ ms, object_members c = Some ms →
    (∀ m, m ∈ matching (bs "method") ms → string_of (mb_value m) = method) ∧
    (method = methodToolsCall → ∀ m pms p, m ∈ matching (bs "params") ms → object_members (mb_value m) = Some pms →
       p ∈ matching (bs "name") pms → string_of (mb_value p) = tool).

Lemma mcp_fields_distinct : distinct_fields [("jsonrpc", TString); ("id", TRaw); ("method", TString); ("params", TRaw)].
Proof. apply (bool_decide_unpack _). by vm_compute. Qed.

Lemma tool_fields_distinct : distinct_fields [("name", TString)].
Proof. apply (bool_decide_unpack _). by vm_compute. Qed.

Lemma parse_subtree b s1 c s2 v : parse b = Some (s1, c, s2) → wf v → (nesting v ≤ nesting c)%Z → parse (text v) = Some ([], v, []).
Proof.
  intros Hp Hw Hn. pose proof (parse_depth _ _ _ _ Hp). pose proof (parse_complete [] v [] eq_refl Hw eq_refl ltac:(lia)) as H'.
  by rewrite app_nil_r in H'.
Qed.

Lemma governed_name msg v pms : Method msg = methodToolsCall → Params msg = text v → parse (text v) = Some ([], v, []) →
  object_members v = Some pms → copies "name" pms ≤ 1 →
  (∀ p, p ∈ matching (bs "name") pms → string_of (mb_value p) = governedToolName msg) ∧
  (governedToolName msg ≠ "" → ∃ p, p ∈ matching (bs "name") pms).
Proof.
  intros Hm Hp Hv Ho Hc. unfold governedToolName. rewrite Hm, String.eqb_refl, Hp. cbn [negb]. unfold UnmarshalType. rewrite Hv.
  change (gdepth toolParams_type) with 2. unfold toolParams_type.
  change (gzero (TStruct [("name", TString)])) with (GStruct [GStr ""]). rewrite (decode_struct _ _ _ _ _ Ho).
  destruct (string_field [("name", TString)] 0 [GStr ""] pms 0 "name" tool_fields_distinct eq_refl eq_refl Hc) as (w & Hl & Hr).
  destruct (decode_members _ _ _ _) as [vs e]. cbn [fst] in Hl. cbn [gfield]. rewrite Hl. exact Hr.
Qed.

(** Params that are no object name no tool. *)
Lemma governed_other msg v : Params msg = text v → parse (text v) = Some ([], v, []) → object_members v = None → governedToolName msg = "".
Proof.
  intros Hp Hv Ho. unfold governedToolName. destruct (negb _); [done|]. rewrite Hp. unfold UnmarshalType. rewrite Hv.
  change (gdepth toolParams_type) with 2. unfold toolParams_type. cbn [decode]. rewrite Ho. by destruct (is_null v).
Qed.

(** What the decoder took is what anyone reads. *)
Lemma decoded_fields c ms v : object_members c = Some ms → decode (gdepth mcpRequest_type) mcpRequest_type (gzero mcpRequest_type) c = (v, false) →
  copies "method" ms ≤ 1 → copies "params" ms ≤ 1 →
  ((∀ m, m ∈ matching (bs "method") ms → string_of (mb_value m) = Method (mcpRequest_of v)) ∧
   (Method (mcpRequest_of v) ≠ "" → ∃ m, m ∈ matching (bs "method") ms)) ∧
  Params (mcpRequest_of v) = match matching (bs "params") ms with m :: _ => text (mb_value m) | [] => [] end.
Proof.
  intros Ho Hd Hcm Hcp. change (gdepth mcpRequest_type) with 2 in Hd. unfold mcpRequest_type in Hd.
  set (fields := [("jsonrpc", TString); ("id", TRaw); ("method", TString); ("params", TRaw)]) in *.
  set (zeros := [GStr ""; GNil; GStr ""; GNil]) in *. change (gzero (TStruct fields)) with (GStruct zeros) in Hd.
  rewrite (decode_struct _ _ _ _ _ Ho) in Hd.
  destruct (string_field fields 0 zeros ms 2 "method" mcp_fields_distinct eq_refl eq_refl Hcm) as (w & Hl & Hr).
  destruct (decode_members_field (decode 1) fields zeros (map (λ m, (mb_key m, mb_value m)) ms) 3 "params" TRaw GNil eq_refl eq_refl) as [Hl' _].
  rewrite (of_field_matching fields 3 _ ms mcp_fields_distinct eq_refl) in Hl'. cbn [fst] in Hl'.
  destruct (decode_members (decode 1) fields zeros _) as [vs e]. injection Hd as <- _. cbn [fst] in Hl, Hl'.
  unfold mcpRequest_of. cbn [Method Params gfield]. rewrite Hl, Hl'. split; [exact Hr|].
  by destruct (matching (bs "params") ms) as [|x [|y l]]; [| |simpl in Hcp; lia].
Qed.

Lemma decoded_reading b s1 c s2 v : parse b = Some (s1, c, s2) → decode (gdepth mcpRequest_type) mcpRequest_type (gzero mcpRequest_type) c = (v, false) →
  one_copy c → one_reading c (Method (mcpRequest_of v)) (governedToolName (mcpRequest_of v)) ∧
               some_reading c (Method (mcpRequest_of v)) (governedToolName (mcpRequest_of v)).
Proof.
  intros Hp Hd Hone. pose proof (parse_spec _ _ _ _ Hp) as (_ & _ & Hw & _). destruct (object_members c) as [ms|] eqn:Ho.
  2:{ split; [intros ms Hms; congruence|]. assert (v = gzero mcpRequest_type) as ->; [|by split; intros []].
      change (gdepth mcpRequest_type) with 2 in Hd. unfold mcpRequest_type in Hd |- *. cbn [decode] in Hd. rewrite Ho in Hd.
      destruct (is_null c); by injection Hd as <-. }
  destruct (Hone ms Ho) as (Hcm & Hcp & Hcn). destruct (decoded_fields c ms v Ho Hd Hcm Hcp) as [[HM HM'] HP].
  assert (Hv : ∀ m, m ∈ matching (bs "params") ms → Params (mcpRequest_of v) = text (mb_value m) ∧ parse (text (mb_value m)) = Some ([], mb_value m, [])).
  { intros m Hm. split.
    - rewrite HP. destruct (matching (bs "params") ms) as [|x [|y l]]; [by apply not_elem_of_nil in Hm| |simpl in Hcp; lia].
      by apply list_elem_of_singleton in Hm as ->.
    - apply list_elem_of_filter in Hm as [_ Hm]. pose proof (object_members_wf c ms Hw Ho) as F. rewrite Forall_forall in F.
      destruct (wf_member_inv m (F m Hm)) as (_ & _ & _ & _ & Hmv & _). destruct (object_nesting c ms Ho) as [Fn _].
      rewrite Forall_forall in Fn. specialize (Fn m Hm). unfold nested_in in Fn. eapply parse_subtree; [exact Hp|done|lia]. }
  split.
  - intros ms' Hms'. simplify_eq. split; [done|]. intros Ht m pms p Hm Hpo Hpin. destruct (Hv m Hm) as [HPm Hpm].
    exact (proj1 (governed_name _ (mb_value m) pms Ht HPm Hpm Hpo (Hcn m pms Hm Hpo)) p Hpin).
  - split; [intros Hne; destruct (HM' Hne) as [m Hm]; by exists ms, m|]. intros Hne.
    assert (Ht : Method (mcpRequest_of v) = methodToolsCall).
    { unfold governedToolName in Hne. destruct (String.eqb_spec (Method (mcpRequest_of v)) methodToolsCall); [done|]. by cbn [negb] in Hne. }
    destruct (matching (bs "params") ms) as [|m l] eqn:Em.
    { exfalso. apply Hne. unfold governedToolName. rewrite Ht, String.eqb_refl, HP. done. }
    destruct (Hv m ltac:(by left)) as [HPm Hpm]. destruct (object_members (mb_value m)) as [pms|] eqn:Hpo.
    2:{ exfalso. by apply Hne, (governed_other _ (mb_value m)). }
    destruct (proj2 (governed_name _ (mb_value m) pms Ht HPm Hpm Hpo (Hcn m pms ltac:(by left) Hpo)) Hne) as [p Hpin].
    exists ms, m, pms, p. rewrite Em. split_and!; try done. by left.
Qed.

Lemma decodeMCPMessage_total body : is_Some (decodeMCPMessage body).
Proof.
  unfold decodeMCPMessage. destruct (isJSONBatch body); [by eexists|]. unfold UnmarshalType.
  destruct (parse body) as [[[s1 c] s2]|] eqn:Hp; [|by eexists]. destruct (decode _ _ _ c) as [v []]; [by eexists|].
  destruct (repeated_spec _ _ _ _ Hp) as ([nm|] & -> & _); by eexists.
Qed.

(** An accepted message has one reading. *)
Lemma decodeMCPMessage_reading body msg : decodeMCPMessage body = Some (msg, "") →
  ∃ s1 c s2, parse body = Some (s1, c, s2) ∧ one_copy c ∧ one_reading c (Method msg) (governedToolName msg) ∧
    some_reading c (Method msg) (governedToolName msg).
Proof.
  unfold decodeMCPMessage. destruct (isJSONBatch body); [by intros [= _ ?]|]. unfold UnmarshalType.
  destruct (parse body) as [[[s1 c] s2]|] eqn:Hp; [|done]. destruct (decode _ _ _ c) as [v []] eqn:Hd; [done|].
  destruct (repeated_spec _ _ _ _ Hp) as ([nm|] & -> & Hone); [done|]. intros [= <-].
  exists s1, c, s2. split; [done|]. split; [by apply Hone|]. apply (decoded_reading body s1 c s2); [done|done|by apply Hone].
Qed.
