(* ===== verification/ToolRoute.v ===== *)
(** Who may call which tool: internal/gateway/mcpbroker.go, toolFilter to
    authorizeToolRoute, and boundedToolLabel.

    The chain is the routing chain of the tool plane: the provider's
    namespaces, the workload's grant, the workload's class; the filter is the
    grant's narrowing within the provider's catalog.  [tool_granted] is the
    contract, [authorizeToolRoute_exact] shows the chain and the filter
    together decide it. *)

From stdpp Require Import base gmap list strings option.
From Stdlib Require Import ZArith Lia Ascii.
From S2P Require Import Prelude GoFloat GoTime GoPath Api Auth Json ProblemList Routing ToolMessage.

(** [None] permits every tool. *)
Record toolFilter := mk_filter { allow : option (gset string) }.

Definition permits (f : toolFilter) (name : string) : bool :=
  match allow f with None => true | Some s => bool_decide (name ∈ s) end.

Definition newToolFilter (grantTools catalog : list string) : toolFilter :=
  let catalogSet : gset string := list_to_set catalog in
  match grantTools with
  | [] => mk_filter (if bool_decide (catalogSet = ∅) then None else Some catalogSet)
  | _ => mk_filter (Some (foldl (λ s t, if bool_decide (catalogSet = ∅) || bool_decide (t ∈ catalogSet) then {[t]} ∪ s else s) ∅ grantTools))
  end.

Section chain.
Context {U : Unicode}.

(** The grants and the class of the workload behind an identity. *)
Definition workload_grants (s : Store) (ns : string) (id : Identity) : option (list AgentToolGrant * string) :=
  match id_Kind id with
  | KindAgent => (λ agent, (wl_Tools agent, AgentClassRef agent)) <$> AgentByName s ns (id_Name id)
  | KindAgentTask => (λ task, (wl_Tools task, AgentClassRef task)) <$> TaskByName s ns (id_Name id)
  end.

Definition grant_for (grants : list AgentToolGrant) (name : string) : option AgentToolGrant :=
  find (λ g, (tg_ProviderRef g =? name)%string) grants.

Definition authorizeToolRoute (s : Store) (c : caller) (tp : ToolProvider) : toolFilter + routeDenial :=
  let deny message := inr (mk_denial 403 errAccessDenied message) in
  if negb (namespaceGlobAllowed (c_Namespace c) (tp_AllowedNamespaces (tp_Spec tp))) then
    deny ("namespace " +:+ (fmt_q (c_Namespace c) +:+ (" is not allowed to use tool provider " +:+ fmt_q (tp_Name tp))))
  else
    match c_Workload c with
    | None => inl (newToolFilter [] (tp_Tools (tp_Spec tp)))
    | Some id =>
        match workload_grants s (c_Namespace c) id with
        | None => deny "workload not found"
        | Some (grants, className) =>
            match grant_for grants (tp_Name tp) with
            | None => deny ("workload has no tool grant for provider " +:+ fmt_q (tp_Name tp))
            | Some grant =>
                match ClassByName s className with
                | None => deny ("AgentClass " +:+ (fmt_q className +:+ " not found"))
                | Some class =>
                    if negb (AdmitsNamespace class (c_Namespace c)) then
                      deny ("namespace " +:+ (fmt_q (c_Namespace c) +:+ (" is not in AgentClass " +:+ (fmt_q className +:+ " allowedNamespaces"))))
                    else if negb (existsb (λ ref, (ref =? tp_Name tp)%string) (AllowedToolProviders class)) then
                      deny ("tool provider " +:+ (fmt_q (tp_Name tp) +:+ (" is not in AgentClass " +:+ (fmt_q className +:+ " allowedToolProviders"))))
                    else inl (newToolFilter (tg_Tools grant) (tp_Tools (tp_Spec tp)))
                end
            end
        end
    end.
End chain.

(** The metric's tool label; [None] before the provider is known. *)
Definition boundedToolLabel (tp : option ToolProvider) (tool : string) : string :=
  if (tool =? "")%string then ""
  else match tp with
       | Some tp => if existsb (λ t, (t =? tool)%string) (tp_Tools (tp_Spec tp)) then tool else "uncataloged"
       | None => "uncataloged"
       end.

(** ** The contract *)

(** A list that narrows admits a name when it is empty or holds it. *)
Definition narrowed_by (l : list string) (name : string) : Prop := l = [] ∨ name ∈ l.

(** The workload behind [id] holds the first grant for [tp], its class admits
    the namespace and the provider, and the grant covers [tool]. *)
Definition workload_tool (s : Store) (ns : string) (id : Identity) (tp : ToolProvider) (tool : string) : Prop :=
  ∃ grants className grant class,
    workload_grants s ns id = Some (grants, className) ∧ grant_for grants (tp_Name tp) = Some grant ∧
    ClassByName s className = Some class ∧ AdmitsNamespace class ns = true ∧ tp_Name tp ∈ AllowedToolProviders class ∧
    narrowed_by (tg_Tools grant) tool.

Definition tool_granted (s : Store) (c : caller) (tp : ToolProvider) (tool : string) : Prop :=
  namespaceGlobAllowed (c_Namespace c) (tp_AllowedNamespaces (tp_Spec tp)) = true ∧
  narrowed_by (tp_Tools (tp_Spec tp)) tool ∧
  match c_Workload c with None => True | Some id => workload_tool s (c_Namespace c) id tp tool end.

Lemma list_set_empty (l : list string) : list_to_set l = (∅ : gset string) ↔ l = [].
Proof.
  split; [|by intros ->]. destruct l as [|x l]; [done|]. intros E. assert (H : x ∈ (∅ : gset string)); [|by apply elem_of_empty in H].
  rewrite <- E. cbn [list_to_set]. apply elem_of_union. left. by apply elem_of_singleton.
Qed.

Lemma grant_fold (cat : gset string) grants (acc : gset string) n :
  n ∈ foldl (λ s t, if bool_decide (cat = ∅) || bool_decide (t ∈ cat) then {[t]} ∪ s else s) acc grants ↔
  n ∈ acc ∨ (n ∈ grants ∧ (cat = ∅ ∨ n ∈ cat)).
Proof.
  revert acc. induction grants as [|t l IH]; intros acc; cbn [foldl].
  { split; [by left|]. intros [?|[H _]]; [done|]. by apply not_elem_of_nil in H. }
  rewrite IH, elem_of_cons. destruct (bool_decide (cat = ∅) || bool_decide (t ∈ cat)) eqn:E.
  - rewrite orb_true_iff, !bool_decide_eq_true in E. rewrite elem_of_union, elem_of_singleton.
    split; [intros [[->|?]|[? ?]]|intros [?|[[->|?] ?]]]; tauto.
  - rewrite orb_false_iff, !bool_decide_eq_false in E.
    split; [tauto|intros [?|[[->|?] ?]]]; tauto.
Qed.

(** The filter is the meet of grant and catalog. *)
Lemma newToolFilter_exact grants catalog n :
  permits (newToolFilter grants catalog) n = true ↔ narrowed_by grants n ∧ narrowed_by catalog n.
Proof.
  unfold newToolFilter, permits, narrowed_by. destruct grants as [|g l]; cbn [allow].
  - case_bool_decide as E; rewrite list_set_empty in E; [naive_solver|]. rewrite bool_decide_eq_true, elem_of_list_to_set. naive_solver.
  - rewrite bool_decide_eq_true, grant_fold, elem_of_empty, list_set_empty, elem_of_list_to_set. naive_solver.
Qed.

#[local] Opaque newToolFilter.

Section exact.
Context {U : Unicode}.

(** The chain passes, and its filter permits [tool], exactly when the tool
    is granted; everything else is refused with 403. *)
Lemma authorizeToolRoute_exact s c tp tool :
  (∃ f, authorizeToolRoute s c tp = inl f ∧ permits f tool = true) ↔ tool_granted s c tp tool.
Proof.
  unfold authorizeToolRoute, tool_granted. destruct (namespaceGlobAllowed _ _); cbn [negb]; [|naive_solver].
  destruct (c_Workload c) as [id|].
  2:{ split; [intros (f & [= <-] & Hf)|intros (_ & Hc & _)].
      - apply newToolFilter_exact in Hf as [_ Hf]. done.
      - eexists. split; [done|]. apply newToolFilter_exact. split; [by left|done]. }
  unfold workload_tool. destruct (workload_grants s (c_Namespace c) id) as [[grants cn]|]; [|naive_solver].
  destruct (grant_for grants (tp_Name tp)) as [g|] eqn:Eg; [|split; [naive_solver|]; intros (_ & _ & ? & ? & ? & ? & [= <- <-] & ? & _); congruence].
  destruct (ClassByName s cn) as [class|] eqn:Ec; [|split; [naive_solver|]; intros (_ & _ & ? & ? & ? & ? & [= <- <-] & _ & ? & _); congruence].
  assert (Hin : existsb (λ ref, (ref =? tp_Name tp)%string) (AllowedToolProviders class) = true ↔ tp_Name tp ∈ AllowedToolProviders class) by apply existsb_string_elem.
  destruct (AdmitsNamespace class (c_Namespace c)) eqn:Ea; cbn [negb].
  2:{ split; [naive_solver|]. intros (_ & _ & ? & ? & ? & ? & [= <- <-] & _ & ? & ? & _). congruence. }
  destruct (existsb _ _); cbn [negb].
  - split.
    + intros (f & [= <-] & [Hg Hc]%newToolFilter_exact). split; [done|]. split; [done|]. exists grants, cn, g, class. split_and!; (done || by apply Hin).
    + intros (_ & Hc & ? & ? & g' & ? & [= <- <-] & Hg & ? & _ & _ & Hn). simplify_eq. eexists. split; [done|]. by apply newToolFilter_exact.
  - split; [naive_solver|]. intros (_ & _ & ? & ? & ? & ? & [= <- <-] & _ & ? & _ & Hi & _). simplify_eq. by apply Hin in Hi.
Qed.

Lemma authorizeToolRoute_403 s c tp d : authorizeToolRoute s c tp = inr d → Routing.status d = 403%Z.
Proof. unfold authorizeToolRoute. intros H. repeat case_match; by simplify_eq. Qed.
End exact.
