(* ===== verification/McpWire.v ===== *)
(** The wire of the tool plane: internal/mcp/types.go and ParseResponseRaw of
    internal/mcp/client.go, with json.Marshal of a Response.

    A response body is its bytes and the error that ends them; readers see at
    most one byte past the limit.  bufio.Scanner over such a body does not
    depend on how the bytes arrive. *)

From stdpp Require Import base list strings option gmap.
From Stdlib Require Import ZArith Lia Ascii.
From S2P Require Import Prelude GoFloat Json JsonString JsonValue RequestBody RequestClaims FoldedName JsonDecode JsonCompact ToolMessage.

(** ** Messages *)

Definition CodeInternalError : Z := -32603.
Definition CodeHeaderMismatch : Z := -32020.

Record RPCError := mk_rpc_error {
  rpc_Code : Z;
  rpc_Message : string;
  rpc_Data : bytes;
}.

Record Response := mk_rpc_response {
  rsp_JSONRPC : string;
  rsp_ID : bytes;
  rsp_Result : bytes;
  rsp_Error : option RPCError;
}.

Definition RPCError_type : gty := TStruct [("code", TInt); ("message", TString); ("data", TRaw)].
Definition Response_type : gty := TStruct [("jsonrpc", TString); ("id", TRaw); ("result", TRaw); ("error", TPtr RPCError_type)].

Definition RPCError_of (v : gval) : RPCError := mk_rpc_error (gint (gfield v 0)) (gstr (gfield v 1)) (graw (gfield v 2)).
Definition Response_of (v : gval) : Response :=
  mk_rpc_response (gstr (gfield v 0)) (graw (gfield v 1)) (graw (gfield v 2)) (RPCError_of <$> gptr (gfield v 3)).

Definition UnmarshalResponse (b : bytes) : option Response := Response_of <$> UnmarshalInto Response_type b.

(** *** Encoding *)

(** A RawMessage is compacted; bytes that are no JSON are an error. *)
Definition raw_tree (b : bytes) : option cst := match parse b with Some (_, c, _) => Some (compact c) | None => None end.

(** A nil RawMessage without omitempty is null, with it is left out. *)
Definition raw_or_null (b : bytes) : option cst := match b with [] => Some (CScalar (bs "null")) | _ => raw_tree b end.
Definition raw_member (name : string) (b : bytes) : option (list (string * cst)) :=
  match b with [] => Some [] | _ => (λ t, [(name, t)]) <$> raw_tree b end.

Definition string_tree (s : string) : cst := CString (marshal_body (bs s)).

Definition rpc_error_tree (e : RPCError) : option cst :=
  (λ data, mk_map ([("code", CScalar (print_Z (rpc_Code e))); ("message", string_tree (rpc_Message e))] ++ data)) <$> raw_member "data" (rpc_Data e).

Definition response_tree (r : Response) : option cst :=
  match raw_or_null (rsp_ID r), raw_member "result" (rsp_Result r),
        (match rsp_Error r with None => Some [] | Some e => (λ t, [("error", t)]) <$> rpc_error_tree e end) with
  | Some id, Some result, Some err => Some (mk_map ([("jsonrpc", string_tree (rsp_JSONRPC r)); ("id", id)] ++ result ++ err))
  | _, _, _ => None
  end.

(** json.Marshal. *)
Definition MarshalResponse (r : Response) : option bytes := text <$> response_tree r.

(** jsonrpcError; [data] is the marshalled value, empty for nil. *)
Definition jsonrpcError (id : bytes) (code : Z) (message : string) (data : bytes) : bytes :=
  let id := match id with [] => bs "null" | _ => id end in
  default [] (MarshalResponse (mk_rpc_response "2.0" id [] (Some (mk_rpc_error code message data)))).

(** ** Ids *)

Definition IDEqual (a b : bytes) : bool :=
  match a, b with
  | [], _ | _, [] => false
  | _, _ =>
      match UnmarshalAny a, UnmarshalAny b with
      | Some (VStr x), Some (VStr y) => (x =? y)%string
      | Some (VFloat x), Some (VFloat y) => f64_eqb x y
      | _, _ => false
      end
  end.

(** ** Bodies *)

(** [ub_Err]: what ends the bytes, [None] for io.EOF; [ub_Deadline]: whether
    the upstream timeout has passed by then. *)
Record upstream_body := mk_body {
  ub_Bytes : bytes;
  ub_Err : option string;
  ub_Deadline : bool;
}.

(** An io.LimitedReader of [max + 1]: past it, a clean end. *)
Definition limited (max : nat) (ub : upstream_body) : bytes * option string :=
  if (max <? length (ub_Bytes ub))%nat then (take (S max) (ub_Bytes ub), None) else (ub_Bytes ub, ub_Err ub).

(** [N <= 0]: the reader has given all it may. *)
Definition limit_reached (max : nat) (ub : upstream_body) : bool := (max <? length (ub_Bytes ub))%nat.

(** *** Lines *)

Definition newline : ascii := "010".

Definition dropCR (line : bytes) : bytes :=
  match last line with Some c => if Ascii.eqb c "013" then removelast line else line | None => line end.

(** bufio.ScanLines: the raw lines, each with whether it was terminated. *)
Fixpoint raw_lines (cur b : bytes) : list (bytes * bool) :=
  match b with
  | [] => match cur with [] => [] | _ => [(rev cur, false)] end
  | c :: b => if Ascii.eqb c newline then (rev cur, true) :: raw_lines [] b else raw_lines (c :: cur) b
  end.

Definition ScanLines (b : bytes) : list (bytes * bool) := raw_lines [] b.

Definition scanBufSize : nat := 64 * 1024.

(** bufio.ErrTooLong: a buffer of [max + 1] bytes is full and holds no line
    end. *)
Definition too_long (max : nat) (b : bytes) : bool :=
  (scanBufSize <=? S max)%nat && (max <? length b)%nat && negb (existsb (Ascii.eqb newline) b).

(** ** Reading a response *)

Inductive wire_error := ErrRead (text : string) | ErrTooLong | ErrSyntax | ErrNoMatch.

(** The closure [match] of readSSEResponse. *)
Definition sse_match (rawID data : bytes) : option Response :=
  match data with
  | [] => None
  | _ =>
      match UnmarshalResponse data with
      | Some resp => if IDEqual (rsp_ID resp) rawID then Some resp else None
      | None => None
      end
  end.

Definition data_prefix : bytes := bs "data:".
Definition trim_space_prefix (b : bytes) : bytes := match b with c :: b' => if Ascii.eqb c " " then b' else b | [] => [] end.

(** The scan loop: the match and the data it was decoded from, or the data
    left at the end. *)
Fixpoint sse_scan (rawID : bytes) (lines : list bytes) (data : bytes) : Response * bytes + bytes :=
  match lines with
  | [] => inr data
  | [] :: lines =>
      match sse_match rawID data with
      | Some resp => inl (resp, data)
      | None => sse_scan rawID lines []
      end
  | line :: lines =>
      if has_prefix data_prefix line then sse_scan rawID lines (data ++ trim_space_prefix (drop (length data_prefix) line))
      else sse_scan rawID lines data
  end.

Definition readSSEResponse (max : nat) (ub : upstream_body) (rawID : bytes) : Response * bytes + wire_error :=
  let '(b, err) := limited max ub in
  if too_long max b then inr ErrTooLong
  else
    match sse_scan rawID (map (λ l, dropCR l.1) (ScanLines b)) [] with
    | inl found => inl found
    | inr data =>
        match err with
        | Some text => inr (ErrRead text)
        | None => match sse_match rawID data with Some resp => inl (resp, data) | None => inr ErrNoMatch end
        end
    end.

Definition ParseResponseRaw (contentType : string) (max : nat) (ub : upstream_body) (rawID : bytes) : Response * bytes + wire_error :=
  if HasPrefix contentType "text/event-stream" then readSSEResponse max ub rawID
  else
    let '(raw, err) := limited max ub in
    match err with
    | Some text => inr (ErrRead text)
    | None => match UnmarshalResponse raw with Some resp => inl (resp, raw) | None => inr ErrSyntax end
    end.

(** ** Lemmas *)

(** The lines with their ends are the bytes. *)
Definition line_bytes (l : bytes * bool) : bytes := l.1 ++ (if l.2 then [newline] else []).

Lemma raw_lines_concat cur b : concat (map line_bytes (raw_lines cur b)) = rev cur ++ b.
Proof.
  revert cur. induction b as [|c b IH]; intros cur; cbn [raw_lines].
  - destruct cur as [|d cur]; [done|]. cbn [map concat]. unfold line_bytes. cbn [fst snd]. by rewrite !List.app_nil_r.
  - destruct (Ascii.eqb_spec c newline) as [->|].
    + cbn [map concat]. unfold line_bytes at 1. cbn [fst snd]. by rewrite IH, <- List.app_assoc.
    + rewrite IH. cbn [rev]. by rewrite <- List.app_assoc.
Qed.

Lemma ScanLines_concat b : concat (map line_bytes (ScanLines b)) = b.
Proof. apply raw_lines_concat. Qed.

(** Whatever a reader of the body accepted was decoded from the bytes it
    returns. *)
Lemma sse_scan_decoded rawID lines data resp raw : sse_scan rawID lines data = inl (resp, raw) → UnmarshalResponse raw = Some resp.
Proof.
  assert (Hm : ∀ d r, sse_match rawID d = Some r → UnmarshalResponse d = Some r).
  { intros d r. unfold sse_match. destruct d as [|c d]; [done|]. destruct (UnmarshalResponse (c :: d)) as [x|]; [|done].
    destruct (IDEqual (rsp_ID x) rawID); [|done]. by intros [= <-]. }
  revert data. induction lines as [|[|c l] lines IH]; intros data; cbn [sse_scan]; [done| |].
  - destruct (sse_match rawID data) as [x|] eqn:E; [|apply IH]. intros [= -> ->]. by apply Hm.
  - destruct (has_prefix data_prefix (c :: l)); apply IH.
Qed.

Lemma ParseResponseRaw_decoded ct max ub rawID resp raw : ParseResponseRaw ct max ub rawID = inl (resp, raw) → UnmarshalResponse raw = Some resp.
Proof.
  unfold ParseResponseRaw, readSSEResponse. destruct (limited max ub) as [b err]. destruct (HasPrefix ct "text/event-stream").
  - destruct (too_long max b); [done|]. destruct (sse_scan _ _ _) as [[x d]|data] eqn:E; [intros [= -> ->]; by eapply sse_scan_decoded|].
    destruct err; [done|]. unfold sse_match. destruct data as [|c d]; [done|]. destruct (UnmarshalResponse (c :: d)) as [x|] eqn:Ex; [|done].
    destruct (IDEqual (rsp_ID x) rawID); [|done]. by intros [= -> <-].
  - destruct err; [done|]. destruct (UnmarshalResponse b) as [x|] eqn:Ex; [|done]. by intros [= -> <-].
Qed.
