(* ===== verification/ToolList.v ===== *)
(** The tools/list answer a caller sees: internal/gateway/mcpbroker.go,
    narrowToolsResult and mayCarryCacheScope.

    An index out of range is [None], as in RequestBody.v.

    The second half compares the edited answer with the tree of the upstream's. *)

From stdpp Require Import base list strings option gmap sorting.
From Stdlib Require Import ZArith Lia Ascii.
From S2P Require Import Prelude Json JsonString JsonValue RequestBody RequestClaims FoldedName JsonDecode JsonCompact ToolMessage ToolRoute McpWire.

Definition mayCarryCacheScope (data : bytes) : bool := mayHoldFoldedName data (bs "cachescope").

(** *** The decoder over an array *)

(** For each element, the input between the previous token and the end of the
    element, and the element: what InputOffset before and after Decode
    delimit. *)
Fixpoint later_slices (trail : bytes) (es : list element) : list (bytes * cst) :=
  match es with
  | [] => []
  | e :: es => (trail ++ ","%char :: e.1.1 ++ text e.1.2, e.1.2) :: later_slices e.2 es
  end.

Definition decoder_slices (b : bytes) : list (bytes * cst) :=
  match parse b with
  | Some (_, CArray e es, _) => (e.1.1 ++ text e.1.2, e.1.2) :: later_slices e.2 es
  | _ => []
  end.

(** bytes.TrimLeft with white space and the comma. *)
Definition trim_entry (b : bytes) : bytes := (span (λ c, json_space c || Ascii.eqb c ",") b).2.

Definition toolEntry_type : gty := TStruct [("name", TString)].

(** The entry, when it is kept. *)
Definition keep_entry (f : toolFilter) (slice : bytes) (c : cst) : option (option bytes) :=
  let '(t, typeErr) := decode (gdepth toolEntry_type) toolEntry_type (gzero toolEntry_type) c in
  let entry := trim_entry slice in
  if typeErr then Some None
  else if negb (permits f (gstr (gfield t 0))) then Some None
  else
    match entry with
    | [] => None
    | x :: _ =>
        if Ascii.eqb x "{" then
          match repeatsJSONMember entry 0 (bs "name") with
          | None => None
          | Some true => Some None
          | Some false => Some (Some entry)
          end
        else Some (Some entry)
    end.

Fixpoint keep_entries (f : toolFilter) (slices : list (bytes * cst)) : option (list bytes) :=
  match slices with
  | [] => Some []
  | (s, c) :: slices =>
      match keep_entry f s c, keep_entries f slices with
      | Some (Some entry), Some l => Some (entry :: l)
      | Some None, Some l => Some l
      | _, _ => None
      end
  end.

Definition commas (l : list bytes) : bytes := match l with [] => [] | x :: l => x ++ concat (map (λ y, ","%char :: y) l) end.
Definition kept_list (l : list bytes) : bytes := "["%char :: commas l ++ ["]"%char].

(** *** Marshalling the map *)

Definition raw_key_le (a b : string * bytes) : Prop := String.leb a.1 b.1 = true.
#[global] Instance raw_key_le_dec : RelDecision raw_key_le := λ a b, decide (String.leb a.1 b.1 = true).

Definition raw_map_tree (m : gmap string bytes) : option cst :=
  mk_map <$> mapM (λ kv, (λ t, (kv.1, t)) <$> raw_tree kv.2) (merge_sort raw_key_le (map_to_list m)).

(** *** The narrowing *)

Definition folded_type : gty := TStruct [("tools", TRaw)].

(** The tools member: the exact name, or the one a struct decode reads. *)
Definition tools_source (result : bytes) (m : gmap string bytes) : bytes :=
  match m !! "tools" with
  | Some t => t
  | None => match UnmarshalType folded_type result with Some (v, _) => graw (gfield v 0) | None => [] end
  end.

Definition drop_tools (m : gmap string bytes) : gmap string bytes :=
  filter (λ kv : string * bytes, jsonNameMatches (bs kv.1) (bs "tools") = false) m.

Definition private : bytes := string_token (bs "private").

Definition mark_private (m : gmap string bytes) : gmap string bytes :=
  map_imap (λ k v, Some (if jsonNameMatches (bs k) (bs "cacheScope") then private else v)) m.

(** [None] is a panic, [Some None] the second result false. *)
Definition narrowToolsResult (result : bytes) (f : toolFilter) : option (option bytes) :=
  match UnmarshalType TRawMap result with
  | Some (GRawMap m, false) =>
      match keep_entries f (decoder_slices (tools_source result m)) with
      | None => None
      | Some kept => Some (text <$> raw_map_tree (mark_private (<["tools" := kept_list kept]> (drop_tools m))))
      end
  | _ => Some None
  end.

(** The narrowed tools/list answer, as a tree: one list of the permitted,
    unambiguous entries in their order, whatever copy a client reads. *)


(** ** The map of raw members *)

Lemma raw_members_lookup ms old k : raw_members ms old !! k =
  match last (filter (λ m, str (mb_key m) = k) ms) with Some m => Some (text (mb_value m)) | None => old !! k end.
Proof.
  revert old. induction ms as [|m ms IH]; intros old; [done|]. unfold raw_members in *. cbn [foldl]. rewrite IH, filter_cons.
  destruct (decide (str (mb_key m) = k)) as [E|E].
  - rewrite last_cons. destruct (last _); [done|]. by rewrite <- E, lookup_insert_eq.
  - destruct (last _); [done|]. by rewrite lookup_insert_ne.
Qed.

(** The member whose value is narrowed. *)
Definition source_tree (ms : list member) : option cst :=
  match last (filter (λ m, str (mb_key m) = "tools") ms) with
  | Some m => Some (mb_value m)
  | None => mb_value <$> last (matching (bs "tools") ms)
  end.

Lemma folded_distinct : distinct_fields [("tools", TRaw)].
Proof. apply (bool_decide_unpack _). by vm_compute. Qed.

Lemma fold_raw cs : graw (foldl (λ v c, (decode 1 TRaw v c).1) GNil cs) = match last cs with Some c => text c | None => [] end.
Proof. destruct cs as [|c cs _] using rev_ind; [done|]. by rewrite foldl_snoc, last_snoc. Qed.

Lemma last_fmap {A B} (g : A → B) (l : list A) : last (map g l) = g <$> last l.
Proof. destruct l as [|x l _] using rev_ind; [done|]. by rewrite map_app, last_snoc; simpl; rewrite last_snoc. Qed.

Lemma tools_source_spec result s1 c s2 ms : parse result = Some (s1, c, s2) → object_members c = Some ms →
  tools_source result (raw_members ms ∅) = match source_tree ms with Some v => text v | None => [] end.
Proof.
  intros Hp Ho. unfold tools_source, source_tree. rewrite raw_members_lookup.
  destruct (last (filter _ ms)) as [m|]; [done|]. rewrite lookup_empty. unfold UnmarshalType. rewrite Hp.
  change (gdepth folded_type) with 2. unfold folded_type. change (gzero (TStruct [("tools", TRaw)])) with (GStruct [GNil]).
  rewrite (decode_struct _ _ _ _ _ Ho).
  destruct (decode_members_field (decode 1) [("tools", TRaw)] [GNil] (map (λ m, (mb_key m, mb_value m)) ms) 0 "tools" TRaw GNil eq_refl eq_refl) as [Hl _].
  rewrite (of_field_matching _ 0 _ ms folded_distinct eq_refl) in Hl. cbn [fst] in Hl.
  destruct (decode_members _ _ _ _) as [vs e]. cbn [fst] in Hl. cbn [gfield]. rewrite Hl. change (default GNil (Some ?x)) with x. rewrite fold_raw, last_fmap.
  by destruct (last (matching (bs "tools") ms)).
Qed.

(** ** Entries *)

Definition elements_of (v : cst) : list cst := default [] (array_elements v).

Lemma trim_spaces s c : spaces s → wf c → trim_entry (s ++ text c) = text c.
Proof.
  intros Hs Hw. unfold trim_entry. rewrite span_app; [done| |].
  - unfold spaces in Hs. rewrite forallb_forall in Hs |- *. intros x Hx. by rewrite Hs.
  - destruct (text_first c Hw) as (x & t & -> & Hx). simpl. apply value_start_spec in Hx as (-> & _ & _ & Hc). by apply Ascii.eqb_neq.
Qed.

Lemma trim_comma s s' c : spaces s → spaces s' → wf c → trim_entry (s ++ ","%char :: s' ++ text c) = text c.
Proof.
  intros Hs Hs' Hw. replace (s ++ ","%char :: s' ++ text c) with ((s ++ ","%char :: s') ++ text c) by (by rewrite <- List.app_assoc).
  unfold trim_entry. rewrite span_app; [done| |].
  - unfold spaces in *. rewrite forallb_app. cbn [forallb]. rewrite !forallb_forall in *. rewrite andb_true_iff, !forallb_forall. simpl.
    split; [intros x Hx; by rewrite Hs|]. rewrite forallb_forall. intros x Hx. by rewrite Hs'.
  - destruct (text_first c Hw) as (x & t & -> & Hx). simpl. apply value_start_spec in Hx as (-> & _ & _ & Hc). by apply Ascii.eqb_neq.
Qed.

Definition trims (x : bytes * cst) : Prop := trim_entry x.1 = text x.2 ∧ wf x.2.

Lemma later_slices_spec trail es : spaces trail → Forall wf_element es →
  map snd (later_slices trail es) = map el_value es ∧ Forall trims (later_slices trail es).
Proof.
  intros Ht Hes. revert trail Ht. induction Hes as [|e es He _ IH]; intros trail Ht; [by split|].
  destruct He as [s1 c s2 H1 Hc H2]. destruct (IH s2 H2) as [IH1 IH2]. cbn [later_slices map fst snd]. rewrite IH1. split; [done|].
  constructor; [|done]. split; [by apply trim_comma|done].
Qed.

Lemma decoder_slices_spec v : wf v → parse (text v) = Some ([], v, []) →
  map snd (decoder_slices (text v)) = elements_of v ∧ Forall trims (decoder_slices (text v)).
Proof.
  intros Hw Hp. unfold decoder_slices. rewrite Hp. unfold elements_of. destruct Hw as [| |[]|e es He Hes|]; try (by split).
  destruct He as [s1 c s2 H1 Hc H2]. destruct (later_slices_spec s2 es H2 Hes) as [L1 L2]. cbn [map fst snd array_elements default].
  rewrite L1. split; [done|]. constructor; [|done]. split; [by apply trim_spaces|done].
Qed.

(** Whether an entry is relayed. *)
Definition relayed (f : toolFilter) (c : cst) : bool :=
  let '(t, typeErr) := decode (gdepth toolEntry_type) toolEntry_type (gzero toolEntry_type) c in
  negb typeErr && permits f (gstr (gfield t 0)) &&
  match object_members c with Some ms => (length (matching (bs "name") ms) <=? 1)%nat | None => true end.

Lemma keep_entry_spec f s c : trims (s, c) → keep_entry f s c = Some (if relayed f c then Some (text c) else None).
Proof.
  intros [Ht Hw]. cbn [fst snd] in *. unfold keep_entry, relayed. destruct (decode _ _ _ c) as [t []]; [done|]. cbn [negb andb].
  destruct (permits f (gstr (gfield t 0))); [|done]. cbn [negb andb]. rewrite Ht.
  destruct (text_first c Hw) as (x & l & Hx & _). rewrite Hx. rewrite <- Hx.
  pose proof (at_zero (text c)) as Ha. replace (text c) with (text c ++ []) in Ha at 2 by apply List.app_nil_r.
  destruct (object_not_first (text c) 0 c [] Ha Hw) as (y & Hy & Hobj). rewrite Hx in Hy. injection Hy as <-. rewrite Hobj.
  destruct (object_members c) as [ms|] eqn:Ho; [|by rewrite bool_decide_false by (by intros [])].
  rewrite bool_decide_true by done. rewrite (repeats_exact (text c) 0 c [] ms (bs "name") Ha Hw Ho).
  rewrite Nat.leb_antisym. by destruct (1 <? _)%nat.
Qed.

Lemma keep_entries_spec f l : Forall trims l → keep_entries f l = Some (map text (filter (λ c, relayed f c = true) (map snd l))).
Proof.
  induction 1 as [|[s c] l Hx _ IH]; [done|]. cbn [keep_entries map snd]. rewrite (keep_entry_spec f s c Hx), IH, filter_cons.
  destruct (relayed f c); [by rewrite decide_True|by rewrite decide_False].
Qed.

Lemma kept_list_text es : kept_list (map text es) = text (mk_array es).
Proof.
  destruct es as [|e es]; [done|]. unfold kept_list, mk_array. cbn [commas map]. rewrite text_array. cbn [elements_text].
  unfold element_text. cbn [fst snd app]. rewrite List.app_nil_r, <- List.app_assoc. do 2 f_equal. f_equal.
  rewrite !map_map. f_equal. apply map_ext. intros x. cbn [fst snd app]. by rewrite List.app_nil_r.
Qed.

(** ** The encoded map *)

(** Bytes that are a value nested no deeper than [n]. *)
Definition value_bytes (n : Z) (b : bytes) : Prop := ∃ v, b = text v ∧ wf v ∧ (nesting v ≤ n)%Z.

Lemma parse_text v : wf v → (nesting v ≤ maxNestingDepth)%Z → parse (text v) = Some ([], v, []).
Proof. intros Hw Hn. pose proof (parse_complete [] v [] eq_refl Hw eq_refl Hn) as H. by rewrite List.app_nil_r in H. Qed.

Lemma raw_tree_text v : wf v → (nesting v ≤ maxNestingDepth)%Z → raw_tree (text v) = Some (compact v).
Proof. intros Hw Hn. unfold raw_tree. by rewrite parse_text. Qed.

Lemma raw_tree_value n b : value_bytes n b → (n ≤ maxNestingDepth)%Z → ∃ t, raw_tree b = Some t ∧ wf t ∧ (nesting t ≤ n)%Z.
Proof.
  intros (v & -> & Hw & Hv) Hn. exists (compact v). rewrite raw_tree_text by (done || lia). split; [done|].
  split; [by apply wf_compact|by rewrite nesting_compact].
Qed.

Lemma mk_map_object kvs : mk_map kvs = mk_object (map mk_member kvs).
Proof. done. Qed.

Lemma mk_map_members kvs : object_members (mk_map kvs) = Some (map mk_member kvs).
Proof. by destruct kvs. Qed.

Lemma mk_map_nesting kvs n : (0 ≤ n)%Z → Forall (λ kv : string * cst, nesting kv.2 ≤ n)%Z kvs → (nesting (mk_map kvs) ≤ 1 + n)%Z.
Proof. intros Hn H. rewrite mk_map_object. apply mk_object_nesting; [done|]. apply List.Forall_map. exact H. Qed.

Definition tree_pairs (l : list (string * bytes)) : option (list (string * cst)) := mapM (λ kv, (λ t, (kv.1, t)) <$> raw_tree kv.2) l.

Lemma tree_pairs_spec n l : Forall (λ kv : string * bytes, value_bytes n kv.2) l → (n ≤ maxNestingDepth)%Z →
  ∃ kvs, tree_pairs l = Some kvs ∧ Forall (λ kv : string * cst, wf kv.2 ∧ (nesting kv.2 ≤ n)%Z) kvs ∧
    ∀ k t, (k, t) ∈ kvs ↔ ∃ b, (k, b) ∈ l ∧ raw_tree b = Some t.
Proof.
  intros Hl Hn. unfold tree_pairs. induction Hl as [|[k b] l Hb _ IH].
  - exists []. split; [done|]. split; [constructor|]. intros k t. split; [by intros ?%not_elem_of_nil|]. intros (b & H & _). by apply not_elem_of_nil in H.
  - destruct (raw_tree_value n b Hb Hn) as (t & Ht & Hw & Hnt). destruct IH as (kvs & Hm & Hkvs & Hin). exists ((k, t) :: kvs).
    split; [apply mapM_Some; constructor; [cbn [fst snd]; by rewrite Ht|by apply mapM_Some]|]. split; [by constructor|].
    intros k' t'. rewrite elem_of_cons, Hin. split.
    + intros [[= -> ->]|(b' & Hb' & Hr)]; [exists b; split; [by left|done]|exists b'; split; [by right|done]].
    + intros (b' & [[= -> ->]|Hb']%elem_of_cons & Hr); [left; congruence|right; by exists b'].
Qed.

Lemma raw_map_tree_spec m n : (∀ k b, m !! k = Some b → value_bytes n b) → (0 ≤ n)%Z → (1 + n ≤ maxNestingDepth)%Z →
  ∃ kvs, raw_map_tree m = Some (mk_map kvs) ∧ wf (mk_map kvs) ∧ (nesting (mk_map kvs) ≤ 1 + n)%Z ∧
    ∀ k t, (k, t) ∈ kvs ↔ ∃ b, m !! k = Some b ∧ raw_tree b = Some t.
Proof.
  intros Hm Hn Hd. destruct (tree_pairs_spec n (merge_sort raw_key_le (map_to_list m))) as (kvs & E & Hf & Hin); [|lia|].
  { rewrite merge_sort_Permutation, Forall_forall. intros [k b] Hkb. apply elem_of_map_to_list in Hkb. by eapply Hm. }
  exists kvs. unfold raw_map_tree. fold (tree_pairs (merge_sort raw_key_le (map_to_list m))). rewrite E. split; [done|].
  split; [|split].
  - apply wf_mk_map. eapply List.Forall_impl; [|exact Hf]. by intros ? [].
  - apply mk_map_nesting; [done|]. eapply List.Forall_impl; [|exact Hf]. by intros ? [].
  - intros k t. rewrite Hin. setoid_rewrite merge_sort_Permutation. by setoid_rewrite elem_of_map_to_list.
Qed.

(** ** The narrowed result *)

Lemma array_nesting v : wf v → Forall (λ e, wf e ∧ (nesting e ≤ nesting v - 1)%Z) (elements_of v).
Proof.
  intros Hw. unfold elements_of. destruct Hw as [| |[]|e es He Hes|]; try constructor; cbn [array_elements default];
    change (nesting (CArray e es)) with (1 + foldr (λ (y : element) n, nesting (el_value y) `max` n)%Z (nesting (el_value e)) es)%Z;
    pose proof (foldr_max_le (λ y : element, nesting (el_value y)) e es _ (Z.le_refl _)) as [F F']%Forall_cons; cbv beta in F.
  - destruct He. split; [done|]. lia.
  - apply List.Forall_map. rewrite Forall_forall in Hes, F' |- *. intros x Hx. specialize (F' x Hx). destruct (Hes x Hx). split; [done|]. cbv beta in F'. lia.
Qed.

Lemma mk_array_nesting es n : (0 ≤ n)%Z → Forall (λ e, nesting e ≤ n)%Z es → (nesting (mk_array es) ≤ 1 + n)%Z.
Proof.
  intros Hn Hes. destruct Hes as [|e es He Hes]; [simpl; lia|].
  change (nesting (mk_array (e :: es))) with
    (1 + foldr (λ (y : element) n, nesting (el_value y) `max` n)%Z (nesting e) (map (λ v : cst, ([] : bytes, v, [] : bytes)) es))%Z.
  assert (H : (foldr (λ (y : element) n, nesting (el_value y) `max` n)%Z (nesting e) (map (λ v : cst, ([] : bytes, v, [] : bytes)) es) ≤ n)%Z); [|lia].
  induction Hes as [|x es Hx _ IH]; [done|]. cbn [map foldr]. change (el_value ([], x, [])) with x. lia.
Qed.

Lemma elements_mk_array es : elements_of (mk_array es) = es.
Proof. destruct es as [|e es]; [done|]. unfold elements_of. cbn. rewrite map_map. f_equal. apply map_id. Qed.

Lemma elements_compact v : elements_of (compact v) = map compact (elements_of v).
Proof. unfold elements_of. destruct v as [| |[]|e es|]; try done. cbn. by rewrite !map_map. Qed.

(** What the narrowing gives for the members [ms] of a result: every copy of
    tools is the filtered list, there is one, every copy of cacheScope is
    private, and everything else is the upstream's. *)
Definition kept_tools (f : toolFilter) (ms : list member) : list cst :=
  filter (λ c, relayed f c = true) (match source_tree ms with Some v => elements_of v | None => [] end).

Definition narrowed (f : toolFilter) (ms : list member) (t : cst) : Prop := ∃ tms,
  object_members t = Some tms ∧
  (∃ m, m ∈ tms ∧ mb_key m = bs "tools") ∧
  (∀ m, m ∈ matching (bs "tools") tms → mb_value m = compact (mk_array (kept_tools f ms))) ∧
  (∀ m, m ∈ matching (bs "cacheScope") tms → mb_value m = CString (bs "private")) ∧
  (∀ m, m ∈ tms → jsonNameMatches (mb_key m) (bs "tools") = true ∨ jsonNameMatches (mb_key m) (bs "cacheScope") = true ∨
     ∃ m', m' ∈ ms ∧ mb_value m = compact (mb_value m')).

Lemma raw_members_in ms k b : raw_members ms ∅ !! k = Some b → ∃ m, m ∈ ms ∧ b = text (mb_value m).
Proof.
  rewrite raw_members_lookup. destruct (last _) as [m|] eqn:E; [|by rewrite lookup_empty]. intros [= <-]. exists m. split; [|done].
  apply last_Some_elem_of in E. by apply list_elem_of_filter in E as [_ E].
Qed.

Lemma source_in ms v : source_tree ms = Some v → ∃ m, m ∈ ms ∧ v = mb_value m.
Proof.
  unfold source_tree. destruct (last (filter _ ms)) as [m|] eqn:E.
  - intros [= <-]. exists m. split; [|done]. apply last_Some_elem_of in E. by apply list_elem_of_filter in E as [_ E].
  - intros (m & Hm & ->)%fmap_Some. exists m. split; [|done]. apply last_Some_elem_of in Hm. by apply list_elem_of_filter in Hm as [_ Hm].
Qed.

Lemma member_value c ms m : wf c → object_members c = Some ms → m ∈ ms → wf (mb_value m) ∧ (nesting (mb_value m) ≤ nesting c - 1)%Z.
Proof.
  intros Hw Ho Hm. pose proof (object_members_wf c ms Hw Ho) as F. rewrite Forall_forall in F.
  destruct (wf_member_inv m (F m Hm)) as (_ & _ & _ & _ & Hv & _). destruct (object_nesting c ms Ho) as [Fn _].
  rewrite Forall_forall in Fn. split; [done|]. exact (Fn m Hm).
Qed.

(** The final map. *)
Definition final_map (kept : list bytes) (m : gmap string bytes) : gmap string bytes :=
  mark_private (<["tools" := kept_list kept]> (drop_tools m)).

Lemma final_lookup kept m k b : final_map kept m !! k = Some b →
  (jsonNameMatches (bs k) (bs "cacheScope") = true ∧ b = private) ∨
  (jsonNameMatches (bs k) (bs "cacheScope") = false ∧
   ((k = "tools" ∧ b = kept_list kept) ∨ (jsonNameMatches (bs k) (bs "tools") = false ∧ m !! k = Some b))).
Proof.
  unfold final_map, mark_private. rewrite map_lookup_imap. intros (v & Hv & E)%bind_Some.
  assert (Hb : (if jsonNameMatches (bs k) (bs "cacheScope") then private else v) = b) by congruence. clear E. subst b.
  destruct (jsonNameMatches (bs k) (bs "cacheScope")) eqn:Ec; [left; by split|right]. split; [done|].
  apply lookup_insert_Some in Hv as [[E1 E2]|[Hne Hv]]; [left; by subst|right].
  unfold drop_tools in Hv. by apply map_lookup_filter_Some in Hv as [Hv Hm].
Qed.

Lemma final_tools kept m : final_map kept m !! "tools" = Some (kept_list kept).
Proof. unfold final_map, mark_private. rewrite map_lookup_imap, lookup_insert_eq. done. Qed.

Lemma kept_tools_ok f c ms n : wf c → object_members c = Some ms → (nesting c - 1 ≤ n)%Z → (1 ≤ n)%Z →
  wf (mk_array (kept_tools f ms)) ∧ (nesting (mk_array (kept_tools f ms)) ≤ n)%Z.
Proof.
  intros Hw Ho Hn H1. assert (F : Forall (λ e, wf e ∧ (nesting e ≤ n - 1)%Z) (kept_tools f ms)).
  { unfold kept_tools. destruct (source_tree ms) as [v|] eqn:Es; [|constructor].
    destruct (source_in ms v Es) as (m & Hm & ->). destruct (member_value c ms m Hw Ho Hm) as [Hv Hnv].
    pose proof (array_nesting _ Hv) as F. rewrite Forall_forall in F |- *. intros e [_ He]%list_elem_of_filter. destruct (F e He). split; [done|]. lia. }
  split.
  - apply wf_mk_array. eapply List.Forall_impl; [|exact F]. by intros ? [].
  - pose proof (mk_array_nesting (kept_tools f ms) (n - 1) ltac:(lia)) as H. assert (nesting (mk_array (kept_tools f ms)) ≤ 1 + (n - 1))%Z; [|lia].
    apply H. eapply List.Forall_impl; [|exact F]. by intros ? [].
Qed.

Lemma mk_member_key kv : mb_key (mk_member kv) = coerce (bs kv.1).
Proof. apply jsonStringValue_Marshal. Qed.

Lemma mk_member_matches kv field : jsonNameMatches (mb_key (mk_member kv)) field = jsonNameMatches (bs kv.1) field.
Proof. by rewrite mk_member_key, matches_coerce. Qed.

Lemma private_tree : raw_tree private = Some (CString (bs "private")).
Proof. by vm_compute. Qed.

Lemma tools_not_scope k : jsonNameMatches (bs k) (bs "tools") = true → jsonNameMatches (bs k) (bs "cacheScope") = false.
Proof. intros H1. destruct (jsonNameMatches (bs k) (bs "cacheScope")) eqn:H2; [|done]. by pose proof (matches_det _ _ _ H1 H2). Qed.

Lemma final_values f c ms k b : wf c → object_members c = Some ms →
  final_map (map text (kept_tools f ms)) (raw_members ms ∅) !! k = Some b → value_bytes (1 `max` (nesting c - 1)) b.
Proof.
  intros Hw Ho [[_ ->]|[_ [[_ ->]|[_ Hk]]]]%final_lookup.
  - exists (CString (bs "private")). split; [done|]. split; [by constructor|]. cbn [nesting]. lia.
  - rewrite kept_list_text. eexists. split; [done|]. apply (kept_tools_ok f c ms _ Hw Ho); lia.
  - destruct (raw_members_in ms k b Hk) as (m & Hm & ->). destruct (member_value c ms m Hw Ho Hm). eexists. split; [done|]. split; [done|lia].
Qed.

Lemma narrow_unfold result s1 c s2 ms f : parse result = Some (s1, c, s2) → object_members c = Some ms →
  narrowToolsResult result f = Some (text <$> raw_map_tree (final_map (map text (kept_tools f ms)) (raw_members ms ∅))).
Proof.
  intros Hp Ho. pose proof (parse_spec _ _ _ _ Hp) as (_ & _ & Hw & _). pose proof (parse_depth _ _ _ _ Hp) as Hd.
  unfold narrowToolsResult, UnmarshalType. rewrite Hp. change (gdepth TRawMap) with 1. cbn [decode gzero].
  assert (En : is_null c = false) by (by destruct c). rewrite En, Ho, (tools_source_spec _ _ _ _ _ Hp Ho).
  assert (Hk : keep_entries f (decoder_slices (match source_tree ms with Some v => text v | None => [] end)) = Some (map text (kept_tools f ms))).
  { unfold kept_tools. destruct (source_tree ms) as [v|] eqn:Es; [|done]. destruct (source_in ms v Es) as (m & Hm & ->).
    destruct (member_value c ms m Hw Ho Hm) as [Hv Hn]. destruct (decoder_slices_spec (mb_value m) Hv) as [D1 D2]; [apply parse_text; [done|lia]|].
    by rewrite (keep_entries_spec f _ D2), D1. }
  by rewrite Hk.
Qed.

(** On an object the narrowing returns, and its answer reads as stated. *)
Lemma narrow_spec result s1 c s2 ms f : parse result = Some (s1, c, s2) → object_members c = Some ms →
  ∃ t, narrowToolsResult result f = Some (Some (text t)) ∧ wf t ∧ (nesting t ≤ 2 `max` nesting c)%Z ∧ narrowed f ms t.
Proof.
  intros Hp Ho. pose proof (parse_spec _ _ _ _ Hp) as (_ & _ & Hw & _). pose proof (parse_depth _ _ _ _ Hp) as Hd.
  rewrite (narrow_unfold _ _ _ _ _ f Hp Ho).
  destruct (raw_map_tree_spec (final_map (map text (kept_tools f ms)) (raw_members ms ∅)) (1 `max` (nesting c - 1))) as (kvs & -> & Hwt & Hnt & Hin);
    [intros k b; by apply final_values|lia|unfold maxNestingDepth in *; lia|].
  exists (mk_map kvs). split; [done|]. split; [done|]. split; [lia|].
  assert (Hlist : raw_tree (kept_list (map text (kept_tools f ms))) = Some (compact (mk_array (kept_tools f ms)))).
  { rewrite kept_list_text. destruct (kept_tools_ok f c ms (1 `max` (nesting c - 1)) Hw Ho ltac:(lia) ltac:(lia)). apply raw_tree_text; [done|]. unfold maxNestingDepth in *. lia. }
  exists (map mk_member kvs). split; [apply mk_map_members|]. split_and!.
  - exists (mk_member ("tools", compact (mk_array (kept_tools f ms)))). split; [|by rewrite mk_member_key].
    apply list_elem_of_fmap. eexists. split; [done|]. apply Hin. eexists. split; [apply final_tools|done].
  - intros m [Hm Hin']%list_elem_of_filter. apply list_elem_of_fmap in Hin' as ([k t] & -> & Hkt). rewrite mk_member_matches in Hm. cbn [fst] in Hm.
    apply Hin in Hkt as (b & Hb & Ht). apply final_lookup in Hb as [[Hc _]|[_ [[_ ->]|[Hf _]]]]; [by rewrite tools_not_scope in Hc| |congruence].
    change (mb_value (mk_member (k, t))) with t. congruence.
  - intros m [Hm Hin']%list_elem_of_filter. apply list_elem_of_fmap in Hin' as ([k t] & -> & Hkt). rewrite mk_member_matches in Hm. cbn [fst] in Hm.
    apply Hin in Hkt as (b & Hb & Ht). apply final_lookup in Hb as [[_ ->]|[Hc _]]; [|congruence]. rewrite private_tree in Ht.
    change (mb_value (mk_member (k, t))) with t. congruence.
  - intros m ([k t] & -> & Hkt)%list_elem_of_fmap. rewrite !mk_member_matches. cbn [fst]. apply Hin in Hkt as (b & Hb & Ht).
    apply final_lookup in Hb as [[Hc _]|[_ [[-> _]|[_ Hk]]]]; [by right; left|by left|right; right].
    destruct (raw_members_in ms k b Hk) as (m & Hm & ->). destruct (member_value c ms m Hw Ho Hm). rewrite raw_tree_text in Ht by (done || lia).
    exists m. split; [done|]. change (mb_value (mk_member (k, t))) with t. congruence.
Qed.

(** A result that is no object is not narrowed. *)
Lemma narrow_other result s1 c s2 f : parse result = Some (s1, c, s2) → object_members c = None → narrowToolsResult result f = Some None.
Proof.
  intros Hp Ho. unfold narrowToolsResult, UnmarshalType. rewrite Hp. change (gdepth TRawMap) with 1. cbn [decode gzero].
  rewrite Ho. by destruct (is_null c).
Qed.

(** ** What a client can read in a relayed entry *)

Lemma string_of_compact v : wf v → string_of (compact v) = string_of v.
Proof. destruct 1; try done. cbn [compact string_of]. by rewrite value_escape. Qed.

Lemma matching_compact field ms : Forall wf_member ms → matching field (map compact_member ms) = map compact_member (matching field ms).
Proof.
  induction 1 as [|m ms Hm _ IH]; [done|]. cbn [map]. rewrite !matching_cons, compact_key, IH by done. by destruct (jsonNameMatches _ _).
Qed.

(** Every name a reader can find in the entry is permitted. *)
Definition names_permitted (f : toolFilter) (e : cst) : Prop :=
  match object_members e with
  | Some ms => length (matching (bs "name") ms) ≤ 1 ∧ ∀ m, m ∈ matching (bs "name") ms → permits f (string_of (mb_value m)) = true
  | None => is_null e = true
  end.

Lemma entry_distinct : distinct_fields [("name", TString)].
Proof. apply tool_fields_distinct. Qed.

Lemma relayed_names f e : relayed f e = true → names_permitted f e.
Proof.
  unfold relayed, names_permitted. change (gdepth toolEntry_type) with 2. unfold toolEntry_type.
  change (gzero (TStruct [("name", TString)])) with (GStruct [GStr ""]). destruct (object_members e) as [ms|] eqn:Ho.
  - rewrite (decode_struct _ _ _ _ _ Ho).
    destruct (decode_members (decode 1) [("name", TString)] [GStr ""] (map (λ m, (mb_key m, mb_value m)) ms)) as [vs err] eqn:Ed.
    rewrite !andb_true_iff, Nat.leb_le. intros [[_ Hp] Hc]. split; [done|]. intros m Hm.
    destruct (string_field [("name", TString)] 0 [GStr ""] ms 0 "name" entry_distinct eq_refl eq_refl Hc) as (w & Hl & Hr).
    rewrite Ed in Hl. cbn [fst] in Hl. cbn [gfield] in Hp. rewrite Hl in Hp. by rewrite (proj1 Hr m Hm).
  - cbn [decode]. destruct (is_null e); [done|]. by rewrite Ho.
Qed.

Lemma names_compact f e : wf e → names_permitted f e → names_permitted f (compact e).
Proof.
  unfold names_permitted. intros Hw. rewrite compact_members. destruct (object_members e) as [ms|] eqn:Ho; cbn [fmap option_fmap option_map].
  - pose proof (object_members_wf e ms Hw Ho) as F. rewrite (matching_compact _ _ F), length_map. intros [Hc Hp]. split; [done|].
    intros m' (m & -> & Hm)%list_elem_of_fmap. change (mb_value (compact_member m)) with (compact (mb_value m)).
    rewrite string_of_compact; [by apply Hp|]. apply list_elem_of_filter in Hm as [_ Hm]. by apply (member_value e ms m Hw Ho).
  - by destruct e.
Qed.

(** Under any reading of the answer, the tools it lists are permitted. *)
Definition lists_only (f : toolFilter) (result : cst) : Prop := ∀ ms m,
  object_members result = Some ms → m ∈ matching (bs "tools") ms →
  is_Some (array_elements (mb_value m)) ∧ Forall (names_permitted f) (elements_of (mb_value m)).

Lemma kept_tools_names f c ms : wf c → object_members c = Some ms → Forall (λ e, wf e ∧ names_permitted f e) (kept_tools f ms).
Proof.
  intros Hw Ho. unfold kept_tools. destruct (source_tree ms) as [v|] eqn:Es; [|constructor]. destruct (source_in ms v Es) as (m & Hm & ->).
  destruct (member_value c ms m Hw Ho Hm) as [Hv _]. pose proof (array_nesting _ Hv) as F. rewrite Forall_forall in F |- *.
  intros e [Hr He]%list_elem_of_filter. split; [by apply F|by apply relayed_names].
Qed.

Lemma narrowed_lists f c ms t : wf c → object_members c = Some ms → narrowed f ms t → lists_only f t.
Proof.
  intros Hw Ho (tms & Ht & _ & Htools & _) ms' m Ho' Hm. simplify_eq. rewrite (Htools m Hm). split.
  - unfold mk_array. by destruct (kept_tools f ms).
  - rewrite elements_compact, elements_mk_array. apply List.Forall_map. eapply List.Forall_impl; [|exact (kept_tools_names f c ms Hw Ho)].
    intros e [? ?]. by apply names_compact.
Qed.

Lemma lists_compact f t : wf t → lists_only f t → lists_only f (compact t).
Proof.
  intros Hw Ht ms m Ho Hm. rewrite compact_members in Ho. apply fmap_Some in Ho as (ms' & Ho' & ->).
  pose proof (object_members_wf t ms' Hw Ho') as F. rewrite (matching_compact _ _ F) in Hm. apply list_elem_of_fmap in Hm as (m' & -> & Hm').
  destruct (Ht ms' m' Ho' Hm') as [Ha Hn]. apply list_elem_of_filter in Hm' as [_ Hin]. destruct (member_value t ms' m' Hw Ho' Hin) as [Hv _].
  change (mb_value (compact_member m')) with (compact (mb_value m')). split.
  - destruct (mb_value m') as [| |[]| |]; by destruct Ha.
  - rewrite elements_compact. apply List.Forall_map. pose proof (array_nesting _ Hv) as Fe. rewrite Forall_forall in Hn, Fe |- *.
    intros e He. apply names_compact; [by apply Fe|by apply Hn].
Qed.
