(* ===== verification/ToolRelay.v ===== *)
(** The three relays of the tool broker: internal/gateway/mcpbroker.go,
    relayMCP to relayMCPStream.

    What the caller receives is a [reply]; the outcome each relay returns for
    the audit record goes with it.  The caller leaving and its connection
    failing are answers of the environment; the write of an unterminated last
    line, whose error the code ignores, is taken to succeed.  Flushing is not
    modelled.

    The last part is what the streamed relay passes on. *)

From stdpp Require Import base list strings option gmap.
From Stdlib Require Import ZArith Lia Ascii.
From S2P Require Import Prelude GoFloat Auth Json JsonString JsonValue RequestBody JsonDecode JsonCompact ProblemList ToolMessage ToolRoute McpWire ToolList.

Definition errRequestTooLarge : string := "request_too_large".
Definition errResponseTooLarge : string := "response_too_large".
Definition errToolDenied : string := "tool_denied".
Definition errHeaderMismatch : string := "header_mismatch".
Definition errToolUnavailable : string := "tool_unavailable".
Definition errToolTimeout : string := "tool_timeout".
Definition outcomeClientClosed : string := "client_closed".
Definition statusClientClosedRequest : Z := 499.

(** What the caller is sent: nothing, the gateway's error envelope, a JSON-RPC
    error with 400, or an answer with its status, headers and body. *)
Inductive reply :=
  | NoReply
  | ErrorReply (e : error_response)
  | RPCErrorReply (body : bytes)
  | Answered (status : Z) (header : Header) (body : bytes).

Record relay_outcome := mk_outcome {
  respBytes : Z;
  ro_status : Z;
  ro_errType : string;
  ro_detail : string;
}.

Record upstream_response := mk_upstream_response {
  ur_Status : Z;
  ur_Header : Header;
  ur_Body : upstream_body;
}.

(** The environment of a relay: whether the caller has left when the read is
    over, when line [i] comes, and how many bytes of line [i] went out if its
    write failed; the text of a decoding error. *)
Record relay_env := mk_relay_env {
  left_after_read : bool;
  left_at_line : nat → bool;
  write_fails : nat → option nat;
  error_text : wire_error → string;
}.

Definition closed_outcome : relay_outcome := mk_outcome 0 statusClientClosedRequest outcomeClientClosed "".

Section relays.
Context {U : Unicode}.

Definition exceeds (max : nat) : string := "tool provider response exceeds " +:+ (str (print_nat max) +:+ " bytes").
Definition no_answer (provider : string) : string := "tool provider " +:+ (fmt_q provider +:+ " did not answer within the upstream timeout").
Definition read_failed (provider : string) : string := "reading the response from tool provider " +:+ (fmt_q provider +:+ " failed").

(** writeError and the outcome that goes with it; [detail] is what the caller
    is not told. *)
Definition relay_error (status : Z) (errType message provider : string) (retryable : bool) (detail : string) : reply * relay_outcome :=
  (ErrorReply (writeError status (mk_error errType message provider retryable) 0), mk_outcome 0 status errType (message +:+ detail)).

Definition relayMCPBuffered (e : relay_env) (resp : upstream_response) (max : nat) (provider : string) (header : Header) : reply * relay_outcome :=
  let '(body, err) := limited max (ur_Body resp) in
  if left_after_read e then (NoReply, closed_outcome)
  else if ub_Deadline (ur_Body resp) then relay_error 504 errToolTimeout (no_answer provider) provider true ""
  else
    match err with
    | Some text => relay_error 503 errToolUnavailable (read_failed provider) provider true (": " +:+ text)
    | None =>
        if (max <? length body)%nat then relay_error 413 errResponseTooLarge (exceeds max) provider false ""
        else
          let ct := Get (ur_Header resp) "Content-Type" in
          let header := if (ct =? "")%string then header else Set_ header "Content-Type" ct in
          (Answered (ur_Status resp) header body, mk_outcome (Z.of_nat (length body)) (ur_Status resp) "" "")
    end.

(** The encoding of a filtered answer; [None] is a panic, [Some None] a
    failure of json.Marshal. *)
Definition filtered_answer (parsed : Response) (raw : bytes) (f : toolFilter) : option (option bytes) :=
  if bool_decide (allow f = None) && negb (mayCarryCacheScope raw) then Some (Some raw)
  else
    match rsp_Result parsed with
    | [] => Some (MarshalResponse parsed)
    | result =>
        match narrowToolsResult result f with
        | None => None
        | Some (Some narrowed) => Some (MarshalResponse (mk_rpc_response (rsp_JSONRPC parsed) (rsp_ID parsed) narrowed (rsp_Error parsed)))
        | Some None => Some (MarshalResponse parsed)
        end
    end.

Definition relayFilteredToolsList (e : relay_env) (resp : upstream_response) (max : nat) (msg : mcpRequest) (f : toolFilter) (provider : string)
    (header : Header) : option (reply * relay_outcome) :=
  let parsed := ParseResponseRaw (Get (ur_Header resp) "Content-Type") max (ur_Body resp) (msg_ID msg) in
  if left_after_read e then Some (NoReply, closed_outcome)
  else
    match parsed with
    | inr err =>
        if limit_reached max (ur_Body resp) then Some (relay_error 413 errResponseTooLarge (exceeds max) provider false "")
        else if ub_Deadline (ur_Body resp) then Some (relay_error 504 errToolTimeout (no_answer provider) provider true "")
        else
          match ub_Err (ur_Body resp) with
          | Some text => Some (relay_error 503 errToolUnavailable (read_failed provider) provider true (": " +:+ text))
          | None => Some (relay_error 503 errToolUnavailable "tool provider returned an unparseable tools/list response" provider false
                            (": " +:+ error_text e err))
          end
    | inl (parsed, raw) =>
        match filtered_answer parsed raw f with
        | None => None
        | Some None => Some (relay_error 500 errInternalUnavailable "re-encoding tools/list response" provider true (": " +:+ error_text e ErrSyntax))
        | Some (Some encoded) =>
            Some (Answered 200 (Set_ header "Content-Type" "application/json") encoded, mk_outcome (Z.of_nat (length encoded)) 200 "" "")
        end
    end.

(** *** The stream *)

(** How the loop over the lines ends: what was written, and the unterminated
    line held back. *)
Inductive line_end :=
  | LinesDone (written : bytes) (tail : option bytes)
  | OverCap (written : bytes)
  | CallerGone (written : bytes).

Fixpoint relay_lines (e : relay_env) (max i consumed : nat) (written : bytes) (tail : option bytes) (lines : list (bytes * bool)) : line_end :=
  match lines with
  | [] => LinesDone written tail
  | (raw, terminated) :: lines =>
      let consumed := consumed + length (line_bytes (raw, terminated)) in
      if left_at_line e i then CallerGone written
      else if (max <? consumed)%nat then OverCap written
      else if negb terminated then relay_lines e max (S i) consumed written (Some (dropCR raw)) lines
      else
        let line := dropCR raw ++ [newline] in
        match write_fails e i with
        | Some n => CallerGone (written ++ take n line)
        | None => relay_lines e max (S i) consumed (written ++ line) tail lines
        end
  end.

(** The held line, written when the stream ended cleanly. *)
Definition held_line (tail : option bytes) : bytes := match tail with Some t => t ++ [newline] | None => [] end.

(** The event endWithError writes. *)
Definition error_event (id : bytes) (message errType : string) : bytes :=
  newline :: bs "data: " ++ jsonrpcError id CodeInternalError message (text (mk_map [("type", string_tree errType)])) ++ [newline; newline].

Definition relayMCPStream (e : relay_env) (resp : upstream_response) (max : nat) (id : bytes) (provider : string) (header : Header)
    : reply * relay_outcome :=
  let header := Set_ header "Content-Type" (Get (ur_Header resp) "Content-Type") in
  let '(b, err) := limited max (ur_Body resp) in
  let answer written extra errType detail :=
    (Answered (ur_Status resp) header (written ++ extra), mk_outcome (Z.of_nat (length written)) (ur_Status resp) errType detail) in
  let fails written message errType detail := answer written (error_event id message errType) errType (message +:+ detail) in
  let over written := fails written (exceeds max +:+ "; the stream is truncated") errResponseTooLarge "" in
  if too_long max b then over []
  else
    match relay_lines e max 0 0 [] None (ScanLines b) with
    | CallerGone written => answer written [] outcomeClientClosed ""
    | OverCap written => over written
    | LinesDone written tail =>
        if negb (left_after_read e) && ub_Deadline (ur_Body resp) then
          fails written ("tool provider " +:+ (fmt_q provider +:+ " did not finish the stream within the upstream timeout; the stream is truncated"))
            errToolTimeout ""
        else if left_after_read e then answer written [] outcomeClientClosed ""
        else
          match err with
          | None => answer (written ++ held_line tail) [] "" ""
          | Some text =>
              fails written ("reading the stream from tool provider " +:+ (fmt_q provider +:+ " failed; the stream is truncated"))
                errToolUnavailable (": " +:+ text)
          end
    end.

Definition relayMCP (e : relay_env) (resp : upstream_response) (max : nat) (msg : mcpRequest) (f : toolFilter) (provider : string)
    (header : Header) : option (reply * relay_outcome) :=
  if (Method msg =? "tools/list")%string && (ur_Status resp <? 300)%Z then relayFilteredToolsList e resp max msg f provider header
  else if HasPrefix (Get (ur_Header resp) "Content-Type") "text/event-stream" then Some (relayMCPStream e resp max (msg_ID msg) provider header)
  else Some (relayMCPBuffered e resp max provider header).
End relays.

(** The relay of an event stream: what goes out is whole lines of the
    upstream, within the limit, and an error event when it is cut. *)


(** A relayed line. *)
Definition out_line (l : bytes * bool) : bytes := dropCR l.1 ++ [newline].
Definition outs (lines : list (bytes * bool)) : bytes := concat (map out_line lines).
Definition total (lines : list (bytes * bool)) : nat := length (concat (map line_bytes lines)).

Definition terminated (l : bytes * bool) : Prop := l.2 = true.
Definition last_piece (rest : list (bytes * bool)) : Prop := rest = [] ∨ ∃ x, rest = [(x, false)].

(** Only the last line can lack its end. *)
Lemma raw_lines_shape cur b : ∃ full rest, raw_lines cur b = full ++ rest ∧ Forall terminated full ∧ last_piece rest.
Proof.
  revert cur. induction b as [|c b IH]; intros cur; cbn [raw_lines].
  - destruct cur as [|d cur]; [exists [], []|exists [], [(rev (d :: cur), false)]]; (split; [done|]; split; [constructor|]); [by left|right; by eexists].
  - destruct (Ascii.eqb c newline); [|apply IH]. destruct (IH []) as (full & rest & -> & Hf & Hr).
    exists ((rev cur, true) :: full), rest. split; [done|]. by split; [constructor|].
Qed.

Lemma outs_cons l lines : outs (l :: lines) = out_line l ++ outs lines.
Proof. done. Qed.

Lemma outs_app l l' : outs (l ++ l') = outs l ++ outs l'.
Proof. unfold outs. by rewrite map_app, concat_app. Qed.

Lemma total_cons l lines : total (l :: lines) = length (line_bytes l) + total lines.
Proof. unfold total. cbn [map concat]. by rewrite length_app. Qed.

Lemma length_dropCR l : length (dropCR l) ≤ length l.
Proof.
  unfold dropCR. destruct (last l) as [c|]; [|lia]. destruct (Ascii.eqb c "013"); [|lia]. destruct l as [|x l] using rev_ind; [done|].
  rewrite removelast_last, length_app. simpl. lia.
Qed.

Lemma length_out_line l : length (out_line l) ≤ S (length l.1) ∧ (terminated l → length (out_line l) ≤ length (line_bytes l)).
Proof.
  unfold out_line, line_bytes, terminated. rewrite !length_app. pose proof (length_dropCR l.1). simpl. split; [lia|]. intros ->. simpl. lia.
Qed.

(** Nothing of the environment interrupts the relay. *)
Definition undisturbed (e : relay_env) : Prop := (∀ i, left_at_line e i = false) ∧ (∀ i, write_fails e i = None) ∧ left_after_read e = false.

Definition tail_of (rest : list (bytes * bool)) : option bytes := match rest with (x, _) :: _ => Some (dropCR x) | [] => None end.

Lemma relay_lines_spec e max full rest i consumed written : Forall terminated full → last_piece rest → length written ≤ consumed → consumed ≤ max →
  match relay_lines e max i consumed written None (full ++ rest) with
  | LinesDone w t => w = written ++ outs full ∧ t = tail_of rest ∧ consumed + total (full ++ rest) ≤ max ∧ length w ≤ max
  | OverCap w => (∃ n, w = written ++ outs (take n full)) ∧ max < consumed + total (full ++ rest) ∧ length w ≤ max
  | CallerGone w => (∃ n part, w = written ++ outs (take n full) ++ part) ∧ length w ≤ max ∧ ¬ undisturbed e
  end.
Proof.
  intros Hf Hr. revert i consumed written. induction Hf as [|[x tm] full Ht _ IH]; intros i consumed written Hw Hc.
  - destruct Hr as [->|[x ->]]; cbn [app relay_lines].
    + unfold total. simpl. rewrite List.app_nil_r. split_and!; (done || lia).
    + rewrite total_cons. change (total []) with 0. destruct (left_at_line e i) eqn:El.
      { split; [exists 0, []; by rewrite !List.app_nil_r|]. split; [lia|]. intros (Hu & _). by rewrite Hu in El. }
      destruct (Nat.ltb_spec max (consumed + length (line_bytes (x, false)))).
      { split; [exists 0; simpl; by rewrite List.app_nil_r|]. lia. }
      cbn [negb]. simpl. rewrite List.app_nil_r. split_and!; (done || lia).
  - unfold terminated in Ht. cbn [snd] in Ht. subst tm. cbn [app relay_lines]. rewrite total_cons. destruct (length_out_line (x, true)) as [_ Ho]. specialize (Ho eq_refl).
    destruct (left_at_line e i) eqn:El.
    { split; [exists 0, []; by rewrite !List.app_nil_r|]. split; [lia|]. intros (Hu & _). by rewrite Hu in El. }
    destruct (Nat.ltb_spec max (consumed + length (line_bytes (x, true)))).
    { split; [exists 0; simpl; by rewrite List.app_nil_r|]. lia. }
    cbn [negb]. change (dropCR x ++ [newline]) with (out_line (x, true)). destruct (write_fails e i) as [n|] eqn:Ew.
    { split; [exists 0, (take n (out_line (x, true))); done|]. split; [rewrite length_app, length_take; lia|]. intros (_ & Hu & _). by rewrite Hu in Ew. }
    specialize (IH (S i) (consumed + length (line_bytes (x, true))) (written ++ out_line (x, true)) ltac:(rewrite length_app; lia) ltac:(lia)).
    destruct (relay_lines _ _ _ _ _ _ _) as [w t|w|w].
    + rewrite outs_cons, List.app_assoc. destruct IH as (-> & -> & ? & ?). split_and!; (done || lia).
    + destruct IH as ([n ->] & ? & ?). split; [exists (S n); cbn [take]; by rewrite outs_cons, List.app_assoc|]. lia.
    + destruct IH as ((n & part & ->) & ? & ?). split; [exists (S n), part; cbn [take]; by rewrite outs_cons, !List.app_assoc|]. done.
Qed.

Lemma too_long_length max b : too_long max b = true → max < length b.
Proof. unfold too_long. rewrite !andb_true_iff, Nat.ltb_lt. tauto. Qed.

Lemma outs_tail rest : last_piece rest → outs rest = held_line (tail_of rest).
Proof. intros [->|[x ->]]; [done|]. unfold outs. simpl. by rewrite List.app_nil_r. Qed.

(** The outcome types of a stream that was cut. *)
Definition cut_types : list string := [errResponseTooLarge; errToolTimeout; errToolUnavailable].

Lemma take_full {A} n (full rest : list A) : ∃ n', take n full = take n' (full ++ rest).
Proof. exists (n `min` length full). rewrite take_app_le by lia. destruct (Nat.le_ge_cases n (length full)); [by rewrite Nat.min_l|]. by rewrite Nat.min_r, !take_ge by lia. Qed.

Lemma limited_within max ub b err : limited max ub = (b, err) → length b ≤ max → b = ub_Bytes ub ∧ err = ub_Err ub ∧ length (ub_Bytes ub) ≤ max.
Proof. unfold limited. destruct (Nat.ltb_spec max (length (ub_Bytes ub))); intros [= <- <-]; rewrite ?length_take; intros; split_and?; (done || lia). Qed.

Lemma limited_over max ub b err : limited max ub = (b, err) → max < length b → max < length (ub_Bytes ub).
Proof. unfold limited. destruct (Nat.ltb_spec max (length (ub_Bytes ub))); intros [= <- <-]; rewrite ?length_take; lia. Qed.

(** The answer of a relay that wrote [relayed] lines, a [part] and [extra]. *)
Definition relayed_as (e : relay_env) (resp : upstream_response) (max : nat) (id b : bytes) (r : reply) (o : relay_outcome) : Prop :=
  ∃ hd n part extra, r = Answered (ur_Status resp) hd (outs (take n (ScanLines b)) ++ part ++ extra) ∧
    respBytes o = Z.of_nat (length (outs (take n (ScanLines b)) ++ part)) ∧ length (outs (take n (ScanLines b)) ++ part) ≤ S max ∧
    (part ≠ [] → ro_errType o = outcomeClientClosed) ∧
    (ro_errType o ∈ cut_types → ∃ message, extra = error_event id message (ro_errType o)) ∧
    (ro_errType o ∉ cut_types → extra = []) ∧
    (ro_errType o = "" → length (ub_Bytes (ur_Body resp)) ≤ max ∧ ub_Err (ur_Body resp) = None ∧ ub_Deadline (ur_Body resp) = false ∧
       take n (ScanLines b) = ScanLines (ub_Bytes (ur_Body resp))) ∧
    (length (ub_Bytes (ur_Body resp)) ≤ max → ub_Err (ur_Body resp) = None → ub_Deadline (ur_Body resp) = false → undisturbed e → ro_errType o = "").

(** An answer that ends early: with an event of a cut, or for the caller. *)
Lemma relayed_cut e resp max id b hd n message errType detail : errType ∈ cut_types → length (outs (take n (ScanLines b))) ≤ max →
  (length (ub_Bytes (ur_Body resp)) ≤ max → ub_Err (ur_Body resp) = None → ub_Deadline (ur_Body resp) = false → undisturbed e → False) →
  relayed_as e resp max id b (Answered (ur_Status resp) hd (outs (take n (ScanLines b)) ++ error_event id message errType))
    (mk_outcome (Z.of_nat (length (outs (take n (ScanLines b))))) (ur_Status resp) errType detail).
Proof.
  intros Ht Hl Hno. exists hd, n, [], (error_event id message errType). cbn [app ro_errType respBytes]. rewrite !List.app_nil_r.
  split_and!; try done; [lia|by eexists| |].
  - intros ->. exfalso. revert Ht. by apply (bool_decide_unpack (¬ _)).
  - intros. by exfalso; apply Hno.
Qed.

Lemma relayed_gone e resp max id b hd n part detail : length (outs (take n (ScanLines b)) ++ part) ≤ max → ¬ undisturbed e →
  relayed_as e resp max id b (Answered (ur_Status resp) hd ((outs (take n (ScanLines b)) ++ part) ++ []))
    (mk_outcome (Z.of_nat (length (outs (take n (ScanLines b)) ++ part))) (ur_Status resp) outcomeClientClosed detail).
Proof.
  intros Hl Hno. exists hd, n, part, []. cbn [ro_errType respBytes]. rewrite <- List.app_assoc. split_and!; try done; [lia|].
  intros Hin. exfalso. revert Hin. by apply (bool_decide_unpack (¬ _)).
Qed.

Lemma stream_relayed `{Unicode} e resp max id provider h r o : relayMCPStream e resp max id provider h = (r, o) →
  relayed_as e resp max id (limited max (ur_Body resp)).1 r o.
Proof.
  unfold relayMCPStream. destruct (limited max (ur_Body resp)) as [b err] eqn:Elim. cbn [fst]. cbv zeta beta. destruct (too_long max b) eqn:Elong.
  { intros [= <- <-]. apply too_long_length in Elong. pose proof (limited_over _ _ _ _ Elim Elong).
    apply (relayed_cut e resp max id b _ 0); [by apply (bool_decide_unpack _); vm_compute|simpl; lia|lia]. }
  destruct (raw_lines_shape [] b) as (full & rest & Hsh & Hf & Hr). change (raw_lines [] b) with (ScanLines b) in Hsh.
  pose proof (relay_lines_spec e max full rest 0 0 [] Hf Hr ltac:(simpl; lia) ltac:(lia)) as Hspec. rewrite <- Hsh in Hspec.
  assert (Htot : total (ScanLines b) = length b) by (unfold total; by rewrite ScanLines_concat). rewrite Htot in Hspec.
  destruct (relay_lines e max 0 0 [] None (ScanLines b)) as [w t|w|w].
  - destruct Hspec as (-> & -> & Hb & Hlen). cbn [app] in *. destruct (limited_within _ _ _ _ Elim ltac:(lia)) as (-> & -> & Hle).
    assert (Efull : outs full = outs (take (length full) (ScanLines (ub_Bytes (ur_Body resp))))) by (by rewrite Hsh, take_app_length).
    destruct (left_after_read e) eqn:Eleft; cbn [negb andb].
    { intros [= <- <-]. pose proof (relayed_gone e resp max id (ub_Bytes (ur_Body resp)) (Set_ h "Content-Type" (Get (ur_Header resp) "Content-Type")) (length full) [] "") as G.
      rewrite <- Efull, !List.app_nil_r in G. rewrite List.app_nil_r. apply G; [done|]. intros (_ & _ & ?). congruence. }
    destruct (ub_Deadline (ur_Body resp)) eqn:Edl.
    { intros [= <- <-]. rewrite Efull. apply relayed_cut; [by apply (bool_decide_unpack _); vm_compute|by rewrite <- Efull|congruence]. }
    destruct (ub_Err (ur_Body resp)) as [text|] eqn:Eerr.
    { intros [= <- <-]. rewrite Efull. apply relayed_cut; [by apply (bool_decide_unpack _); vm_compute|by rewrite <- Efull|congruence]. }
    rewrite <- (outs_tail rest Hr), <- outs_app, <- Hsh. intros [= <- <-]. eexists _, (length (ScanLines (ub_Bytes (ur_Body resp)))), [], [].
    rewrite !take_ge by lia. cbn [app ro_errType respBytes]. rewrite !List.app_nil_r. split_and!; try done.
    + rewrite Hsh, outs_app, length_app. rewrite Hsh in Htot. assert (length (outs rest) ≤ S (total rest)).
      { destruct Hr as [->|[x ->]]; [simpl; lia|]. rewrite outs_cons, total_cons, length_app. pose proof (proj1 (length_out_line (x, false))) as Hx.
        unfold line_bytes. cbn [fst snd] in *. rewrite length_app. change (length (outs [])) with 0. lia. }
      assert (length (outs full) ≤ total full).
      { clear -Hf. induction Hf as [|l full Hl _ IH]; [done|]. rewrite outs_cons, total_cons, length_app. pose proof (proj2 (length_out_line l) Hl). lia. }
      assert (total (full ++ rest) = total full + total rest) by (unfold total; by rewrite map_app, concat_app, length_app). lia.
    + intros Hin. exfalso. revert Hin. by apply (bool_decide_unpack (¬ _)).
  - destruct Hspec as ([n ->] & Hb & Hlen). cbn [app] in *. destruct (take_full n full rest) as [n' En]. rewrite <- Hsh in En. rewrite En in *.
    intros [= <- <-]. pose proof (limited_over _ _ _ _ Elim ltac:(lia)). apply relayed_cut; [by apply (bool_decide_unpack _); vm_compute|done|lia].
  - destruct Hspec as ((n & part & ->) & Hlen & Hu). cbn [app] in *. destruct (take_full n full rest) as [n' En]. rewrite <- Hsh in En. rewrite En in *.
    intros [= <- <-]. by apply relayed_gone.
Qed.

(** What relayMCPStream sends is whole lines of the upstream's stream in
    their order (a line of which only a part went out is the last thing the
    caller got before its connection failed), at most one byte more than the
    limit; a stream cut for its size, at the deadline or by a failed read ends
    with one JSON-RPC error event of that type; and the relay reports success
    exactly when the stream was within the limit, ended in time and without an
    error and nothing disturbed the caller, and then the caller got all of
    it. *)
Theorem stream_relays_whole_lines `{Unicode} e resp max id provider h r o : relayMCPStream e resp max id provider h = (r, o) →
  relayed_as e resp max id (limited max (ur_Body resp)).1 r o.
Proof. apply stream_relayed. Qed.
