(* ===== verification/BudgetReducer.v ===== *)
(** The controller's budget reducer: internal/controller/modelprovider_budget.go
    and modelprovider_agentspend.go.

    One reconcile pass reads the ConfigMap the gateway replicas publish to,
    retires the keys of replicas that are gone, archives the previous period,
    writes the totals back and derives the provider's status.  A pass is a
    function of the clock, the live gateway Pods, the API server's answers
    and the status and gauge it starts from.  encoding/json on the archive
    struct is the class [ArchiveJson], on string maps [JsonMap].

    The second half is what a pass keeps: no spend is lost, the archive and the
    status say what was published. *)

From stdpp Require Import base gmap sets list strings option fin_maps sorting.
From Stdlib Require Import ZArith Lia Ascii.
From S2P Require Import Prelude GoFloat GoTime Api BudgetPeriod BudgetWire BudgetLedger.

(** ** Data *)

Record ConfigMap := mk_cm {
  cm_Labels : gmap string string;
  cm_Data : gmap string string;
}.

Definition set_data (cm : ConfigMap) (d : gmap string string) : ConfigMap := mk_cm (cm_Labels cm) d.

Definition ensureSpendLabel (cm : ConfigMap) (value : string) : ConfigMap * bool :=
  if bool_decide (cm_Labels cm !! SpendConfigMapLabel = Some value) then (cm, false)
  else (mk_cm (<[SpendConfigMapLabel := value]> (cm_Labels cm)) (cm_Data cm), true).

Record stalePartial := mk_stale {
  sp_period : string;
  sp_spend : gmap string f64;
}.

Record budgetFold := mk_fold {
  f_current : gmap string f64;
  f_retired : gmap string f64;
  f_stale : gmap string stalePartial;
  f_changed : bool;
  f_retiredChanged : bool;
  f_marginRaised : bool;
}.

Record budgetArchive := mk_archive {
  ba_Period : string;
  ba_ArchivedIn : string;
  ba_ProviderUID : string;
  ba_Sources : gmap string (gmap string string);
}.

(** The struct codec: [Sources] decodes to [None] when the member is missing
    or null. *)
Class ArchiveJson := {
  archive_marshal : budgetArchive → string;
  archive_unmarshal : string → option (string * string * string * option (gmap string (gmap string string)));
  archive_roundtrip : ∀ a,
    is_ascii (ba_Period a) = true → is_ascii (ba_ArchivedIn a) = true → is_ascii (ba_ProviderUID a) = true →
    map_Forall (λ k m, is_ascii k = true ∧ ascii_map m) (ba_Sources a) →
    archive_unmarshal (archive_marshal a)
    = Some (ba_Period a, ba_ArchivedIn a, ba_ProviderUID a, Some (ba_Sources a));
}.

Record budgetUsage := mk_budget_usage {
  bu_Namespace : string;
  bu_Period : string;
  bu_SpentUSD : string;
  bu_PercentUsed : Z;
  bu_State : string;
}.

(** The status fields the reducer owns; the BoundaryMarginRaised condition is
    absent, True or False. *)
Record providerStatus := mk_status {
  BudgetUsage : list budgetUsage;
  ClusterSpentUSD : string;
  MarginRaised : option bool;
}.

(** kaalm_provider_budget_canonical_usd: provider, namespace and period. *)
Abbreviation gauge := (gmap (string * string * string) f64).

(** [int32(f)] on amd64. *)
Definition int32_of_f64 (x : f64) : Z :=
  let z := int64_of_f64 x in
  if ((- 2 ^ 31 <=? z) && (z <? 2 ^ 31))%Z then z else (- 2 ^ 31)%Z.

Section reducer.
Context {MR : MapRange} {JM : JsonMap} {AJ : ArchiveJson}.

(** ** Folding the keys *)

Definition foreign (p : parsed) (providerUID : string) : bool :=
  negb (pp_providerUID p =? "")%string && negb (pp_providerUID p =? providerUID)%string.

(** One key of the pass; the ConfigMap's data is updated in place. *)
Definition fold_budget_key (live : gset string) (currentPeriod providerUID : string)
    (acc : gmap string string * budgetFold) (kv : string * string) : gmap string string * budgetFold :=
  let '(data, f) := acc in
  let '(k, raw) := kv in
  if ((k =? CanonicalKey) || (k =? PreviousKey))%string then acc
  else
    let parse := ParseBudgetPartial raw in
    let drop f := (delete k data, mk_fold (f_current f) (f_retired f) (f_stale f) true (f_retiredChanged f) (f_marginRaised f)) in
    let archive f p := mk_fold (f_current f) (f_retired f)
      (<[k := mk_stale (pp_period p) (pp_spend p)]> (f_stale f)) (f_changed f) (f_retiredChanged f) (f_marginRaised f) in
    let retire f p rc := mk_fold (f_current f) (sum_into (f_retired f) (pp_spend p)) (f_stale f)
      (f_changed f) rc (f_marginRaised f) in
    if match parse with Some p => foreign p providerUID | None => false end then drop f
    else if (k =? RetiredKey)%string then
      match parse with
      | None => acc
      | Some p =>
          if (pp_period p =? currentPeriod)%string then (data, retire f p (f_retiredChanged f))
          else drop (archive f p)
      end
    else if negb (bool_decide (k ∈ live)) then
      match parse with
      | None => drop f
      | Some p =>
          if (pp_period p =? currentPeriod)%string then drop (retire f p true) else drop (archive f p)
      end
    else
      match parse with
      | None => acc
      | Some p =>
          if (pp_period p =? currentPeriod)%string then
            (data, mk_fold (sum_into (f_current f) (pp_spend p)) (f_retired f) (f_stale f) (f_changed f)
                     (f_retiredChanged f) (f_marginRaised f || pp_marginExceeded p))
          else drop (archive f p)
      end.

Definition foldBudgetKeys (cm : ConfigMap) (live : gset string) (currentPeriod providerUID : string)
  : ConfigMap * budgetFold :=
  let '(data, f) := foldl (fold_budget_key live currentPeriod providerUID)
                      (cm_Data cm, mk_fold ∅ ∅ ∅ false false false) (range (cm_Data cm)) in
  (set_data cm data, f).

(** ** The archive *)

Definition parseBudgetArchive (raw : string) : option budgetArchive :=
  if (raw =? "")%string then None
  else match archive_unmarshal raw with
       | Some (period, archivedIn, uid, Some sources) =>
           if (period =? "")%string then None else Some (mk_archive period archivedIn uid sources)
       | _ => None
       end.

Definition total_source (out : gmap string f64) (kv : string * gmap string string) : gmap string f64 :=
  foldl (λ out nv, match ParseFloat nv.2 with Some f => add_at out nv.1 f | None => out end) out (range kv.2).

Definition totals (a : budgetArchive) : gmap string f64 := foldl total_source ∅ (range (ba_Sources a)).

Definition newest_of (newest : string) (kv : string * stalePartial) : string :=
  if String.ltb newest (sp_period kv.2) then sp_period kv.2 else newest.

(** One namespace of one stale source: a figure that is not larger than the
    archived one leaves it. *)
Definition merge_amount (acc : gmap string string * bool) (nv : string * f64) : gmap string string * bool :=
  let '(dst, changed) := acc in
  let '(ns, v) := nv in
  match dst !! ns ≫= ParseFloat with
  | Some old => if (v <=? old)%f64 then acc else (<[ns := FormatFloat2 v]> dst, true)
  | None => (<[ns := FormatFloat2 v]> dst, true)
  end.

Definition merge_source (period : string) (acc : gmap string (gmap string string) * bool)
    (kv : string * stalePartial) : gmap string (gmap string string) * bool :=
  let '(sources, changed) := acc in
  let '(source, sp) := kv in
  if negb (sp_period sp =? period)%string then acc
  else
    let '(dst, changed) := foldl merge_amount (default ∅ (sources !! source), changed) (range (sp_spend sp)) in
    (<[source := dst]> sources, changed).

(** The archive to merge into: the stored one while it was made in this period
    for this provider, replaced when this pass deleted a newer period. *)
Definition archive_base (stored : option budgetArchive) (newest currentPeriod providerUID : string)
  : option budgetArchive * bool :=
  let '(archive, changed) :=
    match stored with
    | Some a =>
        if negb (ba_ArchivedIn a =? currentPeriod)%string
           || (negb (ba_ProviderUID a =? "") && negb (ba_ProviderUID a =? providerUID))%string
        then (None, true) else (Some a, false)
    | None => (None, false)
    end in
  if negb (newest =? "")%string
     && match archive with None => true | Some a => String.ltb (ba_Period a) newest end
  then (Some (mk_archive newest currentPeriod providerUID ∅), true) else (archive, changed).

Definition mergeBudgetArchive (stored : option budgetArchive) (stale : gmap string stalePartial)
    (currentPeriod providerUID : string) : option budgetArchive * bool :=
  let newest := foldl newest_of "" (range stale) in
  let '(archive, changed) := archive_base stored newest currentPeriod providerUID in
  match archive with
  | None => (None, changed)
  | Some a =>
      let '(sources, changed) := foldl (merge_source (ba_Period a)) (ba_Sources a, changed) (range stale) in
      (Some (mk_archive (ba_Period a) (ba_ArchivedIn a) (ba_ProviderUID a) sources), changed)
  end.

(** ** Status *)

Definition string_le (a b : string) : Prop := String.leb a b = true.
#[local] Instance string_le_dec a b : Decision (string_le a b) := decide (String.leb a b = true).

(** [sort.Strings]. *)
Definition sort_strings (l : list string) : list string := merge_sort string_le l.

Definition usage_state (budget : ModelProviderBudget) (percent : f64) : string :=
  match BudgetPolicyAt budget percent with
  | Some p =>
      if (pol_Action p =? BudgetActionBlock)%string then BudgetStateBlocked
      else if (pol_Action p =? BudgetActionDegrade)%string then BudgetStateThrottled
      else BudgetStateNormal
  | None => BudgetStateNormal
  end.

Definition sum_all (m : gmap string f64) : f64 := foldl (λ t kv, (t + kv.2)%f64) f64_zero (range m).

Definition usage_entry (mp : ModelProvider) (period : string) (spend : gmap string f64) (clusterSpent : f64)
    (ns : string) : budgetUsage :=
  let percent := BudgetUtilization (Budget (Spec mp)) (get0 spend ns) clusterSpent in
  mk_budget_usage ns period (FormatFloat2 (get0 spend ns)) (int32_of_f64 percent)
    (usage_state (Budget (Spec mp)) percent).

Definition budgetUsageEntries (mp : ModelProvider) (spend : gmap string f64) (period : string) : list budgetUsage :=
  let clusterSpent := sum_all spend in
  map (usage_entry mp period spend clusterSpent) (sort_strings (range spend).*1).

Definition set_state (u : budgetUsage) (s : string) : budgetUsage :=
  mk_budget_usage (bu_Namespace u) (bu_Period u) (bu_SpentUSD u) (bu_PercentUsed u) s.

Definition previousUsageEntries (mp : ModelProvider) (spend : gmap string f64) (period : string) : list budgetUsage :=
  map (λ u, set_state u BudgetStateNormal) (budgetUsageEntries mp spend period).

(** The condition and whether a Warning event is due. *)
Definition setBoundaryMargin (c : option bool) (raised : bool) : option bool * bool :=
  if raised then (Some true, negb (bool_decide (c = Some true)))
  else (match c with Some _ => Some false | None => None end, false).

Definition dropBudgetCanonical (g : gauge) (provider : string) : gauge :=
  filter (λ kv, kv.1.1.1 ≠ provider) g.

Definition setBudgetCanonical (g : gauge) (provider period : string) (spend : gmap string f64) : gauge :=
  let g := foldl (λ g kv, <[(provider, kv.1, period) := kv.2]> g) g (range spend) in
  filter (λ kv, kv.1.1.1 ≠ provider ∨ (kv.1.2 = period ∧ is_Some (spend !! kv.1.1.2))) g.

Definition clearBudgetStatus (g : gauge) (mp : ModelProvider) : providerStatus * gauge :=
  (mk_status [] "" None, dropBudgetCanonical g (Name mp)).

(** [budgetRequeue] on the result's delay. *)
Definition budgetRequeue (mp : ModelProvider) (now : Time) (requeueAfter : Duration) : Duration :=
  if negb (requeueAfter =? 0)%Z || (PeriodKey (Period (Budget (Spec mp))) now =? "")%string
  then requeueAfter else Minute.

(** ** The pass *)

Inductive get_result := GetNotFound | GetError | GetFound (cm : ConfigMap).

(** What a pass leaves behind: the status, the gauge, the ConfigMap it tried
    to write, whether a Warning is due, and whether it returned an error. *)
Record pass_result := mk_pass {
  pr_status : providerStatus;
  pr_gauge : gauge;
  pr_written : option ConfigMap;
  pr_event : bool;
  pr_error : bool;
}.

(** The _retired and _canonical writes of both reducers. *)
Definition write_retired (data : gmap string string) (currentPeriod uid : string) (retired : gmap string f64)
  : gmap string string :=
  <[RetiredKey := MarshalJSON (RetiredPartial currentPeriod retired uid)]> data.

Definition write_canonical (data : gmap string string) (current : gmap string f64) : gmap string string * bool :=
  let raw := json_marshal (format_all current) in
  if (default "" (data !! CanonicalKey) =? raw)%string then (data, false)
  else (<[CanonicalKey := raw]> data, true).

Definition write_archive (data : gmap string string) (stale : gmap string stalePartial) (currentPeriod uid : string)
  : gmap string string * option budgetArchive * bool :=
  let hadArchive := bool_decide (is_Some (data !! PreviousKey)) in
  let stored := parseBudgetArchive (default "" (data !! PreviousKey)) in
  let '(archive, archiveChanged) := mergeBudgetArchive stored stale currentPeriod uid in
  if archiveChanged || (hadArchive && match stored with None => true | Some _ => false end) then
    (match archive with
     | None => delete PreviousKey data
     | Some a => <[PreviousKey := archive_marshal a]> data
     end, archive, true)
  else (data, archive, false).

Definition reconcileBudget (now : Time) (mp : ModelProvider) (live : gset string) (get : get_result)
    (updateOK : bool) (st : providerStatus) (g : gauge) : pass_result :=
  let currentPeriod := PeriodKey (Period (Budget (Spec mp))) now in
  let '(cleared, g0) := clearBudgetStatus g mp in
  if (currentPeriod =? "")%string then mk_pass cleared g0 None false false
  else
    match get with
    | GetNotFound => mk_pass cleared g0 None false false
    | GetError => mk_pass st g None false true
    | GetFound cm =>
        let '(cm, labeled) := ensureSpendLabel cm SpendLabelBudget in
        let '(cm, f) := foldBudgetKeys cm live currentPeriod (UID mp) in
        let current := sum_into (f_current f) (f_retired f) in
        let changed := f_changed f || labeled in
        let '(data, changed) :=
          if f_retiredChanged f then (write_retired (cm_Data cm) currentPeriod (UID mp) (f_retired f), true)
          else (cm_Data cm, changed) in
        let '(margin, event) := setBoundaryMargin (MarginRaised st) (f_marginRaised f) in
        let '(data, c1) := write_canonical data current in
        let '(data, archive, c2) := write_archive data (f_stale f) currentPeriod (UID mp) in
        let changed := changed || c1 || c2 in
        let written := if changed then Some (set_data cm data) else None in
        if changed && negb updateOK
        then mk_pass (mk_status (BudgetUsage st) (ClusterSpentUSD st) margin) g written event true
        else
          let usage := budgetUsageEntries mp current currentPeriod ++
            match archive with
            | Some a => previousUsageEntries mp (totals a) (ba_Period a)
            | None => []
            end in
          mk_pass (mk_status usage (FormatFloat2 (sum_all current)) margin)
            (setBudgetCanonical g (Name mp) currentPeriod current) written event false
    end.

(** ** Workload spend (modelprovider_agentspend.go) *)

Record workloadFold := mk_workload_fold {
  wf_current : gmap string f64;
  wf_retired : gmap string f64;
  wf_changed : bool;
  wf_retiredChanged : bool;
}.

Definition fold_workload_key (live : gset string) (currentPeriod providerUID : string)
    (acc : gmap string string * workloadFold) (kv : string * string) : gmap string string * workloadFold :=
  let '(data, f) := acc in
  let '(k, raw) := kv in
  if (k =? CanonicalKey)%string then acc
  else
    let parse := ParseBudgetPartial raw in
    let drop f := (delete k data, mk_workload_fold (wf_current f) (wf_retired f) true (wf_retiredChanged f)) in
    let retire f p rc := mk_workload_fold (wf_current f) (sum_into (wf_retired f) (pp_spend p)) (wf_changed f) rc in
    if match parse with Some p => foreign p providerUID | None => false end then drop f
    else
      let current := match parse with Some p => (pp_period p =? currentPeriod)%string | None => false end in
      if (k =? RetiredKey)%string then
        match parse with
        | Some p => if current then (data, retire f p (wf_retiredChanged f)) else drop f
        | None => drop f
        end
      else if negb (bool_decide (k ∈ live)) then
        match parse with
        | Some p => if current then drop (retire f p true) else drop f
        | None => drop f
        end
      else
        match parse with
        | None => acc
        | Some p =>
            if current then (data, mk_workload_fold (sum_into (wf_current f) (pp_spend p)) (wf_retired f)
                                     (wf_changed f) (wf_retiredChanged f))
            else drop f
        end.

Definition reconcileAgentSpend (now : Time) (mp : ModelProvider) (live : gset string) (get : get_result)
    (updateOK : bool) : option ConfigMap * bool :=
  let currentPeriod := PeriodKey (Period (Budget (Spec mp))) now in
  if (currentPeriod =? "")%string then (None, false)
  else
    match get with
    | GetNotFound => (None, false)
    | GetError => (None, true)
    | GetFound cm =>
        let '(cm, labeled) := ensureSpendLabel cm SpendLabelAgentSpend in
        let '(data, f) := foldl (fold_workload_key live currentPeriod (UID mp))
                            (cm_Data cm, mk_workload_fold ∅ ∅ labeled false) (range (cm_Data cm)) in
        let '(data, changed) :=
          if wf_retiredChanged f then (write_retired data currentPeriod (UID mp) (wf_retired f), true)
          else (data, wf_changed f) in
        let current := sum_into (wf_current f) (wf_retired f) in
        let '(data, c1) := write_canonical data current in
        if changed || c1 then (Some (set_data cm data), negb updateOK) else (None, false)
    end.
End reducer.

(** Theorems on the budget reducer of BudgetReducer.v. *)


Section facts.
Context {MR : MapRange} {JM : JsonMap} {AJ : ArchiveJson}.

(** ** The keys *)

(** A key whose value counts as live spend: a live replica's. *)
Definition live_key (live : gset string) (k : string) : bool :=
  bool_decide (k ∈ live) && negb (k =? RetiredKey)%string.

(** What a stored value holds for a namespace in the current period, by the
    gateway's own rule. *)
Definition current_amount (cur uid ns : string) (kv : string * string) : option f64 :=
  contribution CanonicalKey cur uid ns kv.

Definition add_opt (x : f64) (o : option f64) : f64 := match o with Some v => (x + v)%f64 | None => x end.

(** The sum of what the selected values hold for a namespace. *)
Definition amounts_where (sel : string → bool) (cur uid ns : string) (l : list (string * string)) : f64 :=
  foldl add_opt f64_zero (map (λ kv, if sel kv.1 then current_amount cur uid ns kv else None) l).

Lemma foreign_spec p uid :
  foreign p uid = negb ((pp_providerUID p =? "") || (pp_providerUID p =? uid))%string.
Proof. unfold foreign. by rewrite negb_orb. Qed.

Lemma step_current live cur uid acc kv ns :
  get0 (f_current (fold_budget_key live cur uid acc kv).2) ns
  = add_opt (get0 (f_current acc.2) ns) (if live_key live kv.1 then current_amount cur uid ns kv else None).
Proof.
  destruct acc as [data f], kv as [k raw]. unfold fold_budget_key, current_amount, contribution, live_key. simpl.
  destruct (k =? CanonicalKey)%string, (k =? PreviousKey)%string; simpl; try by destruct (bool_decide _ && _).
  destruct (ParseBudgetPartial raw) as [p|]; simpl.
  2: { destruct (k =? RetiredKey)%string, (bool_decide (k ∈ live)); done. }
  rewrite foreign_spec.
  destruct ((pp_providerUID p =? "") || (pp_providerUID p =? uid))%string; simpl;
    [|rewrite andb_false_r; by destruct (bool_decide _ && _)].
  rewrite andb_true_r.
  destruct (k =? RetiredKey)%string, (bool_decide (k ∈ live)), (pp_period p =? cur)%string; simpl; try done.
  apply get0_sum_into.
Qed.

Lemma step_retired live cur uid acc kv ns :
  get0 (f_retired (fold_budget_key live cur uid acc kv).2) ns
  = add_opt (get0 (f_retired acc.2) ns) (if negb (live_key live kv.1) then current_amount cur uid ns kv else None).
Proof.
  destruct acc as [data f], kv as [k raw]. unfold fold_budget_key, current_amount, contribution, live_key. simpl.
  destruct (k =? CanonicalKey)%string, (k =? PreviousKey)%string; simpl; try by destruct (negb _).
  destruct (ParseBudgetPartial raw) as [p|]; simpl.
  2: { destruct (k =? RetiredKey)%string, (bool_decide (k ∈ live)); done. }
  rewrite foreign_spec.
  destruct ((pp_providerUID p =? "") || (pp_providerUID p =? uid))%string; simpl;
    [|rewrite andb_false_r; by destruct (negb _)].
  rewrite andb_true_r.
  destruct (k =? RetiredKey)%string, (bool_decide (k ∈ live)), (pp_period p =? cur)%string; simpl; try done;
    apply get0_sum_into.
Qed.

Lemma fold_keys_sums live cur uid ns l acc :
  get0 (f_current (foldl (fold_budget_key live cur uid) acc l).2) ns
  = foldl add_opt (get0 (f_current acc.2) ns)
      (map (λ kv, if live_key live kv.1 then current_amount cur uid ns kv else None) l) ∧
  get0 (f_retired (foldl (fold_budget_key live cur uid) acc l).2) ns
  = foldl add_opt (get0 (f_retired acc.2) ns)
      (map (λ kv, if negb (live_key live kv.1) then current_amount cur uid ns kv else None) l).
Proof.
  revert acc; induction l as [|kv l IH]; intros acc; simpl; [done|].
  rewrite <- step_current, <- step_retired. apply IH.
Qed.

(** What happens to one key in the fold. *)
Record key_fate (live : gset string) (cur uid : string) (k : string) (p : parsed)
    (raw : string) (data' : gmap string string) (f : budgetFold) : Prop := mk_fate {
  fate_current : pp_period p = cur → live_key live k = true ∨ k = RetiredKey → data' !! k = Some raw;
  fate_retired : pp_period p = cur → live_key live k = false → k ≠ RetiredKey →
                 data' !! k = None ∧ f_retiredChanged f = true ∧ f_changed f = true;
  fate_archived : pp_period p ≠ cur →
                 data' !! k = None ∧ f_stale f !! k = Some (mk_stale (pp_period p) (pp_spend p)) ∧ f_changed f = true;
}.

(** Processing another key leaves a key's fate alone. *)
Lemma step_other live cur uid acc k raw k' :
  k ≠ k' →
  (fold_budget_key live cur uid acc (k, raw)).1 !! k' = acc.1 !! k' ∧
  f_stale (fold_budget_key live cur uid acc (k, raw)).2 !! k' = f_stale acc.2 !! k' ∧
  (f_retiredChanged acc.2 = true → f_retiredChanged (fold_budget_key live cur uid acc (k, raw)).2 = true) ∧
  (f_changed acc.2 = true → f_changed (fold_budget_key live cur uid acc (k, raw)).2 = true).
Proof.
  intros Hne. destruct acc as [data f]. unfold fold_budget_key. cbv zeta.
  repeat (case_match; simplify_eq/=); rewrite ?lookup_delete_ne, ?lookup_insert_ne by done; done.
Qed.

Lemma steps_other live cur uid acc l k' :
  k' ∉ l.*1 →
  (foldl (fold_budget_key live cur uid) acc l).1 !! k' = acc.1 !! k' ∧
  f_stale (foldl (fold_budget_key live cur uid) acc l).2 !! k' = f_stale acc.2 !! k' ∧
  (f_retiredChanged acc.2 = true → f_retiredChanged (foldl (fold_budget_key live cur uid) acc l).2 = true) ∧
  (f_changed acc.2 = true → f_changed (foldl (fold_budget_key live cur uid) acc l).2 = true).
Proof.
  revert acc; induction l as [|[k raw] l IH]; intros acc; simpl; [done|].
  intros [Hk Hl]%not_elem_of_cons. destruct (step_other live cur uid acc k raw k') as (E1 & E2 & E3 & E4); [done|].
  destruct (IH (fold_budget_key live cur uid acc (k, raw)) Hl) as (F1 & F2 & F3 & F4). rewrite F1, F2. split_and!; auto.
Qed.

Lemma step_fate live cur uid acc k raw p :
  k ≠ CanonicalKey → k ≠ PreviousKey → ParseBudgetPartial raw = Some p → foreign p uid = false →
  acc.1 !! k = Some raw →
  key_fate live cur uid k p raw (fold_budget_key live cur uid acc (k, raw)).1 (fold_budget_key live cur uid acc (k, raw)).2.
Proof.
  intros Hc%String.eqb_neq Hp%String.eqb_neq Hparse Hf Hin. destruct acc as [data f]. simpl in Hin.
  unfold fold_budget_key, live_key. cbv zeta. rewrite Hc, Hp, Hparse, Hf. cbn [orb].
  assert (Hlk : live_key live k = bool_decide (k ∈ live) && negb (k =? RetiredKey)%string) by done.
  destruct (String.eqb_spec k RetiredKey) as [Hr|Hr], (String.eqb_spec (pp_period p) cur) as [Hper|Hper],
    (bool_decide (k ∈ live)); cbn [negb andb] in *; constructor; simpl; rewrite ?Hlk; intros;
    rewrite ?lookup_delete_eq, ?lookup_insert_eq; naive_solver.
Qed.

Lemma fold_fate cm live cur uid k raw p :
  cm_Data cm !! k = Some raw → ParseBudgetPartial raw = Some p → foreign p uid = false → k ≠ CanonicalKey → k ≠ PreviousKey →
  key_fate live cur uid k p raw (cm_Data (foldBudgetKeys cm live cur uid).1) (foldBudgetKeys cm live cur uid).2.
Proof.
  intros Hin Hparse Hours Hc Hp. unfold foldBudgetKeys.
  pose proof (proj2 (elem_of_range (cm_Data cm) k raw) Hin) as Hmem.
  apply list_elem_of_split in Hmem as (l1 & l2 & El).
  pose proof (NoDup_range (cm_Data cm)) as Hnd. rewrite El in Hnd |- *.
  rewrite fmap_app, fmap_cons in Hnd. apply NoDup_app in Hnd as (_ & Hdisj & Hnd2).
  apply NoDup_cons in Hnd2 as [Hk2 _]. simpl in Hk2.
  assert (Hk1 : k ∉ l1.*1) by (intros H; apply (Hdisj k H); simpl; set_solver).
  rewrite foldl_app. simpl. set (acc0 := (cm_Data cm, mk_fold ∅ ∅ ∅ false false false)).
  set (acc1 := foldl (fold_budget_key live cur uid) acc0 l1).
  assert (Hacc1 : acc1.1 !! k = Some raw) by (unfold acc1; by rewrite (proj1 (steps_other live cur uid acc0 l1 k Hk1))).
  pose proof (step_fate live cur uid acc1 k raw p Hc Hp Hparse Hours Hacc1) as [F1 F2 F3].
  destruct (steps_other live cur uid (fold_budget_key live cur uid acc1 (k, raw)) l2 k Hk2) as (G1 & G2 & G3 & G4).
  destruct (foldl _ _ l2) as [data f]. simpl in *.
  constructor; rewrite ?G1, ?G2; naive_solver.
Qed.

(** ** What a pass writes *)

Lemma write_canonical_other data current k : k ≠ CanonicalKey → (write_canonical data current).1 !! k = data !! k.
Proof. intros Hk. unfold write_canonical. cbv zeta. destruct (_ =? _)%string; [done|]. cbn [fst]. by rewrite lookup_insert_ne. Qed.

Lemma write_archive_other data stale cur uid k : k ≠ PreviousKey → (write_archive data stale cur uid).1.1 !! k = data !! k.
Proof.
  intros Hk. unfold write_archive. cbv zeta. destruct (mergeBudgetArchive _ _ _ _) as [[a|] c]; destruct (_ || _); simpl;
    rewrite ?lookup_insert_ne, ?lookup_delete_ne by done; done.
Qed.

(** The value under a key in the ConfigMap a pass leaves, were its write to
    succeed. *)
Definition left_at (cm : ConfigMap) (r : pass_result) (k : string) : option string :=
  match pr_written r with Some cm' => cm_Data cm' | None => cm_Data cm end !! k.

Lemma pass_leaves now mp live cm ok st g k : PeriodKey (Period (Budget (Spec mp))) now ≠ "" → k ≠ CanonicalKey → k ≠ PreviousKey →
  let cur := PeriodKey (Period (Budget (Spec mp))) now in
  let '(cm', f) := foldBudgetKeys (ensureSpendLabel cm SpendLabelBudget).1 live cur (UID mp) in
  let v := left_at cm (reconcileBudget now mp live (GetFound cm) ok st g) k in
  if f_retiredChanged f then v = write_retired (cm_Data cm') cur (UID mp) (f_retired f) !! k
  else v = cm_Data cm' !! k ∨ f_changed f = false ∧ v = cm_Data cm !! k.
Proof.
  intros Hcur%String.eqb_neq Hc Hp. unfold left_at, reconcileBudget. cbv zeta. rewrite Hcur.
  destruct (clearBudgetStatus g mp) as [cleared g0]. destruct (ensureSpendLabel cm SpendLabelBudget) as [cm0 labeled]. cbn [fst].
  destruct (foldBudgetKeys cm0 live _ (UID mp)) as [cm' f].
  set (data := if f_retiredChanged f then write_retired (cm_Data cm') (PeriodKey (Period (Budget (Spec mp))) now) (UID mp) (f_retired f) else cm_Data cm').
  destruct (if f_retiredChanged f then (write_retired (cm_Data cm') (PeriodKey (Period (Budget (Spec mp))) now) (UID mp) (f_retired f), true)
    else (cm_Data cm', f_changed f || labeled)) as [d changed] eqn:Ed.
  assert (Hd : d = data ∧ changed = f_retiredChanged f || (f_changed f || labeled)) by (unfold data; destruct (f_retiredChanged f); by injection Ed as <- <-).
  destruct Hd as [-> ->]. destruct (setBoundaryMargin _ _) as [margin event].
  pose proof (write_canonical_other data (sum_into (f_current f) (f_retired f)) k Hc) as H1.
  destruct (write_canonical data _) as [d1 c1]. cbn [fst] in H1.
  pose proof (write_archive_other d1 (f_stale f) (PeriodKey (Period (Budget (Spec mp))) now) (UID mp) k Hp) as H2.
  destruct (write_archive d1 (f_stale f) _ _) as [[d2 a] c2]. cbn [fst] in H2.
  assert (Hw : d2 !! k = data !! k) by (by rewrite H2, H1). unfold data in *.
  destruct (f_retiredChanged f), (f_changed f), labeled, c1, c2, ok; simpl in *; first [exact Hw|left; exact Hw|right; done].
Qed.

(** ** The archive *)

Lemma merge_amounts_spec l dst changed :
  NoDup l.*1 →
  let dst' := (foldl merge_amount (dst, changed) l).1 in
  (∀ ns v, (ns, v) ∈ l → ∃ s, dst' !! ns = Some s ∧
     (s = FormatFloat2 v ∨ dst !! ns = Some s ∧ ∃ old, ParseFloat s = Some old ∧ (v <=? old)%f64 = true)) ∧
  (∀ ns, ns ∉ l.*1 → dst' !! ns = dst !! ns).
Proof.
  revert dst changed; induction l as [|[ns v] l IH]; intros dst changed; cbv zeta; cbn [foldl fmap list_fmap fst];
    [intros _; split; [set_solver|done]|].
  intros [Hns Hl]%NoDup_cons.
  set (acc := merge_amount (dst, changed) (ns, v)).
  assert (Hacc : (∃ s, acc.1 !! ns = Some s ∧
     (s = FormatFloat2 v ∨ dst !! ns = Some s ∧ ∃ old, ParseFloat s = Some old ∧ (v <=? old)%f64 = true)) ∧
     ∀ ns', ns' ≠ ns → acc.1 !! ns' = dst !! ns').
  { unfold acc, merge_amount. destruct (dst !! ns) as [s|] eqn:Es; simpl.
    - destruct (ParseFloat s) as [old|] eqn:Eo; simpl.
      + destruct (v <=? old)%f64 eqn:El; simpl.
        * split; [|done]. exists s. split; [done|]. right. eauto.
        * split; [rewrite lookup_insert_eq; eauto|intros; by rewrite lookup_insert_ne].
      + split; [rewrite lookup_insert_eq; eauto|intros; by rewrite lookup_insert_ne].
    - split; [rewrite lookup_insert_eq; eauto|intros; by rewrite lookup_insert_ne]. }
  clearbody acc. destruct acc as [dst1 c1]. simpl in Hacc |- *. destruct Hacc as [(s & Hs & Hcase) Hother].
  destruct (IH dst1 c1 Hl) as [IH1 IH2]. split.
  - intros ns' v' [[= -> ->]|Hin]%elem_of_cons.
    + exists s. rewrite IH2 by done. done.
    + destruct (IH1 ns' v' Hin) as (s' & Hs' & Hc'). exists s'. split; [done|].
      rewrite Hother in Hc'; [done|]. intros ->. apply Hns. by apply (list_elem_of_fmap_2 fst) in Hin.
  - intros ns' [Hne Hnin]%not_elem_of_cons. by rewrite IH2, Hother.
Qed.

(** The recorded figure covers a stale one: it is that figure to the cent, or
    an archived figure at least as large. *)
Definition covers (s : string) (v : f64) : Prop :=
  s = FormatFloat2 v ∨ ∃ old, ParseFloat s = Some old ∧ (v <=? old)%f64 = true.

Lemma merge_source_spec period sources changed k sp :
  sp_period sp = period →
  let sources' := (merge_source period (sources, changed) (k, sp)).1 in
  (∃ dst', sources' !! k = Some dst' ∧ ∀ ns v, sp_spend sp !! ns = Some v → ∃ s, dst' !! ns = Some s ∧ covers s v) ∧
  ∀ k', k' ≠ k → sources' !! k' = sources !! k'.
Proof.
  intros <-. cbv zeta. unfold merge_source. rewrite String.eqb_refl. cbn [negb].
  pose proof (merge_amounts_spec (range (sp_spend sp)) (default ∅ (sources !! k)) changed (NoDup_range _)) as [H1 _].
  destruct (foldl merge_amount _ _) as [dst c]. simpl in *. split; [|intros; by rewrite lookup_insert_ne].
  exists dst. split; [apply lookup_insert_eq|]. intros ns v Hv. apply elem_of_range in Hv.
  destruct (H1 ns v Hv) as (s & Hs & Hc). exists s. split; [done|]. unfold covers. naive_solver.
Qed.

Lemma merge_sources_spec period l sources changed :
  NoDup l.*1 →
  let sources' := (foldl (merge_source period) (sources, changed) l).1 in
  (∀ k sp, (k, sp) ∈ l → sp_period sp = period →
     ∃ dst', sources' !! k = Some dst' ∧ ∀ ns v, sp_spend sp !! ns = Some v → ∃ s, dst' !! ns = Some s ∧ covers s v) ∧
  (∀ k, k ∉ l.*1 → sources' !! k = sources !! k).
Proof.
  revert sources changed; induction l as [|[k sp] l IH]; intros sources changed; cbv zeta; cbn [foldl fmap list_fmap fst];
    [intros _; split; [set_solver|done]|].
  intros [Hk Hl]%NoDup_cons.
  assert (Hother : ∀ k', k' ≠ k → (merge_source period (sources, changed) (k, sp)).1 !! k' = sources !! k').
  { destruct (decide (sp_period sp = period)) as [E|E]; [by apply merge_source_spec|].
    unfold merge_source. apply String.eqb_neq in E. by rewrite E. }
  pose proof (merge_source_spec period sources changed k sp) as Hself.
  destruct (merge_source period (sources, changed) (k, sp)) as [s1 c1]. simpl in Hother, Hself.
  destruct (IH s1 c1 Hl) as [IH1 IH2]. split.
  - intros k' sp' [[= -> ->]|Hin]%elem_of_cons Hper; [|by apply IH1].
    rewrite IH2 by done. by apply Hself.
  - intros k' [Hne Hnin]%not_elem_of_cons. by rewrite IH2, Hother.
Qed.

Lemma compare_lt_trans a b c : String.compare a b = Lt → String.compare b c = Lt → String.compare a c = Lt.
Proof.
  revert b c; induction a as [|x a IH]; intros [|y b] [|z c]; simpl; try done.
  unfold Ascii.compare. destruct (N.compare_spec (N_of_ascii x) (N_of_ascii y)) as [E1|E1|E1],
    (N.compare_spec (N_of_ascii y) (N_of_ascii z)) as [E2|E2|E2]; try done;
    destruct (N.compare_spec (N_of_ascii x) (N_of_ascii z)); try lia; try done; eauto.
Qed.

Lemma ltb_trans a b c : String.ltb a b = true → String.ltb b c = true → String.ltb a c = true.
Proof.
  unfold String.ltb. destruct (String.compare a b) eqn:E1; try done.
  destruct (String.compare b c) eqn:E2; try done. by rewrite (compare_lt_trans _ _ _ E1 E2).
Qed.

Lemma compare_refl a : String.compare a a = Eq.
Proof. pose proof (String.compare_antisym a a). by destruct (String.compare a a). Qed.

Lemma ltb_irrefl a : String.ltb a a = false.
Proof. unfold String.ltb. by rewrite compare_refl. Qed.

(** Not above [a] and below [c] puts [c] above. *)
Lemma ltb_false_trans a b c : String.ltb a b = false → String.ltb a c = true → String.ltb b c = true.
Proof.
  unfold String.ltb. destruct (String.compare a b) eqn:E1; try done; intros _.
  - apply String.compare_eq_iff in E1 as ->. done.
  - destruct (String.compare a c) eqn:E2; try done. intros _.
    rewrite String.compare_antisym in E1. destruct (String.compare b a) eqn:E3; try done.
    by rewrite (compare_lt_trans _ _ _ E3 E2).
Qed.

Lemma ltb_ge_trans a b c : String.ltb a b = false → String.ltb b c = false → String.ltb a c = false.
Proof.
  intros H1 H2. destruct (String.ltb a c) eqn:E; [|done]. by rewrite (ltb_false_trans a b c H1 E) in H2.
Qed.

Lemma ltb_asym a b : String.ltb a b = true → String.ltb b a = false.
Proof. intros H. destruct (String.ltb b a) eqn:E; [|done]. pose proof (ltb_trans _ _ _ H E) as F. by rewrite ltb_irrefl in F. Qed.

Lemma newest_upper l n0 :
  String.ltb (foldl newest_of n0 l) n0 = false ∧
  ∀ k sp, (k, sp) ∈ l → String.ltb (foldl newest_of n0 l) (sp_period sp) = false.
Proof.
  revert n0; induction l as [|[k sp] l IH]; intros n0; simpl; [split; [apply ltb_irrefl|set_solver]|].
  destruct (IH (newest_of n0 (k, sp))) as [IH1 IH2].
  assert (Hstep : String.ltb (newest_of n0 (k, sp)) n0 = false ∧ String.ltb (newest_of n0 (k, sp)) (sp_period sp) = false).
  { unfold newest_of. simpl. destruct (String.ltb n0 (sp_period sp)) eqn:E.
    - split; [by apply ltb_asym|apply ltb_irrefl].
    - split; [apply ltb_irrefl|done]. }
  split; [eapply ltb_ge_trans; [exact IH1|apply Hstep]|].
  intros k' sp' [[= -> ->]|Hin]%elem_of_cons; [eapply ltb_ge_trans; [exact IH1|apply Hstep]|by eapply IH2].
Qed.

Lemma ltb_empty a : String.ltb "" a = negb (a =? "")%string.
Proof. by destruct a. Qed.

Lemma archive_base_spec stored newest cur uid :
  match (archive_base stored newest cur uid).1 with
  | None => newest = ""
  | Some a => ba_ArchivedIn a = cur ∧ String.ltb (ba_Period a) newest = false ∧
      (∀ a0, stored = Some a0 → ba_Period a0 = ba_Period a → ba_ArchivedIn a0 = cur →
         (ba_ProviderUID a0 = "" ∨ ba_ProviderUID a0 = uid) → a = a0)
  end.
Proof.
  unfold archive_base. destruct stored as [a|]; simpl.
  2: { destruct (String.eqb_spec newest "") as [->|Hn]; simpl; [done|].
       split_and!; [done|apply ltb_irrefl|done]. }
  destruct (negb (ba_ArchivedIn a =? cur)%string || _) eqn:Ekeep; simpl.
  - destruct (String.eqb_spec newest "") as [->|Hn]; simpl; [done|]. split_and!; [done|apply ltb_irrefl|].
    intros a0 [= <-] _ HA HU. apply orb_true_iff in Ekeep as [E|E]; bool_to_prop; [done|]. naive_solver.
  - apply orb_false_iff in Ekeep as [EA _]. bool_to_prop.
    destruct (String.ltb (ba_Period a) newest) eqn:El; simpl.
    + destruct (String.eqb_spec newest "") as [->|Hn]; simpl; [by destruct (ba_Period a)|].
      split_and!; [done|apply ltb_irrefl|]. intros a0 [= <-] HP. by rewrite HP, ltb_irrefl in El.
    + rewrite andb_false_r. simpl. split_and!; [done|done|by intros a0 [= <-]].
Qed.

(** ** Properties *)

Lemma reducer_retired_sum cm live cur uid ns :
  get0 (f_retired (foldBudgetKeys cm live cur uid).2) ns = amounts_where (λ k, negb (live_key live k)) cur uid ns (range (cm_Data cm)).
Proof.
  unfold foldBudgetKeys, amounts_where.
  pose proof (fold_keys_sums live cur uid ns (range (cm_Data cm)) (cm_Data cm, mk_fold ∅ ∅ ∅ false false false)) as [_ H].
  by destruct (foldl (fold_budget_key live cur uid) _ _) as [data f].
Qed.

(** One view of the spend.  The reducer counts a stored value exactly when
    the gateway's fold does: for every namespace its live total is the float
    sum of the amounts the live replicas' current values hold, and its
    retired total that of the retired accumulator and of the replicas that
    are gone.  Values of other periods, of a deleted provider of the same
    name, unreadable ones and the reducer's own totals add nothing. *)
Theorem reducer_counts_what_gateways_fold cm live cur uid ns :
  let f := (foldBudgetKeys cm live cur uid).2 in
  get0 (f_current f) ns = amounts_where (live_key live) cur uid ns (range (cm_Data cm)) ∧
  get0 (f_retired f) ns = amounts_where (λ k, negb (live_key live k)) cur uid ns (range (cm_Data cm)).
Proof.
  cbv zeta. unfold foldBudgetKeys, amounts_where.
  pose proof (fold_keys_sums live cur uid ns (range (cm_Data cm)) (cm_Data cm, mk_fold ∅ ∅ ∅ false false false)) as H.
  by destruct (foldl (fold_budget_key live cur uid) _ _) as [data f].
Qed.

Lemma current_amount_ours cur uid ns k raw p :
  ParseBudgetPartial raw = Some p → foreign p uid = false → k ≠ CanonicalKey → k ≠ PreviousKey → pp_period p = cur →
  current_amount cur uid ns (k, raw) = pp_spend p !! ns.
Proof.
  intros Hparse Hf Hc%String.eqb_neq Hp%String.eqb_neq Hper. unfold current_amount, contribution. cbn [fst snd]. rewrite Hc, ?Hp, Hparse.
  rewrite foreign_spec in Hf. apply negb_false_iff in Hf. cbn [orb mbind option_bind]. rewrite Hper, String.eqb_refl. by rewrite Hf.
Qed.

(** The retired total of a pass: for each namespace the float sum, in the
    order the map is read, of what the current-period values of [_retired]
    and of the replicas that are gone hold. *)
Definition retired_total (cm : ConfigMap) (live : gset string) (cur uid : string) (T : gmap string f64) : Prop :=
  ∀ ns, get0 T ns = amounts_where (λ k, negb (live_key live k)) cur uid ns (range (cm_Data cm)).


(** The archive.  The archive a pass leaves was made in the current period
    and holds the newest ended period seen; for each source and namespace of
    that period it records the figure deleted in this pass or an archived
    figure at least as large, so a counter seen twice is never added up and
    never shrinks, and sources not seen in this pass keep their figures.  No
    archive is left only when no ended period was seen. *)
Theorem archive_keeps_newest_period stored stale cur uid :
  match (mergeBudgetArchive stored stale cur uid).1 with
  | None => ∀ k sp, stale !! k = Some sp → sp_period sp = ""
  | Some a =>
      ba_ArchivedIn a = cur ∧
      (∀ k sp, stale !! k = Some sp → String.ltb (ba_Period a) (sp_period sp) = false) ∧
      (∀ k sp ns v, stale !! k = Some sp → sp_period sp = ba_Period a → sp_spend sp !! ns = Some v →
         ∃ dst s, ba_Sources a !! k = Some dst ∧ dst !! ns = Some s ∧ covers s v) ∧
      (∀ a0 k, stored = Some a0 → ba_Period a0 = ba_Period a → ba_ArchivedIn a0 = cur →
         (ba_ProviderUID a0 = "" ∨ ba_ProviderUID a0 = uid) → stale !! k = None →
         ba_Sources a !! k = ba_Sources a0 !! k)
  end.
Proof.
  unfold mergeBudgetArchive. destruct (newest_upper (range stale) "") as [_ Hup].
  set (newest := foldl newest_of "" (range stale)) in *.
  pose proof (archive_base_spec stored newest cur uid) as Hbase.
  destruct (archive_base stored newest cur uid) as [[a|] c]; simpl in Hbase |- *.
  - destruct Hbase as (HA & Hmax & Hkeep).
    pose proof (merge_sources_spec (ba_Period a) (range stale) (ba_Sources a) c (NoDup_range _)) as [M1 M2].
    destruct (foldl (merge_source (ba_Period a)) _ _) as [sources c']. simpl in *. split_and!; [done|..].
    + intros k sp Hk. eapply ltb_ge_trans; [exact Hmax|]. by eapply Hup, elem_of_range.
    + intros k sp ns v Hk Hp Hv. destruct (M1 k sp) as (dst & Hd & Hc); [by apply elem_of_range|done|].
      destruct (Hc ns v Hv) as (x & ? & ?). eauto.
    + intros a0 k Hst Hper Hin Hu Hk. rewrite <- (Hkeep a0 Hst Hper Hin Hu). apply M2.
      intros ([k' sp] & -> & Hkin)%list_elem_of_fmap. apply elem_of_range in Hkin. simpl in Hk. congruence.
  - intros k sp Hk. specialize (Hup k sp (proj2 (elem_of_range _ _ _) Hk)). rewrite Hbase, ltb_empty in Hup.
    by bool_to_prop.
Qed.

(** ** Status *)

Lemma string_le_total : ∀ a b, string_le a b ∨ string_le b a.
Proof.
  intros a b. unfold string_le, String.leb. rewrite (String.compare_antisym b a).
  destruct (String.compare a b); auto.
Qed.

#[local] Instance string_le_Total : Total string_le := string_le_total.

(** Status and enforcement agree.  The status lists every namespace with
    spend once, in order; its state is Blocked exactly when the gateway's
    decision at that spend blocks, Throttled exactly when it degrades, and so
    exactly when [Enforce] of a replica whose ledger holds the same figures
    does. *)
Theorem status_matches_enforcement mp spend period now ns u :
  let cluster := sum_all spend in
  let d := decide_budget (Budget (Spec mp)) now (utilizationOf (Budget (Spec mp)) (get0 spend ns) cluster) in
  (map bu_Namespace (budgetUsageEntries mp spend period) ≡ₚ (map_to_list spend).*1) ∧
  Sorted string_le (map bu_Namespace (budgetUsageEntries mp spend period)) ∧
  (u ∈ budgetUsageEntries mp spend period → bu_Namespace u = ns →
     (bu_State u = BudgetStateBlocked ↔ Action d = BudgetActionBlock) ∧
     (bu_State u = BudgetStateThrottled ↔ Action d = BudgetActionDegrade)).
Proof.
  cbv zeta. unfold budgetUsageEntries, sort_strings. rewrite map_map. cbn [bu_Namespace usage_entry].
  assert (Hid : ∀ l : list string, map (λ x, x) l = l) by (intros; apply map_id).
  split_and!.
  - rewrite Hid, merge_sort_Permutation. apply fmap_Permutation, range_perm.
  - rewrite Hid. apply Sorted_merge_sort. apply _.
  - intros (ns' & -> & _)%list_elem_of_fmap. simpl. intros ->.
    unfold usage_state, decide_budget, BudgetUtilization.
    destruct (BudgetPolicyAt _ _) as [p|]; simpl; [|done].
    destruct (String.eqb_spec (pol_Action p) BudgetActionBlock) as [->|Hb]; [done|].
    destruct (String.eqb_spec (pol_Action p) BudgetActionDegrade) as [->|Hd]; [done|]. done.
Qed.
End facts.

(** A replica that is gone left a current-period value. *)
Definition example_value : string :=
  @json_marshal bits_codec (<["period" := "2026-01"]> (<["team-a" := "1.50"]> ∅)).

Definition example_cm : ConfigMap := mk_cm ∅ (<["gw-old" := example_value]> ∅).

Definition example_live : gset string := {["gw-new"]}.

Definition example_parsed : parsed :=
  default (mk_parsed "" ∅ false "") (@ParseBudgetPartial list_order bits_codec example_value).

(** A codec of the archive, for the witness. *)
Lemma bits_archive_roundtrip (x : string * string * string * gmap string (gmap string string)) :
  parse_bits (print_bits (encode x)) ≫= decode = Some x.
Proof. rewrite parse_print_bits. simpl. apply decode_encode. Qed.

Definition bits_archive : ArchiveJson.
Proof.
  refine {|
    archive_marshal a := print_bits (encode (ba_Period a, ba_ArchivedIn a, ba_ProviderUID a, ba_Sources a));
    archive_unmarshal s := (λ x : string * string * string * gmap string (gmap string string), (x.1, Some x.2)) <$> (parse_bits s ≫= decode);
  |}.
  intros a _ _ _ _. by rewrite bits_archive_roundtrip.
Defined.

Definition example_mp : ModelProvider :=
  mk_provider "claude" "u1" (mk_provider_spec "anthropic" [] ["*"] (mk_budget "monthly" "100" [] None "soft" None) (mk_rate_limits 0 0) []).

