(* ===== verification/BudgetPublisher.v ===== *)
(** The replica side of the spend exchange: [BudgetPublisher] of
    internal/gateway/budget.go and the watch handler of budget_informer.go.

    The API server and the watch cache are the class [SpendApi]: lists, gets,
    cache reads and server-side applies, with the laws of an apply this code
    relies on.  Every publisher operation is a function on the API state and
    the ledger of BudgetLedger.v. *)

From stdpp Require Import base gmap sets list strings option fin_maps.
From Stdlib Require Import ZArith Lia Ascii.
From S2P Require Import Prelude GoFloat GoTime Api BudgetPeriod BudgetWire BudgetLedger BudgetFacts BudgetReducer.

(** A stored ConfigMap with its resourceVersion. *)
Record spendCM := mk_spend_cm {
  sc_cm : ConfigMap;
  sc_version : string;
}.

Inductive cache_read := CacheHit (version : string) | CacheNotFound | CacheError.

(** [api_stored] is the server's current state; list and get fail or return
    it, the cache may lag.  An apply with one label and one key creates the
    ConfigMap or replaces that label and that key, and touches nothing else. *)
Class SpendApi (A : Type) := {
  api_stored : A → gmap string spendCM;
  api_list : A → option (gmap string spendCM);
  api_get : A → string → option (option spendCM);
  api_cache : A → option (string → cache_read);
  api_apply : A → string → string → string → string → option A;
}.

Class SpendApiLaws (A : Type) `{SA : SpendApi A} := {
  get_current : ∀ a name r, api_get a name = Some r → r = api_stored a !! name;
  list_labelled : ∀ a l name cm, api_list a = Some l → l !! name = Some cm → api_stored a !! name = Some cm;
  apply_key : ∀ a name label key raw a', api_apply a name label key raw = Some a' →
    ∃ cm, api_stored a' !! name = Some cm ∧ cm_Data (sc_cm cm) !! key = Some raw ∧
      cm_Labels (sc_cm cm) !! SpendConfigMapLabel = Some label ∧
      (∀ k, k ≠ key → cm_Data (sc_cm cm) !! k = (api_stored a !! name) ≫= λ c, cm_Data (sc_cm c) !! k);
  apply_other : ∀ a name label key raw a' name', api_apply a name label key raw = Some a' → name' ≠ name →
    api_stored a' !! name' = api_stored a !! name';
}.

Section publisher.
Context {MR : MapRange} {JM : JsonMap} {A : Type} {SA : SpendApi A}.
Context (PodName : string).

(** [listed]: [None] when this call made no list or the list failed. *)
Definition listing : Type := option (gmap string spendCM).

Definition listed_at (listed : listing) (name : string) : option spendCM := listed ≫= λ l, l !! name.

(** The live GET: an error, or what the server stores. *)
Definition read_live (a : A) (name : string) : option (option spendCM) := api_get a name.

Definition readSpendConfigMap (a : A) (listed : listing) (name : string) : option (option spendCM) :=
  let cm := listed_at listed name in
  match api_cache a with
  | None => match cm with Some cm => Some (Some cm) | None => read_live a name end
  | Some cache =>
      match cm, cache name with
      | Some cm, CacheHit version => if (version =? sc_version cm)%string then Some (Some cm) else read_live a name
      | None, CacheNotFound => Some None
      | _, _ => read_live a name
      end
  end.

Definition alreadyStored (listed : listing) (name label raw : string) : bool :=
  match listed_at listed name with
  | None => false
  | Some cm => bool_decide (cm_Data (sc_cm cm) !! PodName = Some raw)
               && bool_decide (cm_Labels (sc_cm cm) !! SpendConfigMapLabel = Some label)
  end.

Definition own_partial (b : BudgetLedger) (p : ModelProvider) : option string :=
  match OwnPartial b p with
  | None => None
  | Some (period, spend, marginRaised) => Some (MarshalJSON (mk_partial period spend marginRaised (UID p)))
  end.

Definition own_workload_partial (b : BudgetLedger) (p : ModelProvider) : option string :=
  match OwnWorkloadPartial b p with
  | None => None
  | Some (period, spend) => Some (MarshalJSON (mk_partial period spend false (UID p)))
  end.

Definition publishWorkloads (a : A) (b : BudgetLedger) (p : ModelProvider) (listed : listing) : A :=
  match own_workload_partial b p with
  | None => a
  | Some raw =>
      let name := AgentSpendConfigMapName (Name p) in
      if alreadyStored listed name SpendLabelAgentSpend raw then a
      else default a (api_apply a name SpendLabelAgentSpend PodName raw)
  end.

(** The flag says whether the partial is stored when the call returns. *)
Definition publish (a : A) (b : BudgetLedger) (snapshot : Time) (p : ModelProvider) (listed : listing)
  : A * BudgetLedger * bool :=
  match own_partial b p with
  | None => (a, b, false)
  | Some raw =>
      let name := BudgetConfigMapName (Name p) in
      if alreadyStored listed name SpendLabelBudget raw then
        let b := MarkPublished b p snapshot in
        (publishWorkloads a b p listed, b, true)
      else
        match api_apply a name SpendLabelBudget PodName raw with
        | None => (a, b, false)
        | Some a =>
            let b := MarkPublished b p snapshot in
            (publishWorkloads a b p listed, b, true)
        end
  end.

Definition foldWorkloads (a : A) (b : BudgetLedger) (now : Time) (p : ModelProvider) (listed : listing) : BudgetLedger :=
  match readSpendConfigMap a listed (AgentSpendConfigMapName (Name p)) with
  | None => b
  | Some None => FoldWorkloadPeers b now p ∅
  | Some (Some cm) =>
      FoldWorkloadPeers b now p
        (FoldPartials (cm_Data (sc_cm cm)) PodName (PeriodKey (Period (Budget (Spec p))) now) (UID p))
  end.

(** Named [fold] in the source. *)
Definition fold_provider (a : A) (b : BudgetLedger) (now : Time) (p : ModelProvider) (listed : listing) : BudgetLedger :=
  match readSpendConfigMap a listed (BudgetConfigMapName (Name p)) with
  | None => b
  | Some None => FoldPeers b now p ∅
  | Some (Some cm) =>
      let b := FoldPeers b now p
        (FoldPartials (cm_Data (sc_cm cm)) PodName (PeriodKey (Period (Budget (Spec p))) now) (UID p)) in
      foldWorkloads a b now p listed
  end.

Definition tracked (p : ModelProvider) (now : Time) : bool :=
  negb (PeriodKey (Period (Budget (Spec p))) now =? "")%string.

Definition tick_provider (now : Time) (listed : listing) (st : A * BudgetLedger) (p : ModelProvider) : A * BudgetLedger :=
  let '(a, b) := st in
  if negb (tracked p now) then st
  else
    let '(a, b, _) := publish a b now p listed in
    match listed with
    | None => (a, b)
    | Some _ => (a, fold_provider a b now p listed)
    end.

(** One tick: the list is made once, before the first provider. *)
Definition tick (now : Time) (providers : list ModelProvider) (a : A) (b : BudgetLedger) : A * BudgetLedger :=
  foldl (tick_provider now (api_list a)) (a, b) providers.

Definition publishFinal (now : Time) (providers : list ModelProvider) (a : A) (b : BudgetLedger) : A * BudgetLedger :=
  foldl (λ st p, if negb (tracked p now) then st else (publish st.1 st.2 now p None).1) (a, b) providers.

Definition publishByName (now : Time) (providers : list ModelProvider) (a : A) (b : BudgetLedger) (name : string)
  : A * BudgetLedger :=
  match List.find (λ p, (Name p =? name)%string) providers with
  | None => (a, b)
  | Some p => (publish a b now p None).1
  end.

(** The _canonical amounts of a ConfigMap, [None] when it has none to seed. *)
Definition canonical_seed (cm : spendCM) : option (gmap string f64) :=
  match cm_Data (sc_cm cm) !! CanonicalKey with
  | None => None
  | Some raw => match json_unmarshal raw with
                | None => None
                | Some flat => Some (omap ParseFloat flat)
                end
  end.

Definition seed_one (init : BudgetLedger → Time → ModelProvider → gmap string f64 → BudgetLedger)
    (name : string → string) (now : Time) (a : A) (listed : listing) (b : BudgetLedger) (p : ModelProvider) : BudgetLedger :=
  match readSpendConfigMap a listed (name (Name p)) with
  | Some (Some cm) => match canonical_seed cm with Some m => init b now p m | None => b end
  | _ => b
  end.

Definition seedWorkloadsFromCanonical (now : Time) (providers : list ModelProvider) (a : A) (listed : listing)
    (b : BudgetLedger) : BudgetLedger :=
  foldl (seed_one FoldWorkloadPeers AgentSpendConfigMapName now a listed) b providers.

Definition SeedFromCanonical (now : Time) (providers : list ModelProvider) (a : A) (b : BudgetLedger) : BudgetLedger :=
  let listed := api_list a in
  seedWorkloadsFromCanonical now providers a listed
    (foldl (seed_one InitCanonical BudgetConfigMapName now a listed) b providers).

(** ** The watch handler (budget_informer.go) *)

Definition FoldBudgetConfigMapEvent (now : Time) (ProviderByName : string → option ModelProvider)
    (cmName : string) (cm : ConfigMap) (b : BudgetLedger) : BudgetLedger :=
  let fold (into : BudgetLedger → Time → ModelProvider → gmap string f64 → BudgetLedger) (providerName : string) :=
    match ProviderByName providerName with
    | None => b
    | Some p =>
        let currentPeriod := PeriodKey (Period (Budget (Spec p))) now in
        if (currentPeriod =? "")%string then b
        else into b now p (FoldPartials (cm_Data cm) PodName currentPeriod (UID p))
    end in
  match CutPrefix cmName "kaalm-agentspend-" with
  | Some providerName =>
      if (providerName =? "")%string
      then match CutPrefix cmName "kaalm-budget-" with
           | Some n => if (n =? "")%string then b else fold FoldPeers n
           | None => b
           end
      else fold FoldWorkloadPeers providerName
  | None =>
      match CutPrefix cmName "kaalm-budget-" with
      | Some n => if (n =? "")%string then b else fold FoldPeers n
      | None => b
      end
  end.
End publisher.

(** ** Lemmas *)

Section facts.
Context {MR : MapRange} {JM : JsonMap} {A : Type} {SA : SpendApi A} {SL : SpendApiLaws A}.
Context (PodName : string).

Lemma spend_names_differ n n' : BudgetConfigMapName n ≠ AgentSpendConfigMapName n'.
Proof. done. Qed.

Lemma publishWorkloads_budget a b p listed name :
  api_stored (publishWorkloads PodName a b p listed) !! BudgetConfigMapName name
  = api_stored a !! BudgetConfigMapName name.
Proof.
  unfold publishWorkloads. destruct (own_workload_partial b p) as [raw|]; [|done].
  destruct (alreadyStored _ _ _ _ _); [done|].
  destruct (api_apply _ _ _ _ _) as [a'|] eqn:E; [|done]. simpl. eapply apply_other; [exact E|apply spend_names_differ].
Qed.

Lemma MarkPublished_shape b p t name l' :
  providers (MarkPublished b p t) !! name = Some l' →
  ∃ l, providers b !! name = Some l ∧ (l' = l ∨ l' = set_dirtySince l 0%Z).
Proof.
  unfold MarkPublished, boundLedger. intros H.
  destruct (providers b !! Name p) as [l|] eqn:E; [|eauto].
  destruct (negb (l_uid l =? UID p)%string); [eauto|].
  destruct (negb _ && _); [|eauto]. simpl in H.
  destruct (decide (name = Name p)) as [->|Hne].
  - rewrite lookup_insert_eq in H. simplify_eq. eauto.
  - rewrite lookup_insert_ne in H by done. eauto.
Qed.

Lemma publish_ledger a b t p listed a' b' ok name l' :
  publish PodName a b t p listed = (a', b', ok) → providers b' !! name = Some l' →
  ∃ l, providers b !! name = Some l ∧ (l' = l ∨ l' = set_dirtySince l 0%Z).
Proof.
  unfold publish. destruct (own_partial b p) as [raw|]; [|intros [= <- <- <-]; eauto].
  destruct (alreadyStored _ _ _ _ _); [intros [= <- <- <-]; apply MarkPublished_shape|].
  destruct (api_apply _ _ _ _ _); intros [= <- <- <-]; [apply MarkPublished_shape|eauto].
Qed.

Lemma set_dirtySince_twice l : set_dirtySince (set_dirtySince l 0%Z) 0%Z = set_dirtySince l 0%Z.
Proof. done. Qed.

Lemma tick_without_list now ps a b name l' :
  providers (foldl (tick_provider PodName now None) (a, b) ps).2 !! name = Some l' →
  ∃ l, providers b !! name = Some l ∧ (l' = l ∨ l' = set_dirtySince l 0%Z).
Proof.
  revert a b; induction ps as [|p ps IH]; intros a b; cbn [foldl]; [simpl; eauto|].
  destruct (tick_provider PodName now None (a, b) p) as [a1 b1] eqn:Et. unfold tick_provider in Et.
  destruct (negb (tracked p now)); [simplify_eq; apply IH|].
  destruct (publish PodName a b now p None) as [[a2 b2] ok] eqn:Ep. simplify_eq.
  intros (l1 & H1 & Hl1)%IH. destruct (publish_ledger _ _ _ _ _ _ _ _ _ _ Ep H1) as (l & Hl & Hs).
  exists l. split; [done|]. destruct Hl1 as [->| ->], Hs as [->| ->]; eauto.
Qed.

Lemma publish_stores a b t p listed a' b' raw :
  own_partial b p = Some raw →
  (∀ cm, listed_at listed (BudgetConfigMapName (Name p)) = Some cm → api_stored a !! BudgetConfigMapName (Name p) = Some cm) →
  publish PodName a b t p listed = (a', b', true) →
  ∃ cm, api_stored a' !! BudgetConfigMapName (Name p) = Some cm ∧ cm_Data (sc_cm cm) !! PodName = Some raw ∧
    cm_Labels (sc_cm cm) !! SpendConfigMapLabel = Some SpendLabelBudget ∧
    ∀ k, k ≠ PodName →
      cm_Data (sc_cm cm) !! k = (api_stored a !! BudgetConfigMapName (Name p)) ≫= λ c, cm_Data (sc_cm c) !! k.
Proof.
  intros Hraw Hlisted. unfold publish. rewrite Hraw.
  destruct (alreadyStored _ _ _ _ _) eqn:Es.
  - intros [= <- <-]. unfold alreadyStored in Es.
    destruct (listed_at listed _) as [cm|]; [|done]. bool_to_prop.
    exists cm. rewrite publishWorkloads_budget, (Hlisted cm) by done. done.
  - destruct (api_apply _ _ _ _ _) as [a1|] eqn:Ea; [|done]. intros [= <- <-].
    destruct (apply_key _ _ _ _ _ _ Ea) as (cm & Hcm & Hk & Hl & Ho).
    exists cm. by rewrite publishWorkloads_budget.
Qed.

(** Folding keeps the provider's binding; a ledger of an ended period starts
    again. *)
Lemma fold_into_ledger b now p l0 (upd : providerLedger → providerLedger) b' :
  (∀ l, l_uid (upd l) = l_uid l ∧ l_period (upd l) = l_period l ∧ own (upd l) = own l) →
  UID p ∉ superseded b → providers b !! Name p = Some l0 → l_uid l0 = UID p →
  (let '(b1, r) := ledgerOf b now p in store b1 (Name p) r (upd (deref r))) = b' →
  ∃ l', providers b' !! Name p = Some l' ∧ l_uid l' = UID p ∧ superseded b' = superseded b ∧
    l_period l' = PeriodKey (Period (Budget (Spec p))) now ∧
    own l' = if decide (l_period l0 = PeriodKey (Period (Budget (Spec p))) now) then own l0 else ∅.
Proof.
  intros Hupd Hsup Hl Hu <-. unfold ledgerOf.
  destruct (ledgerFor_cases b now (Name p) (UID p) (Period (Budget (Spec p)))) as [[? _]|(_ & l & sup & E & Hlu & Hlp & Hm)]; [done|].
  rewrite E, Hl in *. exists (upd l). cbn [store deref set_providers providers superseded]. rewrite lookup_insert_eq.
  destruct (Hupd l) as (U1 & U2 & U3). rewrite U1, U2, U3.
  destruct Hm as [(? & _)|[(_ & Hp & -> & ->)|(_ & Hp & -> & ->)]]; [done|..].
  - by rewrite decide_True.
  - by rewrite decide_False.
Qed.

Lemma FoldPeers_ledger b now p m l0 :
  UID p ∉ superseded b → providers b !! Name p = Some l0 → l_uid l0 = UID p →
  ∃ l', providers (FoldPeers b now p m) !! Name p = Some l' ∧ l_uid l' = UID p ∧
    superseded (FoldPeers b now p m) = superseded b ∧
    l_period l' = PeriodKey (Period (Budget (Spec p))) now ∧
    own l' = if decide (l_period l0 = PeriodKey (Period (Budget (Spec p))) now) then own l0 else ∅.
Proof.
  intros. eapply (fold_into_ledger b now p l0 (λ l, set_lastFoldOK (set_peers l m) now)); done.
Qed.

Lemma FoldWorkloadPeers_ledger b now p m l0 :
  UID p ∉ superseded b → providers b !! Name p = Some l0 → l_uid l0 = UID p →
  ∃ l', providers (FoldWorkloadPeers b now p m) !! Name p = Some l' ∧ l_uid l' = UID p ∧
    superseded (FoldWorkloadPeers b now p m) = superseded b ∧
    l_period l' = PeriodKey (Period (Budget (Spec p))) now ∧
    own l' = if decide (l_period l0 = PeriodKey (Period (Budget (Spec p))) now) then own l0 else ∅.
Proof. intros. eapply (fold_into_ledger b now p l0 (λ l, set_peersW l m)); done. Qed.

Lemma fold_provider_rolls a b now p listed l0 :
  UID p ∉ superseded b → providers b !! Name p = Some l0 → l_uid l0 = UID p →
  l_period l0 ≠ PeriodKey (Period (Budget (Spec p))) now →
  readSpendConfigMap a listed (BudgetConfigMapName (Name p)) ≠ None →
  ∃ l', providers (fold_provider PodName a b now p listed) !! Name p = Some l' ∧
    l_period l' = PeriodKey (Period (Budget (Spec p))) now ∧ own l' = ∅.
Proof.
  intros Hsup Hl Hu Hp Hread. unfold fold_provider.
  destruct (readSpendConfigMap a listed _) as [[cm|]|]; [| |done].
  - match goal with |- context [FoldPeers b now p ?m] =>
      destruct (FoldPeers_ledger b now p m l0 Hsup Hl Hu) as (l1 & H1 & Hu1 & Hs1 & Hp1 & Ho1) end.
    rewrite decide_False in Ho1 by done. unfold foldWorkloads.
    destruct (readSpendConfigMap a listed _) as [[cm'|]|]; [| |eauto];
      match goal with |- context [FoldWorkloadPeers ?b' ?t p ?m] =>
        destruct (FoldWorkloadPeers_ledger b' t p m l1) as (l2 & H2 & _ & _ & Hp2 & Ho2); [by rewrite Hs1|done|done|] end;
      exists l2; rewrite decide_True in Ho2 by done; by rewrite Ho2.
  - destruct (FoldPeers_ledger b now p ∅ l0 Hsup Hl Hu) as (l1 & H1 & _ & _ & Hp1 & Ho1).
    rewrite decide_False in Ho1 by done. eauto.
Qed.

Lemma boundLedger_Some b p l : boundLedger b p = Some l → providers b !! Name p = Some l ∧ l_uid l = UID p.
Proof.
  unfold boundLedger. destruct (providers b !! Name p) as [l0|]; [|done].
  destruct (String.eqb_spec (l_uid l0) (UID p)); simpl; naive_solver.
Qed.

Lemma MarkPublished_bound b p t l :
  boundLedger b p = Some l →
  ∃ l', providers (MarkPublished b p t) !! Name p = Some l' ∧ l_uid l' = l_uid l ∧ l_period l' = l_period l ∧
    superseded (MarkPublished b p t) = superseded b.
Proof.
  intros Hb. pose proof (boundLedger_Some _ _ _ Hb) as [Hl Hu]. unfold MarkPublished. rewrite Hb.
  destruct (negb _ && _); simpl; [|eauto 10]. rewrite lookup_insert_eq. eexists; split; [done|]. done.
Qed.

Lemma publish_marks a b t p listed a' b' :
  publish PodName a b t p listed = (a', b', true) → b' = MarkPublished b p t.
Proof. unfold publish. intros H. repeat (case_match; simplify_eq/=); done. Qed.

(** ** Properties *)

(** A publish is visible.  When a publish of a replica with spend reports
    success, the server stores under the replica's own key exactly the
    partial of its ledger, with the label the peers' list selects on, and
    every other replica's value and the reducer's values are what they were,
    whether the partial was applied or the list showed it already stored. *)
Theorem publish_is_stored a b t p listed a' b' l
    (Hlisted : ∀ cm, listed_at listed (BudgetConfigMapName (Name p)) = Some cm →
       api_stored a !! BudgetConfigMapName (Name p) = Some cm)
    (Hledger : boundLedger b p = Some l)
    (Hspend : own l ≠ ∅)
    (Hpublish : publish PodName a b t p listed = (a', b', true)) :
  ∃ cm, api_stored a' !! BudgetConfigMapName (Name p) = Some cm ∧
    cm_Data (sc_cm cm) !! PodName
      = Some (MarshalJSON (mk_partial (l_period l) (format_all (own l)) (marginRaised l) (UID p))) ∧
    cm_Labels (sc_cm cm) !! SpendConfigMapLabel = Some SpendLabelBudget ∧
    ∀ k, k ≠ PodName →
      cm_Data (sc_cm cm) !! k = (api_stored a !! BudgetConfigMapName (Name p)) ≫= λ c, cm_Data (sc_cm c) !! k.
Proof.
  apply (publish_stores a b t p listed a' b'); [|done|done].
  unfold own_partial, OwnPartial. by rewrite Hledger, decide_False.
Qed.

(** A failed list fails closed.  A tick whose list fails stamps no ledger's
    read-path liveness and folds no peer spend: apart from the publish signal
    every ledger is what it was, so once the staleness window has passed since
    its last good fold, hard admission cannot verify the budget state. *)
Theorem failed_list_folds_nothing now providers_ a b name l'
    (Hlist : api_list a = None)
    (Hl : providers (tick PodName now providers_ a b).2 !! name = Some l') :
  ∃ l, providers b !! name = Some l ∧ lastFoldOK l' = lastFoldOK l ∧ peers l' = peers l ∧ own l' = own l ∧
    ∀ b2 later, (stalenessWindow b2 < Sub later (lastFoldOK l))%Z → cannot_verify b2 later l' = true.
Proof.
  unfold tick in Hl. rewrite Hlist in Hl. apply tick_without_list in Hl as (l & Hl & Hs).
  exists l. split; [done|].
  assert (Hf : lastFoldOK l' = lastFoldOK l ∧ peers l' = peers l ∧ own l' = own l) by (destruct Hs as [->| ->]; done).
  destruct Hf as (Hf & Hp & Ho). split_and!; [done..|]. intros b2 later Hw.
  unfold cannot_verify. rewrite Hf. apply Z.ltb_lt in Hw. rewrite Hw. by rewrite !orb_true_r.
Qed.

(** The ended period is published first.  On the first tick after a period
    ends, a replica whose publish succeeds stores its final partial of the
    ended period under its key, and the ledger then starts the new period
    with no spend of its own. *)
Theorem rollover_publishes_ended_period now listed l_list a b p l a' b'
    (Hlisted : listed = Some l_list)
    (Htracked : tracked p now = true)
    (Hfresh : (UID p) ∉ superseded b)
    (Hledger : boundLedger b p = Some l)
    (Hspend : own l ≠ ∅)
    (Hended : l_period l ≠ PeriodKey (Period (Budget (Spec p))) now)
    (Hagree : ∀ cm, l_list !! BudgetConfigMapName (Name p) = Some cm →
       api_stored a !! BudgetConfigMapName (Name p) = Some cm)
    (Hpublish : (publish PodName a b now p listed).2 = true)
    (Hread : readSpendConfigMap (publish PodName a b now p listed).1.1 listed (BudgetConfigMapName (Name p)) ≠ None)
    (Htick : tick_provider PodName now listed (a, b) p = (a', b')) :
  (∃ cm, api_stored a' !! BudgetConfigMapName (Name p) = Some cm ∧
     cm_Data (sc_cm cm) !! PodName
       = Some (MarshalJSON (mk_partial (l_period l) (format_all (own l)) (marginRaised l) (UID p)))) ∧
  ∃ l', providers b' !! Name p = Some l' ∧ l_period l' = PeriodKey (Period (Budget (Spec p))) now ∧ own l' = ∅.
Proof.
  subst listed. unfold tick_provider in Htick. rewrite Htracked in Htick. cbn [negb] in Htick.
  destruct (publish PodName a b now p (Some l_list)) as [[a1 b1] ok] eqn:Ep. simpl in Hpublish, Hread. subst ok.
  simplify_eq. split.
  - destruct (publish_stores a b now p (Some l_list) a' b1
      (MarshalJSON (mk_partial (l_period l) (format_all (own l)) (marginRaised l) (UID p)))) as (cm & Hcm & Hk & _);
      [|exact Hagree|exact Ep|eauto].
    unfold own_partial, OwnPartial. by rewrite Hledger, decide_False.
  - apply publish_marks in Ep as ->.
    destruct (MarkPublished_bound b p now l Hledger) as (l1 & Hl1 & Hu1 & Hp1 & Hs1).
    apply boundLedger_Some in Hledger as [_ Hu].
    apply (fold_provider_rolls _ _ _ _ _ l1); [by rewrite Hs1|done|congruence|congruence|done].
Qed.
End facts.

(** ** An API server in memory

    It answers every request from its state; the flag makes lists fail. *)
Definition memApi : Type := bool * gmap string spendCM.

Definition mem_apply (a : memApi) (name label key raw : string) : option memApi :=
  let old := default (mk_spend_cm (mk_cm ∅ ∅) "0") (a.2 !! name) in
  Some (a.1, <[name := mk_spend_cm (mk_cm (<[SpendConfigMapLabel := label]> (cm_Labels (sc_cm old)))
                                       (<[key := raw]> (cm_Data (sc_cm old)))) (sc_version old +:+ "1")]> a.2).

#[local] Instance mem_api : SpendApi memApi := {|
  api_stored (a : memApi) := snd a;
  api_list (a : memApi) := if fst a then Some (snd a) else None;
  api_get (a : memApi) name := Some (snd a !! name);
  api_cache (a : memApi) := None;
  api_apply := mem_apply;
|}.

#[local] Instance mem_laws : SpendApiLaws memApi.
Proof.
  split.
  - intros a name r [= <-]. done.
  - intros [[] s] l name cm; simpl; [|done]. by intros [= <-].
  - intros a name label key raw a' [= <-]. simpl. eexists. rewrite lookup_insert_eq. split; [done|]. simpl.
    rewrite !lookup_insert_eq. split_and!; [done..|]. intros k Hk. rewrite lookup_insert_ne by done.
    by destruct (a.2 !! name).
  - intros a name label key raw a' name' [= <-] Hne. simpl. by rewrite lookup_insert_ne.
Qed.

Definition example_p : ModelProvider := example_provider "hard".
Definition example_own : providerLedger := default (newProviderLedger "" "") (providers example_ledger !! "claude").
Definition example_publish : memApi * BudgetLedger * bool :=
  @publish list_order bits_codec memApi mem_api "gw-1" (true, ∅) example_ledger (example_now + Minute)%Z example_p None.

Lemma publish_is_stored_witness :
  ∃ cm, example_publish.1.1.2 !! "kaalm-budget-claude" = Some cm ∧
    cm_Data (sc_cm cm) !! "gw-1"
    = Some (@MarshalJSON list_order bits_codec
        (mk_partial (l_period example_own) (format_all (own example_own)) (marginRaised example_own) "uid-1")).
Proof.
  destruct (@publish_is_stored list_order bits_codec memApi mem_api mem_laws "gw-1" (true, ∅) example_ledger
    (example_now + Minute)%Z example_p None example_publish.1.1 example_publish.1.2 example_own
    ltac:(done) ltac:(vm_compute; reflexivity) ltac:(vm_decide) ltac:(vm_compute; reflexivity))
    as (cm & Hcm & Hk & _).
  exists cm. exact (conj Hcm Hk).
Defined.

Definition example_failed_tick : memApi * BudgetLedger :=
  @tick list_order bits_codec memApi mem_api "gw-1" (example_now + Minute)%Z [example_p] (false, ∅) example_ledger.

Definition example_unfolded : providerLedger :=
  default (newProviderLedger "" "") (providers example_failed_tick.2 !! "claude").

Lemma failed_list_folds_nothing_witness :
  ∃ l, providers example_ledger !! "claude" = Some l ∧ lastFoldOK example_unfolded = lastFoldOK l.
Proof.
  destruct (@failed_list_folds_nothing list_order bits_codec memApi mem_api "gw-1" (example_now + Minute)%Z [example_p]
    (false, ∅) example_ledger "claude" example_unfolded eq_refl ltac:(vm_compute; reflexivity)) as (l & Hl & Hf & _).
  exists l. exact (conj Hl Hf).
Defined.

(** October has begun when the September ledger ticks. *)
Definition october : Time := Date 2026 10 1.
Definition example_tick : memApi * BudgetLedger :=
  @tick_provider list_order bits_codec memApi mem_api "gw-1" october (Some ∅) ((true, ∅), example_ledger) example_p.

Lemma rollover_publishes_ended_period_witness :
  ∃ cm, @api_stored memApi mem_api example_tick.1 !! BudgetConfigMapName (Name example_p) = Some cm ∧
     cm_Data (sc_cm cm) !! "gw-1"
     = Some (@MarshalJSON list_order bits_codec
         (mk_partial (l_period example_own) (format_all (own example_own)) (marginRaised example_own) (UID example_p))).
Proof.
  refine (proj1 (@rollover_publishes_ended_period list_order bits_codec memApi mem_api mem_laws "gw-1" october (Some ∅) ∅
    (true, ∅) example_ledger example_p example_own example_tick.1 example_tick.2 eq_refl _ _ _ _ _ _ _ _ _)).
  - vm_compute. reflexivity.
  - vm_decide.
  - vm_compute. reflexivity.
  - vm_decide.
  - vm_decide.
  - intros cm H. discriminate H.
  - vm_compute. reflexivity.
  - vm_compute. discriminate.
  - vm_compute. reflexivity.
Defined.
