(* ===== verification/CallbackPolicy.v ===== *)
(** The callback target policy (rule 22): internal/callbackpolicy/policy.go.

    [net.IP] is its bytes, four or sixteen of them; [IPNet] is a network
    number and a mask of bytes.  The address predicates are the standard
    library's.  [net.ParseCIDR] and [net.ParseIP] on text are parameters: the
    policy's decisions do not depend on how an entry was written. *)

From stdpp Require Import base list strings option.
From Stdlib Require Import ZArith Lia Ascii.
From S2P Require Import Prelude GoFloat.

(** ** net.IP *)

Definition IP : Type := list Z.

Definition byte (ip : IP) (i : nat) : Z := default 0%Z (ip !! i).

Definition v4InV6Prefix : list Z := [0; 0; 0; 0; 0; 0; 0; 0; 0; 0; 255; 255]%Z.

Definition To4 (ip : IP) : option IP :=
  if (length ip =? 4)%nat then Some ip
  else if (length ip =? 16)%nat && bool_decide (firstn 12 ip = v4InV6Prefix) then Some (skipn 12 ip)
  else None.

(** [ip.To16()] of a four-byte address. *)
Definition mapped (ip4 : IP) : IP := v4InV6Prefix ++ ip4.

Definition ip_equal (x y : IP) : bool :=
  if (length x =? length y)%nat then bool_decide (x = y)
  else if (length x =? 4)%nat && (length y =? 16)%nat then bool_decide (mapped x = y)
  else if (length x =? 16)%nat && (length y =? 4)%nat then bool_decide (x = mapped y)
  else false.

Definition IPv4zero : IP := mapped [0; 0; 0; 0]%Z.
Definition IPv6unspecified : IP := replicate 16 0%Z.
Definition IPv6loopback : IP := replicate 15 0%Z ++ [1%Z].

Definition IsLoopback (ip : IP) : bool :=
  match To4 ip with
  | Some ip4 => (byte ip4 0 =? 127)%Z
  | None => ip_equal ip IPv6loopback
  end.

Definition IsUnspecified (ip : IP) : bool := ip_equal ip IPv4zero || ip_equal ip IPv6unspecified.

Definition IsLinkLocalUnicast (ip : IP) : bool :=
  match To4 ip with
  | Some ip4 => ((byte ip4 0 =? 169) && (byte ip4 1 =? 254))%Z
  | None => (length ip =? 16)%nat && ((byte ip 0 =? 254) && (Z.land (byte ip 1) 192 =? 128))%Z
  end.

Definition IsLinkLocalMulticast (ip : IP) : bool :=
  match To4 ip with
  | Some ip4 => ((byte ip4 0 =? 224) && (byte ip4 1 =? 0) && (byte ip4 2 =? 0))%Z
  | None => (length ip =? 16)%nat && ((byte ip 0 =? 255) && (Z.land (byte ip 1) 15 =? 2))%Z
  end.

Definition IsPrivate (ip : IP) : bool :=
  match To4 ip with
  | Some ip4 => ((byte ip4 0 =? 10)
                 || ((byte ip4 0 =? 172) && (Z.land (byte ip4 1) 240 =? 16))
                 || ((byte ip4 0 =? 192) && (byte ip4 1 =? 168)))%Z
  | None => (length ip =? 16)%nat && (Z.land (byte ip 0) 254 =? 252)%Z
  end.

Record IPNet := mk_net { net_IP : IP; net_Mask : list Z }.

Definition networkNumberAndMask (n : IPNet) : option (IP * list Z) :=
  let ip := match To4 (net_IP n) with
            | Some ip4 => Some ip4
            | None => if (length (net_IP n) =? 16)%nat then Some (net_IP n) else None
            end in
  match ip with
  | None => None
  | Some ip =>
      if (length (net_Mask n) =? 4)%nat then (if (length ip =? 4)%nat then Some (ip, net_Mask n) else None)
      else if (length (net_Mask n) =? 16)%nat
      then Some (ip, if (length ip =? 4)%nat then skipn 12 (net_Mask n) else net_Mask n)
      else None
  end.

Fixpoint masked_equal (nn ip m : list Z) : bool :=
  match nn, ip, m with
  | n :: nn, a :: ip, k :: m => (Z.land n k =? Z.land a k)%Z && masked_equal nn ip m
  | _, _, _ => true
  end.

Definition Contains (n : IPNet) (ip : IP) : bool :=
  let ip := default ip (To4 ip) in
  match networkNumberAndMask n with
  | None => false
  | Some (nn, m) => (length ip =? length nn)%nat && masked_equal nn ip m
  end.

(** ** Policies *)

Record Policy := mk_policy_set { suffixes : list string; cidrs : list IPNet }.

(** 100.64.0.0/10 and 198.18.0.0/15 as ParseCIDR returns them. *)
Definition internalInPractice : list IPNet :=
  [mk_net [100; 64; 0; 0]%Z [255; 192; 0; 0]%Z; mk_net [198; 18; 0; 0]%Z [255; 254; 0; 0]%Z].

Definition matches (p : Policy) (host : string) (ip : IP) : bool :=
  let name := ToLower (TrimSuffix host ".") in
  existsb (λ suffix, (name =? suffix)%string || HasSuffix name ("." +:+ suffix)) (suffixes p)
  || existsb (λ network, Contains network ip) (cidrs p).

(** The addresses no allowlist opens. *)
Definition floor (ip : IP) : bool :=
  IsLoopback ip || IsLinkLocalUnicast ip || IsLinkLocalMulticast ip || IsUnspecified ip.

Definition Allowed (p : Policy) (host : string) (ip : IP) : bool :=
  if floor ip then false
  else if matches p host ip then true
  else if IsPrivate ip then false
  else negb (existsb (λ network, Contains network ip) internalInPractice).

Section parsing.
(** The network of a CIDR text or the parser's error, and the address of an
    IP text. *)
Context (ParseCIDR : string → IPNet + string) (ParseIP : string → option IP).

Definition add_entry (p : Policy) (raw : string) : Policy :=
  let entry := TrimSpace raw in
  if (entry =? "")%string then p
  else match ParseCIDR entry with
       | inl network => mk_policy_set (suffixes p) (cidrs p ++ [network])
       | inr _ => mk_policy_set (suffixes p ++ [ToLower (TrimPrefix entry ".")]) (cidrs p)
       end.

Definition New (entries : list string) : Policy := foldl add_entry (mk_policy_set [] []) entries.

Fixpoint label_chars (first : bool) (label : string) : bool :=
  match label with
  | EmptyString => true
  | String c rest =>
      let z := ascii_Z c in
      let letter := ((97 <=? z) && (z <=? 122) || (65 <=? z) && (z <=? 90) || (48 <=? z) && (z <=? 57))%Z in
      let last := match rest with EmptyString => true | _ => false end in
      (letter || ((z =? 45)%Z && negb first && negb last)) && label_chars false rest
  end.

Definition dnsSuffixShaped (s : string) : bool :=
  if (s =? "")%string || (253 <? String.length s)%nat then false
  else forallb (λ label, negb (label =? "")%string && negb (63 <? String.length label)%nat && label_chars true label)
         (split_char "." s).

(** The entry the strict constructor hands on, or the error's message. *)
Definition strict_entry (entry : string) : string + string :=
  if contains_char "/" entry then
    match ParseCIDR entry with
    | inr err => inr ("allowlist entry " +:+ (Quote entry +:+ (" is not a valid CIDR: " +:+ err)))
    | inl _ => inl entry
    end
  else
    match ParseIP entry with
    | Some ip => inl (entry +:+ (match To4 ip with Some _ => "/32" | None => "/128" end))
    | None =>
        if dnsSuffixShaped (TrimPrefix entry ".") then inl entry
        else inr ("allowlist entry " +:+ (Quote entry +:+ " is neither a CIDR nor a DNS-name suffix"))
    end.

Fixpoint strict_entries (raws : list string) : list string + string :=
  match raws with
  | [] => inl []
  | raw :: raws =>
      let entry := TrimSpace raw in
      if (entry =? "")%string then strict_entries raws
      else match strict_entry entry with
           | inr e => inr e
           | inl x => match strict_entries raws with inr e => inr e | inl xs => inl (x :: xs) end
           end
  end.

Definition NewFromCSVStrict (csv : string) : Policy + string :=
  match strict_entries (split_char "," csv) with
  | inr e => inr e
  | inl entries => inl (New entries)
  end.
End parsing.

(** ** Lemmas *)

Lemma To4_mapped ip : length ip = 4%nat → To4 (mapped ip) = Some ip ∧ To4 ip = Some ip.
Proof.
  intros Hl. destruct ip as [|a [|b [|c [|d [|]]]]]; try done.
Qed.

Lemma ip_equal_mapped ip y : length ip = 4%nat → length y = 16%nat → ip_equal (mapped ip) y = ip_equal ip y.
Proof.
  intros Hl Hy. unfold ip_equal, mapped. rewrite length_app, Hl, Hy. done.
Qed.

Lemma floor_mapped ip : length ip = 4%nat → floor (mapped ip) = floor ip.
Proof.
  intros Hl. destruct (To4_mapped ip Hl) as [E E'].
  unfold floor, IsLoopback, IsLinkLocalUnicast, IsLinkLocalMulticast, IsUnspecified.
  by rewrite E, E', !ip_equal_mapped by done.
Qed.

Lemma Contains_mapped n ip : length ip = 4%nat → Contains n (mapped ip) = Contains n ip.
Proof. intros Hl. destruct (To4_mapped ip Hl) as [E E']. unfold Contains. by rewrite E, E'. Qed.

Lemma existsb_ext_in {B} (f g : B → bool) l : (∀ x, f x = g x) → existsb f l = existsb g l.
Proof. intros H. induction l as [|x l IH]; simpl; [done|]. by rewrite H, IH. Qed.

(** Byte predicates are compared on all 256 values. *)
Lemma byte_check (f g : Z → bool) :
  forallb (λ x, Bool.eqb (f x) (g x)) (seqZ 0 256) = true → ∀ x, (0 <= x < 256)%Z → f x = g x.
Proof.
  intros H x Hx. rewrite forallb_forall in H. apply Bool.eqb_prop, H.
  apply list_elem_of_In, elem_of_seqZ. lia.
Qed.

Lemma mask_172 x : (0 <= x < 256)%Z → (Z.land x 240 =? 16)%Z = ((16 <=? x) && (x <=? 31))%Z.
Proof. apply (byte_check (λ x, Z.land x 240 =? 16)%Z (λ x, (16 <=? x) && (x <=? 31))%Z). by vm_compute. Qed.

Lemma mask_100 x : (0 <= x < 256)%Z → (64 =? Z.land x 192)%Z = ((64 <=? x) && (x <=? 127))%Z.
Proof. apply (byte_check (λ x, 64 =? Z.land x 192)%Z (λ x, (64 <=? x) && (x <=? 127))%Z). by vm_compute. Qed.

Lemma mask_198 x : (0 <= x < 256)%Z → (18 =? Z.land x 254)%Z = ((18 <=? x) && (x <=? 19))%Z.
Proof. apply (byte_check (λ x, 18 =? Z.land x 254)%Z (λ x, (18 <=? x) && (x <=? 19))%Z). by vm_compute. Qed.

Lemma mask_full n x : (0 <= x < 256)%Z → (n =? Z.land x 255)%Z = (x =? n)%Z.
Proof.
  intros Hx. change 255%Z with (Z.ones 8). rewrite Z.land_ones by lia.
  rewrite Z.mod_small by lia. apply Z.eqb_sym.
Qed.

(** The empty allowlist. *)
Definition default_policy : Policy := mk_policy_set [] [].

(** An IPv4 address of a range that is internal, by its bytes. *)
Definition internal_v4 (a b c d : Z) : bool :=
  ((a =? 127) || ((a =? 169) && (b =? 254)) || ((a =? 224) && (b =? 0) && (c =? 0))
   || ((a =? 0) && (b =? 0) && (c =? 0) && (d =? 0))
   || (a =? 10) || ((a =? 172) && ((16 <=? b) && (b <=? 31))) || ((a =? 192) && (b =? 168))
   || ((a =? 100) && ((64 <=? b) && (b <=? 127))) || ((a =? 198) && ((18 <=? b) && (b <=? 19))))%Z.

Lemma contains_shared a b c d :
  (0 <= a < 256)%Z → (0 <= b < 256)%Z →
  existsb (λ network, Contains network [a; b; c; d]) internalInPractice
  = (((a =? 100) && ((64 <=? b) && (b <=? 127))) || ((a =? 198) && ((18 <=? b) && (b <=? 19))))%Z.
Proof.
  intros Ha Hb. unfold internalInPractice, Contains. cbn -[Z.land Z.eqb Z.leb].
  change (Z.land 100 255) with 100%Z. change (Z.land 64 192) with 64%Z. change (Z.land 198 255) with 198%Z.
  change (Z.land 18 254) with 18%Z. change (Z.land 0 0) with 0%Z.
  rewrite !Z.land_0_r, !mask_full, mask_100, mask_198 by done. rewrite Z.eqb_refl. by rewrite !andb_true_r, !orb_false_r.
Qed.

Lemma unspecified_v4 a b c d :
  IsUnspecified [a; b; c; d] = ((a =? 0) && (b =? 0) && (c =? 0) && (d =? 0))%Z.
Proof.
  unfold IsUnspecified, ip_equal, IPv4zero, IPv6unspecified, mapped, v4InV6Prefix. cbn [length Nat.eqb app andb].
  rewrite (bool_decide_false (_ = replicate 16 0%Z)) by (intros E; discriminate E). rewrite orb_false_r.
  apply eq_true_iff_eq. rewrite bool_decide_eq_true, !andb_true_iff, !Z.eqb_eq.
  split; [intros E; injection E as -> -> -> ->; done|intros [[[-> ->] ->] ->]; reflexivity].
Qed.

Lemma refuse_chain (x y z : bool) :
  (if x then false else if false then true else if y then false else negb z) = negb (x || y || z).
Proof. by destruct x, y, z. Qed.

(** ** Properties *)

(** The default policy on IPv4.  Without an allowlist a callback may go to
    an IPv4 address exactly when it lies outside loopback, link-local, the
    unspecified address, the RFC 1918 ranges, 100.64.0.0/10 and
    198.18.0.0/15, whatever the host name. *)
Theorem default_policy_ipv4_exact host a b c d
    (Ha : (0 <= a < 256)%Z) (Hb : (0 <= b < 256)%Z) (Hc : (0 <= c < 256)%Z) (Hd : (0 <= d < 256)%Z) :
  Allowed default_policy host [a; b; c; d] = negb (internal_v4 a b c d).
Proof.
  unfold Allowed, floor. rewrite contains_shared, unspecified_v4 by done.
  unfold IsLoopback, IsLinkLocalUnicast, IsLinkLocalMulticast, IsPrivate, matches, internal_v4, byte.
  cbn [To4 length Nat.eqb default lookup list_lookup suffixes cidrs default_policy existsb orb].
  rewrite mask_172 by done.
  rewrite refuse_chain. f_equal. by rewrite <- !orb_assoc.
Qed.

Lemma default_policy_ipv4_exact_witness :
  Allowed default_policy "example.com" [169; 254; 169; 254]%Z = false ∧
  Allowed default_policy "example.com" [93; 184; 216; 34]%Z = true.
Proof.
  split.
  - rewrite (default_policy_ipv4_exact "example.com" 169 254 169 254) by lia. vm_compute. reflexivity.
  - rewrite (default_policy_ipv4_exact "example.com" 93 184 216 34) by lia. vm_compute. reflexivity.
Defined.

(** What an allowlist can open.  No policy allows a loopback, link-local or
    unspecified address.  A target the default policy refuses is allowed only
    if the host is an allowlisted name or a subdomain of one, or an
    allowlisted network holds the address; and an IPv4 address is decided the
    same in its four-byte and its IPv4-mapped form. *)
Theorem allowlist_opens_only_its_targets p host ip :
  (floor ip = true → Allowed p host ip = false) ∧
  (Allowed p host ip = true → Allowed default_policy host ip = false →
     (∃ s, s ∈ suffixes p ∧
        (ToLower (TrimSuffix host ".") = s ∨ ∃ sub, ToLower (TrimSuffix host ".") = (sub +:+ ("." +:+ s)))) ∨
     (∃ n, n ∈ cidrs p ∧ Contains n ip = true)) ∧
  (length ip = 4%nat → Allowed p host (mapped ip) = Allowed p host ip).
Proof.
  split_and!.
  - unfold Allowed. by intros ->.
  - unfold Allowed. destruct (floor ip); [done|]. change (matches default_policy host ip) with false. cbn [orb].
    destruct (matches p host ip) eqn:Em; [|congruence]. intros _ _. unfold matches in Em. cbv zeta in Em.
    apply orb_true_iff in Em as [Em|Em]; apply existsb_exists in Em as (x & Hin & Hx); apply list_elem_of_In in Hin.
    + left. exists x. split; [done|]. apply orb_true_iff in Hx as [Hx|Hx]; [left; by apply String.eqb_eq|right].
      by apply HasSuffix_spec.
    + right. eauto.
  - intros Hl. destruct (To4_mapped ip Hl) as [E E']. unfold Allowed. rewrite floor_mapped by done.
    unfold matches. cbv zeta. rewrite !(existsb_ext_in (λ n, Contains n (mapped ip)) (λ n, Contains n ip))
      by (intros; by apply Contains_mapped).
    unfold IsPrivate. by rewrite E, E'.
Qed.
