(* ===== verification/Conditions.v ===== *)
(** Status conditions: metav1.Condition and the helpers of apimachinery the
    reconcilers use, behind a class with their documented behaviour. *)

From stdpp Require Import base gmap strings option.
From Stdlib Require Import ZArith.
From S2P Require Import Prelude GoTime.

Record Condition := mk_condition {
  cond_Type : string; cond_Status : bool; cond_Reason : string; cond_Message : string; LastTransitionTime : Time;
}.

(** What the controller uses of apimachinery's condition helpers: a set
    condition is found, keeping the stored transition time while its status
    stays the same, and the others are untouched. *)
Class Conditions := {
  conditions : Type;
  FindStatusCondition : conditions → string → option Condition;
  SetStatusCondition : Time → conditions → Condition → conditions;
  RemoveStatusCondition : conditions → string → conditions;
  find_set now cs c : FindStatusCondition (SetStatusCondition now cs c) (cond_Type c)
    = Some (mk_condition (cond_Type c) (cond_Status c) (cond_Reason c) (cond_Message c)
        (match FindStatusCondition cs (cond_Type c) with
         | Some old => if Bool.eqb (cond_Status old) (cond_Status c) then LastTransitionTime old
                       else if IsZero (LastTransitionTime c) then now else LastTransitionTime c
         | None => if IsZero (LastTransitionTime c) then now else LastTransitionTime c
         end));
  find_set_other now cs c ty : ty ≠ cond_Type c → FindStatusCondition (SetStatusCondition now cs c) ty = FindStatusCondition cs ty;
  find_remove cs ty : FindStatusCondition (RemoveStatusCondition cs ty) ty = None;
  find_remove_other cs ty ty' : ty' ≠ ty → FindStatusCondition (RemoveStatusCondition cs ty) ty' = FindStatusCondition cs ty';
}.

Definition ConditionReady : string := "Ready".
Definition ConditionGatewayReachable : string := "GatewayReachable".
Definition ConditionPodUpToDate : string := "PodUpToDate".
Definition ConditionIdleDetection : string := "IdleDetection".
Definition ConditionBoundaryMarginRaised : string := "BoundaryMarginRaised".
Definition ConditionMaxOutputTokensUnset : string := "MaxOutputTokensUnset".
Definition ConditionFallbackIneligible : string := "FallbackIneligible".

(** apimeta.IsStatusConditionTrue. *)
Definition IsStatusConditionTrue {CD : Conditions} (cs : conditions) (ty : string) : bool :=
  match FindStatusCondition cs ty with Some c => cond_Status c | None => false end.

(** Conditions as a map from the type. *)
Definition map_set (now : Time) (m : gmap string Condition) (c : Condition) : gmap string Condition :=
  <[cond_Type c := mk_condition (cond_Type c) (cond_Status c) (cond_Reason c) (cond_Message c)
      (match m !! cond_Type c with
       | Some old => if Bool.eqb (cond_Status old) (cond_Status c) then LastTransitionTime old
                     else if IsZero (LastTransitionTime c) then now else LastTransitionTime c
       | None => if IsZero (LastTransitionTime c) then now else LastTransitionTime c
       end)]> m.

Definition map_conditions : Conditions.
Proof.
  refine {| conditions := gmap string Condition; FindStatusCondition m ty := m !! ty; SetStatusCondition := map_set;
            RemoveStatusCondition m ty := delete ty m |}.
  - intros. unfold map_set. by rewrite lookup_insert_eq.
  - intros. unfold map_set. by rewrite lookup_insert_ne.
  - intros. by rewrite lookup_delete_eq.
  - intros. by rewrite lookup_delete_ne.
Defined.
