(* ===== verification/ProviderValidation.v ===== *)
(** The configuration checks of the ModelProvider reconciler
    (internal/controller/modelprovider_controller.go and glob_patterns.go):
    the fallback tree, the degrade targets, the prices a hard budget needs
    and the namespace patterns.

    The walk over the fallback tree reads providers from [cluster], a name's
    entry being the provider, an entry without one a read that fails, and no
    entry a provider that does not exist.  It is bounded by fuel, one more
    than the providers there are ([validateFallback_returns]).

    The second half states what each check means on the provider graph and
    shows the checks exact. *)

From stdpp Require Import base gmap sets list strings option.
From Stdlib Require Import ZArith Lia Ascii.
From S2P Require Import Prelude GoFloat GoTime GoPath Json JsonString Api BudgetReducer ProblemList Conditions.

Definition ReasonInvalidDegradeTarget : string := "InvalidDegradeTarget".
Definition ReasonInvalidModelMap : string := "InvalidModelMap".
Definition ReasonFallbackIneligible : string := "FallbackIneligible".
Definition ReasonHardBudgetUnpriced : string := "HardBudgetUnpriced".
Definition ReasonInvalidNamespacePattern : string := "InvalidNamespacePattern".
Definition ReasonMaxOutputTokensUnset : string := "MaxOutputTokensUnset".
Definition ReasonMaxOutputTokensDeclared : string := "MaxOutputTokensDeclared".

Record validationProblem := mk_problem { reason : string; vp_message : bytes }.

Definition problems_of (why : string) (msgs : list bytes) : list validationProblem := map (mk_problem why) msgs.

Definition modelSet (mp : ModelProvider) : gset string := list_to_set (map ID (Models (Spec mp))).

Definition findModel (mp : ModelProvider) (id : string) : option ModelProviderModel :=
  List.find (λ m, (ID m =? id)%string) (Models (Spec mp)).

(** Keys join raw values with NUL bytes. *)
Definition joined (parts : list string) : string :=
  match parts with
  | [] => ""
  | p :: parts => p +:+ String.concat "" (map (String "000") parts)
  end.

Section validation.
Context {U : Unicode}.

Definition quoted_name (s : string) : bytes := quotedEntry (bs s).

(** ** The fallback tree *)

Definition cluster : Type := gmap string (option ModelProvider).

Record findings := mk_findings { ineligible : entryList; badMap : entryList; unsetMax : gset string }.

Definition add_ineligible (f : findings) (key : list string) (m : bytes) : findings :=
  mk_findings (add (ineligible f) (joined key) m) (badMap f) (unsetMax f).
Definition add_badMap (f : findings) (key : list string) (m : bytes) : findings :=
  mk_findings (ineligible f) (add (badMap f) (joined key) m) (unsetMax f).
Definition add_unset (f : findings) (n : string) : findings :=
  mk_findings (ineligible f) (badMap f) ({[n]} ∪ unsetMax f).

Definition check_type (parent : ModelProvider) (ref : FallbackReference) (child : ModelProvider) (f : findings) : findings :=
  if FallbackFormatCompatible (Type_ (Spec parent)) (Type_ (Spec child)) then f
  else add_ineligible f ["type"; fb_Name ref; Type_ (Spec parent)]
         (bs "fallback provider " ++ quoted_name (fb_Name ref) ++ bs " has type " ++ QuoteText (bs (Type_ (Spec child)))
          ++ bs ", which cannot follow type " ++ QuoteText (bs (Type_ (Spec parent))) ++ bs " (rule 12)").

Definition check_entry (parent : ModelProvider) (ref : FallbackReference) (child : ModelProvider)
    (f : findings) (key : string) : findings :=
  let value := default "" (ModelMap ref !! key) in
  let f := if decide (key ∈ modelSet parent) then f
           else add_badMap f ["key"; fb_Name ref; key; Name parent]
                  (bs "modelMap on fallback " ++ quoted_name (fb_Name ref) ++ bs ": key " ++ quoted_name key
                   ++ bs " is not a model of " ++ quoted_name (Name parent)) in
  if decide (value ∈ modelSet child) then f
  else add_badMap f ["value"; fb_Name ref; value]
         (bs "modelMap on fallback " ++ quoted_name (fb_Name ref) ++ bs ": value " ++ quoted_name value
          ++ bs " is not a model of " ++ quoted_name (fb_Name ref)).

Definition check_map (parent : ModelProvider) (ref : FallbackReference) (child : ModelProvider) (f : findings) : findings :=
  foldl (check_entry parent ref child) f (sort_strings (map_to_list (ModelMap ref)).*1).

(** The models an edge into an anthropic provider reaches that declare no
    output limit. *)
Definition check_max (parent : ModelProvider) (ref : FallbackReference) (child : ModelProvider) (f : findings) : findings :=
  if FallbackCrossesFormat (Type_ (Spec parent)) (Type_ (Spec child)) && (Type_ (Spec child) =? ProviderTypeAnthropic)%string
  then foldl (λ f m,
         let target := default (ID m) (ModelMap ref !! ID m) in
         match findModel child target with
         | Some cm => match MaxOutputTokens cm with
                      | None => add_unset f (Name child +:+ ("/" +:+ target))
                      | Some _ => f
                      end
         | None => f
         end) f (Models (Spec parent))
  else f.

Definition check_edge (parent : ModelProvider) (ref : FallbackReference) (child : ModelProvider) (f : findings) : findings :=
  check_max parent ref child (check_map parent ref child (check_type parent ref child f)).

Record tree := mk_tree {
  found : findings;
  fetched : gmap string (option ModelProvider);
  onPath : gset string;
  walked : gset string;
}.

(** [None] is fuel that ran out; [inr] names the provider whose read failed,
    which ends the walk. *)
Definition tree_result : Type := option (tree + string).

Definition report (t : tree) (key : list string) (m : bytes) : tree :=
  mk_tree (add_ineligible (found t) key m) (fetched t) (onPath t) (walked t).

(** The child a reference names, read once. *)
Definition fetch (cl : cluster) (t : tree) (name : string) : tree * option ModelProvider + string :=
  match fetched t !! name with
  | Some c => inl (t, c)
  | None =>
      match cl !! name with
      | Some (Some p) => inl (mk_tree (found t) (<[name := Some p]> (fetched t)) (onPath t) (walked t), Some p)
      | Some None => inr name
      | None =>
          let t := report t ["missing"; name] (bs "fallback provider " ++ quoted_name name ++ bs " does not exist") in
          inl (mk_tree (found t) (<[name := None]> (fetched t)) (onPath t) (walked t), None)
      end
  end.

Fixpoint tree_refs (cl : cluster) (walk : ModelProvider → tree → tree_result) (parent : ModelProvider)
    (refs : list FallbackReference) (t : tree) : tree_result :=
  match refs with
  | [] => Some (inl t)
  | ref :: refs =>
      let name := fb_Name ref in
      if decide (name ∈ onPath t) then
        tree_refs cl walk parent refs
          (report t ["circular"; name] (bs "fallback chain is circular at " ++ quoted_name name))
      else
        match fetch cl t name with
        | inr err => Some (inr err)
        | inl (t, None) => tree_refs cl walk parent refs t
        | inl (t, Some child) =>
            let f := check_edge parent ref child (found t) in
            if decide (name ∈ walked t) then
              tree_refs cl walk parent refs (mk_tree f (fetched t) (onPath t) (walked t))
            else
              match walk child (mk_tree f (fetched t) ({[name]} ∪ onPath t) ({[name]} ∪ walked t)) with
              | None => None
              | Some (inr err) => Some (inr err)
              | Some (inl t) =>
                  tree_refs cl walk parent refs (mk_tree (found t) (fetched t) (onPath t ∖ {[name]}) (walked t))
              end
        end
  end.

Fixpoint walk_tree (cl : cluster) (fuel : nat) (parent : ModelProvider) (t : tree) : tree_result :=
  match fuel with
  | O => None
  | S fuel => tree_refs cl (walk_tree cl fuel) parent (Fallback (Spec parent)) t
  end.

Definition no_findings : findings := mk_findings no_entries no_entries ∅.

Definition start_tree (primary : ModelProvider) : tree :=
  mk_tree no_findings ∅ {[Name primary]} {[Name primary]}.

(** The problems, and the names setMaxOutputTokensUnset records. *)
Definition validateFallback (cl : cluster) (primary : ModelProvider)
  : option (list validationProblem * list string + string) :=
  match walk_tree cl (S (size cl)) primary (start_tree primary) with
  | None => None
  | Some (inr err) => Some (inr err)
  | Some (inl t) =>
      Some (inl (
        problems_of ReasonFallbackIneligible
          (messages (ineligible (found t)) (bs "fallback tree has 1 more ineligible fallback, not listed")
            (λ n, bs "fallback tree has " ++ print_nat n ++ bs " more ineligible fallbacks, not listed")) ++
        problems_of ReasonInvalidModelMap
          (messages (badMap (found t)) (bs "modelMaps have 1 more invalid entry, not listed")
            (λ n, bs "modelMaps have " ++ print_nat n ++ bs " more invalid entries, not listed")),
        sort_strings (elements (unsetMax (found t)))))
  end.

(** ** The other checks *)

Definition validateDegradeTargets (mp : ModelProvider) : list validationProblem :=
  let bad := foldl (λ bad p,
    if (pol_Action p =? "degrade")%string
       && negb (match pol_DegradeTo p with Some t => bool_decide (t ∈ modelSet mp) | None => false end)
    then let target := default "(unset)" (pol_DegradeTo p) in
         add bad target (bs "degradeTo " ++ quoted_name target ++ bs " is not a model in this provider")
    else bad) no_entries (Policies (Budget (Spec mp))) in
  problems_of ReasonInvalidDegradeTarget
    (messages bad (bs "degradeTo has 1 more target that is not a model in this provider, not listed")
      (λ n, bs "degradeTo has " ++ print_nat n ++ bs " more targets that are not models in this provider, not listed")).

Definition priced (m : ModelProviderModel) : bool :=
  match ParseFloat (CostPer1MInputTokens m), ParseFloat (CostPer1MOutputTokens m) with
  | Some _, Some _ => true
  | _, _ => false
  end.

Definition validateHardPricing (mp : ModelProvider) : list validationProblem :=
  if negb (Enforcement (Budget (Spec mp)) =? BudgetEnforcementHard)%string then []
  else
    let bad := foldl (λ bad m,
      if priced m then bad
      else add bad (ID m) (bs "model " ++ quoted_name (ID m)
             ++ bs " is unpriced; hard budget enforcement requires a fully priced catalog (rule 33)"))
      no_entries (Models (Spec mp)) in
    problems_of ReasonHardBudgetUnpriced
      (messages bad (bs "model catalog has 1 more unpriced model, not listed")
        (λ n, bs "model catalog has " ++ print_nat n ++ bs " more unpriced models, not listed")).

Definition invalidGlobPatterns (field : string) (patterns : list string) : list bytes :=
  let bad := foldl (λ bad p,
    match Match p "" with
    | Some _ => bad
    | None => add bad p (bs field ++ bs " entry " ++ quoted_name p ++ bs " is not a valid glob pattern")
    end) no_entries patterns in
  messages bad (bs field ++ bs " has 1 more malformed entry, not listed")
    (λ n, bs field ++ bs " has " ++ print_nat n ++ bs " more malformed entries, not listed").

Definition invalidNamespacePatterns (patterns : list string) : list bytes :=
  invalidGlobPatterns "allowedNamespaces" patterns.

Definition invalidImagePatterns (patterns : list string) : list bytes :=
  invalidGlobPatterns "allowedImages" patterns.

Definition validateNamespacePatterns (mp : ModelProvider) : list validationProblem :=
  problems_of ReasonInvalidNamespacePattern (invalidNamespacePatterns (AllowedNamespaces (Spec mp))).

(** ** The verdict *)

Definition validationReasonPrecedence : list string :=
  [ReasonInvalidDegradeTarget; ReasonHardBudgetUnpriced; ReasonInvalidModelMap; ReasonFallbackIneligible;
   ReasonInvalidNamespacePattern].

Fixpoint index_of (l : list string) (s : string) : nat :=
  match l with
  | [] => 0
  | x :: l => if (x =? s)%string then 0 else S (index_of l s)
  end.

Definition rank (why : string) : nat := index_of validationReasonPrecedence why.

Definition readyFalseFromProblems (problems : list validationProblem) : string * bytes :=
  (foldl (λ why p, if (why =? "")%string || (rank (reason p) <? rank why)%nat then reason p else why) "" problems,
   joinProblems (map vp_message problems)).

(** The configuration checks of Reconcile, in order. *)
Definition config_problems (cl : cluster) (mp : ModelProvider)
  : option (list validationProblem * list string + string) :=
  match validateFallback cl mp with
  | Some (inl (problems, names)) =>
      Some (inl (problems ++ validateDegradeTargets mp ++ validateHardPricing mp ++ validateNamespacePatterns mp, names))
  | other => other
  end.

Section unset.
Context {CD : Conditions}.

(** The condition and, when it turns True, the Warning. *)
Definition setMaxOutputTokensUnset (now : Time) (cs : conditions) (names : list string) : conditions * list bytes :=
  let was := IsStatusConditionTrue cs ConditionMaxOutputTokensUnset in
  match names with
  | [] =>
      (match FindStatusCondition cs ConditionMaxOutputTokensUnset with
       | Some _ => SetStatusCondition now cs
                     (mk_condition ConditionMaxOutputTokensUnset false ReasonMaxOutputTokensDeclared "" 0%Z)
       | None => cs
       end, [])
  | _ =>
      let l := foldl (λ l n, add l n (quoted_name n)) no_entries names in
      let msg := cutConditionMessage (bs "a request without max_tokens cannot cross into these anthropic models until they declare "
        ++ bs "maxOutputTokens: "
        ++ Join (bs ", ") (messages l (bs "1 more model, not listed") (λ n, print_nat n ++ bs " more models, not listed"))) in
      (SetStatusCondition now cs (mk_condition ConditionMaxOutputTokensUnset true ReasonMaxOutputTokensUnset (str msg) 0%Z),
       if was then [] else [msg])
  end.
End unset.

End validation.

(** What the configuration checks of a ModelProvider establish.

    The walk over the fallback tree is a depth-first search that knows the
    providers on its path and the providers it has walked.  It reports
    nothing exactly when every provider the primary's fallbacks lead to
    exists, every edge joins compatible types and maps models of one end to
    models of the other, and no provider leads back to itself. *)

From stdpp Require Import relations sorting.

(** ** The specification *)

Section spec.
Context (cl : cluster) (primary : ModelProvider).

Definition provider_at (n : string) : option ModelProvider :=
  if decide (n = Name primary) then Some primary else mjoin (cl !! n).

Definition edge (n m : string) : Prop :=
  ∃ p ref, provider_at n = Some p ∧ ref ∈ Fallback (Spec p) ∧ fb_Name ref = m.

Definition leads_to (n : string) : Prop := rtc edge (Name primary) n.

Definition map_good (parent : ModelProvider) (ref : FallbackReference) (child : ModelProvider) : Prop :=
  ∀ k v, ModelMap ref !! k = Some v → k ∈ modelSet parent ∧ v ∈ modelSet child.

Definition edge_good (parent : ModelProvider) (ref : FallbackReference) (child : ModelProvider) : Prop :=
  FallbackFormatCompatible (Type_ (Spec parent)) (Type_ (Spec child)) = true ∧ map_good parent ref child.

Definition ref_good (parent : ModelProvider) (ref : FallbackReference) : Prop :=
  ∃ child, provider_at (fb_Name ref) = Some child ∧ edge_good parent ref child.

Definition node_good (n : string) : Prop := ∀ p, provider_at n = Some p → Forall (ref_good p) (Fallback (Spec p)).

Definition tree_good : Prop := ∀ n, leads_to n → node_good n ∧ ¬ tc edge n n.

(** Providers in an order in which fallbacks come later in the list. *)
Inductive ordered : list string → Prop :=
  | ordered_nil : ordered []
  | ordered_cons n l : ordered l → (∀ m, edge n m → m ∈ l) → n ∉ l → node_good n → ordered (n :: l).

Lemma ordered_closed l n m : ordered l → n ∈ l → rtc edge n m → m ∈ l.
Proof.
  intros Hl Hn Hr. induction Hr as [|n m k He _ IH]; [done|]. apply IH. clear IH.
  induction Hl as [|x l Hl IH Hx]; [by apply not_elem_of_nil in Hn|].
  apply elem_of_cons in Hn as [->|Hn]; right; auto.
Qed.

Lemma ordered_good l n : ordered l → n ∈ l → node_good n ∧ ¬ tc edge n n.
Proof.
  induction 1 as [|x l Hl IH Hx Hnew Hgood]; [by intros ?%not_elem_of_nil|]. intros [->|Hn]%elem_of_cons; [|auto].
  split; [done|]. intros Ht. apply Hnew. inversion Ht as [? ? He|? y ? He Ht']; subst; [by apply Hx|].
  eapply ordered_closed; [done|by apply Hx|by apply tc_rtc].
Qed.

End spec.

(** ** One edge *)

Definition clean (f : findings) : Prop := seen (ineligible f) = ∅ ∧ seen (badMap f) = ∅.

Definition findings_wf (f : findings) : Prop := entries_wf (ineligible f) ∧ entries_wf (badMap f).

Lemma seen_add_empty l k m : seen (add l k m) ≠ ∅.
Proof. rewrite seen_add. set_solver. Qed.

Lemma fold_findings {A} (P : findings → Prop) (step : findings → A → findings) l f :
  (∀ f x, P f → P (step f x)) → P f → P (foldl step f l).
Proof. intros Hs. revert f; induction l as [|x l IH]; intros f Hf; [done|]. apply IH, Hs, Hf. Qed.

Lemma fold_clean {A} (ok : A → Prop) (step : findings → A → findings) l f :
  (∀ f x, clean (step f x) ↔ clean f ∧ ok x) → clean (foldl step f l) ↔ clean f ∧ Forall ok l.
Proof.
  intros Hs. revert f; induction l as [|x l IH]; intros f; simpl; [rewrite Forall_nil; naive_solver|].
  rewrite IH, Hs, Forall_cons. naive_solver.
Qed.

Section facts.
Context {U : Unicode}.

Lemma check_entry_clean parent ref child f k :
  clean (check_entry parent ref child f k) ↔
  clean f ∧ (k ∈ modelSet parent ∧ default "" (ModelMap ref !! k) ∈ modelSet child).
Proof.
  unfold check_entry, clean.
  destruct (decide (k ∈ modelSet parent)), (decide (default "" (ModelMap ref !! k) ∈ modelSet child));
    cbn [add_badMap ineligible badMap]; (split; [intros [H1 H2]|intros ([H1 H2] & H3 & H4)]);
    try done; exfalso; by eapply seen_add_empty.
Qed.

Lemma check_map_clean parent ref child f : clean (check_map parent ref child f) ↔ clean f ∧ map_good parent ref child.
Proof.
  unfold check_map. rewrite (fold_clean (λ k, k ∈ modelSet parent ∧ default "" (ModelMap ref !! k) ∈ modelSet child))
    by (intros; apply check_entry_clean).
  apply and_iff_compat_l. unfold sort_strings. rewrite Forall_forall. unfold map_good. split.
  - intros H k v Hk. specialize (H k). rewrite Hk in H. apply H. rewrite merge_sort_Permutation.
    apply list_elem_of_fmap. exists (k, v). split; [done|]. by apply elem_of_map_to_list.
  - intros H k Hk. rewrite merge_sort_Permutation in Hk. apply list_elem_of_fmap in Hk as ([k' v] & -> & Hv).
    apply elem_of_map_to_list in Hv. cbn [fst]. rewrite Hv. by apply H.
Qed.

Lemma check_max_same parent ref child f :
  ineligible (check_max parent ref child f) = ineligible f ∧ badMap (check_max parent ref child f) = badMap f.
Proof.
  unfold check_max. destruct (_ && _); [|done].
  apply (fold_findings (λ f', ineligible f' = ineligible f ∧ badMap f' = badMap f)); [|done].
  intros f' m [H1 H2]. by repeat case_match.
Qed.

Lemma check_edge_clean parent ref child f : clean (check_edge parent ref child f) ↔ clean f ∧ edge_good parent ref child.
Proof.
  unfold check_edge. unfold clean at 1. destruct (check_max_same parent ref child (check_map parent ref child (check_type parent ref child f))) as [-> ->].
  change (clean (check_map parent ref child (check_type parent ref child f)) ↔ clean f ∧ edge_good parent ref child).
  rewrite check_map_clean. unfold edge_good, check_type. destruct (FallbackFormatCompatible _ _); [naive_solver|].
  unfold clean, add_ineligible. cbn [ineligible badMap]. pose proof (seen_add_empty (ineligible f)). naive_solver.
Qed.

Lemma check_edge_wf parent ref child f : findings_wf f → findings_wf (check_edge parent ref child f).
Proof.
  intros Hf. unfold check_edge. unfold findings_wf at 1.
  destruct (check_max_same parent ref child (check_map parent ref child (check_type parent ref child f))) as [-> ->].
  change (findings_wf (check_map parent ref child (check_type parent ref child f))). unfold check_map. apply fold_findings.
  - intros f' k [H1 H2]. unfold check_entry. repeat case_decide; split; cbn [add_badMap ineligible badMap]; auto using add_wf.
  - destruct Hf as [H1 H2]. unfold check_type. case_match; split; cbn [add_ineligible ineligible badMap]; auto using add_wf.
Qed.

(** ** The walk *)

Section walk.
Context (cl : cluster) (primary : ModelProvider).

Notation provider_at := (provider_at cl primary).
Notation edge := (edge cl primary).
Notation leads_to := (leads_to cl primary).
Notation ref_good := (ref_good cl primary).
Notation node_good := (node_good cl primary).
Notation tree_good := (tree_good cl primary).
Notation ordered := (ordered cl primary).

Record tree_inv (t : tree) : Prop := {
  inv_primary : Name primary ∈ onPath t;
  inv_path : onPath t ⊆ walked t;
  inv_some : ∀ n p, fetched t !! n = Some (Some p) → cl !! n = Some (Some p);
  inv_none : ∀ n, fetched t !! n = Some None → cl !! n = None ∧ ¬ clean (found t);
  inv_wf : findings_wf (found t);
}.

(** What a walk leaves as it was. *)
Record frame (t t' : tree) : Prop := {
  fr_path : onPath t' = onPath t;
  fr_walked : walked t ⊆ walked t';
  fr_clean : clean (found t') → clean (found t);
}.

#[local] Instance frame_preorder : PreOrder frame.
Proof.
  split; [by constructor|]. intros t1 t2 t3 [P1 W1 C1] [P2 W2 C2].
  constructor; [congruence|set_solver|auto].
Qed.

Lemma start_inv : tree_inv (start_tree primary).
Proof.
  constructor; cbn [start_tree onPath walked fetched found no_findings]; try set_solver.
  split; apply no_entries_wf.
Qed.

Lemma report_inv t key m : tree_inv t → tree_inv (report t key m) ∧ frame t (report t key m) ∧ ¬ clean (found (report t key m)).
Proof.
  intros [P W S N F]. assert (Hc : ¬ clean (found (report t key m))) by (intros [H _]; exact (seen_add_empty _ _ _ H)).
  split_and!; [|by constructor|done]. constructor; try done; [naive_solver|].
  destruct F. split; [by apply add_wf|done].
Qed.

(** What a read gives: the tree with its outcome noted, and the child. *)
Lemma fetch_spec t n t' c : tree_inv t → fetch cl t n = inl (t', c) →
  tree_inv t' ∧ frame t t' ∧ walked t' = walked t ∧
  match c with
  | Some p => cl !! n = Some (Some p) ∧ found t' = found t
  | None => cl !! n = None ∧ ¬ clean (found t')
  end.
Proof.
  intros I. unfold fetch. destruct (fetched t !! n) as [c'|] eqn:Ef.
  { intros [= <- <-]. split_and!; [done|done|done|]. destruct c' as [p|]; [by split; [apply (inv_some _ I)|]|by apply (inv_none _ I)]. }
  destruct (cl !! n) as [[p|]|] eqn:En; [|done|]; intros [= <- <-].
  - split_and!; [|by constructor|done|done|done]. destruct I as [P W S N F]. constructor; try done;
      cbn [fetched found]; intros m; (destruct (decide (m = n)) as [->|]; [rewrite lookup_insert_eq|rewrite lookup_insert_ne by done]); naive_solver.
  - destruct (report_inv t ["missing"; n] (bs "fallback provider " ++ quoted_name n ++ bs " does not exist") I)
      as ([P W S N F] & Fr & Hc). cbv zeta. set (t1 := report t _ _) in *.
    split_and!; [|by destruct Fr; constructor|done|done|done]. constructor; try done;
      cbn [fetched found]; intros m; (destruct (decide (m = n)) as [->|]; [rewrite lookup_insert_eq|rewrite lookup_insert_ne by done]); naive_solver.
Qed.

(** The tree with an edge checked, and with the walk's path moved. *)
Lemma edge_inv t parent ref child : tree_inv t →
  let t' := mk_tree (check_edge parent ref child (found t)) (fetched t) (onPath t) (walked t) in
  tree_inv t' ∧ frame t t' ∧ (clean (found t') ↔ clean (found t) ∧ edge_good parent ref child).
Proof.
  intros I. pose proof (check_edge_clean parent ref child (found t)) as Hc. cbv zeta. split_and!; [|by constructor; [..|intros [? _]%Hc]|done].
  destruct I as [P W S N F]. constructor; cbn [onPath walked fetched found]; try done.
  - intros n H. destruct (N n H) as [? Hd]. split; [done|]. by intros [? _]%Hc.
  - by apply check_edge_wf.
Qed.

Lemma enter_inv t n : tree_inv t → tree_inv (mk_tree (found t) (fetched t) ({[n]} ∪ onPath t) ({[n]} ∪ walked t)).
Proof. intros [P W S N F]. constructor; cbn [onPath walked fetched found]; try done; set_solver. Qed.

Lemma leave_frame t t1 n : tree_inv t1 → n ∉ onPath t → n ∉ walked t →
  frame (mk_tree (found t) (fetched t) ({[n]} ∪ onPath t) ({[n]} ∪ walked t)) t1 → tree_inv t → n ≠ Name primary →
  let t2 := mk_tree (found t1) (fetched t1) (onPath t1 ∖ {[n]}) (walked t1) in
  tree_inv t2 ∧ frame t t2.
Proof.
  intros [P W S N F] Hn Hw [P' W' C'] [P0 W0 _ _ _] Hne. cbn [onPath walked found] in *. split; constructor; cbn [onPath walked fetched found]; try done; set_solver.
Qed.

(** The steps of the loop over the references of one provider. *)
Inductive refs_step (walk : ModelProvider → tree → tree_result) (parent : ModelProvider) (ref : FallbackReference)
    (t t' : tree) : Prop :=
  | step_circular : fb_Name ref ∈ onPath t → ¬ clean (found t') → refs_step walk parent ref t t'
  | step_missing : fb_Name ref ∉ onPath t → cl !! fb_Name ref = None → ¬ clean (found t') → refs_step walk parent ref t t'
  | step_known child : fb_Name ref ∉ onPath t → cl !! fb_Name ref = Some (Some child) → fb_Name ref ∈ walked t →
      walked t' = walked t → (clean (found t') ↔ clean (found t) ∧ edge_good parent ref child) →
      refs_step walk parent ref t t'
  | step_walked child t1 t2 : fb_Name ref ∉ onPath t → cl !! fb_Name ref = Some (Some child) → fb_Name ref ∉ walked t →
      tree_inv t1 → onPath t1 = {[fb_Name ref]} ∪ onPath t → walked t1 = {[fb_Name ref]} ∪ walked t →
      (clean (found t1) ↔ clean (found t) ∧ edge_good parent ref child) →
      walk child t1 = Some (inl t2) → found t' = found t2 → walked t' = walked t2 → refs_step walk parent ref t t'.

(** The loop runs through its references, one step each. *)
Lemma tree_refs_ind walk parent (P : list FallbackReference → tree → Prop) :
  (∀ p t t', tree_inv t → walk p t = Some (inl t') → tree_inv t' ∧ frame t t') →
  ∀ refs t t', tree_inv t → tree_refs cl walk parent refs t = Some (inl t') →
  P [] t → (∀ done ref t1 t2, tree_inv t1 → tree_inv t2 → frame t t1 → frame t1 t2 → refs_step walk parent ref t1 t2 →
              (∃ todo, refs = done ++ ref :: todo) → P done t1 → P (done ++ [ref]) t2) →
  tree_inv t' ∧ frame t t' ∧ P refs t'.
Proof.
  intros Hwalk refs t t' Hinv Hrun H0 Hstep.
  assert (Hgen : ∀ todo done t1, refs = done ++ todo → tree_inv t1 → frame t t1 → P done t1 →
    tree_refs cl walk parent todo t1 = Some (inl t') → tree_inv t' ∧ frame t t' ∧ P refs t').
  2: { by apply (Hgen refs [] t). }
  clear Hrun H0. induction todo as [|ref todo IH]; intros dn t1 -> I1 F1 P1; cbn [tree_refs].
  { intros [= <-]. by rewrite app_nil_r. }
  assert (Hnext : ∀ t2, tree_inv t2 → frame t1 t2 → refs_step walk parent ref t1 t2 →
    tree_refs cl walk parent todo t2 = Some (inl t') → tree_inv t' ∧ frame t t' ∧ P (dn ++ ref :: todo) t').
  { intros t2 I2 F2 S2. apply (IH (dn ++ [ref])); [by rewrite <- app_assoc|done|by etrans|]. apply (Hstep dn ref t1 t2); try done. by exists todo. }
  destruct (decide (fb_Name ref ∈ onPath t1)) as [Hp|Hp].
  { destruct (report_inv t1 ["circular"; fb_Name ref] (bs "fallback chain is circular at " ++ quoted_name (fb_Name ref)) I1) as (I2 & F2 & C2).
    apply Hnext; [done..|by apply step_circular]. }
  destruct (fetch cl t1 (fb_Name ref)) as [[t2 [child|]]|] eqn:Ef; [..|done];
    destruct (fetch_spec _ _ _ _ I1 Ef) as (I2 & F2 & Hw & Hc).
  2: { destruct Hc as [Hc Hd]. apply Hnext; [done..|by apply step_missing]. }
  destruct Hc as [Hc Hf]. destruct (edge_inv t2 parent ref child I2) as (I3 & F3 & C3).
  set (t3 := mk_tree (check_edge parent ref child (found t2)) _ _ _) in *. rewrite Hf in C3. pose proof (fr_path _ _ F2) as Hpath.
  destruct (decide (fb_Name ref ∈ walked t2)) as [Hk|Hk].
  { apply Hnext; [done|by etrans|]. eapply step_known; [done..|by rewrite <- Hw|by rewrite <- Hw|done]. }
  destruct (walk child _) as [[t4|]|] eqn:Ew; [|done..].
  pose proof (enter_inv t3 (fb_Name ref) I3) as I3'. change (walk child (mk_tree (found t3) (fetched t3) ({[fb_Name ref]} ∪ onPath t3) ({[fb_Name ref]} ∪ walked t3)) = Some (inl t4)) in Ew.
  destruct (Hwalk _ _ _ I3' Ew) as [I4 F4].
  destruct (leave_frame t3 t4 (fb_Name ref) I4) as [I5 F5]; [by rewrite <- Hpath in Hp|done|done|done|..].
  { intros E. apply Hp. rewrite E. apply (inv_primary _ I1). }
  apply Hnext; [done|by etrans; [|etrans; [exact F3|exact F5]]|].
  eapply (step_walked walk parent ref t1 _ child _ t4); [done|done|by rewrite <- Hw|exact I3'|by cbn; rewrite Hpath|by cbn; rewrite Hw|exact C3|exact Ew|done|done].
Qed.

Lemma walk_tree_frame fuel p t t' : tree_inv t → walk_tree cl fuel p t = Some (inl t') → tree_inv t' ∧ frame t t'.
Proof.
  revert p t t'; induction fuel as [|fuel IH]; intros p t t' I; [done|]. cbn [walk_tree]. intros H.
  destruct (tree_refs_ind (walk_tree cl fuel) p (λ _ _, True) IH _ _ _ I H) as (I' & F & _); done.
Qed.

Lemma provider_at_child t n child : tree_inv t → n ∉ onPath t → cl !! n = Some child → provider_at n = child.
Proof.
  intros I Hn Hc. unfold ProviderValidation.provider_at. rewrite decide_False; [by rewrite Hc|].
  intros ->. apply Hn, (inv_primary _ I).
Qed.

(** The providers walked to the end, ordered. *)
Definition settled (t : tree) (o : list string) : Prop :=
  ordered o ∧ ∀ n, n ∈ o ↔ n ∈ walked t ∧ n ∉ onPath t.

Lemma settled_child t2 t3 n o child :
  settled t2 o → n ∈ onPath t2 → n ∈ walked t2 → walked t3 = walked t2 → onPath t3 = onPath t2 ∖ {[n]} →
  provider_at n = Some child → Forall (λ ref, ref_good child ref ∧ fb_Name ref ∈ o) (Fallback (Spec child)) →
  settled t3 (n :: o).
Proof.
  intros [Ho Hset] Hp Hw Hw3 Hp3 Hat Hrefs. rewrite Forall_forall in Hrefs. split.
  - constructor; [done| | |].
    + intros m (p & ref & Hp' & Href & <-). simplify_eq. by apply Hrefs.
    + rewrite Hset. set_solver.
    + intros p Hp'. simplify_eq. apply Forall_forall. intros ref Href. by apply Hrefs.
  - intros m. rewrite elem_of_cons, Hset, Hw3, Hp3. destruct (decide (m = n)) as [->|]; set_solver.
Qed.

Lemma walk_tree_complete fuel a p t t' o :
  tree_inv t → provider_at a = Some p → walk_tree cl fuel p t = Some (inl t') → clean (found t') → settled t o →
  ∃ o', settled t' o' ∧ Forall (λ ref, ref_good p ref ∧ fb_Name ref ∈ o') (Fallback (Spec p)).
Proof.
  revert a p t t' o; induction fuel as [|fuel IH]; intros a p t t' o I Ha; [done|]. cbn [walk_tree]. intros Hrun Hclean Ho.
  destruct (tree_refs_ind (walk_tree cl fuel) p (λ done t1, clean (found t1) → ∃ o', settled t1 o' ∧
    Forall (λ ref, ref_good p ref ∧ fb_Name ref ∈ o') done) (walk_tree_frame fuel) _ _ _ I Hrun) as (I' & F & HP); [by exists o| |by apply HP].
  intros dn ref t1 t2 I1 I2 F1 F2 Hs _ HP Hc2.
  destruct (HP (fr_clean _ _ F2 Hc2)) as (o1 & [Ho1 Hset1] & Hdn).
  destruct Hs as [|? ? ?|child Hp Hcl Hw Hw2 Hc|child t3 t4 Hp Hcl Hw I3 Hp3 Hw3 Hc3 Hwalk Hf Hw4]; [done|done|..].
  - apply Hc in Hc2 as [_ Hgood]. exists o1. split.
    + split; [done|]. intros n. by rewrite Hset1, Hw2, (fr_path _ _ F2).
    + apply Forall_app. split; [done|]. constructor; [|constructor]. split; [|by rewrite Hset1].
      exists child. split; [by apply (provider_at_child t1)|done].
  - destruct (walk_tree_frame _ _ _ _ I3 Hwalk) as [I4 F4]. rewrite Hf in Hc2.
    pose proof (fr_clean _ _ F4 Hc2) as [_ Hgood]%Hc3. pose proof (provider_at_child _ _ _ I1 Hp Hcl) as Hat.
    destruct (IH _ _ _ _ o1 I3 Hat Hwalk Hc2) as (o2 & Ho2 & Hrefs).
    { split; [done|]. intros n. rewrite Hset1, Hp3, Hw3. set_solver. }
    pose proof (fr_path _ _ F4) as Hp4. pose proof (fr_walked _ _ F4) as Hw5. rewrite Hp3 in Hp4. rewrite Hw3 in Hw5.
    exists (fb_Name ref :: o2). split.
    + eapply settled_child; [done|rewrite Hp4; set_solver|set_solver|done| |done|done].
      rewrite (fr_path _ _ F2), Hp4. set_solver.
    + apply Forall_app. split; [|constructor; [|constructor]; split; [by exists child|left]].
      eapply List.Forall_impl; [|done]. intros ref' [Hg Hin]. split; [done|]. right. apply (proj2 Ho2).
      apply Hset1 in Hin as [H1 H2]. rewrite Hp4. split; [by apply Hw5, elem_of_union_r|].
      rewrite elem_of_union, elem_of_singleton. intros [E|]; [by rewrite E in H1|done].
Qed.

Lemma edge_of a p ref : provider_at a = Some p → ref ∈ Fallback (Spec p) → edge a (fb_Name ref).
Proof. intros. by exists p, ref. Qed.

Lemma walk_tree_sound fuel a p t t' :
  tree_good → leads_to a → provider_at a = Some p → (∀ n, n ∈ onPath t → rtc edge n a) → tree_inv t →
  clean (found t) → walk_tree cl fuel p t = Some (inl t') → clean (found t').
Proof.
  intros Htree. revert a p t t'; induction fuel as [|fuel IH]; intros a p t t' Ha Hp Hpath I Hc; [done|].
  cbn [walk_tree]. intros Hrun.
  destruct (tree_refs_ind (walk_tree cl fuel) p (λ _ t1, clean (found t1)) (walk_tree_frame fuel) _ _ _ I Hrun Hc) as (_ & _ & HP); [|done].
  intros dn ref t1 t2 I1 I2 F1 F2 Hs [todo Hrefs] Hc1.
  assert (Hin : ref ∈ Fallback (Spec p)) by (rewrite Hrefs; set_solver).
  pose proof (edge_of _ _ _ Hp Hin) as He. destruct (Htree _ Ha) as [Hgood _].
  destruct (proj1 (Forall_forall (ref_good p) (Fallback (Spec p))) (Hgood p Hp) _ Hin) as (c & Hc' & Hedge).
  rewrite <- (fr_path _ _ F1) in Hpath.
  destruct Hs as [Hon|Hoff Hnone _|child Hoff Hcl Hw Hw2 Hcc|child t3 t4 Hoff Hcl Hw I3 Hp3 Hw3 Hc3 Hwalk Hf Hw4].
  - destruct (Htree (fb_Name ref)) as [_ []]; [by eapply rtc_r|]. eapply tc_rtc_l; [by apply Hpath|by apply tc_once].
  - unfold ProviderValidation.provider_at in Hc'. rewrite decide_False, Hnone in Hc'; [done|].
    intros E. apply Hoff. rewrite E. apply (inv_primary _ I1).
  - rewrite (provider_at_child _ _ _ I1 Hoff Hcl) in Hc'. simplify_eq. by apply Hcc.
  - pose proof (provider_at_child _ _ _ I1 Hoff Hcl) as Hat. rewrite Hat in Hc'. simplify_eq. rewrite Hf.
    eapply (IH (fb_Name ref)); [by eapply rtc_r|done| |exact I3|by apply Hc3|done].
    intros n. rewrite Hp3. intros [->%elem_of_singleton|Hn]%elem_of_union; [done|]. eapply rtc_r; [by apply Hpath|done].
Qed.

(** ** Termination *)

Definition unwalked (t : tree) : nat := size (dom cl ∖ walked t).

Lemma frame_unwalked t t' : walked t ⊆ walked t' → unwalked t' ≤ unwalked t.
Proof. intros H. unfold unwalked. apply subseteq_size. set_solver. Qed.

Lemma tree_refs_total fuel parent refs t :
  (∀ p t, tree_inv t → unwalked t < fuel → is_Some (walk_tree cl fuel p t)) →
  tree_inv t → unwalked t ≤ fuel → is_Some (tree_refs cl (walk_tree cl fuel) parent refs t).
Proof.
  intros Hwalk. revert t; induction refs as [|ref refs IH]; intros t I Hu; cbn [tree_refs]; [done|].
  destruct (decide (fb_Name ref ∈ onPath t)) as [Hp|Hp].
  { apply IH; [by apply report_inv|done]. }
  destruct (fetch cl t (fb_Name ref)) as [[t1 [child|]]|] eqn:Ef; [..|done];
    destruct (fetch_spec _ _ _ _ I Ef) as (I1 & F1 & Hw & Hc).
  2: { apply IH; [done|]. unfold unwalked. by rewrite Hw. }
  destruct (edge_inv t1 parent ref child I1) as (I2 & F2 & _). set (t2 := mk_tree (check_edge _ _ _ _) _ _ _) in *.
  assert (Hu2 : unwalked t2 ≤ fuel) by (unfold unwalked in *; subst t2; cbn [walked]; by rewrite Hw).
  destruct (decide (fb_Name ref ∈ walked t1)) as [Hk|Hk]; [by apply IH|].
  pose proof (enter_inv t2 (fb_Name ref) I2) as I3.
  set (t3 := mk_tree (found t2) _ _ _) in I3. change (mk_tree (check_edge _ _ _ _) _ _ _) with t3.
  assert (Hu3 : unwalked t3 < fuel).
  { destruct Hc as [Hc _]. eapply Nat.lt_le_trans; [|exact Hu2]. unfold unwalked. apply subset_size.
    split; [subst t3; cbn [walked]; set_solver|]. intros Hs. assert (Hd : fb_Name ref ∈ dom cl) by (by eapply elem_of_dom_2).
    specialize (Hs (fb_Name ref)). subst t3 t2. cbn [walked] in Hs. set_solver. }
  destruct (Hwalk child t3 I3 Hu3) as [[t4|err] Hrun]; rewrite Hrun; [|done].
  destruct (walk_tree_frame _ _ _ _ I3 Hrun) as [I4 F4].
  destruct (leave_frame t2 t4 (fb_Name ref) I4) as [I5 F5]; [by rewrite <- (fr_path _ _ F1) in Hp|done|done|done|..].
  { intros E. apply Hp. rewrite E. apply (inv_primary _ I). }
  apply IH; [done|]. etrans; [|exact Hu2]. apply frame_unwalked, F5.
Qed.

Lemma walk_tree_total fuel p t : tree_inv t → unwalked t < fuel → is_Some (walk_tree cl fuel p t).
Proof.
  revert p t; induction fuel as [|fuel IH]; intros p t I Hu; [lia|]. cbn [walk_tree]. apply tree_refs_total; [done..|lia].
Qed.

(** The walk over any fallback tree ends. *)
Theorem validateFallback_returns : is_Some (validateFallback cl primary).
Proof.
  unfold validateFallback. destruct (walk_tree_total (S (size cl)) primary (start_tree primary)) as [[t|err] ->]; [apply start_inv| |done|done].
  unfold unwalked. apply Nat.lt_succ_r. transitivity (size (dom cl)); [apply subseteq_size; set_solver|].
  apply Nat.eq_le_incl, (size_dom (D := gset string) (cl : gmap string _)).
Qed.
End walk.
End facts.

(** ** The verdict *)

Section verdict.
Context {U : Unicode}.

Lemma problems_nil why msgs : problems_of why msgs = [] ↔ msgs = [].
Proof. unfold problems_of. by destruct msgs. Qed.

(** A list of the entries that fail a test is empty when none does. *)
Lemma bad_messages {A} (step : entryList → A → entryList) (bad : A → bool) l one many :
  (∀ e x, if bad x then ∃ k m, step e x = add e k m else step e x = e) →
  messages (foldl step no_entries l) one many = [] ↔ Forall (λ x, bad x = false) l.
Proof.
  intros Hstep. assert (H : entries_wf (foldl step no_entries l) ∧
    (seen (foldl step no_entries l) = ∅ ↔ Forall (λ x, bad x = false) l)); [|by destruct H; rewrite messages_nil].
  induction l as [|x l [Hw He]] using rev_ind; [by split; [apply no_entries_wf|]|].
  rewrite foldl_app, Forall_app, Forall_singleton. cbn [foldl]. specialize (Hstep (foldl step no_entries l) x). destruct (bad x).
  - destruct Hstep as (k & m & ->). split; [by apply add_wf|]. split; [intros H; exfalso; by eapply seen_add_empty|by intros [_ ?]].
  - rewrite Hstep. split; [done|]. rewrite He. naive_solver.
Qed.

Lemma validateFallback_nil cl primary problems names :
  validateFallback cl primary = Some (inl (problems, names)) → problems = [] ↔ tree_good cl primary.
Proof.
  unfold validateFallback. destruct (walk_tree _ _ _ _) as [[t|]|] eqn:Hrun; [|done..]. intros [= <- <-].
  destruct (walk_tree_frame cl primary _ _ _ _ (start_inv cl primary) Hrun) as [I F]. pose proof (inv_wf _ _ _ I) as [W1 W2].
  rewrite app_nil, !problems_nil, !messages_nil by done. fold (clean (found t)).
  assert (Hat : provider_at cl primary (Name primary) = Some primary) by (unfold provider_at; by rewrite decide_True).
  split.
  - intros Hc. destruct (walk_tree_complete cl primary _ _ _ _ _ [] (start_inv cl primary) Hat Hrun Hc) as (o & [Ho Hset] & Hrefs).
    { split; [constructor|]. intros n. cbn [start_tree walked onPath]. split; [by intros ?%not_elem_of_nil|set_solver]. }
    assert (Hall : ordered cl primary (Name primary :: o)).
    { rewrite Forall_forall in Hrefs. constructor; [done|..].
      - intros m (p & ref & Hp & Href & <-). simplify_eq. by apply Hrefs.
      - rewrite Hset. pose proof (inv_primary _ _ _ I). set_solver.
      - intros p Hp. simplify_eq. apply Forall_forall. intros. by apply Hrefs. }
    intros n Hn. eapply ordered_good; [done|]. eapply ordered_closed; [done| |done]. left.
  - intros Ht. eapply (walk_tree_sound cl primary); [done|apply rtc_refl|done| |apply start_inv|done|done].
    cbn [start_tree onPath]. intros n ->%elem_of_singleton. apply rtc_refl.
Qed.

(** Every degrade policy names a model of the provider. *)
Definition degrade_good (mp : ModelProvider) : Prop :=
  ∀ p, p ∈ Policies (Budget (Spec mp)) → pol_Action p = "degrade" →
    ∃ target, pol_DegradeTo p = Some target ∧ target ∈ modelSet mp.

Definition pricing_good (mp : ModelProvider) : Prop :=
  Enforcement (Budget (Spec mp)) = BudgetEnforcementHard →
  ∀ m, m ∈ Models (Spec mp) → is_Some (ParseFloat (CostPer1MInputTokens m)) ∧ is_Some (ParseFloat (CostPer1MOutputTokens m)).

(** No namespace makes a pattern of the provider an error. *)
Definition patterns_good (mp : ModelProvider) : Prop :=
  ∀ pattern ns, pattern ∈ AllowedNamespaces (Spec mp) → Match pattern ns ≠ None.

Lemma validateDegradeTargets_nil mp : validateDegradeTargets mp = [] ↔ degrade_good mp.
Proof.
  unfold validateDegradeTargets. cbv zeta. rewrite problems_nil.
  rewrite (bad_messages _ (λ p, (pol_Action p =? "degrade")%string
       && negb (match pol_DegradeTo p with Some t => bool_decide (t ∈ modelSet mp) | None => false end)))
    by (intros e p; destruct (_ && _); [by eexists _, _|done]).
  rewrite Forall_forall. unfold degrade_good. apply forall_proper. intros p. apply forall_proper. intros _.
  rewrite andb_false_iff, String.eqb_neq, negb_false_iff. destruct (pol_DegradeTo p) as [t|]; [rewrite bool_decide_eq_true|].
  - split; [intros [?|?] ?; [done|by exists t]|]. intros H. destruct (decide (pol_Action p = "degrade")) as [E|]; [|by left].
    right. destruct (H E) as (? & [= <-] & ?). done.
  - split; [intros [?|?] ?; done|]. intros H. left. intros E. by destruct (H E) as (? & [= ] & ?).
Qed.

Lemma validateHardPricing_nil mp : validateHardPricing mp = [] ↔ pricing_good mp.
Proof.
  unfold validateHardPricing, pricing_good. destruct (String.eqb_spec (Enforcement (Budget (Spec mp))) BudgetEnforcementHard) as [E|]; [|done].
  cbn [negb]. cbv zeta. rewrite problems_nil.
  rewrite (bad_messages _ (λ m, negb (priced m))) by (intros e m; destruct (priced m); [done|by eexists _, _]).
  rewrite Forall_forall. split.
  - intros H _ m Hm. specialize (H m Hm). unfold priced in H. by destruct (ParseFloat _), (ParseFloat _).
  - intros H m Hm. destruct (H E m Hm) as [[x Hx] [y Hy]]. unfold priced. by rewrite Hx, Hy.
Qed.

Lemma validateNamespacePatterns_nil mp : validateNamespacePatterns mp = [] ↔ patterns_good mp.
Proof.
  unfold validateNamespacePatterns, invalidNamespacePatterns, invalidGlobPatterns. cbv zeta. rewrite problems_nil.
  rewrite (bad_messages _ (λ p, bool_decide (Match p "" = None))).
  2: { intros e p. case_bool_decide as H; [rewrite H; by eexists _, _|by destruct (Match p "")]. }
  rewrite Forall_forall. split.
  - intros H p ns Hp E. specialize (H p Hp). apply bool_decide_eq_false in H. by apply H, (Match_error p ns).
  - intros H p Hp. apply bool_decide_eq_false. by apply H.
Qed.

(** C33: The configuration checks of a ModelProvider report no problem exactly
    when the configuration is good: every provider its fallbacks lead to
    exists, joins its parent with a compatible type, maps models of the one
    to models of the other, and leads back to none it came from; its degrade
    targets are its own models; a hard budget's models are all priced; and
    every namespace pattern is well formed. *)
Theorem config_checks_exact cl mp problems names
    (Hread : config_problems cl mp = Some (inl (problems, names))) :
  problems = [] ↔ tree_good cl mp ∧ degrade_good mp ∧ pricing_good mp ∧ patterns_good mp.
Proof.
  unfold config_problems in Hread. destruct (validateFallback cl mp) as [[[tree_problems names']|]|] eqn:E; [|done..].
  injection Hread as <- <-. rewrite !app_nil, (validateFallback_nil _ _ _ _ E), validateDegradeTargets_nil, validateHardPricing_nil,
    validateNamespacePatterns_nil. done.
Qed.
End verdict.
