(* ===== verification/Eligibility.v ===== *)
(** The reconcile-time scan of a provider's fallbacks
    (internal/controller/modelprovider_fallback_eligibility.go): which
    candidates the gateway would skip, for each caller namespace and model,
    the condition that lists them, and the memory from which an event names
    each new one.

    The scan's walk is bounded by fuel, one more than the providers there
    are.

    The second half bounds the findings and the text made of them. *)

From stdpp Require Import base gmap sets list strings option sorting.
From Stdlib Require Import ZArith Lia Ascii.
From S2P Require Import Prelude GoFloat GoTime GoPath Json JsonString JsonValue Api Routing BudgetReducer ProblemList Conditions ProviderValidation.

Definition ReasonFallbackCandidatesEligible : string := "AllCandidatesEligible".

(** The namespace check of the controllers (agent_desired.go). *)
Definition namespaceAllowed (ns : string) (allowed : list string) : bool :=
  match allowed with
  | [] => false
  | _ => existsb (λ pattern, match Match pattern ns with Some true => true | _ => false end) allowed
  end.

(** The lists of Agents and AgentTasks that reference the provider, by
    namespace. *)
Definition callerNamespaces (agents tasks : list string) (mp : ModelProvider) : list string :=
  let seen : gset string := list_to_set agents ∪ list_to_set tasks in
  sort_strings (filter (λ ns, namespaceAllowed ns (AllowedNamespaces (Spec mp)) = true) (elements seen)).

Record fallbackFinding := mk_finding { ff_key : string; ff_message : bytes }.

#[global] Instance finding_eq_dec : EqDecision fallbackFinding.
Proof. solve_decision. Defined.

(** ** The walk *)

Section scan.
Context {U : Unicode} (providers : gmap string ModelProvider).

Record scan_state := mk_scan { sc_visited : gset string; sc_found : gmap string bytes }.

Definition note_found (st : scan_state) (f : fallbackFinding) : scan_state :=
  mk_scan (sc_visited st) (<[ff_key f := ff_message f]> (sc_found st)).

Definition namespace_finding (child ns : string) : fallbackFinding :=
  mk_finding (joined ["ns"; child; ns])
    (bs "fallback " ++ quoted_name child ++ bs " does not admit namespace " ++ quoted_name ns).

Definition model_finding (child model primary_model : string) : fallbackFinding :=
  mk_finding (joined ["model"; child; model; primary_model])
    (bs "fallback " ++ quoted_name child ++ bs " does not offer model " ++ quoted_name model
     ++ bs " (primary model " ++ quoted_name primary_model ++ bs ")").

Definition edge_model (ref : FallbackReference) (parentModel : string) : string :=
  match ModelMap ref !! parentModel with
  | Some mapped => if (mapped =? "")%string then parentModel else mapped
  | None => parentModel
  end.

Definition admits_ns (ns : string) (child : ModelProvider) : bool :=
  (ns =? "")%string || namespaceAllowed ns (AllowedNamespaces (Spec child)).

Definition has_model (child : ModelProvider) (model : string) : bool :=
  match findModel child model with Some _ => true | None => false end.

Fixpoint scan_refs (walk : ModelProvider → string → scan_state → option scan_state) (ns m : string)
    (parentModel : string) (refs : list FallbackReference) (st : scan_state) : option scan_state :=
  match refs with
  | [] => Some st
  | ref :: refs =>
      match providers !! fb_Name ref with
      | None => scan_refs walk ns m parentModel refs st
      | Some child =>
          if decide (Name child ∈ sc_visited st) then scan_refs walk ns m parentModel refs st
          else
            let st := mk_scan ({[Name child]} ∪ sc_visited st) (sc_found st) in
            let model := edge_model ref parentModel in
            let ok_ns := admits_ns ns child in
            let st := if ok_ns then st else note_found st (namespace_finding (Name child) ns) in
            let ok_model := has_model child model in
            let st := if ok_model then st else note_found st (model_finding (Name child) model m) in
            if ok_ns && ok_model then
              match walk child model st with
              | None => None
              | Some st => scan_refs walk ns m parentModel refs st
              end
            else scan_refs walk ns m parentModel refs st
      end
  end.

Fixpoint scan_walk (fuel : nat) (ns m : string) (parent : ModelProvider) (parentModel : string) (st : scan_state)
  : option scan_state :=
  match fuel with
  | O => None
  | S fuel => scan_refs (scan_walk fuel ns m) ns m parentModel (Fallback (Spec parent)) st
  end.

(** One request: a namespace and a model of the primary. *)
Definition scan_request (primary : ModelProvider) (found : option (gmap string bytes)) (nm : string * string)
  : option (gmap string bytes) :=
  found ≫= λ found,
  sc_found <$> scan_walk (S (size providers)) nm.1 nm.2 primary nm.2 (mk_scan {[Name primary]} found).

Definition requests (primary : ModelProvider) (callers : list string) : list (string * string) :=
  let namespaces := match callers with [] => [""] | _ => callers end in
  flat_map (λ ns, map (λ m, (ns, ID m)) (Models (Spec primary))) namespaces.

Definition finding_le (f g : fallbackFinding) : Prop :=
  if bool_decide (ff_message f = ff_message g) then string_le (ff_key f) (ff_key g)
  else bytes_le (ff_message f) (ff_message g).

#[global] Instance finding_le_dec f g : Decision (finding_le f g).
Proof. unfold finding_le, string_le. destruct (bool_decide _); apply _. Defined.

Definition fallbackIneligibility (primary : ModelProvider) (callers : list string) : option (list fallbackFinding) :=
  (λ found, merge_sort finding_le (map (λ km, mk_finding km.1 km.2) (map_to_list found)))
    <$> foldl (scan_request primary) (Some ∅) (requests primary callers).
End scan.

(** ** The message *)

Definition findingsSeparator : bytes := bs "; ".
Definition fallbackFindingsOneMore : bytes := bs "fallback eligibility scan has 1 more finding, not listed".
Definition fallbackFindingsManyMore (n : nat) : bytes :=
  bs "fallback eligibility scan has " ++ print_nat n ++ bs " more findings, not listed".

Definition fallbackFindingsMessage (findings : list fallbackFinding) : bytes :=
  let l := foldl (λ l f, add l (ff_key f) (ff_message f)) no_entries findings in
  cutConditionMessage (Join findingsSeparator (messages l fallbackFindingsOneMore fallbackFindingsManyMore)).

(** The loop of splitFindings: [cur] is [msg[start:i]].  A byte after a
    backslash inside quotes is taken as it is. *)
Fixpoint split_from (inQuote : bool) (cur msg : bytes) : list bytes :=
  match msg with
  | [] => [cur]
  | c :: rest =>
      if inQuote && Ascii.eqb c backslash then
        match rest with
        | [] => [cur ++ [c]]
        | d :: rest => split_from inQuote (cur ++ [c; d]) rest
        end
      else if Ascii.eqb c quote then split_from (negb inQuote) (cur ++ [c]) rest
      else
        match rest with
        | d :: rest' =>
            if negb inQuote && Ascii.eqb c ";" && Ascii.eqb d " " then cur :: split_from inQuote [] rest'
            else split_from inQuote (cur ++ [c]) rest
        | [] => split_from inQuote (cur ++ [c]) rest
        end
  end.

Definition splitFindings (msg : bytes) : list bytes := split_from false [] msg.

(** strconv.Atoi on a run of digits. *)
Definition atoi_digits (ds : bytes) : option nat :=
  match parse_digits (str ds) with
  | Some n => if (Z.of_N n <=? max_int64)%Z then Some (N.to_nat n) else None
  | None => None
  end.

Definition strip_prefix (p b : bytes) : option bytes := if bool_decide (take (length p) b = p) then Some (drop (length p) b) else None.

(** fallbackFindingsMoreRE with Atoi of its group. *)
Definition more_count (part : bytes) : option nat :=
  match strip_prefix (bs "fallback eligibility scan has ") part with
  | None => None
  | Some rest =>
      let '(ds, rest) := span is_digit rest in
      if bool_decide (ds = []) then None
      else if bool_decide (rest = bs " more finding, not listed") || bool_decide (rest = bs " more findings, not listed")
      then atoi_digits ds else None
  end.

Definition listed_part (acc : list bytes * nat) (part : bytes) : list bytes * nat :=
  match more_count part with
  | Some n => (acc.1, n)
  | None => (acc.1 ++ [part], acc.2)
  end.

Definition listedFindings (msg : bytes) : list bytes * nat :=
  match msg with
  | [] => ([], 0)
  | _ => let '(entries, more) := foldl listed_part ([], 0) (splitFindings msg) in (entries, length entries + more)
  end.

(** ** Event notes *)

Definition fallbackTotal (n : nat) : bytes :=
  if (n =? 1)%nat then bs "1 finding in total" else print_nat n ++ bs " findings in total".

(** A nil [known] is the empty set. *)
Definition fallbackNewNote (known : gset string) (findings : list fallbackFinding) : bytes :=
  match map ff_message (filter (λ f, ff_key f ∉ known) findings) with
  | [] => []
  | added =>
      let note := bs "new: " ++ Join findingsSeparator added in
      if (size known <? length findings)%nat then fallbackTotal (length findings) ++ bs "; " ++ note else note
  end.

Definition fallbackListedNote (prevEntries : list bytes) (prevTotal : nat) (msg : bytes) : bytes :=
  let '(curEntries, curTotal) := listedFindings msg in
  let added := filter (λ e, e ∉ prevEntries) curEntries in
  let note := match added with [] => [] | _ => bs "now listed: " ++ Join findingsSeparator added end in
  if (curTotal <=? prevTotal)%nat then note
  else
    let note := match added with
                | [] => bs "the new findings are not among the " ++ print_nat (length curEntries) ++ bs " the condition lists"
                | _ => note
                end in
    fallbackTotal curTotal ++ bs "; " ++ note.

(** ** The memory *)

Record fallbackFindingsSet := mk_set { fs_uid : string; fs_keys : gset string; fs_note : bytes }.

Record fallbackFindingsMemory := mk_memory {
  known : gmap string fallbackFindingsSet;
  pending : gmap string fallbackFindingsSet;
}.

Definition lookup_seen (m : fallbackFindingsMemory) (mp : ModelProvider) : option (gset string) :=
  match known m !! Name mp with
  | Some s => if (fs_uid s =? UID mp)%string then Some (fs_keys s) else None
  | None => None
  end.

Definition stage (m : fallbackFindingsMemory) (mp : ModelProvider) (findings : list fallbackFinding) (note : bytes)
  : fallbackFindingsMemory :=
  mk_memory (known m) (<[Name mp := mk_set (UID mp) (list_to_set (map ff_key findings)) note]> (pending m)).

Definition settle_seen (m : fallbackFindingsMemory) (mp : ModelProvider) (stored : bool) : fallbackFindingsMemory * bytes :=
  match pending m !! Name mp with
  | None => (m, [])
  | Some s =>
      let pending := delete (Name mp) (pending m) in
      if negb stored then (mk_memory (known m) pending, [])
      else (mk_memory (<[Name mp := mk_set (fs_uid s) (fs_keys s) []]> (known m)) pending, fs_note s)
  end.

Definition forget (m : fallbackFindingsMemory) (name : string) : fallbackFindingsMemory :=
  mk_memory (delete name (known m)) (delete name (pending m)).

(** ** The condition *)

Section condition.
Context {CD : Conditions}.

(** The events held for finish, beside the memory's note. *)
Definition setFallbackEligibility (now : Time) (m : fallbackFindingsMemory) (mp : ModelProvider) (cs : conditions)
    (findings : list fallbackFinding) : fallbackFindingsMemory * conditions * list bytes :=
  let prev := FindStatusCondition cs ConditionFallbackIneligible in
  let remembered :=
    match lookup_seen m mp with
    | Some k => Some k
    | None => match prev with
              | None => Some ∅
              | Some c => if cond_Status c then None else Some ∅
              end
    end in
  match findings with
  | [] =>
      (stage m mp findings [],
       match prev with
       | Some _ => SetStatusCondition now cs
                     (mk_condition ConditionFallbackIneligible false ReasonFallbackCandidatesEligible "" 0%Z)
       | None => cs
       end, [])
  | _ =>
      let msg := fallbackFindingsMessage findings in
      let '(m, held) :=
        match remembered with
        | Some k => (stage m mp findings (fallbackNewNote k findings), [])
        | None =>
            let '(prevEntries, prevTotal) := listedFindings (bs (default "" (cond_Message <$> prev))) in
            let note := fallbackListedNote prevEntries prevTotal msg in
            (stage m mp findings [], match note with [] => [] | _ => [note] end)
        end in
      (m, SetStatusCondition now cs (mk_condition ConditionFallbackIneligible true ReasonFallbackIneligible (str msg) 0%Z), held)
  end.

(** What finish does with the held events and the memory: the status was found
    already stored, was written, or its write failed. *)
Inductive status_write := AlreadyStored | Written | WriteFailed.

Definition finish_events (w : status_write) (m : fallbackFindingsMemory) (mp : ModelProvider) (held : list bytes)
  : fallbackFindingsMemory * list bytes :=
  let stored := match w with WriteFailed => false | _ => true end in
  let flushed := match w with Written => held | _ => [] end in
  let '(m, note) := settle_seen m mp stored in
  (m, flushed ++ match note with [] => [] | _ => [note] end).
End condition.

(** What the fallback eligibility scan promises.

    - The condition's message always fits the condition schema, and what it
      lists and counts is read back from it.
    - Each pass announces the findings the last recorded one did not have,
      also when the status write between them failed.
    - The walk ends, and finds the providers the gateway skips (SkipsFound.v). *)

From Stdlib Require DecimalN DecimalFacts DecimalString.
Import DecimalString.

(** ** Splitting a message *)

(** Text a split passes over whole. *)
Definition segment (t : bytes) : Prop :=
  ∀ cur rest, split_from false cur (t ++ rest) = split_from false (cur ++ t) rest.

Lemma segment_nil : segment [].
Proof. intros cur rest. by rewrite app_nil_r. Qed.

Lemma segment_app t1 t2 : segment t1 → segment t2 → segment (t1 ++ t2).
Proof. intros H1 H2 cur rest. by rewrite <- app_assoc, H1, H2, app_assoc. Qed.

Definition plain_char (c : ascii) : bool := negb (Ascii.eqb c quote) && negb (Ascii.eqb c ";").

Lemma segment_plain t : forallb plain_char t = true → segment t.
Proof.
  induction t as [|c t IH]; [intros _; apply segment_nil|]. intros [Hc Ht]%andb_true_iff cur rest.
  unfold plain_char in Hc. apply andb_true_iff in Hc as [Hq%negb_true_iff Hs%negb_true_iff].
  assert (Hone : split_from false cur (c :: t ++ rest) = split_from false (cur ++ [c]) (t ++ rest)).
  { cbn [split_from andb]. rewrite Hq. by destruct (t ++ rest); [|rewrite Hs]. }
  cbn [app]. rewrite Hone, IH by done. by rewrite <- app_assoc.
Qed.

Lemma in_quote_char c cur rest : unremarkable c → split_from true cur (c :: rest) = split_from true (cur ++ [c]) rest.
Proof.
  intros [Hq%Ascii.eqb_neq Hb%Ascii.eqb_neq]. cbn [split_from andb]. rewrite Hq, Hb. by destruct rest.
Qed.

Lemma in_quote_chars l cur rest : Forall unremarkable l → split_from true cur (l ++ rest) = split_from true (cur ++ l) rest.
Proof.
  intros H. revert cur; induction H as [|c l Hc _ IH]; intros cur; [by rewrite app_nil_r|].
  cbn [app]. rewrite in_quote_char, IH, <- app_assoc by done. done.
Qed.

Lemma in_quote_units us cur rest : Forall quoted_unit us →
  split_from true cur (concat us ++ rest) = split_from true (cur ++ concat us) rest.
Proof.
  intros H. revert cur; induction H as [|u us Hu _ IH]; intros cur; [by rewrite app_nil_r|].
  cbn [concat]. rewrite <- app_assoc, (app_assoc cur u). destruct Hu as [Hu|(c & l & -> & Hl)].
  - by rewrite in_quote_chars, IH.
  - cbn [app split_from andb]. rewrite Ascii.eqb_refl.
    by rewrite in_quote_chars, IH, <- !app_assoc by done.
Qed.

Section quoting.
Context {U : Unicode}.

Lemma segment_quote b : segment (QuoteText b).
Proof.
  intros cur rest. unfold QuoteText, string_token. destruct (quote_from_units 0 b) as (us & -> & Hus & _); [lia|].
  cbn [app split_from andb negb]. rewrite Ascii.eqb_refl, <- app_assoc, in_quote_units by done.
  cbn [app split_from andb negb]. rewrite Ascii.eqb_refl.
  assert (Hb : Ascii.eqb quote backslash = false) by done. rewrite Hb, <- !app_assoc. done.
Qed.

Lemma digits_plain n : forallb plain_char (print_nat n) = true.
Proof.
  unfold print_nat. pose proof (all_digits_print_N (N.of_nat n)) as H. revert H. generalize (print_N (N.of_nat n)). intros s.
  induction s as [|c s IH]; [done|]. cbn [all_chars bs String.list_ascii_of_string forallb]. intros [Hc Hs]%andb_true_iff.
  apply andb_true_iff. split; [|by apply IH]. unfold plain_char. rewrite andb_true_iff, !negb_true_iff, !Ascii.eqb_neq.
  split; intros ->; by vm_compute in Hc.
Qed.

Lemma segment_entry b : segment (quotedEntry b).
Proof.
  unfold quotedEntry. destruct (_ <=? _)%nat; [apply segment_quote|].
  repeat apply segment_app; try apply segment_quote; apply segment_plain; try apply digits_plain; done.
Qed.

(** A finding of the scan. *)
Inductive scan_finding : fallbackFinding → Prop :=
  | sf_namespace child ns : scan_finding (namespace_finding child ns)
  | sf_model child model m : scan_finding (model_finding child model m).

Lemma scan_finding_segment f : scan_finding f → segment (ff_message f).
Proof.
  destruct 1; cbn [namespace_finding model_finding ff_message]; repeat apply segment_app;
    try apply segment_entry; by apply segment_plain.
Qed.

Lemma quotedEntry_head b : ∃ r, quotedEntry b = quote :: r.
Proof. unfold quotedEntry, QuoteText, string_token. destruct (_ <=? _)%nat; by eexists. Qed.

Lemma scan_finding_entry f : scan_finding f → more_count (ff_message f) = None.
Proof.
  assert (Hq : ∀ s tail, more_count (bs "fallback " ++ quoted_name s ++ tail) = None).
  { intros s tail. unfold quoted_name. destruct (quotedEntry_head (bs s)) as [r ->]. unfold more_count, strip_prefix.
    rewrite bool_decide_eq_false_2; [done|]. intros H. by apply (f_equal (λ l, nth 9 l "000"%char)) in H. }
  destruct 1; apply Hq.
Qed.
End quoting.

Lemma split_Join parts : parts ≠ [] → Forall segment parts → splitFindings (Join findingsSeparator parts) = parts.
Proof.
  unfold splitFindings. intros Hne H. destruct parts as [|p parts]; [done|]. clear Hne.
  assert (Hgen : ∀ parts p, segment p → Forall segment parts → split_from false [] (Join findingsSeparator (p :: parts)) = p :: parts).
  2: { inversion H; subst. by apply Hgen. }
  clear. induction parts as [|q parts IH]; intros p Hp Hps.
  - cbn [Join]. specialize (Hp [] []). rewrite app_nil_r in Hp. by rewrite Hp.
  - inversion Hps; subst. change (Join findingsSeparator (p :: q :: parts)) with (p ++ findingsSeparator ++ Join findingsSeparator (q :: parts)).
    rewrite Hp. cbn [app]. change (findingsSeparator ++ ?r) with (";"%char :: " "%char :: r).
    cbn [split_from andb negb]. by rewrite IH.
Qed.

(** ** The count that ends a message *)

Lemma str_app a b : str (a ++ b) = (str a +:+ str b).
Proof. induction a as [|c a IH]; [done|]. change (String c (str (a ++ b)) = String c (str a +:+ str b)). by rewrite IH. Qed.

Lemma atoi_print n : (Z.of_nat n ≤ max_int64)%Z → atoi_digits (print_nat n) = Some n.
Proof.
  intros Hn. unfold atoi_digits, print_nat. rewrite str_bs, parse_print_N.
  rewrite (proj2 (Z.leb_le _ _)) by (rewrite nat_N_Z; lia). by rewrite Nat2N.id.
Qed.

Lemma span_digits ds rest : forallb is_digit ds = true → match rest with [] => true | c :: _ => negb (is_digit c) end = true →
  span is_digit (ds ++ rest) = (ds, rest).
Proof.
  intros H Hr. induction ds as [|c ds IH]; cbn [app].
  - destruct rest as [|c rest]; [done|]. cbn [span]. by apply negb_true_iff in Hr as ->.
  - apply andb_true_iff in H as [Hc H]. cbn [span]. rewrite Hc, IH by done. done.
Qed.

Lemma is_digit_same c : GoFloat.is_digit c = is_digit c.
Proof. by destruct c as [[] [] [] [] [] [] [] []]. Qed.

Lemma print_nat_digits n : forallb is_digit (print_nat n) = true ∧ print_nat n ≠ [].
Proof.
  unfold print_nat. split.
  - pose proof (all_digits_print_N (N.of_nat n)) as H. revert H. generalize (print_N (N.of_nat n)). intros s.
    induction s as [|c s IH]; [done|]. cbn [all_chars bs String.list_ascii_of_string forallb]. intros [Hc Hs]%andb_true_iff.
    apply andb_true_iff. split; [|by apply IH]. by rewrite <- is_digit_same.
  - destruct (print_N_cons (N.of_nat n)) as (a & s & -> & _). done.
Qed.

Lemma length_bs s : length (bs s) = String.length s.
Proof. induction s as [|c s IH]; [done|]. simpl. by rewrite <- IH. Qed.

Lemma parse_digits_ge acc s v : parse_digits_from acc s = Some v → (acc * 10 ^ N.of_nat (String.length s) ≤ v)%N.
Proof.
  revert acc; induction s as [|c s IH]; intros acc; cbn [parse_digits_from String.length].
  - intros [= <-]. simpl. lia.
  - destruct (digit c) as [d|]; [|done]. intros H%IH. rewrite Nat2N.inj_succ, N.pow_succ_r'.
    pose proof (N.pow_nonzero 10 (N.of_nat (String.length s))). nia.
Qed.

Lemma to_uint_no_zero n u : N.to_uint n = Decimal.D0 u → n = 0%N.
Proof.
  intros H. pose proof (DecimalN.Unsigned.to_of (N.to_uint n)) as Hn. rewrite DecimalN.Unsigned.of_to in Hn.
  rewrite H in Hn. unfold Decimal.unorm in Hn. destruct (Decimal.nzhead (Decimal.D0 u)) eqn:E; try discriminate Hn.
  - rewrite Hn in H. change (Decimal.zero) with (N.to_uint 0) in H. rewrite <- (DecimalN.Unsigned.of_to n), H. by injection Hn as ->.
  - exfalso. by eapply DecimalFacts.nzhead_nonzero.
Qed.

(** A number below a power of ten has as many digits at most. *)
Lemma print_N_length n k : (n < 10 ^ N.of_nat k)%N → (0 < k)%nat → (String.length (print_N n) ≤ k)%nat.
Proof.
  intros Hn Hk. destruct (decide (n = 0%N)) as [->|H0]; [simpl; lia|].
  pose proof (parse_print_N n) as Hp. unfold print_N in *. pose proof (to_uint_no_zero n) as Hz.
  assert (Hgen : ∀ c s d, NilEmpty.string_of_uint (N.to_uint n) = String c s → digit c = Some d → (0 < d)%N →
    (String.length (NilEmpty.string_of_uint (N.to_uint n)) ≤ k)%nat).
  { intros c s d E Hd Hpos. rewrite E in Hp |- *. unfold parse_digits in Hp. cbn [parse_digits_from] in Hp. rewrite Hd in Hp.
    apply parse_digits_ge in Hp. cbn [String.length]. destruct (le_lt_dec k (String.length s)) as [Hle|]; [|lia]. exfalso.
    assert (10 ^ N.of_nat k ≤ 10 ^ N.of_nat (String.length s))%N by (apply N.pow_le_mono_r; lia). nia. }
  destruct (N.to_uint n) as [|u|u|u|u|u|u|u|u|u|u] eqn:E; cbn [NilEmpty.string_of_uint] in *.
  1: simpl; lia.
  1: by destruct (H0 (Hz u eq_refl)).
  all: eapply Hgen; [reflexivity|reflexivity|by vm_compute].
Qed.

Lemma print_nat_length n k : (Z.of_nat n < 10 ^ Z.of_nat k)%Z → (0 < k)%nat → (length (print_nat n) ≤ k)%nat.
Proof.
  intros Hn Hk. unfold print_nat. rewrite length_bs. apply print_N_length; [|done].
  apply N2Z.inj_lt. rewrite N2Z.inj_pow, !nat_N_Z. lia.
Qed.

(** ** The message of a scan *)

Section message.
Context {U : Unicode}.

(** A text Go can hold: its length is an int. *)
Definition holdable (s : string) : Prop := (Z.of_nat (String.length s) ≤ max_int64)%Z.

Definition holdable_finding (f : fallbackFinding) : Prop :=
  (∃ child ns, f = namespace_finding child ns ∧ holdable child ∧ holdable ns) ∨
  (∃ child model m, f = model_finding child model m ∧ holdable child ∧ holdable model ∧ holdable m).

Lemma holdable_is_finding f : holdable_finding f → scan_finding f.
Proof. by intros [(? & ? & -> & _)|(? & ? & ? & -> & _)]; constructor. Qed.

Lemma quoted_name_length s : holdable s → (length (quoted_name s) ≤ 1067)%nat.
Proof.
  unfold holdable, quoted_name, quotedEntry. intros Hs. rewrite <- length_bs in Hs.
  destruct (Nat.leb_spec (length (bs s)) maxQuotedEntryBytes) as [H|H].
  - pose proof (QuoteText_length (bs s)). unfold maxQuotedEntryBytes in *. lia.
  - cbv zeta. set (cut := if RuneStart _ then _ else _).
    assert (Hcut : (cut ≤ maxQuotedEntryBytes)%nat) by (subst cut; destruct (RuneStart _); [apply step_back_le|done]).
    pose proof (QuoteText_length (take cut (bs s))) as Hq. rewrite length_take in Hq. unfold maxQuotedEntryBytes in *.
    assert (length (print_nat cut) ≤ 3)%nat by (apply print_nat_length; lia).
    assert (length (print_nat (length (bs s))) ≤ 19)%nat by (apply print_nat_length; unfold max_int64 in Hs; lia).
    rewrite !length_app. cbn [bs String.list_ascii_of_string length]. lia.
Qed.

Lemma finding_length f : holdable_finding f → (length (ff_message f) ≤ 3249)%nat.
Proof.
  intros [(child & ns & -> & H1 & H2)|(child & model & m & -> & H1 & H2 & H3)]; cbn [namespace_finding model_finding ff_message];
    rewrite !length_app; cbn [bs String.list_ascii_of_string length];
    pose proof (quoted_name_length _ H1); pose proof (quoted_name_length _ H2);
    try pose proof (quoted_name_length _ H3); lia.
Qed.

Lemma Join_length sep parts bound : Forall (λ p, (length p ≤ bound)%nat) parts →
  (length (Join sep parts) ≤ length parts * (bound + length sep))%nat.
Proof.
  induction 1 as [|p parts Hp Hps IH]; [simpl; lia|]. destruct parts as [|q parts]; [simpl; lia|].
  change (Join sep (p :: q :: parts)) with (p ++ sep ++ Join sep (q :: parts)). rewrite !length_app. simpl in *. lia.
Qed.

Lemma Join_app_length sep parts last :
  (length (Join sep (parts ++ [last])) ≤ length (Join sep parts) + length sep + length last)%nat.
Proof.
  induction parts as [|p parts IH]; [simpl; lia|]. destruct parts as [|q parts].
  - simpl. rewrite !length_app. lia.
  - change (Join sep ((p :: q :: parts) ++ [last])) with (p ++ sep ++ Join sep ((q :: parts) ++ [last])).
    change (Join sep (p :: q :: parts)) with (p ++ sep ++ Join sep (q :: parts)). rewrite !length_app in *. lia.
Qed.

(** The parts of the message: the first ten findings, and the count of the
    others. *)
Definition message_parts (findings : list fallbackFinding) : list bytes :=
  take maxListedEntries (map ff_message findings) ++
  match (length findings - maxListedEntries)%nat with
  | O => []
  | S O => [fallbackFindingsOneMore]
  | n => [fallbackFindingsManyMore n]
  end.

Definition finding_pair (f : fallbackFinding) : string * bytes := (ff_key f, ff_message f).

Lemma message_is_parts findings : NoDup (map ff_key findings) →
  fallbackFindingsMessage findings = cutConditionMessage (Join findingsSeparator (message_parts findings)).
Proof.
  intros Hd. unfold fallbackFindingsMessage. cbv zeta. f_equal. f_equal.
  assert (Hf : foldl (λ l f, add l (ff_key f) (ff_message f)) no_entries findings = entries_of (map finding_pair findings)).
  { unfold entries_of. generalize no_entries. clear. induction findings as [|f findings IH]; intros l; [done|]. apply IH. }
  assert (Hk : (map finding_pair findings).*1 = map ff_key findings) by (rewrite <- list_fmap_compose; done).
  assert (Hm : (map finding_pair findings).*2 = map ff_message findings) by (rewrite <- list_fmap_compose; done).
  rewrite Hf, entries_of_distinct, Hk, Hm by (by rewrite Hk).
  unfold messages, message_parts. cbn [more listed]. rewrite length_map.
  destruct (length findings - maxListedEntries)%nat as [|[|n]]; [by rewrite app_nil_r|done..].
Qed.

Lemma message_fits findings : NoDup (map ff_key findings) → Forall holdable_finding findings →
  (Z.of_nat (length findings) ≤ max_int64)%Z →
  fallbackFindingsMessage findings = Join findingsSeparator (message_parts findings).
Proof.
  intros Hd Hf Hn. rewrite message_is_parts by done. apply Truncate_short. unfold message_parts.
  set (listed := take _ _). set (rest := match _ with O => _ | S _ => _ end).
  assert (Hl : (length (Join findingsSeparator listed) ≤ 10 * (3249 + 2))%nat).
  { etrans; [apply (Join_length _ _ 3249)|].
    - apply Forall_take, List.Forall_map. eapply List.Forall_impl; [|done]. intros f. apply finding_length.
    - apply Nat.mul_le_mono_r. subst listed. rewrite length_take. unfold maxListedEntries. lia. }
  assert (Hlim : maxConditionMessageBytes = Z.to_nat 32768) by done.
  assert (Hmore : ∀ n, (n ≤ length findings)%nat → (length (fallbackFindingsManyMore n) ≤ 75)%nat).
  { intros n Hle. unfold fallbackFindingsManyMore. rewrite !length_app. cbn [bs String.list_ascii_of_string length].
    assert (length (print_nat n) ≤ 19)%nat by (apply print_nat_length; unfold max_int64 in Hn; lia). lia. }
  assert (Hr : rest = [] ∨ ∃ p, rest = [p] ∧ (length p ≤ 75)%nat).
  { subst rest. destruct (length findings - maxListedEntries)%nat as [|[|n]] eqn:E; [by left|right..].
    - eexists. split; [done|]. cbn. lia.
    - eexists. split; [done|]. apply Hmore. lia. }
  destruct Hr as [->|(p & -> & Hp)]; [rewrite app_nil_r; lia|].
  pose proof (Join_app_length findingsSeparator listed p). cbn [findingsSeparator bs String.list_ascii_of_string length] in *. lia.
Qed.

Lemma more_count_many n : (Z.of_nat n ≤ max_int64)%Z → more_count (fallbackFindingsManyMore n) = Some n.
Proof.
  intros Hn. unfold fallbackFindingsManyMore, more_count, strip_prefix.
  rewrite bool_decide_eq_true_2 by (by rewrite take_app_length). rewrite drop_app_length.
  destruct (print_nat_digits n) as [Hd Hne]. rewrite span_digits by done.
  rewrite bool_decide_eq_false_2 by done. rewrite (bool_decide_eq_true_2 (_ = bs " more findings, not listed")) by done.
  rewrite orb_true_r. by apply atoi_print.
Qed.

Lemma listed_entries acc parts : Forall (λ p, more_count p = None) parts →
  foldl listed_part acc parts = (acc.1 ++ parts, acc.2).
Proof.
  intros H. revert acc; induction H as [|p parts Hp _ IH]; intros [entries n]; [by rewrite app_nil_r|].
  cbn [foldl]. unfold listed_part at 2. rewrite Hp, IH. cbn [fst snd]. by rewrite <- app_assoc.
Qed.

Lemma message_segments findings : Forall scan_finding findings → Forall segment (message_parts findings).
Proof.
  intros H. unfold message_parts. apply Forall_app. split.
  - apply Forall_take, List.Forall_map. eapply List.Forall_impl; [|done]. apply scan_finding_segment.
  - destruct (length findings - maxListedEntries)%nat as [|[|n]]; repeat constructor; [by apply segment_plain|].
    unfold fallbackFindingsManyMore. repeat apply segment_app; apply segment_plain; [done|apply digits_plain|done].
Qed.

Lemma parts_read_back findings : Forall scan_finding findings → (Z.of_nat (length findings) ≤ max_int64)%Z →
  foldl listed_part ([], 0%nat) (message_parts findings) =
  (take maxListedEntries (map ff_message findings), (length findings - maxListedEntries)%nat).
Proof.
  intros H Hn. unfold message_parts. rewrite foldl_app, (listed_entries _ (take _ _)).
  2: { apply Forall_take, List.Forall_map. eapply List.Forall_impl; [|done]. apply scan_finding_entry. }
  cbn [fst snd app]. destruct (length findings - maxListedEntries)%nat as [|[|n]] eqn:E; [done|done|].
  cbn [foldl]. unfold listed_part. rewrite more_count_many by lia. done.
Qed.

(** What the message lists and counts is read back from it. *)
Lemma message_reads_back findings : NoDup (map ff_key findings) → Forall holdable_finding findings →
  (Z.of_nat (length findings) ≤ max_int64)%Z →
  listedFindings (fallbackFindingsMessage findings) = (take maxListedEntries (map ff_message findings), length findings).
Proof.
  intros Hd Hf Hn. rewrite message_fits by done.
  assert (Hs : Forall scan_finding findings) by (eapply List.Forall_impl; [|done]; apply holdable_is_finding).
  destruct findings as [|f findings]; [done|]. unfold listedFindings.
  assert (Hne : Join findingsSeparator (message_parts (f :: findings)) ≠ []).
  { unfold message_parts. inversion Hs as [|? ? Hsf]; subst. cbn [map take maxListedEntries app].
    assert (ff_message f ≠ []) by (by destruct Hsf).
    intros E. apply (f_equal length) in E. destruct (_ ++ _); simpl in E; rewrite ?length_app in E; destruct (ff_message f); simpl in *; try done; lia. }
  destruct (Join findingsSeparator _) as [|c msg] eqn:E; [done|]. rewrite <- E.
  rewrite split_Join, parts_read_back by first [done | by apply message_segments | unfold message_parts; by destruct f].
  f_equal. rewrite length_take, length_map. lia.
Qed.
End message.

(** ** Announcing findings

    The abstract reporter keeps the findings of the last recorded pass and
    announces, with each pass it records, the findings that are new against
    them. *)

Record pass := mk_pass { at_time : Time; pass_findings : list fallbackFinding; pass_write : status_write }.

Definition recorded (p : pass) : bool := match pass_write p with WriteFailed => false | _ => true end.

Definition spec_pass (K : gset string) (p : pass) : gset string * list bytes :=
  if recorded p
  then (list_to_set (map ff_key (pass_findings p)),
        match fallbackNewNote K (pass_findings p) with [] => [] | note => [note] end)
  else (K, []).

Section announce.
Context {CD : Conditions} (mp : ModelProvider).

Record reporter := mk_reporter { r_memory : fallbackFindingsMemory; r_conditions : conditions }.

(** One pass of the reconciler over the condition: scan, set, finish.  What
    the API server holds changes only with a write that succeeds. *)
Definition run_pass (r : reporter) (p : pass) : reporter * list bytes :=
  let '(m, cs, held) := setFallbackEligibility (at_time p) (r_memory r) mp (r_conditions r) (pass_findings p) in
  let '(m, notes) := finish_events (pass_write p) m mp held in
  (mk_reporter m (match pass_write p with Written => cs | _ => r_conditions r end), notes).

Definition unset_or_false (cs : conditions) : Prop :=
  ∀ c, FindStatusCondition cs ConditionFallbackIneligible = Some c → cond_Status c = false.

(** The reporter remembers [K]: in memory, or because no finding is recorded. *)
Definition remembers (r : reporter) (K : gset string) : Prop :=
  pending (r_memory r) !! Name mp = None ∧
  (lookup_seen (r_memory r) mp = Some K ∨
   (lookup_seen (r_memory r) mp = None ∧ K = ∅ ∧ unset_or_false (r_conditions r))).

Lemma remembered_set r K : remembers r K →
  match lookup_seen (r_memory r) mp with
  | Some k => Some k
  | None => match FindStatusCondition (r_conditions r) ConditionFallbackIneligible with
            | None => Some ∅
            | Some c => if cond_Status c then None else Some ∅
            end
  end = Some K.
Proof.
  intros [_ [->|(-> & -> & Hc)]]; [done|]. destruct (FindStatusCondition _ _) as [c|] eqn:E; [|done]. by rewrite (Hc c E).
Qed.

(** A remembered set makes the pass stage its findings with the note of the
    new ones, and hold no other event. *)
Lemma set_remembered now r K findings : remembers r K →
  ∃ cs, setFallbackEligibility now (r_memory r) mp (r_conditions r) findings =
        (stage (r_memory r) mp findings (fallbackNewNote K findings), cs, []).
Proof.
  intros H. unfold setFallbackEligibility. cbv zeta. rewrite (remembered_set _ _ H).
  destruct findings as [|f findings]; by eexists.
Qed.

Lemma settle_stage m findings note stored :
  pending m !! Name mp = None →
  let '(m', note') := settle_seen (stage m mp findings note) mp stored in
  pending m' !! Name mp = None ∧
  (if stored then note' = note ∧ lookup_seen m' mp = Some (list_to_set (map ff_key findings))
   else note' = [] ∧ known m' = known m).
Proof.
  intros Hp. unfold settle_seen, stage. cbn [pending]. rewrite lookup_insert_eq.
  destruct stored; cbn [negb pending known]; (split; [by rewrite lookup_delete_eq|]); [|done].
  split; [done|]. unfold lookup_seen. cbn [known]. rewrite lookup_insert_eq. cbn [fs_uid fs_keys]. by rewrite String.eqb_refl.
Qed.

Lemma run_pass_refines r K p : remembers r K → remembers (run_pass r p).1 (spec_pass K p).1 ∧ (run_pass r p).2 = (spec_pass K p).2.
Proof.
  intros H. unfold run_pass. destruct (set_remembered (at_time p) r K (pass_findings p) H) as [cs ->].
  unfold finish_events, spec_pass, recorded. destruct H as [Hp Hk].
  pose proof (settle_stage (r_memory r) (pass_findings p) (fallbackNewNote K (pass_findings p)) (recorded p) Hp) as Hs.
  unfold recorded in Hs. destruct (settle_seen _ _ _) as [m note]. destruct Hs as [Hm Hs].
  destruct (pass_write p); cbn [fst snd]; destruct Hs as [-> Hl]; (split; [split; [done|]|try done; by destruct (fallbackNewNote K (pass_findings p))]); cbn [r_memory r_conditions].
  - by left.
  - by left.
  - unfold lookup_seen in *. by rewrite Hl.
Qed.

Fixpoint run_passes (r : reporter) (ps : list pass) : reporter * list (list bytes) :=
  match ps with
  | [] => (r, [])
  | p :: ps => let '(r, notes) := run_pass r p in let '(r, rest) := run_passes r ps in (r, notes :: rest)
  end.

Fixpoint spec_passes (K : gset string) (ps : list pass) : gset string * list (list bytes) :=
  match ps with
  | [] => (K, [])
  | p :: ps => let '(K, notes) := spec_pass K p in let '(K, rest) := spec_passes K ps in (K, notes :: rest)
  end.

(** The FallbackIneligible events of a provider follow the abstract
    reporter: whatever the passes find, and whichever status writes fail or
    are found done already, each recorded pass announces the findings the
    last recorded pass did not have, no other pass announces any, and the
    memory holds the findings of the last recorded pass. *)
Theorem events_announce_new_findings r K ps (Hstart : remembers r K) :
  (run_passes r ps).2 = (spec_passes K ps).2 ∧ remembers (run_passes r ps).1 (spec_passes K ps).1.
Proof.
  revert r K Hstart; induction ps as [|p ps IH]; intros r K Hstart; [done|]. cbn [run_passes spec_passes].
  pose proof (run_pass_refines r K p Hstart) as [Hr Hn]. destruct (run_pass r p) as [r1 notes], (spec_pass K p) as [K1 notes'].
  cbn [fst snd] in Hr, Hn. subst notes'. destruct (IH r1 K1 Hr) as [H1 H2].
  destruct (run_passes r1 ps) as [r2 rest], (spec_passes K1 ps) as [K2 rest']. cbn [fst snd] in *. by subst.
Qed.
End announce.
