(* ===== verification/SkipsFound.v ===== *)
(** The scan against the gateway: every candidate the gateway's walk
    (Fallback.v) skips for its namespace or its model is a finding of the
    reconcile-time scan (Eligibility.v).

    The two walk the same tree with the same set of visited providers; the
    gateway stops early when a candidate answers. *)

From stdpp Require Import base gmap sets list strings option sorting relations.
From Stdlib Require Import ZArith Lia Ascii.
From S2P Require Import Prelude GoFloat GoTime GoPath Json Api BudgetWire BudgetLedger Auth Routing Fallback FallbackFacts BudgetReducer ProblemList Conditions ProviderValidation Eligibility.

(** ** The scan *)

Section scan.
Context {U : Unicode} (providers : gmap string ModelProvider).

Definition keyed : Prop := ∀ n p, providers !! n = Some p → Name p = n.

(** The scan visits, and keeps what it found. *)
Record scan_grows (st st' : scan_state) : Prop := {
  grows_visited : sc_visited st ⊆ sc_visited st';
  grows_found : dom (sc_found st) ⊆ dom (sc_found st');
}.

#[local] Instance scan_grows_preorder : PreOrder scan_grows.
Proof. split; [by constructor|]. intros st1 st2 st3 [] []. constructor; set_solver. Qed.

(** The state after a candidate is entered and checked. *)
Definition scan_enter (ns m : string) (child : ModelProvider) (model : string) (st : scan_state) : scan_state :=
  let st := mk_scan ({[Name child]} ∪ sc_visited st) (sc_found st) in
  let st := if admits_ns ns child then st else note_found st (namespace_finding (Name child) ns) in
  if has_model child model then st else note_found st (model_finding (Name child) model m).

Lemma scan_enter_visited ns m child model st : sc_visited (scan_enter ns m child model st) = {[Name child]} ∪ sc_visited st.
Proof. unfold scan_enter. by repeat case_match. Qed.

Lemma scan_enter_grows ns m child model st : scan_grows st (scan_enter ns m child model st).
Proof.
  constructor; [rewrite scan_enter_visited; set_solver|]. unfold scan_enter, note_found.
  repeat case_match; cbn [sc_found]; rewrite ?dom_insert; set_solver.
Qed.

Lemma scan_enter_namespace ns m child model st : admits_ns ns child = false →
  ff_key (namespace_finding (Name child) ns) ∈ dom (sc_found (scan_enter ns m child model st)).
Proof.
  intros H. unfold scan_enter. rewrite H. unfold note_found.
  destruct (has_model child model); cbn [sc_found]; rewrite ?dom_insert; set_solver.
Qed.

Lemma scan_enter_model ns m child model st : has_model child model = false →
  ff_key (model_finding (Name child) model m) ∈ dom (sc_found (scan_enter ns m child model st)).
Proof. intros H. unfold scan_enter. rewrite H. unfold note_found. cbn [sc_found]. rewrite dom_insert. set_solver. Qed.

(** One reference of the loop. *)
Lemma scan_refs_cons walk ns m pm ref refs st :
  scan_refs providers walk ns m pm (ref :: refs) st =
  match providers !! fb_Name ref with
  | None => scan_refs providers walk ns m pm refs st
  | Some child =>
      if decide (Name child ∈ sc_visited st) then scan_refs providers walk ns m pm refs st
      else
        let model := edge_model ref pm in
        let st := scan_enter ns m child model st in
        if admits_ns ns child && has_model child model
        then walk child model st ≫= scan_refs providers walk ns m pm refs
        else scan_refs providers walk ns m pm refs st
  end.
Proof.
  cbn [scan_refs]. destruct (providers !! fb_Name ref) as [child|]; [|done]. destruct (decide _); [done|].
  unfold scan_enter. cbv zeta. destruct (admits_ns ns child), (has_model child (edge_model ref pm)); done.
Qed.

Lemma scan_refs_grows walk ns m pm refs st st' :
  (∀ p model st st', walk p model st = Some st' → scan_grows st st') →
  scan_refs providers walk ns m pm refs st = Some st' → scan_grows st st'.
Proof.
  intros Hw. revert st; induction refs as [|ref refs IH]; intros st; [by intros [= <-]|]. rewrite scan_refs_cons.
  destruct (providers !! fb_Name ref) as [child|]; [|apply IH]. destruct (decide _); [apply IH|]. cbv zeta.
  pose proof (scan_enter_grows ns m child (edge_model ref pm) st) as Hg. destruct (_ && _).
  - destruct (walk _ _ _) as [st1|] eqn:E; [|done]. intros H%IH. apply Hw in E. by etrans; [exact Hg|etrans; [exact E|exact H]].
  - intros H%IH. by etrans; [exact Hg|].
Qed.

Lemma scan_walk_grows fuel ns m p model st st' :
  scan_walk providers fuel ns m p model st = Some st' → scan_grows st st'.
Proof.
  revert p model st st'; induction fuel as [|fuel IH]; intros p model st st'; [done|]. cbn [scan_walk].
  apply scan_refs_grows. apply IH.
Qed.

(** The walk ends: each nested call visits one provider more. *)
Definition unvisited (st : scan_state) : nat := size (dom providers ∖ sc_visited st).

Lemma scan_refs_total fuel ns m pm refs st : keyed →
  (∀ p model st, unvisited st < fuel → is_Some (scan_walk providers fuel ns m p model st)) →
  unvisited st ≤ fuel → is_Some (scan_refs providers (scan_walk providers fuel ns m) ns m pm refs st).
Proof.
  intros Hk Hw. revert st; induction refs as [|ref refs IH]; intros st Hu; [done|]. rewrite scan_refs_cons.
  destruct (providers !! fb_Name ref) as [child|] eqn:Ec; [|by apply IH]. destruct (decide _) as [|Hv]; [by apply IH|]. cbv zeta.
  set (st1 := scan_enter ns m child (edge_model ref pm) st).
  assert (Hlt : unvisited st1 < unvisited st).
  { unfold unvisited. subst st1. rewrite scan_enter_visited. apply subset_size. split; [set_solver|].
    intros Hs. specialize (Hs (Name child)). apply elem_of_dom_2 in Ec as Hd. rewrite <- (Hk _ _ Ec) in Hd. set_solver. }
  destruct (_ && _); [|apply IH; lia].
  destruct (Hw child (edge_model ref pm) st1) as [st2 E]; [lia|]. rewrite E. cbn.
  apply IH. apply scan_walk_grows in E as [Hg _]. etrans; [|exact Hu]. etrans; [|apply Nat.lt_le_incl, Hlt].
  unfold unvisited. apply subseteq_size. set_solver.
Qed.

Lemma scan_walk_total fuel ns m p model st : keyed →
  unvisited st < fuel → is_Some (scan_walk providers fuel ns m p model st).
Proof.
  intros Hk. revert p model st; induction fuel as [|fuel IH]; intros p model st Hu; [lia|]. cbn [scan_walk].
  apply scan_refs_total; [done|done|lia].
Qed.

Lemma scan_request_total primary found nm : keyed → is_Some found → is_Some (scan_request providers primary found nm).
Proof.
  intros Hk [fnd ->]. unfold scan_request. cbn [mbind option_bind]. apply fmap_is_Some. apply scan_walk_total; [done|].
  apply Nat.lt_succ_r. unfold unvisited. transitivity (size (dom providers)); [apply subseteq_size; set_solver|].
  apply Nat.eq_le_incl, (size_dom (D := gset string)).
Qed.

(** The scan of any providers ends. *)
Theorem fallbackIneligibility_returns primary callers : keyed → is_Some (fallbackIneligibility providers primary callers).
Proof.
  intros Hk. unfold fallbackIneligibility. apply fmap_is_Some.
  assert (H : ∀ l found, is_Some found → is_Some (foldl (scan_request providers primary) found l)); [|by apply H].
  induction l as [|nm l IH]; intros found Hf; [done|]. cbn [foldl]. by apply IH, scan_request_total.
Qed.

(** What one request's walk finds is among the findings. *)
Lemma request_found primary callers findings ns m :
  fallbackIneligibility providers primary callers = Some findings → (ns, m) ∈ requests primary callers →
  ∃ found st, scan_walk providers (S (size providers)) ns m primary m (mk_scan {[Name primary]} found) = Some st ∧
    ∀ key, key ∈ dom (sc_found st) → ∃ f, f ∈ findings ∧ ff_key f = key.
Proof.
  unfold fallbackIneligibility. intros (all & Hall & ->)%fmap_Some Hin.
  assert (Hmono : ∀ l found all, foldl (scan_request providers primary) found l = Some all →
    ∃ f0, found = Some f0 ∧ dom f0 ⊆ dom all).
  { clear. induction l as [|nm l IH]; intros found all; cbn [foldl]; [intros ->; eauto|].
    intros (f1 & H1 & Hs)%IH. destruct found as [f0|]; [|done]. unfold scan_request in H1. cbn [mbind option_bind] in H1.
    apply fmap_Some in H1 as (st & Hw & ->). apply scan_walk_grows in Hw as [_ Hw]. cbn [sc_found] in Hw. exists f0. set_solver. }
  apply list_elem_of_split in Hin as (l1 & l2 & Hl). rewrite Hl, foldl_app in Hall. cbn [foldl] in Hall.
  apply Hmono in Hall as (f1 & H1 & Hs). unfold scan_request in H1.
  destruct (foldl _ _ l1) as [f0|]; [|done]. cbn [mbind option_bind] in H1. apply fmap_Some in H1 as (st & Hw & ->).
  exists f0, st. split; [done|]. intros key Hk. apply Hs, elem_of_dom in Hk as [msg Hm].
  exists (mk_finding key msg). split; [|done]. rewrite merge_sort_Permutation.
  apply (list_elem_of_fmap_2 (λ km, mk_finding km.1 km.2) _ (key, msg)). by apply elem_of_map_to_list.
Qed.
End scan.

(** ** The gateway *)

Lemma compatible_trans a b c :
  FallbackFormatCompatible a b = true → FallbackFormatCompatible b c = true → FallbackFormatCompatible a c = true.
Proof.
  unfold FallbackFormatCompatible. destruct (String.eqb_spec a b) as [->|], (String.eqb_spec b c) as [->|]; try done;
    intros; bool_to_prop; destruct_and?; destruct (String.eqb_spec a c); try done; by apply andb_true_iff.
Qed.

Lemma offers_has_model p model : offers p model = has_model p model.
Proof.
  unfold offers, has_model, findModel. induction (Models (Spec p)) as [|x l IH]; [done|]. simpl.
  by destruct (ID x =? model)%string.
Qed.

(** The providers as the reconciler reads them. *)
Definition readable (providers : gmap string ModelProvider) : cluster := Some <$> providers.

Lemma readable_at providers n : readable providers !! n = Some <$> (providers !! n).
Proof. apply lookup_fmap. Qed.

(** What a walk does leaves the providers it reads as they are. *)
Class WalkStoreLaws {TR : Translator} (W : Type) {WW : WalkWorld W} := {
  admit_store x p ns wl n : providerByName (admit_candidate x p ns wl).1 n = providerByName x n;
  settle_store x h cost n : providerByName (settle_handle_at x h cost) n = providerByName x n;
  forward_store x st p n : providerByName (forward x st p).1 n = providerByName x n;
}.

Section gateway.
Context {TR : Translator} {W : Type} {WW : WalkWorld W} {WS : WalkStoreLaws W} (hasBudget : bool).
Context {U : Unicode} (providers : gmap string ModelProvider) (P : ModelProvider) (ns m : string) (inbound : Format).

Notation cl := (readable providers).

(** What the walk keeps of its request. *)
Record request_state (st : walkState) : Prop := {
  rs_primary : primary st = P;
  rs_namespace : ws_namespace st = ns;
  rs_model : modelID st = m;
  rs_inbound : inboundFormat st = inbound;
}.

Definition store_is (x : W) : Prop := ∀ n, providerByName x n = providers !! n.

(** The request can be sent to the provider, in its format or translated. *)
Definition can_carry (p : ModelProvider) : Prop :=
  (FallbackCrossesFormat (Type_ (Spec P)) (Type_ (Spec p)) = true → inbound ≠ "") ∧
  (inbound ≠ "" → formatForType (Type_ (Spec p)) ≠ "" → formatForType (Type_ (Spec p)) ≠ inbound →
   ∀ o model max, ∃ body, TranslateRequest inbound (formatForType (Type_ (Spec p))) o model max = inl body).

(** The note of a skipped candidate, and the key of the finding it is. *)
Definition skip_note (q why : string) : string := "fallback " +:+ (Quote q +:+ (" skipped: " +:+ why)).

Inductive skip_key (q : string) : string → string → Prop :=
  | skip_namespace : skip_key q (skip_note q ("namespace " +:+ (Quote ns +:+ " not in allowedNamespaces")))
      (ff_key (namespace_finding q ns))
  | skip_model model : skip_key q (skip_note q ("model " +:+ (Quote model +:+ " not offered")))
      (ff_key (model_finding q model m)).

(** Every skip in the trace is found. *)
Definition accounted (l : list walk_effect) (found : gset string) : Prop :=
  ∀ q note, Ineligible (Some q) note ∈ l → ∃ key, skip_key q note key ∧ key ∈ found.

Definition no_skip (e : walk_effect) : Prop := match e with Ineligible _ _ => False | _ => True end.

Lemma accounted_quiet l found : Forall no_skip l → accounted l found.
Proof. intros H q note Hin. rewrite Forall_forall in H. by apply H in Hin. Qed.

Lemma accounted_app l l' found : accounted l found → accounted l' found → accounted (l ++ l') found.
Proof. intros H H' q note [?|?]%elem_of_app; eauto. Qed.

Lemma accounted_mono l found found' : found ⊆ found' → accounted l found → accounted l found'.
Proof. intros Hs H q note (key & ? & ?)%H. eauto. Qed.

(** A step that attempts: it keeps the request, the models and what was
    visited, and skips nothing. *)
Record attempts_step (w w' : walk (W := W)) : Prop := {
  as_request : request_state (w_st w) → request_state (w_st w');
  as_modelFor : modelFor (w_st w') = modelFor (w_st w);
  as_visited : visited (w_st w') = visited (w_st w);
  as_store : store_is (w_world w) → store_is (w_world w');
  as_trace : ∃ l, w_trace w' = w_trace w ++ l ∧ Forall no_skip l;
}.

#[local] Instance attempts_step_preorder : PreOrder attempts_step.
Proof.
  split.
  - intros w. constructor; try done. exists []. by rewrite app_nil_r.
  - intros w1 w2 w3 [R1 M1 V1 S1 (l1 & T1 & F1)] [R2 M2 V2 S2 (l2 & T2 & F2)]. constructor; [auto|congruence|congruence|auto|].
    exists (l1 ++ l2). split; [by rewrite T2, T1, app_assoc|by apply Forall_app].
Qed.

Lemma emit_step w es : Forall no_skip es → attempts_step w (emit w es).
Proof. intros H. constructor; try done. by exists es. Qed.

Lemma budget_step_attempts w p w' r : budget_step hasBudget w p = (w', r) → attempts_step w w'.
Proof.
  unfold budget_step. intros H. destruct (negb hasBudget); [by simplify_eq|]. destruct (Name p =? _)%string; [by simplify_eq|].
  pose proof (admit_store (w_world w) p (ws_namespace (w_st w)) (ws_workload (w_st w))) as Hst.
  destruct (admit_candidate _ _ _ _) as [x [d h]]. cbn [fst] in Hst. cbv zeta in H.
  assert (Hmk : ∀ (w2 : walk (W := W)), (request_state (w_st w) → request_state (w_st w2)) →
    modelFor (w_st w2) = modelFor (w_st w) → visited (w_st w2) = visited (w_st w) → w_world w2 = x →
    (∃ l, w_trace w2 = w_trace w ++ l ∧ Forall no_skip l) → attempts_step w w2).
  { intros w2 H1 H2 H3 H4 H5. constructor; try done. intros Hs n. by rewrite H4, Hst. }
  repeat case_match; simplify_eq; apply Hmk; try done; try (by intros []; constructor);
    (eexists; split; [simpl; rewrite <- ?app_assoc; reflexivity|repeat constructor]).
Qed.

Lemma run_attempt_attempts w p w' r : run_attempt w p = (w', r) → attempts_step w w'.
Proof.
  unfold run_attempt. pose proof (forward_store (w_world w) (w_st w) p) as Hst. destruct (forward _ _ _) as [x u]. cbn [fst] in Hst.
  cbv zeta. intros H. simplify_eq.
  case_match; constructor; try done; try (by intros []; constructor); try (intros Hs n; cbn; by rewrite Hst);
    eexists; (split; [done|repeat constructor]).
Qed.

Lemma static_state st p st' r : staticallyIneligible st p = (st', r) →
  (request_state st → request_state st') ∧ modelFor st' = modelFor st ∧ visited st' = visited st.
Proof.
  unfold staticallyIneligible, request_object. intros H.
  repeat (case_match; simplify_eq/=); (split; [try done; by intros []; constructor|done]).
Qed.

(** The verdict on a candidate of a checked tree: the scan's. *)
Lemma static_verdict st p st' r :
  request_state st → FallbackFormatCompatible (Type_ (Spec P)) (Type_ (Spec p)) = true → can_carry p →
  staticallyIneligible st p = (st', r) →
  r = if negb (namespaceGlobAllowed ns (AllowedNamespaces (Spec p)))
      then Some ("namespace " +:+ (Quote ns +:+ " not in allowedNamespaces"))
      else if negb (has_model p (candidateModel st p)) then Some ("model " +:+ (Quote (candidateModel st p) +:+ " not offered"))
      else None.
Proof.
  intros [Hp Hns Hm Hin] Hcompat [Hcross Hcarry]. unfold staticallyIneligible. cbv zeta.
  rewrite Hp, Hns, Hin, Hcompat, andb_false_r, offers_has_model.
  destruct (negb (Name p =? Name P)%string && FallbackCrossesFormat (Type_ (Spec P)) (Type_ (Spec p)) && (inbound =? "")%string) eqn:E.
  { apply andb_true_iff in E as [[_ Hc]%andb_true_iff Hi%String.eqb_eq]. by destruct (Hcross Hc). }
  destruct (namespaceGlobAllowed ns _); [|by intros [= _ <-]]. destruct (has_model p _); [|by intros [= _ <-]]. cbn [negb].
  destruct (crosses st p) eqn:Ec; [|by intros [= _ <-]].
  unfold crosses in Ec. rewrite Hin, !andb_true_iff, !negb_true_iff, !String.eqb_neq in Ec. destruct Ec as [[E1 E2] E3].
  assert (Hin1 : inboundFormat (request_object st).1 = inbound) by (unfold request_object; by repeat case_match).
  destruct (request_object st) as [st1 req]. cbn [fst] in Hin1. destruct req as [o|], (translated st1 !! Name p); try (by intros [= _ <-]).
  rewrite Hin1. destruct (Hcarry E1 E2 E3 o (candidateModel st p) (maxOutputTokensOf p (candidateModel st p))) as [body ->].
  by intros [= _ <-].
Qed.

(** ** One call of the walk *)

Inductive call_case (fuel : nat) (p : ModelProvider) (w w' : walk (W := W)) (ok : bool) : Prop :=
  | call_visited : Name p ∈ visited (w_st w) → w' = w → ok = false → call_case fuel p w w' ok
  | call_skipped st why : Name p ∉ visited (w_st w) →
      staticallyIneligible (visit (w_st w) (Name p)) p = (st, Some why) →
      w' = emit (with_st w st) [Ineligible (fallbackCandidate (primary st) p) (skip_note (Name p) why)] → ok = false →
      call_case fuel p w w' ok
  | call_tried st w2 : Name p ∉ visited (w_st w) → staticallyIneligible (visit (w_st w) (Name p)) p = (st, None) →
      attempts_step (with_st w st) w2 →
      (ok = true ∧ w' = w2) ∨ (∃ res, walkChildren (tryWithFallbacks hasBudget fuel) p w2 = Some (w', (res, ok))) →
      call_case fuel p w w' ok.

Lemma call_cases fuel p w w' res ok :
  tryWithFallbacks hasBudget (S fuel) p w = Some (w', (res, ok)) →
  (attemptCount (w_st w') < maxDepth (w_st w))%Z → call_case fuel p w w' ok.
Proof.
  cbn [tryWithFallbacks]. destruct (decide (Name p ∈ visited (w_st w))) as [Hv|Hv].
  { intros [= <- <- <-] _. by apply call_visited. }
  destruct (staticallyIneligible (visit (w_st w) (Name p)) p) as [st why] eqn:Es.
  pose proof (staticallyIneligible_frame _ _ _ _ Es) as (F & C & _ & _). apply frame_maxDepth in F. cbn [visit maxDepth attemptCount] in F, C.
  destruct why as [why|]. { intros [= <- <- <-] _. by eapply call_skipped. }
  destruct (Z.leb_spec (maxDepth st) (attemptCount st)) as [Hd|_].
  { intros [= <- <- <-] Hlt. cbn [with_st w_st] in Hlt. lia. }
  assert (Hc : attempts_step (with_st w st) (with_st w (count_attempt st))).
  { constructor; try done; [by intros []; constructor|]. exists []. by rewrite app_nil_r. }
  destruct (budget_step hasBudget _ p) as [w1 [c|h]] eqn:Eb; apply budget_step_attempts in Eb.
  { intros (r' & Hch & Hok & _ & _)%or_children_Some _. eapply call_tried; [done..|etrans; [exact Hc|exact Eb]|]. right.
    destruct r' as [r1 ok1]. cbn [snd] in Hok. subst ok1. by exists r1. }
  destruct (run_attempt w1 p) as [w2 r0] eqn:Ea. apply run_attempt_attempts in Ea.
  assert (H2 : attempts_step (with_st w st) w2) by (by etrans; [exact Hc|etrans; [exact Eb|exact Ea]]).
  destruct (caller_left (w_world w2)); [intros [= <- <- <-] _; eapply call_tried; [done..|by left]|].
  destruct (succeeded _); [intros [= <- <- <-] _; eapply call_tried; [done..|by left]|].
  destruct (negb _); [intros [= <- <- <-] _; eapply call_tried; [done..|by left]|].
  set (pair := match h with Some h => _ | None => _ end).
  assert (H3 : attempts_step w2 pair.1).
  { subst pair. destruct h as [h|]; [|reflexivity]. constructor; try done; [intros Hs n; cbn; by rewrite settle_store|].
    exists [Settled h]. split; [done|repeat constructor]. }
  destruct pair as [w3 r3]. cbn [fst] in H3.
  assert (H4 : attempts_step w3 (emit w3 (recordCredentialFailure p r3))).
  { apply emit_step. unfold recordCredentialFailure. repeat case_match; repeat constructor. }
  intros (r' & Hch & Hok & _ & _)%or_children_Some _.
  eapply call_tried; [done..|etrans; [exact H2|etrans; [exact H3|exact H4]]|]. right.
  destruct r' as [r1 ok1]. cbn [snd] in Hok. subst ok1. by exists r1.
Qed.

(** ** The two walks agree *)

Section agree.
Hypothesis (Hkeyed : keyed providers).
Hypothesis (Hgood : tree_good cl P).
Hypothesis (Hcarry : ∀ n p, leads_to cl P n → provider_at cl P n = Some p → can_carry p).
Hypothesis (Hns : ns ≠ "").
Hypothesis (Hm : m ≠ "").

Definition reached (p : ModelProvider) : Prop := leads_to cl P (Name p) ∧ provider_at cl P (Name p) = Some p.

Lemma reached_compatible n p : leads_to cl P n → provider_at cl P n = Some p →
  FallbackFormatCompatible (Type_ (Spec P)) (Type_ (Spec p)) = true.
Proof.
  intros Hl. revert p. revert n Hl. apply (rtc_ind_r (λ n, ∀ p, provider_at cl P n = Some p →
    FallbackFormatCompatible (Type_ (Spec P)) (Type_ (Spec p)) = true)).
  - unfold provider_at. rewrite decide_True by done. intros p [= <-]. unfold FallbackFormatCompatible. by rewrite String.eqb_refl.
  - intros n k Hn (parent & ref & Hpar & Href & <-) IH p Hp. destruct (Hgood _ Hn) as [Hnode _].
    pose proof (proj1 (Forall_forall _ _) (Hnode _ Hpar) _ Href) as (child & Hc & [Hcomp _]). simplify_eq.
    eapply compatible_trans; [by apply IH|done].
Qed.

Lemma reached_child parent ref child : reached parent → ref ∈ Fallback (Spec parent) → providers !! fb_Name ref = Some child →
  Name child ≠ Name P → reached child.
Proof.
  intros [Hl Hp] Href Hc Hne. pose proof (Hkeyed _ _ Hc) as Hname. split.
  - eapply rtc_r; [exact Hl|]. rewrite Hname. by exists parent, ref.
  - unfold provider_at. rewrite decide_False by done. rewrite Hname, readable_at, Hc. done.
Qed.

Lemma candidate_edge st ref pm child : pm ≠ "" →
  candidateModel (set_model_for st (Name child) (edge_model ref pm)) child = edge_model ref pm.
Proof.
  intros Hpm. unfold candidateModel. cbn [set_model_for modelFor]. rewrite lookup_insert_eq.
  assert (He : edge_model ref pm ≠ "").
  { unfold edge_model. destruct (ModelMap ref !! pm) as [v|]; [|done]. by destruct (String.eqb_spec v ""). }
  by apply String.eqb_neq in He as ->.
Qed.

(** After both walks: the request is the same, what the gateway skipped is
    found, and unless a candidate answered they visited the same providers. *)
Record agree (w w' : walk (W := W)) (ok : bool) (st' : scan_state) : Prop := {
  ag_request : request_state (w_st w');
  ag_store : store_is (w_world w');
  ag_trace : ∃ l, w_trace w' = w_trace w ++ l ∧ accounted l (dom (sc_found st'));
  ag_visited : ok = false → visited (w_st w') = sc_visited st';
}.

Lemma agree_trans w w1 w2 ok st1 st2 : agree w w1 false st1 → scan_grows st1 st2 → agree w1 w2 ok st2 → agree w w2 ok st2.
Proof.
  intros [R1 S1 (l1 & T1 & A1) V1] [_ G] [R2 S2 (l2 & T2 & A2) V2]. constructor; [done|done| |done].
  exists (l1 ++ l2). split; [by rewrite T2, T1, app_assoc|]. apply accounted_app; [|done]. by eapply accounted_mono.
Qed.

Lemma agree_found w w' st1 st2 : agree w w' true st1 → scan_grows st1 st2 → agree w w' true st2.
Proof. intros [R S (l & T & A) V] [_ G]. constructor; [done|done| |done]. exists l. split; [done|]. by eapply accounted_mono. Qed.

(** The walks over the fallbacks of one provider agree. *)
Definition refs_agree (fuel : nat) : Prop := ∀ sfuel parent pm refs w w' res ok st st',
  reached parent → (∀ ref, ref ∈ refs → ref ∈ Fallback (Spec parent)) → pm ≠ "" →
  request_state (w_st w) → store_is (w_world w) → Name P ∈ visited (w_st w) → visited (w_st w) = sc_visited st →
  walk_refs (tryWithFallbacks hasBudget fuel) pm refs w = Some (w', (res, ok)) →
  (attemptCount (w_st w') < maxDepth (w_st w))%Z →
  scan_refs providers (scan_walk providers sfuel ns m) ns m pm refs st = Some st' → agree w w' ok st'.

(** One candidate: the gateway's call against the scan's entry and walk. *)
Lemma call_agrees fuel sfuel child model w w' res ok st st' :
  (∀ f, f < fuel → refs_agree f) → reached child → model ≠ "" → candidateModel (w_st w) child = model →
  request_state (w_st w) → store_is (w_world w) → Name P ∈ visited (w_st w) → visited (w_st w) = sc_visited st → Name child ∉ sc_visited st →
  tryWithFallbacks hasBudget fuel child w = Some (w', (res, ok)) → (attemptCount (w_st w') < maxDepth (w_st w))%Z →
  (if admits_ns ns child && has_model child model
   then scan_walk providers sfuel ns m child model (scan_enter ns m child model st) = Some st'
   else st' = scan_enter ns m child model st) →
  agree w w' ok st'.
Proof.
  intros IH Hreach Hmodel Hcand Hreq Hsto HP Hvis Hnew Htry Hlt Hscan. destruct fuel as [|fuel]; [done|].
  pose proof (reached_compatible _ _ (proj1 Hreach) (proj2 Hreach)) as Hcompat.
  pose proof (Hcarry _ _ (proj1 Hreach) (proj2 Hreach)) as Hcan.
  assert (Hadm : admits_ns ns child = namespaceGlobAllowed ns (AllowedNamespaces (Spec child))).
  { unfold admits_ns. apply String.eqb_neq in Hns as ->. done. }
  assert (Hreq1 : request_state (visit (w_st w) (Name child))) by (destruct Hreq; by constructor).
  destruct (call_cases _ _ _ _ _ _ Htry Hlt) as [Hv|s why Hv Hs -> ->|s w2 Hv Hs Hstep Hend]; [by rewrite Hvis in Hv|..];
    pose proof (static_verdict _ _ _ _ Hreq1 Hcompat Hcan Hs) as Hr; pose proof (static_state _ _ _ _ Hs) as (Rs & Ms & Vs);
    change (candidateModel (visit (w_st w) (Name child)) child) with (candidateModel (w_st w) child) in Hr; rewrite Hcand in Hr;
    cbn [visit visited modelFor] in Vs, Ms.
  - assert (Hok : admits_ns ns child && has_model child model = false).
    { rewrite Hadm. destruct (namespaceGlobAllowed ns _), (has_model child model); done. }
    rewrite Hok in Hscan. subst st'. constructor; cbn [emit with_st w_st w_trace w_world]; [by apply Rs|done| |].
    2: { intros _. by rewrite Vs, scan_enter_visited, Hvis. }
    eexists. split; [done|]. intros q note Hin%list_elem_of_singleton. injection Hin as Hq ->.
    unfold fallbackCandidate in Hq. destruct (Name child =? _)%string; [done|]. injection Hq as ->.
    destruct (namespaceGlobAllowed ns (AllowedNamespaces (Spec child))) eqn:En; cbn [negb] in Hr.
    + destruct (has_model child model) eqn:Eh; [done|]. injection Hr as ->.
      eexists. split; [apply skip_model|]. by apply scan_enter_model.
    + injection Hr as ->. eexists. split; [apply skip_namespace|]. by apply scan_enter_namespace.
  - assert (Hok : admits_ns ns child && has_model child model = true).
    { rewrite Hadm. destruct (namespaceGlobAllowed ns _), (has_model child model); done. }
    rewrite Hok in Hscan. destruct Hstep as [R2 M2 V2 S2 (l2 & T2 & F2)]. cbn [with_st w_st w_trace w_world] in R2, M2, V2, S2, T2.
    assert (Hfirst : agree w w2 false (scan_enter ns m child model st)).
    { constructor; [by apply R2, Rs|by apply S2|exists l2; split; [done|by apply accounted_quiet]|].
      intros _. by rewrite V2, Vs, scan_enter_visited, Hvis. }
    destruct Hend as [[-> ->]|[res2 Hch]].
    { apply scan_walk_grows in Hscan. eapply agree_found; [|exact Hscan]. destruct Hfirst. by constructor. }
    destruct sfuel as [|sfuel]; [done|]. cbn [scan_walk] in Hscan. unfold walkChildren in Hch.
    assert (Hcm : candidateModel (w_st w2) child = model).
    { rewrite <- Hcand. unfold candidateModel. rewrite M2, Ms, (rs_model _ (ag_request _ _ _ _ Hfirst)), (rs_model _ Hreq). done. }
    rewrite Hcm in Hch. eapply agree_trans; [exact Hfirst| |].
    { eapply scan_refs_grows; [|exact Hscan]. intros *. apply scan_walk_grows. }
    eapply (IH fuel ltac:(lia) sfuel child model (Fallback (Spec child))); [done|done|done|by apply Hfirst|by apply Hfirst|rewrite V2, Vs; set_solver|by apply Hfirst|exact Hch| |exact Hscan].
    apply try_rel, rel_frame, frame_maxDepth in Htry. rewrite Htry in Hlt. eapply walk_refs_rel in Hch; [|apply try_rel].
    apply rel_frame, frame_maxDepth in Hch. by rewrite Hch.
Qed.

Lemma refs_agree_all fuel : refs_agree fuel.
Proof.
  induction (lt_wf fuel) as [fuel _ IH]. intros sfuel parent pm refs. induction refs as [|ref refs IHr]; intros w w' res ok st st' Hpar Hrefs Hpm Hreq Hsto HP Hvis.
  { cbn [walk_refs scan_refs]. intros [= <- <- <-] _ [= <-]. constructor; [done|done| |done].
    exists []. rewrite app_nil_r. split; [done|]. by apply accounted_quiet. }
  cbn [walk_refs]. rewrite scan_refs_cons, Hsto. intros Hwalk Hlt Hscan.
  assert (Hrest : ∀ r, r ∈ refs → r ∈ Fallback (Spec parent)) by (intros; apply Hrefs; by right).
  destruct (providers !! fb_Name ref) as [child|] eqn:Ec.
  2: { eapply IHr in Hwalk; [|done..|exact Hscan]. destruct Hwalk as [R S (l & T & A) V]. constructor; [done|done| |done].
       eexists (_ :: l). split; [rewrite T; cbn [emit w_trace]; by rewrite <- app_assoc|].
       intros q note [[=]|Hin]%elem_of_cons. by apply A. }
  fold (edge_model ref pm) in Hwalk. set (w0 := with_st w _) in Hwalk.
  assert (Hreq0 : request_state (w_st w0)) by (destruct Hreq; by constructor).
  destruct (tryWithFallbacks hasBudget fuel child w0) as [[w1 [res1 ok1]]|] eqn:Et; [|done].
  pose proof (try_rel hasBudget _ _ _ _ _ Et) as Hrel1.
  assert (Hlt1 : (attemptCount (w_st w1) < maxDepth (w_st w0))%Z).
  { destruct ok1; [by injection Hwalk as <- _ _|]. eapply walk_refs_rel in Hwalk; [|apply try_rel].
    apply rel_count in Hwalk. change (maxDepth (w_st w0)) with (maxDepth (w_st w)). lia. }
  destruct (decide (Name child ∈ sc_visited st)) as [Hv|Hv].
  - destruct fuel as [|fuel]; [done|]. destruct (call_cases _ _ _ _ _ _ Et Hlt1) as [_ -> ->|s why Hv' _ _ _|s w2 Hv' _ _ _];
      [|by rewrite <- Hvis in Hv..]. eapply (IHr w0) in Hwalk; [|done..|exact Hlt|exact Hscan]. destruct Hwalk. by constructor.
  - assert (Hne : Name child ≠ Name P) by (intros E; rewrite E, <- Hvis in Hv; done).
    assert (Hin : ref ∈ Fallback (Spec parent)) by (apply Hrefs; left).
    assert (Hem : edge_model ref pm ≠ "").
    { unfold edge_model. destruct (ModelMap ref !! pm) as [v|]; [|done]. by destruct (String.eqb_spec v ""). }
    cbv zeta in Hscan. set (model := edge_model ref pm) in *.
    assert (Hstep : ∃ st1, (if admits_ns ns child && has_model child model
        then scan_walk providers sfuel ns m child model (scan_enter ns m child model st) = Some st1
        else st1 = scan_enter ns m child model st) ∧
      scan_refs providers (scan_walk providers sfuel ns m) ns m pm refs st1 = Some st').
    { destruct (_ && _); [|by eexists]. destruct (scan_walk providers sfuel ns m child model _) as [st1|]; [by exists st1|done]. }
    destruct Hstep as (st1 & Hst1 & Hscan1).
    pose proof (call_agrees fuel sfuel child model w0 w1 res1 ok1 st st1 (λ f Hf, IH f Hf) (reached_child _ _ _ Hpar Hin Ec Hne) Hem
      (candidate_edge _ _ _ _ Hpm) Hreq0 Hsto HP Hvis Hv Et Hlt1 Hst1) as H1.
    assert (Hg : scan_grows st1 st') by (eapply scan_refs_grows; [|exact Hscan1]; intros *; apply scan_walk_grows).
    destruct ok1. { injection Hwalk as <- <- <-. eapply agree_found; [|exact Hg]. destruct H1. by constructor. }
    eapply agree_trans; [by destruct H1; constructor|exact Hg|].
    assert (HP1 : Name P ∈ visited (w_st w1)) by (apply (rel_visited _ _ Hrel1); done).
    eapply (IHr w1); [done|done|done|by apply H1|by apply H1|done|by apply H1|exact Hwalk| |exact Hscan1].
    apply rel_frame, frame_maxDepth in Hrel1. by rewrite <- Hrel1.
Qed.

Lemma root_agrees fuel sfuel w w' res ok found0 st' :
  request_state (w_st w) → store_is (w_world w) → visited (w_st w) = ∅ → modelFor (w_st w) = ∅ →
  tryWithFallbacks hasBudget fuel P w = Some (w', (res, ok)) → (attemptCount (w_st w') < maxDepth (w_st w))%Z →
  scan_walk providers sfuel ns m P m (mk_scan {[Name P]} found0) = Some st' →
  ∃ l, w_trace w' = w_trace w ++ l ∧ accounted l (dom (sc_found st')).
Proof.
  intros Hreq Hsto Hv0 Hmf Htry Hlt Hscan. destruct fuel as [|fuel]; [done|].
  assert (Hreq1 : request_state (visit (w_st w) (Name P))) by (destruct Hreq; by constructor).
  destruct (call_cases _ _ _ _ _ _ Htry Hlt) as [Hv|s why Hv Hs -> ->|s w2 Hv Hs Hstep Hend]; [rewrite Hv0 in Hv; set_solver|..];
    pose proof (static_state _ _ _ _ Hs) as (Rs & Ms & Vs); cbn [visit visited modelFor] in Vs, Ms.
  - eexists. split; [done|]. intros q note Hin%list_elem_of_singleton. injection Hin as Hq _. unfold fallbackCandidate in Hq.
    rewrite (rs_primary _ (Rs Hreq1)), String.eqb_refl in Hq. done.
  - destruct Hstep as [R2 M2 V2 S2 (l2 & T2 & F2)]. cbn [with_st w_st w_trace w_world] in R2, M2, V2, S2, T2. pose proof (R2 (Rs Hreq1)) as Hreq2.
    destruct Hend as [[-> ->]|[res2 Hch]]; [exists l2; split; [done|by apply accounted_quiet]|].
    destruct sfuel as [|sfuel]; [done|]. cbn [scan_walk] in Hscan. unfold walkChildren in Hch.
    assert (Hcm : candidateModel (w_st w2) P = m) by (unfold candidateModel; rewrite M2, Ms, Hmf, lookup_empty; apply Hreq2).
    rewrite Hcm in Hch. apply try_rel, rel_frame, frame_maxDepth in Htry. rewrite Htry in Hlt.
    pose proof Hch as Hrel. eapply walk_refs_rel in Hrel; [|apply try_rel]. apply rel_frame, frame_maxDepth in Hrel.
    assert (HP : reached P) by (split; [apply rtc_refl|unfold provider_at; by rewrite decide_True]).
    destruct (refs_agree_all fuel sfuel P m (Fallback (Spec P)) w2 w' res2 ok (mk_scan {[Name P]} found0) st') as [_ _ (l & T & A) _];
      [done|done|done|done|by apply S2|rewrite V2, Vs; set_solver|rewrite V2, Vs, Hv0; cbn [sc_visited]; set_solver|done|by rewrite Hrel|done|].
    exists (l2 ++ l). split; [by rewrite T, T2, app_assoc|]. apply accounted_app; [by apply accounted_quiet|done].
Qed.

(** The reconcile-time scan sees what the gateway will do: when a provider
    passed the configuration checks, every fallback candidate the gateway
    skips for its namespace or its model, on any request of a caller
    namespace for a model of the provider that does not use up its attempts,
    is a finding of the scan. *)
Theorem skips_are_findings fuel w w' res ok callers findings
    (Hreq : request_state (w_st w)) (Hstore : store_is (w_world w)) (Hv0 : visited (w_st w) = ∅) (Hmf : modelFor (w_st w) = ∅) (Htrace : w_trace w = [])
    (Hwalk : tryWithFallbacks hasBudget fuel P w = Some (w', (res, ok)))
    (Hlimit : (attemptCount (w_st w') < maxDepth (w_st w))%Z)
    (Hscan : fallbackIneligibility providers P callers = Some findings)
    (Hcaller : ns ∈ callers) (Hoffered : m ∈ map ID (Models (Spec P))) :
  ∀ q note, Ineligible (Some q) note ∈ w_trace w' → ∃ f, f ∈ findings ∧ skip_key q note (ff_key f).
Proof.
  assert (Hin : (ns, m) ∈ requests P callers).
  { unfold requests. destruct callers as [|c callers]; [by apply not_elem_of_nil in Hcaller|].
    apply list_elem_of_In, in_flat_map. exists ns. split; [by apply list_elem_of_In|].
    apply list_elem_of_In in Hoffered. apply in_map_iff in Hoffered as (x & <- & Hx). by apply (in_map (λ y, (ns, ID y))). }
  destruct (request_found _ _ _ _ _ _ Hscan Hin) as (found0 & st & Hst & Hfound).
  destruct (root_agrees _ _ _ _ _ _ _ _ Hreq Hstore Hv0 Hmf Hwalk Hlimit Hst) as (l & T & A).
  intros q note Hq. rewrite T, Htrace in Hq. destruct (A q note Hq) as (key & Hk & Hd).
  destruct (Hfound key Hd) as (f & Hf & <-). by exists f.
Qed.
End agree.
End gateway.

#[global] Instance gateway_store {MR : MapRange} {TR : Translator} : WalkStoreLaws gatewayWorld.
Proof.
  constructor; simpl; intros; [|done|].
  - unfold gateway_admit. by destruct (Admit _ _ _ _ _).
  - unfold gateway_forward. by destruct (gw_script x) as [|[[??]?]?].
Qed.

(** ** The message of a scan *)

Section scanned.
Context {U : Unicode} (providers : gmap string ModelProvider).

(** Every name and model a provider brings into a finding has a length. *)
Definition holdable_provider (p : ModelProvider) : Prop :=
  holdable (Name p) ∧ (∀ ref k v, ref ∈ Fallback (Spec p) → ModelMap ref !! k = Some v → holdable v).

Definition holdable_world (primary : ModelProvider) (callers : list string) : Prop :=
  (∀ n p, providers !! n = Some p → holdable_provider p) ∧ holdable_provider primary ∧
  (∀ ns, ns ∈ callers → holdable ns) ∧ (∀ x, x ∈ Models (Spec primary) → holdable (ID x)).

Definition all_holdable (found : gmap string bytes) : Prop :=
  map_Forall (λ k msg, holdable_finding (mk_finding k msg)) found.

Lemma note_holdable st f : holdable_finding f → all_holdable (sc_found st) → all_holdable (sc_found (note_found st f)).
Proof. intros Hf Hall. apply map_Forall_insert_2; [by destruct f|done]. Qed.

Lemma enter_holdable ns m child model st : holdable (Name child) → holdable ns → holdable m → holdable model →
  all_holdable (sc_found st) → all_holdable (sc_found (scan_enter ns m child model st)).
Proof.
  intros H1 H2 H3 H4 H. unfold scan_enter. cbv zeta.
  destruct (admits_ns ns child), (has_model child model); repeat apply note_holdable; try done.
  - right. by exists (Name child), model, m.
  - left. by exists (Name child), ns.
  - right. by exists (Name child), model, m.
  - left. by exists (Name child), ns.
Qed.

Lemma refs_holdable walk ns m pm parent refs st st' :
  (∀ n p, providers !! n = Some p → holdable_provider p) →
  (∀ ref, ref ∈ refs → ref ∈ Fallback (Spec parent)) → holdable_provider parent → holdable ns → holdable m → holdable pm →
  (∀ p model st st', holdable_provider p → holdable model → all_holdable (sc_found st) → walk p model st = Some st' → all_holdable (sc_found st')) →
  all_holdable (sc_found st) → scan_refs providers walk ns m pm refs st = Some st' → all_holdable (sc_found st').
Proof.
  intros Hw Hrefs Hp Hns Hm Hpm Hwalk. revert st; induction refs as [|ref refs IH]; intros st Hall; [by intros [= <-]|].
  rewrite scan_refs_cons. assert (Hrest : ∀ r, r ∈ refs → r ∈ Fallback (Spec parent)) by (intros; apply Hrefs; by right).
  destruct (providers !! fb_Name ref) as [child|] eqn:Ec; [|by apply IH]. destruct (decide _); [by apply IH|]. cbv zeta.
  assert (Hmodel : holdable (edge_model ref pm)).
  { unfold edge_model. destruct (ModelMap ref !! pm) as [v|] eqn:E; [|done]. destruct (v =? "")%string; [done|].
    eapply (proj2 Hp); [apply Hrefs; left|done]. }
  pose proof (enter_holdable ns m child (edge_model ref pm) st (proj1 (Hw _ _ Ec)) Hns Hm Hmodel Hall) as H1.
  destruct (_ && _); [|by apply IH]. destruct (walk _ _ _) as [st1|] eqn:E; [|done]. cbn [mbind option_bind].
  apply IH; [done|]. by eapply Hwalk; [by eapply Hw| |exact H1|exact E].
Qed.

Lemma walk_holdable fuel ns m p model st st' :
  (∀ n p, providers !! n = Some p → holdable_provider p) → holdable_provider p → holdable ns → holdable m → holdable model →
  all_holdable (sc_found st) → scan_walk providers fuel ns m p model st = Some st' → all_holdable (sc_found st').
Proof.
  intros Hw. revert p model st st'; induction fuel as [|fuel IH]; intros p model st st' Hp Hns Hm Hmodel Hall; [done|].
  cbn [scan_walk]. eapply refs_holdable; eauto.
Qed.

Lemma scan_holdable primary callers findings : holdable_world primary callers →
  fallbackIneligibility providers primary callers = Some findings →
  NoDup (map ff_key findings) ∧ Forall holdable_finding findings.
Proof.
  intros (Hw & Hp & Hc & Hmods). unfold fallbackIneligibility. intros (all & Hall & ->)%fmap_Some.
  assert (Hh : all_holdable all).
  { assert (Hgen : ∀ l found, (∀ nm, nm ∈ l → holdable nm.1 ∧ holdable nm.2) → (∀ f, found = Some f → all_holdable f) →
      foldl (scan_request providers primary) found l = Some all → all_holdable all).
    { clear Hall. induction l as [|nm l IH]; intros found Hl Hf; cbn [foldl]; [apply Hf|]. apply IH; [intros; apply Hl; by right|].
      intros f. unfold scan_request. destruct found as [f0|]; [|done]. cbn [mbind option_bind]. intros (st & Hst & ->)%fmap_Some.
      destruct (Hl nm) as [H1 H2]; [left|]. eapply walk_holdable; [done|exact Hp|exact H1|exact H2|exact H2| |exact Hst]. by apply Hf. }
    apply (Hgen (requests primary callers) (Some ∅)); [|by intros f [= <-]; apply map_Forall_empty|exact Hall].
    intros nm Hin. unfold requests in Hin. apply list_elem_of_In, in_flat_map in Hin as (ns & Hns & Hin).
    apply in_map_iff in Hin as (x & <- & Hx). split; [|by apply Hmods, list_elem_of_In]. cbn [fst].
    destruct callers; [destruct Hns as [<-|[]]; by vm_compute|by apply Hc, list_elem_of_In]. }
  split.
  - rewrite merge_sort_Permutation, map_map. cbn [ff_key]. apply (NoDup_fst_map_to_list all).
  - rewrite merge_sort_Permutation. apply List.Forall_map, Forall_forall. intros [k msg] Hin. apply elem_of_map_to_list in Hin.
    by apply (map_Forall_lookup_1 _ _ _ _ Hh).
Qed.

(** The FallbackIneligible message of a scan is never cut, though a model
    name may be of any length, and it says what it was made from: its first
    ten findings and the number of all findings are read back from it. *)
Theorem scan_message_reads_back primary callers findings
    (Hworld : holdable_world primary callers)
    (Hscan : fallbackIneligibility providers primary callers = Some findings)
    (Hcount : (Z.of_nat (length findings) ≤ max_int64)%Z) :
  fallbackFindingsMessage findings = Join findingsSeparator (message_parts findings) ∧
  (length (fallbackFindingsMessage findings) ≤ maxConditionMessageBytes)%nat ∧
  listedFindings (fallbackFindingsMessage findings) = (take maxListedEntries (map ff_message findings), length findings).
Proof.
  destruct (scan_holdable _ _ _ Hworld Hscan) as [Hd Hf]. split_and!; [by apply message_fits| |by apply message_reads_back].
  rewrite message_is_parts by done. apply Truncate_length. apply Nat2Z.inj_le. by vm_compute.
Qed.
End scanned.

(** ** A concrete tree

    The primary "a" falls back to "b", which admits another namespace, and to
    "c", which lacks the model. *)
#[local] Instance ascii_only : Unicode := {| isPrint _ := false |}.
#[local] Instance plain_translator : Translator :=
  {| object := unit; Unmarshal _ := None; TranslateRequest _ _ _ _ _ := inl tt; MaxTokens _ := None |}.
#[local] Instance plain_order : MapRange := list_order.

Definition sample (name ns model : string) (fallbacks : list string) : ModelProvider :=
  mk_provider name name (mk_provider_spec "openai" [mk_model model "1" "1" None] [ns]
    (mk_budget "" "" [] None "" None) (mk_rate_limits 0 0) (map (λ n, mk_fallback_ref n ∅) fallbacks)).

Definition sample_primary : ModelProvider := sample "a" "*" "m" ["b"; "c"].
Definition sample_providers : gmap string ModelProvider :=
  {[ "a" := sample_primary; "b" := sample "b" "other" "m" []; "c" := sample "c" "*" "n" [] ]}.

Definition sample_findings : list fallbackFinding :=
  Eval vm_compute in default [] (fallbackIneligibility sample_providers sample_primary ["ns"]).

Definition sample_start : walk (W := gatewayWorld) :=
  mk_walk (mk_walk_state sample_primary "ns" "agent/x" "m" 0 3 ∅ ∅ 0 false None "" None false FormatOpenAI ∅ ∅)
    (mk_gateway NewBudgetLedger (1000 * Second)%Z
       (mk_store (λ _ _, None) (λ _ _, None) (λ _, None) (λ n, sample_providers !! n) (λ _, None)) [answers 500] false) [].

Definition sample_out : walk (W := gatewayWorld) * (forwardResult * bool) :=
  default (sample_start, (no_result, false)) (tryWithFallbacks false 4 sample_primary sample_start).

Lemma sample_at n p : sample_providers !! n = Some p →
  (n = "a" ∧ p = sample_primary) ∨ (n = "b" ∧ p = sample "b" "other" "m" []) ∨ (n = "c" ∧ p = sample "c" "*" "n" []).
Proof.
  unfold sample_providers. rewrite !lookup_insert_Some, lookup_singleton_Some.
  intros [[<- <-]|[_ [[<- <-]|[_ [<- <-]]]]]; auto.
Qed.

Lemma sample_keyed : keyed sample_providers.
Proof. intros n p [[-> ->]|[[-> ->]|[-> ->]]]%sample_at; reflexivity. Qed.

Lemma sample_good : tree_good (readable sample_providers) sample_primary.
Proof.
  apply (validateFallback_nil _ _ [] []); [|reflexivity]. vm_compute. reflexivity.
Qed.

Lemma sample_checked : config_problems (readable sample_providers) sample_primary = Some (inl ([], [])).
Proof. vm_compute. reflexivity. Qed.

Lemma config_checks_exact_witness : tree_good (readable sample_providers) sample_primary.
Proof.
  destruct (proj1 (config_checks_exact (readable sample_providers) sample_primary [] [] sample_checked) eq_refl) as [H _]. exact H.
Defined.

Lemma skips_are_findings_witness :
  Ineligible (Some "c") (skip_note "c" ("model " +:+ (Quote "m" +:+ " not offered"))) ∈ w_trace sample_out.1 ∧
  ∃ f, f ∈ sample_findings ∧ skip_key "ns" "m" "c" (skip_note "c" ("model " +:+ (Quote "m" +:+ " not offered"))) (ff_key f).
Proof.
  assert (Hin : Ineligible (Some "c") (skip_note "c" ("model " +:+ (Quote "m" +:+ " not offered"))) ∈ w_trace sample_out.1).
  { replace (w_trace sample_out.1) with
      [Attempted "a"; Ineligible (Some "b") (skip_note "b" ("namespace " +:+ (Quote "ns" +:+ " not in allowedNamespaces")));
       Ineligible (Some "c") (skip_note "c" ("model " +:+ (Quote "m" +:+ " not offered")))] by (vm_compute; reflexivity).
    right. right. left. }
  split; [exact Hin|].
  assert (Hwalk : tryWithFallbacks false 4 sample_primary sample_start = Some (sample_out.1, (sample_out.2.1, sample_out.2.2)))
    by (vm_compute; reflexivity).
  assert (Hlimit : (attemptCount (w_st sample_out.1) < maxDepth (w_st sample_start))%Z) by (vm_compute; reflexivity).
  assert (Hscan : fallbackIneligibility sample_providers sample_primary ["ns"] = Some sample_findings) by (vm_compute; reflexivity).
  assert (Hcarry : ∀ n p, leads_to (readable sample_providers) sample_primary n →
    provider_at (readable sample_providers) sample_primary n = Some p → can_carry sample_primary FormatOpenAI p).
  { intros n p _ _. split; [intros _; discriminate|]. intros _ _ _ o model max. exists tt. reflexivity. }
  assert (Hreq : request_state sample_primary "ns" "m" FormatOpenAI (w_st sample_start)) by (constructor; reflexivity).
  assert (Hstore : store_is sample_providers (w_world sample_start)) by (intros n; reflexivity).
  exact (skips_are_findings false sample_providers sample_primary "ns" "m" FormatOpenAI sample_keyed sample_good Hcarry
    ltac:(discriminate) ltac:(discriminate) 4 sample_start sample_out.1 sample_out.2.1 sample_out.2.2 ["ns"] sample_findings
    Hreq Hstore eq_refl eq_refl eq_refl Hwalk Hlimit Hscan (list_elem_of_here _ _) (list_elem_of_here _ _) "c" _ Hin).
Defined.

Lemma scan_message_reads_back_witness :
  listedFindings (fallbackFindingsMessage sample_findings) = (take maxListedEntries (map ff_message sample_findings), 2%nat).
Proof.
  assert (Hscan : fallbackIneligibility sample_providers sample_primary ["ns"] = Some sample_findings) by (vm_compute; reflexivity).
  assert (Hp : ∀ name ns model fallbacks, holdable name → holdable_provider (sample name ns model fallbacks)).
  { intros name ns model fallbacks Hn. split; [exact Hn|]. intros ref k v Href Hk. cbn [sample Spec Fallback] in Href.
    apply list_elem_of_fmap in Href as (x & -> & _). cbn [ModelMap] in Hk. rewrite lookup_empty in Hk. discriminate. }
  assert (Hh : ∀ s, holdable s ↔ bool_decide (Z.of_nat (String.length s) <= max_int64)%Z = true) by (intros s; symmetry; apply bool_decide_eq_true).
  assert (Hw : holdable_world sample_providers sample_primary ["ns"]).
  { split_and!.
    - intros n p [[-> ->]|[[-> ->]|[-> ->]]]%sample_at; apply Hp, Hh; reflexivity.
    - apply Hp, Hh. reflexivity.
    - intros ns ->%list_elem_of_singleton. apply Hh. reflexivity.
    - intros x ->%list_elem_of_singleton. apply Hh. reflexivity. }
  destruct (scan_message_reads_back sample_providers sample_primary ["ns"] sample_findings Hw Hscan ltac:(vm_compute; discriminate)) as (_ & _ & H).
  exact H.
Defined.

Lemma events_announce_new_findings_witness :
  let mp := sample_primary in
  let r := mk_reporter (CD := map_conditions) (mk_memory ∅ ∅) (∅ : gmap string Condition) in
  let ps := [mk_pass Second (take 1 sample_findings) Written; mk_pass Second sample_findings WriteFailed;
             mk_pass Second sample_findings AlreadyStored; mk_pass Second sample_findings AlreadyStored] in
  map length (run_passes (CD := map_conditions) mp r ps).2 = [1; 0; 1; 0]%nat ∧
  remembers (CD := map_conditions) mp (run_passes (CD := map_conditions) mp r ps).1 (list_to_set (map ff_key sample_findings)).
Proof.
  cbv zeta. set (r := mk_reporter _ _). set (ps := [mk_pass Second (take 1 sample_findings) Written; _; _; _]).
  assert (Hr : remembers (CD := map_conditions) sample_primary r ∅).
  { split; [reflexivity|]. right. split; [reflexivity|]. split; [reflexivity|]. intros c Hc. discriminate Hc. }
  destruct (events_announce_new_findings (CD := map_conditions) sample_primary r ∅ ps Hr) as [H1 H2]. split; [vm_compute; reflexivity|exact H2].
Defined.
