(* ===== verification/AgentLifecycle.v ===== *)
(** The idle and hibernation cycle of an Agent: from
    internal/controller/agent_controller.go the wake annotations, the
    Hibernating step and evaluateActivity; agent_activity.go (the fan-out's
    cache and the merge of the replicas' answers); agent_gateway_outage.go
    (the outage backoff); agent_idle_detection.go.

    An operation takes the Agent as the API server holds it, the clock and
    the outcomes of its API calls, and gives the Agent the server holds
    afterwards.  A status write stores times to the second.  The list of
    conditions is apimachinery's, behind the class [Conditions].  Events and
    metrics are left out; the clock is read once per operation.

    The last part is the slots that bound how many Agents are rolled at once,
    over all interleavings of their passes. *)

From stdpp Require Import base gmap list strings option fin_maps.
From Stdlib Require Import ZArith Lia Ascii.
From S2P Require Import Prelude GoFloat GoTime Activity Conditions.

Inductive AgentPhase :=
  | AgentNoPhase | AgentPending | AgentProvisioning | AgentRunning | AgentIdle | AgentHibernating | AgentHibernated
  | AgentResuming | AgentDegraded | AgentFailed | AgentTerminating.

#[global] Instance AgentPhase_eq_dec : EqDecision AgentPhase.
Proof. solve_decision. Defined.

(** ** The Agent *)

Definition AnnotationWake : string := "kaalm.io/wake".
Definition AnnotationWakeTrigger : string := "kaalm.io/wake-trigger".
Definition AnnotationWakeTriggerChannel : string := "channel".
Definition AnnotationTrue : string := "true".

Section lifecycle.
Context {CD : Conditions}.

(** The status fields these operations read or write. *)
Record AgentStatus := mk_status {
  Phase : AgentPhase;
  PhaseTransitionTime : option Time;
  LastActivityTime : option Time;
  HibernatedAt : option Time;
  PodName : string;
  st_Conditions : conditions;
}.

Record Agent := mk_agent {
  ag_Name : string;
  ag_Namespace : string;
  CreationTimestamp : Time;
  Annotations : gmap string string;
  Status : AgentStatus;
}.

Definition with_status (a : Agent) (s : AgentStatus) : Agent :=
  mk_agent (ag_Name a) (ag_Namespace a) (CreationTimestamp a) (Annotations a) s.
Definition with_annotations (a : Agent) (m : gmap string string) : Agent :=
  mk_agent (ag_Name a) (ag_Namespace a) (CreationTimestamp a) m (Status a).
Definition with_conditions (s : AgentStatus) (cs : conditions) : AgentStatus :=
  mk_status (Phase s) (PhaseTransitionTime s) (LastActivityTime s) (HibernatedAt s) (PodName s) cs.
Definition with_activity (s : AgentStatus) (t : Time) : AgentStatus :=
  mk_status (Phase s) (PhaseTransitionTime s) (Some t) (HibernatedAt s) (PodName s) (st_Conditions s).

(** What a successful status write stores. *)
Definition writeStatus (s : AgentStatus) : AgentStatus :=
  mk_status (Phase s) (stored_time <$> PhaseTransitionTime s) (stored_time <$> LastActivityTime s)
    (stored_time <$> HibernatedAt s) (PodName s) (st_Conditions s).

Definition setPhase (now : Time) (s : AgentStatus) (phase : AgentPhase) : AgentStatus :=
  if decide (Phase s = phase) then s
  else mk_status phase (Some now) (LastActivityTime s) (HibernatedAt s) (PodName s) (st_Conditions s).

Definition setReady (now : Time) (s : AgentStatus) (ok : bool) (reason msg : string) : AgentStatus :=
  with_conditions s (SetStatusCondition now (st_Conditions s) (mk_condition ConditionReady ok reason msg 0%Z)).

(** ** Wake (step 1 of a pass) *)

Definition wakeTriggerChannel : string := "channel".
Definition wakeTriggerAnnotation : string := "annotation".

Definition wakeTrigger (a : Agent) : string * bool :=
  if negb (default "" (Annotations a !! AnnotationWake) =? AnnotationTrue)%string then ("", false)
  else if (default "" (Annotations a !! AnnotationWakeTrigger) =? AnnotationWakeTriggerChannel)%string
  then (wakeTriggerChannel, true)
  else (wakeTriggerAnnotation, true).

Definition clearWake (a : Agent) : Agent :=
  with_annotations a (delete AnnotationWakeTrigger (delete AnnotationWake (Annotations a))).

(** [status_ok] and [update_ok] are the outcomes of the status write and of
    the annotation Update; the result is the stored Agent and whether the
    operation returned an error. *)
Definition handleWake (now : Time) (a : Agent) (status_ok update_ok : bool) : Agent * bool :=
  if decide (Phase (Status a) = AgentHibernated) then
    let s := setPhase now (Status a) AgentResuming in
    let s := mk_status (Phase s) (PhaseTransitionTime s) (Some now) None (PodName s) (st_Conditions s) in
    let s := setReady now s false "Woken" "wake requested; recreating the Pod" in
    if negb status_ok then (a, true)
    else
      let a := with_status a (writeStatus s) in
      if negb update_ok then (a, true) else (clearWake a, false)
  else if negb update_ok then (a, true) else (clearWake a, false).

(** The flag says whether the pass ends here. *)
Definition reconcileWakeAnnotations (now : Time) (a : Agent) (status_ok update_ok : bool) : Agent * bool * bool :=
  let wake := (wakeTrigger a).2 in
  if wake && negb (bool_decide (Phase (Status a) = AgentHibernating)) then
    let '(a, err) := handleWake now a status_ok update_ok in (a, true, err)
  else if bool_decide (is_Some (Annotations a !! AnnotationWakeTrigger)) && negb wake then
    if negb update_ok then (a, true, true)
    else (with_annotations a (delete AnnotationWakeTrigger (Annotations a)), true, false)
  else (a, false, false).

(** ** The Hibernating step *)

Inductive delete_result := Deleted | DeleteNotFound | DeleteFailed.

(** [pod] is the lookup of the owned Pod: an error, no Pod, or a Pod with
    whether it is being deleted.  The result says whether a delete was sent. *)
Definition driveHibernating (now : Time) (a : Agent) (pod : option (option bool)) (del : delete_result) (status_ok : bool)
  : Agent * bool * bool :=
  let write s := if status_ok then (with_status a (writeStatus s), false) else (a, true) in
  match pod with
  | None => (a, false, true)
  | Some (Some deleting) =>
      if negb deleting then
        match del with
        | DeleteFailed => (a, true, true)
        | _ => let '(a, err) := write (Status a) in (a, true, err)
        end
      else let '(a, err) := write (Status a) in (a, false, err)
  | Some None =>
      let s := setPhase now (Status a) AgentHibernated in
      let s := mk_status (Phase s) (PhaseTransitionTime s) (LastActivityTime s) (Some now) ""
                 (RemoveStatusCondition (st_Conditions s) ConditionPodUpToDate) in
      let s := setReady now s false "Hibernated" "Pod deleted; PVC retained for wake" in
      let '(a, err) := write s in (a, false, err)
  end.

(** ** The fan-out (agent_activity.go) *)

(** One replica's answer is the gateway's [activityResponse]. *)
Definition ReplicaActivity : Type := activityResponse.

Definition activityCacheWindow : Duration := (15 * Second)%Z.

Record activityCacheEntry := mk_cache_entry { fetched : Time; ce_reachable : list ReplicaActivity; ce_total : Z }.

(** [fetch] is what the fan-out answers when it is dialled: an error, or the
    reachable replicas' answers and how many replicas there are. *)
Definition NamespaceActivity (cache : gmap string activityCacheEntry) (now : Time) (namespace : string)
    (fetch : option (list ReplicaActivity * Z)) : gmap string activityCacheEntry * option (list ReplicaActivity * Z) :=
  match cache !! namespace with
  | Some e =>
      if (Sub now (fetched e) <? activityCacheWindow)%Z then (cache, Some (ce_reachable e, ce_total e))
      else match fetch with
           | None => (cache, None)
           | Some (r, n) => (<[namespace := mk_cache_entry now r n]> cache, Some (r, n))
           end
  | None => match fetch with
            | None => (cache, None)
            | Some (r, n) => (<[namespace := mk_cache_entry now r n]> cache, Some (r, n))
            end
  end.

Definition ForgetUnreachable (cache : gmap string activityCacheEntry) : gmap string activityCacheEntry :=
  filter (λ kv, ce_reachable kv.2 ≠ []) cache.

Definition newer (current candidate : option Time) : option Time :=
  match candidate with
  | None => current
  | Some c => match current with
              | None => candidate
              | Some t => if After c t then candidate else current
              end
  end.

Definition merge_replica (agentName : string) (acc : option Time * option Time) (replica : ReplicaActivity)
  : option Time * option Time :=
  match Agents replica !! agentName with
  | Some a => (newer acc.1 (GatewayTraffic a), newer acc.2 (Heartbeat a))
  | None => acc
  end.

Definition mergedActivity (reachable : list ReplicaActivity) (agentName source : string) (created : Time) : option Time :=
  let '(traffic, heartbeat) := foldl (merge_replica agentName) (None, None) reachable in
  let picked := if (source =? "agentHeartbeat")%string then heartbeat
                else if (source =? "both")%string then newer traffic heartbeat
                else traffic in
  match picked with
  | Some t => if Before t created then None else picked
  | None => None
  end.

(** ** The outage backoff (agent_gateway_outage.go) *)

Definition gatewayOutageBaseRequeue : Duration := (30 * Second)%Z.
Definition gatewayOutageMaxRequeue : Duration := (5 * Minute)%Z.

Definition gatewayOutageRequeue (conds : conditions) (now : Time) (u : f64) : Duration :=
  let d := match FindStatusCondition conds ConditionGatewayReachable with
           | Some c =>
               if negb (cond_Status c) then
                 let down := Sub now (LastTransitionTime c) in
                 if (0 <? down)%Z then Z.min (wrap64 (gatewayOutageBaseRequeue + down)) gatewayOutageMaxRequeue
                 else gatewayOutageBaseRequeue
               else gatewayOutageBaseRequeue
           | None => gatewayOutageBaseRequeue
           end in
  let factor := (f64_of_ratio 9 10 + f64_of_ratio 2 10 * u)%f64 in
  Z.min (int64_of_f64 (f64_of_Z d * factor)%f64) gatewayOutageMaxRequeue.

(** ** The activity step *)

(** The lifecycle knobs. *)
Record effectiveAgentSpec := mk_eff {
  IdleTimeout : Duration; HibernationDelay : Duration; HibernationEnabled : bool; ActivitySource : string;
}.

Definition setIdleDetection (now : Time) (s : AgentStatus) (className : string) (idleTimeout : Duration) : AgentStatus :=
  with_conditions s
    (if (0 <? idleTimeout)%Z then RemoveStatusCondition (st_Conditions s) ConditionIdleDetection
     else SetStatusCondition now (st_Conditions s) (mk_condition ConditionIdleDetection false "Disabled"
       ("idle detection is off: neither the Agent nor its AgentClass " +:+ (Quote className +:+ " sets an idle timeout")) 0%Z)).

(** [hasActivity]: the controller has an activity client. *)
Definition activityStepRuns (hasActivity : bool) (s : AgentStatus) (idleTimeout : Duration) : bool :=
  hasActivity && (0 <? idleTimeout)%Z && (bool_decide (Phase s = AgentRunning) || bool_decide (Phase s = AgentIdle)).

(** The silence marker: the newest recorded activity, or, once some replica
    has watched for the idle timeout, the last phase change. *)
Definition silence_marker (now : Time) (a : Agent) (eff : effectiveAgentSpec) (reachable : list ReplicaActivity)
  : option (Time * bool) :=
  match mergedActivity reachable (ag_Name a) (ActivitySource eff) (CreationTimestamp a) with
  | Some last => Some (last, false)
  | None =>
      if existsb (λ r, (IdleTimeout eff <=? Sub now (ReplicaStartedAt r))%Z) reachable
      then match PhaseTransitionTime (Status a) with Some t => Some (t, true) | None => None end
      else None
  end.

(** The status after the step and the delay before the next one; [answer] is
    what [NamespaceActivity] gave and [u] the jitter. *)
Definition evaluateActivity (now : Time) (a : Agent) (eff : effectiveAgentSpec) (hibernationHeld : bool)
    (answer : option (list ReplicaActivity * Z)) (u : f64) : AgentStatus * Duration :=
  let s := Status a in
  let outage :=
    let s := with_conditions s (SetStatusCondition now (st_Conditions s)
               (mk_condition ConditionGatewayReachable false "GatewayUnavailable"
                  "no gateway activity data; idle transitions deferred" now)) in
    (s, gatewayOutageRequeue (st_Conditions s) now u) in
  match answer with
  | None => outage
  | Some (reachable, total) =>
      if (total =? 0)%Z || (length reachable =? 0)%nat then outage
      else
        let s := with_conditions s (SetStatusCondition now (st_Conditions s)
                   (mk_condition ConditionGatewayReachable true "GatewayReady" "gateway activity data available" 0%Z)) in
        match silence_marker now a eff reachable with
        | None => (s, (30 * Second)%Z)
        | Some (last, synthetic) =>
            match Phase s with
            | AgentRunning =>
                let marker := match LastActivityTime s with
                              | Some t => if After t last then t else last
                              | None => last
                              end in
                if (IdleTimeout eff <? Sub now marker)%Z
                then (with_activity (setPhase now s AgentIdle) marker, 0%Z)
                else (s, activityCacheWindow)
            | AgentIdle =>
                if negb synthetic
                   && match LastActivityTime s with Some t => After (TruncateTime last Second) t | None => false end
                then (with_activity (setPhase now s AgentRunning) last, 0%Z)
                else
                  let silenceStart := match LastActivityTime s with
                                      | Some t => if synthetic || After t last then t else last
                                      | None => last
                                      end in
                  if HibernationEnabled eff && negb hibernationHeld
                     && (wrap64 (IdleTimeout eff + HibernationDelay eff) <? Sub now silenceStart)%Z
                  then (setPhase now s AgentHibernating, 0%Z)
                  else (s, activityCacheWindow)
            | _ => (s, activityCacheWindow)
            end
        end
  end.

(** ** What the replicas recorded *)

Definition traffic_of (reachable : list ReplicaActivity) (name : string) : list Time :=
  omap (λ r, Agents r !! name ≫= GatewayTraffic) reachable.
Definition heartbeats_of (reachable : list ReplicaActivity) (name : string) : list Time :=
  omap (λ r, Agents r !! name ≫= Heartbeat) reachable.

(** The timestamps of the sources the Agent counts. *)
Definition recorded (reachable : list ReplicaActivity) (name source : string) : list Time :=
  if (source =? "agentHeartbeat")%string then heartbeats_of reachable name
  else if (source =? "both")%string then traffic_of reachable name ++ heartbeats_of reachable name
  else traffic_of reachable name.

Definition newest (o : option Time) (l : list Time) : Prop :=
  match o with Some t => t ∈ l ∧ ∀ t', t' ∈ l → (t' <= t)%Z | None => l = [] end.

Lemma newer_newest o o' l l' : newest o l → newest o' l' → newest (newer o o') (l ++ l').
Proof.
  unfold newer, newest, After. destruct o as [t|], o' as [c|]; [|intros ? ->; by rewrite app_nil_r|intros -> ?; done|by intros -> ->].
  intros [Ht Hl] [Hc Hl']. destruct (Z.ltb_spec t c).
  - split; [set_solver|]. intros x [Hx|Hx]%elem_of_app; [specialize (Hl x Hx); lia|auto].
  - split; [set_solver|]. intros x [Hx|Hx]%elem_of_app; [auto|specialize (Hl' x Hx); lia].
Qed.

Lemma newest_option (o : option Time) : newest o (option_list o).
Proof. destruct o; simpl; [|done]. split; [set_solver|]. intros t' ->%list_elem_of_singleton. done. Qed.

Lemma omap_snoc {A B} (f : A → option B) l x : omap f (l ++ [x]) = omap f l ++ option_list (f x).
Proof. rewrite omap_app. simpl. by destruct (f x). Qed.

Lemma merge_newest reachable name :
  let m := foldl (merge_replica name) (None, None) reachable in
  newest m.1 (traffic_of reachable name) ∧ newest m.2 (heartbeats_of reachable name).
Proof.
  cbv zeta. induction reachable as [|r l IH] using rev_ind; [done|].
  unfold traffic_of, heartbeats_of in *. rewrite foldl_app, !omap_snoc. simpl. unfold merge_replica at 1 3.
  destruct IH as [H1 H2]. destruct (Agents r !! name) as [a|]; simpl.
  - split; apply newer_newest; auto using newest_option.
  - by rewrite !app_nil_r.
Qed.

Lemma newest_None_nil o (l : list Time) : newest o l → o = None → l = [].
Proof. by intros H ->. Qed.

(** The merge is the newest recorded timestamp, unless it predates the Agent. *)
Lemma mergedActivity_newest reachable name source created :
  match mergedActivity reachable name source created with
  | Some t => newest (Some t) (recorded reachable name source) ∧ (created <= t)%Z
  | None => ∀ t, t ∈ recorded reachable name source → (t < created)%Z
  end.
Proof.
  unfold mergedActivity. destruct (merge_newest reachable name) as [Ht Hh].
  destruct (foldl _ _ _) as [traffic hb]; simpl in Ht, Hh.
  set (picked := if (source =? "agentHeartbeat")%string then _ else _).
  assert (Hp : newest picked (recorded reachable name source)).
  { unfold picked, recorded. repeat case_match; auto using newer_newest. }
  destruct picked as [t|]; [|rewrite Hp; intros t []%elem_of_nil].
  unfold Before. destruct (Z.ltb_spec t created); [|done]. destruct Hp as [_ Hp]. intros t' Ht'. specialize (Hp t' Ht'). lia.
Qed.

(** ** The step's cases *)

Lemma Sub_mono now t t' : (t <= t')%Z → (Sub now t' <= Sub now t)%Z.
Proof. unfold Sub, Time, Duration in *. lia. Qed.

(** [t] is counted: recorded by a replica since the Agent exists. *)
Definition counted (a : Agent) (eff : effectiveAgentSpec) (reachable : list ReplicaActivity) (t : Time) : Prop :=
  t ∈ recorded reachable (ag_Name a) (ActivitySource eff) ∧ (CreationTimestamp a <= t)%Z.

(** The marker is no older than what is counted, and real exactly when
    something is. *)
Lemma silence_marker_spec now a eff reachable last synthetic :
  silence_marker now a eff reachable = Some (last, synthetic) →
  if synthetic then (∀ t, ¬ counted a eff reachable t)
  else counted a eff reachable last ∧ (∀ t, counted a eff reachable t → (t <= last)%Z).
Proof.
  unfold silence_marker, counted.
  pose proof (mergedActivity_newest reachable (ag_Name a) (ActivitySource eff) (CreationTimestamp a)) as H.
  destruct (mergedActivity _ _ _ _) as [t|].
  - intros [= <- <-]. destruct H as [[Hin Hmax] Hc]. naive_solver.
  - intros E. assert (synthetic = true) as -> by (repeat (case_match; simplify_eq/=); done).
    intros t [Hin Ht]. specialize (H t Hin). lia.
Qed.

(** Without a record, a replica has watched for the idle timeout and the
    marker is the last phase change. *)
Lemma silence_marker_watched now a eff reachable last :
  silence_marker now a eff reachable = Some (last, true) →
  (∃ r, r ∈ reachable ∧ (IdleTimeout eff <= Sub now (ReplicaStartedAt r))%Z) ∧ PhaseTransitionTime (Status a) = Some last.
Proof.
  unfold silence_marker. destruct (mergedActivity _ _ _ _); [done|]. destruct (existsb (λ r, (IdleTimeout eff <=? Sub now (ReplicaStartedAt r))%Z) reachable) eqn:Ex; [|done].
  apply existsb_exists in Ex as (r & Hr & Hle%Z.leb_le). destruct (PhaseTransitionTime (Status a)); [|done]. intros [= <-].
  split; [|done]. exists r. split; [by apply list_elem_of_In|done].
Qed.

Lemma silence_marker_real now a eff reachable t :
  counted a eff reachable t → ∃ last, silence_marker now a eff reachable = Some (last, false) ∧ (t <= last)%Z.
Proof.
  intros [Hin Ht]. unfold silence_marker.
  pose proof (mergedActivity_newest reachable (ag_Name a) (ActivitySource eff) (CreationTimestamp a)) as H.
  destruct (mergedActivity _ _ _ _) as [m|]; [|specialize (H t Hin); lia]. destruct H as [[_ Hmax] _]. eauto.
Qed.

Lemma setPhase_changes now s ph :
  Phase s ≠ ph → setPhase now s ph = mk_status ph (Some now) (LastActivityTime s) (HibernatedAt s) (PodName s) (st_Conditions s).
Proof. unfold setPhase. intros. by rewrite decide_False. Qed.

(** The fan-out gave data. *)
Definition has_data (answer : option (list ReplicaActivity * Z)) (reachable : list ReplicaActivity) : Prop :=
  ∃ total, answer = Some (reachable, total) ∧ total ≠ 0%Z ∧ reachable ≠ [].

Lemma no_data_cond (reachable : list ReplicaActivity) total :
  ((total =? 0)%Z || (length reachable =? 0)%nat) = false ↔ total ≠ 0%Z ∧ reachable ≠ [].
Proof. rewrite orb_false_iff, Z.eqb_neq, Nat.eqb_neq, length_zero_iff_nil. done. Qed.


(** An Idle Agent resumes exactly on activity newer, to the second, than its
    last activity time. *)
Lemma idle_resumes now a eff held answer u lat :
  Phase (Status a) = AgentIdle → LastActivityTime (Status a) = Some lat →
  Phase (evaluateActivity now a eff held answer u).1 = AgentRunning ↔
  ∃ reachable t, has_data answer reachable ∧ counted a eff reachable t ∧ (lat < TruncateTime t Second)%Z.
Proof.
  intros Hp Hlat. unfold evaluateActivity.
  assert (Hnone : ∀ cs, Phase (with_conditions (Status a) cs) ≠ AgentRunning) by (intros cs; simpl; congruence).
  assert (Hsec : (0 < Second)%Z) by done.
  destruct answer as [[reachable total]|].
  2: { split; [intros H; by destruct (Hnone _ H)|]. by intros (?&?&(?&?&_)&_). }
  destruct (_ || _) eqn:Ed.
  { split; [intros H; by destruct (Hnone _ H)|]. intros (r & t & (n & [= <- <-] & Hd) & _).
    apply no_data_cond in Hd. congruence. }
  apply no_data_cond in Ed. cbn [Phase with_conditions LastActivityTime]. rewrite Hp, Hlat.
  assert (Hdata : ∀ r, has_data (Some (reachable, total)) r ↔ r = reachable) by (unfold has_data; naive_solver).
  setoid_rewrite Hdata. destruct (silence_marker _ _ _ _) as [[last synthetic]|] eqn:Em.
  2: { split; [intros H; by destruct (Hnone _ H)|]. intros (r & t & -> & Hc & _).
       destruct (silence_marker_real now _ _ _ _ Hc) as (x & Hx & _). congruence. }
  pose proof (silence_marker_spec _ _ _ _ _ _ Em) as Hm. unfold After.
  destruct synthetic; cbn [negb andb].
  { split; [|intros (r & t & -> & Hc & _); by destruct (Hm t)].
    case_match; cbn [fst]; intros Hph; [by rewrite setPhase_changes in Hph by (simpl; congruence)|by destruct (Hnone _ Hph)]. }
  destruct Hm as [Hin Hmax]. destruct (Z.ltb_spec lat (TruncateTime last Second)) as [Hlt|Hge].
  - cbn [fst]. rewrite setPhase_changes by (simpl; congruence). split; [by exists reachable, last|done].
  - split.
    + case_match; cbn [fst]; intros Hph; [by rewrite setPhase_changes in Hph by (simpl; congruence)|by destruct (Hnone _ Hph)].
    + intros (r & t & -> & Hc & Ht). pose proof (TruncateTime_mono t last Second Hsec (Hmax t Hc)). lia.
Qed.

(** A Running Agent that idles keeps as its last activity time a marker no
    older than what was counted. *)
Lemma running_idles now a eff held answer u :
  Phase (Status a) = AgentRunning → Phase (evaluateActivity now a eff held answer u).1 = AgentIdle →
  ∃ reachable marker, has_data answer reachable ∧
    LastActivityTime (evaluateActivity now a eff held answer u).1 = Some marker ∧
    ∀ t, counted a eff reachable t → (t <= marker)%Z.
Proof.
  intros Hp. unfold evaluateActivity. destruct answer as [[reachable total]|]; [|simpl; congruence].
  destruct (_ || _) eqn:Ed; [simpl; congruence|]. apply no_data_cond in Ed.
  destruct (silence_marker _ _ _ _) as [[last synthetic]|] eqn:Em; [|simpl; congruence].
  apply silence_marker_spec in Em. cbn [Phase with_conditions LastActivityTime]. rewrite Hp.
  destruct (_ <? _)%Z; cbn [fst]; [|simpl; congruence]. intros _. exists reachable. eexists. split; [by exists total|].
  split; [done|]. intros t Ht. destruct synthetic; [by destruct (Em t)|]. destruct Em as [_ Em]. specialize (Em t Ht).
  unfold After. destruct (LastActivityTime (Status a)) as [x|]; [|done]. destruct (Z.ltb_spec last x); lia.
Qed.

(** ** Properties *)

(** C36: idling needs evidence of silence.  The activity step moves an Agent
    only from Running to Idle, from Idle back to Running and from Idle to
    Hibernating.  It idles or hibernates it only on data from a gateway
    replica, and only when everything the replicas recorded for it since it
    was created, and its own last activity time (a wake included), is older
    than the idle timeout, for hibernation the idle timeout plus the delay;
    hibernation also needs to be enabled and not held.  When the replicas
    recorded nothing, silence counts only if one of them has watched for the
    idle timeout, and it is measured from the Agent's last phase change: an
    Agent without traffic idles no sooner than the idle timeout after it, and
    one that never had an activity time hibernates no sooner than the whole
    limit after it.  An idle Agent runs again only on recorded activity newer,
    to the second, than its last activity time. *)
Theorem idling_needs_silence now a eff held answer u :
  let s := (evaluateActivity now a eff held answer u).1 in
  Phase s ≠ Phase (Status a) →
  match Phase (Status a), Phase s with
  | AgentIdle, AgentRunning =>
      ∃ reachable t lat, has_data answer reachable ∧ counted a eff reachable t ∧
        LastActivityTime (Status a) = Some lat ∧ (lat < TruncateTime t Second)%Z
  | AgentRunning, AgentIdle | AgentIdle, AgentHibernating =>
      let limit := if decide (Phase s = AgentIdle) then IdleTimeout eff else wrap64 (IdleTimeout eff + HibernationDelay eff) in
      (Phase s = AgentHibernating → HibernationEnabled eff = true ∧ held = false) ∧
      ∃ reachable, has_data answer reachable ∧
        (∀ t, counted a eff reachable t → (limit < Sub now t)%Z) ∧
        (∀ t, LastActivityTime (Status a) = Some t → (limit < Sub now t)%Z) ∧
        ((∃ t, counted a eff reachable t) ∨
         (∃ r, r ∈ reachable ∧ (IdleTimeout eff <= Sub now (ReplicaStartedAt r))%Z) ∧
         ∃ since, PhaseTransitionTime (Status a) = Some since ∧
           (Phase s = AgentIdle ∨ LastActivityTime (Status a) = None → (limit < Sub now since)%Z))
  | _, _ => False
  end.
Proof.
  cbv zeta. unfold evaluateActivity. destruct answer as [[reachable total]|]; [|done].
  destruct (_ || _) eqn:Ed; [done|]. apply no_data_cond in Ed.
  assert (Hdata : has_data (Some (reachable, total)) reachable) by (exists total; tauto).
  destruct (silence_marker _ _ _ _) as [[last synthetic]|] eqn:Em; [|done].
  assert (Hwatch : synthetic = true → (∃ r, r ∈ reachable ∧ (IdleTimeout eff <= Sub now (ReplicaStartedAt r))%Z) ∧ PhaseTransitionTime (Status a) = Some last)
    by (intros ->; exact (silence_marker_watched _ _ _ _ _ Em)).
  apply silence_marker_spec in Em. cbn [Phase with_conditions LastActivityTime].
  assert (Hmono : ∀ limit x, (limit < Sub now x)%Z → ∀ t, (t <= x)%Z → (limit < Sub now t)%Z).
  { intros limit x Hx t Ht. pose proof (Sub_mono now t x Ht). lia. }
  destruct (Phase (Status a)) eqn:Ep; try done.
  - destruct (Z.ltb_spec (IdleTimeout eff) (Sub now (match LastActivityTime (Status a) with
      Some t => if After t last then t else last | None => last end))) as [Hlt|]; cbn [fst]; [|cbn [Phase with_conditions]; by rewrite Ep].
    rewrite setPhase_changes by (simpl; congruence). cbn [Phase with_activity]. intros _.
    rewrite decide_True by done. split; [done|]. exists reachable. split; [done|]. unfold After in Hlt.
    assert (Hlast : (IdleTimeout eff < Sub now last)%Z).
    { eapply Hmono; [exact Hlt|]. destruct (LastActivityTime (Status a)) as [x|]; [|done]. destruct (Z.ltb_spec last x); lia. }
    split_and!.
    + intros t Ht. eapply Hmono; [exact Hlast|]. destruct synthetic; [by destruct (Em t)|]. by apply Em.
    + intros t Ht. eapply Hmono; [exact Hlt|]. rewrite Ht. destruct (Z.ltb_spec last t); lia.
    + destruct synthetic; [right|left; exists last; apply Em]. destruct (Hwatch eq_refl) as [Hw Hp]. split; [done|]. by exists last.
  - destruct (negb synthetic && _) eqn:Efresh; cbn [fst].
    { rewrite setPhase_changes by (simpl; congruence). cbn [Phase with_activity]. intros _. apply andb_true_iff in Efresh as [Hs%negb_true_iff Ha].
      subst synthetic. destruct (LastActivityTime (Status a)) as [lat|]; [|done]. unfold After in Ha. apply Z.ltb_lt in Ha.
      exists reachable, last, lat. destruct Em as [Hc _]. done. }
    destruct (HibernationEnabled eff && negb held && _) eqn:Eh; cbn [fst]; [|cbn [Phase with_conditions]; by rewrite Ep].
    rewrite setPhase_changes by (simpl; congruence). cbn [Phase]. intros _.
    rewrite decide_False by done. rewrite !andb_true_iff, negb_true_iff, Z.ltb_lt in Eh. destruct Eh as [[Hen Hheld] Hlt]. split; [done|].
    exists reachable. split; [done|]. unfold After in Hlt.
    split_and!.
    + intros t Ht. eapply Hmono; [exact Hlt|]. destruct synthetic; [by destruct (Em t)|]. destruct Em as [_ Em]. specialize (Em t Ht).
      destruct (LastActivityTime (Status a)) as [x|]; [|done]. cbn [orb]. destruct (Z.ltb_spec last x); lia.
    + intros t Ht. eapply Hmono; [exact Hlt|]. rewrite Ht. destruct synthetic; cbn [orb]; [lia|]. destruct (Z.ltb_spec last t); lia.
    + destruct synthetic; [right|left; exists last; apply Em]. destruct (Hwatch eq_refl) as [Hw Hp]. split; [done|]. exists last. split; [done|].
      intros [?|Hnone]; [done|]. by rewrite Hnone in Hlt.
Qed.

(** No flapping.  Once a pass idled an Agent and its status was stored,
    which cuts its times to the second, no later pass brings it back to
    Running unless a replica recorded something the first pass did not see;
    replicas that restart or do not answer change nothing. *)
Theorem idle_does_not_flap now a eff held answer u now' held' answer' u'
    (Hphase : Phase (Status a) = AgentRunning)
    (Hidle : Phase (evaluateActivity now a eff held answer u).1 = AgentIdle)
    (Hold : ∀ reachable' t, has_data answer' reachable' → counted a eff reachable' t →
       ∃ reachable, has_data answer reachable ∧ counted a eff reachable t) :
  let stored := with_status a (writeStatus (evaluateActivity now a eff held answer u).1) in
  Phase (evaluateActivity now' stored eff held' answer' u').1 ≠ AgentRunning.
Proof.
  cbv zeta. destruct (running_idles _ _ _ _ _ _ Hphase Hidle) as (reachable & marker & Hdata & Hlat & Hmax).
  set (s1 := (evaluateActivity now a eff held answer u).1) in *.
  rewrite (idle_resumes _ _ _ _ _ _ (stored_time marker)); [|done|by simpl; rewrite Hlat].
  intros (r' & t & Hd' & Hc & Ht). destruct (Hold r' t Hd' Hc) as (r & Hd & Hcr).
  assert (r = reachable) as -> by (destruct Hd as (? & -> & _), Hdata as (? & [= <- <-] & _); done).
  specialize (Hmax t Hcr). pose proof (TruncateTime_mono t marker Second eq_refl Hmax). unfold stored_time in Ht. lia.
Qed.

(** A wake request is not lost.  On an Agent that is hibernating or
    hibernated, the wake step leaves the request in place or has stored
    Resuming, whatever API call fails; the Hibernating step keeps it; and on
    a Hibernated Agent with working API calls the wake step stores Resuming
    with the wake as last activity, and clears the request. *)
Theorem wake_request_not_lost now a
    (Hphase : Phase (Status a) = AgentHibernating ∨ Phase (Status a) = AgentHibernated)
    (Hwake : (wakeTrigger a).2 = true) :
  (∀ status_ok update_ok, let a' := (reconcileWakeAnnotations now a status_ok update_ok).1.1 in
     ((wakeTrigger a').2 = true ∧ Phase (Status a') = Phase (Status a)) ∨ Phase (Status a') = AgentResuming) ∧
  (∀ pod del status_ok, (wakeTrigger (driveHibernating now a pod del status_ok).1.1).2 = true) ∧
  (Phase (Status a) = AgentHibernated →
   ∃ a', reconcileWakeAnnotations now a true true = (a', true, false) ∧ Phase (Status a') = AgentResuming ∧
     LastActivityTime (Status a') = Some (stored_time now) ∧ (wakeTrigger a').2 = false).
Proof.
  split_and!.
  - intros st up. unfold reconcileWakeAnnotations. rewrite Hwake. cbn [andb negb]. rewrite andb_false_r. cbv zeta.
    destruct Hphase as [Hp|Hp]; rewrite Hp.
    + rewrite bool_decide_true by done. left. done.
    + rewrite bool_decide_false by done. cbn [negb]. unfold handleWake. rewrite decide_True by done.
      rewrite setPhase_changes by congruence. destruct st, up; simpl; rewrite ?Hp; eauto.
  - intros pod del ok. unfold driveHibernating. destruct pod as [[[]|]|]; destruct ok, del; simpl; done.
  - intros Hp. unfold reconcileWakeAnnotations. rewrite Hwake, Hp. cbn [andb]. rewrite bool_decide_false by done.
    unfold handleWake. rewrite decide_True by done. rewrite setPhase_changes by congruence. cbn [negb].
    eexists. split; [reflexivity|]. split_and!; [done|done|].
    unfold wakeTrigger, clearWake; cbn [Annotations with_annotations].
    rewrite lookup_delete_ne, lookup_delete_eq by done. done.
Qed.

End lifecycle.

(** ** A concrete Agent

    An Agent whose last traffic is three hours old. *)
#[local] Existing Instance map_conditions.

Definition noon : Time := (63900000000 * Second + 5)%Z.
Definition example_agents : gmap string activitySource := {[ "bot" := mk_source (Some noon) None ]}.
Definition example_replica : ReplicaActivity := mk_activity_response (noon - Hour)%Z example_agents.
Definition example_answer : option (list ReplicaActivity * Z) := Some ([example_replica], 1%Z).
Definition example_annotations : gmap string string := {[ AnnotationWake := AnnotationTrue ]}.
Definition no_conditions : gmap string Condition := ∅.
Definition example_agent (ph : AgentPhase) (lat : option Time) : Agent :=
  mk_agent "bot" "team-a" (noon - Hour)%Z example_annotations (mk_status ph (Some (noon - Hour)%Z) lat None "bot-0" no_conditions).
Definition example_eff : effectiveAgentSpec := mk_eff Hour Hour true "gatewayTraffic".

Lemma idling_needs_silence_witness :
  Phase (evaluateActivity (noon + 3 * Hour)%Z (example_agent AgentIdle (Some (stored_time noon))) example_eff false
    example_answer f64_zero).1 = AgentHibernating ∧
  HibernationEnabled example_eff = true.
Proof.
  assert (E : Phase (evaluateActivity (noon + 3 * Hour)%Z (example_agent AgentIdle (Some (stored_time noon))) example_eff false
    example_answer f64_zero).1 = AgentHibernating) by (vm_compute; reflexivity).
  split; [exact E|].
  assert (H := idling_needs_silence (noon + 3 * Hour)%Z (example_agent AgentIdle (Some (stored_time noon))) example_eff false
    example_answer f64_zero). cbv zeta in H. rewrite E in H. specialize (H ltac:(discriminate)).
  cbn [Phase Status example_agent] in H. destruct H as [H _]. apply H. reflexivity.
Defined.

Lemma idle_does_not_flap_witness :
  let a := example_agent AgentRunning None in
  let stored := with_status a (writeStatus (evaluateActivity (noon + 2 * Hour)%Z a example_eff false example_answer f64_zero).1) in
  Phase (Status stored) = AgentIdle ∧
  Phase (evaluateActivity (noon + 2 * Hour + Second)%Z stored example_eff true example_answer f64_zero).1 ≠ AgentRunning.
Proof.
  split; [vm_compute; reflexivity|].
  apply (idle_does_not_flap (noon + 2 * Hour)%Z (example_agent AgentRunning None) example_eff false example_answer f64_zero
    (noon + 2 * Hour + Second)%Z true example_answer f64_zero eq_refl); [vm_compute; reflexivity|].
  intros r t Hd Hc. exists r. exact (conj Hd Hc).
Defined.

Lemma wake_request_not_lost_witness :
  ∃ a', reconcileWakeAnnotations noon (example_agent AgentHibernated None) true true = (a', true, false) ∧
    Phase (Status a') = AgentResuming.
Proof.
  destruct (wake_request_not_lost noon (example_agent AgentHibernated None) (or_intror eq_refl)
    ltac:(vm_compute; reflexivity)) as (_ & _ & H).
  destruct (H eq_refl) as (a' & E & Hp & _). exists a'. exact (conj E Hp).
Defined.

(** The slots that bound concurrent drift replacements of a class:
    internal/controller/agent_drift_slots.go.

    [acquire] lists the class's Agents and then, under the lock, counts what
    that list shows and what it reserved itself.  The fleet below is the
    cache, the passes that have listed and not yet taken the lock, the
    reservations and the Agents truly being replaced, with the lag between a
    grant and the cache. *)

From stdpp Require Import sets.

Definition ReasonReplacing : string := "Replacing".
Definition ReasonReplacementPending : string := "ReplacementPending".
Definition driftReservationTTL : Duration := (30 * Second)%Z.

(** apimachinery's intstr: a count or a text, scaled against a total and
    rounded up; [None] is its error. *)
Inductive IntOrString := IntVal (n : Z) | StrVal (s : string).
Class IntStr := { GetScaledValue : IntOrString → Z → option Z }.

Definition defaultMaxUnavailableOnDrift : IntOrString := StrVal "25%".

Definition maxUnavailableOnDrift {IS : IntStr} (limit : option IntOrString) (total : Z) : Z :=
  let limit := default defaultMaxUnavailableOnDrift limit in
  let n := match GetScaledValue limit total with
           | Some n => n
           | None => default 0%Z (GetScaledValue defaultMaxUnavailableOnDrift total)
           end in
  Z.max n 1.

Definition podUpToDateReason {CD : Conditions} (cs : conditions) : string :=
  match FindStatusCondition cs ConditionPodUpToDate with Some c => cond_Reason c | None => "" end.

Definition agent_key : Type := string * string.

(** One Agent of the class as the cache shows it. *)
Record agent_row := mk_row { row_key : agent_key; row_reason : string; row_phase : AgentPhase }.

Definition idle (r : agent_row) : bool := match row_phase r with AgentIdle => true | _ => false end.
Definition replacing (r : agent_row) : bool := (row_reason r =? ReasonReplacing)%string.
Definition pending (r : agent_row) : bool := (row_reason r =? ReasonReplacementPending)%string.

Record slot_count := mk_count { sl_reserved : gmap agent_key Time; sl_inUse : Z; sl_idleWaiting : bool }.

(** One turn of the loop over the class's Agents. *)
Definition count_row (self : agent_key) (st : slot_count) (other : agent_row) : slot_count :=
  if decide (row_key other = self) then st
  else if replacing other then mk_count (delete (row_key other) (sl_reserved st)) (sl_inUse st + 1) (sl_idleWaiting st)
  else
    mk_count (sl_reserved st)
      (match sl_reserved st !! row_key other with Some _ => sl_inUse st + 1 | None => sl_inUse st end)%Z
      (sl_idleWaiting st || pending other && idle other).

Definition expire (now : Time) (reserved : gmap agent_key Time) : gmap agent_key Time :=
  filter (λ kv, (Sub now kv.2 < driftReservationTTL)%Z) reserved.

Section slots.
Context {IS : IntStr} (limit : option IntOrString).

(** What follows the lock, on the list read before it. *)
Definition acquire (reserved : gmap agent_key Time) (agents : list agent_row) (self : agent_row) (now : Time) : gmap agent_key Time * bool :=
  let st := foldl (count_row (row_key self)) (mk_count (expire now reserved) 0 false) agents in
  if (maxUnavailableOnDrift limit (Z.of_nat (length agents)) <=? sl_inUse st)%Z then (sl_reserved st, false)
  else if sl_idleWaiting st && negb (idle self) then (sl_reserved st, false)
  else (<[row_key self := now]> (sl_reserved st), true).

(** ** What is counted *)

(** The cache shows [k] being replaced. *)
Definition shown (agents : list agent_row) (k : agent_key) : Prop := ∃ r, r ∈ agents ∧ row_key r = k ∧ replacing r = true.

Definition holds_slot (reserved : gmap agent_key Time) (self : agent_key) (r : agent_row) : bool :=
  negb (bool_decide (row_key r = self)) && (replacing r || bool_decide (is_Some (reserved !! row_key r))).

Lemma holds_slot_ext reserved reserved' self r : reserved !! row_key r = reserved' !! row_key r → holds_slot reserved self r = holds_slot reserved' self r.
Proof. unfold holds_slot. by intros ->. Qed.

Lemma filter_ext_in {A} (f g : A → bool) l : (∀ x, x ∈ l → f x = g x) → List.filter f l = List.filter g l.
Proof.
  induction l as [|x l IH]; intros H; [done|]. cbn. rewrite H by by left. rewrite IH; [done|]. intros y Hy. apply H. by right.
Qed.

Lemma count_spec self agents st : NoDup (map row_key agents) →
  sl_inUse (foldl (count_row self) st agents) = (sl_inUse st + Z.of_nat (length (List.filter (holds_slot (sl_reserved st) self) agents)))%Z ∧
  ∀ k, k = self ∨ ¬ shown agents k → sl_reserved (foldl (count_row self) st agents) !! k = sl_reserved st !! k.
Proof.
  revert st. induction agents as [|r agents IH]; intros st; cbn [foldl map]; [intros _; split; [cbn; lia|done]|].
  intros [Hr Hnd]%list.NoDup_cons. destruct (IH (count_row self st r) Hnd) as [IH1 IH2]. rewrite IH1.
  assert (∀ k, k = self ∨ k ≠ row_key r ∨ replacing r = false → sl_reserved (count_row self st r) !! k = sl_reserved st !! k) as Hk.
  { intros k Hk. unfold count_row. destruct (decide (row_key r = self)) as [|Hrs]; [done|]. destruct (replacing r); cbn; [|done].
    rewrite lookup_delete_ne; [done|]. destruct Hk as [->|[?|?]]; [done|congruence|done]. }
  split.
  - rewrite (filter_ext_in _ (holds_slot (sl_reserved st) self) agents).
    2: { intros x Hx. apply holds_slot_ext, Hk. right. left. intros E. apply Hr. rewrite <- E. apply list_elem_of_fmap. eauto. }
    cbn [List.filter]. unfold count_row, holds_slot at 2. destruct (decide (row_key r = self)) as [E|E]; [by rewrite bool_decide_true|].
    rewrite bool_decide_false by done. cbn [negb andb]. destruct (replacing r); cbn [orb sl_inUse length]; [lia|].
    destruct (sl_reserved st !! row_key r); cbn [length]; [rewrite bool_decide_true by eauto; cbn [length]; lia|].
    rewrite bool_decide_false by by intros []. lia.
  - intros k Hs. rewrite IH2; [apply Hk|].
    + destruct Hs as [->|Hs]; [by left|right]. destruct (replacing r) eqn:E; [|by right]. left. intros ->. apply Hs. exists r. split_and!; [by left|done|done].
    + destruct Hs as [->|Hs]; [by left|right]. intros (x & Hx & ? & ?). apply Hs. exists x. split_and!; [by right|done|done].
Qed.

(** A granted request found fewer other Agents with a slot than the cap. *)
Lemma acquire_spec reserved agents self now reserved' granted : NoDup (map row_key agents) →
  acquire reserved agents self now = (reserved', granted) →
  (granted = true → (Z.of_nat (length (List.filter (holds_slot (expire now reserved) (row_key self)) agents))
     < maxUnavailableOnDrift limit (Z.of_nat (length agents)))%Z ∧ reserved' !! row_key self = Some now) ∧
  ∀ k, (k ≠ row_key self ∧ ¬ shown agents k) ∨ (k = row_key self ∧ granted = false) → reserved' !! k = expire now reserved !! k.
Proof.
  intros Hnd. unfold acquire. cbv zeta. destruct (count_spec (row_key self) agents (mk_count (expire now reserved) 0 false) Hnd) as [Hu Hr].
  set (st := foldl _ _ agents) in *. cbn [sl_inUse sl_reserved] in Hu, Hr.
  assert (Hkeep : ∀ k, (k ≠ row_key self ∧ ¬ shown agents k) ∨ k = row_key self → sl_reserved st !! k = expire now reserved !! k)
    by (intros k [[_ ?]|?]; apply Hr; auto).
  destruct (Z.leb_spec (maxUnavailableOnDrift limit (Z.of_nat (length agents))) (sl_inUse st)) as [Hl|Hl];
    [intros [= <- <-]; split; [done|]; intros k [?|[? _]]; apply Hkeep; auto|].
  destruct (_ && _); intros [= <- <-]; [split; [done|]; intros k [?|[? _]]; apply Hkeep; auto|]. split.
  - intros _. split; [lia|]. apply lookup_insert_eq.
  - intros k [[Hk Hs]|[_ ?]]; [|done]. rewrite lookup_insert_ne by done. apply Hkeep. auto.
Qed.

(** ** The fleet *)

(** A pass of an Agent that has read its clock and listed the class. *)
Record ask := mk_ask { as_self : agent_row; as_now : Time; as_list : list agent_row }.

Record fleet := mk_fleet {
  f_now : Time;
  f_reserved : gmap agent_key Time;
  f_cache : list agent_row;
  f_asks : list ask;
  f_active : gmap agent_key Time;
}.

Definition listed (agents : list agent_row) (k : agent_key) : Prop := k ∈ map row_key agents.

(** Time passes, the cache moves on, a pass lists, a pass takes the lock or
    gives up, an Agent is done, another controller takes over.  A grant is
    shown by the cache before its reservation, 30 s after the pass read its
    clock, is too old (the lag is bounded by the time a reservation lives, a
    pass's way to the lock included); the cache shows a replacement until it
    is done once it shows it, and lists the class's Agents once each.  An
    Agent asks only when its own pass read it as not being replaced
    (admitDriftReplacement).  A new leader starts from a cache that shows what
    was stored; a grant that was not stored replaced no Pod.  Passes may list
    while others are on their way to the lock when [overlap] is true. *)
Inductive fleet_step (overlap : bool) : fleet → fleet → Prop :=
  | Advance f t : (f_now f <= t)%Z →
      (∀ k at_, f_active f !! k = Some at_ → shown (f_cache f) k ∨ (Sub t at_ < driftReservationTTL)%Z) →
      fleet_step overlap f (mk_fleet t (f_reserved f) (f_cache f) (f_asks f) (f_active f))
  | Refresh f cache : NoDup (map row_key cache) →
      (∀ k, is_Some (f_active f !! k) → listed cache k ∧ (shown (f_cache f) k → shown cache k)) →
      (∀ a, a ∈ f_asks f → listed cache (row_key (as_self a))) →
      fleet_step overlap f (mk_fleet (f_now f) (f_reserved f) cache (f_asks f) (f_active f))
  | ListAgents f self now : overlap = true ∨ f_asks f = [] → (now <= f_now f)%Z →
      listed (f_cache f) (row_key self) → ¬ shown (f_cache f) (row_key self) →
      fleet_step overlap f (mk_fleet (f_now f) (f_reserved f) (f_cache f) (f_asks f ++ [mk_ask self now (f_cache f)]) (f_active f))
  | Lock f l1 a l2 reserved granted : f_asks f = l1 ++ a :: l2 → (Sub (f_now f) (as_now a) < driftReservationTTL)%Z →
      acquire (f_reserved f) (as_list a) (as_self a) (as_now a) = (reserved, granted) →
      fleet_step overlap f (mk_fleet (f_now f) reserved (f_cache f) (l1 ++ l2)
        (if granted then <[row_key (as_self a) := as_now a]> (f_active f) else f_active f))
  | GiveUp f l1 a l2 : f_asks f = l1 ++ a :: l2 →
      fleet_step overlap f (mk_fleet (f_now f) (f_reserved f) (f_cache f) (l1 ++ l2) (f_active f))
  | Done f k : fleet_step overlap f (mk_fleet (f_now f) (f_reserved f) (f_cache f) (f_asks f) (delete k (f_active f)))
  | Restart f cache active : NoDup (map row_key cache) → active ⊆ f_active f → (∀ k, is_Some (active !! k) → shown cache k) →
      fleet_step overlap f (mk_fleet (f_now f) ∅ cache [] active).

Inductive fleet_run (overlap : bool) (f : fleet) : fleet → Prop :=
  | run_here : fleet_run overlap f f
  | run_step f' f'' : fleet_run overlap f f' → fleet_step overlap f' f'' → fleet_run overlap f f''.

(** Every Agent being replaced is shown or reserved. *)
Record fleet_inv (f : fleet) : Prop := mk_fleet_inv {
  inv_nodup : NoDup (map row_key (f_cache f));
  inv_listed k : is_Some (f_active f !! k) → listed (f_cache f) k;
  inv_counted k at_ : f_active f !! k = Some at_ →
    shown (f_cache f) k ∨ (f_reserved f !! k = Some at_ ∧ (Sub (f_now f) at_ < driftReservationTTL)%Z);
}.

(** The same of the list of a pass on its way to the lock, by that pass's
    clock; what its list shows the cache shows. *)
Record ask_inv (f : fleet) (a : ask) : Prop := mk_ask_inv {
  ai_nodup : NoDup (map row_key (as_list a));
  ai_listed : listed (f_cache f) (row_key (as_self a));
  ai_counted k at_ : f_active f !! k = Some at_ → listed (as_list a) k ∧
    (shown (as_list a) k ∨ (f_reserved f !! k = Some at_ ∧ (Sub (as_now a) at_ < driftReservationTTL)%Z));
  ai_shown k : is_Some (f_active f !! k) → shown (as_list a) k → shown (f_cache f) k;
}.

(** No two passes are on their way. *)
Definition alone (f : fleet) : Prop := length (f_asks f) ≤ 1 ∧ ∀ a, a ∈ f_asks f → ask_inv f a.

Lemma shown_listed agents k : shown agents k → listed agents k.
Proof. intros (r & Hr & <- & _). apply list_elem_of_fmap. eauto. Qed.

Lemma expire_lookup now reserved k at_ : reserved !! k = Some at_ → (Sub now at_ < driftReservationTTL)%Z → expire now reserved !! k = Some at_.
Proof. intros H Hlt. by apply map_lookup_filter_Some. Qed.

Lemma shown_dec agents k : Decision (shown agents k).
Proof.
  destruct (decide (Exists (λ r, row_key r = k ∧ replacing r = true) agents)) as [H|H]; [left|right].
  - apply list.Exists_exists in H as (r & ? & ? & ?). by exists r.
  - intros (r & ? & ? & ?). apply H, list.Exists_exists. by exists r.
Qed.

Lemma Sub_clock now now' at_ : (now <= now')%Z → (Sub now at_ <= Sub now' at_)%Z.
Proof. unfold Sub, Time, Duration in *. lia. Qed.

(** What the lock leaves of the reservations still covers the others. *)
Lemma lock_counted f a reserved granted k at_ : fleet_inv f → ask_inv f a →
  acquire (f_reserved f) (as_list a) (as_self a) (as_now a) = (reserved, granted) → (k ≠ row_key (as_self a) ∨ granted = false) →
  f_active f !! k = Some at_ → shown (f_cache f) k ∨ (reserved !! k = Some at_ ∧ (Sub (f_now f) at_ < driftReservationTTL)%Z).
Proof.
  intros [_ _ Hc] [Hnd _ Ha Hsh] Hq Hk Hact. destruct (Hc k at_ Hact) as [?|[Hres Hf]]; [by left|].
  destruct (shown_dec (as_list a) k) as [Hs|Hs]; [left; apply Hsh; eauto|right]. split; [|done].
  destruct (Ha k at_ Hact) as (_ & [?|[_ Hlt]]); [done|]. apply acquire_spec in Hq as [_ Hkeep]; [|done]. rewrite Hkeep; [by apply expire_lookup|].
  destruct (decide (k = row_key (as_self a))) as [->|?]; [|by left]. destruct Hk as [?|?]; [done|by right].
Qed.

Lemma fleet_step_inv f f' : fleet_inv f → alone f → fleet_step false f f' → fleet_inv f' ∧ alone f'.
Proof.
  intros Hi [Hone Hask] Hs. pose proof Hi as [Hnd Hl Hc].
  destruct Hs as [f t Ht Hlag|f cache Hnd' Hfresh Hst|f self now Hov Hnow Hin Hns|f l1 a l2 reserved granted Hasks Hfr Ha|f l1 a l2 Hasks|f k|f cache active Hnd' Hsub Hsh].
  - split; [split; [done|done|]|split; [done|]].
    + cbn. intros k at_ Hk. destruct (Hc k at_ Hk) as [?|[? _]]; [by left|]. destruct (Hlag k at_ Hk); auto.
    + intros a Hin. by destruct (Hask a Hin).
  - split; [split; [done|by intros k Hk; apply Hfresh|]|split; [done|]].
    + cbn. intros k at_ Hk. destruct (Hc k at_ Hk) as [?|?]; [left|by right]. apply (Hfresh k); [by eexists|done].
    + intros a Hin. destruct (Hask a Hin) as [A1 A2 A3 A4]. split; [done|by apply Hst|done|]. cbn. intros k Hk Hs. apply (Hfresh k Hk). by apply A4.
  - destruct Hov as [?|Hnone]; [done|]. split; [by split|]. rewrite Hnone. split; [done|]. intros a Hin'. cbn in Hin'.
    apply list_elem_of_singleton in Hin' as ->. split; cbn; [done|done| |done]. intros k at_ Hk. split; [apply Hl; eauto|].
    destruct (Hc k at_ Hk) as [?|[? Hlt]]; [by left|right]. split; [done|]. pose proof (Sub_clock now (f_now f) at_ Hnow). lia.
  - rewrite Hasks in Hone, Hask. assert (l1 = [] ∧ l2 = []) as [-> ->] by (destruct l1, l2; cbn in Hone; try rewrite length_app in Hone; cbn in Hone; try done; lia).
    pose proof (Hask a ltac:(by left)) as Hai. split; [|by split; [cbn; lia|intros ? ?%not_elem_of_nil]]. split; cbn; [done| |].
    + intros k. destruct granted; [|apply Hl]. destruct (decide (k = row_key (as_self a))) as [->|Hk]; [intros _; apply Hai|]. rewrite lookup_insert_ne by done. apply Hl.
    + intros k at_. destruct granted; [|intros Hact; eapply lock_counted; eauto]. destruct (decide (k = row_key (as_self a))) as [->|Hk].
      * rewrite lookup_insert_eq. intros [= <-]. right. split; [|done]. apply acquire_spec in Ha as [H _]; [|apply Hai]. by apply H.
      * rewrite lookup_insert_ne by done. intros Hact. eapply lock_counted; eauto.
  - rewrite Hasks in Hone, Hask. split; [by split|]. split; cbn; [rewrite length_app in *; cbn in Hone; lia|]. intros b Hb. destruct (Hask b ltac:(set_solver)). by split.
  - split; [split; cbn; [done| |]; intros x|split; [done|]].
    + intros [at_ H]. apply lookup_delete_Some in H as [_ H]. apply Hl. eauto.
    + intros at_ H. apply lookup_delete_Some in H as [_ H]. by apply Hc.
    + intros a Hin. destruct (Hask a Hin) as [A1 A2 A3 A4]. split; cbn; [done|done| |].
      * intros x at_ H. apply lookup_delete_Some in H as [_ H]. by apply A3.
      * intros x [at_ H]. apply lookup_delete_Some in H as [_ H]. apply A4. eauto.
  - split; [|by split; [cbn; lia|intros ? ?%not_elem_of_nil]]. split; cbn; [done| |]; intros k.
    + intros H. by apply shown_listed, Hsh.
    + intros at_ H. left. apply Hsh. eauto.
Qed.

Lemma fleet_run_inv f f' : fleet_inv f → alone f → fleet_run false f f' → fleet_inv f' ∧ alone f'.
Proof. intros Hi Ha Hr. induction Hr as [|f' f'' _ [IH1 IH2] Hs]; [done|]. by apply (fleet_step_inv f'). Qed.

Lemma size_of_list (l : list agent_key) : (size (list_to_set (C := gset agent_key) l) <= length l)%nat.
Proof.
  induction l as [|x l IH]; [done|]. cbn [list_to_set length]. rewrite size_union_alt, size_singleton.
  pose proof (subseteq_size (list_to_set l ∖ {[x]}) (list_to_set (C := gset agent_key) l)). set_solver by lia.
Qed.

(** Others being replaced are among those counted. *)
Lemma active_counted f a : ask_inv f a →
  (size (delete (row_key (as_self a)) (f_active f))
   <= length (List.filter (holds_slot (expire (as_now a) (f_reserved f)) (row_key (as_self a))) (as_list a)))%nat.
Proof.
  intros [Hnd _ Hc _]. rewrite <- (length_map row_key). rewrite <- size_dom. set (self := row_key (as_self a)).
  transitivity (size (list_to_set (C := gset agent_key) (map row_key (List.filter (holds_slot (expire (as_now a) (f_reserved f)) self) (as_list a))))).
  - apply subseteq_size. intros k [at_ Hk]%elem_of_dom. apply lookup_delete_Some in Hk as [Hne Hk].
    apply elem_of_list_to_set. destruct (Hc _ _ Hk) as [(r & -> & Hr)%list_elem_of_fmap Hcount].
    apply list_elem_of_fmap. exists r. split; [done|]. apply list_elem_of_In, List.filter_In. split; [by apply list_elem_of_In|].
    unfold holds_slot. rewrite bool_decide_false by done. cbn [negb andb]. destruct Hcount as [(r' & Hr' & E & Hrep)|[Hres Hlt]].
    + assert (r' = r) as ->; [|by rewrite Hrep]. apply list_elem_of_lookup in Hr as [i Hi], Hr' as [j Hj].
      assert (i = j) as ->; [|congruence]. eapply (NoDup_lookup (map row_key (as_list a))); [done| |]; rewrite list_lookup_fmap; [by rewrite Hi|rewrite Hj; cbn; by rewrite E].
    + rewrite (expire_lookup _ _ _ _ Hres Hlt). rewrite bool_decide_true by eauto. apply orb_true_r.
  - apply size_of_list.
Qed.

End slots.

Module DriftRun.
(** Counts stand for themselves and the default percentage rounds up. *)
#[local] Instance scaled : IntStr := {|
  GetScaledValue v total := match v with IntVal n => Some n | StrVal s => if (s =? "25%")%string then Some ((total + 3) / 4)%Z else None end |}.

Definition row (name : string) (phase : AgentPhase) : agent_row := mk_row ("team", name) "" phase.
Definition agents : list agent_row :=
  [row "a" AgentRunning; row "b" AgentRunning; row "c" AgentIdle; row "d" AgentRunning; row "e" AgentRunning].

Definition at_1000 : Time := (1000 * Second)%Z.
Definition quiet : fleet := mk_fleet at_1000 ∅ agents [] ∅.
(** Agent a holds a slot the cache does not show, and b has listed. *)
Definition busy : fleet :=
  mk_fleet at_1000 {[("team", "a") := at_1000]} agents [mk_ask (row "b" AgentRunning) at_1000 agents] {[("team", "a") := at_1000]}.

Lemma run_to limit overlap f f1 f2 f3 : fleet_run limit overlap f f1 → fleet_step limit overlap f1 f2 → f2 = f3 → fleet_run limit overlap f f3.
Proof. intros H1 H2 <-. by eapply run_step. Qed.

Lemma none_shown k : ¬ shown agents k.
Proof. intros (r & Hr & _ & E). repeat (apply elem_of_cons in Hr as [->|Hr]; [done|]). by apply not_elem_of_nil in Hr. Qed.


(** With a cap of one: a lists, b lists and is granted; c lists the cache that
    shows b being replaced, is refused and drops b's reservation; a, with its
    older list, is granted too. *)
Definition one : option IntOrString := Some (IntVal 1).
Definition trio : list agent_row := [row "a" AgentRunning; row "b" AgentRunning; row "c" AgentRunning].
Definition b_shown : list agent_row := [row "a" AgentRunning; mk_row ("team", "b") ReasonReplacing AgentRunning; row "c" AgentRunning].
Definition asks_of (names : list string) : list ask := map (λ n, mk_ask (row n AgentRunning) at_1000 trio) names.
Definition start : fleet := mk_fleet at_1000 ∅ trio [] ∅.
Definition both : fleet := mk_fleet at_1000 {[("team", "a") := at_1000]} b_shown [] {[("team", "a") := at_1000; ("team", "b") := at_1000]}.

Lemma shown_by_name agents k : shown agents k ↔ k ∈ map row_key (List.filter replacing agents).
Proof.
  split.
  - intros (r & Hr & <- & E). apply list_elem_of_fmap. exists r. split; [done|]. apply list_elem_of_In, List.filter_In. split; [by apply list_elem_of_In|done].
  - intros (r & -> & Hr)%list_elem_of_fmap. apply list_elem_of_In, List.filter_In in Hr as [Hr E]. exists r. split; [by apply list_elem_of_In|done].
Qed.

Ltac by_name := rewrite shown_by_name; vm_compute; set_solver.

Lemma overlapping_lists_exceed_cap :
  fleet_inv start ∧ fleet_run one true start both ∧ maxUnavailableOnDrift one 3 = 1%Z ∧ size (f_active both) = 2.
Proof.
  split; [split; [apply (bool_decide_eq_true_1 (NoDup (map row_key trio))); vm_compute; reflexivity|by intros k []|done]|].
  split; [|split; vm_compute; reflexivity].
  eapply run_to; [eapply run_step; [eapply run_step; [eapply run_step; [eapply run_step; [eapply run_step; [eapply run_step; [apply run_here|]|]|]|]|]|]| |].
  - apply (ListAgents one true start (row "a" AgentRunning) at_1000); [by left|apply Z.le_refl|by left|by_name].
  - apply (ListAgents one true _ (row "b" AgentRunning) at_1000); [by left|apply Z.le_refl|by right; left|by_name].
  - apply (Lock one true _ (asks_of ["a"]) (mk_ask (row "b" AgentRunning) at_1000 trio) [] {[("team", "b") := at_1000]} true); vm_compute; reflexivity.
  - apply (Refresh one true _ b_shown); [apply (bool_decide_eq_true_1 (NoDup (map row_key b_shown))); vm_compute; reflexivity| |].
    + intros k [x Hk]. cbn in Hk. assert (k = ("team", "b")) as -> by (apply lookup_insert_Some in Hk as [[<- _]|[_ Hk]]; [done|by rewrite lookup_empty in Hk]).
      split; [by right; left|]. intros _. by_name.
    + intros a Ha. cbn in Ha. apply list_elem_of_singleton in Ha as ->. by left.
  - apply (ListAgents one true _ (row "c" AgentRunning) at_1000); [by left|apply Z.le_refl|by right; right; left|by_name].
  - apply (Lock one true _ (asks_of ["a"]) (mk_ask (row "c" AgentRunning) at_1000 b_shown) [] ∅ false); vm_compute; reflexivity.
  - apply (Lock one true _ [] (mk_ask (row "a" AgentRunning) at_1000 trio) [] {[("team", "a") := at_1000]} true); vm_compute; reflexivity.
  - vm_compute. reflexivity.
Qed.
End DriftRun.
