(* ===== verification/TaskData.v ===== *)
(** AgentTasks as data: api/v1beta1/agenttask_types.go, and what
    internal/controller/agenttask_desired.go derives from a task and its
    class (timeout, TTL, class bounds, the completion mailbox's layout).

    Then the completion endpoint of internal/gateway/completion.go and the mailbox
    entries it writes. *)

From stdpp Require Import base gmap sets list strings option.
From Stdlib Require Import ZArith Lia Ascii.
From S2P Require Import Prelude GoFloat GoTime Json JsonString ProblemList Conditions BudgetPeriod.

(** ** Data *)

Inductive AgentTaskPhase :=
  | TaskNone | TaskPending | TaskProvisioning | TaskRunning | TaskCompleting
  | TaskSucceeded | TaskFailed | TaskTimedOut | TaskTerminating.

#[global] Instance phase_eq_dec : EqDecision AgentTaskPhase.
Proof. solve_decision. Defined.

Record AgentTaskClassBounds := mk_bounds {
  DefaultTaskTimeout : Duration;
  MaxTaskTimeout : Duration;
  DefaultTTLSecondsAfterFinished : option Z;
  MaxTTLSecondsAfterFinished : option Z;
}.

#[global] Instance bounds_eq_dec : EqDecision AgentTaskClassBounds.
Proof. solve_decision. Defined.

Record AgentClassEgress := mk_egress { AllowedCIDRs : list string; AllowedHosts : list string }.

#[global] Instance egress_eq_dec : EqDecision AgentClassEgress.
Proof. solve_decision. Defined.

(** The fields of an AgentClass the AgentTask reconciler reads; the
    lifecycle block is its task fields. *)
Record TaskClass := mk_task_class {
  tc_Name : string;
  tc_AllowedNamespaces : list string;
  tc_AllowedImages : list string;
  DefaultImage : string;
  ImagePullSecrets : list string;
  tc_AllowedProviders : list string;
  tc_PersistenceEnabled : bool;
  Lifecycle : AgentTaskClassBounds;
  Egress : AgentClassEgress;
}.

Record AgentTaskCompletion := mk_completion {
  cp_Condition : string;
  Timeout : Duration;
  OnTimeout : string;
  BackoffLimit : Z;
}.

(** [Env] lists the variables with the Secret a secretKeyRef names. *)
Record AgentTaskSpec := mk_task_spec {
  ts_AgentClassRef : string;
  Image : string;
  Env : list (string * option string);
  ts_Providers : list string;
  PersistenceEnabled : bool;
  Completion : AgentTaskCompletion;
  Artifacts : list string;
  TTLSecondsAfterFinished : option Z;
}.

Definition completionExitCode : string := "exitCode".
Definition onTimeoutSucceed : string := "Succeed".

Section task_data.
Context {CD : Conditions}.

Record AgentTaskStatus := mk_task_status {
  ObservedGeneration : Z;
  Phase : AgentTaskPhase;
  ts_Conditions : conditions;
  StartTime : option Time;
  CompletionTime : option Time;
  PodName : string;
  CurrentPodUID : string;
  Retries : Z;
  ArtifactValues : gmap string string;
  AgentReportedStatus : string;
  AgentReportedMessage : string;
  ClassBounds : option AgentTaskClassBounds;
  ClassEgress : option AgentClassEgress;
  CreateRejectedTime : option Time;
}.

Definition set_ObservedGeneration (s : AgentTaskStatus) (v : Z) : AgentTaskStatus :=
  mk_task_status v (Phase s) (ts_Conditions s) (StartTime s) (CompletionTime s) (PodName s) (CurrentPodUID s) (Retries s)
    (ArtifactValues s) (AgentReportedStatus s) (AgentReportedMessage s) (ClassBounds s) (ClassEgress s) (CreateRejectedTime
    s).
Definition set_Phase (s : AgentTaskStatus) (v : AgentTaskPhase) : AgentTaskStatus :=
  mk_task_status (ObservedGeneration s) v (ts_Conditions s) (StartTime s) (CompletionTime s) (PodName s) (CurrentPodUID s)
    (Retries s) (ArtifactValues s) (AgentReportedStatus s) (AgentReportedMessage s) (ClassBounds s) (ClassEgress s)
    (CreateRejectedTime s).
Definition set_Conditions (s : AgentTaskStatus) (v : conditions) : AgentTaskStatus :=
  mk_task_status (ObservedGeneration s) (Phase s) v (StartTime s) (CompletionTime s) (PodName s) (CurrentPodUID s)
    (Retries s) (ArtifactValues s) (AgentReportedStatus s) (AgentReportedMessage s) (ClassBounds s) (ClassEgress s)
    (CreateRejectedTime s).
Definition set_StartTime (s : AgentTaskStatus) (v : option Time) : AgentTaskStatus :=
  mk_task_status (ObservedGeneration s) (Phase s) (ts_Conditions s) v (CompletionTime s) (PodName s) (CurrentPodUID s)
    (Retries s) (ArtifactValues s) (AgentReportedStatus s) (AgentReportedMessage s) (ClassBounds s) (ClassEgress s)
    (CreateRejectedTime s).
Definition set_CompletionTime (s : AgentTaskStatus) (v : option Time) : AgentTaskStatus :=
  mk_task_status (ObservedGeneration s) (Phase s) (ts_Conditions s) (StartTime s) v (PodName s) (CurrentPodUID s) (Retries
    s) (ArtifactValues s) (AgentReportedStatus s) (AgentReportedMessage s) (ClassBounds s) (ClassEgress s)
    (CreateRejectedTime s).
Definition set_PodName (s : AgentTaskStatus) (v : string) : AgentTaskStatus :=
  mk_task_status (ObservedGeneration s) (Phase s) (ts_Conditions s) (StartTime s) (CompletionTime s) v (CurrentPodUID s)
    (Retries s) (ArtifactValues s) (AgentReportedStatus s) (AgentReportedMessage s) (ClassBounds s) (ClassEgress s)
    (CreateRejectedTime s).
Definition set_CurrentPodUID (s : AgentTaskStatus) (v : string) : AgentTaskStatus :=
  mk_task_status (ObservedGeneration s) (Phase s) (ts_Conditions s) (StartTime s) (CompletionTime s) (PodName s) v
    (Retries s) (ArtifactValues s) (AgentReportedStatus s) (AgentReportedMessage s) (ClassBounds s) (ClassEgress s)
    (CreateRejectedTime s).
Definition set_Retries (s : AgentTaskStatus) (v : Z) : AgentTaskStatus :=
  mk_task_status (ObservedGeneration s) (Phase s) (ts_Conditions s) (StartTime s) (CompletionTime s) (PodName s)
    (CurrentPodUID s) v (ArtifactValues s) (AgentReportedStatus s) (AgentReportedMessage s) (ClassBounds s) (ClassEgress s)
    (CreateRejectedTime s).
Definition set_ArtifactValues (s : AgentTaskStatus) (v : gmap string string) : AgentTaskStatus :=
  mk_task_status (ObservedGeneration s) (Phase s) (ts_Conditions s) (StartTime s) (CompletionTime s) (PodName s)
    (CurrentPodUID s) (Retries s) v (AgentReportedStatus s) (AgentReportedMessage s) (ClassBounds s) (ClassEgress s)
    (CreateRejectedTime s).
Definition set_AgentReportedStatus (s : AgentTaskStatus) (v : string) : AgentTaskStatus :=
  mk_task_status (ObservedGeneration s) (Phase s) (ts_Conditions s) (StartTime s) (CompletionTime s) (PodName s)
    (CurrentPodUID s) (Retries s) (ArtifactValues s) v (AgentReportedMessage s) (ClassBounds s) (ClassEgress s)
    (CreateRejectedTime s).
Definition set_AgentReportedMessage (s : AgentTaskStatus) (v : string) : AgentTaskStatus :=
  mk_task_status (ObservedGeneration s) (Phase s) (ts_Conditions s) (StartTime s) (CompletionTime s) (PodName s)
    (CurrentPodUID s) (Retries s) (ArtifactValues s) (AgentReportedStatus s) v (ClassBounds s) (ClassEgress s)
    (CreateRejectedTime s).
Definition set_ClassBounds (s : AgentTaskStatus) (v : option AgentTaskClassBounds) : AgentTaskStatus :=
  mk_task_status (ObservedGeneration s) (Phase s) (ts_Conditions s) (StartTime s) (CompletionTime s) (PodName s)
    (CurrentPodUID s) (Retries s) (ArtifactValues s) (AgentReportedStatus s) (AgentReportedMessage s) v (ClassEgress s)
    (CreateRejectedTime s).
Definition set_ClassEgress (s : AgentTaskStatus) (v : option AgentClassEgress) : AgentTaskStatus :=
  mk_task_status (ObservedGeneration s) (Phase s) (ts_Conditions s) (StartTime s) (CompletionTime s) (PodName s)
    (CurrentPodUID s) (Retries s) (ArtifactValues s) (AgentReportedStatus s) (AgentReportedMessage s) (ClassBounds s) v
    (CreateRejectedTime s).
Definition set_CreateRejectedTime (s : AgentTaskStatus) (v : option Time) : AgentTaskStatus :=
  mk_task_status (ObservedGeneration s) (Phase s) (ts_Conditions s) (StartTime s) (CompletionTime s) (PodName s)
    (CurrentPodUID s) (Retries s) (ArtifactValues s) (AgentReportedStatus s) (AgentReportedMessage s) (ClassBounds s)
    (ClassEgress s) v.

#[global] Instance task_status_eq_dec `{!EqDecision conditions} : EqDecision AgentTaskStatus.
Proof. solve_decision. Defined.

(** An AgentTask; [resourceVersion] orders its stored versions. *)
Record AgentTask := mk_task {
  t_Namespace : string;
  t_Name : string;
  t_UID : string;
  Generation : Z;
  resourceVersion : nat;
  Deleting : bool;
  Finalizer : bool;
  t_Spec : AgentTaskSpec;
  t_Status : AgentTaskStatus;
}.

Definition with_task_status (t : AgentTask) (s : AgentTaskStatus) : AgentTask :=
  mk_task (t_Namespace t) (t_Name t) (t_UID t) (Generation t) (resourceVersion t) (Deleting t) (Finalizer t) (t_Spec t) s.
Definition with_finalizer (t : AgentTask) (b : bool) : AgentTask :=
  mk_task (t_Namespace t) (t_Name t) (t_UID t) (Generation t) (resourceVersion t) (Deleting t) b (t_Spec t) (t_Status t).
Definition with_version (t : AgentTask) (v : nat) : AgentTask :=
  mk_task (t_Namespace t) (t_Name t) (t_UID t) (Generation t) v (Deleting t) (Finalizer t) (t_Spec t) (t_Status t).

(** ** What is derived from a task *)

Definition isAgentReported (t : AgentTask) : bool := negb (cp_Condition (Completion (t_Spec t)) =? completionExitCode)%string.

Definition classTaskBounds (c : TaskClass) : AgentTaskClassBounds := Lifecycle c.
Definition classTaskEgress (c : TaskClass) : AgentClassEgress := Egress c.

Definition pickDuration (v def max : Duration) : Duration :=
  let v := if (v =? 0)%Z then def else v in
  if (0 <? max)%Z && (max <? v)%Z then max else v.

Definition pickSeconds (v def max : option Z) : option Z :=
  match (match v with Some _ => v | None => def end) with
  | None => None
  | Some out => Some (match max with Some m => if (m <? out)%Z then m else out | None => out end)
  end.

Definition no_bounds : AgentTaskClassBounds := mk_bounds 0%Z 0%Z None None.

Definition effectiveTaskTimeout (t : AgentTask) (b : option AgentTaskClassBounds) : Duration :=
  let b := default no_bounds b in
  pickDuration (Timeout (Completion (t_Spec t))) (DefaultTaskTimeout b) (MaxTaskTimeout b).

Definition effectiveTaskTTL (t : AgentTask) (b : option AgentTaskClassBounds) : option Z :=
  let b := default no_bounds b in
  pickSeconds (TTLSecondsAfterFinished (t_Spec t)) (DefaultTTLSecondsAfterFinished b) (MaxTTLSecondsAfterFinished b).

Definition taskTimeout (t : AgentTask) : Duration := effectiveTaskTimeout t (ClassBounds (t_Status t)).
Definition taskTTL (t : AgentTask) : option Z := effectiveTaskTTL t (ClassBounds (t_Status t)).

Definition timedOut (now : Time) (t : AgentTask) : bool :=
  let d := taskTimeout t in
  (0 <? d)%Z && match StartTime (t_Status t) with Some st => (d <? Sub now st)%Z | None => false end.

Definition isTerminalTaskPhase (p : AgentTaskPhase) : bool :=
  match p with TaskSucceeded | TaskFailed | TaskTimedOut | TaskTerminating => true | _ => false end.

(** What a status write stores of its times. *)
Definition stored_status (s : AgentTaskStatus) : AgentTaskStatus :=
  set_CreateRejectedTime (set_CompletionTime (set_StartTime s (stored_time <$> StartTime s))
    (stored_time <$> CompletionTime s)) (stored_time <$> CreateRejectedTime s).

End task_data.

(** ** Durations as text ([time.Duration.String]) *)

Fixpoint trim_zeros (b : bytes) : bytes :=
  match b with
  | [] => []
  | c :: b =>
      match trim_zeros b with
      | [] => if ascii_dec c "0" then [] else [c]
      | r => c :: r
      end
  end.

(** [fmtFrac] on the last [prec] digits of [u], and the rest of it. *)
Definition fmt_frac (u : Z) (prec : nat) : string * Z :=
  let e := (10 ^ Z.of_nat prec)%Z in
  let digits := trim_zeros (bs (zpad prec (u mod e))) in
  (match digits with [] => "" | _ => String "." (str digits) end, (u / e)%Z).

Definition fmt_int (u : Z) : string := print_N (Z.to_N u).

Definition DurationString (d : Duration) : string :=
  let u := Z.abs d in
  let body :=
    if (u =? 0)%Z then "0s"
    else if (u <? 1000)%Z then fmt_int u +:+ "ns"
    else if (u <? Millisecond)%Z then let '(f, n) := fmt_frac u 3 in fmt_int n +:+ f +:+ String "194" (String "181" "s")
    else if (u <? Second)%Z then let '(f, n) := fmt_frac u 6 in fmt_int n +:+ f +:+ "ms"
    else
      let '(f, n) := fmt_frac u 9 in
      let secs := fmt_int (n mod 60) +:+ f +:+ "s" in
      let n := (n / 60)%Z in
      if (n =? 0)%Z then secs
      else
        let mins := fmt_int (n mod 60) +:+ "m" +:+ secs in
        let n := (n / 60)%Z in
        if (n =? 0)%Z then mins else fmt_int n +:+ "h" +:+ mins in
  if (d <? 0)%Z then "-" +:+ body else body.

Example duration_five_minutes : DurationString (5 * Minute)%Z = "5m0s".
Proof. vm_compute. reflexivity. Qed.
Example duration_fraction : DurationString (90 * Minute + 1500 * Millisecond)%Z = "1h30m1.5s".
Proof. vm_compute. reflexivity. Qed.

(** The completion mailbox of an AgentTask: POST /v1/task/complete
    (internal/gateway/completion.go), the merge patch that fills the mailbox
    (KubeCompletionWriter of internal/gateway/async.go), and how the
    AgentTask reconciler reads it (agenttask_desired.go).

    The theorem: what the endpoint stores in an empty mailbox reads back as
    the request, and passes the reconciler's own check of the artifact names,
    whatever the order in which maps are ranged. *)

From S2P Require Import JsonValue RequestBody UsageReader JsonDecode Auth Activity.

Definition CompletionKeyStatus : string := "status".
Definition CompletionKeyMessage : string := "message".
Definition CompletionArtifactPrefix : string := "artifact.".
Definition CompletionStatusSuccess : string := "success".
Definition CompletionStatusFailure : string := "failure".
Definition maxArtifactBytes : nat := Z.to_nat 4096.
Definition maxArtifactTotalBytes : nat := Z.to_nat 32768.
Definition maxCompletionBodyBytes : nat := Z.to_nat 1048576.
Definition errStalePod : string := "stale_pod".
Definition errRequestTooLarge : string := "request_too_large".

Record taskCompleteRequest := mk_complete {
  tr_Status : string;
  tr_Message : string;
  tr_Artifacts : gmap string string;
}.

(** ** The body *)

Definition decode_text (old : string) (c : cst) : option string :=
  match decode 1 TString (GStr old) c with (GStr s, false) => Some s | _ => None end.

(** A [map[string]string]: a null value is the zero string. *)
Fixpoint decode_artifacts (m : gmap string string) (ms : list (bytes * cst)) : option (gmap string string) :=
  match ms with
  | [] => Some m
  | (name, c) :: ms => match decode_text "" c with Some v => decode_artifacts (<[str name := v]> m) ms | None => None end
  end.

Definition completion_fields : list (string * gty) := [("status", TString); ("message", TString); ("artifacts", TMap)].

Definition decode_field (r : taskCompleteRequest) (i : nat) (c : cst) : option taskCompleteRequest :=
  match i with
  | 0 => (λ s, mk_complete s (tr_Message r) (tr_Artifacts r)) <$> decode_text (tr_Status r) c
  | 1 => (λ s, mk_complete (tr_Status r) s (tr_Artifacts r)) <$> decode_text (tr_Message r) c
  | _ => mk_complete (tr_Status r) (tr_Message r) <$>
           if is_null c then Some ∅
           else match object_members c with
                | Some ms => decode_artifacts (tr_Artifacts r) (map (λ m, (mb_key m, mb_value m)) ms)
                | None => None
                end
  end.

Fixpoint decode_request (r : taskCompleteRequest) (ms : list (bytes * cst)) : option taskCompleteRequest :=
  match ms with
  | [] => Some r
  | (name, c) :: ms =>
      match field_index completion_fields name with
      | None => decode_request r ms
      | Some i => match decode_field r i c with Some r => decode_request r ms | None => None end
      end
  end.

(** [json.Unmarshal] into the request; [None] is an error. *)
Definition unmarshal_request (b : bytes) : option taskCompleteRequest :=
  match parse b with
  | None => None
  | Some (_, c, _) =>
      if is_null c then Some (mk_complete "" "" ∅)
      else match object_members c with
           | Some ms => decode_request (mk_complete "" "" ∅) (map (λ m, (mb_key m, mb_value m)) ms)
           | None => None
           end
  end.

(** ** The endpoint *)

Inductive body_read := BodyTooLarge | BodyFailed (err : string) | BodyRead (b : bytes).

(** [io.ReadAll] of a [MaxBytesReader]. *)
Definition read_body (sent : bytes + string) : body_read :=
  match sent with
  | inl b => if (maxCompletionBodyBytes <? length b)%nat then BodyTooLarge else BodyRead b
  | inr err => BodyFailed err
  end.

Section completion.
Context {MR : MapRange} {U : Unicode}.

Definition ValidateCompletionArtifacts (status : string) (artifacts : gmap string string) (declared : list string) : string :=
  let names : gset string := list_to_set declared in
  match List.find (λ kv, negb (bool_decide (kv.1 ∈ names))) (range artifacts) with
  | Some (k, _) => "undeclared artifact in payload: " +:+ k
  | None =>
      if (status =? CompletionStatusSuccess)%string then
        match List.find (λ a, bool_decide (artifacts !! a = None)) declared with
        | Some a => "missing declared artifact: " +:+ a
        | None => ""
        end
      else ""
  end.

Section task_checks.
Context {CD : Conditions}.

(** The checks before the body is read.  [pod] and [live] are the UIDs of
    the Pod the informer and the API server know at the caller's address. *)
Definition completion_checks (method : string) (task : option AgentTask) (disableSourceIP : bool) (pod live : option string)
  : option error_response :=
  if negb (method =? "POST")%string then Some (methodNotAllowed "POST")
  else
    match task with
    | None => Some (forbidden errAccessDenied "NotAgentTaskPod: no AgentTask backs this caller")
    | Some task =>
        if (cp_Condition (Completion (t_Spec task)) =? "exitCode")%string then
          Some (writeError 403 (mk_error errAccessDenied "TaskNotAgentReported: this task completes via container exit" "" false) 0)
        else
          match Phase (t_Status task) with
          | TaskSucceeded | TaskFailed | TaskTimedOut =>
              Some (writeError 403 (mk_error errAccessDenied "TaskAlreadyCompleted: the task has reached a terminal phase" "" false) 0)
          | _ =>
              if disableSourceIP then None
              else
                let stale := Some (writeError 409 (mk_error errStalePod
                  "StalePodCompletion: the calling Pod is not the task's current Pod" "" true) 0) in
                match (match pod with Some _ => pod | None => live end) with
                | None => stale
                | Some uid =>
                    if (CurrentPodUID (t_Status task) =? "")%string || negb (uid =? CurrentPodUID (t_Status task))%string
                    then stale else None
                end
          end
    end.
End task_checks.

Definition completion_data (req : taskCompleteRequest) : gmap string string :=
  let data := {[ CompletionKeyStatus := tr_Status req ]} in
  let data := if (tr_Message req =? "")%string then data else <[CompletionKeyMessage := tr_Message req]> data in
  foldl (λ data kv, <[CompletionArtifactPrefix +:+ kv.1 := kv.2]> data) data (range (tr_Artifacts req)).

(** The checks of the request; its mailbox data when it passes. *)
Definition completion_payload (declared : list string) (body : body_read) : error_response + gmap string string :=
  match body with
  | BodyTooLarge =>
      inl (writeError 413 (mk_error errRequestTooLarge
        ("request body exceeds " +:+ print_N (N.of_nat maxCompletionBodyBytes) +:+ " bytes") "" false) 0)
  | BodyFailed err => inl (badRequest ("reading request body: " +:+ err))
  | BodyRead b =>
      match unmarshal_request b with
      | None => inl (badRequest "request body is not valid JSON")
      | Some req =>
          if negb (tr_Status req =? CompletionStatusSuccess)%string && negb (tr_Status req =? CompletionStatusFailure)%string then
            inl (badRequest ("status must be " +:+ Quote "success" +:+ " or " +:+ Quote "failure"))
          else
            let msg := ValidateCompletionArtifacts (tr_Status req) (tr_Artifacts req) declared in
            if negb (msg =? "")%string then inl (badRequest msg)
            else
              match List.find (λ kv, (maxArtifactBytes <? String.length kv.2)%nat) (range (tr_Artifacts req)) with
              | Some (k, _) =>
                  inl (writeError 413 (mk_error errRequestTooLarge
                    ("artifact " +:+ str (QuoteText (bs k)) +:+ " exceeds " +:+ print_N (N.of_nat maxArtifactBytes)
                     +:+ " bytes; externalize and reference by URL") "" false) 0)
              | None =>
                  let total := foldl (λ n kv, n + String.length kv.2)%nat (String.length (tr_Message req)) (range (tr_Artifacts req)) in
                  if (maxArtifactTotalBytes <? total)%nat then
                    inl (writeError 413 (mk_error errRequestTooLarge
                      ("combined artifact payload exceeds " +:+ print_N (N.of_nat maxArtifactTotalBytes) +:+ " bytes") "" false) 0)
                  else inr (completion_data req)
              end
      end
  end.

(** A merge patch of the mailbox: the given keys are set, the others stay. *)
Definition PatchMailbox (mailbox data : gmap string string) : gmap string string := data ∪ mailbox.

(** ** Reading the mailbox *)

Record completionPayload := mk_payload { pl_Status : string; pl_Message : string; pl_Artifacts : gmap string string }.

Definition parseCompletion (data : gmap string string) : completionPayload :=
  mk_payload (default "" (data !! CompletionKeyStatus)) (default "" (data !! CompletionKeyMessage))
    (foldl (λ arts kv, match CutPrefix kv.1 CompletionArtifactPrefix with Some name => <[name := kv.2]> arts | None => arts end)
      ∅ (range data)).

Definition validateArtifactNames (p : completionPayload) (declared : list string) : string :=
  let names : gset string := list_to_set declared in
  match List.find (λ kv, negb (bool_decide (kv.1 ∈ names))) (range (pl_Artifacts p)) with
  | Some (k, _) => "undeclared artifact in payload: " +:+ str (quotedEntry (bs k))
  | None =>
      if (pl_Status p =? CompletionStatusSuccess)%string then
        match List.find (λ a, bool_decide (pl_Artifacts p !! a = None)) declared with
        | Some a => "missing declared artifact: " +:+ str (quotedEntry (bs a))
        | None => ""
        end
      else ""
  end.

(** The whole request against a mailbox: the mailbox after it and the answer
    when it is not 200. *)
Definition handleTaskComplete {CD : Conditions} (method : string) (task : option AgentTask) (disableSourceIP : bool)
    (pod live : option string) (sent : bytes + string) (patch_ok : bool) (mailbox : gmap string string)
  : gmap string string * option error_response :=
  match completion_checks method task disableSourceIP pod live, task with
  | Some e, _ => (mailbox, Some e)
  | None, None => (mailbox, None)
  | None, Some t =>
      match completion_payload (Artifacts (t_Spec t)) (read_body sent) with
      | inl e => (mailbox, Some e)
      | inr data =>
          if patch_ok then (PatchMailbox mailbox data, None)
          else (mailbox, Some (writeError 503 (mk_error errInternalUnavailable "patching the completion ConfigMap failed" "" true) 1))
      end
  end.
End completion.

(** ** Facts *)

(** A loop over a map that stores under new keys: distinct keys stay
    distinct, so the order does not matter. *)
Section renaming.
Context (f : string → option string).

Definition rename_into (m : gmap string string) (l : list (string * string)) : gmap string string :=
  foldl (λ m kv, match f kv.1 with Some n => <[n := kv.2]> m | None => m end) m l.

Lemma rename_other l m n :
  (∀ k v, (k, v) ∈ l → f k ≠ Some n) → rename_into m l !! n = m !! n.
Proof.
  revert m. induction l as [|[k v] l IH]; intros m H; [done|]. simpl. rewrite IH by (intros; eapply H; by right).
  specialize (H k v (list_elem_of_here _ _)). destruct (f k) as [n'|]; [|done].
  apply lookup_insert_ne. congruence.
Qed.

Lemma rename_hit l m n k v :
  NoDup l.*1 → (∀ k', f k' = Some n → k' = k) → (k, v) ∈ l → f k = Some n → rename_into m l !! n = Some v.
Proof.
  intros Hnd Hinj. revert m. induction l as [|[k1 v1] l IH]; intros m Hin Hk; [by apply elem_of_nil in Hin|].
  apply list.NoDup_cons in Hnd as [Hk1 Hnd]. apply elem_of_cons in Hin as [[= <- <-]|Hin].
  - change (rename_into m ((k, v) :: l)) with (rename_into (match f k with Some n => <[n := v]> m | None => m end) l).
    rewrite Hk, rename_other; [by rewrite lookup_insert_eq|].
    intros k' v' Hk' Hf. apply Hinj in Hf as ->. apply Hk1, list_elem_of_fmap. by exists (k, v').
  - by apply IH.
Qed.
End renaming.

Section facts.
Context {MR : MapRange} {U : Unicode}.

Definition prefixed (k : string) : option string := Some (CompletionArtifactPrefix +:+ k).

Lemma completion_data_artifact req name : completion_data req !! (CompletionArtifactPrefix +:+ name) = tr_Artifacts req !! name.
Proof.
  unfold completion_data. change (foldl _ ?m ?l) with (rename_into prefixed m l).
  destruct (tr_Artifacts req !! name) as [v|] eqn:E.
  - eapply rename_hit; [apply NoDup_range| |by apply elem_of_range|done].
    unfold prefixed. intros k' [= H]. by simplify_eq.
  - rewrite rename_other.
    + by case_match; rewrite ?lookup_insert_ne, lookup_singleton_ne.
    + intros k v Hin [= H]. simplify_eq. apply elem_of_range in Hin. congruence.
Qed.

Lemma completion_data_other req k :
  CutPrefix k CompletionArtifactPrefix = None →
  completion_data req !! k =
    (if (tr_Message req =? "")%string then {[ CompletionKeyStatus := tr_Status req ]}
     else <[CompletionKeyMessage := tr_Message req]> {[ CompletionKeyStatus := tr_Status req ]} : gmap string string) !! k.
Proof.
  intros Hk. unfold completion_data. change (foldl _ ?m ?l) with (rename_into prefixed m l). apply rename_other.
  intros k' v _ [= <-]. pose proof (CutPrefix_app CompletionArtifactPrefix k') as E. unfold CompletionArtifactPrefix in *.
  congruence.
Qed.

Lemma parse_artifact data name : pl_Artifacts (parseCompletion data) !! name = data !! (CompletionArtifactPrefix +:+ name).
Proof.
  simpl. change (foldl _ ∅ (range data)) with (rename_into (λ k, CutPrefix k CompletionArtifactPrefix) ∅ (range data)).
  destruct (data !! (CompletionArtifactPrefix +:+ name)) as [v|] eqn:E.
  - eapply rename_hit; [apply NoDup_range|by intros k' H; apply CutPrefix_Some in H|by apply elem_of_range|apply CutPrefix_app].
  - rewrite rename_other; [apply lookup_empty|]. intros k v Hin Hk. apply CutPrefix_Some in Hk. subst k.
    apply elem_of_range in Hin. congruence.
Qed.

(** The rule both sides apply to the artifact names. *)
Definition names_fit (status : string) (artifacts : gmap string string) (declared : list string) : Prop :=
  (∀ k, is_Some (artifacts !! k) → k ∈ declared) ∧
  (status = CompletionStatusSuccess → ∀ a, a ∈ declared → is_Some (artifacts !! a)).

Lemma find_undeclared (artifacts : gmap string string) (declared : list string) :
  List.find (λ kv, negb (bool_decide (kv.1 ∈ (list_to_set declared : gset string)))) (range artifacts) = None ↔
  (∀ k, is_Some (artifacts !! k) → k ∈ declared).
Proof.
  split.
  - intros H k [v Hv]. apply elem_of_range, list_elem_of_In in Hv. apply (find_none _ _ H) in Hv.
    apply negb_false_iff, bool_decide_eq_true in Hv. simpl in Hv. by apply elem_of_list_to_set in Hv.
  - intros H. destruct (List.find _ _) as [[k v]|] eqn:E; [|done]. apply find_some in E as [E1 E2].
    apply list_elem_of_In, elem_of_range in E1. apply negb_true_iff, bool_decide_eq_false in E2. destruct E2.
    apply elem_of_list_to_set, H. by exists v.
Qed.

Lemma find_missing (artifacts : gmap string string) declared :
  List.find (λ a, bool_decide (artifacts !! a = None)) declared = None ↔ (∀ a, a ∈ declared → is_Some (artifacts !! a)).
Proof.
  split.
  - intros H a Ha. apply list_elem_of_In in Ha. apply (find_none _ _ H) in Ha. apply bool_decide_eq_false in Ha.
    by destruct (artifacts !! a); [eexists|].
  - intros H. destruct (List.find _ _) as [a|] eqn:E; [|done]. apply find_some in E as [E1 E2].
    apply bool_decide_eq_true in E2. apply list_elem_of_In, H in E1 as [v E1]. congruence.
Qed.

Lemma gateway_rule status artifacts declared :
  ValidateCompletionArtifacts status artifacts declared = "" ↔ names_fit status artifacts declared.
Proof.
  unfold ValidateCompletionArtifacts, names_fit. rewrite <-find_undeclared, <-find_missing.
  destruct (List.find _ (range artifacts)) as [[k v]|]; [split; [done|by intros []]|].
  destruct (String.eqb_spec status CompletionStatusSuccess); [|naive_solver].
  destruct (List.find _ declared); split; try done. intros [_ H]. by specialize (H e).
Qed.

Lemma controller_rule p declared :
  validateArtifactNames p declared = "" ↔ names_fit (pl_Status p) (pl_Artifacts p) declared.
Proof.
  unfold validateArtifactNames, names_fit. rewrite <-find_undeclared, <-find_missing.
  destruct (List.find _ (range (pl_Artifacts p))) as [[k v]|]; [split; [done|by intros []]|].
  destruct (String.eqb_spec (pl_Status p) CompletionStatusSuccess); [|naive_solver].
  destruct (List.find _ declared); split; try done. intros [_ H]. by specialize (H e).
Qed.

(** What the endpoint accepts. *)
Definition acceptable (declared : list string) (req : taskCompleteRequest) : Prop :=
  (tr_Status req = CompletionStatusSuccess ∨ tr_Status req = CompletionStatusFailure) ∧
  names_fit (tr_Status req) (tr_Artifacts req) declared ∧
  (∀ k v, tr_Artifacts req !! k = Some v → String.length v ≤ maxArtifactBytes) ∧
  foldl (λ n kv, n + String.length kv.2) (String.length (tr_Message req)) (range (tr_Artifacts req)) ≤ maxArtifactTotalBytes.

Lemma completion_payload_inv declared body data :
  completion_payload declared body = inr data →
  ∃ b req, body = BodyRead b ∧ unmarshal_request b = Some req ∧ acceptable declared req ∧ data = completion_data req.
Proof.
  unfold completion_payload. intros H. destruct body as [| |b]; [done..|]. destruct (unmarshal_request b) as [req|] eqn:Eu; [|done].
  destruct (negb _ && negb _) eqn:Es; [done|]. destruct (negb (ValidateCompletionArtifacts _ _ _ =? "")%string) eqn:Ev; [done|].
  apply negb_false_iff, String.eqb_eq, gateway_rule in Ev.
  destruct (List.find _ (range (tr_Artifacts req))) as [[k v]|] eqn:Ef; [done|].
  destruct (_ <? _) eqn:Et; [done|]. injection H as <-. exists b, req. split_and!; [done..| |done]. unfold acceptable.
  split_and!; [|done| |by apply Nat.ltb_ge in Et].
  - apply andb_false_iff in Es as [Es|Es]; apply negb_false_iff, String.eqb_eq in Es; auto.
  - intros k v Hk. apply elem_of_range, list_elem_of_In in Hk. apply (find_none _ _ Ef) in Hk. by apply Nat.ltb_ge in Hk.
Qed.
End facts.

(** A completion the endpoint accepts, in an empty mailbox, reads back in
    the reconciler as the request that was sent: its status (never empty),
    message and artifacts, and the reconciler's own check of the artifact
    names passes.  The gateway and the controller may range over maps in
    different orders. *)
Theorem mailbox_round_trip {U : Unicode} (gw ctl : MapRange) declared body data :
  completion_payload (MR := gw) declared body = inr data →
  ∃ b req, body = BodyRead b ∧ unmarshal_request b = Some req ∧ acceptable (MR := gw) declared req ∧
    let p := parseCompletion (MR := ctl) (PatchMailbox ∅ data) in
    p = mk_payload (tr_Status req) (tr_Message req) (tr_Artifacts req) ∧ pl_Status p ≠ "" ∧
    validateArtifactNames (MR := ctl) p declared = "".
Proof.
  intros (b & req & -> & Hu & Ha & ->)%completion_payload_inv. exists b, req. split_and!; [done..|].
  unfold PatchMailbox. rewrite (right_id_L ∅ (∪)).
  assert (E : parseCompletion (MR := ctl) (completion_data (MR := gw) req) = mk_payload (tr_Status req) (tr_Message req) (tr_Artifacts req)).
  { pose proof (parse_artifact (completion_data (MR := gw) req)) as Hp. destruct (parseCompletion (completion_data req)) as [st ms ar] eqn:Ep.
    unfold parseCompletion in Ep. injection Ep as Est Ems Ear. f_equal.
    - rewrite <-Est, completion_data_other by done. destruct (_ =? "")%string; [|rewrite lookup_insert_ne by done];
        by rewrite lookup_singleton_eq.
    - rewrite <-Ems, completion_data_other by done. destruct (String.eqb_spec (tr_Message req) "") as [->|_];
        [by rewrite lookup_singleton_ne|by rewrite lookup_insert_eq].
    - apply map_eq. intros name. simpl in Hp. by rewrite Hp, completion_data_artifact. }
  cbv zeta. rewrite E. split_and!; [done|by destruct Ha as [[-> | ->] _]|]. apply controller_rule, Ha.
Qed.

Definition done_body : bytes := bs "{'status':'success','message':'ok','artifacts':{'url':'x'}}".
Definition json_quotes (b : bytes) : bytes := map (λ c, if ascii_dec c "'" then "034"%char else c) b.

(** A success with its one artifact. *)
Lemma mailbox_round_trip_witness :
  let U := {| isPrint := λ _, true |} in
  ∃ data, completion_payload (MR := list_order) ["url"] (read_body (inl (json_quotes done_body))) = inr data ∧
    pl_Message (parseCompletion (MR := list_order) (PatchMailbox ∅ data)) = "ok".
Proof.
  intros U. destruct (completion_payload (MR := list_order) ["url"] (read_body (inl (json_quotes done_body)))) as [e|data] eqn:E.
  - vm_compute in E. discriminate E.
  - exists data. split; [done|]. destruct (mailbox_round_trip list_order list_order ["url"] _ data E) as (b & req & [= <-] & Hu & _ & Hp & _).
    cbv zeta in Hp. rewrite Hp. simpl. clear Hp E. revert Hu. vm_compute. intros [= <-]. reflexivity.
Defined.
