(* ===== verification/TaskReconcile.v ===== *)
(** One pass of the AgentTask reconciler
    (internal/controller/agenttask_controller.go).

    A pass is a program over the calls it makes: cached reads, writes to the
    API server, clock readings and events ([call]).  Its in-memory task is
    the state of the monad [M], and an error ends the pass unless the caller
    catches it, as the Go code threads [*task] and [error].  Nothing is
    assumed of the answers here: [TaskLogic] says what answers a cluster with
    lagging caches, failing writes and restarting controllers can give.

    The children other than the Pod and the mailbox are converged by calls
    whose answer is the error convergeTaskChild returns. *)

From stdpp Require Import base gmap sets list strings option.
From Stdlib Require Import ZArith Lia Ascii.
From S2P Require Import Prelude GoFloat GoTime GoPath Json JsonString ProblemList Api Routing BudgetReducer Conditions ProviderValidation Eligibility TaskData.

(** ** The objects a pass sees *)

Inductive PodPhase := PodPending | PodRunning | PodSucceeded | PodFailed | PodUnknown.

#[global] Instance pod_phase_eq_dec : EqDecision PodPhase.
Proof. solve_decision. Defined.

(** A container waits for a reason, or has ended with an exit code. *)
Record ContainerStatus := mk_container {
  cs_Name : string;
  Waiting : option (string * string);
  ExitCode : option Z;
}.

Record Pod := mk_pod {
  p_Name : string;
  p_UID : string;
  CreationTimestamp : Time;
  p_Deleting : bool;
  p_Controlled : bool;
  p_Phase : PodPhase;
  p_Conditions : list (string * bool);
  ContainerStatuses : list ContainerStatus;
  p_Claims : list string;
}.

(** The completion ConfigMap. *)
Record Mailbox := mk_mailbox { mb_Version : nat; mb_Controlled : bool; mb_Data : gmap string string }.

Record Certificate := mk_cert { crt_Controlled : bool; SecretName : string; crt_Ready : bool }.

(** ** Errors *)

(** An error of the API server: not found, a rejection ([isWriteRejection]:
    Forbidden, Invalid, BadRequest) or any other. *)
Inductive api_kind := ApiNotFound | ApiRejected | ApiOther.
Record api_error := mk_api { ae_kind : api_kind; ae_text : string }.

Inductive get_result (A : Type) := Found (a : A) | NotFound | GetFailed (e : api_error).
Arguments Found {A} a.
Arguments NotFound {A}.
Arguments GetFailed {A} e.

(** What [errors.As] tells apart in a chain or a join of errors. *)
Inductive leaf := EWriteRejected (text : string) | EConflict (text : string) | EOther (text : string).
Definition error : Type := list leaf.

Definition asChildWriteRejected (e : error) : option string :=
  head (omap (λ l, match l with EWriteRejected t => Some t | _ => None end) e).
Definition asChildConflict (e : error) : option string :=
  head (omap (λ l, match l with EConflict t => Some t | _ => None end) e).

Definition raw (e : api_error) : error := [EOther (ae_text e)].

Definition isWriteRejection (e : api_error) : bool := match ae_kind e with ApiRejected => true | _ => false end.

Section text.
Context {U : Unicode}.

Definition rejectedWrite (op kind name : string) (e : api_error) : error :=
  if isWriteRejection e
  then [EWriteRejected (op +:+ " " +:+ kind +:+ " " +:+ str (QuoteText (bs name)) +:+ ": " +:+ ae_text e)]
  else raw e.

Definition conflict (kind name : string) : error :=
  [EConflict (kind +:+ " " +:+ str (QuoteText (bs name)) +:+ " already exists and is not owned by this AgentTask")].
End text.

Definition rejectionMessage (text : string) : string := str (Truncate (bs text) MaxNoteBytes).
Definition cutDetailText (text : string) : string := str (cutDetail (bs text)).
Definition print_Z (z : Z) : string := if (z <? 0)%Z then "-" +:+ fmt_int (- z) else fmt_int z.

Inductive child :=
  | ServiceAccount | PVC | NetworkPolicy (cidrs : list string)
  | CompletionConfigMap | CompletionRole | CompletionRoleBinding.

Record event := mk_event { ev_warning : bool; ev_reason : string; ev_action : string; ev_note : string }.

(** ** Reasons and bounds *)

Definition provisioningDeadline : Duration := (5 * Minute)%Z.
Definition certWaitRequeue : Duration := (5 * Second)%Z.
Definition notReadyRecheck : Duration := (30 * Second)%Z.
Definition maxAgentMessageBytes : nat := Z.to_nat 4096.
Definition ConditionCompleted : string := "Completed".
Definition ReasonInvalidReference : string := "InvalidReference".
Definition ReasonClassConstraintViolation : string := "ClassConstraintViolation".
Definition ReasonPodCreateRejected : string := "PodCreateRejected".
Definition ReasonChildWriteRejected : string := "ChildWriteRejected".
Definition ReasonChildConflict : string := "ChildConflict".
Definition ReasonCredentialsInvalid : string := "CredentialsInvalid".
Definition ReasonTaskFailed : string := "TaskFailed".
Definition ReasonTaskSucceeded : string := "TaskSucceeded".

Definition notReadyAction (reason : string) : string :=
  if (reason =? ReasonPodCreateRejected)%string then "CreatePod"
  else if (reason =? ReasonChildWriteRejected)%string then "WriteChild"
  else if (reason =? ReasonChildConflict)%string then "ClaimChild"
  else if (reason =? ReasonCredentialsInvalid)%string then "Probe"
  else "Validate".

Definition imageAllowed (image : string) (allowed : list string) : bool :=
  match allowed with
  | [] => true
  | _ => existsb (λ pattern, match Match pattern image with Some true => true | _ => false end) allowed
  end.

(** The part of effectiveTaskSpec the pass itself reads; the rest shapes the
    Pod only. *)
Record effectiveTaskSpec := mk_task_eff {
  eff_Image : string;
  eff_Env : list (string * option string);
  eff_PersistenceOn : bool;
  eff_ImagePullSecrets : list string;
}.

Section reconcile.
Context {CD : Conditions} `{!EqDecision conditions} {MR : MapRange} {U : Unicode}.
Context (ParseCIDR : string → bool) (OperatorNamespace : string).

(** ** The calls of a pass *)

Inductive call : Type → Type :=
  | Now : call Time
  | GetTask : call (get_result AgentTask)
  | UpdateTask (t : AgentTask) : call (AgentTask + api_error)
  | UpdateStatus (t : AgentTask) : call (AgentTask + api_error)
  | DeleteTask : call (option api_error)
  | ListPods : call (list Pod + api_error)
  | CreatePod (tlsSecret : string) : call (Pod + api_error)
  | DeletePod (uid : string) : call (option api_error)
  | GetMailbox : call (get_result Mailbox)
  | ResetMailbox (version : nat) : call (option api_error)
  | GetClass (name : string) : call (get_result TaskClass)
  | GetProvider (name : string) : call (get_result (list string))
  | ToolGrantViolations : call (list (string * string))
  | EnsureSecretAccess (role : string) (secrets : list string) : call (option error)
  | GetSecret (name : string) : call (get_result bool)
  | GetCertificate (name : string) : call (get_result Certificate)
  | CreateCertificate (name : string) : call (option error)
  | ConvergeChild (c : child) : call (option error)
  | FQDNSupport : call (bool + api_error)
  | EnsureFQDNPolicy (hosts : list string) (supported : bool) : call (option error)
  | NoteClaims : call unit
  | ForgetClaims : call unit
  | Emit (e : event) : call unit.

Inductive prog (A : Type) : Type :=
  | Ret (a : A)
  | Do {B : Type} (c : call B) (k : B → prog A).
Arguments Ret {A} a.
Arguments Do {A B} c k.

Fixpoint prog_bind {A B} (p : prog A) (f : A → prog B) : prog B :=
  match p with Ret a => f a | Do c k => Do c (λ b, prog_bind (k b) f) end.

(** The in-memory task and the error of the Go functions. *)
Definition M (A : Type) : Type := AgentTask → prog (AgentTask * (A + error)).

#[local] Instance M_ret : MRet M := λ A a t, Ret (t, inl a).
#[local] Instance M_bind : MBind M := λ A B f m t,
  prog_bind (m t) (λ r, match r.2 with inl a => f a r.1 | inr e => Ret (r.1, inr e) end).

Definition throw {A} (e : error) : M A := λ t, Ret (t, inr e).
Definition try {A} (m : M A) : M (A + error) := λ t, prog_bind (m t) (λ r, Ret (r.1, inl r.2)).
Definition lift {B} (c : call B) : M B := λ t, Do c (λ b, Ret (t, inl b)).
Definition the_task : M AgentTask := λ t, Ret (t, inl t).
Definition put_task (t : AgentTask) : M unit := λ _, Ret (t, inl ()).
Definition edit (f : AgentTaskStatus → AgentTaskStatus) : M unit := λ t, Ret (with_task_status t (f (t_Status t)), inl ()).
Definition skip : M unit := mret ().
Definition when (b : bool) (m : M unit) : M unit := if b then m else skip.
Definition ok_or (o : option error) : M unit := match o with Some e => throw e | None => skip end.

(** ** Small writes *)

Definition setTaskPhase (p : AgentTaskPhase) : M unit := edit (λ s, set_Phase s p).

Definition setTaskReady (ok : bool) (reason msg : string) : M unit :=
  now ← lift Now;
  edit (λ s, set_Conditions s (SetStatusCondition now (ts_Conditions s) (mk_condition ConditionReady ok reason msg 0%Z))).

(** [r.Status().Update]: the stored object replaces the one in memory. *)
Definition updateStatus : M unit :=
  t ← the_task;
  r ← lift (UpdateStatus t);
  match r with inl t => put_task t | inr e => throw (raw e) end.

Definition writeStatusIfChanged : M bool :=
  t ← the_task;
  current ← lift GetTask;
  if match current with Found c => bool_decide (t_Status c = t_Status t) | _ => false end then mret false
  else updateStatus;; mret true.

Definition updateStatusIfChanged : M unit := (writeStatusIfChanged;; skip).

Definition readyFalseIsNew (cs : conditions) (reason : string) : bool :=
  match FindStatusCondition cs ConditionReady with
  | None => true
  | Some prev => cond_Status prev || negb (cond_Reason prev =? reason)%string
  end.

Definition markTaskNotReady (reason msg : string) : M unit :=
  t ← the_task;
  let first := readyFalseIsNew (ts_Conditions (t_Status t)) reason in
  setTaskReady false reason msg;;
  wrote ← writeStatusIfChanged;
  when (first && wrote) (lift (Emit (mk_event true reason (notReadyAction reason) msg))).

(** ** Reads *)

(** The Pod of the task among those listed: one that is not being deleted,
    or else the last. *)
Definition chosen_pod (pods : list Pod) : option Pod :=
  let mine := filter (λ p, p_Controlled p = true) pods in
  match List.find (λ p, negb (p_Deleting p)) mine with Some p => Some p | None => List.last (map Some mine) None end.

Definition ownedTaskPod : M (option Pod) :=
  r ← lift ListPods;
  match r with
  | inr e => throw (raw e)
  | inl pods => mret (chosen_pod pods)
  end.

Definition taskCompletionCMName (name : string) : string := name +:+ "-completion".
Definition taskCertificateName (name : string) : string := name +:+ ".task-tls".
Definition legacyTaskCertificateName (name : string) : string := name +:+ "-tls".
Definition taskPVCName (name : string) : string := name +:+ "-workspace".
Definition taskPullSecretRoleName (name : string) : string := "kaalm-task-" +:+ name +:+ "-pullsecrets".
Definition taskEnvSecretRoleName (name : string) : string := "kaalm-task-" +:+ name +:+ "-envsecrets".

Definition readMailbox : M completionPayload :=
  t ← the_task;
  r ← lift GetMailbox;
  match r with
  | NotFound => mret (mk_payload "" "" ∅)
  | GetFailed e => throw (raw e)
  | Found cm =>
      if mb_Controlled cm then mret (parseCompletion (mb_Data cm))
      else throw (conflict "ConfigMap" (taskCompletionCMName (t_Name t)))
  end.

Definition podReady (p : Pod) : bool :=
  match List.find (λ c, (c.1 =? "Ready")%string) (p_Conditions p) with Some (_, st) => st | None => false end.

Definition podExitMessage (p : Pod) : string :=
  match List.find (λ cs, match ExitCode cs with Some _ => true | None => false end) (ContainerStatuses p) with
  | Some cs => "container " +:+ cs_Name cs +:+ " exited " +:+ print_Z (default 0%Z (ExitCode cs))
  | None => "task Pod failed without a container exit code"
  end.

Definition podMountsClaim (p : Pod) (claim : string) : bool := bool_decide (claim ∈ p_Claims p).

(** The first container that can never start, and what it waits for. *)
Definition fatal_wait (p : Pod) : option (string * string) :=
  head (omap (λ cs, match Waiting cs with
                    | Some (reason, msg) =>
                        if (reason =? "InvalidImageName")%string || (reason =? "ErrImageNeverPull")%string
                        then Some (reason, msg) else None
                    | None => None
                    end) (ContainerStatuses p)).

(** ** Requeues *)

Definition runningRequeue : M Duration :=
  t ← the_task;
  let d := taskTimeout t in
  match StartTime (t_Status t) with
  | Some start =>
      if (d <=? 0)%Z then mret 0%Z
      else
        now ← lift Now;
        let remaining := Sub (start + d)%Z now in
        mret (if (remaining <? Second)%Z then Second else remaining)
  | None => mret 0%Z
  end.

Definition heldRequeue (interval : Duration) : M Duration :=
  t ← the_task;
  if decide (Phase (t_Status t) = TaskRunning) then
    d ← runningRequeue;
    mret (if (0 <? d)%Z && (d <? interval)%Z then d else interval)
  else mret interval.

(** ** Settling and retrying *)

Definition settle (phase : AgentTaskPhase) (reason msg : string) : M unit :=
  setTaskPhase phase;;
  now ← lift Now;
  edit (λ s, set_CreateRejectedTime (set_CompletionTime s (Some now)) None);;
  now' ← lift Now;
  edit (λ s, set_Conditions s (SetStatusCondition now' (ts_Conditions s)
    (mk_condition ConditionCompleted (bool_decide (phase = TaskSucceeded)) reason msg 0%Z)));;
  setTaskReady false reason msg;;
  updateStatus;;
  lift (Emit (mk_event (bool_decide (phase ≠ TaskSucceeded)) reason "Settle" msg)).

(** Steps 3, 4 and 6 of a retry. *)
Definition finishRetry : M unit :=
  pod ← ownedTaskPod;
  match pod with
  | Some p =>
      when (negb (p_Deleting p))
        (r ← lift (DeletePod (p_UID p));
         match r with
         | Some e => match ae_kind e with ApiNotFound => skip | _ => throw (rejectedWrite "deleting" "Pod" (p_Name p) e) end
         | None => skip
         end)
  | None => skip
  end;;
  t ← the_task;
  when (isAgentReported t)
    (r ← lift GetMailbox;
     match r with
     | Found cm =>
         if negb (mb_Controlled cm) then throw (conflict "ConfigMap" (taskCompletionCMName (t_Name t)))
         else
           when (negb (bool_decide (mb_Data cm = ∅)))
             (r ← lift (ResetMailbox (mb_Version cm));
              match r with
              | Some e => throw (rejectedWrite "updating" "ConfigMap" (taskCompletionCMName (t_Name t)) e)
              | None => skip
              end)
     | NotFound => skip
     | GetFailed e => throw (raw e)
     end);;
  setTaskPhase TaskProvisioning;;
  updateStatus.

(** What the counting write clears and counts. *)
Definition count_retry (s : AgentTaskStatus) : AgentTaskStatus :=
  let s := set_Retries s (Retries s + 1)%Z in
  let s := set_CurrentPodUID s "" in
  let s := set_StartTime s None in
  let s := set_ArtifactValues s ∅ in
  let s := set_AgentReportedStatus s "" in
  let s := set_AgentReportedMessage s "" in
  set_CreateRejectedTime s None.

Definition retry (reason msg : string) : M unit :=
  t ← the_task;
  let suffix := "; retrying (" +:+ print_Z (Retries (t_Status t) + 1) +:+ "/"
                +:+ print_Z (BackoffLimit (Completion (t_Spec t))) +:+ ")" in
  let retrying := str (Truncate (bs msg) (MaxNoteBytes - String.length suffix)) +:+ suffix in
  edit count_retry;;
  setTaskPhase TaskFailed;;
  setTaskReady false reason msg;;
  updateStatus;;
  lift (Emit (mk_event true reason "Retry" retrying));;
  finishRetry.

Definition failOrRetry (reason msg : string) : M unit :=
  t ← the_task;
  if (Retries (t_Status t) <? BackoffLimit (Completion (t_Spec t)))%Z then retry reason msg
  else settle TaskFailed reason msg.

Definition settleTimeout : M unit :=
  t ← the_task;
  if (OnTimeout (Completion (t_Spec t)) =? onTimeoutSucceed)%string
  then settle TaskSucceeded "TimeoutSucceeded" "timeout reached with onTimeout: Succeed"
  else settle TaskTimedOut "TimeoutExceeded"
         ("task exceeded its " +:+ DurationString (taskTimeout t) +:+ " completion timeout").

(** ** Completing *)

(** The fields a payload fills. *)
Definition report (p : completionPayload) (message : string) (s : AgentTaskStatus) : AgentTaskStatus :=
  set_AgentReportedMessage (set_AgentReportedStatus (set_ArtifactValues s (pl_Artifacts p)) (pl_Status p)) message.

Definition driveCompleting (pod : option Pod) : M unit :=
  t ← the_task;
  if isAgentReported t then
    payload ← readMailbox;
    if negb (pl_Status payload =? "")%string then
      let msg := validateArtifactNames payload (Artifacts (t_Spec t)) in
      if negb (msg =? "")%string then failOrRetry ReasonTaskFailed ("artifact validation failed: " +:+ msg)
      else
        let message := str (Truncate (bs (pl_Message payload)) maxAgentMessageBytes) in
        edit (report payload message);;
        if (pl_Status payload =? CompletionStatusSuccess)%string
        then settle TaskSucceeded ReasonTaskSucceeded message
        else failOrRetry ReasonTaskFailed ("agent reported failure: " +:+ message)
    else
      now ← lift Now;
      if timedOut now t then settleTimeout
      else failOrRetry "PodDisrupted" "task reached Completing with no completion payload"
  else
    let otherwise :=
      now ← lift Now;
      if timedOut now t then settleTimeout
      else failOrRetry "PodDisrupted" "task Pod was lost before completion settled" in
    match pod with
    | Some p =>
        match p_Phase p with
        | PodSucceeded => settle TaskSucceeded ReasonTaskSucceeded "container exited 0"
        | PodFailed => failOrRetry ReasonTaskFailed (podExitMessage p)
        | _ => otherwise
        end
    | None => otherwise
    end.

(** The phase write that enters Completing, and the settling pass. *)
Definition complete (pod : option Pod) : M unit :=
  setTaskPhase TaskCompleting;; updateStatus;; driveCompleting pod.

(** ** Children *)

Definition desiredTaskChildren (t : AgentTask) (persistence : bool) (cidrs : list string) : list child :=
  [ServiceAccount] ++ (if persistence then [PVC] else []) ++ [NetworkPolicy cidrs]
  ++ (if isAgentReported t then [CompletionConfigMap; CompletionRole; CompletionRoleBinding] else []).

Fixpoint convergeAll (cs : list child) : M unit :=
  match cs with
  | [] => skip
  | c :: cs => r ← lift (ConvergeChild c); ok_or r;; convergeAll cs
  end.

Definition ensureTaskChildren (class : TaskClass) (eff : effectiveTaskSpec) : M unit :=
  t ← the_task;
  convergeAll (desiredTaskChildren t (eff_PersistenceOn eff) (AllowedCIDRs (Egress class)));;
  let hosts := AllowedHosts (Egress class) in
  r ← lift FQDNSupport;
  match r with
  | inr e => if bool_decide (hosts = []) then r ← lift (EnsureFQDNPolicy hosts false); ok_or r else throw (raw e)
  | inl supported => r ← lift (EnsureFQDNPolicy hosts supported); ok_or r
  end.

Definition ensureTaskCertificate : M (string * bool) :=
  t ← the_task;
  r ← lift (GetCertificate (taskCertificateName (t_Name t)));
  match r with
  | GetFailed e => throw (raw e)
  | Found cert =>
      if crt_Controlled cert then mret (SecretName cert, crt_Ready cert)
      else throw (conflict "Certificate" (taskCertificateName (t_Name t)))
  | NotFound =>
      let create := r ← lift (CreateCertificate (taskCertificateName (t_Name t))); ok_or r;; mret ("", false) in
      legacy ← lift (GetCertificate (legacyTaskCertificateName (t_Name t)));
      match legacy with
      | Found cert => if crt_Controlled cert then mret (SecretName cert, crt_Ready cert) else create
      | NotFound => create
      | GetFailed e => throw (raw e)
      end
  end.

Definition taskPolicyEgress (t : AgentTask) (class : TaskClass) : AgentClassEgress :=
  default (Egress class) (ClassEgress (t_Status t)).

(** Every child is tried; the failures are joined. *)
Fixpoint tryAll (cs : list child) : M error :=
  match cs with
  | [] => mret []
  | c :: cs => r ← lift (ConvergeChild c); es ← tryAll cs; mret (default [] r ++ es)
  end.

Definition restoreTaskChildren (class : TaskClass) (pod : Pod) (withFQDN : bool) : M unit :=
  t ← the_task;
  let egress := taskPolicyEgress t class in
  errs ← tryAll (desiredTaskChildren t (podMountsClaim pod (taskPVCName (t_Name t))) (AllowedCIDRs egress));
  cert ← try ensureTaskCertificate;
  let errs := errs ++ (match cert with inr e => e | inl _ => [] end) in
  fqdn ← (if withFQDN && negb (bool_decide (AllowedHosts egress = [])) then
            r ← lift FQDNSupport;
            match r with
            | inr e => mret (raw e)
            | inl supported => r ← lift (EnsureFQDNPolicy (AllowedHosts egress) supported); mret (default [] r)
            end
          else mret []);
  match errs ++ fqdn with [] => skip | errs => throw errs end.

(** ** Provisioning *)

Definition keep_first_rejection (now : Time) (s : AgentTaskStatus) : AgentTaskStatus :=
  set_PodName (set_CreateRejectedTime s (Some (default now (CreateRejectedTime s)))) "".

Definition createRejected (class : TaskClass) (reason what text : string) : M Duration :=
  now ← lift Now;
  edit (keep_first_rejection now);;
  t ← the_task;
  if (provisioningDeadline <? Sub now (default now (CreateRejectedTime (t_Status t))))%Z then
    when ((BackoffLimit (Completion (t_Spec t)) <=? Retries (t_Status t))%Z
          && bool_decide (ClassBounds (t_Status t) = None))
      (edit (λ s, set_ClassBounds s (Some (classTaskBounds class))));;
    failOrRetry "ProvisioningDeadlineExceeded"
      (cutDetailText (what +:+ " for longer than " +:+ DurationString provisioningDeadline +:+ ": " +:+ text));;
    mret 0%Z
  else
    setTaskPhase TaskProvisioning;;
    markTaskNotReady reason (rejectionMessage text);;
    mret notReadyRecheck.

(** What the status records of a new Pod. *)
Definition record_pod (t : AgentTask) (class : TaskClass) (p : Pod) (s : AgentTaskStatus) : AgentTaskStatus :=
  let s := set_CreateRejectedTime (set_PodName s (p_Name p)) None in
  let s := set_ClassEgress (set_ClassBounds s (Some (classTaskBounds class))) (Some (classTaskEgress class)) in
  if isAgentReported t then set_CurrentPodUID s (p_UID p) else s.

(** The repair of an identity whose write was lost. *)
Definition repair_pod (t : AgentTask) (class : TaskClass) (p : Pod) (lost : bool) (s : AgentTaskStatus) : AgentTaskStatus :=
  let s := if lost then set_ClassEgress (set_ClassBounds s (Some (classTaskBounds class))) (Some (classTaskEgress class)) else s in
  let s := if isAgentReported t then set_CurrentPodUID s (p_UID p) else s in
  set_CreateRejectedTime (set_PodName s (p_Name p)) None.

Definition provisionPod (class : TaskClass) (eff : effectiveTaskSpec) : M Duration :=
  '(tlsSecret, certReady) ← ensureTaskCertificate;
  if negb certReady then
    t ← the_task;
    when (bool_decide (Phase (t_Status t) = TaskPending)) (setTaskPhase TaskProvisioning);;
    setTaskReady false "CertificateNotReady" "waiting for cert-manager to issue the task certificate";;
    updateStatusIfChanged;;
    mret certWaitRequeue
  else
    ensureTaskChildren class eff;;
    r ← lift (CreatePod tlsSecret);
    match r with
    | inr e =>
        if negb (isWriteRejection e) then throw (raw e)
        else createRejected class ReasonPodCreateRejected "Pod create rejected" (ae_text e)
    | inl p =>
        setTaskPhase TaskProvisioning;;
        setTaskReady false "PodProvisioning" "task Pod created, waiting for readiness";;
        t ← the_task;
        edit (record_pod t class p);;
        updateStatus;;
        mret 0%Z
    end.

Definition awaitPodReady (class : TaskClass) (p : Pod) : M Duration :=
  restoreTaskChildren class p false;;
  setTaskReady false "PodProvisioning" "task Pod created, waiting for readiness";;
  updateStatusIfChanged;;
  mret certWaitRequeue.

Definition pod_phase_text (p : PodPhase) : string :=
  match p with
  | PodPending => "Pending" | PodRunning => "Running" | PodSucceeded => "Succeeded" | PodFailed => "Failed" | PodUnknown => "Unknown"
  end.

(** The Pod exists and is not being deleted: Ready, ended, stuck, or waited
    for. *)
Definition watchPod (class : TaskClass) (p : Pod) : M Duration :=
  t ← the_task;
  if podReady p then
    setTaskPhase TaskRunning;;
    now ← lift Now;
    edit (λ s, set_StartTime s (Some now));;
    setTaskReady true "PodRunning" "task Pod is running";;
    updateStatus;;
    runningRequeue
  else if decide (p_Phase p = PodSucceeded ∨ p_Phase p = PodFailed) then
    if negb (isAgentReported t) && bool_decide (p_Phase p = PodSucceeded) then complete (Some p);; mret 0%Z
    else
      failOrRetry "PodStartFailed" ("Pod " +:+ p_Name p +:+ " reached " +:+ pod_phase_text (p_Phase p) +:+ " before becoming Ready");;
      mret 0%Z
  else
    match fatal_wait p with
    | Some (reason, msg) => failOrRetry reason (cutDetailText msg);; mret 0%Z
    | None =>
        now ← lift Now;
        if (provisioningDeadline <? Sub now (CreationTimestamp p))%Z then
          failOrRetry "ProvisioningDeadlineExceeded"
            ("Pod " +:+ p_Name p +:+ " not Ready within " +:+ DurationString provisioningDeadline);;
          mret 0%Z
        else awaitPodReady class p
    end.

Definition driveProvisioning (class : TaskClass) (eff : effectiveTaskSpec) (pod : option Pod) : M Duration :=
  match pod with
  | None => provisionPod class eff
  | Some p =>
      if p_Deleting p then
        setTaskReady false "PodTerminating" "waiting for the previous task Pod to terminate";;
        updateStatusIfChanged;;
        mret certWaitRequeue
      else
        t ← the_task;
        let lost := negb (PodName (t_Status t) =? p_Name p)%string in
        when (lost || (isAgentReported t && negb (CurrentPodUID (t_Status t) =? p_UID p)%string))
          (edit (repair_pod t class p lost);; updateStatus);;
        watchPod class p
  end.

(** ** Running *)

Definition continueRunning (class : TaskClass) (p : Pod) : M Duration :=
  if p_Deleting p then runningRequeue
  else
    restoreTaskChildren class p true;;
    t ← the_task;
    when (negb (IsStatusConditionTrue (ts_Conditions (t_Status t)) ConditionReady))
      (setTaskReady true "PodRunning" "task Pod is running";; updateStatus);;
    runningRequeue.

Definition driveRunning (class : TaskClass) (pod : option Pod) : M Duration :=
  t ← the_task;
  reported ← (if isAgentReported t then payload ← readMailbox; mret (negb (pl_Status payload =? "")%string) else mret false);
  let exited := negb (isAgentReported t) &&
    match pod with Some p => bool_decide (p_Phase p = PodSucceeded ∨ p_Phase p = PodFailed) | None => false end in
  if reported || exited then complete pod;; mret 0%Z
  else
    now ← lift Now;
    if timedOut now t then complete pod;; mret 0%Z
    else
      match pod with
      | Some p =>
          if isAgentReported t && bool_decide (p_Phase p = PodFailed)
          then failOrRetry "PodDisrupted" "task Pod was lost mid-run";; mret 0%Z
          else continueRunning class p
      | None => failOrRetry "PodDisrupted" "task Pod was lost mid-run";; mret 0%Z
      end.

Definition drive (class : TaskClass) (eff : effectiveTaskSpec) (pod : option Pod) : M Duration :=
  t ← the_task;
  match Phase (t_Status t) with
  | TaskPending | TaskProvisioning => driveProvisioning class eff pod
  | TaskRunning => driveRunning class pod
  | TaskCompleting => driveCompleting pod;; mret 0%Z
  | _ => mret 0%Z
  end.

(** ** Checks before a Pod *)

Definition deriveEffectiveTaskSpec (t : AgentTask) (class : TaskClass) : effectiveTaskSpec :=
  mk_task_eff (if (Image (t_Spec t) =? "")%string then DefaultImage class else Image (t_Spec t)) (Env (t_Spec t))
    (PersistenceEnabled (t_Spec t)) (ImagePullSecrets class).

Definition quoted_text (s : string) : string := str (QuoteText (bs s)).
Definition entry_text (s : string) : string := str (quotedEntry (bs s)).

Fixpoint providerViolation (ns className : string) (allowed names : list string) : M (option (string * string)) :=
  match names with
  | [] => mret None
  | name :: names =>
      if negb (bool_decide (name ∈ allowed)) then
        mret (Some (ReasonClassConstraintViolation,
          "provider " +:+ entry_text name +:+ " is not in AgentClass " +:+ quoted_text className +:+ " allowedProviders"))
      else
        r ← lift (GetProvider name);
        match r with
        | NotFound => mret (Some (ReasonClassConstraintViolation, "provider " +:+ entry_text name +:+ " does not exist"))
        | GetFailed _ => providerViolation ns className allowed names
        | Found namespaces =>
            if negb (namespaceAllowed ns namespaces) then
              mret (Some (ReasonClassConstraintViolation,
                "provider " +:+ entry_text name +:+ " does not allow namespace " +:+ quoted_text ns))
            else providerViolation ns className allowed names
        end
  end.

Definition taskViolation (class : TaskClass) (eff : effectiveTaskSpec) : M (option (string * string)) :=
  t ← the_task;
  let ns := t_Namespace t in
  if negb (AdmitsNamespace (mk_class (tc_AllowedNamespaces class) (tc_AllowedProviders class) []) ns) then
    mret (Some ("NamespaceNotAllowed",
      "namespace " +:+ quoted_text ns +:+ " is not in AgentClass " +:+ quoted_text (tc_Name class) +:+ " allowedNamespaces"))
  else if negb (eff_Image eff =? "")%string && negb (imageAllowed (eff_Image eff) (tc_AllowedImages class)) then
    mret (Some (ReasonClassConstraintViolation,
      "image " +:+ entry_text (eff_Image eff) +:+ " does not match AgentClass " +:+ quoted_text (tc_Name class) +:+ " allowedImages"))
  else
    v ← providerViolation ns (tc_Name class) (tc_AllowedProviders class) (ts_Providers (t_Spec t));
    match v with
    | Some v => mret (Some v)
    | None =>
        grants ← lift ToolGrantViolations;
        match grants with
        | v :: _ => mret (Some v)
        | [] =>
            mret (if PersistenceEnabled (t_Spec t) && negb (tc_PersistenceEnabled class)
                  then Some ("PersistenceNotAllowed", "persistence requested but AgentClass " +:+ quoted_text (tc_Name class)
                             +:+ " has persistence.enabled=false")
                  else None)
        end
    end.

Definition envSecretNotUsableMessage (envName secretName : string) : string :=
  "env " +:+ entry_text envName +:+ ": Secret " +:+ entry_text secretName
  +:+ " is not usable: a workload may use only a Secret in its namespace that carries the label kaalm.io/workload-secret: "
  +:+ quoted_text "true".

(** The first variable whose Secret is missing or not opted in. *)
Fixpoint checkEnvSecrets (checked : gset string) (env : list (string * option string)) : M (option (string * string)) :=
  match env with
  | [] => mret None
  | (_, None) :: env => checkEnvSecrets checked env
  | (name, Some secret) :: env =>
      if (secret =? "")%string then
        mret (Some (ReasonInvalidReference, "env " +:+ entry_text name +:+ ": secretKeyRef names no Secret"))
      else if bool_decide (secret ∈ checked) then checkEnvSecrets checked env
      else
        r ← lift (GetSecret secret);
        match r with
        | GetFailed e => throw (raw e)
        | Found true => checkEnvSecrets ({[secret]} ∪ checked) env
        | _ => mret (Some ("SecretNotOptedIn", envSecretNotUsableMessage name secret))
        end
  end.

Definition envSecretRefs (env : list (string * option string)) : list string :=
  sort_strings (elements (list_to_set (filter (λ n, n ≠ "") (omap snd env)) : gset string)).

Definition invalidCIDRs (class : TaskClass) : list bytes :=
  messages (foldl (λ bad c, if ParseCIDR c then bad
                            else add bad c (bs "allowedCIDR " ++ quotedEntry (bs c) ++ bs " is not a valid CIDR"))
              no_entries (AllowedCIDRs (Egress class)))
    (bs "allowedCIDRs has 1 more invalid CIDR, not listed")
    (λ n, bs "allowedCIDRs has " ++ print_nat n ++ bs " more invalid CIDRs, not listed").

(** ** Errors of children *)

Definition childBlocked (class : option TaskClass) (prePod : bool) (e : error) : M Duration :=
  t ← the_task;
  match asChildWriteRejected e with
  | Some text =>
      match class with
      | Some class =>
          if prePod && negb (bool_decide (Phase (t_Status t) = TaskFailed))
          then createRejected class ReasonChildWriteRejected "child write rejected" text
          else markTaskNotReady ReasonChildWriteRejected (rejectionMessage text);; heldRequeue notReadyRecheck
      | None => markTaskNotReady ReasonChildWriteRejected (rejectionMessage text);; heldRequeue notReadyRecheck
      end
  | None =>
      match asChildConflict e with
      | None => throw e
      | Some msg =>
          let said := match FindStatusCondition (ts_Conditions (t_Status t)) ConditionReady with
                      | Some prev => (cond_Reason prev =? ReasonChildConflict)%string && (cond_Message prev =? msg)%string
                      | None => false
                      end in
          when (negb said)
            (setTaskReady false ReasonChildConflict msg;;
             updateStatus;;
             lift (Emit (mk_event true ReasonChildConflict "ClaimChild" msg)));;
          heldRequeue notReadyRecheck
      end
  end.

(** The pull Secrets exist; the first that does not ends the pass. *)
Fixpoint pullSecretMissing (names : list string) : M (option string) :=
  match names with
  | [] => mret None
  | n :: names =>
      r ← lift (GetSecret n);
      match r with
      | Found _ => pullSecretMissing names
      | NotFound => mret (Some n)
      | GetFailed e => throw (raw e)
      end
  end.

(** Rule 48; [Some] ends the pass. *)
Definition enforceEnvSecretOptIn (class : TaskClass) (eff : effectiveTaskSpec) : M (option Duration) :=
  t ← the_task;
  r ← lift (EnsureSecretAccess (taskEnvSecretRoleName (t_Name t)) (envSecretRefs (eff_Env eff)));
  match r with
  | Some e => d ← childBlocked (Some class) true e; mret (Some d)
  | None =>
      v ← checkEnvSecrets ∅ (eff_Env eff);
      match v with
      | None => mret None
      | Some (reason, msg) => markTaskNotReady reason msg;; mret (Some notReadyRecheck)
      end
  end.

(** The checks before a Pod is created; [Some] ends the pass. *)
Definition prePodChecks (class : TaskClass) (eff : effectiveTaskSpec) : M (option Duration) :=
  t ← the_task;
  v ← taskViolation class eff;
  match v with
  | Some (reason, msg) =>
      when (bool_decide (ClassBounds (t_Status t) = None) && (PodName (t_Status t) =? "")%string)
        (edit (λ s, set_ClassBounds s (Some (classTaskBounds class))));;
      settle TaskFailed reason msg;;
      mret (Some 0%Z)
  | None =>
      r ← lift (EnsureSecretAccess (taskPullSecretRoleName (t_Name t)) (eff_ImagePullSecrets eff));
      match r with
      | Some e => d ← childBlocked (Some class) true e; mret (Some d)
      | None =>
          missing ← pullSecretMissing (eff_ImagePullSecrets eff);
          match missing with
          | Some n =>
              markTaskNotReady "ImagePullSecretMissing"
                ("imagePullSecret " +:+ entry_text n +:+ " missing in namespace " +:+ quoted_text (t_Namespace t));;
              mret (Some notReadyRecheck)
          | None =>
              held ← enforceEnvSecretOptIn class eff;
              match held with
              | Some d => mret (Some d)
              | None =>
                  if (eff_Image eff =? "")%string then
                    markTaskNotReady ReasonInvalidReference
                      "no image: AgentTask.spec.image is empty and the AgentClass sets no defaultImage";;
                    mret (Some 0%Z)
                  else
                    match invalidCIDRs class with
                    | [] => mret None
                    | bad =>
                        markTaskNotReady ReasonInvalidReference
                          ("AgentClass " +:+ quoted_text (tc_Name class) +:+ " is not usable: " +:+ str (Join (bs "; ") bad));;
                        mret (Some 0%Z)
                    end
              end
          end
      end
  end.

(** ** The pass *)

Definition handleTTL : M Duration :=
  t ← the_task;
  match taskTTL t, CompletionTime (t_Status t) with
  | Some ttl, Some finished =>
      now ← lift Now;
      let remaining := Sub (finished + wrap64 (ttl * Second))%Z now in
      if (0 <? remaining)%Z then mret remaining
      else
        setTaskPhase TaskTerminating;;
        updateStatus;;
        r ← lift DeleteTask;
        match r with
        | Some e => match ae_kind e with ApiNotFound => mret 0%Z | _ => throw (raw e) end
        | None => mret 0%Z
        end
  | _, _ => mret 0%Z
  end.

Definition reconcileDelete : M Duration :=
  t ← the_task;
  if negb (Finalizer t) then mret 0%Z
  else
    pod ← ownedTaskPod;
    match pod with
    | Some p =>
        if p_Deleting p then mret 0%Z
        else
          r ← lift (DeletePod (p_UID p));
          match r with
          | Some e => match ae_kind e with ApiNotFound => mret 0%Z | _ => throw (raw e) end
          | None => mret 0%Z
          end
    | None =>
        r ← lift (UpdateTask (with_finalizer t false));
        match r with inl _ => mret 0%Z | inr e => throw (raw e) end
    end.

(** The pass once the class is read. *)
Definition reconcile_class (class : TaskClass) : M Duration :=
  t ← the_task;
  let eff := deriveEffectiveTaskSpec t class in
  pod ← ownedTaskPod;
  let prePod := bool_decide (pod = None) && bool_decide (Phase (t_Status t) = TaskPending ∨ Phase (t_Status t) = TaskProvisioning) in
  held ← (if prePod then prePodChecks class eff else mret None);
  match held with
  | Some d => mret d
  | None =>
      r ← try (drive class eff pod);
      match r with inl d => mret d | inr e => childBlocked (Some class) prePod e end
  end.

Definition reconcile_live : M Duration :=
  t ← the_task;
  edit (λ s, set_ObservedGeneration s (Generation t));;
  when (bool_decide (Phase (t_Status t) = TaskNone)) (setTaskPhase TaskPending);;
  t ← the_task;
  if decide (Phase (t_Status t) = TaskFailed ∧ CompletionTime (t_Status t) = None) then
    r ← try finishRetry;
    match r with inl _ => mret 0%Z | inr e => childBlocked None false e end
  else if isTerminalTaskPhase (Phase (t_Status t)) then
    lift ForgetClaims;; handleTTL
  else
    lift NoteClaims;;
    if (t_Namespace t =? OperatorNamespace)%string then
      markTaskNotReady "SystemNamespaceForbidden"
        ("AgentTasks may not run in the operator namespace " +:+ quoted_text OperatorNamespace);;
      mret 0%Z
    else
      r ← lift (GetClass (ts_AgentClassRef (t_Spec t)));
      match r with
      | NotFound =>
          markTaskNotReady ReasonInvalidReference ("AgentClass " +:+ entry_text (ts_AgentClassRef (t_Spec t)) +:+ " does not exist");;
          mret 0%Z
      | GetFailed e => throw (raw e)
      | Found class => reconcile_class class
      end.

Definition reconcile_task : M Duration :=
  t ← the_task;
  if Deleting t then lift ForgetClaims;; reconcileDelete
  else if negb (Finalizer t) then
    r ← lift (UpdateTask (with_finalizer t true));
    match r with inl _ => mret 0%Z | inr e => throw (raw e) end
  else reconcile_live.

(** One pass: when to look again, or the error. *)
Definition Reconcile : prog (Duration + error) :=
  Do GetTask (λ r,
    match r with
    | NotFound => Ret (inl 0%Z)
    | GetFailed e => Ret (inr (raw e))
    | Found t => prog_bind (reconcile_task t) (λ r, Ret r.2)
    end).

End reconcile.

Arguments Ret {CD A} a.
Arguments Do {CD A B} c k.
