(* ===== verification/TaskLogic.v ===== *)
(** The world of an AgentTask: the API server's versions of the task, its
    Pods and its mailbox, the clock, completion requests at the gateway, and
    one controller whose passes read caches that lag and make writes that
    fail.

    [answer] says what a call of a pass does and gives back; its [oracle]
    holds everything the outside decides: how far a cache lags, whether a
    write fails and whether it was applied nevertheless, what the class and
    the other objects hold.  [step] interleaves the calls of a pass with the
    rest of the world: Pods change, the spec is edited, completions are
    checked and later patched, the controller restarts.  A run is a list of
    labels, so every theorem over runs is over all interleavings.

    The second half is the abstract machine of a task and the logic in which
    passes are shown to obey it. *)

From stdpp Require Import base gmap sets list strings option.
From Stdlib Require Import ZArith Lia Ascii.
From S2P Require Import Prelude GoFloat GoTime Json ProblemList Api Routing Conditions Auth ProviderValidation Eligibility TaskData TaskReconcile.

(** What the outside decides for one call.  [o_task], [o_mail] and [o_pods]
    count the versions a cached read lags behind; [o_fail] fails a call,
    after it was applied when its first component is true. *)
Record oracle := mk_oracle {
  o_task : nat;
  o_mail : nat;
  o_pods : nat;
  o_fail : option (bool * api_error);
  o_tick : nat;
  o_uid : string;
  o_class : get_result TaskClass;
  o_provider : get_result (list string);
  o_grants : list (string * string);
  o_error : option error;
  o_secret : get_result bool;
  o_cert : get_result Certificate;
  o_fqdn : bool + api_error;
}.

Definition conflict_error : api_error := mk_api ApiOther "the object has been modified".
Definition gone_error : api_error := mk_api ApiNotFound "not found".

(** What an answer shows the controller: the Pods listed, the mailbox read or
    emptied, the class, the providers and the tool grants of a task, and the
    refusal of a write. *)
Inductive sight :=
  | SawPods (ps : list Pod)
  | SawMail (m : option Mailbox)
  | Emptied
  | SawClass (c : TaskClass)
  | SawProvider (name : string) (r : get_result (list string))
  | SawGrants (l : list (string * string))
  | SawRefusal (text : string).

Section world.
Context {CD : Conditions} `{!EqDecision conditions} {MR : MapRange} {U : Unicode}.
Context (ParseCIDR : string → bool) (OperatorNamespace : string).

(** Newest first: the task's versions, the mailbox's, the lists of Pods.
    [w_inflight] are completion requests that passed the checks, with the
    artifact names they were checked against; [w_log] are the patches made,
    with the retry count of the task at the request's check; [w_seen] is what
    the answers to the controller's calls showed, each with the version of the
    task stored at that time. *)
Record world := mk_world {
  w_task : AgentTask;
  w_past : list AgentTask;
  w_gone : bool;
  w_mail : option Mailbox;
  w_mails : list (option Mailbox);
  w_pods : list Pod;
  w_podss : list (list Pod);
  w_clock : Time;
  w_inflight : list (Z * list string);
  w_log : list (Z * gmap string string);
  w_events : list event;
  w_seen : list (nat * sight);
}.

Definition versions (w : world) : list AgentTask := w_task w :: w_past w.

(** The stored object after a write: its version is new. *)
Definition store_task (w : world) (t : AgentTask) (gone : bool) : world :=
  mk_world (with_version t (S (resourceVersion (w_task w)))) (w_task w :: w_past w) gone (w_mail w) (w_mails w)
    (w_pods w) (w_podss w) (w_clock w) (w_inflight w) (w_log w) (w_events w) (w_seen w).
Definition store_mail (w : world) (m : option Mailbox) : world :=
  mk_world (w_task w) (w_past w) (w_gone w) m (w_mail w :: w_mails w) (w_pods w) (w_podss w) (w_clock w)
    (w_inflight w) (w_log w) (w_events w) (w_seen w).
Definition store_pods (w : world) (ps : list Pod) : world :=
  mk_world (w_task w) (w_past w) (w_gone w) (w_mail w) (w_mails w) ps (w_pods w :: w_podss w) (w_clock w)
    (w_inflight w) (w_log w) (w_events w) (w_seen w).
Definition set_clock (w : world) (t : Time) : world :=
  mk_world (w_task w) (w_past w) (w_gone w) (w_mail w) (w_mails w) (w_pods w) (w_podss w) t
    (w_inflight w) (w_log w) (w_events w) (w_seen w).
Definition set_requests (w : world) (l : list (Z * list string)) (log : list (Z * gmap string string)) : world :=
  mk_world (w_task w) (w_past w) (w_gone w) (w_mail w) (w_mails w) (w_pods w) (w_podss w) (w_clock w) l log (w_events w) (w_seen w).
Definition say (w : world) (e : event) : world :=
  mk_world (w_task w) (w_past w) (w_gone w) (w_mail w) (w_mails w) (w_pods w) (w_podss w) (w_clock w)
    (w_inflight w) (w_log w) (e :: w_events w) (w_seen w).

Definition see (w : world) (x : sight) : world :=
  mk_world (w_task w) (w_past w) (w_gone w) (w_mail w) (w_mails w) (w_pods w) (w_podss w) (w_clock w)
    (w_inflight w) (w_log w) (w_events w) ((resourceVersion (w_task w), x) :: w_seen w).

(** A write of a child that may be refused. *)
Definition child_write (w : world) (r : option error) : world * option error :=
  (match r with
   | Some e => match asChildWriteRejected e with Some text => see w (SawRefusal text) | None => w end
   | None => w
   end, r).

Definition lagging {A} (now : A) (past : list A) (n : nat) : A := default now ((now :: past) !! n).

Definition delete_pod (uid : string) (p : Pod) : Pod :=
  if (p_UID p =? uid)%string
  then mk_pod (p_Name p) (p_UID p) (CreationTimestamp p) true (p_Controlled p) (p_Phase p) (p_Conditions p)
         (ContainerStatuses p) (p_Claims p)
  else p.

(** The Pod the API server makes: a new UID, a name generated from it, no
    condition yet. *)
Definition new_pod (w : world) (uid : string) : Pod :=
  mk_pod (t_Name (w_task w) +:+ "-" +:+ uid) uid (w_clock w) false true PodPending [] [] [].

Definition mail_version (w : world) : nat := match w_mail w with Some m => S (mb_Version m) | None => 0 end.

(** A write that may fail, before or after it is applied. *)
Definition write {B} (o : oracle) (w w' : world) (ok : B) (fail : api_error → B) : world * B :=
  match o_fail o with
  | Some (applied, e) => (if applied then w' else w, fail e)
  | None => (w', ok)
  end.

Definition answer {B} (o : oracle) (w : world) (c : call B) : world * B :=
  match c in call B return world * B with
  | Now => let t := (w_clock w + Z.of_nat (o_tick o))%Z in (set_clock w t, t)
  | GetTask =>
      (w, match o_fail o with
          | Some (_, e) => GetFailed e
          | None => if w_gone w && (o_task o =? 0)%nat then NotFound else Found (lagging (w_task w) (w_past w) (o_task o))
          end)
  | UpdateTask t =>
      if w_gone w then (w, inr gone_error)
      else if negb (resourceVersion t =? resourceVersion (w_task w))%nat then (w, inr conflict_error)
      else
        let w' := store_task w (with_finalizer (w_task w) (Finalizer t)) (Deleting (w_task w) && negb (Finalizer t)) in
        write o w w' (inl (w_task w')) inr
  | UpdateStatus t =>
      if w_gone w then (w, inr gone_error)
      else if negb (resourceVersion t =? resourceVersion (w_task w))%nat then (w, inr conflict_error)
      else
        let w' := store_task w (with_task_status (w_task w) (stored_status (t_Status t))) false in
        write o w w' (inl (w_task w')) inr
  | DeleteTask =>
      if w_gone w then (w, Some gone_error)
      else
        let t := w_task w in
        let t := mk_task (t_Namespace t) (t_Name t) (t_UID t) (Generation t) (resourceVersion t) true (Finalizer t) (t_Spec t) (t_Status t) in
        write o w (store_task w t (negb (Finalizer t))) None Some
  | ListPods =>
      match o_fail o with
      | Some (_, e) => (w, inr e)
      | None => let ps := lagging (w_pods w) (w_podss w) (o_pods o) in (see w (SawPods ps), inl ps)
      end
  | CreatePod _ =>
      let p := new_pod w (o_uid o) in
      let '(w', r) := write o w (store_pods w (p :: w_pods w)) (inl p) inr in
      (match r with inr e => if isWriteRejection e then see w' (SawRefusal (ae_text e)) else w' | inl _ => w' end, r)
  | DeletePod uid => write o w (store_pods w (map (delete_pod uid) (w_pods w))) None Some
  | GetMailbox =>
      match o_fail o with
      | Some (_, e) => (w, GetFailed e)
      | None =>
          let m := lagging (w_mail w) (w_mails w) (o_mail o) in
          (see w (SawMail m), match m with Some m => Found m | None => NotFound end)
      end
  | ResetMailbox v =>
      match w_mail w with
      | None => (w, Some gone_error)
      | Some m =>
          if negb (v =? mb_Version m)%nat then (w, Some conflict_error)
          else write o w (see (store_mail w (Some (mk_mailbox (S v) (mb_Controlled m) ∅))) Emptied) None Some
      end
  | GetClass _ => (match o_class o with Found c => see w (SawClass c) | _ => w end, o_class o)
  | GetProvider name => (see w (SawProvider name (o_provider o)), o_provider o)
  | ToolGrantViolations => (see w (SawGrants (o_grants o)), o_grants o)
  | EnsureSecretAccess _ _ => child_write w (o_error o)
  | GetSecret _ => (w, o_secret o)
  | GetCertificate _ => (w, o_cert o)
  | CreateCertificate _ => child_write w (o_error o)
  | ConvergeChild CompletionConfigMap =>
      match w_mail w with
      | None => match o_error o with Some e => child_write w (Some e) | None => (store_mail w (Some (mk_mailbox 0 true ∅)), None) end
      | Some _ => child_write w (o_error o)
      end
  | ConvergeChild _ => child_write w (o_error o)
  | FQDNSupport => (w, o_fqdn o)
  | EnsureFQDNPolicy _ _ => child_write w (o_error o)
  | NoteClaims => (w, ())
  | ForgetClaims => (w, ())
  | Emit e => (say w e, ())
  end.

(** ** Interleavings *)

Record system := mk_system { s_world : world; s_pass : option (prog (Duration + error)) }.

Inductive label :=
  | LStart
  | LCall (o : oracle)
  | LCrash
  | LPods (ps : list Pod)
  | LTick (n : nat)
  | LSpec (sp : AgentTaskSpec)
  | LDelete
  | LCheck (lag : nat) (uid : string)
  | LPatch (i : nat) (sent : bytes + string)
  | LComplete (uid : string) (sent : bytes + string).

Definition edit_spec (t : AgentTask) (sp : AgentTaskSpec) : AgentTask :=
  mk_task (t_Namespace t) (t_Name t) (t_UID t) (Generation t + 1)%Z (resourceVersion t) (Deleting t) (Finalizer t) sp (t_Status t).
Definition mark_deleting (t : AgentTask) : AgentTask :=
  mk_task (t_Namespace t) (t_Name t) (t_UID t) (Generation t) (resourceVersion t) true (Finalizer t) (t_Spec t) (t_Status t).

(** The patch of a request whose checks passed: applied when the body is
    accepted and the mailbox exists. *)
Definition patch (w : world) (req : Z * list string) (sent : bytes + string) : world :=
  match completion_payload req.2 (read_body sent), w_mail w with
  | inr data, Some m =>
      set_requests (store_mail w (Some (mk_mailbox (S (mb_Version m)) (mb_Controlled m) (PatchMailbox (mb_Data m) data))))
        (w_inflight w) ((req.1, data) :: w_log w)
  | _, _ => w
  end.

(** The checks of a completion from the Pod [uid], on a version of the task. *)
Definition passes (t : AgentTask) (uid : string) : bool :=
  match completion_checks "POST" (Some t) false (Some uid) None with None => true | Some _ => false end.

Definition world_step (w : world) (l : label) : world :=
  match l with
  | LPods ps => store_pods w ps
  | LTick n => set_clock w (w_clock w + Z.of_nat n)%Z
  | LSpec sp => if w_gone w then w else store_task w (edit_spec (w_task w) sp) false
  | LDelete => if w_gone w then w else store_task w (mark_deleting (w_task w)) (negb (Finalizer (w_task w)))
  | LCheck lag uid =>
      let t := lagging (w_task w) (w_past w) lag in
      if passes t uid
      then set_requests w (w_inflight w ++ [(Retries (t_Status t), Artifacts (t_Spec t))]) (w_log w) else w
  | LPatch i sent => match w_inflight w !! i with Some req => patch w req sent | None => w end
  | LComplete uid sent =>
      if passes (w_task w) uid then patch w (Retries (t_Status (w_task w)), Artifacts (t_Spec (w_task w))) sent else w
  | _ => w
  end.

Definition step (s : system) (l : label) : system :=
  match l with
  | LStart =>
      match s_pass s with
      | None => mk_system (s_world s) (Some (Reconcile ParseCIDR OperatorNamespace))
      | Some _ => s
      end
  | LCall o =>
      match s_pass s with
      | Some (Do c k) => let '(w, b) := answer o (s_world s) c in mk_system w (Some (k b))
      | Some (Ret _) => mk_system (s_world s) None
      | None => s
      end
  | LCrash => mk_system (s_world s) None
  | l => mk_system (world_step (s_world s) l) (s_pass s)
  end.

Definition run (s : system) (ls : list label) : system := foldl step s ls.

(** A task as it is created: no status, no Pods, no mailbox. *)
Definition no_status (cs : conditions) : AgentTaskStatus :=
  mk_task_status 0%Z TaskNone cs None None "" "" 0%Z ∅ "" "" None None None.

Definition created (ns name uid : string) (cs : conditions) (sp : AgentTaskSpec) (now : Time) : system :=
  mk_system (mk_world (mk_task ns name uid 1%Z 0 false false sp (no_status cs)) [] false None [] [] [] now [] [] [] []) None.
End world.

(** A logic for passes of the AgentTask reconciler.

    [move] is the abstract machine of a task: which status writes the
    lifecycle allows, each with the evidence it needs among the facts the
    pass has observed.  [wp] goes through a pass: every status write must be
    a [move] from a version of the task the pass has read, whatever the
    answers are.  [TaskFacts] proves it of [Reconcile], and [TaskClaims] that
    it is enough under every interleaving. *)


(** ** The abstract machine *)

Section machine.
Context {CD : Conditions} `{!EqDecision conditions} {MR : MapRange} {U : Unicode}.

(** What the machine says of a status. *)
Record core := mk_core {
  c_phase : AgentTaskPhase;
  c_retries : Z;
  c_start : option Time;
  c_done : option Time;
  c_uid : string;
  c_bounds : option AgentTaskClassBounds;
  c_artifacts : gmap string string;
  c_status : string;
  c_message : string;
}.

Definition core_of (s : AgentTaskStatus) : core :=
  mk_core (Phase s) (Retries s) (StartTime s) (CompletionTime s) (CurrentPodUID s) (ClassBounds s)
    (ArtifactValues s) (AgentReportedStatus s) (AgentReportedMessage s).

(** What a pass has observed: versions of the task, Pods it listed or
    created, clock readings, and what an answer showed while a version was
    known. *)
Inductive fact :=
  | FTask (t : AgentTask)
  | FPod (p : Pod)
  | FNow (x : Time)
  | FSaw (t : AgentTask) (x : sight).

Notation FMail t m := (FSaw t (SawMail (Some m))).

Definition facts : Type := list fact.

Definition waiting (p : AgentTaskPhase) : Prop := p = TaskNone ∨ p = TaskPending ∨ p = TaskProvisioning.
Definition active (p : AgentTaskPhase) : Prop := waiting p ∨ p = TaskRunning ∨ p = TaskCompleting.

(** The report fields are the old ones, or a payload's. *)
Definition reports (K : facts) (t : AgentTask) (a : gmap string string) (s m : string) (c : core) : Prop :=
  (a = c_artifacts c ∧ s = c_status c ∧ m = c_message c) ∨
  ∃ mb, let p := parseCompletion (mb_Data mb) in
    FMail t mb ∈ K ∧ isAgentReported t = true ∧ pl_Status p ≠ "" ∧ validateArtifactNames p (Artifacts (t_Spec t)) = "" ∧
    a = pl_Artifacts p ∧ s = pl_Status p ∧ m = str (Truncate (bs (pl_Message p)) maxAgentMessageBytes).

(** Why a task may settle as Succeeded: a valid success report, an exit code
    of zero, or its timeout with onTimeout Succeed. *)
Definition succeeds (K : facts) (t : AgentTask) (a : gmap string string) (s m : string) (c : core) : Prop :=
  reports K t a s m c ∧
  ((isAgentReported t = true ∧ s = CompletionStatusSuccess ∧ ∃ mb, FMail t mb ∈ K ∧ pl_Status (parseCompletion (mb_Data mb)) = s
      ∧ pl_Artifacts (parseCompletion (mb_Data mb)) = a) ∨
   (isAgentReported t = false ∧ ∃ p, FPod p ∈ K ∧ p_Phase p = PodSucceeded) ∨
   (∃ x, FNow x ∈ K ∧ timedOut x t = true ∧ OnTimeout (Completion (t_Spec t)) = onTimeoutSucceed)).

Definition mail_values (m : option Mailbox) : gmap string string := match m with Some m => mb_Data m | None => ∅ end.

(** The mailbox was seen empty, or was emptied, after [t] was stored. *)
Definition cleared (K : facts) (t : AgentTask) : Prop :=
  FSaw t Emptied ∈ K ∨ ∃ m, FSaw t (SawMail m) ∈ K ∧ mail_values m = ∅.

(** The Pod a pass works with, chosen from a list read while a version of the
    same attempt, in a phase of [P], was stored. *)
Definition pod_seen (K : facts) (t : AgentTask) (P : AgentTaskPhase → Prop) (pod : option Pod) : Prop :=
  ∃ t' ps, FTask t' ∈ K ∧ Retries (t_Status t') = Retries (t_Status t) ∧ P (Phase (t_Status t')) ∧
    FSaw t' (SawPods ps) ∈ K ∧ chosen_pod ps = pod.

Definition anytime (_ : AgentTaskPhase) : Prop := True.
Definition under_way (ph : AgentTaskPhase) : Prop := ¬ waiting ph.

Definition ended (p : Pod) : Prop := p_Phase p = PodSucceeded ∨ p_Phase p = PodFailed.

(** Why an attempt may be judged: its agent has reported, its exitCode Pod
    has ended, or its time is over. *)
Inductive judged (K : facts) (t : AgentTask) : Prop :=
  | judged_report mb : Phase (t_Status t) = TaskRunning → isAgentReported t = true → FMail t mb ∈ K →
      pl_Status (parseCompletion (mb_Data mb)) ≠ "" → judged K t
  | judged_exit p : Phase (t_Status t) = TaskRunning → isAgentReported t = false → pod_seen K t anytime (Some p) → ended p → judged K t
  | judged_early p : waiting (Phase (t_Status t)) → isAgentReported t = false → pod_seen K t anytime (Some p) →
      p_Phase p = PodSucceeded → judged K t
  | judged_timeout x : Phase (t_Status t) = TaskRunning → FNow x ∈ K → timedOut x t = true → judged K t.

(** Why an attempt may fail. *)
Inductive failure (K : facts) (t : AgentTask) : Prop :=
  | fail_reported mb : Phase (t_Status t) = TaskCompleting → isAgentReported t = true → FMail t mb ∈ K →
      pl_Status (parseCompletion (mb_Data mb)) ≠ "" →
      validateArtifactNames (parseCompletion (mb_Data mb)) (Artifacts (t_Spec t)) ≠ "" ∨
        pl_Status (parseCompletion (mb_Data mb)) ≠ CompletionStatusSuccess →
      failure K t
  | fail_silent m : Phase (t_Status t) = TaskCompleting → isAgentReported t = true → FSaw t (SawMail m) ∈ K →
      pl_Status (parseCompletion (mail_values m)) = "" → failure K t
  | fail_exit p : pod_seen K t anytime (Some p) → p_Phase p = PodFailed → failure K t
  | fail_lost pod : under_way (Phase (t_Status t)) → pod_seen K t under_way pod →
      match pod with
      | None => True
      | Some p => Phase (t_Status t) = TaskCompleting ∧ isAgentReported t = false ∧ ¬ ended p
      end → failure K t
  | fail_early p : waiting (Phase (t_Status t)) → isAgentReported t = true → pod_seen K t anytime (Some p) →
      podReady p = false → p_Phase p = PodSucceeded → failure K t
  | fail_stuck p : waiting (Phase (t_Status t)) → pod_seen K t anytime (Some p) → podReady p = false →
      is_Some (fatal_wait p) → failure K t
  | fail_late p x : waiting (Phase (t_Status t)) → pod_seen K t anytime (Some p) → podReady p = false → FNow x ∈ K →
      (provisioningDeadline < Sub x (CreationTimestamp p))%Z → failure K t
  | fail_refused x since text : waiting (Phase (t_Status t)) → FSaw t (SawRefusal text) ∈ K → FNow x ∈ K →
      CreateRejectedTime (t_Status t) = Some since → (provisioningDeadline < Sub x since)%Z → failure K t.

(** Why a task may not have a Pod: what its class, its providers and its tool
    grants say. *)
Inductive violation (K : facts) (t : AgentTask) (class : TaskClass) : Prop :=
  | bad_namespace :
      AdmitsNamespace (mk_class (tc_AllowedNamespaces class) (tc_AllowedProviders class) []) (t_Namespace t) = false → violation K t class
  | bad_image : let image := eff_Image (deriveEffectiveTaskSpec t class) in
      image ≠ "" → imageAllowed image (tc_AllowedImages class) = false → violation K t class
  | bad_provider name : name ∈ ts_Providers (t_Spec t) →
      name ∉ tc_AllowedProviders class ∨ FSaw t (SawProvider name NotFound) ∈ K ∨
        (∃ nss, FSaw t (SawProvider name (Found nss)) ∈ K ∧ namespaceAllowed (t_Namespace t) nss = false) →
      violation K t class
  | bad_grant g gs : FSaw t (SawGrants (g :: gs)) ∈ K → violation K t class
  | bad_persistence : PersistenceEnabled (t_Spec t) = true → tc_PersistenceEnabled class = false → violation K t class.

Definition forbidden (K : facts) (t : AgentTask) : Prop := ∃ class, FSaw t (SawClass class) ∈ K ∧ violation K t class.

(** [move K t c c']: from the stored version [t], whose core is [c], a pass
    that has observed [K] may write [c']. *)
Inductive move (K : facts) (t : AgentTask) : core → core → Prop :=
  | move_hold c : c_done c = None → c_phase c ≠ TaskNone → move K t c c
  | move_wait ph ph' r st u u' b b' a s m :
      waiting ph → ph' = TaskProvisioning ∨ (ph' = TaskPending ∧ ph ≠ TaskProvisioning) →
      (u' = u ∨ ∃ p, FPod p ∈ K ∧ p_UID p = u') →
      move K t (mk_core ph r st None u b a s m) (mk_core ph' r st None u' b' a s m)
  | move_run ph r st u b a s m x p :
      waiting ph → FPod p ∈ K → podReady p = true → FNow x ∈ K →
      move K t (mk_core ph r st None u b a s m) (mk_core TaskRunning r (Some x) None u b a s m)
  | move_judge ph r st u b a s m :
      judged K t →
      move K t (mk_core ph r st None u b a s m) (mk_core TaskCompleting r st None u b a s m)
  | move_retry ph r st u b b' a s m :
      active ph → failure K t → (r < BackoffLimit (Completion (t_Spec t)))%Z →
      move K t (mk_core ph r st None u b a s m) (mk_core TaskFailed (r + 1) None None "" b' ∅ "" "")
  | move_again r st u b a s m :
      (isAgentReported t = true → cleared K t) →
      move K t (mk_core TaskFailed r st None u b a s m) (mk_core TaskProvisioning r st None u b a s m)
  | move_fail ph r st u b b' a s m a' s' m' x :
      active ph → (failure K t ∧ (BackoffLimit (Completion (t_Spec t)) <= r)%Z ∨ waiting ph ∧ forbidden K t) → FNow x ∈ K →
      reports K t a' s' m' (mk_core ph r st None u b a s m) →
      move K t (mk_core ph r st None u b a s m) (mk_core TaskFailed r st (Some x) u b' a' s' m')
  | move_succeed r st u b a s m a' s' m' x :
      FNow x ∈ K → succeeds K t a' s' m' (mk_core TaskCompleting r st None u b a s m) →
      move K t (mk_core TaskCompleting r st None u b a s m) (mk_core TaskSucceeded r st (Some x) u b a' s' m')
  | move_timeout r st u b a s m x y :
      FNow x ∈ K → FNow y ∈ K → timedOut y t = true →
      move K t (mk_core TaskCompleting r st None u b a s m) (mk_core TaskTimedOut r st (Some x) u b a s m)
  | move_leave ph r st x u b a s m :
      move K t (mk_core ph r st (Some x) u b a s m) (mk_core TaskTerminating r st (Some x) u b a s m).

(** ** Well-formed statuses *)

Definition settled_phase (p : AgentTaskPhase) : Prop := p = TaskSucceeded ∨ p = TaskTimedOut ∨ p = TaskTerminating.

(** A status of a phase that works has no completion time and no report, a
    settled one has the time, Running has its start, and a retry in progress
    has forgotten its attempt. *)
Definition wf_core (c : core) : Prop :=
  (0 <= c_retries c)%Z ∧
  (active (c_phase c) → c_done c = None) ∧
  (settled_phase (c_phase c) → is_Some (c_done c)) ∧
  (c_phase c = TaskRunning → is_Some (c_start c)) ∧
  (c_done c = None → c_status c = "" ∧ c_message c = "" ∧ c_artifacts c = ∅) ∧
  (c_phase c = TaskFailed → c_done c = None → c_uid c = "" ∧ c_start c = None).

Lemma move_wf K t c c' : move K t c c' → wf_core c → wf_core c'.
Proof.
  unfold wf_core, settled_phase, active, waiting.
  intros M (W0 & W1 & W2 & W3 & W4 & W5). destruct M; simpl in *; split_and!; try done; try lia; try naive_solver.
Qed.

Lemma wf_stored s : wf_core (core_of s) → wf_core (core_of (stored_status s)).
Proof.
  destruct s. unfold wf_core. simpl. intros (W0 & W1 & W2 & W3 & W4 & W5). split_and!; try done.
  - intros Ha. by rewrite (W1 Ha).
  - intros Ha. destruct (W2 Ha) as [x ->]. by eexists.
  - intros Ha. destruct (W3 Ha) as [x ->]. by eexists.
  - destruct CompletionTime; [done|]. auto.
  - intros Ha Hd. destruct CompletionTime; [done|]. destruct (W5 Ha eq_refl) as [-> ->]. done.
Qed.

(** ** Facts a call teaches *)

Definition tasks_known (K : facts) : list AgentTask := omap (λ f, match f with FTask t => Some t | _ => None end) K.

Definition noted (K : facts) (x : sight) : facts := map (λ t, FSaw t x) (tasks_known K).

Definition refused (K : facts) (r : option error) : facts :=
  match r with Some e => match asChildWriteRejected e with Some text => noted K (SawRefusal text) | None => [] end | None => [] end.

Definition learn {B} (K : facts) (c : call B) : B → facts :=
  match c in call B return B → facts with
  | Now => λ x, [FNow x]
  | GetTask => λ r, match r with Found t => [FTask t] | _ => [] end
  | UpdateStatus _ => λ r, match r with inl t => [FTask t] | inr _ => [] end
  | ListPods => λ r, match r with inl ps => noted K (SawPods ps) ++ map FPod ps | inr _ => [] end
  | CreatePod _ => λ r,
      match r with inl p => [FPod p] | inr e => if isWriteRejection e then noted K (SawRefusal (ae_text e)) else [] end
  | GetMailbox => λ r,
      match r with Found m => noted K (SawMail (Some m)) | NotFound => noted K (SawMail None) | GetFailed _ => [] end
  | ResetMailbox _ => λ r, match r with None => noted K Emptied | Some _ => [] end
  | GetClass _ => λ r, match r with Found c => noted K (SawClass c) | _ => [] end
  | GetProvider name => λ r, noted K (SawProvider name r)
  | ToolGrantViolations => λ r, noted K (SawGrants r)
  | EnsureSecretAccess _ _ | CreateCertificate _ | ConvergeChild _ | EnsureFQDNPolicy _ _ => λ r, refused K r
  | _ => λ _, []
  end.

(** What a pass may rely on in an answer. *)
Definition sane {B} (c : call B) : B → Prop :=
  match c in call B return B → Prop with
  | GetTask => λ r, match r with Found t => wf_core (core_of (t_Status t)) | _ => True end
  | UpdateStatus t => λ r,
      match r with inl t' => ∃ v, t' = with_version (with_task_status t (stored_status (t_Status t))) v | inr _ => True end
  | _ => λ _, True
  end.

(** What a pass owes at a call: a status write is a move. *)
Definition owes {B} (K : facts) (c : call B) : Prop :=
  match c with
  | UpdateStatus t => ∃ t0, FTask t0 ∈ K ∧ t = with_task_status t0 (t_Status t) ∧
      move K t0 (core_of (t_Status t0)) (core_of (t_Status t))
  | _ => True
  end.

Fixpoint wp {A} (K : facts) (p : prog A) (Q : facts → A → Prop) : Prop :=
  match p with
  | Ret a => Q K a
  | Do c k => owes K c ∧ ∀ b, sane c b → wp (learn K c b ++ K) (k b) Q
  end.

Lemma wp_bind {A B} K (p : prog A) (f : A → prog B) Q :
  wp K p (λ K' a, wp K' (f a) Q) → wp K (prog_bind p f) Q.
Proof.
  revert K. induction p as [a|B' c k IH]; intros K H; simpl; [done|]. destruct H as [Ho H]. split; [done|].
  intros b Hb. by apply IH, H.
Qed.

(** Facts are kept. *)
Lemma wp_grow {A} K (p : prog A) Q : wp K p (λ K' a, K ⊆ K' → Q K' a) → wp K p Q.
Proof.
  assert (G : ∀ K0 K, K0 ⊆ K → wp K p (λ K' a, K0 ⊆ K' → Q K' a) → wp K p Q).
  { induction p as [a|B' c k IH]; intros K0 K1 Hs H; simpl in *; [by apply H|]. destruct H as [Ho H]. split; [done|].
    intros b Hb. apply (IH b K0); [|by apply H]. intros f Hf. apply elem_of_app. right. by apply Hs. }
  by apply G.
Qed.

Lemma wp_mono {A} K (p : prog A) (Q R : facts → A → Prop) : (∀ K' a, Q K' a → R K' a) → wp K p Q → wp K p R.
Proof.
  intros HQ. revert K. induction p as [a|B' c k IH]; intros K H; simpl in *; [by apply HQ|]. destruct H as [Ho H].
  split; [done|]. intros b Hb. by apply IH, H.
Qed.

(** ** The same on the monad *)

Definition wpm {A} (K : facts) (t : AgentTask) (m : M A) (Q : facts → AgentTask → A → Prop) (E : facts → AgentTask → error → Prop) : Prop :=
  wp K (m t) (λ K' r, match r.2 with inl a => Q K' r.1 a | inr e => E K' r.1 e end).

Lemma wpm_bind {A B} K t (m : M A) (f : A → M B) Q E :
  wpm K t m (λ K' t' a, wpm K' t' (f a) Q E) E → wpm K t (M_bind A B f m) Q E.
Proof. unfold wpm, M_bind. intros H. apply wp_bind. eapply wp_mono, H. intros K' [t' [a|e]]; done. Qed.

Lemma wpm_ret {A} K t (a : A) Q E : Q K t a → wpm K t (M_ret A a) Q E.
Proof. done. Qed.

Lemma wpm_throw {A} K t e (Q : facts → AgentTask → A → Prop) (E : facts → AgentTask → error → Prop) : E K t e → wpm K t (throw e) Q E.
Proof. done. Qed.

Lemma wpm_task K t Q E : Q K t t → wpm K t the_task Q E.
Proof. done. Qed.

Lemma wpm_edit K t f Q E : Q K (with_task_status t (f (t_Status t))) () → wpm K t (edit f) Q E.
Proof. done. Qed.

Lemma wpm_lift {B} K t (c : call B) Q E :
  owes K c → (∀ b, sane c b → Q (learn K c b ++ K) t b) → wpm K t (lift c) Q E.
Proof. by split. Qed.

Lemma wpm_try {A} K t (m : M A) Q E :
  wpm K t m (λ K' t' a, Q K' t' (inl a)) (λ K' t' e, Q K' t' (inr e)) → wpm K t (try m) Q E.
Proof. unfold wpm, try. intros H. apply wp_bind. eapply wp_mono, H. intros K' [t' [a|e]]; done. Qed.

Lemma wpm_grow {A} K t (m : M A) Q E :
  wpm K t m (λ K' t' a, K ⊆ K' → Q K' t' a) (λ K' t' e, K ⊆ K' → E K' t' e) → wpm K t m Q E.
Proof. unfold wpm. intros H. apply wp_grow. eapply wp_mono, H. intros K' [t' [a|e]]; simpl; auto. Qed.

Lemma wpm_mono {A} K t (m : M A) (Q Q' : facts → AgentTask → A → Prop) (E E' : facts → AgentTask → error → Prop) :
  wpm K t m Q E → (∀ K' t' a, Q K' t' a → Q' K' t' a) → (∀ K' t' e, E K' t' e → E' K' t' e) → wpm K t m Q' E'.
Proof. unfold wpm. intros H HQ HE. eapply wp_mono, H. intros K' [t' [a|e]]; simpl; auto. Qed.

End machine.

Notation FMail t m := (FSaw t (SawMail (Some m))).
