(* ===== verification/TaskFacts.v ===== *)
(** Every pass of the AgentTask reconciler obeys the abstract machine of
    [TaskLogic]: [Reconcile_obeys].  One lemma per function of the
    reconciler; their postconditions only say what a caller goes on with. *)

From stdpp Require Import base gmap sets list strings option.
From Stdlib Require Import ZArith Lia Ascii.
From S2P Require Import Prelude GoFloat GoTime Json ProblemList Api Routing Conditions ProviderValidation Eligibility TaskData TaskReconcile TaskLogic.

Section facts.
Context {CD : Conditions} `{!EqDecision conditions} {MR : MapRange} {U : Unicode}.
Context (ParseCIDR : string → bool) (OperatorNamespace : string).

(** ** States of a pass

    The in-memory task is a stored version [t0] the pass has read, with the
    status [s] it has edited. *)

Definition draft (K : facts) (t0 : AgentTask) : Prop := FTask t0 ∈ K ∧ wf_core (core_of (t_Status t0)).

(** The pass treats a task without a phase as Pending. *)
Definition enter (c : core) : core :=
  if decide (c_phase c = TaskNone)
  then mk_core TaskPending (c_retries c) (c_start c) (c_done c) (c_uid c) (c_bounds c) (c_artifacts c) (c_status c) (c_message c)
  else c.

Definition holding (K : facts) (t0 : AgentTask) (s : AgentTaskStatus) : Prop :=
  draft K t0 ∧ core_of s = enter (core_of (t_Status t0)).

(** An error [childBlocked] passes on. *)
Definition benign (e : error) : Prop := asChildWriteRejected e = None ∧ asChildConflict e = None.

(** What [childBlocked] may be called with. *)
Definition blocked (prePod : bool) (K : facts) (t : AgentTask) (e : error) : Prop :=
  benign e ∨ ∃ t0 s, t = with_task_status t0 s ∧ holding K t0 s ∧ CompletionTime s = None ∧
    (prePod = true → waiting (Phase s) ∧ CreateRejectedTime s = CreateRejectedTime (t_Status t0) ∧
       (∀ text, asChildWriteRejected e = Some text → FSaw t0 (SawRefusal text) ∈ K) ∨ Phase s = TaskFailed).

Notation any := (λ _ _ _, True).
Notation plain := (λ _ _ e, benign e).

Lemma sub_app (K K' L : facts) : K ⊆ K' → K ⊆ L ++ K'.
Proof. intros H f Hf. apply elem_of_app. right. by apply H. Qed.
Lemma sub_cons (K K' : facts) f : K ⊆ K' → K ⊆ f :: K'.
Proof. intros H g Hg. right. by apply H. Qed.
Lemma sub_in (K K' : facts) f : f ∈ K → K ⊆ K' → f ∈ K'.
Proof. intros H HK. by apply HK. Qed.

Ltac grow := repeat first [assumption|reflexivity|apply sub_app|apply sub_cons|etrans; [eassumption|]].

Lemma benign_raw e : benign (raw e).
Proof. done. Qed.

Lemma draft_mono K K' t0 : draft K t0 → K ⊆ K' → draft K' t0.
Proof. intros [H1 H2] HK. split; [by apply HK|done]. Qed.

Lemma pod_seen_mono K K' t P pod : pod_seen K t P pod → K ⊆ K' → pod_seen K' t P pod.
Proof. intros (t' & ps & H1 & H2 & H3 & H4 & H5) HK. exists t', ps. split_and!; auto. Qed.

Lemma judged_mono K K' t : judged K t → K ⊆ K' → judged K' t.
Proof.
  intros [mb|p|p|x] HK; [eapply judged_report|eapply judged_exit|eapply judged_early|eapply judged_timeout]; eauto using pod_seen_mono.
Qed.

Lemma failure_mono K K' t : failure K t → K ⊆ K' → failure K' t.
Proof.
  intros [mb|m|p|pod|p|p|p x|x since text] HK;
    [eapply fail_reported|eapply fail_silent|eapply fail_exit|eapply fail_lost|eapply fail_early|eapply fail_stuck|eapply fail_late|eapply fail_refused];
    eauto using pod_seen_mono.
Qed.

Lemma violation_mono K K' t class : violation K t class → K ⊆ K' → violation K' t class.
Proof.
  intros [| |name Hn H|g gs|] HK; [by apply bad_namespace|by apply bad_image| |eapply bad_grant; eauto|by apply bad_persistence].
  apply (bad_provider _ _ _ name Hn). destruct H as [?|[?|(nss & ? & ?)]]; [by left|right; left; by apply HK|right; right; exists nss; auto].
Qed.

Lemma forbidden_mono K K' t : forbidden K t → K ⊆ K' → forbidden K' t.
Proof. intros (class & H1 & H2) HK. exists class. split; [by apply HK|by eapply violation_mono]. Qed.

Lemma cleared_mono K K' t : cleared K t → K ⊆ K' → cleared K' t.
Proof. intros [H|(m & H & Hm)] HK; [left; by apply HK|right; exists m; auto]. Qed.

Lemma move_mono K K' t c c' : move K t c c' → K ⊆ K' → move K' t c c'.
Proof.
  intros M HK. assert (HR : ∀ a s m c, reports K t a s m c → reports K' t a s m c).
  { intros a s m c0 [H|(mb & H)]; [by left|right; exists mb; naive_solver]. }
  destruct M.
  - by apply move_hold.
  - apply move_wait; [done..|]. naive_solver.
  - eapply move_run; eauto.
  - apply move_judge. by eapply judged_mono.
  - apply move_retry; [done|by eapply failure_mono|done].
  - apply move_again. eauto using cleared_mono.
  - eapply move_fail; eauto. destruct H0 as [[? ?]|[? ?]]; [left|right]; eauto using failure_mono, forbidden_mono.
  - apply move_succeed; [auto|]. destruct H0 as [Hr Hs]. split; [auto|]. naive_solver.
  - eapply move_timeout; eauto.
  - apply move_leave.
Qed.

Lemma enter_phase c : c_phase c ≠ TaskNone → enter c = c.
Proof. unfold enter. by case_decide. Qed.

(** A held task may be written as it is. *)
Lemma hold_move K t0 s : holding K t0 s → CompletionTime s = None → move K t0 (core_of (t_Status t0)) (core_of s).
Proof.
  intros [_ E] Hd. assert (Hn : CompletionTime (t_Status t0) = None).
  { apply (f_equal c_done) in E. simpl in E. rewrite Hd in E. unfold enter in E. by case_decide. }
  rewrite E. unfold enter. case_decide as Hp; [|by apply move_hold].
  unfold core_of in *. simpl in *. rewrite Hn, Hp. apply move_wait; [by left|by right|by left].
Qed.

(** ** Rules *)

Lemma wpm_edit_status K t0 s f Q E :
  Q K (with_task_status t0 (f s)) () → wpm K (with_task_status t0 s) (edit f) Q E.
Proof. intros H. exact H. Qed.

Lemma wpm_now K t Q E : (∀ x, Q (FNow x :: K) t x) → wpm K t (lift Now) Q E.
Proof. intros H. apply wpm_lift; [done|]. intros x _. apply H. Qed.

(** A call that is no status write, when nothing it teaches is used. *)
Lemma wpm_call {B} K t (c : call B) Q E :
  match c with UpdateStatus _ => False | _ => True end →
  (∀ K' b, K ⊆ K' → Q K' t b) → wpm K t (lift c) Q E.
Proof.
  intros Hc H. apply wpm_lift; [by destruct c|]. intros b _. apply H. grow.
Qed.

Lemma wpm_update K t0 s Q E :
  draft K t0 → move K t0 (core_of (t_Status t0)) (core_of s) →
  (∀ v K', let t1 := with_version (with_task_status t0 (stored_status s)) v in
     draft K' t1 → K ⊆ K' → Q K' (with_task_status t1 (stored_status s)) ()) →
  (∀ e, E K (with_task_status t0 s) (raw e)) →
  wpm K (with_task_status t0 s) updateStatus Q E.
Proof.
  intros [Hk Hw] Hm HQ HE. apply wpm_bind, wpm_task, wpm_bind, wpm_lift; [by exists t0|].
  intros [t'|e] Hs; [|by apply HE]. destruct Hs as [v ->].
  refine (HQ v (FTask (with_version (with_task_status t0 (stored_status s)) v) :: K) _ _).
  - split; [by left|]. by apply (wf_stored s), (move_wf _ _ _ _ Hm).
  - grow.
Qed.

Lemma wpm_write K t0 s Q E :
  draft K t0 → move K t0 (core_of (t_Status t0)) (core_of s) → (∀ K' t b, Q K' t b) →
  (∀ K' t e, E K' t (raw e)) → wpm K (with_task_status t0 s) writeStatusIfChanged Q E.
Proof.
  intros Hd Hm HQ HE. apply wpm_bind, wpm_task, wpm_bind, wpm_call; [done|]. intros K' b HK.
  case_match; [by apply wpm_ret|]. 
  apply wpm_bind, wpm_update; [by eapply draft_mono|by eapply move_mono|intros; by apply wpm_ret|done].
Qed.

Lemma wpm_ready K t0 s ok reason msg Q E :
  (∀ x cs, let s' := set_Conditions s cs in Q (FNow x :: K) (with_task_status t0 s') ()) →
  wpm K (with_task_status t0 s) (setTaskReady ok reason msg) Q E.
Proof. intros H. apply wpm_bind, wpm_now. intros x. apply wpm_edit_status, H. Qed.

Lemma wpm_not_ready K t0 s reason msg (E : facts → AgentTask → error → Prop) :
  draft K t0 → move K t0 (core_of (t_Status t0)) (core_of s) → (∀ K' t e, E K' t (raw e)) →
  wpm K (with_task_status t0 s) (markTaskNotReady reason msg) any E.
Proof.
  intros Hd Hm HE. apply wpm_bind, wpm_task, wpm_bind, wpm_ready. intros x cs s'.
  apply wpm_bind, wpm_write; [eapply draft_mono; [done|grow]| |by intros; unfold when; case_match; [apply wpm_call|]|done].
  by apply (move_mono K); [|grow].
Qed.

(** ** Settling and retrying *)

Lemma wpm_settle K t0 s ph reason msg (E : facts → AgentTask → error → Prop) :
  draft K t0 →
  (∀ K' x, K ⊆ K' → FNow x ∈ K' → move K' t0 (core_of (t_Status t0))
     (mk_core ph (Retries s) (StartTime s) (Some x) (CurrentPodUID s) (ClassBounds s) (ArtifactValues s)
        (AgentReportedStatus s) (AgentReportedMessage s))) →
  (∀ K' t e, E K' t (raw e)) →
  wpm K (with_task_status t0 s) (settle ph reason msg) any E.
Proof.
  intros Hd Hm HE. apply wpm_bind, wpm_edit_status, wpm_bind, wpm_now. intros x.
  apply wpm_bind, wpm_edit_status, wpm_bind, wpm_now. intros y. apply wpm_bind, wpm_edit_status, wpm_bind, wpm_ready.
  intros z cs s'. assert (HK : K ⊆ FNow z :: FNow y :: FNow x :: K) by grow.
  apply wpm_bind, wpm_update; [by eapply draft_mono| |by intros; apply wpm_call|done].
  apply Hm; [done|]. by right; right; left.
Qed.

Lemma elem_of_noted K t x : FTask t ∈ K → FSaw t x ∈ noted K x.
Proof. intros H. apply list_elem_of_fmap. exists t. split; [done|]. apply list_elem_of_omap. by exists (FTask t). Qed.

Lemma wpm_pod K t (Q : facts → AgentTask → option Pod → Prop) E :
  (∀ K' p, K ⊆ K' → (∀ q, p = Some q → FPod q ∈ K') →
     (∀ t', FTask t' ∈ K → ∃ ps, FSaw t' (SawPods ps) ∈ K' ∧ chosen_pod ps = p) → Q K' t p) → (∀ K' e, E K' t (raw e)) →
  wpm K t ownedTaskPod Q E.
Proof.
  intros HQ HE. apply wpm_bind, wpm_lift; [done|]. intros [ps|e] _; [|apply HE]. apply wpm_ret, HQ.
  - grow.
  - intros q Hq. apply elem_of_app. left. apply elem_of_app. right. apply list_elem_of_fmap. exists q. split; [done|]. unfold chosen_pod in Hq.
    destruct (List.find _ _) eqn:Ef.
    + injection Hq as ->. apply find_some in Ef as [Ef _]. apply list_elem_of_In, list_elem_of_filter in Ef. by destruct Ef.
    + assert (Hin : ∀ l : list Pod, List.last (map Some l) None = Some q → q ∈ l).
      { intros l. induction l as [|a l IH]; [done|]. simpl. destruct l as [|b l]; [intros [= ->]; by left|].
        intros Hl. right. by apply IH. }
      apply Hin, list_elem_of_filter in Hq. by destruct Hq.
  - intros t' Ht. exists ps. split; [|done]. apply elem_of_app. left. apply elem_of_app. left. by apply elem_of_noted.
Qed.

(** The steps after the counting write: the mailbox is seen empty or is
    emptied before the task is provisioned again. *)
Lemma wpm_finishRetry pp K t0 s :
  draft K t0 → core_of s = core_of (t_Status t0) → Phase s = TaskFailed → CompletionTime s = None →
  wpm K (with_task_status t0 s) finishRetry any (blocked pp).
Proof.
  intros Hd Hc Hp Hn.
  assert (HB : ∀ K' e, K ⊆ K' → blocked pp K' (with_task_status t0 s) e).
  { intros K' e HK. right. exists t0, s. split_and!; [done| |done|by right]. split; [by eapply draft_mono|].
    rewrite Hc, enter_phase; [done|]. apply (f_equal c_phase) in Hc. simpl in *. congruence. }
  assert (HF : ∀ K', K ⊆ K' → (isAgentReported t0 = true → cleared K' t0) →
    wpm K' (with_task_status t0 s) (M_bind _ _ (λ _, updateStatus) (setTaskPhase TaskProvisioning)) any (blocked pp)).
  { intros K' HK Hcl. apply wpm_bind, wpm_edit_status, wpm_update; [by eapply draft_mono| |done|by left].
    rewrite <-Hc. unfold core_of. simpl. rewrite Hp, Hn. by apply move_again. }
  apply wpm_bind, wpm_pod; [|intros; by left]. intros K1 pod HK1 _ _.
  apply wpm_bind. eapply (wpm_mono _ _ _ (λ K' t' _, K ⊆ K' ∧ t' = with_task_status t0 s) _ (blocked pp)); [| |done].
  { destruct pod as [p|]; [|by apply wpm_ret]. unfold when. case_match; [|by apply wpm_ret].
    apply wpm_bind, wpm_call; [done|]. intros K2 [e|] HK2; [|apply wpm_ret; split; [by etrans|done]].
    case_match; try (apply wpm_ret; split; [by etrans|done]); apply wpm_throw, HB; by etrans. }
  intros K2 ? [] [HK2 ->]. apply wpm_bind, wpm_task. simpl.
  change (isAgentReported (with_task_status t0 s)) with (isAgentReported t0). apply wpm_bind.
  unfold when at 1. destruct (isAgentReported t0) eqn:Ha; [|by apply wpm_ret, HF].
  assert (Ht0 : FTask t0 ∈ K2) by (apply HK2, Hd).
  apply wpm_bind, wpm_lift; [done|]. intros [m| |e] _.
  - destruct (negb (mb_Controlled m)); [apply wpm_throw, HB; grow|].
    unfold when. destruct (bool_decide_reflect (mb_Data m = ∅)) as [Hm|Hm]; simpl negb; cbv iota.
    + apply wpm_ret, HF; [grow|]. intros _. right. exists (Some m). split; [|done]. apply elem_of_app. left. by apply elem_of_noted.
    + apply wpm_bind, wpm_lift; [done|]. intros [e|] _.
      * apply wpm_throw, HB. grow.
      * apply wpm_ret, HF; [grow|]. intros _. left. apply elem_of_app. left. apply elem_of_noted, (sub_in K2); [done|grow].
  - apply wpm_ret, HF; [grow|]. intros _. right. exists None. split; [|done]. apply elem_of_app. left. by apply elem_of_noted.
  - apply wpm_throw. left. apply benign_raw.
Qed.

(** A base a pass works on: the attempt is going on, and the draft has not
    counted a retry. *)
Definition working (K : facts) (t0 : AgentTask) (s : AgentTaskStatus) : Prop :=
  draft K t0 ∧ active (Phase (t_Status t0)) ∧ Retries s = Retries (t_Status t0) ∧
  StartTime s = StartTime (t_Status t0) ∧ CompletionTime s = None ∧ CurrentPodUID s = CurrentPodUID (t_Status t0).

Lemma working_mono K K' t0 s : working K t0 s → K ⊆ K' → working K' t0 s.
Proof. intros [Hd H] HK. split; [by eapply draft_mono|done]. Qed.

Lemma working_none K t0 s : working K t0 s → CompletionTime (t_Status t0) = None.
Proof. intros ([_ (_ & H & _)] & Ha & _). by apply H. Qed.

Lemma wpm_retry pp K t0 s reason msg :
  working K t0 s → failure K t0 → (Retries s < BackoffLimit (Completion (t_Spec t0)))%Z →
  wpm K (with_task_status t0 s) (retry reason msg) any (blocked pp).
Proof.
  intros Hw Hf Hr. pose proof (working_none _ _ _ Hw) as Hn. destruct Hw as (Hd & Ha & Er & Es & Ec & Eu).
  apply wpm_bind, wpm_task, wpm_bind, wpm_edit_status, wpm_bind, wpm_edit_status, wpm_bind, wpm_ready. intros x cs s'.
  apply wpm_bind, wpm_update; [eapply draft_mono; [done|grow]| | |by left].
  - unfold core_of, s'. simpl. rewrite Hn, Er, Ec in *. apply move_retry; [done|eapply failure_mono; [done|grow]|done].
  - intros v K' t1 Hd1 HK. apply wpm_bind, wpm_call; [done|]. intros K2 _ HK2.
    apply wpm_finishRetry; [by eapply draft_mono|done|done|]. simpl. by rewrite Ec.
Qed.

(** The report fields of a draft. *)
Definition reporting (K : facts) (t0 : AgentTask) (s : AgentTaskStatus) : Prop :=
  reports K t0 (ArtifactValues s) (AgentReportedStatus s) (AgentReportedMessage s) (core_of (t_Status t0)).

Lemma wpm_failed K t0 s reason msg (E : facts → AgentTask → error → Prop) :
  working K t0 s → reporting K t0 s → (∀ K' t e, E K' t (raw e)) →
  (failure K t0 ∧ (BackoffLimit (Completion (t_Spec t0)) <= Retries s)%Z ∨ waiting (Phase (t_Status t0)) ∧ forbidden K t0) →
  wpm K (with_task_status t0 s) (settle TaskFailed reason msg) any E.
Proof.
  intros Hw Hr HE Hl. pose proof (working_none _ _ _ Hw) as Hn. destruct Hw as (Hd & Ha & Er & Es & Ec & Eu).
  apply wpm_settle; [done| |done]. intros K' x HK Hx. apply (move_mono (FNow x :: K)); [|intros f [->|Hf]%elem_of_cons; auto].
  unfold reporting, core_of in *. simpl in *. rewrite Hn, Er, Es, Eu in *. apply move_fail; [done| |by left|].
  { destruct Hl as [[? ?]|[? ?]]; [left; split; [eapply failure_mono; [done|grow]|done]|right; split; [done|eapply forbidden_mono; [done|grow]]]. }
  destruct Hr as [Hr|(mb & Hr)]; [by left|right]. exists mb. destruct Hr as [? Hr]. split; [by right|done].
Qed.

Lemma wpm_failOrRetry pp K t0 s reason msg :
  working K t0 s → reporting K t0 s → failure K t0 → wpm K (with_task_status t0 s) (failOrRetry reason msg) any (blocked pp).
Proof.
  intros Hw Hr Hf. apply wpm_bind, wpm_task. simpl. destruct (Z.ltb_spec (Retries s) (BackoffLimit (Completion (t_Spec t0)))).
  - by apply wpm_retry.
  - apply wpm_failed; [done|done|by left|by left].
Qed.

(** A held task is a base, with its old report. *)
Lemma holding_working K t0 s : holding K t0 s → active (Phase s) → CompletionTime s = None → working K t0 s ∧ reporting K t0 s.
Proof.
  intros [Hd E] Ha Hn. unfold enter in E. unfold working, reporting, reports.
  assert (P : active (Phase (t_Status t0))).
  { apply (f_equal c_phase) in E. case_decide as Hp; simpl in *; [by left; left|]. congruence. }
  case_decide; injection E as ? ? ? ? ? ? ? ? ?; split_and!; try done; left; done.
Qed.

(** ** Completing *)

Lemma wpm_mailbox K t0 s (Q : facts → AgentTask → completionPayload → Prop) (E : facts → AgentTask → error → Prop) :
  draft K t0 →
  (∀ K', K ⊆ K' → FSaw t0 (SawMail None) ∈ K' → Q K' (with_task_status t0 s) (mk_payload "" "" ∅)) →
  (∀ K' m, K ⊆ K' → FMail t0 m ∈ K' → Q K' (with_task_status t0 s) (parseCompletion (mb_Data m))) →
  (∀ K' e, K ⊆ K' → E K' (with_task_status t0 s) e) →
  wpm K (with_task_status t0 s) readMailbox Q E.
Proof.
  intros Hd HQ HM HE. apply wpm_bind, wpm_task, wpm_bind, wpm_lift; [done|]. intros [m| |e] _.
  - destruct (mb_Controlled m); [|apply wpm_throw, HE; grow]. apply wpm_ret, HM; [grow|].
    apply elem_of_app. left. apply elem_of_noted, Hd.
  - apply wpm_ret, HQ; [grow|]. apply elem_of_app. left. apply elem_of_noted, Hd.
  - apply wpm_throw, HE. grow.
Qed.

Lemma timedOut_core x t0 s : core_of s = core_of (t_Status t0) → timedOut x (with_task_status t0 s) = timedOut x t0.
Proof.
  intros E. unfold timedOut, taskTimeout, effectiveTaskTimeout. simpl.
  apply (f_equal (λ c, (c_bounds c, c_start c))) in E. simpl in E. by injection E as -> ->.
Qed.

Definition judging (K : facts) (t0 : AgentTask) (s : AgentTaskStatus) : Prop :=
  draft K t0 ∧ core_of s = core_of (t_Status t0) ∧ Phase s = TaskCompleting.

Lemma judging_holding K t0 s : judging K t0 s → holding K t0 s ∧ CompletionTime s = None ∧ active (Phase s).
Proof.
  intros (Hd & E & Hp). assert (Ha : active (Phase s)) by (rewrite Hp; by right; right). split_and!; [|destruct Hd as [_ W]|done].
  - split; [done|]. rewrite enter_phase; [done|]. apply (f_equal c_phase) in E. simpl in *. congruence.
  - pose proof (f_equal c_done E) as Ed. pose proof (f_equal c_phase E) as Ep. simpl in *. rewrite Ed. apply W. simpl. by rewrite <-Ep.
Qed.

Lemma judging_mono K K' t0 s : judging K t0 s → K ⊆ K' → judging K' t0 s.
Proof. intros (Hd & H) HK. split; [by eapply draft_mono|done]. Qed.

Lemma judging_working K t0 s : judging K t0 s → working K t0 s ∧ reporting K t0 s.
Proof. intros (Hh & Hn & Ha)%judging_holding. by apply holding_working. Qed.

Lemma judging_blocked K t0 s e : judging K t0 s → blocked false K (with_task_status t0 s) e.
Proof. intros (Hh & Hn & _)%judging_holding. right. by exists t0, s. Qed.

(** A verdict of Succeeded or TimedOut on a task in Completing, whose draft
    differs in its report only. *)
Lemma wpm_verdict K t0 s s' ph reason msg :
  judging K t0 s →
  (∀ K' x c, K ⊆ K' → FNow x ∈ K' → c = core_of (t_Status t0) → c_phase c = TaskCompleting → c_done c = None →
     move K' t0 c (mk_core ph (c_retries c) (c_start c) (Some x) (c_uid c) (c_bounds c) (ArtifactValues s')
       (AgentReportedStatus s') (AgentReportedMessage s'))) →
  (Retries s', StartTime s', CurrentPodUID s', ClassBounds s') = (Retries s, StartTime s, CurrentPodUID s, ClassBounds s) →
  wpm K (with_task_status t0 s') (settle ph reason msg) any (blocked false).
Proof.
  intros Hj Hm Es. destruct (judging_holding _ _ _ Hj) as (_ & Hn & _). destruct Hj as (Hd & E & Hp).
  apply wpm_settle; [done| |by left]. intros K' x HK Hx. rewrite <-E. injection Es as -> -> -> ->.
  apply (Hm K' x (core_of s)); done.
Qed.

Lemma wpm_timeout K t0 s :
  judging K t0 s → (∃ x, FNow x ∈ K ∧ timedOut x t0 = true) → wpm K (with_task_status t0 s) settleTimeout any (blocked false).
Proof.
  intros Hj (y & Hy & Ht). apply wpm_bind, wpm_task. simpl.
  assert (Er : ∀ c, c = core_of (t_Status t0) → c_artifacts c = ArtifactValues s ∧ c_status c = AgentReportedStatus s ∧
    c_message c = AgentReportedMessage s).
  { intros c ->. destruct Hj as (_ & E & _). by rewrite <-E. }
  destruct (String.eqb_spec (OnTimeout (Completion (t_Spec t0))) onTimeoutSucceed); apply (wpm_verdict K t0 s s); try done;
    intros K' x [ph r st d u b a m1 m2] HK Hx Hc Hp Hn; simpl in *; subst ph d; destruct (Er _ Hc) as (<- & <- & <-); simpl.
  - apply move_succeed; [done|]. split; [by left|]. right; right. exists y. auto.
  - by apply (move_timeout _ _ _ _ _ _ _ _ _ x y); auto.
Qed.

(** The Pod a pass has in hand. *)
Definition in_hand (K : facts) (t0 : AgentTask) (pod : option Pod) : Prop :=
  (∀ p, pod = Some p → FPod p ∈ K) ∧ pod_seen K t0 anytime pod.

Lemma in_hand_mono K K' t0 pod : in_hand K t0 pod → K ⊆ K' → in_hand K' t0 pod.
Proof. intros [H1 H2] HK. split; [intros p Hp; by apply HK, H1|by eapply pod_seen_mono]. Qed.

(** The same attempt in a later version. *)
Lemma pod_seen_next K t0 t1 P pod : pod_seen K t0 P pod → Retries (t_Status t1) = Retries (t_Status t0) → pod_seen K t1 P pod.
Proof. intros (t' & ps & H1 & H2 & H3) E. exists t', ps. rewrite E. done. Qed.

Lemma in_hand_next K t0 t1 pod : in_hand K t0 pod → Retries (t_Status t1) = Retries (t_Status t0) → in_hand K t1 pod.
Proof. intros [H1 H2] E. split; [done|by eapply pod_seen_next]. Qed.

(** A Pod that is judged has ended, or was looked for while the attempt ran. *)
Definition judged_pod (K : facts) (t0 : AgentTask) (pod : option Pod) : Prop :=
  in_hand K t0 pod ∧ (from_option ended False pod ∨ pod_seen K t0 under_way pod).

Lemma wpm_completing K t0 s pod :
  judging K t0 s → judged_pod K t0 pod → wpm K (with_task_status t0 s) (driveCompleting pod) any (blocked false).
Proof.
  intros Hj [[Hpod Hany] Hlost]. apply wpm_bind, wpm_task. change (isAgentReported (with_task_status t0 s)) with (isAgentReported t0).
  assert (Hph : Phase (t_Status t0) = TaskCompleting).
  { destruct Hj as (_ & E & Hp). apply (f_equal c_phase) in E. simpl in E. congruence. }
  assert (HT : ∀ K' msg, K ⊆ K' → failure K' t0 → wpm K' (with_task_status t0 s)
    (M_bind _ _ (λ now, if timedOut now (with_task_status t0 s) then settleTimeout else failOrRetry "PodDisrupted" msg) (lift Now))
    any (blocked false)).
  { intros K' msg HK Hf. apply wpm_bind, wpm_now. intros x. rewrite timedOut_core by apply Hj.
    assert (Hj' : judging (FNow x :: K') t0 s) by (eapply judging_mono; [done|grow]). destruct (timedOut x t0) eqn:Ht.
    - apply wpm_timeout; [done|]. exists x. split; [by left|done].
    - apply wpm_failOrRetry; [by eapply judging_working..|eapply failure_mono; [done|grow]]. }
  destruct (isAgentReported t0) eqn:Ha.
  - apply wpm_bind, wpm_mailbox; [apply Hj| | |].
    + intros K' HK Hm. apply HT; [done|]. by eapply fail_silent.
    + intros K' m HK Hm. assert (Hj' : judging K' t0 s) by (by eapply judging_mono).
      destruct (negb (pl_Status _ =? "")%string) eqn:Es.
      2: { apply negb_false_iff, String.eqb_eq in Es. apply HT; [done|]. by eapply fail_silent. }
      apply negb_true_iff, String.eqb_neq in Es. cbv zeta. simpl t_Spec.
      destruct (negb (validateArtifactNames (parseCompletion (mb_Data m)) (Artifacts (t_Spec t0)) =? "")%string) eqn:Ev.
      { apply negb_true_iff, String.eqb_neq in Ev. apply wpm_failOrRetry; [by eapply judging_working..|]. eapply fail_reported; eauto. }
      apply negb_false_iff, String.eqb_eq in Ev. apply wpm_bind, wpm_edit_status.
      set (s' := report (parseCompletion (mb_Data m)) (str (Truncate (bs (pl_Message (parseCompletion (mb_Data m)))) maxAgentMessageBytes)) s).
      assert (Hr : ∀ c, reports K' t0 (ArtifactValues s') (AgentReportedStatus s') (AgentReportedMessage s') c).
      { intros c. right. by exists m. }
      destruct (String.eqb_spec (pl_Status (parseCompletion (mb_Data m))) CompletionStatusSuccess) as [Ec|Ec].
      * apply (wpm_verdict K' t0 s s'); [done| |done]. intros K2 x [ph r st d u b a m1 m2] HK2 Hx Hc Hp Hn. simpl in *. subst ph d.
        apply move_succeed; [done|]. destruct (Hr (mk_core TaskCompleting r st None u b a m1 m2)) as [Hl|(mb & Hmb & Hrest)].
        -- simpl in Hl. split; [right; exists m|left; split_and!; [done|done|]; exists m]; split_and!; auto.
        -- split; [right; exists mb; auto|]. left. split_and!; [done|done|]. exists m. auto.
      * destruct (judging_working _ _ _ Hj') as [Hw _]. apply wpm_failOrRetry; [done|apply Hr|]. eapply fail_reported; eauto.
    + intros K' e HK. apply judging_blocked. by eapply judging_mono.
  - assert (HL : pod_seen K t0 under_way pod → match pod with Some p => ¬ ended p | None => True end → failure K t0).
    { intros Hu Hne. eapply fail_lost; [|exact Hu|by destruct pod]. rewrite Hph. by intros [?|[?|?]]. }
    destruct pod as [p|]; [|destruct Hlost; [done|by apply HT, HL]].
    destruct (p_Phase p) eqn:Ep; try (apply HT; [done|]; destruct Hlost as [[?|?]|Hu]; [congruence..|]; apply HL; [done|]; intros [?|?]; congruence).
    + apply (wpm_verdict K t0 s s); [done| |done]. intros K' x [ph r st d u b a m1 m2] HK Hx Hc Hp Hn. simpl in *. subst ph d.
      destruct Hj as (_ & E & _). rewrite <-E in Hc.
      assert (a = ArtifactValues s ∧ m1 = AgentReportedStatus s ∧ m2 = AgentReportedMessage s) as (-> & -> & ->) by (by injection Hc).
      apply move_succeed; [done|]. split; [by left|]. right; left. split; [done|]. exists p. split; [by apply HK, Hpod|done].
    + apply wpm_failOrRetry; [by eapply judging_working..|by eapply fail_exit].
Qed.

(** ** Calls that leave the task alone *)

Definition quiet {A} (m : M A) : Prop :=
  ∀ K t (Q : facts → AgentTask → A → Prop) (E : facts → AgentTask → error → Prop),
    (∀ K' a, K ⊆ K' → Q K' t a) → (∀ K' e, K ⊆ K' → E K' t e) → wpm K t m Q E.

Lemma quiet_ret {A} (a : A) : quiet (M_ret A a).
Proof. intros K t Q E HQ HE. by apply wpm_ret, HQ. Qed.

Lemma quiet_throw {A} e : quiet (@throw _ A e).
Proof. intros K t Q E HQ HE. by apply wpm_throw, HE. Qed.

Lemma quiet_bind {A B} (f : A → M B) (m : M A) : quiet m → (∀ a, quiet (f a)) → quiet (M_bind A B f m).
Proof.
  intros Hm Hf K t Q E HQ HE. apply wpm_bind, Hm; [|done]. intros K' a HK. apply Hf.
  - intros K2 b HK2. apply HQ. by etrans.
  - intros K2 e HK2. apply HE. by etrans.
Qed.

(** A function of the task as it stands. *)
Lemma quiet_task {B} (f : AgentTask → M B) : (∀ t, quiet (f t)) → quiet (M_bind AgentTask B f the_task).
Proof. intros Hf K t Q E HQ HE. by apply wpm_bind, wpm_task, Hf. Qed.

Lemma quiet_lift {B} (c : call B) : match c with UpdateStatus _ => False | _ => True end → quiet (lift c).
Proof. intros Hc K t Q E HQ HE. by apply wpm_call. Qed.

Lemma quiet_try {A} (m : M A) : quiet m → quiet (try m).
Proof. intros Hm K t Q E HQ HE. apply wpm_try, Hm; auto. Qed.

Ltac quiet_step :=
  lazymatch goal with
  | |- quiet (@mbind _ _ _ _ _ the_task) => apply quiet_task; intros ?
  | |- quiet (@mbind _ _ _ _ _ _) => apply quiet_bind; [|intros ?]
  | |- quiet (@mret _ _ _ _) => apply quiet_ret
  | |- quiet (throw _) => apply quiet_throw
  | |- quiet (lift _) => apply quiet_lift; done
  | |- quiet (try _) => apply quiet_try
  | |- quiet (match _ with _ => _ end) => case_match
  end.
Ltac solve_quiet := cbv zeta; repeat (quiet_step; cbv zeta).

Lemma quiet_ok_or o : quiet (ok_or o).
Proof. unfold ok_or, skip. solve_quiet. Qed.

Lemma quiet_certificate : quiet ensureTaskCertificate.
Proof. unfold ensureTaskCertificate. solve_quiet; apply quiet_ok_or. Qed.

Lemma quiet_tryAll cs : quiet (tryAll cs).
Proof. induction cs; simpl; solve_quiet; done. Qed.

Lemma quiet_restore class p b : quiet (restoreTaskChildren class p b).
Proof. unfold restoreTaskChildren, skip. solve_quiet; first [apply quiet_tryAll|apply quiet_certificate]. Qed.

Lemma quiet_requeue : quiet runningRequeue.
Proof. unfold runningRequeue. solve_quiet. Qed.

Lemma quiet_held d : quiet (heldRequeue d).
Proof. unfold heldRequeue. solve_quiet; apply quiet_requeue. Qed.

Lemma quiet_env checked env : quiet (checkEnvSecrets checked env).
Proof. revert checked. induction env as [|[n [sec|]] env IH]; intros checked; simpl; solve_quiet; apply IH. Qed.

Lemma quiet_pull names : quiet (pullSecretMissing names).
Proof. induction names; simpl; solve_quiet; done. Qed.

(** ** Writes of children

    They leave the task alone too; when one is refused, the pass has seen the
    refusal. *)

Definition refusal_seen (K : facts) (t0 : AgentTask) (e : error) : Prop :=
  ∀ text, asChildWriteRejected e = Some text → FSaw t0 (SawRefusal text) ∈ K.

Definition careful {A} (m : M A) : Prop :=
  ∀ K t0 s (Q : facts → AgentTask → A → Prop) (E : facts → AgentTask → error → Prop), draft K t0 →
    (∀ K' a, K ⊆ K' → Q K' (with_task_status t0 s) a) →
    (∀ K' e, K ⊆ K' → refusal_seen K' t0 e → E K' (with_task_status t0 s) e) → wpm K (with_task_status t0 s) m Q E.

Lemma careful_ret {A} (a : A) : careful (M_ret A a).
Proof. intros K t0 s Q E Hd HQ HE. by apply wpm_ret, HQ. Qed.

Lemma careful_throw {A} e : asChildWriteRejected e = None → careful (@throw _ A e).
Proof. intros He K t0 s Q E Hd HQ HE. apply wpm_throw, HE; [done|]. intros text. by rewrite He. Qed.

Lemma careful_bind {A B} (f : A → M B) (m : M A) : careful m → (∀ a, careful (f a)) → careful (M_bind A B f m).
Proof.
  intros Hm Hf K t0 s Q E Hd HQ HE. apply wpm_bind, Hm; [done| |done]. intros K' a HK. apply Hf; [by eapply draft_mono| |].
  - intros K2 b HK2. apply HQ. by etrans.
  - intros K2 e HK2. apply HE. by etrans.
Qed.

Lemma careful_task {B} (f : AgentTask → M B) : (∀ t, careful (f t)) → careful (M_bind AgentTask B f the_task).
Proof. intros Hf K t0 s Q E Hd HQ HE. by apply wpm_bind, wpm_task, Hf. Qed.

Lemma careful_lift {B} (c : call B) : match c with UpdateStatus _ => False | _ => True end → careful (lift c).
Proof. intros Hc K t0 s Q E Hd HQ HE. by apply wpm_call. Qed.

(** A write of a child, with what follows. *)
Definition child_call (c : call (option error)) : Prop := ∀ K, owes K c ∧ ∀ r, learn K c r = refused K r.

Lemma wpm_child {B} c (rest : M B) K t0 s (Q : facts → AgentTask → B → Prop) (E : facts → AgentTask → error → Prop) :
  child_call c → draft K t0 → (∀ K', K ⊆ K' → wpm K' (with_task_status t0 s) rest Q E) →
  (∀ K' e, K ⊆ K' → refusal_seen K' t0 e → E K' (with_task_status t0 s) e) →
  wpm K (with_task_status t0 s) (M_bind _ _ (λ r, M_bind _ _ (λ _, rest) (ok_or r)) (lift c)) Q E.
Proof.
  intros Hc Hd HQ HE. destruct (Hc K) as [Ho Hl]. apply wpm_bind, wpm_lift; [done|]. intros r _. rewrite Hl. apply wpm_bind.
  destruct r as [e|]; [|apply wpm_ret, HQ; grow]. apply wpm_throw, HE; [grow|]. intros text Ht. simpl. rewrite Ht.
  apply elem_of_app. left. apply elem_of_noted, Hd.
Qed.

Lemma careful_child {B} c (rest : M B) : child_call c → careful rest → careful (M_bind _ _ (λ r, M_bind _ _ (λ _, rest) (ok_or r)) (lift c)).
Proof.
  intros Hc Hr K t0 s Q E Hd HQ HE. apply wpm_child; [done|done| |done]. intros K' HK. apply Hr; [by eapply draft_mono| |].
  - intros. apply HQ. by etrans.
  - intros. apply HE; [by etrans|done].
Qed.

Lemma careful_last c : child_call c → careful (M_bind _ _ ok_or (lift c)).
Proof.
  intros Hc K t0 s Q E Hd HQ HE. destruct (Hc K) as [Ho Hl]. apply wpm_bind, wpm_lift; [done|]. intros r _. rewrite Hl.
  destruct r as [e|]; [|apply wpm_ret, HQ; grow]. apply wpm_throw, HE; [grow|]. intros text Ht. simpl. rewrite Ht.
  apply elem_of_app. left. apply elem_of_noted, Hd.
Qed.

Lemma careful_certificate : careful ensureTaskCertificate.
Proof.
  assert (Hcreate : ∀ t, careful (M_bind _ _ (λ r, M_bind _ _ (λ _, M_ret _ ("", false)) (ok_or r)) (lift (CreateCertificate (taskCertificateName (t_Name t)))))).
  { intros t. apply careful_child; [done|apply careful_ret]. }
  apply careful_task. intros t. apply careful_bind; [by apply careful_lift|]. intros [c| |e]; [| |by apply careful_throw].
  - destruct (crt_Controlled c); [apply careful_ret|by apply careful_throw].
  - apply careful_bind; [by apply careful_lift|]. intros [c| |e]; [|apply Hcreate|by apply careful_throw].
    destruct (crt_Controlled c); [apply careful_ret|apply Hcreate].
Qed.

Lemma careful_convergeAll cs : careful (convergeAll cs).
Proof. induction cs as [|c cs IH]; [apply careful_ret|]. by apply careful_child. Qed.

Lemma careful_children class eff : careful (ensureTaskChildren class eff).
Proof.
  apply careful_task. intros t. apply careful_bind; [apply careful_convergeAll|]. intros _. apply careful_bind; [by apply careful_lift|].
  intros [b|e]; [by apply careful_last|]. case_match; [by apply careful_last|by apply careful_throw].
Qed.

(** ** Violations *)

Lemma wpm_providers K t0 s cn class names Q E :
  draft K t0 → (∀ name, name ∈ names → name ∈ ts_Providers (t_Spec t0)) → (∀ K', K ⊆ K' → Q K' (with_task_status t0 s) None) →
  (∀ K' v, K ⊆ K' → violation K' t0 class → Q K' (with_task_status t0 s) (Some v)) →
  wpm K (with_task_status t0 s) (providerViolation (t_Namespace t0) cn (tc_AllowedProviders class) names) Q E.
Proof.
  revert K. induction names as [|name names IH]; intros K Hd Hin HQ HV; [by apply wpm_ret, HQ|]. cbn [providerViolation].
  assert (Hname : name ∈ ts_Providers (t_Spec t0)) by (apply Hin; by left).
  destruct (bool_decide_reflect (name ∈ tc_AllowedProviders class)) as [Ha|Ha]; cbn [negb].
  2: { apply wpm_ret, HV; [done|]. apply (bad_provider _ _ _ name); [done|by left]. }
  apply wpm_bind, wpm_lift; [done|]. intros r _.
  assert (Hs : FSaw t0 (SawProvider name r) ∈ learn K (GetProvider name) r ++ K) by (apply elem_of_app; left; apply elem_of_noted, Hd).
  set (K1 := learn K (GetProvider name) r ++ K) in *. assert (HK : K ⊆ K1) by grow.
  assert (Hrest : wpm K1 (with_task_status t0 s) (providerViolation (t_Namespace t0) cn (tc_AllowedProviders class) names) Q E).
  { apply IH; [by eapply draft_mono|intros; apply Hin; by right|intros; apply HQ; by etrans|intros; apply HV; [by etrans|done]]. }
  destruct r as [nss| |e]; [|apply wpm_ret, HV; [done|]; apply (bad_provider _ _ _ name); [done|by right; left]|exact Hrest].
  destruct (namespaceAllowed (t_Namespace t0) nss) eqn:En; cbn [negb]; [exact Hrest|].
  apply wpm_ret, HV; [done|]. apply (bad_provider _ _ _ name); [done|]. right; right. by exists nss.
Qed.

Lemma wpm_violation K t0 s class eff Q E :
  draft K t0 → eff_Image eff = eff_Image (deriveEffectiveTaskSpec t0 class) → (∀ K', K ⊆ K' → Q K' (with_task_status t0 s) None) →
  (∀ K' v, K ⊆ K' → violation K' t0 class → Q K' (with_task_status t0 s) (Some v)) →
  wpm K (with_task_status t0 s) (taskViolation class eff) Q E.
Proof.
  intros Hd He HQ HV. apply wpm_bind, wpm_task. cbv zeta. change (t_Namespace (with_task_status t0 s)) with (t_Namespace t0).
  destruct (AdmitsNamespace _ (t_Namespace t0)) eqn:En; cbn [negb]; [|by apply wpm_ret, HV, bad_namespace].
  destruct (negb (eff_Image eff =? "")%string && negb (imageAllowed (eff_Image eff) (tc_AllowedImages class))) eqn:Ei.
  { apply andb_true_iff in Ei as [E1%negb_true_iff%String.eqb_neq E2%negb_true_iff]. rewrite He in E1, E2. by apply wpm_ret, HV, bad_image. }
  apply wpm_bind, (wpm_providers _ _ _ _ class); [done|done| |].
  2: { intros K1 v HK1 Hv. apply wpm_ret, HV; [grow|done]. }
  intros K1 HK1. apply wpm_bind, wpm_lift; [done|]. intros [|g gs] _.
  - apply wpm_ret. change (t_Spec (with_task_status t0 s)) with (t_Spec t0).
    destruct (PersistenceEnabled (t_Spec t0) && negb (tc_PersistenceEnabled class)) eqn:Ep; [|apply HQ; grow].
    apply andb_true_iff in Ep as [E1 E2%negb_true_iff]. apply HV; [grow|by apply bad_persistence].
  - apply wpm_ret, HV; [grow|]. eapply bad_grant, elem_of_app. left. apply elem_of_noted, (sub_in K); [apply Hd|done].
Qed.

(** ** Provisioning *)

(** The task waits for its Pod. *)
Definition pending (K : facts) (t0 : AgentTask) (s : AgentTaskStatus) : Prop :=
  holding K t0 s ∧ waiting (Phase s) ∧ CompletionTime s = None ∧ CreateRejectedTime s = CreateRejectedTime (t_Status t0).

Lemma holding_mono K K' t0 s : holding K t0 s → K ⊆ K' → holding K' t0 s.
Proof. intros [Hd E] HK. split; [by eapply draft_mono|done]. Qed.

Lemma pending_mono K K' t0 s : pending K t0 s → K ⊆ K' → pending K' t0 s.
Proof. intros (H & H') HK. split; [by eapply holding_mono|done]. Qed.

Lemma pending_blocked pp K t0 s e : pending K t0 s → (pp = true → refusal_seen K t0 e) → blocked pp K (with_task_status t0 s) e.
Proof. intros (Hh & Hw & Hn & Hr) He. right. exists t0, s. split_and!; [done..|]. intros Hp. left. split; [done|split; [done|by apply He]]. Qed.

Lemma pending_working K t0 s : pending K t0 s → working K t0 s ∧ reporting K t0 s.
Proof. intros (Hh & Hw & Hn & _). apply holding_working; [done|by left|done]. Qed.

(** The base of a pending task, for its next write. *)
Lemma pending_core K t0 s : pending K t0 s → ∃ ph, waiting ph ∧
  core_of (t_Status t0) = mk_core ph (Retries s) (StartTime s) None (CurrentPodUID s) (ClassBounds s)
    (ArtifactValues s) (AgentReportedStatus s) (AgentReportedMessage s) ∧
  (Phase s = TaskPending ∧ ph ≠ TaskProvisioning ∨ Phase s = TaskProvisioning).
Proof.
  intros ([Hd E] & Hw & Hn & _). exists (Phase (t_Status t0)). unfold enter in E. unfold core_of at 1.
  case_decide as Hp; injection E as Ep -> -> Ed -> -> -> -> ->; rewrite Hn in Ed; simpl in *.
  - split_and!; [by left|by rewrite Ed|]. rewrite Hp. by left.
  - split_and!; [by rewrite <-Ep|by rewrite Ed|]. rewrite <-Ep in *. destruct Hw as [Hw|[Hw|Hw]]; [done|left|by right].
    split; [done|congruence].
Qed.

(** A write of a pending task: it stays, or it is provisioned, perhaps with
    the identity of a Pod. *)
Lemma pending_move K t0 s s' :
  pending K t0 s → Phase s' = Phase s ∨ Phase s' = TaskProvisioning →
  (CurrentPodUID s' = CurrentPodUID s ∨ ∃ p, FPod p ∈ K ∧ p_UID p = CurrentPodUID s') →
  (Retries s', StartTime s', CompletionTime s', ArtifactValues s', AgentReportedStatus s', AgentReportedMessage s')
    = (Retries s, StartTime s, CompletionTime s, ArtifactValues s, AgentReportedStatus s, AgentReportedMessage s) →
  move K t0 (core_of (t_Status t0)) (core_of s').
Proof.
  intros Hp Hph Hu Es. pose proof Hp as (_ & _ & Hn & _). destruct (pending_core _ _ _ Hp) as (ph & Hw & -> & Hor).
  unfold core_of. injection Es as -> -> -> -> -> ->. rewrite Hn. apply move_wait; [done| |done].
  destruct Hph as [-> | ->]; [|by left]. destruct Hor as [[-> ?]| ->]; [right|left]; done.
Qed.

Lemma pending_phase K t0 s : pending K t0 s → waiting (Phase (t_Status t0)).
Proof. intros Hp. destruct (pending_core _ _ _ Hp) as (ph & Hph & E & _). apply (f_equal c_phase) in E. simpl in E. by rewrite E. Qed.

Lemma wpm_createRejected pp K t0 s class reason what text :
  pending K t0 s → FSaw t0 (SawRefusal text) ∈ K → wpm K (with_task_status t0 s) (createRejected class reason what text) any (blocked pp).
Proof.
  intros Hp Hs. apply wpm_bind, wpm_now. intros x. assert (Hp' : pending (FNow x :: K) t0 s) by (eapply pending_mono; [done|grow]).
  apply wpm_bind, wpm_edit_status, wpm_bind, wpm_task. destruct (pending_working _ _ _ Hp') as [Hw Hr].
  destruct (_ <? _)%Z eqn:El.
  - assert (Hf : failure (FNow x :: K) t0).
    { apply Z.ltb_lt in El. simpl in El. pose proof Hp as (_ & _ & _ & Ec). rewrite Ec in El.
      destruct (CreateRejectedTime (t_Status t0)) as [since|] eqn:Er; simpl in El.
      - eapply fail_refused; [by eapply pending_phase|by right|by left|done|done].
      - unfold Sub, provisioningDeadline in El. rewrite Z.sub_diag in El. by vm_compute in El. }
    apply wpm_bind. unfold when. case_match; [apply wpm_edit_status|apply wpm_ret]; apply wpm_bind.
    all: eapply wpm_mono; [apply wpm_failOrRetry; done|by intros; apply wpm_ret|done].
  - apply wpm_bind, wpm_edit_status, wpm_bind. eapply wpm_mono; [apply wpm_not_ready|by intros; apply wpm_ret|done].
    + apply Hp'.
    + apply (pending_move _ _ s); [done|by right|by left|done].
    + by left.
Qed.

Lemma wpm_provisionPod K t0 s class eff :
  pending K t0 s → wpm K (with_task_status t0 s) (provisionPod class eff) any (blocked true).
Proof.
  intros Hp. assert (HB : ∀ K' e, K ⊆ K' → refusal_seen K' t0 e → blocked true K' (with_task_status t0 s) e).
  { intros K' e HK He. apply pending_blocked; [by eapply pending_mono|done]. }
  apply wpm_bind, careful_certificate; [apply Hp| |done]. intros K1 [tls ready] HK1. destruct ready; simpl negb; cbv iota.
  - apply wpm_bind, careful_children; [eapply draft_mono; [apply Hp|done]| |intros; apply HB; [grow|done]]. intros K2 _ HK2. apply wpm_bind, wpm_lift; [done|].
    intros [p|e] _.
    + apply wpm_bind, wpm_edit_status, wpm_bind, wpm_ready. intros x cs s'. apply wpm_bind, wpm_task, wpm_bind, wpm_edit_status.
      assert (Hp' : pending (FNow x :: learn K2 (CreatePod tls) (inl p) ++ K2) t0 s) by (eapply pending_mono; [done|grow]).
      apply wpm_bind, wpm_update; [apply Hp'| |by intros; apply wpm_ret|by left].
      unfold record_pod. apply (pending_move _ _ s); [done|right; by case_match| |by case_match].
      case_match; [right; exists p; split; [by right; left|done]|by left].
    + destruct (isWriteRejection e) eqn:Ew; cbn [negb]; [|by apply wpm_throw; left]. apply wpm_createRejected.
      * eapply pending_mono; [done|grow].
      * simpl. rewrite Ew. apply elem_of_app. left. apply elem_of_noted, (sub_in K); [apply Hp|grow].
  - assert (Hp' : ∀ x, pending (FNow x :: K1) t0 s) by (intros; eapply pending_mono; [done|grow]).
    apply wpm_bind, wpm_task, wpm_bind. unfold when.
    case_match; [apply wpm_edit_status|apply wpm_ret]; apply wpm_bind, wpm_ready; intros x cs s'; apply wpm_bind, wpm_bind, wpm_write;
      try (by intros; apply wpm_ret, wpm_ret); try (by left); try apply (Hp' x).
    + apply (pending_move _ _ s); [done|by right|by left|done].
    + apply (pending_move _ _ s); [done|by left|by left|done].
Qed.

Lemma stored_phase s : Phase (stored_status s) = Phase s.
Proof. done. Qed.
Lemma stored_done s : CompletionTime (stored_status s) = stored_time <$> CompletionTime s.
Proof. done. Qed.

Lemma holding_stored K t0 s v : let t1 := with_version (with_task_status t0 (stored_status s)) v in
  draft K t1 → Phase s ≠ TaskNone → holding K t1 (stored_status s).
Proof. intros t1 Hd Hp. split; [done|]. by rewrite enter_phase. Qed.

Lemma holding_retries K t0 s : holding K t0 s → Retries s = Retries (t_Status t0).
Proof. intros [_ E]. apply (f_equal c_retries) in E. unfold enter in E. by case_decide. Qed.

Lemma wpm_complete K t0 s pod :
  holding K t0 s → CompletionTime s = None → Phase s = TaskRunning ∨ pending K t0 s →
  judged K t0 → judged_pod K t0 pod → wpm K (with_task_status t0 s) (complete pod) any (blocked false).
Proof.
  intros Hh Hn Hp Hj [Hi Hl]. pose proof (holding_retries _ _ _ Hh) as Er.
  apply wpm_bind, wpm_edit_status, wpm_bind, wpm_update; [apply Hh| | |by left].
  - destruct Hp as [Hp|Hp].
    + destruct Hh as [Hd E]. rewrite enter_phase in E.
      * rewrite <-E. unfold core_of. simpl. rewrite Hp, Hn. by apply move_judge.
      * intros Hno. unfold enter in E. rewrite decide_True in E by done. apply (f_equal c_phase) in E. simpl in E. congruence.
    + destruct (pending_core K t0 s) as (ph & Hw & -> & _); [done|]. unfold core_of. simpl. rewrite Hn. by apply move_judge.
  - intros v K' t1 Hd HK. apply wpm_completing; [done|]. assert (E1 : Retries (t_Status t1) = Retries (t_Status t0)) by exact Er.
    split; [eapply in_hand_next; [by eapply in_hand_mono|done]|].
    destruct Hl as [?|Hl]; [by left|right]. eapply pod_seen_next; [by eapply pod_seen_mono|done].
Qed.

Lemma stored_blocked K t0 s v e : let t1 := with_version (with_task_status t0 (stored_status s)) v in
  draft K t1 → Phase s ≠ TaskNone → CompletionTime s = None → blocked false K (with_task_status t1 (stored_status s)) e.
Proof.
  intros t1 Hd Hp Hn. right. exists t1, (stored_status s). split_and!; [done|by apply holding_stored| |done]. simpl. by rewrite Hn.
Qed.

Lemma wpm_await K t0 s class p : pending K t0 s → wpm K (with_task_status t0 s) (awaitPodReady class p) any (blocked false).
Proof.
  intros Hp. apply wpm_bind, quiet_restore; [|intros; apply pending_blocked; [by eapply pending_mono|done]].
  intros K' _ HK. apply wpm_bind, wpm_ready. intros x cs s'.
  assert (Hp' : pending (FNow x :: K') t0 s) by (eapply pending_mono; [done|grow]).
  apply wpm_bind, wpm_bind, wpm_write; [apply Hp'| |by intros; apply wpm_ret, wpm_ret|by left].
  apply (pending_move _ _ s); [done|by left|by left|done].
Qed.

Lemma wpm_watchPod K t0 s class p :
  pending K t0 s → in_hand K t0 (Some p) → wpm K (with_task_status t0 s) (watchPod class p) any (blocked false).
Proof.
  intros Hp Hi. pose proof (proj1 Hi p eq_refl) as HFp. pose proof (pending_phase _ _ _ Hp) as Hph0. pose proof (proj2 Hi) as Hseen. destruct (pending_working _ _ _ Hp) as [Hw Hr].
  assert (HF : ∀ K' reason msg, K ⊆ K' → failure K' t0 → wpm K' (with_task_status t0 s)
    (M_bind _ _ (λ _, M_ret _ 0%Z) (failOrRetry reason msg)) any (blocked false)).
  { intros K' reason msg HK Hf. apply wpm_bind. eapply wpm_mono; [apply wpm_failOrRetry|by intros; apply wpm_ret|done];
      [by eapply working_mono| |done]. destruct Hr as [Hr|(mb & Hm & Hr)]; [by left|right]. exists mb. split; [by apply HK|done]. }
  apply wpm_bind, wpm_task. destruct (podReady p) eqn:Er.
  { apply wpm_bind, wpm_edit_status, wpm_bind, wpm_now. intros x. apply wpm_bind, wpm_edit_status, wpm_bind, wpm_ready.
    intros y cs s'. apply wpm_bind, wpm_update; [eapply draft_mono; [apply Hp|grow]| | |by left].
    - destruct (pending_core _ _ _ Hp) as (ph & Hph & -> & _). pose proof Hp as (_ & _ & Hn & _). unfold core_of, s'. simpl. rewrite Hn.
      apply (move_run _ _ _ _ _ _ _ _ _ _ x p); [done|by do 2 right|done|by right; left].
    - intros v K' t1 Hd HK. apply quiet_requeue; [done|]. intros K2 e HK2. apply stored_blocked; [by eapply draft_mono|done|apply Hp]. }
  case_decide as Hph.
  - change (isAgentReported (with_task_status t0 s)) with (isAgentReported t0).
    destruct (negb (isAgentReported t0) && _) eqn:Ee.
    2: { apply HF; [done|]. destruct Hph as [Hph|Hph]; [|by eapply fail_exit]. rewrite Hph, bool_decide_true, andb_true_r in Ee by done.
         apply negb_false_iff in Ee. by eapply fail_early. }
    apply andb_true_iff in Ee as [Ee Es%bool_decide_eq_true].
    apply negb_true_iff in Ee. apply wpm_bind. eapply wpm_mono; [apply wpm_complete|by intros; apply wpm_ret|done].
    + apply Hp.
    + apply Hp.
    + by right.
    + by eapply judged_early.
    + split; [done|]. by left.
  - destruct (fatal_wait p) as [[reason msg]|] eqn:Ef; [apply HF; [done|]; eapply fail_stuck; by eauto|]. apply wpm_bind, wpm_now. intros x.
    case_match eqn:El.
    { apply HF; [grow|]. apply Z.ltb_lt in El. eapply fail_late; [done|eapply pod_seen_mono; [done|grow]|done|by left|done]. }
    apply wpm_await. eapply pending_mono; [done|grow].
Qed.

Lemma wpm_provisioning K t0 s class eff pod :
  pending K t0 s → in_hand K t0 pod →
  wpm K (with_task_status t0 s) (driveProvisioning class eff pod) any (blocked (bool_decide (pod = None))).
Proof.
  intros Hp Hpod. destruct pod as [p|]; [|rewrite bool_decide_true by done; by apply wpm_provisionPod].
  rewrite bool_decide_false by done. simpl. destruct (p_Deleting p).
  - apply wpm_bind, wpm_ready. intros x cs s'. assert (Hp' : pending (FNow x :: K) t0 s) by (eapply pending_mono; [done|grow]).
    apply wpm_bind, wpm_bind, wpm_write; [apply Hp'| |by intros; apply wpm_ret, wpm_ret|by left].
    apply (pending_move _ _ s); [done|by left|by left|done].
  - apply wpm_bind, wpm_task. cbv zeta. unfold when. apply wpm_bind. case_match.
    2: { by apply wpm_ret, wpm_watchPod. }
    apply wpm_bind, wpm_edit_status, wpm_update; [apply Hp| | |by left].
    + unfold repair_pod. apply (pending_move _ _ s); [done|left; by repeat case_match| |by repeat case_match].
      case_match; [right; exists p; split; [by apply Hpod|by repeat case_match]|left; by repeat case_match].
    + intros v K' t1 Hd HK. assert (Er : ∀ lost, Retries (repair_pod (with_task_status t0 s) class p lost s) = Retries s) by (intros; unfold repair_pod; by repeat case_match).
      apply wpm_watchPod; [|eapply in_hand_next; [by eapply in_hand_mono|]; exact (eq_trans (Er _) (holding_retries _ _ _ (proj1 Hp)))].
      pose proof Hp as (Hh & Hw & Hn & _).
      assert (Ep : ∀ lost, Phase (repair_pod (with_task_status t0 s) class p lost s) = Phase s) by (intros; unfold repair_pod; by repeat case_match).
      assert (En : ∀ lost, CompletionTime (repair_pod (with_task_status t0 s) class p lost s) = CompletionTime s) by (intros; unfold repair_pod; by repeat case_match).
      split_and!; [|by rewrite stored_phase, Ep|by rewrite stored_done, En, Hn|done]. apply holding_stored; [done|]. rewrite Ep.
      destruct (pending_core K t0 s) as (? & _ & _ & Hor); [done|]. destruct Hor as [[-> _]| ->]; done.
Qed.

(** ** Running *)

Lemma wpm_continue K t0 s class p :
  holding K t0 s → Phase s = TaskRunning → CompletionTime s = None →
  wpm K (with_task_status t0 s) (continueRunning class p) any (blocked false).
Proof.
  intros Hh Hp Hn. assert (HB : ∀ K' e, K ⊆ K' → blocked false K' (with_task_status t0 s) e).
  { intros K' e HK. right. exists t0, s. split_and!; [done|by eapply holding_mono|done|done]. }
  unfold continueRunning. destruct (p_Deleting p); [by apply quiet_requeue|].
  apply wpm_bind, quiet_restore; [|done]. intros K1 _ HK1. apply wpm_bind, wpm_task, wpm_bind. unfold when. case_match.
  2: { apply wpm_ret, quiet_requeue; [done|]. intros K2 e HK2. apply HB. grow. }
  apply wpm_bind, wpm_ready. intros x cs s'. apply wpm_update; [eapply draft_mono; [apply Hh|grow]| | |by left].
  - apply (move_mono K); [|grow]. by apply (hold_move K t0 s).
  - intros v K2 t1 Hd HK2. apply quiet_requeue; [done|]. intros K3 e HK3. apply stored_blocked; [by eapply draft_mono| |done].
    simpl. by rewrite Hp.
Qed.

(** The Pod read under the base itself. *)
Definition here (K : facts) (t0 : AgentTask) (pod : option Pod) : Prop :=
  (∀ p, pod = Some p → FPod p ∈ K) ∧ ∃ ps, FSaw t0 (SawPods ps) ∈ K ∧ chosen_pod ps = pod.

Lemma here_seen K t0 pod (P : AgentTaskPhase → Prop) : draft K t0 → here K t0 pod → P (Phase (t_Status t0)) → pod_seen K t0 P pod.
Proof. intros [Hd _] (_ & ps & H1 & H2) HP. by exists t0, ps. Qed.

Lemma here_in_hand K t0 pod : draft K t0 → here K t0 pod → in_hand K t0 pod.
Proof. intros Hd Hh. split; [apply Hh|by apply here_seen]. Qed.

Lemma here_mono K K' t0 pod : here K t0 pod → K ⊆ K' → here K' t0 pod.
Proof. intros (H1 & ps & H2 & H3) HK. split; [intros; by apply HK, H1|exists ps; auto]. Qed.

Lemma wpm_running K t0 s class pod :
  holding K t0 s → Phase s = TaskRunning → CompletionTime s = None → here K t0 pod →
  wpm K (with_task_status t0 s) (driveRunning class pod) any (blocked false).
Proof.
  intros Hh Hp Hn Hpod. assert (HB : ∀ K' e, K ⊆ K' → blocked false K' (with_task_status t0 s) e).
  { intros K' e HK. right. exists t0, s. split_and!; [done|by eapply holding_mono|done|done]. }
  assert (E : core_of s = core_of (t_Status t0)).
  { destruct Hh as [_ E]. unfold enter in E. case_decide; [|done]. apply (f_equal c_phase) in E. simpl in E. congruence. }
  assert (Hrun : Phase (t_Status t0) = TaskRunning) by (apply (f_equal c_phase) in E; simpl in E; congruence).
  assert (Hway : under_way (Phase (t_Status t0))) by (rewrite Hrun; by intros [?|[?|?]]).
  assert (Hseen : ∀ K' (P : AgentTaskPhase → Prop), K ⊆ K' → P TaskRunning → pod_seen K' t0 P pod).
  { intros K' P HK HP. apply here_seen; [eapply draft_mono; [apply Hh|done]|by eapply here_mono|by rewrite Hrun]. }
  assert (HF : ∀ K' reason msg, K ⊆ K' → failure K' t0 → wpm K' (with_task_status t0 s)
    (M_bind _ _ (λ _, M_ret _ 0%Z) (failOrRetry reason msg)) any (blocked false)).
  { intros K' reason msg HK Hf. destruct (holding_working K' t0 s) as [Hw Hr]; [by eapply holding_mono|by rewrite Hp; right; left|done|].
    apply wpm_bind. eapply wpm_mono; [by apply wpm_failOrRetry|by intros; apply wpm_ret|done]. }
  assert (HC : ∀ K', K ⊆ K' → judged K' t0 → wpm K' (with_task_status t0 s) (M_bind _ _ (λ _, M_ret _ 0%Z) (complete pod)) any (blocked false)).
  { intros K' HK Hj. apply wpm_bind. eapply wpm_mono; [apply wpm_complete|by intros; apply wpm_ret|done];
      [by eapply holding_mono|done|by left|done|]. split; [|right; apply Hseen; [done|by intros [?|[?|?]]]].
    apply here_in_hand; [eapply draft_mono; [apply Hh|done]|by eapply here_mono]. }
  apply wpm_bind, wpm_task. change (isAgentReported (with_task_status t0 s)) with (isAgentReported t0).
  apply wpm_bind. apply (wpm_mono _ _ _ (λ K' t' reported, K ⊆ K' ∧ t' = with_task_status t0 s ∧ (reported = true → judged K' t0)) _ (blocked false)); [| |done].
  { destruct (isAgentReported t0) eqn:Ha; [|by apply wpm_ret].
    apply wpm_bind, wpm_mailbox; [apply Hh|by intros; apply wpm_ret| |done]. intros K' m HK Hm. apply wpm_ret. split_and!; [done|done|].
    intros Hs%negb_true_iff%String.eqb_neq. by eapply judged_report. }
  intros K1 ? reported (HK1 & -> & Hrep). cbv zeta. destruct (reported || _) eqn:Er.
  { apply HC; [done|]. apply orb_true_iff in Er as [->|[Ha Hx]%andb_true_iff]; [by apply Hrep|]. apply negb_true_iff in Ha.
    destruct pod as [p|] eqn:Epod; [|done]. apply bool_decide_eq_true in Hx. eapply judged_exit; [done|done|by apply Hseen|done]. }
  apply wpm_bind, wpm_now. intros x. rewrite timedOut_core by done.
  destruct (timedOut x t0) eqn:Ht; [apply HC; [grow|]; eapply judged_timeout; [done|by left|done]|].
  destruct pod as [p|] eqn:Epod; [|apply HF; [grow|]; apply (fail_lost _ _ None); [done|apply Hseen; [grow|by intros [?|[?|?]]]|done]].
  destruct (isAgentReported t0 && bool_decide (p_Phase p = PodFailed)) eqn:Ef.
  { apply andb_true_iff in Ef as [_ Ef%bool_decide_eq_true]. apply HF; [grow|]. eapply fail_exit; [apply Hseen; [grow|done]|done]. }
  apply wpm_continue; [eapply holding_mono; [done|grow]|done|done].
Qed.

Lemma wpm_drive K t0 s class eff pod :
  holding K t0 s → active (Phase s) → CompletionTime s = None → CreateRejectedTime s = CreateRejectedTime (t_Status t0) → here K t0 pod →
  wpm K (with_task_status t0 s) (drive class eff pod) any
    (blocked (bool_decide (pod = None) && bool_decide (Phase s = TaskPending ∨ Phase s = TaskProvisioning))).
Proof.
  intros Hh Ha Hn Hc Hpod. assert (Hi : in_hand K t0 pod) by (by apply here_in_hand; [apply Hh|]).
  apply wpm_bind, wpm_task. simpl t_Status. destruct (Phase s) eqn:Hp;
    repeat (rewrite (bool_decide_true (_ ∨ _)) by auto || rewrite (bool_decide_false (_ ∨ _)) by naive_solver);
    rewrite ?andb_true_r, ?andb_false_r; try (by apply wpm_ret).
  - apply wpm_provisioning; [|done]. split_and!; [done|rewrite Hp; by right; left|done|done].
  - apply wpm_provisioning; [|done]. split_and!; [done|rewrite Hp; by right; right|done|done].
  - by apply wpm_running.
  - assert (Hj : judging K t0 s).
    { split_and!; [apply Hh| |done]. destruct Hh as [_ E]. rewrite E, enter_phase; [done|]. unfold enter in E. case_decide; [|done].
      apply (f_equal c_phase) in E. simpl in E. congruence. }
    apply wpm_bind. eapply wpm_mono; [apply wpm_completing; [done|]|by intros; apply wpm_ret|done]. split; [done|right].
    apply here_seen; [apply Hh|done|]. destruct Hj as (_ & E & _). apply (f_equal c_phase) in E. simpl in E. rewrite <-E, Hp. by intros [?|[?|?]].
Qed.

(** ** The pass *)

Notation anyE := (λ _ _ _, True).

Lemma wpm_anyE {A} K t (m : M A) Q (E : facts → AgentTask → error → Prop) : wpm K t m Q E → wpm K t m Q anyE.
Proof. intros H. by eapply wpm_mono. Qed.

Lemma wpm_childBlocked K t class pp e :
  blocked pp K t e → (pp = true → is_Some class) → wpm K t (childBlocked class pp e) any anyE.
Proof.
  intros Hb Hc. apply wpm_bind, wpm_task. destruct Hb as [[H1 H2]|(t0 & s & -> & Hh & Hn & Hp)].
  { rewrite H1, H2. by apply wpm_throw. }
  pose proof (hold_move _ _ _ Hh Hn) as Hm. pose proof (proj1 Hh) as Hd.
  assert (HM : ∀ reason msg, wpm K (with_task_status t0 s)
    (M_bind _ _ (λ _, heldRequeue notReadyRecheck) (markTaskNotReady reason msg)) any anyE).
  { intros reason msg. apply wpm_bind. eapply wpm_mono; [by apply (wpm_not_ready _ _ _ _ _ anyE)|by intros; apply quiet_held|done]. }
  destruct (asChildWriteRejected e) as [text|] eqn:Erej.
  - destruct class as [c|]; [|apply HM]. destruct pp; simpl; [|apply HM]. case_bool_decide; simpl; [apply HM|].
    destruct (Hp eq_refl) as [(Hw & Hr & Hs)|?]; [|by simpl in *].
    by eapply wpm_anyE, (wpm_createRejected true); [|by apply Hs].
  - destruct (asChildConflict e) as [msg|]; [|by apply wpm_throw]. cbv zeta. apply wpm_bind. unfold when. destruct (negb _).
    + apply wpm_bind, wpm_ready. intros x cs s'. apply wpm_bind, wpm_update; [eapply draft_mono; [done|grow]| | |done].
      * by apply (move_mono K); [|grow].
      * intros. apply wpm_call; [done|]. by intros; apply quiet_held.
    + by apply wpm_ret, quiet_held.
Qed.

(** A check before the Pod either ends the pass or leaves the task alone. *)
Lemma wpm_checked K t0 s (Q : facts → AgentTask → option Duration → Prop) d reason msg :
  pending K t0 s → (∀ K' t d, Q K' t (Some d)) →
  wpm K (with_task_status t0 s) (M_bind _ _ (λ _, M_ret _ (Some d)) (markTaskNotReady reason msg)) Q anyE.
Proof.
  intros (Hh & _ & Hn & _) HQ. apply wpm_bind. eapply wpm_mono; [apply (wpm_not_ready _ _ _ _ _ anyE); [apply Hh|by apply hold_move|done]| |done].
  intros. by apply wpm_ret.
Qed.

Lemma wpm_blocked_check K t0 s (Q : facts → AgentTask → option Duration → Prop) class e :
  pending K t0 s → refusal_seen K t0 e → (∀ K' t d, Q K' t (Some d)) →
  wpm K (with_task_status t0 s) (M_bind _ _ (λ d, M_ret _ (Some d)) (childBlocked (Some class) true e)) Q anyE.
Proof.
  intros Hp He HQ. apply wpm_bind. eapply wpm_mono; [apply wpm_childBlocked; [by apply pending_blocked|done]| |done].
  intros. by apply wpm_ret.
Qed.

Lemma wpm_secretAccess K t0 s role names Q E :
  draft K t0 → (∀ K' r, K ⊆ K' → (∀ e, r = Some e → refusal_seen K' t0 e) → Q K' (with_task_status t0 s) r) →
  wpm K (with_task_status t0 s) (lift (EnsureSecretAccess role names)) Q E.
Proof.
  intros Hd HQ. apply wpm_lift; [done|]. intros r _. apply HQ; [grow|]. intros e -> text Ht. simpl. rewrite Ht.
  apply elem_of_app. left. apply elem_of_noted, Hd.
Qed.

Lemma wpm_optIn K t0 s class eff (Q : facts → AgentTask → option Duration → Prop) :
  pending K t0 s → (∀ K' t d, Q K' t (Some d)) → (∀ K', K ⊆ K' → Q K' (with_task_status t0 s) None) →
  wpm K (with_task_status t0 s) (enforceEnvSecretOptIn class eff) Q anyE.
Proof.
  intros Hp HQ HN. apply wpm_bind, wpm_task, wpm_bind, wpm_secretAccess; [apply Hp|]. intros K1 [e|] HK1 Hs.
  - apply wpm_blocked_check; [by eapply pending_mono|by apply Hs|done].
  - apply wpm_bind, quiet_env; [|done]. intros K2 [[reason msg]|] HK2; [|apply wpm_ret, HN; grow].
    apply wpm_checked; [eapply pending_mono; [done|grow]|done].
Qed.

Lemma wpm_prePod K t0 s class eff (Q : facts → AgentTask → option Duration → Prop) :
  pending K t0 s → FSaw t0 (SawClass class) ∈ K → eff_Image eff = eff_Image (deriveEffectiveTaskSpec t0 class) → (∀ K' t d, Q K' t (Some d)) → (∀ K', K ⊆ K' → Q K' (with_task_status t0 s) None) →
  wpm K (with_task_status t0 s) (prePodChecks ParseCIDR class eff) Q anyE.
Proof.
  intros Hp Hcl He HQ HN. apply wpm_bind, wpm_task, wpm_bind, (wpm_violation _ _ _ _ _ _ _); [apply Hp|done| |].
  2: { intros K1 [reason msg] HK1 Hv. assert (Hp1 : pending K1 t0 s) by (by eapply pending_mono).
    destruct (pending_working _ _ _ Hp1) as [Hw Hr]. pose proof (pending_phase _ _ _ Hp1) as Hph.
    assert (Hf : forbidden K1 t0) by (exists class; split; [by apply HK1|done]).
    apply wpm_bind. unfold when. destruct (_ && _); [apply wpm_edit_status|apply wpm_ret]; apply wpm_bind;
      (eapply wpm_mono; [apply (wpm_failed _ _ _ _ _ anyE); [done|done|done|by right]|by intros; apply wpm_ret|done]). }
  intros K1 HK1. assert (Hp1 : pending K1 t0 s) by (by eapply pending_mono).
  - apply wpm_bind, wpm_secretAccess; [apply Hp1|]. intros K2 [e|] HK2 Hs; [apply wpm_blocked_check; [by eapply pending_mono|by apply Hs|done]|].
    apply wpm_bind, quiet_pull; [|done]. intros K3 [n|] HK3; [apply wpm_checked; [eapply pending_mono; [done|grow]|done]|].
    assert (Hp3 : pending K3 t0 s) by (eapply pending_mono; [done|grow]). apply wpm_bind, wpm_optIn; [done|by intros; apply wpm_ret|].
    intros K4 HK4. assert (Hp4 : pending K4 t0 s) by (by eapply pending_mono).
    destruct (_ =? "")%string; [by apply wpm_checked|]. destruct (invalidCIDRs _ _); [|by apply wpm_checked].
    apply wpm_ret, HN. grow.
Qed.

Lemma wpm_class K t0 s class :
  holding K t0 s → active (Phase s) → CompletionTime s = None → CreateRejectedTime s = CreateRejectedTime (t_Status t0) →
  FSaw t0 (SawClass class) ∈ K → wpm K (with_task_status t0 s) (reconcile_class ParseCIDR class) any anyE.
Proof.
  intros Hh Ha Hn Hc Hcl. apply wpm_bind, wpm_task. cbv zeta. apply wpm_bind, wpm_pod; [|done]. intros K1 pod HK1 Hpod Hseen. simpl t_Status.
  assert (Hhere : here K1 t0 pod) by (split; [done|apply Hseen, Hh]).
  assert (Hh1 : holding K1 t0 s) by (by eapply holding_mono).
  apply wpm_bind. apply (wpm_mono _ _ _ (λ K' t' r, r = None → K1 ⊆ K' ∧ t' = with_task_status t0 s) _ anyE); [| |done].
  - destruct (bool_decide (pod = None) && _) eqn:Epp; [|by apply wpm_ret].
    apply andb_true_iff in Epp as [_ Hw]. apply bool_decide_eq_true in Hw. apply wpm_prePod; [|by apply HK1|done|done|done].
    split_and!; [done|by right|done|done].
  - intros K2 t' [d|] HQ; [by apply wpm_ret|]. destruct (HQ eq_refl) as [HK2 ->]. apply wpm_bind, wpm_try.
    eapply wpm_mono; [apply wpm_drive; [by eapply holding_mono|done|done|done|by eapply here_mono]| |].
    + intros. by apply wpm_ret.
    + intros K3 t3 e Hb. apply wpm_childBlocked; [done|by eexists].
Qed.

Lemma wpm_TTL K t0 s :
  draft K t0 → core_of s = core_of (t_Status t0) → wpm K (with_task_status t0 s) handleTTL any anyE.
Proof.
  intros Hd E. apply wpm_bind, wpm_task. destruct (taskTTL _) as [ttl|]; [|by apply wpm_ret]. simpl t_Status.
  destruct (CompletionTime s) as [fin|] eqn:Hf; [|by apply wpm_ret]. apply wpm_bind, wpm_now. intros x. cbv zeta.
  destruct (0 <? _)%Z; [by apply wpm_ret|]. apply wpm_bind, wpm_edit_status, wpm_bind, wpm_update; [eapply draft_mono; [done|grow]| | |done].
  - rewrite <-E. unfold core_of. simpl. rewrite Hf. apply move_leave.
  - intros. apply wpm_bind, wpm_call; [done|]. intros K2 [e|] _; [|by apply wpm_ret]. by destruct (ae_kind e).
Qed.

Lemma quiet_delete : quiet reconcileDelete.
Proof.
  intros K t Q E HQ HE. apply wpm_bind, wpm_task. destruct (negb (Finalizer t)); [by apply wpm_ret, HQ|].
  apply wpm_bind, quiet_bind; [apply quiet_lift; done|intros []; [apply quiet_ret|apply quiet_throw]| |].
  2: { intros. apply HE. done. }
  intros K1 pod HK1. assert (G : quiet (match pod with
    | Some p => if p_Deleting p then M_ret _ 0%Z
        else M_bind _ _ (λ r, match r with Some e => match ae_kind e with ApiNotFound => M_ret _ 0%Z | _ => throw (raw e) end | None => M_ret _ 0%Z end)
               (lift (DeletePod (p_UID p)))
    | None => M_bind _ _ (λ r, match r with inl _ => M_ret _ 0%Z | inr e => throw (raw e) end) (lift (UpdateTask (with_finalizer t false)))
    end)).
  { destruct pod as [p|]; [destruct (p_Deleting p); [apply quiet_ret|]|]; (apply quiet_bind; [by apply quiet_lift|]); intros;
      repeat case_match; first [apply quiet_ret|apply quiet_throw]. }
  apply G; intros; [apply HQ|apply HE]; grow.
Qed.

Lemma wpm_live K t0 : draft K t0 → wpm K (with_task_status t0 (t_Status t0)) (reconcile_live ParseCIDR OperatorNamespace) any anyE.
Proof.
  intros Hd. apply wpm_bind, wpm_task, wpm_bind, wpm_edit_status, wpm_bind.
  apply (wpm_mono _ _ _ (λ K' t' _, K ⊆ K' ∧ ∃ s, t' = with_task_status t0 s ∧ core_of s = enter (core_of (t_Status t0)) ∧
    CreateRejectedTime s = CreateRejectedTime (t_Status t0)) _ anyE); [| |done].
  { unfold when. simpl t_Status. case_bool_decide as Hp; [apply wpm_edit_status|apply wpm_ret]; (split; [done|]); eexists;
      (split; [done|]); (split; [|done]); unfold enter; [by rewrite decide_True|by rewrite decide_False]. }
  intros K1 ? _ [HK1 (s & -> & E & Hcr)]. assert (Hh : holding K1 t0 s) by (split; [by eapply draft_mono|done]).
  assert (Hp : Phase s ≠ TaskNone).
  { apply (f_equal c_phase) in E. unfold enter in E. case_decide; simpl in *; congruence. }
  assert (Ec : active (Phase s) → CompletionTime s = None).
  { intros Ha. destruct Hd as [_ (_ & W & _)]. pose proof (f_equal c_done E) as Ed. pose proof (f_equal c_phase E) as Ep.
    unfold enter in Ed, Ep. simpl in W. case_decide as Hq; simpl in *; rewrite Ed; apply W; [left; by left|by rewrite <-Ep]. }
  assert (Eq : ¬ waiting (Phase s) → core_of s = core_of (t_Status t0)).
  { intros Hw. rewrite E, enter_phase; [done|]. intros Hq. destruct Hw. apply (f_equal c_phase) in E. unfold enter in E.
    rewrite decide_True in E by done. simpl in E. rewrite E. by right; left. }
  apply wpm_bind, wpm_task. simpl t_Status. case_decide as Hf.
  { destruct Hf as [Hf Hn]. apply wpm_bind, wpm_try. eapply wpm_mono; [apply (wpm_finishRetry false); [apply Hh|apply Eq|done|done]| |].
    - rewrite Hf. by intros [?|[?|?]].
    - intros. by apply wpm_ret.
    - intros K2 t2 e Hb. by apply wpm_childBlocked. }
  destruct (isTerminalTaskPhase (Phase s)) eqn:Et.
  { apply wpm_bind, wpm_call; [done|]. intros K2 _ HK2. apply wpm_TTL; [eapply draft_mono; [apply Hh|done]|apply Eq].
    by destruct (Phase s); intros [?|[?|?]]. }
  assert (Ha : active (Phase s)) by (unfold active, waiting; destruct (Phase s); naive_solver).
  specialize (Ec Ha). apply wpm_bind, wpm_call; [done|]. intros K2 _ HK2. assert (Hh2 : holding K2 t0 s) by (by eapply holding_mono).
  assert (HM : ∀ K' reason msg, K2 ⊆ K' → wpm K' (with_task_status t0 s) (M_bind _ _ (λ _, M_ret _ 0%Z) (markTaskNotReady reason msg)) any anyE).
  { intros K' reason msg HK. apply wpm_bind. eapply wpm_mono; [apply (wpm_not_ready _ _ _ _ _ anyE)|by intros; apply wpm_ret|done].
    - eapply draft_mono; [apply Hh2|done].
    - apply hold_move; [by eapply holding_mono|done].
    - done. }
  destruct (_ =? OperatorNamespace)%string; [by apply HM|]. apply wpm_bind, wpm_lift; [done|]. intros [class| |e] _.
  - apply wpm_class; [eapply holding_mono; [done|grow]|done|done|done|]. apply elem_of_app. left. apply elem_of_noted, Hh2.
  - apply HM. grow.
  - by apply wpm_throw.
Qed.

Lemma with_same_status t : with_task_status t (t_Status t) = t.
Proof. by destruct t. Qed.

(** Every pass obeys the machine, whatever the answers to its calls. *)
Theorem Reconcile_obeys : wp [] (Reconcile ParseCIDR OperatorNamespace) (λ _ _, True).
Proof.
  split; [done|]. intros [t| |e] Hs; [|done|done]. simpl in Hs. apply wp_bind. eapply wp_mono; [done|].
  assert (G : wpm [FTask t] t (reconcile_task ParseCIDR OperatorNamespace) any anyE); [|eapply wp_mono, G; done].
  apply wpm_bind, wpm_task. destruct (Deleting t).
  - apply wpm_bind, wpm_call; [done|]. by intros; apply quiet_delete.
  - destruct (negb (Finalizer t)).
    + apply wpm_bind, wpm_call; [done|]. by intros K' [t'|e] _.
    + rewrite <-(with_same_status t) at 2. apply wpm_live. split; [by left|done].
Qed.
End facts.
