(* ===== verification/TaskClaims.v ===== *)
(** What every run of the AgentTask system keeps: the stored versions of the
    task follow the abstract machine of [TaskLogic], each write with evidence
    that was true in the world, under every interleaving, cache lag, failed
    or half-failed write and controller restart. *)

From stdpp Require Import base gmap sets list strings option.
From Stdlib Require Import ZArith Lia Ascii.
From S2P Require Import Prelude GoFloat GoTime Json ProblemList Conditions TaskData TaskReconcile TaskLogic TaskFacts.

Lemma stored_time_twice x : stored_time (stored_time x) = stored_time x.
Proof.
  unfold stored_time, TruncateTime, Second. assert (H : ((x - x mod 1000000000) mod 1000000000 = 0)%Z).
  { rewrite Zminus_mod, Z.mod_mod, Z.sub_diag by done. done. }
  rewrite H. lia.
Qed.

Section system.
Context {CD : Conditions} `{!EqDecision conditions} {MR : MapRange} {U : Unicode}.
Context (ParseCIDR : string → bool) (OperatorNamespace : string).

Definition mails (w : world) : list (option Mailbox) := w_mail w :: w_mails w.
Definition pod_lists (w : world) : list (list Pod) := w_pods w :: w_podss w.

(** What an answer showed was once so: a list of Pods or a mailbox that was
    stored, or a mailbox the controller emptied. *)
Definition genuine (w : world) (x : sight) : Prop :=
  match x with
  | SawPods ps => ps ∈ pod_lists w
  | SawMail m => m ∈ mails w
  | Emptied => ∃ m, Some m ∈ mails w ∧ mb_Data m = ∅
  | _ => True
  end.

(** A fact is true when it was once so.  What was seen while [t] was known is
    in the record of the answers, not before [t] was stored. *)
Definition holds (w : world) (f : fact) : Prop :=
  match f with
  | FTask t => t ∈ versions w
  | FPod p => ∃ ps, ps ∈ pod_lists w ∧ p ∈ ps
  | FNow x => (x <= w_clock w)%Z
  | FSaw t x => t ∈ versions w ∧ genuine w x ∧ ∃ v, (v, x) ∈ w_seen w ∧ resourceVersion t ≤ v
  end.

Definition true_in (w : world) (K : facts) : Prop := ∀ f, f ∈ K → holds w f.

Definition later (w w' : world) : Prop := ∀ f, holds w f → holds w' f.

Lemma true_later w w' K : true_in w K → later w w' → true_in w' K.
Proof. intros H L f Hf. by apply L, H. Qed.

(** From the older version [o] to the next one [n]: the status is kept, or it
    is written by a pass with evidence. *)
Definition edge (w : world) (o n : AgentTask) : Prop :=
  t_Status n = t_Status o ∨
  (t_Spec n = t_Spec o ∧ ∃ K s, true_in w K ∧ move K o (core_of (t_Status o)) (core_of s) ∧ t_Status n = stored_status s).

Fixpoint path (w : world) (l : list AgentTask) : Prop :=
  match l with
  | n :: l => match l with o :: _ => edge w o n | [] => True end ∧ path w l
  | [] => True
  end.

Lemma edge_later w w' o n : edge w o n → later w w' → edge w' o n.
Proof. intros [H|(H & K & s & HK & H')] L; [by left|right; split; [done|]]. exists K, s. split; [by eapply true_later|done]. Qed.

Lemma path_later w w' l : path w l → later w w' → path w' l.
Proof.
  intros H L. induction l as [|n l IH]; [done|]. destruct H as [H1 H2]. split; [|by apply IH].
  destruct l; [done|]. by eapply edge_later.
Qed.

(** The versions of a world. *)
Record world_ok (w : world) : Prop := {
  ok_path : path w (versions w);
  ok_newest t : t ∈ w_past w → resourceVersion t < resourceVersion (w_task w);
  ok_unique t t' : t ∈ versions w → t' ∈ versions w → resourceVersion t = resourceVersion t' → t = t';
  ok_wf t : t ∈ versions w → wf_core (core_of (t_Status t));
  ok_stored t : t ∈ versions w → CompletionTime (t_Status t) = stored_time <$> CompletionTime (t_Status t);
}.

(** ** Changes of the world *)

Lemma later_refl w : later w w.
Proof. by intros f. Qed.

(** Every record of the world only grows. *)
Lemma later_grow w w' :
  versions w ⊆ versions w' → pod_lists w ⊆ pod_lists w' → (w_clock w <= w_clock w')%Z → mails w ⊆ mails w' → w_seen w ⊆ w_seen w' → later w w'.
Proof.
  intros Hv Hp Hc Hm Hs [t|p|x|t x]; simpl.
  - apply Hv.
  - intros (ps & H & H'). exists ps. auto.
  - unfold Time in *. lia.
  - intros (Ht & Hg & v & Hx & Hle). split_and!; [by apply Hv| |exists v; auto]. destruct x; simpl in *; auto. destruct Hg as (m & H & H'). exists m. auto.
Qed.

Ltac grown := apply later_grow; unfold versions, pod_lists, mails; simpl; try done; try lia; intros ? ?; by right.

Lemma later_store w t g : later w (store_task w t g).
Proof. grown. Qed.

Lemma later_mail w m : later w (store_mail w m).
Proof. grown. Qed.

Lemma later_pods w ps : later w (store_pods w ps).
Proof. grown. Qed.

Lemma later_clock w n : later w (set_clock w (w_clock w + Z.of_nat n)%Z).
Proof. apply later_grow; simpl; try done. unfold Time in *. lia. Qed.

Lemma later_requests w l lg : later w (set_requests w l lg).
Proof. grown. Qed.

Lemma later_say w e : later w (say w e).
Proof. grown. Qed.

Lemma later_see w x : later w (see w x).
Proof. grown. Qed.

(** A change that leaves the task alone. *)
Lemma ok_other w w' :
  world_ok w → later w w' → w_task w' = w_task w → w_past w' = w_past w → world_ok w'.
Proof.
  intros [O1 O2 O3 O4 O5] L Et Ep. split; unfold versions in *; rewrite ?Et, ?Ep; auto. by eapply path_later.
Qed.

(** A new version. *)
Lemma ok_store w t g :
  world_ok w → wf_core (core_of (t_Status t)) → CompletionTime (t_Status t) = stored_time <$> CompletionTime (t_Status t) →
  (∀ v w', later w w' → edge w' (w_task w) (with_version t v)) → world_ok (store_task w t g).
Proof.
  intros [O1 O2 O3 O4 O5] Hw Hs He. pose proof (later_store w t g) as L. split; unfold versions; simpl.
  - split; [by apply He|]. exact (path_later w _ (versions w) O1 L).
  - intros t' [->|Ht]%elem_of_cons; simpl; [lia|]. specialize (O2 _ Ht). lia.
  - assert (HL : ∀ t', t' ∈ versions w → resourceVersion t' ≤ resourceVersion (w_task w)).
    { intros t' [->|Ht]%elem_of_cons; [done|]. specialize (O2 _ Ht). lia. }
    intros t1 t2 [->|H1]%elem_of_cons [->|H2]%elem_of_cons; simpl; auto.
    + intros E. apply HL in H2. lia.
    + intros E. apply HL in H1. lia.
  - intros t' [->|Ht]%elem_of_cons; [done|by apply O4].
  - intros t' [->|Ht]%elem_of_cons; [done|by apply O5].
Qed.

Lemma ok_keep w t g : world_ok w → t_Status t = t_Status (w_task w) → world_ok (store_task w t g).
Proof.
  intros O E. apply ok_store; [done|rewrite E; by apply (ok_wf w O); left|rewrite E; by apply (ok_stored w O); left|].
  intros. by left.
Qed.

Lemma ok_status w K t t0 :
  world_ok w → true_in w K → FTask t0 ∈ K → t = with_task_status t0 (t_Status t) →
  resourceVersion t = resourceVersion (w_task w) → move K t0 (core_of (t_Status t0)) (core_of (t_Status t)) →
  t0 = w_task w ∧ world_ok (store_task w (with_task_status (w_task w) (stored_status (t_Status t))) false).
Proof.
  intros O HK Ht0 Et Ev Hm. assert (E0 : t0 = w_task w).
  { apply (ok_unique w O); [by apply (HK (FTask t0))|by left|]. rewrite <-Ev, Et. done. }
  subst t0. split; [done|]. pose proof (ok_wf w O (w_task w) (list_elem_of_here _ _)) as Hw.
  apply (move_wf _ _ _ _ Hm) in Hw. apply ok_store; [done| | |].
  - by apply wf_stored.
  - simpl. destruct (CompletionTime (t_Status t)); simpl; [|done]. by rewrite stored_time_twice.
  - intros v w' L. right. split; [done|]. exists K, (t_Status t). split; [by eapply true_later|done].
Qed.

(** ** The calls of a pass *)

Definition answered {B} (w : world) (K : facts) (c : call B) (r : world * B) : Prop :=
  world_ok r.1 ∧ later w r.1 ∧ sane c r.2 ∧ true_in r.1 (learn K c r.2).

Lemma in_lagging {A} (x : A) l n : lagging x l n ∈ x :: l.
Proof. unfold lagging. destruct ((x :: l) !! n) eqn:E; simpl; [by eapply list_elem_of_lookup_2|by left]. Qed.

Lemma answered_same {B} w K (c : call B) b : world_ok w → sane c b → true_in w (learn K c b) → answered w K c (w, b).
Proof. intros O Hs Hl. split_and!; [done|apply later_refl|done|done]. Qed.

Lemma true_nil w : true_in w [].
Proof. intros f Hf. by apply elem_of_nil in Hf. Qed.

Lemma ok_see w x : world_ok w → world_ok (see w x).
Proof. intros O. by eapply ok_other; [|apply later_see|..]. Qed.

(** What a pass notes is in the record. *)
Lemma true_noted w K x : world_ok w → true_in w K → genuine w x → true_in (see w x) (noted K x).
Proof.
  intros O HK Hg f (t & -> & ([t'| | |] & Hf & [= ->])%list_elem_of_omap)%list_elem_of_fmap. pose proof (HK _ Hf) as Ht.
  split; [done|]. split; [by destruct x|]. exists (resourceVersion (w_task w)). split; [by left|].
  apply elem_of_cons in Ht as [->|Ht]; [done|]. pose proof (ok_newest w O _ Ht). lia.
Qed.

(** An answer that is only seen. *)
Lemma answered_see {B} w K (c : call B) x b :
  world_ok w → true_in w K → sane c b → genuine w x → learn K c b = noted K x → answered w K c (see w x, b).
Proof. intros O HK Hs Hg Hl. split_and!; [by apply ok_see|apply later_see|done|]. simpl. rewrite Hl. by apply true_noted. Qed.

Lemma answered_child w K c r :
  world_ok w → true_in w K → (∀ b, sane c b) → learn K c r = refused K r → answered w K c (child_write w r).
Proof.
  intros O HK Hs Hl. unfold child_write. destruct r as [e|]; simpl in Hl; [|by apply answered_same; [..|rewrite Hl; apply true_nil]].
  destruct (asChildWriteRejected e) as [text|]; [by apply answered_see|]. by apply answered_same; [..|rewrite Hl; apply true_nil].
Qed.

(** A write, applied or not. *)
Lemma answered_write {B} o w w' K (c : call B) (ok : B) (fail : api_error → B) :
  world_ok w → world_ok w' → later w w' → sane c ok → true_in w' (learn K c ok) →
  (∀ e, sane c (fail e) ∧ learn K c (fail e) = []) → answered w K c (write o w w' ok fail).
Proof.
  intros O O' L Hs Hl Hf. unfold write. destruct (o_fail o) as [[[] e]|].
  - destruct (Hf e) as [Hf1 Hf2]. split_and!; [done|done|done|]. simpl. rewrite Hf2. apply true_nil.
  - destruct (Hf e) as [Hf1 Hf2]. apply answered_same; [done|done|]. rewrite Hf2. apply true_nil.
  - by split_and!.
Qed.

Lemma answer_ok {B} o w K (c : call B) : world_ok w → true_in w K → owes K c → answered w K c (answer o w c).
Proof.
  intros O HK Ho. destruct c; simpl answer; try (apply answered_same; [done|done|apply true_nil]).
  - split_and!; [eapply ok_other; [done|apply later_clock|done|done]|apply later_clock|done|].
    intros f Hf. simpl in Hf. apply list_elem_of_singleton in Hf as ->. simpl. done.
  - apply answered_same; [done| |].
    + destruct (o_fail o) as [[? ?]|]; [done|]. destruct (_ && _); [done|]. simpl. apply (ok_wf w O), in_lagging.
    + destruct (o_fail o) as [[? ?]|]; [apply true_nil|]. destruct (_ && _); [apply true_nil|].
      intros f Hf. simpl in Hf. apply list_elem_of_singleton in Hf as ->. apply in_lagging.
  - destruct (w_gone w); [apply answered_same; [done|done|apply true_nil]|].
    destruct (negb _); [apply answered_same; [done|done|apply true_nil]|].
    apply answered_write; [done|by apply ok_keep|apply later_store|done|apply true_nil|done].
  - destruct (w_gone w); [apply answered_same; [done|done|apply true_nil]|].
    destruct (negb _) eqn:Ev; [apply answered_same; [done|done|apply true_nil]|].
    apply negb_false_iff, Nat.eqb_eq in Ev. destruct Ho as (t0 & Ht0 & Et & Hm).
    destruct (ok_status w K t t0 O HK Ht0 Et Ev Hm) as [-> O'].
    apply answered_write; [done|done|apply later_store| | |done].
    + exists (S (resourceVersion (w_task w))). rewrite Et. done.
    + intros f Hf. simpl in Hf. apply list_elem_of_singleton in Hf as ->. by left.
  - destruct (w_gone w); [apply answered_same; [done|done|apply true_nil]|].
    apply answered_write; [done|by apply ok_keep|apply later_store|done|apply true_nil|done].
  - destruct (o_fail o) as [[? e]|]; [apply answered_same; [done|done|apply true_nil]|].
    split_and!; [by apply ok_see|apply later_see|done|]. intros f [Hf|Hf]%elem_of_app.
    + by apply (true_noted w K (SawPods (lagging (w_pods w) (w_podss w) (o_pods o)))); [..|apply in_lagging|].
    + apply list_elem_of_fmap in Hf as (p & -> & Hp). exists (lagging (w_pods w) (w_podss w) (o_pods o)). split; [apply in_lagging|done].
  - set (w' := store_pods w (new_pod w (o_uid o) :: w_pods w)). assert (O' : world_ok w') by (eapply ok_other; [done|apply later_pods|done|done]).
    assert (L : later w w') by apply later_pods. unfold write.
    assert (HR : ∀ w1 e, world_ok w1 → later w w1 → answered w K (CreatePod tlsSecret) ((if isWriteRejection e then see w1 (SawRefusal (ae_text e)) else w1), inr e)).
    { intros w1 e O1 L1. unfold answered. simpl. destruct (isWriteRejection e); [|split_and!; [done|done|done|apply true_nil]].
      split_and!; [by apply ok_see|intros f Hf; by apply later_see, L1|done|]. apply true_noted; [done|by eapply true_later|done]. }
    destruct (o_fail o) as [[[] e]|]; [by apply HR|by apply HR; [|apply later_refl]|].
    split_and!; [done|done|done|]. intros f Hf. simpl in Hf. apply list_elem_of_singleton in Hf as ->. eexists. split; [by left|by left].
  - apply answered_write; [done|eapply ok_other; [done|apply later_pods|done|done]|apply later_pods|done|apply true_nil|done].
  - destruct (o_fail o) as [[? e]|]; [apply answered_same; [done|done|apply true_nil]|].
    apply answered_see; [done|done|done|apply in_lagging|]. by destruct (lagging _ _ _).
  - destruct (w_mail w) as [m|]; [|apply answered_same; [done|done|apply true_nil]].
    destruct (negb _); [apply answered_same; [done|done|apply true_nil]|].
    set (w1 := store_mail w _). assert (O1 : world_ok w1) by (eapply ok_other; [done|apply later_mail|done|done]).
    assert (L1 : later w w1) by apply later_mail.
    apply answered_write; [done|by apply ok_see|intros f Hf; by apply later_see, L1|done| |done].
    apply true_noted; [done|by eapply true_later|]. eexists. split; [by left|done].
  - destruct (o_class o); [by apply answered_see|apply answered_same; [done|done|apply true_nil]..].
  - by apply answered_see.
  - by apply answered_see.
  - by apply answered_child.
  - by apply answered_child.
  - destruct c; simpl; try by apply answered_child.
    destruct (w_mail w); [by apply answered_child|].
    destruct (o_error o); [by apply answered_child|].
    split_and!; [eapply ok_other; [done|apply later_mail|done|done]|apply later_mail|done|apply true_nil].
  - by apply answered_child.
  - split_and!; [eapply ok_other; [done|apply later_say|done|done]|apply later_say|done|apply true_nil].
Qed.

(** ** Runs *)

Definition system_ok (s : system) : Prop :=
  world_ok (s_world s) ∧
  match s_pass s with Some p => ∃ K, true_in (s_world s) K ∧ wp K p (λ _ _, True) | None => True end.

Lemma patch_ok w req sent : world_ok w → world_ok (patch w req sent) ∧ later w (patch w req sent).
Proof.
  intros O. unfold patch. destruct (completion_payload _ _) as [e|data]; [split; [done|apply later_refl]|].
  destruct (w_mail w) as [m|]; [|split; [done|apply later_refl]].
  assert (L : later w (set_requests (store_mail w (Some (mk_mailbox (S (mb_Version m)) (mb_Controlled m) (PatchMailbox (mb_Data m) data))))
    (w_inflight w) ((req.1, data) :: w_log w))).
  { intros f Hf. apply later_requests. by apply later_mail. }
  split; [by eapply ok_other|done].
Qed.

Lemma world_step_ok w l : world_ok w → world_ok (world_step w l) ∧ later w (world_step w l).
Proof.
  intros O. destruct l; simpl; try (split; [done|apply later_refl]).
  - split; [eapply ok_other; [done|apply later_pods|done|done]|apply later_pods].
  - split; [eapply ok_other; [done|apply later_clock|done|done]|apply later_clock].
  - destruct (w_gone w); [split; [done|apply later_refl]|]. split; [by apply ok_keep|apply later_store].
  - destruct (w_gone w); [split; [done|apply later_refl]|]. split; [by apply ok_keep|apply later_store].
  - destruct (passes _ _); [|split; [done|apply later_refl]].
    split; [eapply ok_other; [done|apply later_requests|done|done]|apply later_requests].
  - destruct (_ !! i); [by apply patch_ok|split; [done|apply later_refl]].
  - destruct (passes _ _); [by apply patch_ok|split; [done|apply later_refl]].
Qed.

Lemma step_ok s l : system_ok s → system_ok (step ParseCIDR OperatorNamespace s l).
Proof.
  intros [O P]. assert (W : ∀ l, system_ok (mk_system (world_step (s_world s) l) (s_pass s))).
  { intros l'. destruct (world_step_ok (s_world s) l' O) as [O' L]. split; [done|]. simpl. destruct (s_pass s); [|done].
    destruct P as (K & HK & Hw). exists K. split; [by eapply true_later|done]. }
  destruct l; try apply W; simpl.
  - destruct (s_pass s) eqn:E; [split; [done|by rewrite E]|]. split; [done|]. exists [].
    split; [apply true_nil|apply Reconcile_obeys].
  - destruct (s_pass s) as [[a|B c k]|] eqn:E; [by split| |split; [done|by rewrite E]].
    destruct P as (K & HK & [Ho Hw]). pose proof (answer_ok o (s_world s) K c O HK Ho) as A.
    destruct (answer o (s_world s) c) as [w' b]. destruct A as (O' & L & Hs & Hl). simpl in *.
    split; [done|]. exists (learn K c b ++ K). split; [|by apply Hw]. intros f [Hf|Hf]%elem_of_app; [by apply Hl|by apply L, HK].
  - by split.
Qed.

Lemma run_ok s ls : system_ok s → system_ok (run ParseCIDR OperatorNamespace s ls).
Proof. revert s. induction ls as [|l ls IH]; intros s H; [done|]. by apply IH, step_ok. Qed.

Lemma created_ok ns name uid cs sp now : system_ok (created ns name uid cs sp now).
Proof.
  split; [|done]. split; unfold versions; simpl.
  - done.
  - intros t Ht. by apply elem_of_nil in Ht.
  - by intros t t' ->%list_elem_of_singleton ->%list_elem_of_singleton.
  - intros t ->%list_elem_of_singleton. unfold wf_core, settled_phase. simpl. split_and!; try done. by intros [?|[?|?]].
  - by intros t ->%list_elem_of_singleton.
Qed.
End system.

(** What the runs of the AgentTask system guarantee: the lifecycle, the
    retry count, the finality of an outcome and the evidence behind a
    success.  All of it holds for every run: any interleaving of passes,
    Pods, edits and completions, caches that lag, writes that fail or are
    applied and reported as failed, and restarts at any call. *)


Section claims.
Context {CD : Conditions} `{!EqDecision conditions} {MR : MapRange} {U : Unicode}.

(** A world reached by a run from the task's creation. *)
Definition reached (ParseCIDR : string → bool) (operatorNS ns name uid : string) (cs : conditions) (sp : AgentTaskSpec)
    (now : Time) (ls : list label) : world :=
  s_world (run ParseCIDR operatorNS (created ns name uid cs sp now) ls).

Lemma reached_ok pc op ns name uid cs sp now ls : world_ok (reached pc op ns name uid cs sp now ls).
Proof. apply run_ok, created_ok. Qed.

(** ** Reading a path *)

Definition settled_same (o n : AgentTaskStatus) : Prop :=
  CompletionTime n = CompletionTime o ∧ Retries n = Retries o ∧ ArtifactValues n = ArtifactValues o ∧
  AgentReportedStatus n = AgentReportedStatus o ∧ AgentReportedMessage n = AgentReportedMessage o ∧
  (Phase n = Phase o ∨ Phase n = TaskTerminating).

Lemma edge_settled w o n x :
  edge w o n → wf_core (core_of (t_Status o)) → CompletionTime (t_Status o) = Some x →
  CompletionTime (t_Status o) = stored_time <$> CompletionTime (t_Status o) → settled_same (t_Status o) (t_Status n).
Proof.
  unfold settled_same. intros [->|(_ & K & s & _ & M & ->)] W Hx Hs; [split_and!; auto|].
  unfold core_of in M. simpl in M. rewrite Hx in M. inversion M; subst; simpl in *.
  - rewrite Hx in *. simpl in *. congruence.
  - rewrite Hx in Hs. split_and!; auto. match goal with H : Some _ = CompletionTime s |- _ => rewrite <-H end. by rewrite Hx.
Qed.

Lemma settled_trans o m n : settled_same o m → settled_same m n → settled_same o n.
Proof. unfold settled_same. intros (-> & -> & -> & -> & -> & H1) (-> & -> & -> & -> & -> & H2). split_and!; auto. destruct H2 as [->|]; auto. Qed.

(** From a version to every later one. *)
Lemma path_settled w n l o x :
  path w (n :: l) → (∀ t, t ∈ n :: l → wf_core (core_of (t_Status t)) ∧ CompletionTime (t_Status t) = stored_time <$> CompletionTime (t_Status t)) →
  o ∈ l → CompletionTime (t_Status o) = Some x → settled_same (t_Status o) (t_Status n).
Proof.
  revert n. induction l as [|m l IH]; intros n P W Ho Hx; [by apply elem_of_nil in Ho|]. destruct P as [E P].
  apply elem_of_cons in Ho as [->|Ho].
  - destruct (W m) as [W1 W2]; [by right; left|]. by eapply edge_settled.
  - assert (S1 : settled_same (t_Status o) (t_Status m)) by (apply IH; [done|intros; apply W; by right|done|done]).
    eapply settled_trans; [done|]. destruct (W m) as [W1 W2]; [by right; left|].
    eapply edge_settled; [done|done| |done]. destruct S1 as [-> _]. done.
Qed.

Lemma path_drop w l i : path w l → path w (drop i l).
Proof. revert i. induction l as [|n l IH]; intros [|i] P; try done. destruct P as [_ P]. by apply IH. Qed.

(** The counting writes of a history, newest version first. *)
Fixpoint counted_retries (l : list AgentTask) : nat :=
  match l with
  | n :: l => match l with o :: _ => if (Retries (t_Status n) =? Retries (t_Status o))%Z then 0 else 1 | [] => 0 end + counted_retries l
  | [] => 0
  end.

(** A counting write: from an attempt under way, with a retry left, to a
    transient Failed whose Pod UID is cleared. *)
Definition counts (o n : AgentTask) : Prop :=
  Retries (t_Status n) = (Retries (t_Status o) + 1)%Z ∧ (Retries (t_Status o) < BackoffLimit (Completion (t_Spec o)))%Z ∧
  active (Phase (t_Status o)) ∧ Phase (t_Status n) = TaskFailed ∧ CompletionTime (t_Status n) = None ∧ CurrentPodUID (t_Status n) = "".

Lemma edge_counts w o n : edge w o n → Retries (t_Status n) = Retries (t_Status o) ∨ counts o n.
Proof.
  unfold counts. intros [->|(_ & K & s & _ & M & ->)]; [by left|]. unfold core_of in M. simpl.
  destruct (decide (Retries s = Retries (t_Status o))) as [E|E]; [by left|right].
  inversion M; subst; simpl in *; try congruence.
  split_and!; auto; congruence.
Qed.

Lemma last_any {A} (a : A) l d d' : List.last (a :: l) d = List.last (a :: l) d'.
Proof. revert a. induction l as [|b l IH]; intros a; [done|]. apply IH. Qed.

Lemma path_counts w l n L :
  path w (n :: l) → (∀ t, t ∈ n :: l → (BackoffLimit (Completion (t_Spec t)) <= L)%Z) →
  Retries (t_Status (List.last (n :: l) n)) = 0%Z →
  Retries (t_Status n) = Z.of_nat (counted_retries (n :: l)) ∧ (Retries (t_Status n) <= Z.max 0 L)%Z.
Proof.
  revert n. induction l as [|o l IH]; intros n P HL H0; [simpl in *; lia|]. destruct P as [E P].
  destruct (IH o) as [IH1 IH2]; [done|intros; apply HL; by right| |].
  { rewrite <-H0. change (List.last (n :: o :: l) n) with (List.last (o :: l) n). by rewrite (last_any o l n o). }
  assert (HLo : (BackoffLimit (Completion (t_Spec o)) <= L)%Z) by (apply HL; right; by left).
  change (counted_retries (n :: o :: l)) with ((if (Retries (t_Status n) =? Retries (t_Status o))%Z then 0 else 1) + counted_retries (o :: l)).
  destruct (edge_counts _ _ _ E) as [En|(En & Hl & _)]; [rewrite En, Z.eqb_refl in *; lia|].
  destruct (Z.eqb_spec (Retries (t_Status n)) (Retries (t_Status o))); lia.
Qed.

(** The first version stays at the end of the history. *)
Definition oldest (w : world) : AgentTask := List.last (versions w) (w_task w).

Lemma oldest_store w t g : oldest (store_task w t g) = oldest w.
Proof. exact (last_any (w_task w) (w_past w) _ _). Qed.

Lemma oldest_answer {B} o w (c : call B) : oldest (answer o w c).1 = oldest w.
Proof.
  destruct c; simpl; try done; unfold write, child_write; repeat case_match; simplify_eq/=; rewrite ?oldest_store; done.
Qed.

Lemma oldest_step pc op s l : oldest (s_world (step pc op s l)) = oldest (s_world s).
Proof.
  destruct l; simpl; repeat case_match; simpl; rewrite ?oldest_store; try done;
    try (unfold patch; repeat case_match; done).
  match goal with H : answer _ _ _ = _ |- _ => rename H into E end.
  pose proof (f_equal (λ r, oldest r.1) E) as E'. simpl in E'. by rewrite <-E', oldest_answer.
Qed.

Lemma oldest_run pc op s ls : oldest (s_world (run pc op s ls)) = oldest (s_world s).
Proof. revert s. induction ls as [|l ls IH]; intros s; [done|]. simpl. unfold run in *. by rewrite IH, oldest_step. Qed.

(** Why a stored success is one: the version in Completing it was written
    from, and the report, exit code or timeout that was seen. *)
Definition success_evidence (w : world) (o n : AgentTask) : Prop :=
  (isAgentReported o = true ∧ AgentReportedStatus (t_Status n) = CompletionStatusSuccess ∧
   ∃ m, Some m ∈ mails w ∧ let p := parseCompletion (mb_Data m) in
     pl_Status p = CompletionStatusSuccess ∧ ArtifactValues (t_Status n) = pl_Artifacts p ∧
     names_fit CompletionStatusSuccess (pl_Artifacts p) (Artifacts (t_Spec o))) ∨
  (isAgentReported o = false ∧ ∃ ps p, ps ∈ pod_lists w ∧ p ∈ ps ∧ p_Phase p = PodSucceeded) ∨
  (OnTimeout (Completion (t_Spec o)) = onTimeoutSucceed ∧ ∃ x, (x <= w_clock w)%Z ∧ timedOut x o = true).

Lemma edge_success w o n :
  edge w o n → wf_core (core_of (t_Status o)) → Phase (t_Status n) = TaskSucceeded → Phase (t_Status o) ≠ TaskSucceeded →
  Phase (t_Status o) = TaskCompleting ∧ success_evidence w o n.
Proof.
  intros [E|(_ & K & s & HK & M & E)] W Hn Ho; [congruence|]. rewrite E in *. simpl in Hn. unfold core_of in M.
  assert (Hr0 : Phase (t_Status o) = TaskCompleting → AgentReportedStatus (t_Status o) = "").
  { intros Hp. destruct W as (_ & W1 & _ & _ & W4 & _). apply W4, W1. simpl. rewrite Hp. by right; right. }
  inversion M; subst; try congruence; try (by destruct_or?; destruct_and?; congruence).
  match goal with H : succeeds _ _ _ _ _ _ |- _ => destruct H as [Hr Hs] end. split; [congruence|].
  unfold success_evidence. rewrite E. destruct Hs as [(Ha & Hc & mb & Hm & Hst & Har)|[(Ha & p & Hp & Hph)|(y & Hy & Ht & Hon)]].
  - left. split_and!; [done|done|]. destruct Hr as [(_ & Hz & _)|(mb' & Hm' & _ & _ & Hv & Ha' & Hs' & _)].
    + simpl in Hz. rewrite Hr0 in Hz by congruence. by rewrite Hz in Hc.
    + exists mb'. apply controller_rule in Hv. split; [by apply (HK _ Hm')|]. cbv zeta in *. rewrite <-Hs', Hc in *. split_and!; done.
  - right; left. split; [done|]. destruct (HK _ Hp) as (ps & Hp1 & Hp2). exists ps, p. done.
  - right; right. split; [done|]. exists y. split; [by apply (HK _ Hy)|done].
Qed.

(** The oldest version with a success comes from one without. *)
Lemma path_success w l n o :
  path w (n :: l) → (∀ t, t ∈ n :: l → wf_core (core_of (t_Status t))) → List.last (n :: l) n = o →
  Phase (t_Status o) ≠ TaskSucceeded → Phase (t_Status n) = TaskSucceeded →
  ∃ o' n', o' ∈ l ∧ n' ∈ n :: l ∧ t_Status n' = t_Status n ∧ Phase (t_Status o') = TaskCompleting ∧ success_evidence w o' n'.
Proof.
  revert n. induction l as [|m l IH]; intros n P W Hl Ho Hn; [simpl in Hl; congruence|]. destruct P as [E P].
  destruct (decide (Phase (t_Status m) = TaskSucceeded)) as [Hm|Hm].
  - destruct (IH m) as (o' & n' & H1 & H2 & H3 & H4); [done|intros; apply W; by right| |done|done|].
    { rewrite <-Hl. change (List.last (n :: m :: l) n) with (List.last (m :: l) n). apply last_any. }
    exists o', n'. split_and!; [by right|by right| |apply H4|apply H4]. rewrite H3.
    destruct E as [E|(_ & K & s & _ & M & E)]; [done|]. exfalso. rewrite E in Hn. simpl in Hn.
    pose proof (W m (list_elem_of_further _ _ _ (list_elem_of_here _ _))) as (_ & _ & W2 & _). destruct W2 as [x Hx]; [by left|].
    unfold core_of in M, Hx. simpl in Hx. rewrite Hx, Hm in M. inversion M; subst; simpl in *; congruence.
  - exists m, n. split_and!; [by left|by left|done| |]; eapply edge_success; try done; apply W; right; by left.
Qed.
End claims.

(** C31: The lifecycle.  In every run the stored versions of a task form a path
    of the abstract machine [move]: each differs from the one before by an
    edit that keeps the status, or by a status write the machine allows from
    it, with evidence the controller saw and that was true.  A task enters
    Completing only on a report read, an exitCode Pod that ended or its
    timeout; it counts a retry or fails only on a failure ([failure]: a bad,
    failed or missing report, a Pod that failed, was lost while the attempt
    ran, ended early, is stuck or late, or a write refused past the deadline)
    or, before it has a Pod, on a violation of its class ([forbidden]); after
    a counted retry it is provisioned again only once the mailbox was seen
    empty, or was emptied, after the counting write. *)
Theorem task_lifecycle {CD : Conditions} `{!EqDecision conditions} {MR : MapRange} {U : Unicode}
    pc op ns name uid cs sp now ls :
  let w := reached pc op ns name uid cs sp now ls in path w (versions w).
Proof. apply reached_ok. Qed.

(** C38: Every stored status is well-formed: a phase that works has no
    completion time and no report, a settled one has its completion time,
    Running has a start time, and a retry in progress carries neither Pod UID
    nor start time. *)
Theorem task_status_wf {CD : Conditions} `{!EqDecision conditions} {MR : MapRange} {U : Unicode}
    pc op ns name uid cs sp now ls :
  Forall (λ t, wf_core (core_of (t_Status t))) (versions (reached pc op ns name uid cs sp now ls)).
Proof. apply Forall_forall. intros t Ht. apply list_elem_of_In in Ht. exact (ok_wf _ (reached_ok pc op ns name uid cs sp now ls) t Ht). Qed.

(** An outcome is final: once a stored version has a completion time,
    every later one has the same completion time, retry count, artifacts and
    report, and its phase, unless it is Terminating. *)
Theorem settled_is_final {CD : Conditions} `{!EqDecision conditions} {MR : MapRange} {U : Unicode}
    pc op ns name uid cs sp now ls i j n o x :
  let w := reached pc op ns name uid cs sp now ls in
  versions w !! i = Some n → versions w !! j = Some o → i < j →
  CompletionTime (t_Status o) = Some x → settled_same (t_Status o) (t_Status n).
Proof.
  intros w Hi Hj Hij Hx. pose proof (reached_ok pc op ns name uid cs sp now ls) as O. fold w in O.
  pose proof (path_drop w _ i (ok_path w O)) as P. rewrite (drop_S _ _ _ Hi) in P. eapply path_settled; [done| | |done].
  - intros t Ht. rewrite <-(drop_S _ _ _ Hi) in Ht. assert (Hv : t ∈ versions w) by (eapply elem_of_submseteq; [done|apply sublist_submseteq, sublist_drop]).
    split; [by apply (ok_wf w O)|by apply (ok_stored w O)].
  - apply list_elem_of_lookup_2 with (j - S i). rewrite lookup_drop. by replace (S i + (j - S i)) with j by lia.
Qed.

(** A retry is counted once and within the limit: [status.retries] is the
    number of counting writes of the history, and when the spec never allows
    more than [L] retries it never exceeds [L]. *)
Theorem retries_counted_once {CD : Conditions} `{!EqDecision conditions} {MR : MapRange} {U : Unicode}
    pc op ns name uid cs sp now ls L :
  let w := reached pc op ns name uid cs sp now ls in
  (0 <= L)%Z → Forall (λ t, BackoffLimit (Completion (t_Spec t)) <= L)%Z (versions w) →
  Retries (t_Status (w_task w)) = Z.of_nat (counted_retries (versions w)) ∧ (Retries (t_Status (w_task w)) <= L)%Z.
Proof.
  intros w HL HF. rewrite Forall_forall in HF. destruct (path_counts w (w_past w) (w_task w) L) as [H1 H2].
  - apply ok_path, reached_ok.
  - intros t Ht. by apply HF, list_elem_of_In.
  - change (Retries (t_Status (oldest w)) = 0%Z). unfold w, reached. by rewrite oldest_run.
  - split; [done|]. rewrite Z.max_r in H2; done.
Qed.

(** A task is Succeeded only with evidence: a success report whose
    artifacts are the recorded ones and fit the declared names was in the
    mailbox, or a Pod of an exitCode task had succeeded, or the timeout had
    passed with onTimeout Succeed. *)
Theorem success_has_evidence {CD : Conditions} `{!EqDecision conditions} {MR : MapRange} {U : Unicode}
    pc op ns name uid cs sp now ls :
  let w := reached pc op ns name uid cs sp now ls in
  Phase (t_Status (w_task w)) = TaskSucceeded →
  ∃ o n, o ∈ w_past w ∧ n ∈ versions w ∧ t_Status n = t_Status (w_task w) ∧
    Phase (t_Status o) = TaskCompleting ∧ success_evidence w o n.
Proof.
  intros w Hp. pose proof (reached_ok pc op ns name uid cs sp now ls) as O. fold w in O.
  apply (path_success w (w_past w) (w_task w) (oldest w)); [apply O|apply O|done| |done].
  unfold w, reached. by rewrite oldest_run.
Qed.
