(* ===== verification/TaskMailbox.v ===== *)
(** Whose result a task records.  When the gateway checks a completion and
    patches the mailbox against the current task in one step, the
    controller's reads of the mailbox are current, and the task is never
    edited to the exitCode condition, a recorded report was
    accepted in the attempt that records it: the retry's order (clear the
    Pod UID, reset the mailbox, provision again) keeps the attempts apart.

    Concrete runs of the system close the file. *)

From stdpp Require Import base gmap sets list strings option.
From Stdlib Require Import ZArith Lia Ascii.
From S2P Require Import Prelude GoFloat GoTime Json ProblemList Conditions TaskData TaskReconcile TaskLogic TaskFacts TaskClaims.

Section mailbox.
Context {CD : Conditions} `{!EqDecision conditions} {MR : MapRange} {U : Unicode}.
Context (ParseCIDR : string → bool) (OperatorNamespace : string).

(** A counted retry that is not finished. *)
Definition transient (c : core) : Prop := c_phase c = TaskFailed ∧ c_done c = None.

(** A value of the mailbox accepted when the retry count was [r]. *)
Definition logged (w : world) (r : Z) (k v : string) : Prop := ∃ data, (r, data) ∈ w_log w ∧ data !! k = Some v.

Definition mail_data (w : world) : gmap string string := match w_mail w with Some m => mb_Data m | None => ∅ end.

(** What the facts of a pass say of the attempt. *)
Definition jholds (w : world) (f : fact) : Prop :=
  match f with
  | FTask t => t ∈ versions w
  | FSaw t (SawMail m) => t ∈ versions w ∧
      (resourceVersion t = resourceVersion (w_task w) → ¬ transient (core_of (t_Status t)) →
       ∀ k v, mail_values m !! k = Some v → logged w (Retries (t_Status t)) k v) ∧
      (resourceVersion t = resourceVersion (w_task w) → transient (core_of (t_Status t)) → mail_values m = ∅ → mail_data w = ∅)
  | FSaw t Emptied => t ∈ versions w ∧
      (resourceVersion t = resourceVersion (w_task w) → transient (core_of (t_Status t)) → mail_data w = ∅)
  | _ => True
  end.

Definition jtrue (w : world) (K : facts) : Prop := ∀ f, f ∈ K → jholds w f.

(** A core whose report, if any, was accepted in its attempt. *)
Definition accepted (w : world) (c : core) : Prop :=
  (c_status c ≠ "" → logged w (c_retries c) CompletionKeyStatus (c_status c)) ∧
  (∀ k v, c_artifacts c !! k = Some v → logged w (c_retries c) (CompletionArtifactPrefix +:+ k) v).

(** The mailbox holds the current attempt's values, unless a retry is in
    progress. *)
Definition mail_of (w : world) (c : core) : Prop :=
  ¬ transient c → ∀ k v, mail_data w !! k = Some v → logged w (c_retries c) k v.

Record mail_ok (w : world) : Prop := {
  mo_cond t : t ∈ versions w → isAgentReported t = true;
  mo_mail : mail_of w (core_of (t_Status (w_task w)));
  mo_reports t : t ∈ versions w → accepted w (core_of (t_Status t));
}.

(** ** A status write *)

Lemma reports_accepted w K t a s m c :
  world_ok w → mail_ok w → jtrue w K → t = w_task w → c = core_of (t_Status t) → active (c_phase c) → reports K t a s m c →
  (s ≠ "" → logged w (c_retries c) CompletionKeyStatus s) ∧
  (∀ k v, a !! k = Some v → logged w (c_retries c) (CompletionArtifactPrefix +:+ k) v).
Proof.
  intros O MO J -> -> Ha [(-> & -> & ->)|(mb & Hm & _ & Hs & _ & -> & -> & _)].
  - apply (mo_reports w MO). by left.
  - destruct (J _ Hm) as (_ & G & _). specialize (G eq_refl). assert (Hn : ¬ transient (core_of (t_Status (w_task w)))).
    { intros [Hf _]. simpl in Hf, Ha. rewrite Hf in Ha. destruct Ha as [[?|[?|?]]|[?|?]]; done. }
    specialize (G Hn). split.
    + intros _. apply G. unfold parseCompletion in *. simpl in *. by destruct (mb_Data mb !! CompletionKeyStatus).
    + intros k v Hk. apply G. by rewrite <-parse_artifact.
Qed.

Lemma move_mail w K c c' :
  world_ok w → mail_ok w → jtrue w K → c = core_of (t_Status (w_task w)) → wf_core c → move K (w_task w) c c' →
  mail_of w c' ∧ accepted w c'.
Proof.
  intros O MO J Ec W M. pose proof (mo_mail w MO) as HM. rewrite <-Ec in HM.
  assert (HA : accepted w c) by (rewrite Ec; apply (mo_reports w MO); by left).
  assert (HR : ∀ a s m, active (c_phase c) → reports K (w_task w) a s m c →
    (s ≠ "" → logged w (c_retries c) CompletionKeyStatus s) ∧
    (∀ k v, a !! k = Some v → logged w (c_retries c) (CompletionArtifactPrefix +:+ k) v)).
  { intros a s m Ha Hr. by eapply reports_accepted. }
  assert (HN : active (c_phase c) → ¬ transient c).
  { intros Ha [Hf _]. rewrite Hf in Ha. destruct Ha as [[?|[?|?]]|[?|?]]; done. }
  unfold mail_of, accepted in *. destruct M; simpl in *.
  - done.
  - split; [|done]. intros _. apply HM, HN. by left.
  - split; [|done]. intros _. apply HM, HN. by left.
  - split; [|done]. intros _. apply HM, HN. apply (f_equal c_phase) in Ec. simpl in Ec. rewrite Ec. destruct H as [? E|? E|? E|? E]; try (rewrite E; by right; left). by left.
  - split; [|split; [done|intros k v Hk; by rewrite lookup_empty in Hk]]. intros Hn. by destruct Hn.
  - split; [|done]. intros _. assert (Ha : isAgentReported (w_task w) = true) by (apply (mo_cond w MO); by left).
    assert (G : mail_data w = ∅) by (destruct (H Ha) as [Hc|(m' & Hc & Hm')];
      [destruct (J _ Hc) as [_ G]|destruct (J _ Hc) as (_ & _ & G)]; (apply G; [done| |]) || (apply G; [done|]); try done; by rewrite <-Ec).
    rewrite G. intros k v Hk. by rewrite lookup_empty in Hk.
  - destruct (HR _ _ _ H H2) as [R1 R2]. split; [intros _; by apply HM, HN|done].
  - destruct H0 as [Hr _]. assert (Ha : active TaskCompleting) by (by right; right). destruct (HR _ _ _ Ha Hr) as [R1 R2].
    split; [intros _; by apply HM, HN|done].
  - split; [|done]. intros _. apply HM, HN. by right; right.
  - split; [|done]. intros _. apply HM. intros [_ Hd]. done.
Qed.

(** ** Changes of the world *)

Definition jlater (w w' : world) : Prop := ∀ f, jholds w f → jholds w' f.

Lemma jlater_refl w : jlater w w.
Proof. by intros f. Qed.

Lemma logged_grow w w' r k v : (∀ e, e ∈ w_log w → e ∈ w_log w') → logged w r k v → logged w' r k v.
Proof. intros H (d & Hd & Hk). exists d. auto. Qed.

(** The task and the log stay; the mailbox stays or is empty. *)
Lemma keep_task w w' :
  w_task w' = w_task w → w_past w' = w_past w → w_log w' = w_log w → mail_data w' = mail_data w ∨ mail_data w' = ∅ →
  mail_ok w → mail_ok w' ∧ jlater w w'.
Proof.
  intros Et Ep El Em [M1 M2 M3]. assert (EL : ∀ r k v, logged w' r k v ↔ logged w r k v) by (intros; unfold logged; by rewrite El).
  split; [split|]; unfold versions, accepted, mail_of in *; rewrite ?Et, ?Ep.
  - done.
  - intros Hn k v Hk. apply EL. destruct Em as [Em|Em]; rewrite Em in Hk; [auto|by rewrite lookup_empty in Hk].
  - intros t Ht. destruct (M3 t Ht) as [R1 R2]. split; intros; apply EL; auto.
  - intros f Hf. destruct f as [| | |t []]; simpl in *; unfold versions in *; rewrite ?Et, ?Ep; try done.
    + destruct Hf as (Ht & Hf & Hg). split_and!; [done|intros; apply EL; eauto|]. intros Hv Hx Hm. destruct Em as [-> | ->]; auto.
    + destruct Hf as [Ht Hf]. split; [done|]. intros Hv Hx. destruct Em as [-> | ->]; auto.
Qed.

(** A new version: what was known of older ones no longer matters. *)
Lemma new_version w t g :
  world_ok w → mail_ok w → isAgentReported t = true → mail_of w (core_of (t_Status t)) → accepted w (core_of (t_Status t)) →
  mail_ok (store_task w t g) ∧ jlater w (store_task w t g).
Proof.
  intros O [M1 M2 M3] Hc Hm Ha. assert (HL : ∀ t', t' ∈ versions w → resourceVersion t' < S (resourceVersion (w_task w))).
  { intros t' [->|Ht]%elem_of_cons; [lia|]. pose proof (ok_newest w O _ Ht). lia. }
  split; [split|].
  - intros t' [->|Ht]%elem_of_cons; [done|by apply M1].
  - done.
  - intros t' [->|Ht]%elem_of_cons; [done|by apply M3].
  - intros f Hf. destruct f as [| | |t' []]; simpl in *; try done; [by right|..]; pose proof (proj1 Hf) as Ht;
      split_and!; try (by right); intros Hv; specialize (HL _ Ht); simpl in Hv; lia.
Qed.

Lemma same_status w t g :
  world_ok w → mail_ok w → isAgentReported t = true → t_Status t = t_Status (w_task w) →
  mail_ok (store_task w t g) ∧ jlater w (store_task w t g).
Proof.
  intros O MO Hc E. apply new_version; [done|done|done|rewrite E; apply MO|rewrite E; apply (mo_reports w MO); by left].
Qed.

(** An atomic completion of the current Pod. *)
Lemma complete_mail w uid sent :
  world_ok w → mail_ok w → passes (w_task w) uid = true →
  let w' := patch w (Retries (t_Status (w_task w)), Artifacts (t_Spec (w_task w))) sent in mail_ok w' ∧ jlater w w'.
Proof.
  intros O MO Hp w'. assert (Hn : ¬ transient (core_of (t_Status (w_task w)))).
  { intros [Hf _]. simpl in Hf. unfold passes, completion_checks in Hp. rewrite Hf in Hp.
    change (negb ("POST" =? "POST")%string) with false in Hp. cbv iota in Hp. by destruct (_ =? "exitCode")%string. }
  unfold w', patch. destruct (completion_payload _ _) as [e|data]; [split; [done|apply jlater_refl]|].
  destruct (w_mail w) as [m|] eqn:Em; [|split; [done|apply jlater_refl]].
  destruct MO as [M1 M2 M3]. set (w2 := set_requests _ _ _).
  assert (G : ∀ r k v, logged w r k v → logged w2 r k v) by (intros r k v; apply logged_grow; intros e He; by right).
  split; [split|].
  - done.
  - intros _ k v Hk. unfold mail_data in Hk. simpl in Hk. apply lookup_union_Some_raw in Hk as [Hk|[_ Hk]].
    + exists data. split; [by left|done].
    + apply G, M2; [done|]. unfold mail_data. by rewrite Em.
  - intros t Ht. destruct (M3 t Ht) as [R1 R2]. split; intros; apply G; auto.
  - assert (Hcur : ∀ t, t ∈ versions w → resourceVersion t = resourceVersion (w_task w) → ¬ transient (core_of (t_Status t))).
    { intros t Ht Hv. assert (E : t = w_task w) by (apply (ok_unique w O); [done|by left|done]). by subst t. }
    intros f Hf. destruct f as [| | |t []]; simpl in *; try done.
    + destruct Hf as (Ht & Hf & _). split_and!; [done|intros; apply G; eauto|]. intros Hv Hx. by destruct (Hcur t).
    + destruct Hf as [Ht Hf]. split; [done|]. intros Hv Hx. by destruct (Hcur t).
Qed.

(** ** Calls *)

Lemma jtrue_nil w : jtrue w [].
Proof. intros f Hf. by apply elem_of_nil in Hf. Qed.

Lemma jtrue_known w K t : jtrue w K → t ∈ tasks_known K → t ∈ versions w.
Proof. intros J ([t'| | |] & Hf & [= ->])%list_elem_of_omap. by apply (J (FTask t)). Qed.

Lemma jtrue_emptied w w' K : jtrue w K → versions w' = versions w → mail_data w' = ∅ → jtrue w' (noted K Emptied).
Proof. intros J E Em f (t & -> & Ht)%list_elem_of_fmap. split; [rewrite E; by eapply jtrue_known|done]. Qed.

(** What says nothing of the mailbox. *)
Definition elsewhere (x : sight) : Prop := match x with SawMail _ | Emptied => False | _ => True end.

Lemma jtrue_elsewhere w K x : elsewhere x → jtrue w (noted K x).
Proof. intros Hx f (t & -> & Ht)%list_elem_of_fmap. by destruct x. Qed.

Lemma jtrue_refused w K r : jtrue w (refused K r).
Proof. destruct r as [e|]; simpl; [|by intros f ?%elem_of_nil]. case_match; [by apply jtrue_elsewhere|by intros f ?%elem_of_nil]. Qed.

Definition janswered {B} (w : world) (K : facts) (c : call B) (r : world * B) : Prop :=
  mail_ok r.1 ∧ jlater w r.1 ∧ jtrue r.1 (learn K c r.2).

Lemma jwrite {B} o w w' K (c : call B) (ok : B) (fail : api_error → B) :
  mail_ok w → mail_ok w' ∧ jlater w w' → jtrue w' (learn K c ok) → (∀ e, learn K c (fail e) = []) →
  janswered w K c (write o w w' ok fail).
Proof.
  intros MO [MO' L] Hl Hf. unfold write. destruct (o_fail o) as [[[] e]|]; split_and!; simpl; rewrite ?Hf; try done; first [apply jtrue_nil|apply jlater_refl].
Qed.

Lemma jsame {B} w K (c : call B) b : mail_ok w → jtrue w (learn K c b) → janswered w K c (w, b).
Proof. intros; split_and!; [done|apply jlater_refl|done]. Qed.

Lemma reported_as (t t' : AgentTask) : t_Spec t' = t_Spec t → isAgentReported t' = isAgentReported t.
Proof. intros E. unfold isAgentReported. by rewrite E. Qed.

(** Seeing changes neither the task nor the mailbox. *)
Lemma see_keeps w x : mail_ok w → mail_ok (see w x) ∧ jlater w (see w x).
Proof. intros MO. apply keep_task; try done. by left. Qed.

Lemma jsee {B} w K (c : call B) x b : mail_ok w → jtrue (see w x) (learn K c b) → janswered w K c (see w x, b).
Proof. intros MO Hl. destruct (see_keeps w x MO). by split_and!. Qed.

Lemma jchild w K (c : call (option error)) r : mail_ok w → (∀ r, learn K c r = refused K r) → janswered w K c (child_write w r).
Proof.
  intros MO Hl. unfold child_write. destruct r as [e|]; [destruct (asChildWriteRejected e)|].
  - apply jsee; [done|]. rewrite Hl. apply jtrue_refused.
  - apply jsame; [done|]. rewrite Hl. apply jtrue_refused.
  - apply jsame; [done|]. rewrite Hl. apply jtrue_refused.
Qed.

(** The mailbox as it stands. *)
Lemma jmailbox w K : world_ok w → mail_ok w → jtrue w K → jtrue (see w (SawMail (w_mail w))) (noted K (SawMail (w_mail w))).
Proof.
  intros O MO J f (t & -> & Ht)%list_elem_of_fmap. pose proof (jtrue_known _ _ _ J Ht) as Hv. split; [done|].
  assert (Hcur : resourceVersion t = resourceVersion (w_task w) → t = w_task w) by (intros; apply (ok_unique w O); [done|by left|done]).
  split; [|done]. intros Ev%Hcur Hn k v Hk. subst t. by apply (mo_mail w MO).
Qed.

Lemma answer_mail {B} o w K (c : call B) :
  world_ok w → mail_ok w → true_in w K → jtrue w K → owes K c → o_mail o = 0 → janswered w K c (answer o w c).
Proof.
  intros O MO T J Ho Hf. assert (HC : isAgentReported (w_task w) = true) by (apply (mo_cond w MO); by left).
  destruct c; simpl answer; try (apply jsame; [done|apply jtrue_nil]).
  - destruct (keep_task w (set_clock w (w_clock w + Z.of_nat (o_tick o))%Z)) as [M L]; try done; [by left|].
    split_and!; [done|done|]. intros f Hx. simpl in Hx. by apply list_elem_of_singleton in Hx as ->.
  - apply jsame; [done|]. destruct (o_fail o) as [[? ?]|]; [apply jtrue_nil|]. destruct (_ && _); [apply jtrue_nil|].
    intros f Hx. simpl in Hx. apply list_elem_of_singleton in Hx as ->. apply in_lagging.
  - destruct (w_gone w); [apply jsame; [done|apply jtrue_nil]|]. destruct (negb _); [apply jsame; [done|apply jtrue_nil]|].
    apply jwrite; [done|by apply same_status|apply jtrue_nil|done].
  - destruct (w_gone w); [apply jsame; [done|apply jtrue_nil]|]. destruct (negb _) eqn:Ev; [apply jsame; [done|apply jtrue_nil]|].
    apply negb_false_iff, Nat.eqb_eq in Ev. destruct Ho as (t0 & Ht0 & Et & Hm).
    destruct (ok_status w K t t0 O T Ht0 Et Ev Hm) as [-> _].
    destruct (move_mail w K _ _ O MO J eq_refl (ok_wf w O (w_task w) (list_elem_of_here _ _)) Hm) as [Hml Hac].
    apply jwrite; [done| | |done].
    + apply new_version; [done|done|done| |done]. intros Hn. apply Hml. intros [Hp Hd]. apply Hn. split; [done|].
      simpl in *. by rewrite Hd.
    + intros f Hx. simpl in Hx. apply list_elem_of_singleton in Hx as ->. by left.
  - destruct (w_gone w); [apply jsame; [done|apply jtrue_nil]|]. apply jwrite; [done|by apply same_status|apply jtrue_nil|done].
  - destruct (o_fail o) as [[? ?]|]; [apply jsame; [done|apply jtrue_nil]|]. apply jsee; [done|].
    intros f [Hx|(p & -> & _)%list_elem_of_fmap]%elem_of_app; [|done]. exact (jtrue_elsewhere _ K (SawPods _) I f Hx).
  - set (w1 := store_pods w _). assert (K1 : mail_ok w1 ∧ jlater w w1) by (apply keep_task; try done; by left). unfold write.
    assert (HR : ∀ w2 e, mail_ok w2 ∧ jlater w w2 → janswered w K (CreatePod tlsSecret) ((if isWriteRejection e then see w2 (SawRefusal (ae_text e)) else w2), inr e)).
    { intros w2 e [M2 L2]. unfold janswered. simpl. destruct (isWriteRejection e); [|split_and!; [done|done|apply jtrue_nil]].
      destruct (see_keeps w2 (SawRefusal (ae_text e)) M2) as [M3 L3]. split_and!; [done|intros f Hx; by apply L3, L2|by apply jtrue_elsewhere]. }
    destruct (o_fail o) as [[[] e]|]; [by apply HR|by apply HR; split; [|apply jlater_refl]|].
    destruct K1. split_and!; [done|done|]. intros f Hx. simpl in Hx. by apply list_elem_of_singleton in Hx as ->.
  - apply jwrite; [done|apply keep_task; try done; by left|apply jtrue_nil|done].
  - destruct (o_fail o) as [[? ?]|]; [apply jsame; [done|apply jtrue_nil]|]. rewrite Hf. change (lagging (w_mail w) (w_mails w) 0) with (w_mail w).
    apply jsee; [done|]. pose proof (jmailbox w K O MO J) as Hj. by destruct (w_mail w).
  - destruct (w_mail w) as [m|] eqn:Em; [|apply jsame; [done|apply jtrue_nil]].
    destruct (negb _); [apply jsame; [done|apply jtrue_nil]|].
    set (w1 := store_mail w _). assert (K1 : mail_ok w1 ∧ jlater w w1) by (apply keep_task; try done; by right). destruct K1 as [M1 L1].
    apply jwrite; [done| |by apply (jtrue_emptied w)|done]. destruct (see_keeps w1 Emptied M1) as [M2 L2]. split; [done|]. intros f Hx. by apply L2, L1.
  - destruct (o_class o); [apply jsee; [done|by apply jtrue_elsewhere]|apply jsame; [done|apply jtrue_nil]..].
  - apply jsee; [done|by apply jtrue_elsewhere].
  - apply jsee; [done|by apply jtrue_elsewhere].
  - by apply jchild.
  - by apply jchild.
  - destruct c; simpl; try by apply jchild. destruct (w_mail w) eqn:Em; [by apply jchild|].
    destruct (o_error o); [by apply jchild|].
    destruct (keep_task w (store_mail w (Some (mk_mailbox 0 true ∅)))) as [M L]; try done; [by right|]. by split_and!; [| |apply jtrue_nil].
  - by apply jchild.
  - destruct (keep_task w (say w e)) as [M L]; try done; [by left|]. by split_and!; [| |apply jtrue_nil].
Qed.

(** ** Runs *)

(** Completions in one step against the current task, current reads of the
    mailbox, and a task that stays agentReported. *)
Definition orderly (l : label) : Prop :=
  match l with
  | LCall o => o_mail o = 0
  | LSpec sp => cp_Condition (Completion sp) ≠ completionExitCode
  | LCheck _ _ | LPatch _ _ => False
  | _ => True
  end.

Definition system_mail (s : system) : Prop :=
  world_ok (s_world s) ∧ mail_ok (s_world s) ∧
  match s_pass s with
  | Some p => ∃ K, true_in (s_world s) K ∧ jtrue (s_world s) K ∧ wp K p (λ _ _, True)
  | None => True
  end.

Lemma world_step_mail w l : world_ok w → mail_ok w → orderly l → mail_ok (world_step w l) ∧ jlater w (world_step w l).
Proof.
  intros O MO Hl. assert (HC : isAgentReported (w_task w) = true) by (apply (mo_cond w MO); by left).
  destruct l; simpl; try done; try (split; [done|apply jlater_refl]).
  - apply keep_task; try done. by left.
  - apply keep_task; try done. by left.
  - destruct (w_gone w); [split; [done|apply jlater_refl]|]. apply same_status; [done|done| |done].
    unfold isAgentReported. simpl. apply negb_true_iff. by apply String.eqb_neq.
  - destruct (w_gone w); [split; [done|apply jlater_refl]|]. by apply same_status.
  - destruct (passes _ _) eqn:Ep; [by apply (complete_mail w uid)|split; [done|apply jlater_refl]].
Qed.

Lemma step_mail s l : system_mail s → orderly l → system_mail (step ParseCIDR OperatorNamespace s l).
Proof.
  intros (O & MO & P) Hl. assert (Wd : system_mail (mk_system (world_step (s_world s) l) (s_pass s))).
  { destruct (world_step_ok (s_world s) l O) as [O' L]. destruct (world_step_mail (s_world s) l O MO Hl) as [MO' JL].
    split_and!; [done|done|]. simpl. destruct (s_pass s); [|done]. destruct P as (K & HK & HJ & Hw). exists K.
    split_and!; [by eapply true_later|intros f Hf; by apply JL, HJ|done]. }
  destruct l; try done; simpl.
  - destruct (s_pass s) eqn:E; [split_and!; [done|done|by rewrite E]|]. split_and!; [done|done|]. exists [].
    split_and!; [apply true_nil|apply jtrue_nil|apply Reconcile_obeys].
  - destruct (s_pass s) as [[a|B c k]|] eqn:E; [by split_and!| |split_and!; [done|done|by rewrite E]].
    destruct P as (K & HK & HJ & [Ho Hw]). pose proof (answer_ok o (s_world s) K c O HK Ho) as A.
    pose proof (answer_mail o (s_world s) K c O MO HK HJ Ho Hl) as A2. destruct (answer o (s_world s) c) as [w' b].
    destruct A as (O' & L & Hs & Hl1). destruct A2 as (MO' & JL & Hl2). simpl in *.
    split_and!; [done|done|]. exists (learn K c b ++ K).
    split_and!; [|intros f [Hx|Hx]%elem_of_app; [by apply Hl2|by apply JL, HJ]|by apply Hw].
    intros f [Hx|Hx]%elem_of_app; [by apply Hl1|by apply L, HK].
Qed.

Lemma run_mail s ls : system_mail s → Forall orderly ls → system_mail (run ParseCIDR OperatorNamespace s ls).
Proof.
  intros H F. revert s H. induction F as [|l ls Hl F IH]; intros s H; [done|]. by apply IH, step_mail.
Qed.

Lemma created_mail ns name uid cs sp now :
  cp_Condition (Completion sp) ≠ completionExitCode → system_mail (created ns name uid cs sp now).
Proof.
  intros Hc. split_and!; [apply created_ok| |done]. split; unfold versions; simpl.
  - intros t ->%list_elem_of_singleton. unfold isAgentReported. simpl. apply negb_true_iff. by apply String.eqb_neq.
  - intros _ k v Hk. unfold mail_data in Hk. simpl in Hk. by rewrite lookup_empty in Hk.
  - intros t ->%list_elem_of_singleton. split; [done|]. simpl. intros k v Hk. by rewrite lookup_empty in Hk.
Qed.
End mailbox.


(** Concrete runs of the AgentTask system: the theorems of [TaskClaims] and
    [TaskMailbox] at work, and three runs outside the assumptions of
    [report_of_this_attempt], in which an attempt records the result of the
    one before it. *)


#[local] Existing Instance list_order.
#[local] Existing Instance map_conditions.
#[local] Instance ascii_print : Unicode := {| isPrint := λ _, true |}.

#[local] Instance condition_eq_dec : EqDecision Condition.
Proof. solve_decision. Defined.

#[local] Instance map_conditions_eq_dec : EqDecision conditions.
Proof. unfold conditions. simpl. apply _. Defined.

Definition no_conds : @conditions map_conditions := (∅ : gmap string Condition).

(** A class without bounds, and answers without faults. *)
Definition plain_class : TaskClass := mk_task_class "c" [] [] "img" [] [] false no_bounds (mk_egress [] []).

Definition calm (uid : string) (mail_lag : nat) : oracle :=
  mk_oracle 0 mail_lag 0 None 1 uid (Found plain_class) NotFound [] None (Found true) (Found (mk_cert true "s" true)) (inl false).

(** A pass whose calls get these answers; forty calls are more than any
    pass of these runs makes. *)
Definition pass (uid : string) (mail_lag : nat) : list label := LStart :: replicate 40 (LCall (calm uid mail_lag)).

Definition one_retry : AgentTaskSpec :=
  mk_task_spec "c" "" [] [] false (mk_completion "agentReported" 0%Z "Fail" 1%Z) ["url"] None.

Definition pod_is (uid : string) (ph : PodPhase) (ready : bool) : Pod :=
  mk_pod ("t-" +:+ uid) uid 1000%Z false true ph [("Ready", ready)] [] [].

Definition done_request : bytes + string := inl (json_quotes done_body).

(** The task's Pod [uid] is created, becomes Ready and runs. *)
Definition started (uid : string) : list label := pass uid 0 ++ [LPods [pod_is uid PodRunning true]] ++ pass uid 0.

Notation at_run := (reached (λ _, true) "op" "ns" "t" "u" no_conds one_retry 1000%Z).

Definition summary (w : world) : list (AgentTaskPhase * Z * string) :=
  map (λ t, (Phase (t_Status t), Retries (t_Status t), AgentReportedStatus (t_Status t))) (versions w).

(** Finalizer, one attempt, a success. *)
Definition good_run : list label := pass "p1" 0 ++ started "p1" ++ [LComplete "p1" done_request] ++ pass "" 0.

Example good_run_history : summary (at_run good_run) =
  [(TaskSucceeded, 0%Z, "success"); (TaskCompleting, 0%Z, ""); (TaskRunning, 0%Z, "");
   (TaskProvisioning, 0%Z, ""); (TaskNone, 0%Z, ""); (TaskNone, 0%Z, "")].
Proof. vm_compute. reflexivity. Qed.

(** The Pod fails mid-run, and the second one succeeds. *)
Definition retried_run : list label :=
  pass "p1" 0 ++ started "p1" ++ [LPods [pod_is "p1" PodFailed false]] ++ pass "" 0 ++ [LPods []]
  ++ started "p2" ++ [LComplete "p2" done_request] ++ pass "" 0.

Example retried_run_history : summary (at_run retried_run) =
  [(TaskSucceeded, 1%Z, "success"); (TaskCompleting, 1%Z, ""); (TaskRunning, 1%Z, ""); (TaskProvisioning, 1%Z, "");
   (TaskProvisioning, 1%Z, ""); (TaskFailed, 1%Z, ""); (TaskRunning, 0%Z, "");
   (TaskProvisioning, 0%Z, ""); (TaskNone, 0%Z, ""); (TaskNone, 0%Z, "")].
Proof. vm_compute. reflexivity. Qed.

(** ** Witnesses *)

(** The settled task of [good_run], edited. *)
Definition edited_run : list label := good_run ++ [LSpec one_retry].

Lemma settled_is_final_witness :
  ∃ n o, versions (at_run edited_run) !! 0 = Some n ∧ versions (at_run edited_run) !! 1 = Some o ∧
    CompletionTime (t_Status o) = Some 0%Z ∧ settled_same (t_Status o) (t_Status n).
Proof.
  assert (L : length (versions (at_run edited_run)) = 7) by (vm_compute; reflexivity).
  destruct (lookup_lt_is_Some_2 (versions (at_run edited_run)) 0) as [n Hn]; [rewrite L; lia|].
  destruct (lookup_lt_is_Some_2 (versions (at_run edited_run)) 1) as [o Ho]; [rewrite L; lia|].
  assert (E : (λ t, CompletionTime (t_Status t)) <$> (versions (at_run edited_run) !! 1) = Some (Some 0%Z)) by (vm_compute; reflexivity).
  rewrite Ho in E. injection E as Hx. exists n, o. split_and!; [done..|].
  exact (settled_is_final (λ _, true) "op" "ns" "t" "u" no_conds one_retry 1000%Z
    edited_run 0 1 n o 0%Z Hn Ho (le_n 1) Hx).
Defined.

Lemma retries_counted_once_witness :
  Retries (t_Status (w_task (at_run retried_run))) = Z.of_nat (counted_retries (versions (at_run retried_run))) ∧
  (Retries (t_Status (w_task (at_run retried_run))) <= 1)%Z.
Proof.
  apply (retries_counted_once (λ _, true) "op" "ns" "t" "u" no_conds one_retry 1000%Z retried_run 1); [lia|].
  assert (E : forallb (λ t, BackoffLimit (Completion (t_Spec t)) <=? 1)%Z (versions (at_run retried_run)) = true) by (vm_compute; reflexivity).
  apply Forall_forall. intros t Ht. rewrite forallb_forall in E. apply Z.leb_le, E, Ht.
Defined.

Lemma success_has_evidence_witness :
  ∃ o n, o ∈ w_past (at_run good_run) ∧ n ∈ versions (at_run good_run) ∧ success_evidence (at_run good_run) o n.
Proof.
  assert (H : Phase (t_Status (w_task (at_run good_run))) = TaskSucceeded) by (vm_compute; reflexivity).
  destruct (success_has_evidence (λ _, true) "op" "ns" "t" "u" no_conds one_retry 1000%Z good_run H)
    as (o & n & H1 & H2 & _ & _ & H3).
  exact (ex_intro _ o (ex_intro _ n (conj H1 (conj H2 H3)))).
Defined.


(** ** Results that cross attempts *)

Lemma none_logged (w : world) r k v : map fst (w_log w) = [0%Z] → r ≠ 0%Z → ¬ logged w r k v.
Proof.
  intros E Hr (data & Hd & _). assert (Hin : r ∈ map fst (w_log w)) by (apply list_elem_of_fmap; by exists (r, data)).
  rewrite E in Hin. by apply list_elem_of_singleton in Hin.
Qed.

(** The first Pod's completion passes the checks, its body arrives after the
    retry, and the patch fills the reset mailbox of the second attempt. *)
Definition late_body : list label :=
  pass "p1" 0 ++ started "p1" ++ [LCheck 0 "p1"; LPods [pod_is "p1" PodFailed false]] ++ pass "" 0 ++ [LPods []]
  ++ started "p2" ++ [LPatch 0 done_request] ++ pass "" 0.

(** The first Pod completes and ends; the controller's cache shows the end
    before the completion. *)
Definition late_cache : list label :=
  pass "p1" 0 ++ started "p1" ++ [LComplete "p1" done_request; LPods [pod_is "p1" PodFailed false]] ++ pass "" 1 ++ [LPods []]
  ++ started "p2" ++ pass "" 0.

(** The first Pod completes; the task is edited to exitCode before the Pod's
    failure is seen, so the retry leaves the mailbox alone, and then back. *)
Definition by_exit_code : AgentTaskSpec :=
  mk_task_spec "c" "" [] [] false (mk_completion "exitCode" 0%Z "Fail" 1%Z) ["url"] None.

Definition edited_twice : list label :=
  pass "p1" 0 ++ started "p1" ++ [LComplete "p1" done_request; LSpec by_exit_code; LPods [pod_is "p1" PodFailed false]] ++ pass "" 0
  ++ [LSpec one_retry; LPods []] ++ started "p2" ++ pass "" 0.

(** The task settled as Succeeded in its second attempt, in which no
    completion was accepted. *)
Definition crossed (w : world) : Prop :=
  Phase (t_Status (w_task w)) = TaskSucceeded ∧ Retries (t_Status (w_task w)) = 1%Z ∧
  CurrentPodUID (t_Status (w_task w)) = "p2" ∧ ∀ k v, ¬ logged w 1 k v.

Lemma crossed_run w :
  Phase (t_Status (w_task w)) = TaskSucceeded → Retries (t_Status (w_task w)) = 1%Z →
  CurrentPodUID (t_Status (w_task w)) = "p2" → map fst (w_log w) = [0%Z] → crossed w.
Proof. intros H1 H2 H3 H4. split; [exact H1|split; [exact H2|split; [exact H3|]]]. intros k v. by apply none_logged. Qed.

(** An attempt can record the result of the one before it, in three ways.
    The Pod UID check runs before a request's body is read and the patch
    carries no version, so a completion of the old Pod that passed the check
    refills the mailbox after its reset.  And a retry does not reset a
    mailbox its cache shows empty, so a completion the cache has not shown
    yet stays for the next attempt.  And a retry of a task that is exitCode
    at that moment does not reset the mailbox, which a later edit back to
    agentReported reads. *)
Theorem attempts_can_share_results : crossed (at_run late_body) ∧ crossed (at_run late_cache) ∧ crossed (at_run edited_twice).
Proof. repeat split; apply crossed_run; vm_compute; reflexivity. Qed.
