(* ===== verification/Sha256.v ===== *)
(** crypto/sha256 and crypto/hmac, as the session ids use them (FIPS 180-4 and
    RFC 2104).

    Words are 32-bit, kept in [0, 2^32); the functions are executable and the
    examples at the end are published test vectors.

    SHA-1, HMAC over either hash, hexadecimal text and version 5 UUIDs follow. *)

From stdpp Require Import base list strings option.
From Stdlib Require Import ZArith Lia Ascii.
From S2P Require Import Prelude Json JsonString.

Local Open Scope Z_scope.

Definition word (z : Z) : Z := z mod 4294967296.
Definition rotr (n x : Z) : Z := Z.lor (Z.shiftr x n) (word (Z.shiftl x (32 - n))).
Definition not32 (x : Z) : Z := 4294967295 - x.

Definition round_constants : list Z :=
  [1116352408; 1899447441; 3049323471; 3921009573; 961987163; 1508970993; 2453635748; 2870763221;
   3624381080; 310598401; 607225278; 1426881987; 1925078388; 2162078206; 2614888103; 3248222580;
   3835390401; 4022224774; 264347078; 604807628; 770255983; 1249150122; 1555081692; 1996064986;
   2554220882; 2821834349; 2952996808; 3210313671; 3336571891; 3584528711; 113926993; 338241895;
   666307205; 773529912; 1294757372; 1396182291; 1695183700; 1986661051; 2177026350; 2456956037;
   2730485921; 2820302411; 3259730800; 3345764771; 3516065817; 3600352804; 4094571909; 275423344;
   430227734; 506948616; 659060556; 883997877; 958139571; 1322822218; 1537002063; 1747873779;
   1955562222; 2024104815; 2227730452; 2361852424; 2428436474; 2756734187; 3204031479; 3329325298].

Definition initial_state : list Z :=
  [1779033703; 3144134277; 1013904242; 2773480762; 1359893119; 2600822924; 528734635; 1541459225].

Definition small_sigma0 (x : Z) : Z := Z.lxor (rotr 7 x) (Z.lxor (rotr 18 x) (Z.shiftr x 3)).
Definition small_sigma1 (x : Z) : Z := Z.lxor (rotr 17 x) (Z.lxor (rotr 19 x) (Z.shiftr x 10)).
Definition big_sigma0 (x : Z) : Z := Z.lxor (rotr 2 x) (Z.lxor (rotr 13 x) (rotr 22 x)).
Definition big_sigma1 (x : Z) : Z := Z.lxor (rotr 6 x) (Z.lxor (rotr 11 x) (rotr 25 x)).
Definition choose (x y z : Z) : Z := Z.lxor (Z.land x y) (Z.land (not32 x) z).
Definition majority (x y z : Z) : Z := Z.lxor (Z.land x y) (Z.lxor (Z.land x z) (Z.land y z)).

(** The message schedule, latest word first. *)
Fixpoint extend (n : nat) (w : list Z) : list Z :=
  match n with
  | O => w
  | S n =>
      let at_ i := default 0 (w !! (i - 1)%nat) in
      extend n (word (small_sigma1 (at_ 2%nat) + at_ 7%nat + small_sigma0 (at_ 15%nat) + at_ 16%nat) :: w)
  end.

Definition round (s : list Z) (kw : Z * Z) : list Z :=
  match s with
  | [a; b; c; d; e; f; g; h] =>
      let t1 := h + big_sigma1 e + choose e f g + kw.1 + kw.2 in
      let t2 := big_sigma0 a + majority a b c in
      [word (t1 + t2); a; b; c; word (d + t1); e; f; g]
  | _ => s
  end.

Definition block (s w : list Z) : list Z :=
  zip_with (λ x y, word (x + y)) s (foldl round s (zip round_constants (rev (extend 48 (rev w))))).

(** Big-endian words. *)
Fixpoint words (b : bytes) : list Z :=
  match b with
  | w :: x :: y :: z :: b => ((ascii_Z w * 256 + ascii_Z x) * 256 + ascii_Z y) * 256 + ascii_Z z :: words b
  | _ => []
  end.

Definition be_bytes (n : nat) (z : Z) : bytes := map (λ i, byte (z / 256 ^ Z.of_nat i mod 256)) (rev (seq 0 n)).

(** A one bit, zeros to eight bytes short of a block, and the bit length. *)
Definition pad_message (b : bytes) : bytes :=
  let n := Z.of_nat (length b) in
  b ++ byte 128 :: replicate (Z.to_nat ((55 - n) mod 64)) (byte 0) ++ be_bytes 8 (n * 8).

Fixpoint blocks (fuel : nat) (s w : list Z) : list Z :=
  match fuel with
  | O => s
  | S fuel => match w with [] => s | _ => blocks fuel (block s (take 16 w)) (drop 16 w) end
  end.

Definition Sum256 (b : bytes) : bytes :=
  let w := words (pad_message b) in flat_map (be_bytes 4) (blocks (length w) initial_state w).

Definition block_key (key : bytes) : bytes :=
  let key := if (64 <? length key)%nat then Sum256 key else key in
  key ++ replicate (64 - length key) (byte 0).

Definition xor_pad (z : Z) (key : bytes) : bytes := map (λ c, byte (Z.lxor (ascii_Z c) z)) key.

(** hmac.New(sha256.New, key), one Write per part, Sum. *)
Definition HMAC (key b : bytes) : bytes :=
  let key := block_key key in Sum256 (xor_pad 92 key ++ Sum256 (xor_pad 54 key ++ b)).

(** ** Test vectors *)

Definition hex (b : bytes) : bytes := flat_map (λ c, [hex_digit (ascii_Z c / 16); hex_digit (ascii_Z c mod 16)]) b.

Lemma sha256_abc : hex (Sum256 (bs "abc")) = bs "ba7816bf8f01cfea414140de5dae2223b00361a396177a9cb410ff61f20015ad".
Proof. vm_compute. reflexivity. Qed.

(** Two blocks. *)
Lemma sha256_two_blocks : hex (Sum256 (bs "abcdbcdecdefdefgefghfghighijhijkijkljklmklmnlmnomnopnopq")) =
  bs "248d6a61d20638b8e5c026930c3e6039a33ce45964ff2167f6ecedd419db06c1".
Proof. vm_compute. reflexivity. Qed.

(** RFC 4231, case 2. *)
Lemma hmac_jefe : hex (HMAC (bs "Jefe") (bs "what do ya want for nothing?")) =
  bs "5bdcc146bf60754e6a042426089575c75a003f089d2739839dec58b964ec3843".
Proof. vm_compute. reflexivity. Qed.

(** ** Lengths *)

Lemma length_be_bytes n z : length (be_bytes n z) = n.
Proof. unfold be_bytes. by rewrite length_map, length_rev, length_seq. Qed.

Lemma length_round s kw : length (round s kw) = length s.
Proof. by destruct s as [|a [|b [|c [|d [|e [|f [|g [|h [|i s]]]]]]]]]. Qed.

Lemma length_rounds l s : length (foldl round s l) = length s.
Proof. revert s. induction l as [|kw l IH]; intros s; [done|]. cbn [foldl]. by rewrite IH, length_round. Qed.

Lemma length_blocks fuel s w : length (blocks fuel s w) = length s.
Proof.
  revert s w. induction fuel as [|fuel IH]; intros s w; [done|]. cbn [blocks]. destruct w; [done|]. rewrite IH. unfold block.
  rewrite length_zip_with, length_rounds. lia.
Qed.

(** A sum is 32 bytes. *)
Lemma length_Sum256 b : length (Sum256 b) = 32%nat.
Proof.
  unfold Sum256. cbv zeta. rewrite flat_map_concat_map.
  assert (H : ∀ l : list Z, length (concat (map (be_bytes 4) l)) = (4 * length l)%nat).
  { induction l as [|x l IH]; [done|]. cbn [map concat]. rewrite length_app, IH, length_be_bytes. simpl. lia. }
  by rewrite H, length_blocks.
Qed.

(** crypto/sha1, crypto/hmac over it, encoding/hex and UUID version 5 (FIPS
    180-4, RFC 2104, RFC 9562), as the channel signatures and session ids use
    them.  The examples are published test vectors. *)


Local Open Scope Z_scope.

(** ** SHA-1 *)

Definition rotl (n x : Z) : Z := rotr (32 - n) x.

(** The message schedule, latest word first. *)
Fixpoint extend1 (n : nat) (w : list Z) : list Z :=
  match n with
  | O => w
  | S n =>
      let at_ i := default 0 (w !! (i - 1)%nat) in
      extend1 n (rotl 1 (Z.lxor (Z.lxor (at_ 3%nat) (at_ 8%nat)) (Z.lxor (at_ 14%nat) (at_ 16%nat))) :: w)
  end.

(** The function and the constant of a round. *)
Definition round_function (t : nat) (b c d : Z) : Z * Z :=
  if (t <? 20)%nat then (choose b c d, 1518500249)
  else if (t <? 40)%nat then (Z.lxor b (Z.lxor c d), 1859775393)
  else if (t <? 60)%nat then (majority b c d, 2400959708)
  else (Z.lxor b (Z.lxor c d), 3395469782).

Definition round1 (s : list Z) (tw : nat * Z) : list Z :=
  match s with
  | [a; b; c; d; e] =>
      let '(f, k) := round_function tw.1 b c d in
      [word (rotl 5 a + f + e + k + tw.2); a; rotl 30 b; c; d]
  | _ => s
  end.

Definition block1 (s w : list Z) : list Z :=
  zip_with (λ x y, word (x + y)) s (foldl round1 s (zip (seq 0 80) (rev (extend1 64 (rev w))))).

Fixpoint blocks1 (fuel : nat) (s w : list Z) : list Z :=
  match fuel with
  | O => s
  | S fuel => match w with [] => s | _ => blocks1 fuel (block1 s (take 16 w)) (drop 16 w) end
  end.

Definition initial_state1 : list Z := [1732584193; 4023233417; 2562383102; 271733878; 3285377520].

Definition Sum1 (b : bytes) : bytes :=
  let w := words (pad_message b) in flat_map (be_bytes 4) (blocks1 (length w) initial_state1 w).

Lemma sha1_abc : Sha256.hex (Sum1 (bs "abc")) = bs "a9993e364706816aba3e25717850c26c9cd0d89d".
Proof. vm_compute. reflexivity. Qed.

Lemma sha1_two_blocks : Sha256.hex (Sum1 (bs "abcdbcdecdefdefgefghfghighijhijkijkljklmklmnlmnomnopnopq")) = bs "84983e441c3bd26ebaae4aa1f95129e5e54670f1".
Proof. vm_compute. reflexivity. Qed.

(** ** HMAC over either hash *)

Inductive hash := SHA1 | SHA256.

Definition Sum (h : hash) (b : bytes) : bytes := match h with SHA1 => Sum1 b | SHA256 => Sum256 b end.

Definition hmac_sum (h : hash) (key b : bytes) : bytes :=
  let key := if (64 <? length key)%nat then Sum h key else key in
  let key := key ++ replicate (64 - length key) (byte 0) in
  Sum h (xor_pad 92 key ++ Sum h (xor_pad 54 key ++ b)).

Lemma hmac_sum_256 key b : hmac_sum SHA256 key b = HMAC key b.
Proof. reflexivity. Qed.

(** RFC 2202, case 2. *)
Lemma hmac_sha1_jefe : Sha256.hex (hmac_sum SHA1 (bs "Jefe") (bs "what do ya want for nothing?")) = bs "effcdf6ae5eb2fa2d27416d5f184df9c259a7c79".
Proof. vm_compute. reflexivity. Qed.

(** ** Hexadecimal *)

(** hex.DecodeString, [None] for its errors. *)
Fixpoint hex_decode (b : bytes) : option bytes :=
  match b with
  | [] => Some []
  | [_] => None
  | x :: y :: b =>
      match hex_val x, hex_val y, hex_decode b with
      | Some h, Some l, Some r => Some (byte (h * 16 + l) :: r)
      | _, _, _ => None
      end
  end.

Lemma hex_decode_hex b : hex_decode (Sha256.hex b) = Some b.
Proof.
  induction b as [|c b IH]; [done|]. cbn [Sha256.hex flat_map app hex_decode]. fold (Sha256.hex b).
  assert (0 <= ascii_Z c < 256) as Hc by apply ascii_Z_range.
  destruct (hex_val_digit (ascii_Z c / 16)) as [-> _]; [split; [apply Z.div_pos; lia|apply Z.div_lt_upper_bound; lia]|].
  destruct (hex_val_digit (ascii_Z c mod 16)) as [-> _]; [apply Z.mod_pos_bound; lia|]. rewrite IH. do 2 f_equal.
  rewrite Z.mul_comm, <- Z.div_mod by lia. apply byte_ascii_Z.
Qed.

(** ** UUID version 5 *)

Definition hex_range (b : bytes) (i n : nat) : string := str (Sha256.hex (take n (drop i b))).

(** UUID.String. *)
Definition uuid_string (b : bytes) : string :=
  hex_range b 0 4 +:+ ("-" +:+ (hex_range b 4 2 +:+ ("-" +:+ (hex_range b 6 2 +:+ ("-" +:+ (hex_range b 8 2 +:+ ("-" +:+ hex_range b 10 6))))))).

Definition set_byte (i : nat) (f : Z → Z) (b : bytes) : bytes := alter (λ c, byte (f (ascii_Z c))) i b.

(** uuid.NewSHA1: the first sixteen bytes of the hash, with the version and
    the variant written in. *)
Definition NewSHA1 (space data : bytes) : bytes :=
  let u := take 16 (Sum1 (space ++ data)) in
  set_byte 8 (λ z, Z.lor (Z.land z 63) 128) (set_byte 6 (λ z, Z.lor (Z.land z 15) 80) u).

(** The DNS namespace's "www.example.com", RFC 9562 appendix A.4. *)
Lemma uuid5_example : uuid_string (NewSHA1 (default [] (hex_decode (bs "6ba7b8109dad11d180b400c04fd430c8"))) (bs "www.example.com")) =
  "2ed6657d-e927-568b-95e1-2665a8aea6a2".
Proof. vm_compute. reflexivity. Qed.
