(* ===== verification/ToolSession.v ===== *)
(** MCP session ids: internal/gateway/mcpsession.go.

    A caller gets an upstream session id with a MAC over the id and its own
    identity, and the broker takes back only what verifies for the caller
    that presents it.  The theorems say what a verified id is: the broker's own for that
    caller, up to a collision of HMAC-SHA256 on two messages they exhibit. *)

From stdpp Require Import base list strings option.
From Stdlib Require Import ZArith Lia Ascii.
From S2P Require Import Prelude GoTime GoPath Api Auth Json JsonString JsonValue Base64 Sha256 UpstreamPath.

Definition callerIdentity (c : caller) : string :=
  match c_Workload c with
  | Some id => c_Namespace c +:+ ("/" +:+ (kind_string (id_Kind id) +:+ ("/" +:+ id_Name id)))
  | None => "ns/" +:+ c_Namespace c
  end.

Definition mac_message (upstreamID identity : string) : bytes := bs upstreamID ++ "000"%char :: bs identity.

Definition sessionMAC (key : bytes) (upstreamID identity : string) : bytes := HMAC key (mac_message upstreamID identity).

Definition wrapSessionID (key : bytes) (upstreamID identity : string) : string :=
  str (Encode RawURLEncoding (bs upstreamID)) +:+ ("." +:+ str (Encode RawURLEncoding (sessionMAC key upstreamID identity))).

Definition unwrapSessionID (key : bytes) (wrapped identity : string) : option string :=
  match Cut "." wrapped with
  | None => None
  | Some (idPart, macPart) =>
      match DecodeString RawURLEncoding (bs idPart) with
      | None => None
      | Some upstreamID =>
          match DecodeString RawURLEncoding (bs macPart) with
          | None => None
          | Some mac => if bool_decide (mac = sessionMAC key (str upstreamID) identity) then Some (str upstreamID) else None
          end
      end
  end.

(** ** Identities *)

(** What Kubernetes gives: namespaces and object names have no slash and no
    NUL. *)
Definition name_shaped (s : string) : bool := negb (contains_char "/" s) && negb (contains_char "000" s).
Definition caller_shaped (c : caller) : bool :=
  name_shaped (c_Namespace c) && match c_Workload c with Some id => name_shaped (id_Name id) | None => true end.

(** Who the caller is: its namespace and its workload. *)
Definition principal (c : caller) : string * option (WorkloadKind * string) :=
  (c_Namespace c, (λ id, (id_Kind id, id_Name id)) <$> c_Workload c).

Lemma name_shaped_free s : name_shaped s = true → contains_char "/" s = false ∧ contains_char "000" s = false.
Proof. unfold name_shaped. by rewrite andb_true_iff, !negb_true_iff. Qed.

Lemma split_identity c : caller_shaped c = true → split_char "/" (callerIdentity c) =
  match c_Workload c with Some id => [c_Namespace c; kind_string (id_Kind id); id_Name id] | None => ["ns"; c_Namespace c] end.
Proof.
  unfold caller_shaped, callerIdentity. intros [[Hn _]%name_shaped_free Hw]%andb_true_iff. destruct (c_Workload c) as [id|].
  - apply name_shaped_free in Hw as [Hw _].
    transitivity (split_char "/" (c_Namespace c +:+ String "/" (kind_string (id_Kind id) +:+ String "/" (id_Name id)))); [done|].
    rewrite !split_char_app, (split_char_free _ _ Hn), (split_char_free _ _ Hw). by destruct (id_Kind id).
  - change ("ns/" +:+ c_Namespace c) with ("ns" +:+ String "/" (c_Namespace c)). by rewrite split_char_app, (split_char_free _ _ Hn).
Qed.

(** Distinct principals have distinct identities. *)
Lemma callerIdentity_inj c c' : caller_shaped c = true → caller_shaped c' = true → callerIdentity c = callerIdentity c' → principal c = principal c'.
Proof.
  intros Hc Hc' E. apply (f_equal (split_char "/")) in E. rewrite !split_identity in E by done. unfold principal.
  destruct (c_Workload c) as [id|], (c_Workload c') as [id'|]; simplify_eq; [|by f_equal].
  simpl. destruct (id_Kind id), (id_Kind id'); simplify_eq; congruence.
Qed.

Lemma identity_no_nul c : caller_shaped c = true → contains_char "000" (callerIdentity c) = false.
Proof.
  unfold caller_shaped, callerIdentity. intros [[_ Hn]%name_shaped_free Hw]%andb_true_iff. destruct (c_Workload c) as [id|].
  - apply name_shaped_free in Hw as [_ Hw]. rewrite !contains_char_app, Hn, Hw. by destruct (id_Kind id).
  - by rewrite contains_char_app, Hn.
Qed.

(** ** The MAC's message *)

Lemma contains_elem c s : contains_char c s = false ↔ c ∉ bs s.
Proof.
  induction s as [|d s IH]; [simpl; split; [intros _; apply not_elem_of_nil|done]|].
  cbn [contains_char bs String.list_ascii_of_string]. fold (bs s). rewrite orb_false_iff, list.not_elem_of_cons, IH, Ascii.eqb_neq.
  split; (intros [? ?]; split; [congruence|done]).
Qed.

Lemma last_split (c : ascii) (a b x y : bytes) : c ∉ x → c ∉ y → a ++ c :: x = b ++ c :: y → a = b ∧ x = y.
Proof.
  revert b. induction a as [|d a IH]; intros [|e b] Hx Hy E; simplify_eq/=.
  - done.
  - exfalso. apply Hx. apply elem_of_app. right. apply elem_of_cons. by left.
  - exfalso. apply Hy. apply elem_of_app. right. apply elem_of_cons. by left.
  - destruct (IH b) as [-> ->]; done.
Qed.

Lemma mac_message_inj s s' i i' : contains_char "000" i = false → contains_char "000" i' = false →
  mac_message s i = mac_message s' i' → s = s' ∧ i = i'.
Proof.
  rewrite !contains_elem. intros Hi Hi' E. apply last_split in E as [E1 E2]; [|done|done].
  split; [rewrite <- (str_bs s), <- (str_bs s'); by rewrite E1|rewrite <- (str_bs i), <- (str_bs i'); by rewrite E2].
Qed.

(** ** Wrapped ids *)

Lemma Cut_wrapped key s i : Cut "." (wrapSessionID key s i) =
  Some (str (Encode RawURLEncoding (bs s)), str (Encode RawURLEncoding (sessionMAC key s i))).
Proof. unfold wrapSessionID. apply Cut_Some. split; [done|]. apply contains_elem. rewrite bs_str. apply RawURL_no_dot. Qed.

Lemma unwrap_wrapped key s i i' : unwrapSessionID key (wrapSessionID key s i) i' =
  if bool_decide (sessionMAC key s i = sessionMAC key s i') then Some s else None.
Proof.
  unfold unwrapSessionID. rewrite Cut_wrapped, !bs_str, !DecodeString_Encode by apply RawURL_sound. by rewrite str_bs.
Qed.

(** Two distinct messages with one MAC. *)
Definition collision (key m m' : bytes) : Prop := m ≠ m' ∧ HMAC key m = HMAC key m'.

(** C26: a session id the broker hands a caller comes back to it as the
    upstream id; presented by anyone else it is refused, unless HMAC-SHA256
    collides on the two messages; and whatever id a caller presents, it is
    accepted only with the MAC of that upstream id and that caller. *)
Theorem session_ids_are_owned key sid c c' wrapped s : caller_shaped c = true → caller_shaped c' = true →
  unwrapSessionID key (wrapSessionID key sid (callerIdentity c)) (callerIdentity c) = Some sid ∧
  (unwrapSessionID key (wrapSessionID key sid (callerIdentity c)) (callerIdentity c') = Some s →
   s = sid ∧ (principal c' = principal c ∨
              collision key (mac_message sid (callerIdentity c)) (mac_message sid (callerIdentity c')))) ∧
  (unwrapSessionID key wrapped (callerIdentity c') = Some s →
   ∃ idPart macPart, wrapped = (idPart +:+ ("." +:+ macPart)) ∧ DecodeString RawURLEncoding (bs idPart) = Some (bs s) ∧
     DecodeString RawURLEncoding (bs macPart) = Some (HMAC key (mac_message s (callerIdentity c')))).
Proof.
  intros Hc Hc'. split_and!.
  - by rewrite unwrap_wrapped, bool_decide_true.
  - rewrite unwrap_wrapped. case_bool_decide as Hm; [|done]. intros [= <-]. split; [done|].
    destruct (decide (mac_message sid (callerIdentity c) = mac_message sid (callerIdentity c'))) as [E|Hne]; [left|by right].
    apply mac_message_inj in E as [_ E]; [|by apply identity_no_nul..]. symmetry. by apply callerIdentity_inj.
  - unfold unwrapSessionID. destruct (Cut "." wrapped) as [[idPart macPart]|] eqn:Ecut; [|done].
    destruct (DecodeString _ (bs idPart)) as [u|] eqn:Eu; [|done]. destruct (DecodeString _ (bs macPart)) as [mac|] eqn:Em; [|done].
    case_bool_decide as Hmac; [|done]. intros [= <-]. apply Cut_Some in Ecut as [-> _]. exists idPart, macPart.
    split; [done|]. split; [by rewrite Eu, bs_str|]. by rewrite Em, Hmac.
Qed.

Definition agent_caller (name : string) : caller := mk_caller "team-a" (Some (mk_identity "team-a" name KindAgent)).

Lemma session_ids_are_owned_witness :
  unwrapSessionID (bs "k") (wrapSessionID (bs "k") "s-1" (callerIdentity (agent_caller "coder"))) (callerIdentity (agent_caller "coder")) = Some "s-1" ∧
  unwrapSessionID (bs "k") (wrapSessionID (bs "k") "s-1" (callerIdentity (agent_caller "coder"))) (callerIdentity (agent_caller "critic")) = None.
Proof.
  split; [|vm_compute; reflexivity].
  exact (proj1 (session_ids_are_owned (bs "k") "s-1" (agent_caller "coder") (agent_caller "critic") "" "" eq_refl eq_refl)).
Defined.
