(* ===== verification/ToolBroker.v ===== *)
(** The tool broker's handler: internal/gateway/mcpbroker.go, mcpResult,
    handleMCPBroker and copyMCPHeaders.

    The handler is a function of the request, the store, the limiter and the
    answers of its environment, to what it sends upstream, what it replies and
    the audit records it writes.  Spans, events and log pacing are not
    modelled.

    The second half says which path of the handler sends, answers and records
    what. *)

From stdpp Require Import base list strings option gmap.
From Stdlib Require Import ZArith Lia Ascii.
From S2P Require Import Prelude GoFloat GoTime GoPath Api Auth RateLimit Routing Json JsonString JsonValue RequestBody JsonDecode ProblemList ToolSession ToolMessage ToolRoute McpWire ToolList ToolRelay.

Record Config := mk_config {
  SessionKey : bytes;
  MaxBodyBytes : Z;
  MCPMaxBodyBytes : Z;
}.

Definition mcpMaxBodyBytes (c : Config) : Z := if (0 <? MCPMaxBodyBytes c)%Z then MCPMaxBodyBytes c else MaxBodyBytes c.

(** The HTTP request: the body is its bytes and the error that ends them,
    [None] for io.EOF. *)
Record mcp_http := mk_mcp_http {
  h_Method : string;
  h_Path : string;
  h_Header : Header;
  h_Body : bytes;
  h_BodyErr : option string;
}.

(** The upstream's answer to the forwarded request. *)
Inductive transport :=
  | TransportError (text : string) (deadline : bool)
  | Answer (resp : upstream_response).

(** The environment: the clock and the replica count the limiter sees, the
    credential, what net/http says of the endpoint, the upstream, and whether
    the caller has left when each of these is done. *)
Record broker_env := mk_broker_env {
  be_now : Time;
  be_replicas : Z;
  be_left_body : bool;
  be_credential : string + string;
  be_left_credential : bool;
  be_bad_request : option string;
  be_upstream : transport;
  be_left_forward : bool;
  be_relay : relay_env;
}.

Record upstreamRequest := mk_upstream_request {
  up_URL : string;
  up_Header : Header;
  up_Body : bytes;
}.

(** One audit record, with the labels of its metrics. *)
Record audit := mk_audit {
  au_Namespace : string;
  au_Provider : string;
  au_Method : string;
  au_Tool : string;
  au_Status : Z;
  au_ErrType : string;
  au_Detail : string;
  au_ReqBytes : Z;
  au_RespBytes : Z;
  au_ToolLabel : string;
  au_StatusLabel : string;
  au_Duration : bool;
}.

Record broker_result := mk_broker_result {
  sent : option upstreamRequest;
  replied : reply;
  audited : list audit;
}.

(** What the closures of the handler share. *)
Record call_state := mk_call_state {
  cs_caller : caller;
  cs_tp : option ToolProvider;
  cs_provider : string;
  cs_reqBytes : Z;
  cs_sent : option upstreamRequest;
}.

Definition mcpResult (st : call_state) (method tool : string) (status : Z) (errType detail : string) (respBytes : Z) : audit :=
  let statusLabel :=
    if negb (errType =? "")%string then errType
    else if (200 <=? status)%Z && (status <? 300)%Z then "ok" else "upstream_error" in
  mk_audit (c_Namespace (cs_caller st)) (cs_provider st) method tool status errType detail (cs_reqBytes st) respBytes
    (boundedToolLabel (cs_tp st) tool) statusLabel (bool_decide (is_Some (cs_sent st))).

Definition deny (st : call_state) (status : Z) (errType message : string) (retryable : bool) (retryAfter : Z) (method tool : string) : broker_result :=
  mk_broker_result (cs_sent st) (ErrorReply (writeError status (mk_error errType message (cs_provider st) retryable) retryAfter))
    [mcpResult st method tool status errType message 0].

Definition closed (st : call_state) (method tool : string) : broker_result :=
  mk_broker_result (cs_sent st) NoReply [mcpResult st method tool statusClientClosedRequest outcomeClientClosed "" 0].

(** *** The forwarded headers *)

Definition or_default (value def : string) : string := if (value =? "")%string then def else value.
Definition set_if (h : Header) (name value : string) : Header := if (value =? "")%string then h else Set_ h name value.

(** The headers of every era. *)
Definition base_headers (r : Header) (upstreamSession credential : string) : Header :=
  let h := Set_ ∅ "Content-Type" (or_default (Get r "Content-Type") "application/json") in
  let h := Set_ h "Accept" (or_default (Get r "Accept") "application/json, text/event-stream") in
  let h := set_if h "Mcp-Protocol-Version" (Get r "Mcp-Protocol-Version") in
  let h := set_if h "Mcp-Session-Id" upstreamSession in
  if (credential =? "")%string then h else Set_ h "Authorization" ("Bearer " +:+ credential).

Definition copyMCPHeaders (r : Header) (upstreamSession credential : string) (modern : bool) : Header :=
  let h := base_headers r upstreamSession credential in
  if modern then
    let h := set_if h "Mcp-Method" (Get r "Mcp-Method") in
    let h := set_if h "Mcp-Name" (Get r "Mcp-Name") in
    filter (λ kv : string * list string, HasPrefix kv.1 "Mcp-Param-" = true) r ∪ h
  else h.

Section handler.
Context {U : Unicode} (cfg : Config) (s : Store).

Definition max_bytes : nat := Z.to_nat (mcpMaxBodyBytes cfg).

(** *** The response *)

(** The tail of the handler, from the upstream's response on. *)
Definition broker_answer (st : call_state) (env : broker_env) (tp : ToolProvider) (f : toolFilter) (msg : mcpRequest) (toolName identity : string)
    (resp : upstream_response) : option broker_result :=
  if (ur_Status resp =? 401)%Z || (ur_Status resp =? 403)%Z then
    Some (deny st 503 errToolUnavailable ("tool provider " +:+ (fmt_q (tp_Name tp) +:+ " rejected the gateway credential")) false 0 (Method msg) toolName)
  else if (500 <=? ur_Status resp)%Z then
    Some (deny st 503 errToolUnavailable
      ("tool provider " +:+ (fmt_q (tp_Name tp) +:+ (" returned HTTP " +:+ str (print_Z (ur_Status resp))))) true 1 (Method msg) toolName)
  else
    let sid := Get (ur_Header resp) "Mcp-Session-Id" in
    let header := if (sid =? "")%string then ∅ else Set_ ∅ "Mcp-Session-Id" (wrapSessionID (SessionKey cfg) sid identity) in
    match relayMCP (be_relay env) resp max_bytes msg f (cs_provider st) header with
    | None => None
    | Some (r, o) => Some (mk_broker_result (cs_sent st) r [mcpResult st (Method msg) toolName (ro_status o) (ro_errType o) (ro_detail o) (respBytes o)])
    end.

(** *** The forward *)

(** From the credential to the upstream's answer. *)
Definition broker_forward (st : call_state) (env : broker_env) (r : mcp_http) (tp : ToolProvider) (f : toolFilter) (msg : mcpRequest)
    (toolName identity upstreamSession : string) (modernEra : bool) (body : bytes) : option broker_result :=
  match be_credential env with
  | inr _ =>
      if be_left_credential env then Some (closed st (Method msg) toolName)
      else Some (deny st 503 errToolUnavailable "tool provider credential is unavailable" true 0 (Method msg) toolName)
  | inl credential =>
      match be_bad_request env with
      | Some text => Some (deny st 400 errInvalidRequest ("building upstream request: " +:+ text) false 0 (Method msg) toolName)
      | None =>
          let upReq := mk_upstream_request (tp_Endpoint (tp_Spec tp)) (copyMCPHeaders (h_Header r) upstreamSession credential modernEra) body in
          let st := mk_call_state (cs_caller st) (cs_tp st) (cs_provider st) (cs_reqBytes st) (Some upReq) in
          match be_upstream env with
          | TransportError text deadline =>
              if be_left_forward env then Some (closed st (Method msg) toolName)
              else if deadline then
                Some (deny st 504 errToolTimeout ("tool provider " +:+ (fmt_q (tp_Name tp) +:+ " did not answer within the upstream timeout")) true 0
                  (Method msg) toolName)
              else
                let unreachable := "tool provider " +:+ (fmt_q (tp_Name tp) +:+ " is unreachable") in
                Some (mk_broker_result (cs_sent st)
                  (ErrorReply (writeError 503 (mk_error errToolUnavailable unreachable (cs_provider st) true) 1))
                  [mcpResult st (Method msg) toolName 503 errToolUnavailable (unreachable +:+ (": " +:+ text)) 0])
          | Answer resp => broker_answer st env tp f msg toolName identity resp
          end
      end
  end.

(** *** The message *)

(** From the decoded body to the session. *)
Definition broker_message (st : call_state) (env : broker_env) (r : mcp_http) (tp : ToolProvider) (f : toolFilter) (body : bytes) (msg : mcpRequest)
    : option broker_result :=
  if negb (mcpAllowedMethod (Method msg)) then
    Some (deny st 403 errToolDenied
      ("method " +:+ (fmt_q (Method msg) +:+ " is not brokered in this version; the tool plane governs the tool surface")) false 0 (Method msg) "")
  else
    let toolName := governedToolName msg in
    let modernEra := IsModern (Get (h_Header r) "Mcp-Protocol-Version") in
    let reject := modernHeaderRejection modernEra (h_Header r) msg toolName in
    if negb (reject =? "")%string then
      Some (mk_broker_result (cs_sent st) (RPCErrorReply (jsonrpcError (msg_ID msg) CodeHeaderMismatch reject [] ++ [newline]))
        [mcpResult st (Method msg) toolName 400 errHeaderMismatch reject 0])
    else if (Method msg =? methodToolsCall)%string && negb (permits f toolName) then
      Some (deny st 403 errToolDenied ("tool " +:+ (fmt_q toolName +:+ " is not granted to this workload")) false 0 (Method msg) toolName)
    else
      let identity := callerIdentity (cs_caller st) in
      let wrapped := Get (h_Header r) "Mcp-Session-Id" in
      if negb (wrapped =? "")%string && negb modernEra then
        match unwrapSessionID (SessionKey cfg) wrapped identity with
        | None => Some (deny st 403 errAccessDenied "session id is not owned by this caller" false 0 (Method msg) toolName)
        | Some raw => broker_forward st env r tp f msg toolName identity raw modernEra body
        end
      else broker_forward st env r tp f msg toolName identity "" modernEra body.

(** *** The body *)

Definition broker_body (st : call_state) (env : broker_env) (r : mcp_http) (tp : ToolProvider) (f : toolFilter) : option broker_result :=
  if (max_bytes <? length (h_Body r))%nat then
    Some (deny st 413 errRequestTooLarge ("request body exceeds " +:+ (str (print_Z (mcpMaxBodyBytes cfg)) +:+ " bytes")) false 0 "" "")
  else
    match h_BodyErr r with
    | Some text =>
        if be_left_body env then Some (closed st "" "")
        else Some (deny st 400 errInvalidRequest ("reading request body: " +:+ text) false 0 "" "")
    | None =>
        let body := h_Body r in
        let st := mk_call_state (cs_caller st) (cs_tp st) (cs_provider st) (Z.of_nat (length body)) (cs_sent st) in
        match decodeMCPMessage body with
        | None => None
        | Some (msg, refusal) =>
            if negb (refusal =? "")%string then Some (deny st 400 errInvalidRequest refusal false 0 "" "")
            else broker_message st env r tp f body msg
        end
    end.

(** *** The whole handler; [None] is a panic. *)
Definition handleMCPBroker (limiter : RateLimiter) (env : broker_env) (c : caller) (r : mcp_http) : RateLimiter * option broker_result :=
  let providerName := TrimPrefix (h_Path r) "/v1/mcp/" in
  let st := mk_call_state c None providerName 0 None in
  if negb (h_Method r =? "POST")%string then (limiter, Some (deny st 405 errInvalidRequest "MCP broker accepts POST only" false 0 "" ""))
  else if (providerName =? "")%string || contains_char "/" providerName then
    (limiter, Some (deny st 400 errInvalidRequest "path must be /v1/mcp/{toolProvider}" false 0 "" ""))
  else
    match ToolProviderByName s providerName with
    | None => (limiter, Some (deny st 400 errInvalidRequest ("unknown tool provider " +:+ fmt_q providerName) false 0 "" ""))
    | Some tp =>
        let st := mk_call_state c (Some tp) providerName 0 None in
        match authorizeToolRoute s c tp with
        | inr d => (limiter, Some (deny st (Routing.status d) (Routing.errType d) (Routing.message d) false 0 "" ""))
        | inl f =>
            let '(limiter, (ok, retryAfter)) := AllowTool limiter (be_now env) (be_replicas env) (tp_RequestsPerMinute (tp_Spec tp)) (tp_Name tp) (c_Namespace c) in
            if negb ok then
              (limiter, Some (deny st 429 errRateLimited
                ("rate limit exceeded for namespace " +:+ (c_Namespace c +:+ (" on tool provider " +:+ tp_Name tp))) true retryAfter "" ""))
            else (limiter, broker_body st env r tp f)
        end
    end.
End handler.

(** What the tool broker forwards, answers and audits. *)

From S2P Require Import RequestClaims FoldedName JsonCompact.

(** ** Headers *)

Definition plain_headers : list string := ["Content-Type"; "Accept"; "Mcp-Protocol-Version"; "Mcp-Method"; "Mcp-Name"].

Lemma set_lookup (h : Header) n v name vals : Set_ h n v !! name = Some vals → (name = n ∧ vals = [v]) ∨ h !! name = Some vals.
Proof. unfold Set_. intros [[<- <-]|[_ H]]%lookup_insert_Some; [by left|by right]. Qed.

Lemma set_if_lookup (h : Header) n v name vals : set_if h n v !! name = Some vals → (name = n ∧ v ≠ "" ∧ vals = [v]) ∨ h !! name = Some vals.
Proof.
  unfold set_if. destruct (String.eqb_spec v "") as [->|Hv]; [by right|]. intros [[-> ->]|H]%set_lookup; [by left|by right].
Qed.

Lemma plain_header n : bool_decide (n ∈ plain_headers) = true → n ∈ plain_headers.
Proof. apply bool_decide_eq_true_1. Qed.

Lemma base_lookup r session credential name vals : base_headers r session credential !! name = Some vals →
  (name = "Authorization" ∧ credential ≠ "" ∧ vals = ["Bearer " +:+ credential]) ∨
  (name = "Mcp-Session-Id" ∧ session ≠ "" ∧ vals = [session]) ∨ name ∈ plain_headers.
Proof.
  unfold base_headers. cbv zeta. set (h := set_if (set_if _ _ _) "Mcp-Session-Id" session). intros H.
  assert (Hin : (name = "Authorization" ∧ credential ≠ "" ∧ vals = ["Bearer " +:+ credential]) ∨ h !! name = Some vals).
  { destruct (String.eqb_spec credential "") as [->|Hc]; [by right|]. apply set_lookup in H as [[-> ->]|H]; [by left|by right]. }
  subst h. destruct Hin as [?|Hin]; [by left|right]. apply set_if_lookup in Hin as [?|Hin]; [by left|right].
  apply set_if_lookup in Hin as [[-> _]|Hin]; [by apply plain_header|]. apply set_lookup in Hin as [[-> _]|Hin]; [by apply plain_header|].
  apply set_lookup in Hin as [[-> _]|Hin]; [by apply plain_header|]. discriminate Hin.
Qed.

(** Everything in the forwarded headers: the gateway's credential, the
    unwrapped session, and headers that carry no authority. *)
Lemma copied_headers r session credential modern name vals : copyMCPHeaders r session credential modern !! name = Some vals →
  (name = "Authorization" ∧ credential ≠ "" ∧ vals = ["Bearer " +:+ credential]) ∨
  (name = "Mcp-Session-Id" ∧ session ≠ "" ∧ vals = [session]) ∨
  name ∈ plain_headers ∨
  (modern = true ∧ HasPrefix name "Mcp-Param-" = true ∧ r !! name = Some vals).
Proof.
  unfold copyMCPHeaders. cbv zeta. destruct modern; [|intros [?|[?|?]]%base_lookup; auto].
  intros [H|[_ H]]%lookup_union_Some_raw.
  - apply map_lookup_filter_Some in H as [H Hpre]. right; right; right. by split_and!.
  - apply set_if_lookup in H as [[-> _]|H]; [right; right; left; by apply plain_header|].
    apply set_if_lookup in H as [[-> _]|H]; [right; right; left; by apply plain_header|]. apply base_lookup in H as [?|[?|?]]; auto.
Qed.

(** ** Listed tools *)

(** [name] can be read as the name of a tool the answer lists: the result,
    the list and the name under any spelling, at any of their copies. *)
Definition listed (t : cst) (name : string) : Prop := ∃ ms m rms rm e ems nm,
  object_members t = Some ms ∧ m ∈ matching (bs "result") ms ∧ object_members (mb_value m) = Some rms ∧ rm ∈ matching (bs "tools") rms ∧
  e ∈ elements_of (mb_value rm) ∧ object_members e = Some ems ∧ nm ∈ matching (bs "name") ems ∧ name = string_of (mb_value nm).

Lemma lists_only_listed f t name : (∀ ms m, object_members t = Some ms → m ∈ matching (bs "result") ms → lists_only f (mb_value m)) →
  listed t name → permits f name = true.
Proof.
  intros Hl (ms & m & rms & rm & e & ems & nm & Ho & Hm & Hro & Hrm & He & Heo & Hnm & ->).
  destruct (Hl ms m Ho Hm rms rm Hro Hrm) as [_ F]. rewrite Forall_forall in F. specialize (F e He). unfold names_permitted in F. rewrite Heo in F.
  by apply F.
Qed.

Lemma raw_tree_wf b t : raw_tree b = Some t → wf t.
Proof. unfold raw_tree. destruct (parse b) as [[[s1 c] s2]|] eqn:E; [|done]. intros [= <-]. apply wf_compact. by apply parse_spec in E as (_ & _ & ? & _). Qed.

Lemma raw_member_wf name b l : raw_member name b = Some l → Forall (λ kv : string * cst, wf kv.2) l.
Proof.
  unfold raw_member. destruct b as [|x b]; [intros [= <-]; constructor|]. intros (t & Ht & ->)%fmap_Some. constructor; [|constructor]. by eapply raw_tree_wf.
Qed.

Lemma string_tree_wf x : wf (string_tree x).
Proof. constructor. apply marshal_body_ok. Qed.

Lemma error_tree_wf e t : rpc_error_tree e = Some t → wf t.
Proof.
  unfold rpc_error_tree. intros (l & Hl & ->)%fmap_Some. apply wf_mk_map. apply Forall_app. split; [|by eapply raw_member_wf].
  constructor; [constructor; apply print_Z_scalar|]. constructor; [apply string_tree_wf|constructor].
Qed.

(** The tree of a response, and the one member read as its result. *)
Lemma response_tree_spec r t : response_tree r = Some t → wf t ∧
  ∀ ms m, object_members t = Some ms → m ∈ matching (bs "result") ms → rsp_Result r ≠ [] ∧ raw_tree (rsp_Result r) = Some (mb_value m).
Proof.
  unfold response_tree. destruct (raw_or_null (rsp_ID r)) as [id|] eqn:Eid; [|done]. destruct (raw_member "result" (rsp_Result r)) as [res|] eqn:Er; [|done].
  destruct (match rsp_Error r with None => _ | _ => _ end) as [err|] eqn:Ee; [|done]. intros [= <-].
  assert (Herr : Forall (λ kv : string * cst, wf kv.2 ∧ kv.1 = "error") err).
  { destruct (rsp_Error r) as [e|]; [|injection Ee as <-; constructor]. apply fmap_Some in Ee as (x & Hx & ->). constructor; [|constructor]. split; [by eapply error_tree_wf|done]. }
  split.
  - apply wf_mk_map. constructor; [apply string_tree_wf|]. constructor.
    { cbn [snd]. unfold raw_or_null in Eid. destruct (rsp_ID r); [injection Eid as <-; by constructor|by eapply raw_tree_wf]. }
    apply Forall_app. split; [by eapply raw_member_wf|]. eapply List.Forall_impl; [|exact Herr]. by intros ? [].
  - intros ms m Ho Hm. rewrite mk_map_members in Ho. set (kvs := [("jsonrpc", string_tree (rsp_JSONRPC r)); ("id", id)] ++ res ++ err).
    assert (Hms : ms = map mk_member kvs) by (apply (f_equal (default [])) in Ho; exact (eq_sym Ho)). subst ms. clear Ho. apply list_elem_of_filter in Hm as [Hm Hin].
    apply list_elem_of_fmap in Hin as ([k v] & -> & Hkv). rewrite mk_member_matches in Hm. cbn [fst] in Hm. change (mb_value (mk_member (k, v))) with v.
    unfold kvs in Hkv. apply elem_of_cons in Hkv as [[= -> ->]|Hkv]; [by vm_compute in Hm|]. apply elem_of_cons in Hkv as [[= -> ->]|Hkv]; [by vm_compute in Hm|].
    apply elem_of_app in Hkv as [Hkv|Hkv].
    + unfold raw_member in Er. destruct (rsp_Result r) as [|x b]; [injection Er as <-; by apply not_elem_of_nil in Hkv|].
      apply fmap_Some in Er as (t & Ht & ->). apply list_elem_of_singleton in Hkv as [= -> ->]. done.
    + rewrite Forall_forall in Herr. destruct (Herr _ Hkv) as [_ Hk]. cbn [fst] in Hk. subst k. by vm_compute in Hm.
Qed.

Lemma narrow_lists result f : match narrowToolsResult result f with
  | Some (Some narrowed) => ∀ t, raw_tree narrowed = Some t → lists_only f t
  | _ => ∀ t, raw_tree result = Some t → lists_only f t
  end.
Proof.
  destruct (parse result) as [[[s1 c] s2]|] eqn:Hp.
  2:{ unfold narrowToolsResult, UnmarshalType. rewrite Hp. intros t. unfold raw_tree. by rewrite Hp. }
  pose proof (parse_spec _ _ _ _ Hp) as (_ & _ & Hw & _). pose proof (parse_depth _ _ _ _ Hp) as Hd. destruct (object_members c) as [ms|] eqn:Ho.
  - destruct (narrow_spec result s1 c s2 ms f Hp Ho) as (t & -> & Hwt & Hnt & Hn). intros t'. rewrite raw_tree_text by (done || unfold maxNestingDepth in *; lia).
    intros [= <-]. apply lists_compact; [done|]. exact (narrowed_lists f c ms t Hw Ho Hn).
  - rewrite (narrow_other _ _ _ _ f Hp Ho). intros t. unfold raw_tree. rewrite Hp. intros [= <-] ms m Hms _. rewrite compact_members, Ho in Hms. done.
Qed.

Lemma narrow_total result f : is_Some (narrowToolsResult result f).
Proof.
  destruct (parse result) as [[[s1 c] s2]|] eqn:Hp; [|unfold narrowToolsResult, UnmarshalType; rewrite Hp; by eexists].
  destruct (object_members c) as [ms|] eqn:Ho; [destruct (narrow_spec result s1 c s2 ms f Hp Ho) as (t & -> & _)|rewrite (narrow_other _ _ _ _ f Hp Ho)]; by eexists.
Qed.

Lemma filtered_total parsed raw f : is_Some (filtered_answer parsed raw f).
Proof.
  unfold filtered_answer. destruct (_ && _); [by eexists|]. destruct (rsp_Result parsed) as [|x b]; [by eexists|].
  destruct (narrow_total (x :: b) f) as [[n|] ->]; by eexists.
Qed.

(** Whatever name can be read in a filtered answer is permitted. *)
Lemma filtered_lists parsed raw f encoded : UnmarshalResponse raw = Some parsed → filtered_answer parsed raw f = Some (Some encoded) →
  ∃ s1 t s2, encoded = s1 ++ text t ++ s2 ∧ spaces s1 ∧ wf t ∧ spaces s2 ∧ ∀ name, listed t name → permits f name = true.
Proof.
  intros Hu. unfold filtered_answer. destruct (bool_decide (allow f = None) && negb (mayCarryCacheScope raw)) eqn:Epass.
  - intros [= <-]. apply andb_true_iff in Epass as [Ha%bool_decide_eq_true _]. unfold UnmarshalResponse, UnmarshalInto, UnmarshalType in Hu.
    destruct (parse raw) as [[[s1 c] s2]|] eqn:Hp; [|done]. apply parse_spec in Hp as (-> & H1 & Hw & H2). exists s1, c, s2. split_and!; try done.
    intros name _. unfold permits. by rewrite Ha.
  - assert (Hm : ∀ r, (∀ t, rsp_Result r ≠ [] → raw_tree (rsp_Result r) = Some t → lists_only f t) → MarshalResponse r = Some encoded →
      ∃ s1 t s2, encoded = s1 ++ text t ++ s2 ∧ spaces s1 ∧ wf t ∧ spaces s2 ∧ ∀ name, listed t name → permits f name = true).
    { intros r Hr (t & Ht & ->)%fmap_Some. destruct (response_tree_spec r t Ht) as [Hw Hres]. exists [], t, []. split; [cbn [app]; by rewrite List.app_nil_r|].
      split_and!; try done. intros name. apply lists_only_listed. intros ms m Ho Hin. destruct (Hres ms m Ho Hin). by apply Hr. }
    destruct (rsp_Result parsed) as [|x b] eqn:Er; [intros [= H]; apply (Hm parsed); [by rewrite Er|done]|]. pose proof (narrow_lists (x :: b) f) as Hn.
    destruct (narrowToolsResult (x :: b) f) as [[narrowed|]|]; [| |done]; intros [= H].
    + apply (Hm (mk_rpc_response (rsp_JSONRPC parsed) (rsp_ID parsed) narrowed (rsp_Error parsed))); [intros t _; apply Hn|exact H].
    + apply (Hm parsed); [rewrite Er; intros t _; apply Hn|done].
Qed.

Section broker.
Context {U : Unicode} (cfg : Config) (s : Store).

(** ** The handler, stage by stage *)

(** What a run that forwards has passed. *)
Record forwards (env : broker_env) (c : caller) (r : mcp_http) (tp : ToolProvider) (f : toolFilter) (msg : mcpRequest) (up : upstreamRequest) : Prop := {
  fw_provider : ToolProviderByName s (TrimPrefix (h_Path r) "/v1/mcp/") = Some tp;
  fw_route : authorizeToolRoute s c tp = inl f;
  fw_size : length (h_Body r) ≤ max_bytes cfg;
  fw_message : decodeMCPMessage (h_Body r) = Some (msg, "");
  fw_method : mcpAllowedMethod (Method msg) = true;
  fw_headers : modernHeaderRejection (IsModern (Get (h_Header r) "Mcp-Protocol-Version")) (h_Header r) msg (governedToolName msg) = "";
  fw_tool : Method msg = methodToolsCall → permits f (governedToolName msg) = true;
  fw_request : ∃ session credential, be_credential env = inl credential ∧
    up = mk_upstream_request (tp_Endpoint (tp_Spec tp))
           (copyMCPHeaders (h_Header r) session credential (IsModern (Get (h_Header r) "Mcp-Protocol-Version"))) (h_Body r) ∧
    (session = "" ∨ IsModern (Get (h_Header r) "Mcp-Protocol-Version") = false ∧
       unwrapSessionID (SessionKey cfg) (Get (h_Header r) "Mcp-Session-Id") (callerIdentity c) = Some session);
}.

Lemma broker_answer_sent st env tp f msg tool identity resp res : broker_answer cfg st env tp f msg tool identity resp = Some res → sent res = cs_sent st.
Proof. unfold broker_answer. intros H. repeat case_match; by simplify_eq. Qed.

Lemma broker_forward_sent st env r tp f msg tool identity session modern body res up :
  broker_forward cfg st env r tp f msg tool identity session modern body = Some res → cs_sent st = None → sent res = Some up →
  ∃ credential, be_credential env = inl credential ∧
    up = mk_upstream_request (tp_Endpoint (tp_Spec tp)) (copyMCPHeaders (h_Header r) session credential modern) body ∧
    ∀ resp, be_upstream env = Answer resp →
      broker_answer cfg (mk_call_state (cs_caller st) (cs_tp st) (cs_provider st) (cs_reqBytes st) (Some up)) env tp f msg tool identity resp = Some res.
Proof.
  unfold broker_forward. intros H Hst Hup. destruct (be_credential env) as [credential|e].
  2:{ destruct (be_left_credential env); injection H as <-; simpl in Hup; congruence. }
  destruct (be_bad_request env); [injection H as <-; simpl in Hup; congruence|].
  exists credential. split; [done|]. destruct (be_upstream env) as [text deadline|resp].
  - split; [|done]. destruct (be_left_forward env); [|destruct deadline]; injection H as <-; simpl in Hup; congruence.
  - pose proof (broker_answer_sent _ _ _ _ _ _ _ _ _ H) as Hs. rewrite Hup in Hs. simpl in Hs. injection Hs as ->. split; [done|]. by intros resp' [= <-].
Qed.

Lemma broker_message_sent st env r tp f body msg res up :
  broker_message cfg st env r tp f body msg = Some res → cs_sent st = None → sent res = Some up →
  let modern := IsModern (Get (h_Header r) "Mcp-Protocol-Version") in
  mcpAllowedMethod (Method msg) = true ∧ modernHeaderRejection modern (h_Header r) msg (governedToolName msg) = "" ∧
  (Method msg = methodToolsCall → permits f (governedToolName msg) = true) ∧
  ∃ session, broker_forward cfg st env r tp f msg (governedToolName msg) (callerIdentity (cs_caller st)) session modern body = Some res ∧
    (session = "" ∨ modern = false ∧ unwrapSessionID (SessionKey cfg) (Get (h_Header r) "Mcp-Session-Id") (callerIdentity (cs_caller st)) = Some session).
Proof.
  intros H Hst Hup modern. unfold broker_message in H. fold modern in H. destruct (mcpAllowedMethod (Method msg)); cbn [negb] in H.
  2:{ injection H as <-. simpl in Hup. congruence. }
  split; [done|]. destruct (String.eqb_spec (modernHeaderRejection modern (h_Header r) msg (governedToolName msg)) "") as [->|]; cbn [negb] in H.
  2:{ injection H as <-. simpl in Hup. congruence. }
  split; [done|]. destruct (String.eqb_spec (Method msg) methodToolsCall) as [Em|Em]; cbn [andb] in H.
  - destruct (permits f (governedToolName msg)); cbn [negb] in H; [|injection H as <-; simpl in Hup; congruence]. split; [done|].
    destruct (negb (_ =? "")%string && negb modern) eqn:Es; [|exists ""; split; [exact H|by left]].
    apply andb_true_iff in Es as [_ Es%negb_true_iff]. destruct (unwrapSessionID _ _ _) as [raw|]; [|injection H as <-; simpl in Hup; congruence].
    exists raw. split; [exact H|by right].
  - split; [done|]. destruct (negb (_ =? "")%string && negb modern) eqn:Es; [|exists ""; split; [exact H|by left]].
    apply andb_true_iff in Es as [_ Es%negb_true_iff]. destruct (unwrapSessionID _ _ _) as [raw|]; [|injection H as <-; simpl in Hup; congruence].
    exists raw. split; [exact H|by right].
Qed.

(** A run that forwards passed every check, and its answer is the answer
    stage's. *)
Lemma handler_forwards limiter env c r limiter' res up : handleMCPBroker cfg s limiter env c r = (limiter', Some res) → sent res = Some up →
  ∃ tp f msg, forwards env c r tp f msg up ∧ ∀ resp, be_upstream env = Answer resp →
    broker_answer cfg (mk_call_state c (Some tp) (TrimPrefix (h_Path r) "/v1/mcp/") (Z.of_nat (length (h_Body r))) (Some up)) env tp f msg
      (governedToolName msg) (callerIdentity c) resp = Some res.
Proof.
  unfold handleMCPBroker. intros H Hup. destruct (negb (h_Method r =? "POST")%string); [by injection H as <- <-|].
  destruct (_ || _); [by injection H as <- <-|]. destruct (ToolProviderByName s _) as [tp|] eqn:Etp; [|by injection H as <- <-].
  destruct (authorizeToolRoute s c tp) as [f|d] eqn:Ea; [|by injection H as <- <-].
  destruct (AllowTool _ _ _ _ _ _) as [l [ok ra]]. destruct ok; cbn [negb] in H; [|by injection H as <- <-]. injection H as _ H.
  unfold broker_body in H. destruct (Nat.ltb_spec (max_bytes cfg) (length (h_Body r))) as [|Hle]; [by injection H as <-|].
  destruct (h_BodyErr r); [destruct (be_left_body env); by injection H as <-|].
  destruct (decodeMCPMessage (h_Body r)) as [[msg refusal]|] eqn:Ed; [|done]. destruct (String.eqb_spec refusal "") as [->|]; cbn [negb] in H; [|by injection H as <-].
  apply broker_message_sent with (up := up) in H as (H1 & H2 & H3 & session & H4 & H5); [|done|done].
  apply broker_forward_sent with (up := up) in H4 as (credential & H6 & H7 & H8); [|done|done].
  exists tp, f, msg. split; [|done]. split; try done. exists session, credential. by split_and!.
Qed.
End broker.
