(* ===== verification/ToolClaims.v ===== *)
(** The theorems of the tool plane: what is forwarded, what is listed, what
    is audited (internal/gateway/mcpbroker.go).

    At the end, concrete calls of the broker and the witnesses they give. *)

From stdpp Require Import base list strings option gmap.
From Stdlib Require Import ZArith Lia Ascii.
From S2P Require Import Prelude GoFloat GoTime GoPath Api Auth RateLimit Routing Json JsonString JsonValue RequestBody RequestClaims FoldedName JsonDecode JsonCompact ProblemList ToolSession ToolMessage ToolRoute McpWire ToolList ToolRelay ToolBroker.

(** ** Audit *)

(** The status the caller saw; a caller that left is 499. *)
Definition reply_status (r : reply) : Z :=
  match r with
  | NoReply => statusClientClosedRequest
  | ErrorReply e => resp_status e
  | RPCErrorReply _ => 400
  | Answered status _ _ => status
  end.

(** One record, of this call, with what was replied. *)
Definition recorded (st : call_state) (res : broker_result) : Prop := ∃ st' method tool errType detail n,
  audited res = [mcpResult st' method tool (reply_status (replied res)) errType detail n] ∧
  cs_caller st' = cs_caller st ∧ cs_tp st' = cs_tp st ∧ cs_provider st' = cs_provider st ∧ cs_sent st' = sent res.

Section audit.
Context {U : Unicode} (cfg : Config) (s : Store).

Lemma deny_recorded st status errType message retryable retryAfter method tool : recorded st (deny st status errType message retryable retryAfter method tool).
Proof. by repeat eexists. Qed.

Lemma closed_recorded st method tool : recorded st (closed st method tool).
Proof. by repeat eexists. Qed.

Lemma relay_status e resp max msg f provider h : ∃ r o, relayMCP e resp max msg f provider h = Some (r, o) ∧ ro_status o = reply_status r.
Proof.
  unfold relayMCP. destruct (_ && _).
  - unfold relayFilteredToolsList. destruct (left_after_read e); [by repeat eexists|]. destruct (ParseResponseRaw _ _ _ _) as [[parsed raw]|err].
    + destruct (filtered_total parsed raw f) as [[x|] ->]; by repeat eexists.
    + destruct (limit_reached _ _); [by repeat eexists|]. destruct (ub_Deadline _); [by repeat eexists|]. destruct (ub_Err _); by repeat eexists.
  - destruct (HasPrefix _ _).
    + eexists _, _. split; [f_equal; apply surjective_pairing|]. unfold relayMCPStream. destruct (limited _ _) as [b err].
      destruct (too_long _ _); [done|]. destruct (relay_lines _ _ _ _ _ _ _); [|done..]. destruct (_ && _); [done|]. destruct (left_after_read e); [done|]. by destruct err.
    + eexists _, _. split; [f_equal; apply surjective_pairing|]. unfold relayMCPBuffered. destruct (limited _ _) as [b err]. destruct (left_after_read e); [done|].
      destruct (ub_Deadline _); [done|]. destruct err; [done|]. by destruct (_ <? _)%nat.
Qed.

Lemma answer_recorded st env tp f msg tool identity resp : ∃ res, broker_answer cfg st env tp f msg tool identity resp = Some res ∧ recorded st res.
Proof.
  unfold broker_answer. destruct (_ || _); [eexists; split; [done|apply deny_recorded]|]. destruct (500 <=? _)%Z; [eexists; split; [done|apply deny_recorded]|].
  edestruct (relay_status (be_relay env) resp (max_bytes cfg) msg f (cs_provider st)) as (r & o & -> & Ho). eexists. split; [done|].
  exists st, (Method msg), tool, (ro_errType o), (ro_detail o), (respBytes o). cbn [audited replied sent]. by rewrite Ho.
Qed.

Lemma forward_recorded st env r tp f msg tool identity session modern body :
  ∃ res, broker_forward cfg st env r tp f msg tool identity session modern body = Some res ∧ recorded st res.
Proof.
  unfold broker_forward. destruct (be_credential env) as [credential|err].
  2:{ destruct (be_left_credential env); eexists; (split; [done|]); [apply closed_recorded|apply deny_recorded]. }
  destruct (be_bad_request env); [eexists; split; [done|apply deny_recorded]|]. set (st' := mk_call_state _ _ _ _ _).
  assert (Hst : ∀ res, recorded st' res → recorded st res) by (intros res (x & m & t & e & d & n & ?); by exists x, m, t, e, d, n).
  destruct (be_upstream env) as [text deadline|resp].
  - destruct (be_left_forward env); [eexists; split; [done|apply Hst, closed_recorded]|].
    destruct deadline; [eexists; split; [done|apply Hst, deny_recorded]|]. eexists. split; [done|]. apply Hst. by repeat eexists.
  - destruct (answer_recorded st' env tp f msg tool identity resp) as (res & -> & Hr). exists res. split; [done|by apply Hst].
Qed.

Lemma message_recorded st env r tp f body msg : ∃ res, broker_message cfg st env r tp f body msg = Some res ∧ recorded st res.
Proof.
  unfold broker_message. destruct (negb (mcpAllowedMethod _)); [eexists; split; [done|apply deny_recorded]|].
  destruct (negb _); [eexists; split; [done|]; by repeat eexists|]. destruct (_ && negb (permits _ _)); [eexists; split; [done|apply deny_recorded]|].
  destruct (_ && _); [|apply forward_recorded]. destruct (unwrapSessionID _ _ _); [apply forward_recorded|eexists; split; [done|apply deny_recorded]].
Qed.

Lemma body_recorded st env r tp f : ∃ res, broker_body cfg st env r tp f = Some res ∧ recorded st res.
Proof.
  unfold broker_body. destruct (_ <? _)%nat; [eexists; split; [done|apply deny_recorded]|].
  destruct (h_BodyErr r); [destruct (be_left_body env); eexists; (split; [done|]); [apply closed_recorded|apply deny_recorded]|].
  destruct (decodeMCPMessage_total (h_Body r)) as [[msg refusal] ->]. set (st' := mk_call_state _ _ _ _ _).
  assert (Hst : ∀ res, recorded st' res → recorded st res) by (intros res (x & m & t & e & d & n & ?); by exists x, m, t, e, d, n).
  destruct (negb _); [eexists; split; [done|apply Hst, deny_recorded]|].
  destruct (message_recorded st' env r tp f (h_Body r) msg) as (res & -> & Hr). exists res. split; [done|by apply Hst].
Qed.

Lemma handler_recorded limiter env c r : ∃ tp res, (handleMCPBroker cfg s limiter env c r).2 = Some res ∧
  recorded (mk_call_state c tp (TrimPrefix (h_Path r) "/v1/mcp/") 0 None) res ∧
  (∀ p, tp = Some p → ToolProviderByName s (TrimPrefix (h_Path r) "/v1/mcp/") = Some p).
Proof.
  unfold handleMCPBroker. set (name := TrimPrefix (h_Path r) "/v1/mcp/").
  assert (Hnone : ∀ st e m, ∃ tp res, Some (deny (mk_call_state c None name 0 None) st e m false 0 "" "") = Some res ∧
    recorded (mk_call_state c tp name 0 None) res ∧ (∀ p, tp = Some p → ToolProviderByName s name = Some p)).
  { intros st e m. exists None. eexists. split; [done|]. split; [apply deny_recorded|done]. }
  destruct (negb _); [apply Hnone|]. destruct (_ || _); [apply Hnone|]. destruct (ToolProviderByName s name) as [tp|] eqn:Etp; [|apply Hnone].
  exists (Some tp). destruct (authorizeToolRoute s c tp) as [f|d]; [|eexists; split; [done|]; split; [apply deny_recorded|by intros p [= <-]]].
  destruct (AllowTool _ _ _ _ _ _) as [l [ok ra]]. destruct ok; cbn [negb snd]; [|eexists; split; [done|]; split; [apply deny_recorded|by intros p [= <-]]].
  destruct (body_recorded (mk_call_state c (Some tp) name 0 None) env r tp f) as (res & -> & Hr). exists res. split; [done|]. split; [done|by intros p [= <-]].
Qed.
End audit.

Lemma label_bounded tp tool : boundedToolLabel tp tool ∈ "" :: "uncataloged" :: match tp with Some p => tp_Tools (tp_Spec p) | None => [] end.
Proof.
  unfold boundedToolLabel. destruct (tool =? "")%string; [by left|]. destruct tp as [p|]; [|right; by left].
  destruct (existsb _ _) eqn:E; [|right; by left]. right; right. by apply existsb_string_elem.
Qed.

(** The broker answers every request without a panic and writes exactly
    one audit record for it: with the caller's namespace, the provider of the
    path and the status the caller was sent (499 when it had left), with an
    upstream duration exactly when a request went upstream, and with a metric
    label that is empty, "uncataloged" or a tool the provider declares, so a
    caller or a tool server cannot widen the label set. *)
Theorem every_call_is_audited_once `{Unicode} cfg s limiter env c r : ∃ res a,
  (handleMCPBroker cfg s limiter env c r).2 = Some res ∧ audited res = [a] ∧ au_Status a = reply_status (replied res) ∧
  (au_Duration a = true ↔ is_Some (sent res)) ∧ au_Namespace a = c_Namespace c ∧ au_Provider a = TrimPrefix (h_Path r) "/v1/mcp/" ∧
  au_ToolLabel a ∈ "" :: "uncataloged" :: match ToolProviderByName s (TrimPrefix (h_Path r) "/v1/mcp/") with Some p => tp_Tools (tp_Spec p) | None => [] end.
Proof.
  destruct (handler_recorded cfg s limiter env c r) as (tp & res & E & (st & m & t & e & d & n & Ha & Hc & Htp & Hp & Hs) & Hres).
  exists res. eexists. split; [done|]. split; [exact Ha|]. cbn [cs_caller cs_tp cs_provider] in *. unfold mcpResult. cbn [au_Status au_Duration au_Namespace au_Provider au_ToolLabel].
  rewrite Hc, Hp, Hs, Htp, bool_decide_eq_true. split_and!; try done. pose proof (label_bounded tp t) as Hl. destruct tp as [p|]; [by rewrite (Hres p eq_refl)|].
  apply elem_of_cons in Hl as [->|Hl]; [by left|]. apply elem_of_cons in Hl as [->|Hl]; [right; by left|by apply not_elem_of_nil in Hl].
Qed.

(** ** Forwarded calls *)

(** C25: whatever the broker sends upstream goes to the provider of the path,
    for a caller the tenancy chain admits, within the size limit; its body is
    the caller's, and every reader of that body, whichever copy of a member
    and whichever spelling it takes, finds one and the same method, an allowed
    one; for tools/call it also finds one and the same tool, and that tool is
    granted to the caller (namespace, grant, class, catalog). *)
Theorem forwarded_call_is_granted `{Unicode} cfg s limiter env c r limiter' res up :
  handleMCPBroker cfg s limiter env c r = (limiter', Some res) → sent res = Some up →
  ∃ tp method tool s1 t s2,
    ToolProviderByName s (TrimPrefix (h_Path r) "/v1/mcp/") = Some tp ∧ up_URL up = tp_Endpoint (tp_Spec tp) ∧
    (∃ f, authorizeToolRoute s c tp = inl f) ∧ up_Body up = h_Body r ∧ length (up_Body up) ≤ max_bytes cfg ∧
    parse (up_Body up) = Some (s1, t, s2) ∧ one_copy t ∧ one_reading t method tool ∧ some_reading t method tool ∧
    mcpAllowedMethod method = true ∧ (method = methodToolsCall → tool_granted s c tp tool).
Proof.
  intros Hrun Hup. destruct (handler_forwards cfg s limiter env c r limiter' res up Hrun Hup) as (tp & f & msg & Hf & _).
  destruct Hf as [H1 H2 H3 H4 H5 _ H6 (session & credential & _ & -> & _)]. destruct (decodeMCPMessage_reading _ _ H4) as (s1 & t & s2 & Hp & Hone & Hr & Hs).
  exists tp, (Method msg), (governedToolName msg), s1, t, s2. split_and!; try done; [by exists f|].
  intros Hm. apply authorizeToolRoute_exact. exists f. split; [done|by apply H6].
Qed.

(** A forwarded request carries no authority of the caller's: the only
    Authorization is the provider's credential, the only session id one that
    verified for this caller on a revision that has sessions, and every other
    header is one of five fixed names or an Mcp-Param- header of a modern
    request. *)
Theorem forwarded_headers_carry_no_caller_authority `{Unicode} cfg s limiter env c r limiter' res up name vals :
  handleMCPBroker cfg s limiter env c r = (limiter', Some res) → sent res = Some up → up_Header up !! name = Some vals →
  let modern := IsModern (Get (h_Header r) "Mcp-Protocol-Version") in
  (name = "Authorization" ∧ ∃ credential, be_credential env = inl credential ∧ credential ≠ "" ∧ vals = ["Bearer " +:+ credential]) ∨
  (name = "Mcp-Session-Id" ∧ modern = false ∧ ∃ session, vals = [session] ∧
     unwrapSessionID (SessionKey cfg) (Get (h_Header r) "Mcp-Session-Id") (callerIdentity c) = Some session) ∨
  name ∈ plain_headers ∨
  (modern = true ∧ HasPrefix name "Mcp-Param-" = true ∧ h_Header r !! name = Some vals).
Proof.
  intros Hrun Hup Hn modern. destruct (handler_forwards cfg s limiter env c r limiter' res up Hrun Hup) as (tp & f & msg & Hf & _).
  destruct (fw_request _ _ _ _ _ _ _ _ _ Hf) as (session & credential & Hc & -> & Hs). cbn [up_Header] in Hn.
  apply copied_headers in Hn as [(-> & Hne & ->)|[(-> & Hne & ->)|[Hn|Hn]]]; [left|right; left|right; right; by left|right; right; by right].
  - split; [done|]. by exists credential.
  - destruct Hs as [->|[Hm Hs]]; [done|]. split; [done|]. split; [done|]. by exists session.
Qed.

(** ** Listed tools *)

Lemma list_relay cfg `{Unicode} st env tp f msg tool identity resp res status h body :
  broker_answer cfg st env tp f msg tool identity resp = Some res → Method msg = "tools/list" → (ur_Status resp < 300)%Z →
  replied res = Answered status h body → ∃ parsed raw, UnmarshalResponse raw = Some parsed ∧ filtered_answer parsed raw f = Some (Some body).
Proof.
  unfold broker_answer. intros Hb Hm Hs Hr. destruct (_ || _); [by injection Hb as <-|].
  destruct (Z.leb_spec 500 (ur_Status resp)); [lia|]. unfold relayMCP in Hb. rewrite Hm, String.eqb_refl, (proj2 (Z.ltb_lt _ _) Hs) in Hb. cbn [andb] in Hb.
  unfold relayFilteredToolsList in Hb. destruct (left_after_read _); [by injection Hb as <-|].
  destruct (ParseResponseRaw _ _ _ _) as [[parsed raw]|err] eqn:Ep.
  2:{ destruct (limit_reached _ _); [by injection Hb as <-|]. destruct (ub_Deadline _); [by injection Hb as <-|]. destruct (ub_Err _); by injection Hb as <-. }
  apply ParseResponseRaw_decoded in Ep. exists parsed, raw. split; [done|].
  destruct (filtered_answer parsed raw f) as [[x|]|]; [|by injection Hb as <-|done]. injection Hb as <-. cbn [replied] in Hr. by injection Hr as _ _ ->.
Qed.

(** In the answer to a tools/list call, whichever copy of the result, of
    the list and of an entry's name a client reads, and under any spelling
    encoding/json would accept, it finds only tools that are granted to the
    caller. *)
Theorem listed_tools_are_granted `{Unicode} cfg s limiter env c r limiter' res up msg resp status h body :
  handleMCPBroker cfg s limiter env c r = (limiter', Some res) → sent res = Some up → decodeMCPMessage (h_Body r) = Some (msg, "") →
  Method msg = "tools/list" → be_upstream env = Answer resp → (ur_Status resp < 300)%Z → replied res = Answered status h body →
  ∃ tp s1 t s2, ToolProviderByName s (TrimPrefix (h_Path r) "/v1/mcp/") = Some tp ∧ body = s1 ++ text t ++ s2 ∧ spaces s1 ∧ wf t ∧ spaces s2 ∧
    ∀ name, listed t name → tool_granted s c tp name.
Proof.
  intros Hrun Hup Hd Hm Hans Hst Hrep. destruct (handler_forwards cfg s limiter env c r limiter' res up Hrun Hup) as (tp & f & msg' & Hf & Hans').
  pose proof (fw_message _ _ _ _ _ _ _ _ _ Hf) as Hd'. rewrite Hd in Hd'. injection Hd' as <-. specialize (Hans' resp Hans).
  destruct (list_relay cfg _ _ _ _ _ _ _ _ _ _ _ _ Hans' Hm Hst Hrep) as (parsed & raw & Hu & Hfil).
  destruct (filtered_lists _ _ _ _ Hu Hfil) as (s1 & t & s2 & -> & Hs1 & Hw & Hs2 & Hl).
  exists tp, s1, t, s2. split_and!; try done; [exact (fw_provider _ _ _ _ _ _ _ _ _ Hf)|]. intros name Hn. apply authorizeToolRoute_exact. exists f.
  split; [exact (fw_route _ _ _ _ _ _ _ _ _ Hf)|by apply Hl].
Qed.

(** For a result that is an object, narrowToolsResult returns an object
    whose list is exactly, in their order, the entries of the upstream's list
    that name a permitted tool and name it once (the list being the member
    named tools, or else the last one encoding/json reads as tools); nothing
    else in it reads as tools, everything that reads as cacheScope is private,
    and every other member has an upstream member's value. *)
Theorem narrowed_list_is_exact result s1 c s2 ms f : parse result = Some (s1, c, s2) → object_members c = Some ms →
  ∃ t, narrowToolsResult result f = Some (Some (text t)) ∧ parse (text t) = Some ([], t, []) ∧ narrowed f ms t.
Proof.
  intros Hp Ho. destruct (narrow_spec result s1 c s2 ms f Hp Ho) as (t & Hn & Hw & Hd & Hnar). exists t. split; [done|]. split; [|done].
  apply parse_text; [done|]. apply parse_depth in Hp. unfold maxNestingDepth in *. lia.
Qed.

(** Concrete runs of the tool broker. *)


#[local] Instance ascii_text : Unicode := {| isPrint _ := false |}.

(** A provider with a catalog of three, an agent granted two of them. *)
Definition tools_provider : ToolProvider := mk_tool_provider "search" (mk_tool_provider_spec "https://tools.example" ["team-a"] ["web"; "news"; "rm"] 0).
Definition tools_agent : Workload := mk_workload [] "default" [mk_grant "search" ["web"; "news"]].
Definition tools_store : Store := mk_store (λ _ n, if (n =? "coder")%string then Some tools_agent else None) (λ _ _, None)
  (λ n, if (n =? "default")%string then Some (mk_class [] [] ["search"]) else None) (λ _, None)
  (λ n, if (n =? "search")%string then Some tools_provider else None).
Definition tools_config : Config := mk_config (bs "key") 4096 0.

Definition json_headers : Header := {[ "Content-Type" := ["application/json"] ]}.

(** The request and the upstream's answer, as their bodies. *)
Definition tools_request (h : Header) (body : string) : mcp_http := mk_mcp_http "POST" "/v1/mcp/search" h (quoted body) None.
Definition quiet : relay_env := mk_relay_env false (λ _, false) (λ _, None) (λ _, "unreadable").
Definition tools_env (h : Header) (body : string) : broker_env :=
  mk_broker_env 0%Z 1%Z false (inl "secret") false None (Answer (mk_upstream_response 200 h (mk_body (quoted body) None false))) false quiet.

Notation tools_run h request answer :=
  (handleMCPBroker tools_config tools_store NewRateLimiter (tools_env json_headers answer) (agent_caller "coder") (tools_request h request)).

Definition no_result : broker_result := mk_broker_result None NoReply [].
Definition no_request : upstreamRequest := mk_upstream_request "" ∅ [].

(** What was sent and replied. *)
Definition run_result (x : RateLimiter * option broker_result) : broker_result := default no_result x.2.

Definition call_web : string := "{'jsonrpc':'2.0','id':1,'method':'tools/call','params':{'name':'web'}}".
Definition call_rm : string := "{'jsonrpc':'2.0','id':1,'method':'tools/call','params':{'name':'rm'}}".
Definition call_both : string := "{'jsonrpc':'2.0','id':1,'method':'tools/call','params':{'NAME':'rm','name':'web'}}".
Definition call_ok : string := "{'jsonrpc':'2.0','id':1,'result':{}}".

Definition list_all : string := "{'jsonrpc':'2.0','id':1,'method':'tools/list'}".
Definition list_answer : string :=
  "{'jsonrpc':'2.0','id':1,'result':{'TOOLS':[{'name':'rm'}],'tools':[{'name':'rm'},{'name':'web', 'about':'a<b'},{'name':'news','NAME':'rm'}],'cachescope':'public'}}".

(** The granted tool goes out as it came, an ungranted or a doubly named one
    is refused. *)
Example granted_tool_is_sent : map up_Body (option_list (sent (run_result (tools_run ∅ call_web call_ok)))) = [quoted call_web].
Proof. vm_compute. reflexivity. Qed.

Example ungranted_tool_is_refused : reply_status (replied (run_result (tools_run ∅ call_rm call_ok))) = 403%Z.
Proof. vm_compute. reflexivity. Qed.

Example doubly_named_tool_is_refused : reply_status (replied (run_result (tools_run ∅ call_both call_ok))) = 400%Z.
Proof. vm_compute. reflexivity. Qed.

Definition reply_body (r : reply) : bytes := match r with Answered _ _ b => b | _ => [] end.

Example list_is_narrowed : reply_body (replied (run_result (tools_run ∅ list_all list_answer))) =
  map (λ c, if Ascii.eqb c "^" then backslash else c)
    (quoted "{'jsonrpc':'2.0','id':1,'result':{'cachescope':'private','tools':[{'name':'web','about':'a^u003cb'}]}}").
Proof. vm_compute. reflexivity. Qed.

(** ** Witnesses *)

Lemma run_some x : bool_decide (is_Some x.2) = true → x = (x.1, Some (run_result x)) :> RateLimiter * option broker_result.
Proof. destruct x as [l [res|]]; [done|]. by intros [? [=]]%bool_decide_eq_true. Qed.

Definition sent_request (x : RateLimiter * option broker_result) : upstreamRequest := default no_request (sent (run_result x)).

Lemma run_sent x : bool_decide (is_Some (sent (run_result x))) = true → sent (run_result x) = Some (sent_request x).
Proof. unfold sent_request. intros H. destruct (sent (run_result x)); [done|]. apply bool_decide_eq_true in H as [? [=]]. Qed.

Lemma forwarded_call_is_granted_witness : ∃ tp method tool s1 t s2, parse (up_Body (sent_request (tools_run ∅ call_web call_ok))) = Some (s1, t, s2) ∧
  one_reading t method tool ∧ (method = methodToolsCall → tool_granted tools_store (agent_caller "coder") tp tool).
Proof.
  assert (H1 : bool_decide (is_Some (tools_run ∅ call_web call_ok).2) = true) by (vm_compute; reflexivity).
  assert (H2 : bool_decide (is_Some (sent (run_result (tools_run ∅ call_web call_ok)))) = true) by (vm_compute; reflexivity).
  apply run_some in H1. apply run_sent in H2.
  pose proof (forwarded_call_is_granted tools_config tools_store NewRateLimiter (tools_env json_headers call_ok) (agent_caller "coder") (tools_request ∅ call_web)
    (tools_run ∅ call_web call_ok).1 (run_result (tools_run ∅ call_web call_ok)) (sent_request (tools_run ∅ call_web call_ok)) H1 H2) as H3.
  destruct H3 as (tp & method & tool & s1 & t & s2 & _ & _ & _ & _ & _ & Hp & _ & Hr & _ & _ & Hg).
  exists tp, method, tool, s1, t, s2. split; [exact Hp|]. split; [exact Hr|exact Hg].
Defined.

Definition own_token : Header := {[ "Authorization" := ["Bearer mine"] ]}.

Lemma forwarded_headers_carry_no_caller_authority_witness :
  up_Header (sent_request (tools_run own_token call_web call_ok)) !! "Authorization" = Some ["Bearer secret"] ∧
  (∀ vals, up_Header (sent_request (tools_run own_token call_web call_ok)) !! "Authorization" = Some vals → vals = ["Bearer secret"]).
Proof.
  split; [vm_compute; reflexivity|]. intros vals Hv.
  assert (H1 : bool_decide (is_Some (tools_run own_token call_web call_ok).2) = true) by (vm_compute; reflexivity).
  assert (H2 : bool_decide (is_Some (sent (run_result (tools_run own_token call_web call_ok)))) = true) by (vm_compute; reflexivity).
  apply run_some in H1. apply run_sent in H2.
  pose proof (forwarded_headers_carry_no_caller_authority tools_config tools_store NewRateLimiter (tools_env json_headers call_ok) (agent_caller "coder")
    (tools_request own_token call_web) (tools_run own_token call_web call_ok).1 (run_result (tools_run own_token call_web call_ok))
    (sent_request (tools_run own_token call_web call_ok)) "Authorization" vals H1 H2 Hv) as H3. clear H1 H2 Hv.
  destruct H3 as [(_ & credential & Hc & _ & ->)|[(Hn & _)|[Hn|(_ & Hn & _)]]].
  - change (be_credential (tools_env json_headers call_ok)) with (inl "secret" : string + string) in Hc. injection Hc as <-. reflexivity.
  - discriminate Hn.
  - exfalso. revert Hn. apply (bool_decide_unpack (¬ _)). vm_compute. exact I.
  - exfalso. discriminate Hn.
Defined.

Definition list_message : mcpRequest := Eval vm_compute in
  match decodeMCPMessage (quoted list_all) with Some (m, _) => m | None => mk_mcp_request "" [] "" [] end.

Definition reply_parts (r : reply) : Z * Header * bytes := match r with Answered st h b => (st, h, b) | _ => (0%Z, ∅, []) end.

Lemma answered_parts r : match r with Answered _ _ _ => true | _ => false end = true → r = Answered (reply_parts r).1.1 (reply_parts r).1.2 (reply_parts r).2.
Proof. by destruct r. Qed.

Lemma listed_tools_are_granted_witness : ∃ tp s1 t s2,
  (reply_parts (replied (run_result (tools_run ∅ list_all list_answer)))).2 = s1 ++ text t ++ s2 ∧
  ∀ name, listed t name → tool_granted tools_store (agent_caller "coder") tp name.
Proof.
  assert (H1 : bool_decide (is_Some (tools_run ∅ list_all list_answer).2) = true) by (vm_compute; reflexivity).
  assert (H2 : bool_decide (is_Some (sent (run_result (tools_run ∅ list_all list_answer)))) = true) by (vm_compute; reflexivity).
  assert (H3 : match replied (run_result (tools_run ∅ list_all list_answer)) with Answered _ _ _ => true | _ => false end = true) by (vm_compute; reflexivity).
  assert (H4 : decodeMCPMessage (quoted list_all) = Some (list_message, "")) by (vm_compute; reflexivity).
  apply run_some in H1. apply run_sent in H2. apply answered_parts in H3.
  pose proof (listed_tools_are_granted tools_config tools_store NewRateLimiter (tools_env json_headers list_answer) (agent_caller "coder") (tools_request ∅ list_all)
    (tools_run ∅ list_all list_answer).1 (run_result (tools_run ∅ list_all list_answer)) (sent_request (tools_run ∅ list_all list_answer))
    list_message (mk_upstream_response 200 json_headers (mk_body (quoted list_answer) None false))
    (reply_parts (replied (run_result (tools_run ∅ list_all list_answer)))).1.1 (reply_parts (replied (run_result (tools_run ∅ list_all list_answer)))).1.2
    (reply_parts (replied (run_result (tools_run ∅ list_all list_answer)))).2 H1 H2 H4 eq_refl eq_refl eq_refl H3) as H5. clear H1 H2 H3 H4.
  destruct H5 as (tp & s1 & t & s2 & _ & Hb & _ & _ & _ & Hl). exists tp, s1, t, s2. split; [exact Hb|exact Hl].
Defined.

(** A result with two lists and a doubly named entry. *)
Definition narrow_input : bytes := quoted "{'tools':[{'name':'web'},{'name':'web','Name':'rm'}],'Tools':[{'name':'rm'}]}".
Definition narrow_parts : bytes * cst * bytes := Eval vm_compute in default ([], CEmpty false [], []) (parse narrow_input).
Definition narrow_members : list member := Eval vm_compute in default [] (object_members narrow_parts.1.2).
Definition web_only : toolFilter := newToolFilter ["web"] [].

Lemma narrowed_list_is_exact_witness : ∃ t, narrowToolsResult narrow_input web_only = Some (Some (text t)) ∧ narrowed web_only narrow_members t.
Proof.
  destruct (narrowed_list_is_exact narrow_input narrow_parts.1.1 narrow_parts.1.2 narrow_parts.2 narrow_members web_only
    ltac:(vm_compute; reflexivity) ltac:(vm_compute; reflexivity)) as (t & Hn & _ & Hnar).
  exists t. split; [exact Hn|exact Hnar].
Defined.

(** A stream whose third line passes the limit. *)
Definition event_stream : upstream_response :=
  mk_upstream_response 200 ∅ (mk_body (bs "data: 1" ++ [newline; newline] ++ bs "data: 2") None false).

Lemma stream_relays_whole_lines_witness : ∃ r o, relayMCPStream quiet event_stream 12 (bs "1") "search" ∅ = (r, o) ∧ ro_errType o = errResponseTooLarge ∧
  relayed_as quiet event_stream 12 (bs "1") (limited 12 (ur_Body event_stream)).1 r o.
Proof.
  eexists _, _. split; [apply surjective_pairing|]. split; [vm_compute; reflexivity|].
  exact (stream_relays_whole_lines quiet event_stream 12 (bs "1") "search" ∅ _ _ (surjective_pairing _)).
Defined.
