(* ===== verification/ChannelApi.v ===== *)
(** AgentChannels and the credentials they name:
    api/v1beta1/agentchannel_types.go, api/v1beta1/provider_credential.go and
    the channel and Secret half of internal/gateway/kubestore.go.

    A channel is found by the path of the request, among the Ready channels
    whose path lies under their own namespace; a Secret is read only with the
    opt-in label, and what leaves the cluster only for a host it lists. *)

From stdpp Require Import base gmap list strings option.
From Stdlib Require Import ZArith Lia Ascii.
From S2P Require Import Prelude GoFloat GoTime Json JsonString ProblemList.

Definition ChannelTypeWebhook : string := "webhook".
Definition ChannelTypeDiscord : string := "discord".
Definition ChannelTypeWhatsApp : string := "whatsapp".
Definition ChannelTerminating : string := "Terminating".
Definition ConditionReady : string := "Ready".
Definition LabelChannelCredential : string := "kaalm.io/channel-credential".
Definition LabelProviderCredential : string := "kaalm.io/provider-credential".
Definition AnnotationCallbackHosts : string := "kaalm.io/callback-hosts".
Definition AnnotationProviderHosts : string := "kaalm.io/provider-hosts".
Definition AnnotationTrue : string := "true".

Record SecretKeyReference := mk_secret_ref { sk_Name : string; sk_Key : string }.

Record ChannelHMAC := mk_channel_hmac {
  hm_Header : string;
  hm_Algorithm : string;
  hm_SecretRef : SecretKeyReference;
  hm_SignaturePrefix : option string;
  hm_Encoding : string;
}.

Record ChannelAuth := mk_channel_auth {
  ca_Type : string;
  ca_SecretRef : option SecretKeyReference;
  ca_HMAC : option ChannelHMAC;
}.

Record ChannelExtractor := mk_extractor {
  FromHeader : option string;
  FromBody : option string;
  Fallback : option string;
}.

Record AgentChannelWebhook := mk_webhook {
  wh_Path : string;
  wh_Auth : ChannelAuth;
  wh_UserID : ChannelExtractor;
  wh_Content : ChannelExtractor;
  wh_ResponseMode : string;
  wh_CallbackURL : option string;
  wh_CallbackAuth : option ChannelAuth;
  wh_MaxPendingAsyncResponses : Z;
}.

Record AgentChannelDiscord := mk_discord {
  dc_Path : string;
  dc_CredentialsRef : string;
  dc_GuildID : option string;
  dc_AllowedChannelIDs : list string;
  dc_ContentOption : string;
}.

Record AgentChannelWhatsApp := mk_whatsapp {
  wa_Path : string;
  wa_CredentialsRef : string;
  wa_PhoneNumberID : string;
}.

Record AgentChannelSpec := mk_channel_spec {
  AgentRef : string;
  Type_ : string;
  Webhook : option AgentChannelWebhook;
  Discord : option AgentChannelDiscord;
  WhatsApp : option AgentChannelWhatsApp;
  SessionEnabled : bool;
}.

Record AgentChannel := mk_channel {
  ch_Namespace : string;
  ch_Name : string;
  ch_CreationTimestamp : Time;
  ch_Spec : AgentChannelSpec;
  ch_Phase : string;
  ch_Conditions : list (string * string);
}.

Definition Path (s : AgentChannelSpec) : string :=
  match Discord s, (Type_ s =? ChannelTypeDiscord)%string with
  | Some d, true => dc_Path d
  | _, _ =>
      match WhatsApp s, (Type_ s =? ChannelTypeWhatsApp)%string with
      | Some w, true => wa_Path w
      | _, _ => match Webhook s with Some w => wh_Path w | None => "" end
      end
  end.

(** ** The route of a path *)

Definition channelReady (ch : AgentChannel) : bool :=
  existsb (λ c : string * string, (c.1 =? ConditionReady)%string && (c.2 =? "True")%string) (ch_Conditions ch).

Definition channelPathAllowed (ch : AgentChannel) : bool :=
  HasPrefix (Path (ch_Spec ch)) ("/channels/" +:+ (ch_Namespace ch +:+ "/")).

Definition channelPrecedes (a b : AgentChannel) : bool :=
  if negb (ch_CreationTimestamp a =? ch_CreationTimestamp b)%Z then Before (ch_CreationTimestamp a) (ch_CreationTimestamp b)
  else String.ltb (ch_Name a) (ch_Name b).

Definition routable (path : string) (ch : AgentChannel) : bool :=
  (Path (ch_Spec ch) =? path)%string && channelPathAllowed ch && channelReady ch.

Definition pick_channel (path : string) (winner : option AgentChannel) (ch : AgentChannel) : option AgentChannel :=
  if negb (routable path ch) then winner
  else match winner with
       | None => Some ch
       | Some w => if channelPrecedes ch w then Some ch else winner
       end.

(** [listed] is what the path index lists, [None] for an error. *)
Definition ChannelByPath (listed : option (list AgentChannel)) (path : string) : option AgentChannel :=
  match listed with None => None | Some items => foldl (pick_channel path) None items end.

(** ** Hosts and credentials *)

(** Which runes past ASCII fold together is a table of the Unicode version. *)
Class FoldTable := { same_fold : Z → Z → bool }.

(** net/url's parser: scheme, Hostname and Port of a URL that parses. *)
Record URL := mk_url { u_Scheme : string; u_Hostname : string; u_Port : string; u_String : string }.
Class UrlParser := { url_Parse : string → option URL }.

Section hosts.
Context {F : FoldTable} {P : UrlParser}.

Definition runes_fold (r s : Z) : bool :=
  if (s <? 128)%Z then folds_to r (lower_z s)
  else if (r <? 128)%Z then folds_to s (lower_z r)
  else (r =? s)%Z || same_fold r s.

Fixpoint all_fold (rs ss : list Z) : bool :=
  match rs, ss with
  | [], [] => true
  | r :: rs, s :: ss => runes_fold r s && all_fold rs ss
  | _, _ => false
  end.

Definition EqualFold (s t : string) : bool := all_fold (runes (bs s)) (runes (bs t)).

(** strings.TrimSpace, by unicode.IsSpace. *)
Definition IsSpaceRune (r : Z) : bool :=
  ((9 <=? r) && (r <=? 13) || (r =? 32) || (r =? 133) || (r =? 160) || (r =? 5760) || (8192 <=? r) && (r <=? 8202)
   || (r =? 8232) || (r =? 8233) || (r =? 8239) || (r =? 8287) || (r =? 12288))%Z.

(** The end of the last rune that is not a space, from offset [i]. *)
Fixpoint text_end (skip i end_ : nat) (b : bytes) : nat :=
  match b, skip with
  | [], _ => end_
  | _ :: b', S k => text_end k (S i) end_ b'
  | _ :: b', O => let '(r, n) := DecodeRune b in text_end (n - 1) (S i) (if IsSpaceRune r then end_ else i + n) b'
  end.

Fixpoint skip_space (skip : nat) (b : bytes) : bytes :=
  match b, skip with
  | [], _ => []
  | _ :: b', S k => skip_space k b'
  | _ :: b', O => let '(r, n) := DecodeRune b in if IsSpaceRune r then skip_space (n - 1) b' else b
  end.

Definition TrimText (s : string) : string := str (skip_space 0 (take (text_end 0 0 0 (bs s)) (bs s))).

Definition hostListed (list host : string) : bool :=
  if (host =? "")%string then false
  else existsb (λ e, let e := TrimText e in negb (e =? "")%string && EqualFold e host) (split_char "," list).

Definition ChannelCredentialOptedIn (labels : gmap string string) : bool :=
  (default "" (labels !! LabelChannelCredential) =? AnnotationTrue)%string.
Definition ProviderCredentialOptedIn (labels : gmap string string) : bool :=
  (default "" (labels !! LabelProviderCredential) =? AnnotationTrue)%string.

Definition CallbackHostApproved (annotations : gmap string string) (host : string) : bool :=
  hostListed (default "" (annotations !! AnnotationCallbackHosts)) host.
Definition ProviderHostApproved (annotations : gmap string string) (host : string) : bool :=
  hostListed (default "" (annotations !! AnnotationProviderHosts)) host.

Definition EndpointHost (endpoint : string) : string :=
  match url_Parse endpoint with
  | Some u => if (u_Scheme u =? "https")%string then u_Hostname u else ""
  | None => ""
  end.

Record Secret := mk_secret {
  sec_Labels : gmap string string;
  sec_Annotations : gmap string string;
  sec_Data : gmap string string;
}.

Context {U : Unicode}.

Definition fmt_quoted (s : string) : string := str (QuoteText (bs s)).

Definition secretKey (sec : Secret) (namespace name key : string) : string + string :=
  match sec_Data sec !! key with
  | Some v => if (v =? "")%string then inr ("key " +:+ (fmt_quoted key +:+ (" missing in Secret " +:+ (namespace +:+ ("/" +:+ name))))) else inl v
  | None => inr ("key " +:+ (fmt_quoted key +:+ (" missing in Secret " +:+ (namespace +:+ ("/" +:+ name)))))
  end.

(** [secret] reads one Secret, [inr] for an error. *)
Context (secret : string → string → Secret + string).

Definition not_opted_in (namespace name label : string) : string :=
  "secret " +:+ (namespace +:+ ("/" +:+ (name +:+ (" does not carry the label " +:+ (label +:+ (": " +:+ fmt_quoted AnnotationTrue)))))).

Definition channelCredential (namespace name : string) : Secret + string :=
  match secret namespace name with
  | inr e => inr e
  | inl sec => if ChannelCredentialOptedIn (sec_Labels sec) then inl sec else inr (not_opted_in namespace name LabelChannelCredential)
  end.

Definition SecretValue (namespace name key : string) : string + string :=
  match channelCredential namespace name with inr e => inr e | inl sec => secretKey sec namespace name key end.

Definition not_listed (namespace name what host annotation : string) : string :=
  "secret " +:+ (namespace +:+ ("/" +:+ (name +:+ (" does not list the " +:+ (what +:+ (" host " +:+ (fmt_quoted host +:+
    (" in its " +:+ (annotation +:+ " annotation"))))))))).

Definition CallbackSecretValue (namespace name key host : string) : string + string :=
  match channelCredential namespace name with
  | inr e => inr e
  | inl sec =>
      if CallbackHostApproved (sec_Annotations sec) host then secretKey sec namespace name key
      else inr (not_listed namespace name "callbackUrl" host AnnotationCallbackHosts)
  end.

Definition providerCredential (operatorNamespace endpoint name key : string) : string + string :=
  match secret operatorNamespace name with
  | inr e => inr e
  | inl sec =>
      if negb (ProviderCredentialOptedIn (sec_Labels sec)) then inr (not_opted_in operatorNamespace name LabelProviderCredential)
      else
        let host := EndpointHost endpoint in
        if ProviderHostApproved (sec_Annotations sec) host then secretKey sec operatorNamespace name key
        else inr (not_listed operatorNamespace name "endpoint" host AnnotationProviderHosts)
  end.
End hosts.

(** ** Who a path routes to *)

(** Rule 15: the earlier channel, on a tie the lower name. *)
Definition key_le (a b : AgentChannel) : Prop :=
  (ch_CreationTimestamp a < ch_CreationTimestamp b)%Z ∨
  (ch_CreationTimestamp a = ch_CreationTimestamp b ∧ String.le (ch_Name a) (ch_Name b)).

Lemma ltb_leb s t : String.ltb s t = false ↔ String.le t s.
Proof.
  unfold String.le, String.ltb, String.leb. rewrite (String.compare_antisym s t). by destruct (String.compare t s); cbn; rewrite ?Is_true_true, ?Is_true_false.
Qed.

Lemma not_precedes a b : channelPrecedes b a = false ↔ key_le a b.
Proof.
  unfold channelPrecedes, key_le, Before. destruct (Z.eqb_spec (ch_CreationTimestamp b) (ch_CreationTimestamp a)) as [E|E]; cbn.
  - rewrite ltb_leb. rewrite E. split; [by right|intros [?|[_ ?]]; [lia|done]].
  - rewrite Z.ltb_ge. unfold Time in *. split; [left; lia|intros [?|[? _]]; lia].
Qed.

Lemma precedes_le a b : channelPrecedes a b = true → key_le a b.
Proof.
  intros H. apply not_precedes. revert H. unfold channelPrecedes, Before.
  rewrite (Z.eqb_sym (ch_CreationTimestamp a)). destruct (ch_CreationTimestamp b =? ch_CreationTimestamp a)%Z; cbn.
  - unfold String.ltb. rewrite (String.compare_antisym (ch_Name b)). by destruct (String.compare (ch_Name a) (ch_Name b)).
  - rewrite Z.ltb_lt, Z.ltb_ge. unfold Time. lia.
Qed.

Lemma key_le_trans a b c : key_le a b → key_le b c → key_le a c.
Proof.
  unfold key_le. intros [?|[E1 L1]] [?|[E2 L2]]; [left; lia|left; lia|left; lia|right]. split; [lia|]. by transitivity (ch_Name b).
Qed.

Lemma pick_least path items : match foldl (pick_channel path) None items with
  | Some w => w ∈ items ∧ routable path w = true ∧ ∀ ch, ch ∈ items → routable path ch = true → key_le w ch
  | None => ∀ ch, ch ∈ items → routable path ch = false
  end.
Proof.
  induction items as [|ch items IH] using rev_ind; [intros ch Hch; by apply not_elem_of_nil in Hch|].
  rewrite foldl_app. cbn. unfold pick_channel at 1. destruct (routable path ch) eqn:Er; cbn [negb].
  - destruct (foldl _ None items) as [w|].
    + destruct IH as (Hin & Hr & Hmin). destruct (channelPrecedes ch w) eqn:Ep; (split_and!; [|done|]).
      * apply elem_of_app. right. by apply list_elem_of_singleton.
      * intros x [Hx| ->%list_elem_of_singleton]%elem_of_app Hxr; [|right; split; [done|reflexivity]].
        eapply key_le_trans; [by apply precedes_le|by apply Hmin].
      * apply elem_of_app. by left.
      * intros x [Hx| ->%list_elem_of_singleton]%elem_of_app Hxr; [by apply Hmin|by apply not_precedes].
    + split_and!; [apply elem_of_app; right; by apply list_elem_of_singleton|done|].
      intros x [Hx| ->%list_elem_of_singleton]%elem_of_app Hxr; [by rewrite IH in Hxr|right; split; [done|reflexivity]].
  - assert (∀ x, x ∈ items ++ [ch] → routable path x = true → x ∈ items) as Hold.
    { intros x [Hx| ->%list_elem_of_singleton]%elem_of_app Hxr; [done|congruence]. }
    destruct (foldl _ None items) as [w|].
    + destruct IH as (Hin & Hr & Hmin). split_and!; [apply elem_of_app; by left|done|]. intros x Hx Hxr. apply Hmin; auto.
    + intros x [Hx| ->%list_elem_of_singleton]%elem_of_app; [by apply IH|done].
Qed.

(** The namespace of a routable channel is the path's. *)
Lemma routable_namespace path ch ch' : contains_char "/" (ch_Namespace ch) = false → contains_char "/" (ch_Namespace ch') = false →
  routable path ch = true → routable path ch' = true → ch_Namespace ch = ch_Namespace ch'.
Proof.
  unfold routable, channelPathAllowed, HasPrefix. intros Hn Hn' [[E1 P1]%andb_true_iff _]%andb_true_iff [[E2 P2]%andb_true_iff _]%andb_true_iff.
  apply String.eqb_eq in E1, E2. rewrite E1 in P1. rewrite E2 in P2. clear E1 E2.
  assert (∀ n, contains_char "/" n = false → String.prefix ("/channels/" +:+ (n +:+ "/")) path = true → ∃ r,
            split_char "/" path = "" :: "channels" :: n :: r) as Hs.
  { intros n Hfree Hp. destruct (CutPrefix path ("/channels/" +:+ (n +:+ "/"))) as [r|] eqn:E.
    - apply CutPrefix_Some in E as ->. exists (split_char "/" r).
      transitivity (split_char "/" (String "/" ("channels" +:+ String "/" (n +:+ String "/" r)))).
      { f_equal. cbn. by rewrite <- !string_app_assoc. }
      transitivity ("" :: split_char "/" ("channels" +:+ String "/" (n +:+ String "/" r))); [done|].
      by rewrite !split_char_app, (split_char_free _ _ Hfree).
    - exfalso. revert E. generalize ("/channels/" +:+ (n +:+ "/")) Hp. clear. intros p. revert path.
      induction p as [|c p IH]; intros [|d s]; cbn; try done. destruct (ascii_dec c d) as [->|]; [|done].
      rewrite Ascii.eqb_refl. by apply IH. }
  destruct (Hs _ Hn P1) as [r1 E1], (Hs _ Hn' P2) as [r2 E2]. congruence.
Qed.

(** A path routes to one channel whatever order the cache lists them in:
    the channel found is Ready, registered at that path and under its own
    namespace's prefix, and precedes every other such channel; another order
    of the same channels finds the same one; and none is found only when none
    is routable. *)
Theorem one_route_per_path items items' path :
  items ≡ₚ items' →
  NoDup (map (λ ch, (ch_Namespace ch, ch_Name ch)) items) →
  Forall (λ ch, contains_char "/" (ch_Namespace ch) = false) items →
  ChannelByPath (Some items) path = ChannelByPath (Some items') path ∧
  match ChannelByPath (Some items) path with
  | Some ch => ch ∈ items ∧ Path (ch_Spec ch) = path ∧ channelReady ch = true ∧
      HasPrefix path ("/channels/" +:+ (ch_Namespace ch +:+ "/")) = true ∧
      ∀ ch', ch' ∈ items → routable path ch' = true → ch' = ch ∨ channelPrecedes ch ch' = true
  | None => ∀ ch, ch ∈ items → routable path ch = false
  end.
Proof.
  intros Hp Hnd Hfree. rewrite Forall_forall in Hfree.
  assert (∀ a b, a ∈ items → b ∈ items → routable path a = true → routable path b = true → key_le a b → key_le b a → a = b) as Huniq.
  { intros a b Ha Hb Hra Hrb [?|[Ec L1]] [?|[Ec2 L2]]; try lia.
    assert ((ch_Namespace a, ch_Name a) = (ch_Namespace b, ch_Name b)) as E.
    { f_equal; [apply (routable_namespace path); [by apply Hfree, list_elem_of_In|by apply Hfree, list_elem_of_In|done|done]|apply (anti_symm String.le); assumption]. }
    apply list_elem_of_In in Ha, Hb. apply In_nth_error in Ha as [i Hi], Hb as [j Hj].
    assert (i = j) as ->; [|congruence].
    eapply NoDup_nth_error; [by apply NoDup_ListNoDup| |].
    - rewrite length_map. apply nth_error_Some. by rewrite Hi.
    - by rewrite (map_nth_error _ _ _ Hi), (map_nth_error _ _ _ Hj), E. }
  unfold ChannelByPath. pose proof (pick_least path items) as H1. pose proof (pick_least path items') as H2.
  destruct (foldl _ None items) as [w|], (foldl _ None items') as [w'|].
  - destruct H1 as (Hin & Hr & Hmin), H2 as (Hin' & Hr' & Hmin').
    assert (w' ∈ items) as Hin1 by (by rewrite Hp). assert (w ∈ items') as Hin2 by (by rewrite <- Hp).
    split; [f_equal; apply Huniq; auto|]. pose proof Hr as Hr0. unfold routable in Hr0. rewrite !andb_true_iff, String.eqb_eq in Hr0.
    destruct Hr0 as [[Hpath Hpre] Hready]. split_and!; try done.
    + unfold channelPathAllowed in Hpre. by rewrite Hpath in Hpre.
    + intros x Hx Hxr. destruct (channelPrecedes w x) eqn:E; [by right|left]. apply not_precedes in E. apply Huniq; auto.
  - destruct H1 as (Hin & Hr & _). rewrite (H2 w) in Hr; [done|by rewrite <- Hp].
  - destruct H2 as (Hin & Hr & _). rewrite (H1 w') in Hr; [done|by rewrite Hp].
  - done.
Qed.

Local Open Scope Z_scope.

Definition example_auth : ChannelAuth := mk_channel_auth "bearer" (Some (mk_secret_ref "hook" "token")) None.
Definition no_extractor : ChannelExtractor := mk_extractor None None None.
Definition example_channel (ns name path : string) (created : Time) : AgentChannel :=
  mk_channel ns name created
    (mk_channel_spec "bot" "webhook" (Some (mk_webhook path example_auth no_extractor no_extractor "sync" None None 0)) None None false)
    "Ready" [("Ready", "True")].

Lemma one_route_per_path_witness :
  ChannelByPath (Some [example_channel "a" "late" "/channels/a/in" 9; example_channel "a" "early" "/channels/a/in" 3]) "/channels/a/in" =
  ChannelByPath (Some [example_channel "a" "early" "/channels/a/in" 3; example_channel "a" "late" "/channels/a/in" 9]) "/channels/a/in".
Proof.
  refine (proj1 (one_route_per_path _ _ _ _ _ _)).
  - apply perm_swap.
  - cbn. rewrite !list.NoDup_cons. split; [|split; [apply not_elem_of_nil|apply NoDup_nil_2]].
    intros H. apply list_elem_of_singleton in H. discriminate H.
  - repeat constructor.
Defined.
