(* ===== verification/ChannelAuth.v ===== *)
(** Channel authentication: internal/gateway/channelauth.go.

    A webhook is authenticated by a bearer token or an HMAC of its body, a poll
    by the token or an HMAC of the request id and a timestamp, and a callback
    is signed.  Comparisons in constant time are equality. *)

From stdpp Require Import base gmap list strings option.
From Stdlib Require Import ZArith Lia Ascii.
From S2P Require Import Prelude GoFloat GoTime Auth Json JsonString JsonValue Base64 Sha256 ProblemList UpstreamPath ToolSession ToolMessage ChannelApi.

Definition authTypeBearer : string := "bearer".
Definition authTypeHMAC : string := "hmac".
Definition timestampHeader : string := "X-Kaalm-Timestamp".
Definition maxTimestampSkew : Duration := (300 * Second)%Z.

(** ** Headers by any name *)

(** textproto.CanonicalMIMEHeaderKey: a name with a byte no token has is left
    alone. *)
Definition token_byte (c : ascii) : bool :=
  let z := ascii_Z c in
  ((48 <=? z) && (z <=? 57) || (65 <=? z) && (z <=? 90) || (97 <=? z) && (z <=? 122))%Z
  || existsb (Ascii.eqb c) (bs "!#$%&'*+-.^_`|~").

Fixpoint canonical_from (upper : bool) (b : bytes) : bytes :=
  match b with
  | [] => []
  | c :: b =>
      let z := ascii_Z c in
      let c' := if upper && ((97 <=? z) && (z <=? 122))%Z then byte (z - 32)
                else if negb upper && ((65 <=? z) && (z <=? 90))%Z then byte (z + 32) else c in
      c' :: canonical_from (Ascii.eqb c "-") b
  end.

Definition CanonicalHeaderKey (s : string) : string :=
  if forallb token_byte (bs s) then str (canonical_from true (bs s)) else s.

Definition HeaderGet (h : Header) (name : string) : string := Get h (CanonicalHeaderKey name).
Definition HeaderSet (h : Header) (name value : string) : Header := Set_ h (CanonicalHeaderKey name) value.

(** strconv.ParseInt at base 10 and 64 bits. *)
Definition ParseInt (s : string) : option Z :=
  let '(neg, ds) := match s with String "-" r => (true, r) | String "+" r => (false, r) | _ => (false, s) end in
  if (ds =? "")%string then None
  else match parse_digits ds with
       | Some n => let v := (if neg then - Z.of_N n else Z.of_N n)%Z in if in_int64 v then Some v else None
       | None => None
       end.

(** t.Unix(). *)
Definition unix_seconds (t : Time) : Z := (t / Second - 62135596800)%Z.

Definition hmacHasher (algorithm : string) : hash := if (algorithm =? "sha1")%string then SHA1 else SHA256.

(** strings.ToLower, then hex.DecodeString: no rune past ASCII lowers to a
    hexadecimal digit. *)
Definition hex_header (v : string) : option bytes := hex_decode (bs (ToLower v)).

Definition verifyHMACHeader (headerValue : string) (cfg : ChannelHMAC) (expected : bytes) : bool :=
  if (headerValue =? "")%string then false
  else
    match match hm_SignaturePrefix cfg with Some p => CutPrefix headerValue p | None => Some headerValue end with
    | None => false
    | Some v =>
        match (if (hm_Encoding cfg =? "base64")%string then DecodeString StdEncoding (bs v) else hex_header v) with
        | None => false
        | Some supplied => bool_decide (supplied = expected)
        end
    end.

Definition webhookPollChannel (channel : AgentChannel) : bool :=
  match Webhook (ch_Spec channel) with
  | None => false
  | Some _ => (Type_ (ch_Spec channel) =? "")%string || (Type_ (ch_Spec channel) =? ChannelTypeWebhook)%string
  end.

(** fmt.Fprintf(mac, "%s\n%s", requestID, ts) and its callback form. *)
Definition poll_message (requestID ts : string) : bytes := bs requestID ++ "010"%char :: bs ts.
Definition callback_message (requestID ts : string) (body : bytes) : bytes :=
  bs requestID ++ "010"%char :: bs ts ++ "010"%char :: Sha256.hex (Sum256 body).

Section auth.
Context (SecretValue : string → string → string → string + string).
Context {U : Unicode}.

Definition channelSecret (namespace : string) (auth : ChannelAuth) : string + string :=
  if (ca_Type auth =? authTypeBearer)%string then
    match ca_SecretRef auth with
    | None => inr "bearer auth without secretRef"
    | Some r => SecretValue namespace (sk_Name r) (sk_Key r)
    end
  else if (ca_Type auth =? authTypeHMAC)%string then
    match ca_HMAC auth with
    | None => inr "hmac auth without hmac block"
    | Some h => SecretValue namespace (sk_Name (hm_SecretRef h)) (sk_Key (hm_SecretRef h))
    end
  else inr ("unknown auth type " +:+ fmt_quoted (ca_Type auth)).

Definition bearer_matches (h : Header) (secret : string) : bool :=
  match bearerToken (HeaderGet h "Authorization") with Some token => (token =? secret)%string | None => false end.

(** [w] is the channel's webhook block, which the handler has checked. *)
Definition authenticateWebhook (namespace : string) (w : AgentChannelWebhook) (h : Header) (body : bytes) : bool :=
  let auth := wh_Auth w in
  match channelSecret namespace auth with
  | inr _ => false
  | inl secret =>
      if (ca_Type auth =? authTypeBearer)%string then bearer_matches h secret
      else if (ca_Type auth =? authTypeHMAC)%string then
        match ca_HMAC auth with
        | None => false
        | Some cfg => verifyHMACHeader (HeaderGet h (hm_Header cfg)) cfg (hmac_sum (hmacHasher (hm_Algorithm cfg)) (bs secret) body)
        end
      else false
  end.

Definition fresh (now : Time) (unix : Z) : bool :=
  let skew := Sub now (Unix unix) in negb ((maxTimestampSkew <? skew)%Z || (skew <? - maxTimestampSkew)%Z).

Definition authenticatePoll (now : Time) (channel : AgentChannel) (h : Header) (requestID : string) : bool :=
  if negb (webhookPollChannel channel) then false
  else
    match Webhook (ch_Spec channel) with
    | None => false
    | Some w =>
        let auth := wh_Auth w in
        match channelSecret (ch_Namespace channel) auth with
        | inr _ => false
        | inl secret =>
            if (ca_Type auth =? authTypeBearer)%string then bearer_matches h secret
            else if (ca_Type auth =? authTypeHMAC)%string then
              let ts := HeaderGet h timestampHeader in
              match ParseInt ts with
              | None => false
              | Some unix =>
                  if negb (fresh now unix) then false
                  else
                    match ca_HMAC auth with
                    | None => false
                    | Some cfg =>
                        match hex_header (HeaderGet h (hm_Header cfg)) with
                        | None => false
                        | Some supplied =>
                            bool_decide (supplied = hmac_sum (hmacHasher (hm_Algorithm cfg)) (bs secret) (poll_message requestID ts))
                        end
                    end
              end
            else false
        end
    end.

(** The request's headers after signing; a hmac block is there when the type
    is hmac. *)
Definition signCallback (h : Header) (auth : ChannelAuth) (secret requestID : string) (body : bytes) (now : Time) : Header :=
  if (ca_Type auth =? authTypeBearer)%string then HeaderSet h "Authorization" ("Bearer " +:+ secret)
  else if (ca_Type auth =? authTypeHMAC)%string then
    match ca_HMAC auth with
    | None => h
    | Some cfg =>
        let ts := str (print_Z (unix_seconds now)) in
        let mac := hmac_sum (hmacHasher (hm_Algorithm cfg)) (bs secret) (callback_message requestID ts body) in
        HeaderSet (HeaderSet h (hm_Header cfg) (str (Sha256.hex mac))) timestampHeader ts
    end
  else h.

(** *** What is accepted *)

(** What a sender puts in the header. *)
Definition signature (cfg : ChannelHMAC) (mac : bytes) : string :=
  default "" (hm_SignaturePrefix cfg) +:+
  str (if (hm_Encoding cfg =? "base64")%string then Encode StdEncoding mac else Sha256.hex mac).

(** What a header value carries, as the channel's configuration decodes it. *)
Definition carried (cfg : ChannelHMAC) (v : string) : option bytes :=
  match match hm_SignaturePrefix cfg with Some p => CutPrefix v p | None => Some v end with
  | Some v => if (hm_Encoding cfg =? "base64")%string then DecodeString StdEncoding (bs v) else hex_header v
  | None => None
  end.
End auth.

(** ** Lemmas *)

Lemma lower_hex_digit z : (0 <= z < 16)%Z → lower_ascii (hex_digit z) = hex_digit z.
Proof.
  intros H. assert (z = 0 ∨ z = 1 ∨ z = 2 ∨ z = 3 ∨ z = 4 ∨ z = 5 ∨ z = 6 ∨ z = 7 ∨ z = 8 ∨ z = 9 ∨ z = 10 ∨ z = 11 ∨ z = 12 ∨ z = 13 ∨ z = 14 ∨ z = 15)%Z as Hz by lia.
  repeat destruct Hz as [->|Hz]; [reflexivity..|]. subst z. reflexivity.
Qed.

Lemma lower_cons c b : bs (ToLower (str (c :: b))) = lower_ascii c :: bs (ToLower (str b)).
Proof. reflexivity. Qed.

Lemma lower_hex b : bs (ToLower (str (Sha256.hex b))) = Sha256.hex b.
Proof.
  induction b as [|c b IH]; [done|]. cbn [Sha256.hex flat_map app]. fold (Sha256.hex b). rewrite !lower_cons, IH.
  assert (0 <= ascii_Z c < 256)%Z as Hc by apply ascii_Z_range.
  rewrite !lower_hex_digit; [done|apply Z.mod_pos_bound; lia|]. split; [apply Z.div_pos; lia|apply Z.div_lt_upper_bound; lia].
Qed.

Lemma hex_header_hex b : hex_header (str (Sha256.hex b)) = Some b.
Proof. unfold hex_header. by rewrite lower_hex, hex_decode_hex. Qed.

Lemma carried_signature cfg mac : carried cfg (signature cfg mac) = Some mac.
Proof.
  unfold carried, signature. destruct (hm_SignaturePrefix cfg) as [p|]; cbn [from_option id default].
  - rewrite CutPrefix_app. destruct (hm_Encoding cfg =? "base64")%string; [|apply hex_header_hex].
    by rewrite bs_str, DecodeString_Encode by apply Std_sound.
  - destruct (hm_Encoding cfg =? "base64")%string; [|apply hex_header_hex].
    change ("" +:+ ?x) with x. by rewrite bs_str, DecodeString_Encode by apply Std_sound.
Qed.

Lemma length_blocks1 fuel s w : length (blocks1 fuel s w) = length s.
Proof.
  revert s w. induction fuel as [|fuel IH]; [done|]. intros s [|x w]; [done|]. cbn [blocks1]. rewrite IH. unfold block1. rewrite length_zip_with.
  assert (∀ l t, length (foldl round1 t l) = length t) as Hf.
  { induction l as [|a l IHl]; [done|]. intros t. cbn. rewrite IHl. unfold round1. repeat case_match; done. }
  rewrite Hf. lia.
Qed.

Lemma hmac_sum_nonempty h key b : hmac_sum h key b ≠ [].
Proof.
  unfold hmac_sum. destruct h; cbn [Sum].
  - unfold Sum1. set (w := words _). pose proof (length_blocks1 (length w) initial_state1 w) as Hl.
    destruct (blocks1 (length w) initial_state1 w); [done|]. cbn [flat_map]. by destruct (be_bytes 4 z) eqn:E; [apply (f_equal length) in E; rewrite length_be_bytes in E|].
  - intros E. apply (f_equal length) in E. by rewrite length_Sum256 in E.
Qed.

Lemma carried_verify v cfg expected : v ≠ "" → verifyHMACHeader v cfg expected = bool_decide (carried cfg v = Some expected).
Proof.
  intros Hv. unfold verifyHMACHeader, carried. destruct (String.eqb_spec v ""); [done|].
  destruct (match hm_SignaturePrefix cfg with Some p => _ | None => _ end) as [v'|]; [|done].
  destruct (if (hm_Encoding cfg =? "base64")%string then _ else _) as [b|]; [|done].
  apply bool_decide_ext. split; [by intros ->|by intros [= ->]].
Qed.

Lemma signature_nonempty cfg mac : mac ≠ [] → signature cfg mac ≠ "".
Proof.
  intros Hm E. pose proof (carried_signature cfg mac) as Hc. rewrite E in Hc. unfold carried in Hc.
  destruct (hm_SignaturePrefix cfg) as [p|]; [destruct (CutPrefix "" p) as [v|] eqn:Ec; [|done]|].
  - apply CutPrefix_Some in Ec. destruct p as [|c p]; [|done]. assert (v = "") as -> by (symmetry; exact Ec). destruct (hm_Encoding cfg =? "base64")%string; vm_compute in Hc; congruence.
  - destruct (hm_Encoding cfg =? "base64")%string; vm_compute in Hc; congruence.
Qed.

Lemma bearer_matches_true h secret : bearer_matches h secret = true ↔ secret ≠ "" ∧ HeaderGet h "Authorization" = ("Bearer " +:+ secret).
Proof.
  unfold bearer_matches, bearerToken. destruct (CutPrefix (HeaderGet h "Authorization") "Bearer ") as [t|] eqn:E.
  - apply CutPrefix_Some in E. rewrite E. destruct (String.eqb_spec t "") as [->|Hne].
    + split; [done|]. intros [Hs Heq]. apply (f_equal (λ s, CutPrefix s "Bearer ")) in Heq. rewrite !CutPrefix_app in Heq. congruence.
    + rewrite String.eqb_eq. split; [by intros ->|]. intros [_ Heq]. apply (f_equal (λ s, CutPrefix s "Bearer ")) in Heq.
      rewrite !CutPrefix_app in Heq. congruence.
  - split; [done|]. intros [_ Heq]. by rewrite Heq, CutPrefix_app in E.
Qed.

(** C30: an inbound webhook passes exactly when the channel's Secret could be
    read and the request proves it: the bearer header is the secret itself, or
    the configured signature header, with its prefix cut and its encoding
    undone, is the HMAC of the body under the configured hash.  A missing
    Secret, an unknown scheme or a missing block refuses, and a sender that
    signs as configured is accepted. *)
Theorem webhook_auth_exact `{U : Unicode} SV ns w h body :
  (authenticateWebhook SV ns w h body = true ↔
   ∃ secret, channelSecret SV ns (wh_Auth w) = inl secret ∧
     ((ca_Type (wh_Auth w) = authTypeBearer ∧ secret ≠ "" ∧ HeaderGet h "Authorization" = ("Bearer " +:+ secret)) ∨
      (ca_Type (wh_Auth w) = authTypeHMAC ∧ ∃ cfg, ca_HMAC (wh_Auth w) = Some cfg ∧ HeaderGet h (hm_Header cfg) ≠ "" ∧
         carried cfg (HeaderGet h (hm_Header cfg)) = Some (hmac_sum (hmacHasher (hm_Algorithm cfg)) (bs secret) body)))) ∧
  (∀ secret cfg, channelSecret SV ns (wh_Auth w) = inl secret → ca_Type (wh_Auth w) = authTypeHMAC → ca_HMAC (wh_Auth w) = Some cfg →
     HeaderGet h (hm_Header cfg) = signature cfg (hmac_sum (hmacHasher (hm_Algorithm cfg)) (bs secret) body) →
     authenticateWebhook SV ns w h body = true).
Proof.
  assert (authenticateWebhook SV ns w h body = true ↔
   ∃ secret, channelSecret SV ns (wh_Auth w) = inl secret ∧
     ((ca_Type (wh_Auth w) = authTypeBearer ∧ secret ≠ "" ∧ HeaderGet h "Authorization" = ("Bearer " +:+ secret)) ∨
      (ca_Type (wh_Auth w) = authTypeHMAC ∧ ∃ cfg, ca_HMAC (wh_Auth w) = Some cfg ∧ HeaderGet h (hm_Header cfg) ≠ "" ∧
         carried cfg (HeaderGet h (hm_Header cfg)) = Some (hmac_sum (hmacHasher (hm_Algorithm cfg)) (bs secret) body)))) as Hiff.
  { unfold authenticateWebhook. destruct (channelSecret SV ns (wh_Auth w)) as [secret|e]; [|split; [done|by intros (? & ? & _)]].
    transitivity ((ca_Type (wh_Auth w) = authTypeBearer ∧ secret ≠ "" ∧ HeaderGet h "Authorization" = ("Bearer " +:+ secret)) ∨
      (ca_Type (wh_Auth w) = authTypeHMAC ∧ ∃ cfg, ca_HMAC (wh_Auth w) = Some cfg ∧ HeaderGet h (hm_Header cfg) ≠ "" ∧
         carried cfg (HeaderGet h (hm_Header cfg)) = Some (hmac_sum (hmacHasher (hm_Algorithm cfg)) (bs secret) body)));
      [|split; [by exists secret|by intros (? & [= <-] & ?)]].
    destruct (String.eqb_spec (ca_Type (wh_Auth w)) authTypeBearer) as [->|Hb].
    { rewrite bearer_matches_true. split; [by left|]. intros [[_ ?]|[? _]]; [done|discriminate]. }
    destruct (String.eqb_spec (ca_Type (wh_Auth w)) authTypeHMAC) as [->|Hh]; [|split; [done|by intros [[? _]|[? _]]]].
    destruct (ca_HMAC (wh_Auth w)) as [cfg|]; [|split; [done|by intros [[? _]|[_ (? & ? & _)]]]].
    destruct (String.eqb_spec (HeaderGet h (hm_Header cfg)) "") as [Ev|Hv].
    { unfold verifyHMACHeader. rewrite Ev. split; [done|]. intros [[? _]|[_ (? & [= <-] & Hne & _)]]; [discriminate|by rewrite Ev in Hne]. }
    rewrite carried_verify, bool_decide_eq_true by done. split; [intros; right; by eauto|].
    intros [[? _]|[_ (? & [= <-] & _ & ?)]]; [discriminate|done]. }
  split; [exact Hiff|]. intros secret cfg Hs Ht Hc Hsig. apply Hiff. exists secret. split; [done|]. right. split; [done|]. exists cfg.
  rewrite Hsig. split; [done|]. split; [apply signature_nonempty, hmac_sum_nonempty|apply carried_signature].
Qed.

(** ** Polls *)

Lemma digits_no_newline acc s n : parse_digits_from acc s = Some n → contains_char "010" s = false.
Proof.
  revert acc. induction s as [|c s IH]; [done|]. intros acc. cbn [parse_digits_from contains_char]. destruct (digit c) as [d|] eqn:E; [|done].
  intros H. rewrite (IH _ H), orb_false_r. apply Ascii.eqb_neq. intros ->. discriminate E.
Qed.

Lemma ParseInt_no_newline s v : ParseInt s = Some v → contains_char "010" s = false.
Proof.
  unfold ParseInt. intros H.
  assert (∀ ds n, parse_digits ds = Some n → contains_char "010" ds = false) as Hd by (intros ds n; apply digits_no_newline).
  destruct s as [|c s]; [done|].
  assert (contains_char "010" (String c s) = Ascii.eqb c "010" || contains_char "010" s) as Hs by done.
  destruct (Ascii.eqb_spec c "-") as [->|H1]; [|destruct (Ascii.eqb_spec c "+") as [->|H2]].
  - destruct (s =? "")%string; [done|]. destruct (parse_digits s) as [n|] eqn:E; [|done]. rewrite Hs, (Hd _ _ E). done.
  - destruct (s =? "")%string; [done|]. destruct (parse_digits s) as [n|] eqn:E; [|done]. rewrite Hs, (Hd _ _ E). done.
  - assert (match String c s with String "-" r => (true, r) | String "+" r => (false, r) | _ => (false, String c s) end = (false, String c s)) as E0.
    { destruct c as [[] [] [] [] [] [] [] []]; try done; by exfalso; (apply H1 || apply H2). }
    rewrite E0 in H. destruct (parse_digits (String c s)) as [n|] eqn:E; [by eapply Hd|done].
Qed.

Lemma poll_message_inj r r' ts ts' v v' : ParseInt ts = Some v → ParseInt ts' = Some v' → poll_message r ts = poll_message r' ts' → r = r' ∧ ts = ts'.
Proof.
  intros H%ParseInt_no_newline H'%ParseInt_no_newline E. apply contains_elem in H, H'. apply last_split in E as [E1 E2]; [|done|done].
  split; [rewrite <- (str_bs r), <- (str_bs r')|rewrite <- (str_bs ts), <- (str_bs ts')]; congruence.
Qed.

Lemma fresh_near now unix : fresh now unix = true → (Z.abs (now - Unix unix) <= maxTimestampSkew)%Z.
Proof.
  unfold fresh, Sub. rewrite negb_true_iff, orb_false_iff, !Z.ltb_ge. unfold maxTimestampSkew, Second, min_int64, max_int64, Time, Duration. lia.
Qed.

(** What an accepted poll of an hmac channel shows. *)
Lemma poll_hmac `{U : Unicode} SV now ch h rid w : Webhook (ch_Spec ch) = Some w → ca_Type (wh_Auth w) = authTypeHMAC →
  authenticatePoll SV now ch h rid = true →
  ∃ secret cfg unix, channelSecret SV (ch_Namespace ch) (wh_Auth w) = inl secret ∧ ca_HMAC (wh_Auth w) = Some cfg ∧
    ParseInt (HeaderGet h timestampHeader) = Some unix ∧ fresh now unix = true ∧
    hex_header (HeaderGet h (hm_Header cfg)) =
      Some (hmac_sum (hmacHasher (hm_Algorithm cfg)) (bs secret) (poll_message rid (HeaderGet h timestampHeader))).
Proof.
  intros Hw Ht. unfold authenticatePoll. destruct (webhookPollChannel ch); [|done]. cbn [negb]. rewrite Hw, Ht.
  destruct (channelSecret _ _ _) as [secret|]; [|done]. change (authTypeHMAC =? authTypeBearer)%string with false.
  change (authTypeHMAC =? authTypeHMAC)%string with true. cbv iota.
  destruct (ParseInt _) as [unix|] eqn:Ep; [|done]. destruct (fresh now unix) eqn:Ef; [|done]. cbn [negb].
  destruct (ca_HMAC (wh_Auth w)) as [cfg|]; [|done]. destruct (hex_header _) as [supplied|] eqn:Eh; [|done].
  rewrite bool_decide_eq_true. intros ->. by eauto 10.
Qed.

(** Two distinct messages with one HMAC. *)
Definition mac_collision (h : hash) (key m m' : bytes) : Prop := m ≠ m' ∧ hmac_sum h key m = hmac_sum h key m'.

(** C29: the headers of an accepted poll of an hmac channel prove that poll
    only.  They are accepted only while the clock is within five minutes of
    the Unix time their timestamp header spells, on either side; sent again
    they are refused for any other request id, unless the HMAC collides on
    the two messages. *)
Theorem poll_proof_binds `{U : Unicode} SV now now' ch h rid rid' w :
  Webhook (ch_Spec ch) = Some w → ca_Type (wh_Auth w) = authTypeHMAC →
  authenticatePoll SV now ch h rid = true → authenticatePoll SV now' ch h rid' = true →
  (∃ unix, ParseInt (HeaderGet h timestampHeader) = Some unix ∧
     (Z.abs (now - Unix unix) <= 300 * Second)%Z ∧ (Z.abs (now' - Unix unix) <= 300 * Second)%Z) ∧
  (rid' = rid ∨ ∃ secret cfg, ca_HMAC (wh_Auth w) = Some cfg ∧
     mac_collision (hmacHasher (hm_Algorithm cfg)) (bs secret)
       (poll_message rid (HeaderGet h timestampHeader)) (poll_message rid' (HeaderGet h timestampHeader))).
Proof.
  intros Hw Ht H1 H2.
  destruct (poll_hmac SV now ch h rid w Hw Ht H1) as (secret & cfg & unix & Hs & Hc & Hp & Hf & Hm).
  destruct (poll_hmac SV now' ch h rid' w Hw Ht H2) as (secret' & cfg' & unix' & Hs' & Hc' & Hp' & Hf' & Hm'). simplify_eq. split.
  - match goal with H : fresh now ?u = true |- _ => exists u end. apply fresh_near in Hf, Hf'. by split.
  - destruct (decide (rid' = rid)) as [->|Hne]; [by left|right]. exists secret, cfg. split; [done|]. split; [|congruence].
    intros E. apply Hne. by destruct (poll_message_inj _ _ _ _ _ _ Hp Hp E).
Qed.

Local Open Scope Z_scope.

Definition example_cfg : ChannelHMAC := mk_channel_hmac "x-hub-signature" "sha256" (mk_secret_ref "hook" "key") (Some "sha256=") "hex".
Definition example_hmac_webhook : AgentChannelWebhook :=
  mk_webhook "/channels/a/in" (mk_channel_auth "hmac" None (Some example_cfg)) no_extractor no_extractor "async" None None 0.
Definition example_hmac_channel : AgentChannel :=
  mk_channel "a" "in" 0 (mk_channel_spec "bot" "webhook" (Some example_hmac_webhook) None None false) "Ready" [("Ready", "True")].
Definition example_secrets : string → string → string → string + string := λ _ _ _, inl "s3cret".
Definition example_poll_headers : Header :=
  {[ "X-Kaalm-Timestamp" := ["1000"];
     "X-Hub-Signature" := [str (Sha256.hex (hmac_sum SHA256 (bs "s3cret") (poll_message "r-1" "1000")))] ]}.

Definition plain_unicode : Unicode := {| isPrint := λ _, false |}.

Lemma poll_proof_binds_witness :
  authenticatePoll (U := plain_unicode) example_secrets (Unix 1000) example_hmac_channel example_poll_headers "r-1" = true ∧
  authenticatePoll (U := plain_unicode) example_secrets (Unix 1200) example_hmac_channel example_poll_headers "r-1" = true ∧
  authenticatePoll (U := plain_unicode) example_secrets (Unix 1000) example_hmac_channel example_poll_headers "r-2" = false ∧
  authenticatePoll (U := plain_unicode) example_secrets (Unix 1301) example_hmac_channel example_poll_headers "r-1" = false ∧
  (Z.abs (Unix 1200 - Unix 1000) <= 300 * Second)%Z.
Proof.
  assert (authenticatePoll (U := plain_unicode) example_secrets (Unix 1000) example_hmac_channel example_poll_headers "r-1" = true) as H1
    by (vm_compute; reflexivity).
  assert (authenticatePoll (U := plain_unicode) example_secrets (Unix 1200) example_hmac_channel example_poll_headers "r-1" = true) as H2
    by (vm_compute; reflexivity).
  pose proof (poll_proof_binds (U := plain_unicode) example_secrets (Unix 1000) (Unix 1200) example_hmac_channel example_poll_headers "r-1" "r-1"
    example_hmac_webhook eq_refl eq_refl H1 H2) as [(unix & Hp & _ & Hb) _].
  split; [exact H1|]. split; [exact H2|]. split; [vm_compute; reflexivity|]. split; [vm_compute; reflexivity|]. vm_compute in Hp. injection Hp as <-. exact Hb.
Defined.

Definition example_webhook_headers : Header :=
  {[ "X-Hub-Signature" := [signature example_cfg (hmac_sum SHA256 (bs "s3cret") (bs "hello"))] ]}.

Lemma webhook_auth_exact_witness :
  authenticateWebhook (U := plain_unicode) example_secrets "a" example_hmac_webhook example_webhook_headers (bs "hello") = true ∧
  authenticateWebhook (U := plain_unicode) example_secrets "a" example_hmac_webhook example_webhook_headers (bs "hullo") = false.
Proof.
  split; [|vm_compute; reflexivity].
  refine (proj2 (webhook_auth_exact (U := plain_unicode) example_secrets "a" example_hmac_webhook example_webhook_headers (bs "hello"))
    "s3cret" example_cfg eq_refl eq_refl eq_refl _).
  vm_compute. reflexivity.
Defined.
