(* ===== verification/Envelope.v ===== *)
(** The message envelope: internal/gateway/envelope.go.

    A webhook request becomes the envelope an agent receives, by the
    extractors of the channel; the reply an agent sends back is read by its
    content. *)

From stdpp Require Import base gmap list strings option.
From Stdlib Require Import ZArith Lia Ascii Wf_nat.
From S2P Require Import Prelude GoFloat GoTime Json JsonString JsonValue RequestBody FoldedName JsonDecode Sha256 ProblemList ToolMessage UpstreamPath ToolSession JsonCompact ToolList ChannelApi ChannelAuth.

(** A [json.RawMessage] is its tree. *)
Record MessageEnvelope := mk_envelope {
  env_MessageID : string;
  env_ChannelType : string;
  env_ChannelID : string;
  env_UserID : string;
  env_SessionID : string;
  env_Content : string;
  env_Attachments : list cst;
  env_Metadata : gmap string any;
}.

(** The reply of an agent. *)
Definition ResponseEnvelope : gty := TStruct [("content", TPtr TString); ("attachments", TSlice TRaw); ("metadata", TMap)].

(** Its content, [None] when it does not decode or has none. *)
Definition response_content (b : bytes) : option string :=
  match UnmarshalInto ResponseEnvelope b with
  | Some v => match gptr (gfield v 0) with Some (GStr s) => Some s | _ => None end
  | None => None
  end.

(** What the gateway uses of google/uuid: the text of the version 5 UUID of a
    name in a namespace, which is ASCII. *)
Class UuidLib := {
  uuid5 : string → bytes → string;
  uuid5_ascii : ∀ space name, forallb (λ c, (ascii_Z c <? 128)%Z) (bs (uuid5 space name)) = true;
}.

Definition SessionNamespaceUUID : string := "f6a7d3c2-1b4e-5f8a-9c0d-2e3f4a5b6c7d".

Section envelope.
Context {UL : UuidLib}.

Definition SessionID (channelID userID : string) : string := uuid5 SessionNamespaceUUID (bs (channelID +:+ (":" +:+ userID))).

(** ** Extraction *)

Definition isExtractorConfigured (e : ChannelExtractor) : bool :=
  bool_decide (is_Some (FromHeader e)) || bool_decide (is_Some (FromBody e)).
Definition extractorUsesBody (e : ChannelExtractor) : bool := bool_decide (is_Some (FromBody e)).

(** The walk of a dotted path. *)
Fixpoint walk_path (current : any) (parts : list string) : option any :=
  match parts with
  | [] => Some current
  | part :: parts =>
      match current with
      | VObj m => match m !! part with Some v => walk_path v parts | None => None end
      | _ => None
      end
  end.

Definition dottedLookup (body : gmap string any) (path : string) : string :=
  match walk_path (VObj body) (split_char "." path) with
  | Some (VStr s) => s
  | Some (VFloat f) => fmt_v (VFloat f)
  | Some (VBool b) => fmt_v (VBool b)
  | _ => ""
  end.

Definition extract (e : ChannelExtractor) (h : Header) (body : gmap string any) : string :=
  let value :=
    match FromHeader e, FromBody e with
    | Some name, _ => HeaderGet h name
    | None, Some path => dottedLookup body path
    | None, None => ""
    end in
  match Fallback e with
  | Some f => if (value =? "")%string then f else value
  | None => value
  end.

(** The offset of the first byte that starts no valid rune; -1 when all do. *)
Fixpoint error_offset (skip : nat) (i : Z) (b : bytes) : Z :=
  match b, skip with
  | [], _ => -1
  | _ :: b', S k => error_offset k (i + 1) b'
  | _ :: b', O => let '(r, n) := DecodeRune b in if (r =? RuneError)%Z && (n =? 1)%nat then i else error_offset (n - 1) (i + 1) b'
  end.

Definition utf8ErrorOffset (b : bytes) : Z := error_offset 0 0 b.

(** [messageID] is uuid.NewString(); [w] the webhook block of the channel. *)
Definition normalize (channel : AgentChannel) (w : AgentChannelWebhook) (messageID : string) (h : Header) (body : bytes) : MessageEnvelope + string :=
  let needsJSON := extractorUsesBody (wh_UserID w) || extractorUsesBody (wh_Content w) in
  match (if needsJSON then match UnmarshalInto TMap body with Some v => Some (as_obj (gany v)) | None => None end else Some ∅) with
  | None => inr "fromBody extraction is configured but the request body is not valid JSON"
  | Some parsedBody =>
      let userID := extract (wh_UserID w) h parsedBody in
      let channelID := Path (ch_Spec channel) in
      match (if isExtractorConfigured (wh_Content w) then inl (extract (wh_Content w) h parsedBody)
             else if ProblemList.Valid body then inl (str (Marshal body))
             else inr ("raw-body content requires valid UTF-8; invalid byte at offset " +:+ str (print_Z (utf8ErrorOffset body)))) with
      | inr e => inr e
      | inl content =>
          inl (mk_envelope messageID "webhook" channelID userID
            (if SessionEnabled (ch_Spec channel) then SessionID channelID userID else "") content [] ∅)
      end
  end.

(** json.Marshal of the envelope. *)
Definition text_of (s : string) : cst := CString (marshal_body (bs s)).

Definition envelope_tree (e : MessageEnvelope) : cst :=
  mk_map ([("messageId", text_of (env_MessageID e)); ("channelType", text_of (env_ChannelType e)); ("channelId", text_of (env_ChannelID e));
           ("userId", text_of (env_UserID e))]
          ++ (if (env_SessionID e =? "")%string then [] else [("sessionId", text_of (env_SessionID e))])
          ++ [("content", text_of (env_Content e)); ("attachments", mk_array (env_Attachments e)); ("metadata", tree_of (VObj (env_Metadata e)))]).

Definition marshal_envelope (e : MessageEnvelope) : bytes := text (envelope_tree e).

(** ** What the agent reads *)

(** The Envelope of the agent runtime (agentruntime/envelope.go). *)
Definition Envelope : gty := TStruct
  [("messageId", TString); ("channelType", TString); ("channelId", TString); ("userId", TString); ("sessionId", TString);
   ("content", TString); ("attachments", TSlice TRaw); ("metadata", TMap)].

Lemma object_mk_map kvs : object_members (mk_map kvs) = Some (map mk_member kvs).
Proof. unfold mk_map. by destruct (map mk_member kvs). Qed.

Lemma envelope_member_key kv : utf8 kv.1 = true → str (mb_key (mk_member kv)) = kv.1.
Proof. intros H. unfold mb_key, mk_member, mb_name. cbn. by apply decode_marshal. Qed.

Lemma decode_text fuel s old : utf8 s = true → decode (S fuel) TString old (text_of s) = (GStr s, false).
Proof. intros H. cbn [decode is_null text_of]. by rewrite decode_marshal. Qed.

Lemma field_name kvs fields name c : utf8 name = true →
  map (λ m, (mb_key m, mb_value m)) (map mk_member ((name, c) :: kvs)) = (bs name, c) :: map (λ m, (mb_key m, mb_value m)) (map mk_member kvs) ∧
  field_index fields (bs name) = fst <$> list_find (λ f, jsonNameMatches (bs name) (bs f.1) = true) fields.
Proof.
  intros H. split; [|done]. cbn [map]. f_equal. f_equal. pose proof (envelope_member_key (name, c) H) as E. apply (f_equal bs) in E. by rewrite bs_str in E.
Qed.

(** One member of a struct: it fills the field of its name. *)
Lemma decode_member_step dec fields vs name c kvs i t old v :
  utf8 name = true → field_index fields (bs name) = Some i → fields !! i = Some (name, t) → vs !! i = Some old → dec t old c = (v, false) →
  decode_members dec fields vs (map (λ m, (mb_key m, mb_value m)) (map mk_member ((name, c) :: kvs))) =
  decode_members dec fields (<[i := v]> vs) (map (λ m, (mb_key m, mb_value m)) (map mk_member kvs)).
Proof.
  intros Hu Hi Hf Hv Hd. destruct (field_name kvs fields name c Hu) as [-> _]. cbn [decode_members]. rewrite Hi, Hf, Hv, Hd.
  by destruct (decode_members dec fields (<[i := v]> vs) _) as [? []].
Qed.

Definition envelope_utf8 (e : MessageEnvelope) : bool :=
  utf8 (env_MessageID e) && utf8 (env_ChannelType e) && utf8 (env_ChannelID e) && utf8 (env_UserID e) && utf8 (env_SessionID e) && utf8 (env_Content e).

Definition envelope_value (e : MessageEnvelope) : gval :=
  GStruct [GStr (env_MessageID e); GStr (env_ChannelType e); GStr (env_ChannelID e); GStr (env_UserID e); GStr (env_SessionID e);
           GStr (env_Content e); GSlice []; GAny (VObj ∅)].

Ltac member_step := erewrite decode_member_step; [|reflexivity|vm_compute; reflexivity|reflexivity|reflexivity|eapply decode_text; assumption].

(** What the gateway sends for a webhook message decodes at the agent to the
    message. *)
Lemma envelope_round_trip e : envelope_utf8 e = true → env_Attachments e = [] → env_Metadata e = ∅ →
  UnmarshalInto Envelope (marshal_envelope e) = Some (envelope_value e).
Proof.
  unfold envelope_utf8. rewrite !andb_true_iff. intros [[[[[H1 H2] H3] H4] H5] H6] Ha Hm.
  unfold UnmarshalInto, UnmarshalType, marshal_envelope.
  assert (wf (envelope_tree e) ∧ (nesting (envelope_tree e) ≤ maxNestingDepth)%Z) as [Hw Hn].
  { unfold envelope_tree. rewrite Ha, Hm. split.
    - apply wf_mk_map. repeat (apply Forall_app; split); repeat constructor; try (destruct (_ =? _)%string; repeat constructor); cbn; try apply marshal_body_ok.
    - destruct (env_SessionID e =? "")%string; vm_compute; discriminate. }
  rewrite parse_text by done. unfold Envelope. set (fields := [("messageId", TString); _; _; _; _; _; _; _]).
  change (gdepth (TStruct fields)) with 3%nat. cbn [decode]. 
  assert (is_null (envelope_tree e) = false) as ->. { unfold envelope_tree, mk_map. by destruct (_ =? _)%string. }
  unfold envelope_tree. rewrite object_mk_map, Ha, Hm. cbn [gzero]. change (map (λ f, gzero f.2) fields) with
    [GStr ""; GStr ""; GStr ""; GStr ""; GStr ""; GStr ""; GNil; GAny VNull].
  cbn [app]. do 4 member_step. destruct (String.eqb_spec (env_SessionID e) "") as [Es|Es]; cbn [app]; [|member_step]; member_step.
  all: erewrite decode_member_step; [|reflexivity|vm_compute; reflexivity|reflexivity|reflexivity|reflexivity].
  all: erewrite decode_member_step; [|reflexivity|vm_compute; reflexivity|reflexivity|reflexivity|vm_compute; reflexivity].
  all: unfold envelope_value; rewrite ?Es; reflexivity.
  Unshelve. all: exact 0%nat || exact GNil.
Qed.

(** ** The raw body *)

Lemma Valid_coerce b : ProblemList.Valid b = true → coerce b = b.
Proof.
  induction b as [b IH] using (induction_ltof1 _ length). intros Hv. destruct (decide (b = [])) as [->|Hne]; [done|].
  destruct (proj1 (Valid_cons _ Hne) Hv) as (r & n & Hr & Hn & He & Ht & Hnr & Hd).
  specialize (Ht (drop n b)). rewrite take_drop in Ht. destruct b as [|c b]; [done|].
  unfold coerce, runes. cbn [runes_from]. rewrite Ht, runes_skip_drop. cbn [flat_map].
  change (flat_map EncodeRune (runes_from 0 (drop (n - 1) b))) with (coerce (drop (n - 1) b)).
  assert (drop (n - 1) b = drop n (c :: b)) as Ed by (destruct n; [lia|by rewrite Nat.sub_succ, Nat.sub_0_r]).
  rewrite Ed, IH by (done || (unfold ltof; rewrite length_drop; cbn in *; lia)). rewrite He. apply take_drop.
Qed.

Lemma u_escape_ascii r : forallb (λ c, (ascii_Z c <? 128)%Z) (u_escape r) = true.
Proof.
  assert (∀ x, (ascii_Z (hex_digit (x mod 16)) <? 128)%Z = true) as H.
  { intros x. pose proof (Z.mod_pos_bound x 16). unfold hex_digit. destruct (Z.ltb_spec (x mod 16) 10); rewrite ascii_Z_byte by lia; apply Z.ltb_lt; lia. }
  unfold u_escape. cbn [forallb]. by rewrite !H.
Qed.

Lemma marshal_step_valid c b : ProblemList.Valid (marshal_step (c :: b)).1 = true.
Proof.
  unfold marshal_step. destruct (ascii_Z c <? 128)%Z eqn:Ec.
  - cbn [fst]. repeat match goal with |- context [if ?x then _ else _] => destruct x end; apply Valid_ascii; try apply u_escape_ascii; cbn [forallb]; by rewrite ?Ec.
  - destruct (DecodeRune (c :: b)) as [r n] eqn:D. cbn [fst].
    destruct ((r =? RuneError)%Z && (n =? 1)%nat) eqn:Er; [apply Valid_ascii, u_escape_ascii|].
    destruct ((r =? 8232)%Z || (r =? 8233)%Z); [apply Valid_ascii, u_escape_ascii|].
    destruct (DecodeRune_spec _ _ _ D ltac:(done)) as [[= -> ->]|(Hok & Hn & He & Ht)]; [done|].
    apply DecodeRune_width in D. assert (length (take n (c :: b)) = n) as Hl by (rewrite length_take; cbn in *; lia).
    apply Valid_cons; [by destruct n; [lia|]|]. exists r, n. rewrite Hl, take_take, Nat.min_id, drop_ge by lia. rewrite Er. split_and!; try done; lia.
Qed.

Lemma Marshal_valid b : ProblemList.Valid (Marshal b) = true.
Proof.
  assert (∀ k, ProblemList.Valid (marshal_from k b) = true) as H.
  { induction b as [|c b IH]; intros k; [done|]. destruct k as [|k]; [|apply IH]. cbn [marshal_from].
    pose proof (marshal_step_valid c b) as Hs. destruct (marshal_step (c :: b)) as [out n]. cbn [fst] in Hs. apply Valid_app; [done|apply IH]. }
  unfold Marshal, string_token. apply (Valid_app [_]); [done|]. apply Valid_app; [apply H|done].
Qed.

Lemma Valid_utf8 b : ProblemList.Valid b = true → utf8 (str b) = true.
Proof. intros H. unfold utf8. rewrite bs_str. by apply bool_decide_eq_true, Valid_coerce. Qed.

Lemma hex_ascii b : forallb (λ c, (ascii_Z c <? 128)%Z) (Sha256.hex b) = true.
Proof.
  induction b as [|c b IH]; [done|]. cbn [Sha256.hex flat_map app forallb]. fold (Sha256.hex b). rewrite IH.
  pose proof (ascii_Z_range c). assert (∀ x, (0 <= x < 16)%Z → (ascii_Z (hex_digit x) <? 128)%Z = true) as H'.
  { intros x Hx. unfold hex_digit. destruct (Z.ltb_spec x 10); rewrite ascii_Z_byte by lia; apply Z.ltb_lt; lia. }
  rewrite !H'; [done|apply Z.mod_pos_bound; lia|]. split; [apply Z.div_pos; lia|apply Z.div_lt_upper_bound; lia].
Qed.

Lemma uuid_string_ascii b : forallb (λ c, (ascii_Z c <? 128)%Z) (bs (uuid_string b)) = true.
Proof.
  assert (∀ s t, bs (s +:+ t) = bs s ++ bs t) as Happ.
  { intros s t. induction s as [|c s IH]; [done|]. change (bs (String c s +:+ t)) with (c :: bs (s +:+ t)). by rewrite IH. }
  unfold uuid_string, hex_range. rewrite !Happ, !bs_str, !forallb_app, !hex_ascii. done.
Qed.

Lemma session_utf8 c u : utf8 (SessionID c u) = true.
Proof. unfold utf8, SessionID. apply bool_decide_eq_true, coerce_ascii, uuid5_ascii. Qed.

(** Without an extractor that reads the body, a webhook message is accepted
    exactly when its body is valid UTF-8, and the agent gets the body unchanged: the envelope the gateway sends
    decodes at the agent to the message's fields, and its content is the JSON
    string of the body, byte for byte. *)
Theorem raw_body_reaches_agent channel w messageID h body :
  isExtractorConfigured (wh_Content w) = false → extractorUsesBody (wh_UserID w) = false →
  utf8 messageID = true → utf8 (Path (ch_Spec channel)) = true → utf8 (extract (wh_UserID w) h ∅) = true →
  (ProblemList.Valid body = true ↔ ∃ e, normalize channel w messageID h body = inl e) ∧
  ∀ e, normalize channel w messageID h body = inl e →
    UnmarshalInto Envelope (marshal_envelope e) = Some (envelope_value e) ∧
    env_MessageID e = messageID ∧ env_ChannelID e = Path (ch_Spec channel) ∧ env_UserID e = extract (wh_UserID w) h ∅ ∧
    jsonStringValue (bs (env_Content e)) = body.
Proof.
  intros Hc Hu Hmid Hpath Huser. unfold normalize.
  assert (extractorUsesBody (wh_Content w) = false) as Hc'.
  { unfold isExtractorConfigured in Hc. by apply orb_false_iff in Hc as [_ ?]. }
  rewrite Hu, Hc', Hc. cbn [orb]. destruct (ProblemList.Valid body) eqn:Ev.
  - split; [by split; [eauto|]|]. intros e [= <-].
    change (String quote (str (marshal_body body ++ [quote]))) with (str (Marshal body)). cbn [env_MessageID env_ChannelID env_UserID env_Content]. rewrite bs_str, jsonStringValue_Marshal, Valid_coerce by done.
    split_and!; try done. apply envelope_round_trip; [|done|done]. unfold envelope_utf8.
    cbn [env_MessageID env_ChannelType env_ChannelID env_UserID env_SessionID env_Content].
    rewrite Hmid, Hpath, Huser, (Valid_utf8 _ (Marshal_valid body)). destruct (SessionEnabled (ch_Spec channel)); [by rewrite session_utf8|done].
  - split; [|done]. split; [done|]. by intros [? ?].
Qed.

(** ** Sessions *)

(** Two users of channels whose paths have no colon share a session id only
    when the version 5 UUIDs of two distinct names coincide. *)
Lemma session_ids_separate_users c u c' u' : contains_char ":" c = false → contains_char ":" c' = false →
  SessionID c u = SessionID c' u' → (c = c' ∧ u = u') ∨
  ∃ m m', m ≠ m' ∧ uuid5 SessionNamespaceUUID m = uuid5 SessionNamespaceUUID m'.
Proof.
  intros Hc Hc' E. destruct (decide ((c +:+ (":" +:+ u)) = (c' +:+ (":" +:+ u')))) as [Eq|Hne].
  - left. assert (∀ c u, contains_char ":" c = false → Cut ":" (c +:+ (":" +:+ u)) = Some (c, u)) as Hcut.
    { intros. apply Cut_Some. split; done. }
    apply (f_equal (Cut ":")) in Eq. rewrite !Hcut in Eq by done. by simplify_eq.
  - right. exists (bs (c +:+ (":" +:+ u))), (bs (c' +:+ (":" +:+ u'))). split; [|exact E].
    intros Eb. apply Hne. apply (f_equal str) in Eb. by rewrite !str_bs in Eb.
Qed.

(** With a colon in a path two channels' users share one. *)
Lemma session_shared_across_channels : SessionID "/channels/a/x" "y:z" = SessionID "/channels/a/x:y" "z".
Proof.
  unfold SessionID. assert (("/channels/a/x" +:+ (":" +:+ "y:z")) = ("/channels/a/x:y" +:+ (":" +:+ "z"))) as E by reflexivity.
  rewrite E. reflexivity.
Qed.
End envelope.

(** The UUIDs of RFC 9562. *)
#[export] Instance rfc9562 : UuidLib := {|
  uuid5 space name := uuid_string (NewSHA1 (default [] (hex_decode (filter (λ c, c ≠ "-"%char) (String.list_ascii_of_string space)))) name);
  uuid5_ascii space name := uuid_string_ascii _;
|}.

Lemma raw_body_reaches_agent_witness :
  ∃ e, normalize example_hmac_channel example_hmac_webhook "m-1" ∅ (bs "<hi>") = inl e ∧
    UnmarshalInto Envelope (marshal_envelope e) = Some (envelope_value e) ∧ jsonStringValue (bs (env_Content e)) = bs "<hi>".
Proof.
  pose proof (raw_body_reaches_agent example_hmac_channel example_hmac_webhook "m-1" ∅ (bs "<hi>") eq_refl eq_refl eq_refl eq_refl eq_refl) as [Hv He].
  destruct (proj1 Hv eq_refl) as [e Hn]. exists e. split; [exact Hn|]. destruct (He e Hn) as (H1 & _ & _ & _ & H2). split; [exact H1|exact H2].
Defined.
