(* ===== verification/PodReady.v ===== *)
(** The Pod watch of the gateway: internal/gateway/podready.go.

    The tracker knows which Pods of an Agent serve, and the waits in progress;
    a Pod that starts serving closes the channel of every wait for its Agent.
    Closing a closed channel panics: [None] is that panic. *)

From stdpp Require Import base gmap list strings option sets fin_sets.
From Stdlib Require Import ZArith Lia Ascii.
From S2P Require Import Prelude GoTime RateLimit Auth.

(** ** Pods *)

Record OwnerReference := mk_owner_reference {
  or_APIVersion : string;
  or_Kind : string;
  or_Name : string;
  or_Controller : bool;
}.

Record AgentPod := mk_agent_pod {
  ap_Namespace : string;
  ap_Name : string;
  ap_Labels : gmap string string;
  ap_Owners : list OwnerReference;
  ap_Deleting : bool;
  ap_Phase : string;
  ap_Conditions : list (string * string);
}.

Definition agentKey : Type := string * string.

Definition LabelAgent : string := "kaalm.io/agent".
Definition LabelWorkload : string := "kaalm.io/workload".
Definition WorkloadAgent : string := "agent".

(** What the gateway uses of apimachinery: the group of an apiVersion, [None]
    when it does not parse, and the owner that controls an object. *)
Class ObjectMeta := {
  ParseGroupVersion : string → option string;
  GetControllerOf : list OwnerReference → option OwnerReference;
}.

Section tracker.
Context {OM : ObjectMeta}.

Definition agentPodKey (pod : AgentPod) : option agentKey :=
  let name := default "" (ap_Labels pod !! LabelAgent) in
  if negb (default "" (ap_Labels pod !! LabelWorkload) =? WorkloadAgent)%string || (name =? "")%string then None
  else
    match GetControllerOf (ap_Owners pod) with
    | None => None
    | Some ref =>
        if negb (or_Kind ref =? "Agent")%string || negb (or_Name ref =? name)%string then None
        else match ParseGroupVersion (or_APIVersion ref) with
             | Some g => if (g =? "kaalm.io")%string then Some (ap_Namespace pod, name) else None
             | None => None
             end
    end.

Definition podServing (pod : AgentPod) : bool :=
  if ap_Deleting pod || (ap_Phase pod =? "Succeeded")%string || (ap_Phase pod =? "Failed")%string then false
  else match find (λ c : string * string, (c.1 =? "Ready")%string) (ap_Conditions pod) with
       | Some c => (c.2 =? "True")%string
       | None => false
       end.

(** ** The tracker *)

(** A wait is its number; [closed] are the waits whose channel is closed. *)
Record PodReadyTracker := mk_tracker {
  pods : gmap agentKey (gmap string bool);
  waiters : gmap agentKey (gset nat);
  closed : gset nat;
  next : nat;
}.

Definition NewPodReadyTracker : PodReadyTracker := mk_tracker ∅ ∅ ∅ 0.

Definition observe (t : PodReadyTracker) (pod : AgentPod) : option PodReadyTracker :=
  match agentPodKey pod with
  | None => Some t
  | Some key =>
      let serving := podServing pod in
      let known := default ∅ (pods t !! key) in
      let pods' := <[key := <[ap_Name pod := serving]> known]> (pods t) in
      if negb serving then Some (mk_tracker pods' (waiters t) (closed t) (next t))
      else
        let woken := default ∅ (waiters t !! key) in
        if decide (woken ## closed t) then Some (mk_tracker pods' (delete key (waiters t)) (woken ∪ closed t) (next t)) else None
  end.

Definition forget (t : PodReadyTracker) (pod : AgentPod) : PodReadyTracker :=
  match agentPodKey pod with
  | None => t
  | Some key =>
      let known := delete (ap_Name pod) (default ∅ (pods t !! key)) in
      mk_tracker (if decide (known = ∅) then delete key (pods t) else <[key := known]> (pods t)) (waiters t) (closed t) (next t)
  end.

Definition Wait (t : PodReadyTracker) (key : agentKey) : PodReadyTracker * nat :=
  let w := next t in
  (mk_tracker (pods t) (<[key := {[w]} ∪ default ∅ (waiters t !! key)]> (waiters t)) (closed t) (S w), w).

Definition release (t : PodReadyTracker) (key : agentKey) (w : nat) : PodReadyTracker :=
  let ws := default ∅ (waiters t !! key) ∖ {[w]} in
  mk_tracker (pods t) (if decide (ws = ∅) then delete key (waiters t) else <[key := ws]> (waiters t)) (closed t) (next t).

Definition ready (t : PodReadyTracker) (key : agentKey) : bool :=
  bool_decide (¬ map_Forall (λ _ serving, serving = false) (default ∅ (pods t !! key))).

Definition seen (t : PodReadyTracker) (key : agentKey) : bool := bool_decide (default ∅ (pods t !! key) ≠ ∅).

(** ** Runs *)

(** What the watch and the waits do, in the order they take the lock. *)
Inductive pod_op :=
  | PObserve (pod : AgentPod)
  | PForget (pod : AgentPod)
  | PWait (key : agentKey)
  | PRelease (key : agentKey) (w : nat).

Definition pod_step (t : PodReadyTracker) (op : pod_op) : option PodReadyTracker :=
  match op with
  | PObserve pod => observe t pod
  | PForget pod => Some (forget t pod)
  | PWait key => Some (Wait t key).1
  | PRelease key w => Some (release t key w)
  end.

Fixpoint pod_run (t : PodReadyTracker) (ops : list pod_op) : option PodReadyTracker :=
  match ops with
  | [] => Some t
  | op :: ops => match pod_step t op with Some t => pod_run t ops | None => None end
  end.

(** Whether an operation is a Pod of the Agent starting to serve. *)
Definition serves (key : agentKey) (op : pod_op) : bool :=
  match op with PObserve pod => bool_decide (agentPodKey pod = Some key) && podServing pod | _ => false end.

Definition releases (w : nat) (op : pod_op) : bool := match op with PRelease _ w' => (w' =? w)%nat | _ => false end.

(** ** The invariant *)

Record tracker_inv (t : PodReadyTracker) : Prop := mk_tracker_inv {
  ti_open : ∀ key ws w, waiters t !! key = Some ws → w ∈ ws → w ∉ closed t ∧ w < next t;
  ti_closed : ∀ w, w ∈ closed t → w < next t;
  ti_one : ∀ key key' ws ws' w, waiters t !! key = Some ws → waiters t !! key' = Some ws' → w ∈ ws → w ∈ ws' → key = key';
}.

Lemma default_ws t key w : w ∈ default ∅ (waiters t !! key) ↔ ∃ ws, waiters t !! key = Some ws ∧ w ∈ ws.
Proof. destruct (waiters t !! key) as [ws|]; cbn; [naive_solver|]. split; [set_solver|naive_solver]. Qed.

Lemma new_tracker_inv : tracker_inv NewPodReadyTracker.
Proof. split; cbn; intros; simplify_map_eq; set_solver. Qed.

(** No operation panics, and all keep the invariant. *)
Lemma pod_step_inv t op : tracker_inv t → ∃ t', pod_step t op = Some t' ∧ tracker_inv t'.
Proof.
  intros [H1 H2 H3]. destruct op as [pod|pod|key|key w]; cbn [pod_step].
  - unfold observe. destruct (agentPodKey pod) as [key|]; [|by eexists]. destruct (podServing pod); cbn [negb]; [|eexists; split; [done|by split]].
    rewrite decide_True.
    + eexists. split; [done|]. split; cbn.
      * intros k ws w Hk Hw. apply lookup_delete_Some in Hk as [Hne Hk]. destruct (H1 _ _ _ Hk Hw) as [Hc Hn]. split; [|done].
        rewrite elem_of_union, default_ws. intros [(ws' & Hk' & Hw')|?]; [|done]. by destruct (Hne (H3 _ _ _ _ _ Hk' Hk Hw' Hw)).
      * intros w. rewrite elem_of_union, default_ws. intros [(ws & Hk & Hw)|?]; [by eapply H1|auto].
      * intros k k' ws ws' w Hk Hk'. apply lookup_delete_Some in Hk as [_ Hk], Hk' as [_ Hk']. by eapply H3.
    + intros w. rewrite default_ws. intros (ws & Hk & Hw). by eapply H1.
  - eexists. split; [done|]. unfold forget. destruct (agentPodKey pod); by split.
  - eexists. split; [done|]. split; cbn.
    + intros k ws w Hk Hw. destruct (decide (k = key)) as [->|Hne].
      * rewrite lookup_insert_eq in Hk. simplify_eq. apply elem_of_union in Hw as [->%elem_of_singleton|(ws' & Hk' & Hw')%default_ws].
        -- split; [|lia]. intros Hc%H2. lia.
        -- destruct (H1 _ _ _ Hk' Hw'). split; [done|lia].
      * rewrite lookup_insert_ne in Hk by done. destruct (H1 _ _ _ Hk Hw). split; [done|lia].
    + intros w Hw%H2. lia.
    + assert (∀ k ws w, <[key:={[next t]} ∪ default ∅ (waiters t !! key)]> (waiters t) !! k = Some ws → w ∈ ws →
                (k = key ∧ w = next t) ∨ ∃ ws0, waiters t !! k = Some ws0 ∧ w ∈ ws0) as Hold.
      { intros k ws w Hk Hw. destruct (decide (k = key)) as [->|Hne].
        - rewrite lookup_insert_eq in Hk. simplify_eq. apply elem_of_union in Hw as [->%elem_of_singleton|Hw%default_ws]; auto.
        - rewrite lookup_insert_ne in Hk by done. right. eauto. }
      intros k k' ws ws' w Hk Hk' Hw Hw'.
      destruct (Hold _ _ _ Hk Hw) as [[-> ->]|(w1 & E1 & M1)], (Hold _ _ _ Hk' Hw') as [[-> E]|(w2 & E2 & M2)]; try done.
      * destruct (H1 _ _ _ E2 M2). lia.
      * subst w. destruct (H1 _ _ _ E1 M1). lia.
      * by eapply (H3 k k').
  - eexists. split; [done|].
    assert (∀ k ws w', waiters (release t key w) !! k = Some ws → w' ∈ ws → ∃ ws0, waiters t !! k = Some ws0 ∧ w' ∈ ws0) as Hold.
    { intros k ws w'. unfold release. cbn. destruct (decide _).
      - intros [_ Hk]%lookup_delete_Some ?. eauto.
      - destruct (decide (k = key)) as [->|Hne]; [|rewrite lookup_insert_ne by done; eauto].
        rewrite lookup_insert_eq. intros [= <-] [Hw _]%elem_of_difference. by apply default_ws. }
    split; cbn.
    + intros k ws w' Hk Hw. destruct (Hold _ _ _ Hk Hw) as (? & ? & ?). by eapply H1.
    + done.
    + intros k k' ws ws' w' Hk Hk' Hw Hw'. destruct (Hold _ _ _ Hk Hw) as (? & ? & ?), (Hold _ _ _ Hk' Hw') as (? & ? & ?). by eapply H3.
Qed.

Lemma pod_run_inv t ops : tracker_inv t → ∃ t', pod_run t ops = Some t' ∧ tracker_inv t'.
Proof.
  revert t. induction ops as [|op ops IH]; intros t Hinv; [by eexists|]. cbn. destruct (pod_step_inv t op Hinv) as (t' & -> & Hinv'). by apply IH.
Qed.

(** ** One wait *)

Definition waiting (t : PodReadyTracker) (key : agentKey) (w : nat) : Prop := w ∈ default ∅ (waiters t !! key).

Lemma closed_step t t' op w : pod_step t op = Some t' → w ∈ closed t → w ∈ closed t'.
Proof.
  destruct op as [pod|pod|k|k w']; cbn [pod_step]; [unfold observe|unfold forget|..]; repeat case_match; intros; simplify_eq/=; set_solver.
Qed.

Lemma waiting_step t t' op key w : pod_step t op = Some t' → releases w op = false → waiting t key w →
  if serves key op then w ∈ closed t' else waiting t' key w.
Proof.
  unfold waiting. intros Hs Hr Hw. destruct op as [pod|pod|k|k w']; cbn [pod_step serves releases] in *.
  - unfold observe in Hs. destruct (agentPodKey pod) as [k|]; [|rewrite bool_decide_false by done; by simplify_eq].
    destruct (podServing pod); cbn [negb] in Hs; [|rewrite andb_false_r; by simplify_eq].
    destruct (decide (_ ## _)); [|done]. simplify_eq. rewrite andb_true_r. case_bool_decide as Hk; simplify_eq/=.
    + apply elem_of_union. by left.
    + rewrite lookup_delete_ne by congruence. done.
  - simplify_eq. unfold forget. by destruct (agentPodKey pod).
  - simplify_eq/=. destruct (decide (k = key)) as [->|Hne]; [rewrite lookup_insert_eq; cbn; set_solver|by rewrite lookup_insert_ne].
  - apply Nat.eqb_neq in Hr. simplify_eq. unfold release. cbn. destruct (decide _) as [E|E].
    + destruct (decide (k = key)) as [->|Hne]; [set_solver|by rewrite lookup_delete_ne].
    + destruct (decide (k = key)) as [->|Hne]; [rewrite lookup_insert_eq; cbn; set_solver|by rewrite lookup_insert_ne].
Qed.

Lemma ready_true t key : ready t key = true ↔ ∃ name, default ∅ (pods t !! key) !! name = Some true.
Proof.
  unfold ready. rewrite bool_decide_eq_true. split.
  - intros H. apply map_not_Forall in H as (name & b & Hn & Hb); [|solve_decision]. exists name. by destruct b.
  - intros (name & Hn) H. by specialize (H name true Hn).
Qed.

Lemma ready_step t t' op key : pod_step t op = Some t' → ready t' key = true → ready t key = true ∨ serves key op = true.
Proof.
  intros Hs. rewrite !ready_true. intros (name & Hn).
  destruct op as [pod|pod|k|k w']; cbn [pod_step serves] in *; [..|simplify_eq; left; by exists name|simplify_eq; left; by exists name].
  - unfold observe in Hs. destruct (agentPodKey pod) as [k|] eqn:Ek; [|simplify_eq; left; by exists name].
    destruct (decide (k = key)) as [->|Hne].
    + destruct (podServing pod) eqn:Esv; [right; by rewrite bool_decide_true|]. cbn [negb] in Hs. simplify_eq/=. rewrite lookup_insert_eq in Hn. cbn in Hn.
      left. exists name. apply lookup_insert_Some in Hn as [[_ ?]|[_ ?]]; done.
    + left. exists name. destruct (podServing pod); cbn [negb] in Hs; [destruct (decide (_ ## _)); [|done]|]; simplify_eq/=; by rewrite lookup_insert_ne in Hn.
  - simplify_eq. left. exists name. unfold forget in Hn. destruct (agentPodKey pod) as [k|]; [|done]. cbn in Hn.
    destruct (decide (k = key)) as [->|Hne].
    + destruct (decide _); [by rewrite lookup_delete_eq in Hn|]. rewrite lookup_insert_eq in Hn. cbn in Hn. by apply lookup_delete_Some in Hn as [_ ?].
    + destruct (decide _); [by rewrite lookup_delete_ne in Hn|by rewrite lookup_insert_ne in Hn].
Qed.

Lemma pod_run_app t ops ops' : pod_run t (ops ++ ops') = match pod_run t ops with Some t => pod_run t ops' | None => None end.
Proof. revert t. induction ops as [|op ops IH]; intros t; [done|]. cbn. destruct (pod_step t op); [apply IH|done]. Qed.

Lemma closed_run ops t t' w : pod_run t ops = Some t' → w ∈ closed t → w ∈ closed t'.
Proof.
  revert t. induction ops as [|op ops IH]; intros t E Hc; cbn in E; [by simplify_eq|].
  destruct (pod_step t op) as [t1|] eqn:E1; [|done]. eapply IH; [done|by eapply closed_step].
Qed.

(** What becomes of a wait over a run that does not release it. *)
Lemma waiting_run ops t key w : tracker_inv t → existsb (releases w) ops = false → waiting t key w →
  ∃ t', pod_run t ops = Some t' ∧ (w ∈ closed t' ↔ existsb (serves key) ops = true) ∧
    (ready t' key = true → ready t key = true ∨ existsb (serves key) ops = true).
Proof.
  revert t. induction ops as [|op ops IH]; intros t Hinv Hr Hw; cbn [pod_run existsb] in *.
  - exists t. split; [done|]. split; [|auto]. split; [|done]. intros Hc. apply default_ws in Hw as (ws & Hk & Hw).
    by destruct (ti_open t Hinv _ _ _ Hk Hw).
  - apply orb_false_iff in Hr as [Hr1 Hr2]. destruct (pod_step_inv t op Hinv) as (t1 & E1 & Hinv1). rewrite E1.
    pose proof (waiting_step t t1 op key w E1 Hr1 Hw) as Hstep. pose proof (ready_step t t1 op key E1) as Hready.
    destruct (serves key op); cbn [orb].
    + destruct (pod_run_inv t1 ops Hinv1) as (t2 & E2 & _). exists t2. split; [done|]. split; [|by right]. split; [done|]. intros _.
      by eapply closed_run.
    + destruct (IH t1 Hinv1 Hr2 Hstep) as (t2 & E2 & Hc & Hrd). exists t2. split; [done|]. split; [done|]. intros H.
      destruct (Hrd H) as [H'|H']; [|by right]. destruct (Hready H') as [?|?]; [by left|done].
Qed.

(** C28: the Pod watch never closes a wait's channel twice, which would panic,
    whatever the order of events, waits and releases; a wait's channel is
    closed exactly when a Pod of its Agent started to serve after the wait
    registered and before it was released; so a Pod that serves is never
    missed: it was ready when the wait registered, or the channel is closed. *)
Theorem no_ready_event_lost before key after t1 :
  pod_run NewPodReadyTracker before = Some t1 →
  existsb (releases (next t1)) after = false →
  ∃ t2, pod_run NewPodReadyTracker (before ++ PWait key :: after) = Some t2 ∧
    (next t1 ∈ closed t2 ↔ existsb (serves key) after = true) ∧
    (ready t2 key = true → ready t1 key = true ∨ next t1 ∈ closed t2).
Proof.
  intros H1 Hr. destruct (pod_run_inv NewPodReadyTracker before new_tracker_inv) as (t & Ht & Hinv). rewrite H1 in Ht. simplify_eq.
  rewrite pod_run_app, H1. cbn [pod_run pod_step].
  destruct (pod_step_inv t (PWait key) Hinv) as (t' & E & Hinv'). cbn [pod_step] in E. simplify_eq.
  destruct (waiting_run after (Wait t key).1 key (next t) Hinv' Hr) as (t2 & E2 & Hc & Hrd).
  { unfold waiting. cbn. rewrite lookup_insert_eq. cbn. set_solver. }
  exists t2. split; [done|]. split; [done|]. rewrite Hc. intros H. by destruct (Hrd H); [left|right].
Qed.
End tracker.

(** The group before the slash; the owner marked as controller. *)
#[local] Instance example_meta : ObjectMeta := {|
  ParseGroupVersion s := match split_char "/" s with [g; _] => Some g | _ => None end;
  GetControllerOf := find or_Controller;
|}.

Definition example_labels : gmap string string := {[ LabelAgent := "bot"; LabelWorkload := WorkloadAgent ]}.
Definition example_pod (status : string) : AgentPod :=
  mk_agent_pod "a" "bot-0" example_labels [mk_owner_reference "kaalm.io/v1beta1" "Agent" "bot" true] false "Running" [("Ready", status)].

Lemma no_ready_event_lost_witness :
  ∃ t2, pod_run NewPodReadyTracker ([PObserve (example_pod "False")] ++ PWait ("a", "bot") :: [PObserve (example_pod "True"); PObserve (example_pod "True")]) = Some t2 ∧
    0 ∈ closed t2.
Proof.
  destruct (no_ready_event_lost [PObserve (example_pod "False")] ("a", "bot") [PObserve (example_pod "True"); PObserve (example_pod "True")]
    (mk_tracker {[ ("a", "bot") := {[ "bot-0" := false ]} ]} ∅ ∅ 0)) as (t2 & E & Hc & _).
  - vm_compute. reflexivity.
  - reflexivity.
  - exists t2. split; [exact E|]. apply Hc. vm_compute. reflexivity.
Defined.
