(* ===== verification/Rfc3339.v ===== *)
(** [time.Time.UTC().Format(time.RFC3339)]: the timestamps of the wire shapes
    and annotations the gateway writes.

    Then time.Parse of the same layout with its round trip, and the text and
    rounding of durations. *)

From stdpp Require Import base list strings option.
From Stdlib Require Import ZArith Lia Ascii.
From S2P Require Import Prelude GoFloat GoTime BudgetPeriod.
Local Open Scope Z_scope.

(** The second of the day. *)
Definition second_of_day (t : Time) : Z := t mod ns_per_day / Second.

Definition RFC3339 (t : Time) : string :=
  let '(y, m, d) := civil_of_day (day_of t) in
  let s := second_of_day t in
  zpad 4 y +:+ ("-" +:+ (zpad 2 m +:+ ("-" +:+ (zpad 2 d +:+ ("T" +:+
    (zpad 2 (s / 3600) +:+ (":" +:+ (zpad 2 (s / 60 mod 60) +:+ (":" +:+ (zpad 2 (s mod 60) +:+ "Z")))))))))).

(** [time.Unix] of 1735689599, the last second of 2024. *)
Lemma rfc3339_example : RFC3339 ((62135596800 + 1735689599) * Second + 7) = "2024-12-31T23:59:59Z".
Proof. vm_compute. reflexivity. Qed.

(** [time.Parse(time.RFC3339, s)], the standard library's parser at the one
    layout the controller reads annotations with, and its round trip with the
    formatter of [Rfc3339].

    The parser takes an hour of one digit, a fraction of a second after a
    point or a comma, of which nine digits count, and an offset of up to 24
    hours and 60 minutes. *)

Local Open Scope Z_scope.

Definition digit_z (a : ascii) : option Z := Z.of_N <$> digit a.

(** [getnum]: two digits, or one where the layout does not ask for two. *)
Definition getnum (fixed : bool) (s : string) : option (Z * string) :=
  match s with
  | String a s' =>
      match digit_z a with
      | None => None
      | Some x =>
          match s' with
          | String b s'' =>
              match digit_z b with
              | Some y => Some (x * 10 + y, s'')
              | None => if fixed then None else Some (x, s')
              end
          | EmptyString => if fixed then None else Some (x, s')
          end
      end
  | EmptyString => None
  end.

(** The four digits of a year. *)
Definition getyear (s : string) : option (Z * string) :=
  match s with
  | String a (String b (String c (String d r))) =>
      match digit_z a, digit_z b, digit_z c, digit_z d with
      | Some x, Some y, Some z, Some w => Some (x * 1000 + y * 100 + z * 10 + w, r)
      | _, _, _, _ => None
      end
  | _ => None
  end.

(** A literal byte of the layout. *)
Definition skip_byte (a : ascii) (s : string) : option string :=
  match s with String b r => if Ascii.eqb a b then Some r else None | EmptyString => None end.

(** The digits of a fraction from weight [w] on; digits past the ninth weigh
    nothing. *)
Fixpoint fraction_digits (w : Z) (s : string) : Z * string :=
  match s with
  | String a r =>
      match digit_z a with
      | Some x => let '(n, r') := fraction_digits (w / 10) r in (x * w + n, r')
      | None => (0, s)
      end
  | EmptyString => (0, s)
  end.

Definition commaOrPeriod (a : ascii) : bool := Ascii.eqb a "." || Ascii.eqb a ",".

Definition getfraction (s : string) : Z * string :=
  match s with
  | String a ((String b _) as r) =>
      if commaOrPeriod a && bool_decide (is_Some (digit_z b)) then fraction_digits 100000000 r else (0, s)
  | _ => (0, s)
  end.

(** The zone: the offset in seconds east of UTC. *)
Definition getzone (s : string) : option (Z * string) :=
  match s with
  | String "Z" r => Some (0, r)
  | String sign r =>
      '(hr, r) ← getnum true r; r ← skip_byte ":" r; '(mm, r) ← getnum true r;
      if (hr >? 24) || (mm >? 60) then None
      else if Ascii.eqb sign "+" then Some ((hr * 60 + mm) * 60, r)
      else if Ascii.eqb sign "-" then Some (- ((hr * 60 + mm) * 60), r)
      else None
  | EmptyString => None
  end.

Definition daysIn (m y : Z) : Z := month_start (is_leap y) (m + 1) - month_start (is_leap y) m.

Definition ParseRFC3339 (s : string) : option Time :=
  '(y, s) ← getyear s; s ← skip_byte "-" s;
  '(m, s) ← getnum true s; s ← skip_byte "-" s;
  '(d, s) ← getnum true s; s ← skip_byte "T" s;
  '(h, s) ← getnum false s; s ← skip_byte ":" s;
  '(mi, s) ← getnum true s; s ← skip_byte ":" s;
  '(sec, s) ← getnum true s;
  let '(nsec, s) := getfraction s in
  '(offset, s) ← getzone s;
  if negb (s =? "")%string || (m <? 1) || (12 <? m) || (24 <=? h) || (60 <=? mi) || (60 <=? sec) || (d <? 1) || (daysIn m y <? d)
  then None
  else Some (Date y m d + (h * 3600 + mi * 60 + sec - offset) * Second + nsec).

(** ** What the formatter writes is read back *)

Lemma digit_z_char d : (d < 10)%N → digit_z (digit_char d) = Some (Z.of_N d).
Proof. intros H. unfold digit_z. by rewrite digit_digit_char. Qed.

Lemma getnum_zpad fixed n r : 0 <= n <= 99 → getnum fixed (zpad 2 n +:+ r) = Some (n, r).
Proof.
  intros H. rewrite zpad2_digits by lia. unfold String.app. cbn [digits String.append]. unfold getnum.
  rewrite !digit_z_char by (by apply N.mod_lt). change (10 ^ N.of_nat 1)%N with 10%N. change (10 ^ N.of_nat 0)%N with 1%N.
  f_equal. f_equal. rewrite N.div_1_r, !N2Z.inj_mod, N2Z.inj_div, Z2N.id by lia. zdm.
Qed.

Lemma getyear_zpad y r : 0 <= y <= 9999 → getyear (zpad 4 y +:+ r) = Some (y, r).
Proof.
  intros H. rewrite zpad4_digits by lia. unfold String.app. cbn [digits String.append]. unfold getyear.
  rewrite !digit_z_char by (by apply N.mod_lt). change (10 ^ N.of_nat 3)%N with 1000%N. change (10 ^ N.of_nat 2)%N with 100%N.
  change (10 ^ N.of_nat 1)%N with 10%N. change (10 ^ N.of_nat 0)%N with 1%N.
  f_equal. f_equal. rewrite N.div_1_r, !N2Z.inj_mod, !N2Z.inj_div, Z2N.id by lia. zdm.
Qed.

Lemma skip_byte_lit a r : skip_byte a (String a "" +:+ r) = Some r.
Proof. unfold skip_byte, String.app. cbn [String.append]. by rewrite Ascii.eqb_refl. Qed.

(** The moments the layout's four-digit year can name. *)
Definition year_in_layout (t : Time) : Prop := 0 <= year_of_day (day_of t) <= 9999.

Lemma rfc3339_roundtrip t : year_in_layout t → ParseRFC3339 (RFC3339 t) = Some (stored_time t).
Proof.
  unfold year_in_layout, RFC3339. intros Hy. destruct (civil_of_day (day_of t)) as [[y m] d] eqn:E.
  apply civil_of_day_spec in E as (Ey & Hm & Ed & Hd & Hd').
  assert (0 <= second_of_day t < 86400) as Hs by (unfold second_of_day, ns_per_day, Second; zdm).
  assert (d <= daysIn m y) as Hdays by (unfold daysIn; lia).
  assert (daysIn m y <= 31) as H31 by (unfold daysIn; case_month m; destruct (is_leap y); vm_compute; congruence).
  set (s := second_of_day t) in *.
  assert (0 <= s / 3600 <= 23 ∧ 0 <= s / 60 mod 60 <= 59 ∧ 0 <= s mod 60 <= 59) as (H1 & H2 & H3) by (repeat split; zdm).
  unfold ParseRFC3339. rewrite getyear_zpad by lia. cbn [mbind option_bind].
  do 5 (rewrite skip_byte_lit; cbn [mbind option_bind]; rewrite getnum_zpad by lia; cbn [mbind option_bind]).
  change (getfraction "Z") with (0, "Z"). cbn [getzone mbind option_bind].
  change ("" =? "")%string with true. cbn [negb orb].
  repeat match goal with |- context [?a <? ?b] => destruct (Z.ltb_spec a b); [lia|] end.
  repeat match goal with |- context [?a <=? ?b] => destruct (Z.leb_spec a b); [lia|] end.
  cbn -[Z.mul Z.add]. f_equal. unfold Date. rewrite day_of_civil_month by lia. rewrite <- Ed.
  unfold stored_time, TruncateTime, midnight, day_of, s, second_of_day, ns_per_day, Second. clear. zdm.
Qed.

(** [time.Duration]'s [String] and [Round], as error texts use them. *)

Local Open Scope Z_scope.

Fixpoint trim_zeros (s : string) : string :=
  match s with
  | EmptyString => EmptyString
  | String c r => match trim_zeros r with EmptyString => if Ascii.eqb c "0" then EmptyString else String c EmptyString | t => String c t end
  end.

(** fmtFrac: the fraction of [v / 10^prec] without trailing zeros. *)
Definition fmtFrac (v : Z) (prec : nat) : string :=
  match trim_zeros (zpad prec (v mod 10 ^ Z.of_nat prec)) with EmptyString => "" | t => "." +:+ t end.

Definition print_nonneg (z : Z) : string := print_N (Z.to_N z).

Definition micro_sign : string := String "194" (String "181" EmptyString).

Definition DurationString (d : Duration) : string :=
  let u := Z.abs d in
  let text :=
    if u =? 0 then "0s"
    else if u <? 1000 then print_nonneg u +:+ "ns"
    else if u <? Millisecond then print_nonneg (u / 1000) +:+ (fmtFrac u 3 +:+ (micro_sign +:+ "s"))
    else if u <? Second then print_nonneg (u / Millisecond) +:+ (fmtFrac u 6 +:+ "ms")
    else
      let s := u / Second in
      let secs := print_nonneg (s mod 60) +:+ (fmtFrac u 9 +:+ "s") in
      let m := s / 60 in
      if m =? 0 then secs
      else
        let mins := print_nonneg (m mod 60) +:+ ("m" +:+ secs) in
        let h := m / 60 in
        if h =? 0 then mins else print_nonneg h +:+ ("h" +:+ mins) in
  if d <? 0 then "-" +:+ text else text.

(** d.Round(m): to the nearest multiple, halves away from zero. *)
Definition RoundDuration (d m : Duration) : Duration :=
  if m <=? 0 then d
  else
    let r := Z.rem d m in
    if d <? 0 then (if (- r) + (- r) <? m then d - r else d - r - m)
    else if r + r <? m then d - r else d - r + m.

Lemma duration_examples :
  map DurationString [0; 1; 1500; 250 * Millisecond; 90 * Second; 15 * Minute; 2 * Hour + 1500 * Millisecond; - Second] =
  ["0s"; "1ns"; "1.5" +:+ (micro_sign +:+ "s"); "250ms"; "1m30s"; "15m0s"; "2h0m1.5s"; "-1s"].
Proof. vm_compute. reflexivity. Qed.
