(* ===== verification/ChannelHealth.v ===== *)
(** Channel health: internal/gateway/channelhealth.go.

    Each replica keeps the newest success and the newest failures of every
    channel path over a rolling window; the controller reads them per
    namespace.  The theorem compares what a snapshot reports with the whole
    history of what was recorded. *)

From stdpp Require Import base gmap list strings option fin_maps sorting.
From Stdlib Require Import ZArith Lia Ascii.
From S2P Require Import Prelude GoFloat GoTime Auth RateLimit Activity Json JsonString ProblemList Rfc3339.

Definition healthReasonWebhookReady : string := "WebhookReady".
Definition healthReasonAuthFailed : string := "WebhookAuthFailed".
Definition healthReasonAgentNotReady : string := "AgentNotReady".
Definition healthReasonDispatchFailed : string := "DispatchFailed".
Definition healthReasonCallbackInvalid : string := "CallbackInvalid".
Definition healthReasonCallbackRejected : string := "CallbackRejected".

Record healthObservation := mk_observation {
  o_success : bool;
  o_reason : string;
  o_lastError : string;
  o_at : Time;
}.

Record pathObservations := mk_path_observations {
  p_success : option healthObservation;
  p_failures : list healthObservation;
}.

Record ChannelHealthStore := mk_health {
  h_window : Duration;
  h_startedAt : Time;
  observations : gmap string pathObservations;
  lastPrune : Time;
}.

Definition maxChannelObservations : nat := 256.

Definition NewChannelHealthStore (window : Duration) (now : Time) : ChannelHealthStore :=
  mk_health (if (window =? 0)%Z then (5 * Minute)%Z else window) now ∅ 0%Z.

(** ** Recording *)

Definition after (cutoff : Time) (o : healthObservation) : bool := After (o_at o) cutoff.

Definition success_in (cutoff : Time) (p : pathObservations) : option healthObservation :=
  match p_success p with Some o => if after cutoff o then Some o else None | None => None end.

Definition inWindow (p : pathObservations) (cutoff : Time) : bool :=
  bool_decide (is_Some (success_in cutoff p)) || existsb (after cutoff) (rev (p_failures p)).

Definition pruneLocked (c : ChannelHealthStore) (now : Time) : ChannelHealthStore :=
  let cutoff := (now - h_window c)%Z in
  mk_health (h_window c) (h_startedAt c) (filter (λ kv, inWindow kv.2 cutoff = true) (observations c)) now.

(** The failures kept before a new one is appended. *)
Definition room (kept : list healthObservation) : list healthObservation :=
  if (maxChannelObservations <=? length kept)%nat then drop (length kept - (maxChannelObservations - 1)) kept else kept.

(** What a path's record becomes. *)
Definition observe (cutoff : Time) (obs : healthObservation) (p : pathObservations) : pathObservations :=
  let success := success_in cutoff p in
  if o_success obs then
    match success with
    | Some s => if Before (o_at obs) (o_at s) then mk_path_observations success (p_failures p) else mk_path_observations (Some obs) (p_failures p)
    | None => mk_path_observations (Some obs) (p_failures p)
    end
  else mk_path_observations success (room (filter (λ o, after cutoff o = true) (p_failures p)) ++ [obs]).

Definition no_observations : pathObservations := mk_path_observations None [].

(** [now] is the clock read under the lock. *)
Definition record (c : ChannelHealthStore) (now : Time) (path : string) (obs : healthObservation) : ChannelHealthStore :=
  let c := if (h_window c <=? Sub now (lastPrune c))%Z then pruneLocked c now else c in
  let p := default no_observations (observations c !! path) in
  mk_health (h_window c) (h_startedAt c) (<[path := observe (now - h_window c)%Z obs p]> (observations c)) (lastPrune c).

(** [at_] is the clock read before the lock. *)
Definition RecordSuccess (c : ChannelHealthStore) (at_ now : Time) (path : string) : ChannelHealthStore :=
  record c now path (mk_observation true healthReasonWebhookReady "" at_).

Definition RecordFailure (c : ChannelHealthStore) (at_ now : Time) (path reason lastError : string) : ChannelHealthStore :=
  record c now path (mk_observation false reason (str (Truncate (bs lastError) MaxNoteBytes)) at_).

(** ** Reporting *)

Record channelHealthEntry := mk_health_entry {
  he_State : string;
  he_Reason : option string;
  he_Timestamp : option string;
  he_LastError : option string;
}.

Record channelHealthResponse := mk_health_response {
  WindowSeconds : Z;
  ReplicaStartedAt : Time;
  Channels : gmap string channelHealthEntry;
}.

(** The newest failure in the window, the first of several at one time. *)
Definition later_failure (cutoff : Time) (last : option healthObservation) (o : healthObservation) : option healthObservation :=
  if after cutoff o && match last with None => true | Some l => After (o_at o) (o_at l) end then Some o else last.

Definition lastFailure (cutoff : Time) (p : pathObservations) : option healthObservation := foldl (later_failure cutoff) None (p_failures p).

(** [None] is the nil dereference of a path with nothing in the window. *)
Definition healthEntry (cutoff : Time) (p : pathObservations) : option channelHealthEntry :=
  match success_in cutoff p with
  | Some s =>
      Some (mk_health_entry "success" (Some (o_reason s)) (Some (RFC3339 (o_at s)))
        (match lastFailure cutoff p with
         | Some f => if (o_lastError f =? "")%string then None else Some (o_lastError f)
         | None => None
         end))
  | None =>
      match lastFailure cutoff p with
      | Some f => Some (mk_health_entry "failure" (Some (o_reason f)) (Some (RFC3339 (o_at f))) (Some (o_lastError f)))
      | None => None
      end
  end.

(** The store after the sweep, and the response; [None] is a panic. *)
Definition Snapshot (c : ChannelHealthStore) (now : Time) (namespace : string) : ChannelHealthStore * option channelHealthResponse :=
  let c := pruneLocked c now in
  let prefix := "/channels/" +:+ (namespace +:+ "/") in
  let entries := healthEntry (now - h_window c)%Z <$> filter (λ kv, HasPrefix kv.1 prefix = true) (observations c) in
  (c, if decide (map_Forall (λ _ e, is_Some e) entries)
      then Some (mk_health_response (int64_of_f64 (Seconds (h_window c))) (h_startedAt c) (omap id entries))
      else None).

Definition handleChannelsHealth (c : ChannelHealthStore) (now : Time) (method namespace : string)
  : ChannelHealthStore * option (channelHealthResponse + error_response) :=
  if negb (method =? "GET")%string then (c, Some (inr (methodNotAllowed "GET")))
  else if (namespace =? "")%string then (c, Some (inr (badRequest "namespace query parameter is required")))
  else let '(c, r) := Snapshot c now namespace in (c, inl <$> r).

(** ** What was recorded *)

Inductive health_op :=
  | HSuccess (at_ now : Time) (path : string)
  | HFailure (at_ now : Time) (path reason lastError : string)
  | HSnapshot (now : Time) (namespace : string).

Definition op_now (op : health_op) : Time :=
  match op with HSuccess _ now _ | HFailure _ now _ _ _ | HSnapshot now _ => now end.

Definition health_step (c : ChannelHealthStore) (op : health_op) : ChannelHealthStore :=
  match op with
  | HSuccess at_ now path => RecordSuccess c at_ now path
  | HFailure at_ now path reason lastError => RecordFailure c at_ now path reason lastError
  | HSnapshot now namespace => (Snapshot c now namespace).1
  end.

Definition health_run (c : ChannelHealthStore) (ops : list health_op) : ChannelHealthStore := foldl health_step c ops.

(** The observations of a path, in the order they were recorded. *)
Definition observed (path : string) (op : health_op) : option healthObservation :=
  match op with
  | HSuccess at_ _ p => if decide (p = path) then Some (mk_observation true healthReasonWebhookReady "" at_) else None
  | HFailure at_ _ p reason lastError =>
      if decide (p = path) then Some (mk_observation false reason (str (Truncate (bs lastError) MaxNoteBytes)) at_) else None
  | HSnapshot _ _ => None
  end.

Definition history (path : string) (ops : list health_op) : list healthObservation := omap (observed path) ops.

(** The clock does not run back between two operations. *)
Fixpoint clocked (t : Time) (ops : list health_op) (now : Time) : Prop :=
  match ops with [] => (t <= now)%Z | op :: ops => (t <= op_now op)%Z ∧ clocked (op_now op) ops now end.

Definition failures_of (l : list healthObservation) : list healthObservation := filter (λ o, o_success o = false) l.
Definition successes_of (l : list healthObservation) : list healthObservation := filter (λ o, o_success o = true) l.
Definition older (o o' : healthObservation) : Prop := (o_at o <= o_at o')%Z.

(** The newest observation of a list after the cutoff. *)
Definition newest (cutoff : Time) (l : list healthObservation) (o : healthObservation) : Prop :=
  o ∈ l ∧ after cutoff o = true ∧ ∀ o', o' ∈ l → after cutoff o' = true → older o' o.
Definition none_after (cutoff : Time) (l : list healthObservation) : Prop := ∀ o, o ∈ l → after cutoff o = false.

(** The failures of a path were recorded in the order of their times: no
    delivery was held up between reading the clock and taking the lock for
    as long as a later one took for both. *)
Definition failures_in_order (l : list healthObservation) : Prop := StronglySorted older (failures_of l).

(** ** The invariant of a path *)

Section path_inv.
Context (cutoff : Time) (l : list healthObservation) (p : pathObservations).

Record path_inv : Prop := mk_path_inv {
  pi_success : ∀ s, p_success p = Some s → s ∈ successes_of l;
  pi_newest : ∀ o, o ∈ successes_of l → after cutoff o = true → ∃ s, p_success p = Some s ∧ older o s;
  pi_failures : ∀ o, o ∈ p_failures p → o ∈ failures_of l;
  pi_last : failures_in_order l → ∀ o, o ∈ failures_of l → after cutoff o = true → last (p_failures p) = last (failures_of l);
  pi_bound : (length (p_failures p) ≤ maxChannelObservations)%nat;
}.
End path_inv.

Lemma after_mono c c' o : (c <= c')%Z → after c' o = true → after c o = true.
Proof. unfold after, After, Time. rewrite !Z.ltb_lt. lia. Qed.

Lemma after_older c o o' : older o o' → after c o = true → after c o' = true.
Proof. unfold after, After, older, Time. rewrite !Z.ltb_lt. lia. Qed.

Lemma elem_successes o l : o ∈ successes_of l ↔ o_success o = true ∧ o ∈ l.
Proof. unfold successes_of, failures_of. by rewrite list_elem_of_filter. Qed.
Lemma elem_failures o l : o ∈ failures_of l ↔ o_success o = false ∧ o ∈ l.
Proof. unfold successes_of, failures_of. by rewrite list_elem_of_filter. Qed.

Lemma successes_snoc l o : successes_of (l ++ [o]) = successes_of l ++ (if o_success o then [o] else []).
Proof. unfold successes_of. rewrite filter_app. f_equal. rewrite filter_cons, filter_nil. by destruct (o_success o). Qed.
Lemma failures_snoc l o : failures_of (l ++ [o]) = failures_of l ++ (if o_success o then [] else [o]).
Proof. unfold failures_of. rewrite filter_app. f_equal. rewrite filter_cons, filter_nil. by destruct (o_success o). Qed.

Lemma sorted_last l o z : StronglySorted older l → o ∈ l → last l = Some z → older o z.
Proof.
  intros Hs Ho Hz. apply last_Some in Hz as [l' ->]. apply elem_of_app in Ho as [Ho| ->%list_elem_of_singleton]; [|unfold older; lia].
  revert Hs. induction l' as [|x l' IH]; [by apply not_elem_of_nil in Ho|]. intros Hs. inversion Hs as [|?? Hs' Hf]; subst.
  apply elem_of_cons in Ho as [->|Ho]; [|by apply IH]. rewrite Forall_forall in Hf. apply Hf, elem_of_app. right. by apply list_elem_of_singleton.
Qed.

Lemma sorted_prefix l o : StronglySorted older (l ++ [o]) → StronglySorted older l.
Proof.
  induction l as [|x l IH]; [constructor|]. inversion 1 as [|?? Hs Hf]; subst. constructor; [by apply IH|].
  by apply Forall_app in Hf as [? _].
Qed.

Lemma in_order_prefix l o : failures_in_order (l ++ [o]) → failures_in_order l.
Proof.
  unfold failures_in_order. rewrite failures_snoc. destruct (o_success o); [by rewrite List.app_nil_r|apply sorted_prefix].
Qed.

Lemma success_in_Some cutoff p s : success_in cutoff p = Some s ↔ p_success p = Some s ∧ after cutoff s = true.
Proof.
  unfold success_in. destruct (p_success p) as [o|]; [|split; [done|by intros [? _]]].
  destruct (after cutoff o) eqn:E; (split; [intros [= <-]|intros [[= <-] H]]); congruence || done.
Qed.

Lemma inWindow_true p cutoff : inWindow p cutoff = true ↔
  is_Some (success_in cutoff p) ∨ ∃ o, o ∈ p_failures p ∧ after cutoff o = true.
Proof.
  unfold inWindow. rewrite orb_true_iff, bool_decide_eq_true, existsb_exists. f_equiv. f_equiv. intros o.
  by rewrite <- in_rev, list_elem_of_In.
Qed.

#[export] Hint Resolve after_mono after_older : kaalm.

Lemma path_inv_later c c' l p : (c <= c')%Z → path_inv c l p → path_inv c' l p.
Proof. intros Hc [H1 H2 H3 H4 H5]. split; try done; intros; [eapply H2|eapply H4]; eauto using after_mono. Qed.

Lemma path_inv_pruned c l p : path_inv c l p → inWindow p c = false → path_inv c l no_observations.
Proof.
  intros [H1 H2 H3 H4 H5] Hw. split; cbn; try done.
  - intros o Ho Ha. destruct (H2 o Ho Ha) as (s & Hs & Hle). exfalso. apply (eq_true_false_abs (inWindow p c)); [|done].
    apply inWindow_true. left. exists s. apply success_in_Some. eauto using after_older.
  - intros o Ho. by apply not_elem_of_nil in Ho.
  - intros Hord o Ho Ha. exfalso. apply (eq_true_false_abs (inWindow p c)); [|done]. apply inWindow_true. right.
    specialize (H4 Hord o Ho Ha). destruct (last (failures_of l)) as [z|] eqn:Ez.
    + exists z. split; [|eauto using after_older, sorted_last]. apply last_Some in H4 as [l' ->]. apply elem_of_app. right. by apply list_elem_of_singleton.
    + apply last_None in Ez. rewrite Ez in Ho. by apply not_elem_of_nil in Ho.
  - unfold maxChannelObservations. lia.
Qed.

Lemma room_spec (kept : list healthObservation) : (∀ o, o ∈ room kept → o ∈ kept) ∧ (length (room kept) < maxChannelObservations)%nat.
Proof.
  unfold room. destruct (Nat.leb_spec maxChannelObservations (length kept)) as [Hle|Hlt]; (split; [|rewrite ?length_drop; unfold maxChannelObservations in *; lia]).
  - intros o Ho. rewrite <- (take_drop (length kept - (maxChannelObservations - 1)) kept). apply elem_of_app. by right.
  - done.
Qed.

Lemma observe_inv c l p o : path_inv c l p → path_inv c (l ++ [o]) (observe c o p).
Proof.
  intros [H1 H2 H3 H4 H5]. unfold observe. destruct (o_success o) eqn:Eo.
  - assert (∀ s, success_in c p = Some s → s ∈ successes_of l ∧ ∀ x, x ∈ successes_of l → after c x = true → older x s) as Hin.
    { intros s [Hs Ha]%success_in_Some. split; [by apply H1|]. intros x Hx Hxa. destruct (H2 x Hx Hxa) as (s' & Hs' & Hle). congruence. }
    assert (success_in c p = None → ∀ x, x ∈ successes_of l → after c x = false) as Hnone.
    { intros Hn x Hx. apply not_true_iff_false. intros Ha. destruct (H2 x Hx Ha) as (s & Hs & Hle).
      assert (success_in c p = Some s) by (apply success_in_Some; eauto using after_older). congruence. }
    assert (∀ s', (∀ s, success_in c p = Some s → older s s') → older o s' → (s' = o ∨ success_in c p = Some s') →
              path_inv c (l ++ [o]) (mk_path_observations (Some s') (p_failures p))) as Hnew.
    { intros s' Hall Ho Hs'. split; cbn; rewrite ?successes_snoc, ?failures_snoc, ?Eo, ?List.app_nil_r; try done.
      - intros s [= ->]. apply elem_of_app. destruct Hs' as [->|Hs']; [right; by apply list_elem_of_singleton|left; by apply Hin].
      - intros x [Hx| ->%list_elem_of_singleton]%elem_of_app Ha; exists s'; (split; [done|]); [|done].
        destruct (success_in c p) as [s|] eqn:Es; [|by rewrite (Hnone eq_refl x Hx) in Ha].
        destruct (Hin s eq_refl) as [_ Hmax]. specialize (Hmax x Hx Ha). specialize (Hall s eq_refl). unfold older in *. lia.
      - intros Hord. apply H4. by apply in_order_prefix in Hord. }
    destruct (success_in c p) as [s|] eqn:Es.
    + unfold Before. destruct (Z.ltb_spec (o_at o) (o_at s));
        (apply Hnew; [intros ? [= <-]; unfold older; lia|unfold older; lia|auto]).
    + apply Hnew; [done|unfold older; lia|by left].
  - set (kept := filter (λ o0, after c o0 = true) (p_failures p)). destruct (room_spec kept) as [Hroom Hlen].
    split; cbn; rewrite ?successes_snoc, ?failures_snoc, ?Eo, ?List.app_nil_r.
    + intros s [Hs _]%success_in_Some. by apply H1.
    + intros x Hx Ha. destruct (H2 x Hx Ha) as (s & Hs & Hle). exists s. split; [|done]. apply success_in_Some. eauto using after_older.
    + intros x [Hx| ->%list_elem_of_singleton]%elem_of_app; apply elem_of_app; [left|right; by apply list_elem_of_singleton].
      apply H3. by apply Hroom, list_elem_of_filter in Hx as [_ ?].
    + intros _ x _ _. by rewrite !last_snoc.
    + rewrite length_app. cbn. lia.
Qed.

(** ** The invariant of the store *)

Definition record_of (c : ChannelHealthStore) (path : string) : pathObservations := default no_observations (observations c !! path).

Definition health_inv (c : ChannelHealthStore) (t : Time) (ops : list health_op) : Prop :=
  ∀ path, path_inv (t - h_window c)%Z (history path ops) (record_of c path).

Lemma prune_lookup c now path : observations (pruneLocked c now) !! path =
  match observations c !! path with Some p => if inWindow p (now - h_window c)%Z then Some p else None | None => None end.
Proof.
  unfold pruneLocked. cbn. rewrite map_lookup_filter. destruct (observations c !! path) as [p|]; [|done]. cbn.
  destruct (inWindow p _) eqn:E; [by rewrite option_guard_True|by rewrite option_guard_False by done].
Qed.

Lemma prune_inv c t now ops : health_inv c t ops → (t <= now)%Z → health_inv (pruneLocked c now) now ops.
Proof.
  intros Hinv Ht path. specialize (Hinv path). apply (path_inv_later _ (now - h_window c)%Z) in Hinv; [|unfold Time, Duration in *; lia].
  unfold record_of in *. rewrite prune_lookup. cbn [h_window pruneLocked] in *. destruct (observations c !! path) as [p|] eqn:Ep; [|done].
  cbn in Hinv. destruct (inWindow p _) eqn:E; [done|by eapply path_inv_pruned].
Qed.

Lemma history_snoc path ops op : history path (ops ++ [op]) = history path ops ++ match observed path op with Some o => [o] | None => [] end.
Proof. unfold history. by rewrite omap_app. Qed.

Lemma record_inv c t now path obs ops op :
  health_inv c t ops → (t <= now)%Z → observed path op = Some obs → (∀ path', path' ≠ path → observed path' op = None) →
  health_inv (record c now path obs) now (ops ++ [op]).
Proof.
  intros Hinv Ht Hop Hother. unfold record.
  set (c' := if (h_window c <=? Sub now (lastPrune c))%Z then pruneLocked c now else c).
  assert (health_inv c' now ops) as Hinv'.
  { unfold c'. destruct (_ <=? _)%Z; [by eapply prune_inv|]. intros path'. eapply path_inv_later; [|apply Hinv]. unfold Time, Duration in *. lia. }
  clearbody c'. intros path'. specialize (Hinv' path'). unfold record_of in *. cbn [observations h_window]. rewrite history_snoc.
  destruct (decide (path' = path)) as [->|Hne].
  - rewrite lookup_insert_eq, Hop. cbn. by apply observe_inv.
  - rewrite lookup_insert_ne, (Hother path'), List.app_nil_r by done. done.
Qed.

Lemma step_inv c t ops op : health_inv c t ops → (t <= op_now op)%Z → health_inv (health_step c op) (op_now op) (ops ++ [op]).
Proof.
  intros Hinv Ht. destruct op as [at_ now path|at_ now path reason lastError|now ns]; cbn [health_step op_now] in *.
  - eapply record_inv; [done|done|cbn; by rewrite decide_True|intros; cbn; by rewrite decide_False].
  - eapply record_inv; [done|done|cbn; by rewrite decide_True|intros; cbn; by rewrite decide_False].
  - intros path. rewrite history_snoc. cbn [observed]. rewrite List.app_nil_r. by eapply prune_inv.
Qed.

Lemma run_inv c t ops ops' now : health_inv c t ops → clocked t ops' now → health_inv (health_run c ops') now (ops ++ ops').
Proof.
  revert c t ops. induction ops' as [|op ops' IH]; intros c t ops Hinv.
  - cbn. intros Ht path. rewrite List.app_nil_r. eapply path_inv_later; [|apply Hinv]. unfold Time, Duration in *. lia.
  - cbn [clocked]. intros [Ht Hc]. rewrite (cons_middle op ops ops'), (List.app_assoc ops [op]). by eapply IH; [eapply step_inv|].
Qed.

Lemma new_inv w t0 t : health_inv (NewChannelHealthStore w t0) t [].
Proof.
  intros path. unfold record_of, NewChannelHealthStore. cbn. rewrite lookup_empty. cbn.
  split; cbn; try done; try (intros; exfalso; by eapply not_elem_of_nil). unfold maxChannelObservations. lia.
Qed.

(** ** The snapshot *)

Lemma lastFailure_spec cutoff p : match lastFailure cutoff p with
  | Some f => newest cutoff (p_failures p) f
  | None => none_after cutoff (p_failures p)
  end.
Proof.
  unfold lastFailure. induction (p_failures p) as [|o l IH] using rev_ind; [intros o Ho; by apply not_elem_of_nil in Ho|].
  rewrite foldl_app. cbn. unfold later_failure at 1. destruct (foldl _ None l) as [f|].
  - destruct IH as (Hin & Ha & Hmax). destruct (after cutoff o) eqn:Eo; cbn; [unfold After; destruct (Z.ltb_spec (o_at f) (o_at o))|];
      (split_and!; [try (apply elem_of_app; left; done); try (apply elem_of_app; right; by apply list_elem_of_singleton)|done|]).
    all: intros x [Hx| ->%list_elem_of_singleton]%elem_of_app Hxa; [|unfold older; lia || congruence].
    all: specialize (Hmax x Hx Hxa); unfold older in *; lia.
  - destruct (after cutoff o) eqn:Eo; cbn.
    + split_and!; [apply elem_of_app; right; by apply list_elem_of_singleton|done|].
      intros x [Hx| ->%list_elem_of_singleton]%elem_of_app Hxa; [by rewrite (IH x Hx) in Hxa|unfold older; lia].
    + intros x [Hx| ->%list_elem_of_singleton]%elem_of_app; [by apply IH|done].
Qed.

Lemma healthEntry_is_Some cutoff p : inWindow p cutoff = true → is_Some (healthEntry cutoff p).
Proof.
  intros [[s Hs]|(o & Ho & Ha)]%inWindow_true; unfold healthEntry; [rewrite Hs; eauto|].
  destruct (success_in cutoff p); [eauto|]. pose proof (lastFailure_spec cutoff p) as Hf.
  destruct (lastFailure cutoff p); [eauto|]. by rewrite (Hf o Ho) in Ha.
Qed.

Definition health_prefix (namespace : string) : string := "/channels/" +:+ (namespace +:+ "/").

(** The snapshot does not dereference nil, and reports the entry of every
    record of the namespace that is in the window. *)
Lemma Snapshot_entries c now ns : ∃ r, (Snapshot c now ns).2 = Some r ∧
  ∀ path, Channels r !! path =
    if HasPrefix path (health_prefix ns) && inWindow (record_of c path) (now - h_window c)%Z
    then healthEntry (now - h_window c)%Z (record_of c path) else None.
Proof.
  unfold Snapshot. cbn [snd]. fold (health_prefix ns). set (entries := _ <$> filter _ _).
  assert (∀ path, entries !! path = if HasPrefix path (health_prefix ns) && inWindow (record_of c path) (now - h_window c)%Z
    then Some (healthEntry (now - h_window c)%Z (record_of c path)) else None) as He.
  { intros path. unfold entries. rewrite lookup_fmap, map_lookup_filter, prune_lookup. unfold record_of.
    destruct (observations c !! path) as [p|]; cbn [from_option id];
      [|assert (inWindow no_observations (now - h_window c)%Z = false) as -> by done; by rewrite andb_false_r].
    destruct (inWindow p _); [|by rewrite andb_false_r]. rewrite andb_true_r. cbn [mbind option_bind fst].
    destruct (HasPrefix path (health_prefix ns)) eqn:E;
      [rewrite option_guard_True by done; reflexivity|rewrite option_guard_False by discriminate; reflexivity]. }
  clearbody entries. rewrite decide_True.
  - eexists. split; [done|]. intros path. cbn [Channels]. rewrite lookup_omap, He. by destruct (_ && _).
  - intros path e Hp. rewrite He in Hp. destruct (HasPrefix _ _ && inWindow _ _) eqn:E; [|done]. simplify_eq.
    apply andb_true_iff in E as [_ E]. by apply healthEntry_is_Some.
Qed.

(** ** What a snapshot says of the history *)

Section claims.
Context (cutoff : Time) (l : list healthObservation) (p : pathObservations).
Hypothesis Hinv : path_inv cutoff l p.

Lemma success_reported s : newest cutoff (successes_of l) s → ∃ s', success_in cutoff p = Some s' ∧ o_at s' = o_at s ∧ s' ∈ successes_of l.
Proof using Hinv.
  intros (Hin & Ha & Hmax). destruct (pi_newest _ _ _ Hinv s Hin Ha) as (s' & Hs' & Hle).
  pose proof (pi_success _ _ _ Hinv _ Hs') as Hin'. exists s'. split; [apply success_in_Some; eauto using after_older|]. split; [|done].
  assert (older s' s) by eauto using after_older. unfold older in *. lia.
Qed.

Lemma no_success_reported : none_after cutoff (successes_of l) → success_in cutoff p = None.
Proof using Hinv.
  intros Hno. destruct (success_in cutoff p) as [s|] eqn:E; [|done]. apply success_in_Some in E as [Hs Ha].
  by rewrite (Hno s (pi_success _ _ _ Hinv _ Hs)) in Ha.
Qed.

Lemma failure_reported : failures_in_order l → match lastFailure cutoff p with
  | Some f => newest cutoff (failures_of l) f
  | None => none_after cutoff (failures_of l)
  end.
Proof using Hinv.
  intros Hord. pose proof (lastFailure_spec cutoff p) as Hf. pose proof (pi_last _ _ _ Hinv Hord) as Hlast.
  assert (∀ o, o ∈ failures_of l → after cutoff o = true → ∃ z, z ∈ p_failures p ∧ older o z ∧ after cutoff z = true) as Hz.
  { intros o Ho Ha. specialize (Hlast o Ho Ha). destruct (last (failures_of l)) as [z|] eqn:Ez.
    - exists z. assert (older o z) by by eapply sorted_last. split_and!; [|done|by eapply after_older].
      apply last_Some in Hlast as [l' ->]. apply elem_of_app. right. by apply list_elem_of_singleton.
    - apply last_None in Ez. rewrite Ez in Ho. by apply not_elem_of_nil in Ho. }
  destruct (lastFailure cutoff p) as [f|].
  - destruct Hf as (Hin & Ha & Hmax). split_and!; [by apply (pi_failures _ _ _ Hinv)|done|].
    intros o Ho Hoa. destruct (Hz o Ho Hoa) as (z & Hzin & Hle & Hza). specialize (Hmax z Hzin Hza). unfold older in *. lia.
  - intros o Ho. apply not_true_iff_false. intros Hoa. destruct (Hz o Ho Hoa) as (z & Hzin & _ & Hza). by rewrite (Hf z Hzin) in Hza.
Qed.
End claims.

Lemma history_success path ops s : s ∈ successes_of (history path ops) → o_reason s = healthReasonWebhookReady.
Proof.
  unfold history. intros [Hs (op & Hin & Hop)%list_elem_of_omap]%elem_successes. destruct op; cbn in Hop; [..|done];
    destruct (decide _); by simplify_eq/=.
Qed.

Definition health_cutoff (window : Duration) (now : Time) : Time := (now - (if (window =? 0)%Z then 5 * Minute else window))%Z.

Lemma run_window c ops : h_window (health_run c ops) = h_window c.
Proof.
  revert c. induction ops as [|op ops IH]; [done|]. intros c. cbn. rewrite IH.
  destruct op; cbn; unfold record; cbn; try destruct (_ <=? _)%Z; done.
Qed.

(** A snapshot is what the whole history of a replica says of the window,
    although the store keeps one success and 256 failures a path and sweeps:
    it never dereferences nil; a channel with a success in the window is
    reported healthy with the time of the newest one, whatever failures were
    recorded and in whatever order; without one, the channel is reported
    failed with the newest failure in the window, or not at all when there is
    none; and no other namespace's channel is reported. *)
Theorem health_snapshot_exact w t0 ops now ns :
  clocked t0 ops now →
  ∃ r, (Snapshot (health_run (NewChannelHealthStore w t0) ops) now ns).2 = Some r ∧
  ∀ path, let l := history path ops in let cutoff := health_cutoff w now in
    (HasPrefix path (health_prefix ns) = false → Channels r !! path = None) ∧
    (HasPrefix path (health_prefix ns) = true →
      (∀ s, newest cutoff (successes_of l) s → ∃ lastError,
         Channels r !! path = Some (mk_health_entry "success" (Some healthReasonWebhookReady) (Some (RFC3339 (o_at s))) lastError)) ∧
      (none_after cutoff (successes_of l) → failures_in_order l →
         (∃ f, newest cutoff (failures_of l) f ∧
            Channels r !! path = Some (mk_health_entry "failure" (Some (o_reason f)) (Some (RFC3339 (o_at f))) (Some (o_lastError f)))) ∨
         (none_after cutoff (failures_of l) ∧ Channels r !! path = None))).
Proof.
  intros Hc. set (c := health_run _ ops). destruct (Snapshot_entries c now ns) as (r & Hr & Hentry). exists r. split; [done|].
  intros path l cutoff. rewrite Hentry. clear Hr Hentry.
  assert (path_inv cutoff l (record_of c path)) as Hinv.
  { pose proof (run_inv _ t0 [] ops now (new_inv w t0 t0) Hc path) as H. unfold c in *. rewrite run_window in H. done. }
  assert ((now - h_window c)%Z = cutoff) as -> by (unfold c; rewrite run_window; done).
  split; [by intros ->|intros ->]. cbn [andb]. split.
  - intros s Hs. destruct (success_reported _ _ _ Hinv s Hs) as (s' & Hs' & Hat & Hin).
    assert (inWindow (record_of c path) cutoff = true) as -> by (apply inWindow_true; left; eauto).
    unfold healthEntry. rewrite Hs', Hat, (history_success _ _ _ Hin). eauto.
  - intros Hno Hord. pose proof (failure_reported _ _ _ Hinv Hord) as Hf. pose proof (no_success_reported _ _ _ Hinv Hno) as Hn.
    unfold healthEntry. rewrite Hn. destruct (lastFailure cutoff (record_of c path)) as [f|] eqn:Ef.
    + left. exists f. split; [done|]. assert (inWindow (record_of c path) cutoff = true) as ->; [|done].
      apply inWindow_true. right. exists f. pose proof (lastFailure_spec cutoff (record_of c path)) as Hs. rewrite Ef in Hs. by destruct Hs as (? & ? & _).
    + right. split; [done|]. by destruct (inWindow _ _).
Qed.

Local Open Scope Z_scope.

(** A failure after a success, a path of another namespace, a success
    that arrives late. *)
Definition example_ops : list health_op :=
  [HSuccess 100 101 "/channels/a/in"; HFailure 102 102 "/channels/a/in" healthReasonAuthFailed "401";
   HFailure 103 103 "/channels/b/in" healthReasonDispatchFailed "refused"; HSuccess 99 104 "/channels/a/in";
   HFailure 105 105 "/channels/a/out" healthReasonAgentNotReady "no Agent"].

Lemma health_snapshot_exact_witness :
  clocked 50 example_ops 200 ∧
  ∃ r, (Snapshot (health_run (NewChannelHealthStore 0 50) example_ops) 200 "a").2 = Some r ∧
    Channels r !! "/channels/b/in" = None ∧
    ∃ e, Channels r !! "/channels/a/in" = Some (mk_health_entry "success" (Some healthReasonWebhookReady) (Some (RFC3339 100)) e).
Proof.
  assert (clocked 50 example_ops 200) as Hc by (cbn; lia). split; [done|].
  destruct (health_snapshot_exact 0 50 example_ops 200 "a" Hc) as (r & Hr & Hpath). exists r. split; [exact Hr|]. split.
  - by apply (Hpath "/channels/b/in").
  - destruct (Hpath "/channels/a/in") as [_ Hin]. destruct (Hin eq_refl) as [Hs _].
    apply (Hs (mk_observation true healthReasonWebhookReady "" 100)).
    split_and!; [apply elem_of_cons; by left|vm_compute; reflexivity|].
    intros o Ho _. assert (o_at o = 100%Z ∨ o_at o = 99%Z) as Hat; [|clear -Hat; unfold older; cbn [o_at]; lia].
    assert (successes_of (history "/channels/a/in" example_ops) =
      [mk_observation true healthReasonWebhookReady "" 100; mk_observation true healthReasonWebhookReady "" 99]) as E by (vm_compute; reflexivity).
    rewrite E in Ho. rewrite !elem_of_cons in Ho. destruct Ho as [->|[->|Ho]]; [left; reflexivity|right; reflexivity|].
    exfalso. exact (not_elem_of_nil _ Ho).
Defined.
