(* ===== verification/Delivery.v ===== *)
(** Delivery of a message to its Agent: internal/gateway/user.go
    (ControllerActivator, wakeAndDeliver to deliverOnce) and
    pipeline_bound.go.

    A computation is a function of the world: the clock, the Pod wait slots,
    the health and activity stores, and the log of what was done.  What the
    outside does is given by the number of the call: its answer and how long
    it takes.  A call under a context that ends first fails when the context
    ends.  Spans and log lines are left out. *)

From stdpp Require Import base gmap list strings option.
From Stdlib Require Import ZArith Lia Ascii.
From S2P Require Import CallbackPolicy Prelude GoFloat GoTime Rfc3339 RateLimit Auth Activity Json JsonString JsonValue RequestBody JsonDecode UsageReader Conditions AgentLifecycle ToolMessage ChannelHealth ChannelApi Envelope PodReady.

Definition errRequestTooLarge : string := "request_too_large".
Definition errDeliveryFailed : string := "delivery_failed".
Definition errWakeTimeout : string := "wake_timeout".
Definition errControllerDown : string := "controller_unavailable".
Definition errResponseTooLarge : string := "response_too_large".
Definition errSyncDeadline : string := "sync_deadline_exceeded".
Definition errAgentNotReady : string := "agent_not_ready".

(** ** The configuration and the Agent *)

Record Config := mk_config {
  MaxMessageBodyBytes : Z;
  MaxResponseBodyBytes : Z;
  AgentReadTimeout : Duration;
  CallbackReadTimeout : Duration;
  AgentConnectTimeout : Duration;
  SyncDeliveryDeadline : Duration;
  MaxWakeTimeout : Duration;
  MaxPodWaitsPerAgent : Z;
  DeliveryBackoff : list Duration;
  CallbackBackoff : list Duration;
  AgentServiceHostOverride : string;
  AgentServicePortOverride : Z;
}.

(** The fields of an Agent delivery reads. *)
Record AgentInfo := mk_agent_info {
  ai_Namespace : string;
  ai_Name : string;
  ai_Phase : AgentPhase;
  ai_EffectiveWakeTimeout : option Duration;
  ai_WakeTimeout : Duration;
  ai_ServicePort : option Z;
}.

Definition agent_key (a : AgentInfo) : agentKey := (ai_Namespace a, ai_Name a).

Definition needsWake (phase : AgentPhase) : bool := bool_decide (phase = AgentHibernated) || bool_decide (phase = AgentHibernating).

Section bounds.
Context (cfg : Config).
Local Open Scope Z_scope.

Definition defaultMaxWakeTimeout : Duration := 15 * Minute.
Definition maxWakeTimeout : Duration := if 0 <? MaxWakeTimeout cfg then MaxWakeTimeout cfg else defaultMaxWakeTimeout.

Definition defaultMaxPodWaitsPerAgent : Z := 100.
Definition maxPodWaitsPerAgent : Z := if 0 <? MaxPodWaitsPerAgent cfg then MaxPodWaitsPerAgent cfg else defaultMaxPodWaitsPerAgent.

Definition agentWakeTimeout (a : AgentInfo) : Duration :=
  match ai_EffectiveWakeTimeout a with
  | Some e => if 0 <? e then e else if 0 <? ai_WakeTimeout a then ai_WakeTimeout a else 120 * Second
  | None => if 0 <? ai_WakeTimeout a then ai_WakeTimeout a else 120 * Second
  end.
Definition wakeTimeout (a : AgentInfo) : Duration := Z.min (agentWakeTimeout a) maxWakeTimeout.

Definition callbackReadTimeout : Duration := if 0 <? CallbackReadTimeout cfg then CallbackReadTimeout cfg else AgentReadTimeout cfg.

Definition wakePollInterval : Duration := 2 * Second.
Definition wakePollFastInterval : Duration := 250 * Millisecond.
Definition wakePollFastWindow : Duration := 5 * Second.
Definition wakeConnectTimeout : Duration := wakePollFastInterval.
Definition wakeConfirmQuickInterval : Duration := 50 * Millisecond.
Definition wakeConfirmQuickTries : nat := 6.
Definition activatorAttemptTimeout : Duration := 10 * Second.
Definition activatorWorstCase : Duration := 2 * activatorAttemptTimeout.
Definition pipelineMargin : Duration := 30 * Second.
Definition asyncResponseRequests : Z := 2.

Definition wakePollDelay (elapsed : Duration) : Duration := if elapsed <? wakePollFastWindow then wakePollFastInterval else wakePollInterval.
Definition wakeConfirmDelay (tries : nat) (sinceReady : Duration) : Duration :=
  if (tries <? wakeConfirmQuickTries)%nat then wakeConfirmQuickInterval else wakePollDelay sinceReady.

Definition retryScheduleWorstCase (backoff : list Duration) (readTimeout : Duration) : Duration :=
  foldl Z.add (Z.of_nat (length backoff + 1) * readTimeout) backoff.

(** [None] is a message whose Agent no longer exists. *)
Definition backgroundPipelineBound (a : option AgentInfo) (responseRequests : Z) : Duration :=
  pipelineMargin + responseRequests * retryScheduleWorstCase (CallbackBackoff cfg) callbackReadTimeout
  + match a with
    | Some a => activatorWorstCase + wakeTimeout a + AgentConnectTimeout cfg + retryScheduleWorstCase (DeliveryBackoff cfg) (AgentReadTimeout cfg)
    | None => 0
    end.

Definition agentServiceHost (a : AgentInfo) : string :=
  if (AgentServiceHostOverride cfg =? "")%string then ai_Name a +:+ ("." +:+ (ai_Namespace a +:+ ".svc.cluster.local")) else AgentServiceHostOverride cfg.
Definition agentServicePort (a : AgentInfo) : Z :=
  if negb (AgentServicePortOverride cfg =? 0) then AgentServicePortOverride cfg
  else match ai_ServicePort a with Some p => if negb (p =? 0) then p else 8080 | None => 8080 end.
End bounds.

(** ** Errors *)

(** What the code asks of a Go error: its chain and its text. *)
Inductive dial_stage := dialStageConnect | dialStageHandshake.

Record go_error := mk_go_error {
  ge_dns : bool;
  ge_stage : option dial_stage;
  ge_canceled : bool;
  ge_deadline : bool;
  ge_text : string;
}.

Definition plain_error (text : string) : go_error := mk_go_error false None false false text.
Definition deadline_error : go_error := mk_go_error false None false true "context deadline exceeded".

Definition Contains (s sub : string) : bool := UsageReader.contains (bs sub) (bs s).

Definition deliveryOutcome (e : go_error) : string :=
  let msg := ge_text e in
  if ge_dns e then "dns"
  else match ge_stage e with
  | Some dialStageConnect => "connect"
  | Some _ => "tls"
  | None =>
      if ge_canceled e then "canceled"
      else if ge_deadline e then "timeout"
      else if Contains msg "response body exceeded" then "too_large"
      else if Contains msg "malformed response envelope" then "malformed"
      else if HasPrefix msg "agent returned " then "status"
      else if Contains msg "tls:" || Contains msg "x509:" then "tls"
      else if Contains msg "connection refused" || Contains msg "connection reset" || Contains msg "no route to host"
              || Contains msg "network is unreachable" then "connect"
      else if Contains msg "i/o timeout" || Contains msg "Client.Timeout" then "timeout"
      else "other"
  end.

Record podWaitFailure := mk_wait_failure { wf_errType : string; wf_err : string }.

(** ** The world *)

Inductive event :=
  | EActivator
  | EPodWait
  | EPodWaitRefused
  | EAttempt (url : string) (payload : bytes)
  | EChannelMessage (channelType namespace status : string)
  | EChannelWake (namespace : string)
  | EWakeDuration (namespace outcome : string)
  | EDeliveryAttempt (namespace outcome : string)
  | EResponseTooLarge (namespace mode : string)
  | ECallbackPost (url : string) (pinned : string) (h : Header) (payload : bytes)
  | ECallbackAnswer (url : string) (pinned : string) (h : Header) (payload : bytes) (status : Z)
  | EChannelCallback (namespace outcome : string)
  | EPatch (requestID : string) (payload : bytes) (err : option string)
  | EAsyncPatchFailed (namespace : string)
  | EPlatformRequest (method url : string) (h : Header) (payload : bytes)
  | EWarning (reason action note : string).

Record world := mk_world {
  w_clock : Time;
  w_calls : nat;
  w_waits : gmap agentKey Z;
  w_health : ChannelHealthStore;
  w_activity : ActivityStore;
  w_events : list event;
}.

Inductive activator_answer := ActTransport (text : string) | ActStatus (status : Z).
Inductive post_answer := PostError (e : go_error) | PostStatus (status : Z) (body : bytes) (readErr : option go_error).

Record outside := mk_outside {
  x_activator : bool;
  x_wake : nat → activator_answer * Duration;
  x_usable : bool;
  x_ready : nat → bool;
  x_seen : nat → bool;
  x_ready_event : nat → option Duration;
  x_phase : nat → option AgentPhase;
  x_lookup : nat → option string * Duration;
  x_dial : nat → bool * Duration;
  x_post : nat → post_answer * Duration;
}.

Definition M (A : Type) : Type := world → A * world.
Definition ret {A} (a : A) : M A := λ w, (a, w).
Definition bind {A B} (m : M A) (k : A → M B) : M B := λ w, let '(a, w) := m w in k a w.

Declare Scope delivery_scope.
Notation "'let*' x := m 'in' k" := (bind m (λ x, k)) (at level 200, x name, m at level 100, k at level 200, right associativity) : delivery_scope.
Notation "'perform' m 'in' k" := (bind m (λ _, k)) (at level 200, m at level 100, k at level 200, right associativity) : delivery_scope.
Local Open Scope delivery_scope.

Definition clock : M Time := λ w, (w_clock w, w).
Definition set_clock (t : Time) (w : world) : world := mk_world t (w_calls w) (w_waits w) (w_health w) (w_activity w) (w_events w).
Definition set_waits (m : gmap agentKey Z) (w : world) : world := mk_world (w_clock w) (w_calls w) m (w_health w) (w_activity w) (w_events w).
Definition emit (e : event) : M unit :=
  λ w, (tt, mk_world (w_clock w) (w_calls w) (w_waits w) (w_health w) (w_activity w) (w_events w ++ [e])).
Definition on_health (f : Time → ChannelHealthStore → ChannelHealthStore) : M unit :=
  λ w, (tt, mk_world (w_clock w) (w_calls w) (w_waits w) (f (w_clock w) (w_health w)) (w_activity w) (w_events w)).
Definition on_activity (f : Time → ActivityStore → ActivityStore) : M unit :=
  λ w, (tt, mk_world (w_clock w) (w_calls w) (w_waits w) (w_health w) (f (w_clock w) (w_activity w)) (w_events w)).

(** The number of the next call to the outside. *)
Definition next_call : M nat :=
  λ w, (w_calls w, mk_world (w_clock w) (S (w_calls w)) (w_waits w) (w_health w) (w_activity w) (w_events w)).

(** A context is the time it ends. *)
Definition ctx : Type := option Time.
Definition ended (c : ctx) (now : Time) : bool := match c with Some t => (t <=? now)%Z | None => false end.
Definition withTimeout (c : ctx) (now : Time) (d : Duration) : ctx :=
  Some (match c with Some t => Z.min t (now + d) | None => now + d end)%Z.

(** One call under a context: [None] when the context ends before it returns. *)
Definition call {A} (c : ctx) (f : nat → A * Duration) : M (option A) :=
  let* n := next_call in
  λ w, let '(a, d) := f n in
       let done := (w_clock w + Z.max 0 d)%Z in
       match c with
       | Some t => if (done <=? t)%Z then (Some a, set_clock done w) else (None, set_clock (Z.max (w_clock w) t) w)
       | None => (Some a, set_clock done w)
       end.

(** Waiting out [d]: whether the context ended first. *)
Definition sleep (c : ctx) (d : Duration) : M bool :=
  λ w, let wake := (w_clock w + Z.max 0 d)%Z in
       match c with
       | Some t => if (t <? wake)%Z then (true, set_clock (Z.max (w_clock w) t) w) else (false, set_clock wake w)
       | None => (false, set_clock wake w)
       end.

(** ** The activator *)

Section server.
Context (cfg : Config) (x : outside).

(** One activator POST: whether a failure is retryable, and its text. *)
Definition wakeOnce (c : ctx) : M (option (bool * string)) :=
  let* now := clock in
  let* a := call (withTimeout c now activatorAttemptTimeout) (x_wake x) in
  ret (match a with
       | None => Some (true, "context deadline exceeded")
       | Some (ActTransport text) => Some (true, text)
       | Some (ActStatus s) =>
           if (s =? 202)%Z then None else Some ((500 <=? s)%Z, "activator returned " +:+ str (print_Z s))
       end).

(** The error of ControllerActivator.Wake, [None] for success. *)
Definition Wake (c : ctx) : M (option string) :=
  perform emit EActivator in
  let* first := wakeOnce c in
  let* now := clock in
  match first with
  | None => ret None
  | Some (retry, text) =>
      if negb retry || ended c now then ret (Some text)
      else let* second := wakeOnce c in ret (snd <$> second)
  end.

(** ** Channel health *)

Definition recordChannelFailure (healthPath reason message : string) : M unit :=
  if (healthPath =? "")%string then ret tt else on_health (λ now h, RecordFailure h now now healthPath reason message).

Definition podWaitFailed (healthPath : string) (f : podWaitFailure) (detail : string) : M unit :=
  if (wf_errType f =? errControllerDown)%string then ret tt
  else if (wf_errType f =? errAgentNotReady)%string then recordChannelFailure healthPath healthReasonAgentNotReady detail
  else recordChannelFailure healthPath healthReasonDispatchFailed detail.

(** ** The Pod wait *)

Definition requestWake (c : ctx) (healthPath : string) (a : AgentInfo) : M (option podWaitFailure) :=
  if negb (x_activator x) then
    perform recordChannelFailure healthPath healthReasonAgentNotReady "agent hibernated and no activator configured" in
    ret (Some (mk_wait_failure errControllerDown "no activator configured"))
  else
    perform emit (EChannelWake (ai_Namespace a)) in
    let* e := Wake c in
    match e with
    | Some text =>
        perform emit (EWakeDuration (ai_Namespace a) "controller_unavailable") in
        perform recordChannelFailure healthPath healthReasonAgentNotReady ("activator unreachable: " +:+ text) in
        ret (Some (mk_wait_failure errControllerDown text))
    | None => ret None
    end.

Definition acquirePodWait (a : AgentInfo) : M bool :=
  λ w, let held := default 0%Z (w_waits w !! agent_key a) in
       if (maxPodWaitsPerAgent cfg <=? held)%Z then (false, w) else (true, set_waits (<[agent_key a := (held + 1)%Z]> (w_waits w)) w).

Definition releasePodWait (a : AgentInfo) : M unit :=
  λ w, let left := (default 0%Z (w_waits w !! agent_key a) - 1)%Z in
       (tt, set_waits (if (left <=? 0)%Z then delete (agent_key a) (w_waits w) else <[agent_key a := left]> (w_waits w)) w).

Definition podWaitError (c : ctx) (a : AgentInfo) (waited : Duration) (now : Time) : string :=
  if ended c now then
    "agent did not become ready: the wait ended after " +:+ (DurationString (RoundDuration waited Second) +:+
      (", before the " +:+ (DurationString (wakeTimeout cfg a) +:+ " wakeTimeout elapsed")))
  else if (wakeTimeout cfg a <? agentWakeTimeout a)%Z then
    "agent did not become ready within " +:+ (DurationString (wakeTimeout cfg a) +:+
      (", the gateway's maxWakeTimeout, which caps the Agent's " +:+ (DurationString (agentWakeTimeout a) +:+ " wakeTimeout")))
  else "agent did not become ready within wakeTimeout (" +:+ (DurationString (wakeTimeout cfg a) +:+ ")").

(** What a wait carries from one check to the next; [ws_wakeStart] is None
    before a wake was requested. *)
Record wait_state := mk_wait_state {
  ws_target : option string;
  ws_readyAt : option Time;
  ws_readyTries : nat;
  ws_wakeStart : option Time;
}.

Inductive wait_result := Reached | ContextEnded | WaitExpired | WakeFailed (f : podWaitFailure) | OutOfFuel.

(** One check: the lookup, when the name is not resolved yet, and the connect. *)
Definition check_agent (c : ctx) (target : option string) : M (bool * option string) :=
  let* now := clock in
  let check := withTimeout c now (AgentConnectTimeout cfg) in
  let* target := match target with
                 | Some t => ret (Some t)
                 | None => let* r := call check (x_lookup x) in ret (match r with Some a => a | None => None end)
                 end in
  match target with
  | None => ret (false, None)
  | Some t =>
      let* now := clock in
      let* r := call (withTimeout check now wakeConnectTimeout) (x_dial x) in
      ret (default false r, Some t)
  end.

(** The closure [missed]: a wake requested inside the wait, once. *)
Definition missed (c : ctx) (healthPath : string) (a : AgentInfo) (wakeStart : option Time) : M (option Time * option podWaitFailure) :=
  match wakeStart with
  | Some t => ret (Some t, None)
  | None =>
      let* n := next_call in
      match x_phase x n with
      | Some phase =>
          if needsWake phase then
            let* now := clock in
            let* f := requestWake c healthPath a in
            ret (Some now, f)
          else ret (None, None)
      | None => ret (None, None)
      end
  end.

(** The sleep before the next check, which the Ready event also ends. *)
Definition wait_sleep (c : ctx) (d : Duration) (awaitReady : bool) : M (bool * bool) :=
  let* n := next_call in
  match (if awaitReady then x_ready_event x n else None) with
  | Some e =>
      if (Z.max 0 e <? d)%Z then let* e := sleep c e in ret (e, negb e)
      else let* e := sleep c d in ret (e, false)
  | None => let* e := sleep c d in ret (e, false)
  end.

(** The loop of waitAgentReachable.  [inside] is whether [missed] is set. *)
Fixpoint wait_loop (fuel : nat) (c : ctx) (healthPath : string) (a : AgentInfo) (inside usable : bool) (start deadline : Time) (st : wait_state)
    : M (wait_result * option Time) :=
  match fuel with
  | O => ret (OutOfFuel, ws_wakeStart st)
  | S fuel =>
      let* now := clock in
      if negb (Before now deadline) then ret (WaitExpired, ws_wakeStart st)
      else if ended c now then ret (ContextEnded, ws_wakeStart st)
      else
        let* n := next_call in
        let readyAt := match ws_readyAt st with
                       | Some t => Some t
                       | None => if usable && x_ready x n then Some now else None
                       end in
        let connects := negb usable || bool_decide (is_Some readyAt) || negb (x_seen x n) in
        let tries := if connects && bool_decide (is_Some readyAt) then S (ws_readyTries st) else ws_readyTries st in
        let* checked := if connects then check_agent c (ws_target st) else ret (false, ws_target st) in
        if checked.1 then ret (Reached, ws_wakeStart st)
        else
          let* m := if inside then missed c healthPath a (ws_wakeStart st) else ret (ws_wakeStart st, None) in
          match m.2 with
          | Some f => ret (WakeFailed f, m.1)
          | None =>
              let* now := clock in
              let remaining := (deadline - now)%Z in
              if (remaining <=? 0)%Z then ret (WaitExpired, m.1)
              else
                let delay := match readyAt with
                             | Some t => wakeConfirmDelay tries (Sub now t)
                             | None => wakePollDelay (Sub now start)
                             end in
                let* slept := wait_sleep c (Z.min delay remaining) (usable && negb (bool_decide (is_Some readyAt))) in
                if slept.1 then ret (ContextEnded, m.1)
                else
                  let* now := clock in
                  wait_loop fuel c healthPath a inside usable start deadline
                    (mk_wait_state checked.2 (if slept.2 then Some now else readyAt) tries m.1)
          end
  end.

(** Every turn but the one the Ready event cuts short takes at least
    [wakeConfirmQuickInterval] or ends the wait. *)
Definition wait_fuel (a : AgentInfo) : nat := (Z.to_nat (wakeTimeout cfg a / wakeConfirmQuickInterval) + 4)%nat.

Definition waitAgentReachable (c : ctx) (healthPath : string) (a : AgentInfo) (inside : bool) (wakeStart : option Time) : M (wait_result * option Time) :=
  let* start := clock in
  wait_loop (wait_fuel a) c healthPath a inside (x_usable x) start (start + wakeTimeout cfg a)%Z (mk_wait_state None None 0 wakeStart).

Definition wait_refused : podWaitFailure :=
  mk_wait_failure errAgentNotReady ("the agent is not ready and this gateway replica already holds " +:+
    (str (print_Z (maxPodWaitsPerAgent cfg)) +:+ " messages waiting for its Pod, the per-Agent cap")).

(** The body of awaitPod, with the slot held. *)
Definition await_held (c : ctx) (healthPath : string) (a : AgentInfo) (wake : bool) : M (option podWaitFailure) :=
  let* start := clock in
  let* woken := if wake then requestWake c healthPath a else ret None in
  match woken with
  | Some f => ret (Some f)
  | None =>
      let* r := waitAgentReachable c healthPath a (negb wake) (if wake then Some start else None) in
      let* now := clock in
      match r.1 with
      | Reached => match r.2 with Some _ => perform emit (EWakeDuration (ai_Namespace a) "ready") in ret None | None => ret None end
      | WakeFailed f => ret (Some f)
      | _ =>
          let text := podWaitError c a (Sub now start) now in
          match r.2 with
          | None => ret (Some (mk_wait_failure errDeliveryFailed text))
          | Some _ =>
              perform emit (EWakeDuration (ai_Namespace a) "wake_timeout") in
              ret (Some (mk_wait_failure errWakeTimeout text))
          end
      end
  end.

Definition awaitPod (c : ctx) (healthPath : string) (a : AgentInfo) (wake : bool) : M (option podWaitFailure) :=
  let* ok := acquirePodWait a in
  if negb ok then perform emit EPodWaitRefused in ret (Some wait_refused)
  else
    perform emit EPodWait in
    let* f := await_held c healthPath a wake in
    perform releasePodWait a in
    ret f.

(** ** The delivery schedule *)

(** What deliverOnce makes of the agent's answer. *)
Definition read_reply (status : Z) (body : bytes) (readErr : option go_error) : bytes + go_error :=
  if (status <? 200)%Z || (299 <? status)%Z then inr (plain_error ("agent returned " +:+ str (print_Z status)))
  else
    let limit := Z.to_nat (MaxResponseBodyBytes cfg + 1) in
    let respBody := firstn limit body in
    match (if (length body <? limit)%nat then readErr else None) with
    | Some e => inr e
    | None =>
        if (MaxResponseBodyBytes cfg <? Z.of_nat (length respBody))%Z then
          inr (plain_error ("agent response body exceeded " +:+ (str (print_Z (MaxResponseBodyBytes cfg)) +:+
            " bytes; externalize large outputs and reference by URL")))
        else match response_content respBody with
             | Some _ => inl respBody
             | None => inr (plain_error "agent returned 200 with a malformed response envelope")
             end
    end.

Definition deliverOnce (c : ctx) (url : string) (payload : bytes) : M (bytes + go_error) :=
  let* now := clock in
  perform emit (EAttempt url payload) in
  let* r := call (withTimeout c now (AgentReadTimeout cfg)) (x_post x) in
  ret (match r with
       | None => inr deadline_error
       | Some (PostError e) => inr e
       | Some (PostStatus status body readErr) => read_reply status body readErr
       end).

(** The error of deliverToAgent: its text, and the wait failure it wraps. *)
Record delivery_error := mk_delivery_error { de_text : string; de_wait : option podWaitFailure }.

Definition connect_failed (e : go_error) : bool := match ge_stage e with Some dialStageConnect => true | _ => false end.

(** The loop over the schedule; [total] is its length. *)
Fixpoint deliver_loop (c : ctx) (healthPath : string) (a : AgentInfo) (url : string) (payload : bytes) (total : nat) (podWait skipDelay : bool)
    (lastErr : string) (backoff : list Duration) : M (bytes + delivery_error) :=
  match backoff with
  | [] => ret (inr (mk_delivery_error ("failed to deliver message to agent after " +:+ (str (print_Z (Z.of_nat total)) +:+ (" attempts: " +:+ lastErr))) None))
  | delay :: rest =>
      let* stop := if (0 <? delay)%Z && negb skipDelay then sleep c delay else ret false in
      if stop then ret (inr (mk_delivery_error "context deadline exceeded" None))
      else
        let* r := deliverOnce c url payload in
        match r with
        | inl body => perform emit (EDeliveryAttempt (ai_Namespace a) "ok") in ret (inl body)
        | inr e =>
            let outcome := deliveryOutcome e in
            perform emit (EDeliveryAttempt (ai_Namespace a) outcome) in
            if (outcome =? "too_large")%string then ret (inr (mk_delivery_error (ge_text e) None))
            else if podWait && negb (bool_decide (rest = [])) && connect_failed e then
              let* f := awaitPod c healthPath a false in
              match f with
              | Some f => ret (inr (mk_delivery_error (wf_err f +:+ ("; last attempt: " +:+ ge_text e)) (Some f)))
              | None => deliver_loop c healthPath a url payload total false true (ge_text e) rest
              end
            else deliver_loop c healthPath a url payload total podWait false (ge_text e) rest
        end
  end.

Definition message_url (a : AgentInfo) : string :=
  "https://" +:+ (agentServiceHost cfg a +:+ (":" +:+ (str (print_Z (agentServicePort cfg a)) +:+ "/v1/message"))).

Definition deliverToAgent (c : ctx) (healthPath : string) (a : AgentInfo) (env : MessageEnvelope) (podWait : bool) : M (bytes + delivery_error) :=
  let backoff := 0%Z :: DeliveryBackoff cfg in
  deliver_loop c healthPath a (message_url a) (marshal_envelope env) (length backoff) podWait false "" backoff.

(** ** Wake, then deliver *)

(** A failure: its type and its text. *)
Record failure := mk_failure { f_errType : string; f_err : string }.

Definition deliver_step (c : ctx) (healthPath : string) (a : AgentInfo) (env : MessageEnvelope) (waited : bool) : M (bytes + failure) :=
  let* r := deliverToAgent c healthPath a env (negb waited) in
  match r with
  | inr e =>
      if Contains (de_text e) "response body exceeded" then ret (inr (mk_failure errResponseTooLarge (de_text e)))
      else
        match de_wait e with
        | Some f =>
            if negb (wf_errType f =? errDeliveryFailed)%string then
              perform podWaitFailed healthPath f (de_text e) in ret (inr (mk_failure (wf_errType f) (wf_err f)))
            else
              perform recordChannelFailure healthPath healthReasonDispatchFailed (de_text e) in
              ret (inr (mk_failure errDeliveryFailed (de_text e)))
        | None =>
            perform recordChannelFailure healthPath healthReasonDispatchFailed (de_text e) in
            ret (inr (mk_failure errDeliveryFailed (de_text e)))
        end
  | inl body =>
      perform on_activity (λ now s, RecordTraffic s now (ai_Namespace a) (ai_Name a)) in
      perform (if (healthPath =? "")%string then ret tt else on_health (λ now h, RecordSuccess h now now healthPath)) in
      ret (inl body)
  end.

(** A wait before delivery. *)
Definition wait_step (c : ctx) (healthPath : string) (a : AgentInfo) (wake : bool) (k : M (bytes + failure)) : M (bytes + failure) :=
  let* f := awaitPod c healthPath a wake in
  match f with
  | Some f => perform podWaitFailed healthPath f (wf_err f) in ret (inr (mk_failure (wf_errType f) (wf_err f)))
  | None => k
  end.

Definition wake_and_deliver (c : ctx) (healthPath : string) (a : AgentInfo) (env : MessageEnvelope) : M (bytes + failure) :=
  if needsWake (ai_Phase a) then wait_step c healthPath a true (deliver_step c healthPath a env true)
  else if bool_decide (ai_Phase a = AgentProvisioning) || bool_decide (ai_Phase a = AgentResuming)
  then wait_step c healthPath a false (deliver_step c healthPath a env true)
  else deliver_step c healthPath a env false.

(** With the deferred metric. *)
Definition wakeAndDeliver (c : ctx) (healthPath : string) (a : AgentInfo) (env : MessageEnvelope) : M (bytes + failure) :=
  let* r := wake_and_deliver c healthPath a env in
  perform emit (EChannelMessage (env_ChannelType env) (ai_Namespace a) (match r with inl _ => "delivered" | inr f => f_errType f end)) in
  ret r.

(** ** Synchronous delivery *)

Definition writeSyncError (c : ctx) (namespace : string) (f : failure) : M error_response :=
  let* now := clock in
  perform (if negb (ended c now) && (f_errType f =? errResponseTooLarge)%string then emit (EResponseTooLarge namespace "sync") else ret tt) in
  ret (if ended c now then
         writeError 504 (mk_error errSyncDeadline ("sync-mode wall-clock exceeded " +:+ DurationString (SyncDeliveryDeadline cfg)) "" true) 0
       else if (f_errType f =? errControllerDown)%string then
         writeError 504 (mk_error (f_errType f) "controller activator endpoint unreachable; wake could not be triggered" "" true) 5
       else if (f_errType f =? errWakeTimeout)%string then writeError 504 (mk_error (f_errType f) (f_err f) "" false) 0
       else if (f_errType f =? errAgentNotReady)%string then writeError 503 (mk_error (f_errType f) (f_err f) "" true) 5
       else if (f_errType f =? errResponseTooLarge)%string then writeError 413 (mk_error (f_errType f) (f_err f) "" false) 0
       else writeError 502 (mk_error errDeliveryFailed (f_err f) "" false) 0).

Definition handleSyncDelivery (c : ctx) (path : string) (a : AgentInfo) (env : MessageEnvelope) : M (bytes + error_response) :=
  let* now := clock in
  let c := withTimeout c now (SyncDeliveryDeadline cfg) in
  let* r := wakeAndDeliver c path a env in
  match r with
  | inl body => ret (inl body)
  | inr f => let* e := writeSyncError c (ai_Namespace a) f in ret (inr e)
  end.
End server.
