(* ===== verification/DeliveryClaims.v ===== *)
(** What a delivery costs: time, wake requests, Pod waits and attempts.

    [takes m c R]: from a world whose slots are in order, [m] spends at most
    [c], leaves the slots as they were, and its result satisfies [R].  The
    costs of a sequence add up. *)

From stdpp Require Import base gmap list strings option.
From Stdlib Require Import ZArith Lia Ascii.
From S2P Require Import Prelude GoFloat GoTime Rfc3339 RateLimit Auth Activity Json JsonString JsonValue RequestBody JsonDecode UsageReader Conditions AgentLifecycle ChannelHealth ChannelApi Envelope PodReady Delivery.

Local Open Scope Z_scope.
Local Open Scope delivery_scope.

(** ** Costs *)

Record cost := mk_cost { c_time : Z; c_wakes : nat; c_waits : nat; c_attempts : nat }.

Definition cost_add (c d : cost) : cost :=
  mk_cost (c_time c + c_time d) (c_wakes c + c_wakes d) (c_waits c + c_waits d) (c_attempts c + c_attempts d).
Definition cost_le (c d : cost) : Prop :=
  c_time c <= c_time d ∧ (c_wakes c ≤ c_wakes d)%nat ∧ (c_waits c ≤ c_waits d)%nat ∧ (c_attempts c ≤ c_attempts d)%nat.

Definition free : cost := mk_cost 0 0 0 0.
Definition lasting (d : Duration) : cost := mk_cost (Z.max 0 d) 0 0 0.

Definition is_activator (e : event) : bool := match e with EActivator => true | _ => false end.
Definition is_wait (e : event) : bool := match e with EPodWait => true | _ => false end.
Definition is_attempt (e : event) : bool := match e with EAttempt _ _ => true | _ => false end.
Definition tally (p : event → bool) (es : list event) : nat := length (List.filter p es).

Lemma tally_app p es es' : tally p (es ++ es') = (tally p es + tally p es')%nat.
Proof. unfold tally. by rewrite List.filter_app, length_app. Qed.

(** No entry of the slots is zero or less: releasing deletes it. *)
Definition waits_ok (w : world) : Prop := map_Forall (λ _ n, 0 < n) (w_waits w).

Definition within (c : cost) (w w' : world) : Prop :=
  w_clock w <= w_clock w' <= w_clock w + c_time c ∧ w_waits w' = w_waits w ∧
  ∃ es, w_events w' = w_events w ++ es ∧
    (tally is_activator es ≤ c_wakes c)%nat ∧ (tally is_wait es ≤ c_waits c)%nat ∧ (tally is_attempt es ≤ c_attempts c)%nat.

Definition takes {A} (m : M A) (c : cost) (R : A → Prop) : Prop :=
  ∀ w, waits_ok w → within c w (m w).2 ∧ R (m w).1.

Lemma within_refl w : within free w w.
Proof. split; [cbn; lia|]. split; [done|]. exists []. rewrite List.app_nil_r. repeat split; cbn; lia. Qed.

Lemma within_trans c d w1 w2 w3 : within c w1 w2 → within d w2 w3 → within (cost_add c d) w1 w3.
Proof.
  intros (Ht & Hw & es & He & H1 & H2 & H3) (Ht' & Hw' & es' & He' & H1' & H2' & H3'). split; [cbn; unfold Time in *; lia|]. split; [congruence|].
  exists (es ++ es'). rewrite He', He, List.app_assoc. split; [done|]. rewrite !tally_app. cbn. lia.
Qed.

Lemma within_le c d w w' : cost_le c d → within c w w' → within d w w'.
Proof.
  intros (H1 & H2 & H3 & H4) (Ht & Hw & es & He & E1 & E2 & E3). split; [unfold Time in *; lia|]. split; [done|]. exists es. split_and!; [done|lia..].
Qed.

Lemma within_ok c w w' : within c w w' → waits_ok w → waits_ok w'.
Proof. intros (_ & Hw & _). unfold waits_ok. by rewrite Hw. Qed.

Lemma takes_ret {A} (a : A) (R : A → Prop) : R a → takes (ret a) free R.
Proof. intros H w _. split; [apply within_refl|done]. Qed.

Lemma takes_bind {A B} (m : M A) (k : A → M B) c d (R : A → Prop) (S : B → Prop) :
  takes m c R → (∀ a, R a → takes (k a) d S) → takes (bind m k) (cost_add c d) S.
Proof.
  intros Hm Hk w Hok. unfold bind. destruct (Hm w Hok) as [Hw HR]. destruct (m w) as [a w1]. cbn in *.
  destruct (Hk a HR w1 (within_ok _ _ _ Hw Hok)) as [Hw' HS]. split; [by eapply within_trans|done].
Qed.

Lemma takes_le {A} (m : M A) c d (R : A → Prop) : cost_le c d → takes m c R → takes m d R.
Proof. intros Hle Hm w Hok. destruct (Hm w Hok). split; [by eapply within_le|done]. Qed.

Lemma takes_impl {A} (m : M A) c (R S : A → Prop) : (∀ a, R a → S a) → takes m c R → takes m c S.
Proof. intros Hi Hm w Hok. destruct (Hm w Hok). split; [done|auto]. Qed.

(** A step that costs nothing, then the rest. *)
Lemma takes_free {A B} (m : M A) (k : A → M B) d (S : B → Prop) :
  takes m free (λ _, True) → (∀ a, takes (k a) d S) → takes (bind m k) d S.
Proof.
  intros Hm Hk. eapply takes_le; [|eapply takes_bind; [exact Hm|intros a _; apply Hk]]. unfold cost_le, cost_add, free. cbn. lia.
Qed.

(** A last step that costs nothing. *)
Lemma takes_then {A B} (m : M A) (k : A → M B) d (R : A → Prop) (S : B → Prop) :
  takes m d R → (∀ a, R a → takes (k a) free S) → takes (bind m k) d S.
Proof.
  intros Hm Hk. eapply takes_le; [|eapply takes_bind; [exact Hm|intros a Ha; by apply Hk]]. unfold cost_le, cost_add, free. cbn. lia.
Qed.

Create HintDb costs.
#[local] Hint Resolve takes_ret I : costs.

Lemma takes_clock : takes clock free (λ _, True).
Proof. intros w _. split; [apply within_refl|done]. Qed.

Lemma within_quiet w w' : w_clock w' = w_clock w → w_waits w' = w_waits w → w_events w' = w_events w → within free w w'.
Proof. intros H1 H2 H3. split; [rewrite H1; cbn; unfold Time; lia|]. split; [done|]. exists []. rewrite H3, List.app_nil_r. repeat split; cbn; lia. Qed.

Lemma takes_next : takes next_call free (λ _, True).
Proof. intros w _. split; [by apply within_quiet|done]. Qed.
Lemma takes_health f : takes (on_health f) free (λ _, True).
Proof. intros w _. split; [by apply within_quiet|done]. Qed.
Lemma takes_activity f : takes (on_activity f) free (λ _, True).
Proof. intros w _. split; [by apply within_quiet|done]. Qed.

Definition event_cost (e : event) : cost :=
  mk_cost 0 (if is_activator e then 1 else 0) (if is_wait e then 1 else 0) (if is_attempt e then 1 else 0).

Lemma takes_emit e : takes (emit e) (event_cost e) (λ _, True).
Proof.
  intros w _. split; [|done]. split; [cbn; unfold Time; lia|]. split; [done|]. exists [e]. split; [done|]. destruct e; cbn; lia.
Qed.

#[local] Hint Resolve takes_clock takes_next takes_health takes_activity : costs.

(** *** Calls and sleeps *)

Lemma call_time {A} t (f : nat → A * Duration) w : let w' := (call (Some t) f w).2 in
  w_clock w <= w_clock w' <= Z.max (w_clock w) t ∧ w_waits w' = w_waits w ∧ w_events w' = w_events w.
Proof.
  unfold call, bind, next_call. cbn. destruct (f (w_calls w)) as [a d].
  destruct (Z.leb_spec (w_clock w + Z.max 0 d) t); cbn; unfold Time in *; split_and!; try done; lia.
Qed.

Lemma within_lasting w w' d : w_clock w <= w_clock w' <= w_clock w + Z.max 0 d → w_waits w' = w_waits w → w_events w' = w_events w → within (lasting d) w w'.
Proof. intros H1 H2 H3. split; [done|]. split; [done|]. exists []. rewrite H3, List.app_nil_r. repeat split; cbn; lia. Qed.

(** A call under a timeout set when it begins. *)
Lemma takes_call_timeout {A} c d (f : nat → A * Duration) : takes (let* now := clock in call (withTimeout c now d) f) (lasting d) (λ _, True).
Proof.
  intros w _. split; [|done].
  change ((let* now := clock in call (withTimeout c now d) f) w) with (call (withTimeout c (w_clock w) d) f w). unfold withTimeout.
  set (t := match c with Some t => _ | None => _ end). destruct (call_time t f w) as (H1 & H2 & H3). apply within_lasting; [|done|done].
  assert (t <= w_clock w + d) by (unfold t; destruct c; unfold Time, Duration in *; lia). cbv zeta in H1. unfold Time, Duration in *. lia.
Qed.

Lemma takes_sleep c d : takes (sleep c d) (lasting d) (λ _, True).
Proof.
  intros w _. split; [|done]. unfold sleep. destruct c as [t|]; [destruct (Z.ltb_spec t (w_clock w + Z.max 0 d))|]; apply within_lasting; try done; cbn; unfold Time, Duration in *; lia.
Qed.

Ltac cost_tac := unfold cost_le, cost_add, lasting, free, event_cost; cbn [c_time c_wakes c_waits c_attempts is_activator is_wait is_attempt]; unfold Duration, Time in *; lia.

Lemma bind_run {A B} (m : M A) (k : A → M B) w : bind m k w = k (m w).1 (m w).2.
Proof. unfold bind. by destruct (m w). Qed.

(** A call under its own timeout, then the rest. *)
Lemma takes_timed {A B} c d (f : nat → A * Duration) (k : option A → M B) e S : (∀ a, takes (k a) e S) →
  takes (let* now := clock in let* a := call (withTimeout c now d) f in k a) (cost_add (lasting d) e) S.
Proof.
  intros Hk.
  change (let* now := clock in let* a := call (withTimeout c now d) f in k a) with (bind (let* now := clock in call (withTimeout c now d) f) k).
  eapply takes_bind; [apply takes_call_timeout|]. intros a _. apply Hk.
Qed.

Section server.
Context (cfg : Config) (x : outside).

Lemma takes_wakeOnce c : takes (wakeOnce x c) (lasting activatorAttemptTimeout) (λ _, True).
Proof. eapply takes_le; [|apply takes_timed; intros a; by apply takes_ret]. cost_tac. Qed.

(** The activator: at most two bounded attempts. *)
Lemma takes_Wake c : takes (Wake x c) (mk_cost activatorWorstCase 1 0 0) (λ _, True).
Proof.
  assert (0 <= activatorAttemptTimeout) as Hpos by (unfold activatorAttemptTimeout, Second; lia).
  unfold Wake. eapply takes_le; [|eapply takes_bind; [apply takes_emit|intros _ _; eapply takes_bind; [apply takes_wakeOnce|]]].
  2: { intros first _. apply takes_free; [apply takes_clock|]. intros now. instantiate (1 := lasting activatorAttemptTimeout).
       destruct first as [[retry text]|]; [destruct (_ || _)|].
       - eapply takes_le; [|by apply takes_ret]. cost_tac.
       - eapply takes_then; [apply takes_wakeOnce|]. intros. by apply takes_ret.
       - eapply takes_le; [|by apply takes_ret]. cost_tac. }
  unfold activatorWorstCase in *. cost_tac.
Qed.

Lemma takes_recordFailure path reason msg : takes (recordChannelFailure path reason msg) free (λ _, True).
Proof. unfold recordChannelFailure. destruct (_ =? _)%string; [by apply takes_ret|apply takes_health]. Qed.

Lemma takes_podWaitFailed path f detail : takes (podWaitFailed path f detail) free (λ _, True).
Proof. unfold podWaitFailed. repeat destruct (_ =? _)%string; first [by apply takes_ret|apply takes_recordFailure]. Qed.

Lemma takes_quiet_emit {B} e (k : M B) c S : event_cost e = free → takes k c S → takes (perform emit e in k) c S.
Proof. intros He Hk. apply takes_free; [rewrite <- He; apply takes_emit|done]. Qed.

Lemma takes_requestWake c path a : takes (requestWake x c path a) (mk_cost activatorWorstCase 1 0 0) (λ _, True).
Proof.
  unfold requestWake. destruct (x_activator x); cbn [negb].
  - apply takes_quiet_emit; [done|]. eapply takes_then; [apply takes_Wake|]. intros [text|] _; [|by apply takes_ret].
    apply takes_quiet_emit; [done|]. apply takes_free; [apply takes_recordFailure|]. intros _. by apply takes_ret.
  - eapply takes_le; [|apply takes_free; [apply takes_recordFailure|intros _; by apply takes_ret]].
    unfold activatorWorstCase, activatorAttemptTimeout, Second. cost_tac.
Qed.

(** *** The check *)

Lemma takes_check c target : takes (check_agent cfg x c target) (lasting (AgentConnectTimeout cfg)) (λ _, True).
Proof.
  intros w _. split; [|done]. unfold check_agent, bind at 1, clock at 1. cbv beta iota zeta.
  assert (∃ t, withTimeout c (w_clock w) (AgentConnectTimeout cfg) = Some t ∧ t <= w_clock w + AgentConnectTimeout cfg) as (t & -> & Ht).
  { eexists. split; [done|]. destruct c; unfold Time, Duration in *; lia. }
  assert (∀ w1 (tg : option string), w_clock w <= w_clock w1 <= Z.max (w_clock w) t → w_waits w1 = w_waits w → w_events w1 = w_events w →
    within (lasting (AgentConnectTimeout cfg)) w
      ((match tg with
        | None => ret (false, None)
        | Some tg => let* now := clock in let* r := call (withTimeout (Some t) now wakeConnectTimeout) (x_dial x) in ret (default false r, Some tg)
        end) w1).2) as Hrest.
  { intros w1 [tg|] Hc Hw He; [|apply within_lasting; [cbn; unfold Time, Duration in *; lia|done|done]].
    change ((let* now := clock in let* r := call (withTimeout (Some t) now wakeConnectTimeout) (x_dial x) in ret (default false r, Some tg)) w1)
      with (bind (call (Some (Z.min t (w_clock w1 + wakeConnectTimeout))) (x_dial x)) (λ r, ret (default false r, Some tg)) w1).
    destruct (call_time (Z.min t (w_clock w1 + wakeConnectTimeout)) (x_dial x) w1) as (H1 & H2 & H3). unfold bind, ret.
    destruct (call _ (x_dial x) w1) as [r w2]. cbn in *. apply within_lasting; [unfold Time, Duration in *; lia|congruence..]. }
  destruct target as [tg|].
  - apply (Hrest w (Some tg)); [unfold Time in *; lia|done|done].
  - unfold bind at 1. destruct (call_time t (x_lookup x) w) as (H1 & H2 & H3). unfold bind at 1.
    destruct (call (Some t) (x_lookup x) w) as [r w1]. cbn [fst snd] in *. unfold ret at 1. by apply Hrest.
Qed.

(** A wait requests the wake at most once: what it may still cost. *)
Definition wake_left (ws : option Time) : cost := match ws with None => mk_cost activatorWorstCase 1 0 0 | Some _ => free end.

Lemma activator_nonneg : 0 <= activatorWorstCase.
Proof. unfold activatorWorstCase, activatorAttemptTimeout, Second. lia. Qed.

Lemma missed_cost c path a ws w : waits_ok w → let r := missed x c path a ws w in
  match r.1.1 with
  | Some _ => within (wake_left ws) w r.2
  | None => ws = None ∧ within free w r.2
  end.
Proof.
  intros Hok. unfold missed. destruct ws as [t|]; [apply within_refl|]. cbn [wake_left]. rewrite bind_run.
  pose proof (takes_next w Hok) as [Hn _]. revert Hn. generalize (next_call w). intros [n w1] Hn. cbn [fst snd] in *.
  pose proof (within_ok _ _ _ Hn Hok) as Hok1.
  destruct (x_phase x n) as [ph|]; [destruct (needsWake ph)|]; try (split; [done|exact Hn]).
  rewrite !bind_run. cbn [clock fst snd]. pose proof (takes_requestWake c path a w1 Hok1) as [Hr _]. revert Hr.
  generalize (requestWake x c path a w1). intros [f w2] Hr. cbn [fst snd ret] in *.
  eapply within_le; [|eapply within_trans; [exact Hn|exact Hr]]. cost_tac.
Qed.
(** *** The loop of the wait *)

Lemma within_time c t w w' : within c w w' → w_clock w' <= w_clock w + t → within (mk_cost t (c_wakes c) (c_waits c) (c_attempts c)) w w'.
Proof. intros (Ht & Hw & He) Hle. split; [cbn; unfold Time in *; lia|]. by split. Qed.

Lemma sleep_run c d w : let r := sleep c d w in r.1 = false → w_clock r.2 = w_clock w + Z.max 0 d.
Proof. unfold sleep. destruct c as [t|]; [destruct (t <? _)|]; done. Qed.

Lemma wait_sleep_spec c d ar w : 0 < d → waits_ok w → let r := wait_sleep x c d ar w in
  within (lasting d) w r.2 ∧
  (r.1.1 = false → (r.1.2 = true ∧ ar = true) ∨ (r.1.2 = false ∧ w_clock r.2 = w_clock w + d)).
Proof.
  intros Hd Hok. unfold wait_sleep. rewrite bind_run. pose proof (takes_next w Hok) as [Hn _].
  assert (w_clock (next_call w).2 = w_clock w) as Hc by done. revert Hn Hc. generalize (next_call w). intros [n w1] Hn Hc. cbn [fst snd] in *.
  pose proof (within_ok _ _ _ Hn Hok) as Hok1.
  assert (∀ e, Z.max 0 e <= d → within (lasting d) w (sleep c e w1).2) as Hsl.
  { intros e He. destruct (takes_sleep c e w1 Hok1) as [Hs _]. eapply within_le; [|eapply within_trans; [exact Hn|exact Hs]]. cost_tac. }
  assert (∀ e b, sleep c e w1 = (b, (sleep c e w1).2) → b = false → w_clock (sleep c e w1).2 = w_clock w + Z.max 0 e) as Hrun.
  { intros e b Eb ->. rewrite <- Hc. apply sleep_run. by rewrite Eb. }
  assert (∀ e, (bind (sleep c e) (λ b, ret (b, false))) w1 = (((sleep c e w1).1, false), (sleep c e w1).2)) as Hb by (intros; by rewrite bind_run).
  assert (within (lasting d) w ((bind (sleep c d) (λ b, ret (b, false))) w1).2 ∧
    (((bind (sleep c d) (λ b, ret (b, false))) w1).1.1 = false →
     (((bind (sleep c d) (λ b, ret (b, false))) w1).1.2 = true ∧ ar = true) ∨
     (((bind (sleep c d) (λ b, ret (b, false))) w1).1.2 = false ∧ w_clock ((bind (sleep c d) (λ b, ret (b, false))) w1).2 = w_clock w + d))) as Hfull.
  { rewrite Hb. cbn [fst snd]. split; [apply Hsl; lia|]. intros E. right. split; [done|].
    rewrite (Hrun d false); [lia| |done]. rewrite <- E. by destruct (sleep c d w1). }
  destruct ar; [|exact Hfull]. destruct (x_ready_event x n) as [e|]; [|exact Hfull].
  destruct (Z.ltb_spec (Z.max 0 e) d); [|exact Hfull]. rewrite bind_run. cbn [fst snd ret]. split; [apply Hsl; lia|].
  intros E. left. by rewrite E.
Qed.

Lemma delay_quick st t1 t2 now tries : wakeConfirmQuickInterval <=
  match st : option Time with Some t => wakeConfirmDelay tries (Sub now t) | None => wakePollDelay (Sub t1 t2) end.
Proof.
  assert (∀ e, wakeConfirmQuickInterval <= wakePollDelay e) as H.
  { intros e. unfold wakePollDelay, wakeConfirmQuickInterval, wakePollFastInterval, wakePollInterval, Millisecond, Second. destruct (_ <? _); lia. }
  destruct st; [|done]. unfold wakeConfirmDelay. destruct (_ <? _)%nat; [reflexivity|done].
Qed.

Definition loop_left (inside : bool) (ws : option Time) : cost := if inside then wake_left ws else free.

(** Enough fuel: a turn for each quick interval left, one that ends the wait
    and one the Ready event may cut short. *)
Definition fuel_ok (fuel : nat) (usable : bool) (readyAt : option Time) (left : Duration) : Prop :=
  let r := if usable && negb (bool_decide (is_Some readyAt)) then 1%Z else 0%Z in
  1 + r <= Z.of_nat fuel ∧ left <= wakeConfirmQuickInterval * (Z.of_nat fuel - 1 - r).

(** What the loop does with the checks and the wake of one turn done: the
    sleep, then the rest. *)
Lemma missed_left c path a inside ws w : waits_ok w →
  let r := (if inside : bool then missed x c path a ws else ret (ws, None)) w in
  ∃ spent, within spent w r.2 ∧ cost_le (cost_add spent (loop_left inside r.1.1)) (loop_left inside ws) ∧ 0 <= c_time spent.
Proof.
  intros Hok. pose proof activator_nonneg. destruct inside; cbn [loop_left].
  - pose proof (missed_cost c path a ws w Hok) as Hm. cbv zeta in Hm. destruct (missed x c path a ws w) as [[[t|] f] w1]; cbn [fst snd] in *.
    + exists (wake_left ws). split; [done|]. destruct ws; cbn [wake_left]; (split; [cost_tac|cbn; lia]).
    + destruct Hm as [-> Hm]. exists free. split; [done|]. cbn [wake_left]. split; [cost_tac|cbn; lia].
  - exists free. split; [apply within_refl|]. split; [cost_tac|cbn; lia].
Qed.

Lemma wait_loop_spec fuel c path a inside usable start deadline st w : waits_ok w →
  let r := wait_loop cfg x fuel c path a inside usable start deadline st w in
  let left := loop_left inside (ws_wakeStart st) in
  within (mk_cost (Z.max 0 (deadline - w_clock w) + Z.max 0 (AgentConnectTimeout cfg) + c_time left) (c_wakes left) (c_waits left) (c_attempts left)) w r.2 ∧
  (fuel_ok fuel usable (ws_readyAt st) (deadline - w_clock w) → r.1.1 ≠ OutOfFuel).
Proof.
  revert st w. induction fuel as [|fuel IH]; intros st w Hok.
  { cbn [wait_loop]. pose proof activator_nonneg. split; [|by intros [H1 _]; destruct (usable && _)].
    eapply within_le; [|apply within_refl]. destruct inside, (ws_wakeStart st); cbn [loop_left wake_left]; cost_tac. }
  pose proof activator_nonneg as Hact. cbn [wait_loop]. rewrite bind_run. cbn [clock fst snd]. cbv zeta.
  assert (∀ r, within (mk_cost (Z.max 0 (deadline - w_clock w) + Z.max 0 (AgentConnectTimeout cfg) + c_time (loop_left inside (ws_wakeStart st)))
     (c_wakes (loop_left inside (ws_wakeStart st))) (c_waits (loop_left inside (ws_wakeStart st))) (c_attempts (loop_left inside (ws_wakeStart st)))) w
     (ret r w : (wait_result * option Time) * world).2) as Hstop.
  { intros r. eapply within_le; [|apply within_refl]. destruct inside, (ws_wakeStart st); cbn [loop_left wake_left]; cost_tac. }
  unfold Before. destruct (Z.ltb_spec (w_clock w) deadline) as [Hlt|Hge]; cbn [negb]; [|split; [apply Hstop|done]].
  destruct (ended c (w_clock w)); [split; [apply Hstop|done]|]. clear Hstop.
  rewrite bind_run. pose proof (takes_next w Hok) as [Hn _]. assert (w_clock (next_call w).2 = w_clock w) as Hc1 by done.
  revert Hn Hc1. generalize (next_call w). intros [n w1] Hn Hc1. cbn [fst snd] in *. pose proof (within_ok _ _ _ Hn Hok) as Hok1.
  set (readyAt := match ws_readyAt st with Some t => Some t | None => if usable && x_ready x n then Some (w_clock w) else None end).
  set (connects := negb usable || bool_decide (is_Some readyAt) || negb (x_seen x n)).
  set (tries := if connects && bool_decide (is_Some readyAt) then S (ws_readyTries st) else ws_readyTries st).
  rewrite bind_run.
  assert (within (lasting (AgentConnectTimeout cfg)) w1 ((if connects then check_agent cfg x c (ws_target st) else ret (false, ws_target st)) w1).2) as Hk.
  { destruct connects; [by apply takes_check|eapply within_le; [|apply within_refl]; cost_tac]. }
  revert Hk. generalize ((if connects then check_agent cfg x c (ws_target st) else ret (false, ws_target st)) w1). intros [checked w2] Hk.
  cbn [fst snd] in *. pose proof (within_ok _ _ _ Hk Hok1) as Hok2.
  assert (w_clock w1 <= w_clock w2 <= w_clock w1 + Z.max 0 (AgentConnectTimeout cfg)) as Hc2 by apply Hk.
  destruct checked.1.
  { split; [|done]. eapply within_le; [|eapply within_trans; [exact Hn|exact Hk]]. destruct inside, (ws_wakeStart st); cbn [loop_left wake_left]; cost_tac. }
  rewrite bind_run. destruct (missed_left c path a inside (ws_wakeStart st) w2 Hok2) as (spent & Hm & Hleft & Hsp). revert Hm Hleft.
  generalize ((if inside then missed x c path a (ws_wakeStart st) else ret (ws_wakeStart st, None)) w2). intros [m w3] Hm Hleft.
  cbn [fst snd] in *. pose proof (within_ok _ _ _ Hm Hok2) as Hok3.
  assert (w_clock w2 <= w_clock w3 <= w_clock w2 + c_time spent) as Hc3 by apply Hm.
  pose proof (within_trans _ _ _ _ _ Hn (within_trans _ _ _ _ _ Hk Hm)) as Hall.
  assert (0 <= c_time (loop_left inside m.1)) as Hl0 by (destruct inside, m.1; cbn; lia).
  assert (within (mk_cost (Z.max 0 (deadline - w_clock w) + Z.max 0 (AgentConnectTimeout cfg) + c_time (loop_left inside (ws_wakeStart st)))
     (c_wakes (loop_left inside (ws_wakeStart st))) (c_waits (loop_left inside (ws_wakeStart st))) (c_attempts (loop_left inside (ws_wakeStart st)))) w w3) as Hstop.
  { eapply within_le; [|exact Hall]. destruct Hleft as (L1 & L2 & L3 & L4). unfold cost_add in *. cbn in *. cost_tac. }
  destruct m.2 as [f|]; [split; [exact Hstop|done]|].
  rewrite bind_run. cbn [clock fst snd]. destruct (Z.leb_spec (deadline - w_clock w3) 0) as [Hexp|Hleft3]; [split; [exact Hstop|done]|]. clear Hstop.
  set (delay := match readyAt with Some t => wakeConfirmDelay tries (Sub (w_clock w3) t) | None => wakePollDelay (Sub (w_clock w3) start) end).
  assert (wakeConfirmQuickInterval <= delay) as Hdelay by apply delay_quick. clearbody delay.
  assert (0 < wakeConfirmQuickInterval) as Hq by (unfold wakeConfirmQuickInterval, Millisecond; lia).
  rewrite bind_run. set (ar := usable && negb (bool_decide (is_Some readyAt))).
  destruct (wait_sleep_spec c (Z.min delay (deadline - w_clock w3)) ar w3 ltac:(unfold Time, Duration in *; lia) Hok3) as [Hs Hslept]. revert Hs Hslept.
  generalize (wait_sleep x c (Z.min delay (deadline - w_clock w3)) ar w3). intros [slept w4] Hs Hslept. cbn [fst snd] in *.
  pose proof (within_ok _ _ _ Hs Hok3) as Hok4.
  assert (w_clock w3 <= w_clock w4 <= w_clock w3 + Z.max 0 (Z.min delay (deadline - w_clock w3))) as Hc4 by apply Hs.
  pose proof (within_trans _ _ _ _ _ Hall Hs) as Hall'.
  destruct slept.1 eqn:Esl.
  { split; [|done]. eapply within_le; [|eapply (within_time _ (Z.max 0 (deadline - w_clock w))); [exact Hall'|cbn [ret fst snd]; unfold Time, Duration in *; lia]].
    destruct Hleft as (L1 & L2 & L3 & L4). unfold cost_add in *. cbn in *. cost_tac. }
  rewrite bind_run. cbn [clock fst snd].
  set (st' := mk_wait_state _ _ _ _). specialize (IH st' w4 Hok4). cbv zeta in IH. destruct IH as [IHw IHf]. split.
  - eapply within_le; [|eapply (within_time _ (Z.max 0 (deadline - w_clock w) + Z.max 0 (AgentConnectTimeout cfg) + c_time (loop_left inside m.1)));
      [eapply within_trans; [exact Hall'|exact IHw]|]].
    + destruct Hleft as (L1 & L2 & L3 & L4). unfold cost_add in *. cbn in *. cost_tac.
    + destruct IHw as [[_ Hend] _]. cbn in Hend. unfold Time, Duration in *. lia.
  - intros [F1 F2]. apply IHf. specialize (Hslept eq_refl).
    assert (ws_readyAt st = None ∨ readyAt = ws_readyAt st) as Hr by (unfold readyAt; destruct (ws_readyAt st); auto).
    unfold fuel_ok. cbn [ws_readyAt st'].
    assert (Z.of_nat (S fuel) = Z.of_nat fuel + 1) as Hsf by lia. rewrite Hsf in F1, F2.
    destruct Hslept as [[-> Har]|[-> Hcl]].
    + unfold ar in Har. apply andb_true_iff in Har as [Hu Hnr]. rewrite Hu. rewrite bool_decide_true by eauto. cbn [negb andb].
      assert (ws_readyAt st = None) as Hnone.
      { destruct (ws_readyAt st) as [t|] eqn:E; [|done]. unfold readyAt in Hnr. by rewrite bool_decide_true in Hnr by eauto. }
      rewrite Hu, Hnone in F1, F2. cbn in F1, F2. split; unfold Time, Duration in *; lia.
    + assert ((if usable && negb (bool_decide (is_Some readyAt)) then 1 else 0) <=
              (if usable && negb (bool_decide (is_Some (ws_readyAt st))) then 1 else 0)) as Hmono.
      { destruct usable; [|cbn; lia]. destruct Hr as [->| ->]; [|lia]. rewrite (bool_decide_false (is_Some None)) by (intros [? ?]; done). cbn.
        destruct (bool_decide _); cbn; lia. }
      revert Hmono F1 F2. generalize (if usable && negb (bool_decide (is_Some readyAt)) then 1 else 0).
      generalize (if usable && negb (bool_decide (is_Some (ws_readyAt st))) then 1 else 0). intros r r' Hrr F1 F2.
      assert (1 <= Z.of_nat fuel - r) as Hfuel.
      { destruct (Z.le_gt_cases 1 (Z.of_nat fuel - r)); [done|]. assert (Z.of_nat fuel + 1 - 1 - r <= 0) by lia. unfold Time, Duration in *. nia. }
      split; [lia|]. rewrite Hcl. unfold Time, Duration in *. nia.
Qed.

(** *** The wait *)

Lemma wakeTimeout_pos a : 0 < wakeTimeout cfg a.
Proof.
  unfold wakeTimeout, agentWakeTimeout, maxWakeTimeout, defaultMaxWakeTimeout, Minute, Second.
  destruct (Z.ltb_spec 0 (MaxWakeTimeout cfg)), (ai_EffectiveWakeTimeout a) as [e|]; try destruct (Z.ltb_spec 0 e); destruct (Z.ltb_spec 0 (ai_WakeTimeout a));
    unfold Duration in *; lia.
Qed.

Lemma wait_reachable_spec c path a inside ws w : waits_ok w →
  let r := waitAgentReachable cfg x c path a inside ws w in
  within (mk_cost (wakeTimeout cfg a + Z.max 0 (AgentConnectTimeout cfg) + c_time (loop_left inside ws)) (c_wakes (loop_left inside ws)) 0 0) w r.2 ∧
  r.1.1 ≠ OutOfFuel.
Proof.
  intros Hok. unfold waitAgentReachable. rewrite bind_run. cbn [clock fst snd]. pose proof (wakeTimeout_pos a) as Hpos.
  destruct (wait_loop_spec (wait_fuel cfg a) c path a inside (x_usable x) (w_clock w) (w_clock w + wakeTimeout cfg a)
    (mk_wait_state None None 0 ws) w Hok) as [Hw Hf]. split.
  - eapply within_le; [|exact Hw]. cbn [ws_wakeStart]. destruct inside, ws; cbn [loop_left wake_left]; cost_tac.
  - apply Hf. unfold fuel_ok, wait_fuel. cbn [ws_readyAt]. set (r := if x_usable x && _ then 1 else 0).
    assert (0 <= r <= 1) as Hr by (unfold r; destruct (x_usable x && _); lia). clearbody r.
    assert (0 < wakeConfirmQuickInterval) as Hq by (unfold wakeConfirmQuickInterval, Millisecond; lia).
    pose proof (Z.div_mod (wakeTimeout cfg a) wakeConfirmQuickInterval ltac:(lia)) as Hd.
    pose proof (Z.mod_pos_bound (wakeTimeout cfg a) wakeConfirmQuickInterval Hq) as Hm.
    assert (0 <= wakeTimeout cfg a / wakeConfirmQuickInterval) by (apply Z.div_pos; lia).
    rewrite Nat2Z.inj_add, Z2Nat.id by done. unfold Time, Duration in *. split; [lia|]. nia.
Qed.

Definition wait_time (a : AgentInfo) : Duration := activatorWorstCase + wakeTimeout cfg a + Z.max 0 (AgentConnectTimeout cfg).

Lemma takes_waitReachable c path a inside ws : takes (waitAgentReachable cfg x c path a inside ws)
  (mk_cost (wakeTimeout cfg a + Z.max 0 (AgentConnectTimeout cfg) + c_time (loop_left inside ws)) (c_wakes (loop_left inside ws)) 0 0) (λ _, True).
Proof. intros w Hok. split; [by apply wait_reachable_spec|done]. Qed.

Lemma takes_await_held c path a wake : takes (await_held cfg x c path a wake) (mk_cost (wait_time a) 1 0 0) (λ _, True).
Proof.
  assert (∀ (r : wait_result * option Time) start, takes (let* now := clock in
      match r.1 with
      | Reached => match r.2 with Some _ => perform emit (EWakeDuration (ai_Namespace a) "ready") in ret None | None => ret None end
      | WakeFailed f => ret (Some f)
      | _ =>
          match r.2 with
          | None => ret (Some (mk_wait_failure errDeliveryFailed (podWaitError cfg c a (Sub now start) now)))
          | Some _ => perform emit (EWakeDuration (ai_Namespace a) "wake_timeout") in ret (Some (mk_wait_failure errWakeTimeout (podWaitError cfg c a (Sub now start) now)))
          end
      end) free (λ _, True)) as Hend.
  { intros [r ws] start. apply takes_free; [apply takes_clock|]. intros now. cbn [fst snd].
    destruct r; try destruct ws; first [by apply takes_ret|apply takes_quiet_emit; [done|by apply takes_ret]]. }
  unfold await_held. apply takes_free; [apply takes_clock|]. intros start. pose proof (wakeTimeout_pos a). destruct wake; cbn [negb].
  - eapply takes_le; [|eapply takes_bind; [apply takes_requestWake|]].
    2: { intros [f|] _; [|eapply takes_then; [apply takes_waitReachable|intros r _; apply Hend]].
         eapply takes_le; [|by apply takes_ret]. cbn [loop_left]. cost_tac. }
    cbn [loop_left]. unfold wait_time. cost_tac.
  - apply takes_free; [by apply takes_ret|]. intros [f|].
    + pose proof activator_nonneg. eapply takes_le; [|by apply takes_ret]. unfold wait_time. cost_tac.
    + eapply takes_then; [eapply takes_le; [|apply takes_waitReachable]|intros r _; apply Hend]. cbn [loop_left wake_left]. unfold wait_time. cost_tac.
Qed.

(** The slot is taken and given back. *)
Lemma takes_awaitPod c path a wake : takes (awaitPod cfg x c path a wake) (mk_cost (wait_time a) 1 1 0) (λ _, True).
Proof.
  intros w Hok. split; [|done]. unfold awaitPod. rewrite bind_run. unfold acquirePodWait. pose proof activator_nonneg. pose proof (wakeTimeout_pos a).
  set (held := default 0 (w_waits w !! agent_key a)).
  assert (0 <= held) as Hheld. { unfold held. destruct (w_waits w !! agent_key a) as [n|] eqn:E; [|done]. specialize (Hok _ _ E). cbn in *. lia. }
  destruct (maxPodWaitsPerAgent cfg <=? held); cbn [fst snd negb].
  { assert (takes (perform emit EPodWaitRefused in ret (Some (wait_refused cfg))) free (λ _, True)) as Ht
      by (apply takes_quiet_emit; [done|by apply takes_ret]).
    eapply within_le; [|apply Ht; done]. unfold wait_time. cost_tac. }
  set (w1 := set_waits _ w).
  assert (waits_ok w1) as Hok1. { unfold waits_ok, w1. cbn. apply map_Forall_insert_2; [lia|done]. }
  assert (takes (perform emit EPodWait in await_held cfg x c path a wake) (cost_add (event_cost EPodWait) (mk_cost (wait_time a) 1 0 0)) (λ _, True)) as Ht.
  { eapply takes_bind; [apply takes_emit|]. intros _ _. apply takes_await_held. }
  destruct (Ht w1 Hok1) as [Hw _].
  change ((perform emit EPodWait in let* f := await_held cfg x c path a wake in perform releasePodWait a in ret f) w1)
    with ((let* f := (perform emit EPodWait in await_held cfg x c path a wake) in perform releasePodWait a in ret f) w1).
  rewrite bind_run. revert Hw. generalize ((perform emit EPodWait in await_held cfg x c path a wake) w1). intros [f w2] (Hc & Hws & es & He & T1 & T2 & T3).
  cbn [fst snd] in *. rewrite bind_run. cbn [releasePodWait fst snd ret]. split; [cbn in *; unfold Time in *; lia|]. split.
  - cbn [w_waits set_waits]. rewrite Hws. unfold w1. cbn [w_waits set_waits]. rewrite lookup_insert_eq. cbn [from_option id].
    replace (held + 1 - 1) with held by lia. unfold held. destruct (w_waits w !! agent_key a) as [n|] eqn:E; cbn [from_option id].
    + specialize (Hok _ _ E). cbn in Hok. destruct (Z.leb_spec n 0); [lia|]. by rewrite insert_insert_eq, insert_id.
    + cbn. by rewrite delete_insert_id.
  - exists es. split; [done|]. cbn in *. lia.
Qed.

(** *** The schedule *)

Lemma takes_deliverOnce c url payload : takes (deliverOnce cfg x c url payload) (mk_cost (Z.max 0 (AgentReadTimeout cfg)) 0 0 1) (λ _, True).
Proof.
  unfold deliverOnce.
  change (let* now := clock in perform emit (EAttempt url payload) in let* r := call (withTimeout c now (AgentReadTimeout cfg)) (x_post x) in
    ret (match r with None => inr deadline_error | Some (PostError e) => inr e | Some (PostStatus status body readErr) => read_reply cfg status body readErr end))
    with (perform emit (EAttempt url payload) in let* now := clock in let* r := call (withTimeout c now (AgentReadTimeout cfg)) (x_post x) in
    ret (match r with None => inr deadline_error | Some (PostError e) => inr e | Some (PostStatus status body readErr) => read_reply cfg status body readErr end)).
  eapply takes_le; [|eapply takes_bind; [apply takes_emit|]].
  2: { intros _ _. apply takes_timed. intros r. by apply takes_ret. }
  cost_tac.
Qed.

Definition delays (l : list Duration) : Z := foldr (λ d n, Z.max 0 d + n) 0 l.

Lemma delays_nonneg l : 0 <= delays l.
Proof. induction l; cbn; [done|]. fold (delays l). lia. Qed.

Definition schedule_cost (a : AgentInfo) (podWait : bool) (backoff : list Duration) : cost :=
  mk_cost (Z.of_nat (length backoff) * Z.max 0 (AgentReadTimeout cfg) + delays backoff + (if podWait then wait_time a else 0))
    (if podWait then 1 else 0) (if podWait then 1 else 0) (length backoff).

Lemma takes_deliver_loop c path a url payload total podWait skip lastErr backoff :
  takes (deliver_loop cfg x c path a url payload total podWait skip lastErr backoff) (schedule_cost a podWait backoff) (λ _, True).
Proof.
  pose proof activator_nonneg as Hact. pose proof (wakeTimeout_pos a) as Hwt.
  assert (0 <= wait_time a) as Hw0 by (unfold wait_time, Duration in *; lia).
  revert podWait skip lastErr. induction backoff as [|delay rest IH]; intros podWait skip lastErr; cbn [deliver_loop].
  { eapply takes_le; [|by apply takes_ret]. unfold schedule_cost. destruct podWait; cbn [length delays foldr]; cost_tac. }
  pose proof (delays_nonneg rest) as Hd0.
  assert (takes (if (0 <? delay) && negb skip then sleep c delay else ret false) (lasting delay) (λ _, True)) as Hsleep.
  { destruct (_ && _); [apply takes_sleep|]. eapply takes_le; [|by apply takes_ret]. cost_tac. }
  set (tail_cost := mk_cost (Z.of_nat (length rest) * Z.max 0 (AgentReadTimeout cfg) + delays rest + (if podWait then wait_time a else 0))
    (if podWait then 1 else 0)%nat (if podWait then 1 else 0)%nat (length rest)).
  assert (cost_le free tail_cost) as Hfree by (unfold tail_cost; destruct podWait; cost_tac).
  assert (takes (let* r := deliverOnce cfg x c url payload in
        match r with
        | inl body => perform emit (EDeliveryAttempt (ai_Namespace a) "ok") in ret (inl body)
        | inr e =>
            let outcome := deliveryOutcome e in
            perform emit (EDeliveryAttempt (ai_Namespace a) outcome) in
            if (outcome =? "too_large")%string then ret (inr (mk_delivery_error (ge_text e) None))
            else if podWait && negb (bool_decide (rest = [])) && connect_failed e then
              let* f := awaitPod cfg x c path a false in
              match f with
              | Some f => ret (inr (mk_delivery_error (wf_err f +:+ ("; last attempt: " +:+ ge_text e)) (Some f)))
              | None => deliver_loop cfg x c path a url payload total false true (ge_text e) rest
              end
            else deliver_loop cfg x c path a url payload total podWait false (ge_text e) rest
        end) (cost_add (mk_cost (Z.max 0 (AgentReadTimeout cfg)) 0 0 1) tail_cost) (λ _, True)) as Hrest.
  { eapply takes_bind; [apply takes_deliverOnce|]. intros [body|e] _.
    - apply takes_quiet_emit; [done|]. eapply takes_le; [exact Hfree|by apply takes_ret].
    - cbv zeta. apply takes_quiet_emit; [done|]. destruct (_ =? _)%string; [eapply takes_le; [exact Hfree|by apply takes_ret]|].
      destruct (podWait && negb (bool_decide (rest = [])) && connect_failed e) eqn:Ew; [|apply IH].
      apply andb_true_iff in Ew as [[-> _]%andb_true_iff _].
      eapply takes_le; [|eapply takes_bind; [apply takes_awaitPod|]].
      2: { intros [f|] _; [|apply IH]. eapply takes_le; [|by apply takes_ret]. unfold schedule_cost. cost_tac. }
      unfold tail_cost, schedule_cost. cost_tac. }
  eapply takes_le; [|eapply takes_bind; [exact Hsleep|]].
  2: { intros [] _; [|exact Hrest]. eapply takes_le; [|by apply takes_ret]. unfold tail_cost. destruct podWait; cost_tac. }
  unfold tail_cost, schedule_cost. cbn [length delays foldr]. fold (delays rest). destruct podWait; cost_tac.
Qed.

(** *** The whole delivery *)

Record config_ok : Prop := mk_config_ok {
  ok_read : 0 <= AgentReadTimeout cfg;
  ok_connect : 0 <= AgentConnectTimeout cfg;
  ok_backoff : Forall (λ d, 0 <= d) (DeliveryBackoff cfg);
}.

Lemma schedule_worst_case backoff rt : Forall (λ d, 0 <= d) backoff → 0 <= rt →
  Z.of_nat (length (0 :: backoff)) * Z.max 0 rt + delays (0 :: backoff) = retryScheduleWorstCase backoff rt.
Proof.
  intros Hb Hrt. unfold retryScheduleWorstCase. rewrite Z.max_r by done. cbn [length delays foldr].
  assert (∀ n, foldl Z.add n backoff = n + delays backoff) as Hf.
  { induction Hb as [|d l Hd _ IH]; intros n; cbn; [lia|]. fold (delays l). rewrite IH. lia. }
  rewrite Hf, Nat.add_1_r. fold (delays backoff). change (Z.max 0 0) with 0. unfold Duration in *. ring.
Qed.

Definition delivery_cost (a : AgentInfo) : cost :=
  mk_cost (wait_time a + retryScheduleWorstCase (DeliveryBackoff cfg) (AgentReadTimeout cfg)) 1 1 (length (DeliveryBackoff cfg) + 1).

Lemma takes_deliver_step c path a env waited : config_ok → takes (deliver_step cfg x c path a env waited)
  (mk_cost (retryScheduleWorstCase (DeliveryBackoff cfg) (AgentReadTimeout cfg) + (if waited then 0 else wait_time a))
     (if waited then 0 else 1) (if waited then 0 else 1) (length (DeliveryBackoff cfg) + 1)) (λ _, True).
Proof.
  intros Hok. unfold deliver_step. eapply takes_then.
  - unfold deliverToAgent. eapply takes_le; [|apply takes_deliver_loop]. unfold schedule_cost.
    rewrite <- schedule_worst_case by apply Hok. cbn [length]. destruct waited; cbn [negb]; cost_tac.
  - intros [body|e] _.
    + apply takes_free; [apply takes_activity|]. intros _. apply takes_free; [|intros _; by apply takes_ret].
      destruct (_ =? _)%string; [by apply takes_ret|apply takes_health].
    + destruct (Contains _ _); [by apply takes_ret|]. destruct (de_wait e) as [f|]; [destruct (negb _)|].
      all: apply takes_free; [first [apply takes_podWaitFailed|apply takes_recordFailure]|intros _; by apply takes_ret].
Qed.

Lemma takes_wait_step c path a wake k d : takes k d (λ _, True) → cost_le free d →
  takes (wait_step cfg x c path a wake k) (cost_add (mk_cost (wait_time a) 1 1 0) d) (λ _, True).
Proof.
  intros Hk Hd. unfold wait_step. eapply takes_bind; [apply takes_awaitPod|]. intros [f|] _; [|done].
  eapply takes_le; [exact Hd|]. apply takes_free; [apply takes_podWaitFailed|]. intros _. by apply takes_ret.
Qed.

Lemma takes_wakeAndDeliver c path a env : config_ok → takes (wakeAndDeliver cfg x c path a env) (delivery_cost a) (λ _, True).
Proof.
  intros Hok. unfold wakeAndDeliver. eapply takes_then; [|intros r _; apply takes_quiet_emit; [done|by apply takes_ret]].
  assert (0 <= retryScheduleWorstCase (DeliveryBackoff cfg) (AgentReadTimeout cfg)) as Hs.
  { rewrite <- schedule_worst_case by apply Hok. pose proof (delays_nonneg (0 :: DeliveryBackoff cfg)). nia. }
  unfold wake_and_deliver. destruct (needsWake (ai_Phase a)); [|destruct (_ || _)].
  - eapply takes_le; [|apply takes_wait_step; [by apply takes_deliver_step|]]; unfold delivery_cost; cost_tac.
  - eapply takes_le; [|apply takes_wait_step; [by apply takes_deliver_step|]]; unfold delivery_cost; cost_tac.
  - eapply takes_le; [|by apply takes_deliver_step]. unfold delivery_cost. cost_tac.
Qed.
End server.

(** What a delivery promises: it ends in bounded time with its slot given
    back, a sync caller is answered by its deadline, and what it returns is
    what the Agent of the message answered to the message. *)


Local Open Scope Z_scope.
Local Open Scope delivery_scope.

(** ** Runs

    [runs c P R m]: [m] ends by the end of [c] when it has one, every event it
    logs satisfies [P], and its result satisfies [R]. *)

Definition runs (c : ctx) (P : event → Prop) {A} (R : A → Prop) (m : M A) : Prop :=
  ∀ w, R (m w).1 ∧ (∀ t, c = Some t → w_clock (m w).2 <= Z.max (w_clock w) t) ∧
    ∃ es, w_events (m w).2 = w_events w ++ es ∧ Forall P es.

Definition tighter (c' c : ctx) : Prop := ∀ t, c = Some t → ∃ t', c' = Some t' ∧ t' <= t.

Lemma tighter_refl c : tighter c c.
Proof. intros t ->. exists t. split; [done|lia]. Qed.
Lemma tighter_timeout c' c now d : tighter c' c → tighter (withTimeout c' now d) c.
Proof. intros H t ->. destruct (H t eq_refl) as (t' & -> & Hle). eexists. split; [done|]. unfold Time, Duration in *. lia. Qed.

Create HintDb runs.
#[export] Hint Resolve tighter_refl tighter_timeout : runs.

Section logic.
Context (c : ctx) (P : event → Prop).

Lemma runs_quiet {A} (R : A → Prop) (m : M A) :
  (∀ w, R (m w).1 ∧ w_clock (m w).2 = w_clock w ∧ w_events (m w).2 = w_events w) → runs c P R m.
Proof.
  intros H w. destruct (H w) as (HR & Hc & He). split; [done|]. split; [intros t _; unfold Time in *; lia|].
  exists []. by rewrite He, List.app_nil_r.
Qed.

Lemma runs_ret {A} (R : A → Prop) (a : A) : R a → runs c P R (ret a).
Proof. intros H. apply runs_quiet. done. Qed.

Lemma runs_bind {A B} (R : A → Prop) (S : B → Prop) (m : M A) (k : A → M B) :
  runs c P R m → (∀ a, R a → runs c P S (k a)) → runs c P S (bind m k).
Proof.
  intros Hm Hk w. rewrite bind_run. destruct (Hm w) as (HR & Ht & es & He & HP). destruct (Hk _ HR (m w).2) as (HS & Ht' & es' & He' & HP').
  split; [done|]. split; [intros t Ec; specialize (Ht t Ec); specialize (Ht' t Ec); unfold Time in *; lia|].
  exists (es ++ es'). rewrite He', He, List.app_assoc. split; [done|]. by apply Forall_app.
Qed.

(** A step whose result nothing depends on. *)
Lemma runs_seq {A B} (S : B → Prop) (m : M A) (k : A → M B) :
  runs c P (λ _, True) m → (∀ a, runs c P S (k a)) → runs c P S (bind m k).
Proof. intros Hm Hk. eapply runs_bind; [exact Hm|auto]. Qed.

Lemma runs_weaken {A} (R S : A → Prop) (m : M A) : (∀ a, R a → S a) → runs c P R m → runs c P S m.
Proof. intros H Hm w. destruct (Hm w) as (HR & Hrest). split; [by apply H|done]. Qed.

Lemma runs_clock : runs c P (λ _, True) clock.
Proof. by apply runs_quiet. Qed.
Lemma runs_next : runs c P (λ _, True) next_call.
Proof. by apply runs_quiet. Qed.
Lemma runs_health f : runs c P (λ _, True) (on_health f).
Proof. by apply runs_quiet. Qed.
Lemma runs_activity f : runs c P (λ _, True) (on_activity f).
Proof. by apply runs_quiet. Qed.
Lemma runs_acquire cfg a : runs c P (λ _, True) (acquirePodWait cfg a).
Proof. apply runs_quiet. intros w. unfold acquirePodWait. by destruct (_ <=? _). Qed.
Lemma runs_release a : runs c P (λ _, True) (releasePodWait a).
Proof. by apply runs_quiet. Qed.

Lemma runs_emit e : P e → runs c P (λ _, True) (emit e).
Proof. intros He w. split; [done|]. split; [intros t _; cbn; unfold Time; lia|]. exists [e]. split; [done|]. by constructor. Qed.

Lemma runs_call {A} c' (f : nat → A * Duration) : tighter c' c →
  runs c P (λ r, ∀ a, r = Some a → ∃ n d, f n = (a, d)) (call c' f).
Proof.
  intros Hc w. unfold call. rewrite bind_run. cbn [next_call fst snd w_clock w_calls]. destruct (f (w_calls w)) as [a d] eqn:Ef.
  assert (∀ b, Some a = Some b → ∃ n d, f n = (b, d)) as Hans by (intros b [= <-]; eauto).
  destruct c' as [t'|].
  - destruct (Z.leb_spec (w_clock w + Z.max 0 d) t') as [Hle|Hgt]; cbn [fst snd set_clock w_clock w_events].
    + split; [done|]. split; [|exists []; by rewrite List.app_nil_r]. intros t Et. destruct (Hc t Et) as (? & [= <-] & ?). unfold Time, Duration in *; lia.
    + split; [done|]. split; [|exists []; by rewrite List.app_nil_r]. intros t Et. destruct (Hc t Et) as (? & [= <-] & ?). unfold Time, Duration in *; lia.
  - split; [done|]. split; [|exists []; by rewrite List.app_nil_r]. intros t Et. by destruct (Hc t Et) as (? & ? & ?).
Qed.

Lemma runs_sleep d : runs c P (λ _, True) (sleep c d).
Proof.
  intros w. unfold sleep. split; [done|]. destruct c as [t|]; [destruct (Z.ltb_spec t (w_clock w + Z.max 0 d))|];
    cbn; (split; [|exists []; by rewrite List.app_nil_r]); intros t0 Et; (discriminate Et || injection Et as <-); unfold Time, Duration in *; lia.
Qed.
End logic.

#[export] Hint Resolve runs_clock runs_next runs_health runs_activity runs_acquire runs_release runs_sleep runs_emit : runs.
#[export] Hint Extern 1 (runs _ _ (λ _, True) (call _ _)) => (eapply runs_weaken; [|apply runs_call]; [done|auto with runs]) : runs.
#[export] Hint Extern 1 (runs _ _ _ (ret _)) => (apply runs_ret; done) : runs.

(** Walks a computation down to the steps the hints know. *)
Ltac run_step :=
  match goal with
  | |- runs _ _ _ (bind _ _) => apply runs_seq; [|intros ?]
  | |- runs _ _ _ (match ?b with _ => _ end) => destruct b
  | |- runs _ _ _ (if ?b then _ else _) => destruct b
  | |- runs _ _ _ (let _ := _ in _) => cbv zeta
  | |- runs _ _ _ _ => solve [auto with runs]
  end.
Ltac run_all := repeat run_step.

(** ** Every step of a delivery *)

(** The events a delivery logs besides its attempts. *)
Definition delivery_event (e : event) : bool :=
  match e with
  | EActivator | EPodWait | EPodWaitRefused | EChannelMessage _ _ _ | EChannelWake _ | EWakeDuration _ _ | EDeliveryAttempt _ _
  | EResponseTooLarge _ _ => true
  | _ => false
  end.

Section server.
Context (cfg : Config) (x : outside) (c : ctx) (P : event → Prop).
Hypothesis quiet : ∀ e, delivery_event e = true → P e.

#[local] Hint Extern 1 (P _) => (by apply quiet) : runs.

Lemma runs_Wake : runs c P (λ _, True) (Wake x c).
Proof. unfold Wake, wakeOnce. run_all. Qed.
#[local] Hint Resolve runs_Wake : runs.

Lemma runs_recordFailure path reason msg : runs c P (λ _, True) (recordChannelFailure path reason msg).
Proof. unfold recordChannelFailure. run_all. Qed.
#[local] Hint Resolve runs_recordFailure : runs.

Lemma runs_podWaitFailed path f d : runs c P (λ _, True) (podWaitFailed path f d).
Proof. unfold podWaitFailed. run_all. Qed.
#[local] Hint Resolve runs_podWaitFailed : runs.

Lemma runs_requestWake path a : runs c P (λ _, True) (requestWake x c path a).
Proof. unfold requestWake. run_all. Qed.
#[local] Hint Resolve runs_requestWake : runs.

Lemma runs_check target : runs c P (λ _, True) (check_agent cfg x c target).
Proof. unfold check_agent. run_all. Qed.
Lemma runs_missed path a ws : runs c P (λ _, True) (missed x c path a ws).
Proof. unfold missed. run_all. Qed.
Lemma runs_wait_sleep d ar : runs c P (λ _, True) (wait_sleep x c d ar).
Proof. unfold wait_sleep. run_all. Qed.
#[local] Hint Resolve runs_check runs_missed runs_wait_sleep : runs.

Lemma runs_wait_loop fuel path a inside usable start deadline st :
  runs c P (λ _, True) (wait_loop cfg x fuel c path a inside usable start deadline st).
Proof. revert st. induction fuel as [|fuel IH]; intros st; cbn [wait_loop]; run_all. Qed.
#[local] Hint Resolve runs_wait_loop : runs.

Lemma runs_awaitPod path a wake : runs c P (λ _, True) (awaitPod cfg x c path a wake).
Proof. unfold awaitPod, await_held, waitAgentReachable. run_all. Qed.
#[local] Hint Resolve runs_awaitPod : runs.

(** A reply read: the whole of a 2xx answer, in bounds and well formed. *)
Definition answered (body : bytes) : Prop :=
  (∃ n s d, x_post x n = (PostStatus s body None, d) ∧ 200 <= s <= 299) ∧
  Z.of_nat (length body) <= MaxResponseBodyBytes cfg ∧ is_Some (response_content body).

Definition answer_ok {E} (r : bytes + E) : Prop := match r with inl body => answered body | inr _ => True end.

Lemma read_reply_ok n s body re d : x_post x n = (PostStatus s body re, d) → answer_ok (read_reply cfg s body re).
Proof.
  intros Hx. unfold read_reply. destruct (Z.ltb_spec s 200); [done|]. destruct (Z.ltb_spec 299 s); [done|]. cbn [orb]. cbv zeta.
  set (limit := Z.to_nat (MaxResponseBodyBytes cfg + 1)).
  destruct (Nat.ltb_spec (length body) limit) as [Hl|Hl].
  - destruct re as [e|]; [done|]. rewrite firstn_all2 by lia.
    destruct (Z.ltb_spec (MaxResponseBodyBytes cfg) (Z.of_nat (length body))); [done|].
    destruct (response_content body) eqn:Er; [|done]. split; [|split]; [by exists n, s, d; repeat split|done|by rewrite Er].
  - assert (length (firstn limit body) = limit) as Hlen by (rewrite length_firstn; lia). rewrite Hlen.
    destruct (Z.ltb_spec (MaxResponseBodyBytes cfg) (Z.of_nat limit)); [done|]. unfold limit in *. lia.
Qed.

Lemma runs_deliverOnce url payload : P (EAttempt url payload) → runs c P answer_ok (deliverOnce cfg x c url payload).
Proof.
  intros HP. unfold deliverOnce. apply runs_seq; [auto with runs|intros now]. apply runs_seq; [auto with runs|intros _].
  eapply runs_bind; [apply runs_call; auto with runs|]. intros [[e|s body re]|] Hr; apply runs_ret; [done| |done].
  destruct (Hr _ eq_refl) as (n & d & Hn). by eapply read_reply_ok.
Qed.

Lemma runs_deliver_loop path a url payload total podWait skip lastErr backoff : P (EAttempt url payload) →
  runs c P answer_ok (deliver_loop cfg x c path a url payload total podWait skip lastErr backoff).
Proof.
  intros HP. revert podWait skip lastErr. induction backoff as [|delay rest IH]; intros podWait skip lastErr; cbn [deliver_loop]; [by apply runs_ret|].
  apply runs_seq; [run_all|intros [] ]; [by apply runs_ret|]. eapply runs_bind; [by apply runs_deliverOnce|].
  intros [body|e] Hr; [|run_all]. apply runs_seq; [auto with runs|intros _; by apply runs_ret].
Qed.

Lemma runs_wakeAndDeliver path a env : P (EAttempt (message_url cfg a) (marshal_envelope env)) →
  runs c P answer_ok (wakeAndDeliver cfg x c path a env).
Proof.
  intros HP.
  assert (∀ waited, runs c P answer_ok (deliver_step cfg x c path a env waited)) as Hs.
  { intros waited. unfold deliver_step, deliverToAgent. eapply runs_bind; [by apply runs_deliver_loop|]. intros [body|e] Hr; [|run_all].
    apply runs_seq; [auto with runs|intros _]. apply runs_seq; [run_all|intros _]. by apply runs_ret. }
  unfold wakeAndDeliver, wake_and_deliver, wait_step. eapply runs_bind; [|intros r Hr; apply runs_seq; [auto with runs|intros _; by apply runs_ret]].
  run_all; apply Hs.
Qed.
End server.

(** ** What is recorded *)

(** [closes Q m]: whatever comes before, the end of [m] satisfies [Q]. *)
Definition closes {A} (Q : A → world → Prop) (m : M A) : Prop := ∀ w, Q (m w).1 (m w).2.

Lemma closes_bind {A B} (Q : B → world → Prop) (m : M A) (k : A → M B) : (∀ a, closes Q (k a)) → closes Q (bind m k).
Proof. intros H w. rewrite bind_run. apply H. Qed.

(** A delivered message is traffic of its Agent, and a success of its channel. *)
Definition delivery_recorded (path : string) (a : AgentInfo) {E} (r : bytes + E) (w : world) : Prop :=
  match r with
  | inl _ =>
      (∃ s, w_activity w = RecordTraffic s (w_clock w) (ai_Namespace a) (ai_Name a)) ∧
      (path ≠ "" → ∃ h, w_health w = RecordSuccess h (w_clock w) (w_clock w) path)
  | inr _ => True
  end.

Lemma closes_deliver_step cfg x c path a env waited : closes (delivery_recorded path a) (deliver_step cfg x c path a env waited).
Proof.
  unfold deliver_step. apply closes_bind. intros [body|e].
  - intros w. rewrite !bind_run. destruct (String.eqb_spec path "") as [->|Hp]; (split; [by eexists|]); [done|]. intros _. by eexists.
  - destruct (Contains _ _); [done|]. destruct (de_wait e) as [f|]; [destruct (negb _)|]; apply closes_bind; done.
Qed.

Lemma closes_wakeAndDeliver cfg x c path a env : closes (delivery_recorded path a) (wakeAndDeliver cfg x c path a env).
Proof.
  intros w. unfold wakeAndDeliver. rewrite !bind_run. cbn [ret fst snd emit w_activity w_health w_clock].
  assert (closes (delivery_recorded path a) (wake_and_deliver cfg x c path a env)) as H.
  { assert (∀ wake k, closes (delivery_recorded path a) k → closes (delivery_recorded path a) (wait_step cfg x c path a wake k)) as Hw.
    { intros wake k Hk. unfold wait_step. apply closes_bind. intros [f|]; [by apply closes_bind|done]. }
    unfold wake_and_deliver. destruct (needsWake _); [|destruct (_ || _)]; repeat apply Hw; apply closes_deliver_step. }
  specialize (H w). destruct (wake_and_deliver cfg x c path a env w) as [[body|f] w1]; done.
Qed.

(** ** The claims *)

(** C6: A background delivery ends within the bound of its pipeline with the
    margin to spare, whatever the activator, the resolver and the Agent do and
    however long they take.  It gives its Pod wait slot back, asks for at most
    one wake, waits for the Pod at most once, and posts the message at most
    once more than it has backoff delays. *)
Theorem delivery_is_bounded cfg x c path a env w :
  config_ok cfg → waits_ok w →
  let w' := (wakeAndDeliver cfg x c path a env w).2 in
  w_clock w <= w_clock w' ∧ w_clock w' + pipelineMargin <= w_clock w + backgroundPipelineBound cfg (Some a) 0 ∧
  w_waits w' = w_waits w ∧
  ∃ es, w_events w' = w_events w ++ es ∧ (tally is_activator es ≤ 1)%nat ∧ (tally is_wait es ≤ 1)%nat ∧
    (tally is_attempt es ≤ length (DeliveryBackoff cfg) + 1)%nat.
Proof.
  intros Hc Hw. cbv zeta. destruct (takes_wakeAndDeliver cfg x c path a env Hc w Hw) as [(Ht & Hws & Hes) _].
  destruct Ht as [H1 H2]. split; [done|]. split; [|done]. unfold backgroundPipelineBound.
  cbn [delivery_cost c_time] in H2. unfold wait_time in H2. rewrite Z.max_r in H2 by apply Hc. unfold Time, Duration in *. lia.
Qed.

(** C27: The wait for an Agent's Pod always ends: at the latest once the
    capped wakeTimeout, one connect timeout and one activator call are over,
    with the Agent reached, the caller's context ended, the wait expired or
    the wake refused, and never because the turns of the loop ran out. *)
Theorem pod_wait_ends cfg x c path a inside ws w :
  waits_ok w →
  let r := waitAgentReachable cfg x c path a inside ws w in
  r.1.1 ≠ OutOfFuel ∧
  w_clock r.2 <= w_clock w + wakeTimeout cfg a + Z.max 0 (AgentConnectTimeout cfg) + activatorWorstCase.
Proof.
  intros Hw. cbv zeta. destruct (wait_reachable_spec cfg x c path a inside ws w Hw) as [[[_ Ht] _] Hf]. split; [done|].
  pose proof activator_nonneg. cbn [c_time] in Ht. destruct inside, ws; cbn [loop_left wake_left c_time free] in Ht; unfold Time, Duration in *; lia.
Qed.

(** C7: What a delivery returns is what the Agent said: the whole body of a
    2xx answer to the message, within the size limit and a well-formed
    response envelope.  Every attempt went to the Agent's own address with the
    message's envelope, and the delivery is recorded as the Agent's traffic
    and the channel's success at the moment it ends. *)
Theorem delivered_is_the_agents_answer cfg x c path a env w body w' :
  wakeAndDeliver cfg x c path a env w = (inl body, w') →
  answered cfg x body ∧ delivery_recorded path a (inl body : bytes + failure) w' ∧
  ∃ es, w_events w' = w_events w ++ es ∧
    ∀ url payload, In (EAttempt url payload) es → url = message_url cfg a ∧ payload = marshal_envelope env.
Proof.
  intros E. set (P := λ e, match e with EAttempt url payload => url = message_url cfg a ∧ payload = marshal_envelope env | _ => True end).
  destruct (runs_wakeAndDeliver cfg x c P ltac:(by intros []) path a env (conj eq_refl eq_refl) w) as (HR & _ & es & He & HP).
  pose proof (closes_wakeAndDeliver cfg x c path a env w) as Hrec. rewrite E in HR, He, Hrec. split; [exact HR|]. split; [exact Hrec|].
  exists es. split; [done|]. intros url payload Hin. rewrite List.Forall_forall in HP. apply (HP _ Hin).
Qed.

(** A sync caller is answered by the sync deadline, or by the end of its
    own request when that comes first, however long the wake and the Agent
    take.  A failure once that time is up is the 504 of the deadline. *)
Theorem sync_answer_in_time cfg x c path a env w : 0 <= SyncDeliveryDeadline cfg →
  let limit := withTimeout c (w_clock w) (SyncDeliveryDeadline cfg) in
  let r := handleSyncDelivery cfg x c path a env w in
  w_clock r.2 <= w_clock w + SyncDeliveryDeadline cfg ∧
  (∀ t, c = Some t → w_clock r.2 <= Z.max (w_clock w) t) ∧
  match r.1 with
  | inl body => answered cfg x body
  | inr e => ended limit (w_clock r.2) = true → resp_status e = 504
  end.
Proof.
  intros Hd. cbv zeta. unfold handleSyncDelivery. rewrite bind_run. cbn [clock fst snd]. set (limit := withTimeout c (w_clock w) (SyncDeliveryDeadline cfg)).
  destruct (runs_wakeAndDeliver cfg x limit (λ _, True) ltac:(done) path a env I w) as (HR & Ht & _). rewrite bind_run.
  revert HR Ht. generalize (wakeAndDeliver cfg x limit path a env w). intros [r w1] HR Ht. cbn [fst snd] in *.
  specialize (Ht _ eq_refl).
  assert (w_clock w1 <= w_clock w + SyncDeliveryDeadline cfg ∧ ∀ t, c = Some t → w_clock w1 <= Z.max (w_clock w) t) as [H1 H2].
  { split; [destruct c; unfold Time, Duration in *; lia|]. intros t ->. unfold Time, Duration in *. lia. }
  destruct r as [body|f]; [done|]. rewrite bind_run. cbn [fst snd ret].
  assert (∀ ns, w_clock (writeSyncError cfg limit ns f w1).2 = w_clock w1) as Hclk.
  { intros ns. unfold writeSyncError. rewrite !bind_run. by destruct (_ && _). }
  rewrite Hclk. split; [done|]. split; [done|]. intros Hend. unfold writeSyncError. rewrite !bind_run. cbn [clock fst snd ret]. by rewrite Hend.
Qed.

(** ** A delivery that wakes its Agent

    The activator answers 503, then 202; the Pod becomes Ready while the wait
    sleeps; the first post is reset, the second is answered. *)

Module Run.
Definition config : Config :=
  mk_config 1000 1000 (30 * Second) (10 * Second) (5 * Second) (60 * Second) 0 0 [Second; 2 * Second] [Second] "" 0.
Definition agent : AgentInfo := mk_agent_info "team" "helper" AgentHibernated None (20 * Second) (Some 9000).
Definition envelope : MessageEnvelope := mk_envelope "m-1" "webhook" "team/hook" "u" "" "hi" [] ∅.
Definition reply : bytes := map (λ c, if Ascii.eqb c "'" then quote else c) (bs "{'content': 'hello'}").

Definition environment : outside := mk_outside true
  (λ n, if decide (n = 0)%nat then (ActStatus 503, Second) else (ActStatus 202, 2 * Second))
  true (λ _, false) (λ _, true) (λ _, Some (100 * Millisecond)) (λ _, None)
  (λ _, (Some "10.0.0.7:9000", Millisecond)) (λ _, (true, Millisecond))
  (λ n, if decide (n = 7)%nat then (PostError (plain_error "connection reset"), Second) else (PostStatus 200 reply None, 3 * Second)).

Definition start : world := mk_world 1000 0 ∅ (NewChannelHealthStore (5 * Minute) 0) (NewActivityStore 0) [].

Definition outcome : (bytes + failure) * world := wakeAndDeliver config environment None "/hook" agent envelope start.
End Run.

Lemma run_config_ok : config_ok Run.config.
Proof. split; [by vm_compute|by vm_compute|]. repeat constructor; by vm_compute. Qed.

Lemma run_waits_ok : waits_ok Run.start.
Proof. apply map_Forall_empty. Qed.

(** The reply arrives with the second post, 8.1 seconds into the run. *)
Lemma delivery_is_bounded_witness :
  let w' := Run.outcome.2 in
  Run.outcome.1 = inl Run.reply ∧ w_clock w' = 8102001000 ∧
  w_clock w' + pipelineMargin <= w_clock Run.start + backgroundPipelineBound Run.config (Some Run.agent) 0 ∧ w_waits w' = ∅ ∧
  tally is_activator (w_events w') = 1%nat ∧ tally is_attempt (w_events w') = 2%nat.
Proof.
  cbv zeta. pose proof (delivery_is_bounded Run.config Run.environment None "/hook" Run.agent Run.envelope Run.start run_config_ok run_waits_ok)
    as (_ & H1 & H2 & _).
  split; [vm_compute; reflexivity|]. split; [vm_compute; reflexivity|]. split; [exact H1|]. split; [exact H2|]. split; vm_compute; reflexivity.
Defined.

Lemma pod_wait_ends_witness :
  let r := waitAgentReachable Run.config Run.environment None "/hook" Run.agent false (Some 1000) Run.start in
  r.1.1 = Reached ∧ r.1.1 ≠ OutOfFuel ∧ w_clock r.2 = 1000 + 102 * Millisecond.
Proof.
  cbv zeta. pose proof (pod_wait_ends Run.config Run.environment None "/hook" Run.agent false (Some 1000) Run.start run_waits_ok) as [H _].
  split; [vm_compute; reflexivity|]. split; [exact H|vm_compute; reflexivity].
Defined.

Lemma delivered_is_the_agents_answer_witness :
  answered Run.config Run.environment Run.reply ∧
  delivery_recorded "/hook" Run.agent (inl Run.reply : bytes + failure) Run.outcome.2.
Proof.
  destruct (delivered_is_the_agents_answer Run.config Run.environment None "/hook" Run.agent Run.envelope Run.start Run.reply Run.outcome.2) as (H1 & H2 & _).
  { change (Run.outcome = (inl Run.reply, Run.outcome.2)). assert (Run.outcome.1 = inl Run.reply) as E by (vm_compute; reflexivity).
    rewrite <- E. destruct Run.outcome. reflexivity. }
  split; [exact H1|exact H2].
Defined.

(** With two seconds, the wake outlives the caller. *)
Lemma sync_answer_in_time_witness :
  let r := handleSyncDelivery (mk_config 1000 1000 (30 * Second) (10 * Second) (5 * Second) (2 * Second) 0 0 [] [] "" 0)
    Run.environment None "/hook" Run.agent Run.envelope Run.start in
  w_clock r.2 = 1000 + 2 * Second ∧ match r.1 with inl _ => False | inr e => resp_status e = 504 end.
Proof.
  cbv zeta. set (cfg := mk_config _ _ _ _ _ _ _ _ _ _ _ _).
  destruct (sync_answer_in_time cfg Run.environment None "/hook" Run.agent Run.envelope Run.start) as (_ & _ & H); [by vm_compute|].
  assert (w_clock (handleSyncDelivery cfg Run.environment None "/hook" Run.agent Run.envelope Run.start).2 = 1000 + 2 * Second) as Et by (vm_compute; reflexivity).
  assert (match (handleSyncDelivery cfg Run.environment None "/hook" Run.agent Run.envelope Run.start).1 with inl _ => False | inr _ => True end) as Ei by (vm_compute; exact I).
  split; [exact Et|]. rewrite Et in H. revert Ei H. destruct ((handleSyncDelivery cfg Run.environment None "/hook" Run.agent Run.envelope Run.start).1) as [b|e]; [done|].
  intros _ H. apply H. vm_compute. reflexivity.
Defined.
