(* ===== verification/AsyncDelivery.v ===== *)
(** Asynchronous webhook delivery: internal/gateway/async.go.

    The polling records, the accepted message's background run, the callback
    and the poll.  What the API server, the resolver and the callback receiver
    answer is given by the number of the call, as for a delivery.  A
    ConfigMap is what the code reads and writes of one.  Log lines are left
    out.

    The second half has its theorems: one settled payload, callbacks within
    the policy, polls that show own records only. *)

From stdpp Require Import base gmap list strings option.
From Stdlib Require Import ZArith Lia Ascii.
From S2P Require Import CallbackPolicy Prelude GoFloat GoTime Rfc3339 RateLimit Auth Activity Json JsonString JsonValue RequestBody JsonDecode UsageReader Conditions AgentLifecycle Sha256 Base64 ProblemList UpstreamPath ToolMessage ToolSession JsonCompact McpWire ToolList ChannelHealth ChannelApi ChannelAuth Envelope PodReady Delivery.

Local Open Scope delivery_scope.

(** ** Addresses *)

(** net.IP.String and netip's text of an IPv6 address. *)
Fixpoint hex_nat (fuel : nat) (z : Z) : bytes :=
  match fuel with
  | O => []
  | S fuel => if (z <? 16)%Z then [hex_digit z] else hex_nat fuel (z / 16) ++ [hex_digit (z mod 16)]
  end.

Definition groups (ip : IP) : list Z := map (λ i, (CallbackPolicy.byte ip (2 * i) * 256 + CallbackPolicy.byte ip (2 * i + 1))%Z) (seq 0 8).

Fixpoint zeros (gs : list Z) : nat := match gs with g :: gs => if (g =? 0)%Z then S (zeros gs) else O | [] => O end.

(** The first longest run of at least two zero groups: its start and length. *)
Definition zero_run (gs : list Z) : option (nat * nat) :=
  foldl (λ best i, let l := zeros (drop i gs) in
    if (2 <=? l)%nat && (match best with Some (_, n) => n | None => O end <? l)%nat then Some (i, l) else best) None (seq 0 8).

Definition group_text (gs : list Z) : string := String.concat ":" (map (λ g, str (hex_nat 4 g)) gs).

Definition ipv6_text (ip : IP) : string :=
  let gs := groups ip in
  match zero_run gs with
  | Some (i, n) => group_text (firstn i gs) +:+ ("::" +:+ group_text (drop (i + n) gs))
  | None => group_text gs
  end.

Definition ip_text (ip : IP) : string :=
  if (length ip =? 0)%nat then "<nil>"
  else if negb ((length ip =? 4)%nat || (length ip =? 16)%nat) then "?" +:+ str (Sha256.hex (map JsonString.byte ip))
  else match To4 ip with
       | Some ip4 => String.concat "." (map (λ b, str (print_Z b)) ip4)
       | None => ipv6_text ip
       end.

Definition JoinHostPort (host port : string) : string :=
  if contains_char ":" host then "[" +:+ (host +:+ ("]:" +:+ port)) else host +:+ (":" +:+ port).

Lemma ip_text_examples :
  ip_text [10; 0; 0; 7]%Z = "10.0.0.7" ∧ ip_text (mapped [192; 0; 2; 1]%Z) = "192.0.2.1" ∧
  ip_text IPv6loopback = "::1" ∧ ip_text ([32; 1; 13; 184] ++ replicate 11 0 ++ [5])%Z = "2001:db8::5" ∧
  JoinHostPort (ip_text IPv6loopback) "443" = "[::1]:443".
Proof. repeat split; vm_compute; reflexivity. Qed.

(** ** The polling records *)

Definition asyncTTL : Duration := (60 * Minute)%Z.
Definition payloadKey : string := "payload".
Definition LabelChannelNamespace : string := "kaalm.io/channel-namespace".
Definition LabelChannelName : string := "kaalm.io/channel-name".
Definition AnnotationExpiresAt : string := "kaalm.io/expires-at".

Record AsyncRecord := mk_async_record {
  CreatedAt : Time;
  ChannelNamespace : string;
  ChannelName : string;
  Payload : option bytes;
}.

Record ConfigMap := mk_config_map {
  cm_Namespace : string;
  cm_Name : string;
  cm_Labels : gmap string string;
  cm_Annotations : gmap string string;
  cm_Data : gmap string string;
  cm_Created : Time;
}.

Definition asyncCMName (requestID : string) : string := "kaalm-async-" +:+ requestID.

(** The object of Create; the server sets the creation time. *)
Definition placeholder (operatorNamespace requestID : string) (channel : AgentChannel) (expires now : Time) : ConfigMap :=
  mk_config_map operatorNamespace (asyncCMName requestID)
    {[LabelChannelNamespace := ch_Namespace channel; LabelChannelName := ch_Name channel]}
    {[AnnotationExpiresAt := RFC3339 expires]} ∅ now.

(** The merge patch of Patch. *)
Definition payload_patch (payload : bytes) : bytes :=
  text (mk_map [("data", mk_map [(payloadKey, CString (marshal_body payload))])]).

(** What Get makes of the ConfigMap it reads. *)
Definition record_of (cm : ConfigMap) : AsyncRecord :=
  mk_async_record (cm_Created cm) (default "" (cm_Labels cm !! LabelChannelNamespace)) (default "" (cm_Labels cm !! LabelChannelName))
    (match cm_Data cm !! payloadKey with Some p => if (p =? "")%string then None else Some (bs p) | None => None end).

(** The label selector of CountPending, and its count over a listing. *)
Definition selected (channelNamespace channelName : string) (cm : ConfigMap) : bool :=
  bool_decide (cm_Labels cm !! LabelChannelNamespace = Some channelNamespace) && bool_decide (cm_Labels cm !! LabelChannelName = Some channelName).
Definition CountPending (operatorNamespace channelNamespace channelName : string) (cms : list ConfigMap) : Z :=
  Z.of_nat (length (List.filter (λ cm, (cm_Namespace cm =? operatorNamespace)%string && selected channelNamespace channelName cm) cms)).

(** ** The outside *)

Record async_outside := mk_async_outside {
  y_policy : Policy;
  y_operator : string;
  y_uuid : nat → string;
  y_list : nat → list ConfigMap + string;
  y_create : nat → ConfigMap → option string;
  y_patch : string → bytes → nat → option string * Duration;
  y_get : nat → string → option ConfigMap + string;
  y_secret : nat → string → string → Secret + string;
  y_lookup : nat → (list IP + string) * Duration;
  y_post : nat → (Z + string) * Duration;
}.

Definition callbackDelivered : string := "delivered".
Definition callbackExhausted : string := "exhausted".
Definition callbackRejected : string := "rejected".
Definition callbackInvalid : string := "invalid".

Section async.
Context {F : FoldTable} {P : UrlParser} {U : Unicode}.
Context (cfg : Config) (x : outside) (y : async_outside).

Definition fail_health (channel : AgentChannel) (reason message : string) : M unit :=
  on_health (λ now h, RecordFailure h now now (Path (ch_Spec channel)) reason message).

(** ** The callback *)

Definition callbackSecret (secret : string → string → Secret + string) (channel : AgentChannel) (w : AgentChannelWebhook) (host : string) : string + string :=
  match wh_CallbackAuth w with
  | None => inl ""
  | Some auth =>
      if negb (ca_Type auth =? authTypeBearer)%string then channelSecret (SecretValue secret) (ch_Namespace channel) auth
      else match ca_SecretRef auth with
           | None => inr "bearer auth without secretRef"
           | Some r => CallbackSecretValue secret (ch_Namespace channel) (sk_Name r) (sk_Key r) host
           end
  end.

Definition callback_headers (w : AgentChannelWebhook) (secret requestID : string) (payload : bytes) (now : Time) : Header :=
  let h := HeaderSet ∅ "Content-Type" "application/json" in
  match wh_CallbackAuth w with Some auth => signCallback h auth secret requestID payload now | None => h end.

Definition pinned_address (parsed : URL) (ip : IP) : string :=
  JoinHostPort (ip_text ip) (if (u_Port parsed =? "")%string then "443" else u_Port parsed).

(** The status, 0 for an error.  The log has the request when it is sent, and
    again with its answer. *)
Definition dialCallbackOnce (c : ctx) (parsed : URL) (ip : IP) (w : AgentChannelWebhook) (secret requestID : string) (payload : bytes) : M Z :=
  let* now := clock in
  let attempt := if (0 <? callbackReadTimeout cfg)%Z then withTimeout c now (callbackReadTimeout cfg) else c in
  let h := callback_headers w secret requestID payload now in
  perform emit (ECallbackPost (u_String parsed) (pinned_address parsed ip) h payload) in
  let* r := call attempt (y_post y) in
  let status := match r with Some (inl status) => status | _ => 0%Z end in
  perform emit (ECallbackAnswer (u_String parsed) (pinned_address parsed ip) h payload status) in
  ret status.

Definition terminal_status (status : Z) : bool := existsb (Z.eqb status) [401; 403; 404; 405; 410; 415]%Z.

Fixpoint callback_loop (c : ctx) (channel : AgentChannel) (w : AgentChannelWebhook) (parsed : URL) (requestID : string) (payload : bytes)
    (backoff : list Duration) : M string :=
  match backoff with
  | [] => ret callbackExhausted
  | delay :: rest =>
      let* stop := if (0 <? delay)%Z then sleep c delay else ret false in
      if stop then ret callbackExhausted
      else
        let* n := next_call in
        match callbackSecret (y_secret y n) channel w (u_Hostname parsed) with
        | inr e =>
            perform fail_health channel healthReasonCallbackInvalid ("callbackAuth secret unavailable: " +:+ e) in
            ret callbackInvalid
        | inl secret =>
            let* ips := call c (y_lookup y) in
            match ips with
            | Some (inl (ip :: _)) =>
                if negb (Allowed (y_policy y) (u_Hostname parsed) ip) then
                  perform fail_health channel healthReasonCallbackInvalid ("callbackUrl host resolves to blocked address " +:+ ip_text ip) in
                  ret callbackInvalid
                else
                  let* status := dialCallbackOnce c parsed ip w secret requestID payload in
                  if (200 <=? status)%Z && (status <=? 299)%Z then ret callbackDelivered
                  else if terminal_status status then
                    perform fail_health channel healthReasonCallbackRejected ("callback receiver returned " +:+ str (print_Z status)) in
                    ret callbackRejected
                  else callback_loop c channel w parsed requestID payload rest
            | _ => callback_loop c channel w parsed requestID payload rest
            end
        end
  end.

Definition sendCallback (c : ctx) (channel : AgentChannel) (w : AgentChannelWebhook) (cbURL requestID : string) (payload : bytes) : M string :=
  let invalid := perform fail_health channel healthReasonCallbackInvalid "callbackUrl is not https" in ret callbackInvalid in
  match url_Parse cbURL with
  | None => invalid
  | Some parsed =>
      if negb (u_Scheme parsed =? "https")%string then invalid
      else callback_loop c channel w parsed requestID payload (0%Z :: CallbackBackoff cfg)
  end.

(** ** The background run *)

Definition dropAsyncPayload (namespace : string) : M unit := emit (EAsyncPatchFailed namespace).

Fixpoint patch_loop (c : ctx) (requestID namespace : string) (payload : bytes) (backoff : list Duration) : M unit :=
  match backoff with
  | [] => dropAsyncPayload namespace
  | delay :: rest =>
      let* stop := if (0 <? delay)%Z then sleep c delay else ret false in
      if stop then dropAsyncPayload namespace
      else
        let* r := call c (y_patch y (asyncCMName requestID) (payload_patch payload)) in
        let err := match r with None => Some "context deadline exceeded" | Some e => e end in
        perform emit (EPatch requestID payload err) in
        match err with
        | None => ret tt
        | Some _ => patch_loop c requestID namespace payload rest
        end
  end.

Definition patchWithRetry (c : ctx) (requestID namespace : string) (payload : bytes) : M unit :=
  patch_loop c requestID namespace payload (0%Z :: CallbackBackoff cfg).

(** The payload: the agent's response, or why there is none. *)
Definition response_payload (requestID path : string) (body : bytes) (now : Time) : bytes :=
  match raw_tree body with
  | None => []
  | Some response =>
      text (mk_map [("channelPath", text_of path); ("completedAt", text_of (RFC3339 now)); ("requestId", text_of requestID); ("response", response)])
  end.

Definition failure_payload (requestID path : string) (f : failure) (now : Time) : bytes :=
  let retryable := (f_errType f =? errControllerDown)%string || (f_errType f =? errAgentNotReady)%string in
  text (mk_map [("channelPath", text_of path);
                ("error", mk_map [("message", text_of (f_err f)); ("retryable", tree_of (VBool retryable)); ("type", text_of (f_errType f))]);
                ("failedAt", text_of (RFC3339 now)); ("requestId", text_of requestID)]).

(** The response half: the callback when one is set, then the record. *)
Definition dispatch_response (c : ctx) (requestID : string) (channel : AgentChannel) (w : AgentChannelWebhook) (payload : bytes) : M unit :=
  let* outcome := match wh_CallbackURL w with
                  | Some cbURL =>
                      let* o := sendCallback c channel w cbURL requestID payload in
                      perform emit (EChannelCallback (ch_Namespace channel) o) in ret (Some o)
                  | None => ret None
                  end in
  if bool_decide (outcome = Some callbackDelivered) then ret tt else patchWithRetry c requestID (ch_Namespace channel) payload.

Definition runAsyncPipeline (c : ctx) (requestID : string) (channel : AgentChannel) (w : AgentChannelWebhook) (a : AgentInfo) (env : MessageEnvelope) : M unit :=
  let* now := clock in
  let c := withTimeout c now (backgroundPipelineBound cfg (Some a) asyncResponseRequests) in
  let path := Path (ch_Spec channel) in
  let* r := wakeAndDeliver cfg x c path a env in
  perform (match r with
           | inr f => if (f_errType f =? errResponseTooLarge)%string then emit (EResponseTooLarge (ai_Namespace a) "async") else ret tt
           | inl _ => ret tt
           end) in
  let* now := clock in
  dispatch_response c requestID channel w
    (match r with inl body => response_payload requestID path body now | inr f => failure_payload requestID path f now end).

(** ** Accepting *)

Record asyncAcceptResponse := mk_accept { acc_RequestID : string; acc_ChannelPath : string; acc_Status : string; acc_Message : string }.

(** The answer; the background run of an accepted message is
    [runAsyncPipeline] on its request id. *)
Definition handleAsyncAccept (channel : AgentChannel) (w : AgentChannelWebhook) : M (asyncAcceptResponse + error_response) :=
  let maxPending := if (wh_MaxPendingAsyncResponses w =? 0)%Z then 100%Z else wh_MaxPendingAsyncResponses w in
  let* n := next_call in
  let full := match y_list y n with
              | inl cms =>
                  let count := CountPending (y_operator y) (ch_Namespace channel) (ch_Name channel) cms in
                  if (maxPending <=? count)%Z then Some count else None
              | inr _ => None
              end in
  match full with
  | Some count =>
      ret (inr (writeError 503 (mk_error errInternalUnavailable ("channel has " +:+ (str (print_Z count) +:+ (" pending async responses (cap " +:+
        (str (print_Z maxPending) +:+ ")")))) "" true) 5))
  | None =>
      let* n := next_call in
      let* now := clock in
      let requestID := y_uuid y n in
      match y_create y n (placeholder (y_operator y) requestID channel (now + asyncTTL)%Z now) with
      | Some _ => ret (inr (writeError 503 (mk_error errInternalUnavailable "failed to create the polling record" "" true) 5))
      | None => ret (inl (mk_accept requestID (Path (ch_Spec channel)) "accepted" "Message accepted for processing"))
      end
  end.

(** ** Polling *)

(** The parts of the request the handler reads; [pr_channelPath] is the query
    parameter. *)
Record poll_request := mk_poll_request { pr_method : string; pr_path : string; pr_channelPath : string; pr_header : Header }.

Inductive poll_reply :=
  | PollError (e : error_response)
  | PollNotFound
  | PollPending (retryAfter : Z)
  | PollPayload (payload : bytes).

Definition unauthorizedUser : error_response := unauthorized "auth failed or path not registered".

Definition pollRetryAfter (elapsed : Duration) : Z :=
  if (elapsed <? 2 * Second)%Z then 2 else if (elapsed <? 6 * Second)%Z then 4 else if (elapsed <? 14 * Second)%Z then 8
  else if (elapsed <? 30 * Second)%Z then 16 else 30.

(** What an authenticated poll of [channel] gets for the record read. *)
Definition poll_record (channel : AgentChannel) (read : option ConfigMap + string) (now : Time) : poll_reply :=
  match read with
  | inr _ => PollError (writeError 503 (mk_error errInternalUnavailable "reading the polling record failed" "" true) 1)
  | inl None => PollNotFound
  | inl (Some cm) =>
      let record := record_of cm in
      if negb (ChannelNamespace record =? ch_Namespace channel)%string || negb (ChannelName record =? ch_Name channel)%string then PollNotFound
      else
        let elapsed := Sub now (CreatedAt record) in
        if (asyncTTL <? elapsed)%Z then PollNotFound
        else match Payload record with
             | None => PollPending (pollRetryAfter elapsed)
             | Some payload => PollPayload payload
             end
  end.

Definition poll_id (path : string) : string := default path (CutPrefix path "/v1/channels/responses/").

(** [channels] is the cached list of channels, [None] when listing fails. *)
Definition handlePoll (channels : option (list AgentChannel)) (r : poll_request) : M poll_reply :=
  let unauthorized_reply := ret (PollError unauthorizedUser) in
  if negb (pr_method r =? "GET")%string then unauthorized_reply
  else
    let requestID := poll_id (pr_path r) in
    if (requestID =? "")%string || contains_char "/" requestID then ret (PollError (writeError 404 (mk_error errInvalidRequest "not found" "" false) 0))
    else if (pr_channelPath r =? "")%string then ret (PollError (badRequest "channelPath query parameter is required"))
    else match ChannelByPath channels (pr_channelPath r) with
    | None => unauthorized_reply
    | Some channel =>
        if negb (webhookPollChannel channel) then unauthorized_reply
        else
          let* n := next_call in
          let* now := clock in
          if negb (authenticatePoll (SecretValue (y_secret y n)) now channel (pr_header r) requestID) then unauthorized_reply
          else
            let* n := next_call in
            let* now := clock in
            ret (poll_record channel (y_get y n (asyncCMName requestID)) now)
    end.
End async.

(** What the asynchronous half promises: every accepted message's payload is
    settled exactly once, a callback goes only where it may, and a poll shows
    a channel its own records only. *)

From S2P Require Import DeliveryClaims.

Local Open Scope Z_scope.
Local Open Scope delivery_scope.

(** ** Logs

    [logs c Q m]: [m] ends by the end of [c], and [Q] holds of its result and
    the events it logs. *)

Definition logs (c : ctx) {A} (Q : A → list event → Prop) (m : M A) : Prop :=
  ∀ w, (∀ t, c = Some t → w_clock (m w).2 <= Z.max (w_clock w) t) ∧ ∃ es, w_events (m w).2 = w_events w ++ es ∧ Q (m w).1 es.

Lemma runs_logs c P {A} (R : A → Prop) (m : M A) : runs c P R m → logs c (λ r es, R r ∧ Forall P es) m.
Proof. intros H w. destruct (H w) as (HR & Ht & es & He & HP). split; [done|]. by exists es. Qed.

Lemma logs_bind c {A B} (Q : A → list event → Prop) (S : B → list event → Prop) (m : M A) (k : A → M B) :
  logs c Q m → (∀ a es, Q a es → logs c (λ b es', S b (es ++ es')) (k a)) → logs c S (bind m k).
Proof.
  intros Hm Hk w. rewrite bind_run. destruct (Hm w) as (Ht & es & He & HQ). destruct (Hk _ _ HQ (m w).2) as (Ht' & es' & He' & HS).
  split; [intros t Ec; specialize (Ht t Ec); specialize (Ht' t Ec); unfold Time in *; lia|]. exists (es ++ es'). by rewrite He', He, List.app_assoc.
Qed.

(** A step that logs nothing. *)
Lemma logs_quiet c {A B} (S : B → list event → Prop) (m : M A) (k : A → M B) :
  runs c (λ _, False) (λ _, True) m → (∀ a, logs c S (k a)) → logs c S (bind m k).
Proof.
  intros Hm Hk. eapply logs_bind; [by apply runs_logs|]. intros a es [_ He]. destruct es; [apply Hk|]. by apply Forall_inv in He.
Qed.

Lemma logs_ret c {A} (Q : A → list event → Prop) (a : A) : Q a [] → logs c Q (ret a).
Proof. intros H w. split; [intros t _; cbn; unfold Time; lia|]. exists []. by rewrite List.app_nil_r. Qed.

Lemma logs_emit c (Q : unit → list event → Prop) e : Q tt [e] → logs c Q (emit e).
Proof. intros H w. split; [intros t _; cbn; unfold Time; lia|]. by exists [e]. Qed.

Lemma logs_log c {B} (S : B → list event → Prop) e (k : unit → M B) :
  logs c (λ b es, S b (e :: es)) (k tt) → logs c S (bind (emit e) k).
Proof. intros H. eapply logs_bind; [apply (logs_emit c (λ _ es, es = [e])); done|]. by intros [] es ->. Qed.

Lemma logs_weaken c {A} (Q S : A → list event → Prop) (m : M A) : (∀ a es, Q a es → S a es) → logs c Q m → logs c S m.
Proof. intros H Hm w. destruct (Hm w) as (Ht & es & He & HQ). split; [done|]. exists es. auto. Qed.

Lemma logs_and c {A} (Q S : A → list event → Prop) (m : M A) : logs c Q m → logs c S m → logs c (λ a es, Q a es ∧ S a es) m.
Proof.
  intros H1 H2 w. destruct (H1 w) as (Ht & es & He & HQ). destruct (H2 w) as (_ & es' & He' & HS). split; [done|].
  exists es. split_and!; [done|done|]. assert (es = es') as -> by (apply (List.app_inv_head (w_events w)); by rewrite <- He, <- He'). done.
Qed.

Lemma HeaderGet_HeaderSet h name v : HeaderGet (HeaderSet h name v) name = v.
Proof.
  assert (∀ (m : gmap string (list string)) k, default "" (head (default [] (<[k := [v]]> m !! k))) = v) as E by (intros; by rewrite lookup_insert_eq).
  apply E.
Qed.

(** ** Settling *)

Definition accepted (status : Z) : bool := (200 <=? status) && (status <=? 299).

(** The receiver of a callback accepted it. *)
Definition received (e : event) : bool := match e with ECallbackAnswer _ _ _ _ status => accepted status | _ => false end.

(** The events that settle a payload: a callback its receiver accepted, a patch
    the API server accepted, the signal of a drop. *)
Definition settles (e : event) : bool :=
  match e with
  | ECallbackAnswer _ _ _ _ _ => received e
  | EPatch _ _ err => match err with None => true | Some _ => false end
  | EAsyncPatchFailed _ => true
  | _ => false
  end.

Section async.
Context `{FT : FoldTable} `{UP : UrlParser} `{UC : Unicode}.
Context (cfg : Config) (x : outside) (y : async_outside).

(** A callback attempt: its payload, its address and its credential. *)
Definition post_ok (channel : AgentChannel) (wh : AgentChannelWebhook) (parsed : URL) (requestID : string) (payload : bytes)
    (url pinned : string) (h : Header) (p : bytes) : Prop :=
      url = u_String parsed ∧ p = payload ∧
      (∃ ip n rest d, y_lookup y n = (inl (ip :: rest), d) ∧ Allowed (y_policy y) (u_Hostname parsed) ip = true ∧ pinned = pinned_address parsed ip) ∧
      (∃ n secret now, callbackSecret (y_secret y n) channel wh (u_Hostname parsed) = inl secret ∧ h = callback_headers wh secret requestID payload now).

(** The log of a callback: attempts, and their answers, which the receiver
    gave or which are errors. *)
Definition callback_ok (channel : AgentChannel) (wh : AgentChannelWebhook) (parsed : URL) (requestID : string) (payload : bytes) (e : event) : Prop :=
  match e with
  | ECallbackPost url pinned h p => post_ok channel wh parsed requestID payload url pinned h p
  | ECallbackAnswer url pinned h p status => post_ok channel wh parsed requestID payload url pinned h p ∧
      (status = 0 ∨ ∃ n d, y_post y n = (inl status, d))
  | _ => False
  end.

Lemma runs_fail_health c P channel reason msg : runs c P (λ _, True) (fail_health channel reason msg).
Proof. apply runs_health. Qed.
#[local] Hint Resolve runs_fail_health : runs.

Lemma runs_callback_loop c channel wh parsed requestID payload backoff :
  runs c (callback_ok channel wh parsed requestID payload) (λ _, True) (callback_loop cfg y c channel wh parsed requestID payload backoff).
Proof.
  induction backoff as [|delay rest IH]; cbn [callback_loop]; [by apply runs_ret|].
  apply runs_seq; [run_all|intros []]; [by apply runs_ret|]. apply runs_seq; [auto with runs|intros n].
  destruct (callbackSecret (y_secret y n) channel wh (u_Hostname parsed)) as [secret|e] eqn:Es; [|run_all].
  eapply runs_bind; [apply runs_call; auto with runs|]. intros [[[|ip ips]|err]|] Hl; try exact IH.
  destruct (Hl _ eq_refl) as (k & d & Hk). destruct (Allowed (y_policy y) (u_Hostname parsed) ip) eqn:Ea; cbn [negb]; [|run_all].
  apply runs_seq; [|intros status; run_all]. unfold dialCallbackOnce.
  apply runs_seq; [auto with runs|intros now]. cbv zeta.
  assert (Hpost : post_ok channel wh parsed requestID payload (u_String parsed) (pinned_address parsed ip)
    (callback_headers wh secret requestID payload now) payload).
  { split_and!; [done|done| |]; [by exists ip, k, ips, d|by exists n, secret, now]. }
  apply runs_seq; [by apply runs_emit|intros _].
  eapply runs_bind; [apply runs_call; destruct (0 <? _); auto with runs|]. intros r Hr.
  apply runs_seq; [apply runs_emit|intros ?; by apply runs_ret]. split; [done|].
  destruct r as [[status|e]|]; [right|by left..]. destruct (Hr _ eq_refl) as (j & d' & Hj). by exists j, d'.
Qed.

(** A callback counts as delivered exactly when its receiver accepted it, and
    then it ends. *)
Definition delivered_as (o : string) (es : list event) : Prop :=
  tally settles es = (if (o =? callbackDelivered)%string then 1 else 0)%nat ∧
  existsb received es = (o =? callbackDelivered)%string.

Lemma dial_logs c parsed ip wh secret requestID payload :
  logs c (λ status es, ∃ url pinned h p, es = [ECallbackPost url pinned h p; ECallbackAnswer url pinned h p status])
    (dialCallbackOnce cfg y c parsed ip wh secret requestID payload).
Proof.
  unfold dialCallbackOnce. apply logs_quiet; [auto with runs|intros now]. cbv zeta.
  apply logs_log, logs_quiet; [|intros r].
  { eapply runs_weaken; [|apply runs_call]; [done|]. destruct (0 <? _); auto with runs. }
  apply logs_log, logs_ret. by repeat eexists.
Qed.

Lemma callback_loop_delivers c channel wh parsed requestID payload backoff :
  logs c delivered_as (callback_loop cfg y c channel wh parsed requestID payload backoff).
Proof.
  assert (Hfail : ∀ es reason msg o, existsb received es = false → tally settles es = 0%nat → (o =? callbackDelivered)%string = false →
    logs c (λ r es', delivered_as r (es ++ es')) (perform fail_health channel reason msg in ret o)).
  { intros es reason msg o H1 H2 Ho. apply logs_quiet; [auto with runs|]. intros _. apply logs_ret.
    unfold delivered_as. by rewrite List.app_nil_r, H1, H2, Ho. }
  induction backoff as [|delay rest IH]; cbn [callback_loop]; [by apply logs_ret|].
  apply logs_quiet; [run_all|intros []]; [by apply logs_ret|]. apply logs_quiet; [auto with runs|intros n].
  destruct (callbackSecret _ _ _ _) as [secret|e]; [|by apply (Hfail [])].
  apply logs_quiet; [eapply runs_weaken; [|apply runs_call]; [done|auto with runs]|]. intros [[[|ip ips]|err]|]; try exact IH.
  destruct (negb _); [by apply (Hfail [])|].
  eapply logs_bind; [apply dial_logs|]. intros status es (url & pinned & h & p & ->).
  destruct ((200 <=? status) && (status <=? 299)) eqn:Ea.
  { apply logs_ret. unfold delivered_as, tally. cbn. unfold accepted. by rewrite Ea. }
  assert (Hq : ∀ es', tally settles (ECallbackPost url pinned h p :: ECallbackAnswer url pinned h p status :: es') = tally settles es' ∧
    existsb received (ECallbackPost url pinned h p :: ECallbackAnswer url pinned h p status :: es') = existsb received es').
  { intros es'. unfold tally. cbn. unfold accepted. by rewrite Ea. }
  destruct (terminal_status status).
  - apply Hfail; [apply (Hq [])|apply (Hq [])|done].
  - eapply logs_weaken; [|exact IH]. intros o es [H1 H2]. destruct (Hq es) as [E1 E2]. unfold delivered_as. cbn [app]. by rewrite E1, E2.
Qed.

Lemma patch_settles c requestID namespace payload backoff :
  logs c (λ _ es, tally settles es = 1%nat ∧
      Forall (λ e, match e with EPatch id p _ => id = requestID ∧ p = payload | EAsyncPatchFailed ns => ns = namespace | _ => False end) es)
    (patch_loop y c requestID namespace payload backoff).
Proof.
  induction backoff as [|delay rest IH]; cbn [patch_loop]; [apply logs_emit; split; [done|repeat constructor]|].
  apply logs_quiet; [run_all|intros []]; [apply logs_emit; split; [done|repeat constructor]|]. apply logs_quiet; [auto with runs|intros r].
  set (err := match r with None => _ | Some e => e end).
  eapply logs_bind; [apply (logs_emit c (λ _ es, es = [EPatch requestID payload err])); done|]. intros _ es ->.
  destruct err as [e|].
  - eapply logs_weaken; [|exact IH]. intros _ es [Ht Hf]. split; [exact Ht|]. by constructor.
  - apply logs_ret. split; [done|]. repeat constructor.
Qed.

(** What is logged once the payload is there. *)
Definition response_event (channel : AgentChannel) (wh : AgentChannelWebhook) (requestID : string) (payload : bytes) (e : event) : Prop :=
  match e with
  | ECallbackPost _ _ _ _ | ECallbackAnswer _ _ _ _ _ => ∃ cbURL parsed, wh_CallbackURL wh = Some cbURL ∧ url_Parse cbURL = Some parsed ∧ u_Scheme parsed = "https" ∧
      callback_ok channel wh parsed requestID payload e
  | EChannelCallback ns _ => ns = ch_Namespace channel
  | EPatch id p _ => id = requestID ∧ p = payload
  | EAsyncPatchFailed ns => ns = ch_Namespace channel
  | _ => False
  end.

(** Every attempt of a callback, with the URL it parsed. *)
Lemma callback_attempts c channel wh cbURL requestID payload :
  runs c (λ e, ∃ parsed, url_Parse cbURL = Some parsed ∧ u_Scheme parsed = "https" ∧ callback_ok channel wh parsed requestID payload e) (λ _, True)
    (sendCallback cfg y c channel wh cbURL requestID payload).
Proof.
  unfold sendCallback. destruct (url_Parse cbURL) as [parsed|] eqn:Ep; [|run_all].
  destruct (String.eqb_spec (u_Scheme parsed) "https") as [Eh|]; cbn [negb]; [|run_all].
  intros w. destruct (runs_callback_loop c channel wh parsed requestID payload (0 :: CallbackBackoff cfg) w) as (_ & Ht & es & He & Hf).
  split; [done|]. split; [done|]. exists es. split; [done|]. eapply List.Forall_impl; [|exact Hf]. eauto.
Qed.

(** Not the count of a callback's outcome. *)
Definition uncounted (e : event) : Prop := match e with EChannelCallback _ _ => False | _ => True end.

Lemma callback_logs c channel wh cbURL requestID payload : wh_CallbackURL wh = Some cbURL →
  logs c (λ o es, delivered_as o es ∧ Forall (response_event channel wh requestID payload) es ∧ Forall uncounted es)
    (sendCallback cfg y c channel wh cbURL requestID payload).
Proof.
  intros Hcb. apply logs_and.
  - unfold sendCallback. assert (logs c delivered_as (perform fail_health channel healthReasonCallbackInvalid "callbackUrl is not https" in ret callbackInvalid))
      by (apply logs_quiet; [auto with runs|intros _; by apply logs_ret]).
    destruct (url_Parse cbURL) as [parsed|]; [|done]. destruct (negb _); [done|apply callback_loop_delivers].
  - eapply logs_weaken; [|apply runs_logs, callback_attempts]. intros _ es [_ Hf].
    split; eapply List.Forall_impl; try exact Hf; intros e (parsed & Hp & Hs & He); destruct e; try done; cbn [response_event]; by exists cbURL, parsed.
Qed.

(** The bearer token of an attempt comes from a Secret that lists the host. *)
Lemma callback_bearer secret channel wh host requestID payload now auth token :
  wh_CallbackAuth wh = Some auth → ca_Type auth = authTypeBearer → callbackSecret secret channel wh host = inl token →
  ∃ ref sec, ca_SecretRef auth = Some ref ∧ secret (ch_Namespace channel) (sk_Name ref) = inl sec ∧
    ChannelCredentialOptedIn (sec_Labels sec) = true ∧ CallbackHostApproved (sec_Annotations sec) host = true ∧ sec_Data sec !! sk_Key ref = Some token ∧
    HeaderGet (callback_headers wh token requestID payload now) "Authorization" = "Bearer " +:+ token.
Proof.
  intros Hauth Hb Hs. unfold callbackSecret in Hs. rewrite Hauth, Hb in Hs. change (negb (authTypeBearer =? authTypeBearer)%string) with false in Hs. cbv iota in Hs.
  destruct (ca_SecretRef auth) as [ref|]; [|done]. unfold CallbackSecretValue, channelCredential in Hs.
  destruct (secret (ch_Namespace channel) (sk_Name ref)) as [sec|e] eqn:Esec; [|done].
  destruct (ChannelCredentialOptedIn (sec_Labels sec)) eqn:Eo; [|done]. destruct (CallbackHostApproved _ _) eqn:Eh; [|done]. unfold secretKey in Hs.
  destruct (sec_Data sec !! sk_Key ref) as [v|] eqn:Ev; [|done]. destruct (v =? "")%string; [done|].
  assert (v = token) as -> by (by injection Hs).
  exists ref, sec. split_and!; try done. unfold callback_headers. rewrite Hauth. unfold signCallback. rewrite Hb.
  change (authTypeBearer =? authTypeBearer)%string with true. cbv iota. apply HeaderGet_HeaderSet.
Qed.

(** The outcome a callback is counted under is what its receiver answered. *)
Definition outcome_true (es : list event) : Prop :=
  Forall (λ e, match e with EChannelCallback _ o => (o =? callbackDelivered)%string = existsb received es | _ => True end) es.

Lemma outcome_true_app es es' : outcome_true es → existsb received es' = false →
  Forall uncounted es' → outcome_true (es ++ es').
Proof.
  intros H Hr Hn. unfold outcome_true. apply Forall_app. rewrite existsb_app, Hr, orb_false_r. split; [exact H|].
  eapply List.Forall_impl; [|exact Hn]. by intros [].
Qed.

(** What the response half logs. *)
Definition settled_by (channel : AgentChannel) (wh : AgentChannelWebhook) (requestID : string) (payload : bytes) (n : nat) (es : list event) : Prop :=
  tally settles es = n ∧ Forall (response_event channel wh requestID payload) es ∧ outcome_true es.

Lemma patch_after c channel wh requestID payload es0 : settled_by channel wh requestID payload 0 es0 →
  logs c (λ _ es, settled_by channel wh requestID payload 1 (es0 ++ es)) (patchWithRetry cfg y c requestID (ch_Namespace channel) payload).
Proof.
  intros (H0 & Hf0 & Ho0). eapply logs_weaken; [|apply patch_settles]. intros _ es [Ht Hf]. unfold settled_by.
  rewrite tally_app, H0. split_and!; [done| |].
  - apply Forall_app. split; [done|]. eapply List.Forall_impl; [|exact Hf]. by intros [].
  - apply outcome_true_app; [done| |eapply List.Forall_impl; [|exact Hf]; by intros []].
    clear -Hf. induction Hf as [|e es He _ IH]; [done|]. by destruct e.
Qed.

Lemma dispatch_settles c requestID channel wh payload :
  logs c (λ _ es, settled_by channel wh requestID payload 1 es) (dispatch_response cfg y c requestID channel wh payload).
Proof.
  unfold dispatch_response. destruct (wh_CallbackURL wh) as [cbURL|] eqn:Ec.
  - eapply (logs_bind c (λ o es, settled_by channel wh requestID payload (if bool_decide (o = Some callbackDelivered) then 1 else 0) es)).
    + eapply logs_bind; [by apply callback_logs|]. intros o es ([Ht Hr] & Hf & Hu).
      eapply logs_bind; [apply (logs_emit c (λ _ es, es = [EChannelCallback (ch_Namespace channel) o])); done|]. intros _ ? ->.
      apply logs_ret. rewrite List.app_nil_r. unfold settled_by. rewrite tally_app, Ht. split_and!.
      * destruct (String.eqb_spec o callbackDelivered) as [->|Hne]; [by rewrite bool_decide_true|].
        rewrite bool_decide_false; [done|congruence].
      * apply Forall_app. split; [done|]. repeat constructor.
      * unfold outcome_true. rewrite existsb_app, Hr. cbn. rewrite orb_false_r. apply Forall_app. split; [|by repeat constructor].
        eapply List.Forall_impl; [|exact Hu]. intros e He. by destruct e.
    + intros o es H. destruct (bool_decide (o = Some callbackDelivered)); [|by apply patch_after].
      apply logs_ret. by rewrite List.app_nil_r.
  - eapply (logs_bind c (λ o es, o = None ∧ es = [])); [by apply logs_ret|]. intros o es [-> ->]. rewrite bool_decide_false by done.
    apply patch_after. repeat split; constructor.
Qed.

(** C8: A background run ends within its bound, and what it has to say is
    settled exactly once: by one callback its receiver answered 2xx, by one
    patch the API server took, or by the one signal of a drop.  A callback is
    counted as delivered exactly when its receiver answered 2xx, so a payload
    whose attempts all failed is stored or dropped.  The payload is what the Agent answered, or the
    failure, and it is the only payload any callback or patch carries; every
    patch is of the record of this request. *)
Theorem async_payload_settled_once c requestID channel wh a env w :
  let w' := (runAsyncPipeline cfg x y c requestID channel wh a env w).2 in
  w_clock w' <= w_clock w + Z.max 0 (backgroundPipelineBound cfg (Some a) asyncResponseRequests) ∧
  ∃ payload delivery response, w_events w' = w_events w ++ delivery ++ response ∧
    ((∃ now body, answered cfg x body ∧ payload = response_payload requestID (Path (ch_Spec channel)) body now) ∨
     (∃ now f, payload = failure_payload requestID (Path (ch_Spec channel)) f now)) ∧
    Forall (λ e, delivery_event e || is_attempt e = true) delivery ∧
    settled_by channel wh requestID payload 1 response.
Proof.
  cbv zeta. unfold runAsyncPipeline. rewrite bind_run. cbn [clock fst snd]. set (bound := backgroundPipelineBound cfg (Some a) asyncResponseRequests).
  set (c' := withTimeout c (w_clock w) bound).
  set (Q := λ (_ : unit) es, ∃ payload delivery response, es = delivery ++ response ∧
    ((∃ now body, answered cfg x body ∧ payload = response_payload requestID (Path (ch_Spec channel)) body now) ∨
     (∃ now f, payload = failure_payload requestID (Path (ch_Spec channel)) f now)) ∧
    Forall (λ e, delivery_event e || is_attempt e = true) delivery ∧
    settled_by channel wh requestID payload 1 response).
  assert (∀ m, logs c' Q m → w_clock (m w).2 <= w_clock w + Z.max 0 bound ∧ ∃ payload delivery response, w_events (m w).2 = w_events w ++ delivery ++ response ∧
    ((∃ now body, answered cfg x body ∧ payload = response_payload requestID (Path (ch_Spec channel)) body now) ∨
     (∃ now f, payload = failure_payload requestID (Path (ch_Spec channel)) f now)) ∧
    Forall (λ e, delivery_event e || is_attempt e = true) delivery ∧
    settled_by channel wh requestID payload 1 response) as Hend.
  { intros m Hm. destruct (Hm w) as (Ht & es & He & payload & d & r & -> & Hrest). split.
    - specialize (Ht _ eq_refl). unfold c', withTimeout in Ht. destruct c; unfold Time, Duration in *; lia.
    - exists payload, d, r. done. }
  apply Hend. clear Hend. eapply logs_bind; [apply runs_logs, (runs_wakeAndDeliver cfg x c' (λ e, delivery_event e || is_attempt e = true))|].
  { intros e ->. done. }
  { done. }
  intros r es [Hr Hes]. eapply (logs_bind c' (λ _ es', Forall (λ e, delivery_event e || is_attempt e = true) es')).
  { destruct r as [body|f]; [by apply logs_ret|]. destruct (_ =? _)%string; [|by apply logs_ret]. apply logs_emit. by repeat constructor. }
  intros _ es' Hes'. apply logs_quiet; [apply runs_clock|]. intros now.
  eapply logs_weaken; [|apply dispatch_settles]. intros u resp Hset. eexists _, (es ++ es'), resp. split; [by rewrite List.app_assoc|].
  split_and!; [|by apply Forall_app|exact Hset]. destruct r as [body|f]; [left|right]; eauto.
Qed.

(** C9: A callback is posted only over https, to an address the callback
    policy allows for the URL's host, checked in the lookup right before the
    attempt.  Each attempt carries the payload, and a bearer token goes only
    to a host its Secret, opted in as a channel credential, lists when the
    attempt is made. *)
Theorem callbacks_stay_in_policy c channel wh cbURL requestID payload w :
  ∃ es, w_events (sendCallback cfg y c channel wh cbURL requestID payload w).2 = w_events w ++ es ∧
  ∀ url pinned h p, In (ECallbackPost url pinned h p) es →
    ∃ parsed ip, url_Parse cbURL = Some parsed ∧ u_Scheme parsed = "https" ∧ url = u_String parsed ∧ p = payload ∧
      (∃ n rest d, y_lookup y n = (inl (ip :: rest), d)) ∧ Allowed (y_policy y) (u_Hostname parsed) ip = true ∧ pinned = pinned_address parsed ip ∧
      ∀ auth, wh_CallbackAuth wh = Some auth → ca_Type auth = authTypeBearer →
        ∃ ref n sec token, ca_SecretRef auth = Some ref ∧ y_secret y n (ch_Namespace channel) (sk_Name ref) = inl sec ∧
          ChannelCredentialOptedIn (sec_Labels sec) = true ∧ CallbackHostApproved (sec_Annotations sec) (u_Hostname parsed) = true ∧
          sec_Data sec !! sk_Key ref = Some token ∧ HeaderGet h "Authorization" = "Bearer " +:+ token.
Proof.
  destruct (callback_attempts c channel wh cbURL requestID payload w) as (_ & _ & es & He & Hf). exists es. split; [exact He|].
  intros url pinned h p Hin. rewrite List.Forall_forall in Hf.
  destruct (Hf _ Hin) as (parsed & Hp & Hs & -> & -> & (ip & n & rest & d & Hl & Ha & ->) & (k & secret & now & Hsec & ->)).
  exists parsed, ip. split_and!; try done; [by exists n, rest, d|]. intros auth Hauth Hb.
  destruct (callback_bearer _ _ _ _ requestID payload now _ _ Hauth Hb Hsec) as (ref & sec & ? & ? & ? & ? & ? & ?). by exists ref, k, sec, secret.
Qed.

(** ** Polls *)

(** Whether a record is the channel's own. *)
Definition own_record (channel : AgentChannel) (cm : ConfigMap) : bool :=
  (default "" (cm_Labels cm !! LabelChannelNamespace) =? ch_Namespace channel)%string && (default "" (cm_Labels cm !! LabelChannelName) =? ch_Name channel)%string.

(** The records without those of other channels. *)
Definition only_own (channel : AgentChannel) : async_outside :=
  mk_async_outside (y_policy y) (y_operator y) (y_uuid y) (y_list y) (y_create y) (y_patch y)
    (λ n name, match y_get y n name with inl (Some cm) => if own_record channel cm then inl (Some cm) else inl None | r => r end)
    (y_secret y) (y_lookup y) (y_post y).

Lemma poll_record_own channel cm now : own_record channel cm = false → poll_record channel (inl (Some cm)) now = PollNotFound.
Proof. unfold poll_record. intros H. cbv zeta. rewrite <- negb_andb. unfold own_record in H. cbn [record_of ChannelNamespace ChannelName]. by rewrite H. Qed.

Lemma poll_record_payload channel read now p : poll_record channel read now = PollPayload p →
  ∃ cm, read = inl (Some cm) ∧ own_record channel cm = true ∧ Sub now (cm_Created cm) <= asyncTTL ∧ cm_Data cm !! payloadKey = Some (str p) ∧ p ≠ [].
Proof.
  unfold poll_record. destruct read as [[cm|]|e]; [|done|done]. cbv zeta. rewrite <- negb_andb.
  change ((ChannelNamespace (record_of cm) =? ch_Namespace channel)%string && (ChannelName (record_of cm) =? ch_Name channel)%string) with (own_record channel cm).
  destruct (own_record channel cm) eqn:Eo; cbn [negb]; [|done]. cbn [record_of CreatedAt Payload]. destruct (Z.ltb_spec asyncTTL (Sub now (cm_Created cm))); [done|].
  destruct (cm_Data cm !! payloadKey) as [s|] eqn:Ed; [|done]. destruct (String.eqb_spec s "") as [->|Hne]; [done|]. intros [= <-].
  exists cm. rewrite str_bs. split_and!; try done. intros E. apply Hne. rewrite <- (str_bs s), E. done.
Qed.
End async.

(** C10: A poll returns a payload only to a caller that proved the channel's
    secret for this request id, only from a record created for that channel,
    and only within the record's hour.  Records of other channels leave no
    trace: every answer is the one the caller would get if they did not
    exist. *)
Theorem polls_show_own_records `{FoldTable} `{UrlParser} `{Unicode} y channels r w channel :
  ChannelByPath channels (pr_channelPath r) = Some channel →
  (∀ p, (handlePoll y channels r w).1 = PollPayload p →
     ∃ n m cm, authenticatePoll (SecretValue (y_secret y n)) (w_clock w) channel (pr_header r) (poll_id (pr_path r)) = true ∧
       y_get y m (asyncCMName (poll_id (pr_path r))) = inl (Some cm) ∧
       own_record channel cm = true ∧ Sub (w_clock w) (cm_Created cm) <= asyncTTL ∧ cm_Data cm !! payloadKey = Some (str p)) ∧
  handlePoll y channels r w = handlePoll (only_own y channel) channels r w.
Proof.
  intros Hch. unfold handlePoll. rewrite Hch. destruct (pr_method r =? "GET")%string; cbn [negb]; [|done]. cbv zeta.
  set (rid := poll_id (pr_path r)). destruct ((rid =? "")%string || contains_char "/" rid); [done|].
  destruct (pr_channelPath r =? "")%string; [done|]. destruct (webhookPollChannel channel); cbn [negb]; [|done].
  rewrite !bind_run. cbn [clock next_call fst snd w_clock w_calls]. change (y_secret (only_own y channel)) with (y_secret y).
  destruct (authenticatePoll (SecretValue (y_secret y (w_calls w))) _ channel (pr_header r) rid) eqn:Ea; cbn [negb]; [|done].
  rewrite !bind_run. cbn [clock next_call fst snd ret w_clock w_calls]. split.
  - intros p Hp. apply poll_record_payload in Hp as (cm & Hg & Ho & Ht & Hd & _). exists (w_calls w), (S (w_calls w)), cm. split_and!; done.
  - cbn [only_own y_get]. destruct (y_get y _ _) as [[cm|]|e]; [|done|done]. destruct (own_record channel cm) eqn:Eo; [done|]. by rewrite poll_record_own.
Qed.

(** ** A run and its polls *)

Module AsyncRun.
#[local] Instance no_fold : FoldTable := {| same_fold := λ _ _, false |}.
#[local] Instance one_url : UrlParser :=
  {| url_Parse s := if (s =? "https://cb.example/in")%string then Some (mk_url "https" "cb.example" "" s) else None |}.
#[local] Existing Instance plain_unicode.

Definition secret : Secret := mk_secret {[LabelChannelCredential := "true"]} {[AnnotationCallbackHosts := "cb.example"]} {["key" := "s3cret"]}.
Definition webhook : AgentChannelWebhook :=
  mk_webhook "/channels/a/in" (mk_channel_auth "hmac" None (Some example_cfg)) no_extractor no_extractor "async" (Some "https://cb.example/in")
    (Some (mk_channel_auth "bearer" (Some (mk_secret_ref "hook" "key")) None)) 0.
Definition channel : AgentChannel :=
  mk_channel "a" "in" 0 (mk_channel_spec "bot" "webhook" (Some webhook) None None false) "Ready" [("Ready", "True")].

Definition stored (namespace : string) : ConfigMap :=
  mk_config_map "kaalm-system" "kaalm-async-r-1" {[LabelChannelNamespace := namespace; LabelChannelName := "in"]} ∅ {[payloadKey := "{}"]} (Unix 990).

(** The receiver answers 500, then the host moves to a blocked address; the
    first patch fails. *)
Definition services (namespace : string) : async_outside :=
  mk_async_outside default_policy "kaalm-system" (λ _, "r-1") (λ _, inl []) (λ _ _, None)
    (λ _ _ n, (if decide (n = 14)%nat then Some "conflict" else None, Second)) (λ _ _, inl (Some (stored namespace))) (λ _ _ _, inl secret)
    (λ n, (inl [if decide (n < 11)%nat then [203; 0; 113; 9] else [10; 0; 0; 9]], Millisecond)) (λ _, (inl 500, Second)).

Definition finished : world := (runAsyncPipeline Run.config Run.environment (services "a") None "r-1" channel webhook Run.agent Run.envelope Run.start).2.

Definition kind (e : event) : string :=
  match e with ECallbackPost _ pinned _ _ => pinned | EChannelCallback _ o => o | EPatch _ _ err => default "stored" err | EAsyncPatchFailed _ => "dropped" | _ => "" end.

Definition poll (path : string) : poll_request := mk_poll_request "GET" path "/channels/a/in" example_poll_headers.
Definition poll_world : world := mk_world (Unix 1000) 0 ∅ (NewChannelHealthStore (5 * Minute) 0) (NewActivityStore 0) [].

(** The callback is tried once, then refused; the second patch lands. *)
Lemma async_run_example : List.filter (λ s, negb (String.eqb s "")) (map kind (w_events finished)) =
  ["203.0.113.9:443"; "invalid"; "conflict"; "stored"].
Proof. vm_compute. reflexivity. Qed.

(** Marshalling escapes the angle brackets of the agent's reply, so a reply
    grows sixfold on its way into the stored payload. *)
Lemma reply_grows_in_payload :
  let body := "034"%char :: replicate 100 "<"%char ++ ["034"%char] in
  length body = 102%nat ∧ (600 < length (response_payload "r-1" "/channels/a/in" body 0%Z))%nat.
Proof. split; [reflexivity|]. apply Nat.ltb_lt. vm_compute. reflexivity. Qed.

Lemma polls_show_own_records_witness :
  (handlePoll (services "a") (Some [channel]) (poll "/v1/channels/responses/r-1") poll_world).1 = PollPayload (bs "{}") ∧
  own_record channel (stored "a") = true ∧
  (handlePoll (services "b") (Some [channel]) (poll "/v1/channels/responses/r-1") poll_world).1 =
  (handlePoll (only_own (services "b") channel) (Some [channel]) (poll "/v1/channels/responses/r-1") poll_world).1 ∧
  (handlePoll (services "b") (Some [channel]) (poll "/v1/channels/responses/r-1") poll_world).1 = PollNotFound.
Proof.
  assert (ChannelByPath (Some [channel]) "/channels/a/in" = Some channel) as Hc by (vm_compute; reflexivity).
  assert ((handlePoll (services "a") (Some [channel]) (poll "/v1/channels/responses/r-1") poll_world).1 = PollPayload (bs "{}")) as Hp by (vm_compute; reflexivity).
  destruct (polls_show_own_records (services "a") (Some [channel]) (poll "/v1/channels/responses/r-1") poll_world channel Hc) as [H1 _].
  destruct (polls_show_own_records (services "b") (Some [channel]) (poll "/v1/channels/responses/r-1") poll_world channel Hc) as [_ H2].
  split; [exact Hp|]. split.
  - destruct (H1 _ Hp) as (n & m & cm & _ & Hg & Ho & _). cbn in Hg. injection Hg as <-. exact Ho.
  - split; [by rewrite <- H2|vm_compute; reflexivity].
Defined.
End AsyncRun.
