(* ===== verification/Platform.v ===== *)
(** How a long reply is cut for a platform: splitChunks of
    internal/gateway/platform.go, counting runes as the platforms do.

    Then what both platform adapters share: the adapter interface, the sending
    of a reply with its retries, and the run of one message. *)

From stdpp Require Import base list strings option.
From Stdlib Require Import ZArith Lia Ascii.
From S2P Require Import Prelude Json JsonString JsonValue FoldedName ProblemList JsonCompact Envelope.

Definition newline : Z := 10.

(** The loop over [i] from [limit - 1] down to [limit / 2]. *)
Fixpoint newline_cut (n : nat) (limit i : nat) (rs : list Z) : nat :=
  match n with
  | O => limit
  | S n => if bool_decide (rs !! i = Some newline) then S i else newline_cut n limit (i - 1) rs
  end.

Definition chunk_cut (limit : nat) (rs : list Z) : nat := newline_cut (limit - limit / 2) limit (limit - 1) rs.

(** The loop over what is left. *)
Fixpoint split_runes (fuel limit : nat) (rs : list Z) : list (list Z) :=
  match fuel with
  | O => []
  | S fuel =>
      if (limit <? length rs)%nat then
        let cut := chunk_cut limit rs in firstn cut rs :: split_runes fuel limit (skipn cut rs)
      else if (0 <? length rs)%nat then [rs] else []
  end.

Definition splitChunks (text : string) (limit : nat) : list string :=
  let rs := runes (bs text) in
  if (length rs <=? limit)%nat then [text]
  else map (λ piece, str (flat_map EncodeRune piece)) (split_runes (S (length rs)) limit rs).

(** ** Where a piece ends *)

Lemma newline_cut_spec n limit i rs : (n ≤ S i)%nat → (i < limit)%nat →
  let cut := newline_cut n limit i rs in
  (cut = limit ∨ (S i - n < cut ≤ S i)%nat ∧ rs !! (cut - 1)%nat = Some newline).
Proof.
  revert i. induction n as [|n IH]; intros i Hn Hi; cbn [newline_cut]; [by left|].
  destruct (bool_decide_reflect (rs !! i = Some newline)) as [E|E].
  - right. split; [lia|]. by rewrite Nat.sub_succ, Nat.sub_0_r.
  - destruct n as [|n]; [by left|]. destruct (IH (i - 1)%nat) as [H|[H1 H2]]; [lia|lia|by left|]. right. split; [lia|done].
Qed.

Lemma chunk_cut_spec limit rs : (0 < limit)%nat → let cut := chunk_cut limit rs in
  (limit / 2 < cut ≤ limit)%nat ∧ (cut = limit ∨ rs !! (cut - 1)%nat = Some newline).
Proof.
  intros Hl. cbv zeta. unfold chunk_cut. pose proof (Nat.div_lt limit 2 Hl ltac:(lia)).
  destruct (newline_cut_spec (limit - limit / 2) limit (limit - 1) rs ltac:(lia) ltac:(lia)) as [->|[Hc Hr]].
  - split; [lia|by left].
  - split; [lia|by right].
Qed.

(** ** The pieces *)

Lemma split_runes_spec fuel limit rs : (0 < limit)%nat → (length rs < fuel)%nat →
  concat (split_runes fuel limit rs) = rs ∧ Forall (λ p, 0 < length p ≤ limit)%nat (split_runes fuel limit rs).
Proof.
  intros Hl. revert rs. induction fuel as [|fuel IH]; intros rs Hf; [lia|]. cbn [split_runes].
  destruct (Nat.ltb_spec limit (length rs)) as [Hlt|Hge].
  - destruct (chunk_cut_spec limit rs Hl) as [Hc _]. cbv zeta. set (cut := chunk_cut limit rs) in *.
    destruct (IH (skipn cut rs)) as [Hcat Hok]; [rewrite length_skipn; lia|]. cbn [concat]. rewrite Hcat, firstn_skipn. split; [done|].
    constructor; [rewrite length_firstn; lia|done].
  - destruct (Nat.ltb_spec 0 (length rs)); cbn.
    + rewrite List.app_nil_r. split; [done|]. repeat constructor; lia.
    + destruct rs; [done|cbn in *; lia].
Qed.

(** Every piece but the last is over half full. *)
Lemma split_runes_count fuel limit rs : (0 < limit)%nat → (length rs < fuel)%nat →
  (length (split_runes fuel limit rs) ≤ S (length rs / S (limit / 2)))%nat.
Proof.
  intros Hl. revert rs. induction fuel as [|fuel IH]; intros rs Hf; [lia|]. cbn [split_runes].
  destruct (Nat.ltb_spec limit (length rs)) as [Hlt|Hge].
  - destruct (chunk_cut_spec limit rs Hl) as [Hc _]. cbv zeta. set (cut := chunk_cut limit rs) in *. cbn [length].
    etransitivity; [apply le_n_S, IH; rewrite length_skipn; lia|]. rewrite length_skipn.
    apply le_n_S. set (d := S (limit / 2)). transitivity ((length rs - cut + 1 * d) / d)%nat; [rewrite Nat.div_add by lia; lia|].
    apply Nat.Div0.div_le_mono. lia.
  - destruct (0 <? length rs)%nat; cbn; lia.
Qed.

Lemma runes_encode rs : Forall decodes rs → runes (flat_map EncodeRune rs) = rs.
Proof.
  induction 1 as [|r rs [Hne Hd] _ IH]; [done|]. cbn [flat_map]. rewrite (runes_decode _ _ _ _ Hne (Hd _) eq_refl). by rewrite IH.
Qed.

Lemma flat_map_concat {A B} (f : A → list B) ls : flat_map f (concat ls) = concat (map (flat_map f) ls).
Proof. induction ls as [|l ls IH]; [done|]. cbn. by rewrite flat_map_app, IH. Qed.

(** A reply's pieces, put back together, are the reply, each within the
    platform's limit and none empty; there is one piece when the reply fits,
    and never more than the reply's half limits. *)
Theorem chunks_are_the_reply text limit : (0 < limit)%nat → ProblemList.Valid (bs text) = true → text ≠ "" →
  let pieces := splitChunks text limit in
  bs text = concat (map bs pieces) ∧
  Forall (λ p, 0 < length (runes (bs p)) ≤ limit)%nat pieces ∧
  (length pieces ≤ S (length (runes (bs text)) / S (limit / 2)))%nat ∧
  ((length (runes (bs text)) ≤ limit)%nat → pieces = [text]).
Proof.
  intros Hl Hv Hne. cbv zeta. unfold splitChunks. destruct (Nat.leb_spec (length (runes (bs text))) limit) as [Hle|Hgt].
  - cbn [map concat]. rewrite List.app_nil_r. split; [done|]. split; [|split; [cbn; lia|done]]. constructor; [|constructor]. split; [|done].
    destruct (runes (bs text)) eqn:E; [|cbn; lia]. exfalso. apply Hne. destruct text as [|c t]; [done|]. unfold runes in E.
    change (bs (String c t)) with (c :: bs t) in E. cbn [runes_from] in E. by destruct (DecodeRune _).
  - set (rs := runes (bs text)) in *. destruct (split_runes_spec (S (length rs)) limit rs Hl ltac:(lia)) as [Hcat Hok].
    pose proof (runes_decodes (bs text) 0) as Hd. change (runes_from 0 (bs text)) with rs in Hd.
    split; [|split; [|split; [rewrite length_map; apply split_runes_count; lia|lia]]].
    + rewrite map_map. transitivity (coerce (bs text)); [symmetry; by apply Valid_coerce|]. unfold coerce. fold rs. rewrite <- Hcat at 1. rewrite flat_map_concat. f_equal.
      apply map_ext. intros p. by rewrite bs_str.
    + apply List.Forall_map. rewrite <- Hcat in Hd. apply List.Forall_forall. intros p Hp. rewrite bs_str, runes_encode.
      * rewrite List.Forall_forall in Hok. by apply Hok.
      * rewrite List.Forall_forall in *. intros r Hr. apply Hd. apply in_concat. eauto.
Qed.

Definition long_reply : string := "abcd" +:+ String "010" "efghij".

Lemma chunks_are_the_reply_witness :
  splitChunks long_reply 8 = ["abcd" +:+ String "010" ""; "efghij"] ∧ bs long_reply = concat (map bs (splitChunks long_reply 8)) ∧
  (length (splitChunks long_reply 8) ≤ 3)%nat.
Proof.
  destruct (chunks_are_the_reply long_reply 8) as (H1 & _ & H3 & _); [lia|vm_compute; reflexivity|discriminate|].
  split; [vm_compute; reflexivity|]. split; [exact H1|]. etransitivity; [exact H3|]. vm_compute. lia.
Defined.

(** Platform channels, the shared half: internal/gateway/platform.go.

    An adapter is the Go interface platformAdapter: how an inbound request is
    answered, how a reply is sent, and how many requests that takes.  What the
    platform API answers is given by the number of the call.  The messages of
    one request run in the background, each on its own. *)

From stdpp Require Import gmap.
From S2P Require Import CallbackPolicy GoFloat GoTime Rfc3339 Auth Activity RequestBody JsonDecode UsageReader Conditions AgentLifecycle ToolMessage ChannelHealth ChannelApi ChannelAuth PodReady Delivery AsyncDelivery.

Local Open Scope delivery_scope.

(** ** Requests and answers *)

Record user_request := mk_user_request {
  ur_method : string;
  ur_path : string;
  ur_query : gmap string string;
  ur_header : Header;
}.

Inductive user_reply :=
  | UError (e : error_response)
  | UBody (contentType : string) (body : bytes)
  | UStatus (status : Z)
  | UAccepted (a : asyncAcceptResponse)
  | UPoll (p : poll_reply).

(** The reply context of a message. *)
Inductive reply_context :=
  | DiscordReply (applicationID token channelID userID : string) (received : Time)
  | WhatsAppReply (phoneNumberID to : string).

Record platformMessage := mk_platform_message { pm_env : MessageEnvelope; pm_reply : reply_context }.

Record inboundResult := mk_inbound {
  messages : list platformMessage;
  authFailed : string;
  verificationProbe : bool;
  rejected : Z;
}.

Definition no_result : inboundResult := mk_inbound [] "" false 0.
Definition auth_failure (detail : string) : inboundResult := mk_inbound [] detail false 0.

Record platformAdapter := mk_adapter {
  pa_Type : string;
  pa_Handle : user_request → AgentChannel → bytes → M (user_reply * inboundResult);
  pa_SendReply : ctx → AgentChannel → platformMessage → string → M string;
  pa_ReplyRequests : string → Z;
}.

Record platform_outside := mk_platform_outside {
  z_discordBase : string;
  z_whatsAppBase : string;
  z_uuid : nat → string;
  z_secret : nat → string → string → Secret + string;
  z_client : nat → option string;
  z_send : nat → ((Z * bytes) + string) * Duration;
}.

(** ** Reply delivery *)

Inductive replyBucket := bucketDelivered | bucketTerminal | bucketRetried.
#[export] Instance replyBucket_eq : EqDecision replyBucket.
Proof. solve_decision. Defined.

Definition classifyReplyStatus (status : Z) : replyBucket :=
  if (200 <=? status)%Z && (status <? 300)%Z then bucketDelivered
  else if existsb (Z.eqb status) [400; 401; 403; 404; 405; 410; 415]%Z then bucketTerminal
  else bucketRetried.

Definition platformErrorMessage (f : failure) : string :=
  if (f_errType f =? errControllerDown)%string then "controller activator endpoint unreachable; wake could not be triggered"
  else if (f_errType f =? errWakeTimeout)%string then f_err f
  else if (f_errType f =? errResponseTooLarge)%string then "the agent's response exceeded the gateway's size limit"
  else if (f_errType f =? errAgentNotReady)%string then "the agent is starting and has too many messages waiting; try again shortly"
  else "the agent could not be reached or returned an error".

Record replyResult := mk_reply_result { rr_bucket : replyBucket; rr_status : Z; rr_body : bytes; rr_err : option string }.

(** strings.ToValidUTF8 with an empty replacement. *)
Fixpoint only_valid (skip : nat) (b : bytes) : bytes :=
  match b, skip with
  | [], _ => []
  | _ :: b', S k => only_valid k b'
  | _ :: b', O =>
      let '(r, n) := DecodeRune b in
      if (r =? RuneError)%Z && (n =? 1)%nat then only_valid 0 b' else firstn n b ++ only_valid (n - 1) b'
  end.

Definition maxReplyRefusalDetail : nat := 512.

Definition truncatedReplyBody (body : bytes) : string :=
  let s := bs (TrimText (str body)) in
  str (only_valid 0 (if (maxReplyRefusalDetail <? length s)%nat then firstn maxReplyRefusalDetail s ++ bs "... (truncated)" else s)).

Record platform_request := mk_platform_request { pq_method : string; pq_op : string; pq_url : string; pq_header : Header; pq_body : bytes }.

Section platform.
Context {P : UrlParser}.
Context (cfg : Config) (x : outside) (z : platform_outside).

(** withoutRequestURL of what the client returns. *)
Definition send_error (r : platform_request) (inner : string) : string := pq_op r +:+ (" request failed: " +:+ inner).

Fixpoint send_loop (c : ctx) (r : platform_request) (classify : Z → bytes → replyBucket) (last : replyResult) (backoff : list Duration) : M replyResult :=
  match backoff with
  | [] => ret last
  | delay :: rest =>
      let* stop := if (0 <? delay)%Z then sleep c delay else ret false in
      if stop then ret (mk_reply_result (rr_bucket last) (rr_status last) (rr_body last) (Some "context deadline exceeded"))
      else
        let* n := next_call in
        match z_client z n with
        | Some e => send_loop c r classify (mk_reply_result (rr_bucket last) (rr_status last) (rr_body last) (Some e)) rest
        | None =>
            match url_Parse (pq_url r) with
            | None => ret (mk_reply_result bucketTerminal 0 [] (Some "invalid URL"))
            | Some _ =>
                perform emit (EPlatformRequest (pq_method r) (pq_url r) (pq_header r) (pq_body r)) in
                let* now := clock in
                let* a := call (if (0 <? callbackReadTimeout cfg)%Z then withTimeout c now (callbackReadTimeout cfg) else c) (z_send z) in
                match a with
                | None => send_loop c r classify (mk_reply_result (rr_bucket last) (rr_status last) (rr_body last) (Some (send_error r "context deadline exceeded"))) rest
                | Some (inr inner) => send_loop c r classify (mk_reply_result (rr_bucket last) (rr_status last) (rr_body last) (Some (send_error r inner))) rest
                | Some (inl (status, body)) =>
                    let body := firstn 65536 body in
                    let last := mk_reply_result (classify status body) status body None in
                    if bool_decide (rr_bucket last = bucketRetried) then send_loop c r classify last rest else ret last
                end
            end
        end
  end.

Definition sendPlatformRequest (c : ctx) (r : platform_request) (classify : Z → bytes → replyBucket) : M replyResult :=
  send_loop c r classify (mk_reply_result bucketRetried 0 [] None) (0%Z :: CallbackBackoff cfg).

Definition replyRefused (channel : AgentChannel) (platform : string) (res : replyResult) : M string :=
  let '(outcome, detail) :=
    if bool_decide (rr_bucket res = bucketRetried) then
      (callbackExhausted, platform +:+ (" reply exhausted its retries" +:+
        match rr_err res with
        | Some e => ": " +:+ e
        | None => if negb (rr_status res =? 0)%Z then ": last HTTP " +:+ str (print_Z (rr_status res)) else ""
        end))
    else (callbackRejected, platform +:+ (" reply refused: HTTP " +:+ (str (print_Z (rr_status res)) +:+ (" " +:+ truncatedReplyBody (rr_body res))))) in
  perform fail_health channel healthReasonCallbackRejected detail in
  perform emit (EWarning "CallbackRejected" "DeliverReply" detail) in
  ret outcome.

(** Sends the requests in order, stopping at the first that is not delivered. *)
Fixpoint send_all (c : ctx) (channel : AgentChannel) (platform : string) (classify : Z → bytes → replyBucket) (rs : list platform_request) : M string :=
  match rs with
  | [] => ret callbackDelivered
  | r :: rs =>
      let* res := sendPlatformRequest c r classify in
      if bool_decide (rr_bucket res = bucketDelivered) then send_all c channel platform classify rs
      else replyRefused channel platform res
  end.

(** ** One message *)

Definition runPlatformPipeline (c : ctx) (channel : AgentChannel) (agent : option AgentInfo) (adapter : platformAdapter) (m : platformMessage) : M unit :=
  let* start := clock in
  let dctx := withTimeout c start (backgroundPipelineBound cfg agent 0) in
  let* text := match agent with
               | None => ret (errDeliveryFailed +:+ ": referenced Agent not found")
               | Some a =>
                   let* r := wakeAndDeliver cfg x dctx (Path (ch_Spec channel)) a (pm_env m) in
                   match r with
                   | inr f =>
                       perform (if (f_errType f =? errResponseTooLarge)%string then emit (EResponseTooLarge (ai_Namespace a) "async") else ret tt) in
                       ret (f_errType f +:+ (": " +:+ platformErrorMessage f))
                   | inl body => ret (default "" (response_content body))
                   end
               end in
  let rctx := withTimeout c start (backgroundPipelineBound cfg agent (pa_ReplyRequests adapter text)) in
  let* outcome := pa_SendReply adapter rctx channel m text in
  emit (EChannelCallback (ch_Namespace channel) outcome).

(** ** One request *)

Fixpoint repeat_emit (n : nat) (e : event) : M unit := match n with O => ret tt | S n => perform emit e in repeat_emit n e end.

(** The answer, and the background runs: each is [runPlatformPipeline] of its
    message.  [agent] is the Agent the channel names, if there is one. *)
Definition handlePlatform (agent : option AgentInfo) (r : user_request) (channel : AgentChannel) (body : bytes) (adapter : platformAdapter)
    : M (user_reply * list (option AgentInfo * platformMessage)) :=
  let* h := pa_Handle adapter r channel body in
  let '(reply, res) := h in
  perform (if verificationProbe res then ret tt
           else if negb (authFailed res =? "")%string then fail_health channel healthReasonAuthFailed (authFailed res)
           else ret tt) in
  perform repeat_emit (Z.to_nat (rejected res)) (EChannelMessage (pa_Type adapter) (ch_Namespace channel) "rejected") in
  if bool_decide (messages res = []) then ret (reply, [])
  else
    perform (match agent with None => fail_health channel healthReasonAgentNotReady "referenced Agent not found" | Some _ => ret tt end) in
    ret (reply, map (λ m, (agent, m)) (messages res)).
End platform.
