(* ===== verification/Discord.v ===== *)
(** The Discord adapter: internal/gateway/discord.go.

    Ed25519 verification is a parameter.  An interaction is read by
    json.Unmarshal into the struct of the source; the records here are the
    fields the code uses. *)

From stdpp Require Import base gmap list strings option.
From Stdlib Require Import ZArith Lia Ascii.
From S2P Require Import CallbackPolicy Prelude GoFloat GoTime Rfc3339 Auth Activity Json JsonString JsonValue RequestBody JsonDecode UsageReader Conditions AgentLifecycle ProblemList Sha256 UpstreamPath ToolMessage ToolList McpWire ChannelHealth ChannelApi ChannelAuth Envelope PodReady Delivery AsyncDelivery Platform.

Local Open Scope delivery_scope.

Definition discordChunkLimit : nat := 2000.
Definition discordTokenWindow : Duration := (15 * Minute)%Z.
Definition discordTimestampSkew : Duration := (300 * Second)%Z.
Definition discordRefusalText : string := "This bot is not available here.".
Definition discordModalText : string := "Modals are not supported.".
Definition discordEmptyReply : string := "(empty reply)".
Definition discordDefaultContentOption : string := "message".
Definition DefaultDiscordAPIBaseURL : string := "https://discord.com/api/v10".
Definition discordKeyPublicKey : string := "publicKey".
Definition discordKeyBotToken : string := "botToken".

(** ** The interaction *)

Definition discordUser : gty := TStruct [("id", TString); ("username", TString)].
Definition discordOption : gty := TStruct [("name", TString); ("type", TInt); ("value", TAny)].
Definition discordAttachment : gty :=
  TStruct [("id", TString); ("url", TString); ("filename", TString); ("content_type", TString); ("size", TInt)].
Definition discordInteraction : gty := TStruct
  [("id", TString); ("application_id", TString); ("type", TInt); ("token", TString); ("guild_id", TString); ("channel_id", TString);
   ("member", TPtr (TStruct [("user", TPtr discordUser)])); ("user", TPtr discordUser);
   ("data", TPtr (TStruct [("name", TString); ("options", TSlice discordOption);
                           ("resolved", TPtr (TStruct [("attachments", TMapOf discordAttachment)]))]));
   ("locale", TString)].

Definition in_ID (v : gval) : string := gstr (gfield v 0).
Definition in_ApplicationID (v : gval) : string := gstr (gfield v 1).
Definition in_Type (v : gval) : Z := gint (gfield v 2).
Definition in_Token (v : gval) : string := gstr (gfield v 3).
Definition in_GuildID (v : gval) : string := gstr (gfield v 4).
Definition in_ChannelID (v : gval) : string := gstr (gfield v 5).
Definition in_Member (v : gval) : option gval := gptr (gfield v 6).
Definition in_User (v : gval) : option gval := gptr (gfield v 7).
Definition in_Data (v : gval) : option gval := gptr (gfield v 8).
Definition in_Locale (v : gval) : string := gstr (gfield v 9).

Definition isDiscordPing (body : bytes) : bool :=
  match UnmarshalInto (TStruct [("type", TInt)]) body with Some v => (gint (gfield v 0) =? 1)%Z | None => false end.

(** ** The signature *)

Class Ed25519 := { ed25519_Verify : bytes → bytes → bytes → bool }.

(** The text of hex.DecodeString's error. *)
Definition upper_hex (d : Z) : ascii := if (d <? 10)%Z then JsonString.byte (48 + d) else JsonString.byte (55 + d).

Section discord.
Context {U : Unicode} {E : Ed25519} {UL : UuidLib} {P : UrlParser}.
Context (cfg : Config) (z : platform_outside).

Definition invalid_byte (c : ascii) : string :=
  let v := ascii_Z c in
  "encoding/hex: invalid byte: U+00" +:+ (str [upper_hex (v / 16); upper_hex (v mod 16)] +:+
    (if (32 <=? v)%Z && (v <? 127)%Z || (128 <=? v)%Z && isPrint v then " '" +:+ (str (EncodeRune v) +:+ "'") else "")).

Fixpoint hex_error (b : bytes) : string :=
  match b with
  | [] => ""
  | [c] => match hex_val c with None => invalid_byte c | Some _ => "encoding/hex: odd length hex string" end
  | p :: q :: b => match hex_val p, hex_val q with None, _ => invalid_byte p | _, None => invalid_byte q | _, _ => hex_error b end
  end.

Definition publicKey (secret : string → string → Secret + string) (channel : AgentChannel) (d : AgentChannelDiscord) : bytes + string :=
  match SecretValue secret (ch_Namespace channel) (dc_CredentialsRef d) discordKeyPublicKey with
  | inr e => inr e
  | inl raw =>
      match hex_decode (bs raw) with
      | None => inr ("publicKey is not hex: " +:+ hex_error (bs raw))
      | Some key =>
          if negb (length key =? 32)%nat then inr ("publicKey is " +:+ (str (print_Z (Z.of_nat (length key))) +:+ " bytes, want 32")) else inl key
      end
  end.

(** [skew = -skew] wraps at the width of a Duration. *)
Definition absolute_skew (now : Time) (unix : Z) : Duration :=
  let skew := Sub now (Unix unix) in if (skew <? 0)%Z then wrap64 (- skew) else skew.

Definition verifyDiscordSignature (pub : bytes) (sigHex timestamp : string) (body : bytes) (now : Time) : bool :=
  match hex_decode (bs sigHex) with
  | None => false
  | Some sig =>
      if negb (length sig =? 64)%nat then false
      else match ParseInt timestamp with
           | None => false
           | Some ts => if (discordTimestampSkew <? absolute_skew now ts)%Z then false else ed25519_Verify pub (bs timestamp ++ body) sig
           end
  end.

(** ** The inbound half *)

Definition inScope (d : AgentChannelDiscord) (v : gval) : bool :=
  match dc_GuildID d with Some g => (in_GuildID v =? g)%string | None => true end
  && (bool_decide (dc_AllowedChannelIDs d = []) || existsb (String.eqb (in_ChannelID v)) (dc_AllowedChannelIDs d)).

Definition interaction_user (v : gval) : string :=
  let user := match in_Member v with
              | Some m => match gptr (gfield m 0) with Some u => Some u | None => in_User v end
              | None => in_User v
              end in
  match user with Some u => gstr (gfield u 0) | None => "" end.

Definition number (n : Z) : cst := CScalar (print_Z n).

Definition discordAttachmentRef (att : gval) : cst :=
  mk_map [("type", text_of "discord.attachment"); ("id", text_of (gstr (gfield att 0))); ("url", text_of (gstr (gfield att 1)));
          ("filename", text_of (gstr (gfield att 2))); ("contentType", text_of (gstr (gfield att 3))); ("size", number (gint (gfield att 4)))].

(** What the options leave: their values, the content and the attachments. *)
Definition read_option (contentOption : string) (resolved : option gval) (acc : gmap string any * string * list cst) (opt : gval)
    : gmap string any * string * list cst :=
  let '(options, content, attachments) := acc in
  let name := gstr (gfield opt 0) in
  let value := gany (gfield opt 2) in
  let options := <[name := value]> options in
  let content := match value with VStr s => if (name =? contentOption)%string then s else content | _ => content end in
  let attachments :=
    match resolved with
    | Some r =>
        if (gint (gfield opt 1) =? 11)%Z then
          match gmap_of (gfield r 0) !! (match value with VStr s => s | _ => "" end) with
          | Some att => attachments ++ [discordAttachmentRef att]
          | None => attachments
          end
        else attachments
    | None => attachments
    end in
  (options, content, attachments).

(** [messageID] is uuid.NewString(). *)
Definition discord_message (channel : AgentChannel) (d : AgentChannelDiscord) (v : gval) (messageID : string) (now : Time) : platformMessage :=
  let userID := interaction_user v in
  let contentOption := if (dc_ContentOption d =? "")%string then discordDefaultContentOption else dc_ContentOption d in
  let '(options, content, attachments) :=
    match in_Data v with
    | Some data => foldl (read_option contentOption (gptr (gfield data 2))) (∅, "", []) (glist (gfield data 1))
    | None => (∅, "", [])
    end in
  let channelID := Path (ch_Spec channel) in
  mk_platform_message
    (mk_envelope messageID ChannelTypeDiscord channelID userID (if SessionEnabled (ch_Spec channel) then SessionID channelID userID else "") content attachments
       {["interactionId" := VStr (in_ID v); "applicationId" := VStr (in_ApplicationID v); "guildId" := VStr (in_GuildID v);
         "channelId" := VStr (in_ChannelID v); "command" := VStr (match in_Data v with Some data => gstr (gfield data 0) | None => "" end);
         "options" := VObj options; "locale" := VStr (in_Locale v)]})
    (DiscordReply (in_ApplicationID v) (in_Token v) (in_ChannelID v) userID now).

(** json.Encoder ends its output with a newline. *)
Definition writeDiscordResponse (kvs : list (string * cst)) : user_reply := UBody "application/json" (text (mk_map kvs) ++ ["010"%char]).
Definition writeDiscordEphemeral (t : string) : user_reply :=
  writeDiscordResponse [("type", number 4); ("data", mk_map [("content", text_of t); ("flags", number 64)])].

Definition discord_Handle (r : user_request) (channel : AgentChannel) (d : AgentChannelDiscord) (body : bytes) : M (user_reply * inboundResult) :=
  if negb (ur_method r =? "POST")%string then ret (UError unauthorizedUser, no_result)
  else
    let* n := next_call in
    let* now := clock in
    match publicKey (z_secret z n) channel d with
    | inr e => ret (UError unauthorizedUser, auth_failure ("discord publicKey unusable: " +:+ e))
    | inl pub =>
        if negb (verifyDiscordSignature pub (HeaderGet (ur_header r) "X-Signature-Ed25519") (HeaderGet (ur_header r) "X-Signature-Timestamp") body now) then
          ret (UError unauthorizedUser,
            if isDiscordPing body then mk_inbound [] "discord verification probe refused: 401 Unauthorized" true 0
            else auth_failure "discord signature or timestamp rejected: 401 Unauthorized")
        else
          match UnmarshalInto discordInteraction body with
          | None => ret (UError (badRequest "interaction body is not valid JSON"), no_result)
          | Some v =>
              if (in_Type v =? 1)%Z then ret (writeDiscordResponse [("type", number 1)], no_result)
              else if (in_Type v =? 2)%Z then
                if negb (inScope d v) then ret (writeDiscordEphemeral discordRefusalText, mk_inbound [] "" false 1)
                else
                  let* n := next_call in
                  ret (writeDiscordResponse [("type", number 5)], mk_inbound [discord_message channel d v (z_uuid z n) now] "" false 0)
              else if (in_Type v =? 3)%Z then ret (writeDiscordResponse [("type", number 6)], no_result)
              else if (in_Type v =? 4)%Z then ret (writeDiscordResponse [("type", number 8); ("data", mk_map [("choices", mk_array [])])], no_result)
              else if (in_Type v =? 5)%Z then ret (writeDiscordEphemeral discordModalText, no_result)
              else ret (UError (badRequest ("unknown interaction type " +:+ str (print_Z (in_Type v)))), no_result)
          end
    end.

(** ** The reply *)

Definition discord_apiBaseURL : string :=
  let base := if (z_discordBase z =? "")%string then DefaultDiscordAPIBaseURL else z_discordBase z in TrimSuffix base "/".

Definition discordSnowflake (s : string) : bool :=
  negb (length (bs s) =? 0)%nat && (length (bs s) <=? 20)%nat && forallb is_digit (bs s).

Definition token_char (c : ascii) : bool :=
  let v := ascii_Z c in
  (97 <=? v)%Z && (v <=? 122)%Z || (65 <=? v)%Z && (v <=? 90)%Z || is_digit c || Ascii.eqb c "_" || Ascii.eqb c "-" || Ascii.eqb c ".".

Definition discordTokenShape (s : string) : bool :=
  negb (length (bs s) =? 0)%nat && (length (bs s) <=? 512)%nat && forallb token_char (bs s).

Definition discord_body (content : string) (mention : option string) : bytes :=
  text (mk_map ([("content", text_of content)] ++ match mention with Some u => [("allowed_mentions", mk_map [("users", mk_array [text_of u])])] | None => [] end)).

Definition discordJSONRequest (method op url authorization : string) (body : bytes) : platform_request :=
  let h := HeaderSet ∅ "Content-Type" "application/json" in
  mk_platform_request method op url (if (authorization =? "")%string then h else HeaderSet h "Authorization" authorization) body.

Definition reply_classify (status : Z) (_ : bytes) : replyBucket := classifyReplyStatus status.

Definition bot_text (userID chunk : string) : string := "<@" +:+ (userID +:+ ("> " +:+ chunk)).

Definition sendViaBot (c : ctx) (channel : AgentChannel) (d : AgentChannelDiscord) (channelID userID : string) (chunks : list string) (why : string) : M string :=
  if negb (discordSnowflake channelID) then
    replyRefused channel "discord" (mk_reply_result bucketTerminal 0 (bs (why +:+ " and the interaction channel id failed shape validation")) None)
  else
    let* n := next_call in
    match SecretValue (z_secret z n) (ch_Namespace channel) (dc_CredentialsRef d) discordKeyBotToken with
    | inr _ => replyRefused channel "discord" (mk_reply_result bucketTerminal 404 (bs (why +:+ " and no botToken is configured")) None)
    | inl token =>
        send_all cfg z c channel "discord" reply_classify
          (map (λ chunk, discordJSONRequest "POST" "Post" (discord_apiBaseURL +:+ ("/channels/" +:+ (PathEscape channelID +:+ "/messages"))) ("Bot " +:+ token)
             (discord_body (bot_text userID chunk) (Some userID))) chunks)
    end.

Definition discord_reply (c : ctx) (channel : AgentChannel) (d : AgentChannelDiscord) (applicationID token channelID userID : string) (received : Time) (reply : string) : M string :=
  let reply := if (reply =? "")%string then discordEmptyReply else reply in
  if negb (discordSnowflake applicationID) || negb (discordTokenShape token) then
    replyRefused channel "discord" (mk_reply_result bucketTerminal 0 (bs "interaction application id or token failed shape validation") None)
  else
    let chunks := splitChunks reply discordChunkLimit in
    let* now := clock in
    if (discordTokenWindow <? Sub now received)%Z then sendViaBot c channel d channelID userID chunks "interaction token expired"
    else
      let webhook := discord_apiBaseURL +:+ ("/webhooks/" +:+ (PathEscape applicationID +:+ ("/" +:+ PathEscape token))) in
      match chunks with
      | [] => ret callbackDelivered
      | first :: rest =>
          let* res := sendPlatformRequest cfg z c (discordJSONRequest "PATCH" "Patch" (webhook +:+ "/messages/@original") "" (discord_body first None)) reply_classify in
          if bool_decide (rr_bucket res = bucketDelivered) then
            send_all cfg z c channel "discord" reply_classify (map (λ chunk, discordJSONRequest "POST" "Post" webhook "" (discord_body chunk None)) rest)
          else if (rr_status res =? 404)%Z then sendViaBot c channel d channelID userID chunks "follow-up webhook answered 404"
          else replyRefused channel "discord" res
      end.

Definition discord_ReplyRequests (reply : string) : Z :=
  Z.of_nat (length (splitChunks (if (reply =? "")%string then discordEmptyReply else reply) discordChunkLimit)) + 1.

(** The adapter of a channel whose discord block is [d]. *)
Definition discordAdapter (d : AgentChannelDiscord) : platformAdapter := mk_adapter ChannelTypeDiscord
  (λ r channel body, discord_Handle r channel d body)
  (λ c channel m reply,
     match pm_reply m with
     | DiscordReply applicationID token channelID userID received => discord_reply c channel d applicationID token channelID userID received reply
     | _ => ret callbackRejected
     end)
  discord_ReplyRequests.
End discord.
