(* ===== verification/WhatsApp.v ===== *)
(** The WhatsApp adapter: internal/gateway/whatsapp.go. *)

From stdpp Require Import base gmap list strings option.
From Stdlib Require Import ZArith Lia Ascii.
From S2P Require Import CallbackPolicy Prelude GoFloat GoTime Rfc3339 Auth Activity Json JsonString JsonValue RequestBody JsonDecode UsageReader Conditions AgentLifecycle ProblemList Sha256 UpstreamPath ToolMessage ToolList McpWire ChannelHealth ChannelApi ChannelAuth Envelope PodReady Delivery AsyncDelivery Platform.

Local Open Scope delivery_scope.

Definition whatsAppKeyVerifyToken : string := "verifyToken".
Definition whatsAppKeyAppSecret : string := "appSecret".
Definition whatsAppKeyAccessToken : string := "accessToken".
Definition whatsAppSignatureHeader : string := "X-Hub-Signature-256".
Definition whatsAppSignaturePrefix : string := "sha256=".
Definition whatsAppChunkLimit : nat := 4096.
Definition whatsAppErrorRateLimit : Z := 130429.
Definition whatsAppEmptyReply : string := "(empty reply)".
Definition DefaultWhatsAppAPIBaseURL : string := "https://graph.facebook.com/v23.0".

(** ** The event *)

Definition whatsAppValue : gty := TStruct
  [("metadata", TStruct [("display_phone_number", TString); ("phone_number_id", TString)]);
   ("contacts", TSlice (TStruct [("profile", TStruct [("name", TString)]); ("wa_id", TString)]));
   ("messages", TSlice TRaw); ("statuses", TSlice TRaw)].
Definition whatsAppEvent : gty := TStruct
  [("object", TString);
   ("entry", TSlice (TStruct [("id", TString); ("changes", TSlice (TStruct [("field", TString); ("value", whatsAppValue)]))]))].

Definition whatsAppMedia : gty := TStruct [("id", TString); ("mime_type", TString); ("sha256", TString); ("caption", TString)].
Definition whatsAppMessage : gty := TStruct
  [("from", TString); ("id", TString); ("timestamp", TString); ("type", TString);
   ("text", TPtr (TStruct [("Body", TString)]));
   ("interactive", TPtr (TStruct [("button_reply", TPtr (TStruct [("Title", TString)])); ("list_reply", TPtr (TStruct [("Title", TString)]))]));
   ("image", TPtr whatsAppMedia); ("document", TPtr whatsAppMedia); ("audio", TPtr whatsAppMedia); ("video", TPtr whatsAppMedia);
   ("sticker", TPtr whatsAppMedia)].

Definition m_From (m : gval) : string := gstr (gfield m 0).
Definition m_ID (m : gval) : string := gstr (gfield m 1).
Definition m_Timestamp (m : gval) : string := gstr (gfield m 2).
Definition m_Type (m : gval) : string := gstr (gfield m 3).

Section whatsapp.
Context {U : Unicode} {UL : UuidLib} {P : UrlParser}.
Context (cfg : Config) (z : platform_outside).

(** The media of a message, if its type has any. *)
Definition message_media (m : gval) : option gval :=
  if (m_Type m =? "image")%string then gptr (gfield m 6)
  else if (m_Type m =? "document")%string then gptr (gfield m 7)
  else if (m_Type m =? "audio")%string then gptr (gfield m 8)
  else if (m_Type m =? "video")%string then gptr (gfield m 9)
  else if (m_Type m =? "sticker")%string then gptr (gfield m 10)
  else None.

Definition message_content (m : gval) : string :=
  if (m_Type m =? "text")%string then match gptr (gfield m 4) with Some t => gstr (gfield t 0) | None => "" end
  else if (m_Type m =? "interactive")%string then
    match gptr (gfield m 5) with
    | Some i =>
        match gptr (gfield i 0), gptr (gfield i 1) with
        | Some b, _ => gstr (gfield b 0)
        | None, Some l => gstr (gfield l 0)
        | None, None => ""
        end
    | None => ""
    end
  else match message_media m with Some media => gstr (gfield media 3) | None => "" end.

Definition whatsAppAttachmentRef (kind : string) (media : gval) : cst :=
  mk_map [("type", text_of ("whatsapp." +:+ kind)); ("id", text_of (gstr (gfield media 0))); ("mimeType", text_of (gstr (gfield media 1)));
          ("sha256", text_of (gstr (gfield media 2)))].

Definition whatsapp_message (channel : AgentChannel) (wa : AgentChannelWhatsApp) (m : gval) (raw : bytes) (displayNumber profileName messageID : string) : platformMessage :=
  let channelID := Path (ch_Spec channel) in
  mk_platform_message
    (mk_envelope messageID ChannelTypeWhatsApp channelID (m_From m) (if SessionEnabled (ch_Spec channel) then SessionID channelID (m_From m) else "")
       (message_content m) (match message_media m with Some media => [whatsAppAttachmentRef (m_Type m) media] | None => [] end)
       {["messageId" := VStr (m_ID m); "timestamp" := VStr (m_Timestamp m); "phoneNumberId" := VStr (wa_PhoneNumberID wa);
         "displayPhoneNumber" := VStr displayNumber; "profileName" := VStr profileName; "messageType" := VStr (m_Type m);
         "message" := match UnmarshalType TAny raw with Some (v, _) => gany v | None => VNull end]})
    (WhatsAppReply (wa_PhoneNumberID wa) (m_From m)).

(** ** The inbound half *)

Definition handleVerification (r : user_request) (channel : AgentChannel) (wa : AgentChannelWhatsApp) : M (user_reply * inboundResult) :=
  let* n := next_call in
  let q key := default "" (ur_query r !! key) in
  ret (match SecretValue (z_secret z n) (ch_Namespace channel) (wa_CredentialsRef wa) whatsAppKeyVerifyToken with
       | inr e => (UError unauthorizedUser, auth_failure ("whatsapp verifyToken unavailable: " +:+ e))
       | inl token =>
           if negb (q "hub.mode" =? "subscribe")%string || negb (q "hub.verify_token" =? token)%string then
             (UError unauthorizedUser, auth_failure "whatsapp verification token rejected: 401 Unauthorized")
           else (UBody "text/plain" (bs (q "hub.challenge")), no_result)
       end).

Definition whatsapp_hmac : ChannelHMAC := mk_channel_hmac whatsAppSignatureHeader "sha256" (mk_secret_ref "" "") (Some whatsAppSignaturePrefix) "hex".

(** One message of a change: kept with its fields, or rejected. *)
Definition read_message (raw : bytes) : option gval :=
  match UnmarshalInto whatsAppMessage raw with
  | Some m => if (m_From m =? "")%string then None else Some m
  | None => None
  end.

Definition contact_names (v : gval) : gmap string string :=
  foldl (λ names c, <[gstr (gfield c 1) := gstr (gfield (gfield c 0) 0)]> names) ∅ (glist (gfield v 1)).

(** The messages of a change in order, each with a fresh id. *)
Fixpoint change_messages (channel : AgentChannel) (wa : AgentChannelWhatsApp) (v : gval) (raws : list gval) (res : inboundResult) : M inboundResult :=
  match raws with
  | [] => ret res
  | raw :: raws =>
      match read_message (graw raw) with
      | None => change_messages channel wa v raws (mk_inbound (messages res) "" false (rejected res + 1))
      | Some m =>
          let* n := next_call in
          change_messages channel wa v raws
            (mk_inbound (messages res ++ [whatsapp_message channel wa m (graw raw) (gstr (gfield (gfield v 0) 0))
                                            (default "" (contact_names v !! m_From m)) (z_uuid z n)]) "" false (rejected res))
      end
  end.

Definition read_change (channel : AgentChannel) (wa : AgentChannelWhatsApp) (res : inboundResult) (v : gval) : M inboundResult :=
  let res := mk_inbound (messages res) "" false (rejected res + Z.of_nat (length (glist (gfield v 3)))) in
  if negb (gstr (gfield (gfield v 0) 1) =? wa_PhoneNumberID wa)%string then
    ret (mk_inbound (messages res) "" false (rejected res + Z.of_nat (length (glist (gfield v 2)))))
  else change_messages channel wa v (glist (gfield v 2)) res.

Fixpoint read_changes (channel : AgentChannel) (wa : AgentChannelWhatsApp) (res : inboundResult) (vs : list gval) : M inboundResult :=
  match vs with
  | [] => ret res
  | v :: vs => let* res := read_change channel wa res v in read_changes channel wa res vs
  end.

(** The values of the event's changes, entry by entry. *)
Definition event_values (event : gval) : list gval :=
  flat_map (λ entry, map (λ change, gfield change 1) (glist (gfield entry 1))) (glist (gfield event 1)).

Definition handleEvent (r : user_request) (channel : AgentChannel) (wa : AgentChannelWhatsApp) (body : bytes) : M (user_reply * inboundResult) :=
  let* n := next_call in
  match SecretValue (z_secret z n) (ch_Namespace channel) (wa_CredentialsRef wa) whatsAppKeyAppSecret with
  | inr e => ret (UError unauthorizedUser, auth_failure ("whatsapp appSecret unavailable: " +:+ e))
  | inl secret =>
      if negb (verifyHMACHeader (HeaderGet (ur_header r) whatsAppSignatureHeader) whatsapp_hmac (hmac_sum SHA256 (bs secret) body)) then
        ret (UError unauthorizedUser, auth_failure "whatsapp signature rejected: 401 Unauthorized")
      else
        match UnmarshalInto whatsAppEvent body with
        | None => ret (UError (badRequest "event body is not valid JSON"), no_result)
        | Some event => let* res := read_changes channel wa no_result (event_values event) in ret (UStatus 200, res)
        end
  end.

Definition whatsapp_Handle (r : user_request) (channel : AgentChannel) (wa : AgentChannelWhatsApp) (body : bytes) : M (user_reply * inboundResult) :=
  if (ur_method r =? "GET")%string then handleVerification r channel wa
  else if (ur_method r =? "POST")%string then handleEvent r channel wa body
  else ret (UError unauthorizedUser, no_result).

(** ** The reply *)

Definition whatsapp_apiBaseURL : string :=
  let base := if (z_whatsAppBase z =? "")%string then DefaultWhatsAppAPIBaseURL else z_whatsAppBase z in TrimSuffix base "/".

Definition whatsAppErrorBody : gty := TStruct [("error", TStruct [("code", TInt)])].

Definition classifyWhatsAppReply (status : Z) (body : bytes) : replyBucket :=
  let limited := match UnmarshalInto whatsAppErrorBody body with Some v => (gint (gfield (gfield v 0) 0) =? whatsAppErrorRateLimit)%Z | None => false end in
  if (status =? 400)%Z && limited then bucketRetried else classifyReplyStatus status.

Definition whatsapp_chunks (reply : string) : list string :=
  splitChunks (if (reply =? "")%string then whatsAppEmptyReply else reply) whatsAppChunkLimit.

Definition whatsAppSendBody (to chunk : string) : bytes :=
  text (mk_map [("messaging_product", text_of "whatsapp"); ("recipient_type", text_of "individual"); ("to", text_of to); ("type", text_of "text");
                ("text", mk_map [("preview_url", tree_of (VBool false)); ("body", text_of chunk)])]).

Definition whatsapp_request (phoneNumberID to token chunk : string) : platform_request :=
  mk_platform_request "POST" "Post" (whatsapp_apiBaseURL +:+ ("/" +:+ (phoneNumberID +:+ "/messages")))
    (HeaderSet (HeaderSet ∅ "Content-Type" "application/json") "Authorization" ("Bearer " +:+ token)) (whatsAppSendBody to chunk).

Definition whatsapp_reply (c : ctx) (channel : AgentChannel) (wa : AgentChannelWhatsApp) (phoneNumberID to reply : string) : M string :=
  let* n := next_call in
  match SecretValue (z_secret z n) (ch_Namespace channel) (wa_CredentialsRef wa) whatsAppKeyAccessToken with
  | inr e => replyRefused channel "whatsapp" (mk_reply_result bucketTerminal 401 (bs ("accessToken unavailable: " +:+ e)) None)
  | inl token => send_all cfg z c channel "whatsapp" classifyWhatsAppReply (map (whatsapp_request phoneNumberID to token) (whatsapp_chunks reply))
  end.

Definition whatsapp_ReplyRequests (reply : string) : Z := Z.of_nat (length (whatsapp_chunks reply)).

Definition whatsAppAdapter (wa : AgentChannelWhatsApp) : platformAdapter := mk_adapter ChannelTypeWhatsApp
  (λ r channel body, whatsapp_Handle r channel wa body)
  (λ c channel m reply, match pm_reply m with WhatsAppReply phoneNumberID to => whatsapp_reply c channel wa phoneNumberID to reply | _ => ret callbackRejected end)
  whatsapp_ReplyRequests.
End whatsapp.
