(* ===== verification/UserListener.v ===== *)
(** The user listener: UserHandler and handleWebhook of
    internal/gateway/user.go, platformAdapterFor, and handleTestChat of
    testchat.go.

    [read] is what reading the request body gives: the bytes, or the text of
    the error; the size limit is applied here. *)

From stdpp Require Import base gmap list strings option.
From Stdlib Require Import ZArith Lia Ascii.
From S2P Require Import CallbackPolicy Prelude GoFloat GoTime Rfc3339 Auth Activity Json JsonString JsonValue RequestBody JsonDecode UsageReader Conditions AgentLifecycle ProblemList Sha256 UpstreamPath ToolMessage ToolList McpWire ChannelHealth ChannelApi ChannelAuth Envelope PodReady Delivery AsyncDelivery Platform Discord WhatsApp.

Local Open Scope delivery_scope.

Section listener.
Context {F : FoldTable} {P : UrlParser} {U : Unicode} {E : Ed25519} {UL : UuidLib}.
Context (cfg : Config) (x : outside) (y : async_outside) (z : platform_outside).
(** The caches: the channels, [None] when listing fails, and the Agents. *)
Context (channels : option (list AgentChannel)) (agents : string → string → option AgentInfo).

Definition platformAdapterFor (channel : AgentChannel) : option platformAdapter :=
  if (Type_ (ch_Spec channel) =? ChannelTypeDiscord)%string then discordAdapter cfg z <$> Discord (ch_Spec channel)
  else if (Type_ (ch_Spec channel) =? ChannelTypeWhatsApp)%string then whatsAppAdapter cfg z <$> WhatsApp (ch_Spec channel)
  else None.

(** http.MaxBytesReader: one byte past the limit is an error, whether or not
    the body ends there. *)
Definition read_limited (read : bytes + string) : bytes + error_response :=
  match read with
  | inr e => inr (badRequest ("reading request body: " +:+ e))
  | inl body =>
      if (MaxMessageBodyBytes cfg <? Z.of_nat (length body))%Z then
        inr (writeError 413 (mk_error errRequestTooLarge ("request body exceeds " +:+ (str (print_Z (MaxMessageBodyBytes cfg)) +:+ " bytes")) "" false) 0)
      else inl body
  end.

(** What runs after the answer. *)
Inductive background :=
  | BAsync (requestID : string) (channel : AgentChannel) (w : AgentChannelWebhook) (a : AgentInfo) (env : MessageEnvelope)
  | BPlatform (channel : AgentChannel) (adapter : platformAdapter) (a : option AgentInfo) (m : platformMessage).

Definition refuse : M (user_reply * list background) := ret (UError unauthorizedUser, []).

(** A webhook channel's message, once it is authenticated. *)
Definition accept_webhook (c : ctx) (r : user_request) (channel : AgentChannel) (w : AgentChannelWebhook) (body : bytes) : M (user_reply * list background) :=
  let* n := next_call in
  match normalize channel w (y_uuid y n) (ur_header r) body with
  | inr e => ret (UError (badRequest e), [])
  | inl env =>
      match agents (ch_Namespace channel) (AgentRef (ch_Spec channel)) with
      | None =>
          perform fail_health channel healthReasonAgentNotReady "referenced Agent not found" in
          ret (UError (writeError 502 (mk_error errDeliveryFailed "referenced Agent not found" "" false) 0), [])
      | Some a =>
          if (wh_ResponseMode w =? "async")%string then
            let* r := handleAsyncAccept y channel w in
            ret (match r with
                 | inl acc => (UAccepted acc, [BAsync (acc_RequestID acc) channel w a env])
                 | inr e => (UError e, [])
                 end)
          else
            let* r := handleSyncDelivery cfg x c (Path (ch_Spec channel)) a env in
            ret (match r with inl body => UBody "application/json" body | inr e => UError e end, [])
      end
  end.

Definition handleWebhook (c : ctx) (r : user_request) (read : bytes + string) : M (user_reply * list background) :=
  match (if (ur_method r =? "POST")%string then read_limited read else inl []) with
  | inr e => ret (UError e, [])
  | inl body =>
      match ChannelByPath channels (ur_path r) with
      | None => refuse
      | Some channel =>
          if (ch_Phase channel =? ChannelTerminating)%string then refuse
          else
            match platformAdapterFor channel with
            | Some adapter =>
                let* h := handlePlatform (agents (ch_Namespace channel) (AgentRef (ch_Spec channel))) r channel body adapter in
                ret (h.1, map (λ am, BPlatform channel adapter am.1 am.2) h.2)
            | None =>
                match Webhook (ch_Spec channel) with
                | None => refuse
                | Some w =>
                    if negb (ur_method r =? "POST")%string then refuse
                    else
                      let* n := next_call in
                      if negb (authenticateWebhook (SecretValue (y_secret y n)) (ch_Namespace channel) w (ur_header r) body) then
                        perform fail_health channel healthReasonAuthFailed "webhook auth validation failed: 401 Unauthorized" in
                        refuse
                      else accept_webhook c r channel w body
                end
            end
      end
  end.

(** The routes of the listener; a mux pattern that ends in a slash is a prefix. *)
Definition UserHandler (c : ctx) (r : user_request) (read : bytes + string) : M (user_reply * list background) :=
  if HasPrefix (ur_path r) "/channels/" then handleWebhook c r read
  else if HasPrefix (ur_path r) "/v1/channels/responses/" then
    let* p := handlePoll y channels (mk_poll_request (ur_method r) (ur_path r) (default "" (ur_query r !! "channelPath")) (ur_header r)) in
    ret (UPoll p, [])
  else refuse.

(** ** The console's test chat *)

Definition testChatRequest : gty := TStruct [("namespace", TString); ("agent", TString); ("userId", TString); ("content", TString)].

Definition handleTestChat (c : ctx) (method : string) (read : bytes + string) : M user_reply :=
  if negb (method =? "POST")%string then ret (UError (methodNotAllowed "POST"))
  else
    match read_limited read with
    | inr e => ret (UError e)
    | inl body =>
        match UnmarshalInto testChatRequest body with
        | None => ret (UError (badRequest "request body is not valid JSON"))
        | Some v =>
            let namespace := gstr (gfield v 0) in
            let agent := gstr (gfield v 1) in
            let userID := gstr (gfield v 2) in
            let content := gstr (gfield v 3) in
            if (namespace =? "")%string || (agent =? "")%string || (userID =? "")%string || (content =? "")%string then
              ret (UError (badRequest "namespace, agent, userId, and content are required"))
            else
              match agents namespace agent with
              | None => ret (UError (writeError 404 (mk_error errInvalidRequest "agent not found" "" false) 0))
              | Some a =>
                  let* n := next_call in
                  let channelID := "/console/" +:+ (namespace +:+ ("/" +:+ agent)) in
                  let env := mk_envelope (y_uuid y n) "console" channelID userID (SessionID channelID userID) content [] ∅ in
                  let* r := handleSyncDelivery cfg x c "" a env in
                  ret (match r with inl body => UBody "application/json" body | inr e => UError e end)
              end
        end
    end.
End listener.
