(* ===== verification/PlatformClaims.v ===== *)
(** What platform channels promise: a reply takes no longer than the adapter
    says, so a background run is never cut short; and when a Discord request
    counts as signed.

    The last part is what the user listener gives away to an unproved caller. *)

From stdpp Require Import base gmap list strings option.
From Stdlib Require Import ZArith Lia Ascii.
From S2P Require Import CallbackPolicy Prelude GoFloat GoTime Rfc3339 Auth Activity Json JsonString JsonValue RequestBody JsonDecode UsageReader Conditions AgentLifecycle ProblemList Sha256 UpstreamPath ToolMessage ToolList McpWire ChannelHealth ChannelApi ChannelAuth Envelope PodReady Delivery DeliveryClaims AsyncDelivery Platform Discord WhatsApp.

Local Open Scope Z_scope.
Local Open Scope delivery_scope.

(** ** The time of a reply *)

Section time.
Context `{UP : UrlParser} (cfg : Config) (z : platform_outside).

(** What one request may take. *)
Definition reply_schedule : Duration := retryScheduleWorstCase (CallbackBackoff cfg) (callbackReadTimeout cfg).

Record replies_ok : Prop := mk_replies_ok {
  ok_callback_read : 0 < callbackReadTimeout cfg;
  ok_callback_backoff : Forall (λ d, 0 <= d) (CallbackBackoff cfg);
}.
Hypothesis Hok : replies_ok.

Definition spends (n : Z) : cost := mk_cost n 0 0 0.

Lemma takes_send_loop c r classify last backoff :
  takes (send_loop cfg z c r classify last backoff) (spends (Z.of_nat (length backoff) * callbackReadTimeout cfg + delays backoff)) (λ _, True).
Proof.
  pose proof (ok_callback_read Hok) as Hrt. revert last. induction backoff as [|delay rest IH]; intros last; cbn [send_loop].
  { eapply takes_le; [|by apply takes_ret]. cbn [length delays foldr]. unfold spends. cost_tac. }
  pose proof (delays_nonneg rest) as Hd. set (tail := Z.of_nat (length rest) * callbackReadTimeout cfg + delays rest).
  assert (0 <= tail) as Ht by (unfold tail; nia). fold tail in IH.
  assert (Z.of_nat (length (delay :: rest)) * callbackReadTimeout cfg + delays (delay :: rest) = Z.max 0 delay + (callbackReadTimeout cfg + tail)) as Hs.
  { unfold tail. cbn [length delays foldr]. fold (delays rest). rewrite Nat2Z.inj_succ. unfold Duration in *. ring. }
  eapply takes_le; [|eapply takes_bind; [instantiate (2 := lasting delay)|]].
  2: { destruct (0 <? delay); [apply takes_sleep|]. eapply takes_le; [|by apply takes_ret]. cost_tac. }
  1: { instantiate (1 := spends (callbackReadTimeout cfg + tail)). unfold spends. rewrite Hs. cost_tac. }
  intros [] _; [eapply takes_le; [|by apply takes_ret]; unfold spends; cost_tac|].
  apply takes_free; [apply takes_next|]. intros n.
  assert (∀ l, takes (send_loop cfg z c r classify l rest) (spends (callbackReadTimeout cfg + tail)) (λ _, True)) as IH'.
  { intros l. eapply takes_le; [|apply IH]. unfold spends. cost_tac. }
  destruct (z_client z n); [apply IH'|]. destruct (url_Parse (pq_url r)); [|eapply takes_le; [|by apply takes_ret]; unfold spends; cost_tac].
  apply takes_quiet_emit; [done|]. rewrite (proj2 (Z.ltb_lt 0 (callbackReadTimeout cfg)) Hrt).
  eapply takes_le; [|apply takes_timed; intros a; instantiate (1 := spends tail)].
  { unfold spends. cost_tac. }
  destruct a as [[[status body]|inner]|]; [|apply IH|apply IH]. cbv zeta. destruct (bool_decide _); [apply IH|].
  eapply takes_le; [|by apply takes_ret]. unfold spends. cost_tac.
Qed.

Lemma schedule_nonneg : 0 <= reply_schedule.
Proof.
  unfold reply_schedule. rewrite <- schedule_worst_case; [|apply Hok|pose proof (ok_callback_read Hok); unfold Duration in *; lia].
  pose proof (delays_nonneg (0 :: CallbackBackoff cfg)). nia.
Qed.

Lemma takes_sendPlatformRequest c r classify : takes (sendPlatformRequest cfg z c r classify) (spends reply_schedule) (λ _, True).
Proof.
  unfold sendPlatformRequest. pose proof (ok_callback_read Hok). eapply takes_le; [|apply takes_send_loop].
  unfold reply_schedule. rewrite <- schedule_worst_case; [|apply Hok|unfold Duration in *; lia]. rewrite Z.max_r by (unfold Duration in *; lia). unfold spends. cost_tac.
Qed.

Lemma takes_replyRefused channel platform res : takes (replyRefused channel platform res) free (λ _, True).
Proof.
  unfold replyRefused. destruct (if bool_decide _ then _ else _) as [outcome detail].
  apply takes_free; [apply takes_health|]. intros _. apply takes_quiet_emit; [done|]. by apply takes_ret.
Qed.

Lemma takes_send_all c channel platform classify rs :
  takes (send_all cfg z c channel platform classify rs) (spends (Z.of_nat (length rs) * reply_schedule)) (λ _, True).
Proof.
  pose proof schedule_nonneg as Hs. induction rs as [|r rs IH]; cbn [send_all]; [eapply takes_le; [|by apply takes_ret]; unfold spends; cost_tac|].
  eapply takes_le; [|eapply takes_bind; [apply takes_sendPlatformRequest|]].
  2: { intros res _. instantiate (1 := spends (Z.of_nat (length rs) * reply_schedule)). destruct (bool_decide _); [exact IH|].
       eapply takes_le; [|apply takes_replyRefused]. unfold spends. assert (0 <= Z.of_nat (length rs) * reply_schedule) by nia. cost_tac. }
  unfold spends. cbn [length]. rewrite Nat2Z.inj_succ, Z.mul_succ_l. cost_tac.
Qed.
End time.

(** ** The interface of an adapter *)

(** An adapter that takes one schedule for each request it announces. *)
Class TimelyAdapter (cfg : Config) (adapter : platformAdapter) : Prop :=
  reply_in_time : ∀ c channel m reply, takes (pa_SendReply adapter c channel m reply) (spends (pa_ReplyRequests adapter reply * reply_schedule cfg)) (λ _, True).

#[export] Instance whatsapp_timely `{Unicode} `{UuidLib} `{UrlParser} cfg z wa : replies_ok cfg → TimelyAdapter cfg (whatsAppAdapter cfg z wa).
Proof.
  intros Hok c channel m reply. pose proof (schedule_nonneg cfg Hok) as Hs. cbn [whatsAppAdapter pa_SendReply pa_ReplyRequests]. unfold whatsapp_ReplyRequests.
  assert (0 <= Z.of_nat (length (whatsapp_chunks reply)) * reply_schedule cfg) as Hn0 by nia.
  destruct (pm_reply m) as [|phone to]; [eapply takes_le; [|by apply takes_ret]; unfold spends; cost_tac|].
  unfold whatsapp_reply. apply takes_free; [apply takes_next|]. intros n. destruct (SecretValue _ _ _ _) as [token|e].
  - eapply takes_le; [|by apply takes_send_all]. rewrite length_map. unfold spends. cost_tac.
  - eapply takes_le; [|apply takes_replyRefused]. unfold spends. cost_tac.
Qed.

#[export] Instance discord_timely `{Unicode} `{Ed25519} `{UuidLib} `{UrlParser} cfg z d : replies_ok cfg → TimelyAdapter cfg (discordAdapter cfg z d).
Proof.
  intros Hok c channel m reply. pose proof (schedule_nonneg cfg Hok) as Hs. cbn [discordAdapter pa_SendReply pa_ReplyRequests].
  assert (0 <= discord_ReplyRequests reply * reply_schedule cfg) as Hn0 by (unfold discord_ReplyRequests; nia).
  destruct (pm_reply m) as [app token ch user received|phone to]; [|eapply takes_le; [|by apply takes_ret]; unfold spends; cost_tac].
  unfold discord_reply, discord_ReplyRequests in *. set (text := if (reply =? "")%string then discordEmptyReply else reply) in *.
  set (chunks := splitChunks text discordChunkLimit) in *.
  assert (∀ why, takes (sendViaBot cfg z c channel d ch user chunks why) (spends (Z.of_nat (length chunks) * reply_schedule cfg)) (λ _, True)) as Hbot.
  { intros why. assert (0 <= Z.of_nat (length chunks) * reply_schedule cfg) by nia. unfold sendViaBot.
    destruct (negb (discordSnowflake ch)); [eapply takes_le; [|apply takes_replyRefused]; unfold spends; cost_tac|].
    apply takes_free; [apply takes_next|]. intros n. destruct (SecretValue _ _ _ _) as [tok|e].
    - eapply takes_le; [|by apply takes_send_all]. rewrite length_map. unfold spends. cost_tac.
    - eapply takes_le; [|apply takes_replyRefused]. unfold spends. cost_tac. }
  destruct (_ || _); [eapply takes_le; [|apply takes_replyRefused]; unfold spends; cost_tac|].
  apply takes_free; [apply takes_clock|]. intros now. destruct (discordTokenWindow <? Sub now received).
  { eapply takes_le; [|apply Hbot]. unfold spends. cost_tac. }
  destruct chunks as [|first rest] eqn:Ec; [eapply takes_le; [|by apply takes_ret]; unfold spends; cost_tac|].
  eapply takes_le; [|eapply takes_bind; [by apply takes_sendPlatformRequest|]].
  2: { intros res _. instantiate (1 := spends (Z.of_nat (length (first :: rest)) * reply_schedule cfg)).
       assert (0 <= Z.of_nat (length (first :: rest)) * reply_schedule cfg) by nia.
       destruct (bool_decide _); [|destruct (_ =? 404); [apply Hbot|eapply takes_le; [|apply takes_replyRefused]; unfold spends; cost_tac]].
       eapply takes_le; [|by apply takes_send_all]. rewrite length_map. unfold spends. cbn [length]. rewrite Nat2Z.inj_succ, Z.mul_succ_l. cost_tac. }
  unfold spends. rewrite Z.mul_add_distr_r, Z.mul_1_l. cost_tac.
Qed.

(** ** Deadlines that do not cut

    [uncut t m m']: [m'] is [m] with its contexts ended at [t]; as long as [m]
    itself is done before [t], the two are the same. *)

Record uncut (t : Time) {A} (m m' : M A) : Prop := mk_uncut {
  un_mono : ∀ w, w_clock w <= w_clock (m w).2;
  un_same : ∀ w, w_clock (m w).2 < t → m' w = m w;
}.

(** [c'] is [c], ended at [t]. *)
Definition capped (t : Time) (c c' : ctx) : Prop := c' = Some (match c with Some u => Z.min t u | None => t end).

Create HintDb uncut.

Lemma uncut_ret t {A} (a : A) : uncut t (ret a) (ret a).
Proof. split; [intros w; cbn; unfold Time; lia|done]. Qed.

Lemma uncut_bind t {A B} (m m' : M A) (k k' : A → M B) : uncut t m m' → (∀ a, uncut t (k a) (k' a)) → uncut t (bind m k) (bind m' k').
Proof.
  intros [Hm Hs] Hk. split; intros w; rewrite !bind_run.
  - specialize (Hm w). pose proof (un_mono _ _ _ (Hk (m w).1) (m w).2). unfold Time in *. lia.
  - intros Hlt. pose proof (un_mono _ _ _ (Hk (m w).1) (m w).2) as Hk1. rewrite (Hs w) by (unfold Time in *; lia). by apply Hk.
Qed.

Lemma uncut_clock t {B} (k k' k'' : Time → M B) : (∀ now, now < t → k' now = k'' now) → (∀ now, uncut t (k now) (k'' now)) →
  uncut t (bind clock k) (bind clock k').
Proof.
  intros He Hk. split; intros w; rewrite !bind_run; cbn [clock fst snd].
  - apply Hk.
  - intros Hlt. pose proof (un_mono _ _ _ (Hk (w_clock w)) w). rewrite He by (unfold Time in *; lia). by apply Hk.
Qed.

Lemma uncut_call t c c' {A} (f : nat → A * Duration) : capped t c c' → uncut t (call c f) (call c' f).
Proof.
  intros ->. split; intros w; unfold call, bind; cbn; destruct (f (w_calls w)) as [a d].
  - destruct c as [u|]; [destruct (Z.leb_spec (w_clock w + Z.max 0 d) u)|]; cbn; unfold Time in *; lia.
  - destruct c as [u|]; [destruct (Z.leb_spec (w_clock w + Z.max 0 d) u)|]; cbn; intros Hlt.
    + rewrite (proj2 (Z.leb_le _ (Z.min t u))) by (unfold Time in *; lia). done.
    + rewrite (proj2 (Z.leb_gt _ (Z.min t u))) by (unfold Time in *; lia). rewrite (Z.min_r t u) by (unfold Time in *; lia). done.
    + rewrite (proj2 (Z.leb_le _ t)) by (unfold Time in *; lia). done.
Qed.

Lemma uncut_sleep t c c' d : capped t c c' → uncut t (sleep c d) (sleep c' d).
Proof.
  intros ->. split; intros w; unfold sleep.
  - destruct c as [u|]; [destruct (Z.ltb_spec u (w_clock w + Z.max 0 d))|]; cbn; unfold Time in *; lia.
  - destruct c as [u|]; [destruct (Z.ltb_spec u (w_clock w + Z.max 0 d))|]; cbn; intros Hlt.
    + rewrite (proj2 (Z.ltb_lt (Z.min t u) _)) by (unfold Time in *; lia). rewrite (Z.min_r t u) by (unfold Time in *; lia). done.
    + rewrite (proj2 (Z.ltb_ge (Z.min t u) _)) by (unfold Time in *; lia). done.
    + rewrite (proj2 (Z.ltb_ge t _)) by (unfold Time in *; lia). done.
Qed.

Lemma uncut_timeless t {A} (m : M A) : (∀ w, w_clock (m w).2 = w_clock w) → uncut t m m.
Proof. intros H. split; [intros w; rewrite H; unfold Time; lia|done]. Qed.

Lemma uncut_emit t e : uncut t (emit e) (emit e).
Proof. by apply uncut_timeless. Qed.
Lemma uncut_next t : uncut t next_call next_call.
Proof. by apply uncut_timeless. Qed.
Lemma uncut_health t f : uncut t (on_health f) (on_health f).
Proof. by apply uncut_timeless. Qed.
Lemma uncut_activity t f : uncut t (on_activity f) (on_activity f).
Proof. by apply uncut_timeless. Qed.
Lemma uncut_acquire t cfg a : uncut t (acquirePodWait cfg a) (acquirePodWait cfg a).
Proof. apply uncut_timeless. intros w. unfold acquirePodWait. by destruct (_ <=? _). Qed.
Lemma uncut_release t a : uncut t (releasePodWait a) (releasePodWait a).
Proof. by apply uncut_timeless. Qed.

Lemma capped_timeout t c c' now d : capped t c c' → capped t (withTimeout c now d) (withTimeout c' now d).
Proof. intros ->. unfold capped, withTimeout. f_equal. destruct c; unfold Time in *; lia. Qed.
Lemma capped_if t c c' (b : bool) now d : capped t c c' → capped t (if b then withTimeout c now d else c) (if b then withTimeout c' now d else c').
Proof. intros H. destruct b; [by apply capped_timeout|done]. Qed.
Lemma ended_capped t c c' now : capped t c c' → now < t → ended c' now = ended c now.
Proof. intros -> Hlt. unfold ended. destruct c as [u|]; [destruct (Z.leb_spec u now)|]; unfold Time in *; lia. Qed.

#[local] Hint Resolve uncut_ret uncut_call uncut_sleep uncut_emit uncut_next uncut_health uncut_activity uncut_acquire uncut_release
  capped_timeout capped_if : uncut.

(** A computation goes on with each of its steps. *)
Ltac uncut_step :=
  match goal with
  | |- uncut _ _ _ => solve [eauto with uncut]
  | |- uncut _ (bind clock _) (bind clock _) => eapply uncut_clock; [intros ? ?; reflexivity|intros ?; cbv beta]
  | |- uncut _ (bind _ _) (bind _ _) => apply uncut_bind; [|intros ?; cbv beta]
  | |- uncut _ (match ?x with _ => _ end) (match ?x with _ => _ end) => destruct x
  | |- uncut _ (let _ := _ in _) _ => cbv zeta
  end.
Ltac uncut_all := repeat uncut_step.

Section deadlines.
Context (cfg : Config) (x : outside) (t : Time).
Implicit Types (c : ctx).

Lemma uncut_wakeOnce c c' : capped t c c' → uncut t (wakeOnce x c) (wakeOnce x c').
Proof. intros H. unfold wakeOnce. uncut_all. Qed.
#[local] Hint Resolve uncut_wakeOnce : uncut.

Lemma uncut_Wake c c' : capped t c c' → uncut t (Wake x c) (Wake x c').
Proof.
  intros H. unfold Wake. uncut_step; [uncut_all|]. uncut_step; [uncut_all|]. eapply uncut_clock; [intros now Hn; rewrite (ended_capped t c c' now H Hn); reflexivity|intros now; cbv beta].
  uncut_all.
Qed.
#[local] Hint Resolve uncut_Wake : uncut.

Lemma uncut_record path reason msg : uncut t (recordChannelFailure path reason msg) (recordChannelFailure path reason msg).
Proof. unfold recordChannelFailure. uncut_all. Qed.
#[local] Hint Resolve uncut_record : uncut.

Lemma uncut_podWaitFailed path f detail : uncut t (podWaitFailed path f detail) (podWaitFailed path f detail).
Proof. unfold podWaitFailed. uncut_all. Qed.
#[local] Hint Resolve uncut_podWaitFailed : uncut.

Lemma uncut_requestWake c c' path a : capped t c c' → uncut t (requestWake x c path a) (requestWake x c' path a).
Proof. intros H. unfold requestWake. uncut_all. Qed.
#[local] Hint Resolve uncut_requestWake : uncut.

Lemma uncut_check c c' target : capped t c c' → uncut t (check_agent cfg x c target) (check_agent cfg x c' target).
Proof. intros H. unfold check_agent. uncut_all. Qed.
#[local] Hint Resolve uncut_check : uncut.

Lemma uncut_missed c c' path a ws : capped t c c' → uncut t (missed x c path a ws) (missed x c' path a ws).
Proof. intros H. unfold missed. uncut_all. Qed.
#[local] Hint Resolve uncut_missed : uncut.

Lemma uncut_wait_sleep c c' d r : capped t c c' → uncut t (wait_sleep x c d r) (wait_sleep x c' d r).
Proof. intros H. unfold wait_sleep. uncut_all. Qed.
#[local] Hint Resolve uncut_wait_sleep : uncut.

Lemma uncut_wait_loop fuel c c' path a inside usable start deadline st : capped t c c' →
  uncut t (wait_loop cfg x fuel c path a inside usable start deadline st) (wait_loop cfg x fuel c' path a inside usable start deadline st).
Proof.
  intros H. revert st. induction fuel as [|fuel IH]; intros st; cbn [wait_loop]; [uncut_all|].
  eapply uncut_clock; [intros now Hn; rewrite (ended_capped t c c' now H Hn); reflexivity|intros now; cbv beta]. uncut_all.
Qed.
#[local] Hint Resolve uncut_wait_loop : uncut.

Lemma error_capped c c' a d now : capped t c c' → now < t → podWaitError cfg c' a d now = podWaitError cfg c a d now.
Proof. intros H Hn. unfold podWaitError. by rewrite (ended_capped t c c' now H Hn). Qed.

Lemma uncut_await c c' path a wake : capped t c c' → uncut t (await_held cfg x c path a wake) (await_held cfg x c' path a wake).
Proof.
  intros H. unfold await_held, waitAgentReachable. uncut_step. uncut_step; [uncut_all|]. uncut_step; [uncut_all|]. uncut_step; [uncut_all|].
  eapply uncut_clock; [intros end_ Hn; rewrite (error_capped c c' a _ end_ H Hn); reflexivity|intros end_; cbv beta]. uncut_all.
Qed.
#[local] Hint Resolve uncut_await : uncut.

Lemma uncut_awaitPod c c' path a wake : capped t c c' → uncut t (awaitPod cfg x c path a wake) (awaitPod cfg x c' path a wake).
Proof. intros H. unfold awaitPod. uncut_all. Qed.
#[local] Hint Resolve uncut_awaitPod : uncut.

Lemma uncut_deliverOnce c c' url payload : capped t c c' → uncut t (deliverOnce cfg x c url payload) (deliverOnce cfg x c' url payload).
Proof. intros H. unfold deliverOnce. uncut_all. Qed.
#[local] Hint Resolve uncut_deliverOnce : uncut.

Lemma uncut_deliver_loop c c' path a url payload total podWait skipDelay lastErr backoff : capped t c c' →
  uncut t (deliver_loop cfg x c path a url payload total podWait skipDelay lastErr backoff)
    (deliver_loop cfg x c' path a url payload total podWait skipDelay lastErr backoff).
Proof.
  intros H. revert podWait skipDelay lastErr. induction backoff as [|d rest IH]; intros; cbn [deliver_loop]; uncut_all.
Qed.
#[local] Hint Resolve uncut_deliver_loop : uncut.

Lemma uncut_deliver_step c c' path a env waited : capped t c c' → uncut t (deliver_step cfg x c path a env waited) (deliver_step cfg x c' path a env waited).
Proof. intros H. unfold deliver_step, deliverToAgent. uncut_all. Qed.
#[local] Hint Resolve uncut_deliver_step : uncut.

Lemma uncut_wakeAndDeliver c c' path a env : capped t c c' → uncut t (wakeAndDeliver cfg x c path a env) (wakeAndDeliver cfg x c' path a env).
Proof. intros H. unfold wakeAndDeliver, wake_and_deliver, wait_step. uncut_all. Qed.

Context `{UP : UrlParser} (z : platform_outside).

Lemma uncut_send_loop c c' r classify last backoff : capped t c c' →
  uncut t (send_loop cfg z c r classify last backoff) (send_loop cfg z c' r classify last backoff).
Proof. intros H. revert last. induction backoff as [|d rest IH]; intros last; cbn [send_loop]; uncut_all. Qed.

Lemma uncut_sendPlatformRequest c c' r classify : capped t c c' →
  uncut t (sendPlatformRequest cfg z c r classify) (sendPlatformRequest cfg z c' r classify).
Proof. apply uncut_send_loop. Qed.
#[local] Hint Resolve uncut_sendPlatformRequest : uncut.

Lemma uncut_replyRefused channel platform res : uncut t (replyRefused channel platform res) (replyRefused channel platform res).
Proof. unfold replyRefused, fail_health. uncut_all. Qed.
#[local] Hint Resolve uncut_replyRefused : uncut.

Lemma uncut_send_all c c' channel platform classify rs : capped t c c' →
  uncut t (send_all cfg z c channel platform classify rs) (send_all cfg z c' channel platform classify rs).
Proof. intros H. induction rs as [|r rs IH]; cbn [send_all]; uncut_all. Qed.
End deadlines.
#[export] Hint Resolve uncut_wakeAndDeliver uncut_sendPlatformRequest uncut_replyRefused uncut_send_all : uncut.

(** An adapter that looks at its context only to end with it. *)
Class PlainAdapter (adapter : platformAdapter) : Prop :=
  reply_uncut : ∀ t c c' channel m reply, capped t c c' → uncut t (pa_SendReply adapter c channel m reply) (pa_SendReply adapter c' channel m reply).

#[export] Instance whatsapp_plain `{Unicode} `{UuidLib} `{UrlParser} cfg z wa : PlainAdapter (whatsAppAdapter cfg z wa).
Proof. intros t c c' channel m reply Hc. cbn [whatsAppAdapter pa_SendReply]. unfold whatsapp_reply. uncut_all. Qed.

#[export] Instance discord_plain `{Unicode} `{Ed25519} `{UuidLib} `{UrlParser} cfg z d : PlainAdapter (discordAdapter cfg z d).
Proof.
  intros t c c' channel m reply Hc. cbn [discordAdapter pa_SendReply]. unfold discord_reply, sendViaBot. cbv zeta. uncut_all.
Qed.

(** ** The background run *)

(** What a platform user is sent: the Agent's answer, or the failure in fixed
    words. *)
Definition reply_text (cfg : Config) (x : outside) (agent : option AgentInfo) (reply : string) : Prop :=
  match agent with
  | None => reply = errDeliveryFailed +:+ ": referenced Agent not found"
  | Some _ =>
      (∃ body, answered cfg x body ∧ reply = default "" (response_content body)) ∨
      (∃ f, reply = f_errType f +:+ (": " +:+ platformErrorMessage f))
  end.

Definition agent_cost (cfg : Config) (agent : option AgentInfo) : cost := match agent with Some a => delivery_cost cfg a | None => free end.

Definition agent_time (cfg : Config) (agent : option AgentInfo) : Z := c_time (agent_cost cfg agent).

Lemma bound_parts cfg agent n : config_ok cfg →
  backgroundPipelineBound cfg agent n = agent_time cfg agent + n * reply_schedule cfg + pipelineMargin.
Proof.
  intros Hok. unfold backgroundPipelineBound, agent_time, reply_schedule. destruct agent as [a|]; cbn [agent_cost delivery_cost free c_time].
  - unfold wait_time. rewrite Z.max_r by apply Hok. unfold Duration in *. ring.
  - unfold Duration in *. ring.
Qed.

(** The delivery half of a run: the text of the reply. *)
Definition delivered_text (cfg : Config) (x : outside) (c : ctx) (channel : AgentChannel) (agent : option AgentInfo) (m : platformMessage) : M string :=
  match agent with
  | None => ret (errDeliveryFailed +:+ ": referenced Agent not found")
  | Some a =>
      let* r := wakeAndDeliver cfg x c (Path (ch_Spec channel)) a (pm_env m) in
      match r with
      | inr f =>
          perform (if (f_errType f =? errResponseTooLarge)%string then emit (EResponseTooLarge (ai_Namespace a) "async") else ret tt) in
          ret (f_errType f +:+ (": " +:+ platformErrorMessage f))
      | inl body => ret (default "" (response_content body))
      end
  end.

(** A run that nothing cuts: no deadline on the delivery and none on the reply. *)
Definition unbounded_run (cfg : Config) (x : outside) (channel : AgentChannel) (agent : option AgentInfo) (adapter : platformAdapter) (m : platformMessage) : M unit :=
  let* text := delivered_text cfg x None channel agent m in
  let* outcome := pa_SendReply adapter None channel m text in
  emit (EChannelCallback (ch_Namespace channel) outcome).

Lemma pipeline_run cfg x c channel agent adapter m w : runPlatformPipeline cfg x c channel agent adapter m w =
  (let* text := delivered_text cfg x (withTimeout c (w_clock w) (backgroundPipelineBound cfg agent 0)) channel agent m in
   let* outcome := pa_SendReply adapter (withTimeout c (w_clock w) (backgroundPipelineBound cfg agent (pa_ReplyRequests adapter text))) channel m text in
   emit (EChannelCallback (ch_Namespace channel) outcome)) w.
Proof. done. Qed.

Lemma takes_reply_text cfg x c channel agent m : config_ok cfg →
  takes (delivered_text cfg x c channel agent m) (agent_cost cfg agent) (reply_text cfg x agent).
Proof.
  intros Hok. unfold delivered_text. destruct agent as [a|]; [|by apply takes_ret]. eapply takes_then.
  - intros w Hw. destruct (takes_wakeAndDeliver cfg x c (Path (ch_Spec channel)) a (pm_env m) Hok w Hw) as [H1 _].
    destruct (runs_wakeAndDeliver cfg x c (λ _, True) ltac:(done) (Path (ch_Spec channel)) a (pm_env m) I w) as [H2 _].
    split; [exact H1|exact H2].
  - intros [body|f] Hr; [apply takes_ret; left; by exists body|].
    apply takes_free; [destruct (_ =? _)%string; [|by apply takes_ret]|].
    + eapply takes_le; [|apply takes_emit]. cost_tac.
    + intros _. apply takes_ret. right. by exists f.
Qed.

Lemma uncut_text cfg x t c c' channel agent m : capped t c c' → uncut t (delivered_text cfg x c channel agent m) (delivered_text cfg x c' channel agent m).
Proof. intros H. unfold delivered_text. uncut_all. Qed.

(** C18: A platform message's background run, whose context has no end of its
    own, is never cut short by the deadlines it is given: it is the same, to
    the last request, answer and instant, as the run with no deadline on the
    delivery and none on the reply.  So a reply is given up only when the
    platform refuses it or its retries are spent.  The run ends within the
    deadline computed for the reply it sends, with the margin to spare, and
    what it sends is the Agent's own answer or a failure in fixed words. *)
Theorem platform_run_not_cut cfg x channel agent adapter m w `{!TimelyAdapter cfg adapter} `{!PlainAdapter adapter} :
  config_ok cfg → waits_ok w →
  let reply := (delivered_text cfg x None channel agent m w).1 in
  let w' := (runPlatformPipeline cfg x None channel agent adapter m w).2 in
  runPlatformPipeline cfg x None channel agent adapter m w = unbounded_run cfg x channel agent adapter m w ∧
  reply_text cfg x agent reply ∧
  w_clock w' + pipelineMargin <= w_clock w + backgroundPipelineBound cfg agent (pa_ReplyRequests adapter reply) ∧ w_waits w' = w_waits w.
Proof.
  intros Hok Hw reply. destruct (takes_reply_text cfg x None channel agent m Hok w Hw) as [H1 HR].
  set (dctx := withTimeout None (w_clock w) (backgroundPipelineBound cfg agent 0)).
  set (rctx := withTimeout None (w_clock w) (backgroundPipelineBound cfg agent (pa_ReplyRequests adapter reply))).
  destruct (delivered_text cfg x None channel agent m w) as [text w1] eqn:E1. cbn [fst] in reply. subst reply. cbn [fst snd] in *.
  destruct (reply_in_time None channel m text w1 (within_ok _ _ _ H1 Hw)) as [H2 _].
  pose proof (λ n, bound_parts cfg agent n Hok) as Hbound.
  assert (w_clock w1 <= w_clock w + agent_time cfg agent) as Ht1 by (destruct H1 as ([_ Ht] & _); exact Ht).
  assert (w_clock (pa_SendReply adapter None channel m text w1).2 <= w_clock w1 + pa_ReplyRequests adapter text * reply_schedule cfg) as Ht2
    by (destruct H2 as ([_ Ht] & _); exact Ht).
  assert (Hm : 0 < pipelineMargin) by done.
  assert (Hd : delivered_text cfg x dctx channel agent m w = (text, w1)).
  { rewrite <- E1. apply (un_same _ _ _ (uncut_text cfg x _ None dctx channel agent m eq_refl)). rewrite E1. cbn [snd].
    specialize (Hbound 0). unfold Time, Duration in *. lia. }
  assert (Hr : pa_SendReply adapter rctx channel m text w1 = pa_SendReply adapter None channel m text w1).
  { apply (un_same _ _ _ (reply_uncut _ None rctx channel m text eq_refl)). specialize (Hbound (pa_ReplyRequests adapter text)). unfold Time, Duration in *. lia. }
  assert (Hrun : runPlatformPipeline cfg x None channel agent adapter m w = unbounded_run cfg x channel agent adapter m w).
  { rewrite pipeline_run. fold dctx. rewrite bind_run, Hd. cbn [fst snd]. fold rctx.
    unfold unbounded_run. rewrite (bind_run (delivered_text _ _ _ _ _ _)), E1. cbn [fst snd]. rewrite !bind_run. by rewrite Hr. }
  split_and!; [exact Hrun|exact HR| |]; rewrite Hrun; unfold unbounded_run; rewrite (bind_run (delivered_text _ _ _ _ _ _)), E1; cbn [fst snd]; rewrite bind_run; cbn.
  - specialize (Hbound (pa_ReplyRequests adapter text)). unfold Time, Duration in *. lia.
  - destruct H1 as (_ & Hw1 & _), H2 as (_ & Hw2 & _). congruence.
Qed.

(** ** Discord's signature *)

Section discord.
Context `{E : Ed25519}.

(** C40: A Discord request counts as signed exactly when its signature is 64
    bytes of hex that verify over the timestamp and the body, and the
    timestamp is an integer that is at most five minutes off, or so far ahead
    that the difference no longer fits a Duration: then negating the saturated
    difference overflows, and the bound on replays is not applied. *)
Theorem discord_signature_exact pub sigHex timestamp body now :
  verifyDiscordSignature pub sigHex timestamp body now = true ↔
  ∃ sig v, hex_decode (bs sigHex) = Some sig ∧ length sig = 64%nat ∧ ParseInt timestamp = Some v ∧
    ed25519_Verify pub (bs timestamp ++ body) sig = true ∧
    (Z.abs (now - Unix v) <= discordTimestampSkew ∨ now - Unix v <= - 2 ^ 63).
Proof.
  assert (∀ v, absolute_skew now v <= discordTimestampSkew ↔ Z.abs (now - Unix v) <= discordTimestampSkew ∨ now - Unix v <= - 2 ^ 63) as Hskew.
  { intros v. unfold absolute_skew, Sub, discordTimestampSkew, Second, min_int64, max_int64, Duration, Time. set (d := now - Unix v).
    destruct (Z.ltb_spec (Z.max (- 2 ^ 63) (Z.min (2 ^ 63 - 1) d)) 0) as [Hlt|Hge]; [|lia].
    destruct (Z.le_gt_cases d (- 2 ^ 63)) as [Hd|Hd].
    - replace (Z.max (- 2 ^ 63) (Z.min (2 ^ 63 - 1) d)) with (- 2 ^ 63) by lia. split; [by right|]. intros _. vm_compute. discriminate.
    - replace (Z.max (- 2 ^ 63) (Z.min (2 ^ 63 - 1) d)) with d in * by lia. rewrite wrap64_id by lia. lia. }
  unfold verifyDiscordSignature. destruct (hex_decode (bs sigHex)) as [sig|]; [|split; [done|by intros (? & ? & ? & _)]].
  destruct (Nat.eqb_spec (length sig) 64) as [Hl|Hl]; cbn [negb]; [|split; [done|by intros (? & ? & [= <-] & ? & _)]].
  destruct (ParseInt timestamp) as [v|]; [|split; [done|by intros (? & ? & _ & _ & ? & _)]].
  destruct (Z.ltb_spec discordTimestampSkew (absolute_skew now v)) as [Hgt|Hle].
  - split; [done|]. intros (? & ? & _ & _ & [= <-] & _ & H). apply Hskew in H. unfold Duration in *. lia.
  - split; [intros Hv; exists sig, v; split_and!; try done; by apply Hskew|]. by intros (? & ? & [= <-] & _ & _ & H & _).
Qed.
End discord.

(** A signature over a time 317 years ahead is accepted today. *)
Lemma far_future_accepted : let now := Unix 1780000000 in
  verifyDiscordSignature (E := {| ed25519_Verify := λ _ _ _, true |}) [] (String.concat "" (replicate 64 "00")) "11780000000" [] now = true ∧
  verifyDiscordSignature (E := {| ed25519_Verify := λ _ _ _, true |}) [] (String.concat "" (replicate 64 "00")) "1780000301" [] now = false.
Proof. split; vm_compute; reflexivity. Qed.

(** ** The bot's messages *)

(** A piece sent by the bot carries the mention on top of its own length. *)
Lemma bot_text_length user chunk : forallb is_digit (bs user) = true →
  length (runes (bs (bot_text user chunk))) = (4 + length (bs user) + length (runes (bs chunk)))%nat.
Proof.
  intros Hd. unfold bot_text.
  assert (∀ s t, bs (s +:+ t) = bs s ++ bs t) as Happ.
  { intros s t. induction s as [|c s IH]; [done|]. change (bs (String c s +:+ t)) with (c :: bs (s +:+ t)). by rewrite IH. }
  assert (∀ p b, forallb (λ c, (ascii_Z c <? 128)%Z) p = true → length (runes (p ++ b)) = (length p + length (runes b))%nat) as Hascii.
  { intros p b. induction p as [|c p IH]; [done|]. cbn [forallb app length]. intros [Hc Hp]%andb_true_iff.
    unfold runes in *. cbn [runes_from]. assert (DecodeRune (c :: p ++ b) = (ascii_Z c, 1%nat)) as ->.
    { unfold DecodeRune. by rewrite Hc. }
    change (1 - 1)%nat with 0%nat. cbn [length]. by rewrite IH. }
  assert (forallb (λ c, (ascii_Z c <? 128)%Z) (bs user) = true) as Hu.
  { apply forallb_forall. intros c Hc. rewrite forallb_forall in Hd. specialize (Hd c Hc). apply andb_true_iff in Hd as [H1 H2].
    apply Z.leb_le in H2. apply Z.ltb_lt. lia. }
  rewrite !Happ, Hascii, Hascii, Hascii by done. cbn. lia.
Qed.

(** So a full piece no longer fits Discord's limit. *)
Lemma bot_overruns_limit user chunk : forallb is_digit (bs user) = true → length (runes (bs chunk)) = discordChunkLimit →
  (discordChunkLimit < length (runes (bs (bot_text user chunk))))%nat.
Proof. intros Hd Hc. rewrite bot_text_length, Hc by done. unfold discordChunkLimit. lia. Qed.

(** ** A run

    The platform is rate limited once, then takes the reply. *)

Module PlatformRun.
#[local] Instance any_url : UrlParser := {| url_Parse s := Some (mk_url "https" "graph" "" s) |}.
#[local] Existing Instance plain_unicode.

Definition block : AgentChannelWhatsApp := mk_whatsapp "/channels/a/wa" "meta" "555".
Definition channel : AgentChannel := mk_channel "a" "wa" 0 (mk_channel_spec "bot" "whatsapp" None None (Some block) false) "Ready" [("Ready", "True")].
Definition services : platform_outside :=
  mk_platform_outside "" "" (λ _, "m-1") (λ _ _ _, inl (mk_secret {[LabelChannelCredential := "true"]} ∅ {["accessToken" := "tok"]})) (λ _, None)
    (λ n, (inl (if decide (n = 11)%nat then 429 else 200, []), Second)).
Definition message : platformMessage := mk_platform_message Run.envelope (WhatsAppReply "555" "user").
Definition adapter : platformAdapter := whatsAppAdapter Run.config services block.
Definition finished : world := (runPlatformPipeline Run.config Run.environment None channel (Some Run.agent) adapter message Run.start).2.

Definition kind (e : event) : string := match e with EPlatformRequest _ url _ _ => url | EChannelCallback _ o => o | _ => "" end.

Lemma run_replies_ok : replies_ok Run.config.
Proof. split; [vm_compute; reflexivity|]. repeat constructor; vm_compute; discriminate. Qed.

Lemma platform_run_not_cut_witness :
  List.filter (λ s, negb (String.eqb s "")) (map kind (w_events finished)) =
    ["https://graph.facebook.com/v23.0/555/messages"; "https://graph.facebook.com/v23.0/555/messages"; "delivered"] ∧
  (let reply := (delivered_text Run.config Run.environment None channel (Some Run.agent) message Run.start).1 in
   w_clock finished + pipelineMargin <= w_clock Run.start + backgroundPipelineBound Run.config (Some Run.agent) (pa_ReplyRequests adapter reply)) ∧
  runPlatformPipeline Run.config Run.environment None channel (Some Run.agent) adapter message Run.start =
    unbounded_run Run.config Run.environment channel (Some Run.agent) adapter message Run.start.
Proof.
  split; [vm_compute; reflexivity|].
  destruct (platform_run_not_cut Run.config Run.environment channel (Some Run.agent) adapter message Run.start
    (TimelyAdapter0 := whatsapp_timely Run.config services block run_replies_ok) (PlainAdapter0 := whatsapp_plain Run.config services block)
    run_config_ok run_waits_ok) as (He & _ & Ht & _).
  split; [exact Ht|exact He].
Defined.
End PlatformRun.

(** What the user listener gives away: nothing but the one 401 to a caller
    that has not proved a channel's credential. *)

From S2P Require Import UserListener.

Local Open Scope delivery_scope.

Section listener.
Context `{FT : FoldTable} `{UP : UrlParser} `{UC : Unicode} `{ED : Ed25519} `{UL : UuidLib}.
Context (cfg : Config) (x : outside) (y : async_outside) (z : platform_outside).
Context (channels : option (list AgentChannel)) (agents : string → string → option AgentInfo).

(** *** The adapters *)

(** What proves a Discord request. *)
Definition discord_proved (channel : AgentChannel) (d : AgentChannelDiscord) (r : user_request) (body : bytes) (now : Time) : Prop :=
  ur_method r = "POST" ∧ ∃ n pub, publicKey (z_secret z n) channel d = inl pub ∧
    verifyDiscordSignature pub (HeaderGet (ur_header r) "X-Signature-Ed25519") (HeaderGet (ur_header r) "X-Signature-Timestamp") body now = true.

(** What proves a WhatsApp request: the verification token, or the signature. *)
Definition whatsapp_proved (channel : AgentChannel) (wa : AgentChannelWhatsApp) (r : user_request) (body : bytes) : Prop :=
  (ur_method r = "GET" ∧ ∃ n, SecretValue (z_secret z n) (ch_Namespace channel) (wa_CredentialsRef wa) whatsAppKeyVerifyToken =
     inl (default "" (ur_query r !! "hub.verify_token"))) ∨
  (ur_method r = "POST" ∧ ∃ n secret, SecretValue (z_secret z n) (ch_Namespace channel) (wa_CredentialsRef wa) whatsAppKeyAppSecret = inl secret ∧
     verifyHMACHeader (HeaderGet (ur_header r) whatsAppSignatureHeader) whatsapp_hmac (hmac_sum SHA256 (bs secret) body) = true).

Definition refused (h : user_reply * inboundResult) : Prop := h.1 = UError unauthorizedUser ∧ messages h.2 = [].

Lemma discord_refuses r channel d body w : refused (discord_Handle z r channel d body w).1 ∨ discord_proved channel d r body (w_clock w).
Proof.
  unfold discord_Handle. destruct (String.eqb_spec (ur_method r) "POST") as [Hm|]; cbn [negb]; [|by left].
  rewrite !bind_run. cbn [next_call clock fst snd w_clock]. destruct (publicKey (z_secret z (w_calls w)) channel d) as [pub|e] eqn:Ek; [|by left].
  destruct (verifyDiscordSignature _ _ _ _ _) eqn:Ev; cbn [negb]; [|left; by destruct (isDiscordPing body)].
  right. split; [done|]. by exists (w_calls w), pub.
Qed.

Lemma whatsapp_refuses r channel wa body w : refused (whatsapp_Handle z r channel wa body w).1 ∨ whatsapp_proved channel wa r body.
Proof.
  unfold whatsapp_Handle. destruct (String.eqb_spec (ur_method r) "GET") as [Hm|]; [|destruct (String.eqb_spec (ur_method r) "POST") as [Hm|]; [|by left]].
  - unfold handleVerification. rewrite bind_run. cbn [next_call fst snd ret]. destruct (SecretValue _ _ _ _) as [token|e] eqn:Es; [|by left].
    destruct (String.eqb_spec (default "" (ur_query r !! "hub.mode")) "subscribe"); cbn [negb orb]; [|by left].
    destruct (String.eqb_spec (default "" (ur_query r !! "hub.verify_token")) token) as [Et|]; cbn [negb]; [|by left].
    right. left. split; [done|]. exists (w_calls w). by rewrite Es, Et.
  - unfold handleEvent. rewrite bind_run. cbn [next_call fst snd]. destruct (SecretValue _ _ _ _) as [secret|e] eqn:Es; [|by left].
    destruct (verifyHMACHeader _ _ _) eqn:Ev; cbn [negb]; [|by left]. right. right. split; [done|]. by exists (w_calls w), secret.
Qed.

(** *** The listener *)

Definition credential_proved (channel : AgentChannel) (r : user_request) (body : bytes) (now : Time) : Prop :=
  (∃ d, Discord (ch_Spec channel) = Some d ∧ discord_proved channel d r body now) ∨
  (∃ wa, WhatsApp (ch_Spec channel) = Some wa ∧ whatsapp_proved channel wa r body) ∨
  (ur_method r = "POST" ∧ ∃ wh n, Webhook (ch_Spec channel) = Some wh ∧
     authenticateWebhook (SecretValue (y_secret y n)) (ch_Namespace channel) wh (ur_header r) body = true).

Lemma adapter_refuses channel adapter r body w : platformAdapterFor cfg z channel = Some adapter →
  refused (pa_Handle adapter r channel body w).1 ∨ credential_proved channel r body (w_clock w).
Proof.
  unfold platformAdapterFor, credential_proved. intros Ha. destruct (_ =? ChannelTypeDiscord)%string.
  - destruct (Discord (ch_Spec channel)) as [d|]; [|done]. injection Ha as <-. destruct (discord_refuses r channel d body w); [by left|]. right. left. eauto.
  - destruct (_ =? ChannelTypeWhatsApp)%string; [|done]. destruct (WhatsApp (ch_Spec channel)) as [wa|]; [|done]. injection Ha as <-.
    destruct (whatsapp_refuses r channel wa body w); [by left|]. right. right. left. eauto.
Qed.

Lemma platform_refuses channel adapter a r body w : refused (pa_Handle adapter r channel body w).1 →
  (handlePlatform a r channel body adapter w).1 = (UError unauthorizedUser, []).
Proof.
  unfold handlePlatform. rewrite bind_run. destruct (pa_Handle adapter r channel body w) as [[reply res] w1]. unfold refused. cbn [fst snd]. intros [-> Hm].
  rewrite !bind_run. by rewrite Hm, bool_decide_true.
Qed.

(** C17: The listener answers a caller that has not proved a channel's
    credential in one way only, whatever the path: the 401 an unregistered
    path gets, with nothing left running.  Any other answer to a request whose
    body could be read goes to a request that matched a live channel's route
    and proved that channel's bearer token, signature or verification token.
    A body too large or unreadable is refused before any route is looked up. *)
Theorem only_proof_beats_401 c r read w :
  let res := (handleWebhook cfg x y z channels agents c r read w).1 in
  match (if (ur_method r =? "POST")%string then read_limited cfg read else inl []) with
  | inr e => res = (UError e, [])
  | inl body =>
      res = (UError unauthorizedUser, []) ∨
      ∃ channel, ChannelByPath channels (ur_path r) = Some channel ∧ ch_Phase channel ≠ ChannelTerminating ∧ credential_proved channel r body (w_clock w)
  end.
Proof.
  cbv zeta. unfold handleWebhook. destruct (if (ur_method r =? "POST")%string then _ else _) as [body|e]; [|done].
  destruct (ChannelByPath channels (ur_path r)) as [channel|]; [|by left].
  destruct (String.eqb_spec (ch_Phase channel) ChannelTerminating) as [|Hp]; [by left|].
  assert (credential_proved channel r body (w_clock w) → ∃ ch, Some channel = Some ch ∧ ch_Phase ch ≠ ChannelTerminating ∧ credential_proved ch r body (w_clock w)) as Hfin by eauto.
  destruct (platformAdapterFor cfg z channel) as [adapter|] eqn:Ea.
  - destruct (adapter_refuses channel adapter r body w Ea) as [Hr|Hpr]; [left|right; by apply Hfin]. rewrite bind_run.
    pose proof (platform_refuses channel adapter (agents (ch_Namespace channel) (AgentRef (ch_Spec channel))) r body w Hr) as Hh. cbn [ret fst]. by rewrite Hh.
  - destruct (Webhook (ch_Spec channel)) as [wh|] eqn:Ew; [|by left]. destruct (String.eqb_spec (ur_method r) "POST") as [Hm|]; cbn [negb]; [|by left].
    rewrite bind_run. cbn [next_call fst snd].
    destruct (authenticateWebhook _ _ _ _ _) eqn:Eauth; cbn [negb]; [right|by left; rewrite bind_run]. apply Hfin. right. right. split; [done|]. eauto.
Qed.
End listener.
