(* ===== verification/ChannelCheck.v ===== *)
(** What the AgentChannel reconciler checks of a channel, without the calls it
    makes: the Secret references of a spec and the rules on them, the callback
    URL, the path conflict, the health reduction, the expiry of async records
    (internal/controller/agentchannel_controller.go and
    async_orphan_prune.go).

    A check returns the reason and message of the first failure, [None] for
    the empty reason of the source. *)

From stdpp Require Import base gmap list strings option.
From Stdlib Require Import ZArith Lia Ascii.
From S2P Require Import CallbackPolicy Prelude GoFloat GoTime Json JsonString ProblemList BudgetReducer Conditions AgentLifecycle Rfc3339 ChannelHealth Sha256 ChannelApi ChannelAuth AsyncDelivery Discord WhatsApp.

(** ** Channels as the controller holds them *)

(** metav1.Condition with its three-valued status. *)
Record StatusCondition := mk_status_condition {
  sc_Type : string;
  sc_Status : string;
  sc_Reason : string;
  sc_Message : string;
  sc_LastTransition : Time;
}.

Definition ConditionTrue : string := "True".
Definition ConditionFalse : string := "False".
Definition ConditionUnknown : string := "Unknown".
Definition ConditionPlatformConnected : string := "PlatformConnected".

(** What the reconciler uses of apimachinery's condition helpers, as in
    [Conditions]. *)
Class StatusConditions := {
  status_conditions : Type;
  status_conditions_eq : EqDecision status_conditions;
  FindCondition : status_conditions → string → option StatusCondition;
  SetCondition : Time → status_conditions → StatusCondition → status_conditions;
  find_condition_set now cs c : FindCondition (SetCondition now cs c) (sc_Type c)
    = Some (mk_status_condition (sc_Type c) (sc_Status c) (sc_Reason c) (sc_Message c)
        (match FindCondition cs (sc_Type c) with
         | Some old => if (sc_Status old =? sc_Status c)%string then sc_LastTransition old
                       else if IsZero (sc_LastTransition c) then now else sc_LastTransition c
         | None => if IsZero (sc_LastTransition c) then now else sc_LastTransition c
         end));
  find_condition_other now cs c ty : ty ≠ sc_Type c → FindCondition (SetCondition now cs c) ty = FindCondition cs ty;
}.
#[export] Existing Instance status_conditions_eq.

#[global] Instance status_condition_eq_dec : EqDecision StatusCondition.
Proof. solve_decision. Defined.

(** Conditions as a map from the type. *)
Definition set_map_condition (now : Time) (m : gmap string StatusCondition) (c : StatusCondition) : gmap string StatusCondition :=
  <[sc_Type c := mk_status_condition (sc_Type c) (sc_Status c) (sc_Reason c) (sc_Message c)
        (match m !! sc_Type c with
         | Some old => if (sc_Status old =? sc_Status c)%string then sc_LastTransition old
                       else if IsZero (sc_LastTransition c) then now else sc_LastTransition c
         | None => if IsZero (sc_LastTransition c) then now else sc_LastTransition c
         end)]> m.

Definition map_status_conditions : StatusConditions.
Proof.
  refine {| status_conditions := gmap string StatusCondition; FindCondition m ty := m !! ty; SetCondition := set_map_condition |}.
  - intros. unfold set_map_condition. by rewrite lookup_insert_eq.
  - intros. unfold set_map_condition. by rewrite lookup_insert_ne.
Defined.

Section objects.
Context {SC : StatusConditions}.

Record AgentChannelStatus := mk_channel_status {
  cs_ObservedGeneration : Z;
  cs_Phase : string;
  cs_Conditions : status_conditions;
}.

Record ChannelObject := mk_channel_object {
  co_Namespace : string;
  co_Name : string;
  co_UID : string;
  co_Created : Time;
  co_Generation : Z;
  co_Deletion : option Time;
  co_Finalizers : list string;
  co_Annotations : gmap string string;
  co_Spec : AgentChannelSpec;
  co_Status : AgentChannelStatus;
}.

#[global] Instance channel_status_eq_dec : EqDecision AgentChannelStatus.
Proof. solve_decision. Defined.

(** The channel as the gateway's cache holds it: of its conditions the
    gateway reads Ready. *)
Definition cached (c : ChannelObject) : AgentChannel :=
  mk_channel (co_Namespace c) (co_Name c) (co_Created c) (co_Spec c) (cs_Phase (co_Status c))
    (match FindCondition (cs_Conditions (co_Status c)) ConditionReady with
     | Some r => [(ConditionReady, sc_Status r)]
     | None => []
     end).
End objects.

Definition ChannelActive : string := "Active".
Definition ChannelDegraded : string := "Degraded".
Definition ChannelFailed : string := "Failed".
Definition ChannelFinalizer : string := "kaalm.io/channel-finalizer".
Definition AnnotationChannelDisconnected : string := "kaalm.io/channel-disconnected".

Definition ReasonCredentialsMissing : string := "CredentialsMissing".
Definition ReasonCredentialsInvalid : string := "CredentialsInvalid".
Definition ReasonSystemNamespaceForbidden : string := "SystemNamespaceForbidden".
Definition ReasonAgentNotFound : string := "AgentNotFound".
Definition ReasonAgentServiceDisabled : string := "AgentServiceDisabled".
Definition ReasonInvalidPath : string := "InvalidPath".
Definition ReasonPathConflict : string := "PathConflict".
Definition ReasonInvalidCallbackURL : string := "InvalidCallbackUrl".
Definition ReasonCallbackAuthMissing : string := "CallbackAuthMissing".
Definition ReasonCallbackAuthInvalid : string := "CallbackAuthInvalid".
Definition ReasonCallbackHostUnresolved : string := "CallbackHostUnresolved".
Definition ReasonSecretNotOptedIn : string := "SecretNotOptedIn".
Definition ReasonCallbackHostNotApproved : string := "CallbackHostNotApproved".
Definition ReasonAgentReachable : string := "AgentReachable".
Definition ReasonWebhookReady : string := "WebhookReady".
Definition ReasonNoRecentTraffic : string := "NoRecentTraffic".

(** ** API errors *)

(** What the code tells apart of an API server's error. *)
Inductive kube_kind := KNotFound | KExists | KForbidden | KRefused | KOther.
Record kube_error := mk_kube { ke_kind : kube_kind; ke_text : string }.

#[global] Instance kube_kind_eq_dec : EqDecision kube_kind.
Proof. solve_decision. Defined.

Definition IsNotFound (e : kube_error) : bool := bool_decide (ke_kind e = KNotFound).
Definition IsForbidden (e : kube_error) : bool := bool_decide (ke_kind e = KForbidden).
Definition IsAlreadyExists (e : kube_error) : bool := bool_decide (ke_kind e = KExists).

(** Forbidden, Invalid or BadRequest. *)
Definition isWriteRejection (e : kube_error) : bool := bool_decide (ke_kind e = KForbidden) || bool_decide (ke_kind e = KRefused).

(** ** The Secrets a channel names *)

Definition channelType (s : AgentChannelSpec) : string := if (Type_ s =? "")%string then ChannelTypeWebhook else Type_ s.

(** The block the type selects. *)
Inductive channel_block := BDiscord (d : AgentChannelDiscord) | BWhatsApp (w : AgentChannelWhatsApp) | BWebhook (w : AgentChannelWebhook) | BNone.

Definition block_of (s : AgentChannelSpec) : channel_block :=
  match Discord s, (channelType s =? ChannelTypeDiscord)%string with
  | Some d, true => BDiscord d
  | _, _ =>
      match WhatsApp s, (channelType s =? ChannelTypeWhatsApp)%string with
      | Some w, true => BWhatsApp w
      | _, _ => match Webhook s with Some w => BWebhook w | None => BNone end
      end
  end.

Definition authSecretRefs (a : ChannelAuth) : list SecretKeyReference :=
  match ca_SecretRef a with Some r => [r] | None => [] end ++ match ca_HMAC a with Some h => [hm_SecretRef h] | None => [] end.

(** The callbackAuth block, used only with a callbackUrl. *)
Definition callback_auth (w : AgentChannelWebhook) : option ChannelAuth :=
  match wh_CallbackURL w with Some _ => wh_CallbackAuth w | None => None end.

Definition collect (a : ChannelAuth) : gset string := list_to_set (map sk_Name (authSecretRefs a)).

Definition auth_secret_set (s : AgentChannelSpec) : gset string :=
  match block_of s with
  | BDiscord d => {[dc_CredentialsRef d]}
  | BWhatsApp w => {[wa_CredentialsRef w]}
  | BWebhook w => collect (wh_Auth w) ∪ match callback_auth w with Some a => collect a | None => ∅ end
  | BNone => ∅
  end.

Definition authSecretNames (s : AgentChannelSpec) : list string := sort_strings (elements (auth_secret_set s)).

(** ** The rules on them *)

Definition failure_of : Type := option (string * string).

Definition channelSecretRead : Type := Secret + kube_error.

Section checks.
Context {U : Unicode} {F : FoldTable} {P : UrlParser}.

Definition quoted (s : string) : string := str (quotedEntry (bs s)).

Definition readOf (reads : gmap string channelSecretRead) (name : string) : channelSecretRead :=
  default (inr (mk_kube KNotFound ("secrets " +:+ (fmt_quoted name +:+ " not found")))) (reads !! name).

Definition notOptedInMessage (name : string) : string :=
  "Secret " +:+ (quoted name +:+ (" does not carry the label " +:+ (LabelChannelCredential +:+ (": " +:+ (fmt_quoted AnnotationTrue +:+
    "; a channel may use only Secrets with that label"))))).

Definition secretReadMessage (e : kube_error) (name namespace : string) : string :=
  if IsNotFound e then "Secret " +:+ (quoted name +:+ (" not found in namespace " +:+ fmt_quoted namespace))
  else "Secret " +:+ (quoted name +:+ (" in namespace " +:+ (fmt_quoted namespace +:+ (" is not readable: " +:+ str (cutDetail (bs (ke_text e))))))).

(** The closure [check]: one reference. *)
Definition check_ref (namespace : string) (reads : gmap string channelSecretRead) (missing empty host : string) (ref : SecretKeyReference) : failure_of :=
  match readOf reads (sk_Name ref) with
  | inr e => Some (missing, secretReadMessage e (sk_Name ref) namespace)
  | inl sec =>
      if negb (ChannelCredentialOptedIn (sec_Labels sec)) then Some (ReasonSecretNotOptedIn, notOptedInMessage (sk_Name ref))
      else if negb (host =? "")%string && negb (CallbackHostApproved (sec_Annotations sec) host) then
        Some (ReasonCallbackHostNotApproved,
          "Secret " +:+ (quoted (sk_Name ref) +:+ (" does not list the callbackUrl host " +:+ (quoted host +:+ (" in its " +:+ (AnnotationCallbackHosts +:+ " annotation"))))))
      else match sec_Data sec !! sk_Key ref with
           | None => Some (missing, "key " +:+ (quoted (sk_Key ref) +:+ (" missing in Secret " +:+ quoted (sk_Name ref))))
           | Some v =>
               if (v =? "")%string then Some (empty, "key " +:+ (quoted (sk_Key ref) +:+ (" is empty in Secret " +:+ quoted (sk_Name ref))))
               else None
           end
  end.

(** The first failure of a list of checks. *)
Fixpoint first_failure {A} (f : A → failure_of) (l : list A) : failure_of :=
  match l with [] => None | x :: l => match f x with Some e => Some e | None => first_failure f l end end.

Definition validateDiscordPublicKey (data : gmap string string) : string :=
  let raw := TrimText (default "" (data !! discordKeyPublicKey)) in
  match hex_decode (bs raw) with
  | None => "publicKey is not hex: " +:+ hex_error (bs raw)
  | Some key =>
      if (length key =? 32)%nat then ""
      else "publicKey decodes to " +:+ (print_N (N.of_nat (length key)) +:+ " bytes, want 32 (an Ed25519 public key)")
  end.

Definition required_key (sec : Secret) (name key : string) : failure_of :=
  let missing := Some (ReasonCredentialsMissing, "key " +:+ (fmt_quoted key +:+ (" missing in Secret " +:+ quoted name))) in
  match sec_Data sec !! key with Some v => if (v =? "")%string then missing else None | None => missing end.

Definition validatePlatformSecret (read : channelSecretRead) (namespace name : string) (required : list string)
    (shape : option (gmap string string → string)) : failure_of :=
  match read with
  | inr e => Some (ReasonCredentialsMissing, secretReadMessage e name namespace)
  | inl sec =>
      if negb (ChannelCredentialOptedIn (sec_Labels sec)) then Some (ReasonSecretNotOptedIn, notOptedInMessage name)
      else match first_failure (required_key sec name) required with
           | Some e => Some e
           | None =>
               match shape with
               | None => None
               | Some shape =>
                   let msg := shape (sec_Data sec) in
                   if (msg =? "")%string then None else Some (ReasonCredentialsInvalid, "Secret " +:+ (quoted name +:+ (": " +:+ msg)))
               end
           end
  end.

Definition callbackHost (raw : string) : string :=
  match url_Parse raw with
  | Some u => if (u_Scheme u =? "https")%string then u_Hostname u else ""
  | None => ""
  end.

Definition names_no_secret (a : ChannelAuth) : bool :=
  (ca_Type a =? authTypeBearer)%string && match ca_SecretRef a with None => true | Some _ => false end || (ca_Type a =? authTypeHMAC)%string && match ca_HMAC a with None => true | Some _ => false end.

(** The outbound half of a webhook's checks. *)
Definition check_callback (namespace : string) (reads : gmap string channelSecretRead) (w : AgentChannelWebhook) : failure_of :=
  match wh_CallbackURL w, wh_CallbackAuth w with
  | Some url, Some callback =>
      if names_no_secret callback then
        Some (ReasonCallbackAuthInvalid, "callbackAuth type " +:+ (fmt_quoted (ca_Type callback) +:+ " names no Secret"))
      else
        let host := if (ca_Type callback =? authTypeBearer)%string then callbackHost url else "" in
        match first_failure (check_ref namespace reads ReasonCallbackAuthMissing ReasonCallbackAuthInvalid host) (authSecretRefs callback) with
        | Some (reason, msg) => Some (reason, "callbackAuth: " +:+ msg)
        | None => None
        end
  | _, _ => None
  end.

Definition checkChannelSecrets (namespace : string) (s : AgentChannelSpec) (reads : gmap string channelSecretRead) : failure_of :=
  match block_of s with
  | BDiscord d =>
      validatePlatformSecret (readOf reads (dc_CredentialsRef d)) namespace (dc_CredentialsRef d) [discordKeyPublicKey] (Some validateDiscordPublicKey)
  | BWhatsApp w =>
      validatePlatformSecret (readOf reads (wa_CredentialsRef w)) namespace (wa_CredentialsRef w)
        [whatsAppKeyVerifyToken; whatsAppKeyAppSecret; whatsAppKeyAccessToken] None
  | BNone => None
  | BWebhook w =>
      match first_failure (check_ref namespace reads ReasonCredentialsMissing ReasonCredentialsMissing "") (authSecretRefs (wh_Auth w)) with
      | Some e => Some e
      | None => check_callback namespace reads w
      end
  end.

(** ** The callback URL *)

(** The first address the policy refuses. *)
Fixpoint refused_address (policy : Policy) (host : string) (ips : list IP) : option IP :=
  match ips with [] => None | ip :: ips => if Allowed policy host ip then refused_address policy host ips else Some ip end.

(** What a parsed URL, and its lookup where one is made, come to: a failure,
    or the host that did not resolve. *)
Definition bad_callback_url : string * string := (ReasonInvalidCallbackURL, "callbackUrl must be a valid https URL").

Definition callback_target (raw : string) : option string :=
  match url_Parse raw with
  | Some u => if negb (u_Scheme u =? "https")%string || (u_Hostname u =? "")%string then None else Some (u_Hostname u)
  | None => None
  end.

Definition callback_answer (policy : Policy) (host : string) (looked : option (list IP)) : (string * string) + string :=
  match looked with
  | None => inr host
  | Some ips =>
      match refused_address policy host ips with
      | Some ip => inl (ReasonInvalidCallbackURL, "callbackUrl host resolves to blocked address " +:+ ip_text ip)
      | None => inr ""
      end
  end.

(** ** The path *)

Definition channel_prefix (namespace : string) : string := "/channels/" +:+ (namespace +:+ "/").

Definition check_path (namespace : string) (s : AgentChannelSpec) : failure_of :=
  if (Path s =? "")%string then
    Some (ReasonInvalidPath, "spec." +:+ (channelType s +:+ (" is not set for type " +:+ fmt_quoted (channelType s))))
  else if negb (HasPrefix (Path s) (channel_prefix namespace)) then
    Some (ReasonInvalidPath, channelType s +:+ (".path must begin with " +:+ fmt_quoted (channel_prefix namespace)))
  else None.
End checks.

Section reductions.
Context {U : Unicode} {SC : StatusConditions}.

Definition wins_over (other channel : ChannelObject) : bool :=
  Before (co_Created other) (co_Created channel) || (co_Created other =? co_Created channel)%Z && String.ltb (co_Name other) (co_Name channel).

(** The loop over the channels of the path. *)
Definition check_conflict (channel : ChannelObject) (listed : list ChannelObject) : failure_of :=
  match List.find (λ other, negb (co_Name other =? co_Name channel)%string && wins_over other channel) listed with
  | Some other =>
      Some (ReasonPathConflict, "path " +:+ (quoted (Path (co_Spec channel)) +:+ (" is already registered by the older channel " +:+ fmt_quoted (co_Name other))))
  | None => None
  end.

(** ** Health *)

Record ChannelHealthState := mk_health_state { hs_State : string; hs_Reason : option string; hs_LastError : option string; hs_Timestamp : option string }.
Record ReplicaChannelHealth := mk_replica_health { rh_StartedAt : Time; rh_WindowSeconds : Z; rh_Channels : gmap string ChannelHealthState }.

Definition newerHealth (a b : ChannelHealthState) : bool :=
  match hs_Timestamp a, hs_Timestamp b with
  | Some x, Some y => String.ltb y x
  | _, None => true
  | None, Some _ => false
  end.

Definition deref (s : option string) (fallback : string) : string :=
  match s with Some v => if (v =? "")%string then fallback else v | None => fallback end.

Record health_scan := mk_health_scan { scan_success : option ChannelHealthState; scan_failure : option ChannelHealthState; fullWindow : bool; allEmpty : bool }.

Definition no_health : health_scan := mk_health_scan None None false true.

Definition take_newer (last : option ChannelHealthState) (s : ChannelHealthState) : option ChannelHealthState :=
  match last with None => Some s | Some l => if newerHealth s l then Some s else last end.

Definition health_window (replica : ReplicaChannelHealth) : Duration := wrap64 (rh_WindowSeconds replica * Second).

(** One turn of the loop, at the time its clock reading gave. *)
Definition scan_replica (path : string) (st : health_scan) (replica : ReplicaChannelHealth) (now : Time) : health_scan :=
  let window := health_window replica in
  let full := fullWindow st || (0 <? window)%Z && (window <=? Sub now (rh_StartedAt replica))%Z in
  match rh_Channels replica !! path with
  | None => mk_health_scan (scan_success st) (scan_failure st) full (allEmpty st)
  | Some state =>
      if (hs_State state =? "empty")%string then mk_health_scan (scan_success st) (scan_failure st) full (allEmpty st)
      else mk_health_scan
             (if (hs_State state =? "success")%string then take_newer (scan_success st) state else scan_success st)
             (if (hs_State state =? "failure")%string then take_newer (scan_failure st) state else scan_failure st)
             full false
  end.

Definition platform_condition (status reason message : string) : StatusCondition :=
  mk_status_condition ConditionPlatformConnected status reason message 0%Z.

Definition health_verdict (st : health_scan) : option StatusCondition :=
  match scan_success st, scan_failure st with
  | Some _, _ => Some (platform_condition ConditionTrue ReasonWebhookReady "webhook delivery succeeded within the health window")
  | None, Some f =>
      Some (platform_condition ConditionFalse (deref (hs_Reason f) "DispatchFailed") (str (cutDetail (bs (deref (hs_LastError f) "delivery failed")))))
  | None, None =>
      if fullWindow st && allEmpty st
      then Some (platform_condition ConditionUnknown ReasonNoRecentTraffic "no webhook traffic observed within the health window")
      else None
  end.

(** ** The rest *)

(** The fields of an Agent a channel pass reads. *)
Record AgentView := mk_agent_view { av_Name : string; av_Phase : AgentPhase; av_Service : option bool }.

Definition agentServiceEnabled (a : AgentView) : bool := default true (av_Service a).

(** The update half of agentChangeMatters. *)
Definition agentChangeMatters (old new : AgentView) : bool :=
  negb (bool_decide (av_Phase old = av_Phase new)) || negb (Bool.eqb (agentServiceEnabled old) (agentServiceEnabled new)).

Definition reducePhase (a : AgentView) : string :=
  match av_Phase a with AgentFailed | AgentDegraded => ChannelDegraded | _ => ChannelActive end.

Definition readyFalseIsNew (cs : status_conditions) (reason : string) : bool :=
  match FindCondition cs ConditionReady with
  | None => true
  | Some prev => negb (sc_Status prev =? ConditionFalse)%string || negb (sc_Reason prev =? reason)%string
  end.

Definition asyncRecordTTL : Duration := Hour.

Definition asyncRecordExpired (cm : ConfigMap) (now : Time) : bool :=
  match ParseRFC3339 (default "" (cm_Annotations cm !! AnnotationExpiresAt)) with
  | Some expiresAt => negb (After expiresAt now)
  | None => negb (IsZero (cm_Created cm)) && (2 * asyncRecordTTL <? Sub now (cm_Created cm))%Z
  end.
End reductions.
