(* ===== verification/ChannelReconcile.v ===== *)
(** One pass of the AgentChannel reconciler
    (internal/controller/agentchannel_controller.go, with secret_access.go
    and ownership.go, which it shares with the other reconcilers), and one of
    the orphan pruner (async_orphan_prune.go).

    A pass is a program over the calls it makes ([call]); its state is the
    channel in memory and the map of unresolved callback hosts, and an error
    ends it unless the caller catches it.  [exec] runs a program against any
    answers, which may depend on everything asked before: caches that lag,
    writes that fail, names that other objects took. *)

From stdpp Require Import base gmap list strings option.
From Stdlib Require Import ZArith Lia Ascii.
From S2P Require Import CallbackPolicy Prelude GoFloat GoTime Json JsonString ProblemList BudgetReducer Conditions AgentLifecycle TaskReconcile Rfc3339 ChannelHealth Sha256 ChannelApi ChannelAuth AsyncDelivery Discord WhatsApp ChannelCheck.

(** ** The objects a pass writes *)

Record PolicyRule := mk_rule { APIGroups : list string; Resources : list string; ResourceNames : list string; Verbs : list string }.

(** Roles and RoleBindings are named by the call that reads or writes them;
    [Controlled] says whether the channel is their controller. *)
Record Role := mk_role { ro_Controlled : bool; Rules : list PolicyRule }.

(** A RoleRef (group, kind, name) and the Subjects (kind, name, namespace). *)
Record RoleBinding := mk_binding {
  rb_Controlled : bool;
  rb_RoleRef : string * string * string;
  rb_Subjects : list (string * string * string);
}.

#[global] Instance policy_rule_eq_dec : EqDecision PolicyRule.
Proof. solve_decision. Defined.

Definition gatewayServiceAccount : string := "kaalm-gateway".
Definition controllerServiceAccount : string := "kaalm-controller".
Definition rbacGroup : string := "rbac.authorization.k8s.io".
Definition kindRole : string := "Role".
Definition kindRoleBinding : string := "RoleBinding".
Definition ServiceAccountKind : string := "ServiceAccount".

Definition disconnectTimeout : Duration := (30 * Second)%Z.
Definition secretReadAttempts : nat := 5.
Definition asyncPrefix : string := "kaalm-async-".

Definition channelRoleName (channelName : string) : string := "kaalm-channel-" +:+ (channelName +:+ "-creds").
Definition channelCheckRoleName (channelName : string) : string := "kaalm-channel-" +:+ (channelName +:+ "-check").

(** get, list and watch on the named Secrets. *)
Definition secrets_rule (names : list string) : PolicyRule := mk_rule [""] ["secrets"] names ["get"; "list"; "watch"].

(** The extractor of the IndexAsyncChannel index. *)
Definition asyncChannelIndex (cm : ConfigMap) : list string :=
  if negb (HasPrefix (cm_Name cm) asyncPrefix) then []
  else
    let ns := default "" (cm_Labels cm !! LabelChannelNamespace) in
    let name := default "" (cm_Labels cm !! LabelChannelName) in
    if (ns =? "")%string || (name =? "")%string then [] else [ns +:+ ("/" +:+ name)].

Section reconcile.
Context {U : Unicode} {F : FoldTable} {P : UrlParser} {SC : StatusConditions}.
Context (OperatorNamespace : string) (CallbackPolicy : Policy) (HealthSet : bool).

(** ** The calls of a pass *)

Inductive call : Type → Type :=
  | Now : call Time
  | GetChannel : call (ChannelObject + kube_error)
  | UpdateChannel (c : ChannelObject) : call (ChannelObject + kube_error)
  | UpdateStatus (c : ChannelObject) : call (ChannelObject + kube_error)
  | GetAgent (name : string) : call (AgentView + kube_error)
  | GetRole (name : string) : call (Role + kube_error)
  | CreateRole (name : string) (r : Role) : call (option kube_error)
  | UpdateRole (name : string) (r : Role) : call (option kube_error)
  | DeleteRole (name : string) : call (option kube_error)
  | GetBinding (name : string) : call (RoleBinding + kube_error)
  | CreateBinding (name : string) (b : RoleBinding) : call (option kube_error)
  | UpdateBinding (name : string) (b : RoleBinding) : call (option kube_error)
  | DeleteBinding (name : string) : call (option kube_error)
  | GetSecret (name : string) : call (Secret + kube_error)
  | Backoff : call (option string)
  | ListOnPath (path : string) : call (list ChannelObject + kube_error)
  | LookupIP (host : string) : call (option (list IP))
  | ChannelHealth : call (option (list ReplicaChannelHealth * Z))
  | ListRecords (index : option string) : call (list ConfigMap + kube_error)
  | DeleteRecord (cm : ConfigMap) : call (option kube_error)
  | FindChannel (namespace name : string) : call (option kube_error)
  | Emit (e : event) : call unit.

Inductive prog (A : Type) : Type :=
  | Ret (a : A)
  | Do {B : Type} (c : call B) (k : B → prog A).
Arguments Ret {A} a.
Arguments Do {A B} c k.

Fixpoint prog_bind {A B} (p : prog A) (f : A → prog B) : prog B :=
  match p with Ret a => f a | Do c k => Do c (λ b, prog_bind (k b) f) end.

(** One call with its answer, and a run against answers that may depend on
    what was asked and answered before. *)
Inductive step : Type := | Step {B : Type} (c : call B) (b : B).
Definition answers : Type := ∀ B, list step → call B → B.

Fixpoint exec {A} (ans : answers) (tr : list step) (p : prog A) : list step * A :=
  match p with
  | Ret a => (tr, a)
  | Do c k => let b := ans _ tr c in exec ans (tr ++ [Step c b]) (k b)
  end.

Record memory := mk_memory { m_channel : ChannelObject; unresolvedHosts : gmap string string }.

Definition M (A : Type) : Type := memory → prog (memory * (A + error)).

#[local] Instance M_ret : MRet M := λ A a s, Ret (s, inl a).
#[local] Instance M_bind : MBind M := λ A B f m s,
  prog_bind (m s) (λ r, match r.2 with inl a => f a r.1 | inr e => Ret (r.1, inr e) end).

Definition throw {A} (e : error) : M A := λ s, Ret (s, inr e).
Definition try {A} (m : M A) : M (A + error) := λ s, prog_bind (m s) (λ r, Ret (r.1, inl r.2)).
Definition lift {B} (c : call B) : M B := λ s, Do c (λ b, Ret (s, inl b)).
Definition the_channel : M ChannelObject := λ s, Ret (s, inl (m_channel s)).
Definition put_channel (c : ChannelObject) : M unit := λ s, Ret (mk_memory c (unresolvedHosts s), inl ()).
Definition set_status (f : AgentChannelStatus → AgentChannelStatus) (c : ChannelObject) : ChannelObject :=
  mk_channel_object (co_Namespace c) (co_Name c) (co_UID c) (co_Created c) (co_Generation c) (co_Deletion c) (co_Finalizers c)
    (co_Annotations c) (co_Spec c) (f (co_Status c)).
Definition set_finalizers (l : list string) (c : ChannelObject) : ChannelObject :=
  mk_channel_object (co_Namespace c) (co_Name c) (co_UID c) (co_Created c) (co_Generation c) (co_Deletion c) l
    (co_Annotations c) (co_Spec c) (co_Status c).
Definition edit (f : AgentChannelStatus → AgentChannelStatus) : M unit :=
  λ s, Ret (mk_memory (set_status f (m_channel s)) (unresolvedHosts s), inl ()).
Definition skip : M unit := mret ().
Definition when (b : bool) (m : M unit) : M unit := if b then m else skip.

Definition plain (e : kube_error) : error := [EOther (ke_text e)].

Definition set_phase (phase : string) (s : AgentChannelStatus) : AgentChannelStatus :=
  mk_channel_status (cs_ObservedGeneration s) phase (cs_Conditions s).
Definition set_conditions (cs : status_conditions) (s : AgentChannelStatus) : AgentChannelStatus :=
  mk_channel_status (cs_ObservedGeneration s) (cs_Phase s) cs.
Definition set_observed (g : Z) (s : AgentChannelStatus) : AgentChannelStatus :=
  mk_channel_status g (cs_Phase s) (cs_Conditions s).

(** ** Controlled children (ownership.go, write_rejection.go) *)

Definition rejectedWrite (op kind name : string) (e : kube_error) : error :=
  if isWriteRejection e then [EWriteRejected (op +:+ " " +:+ kind +:+ " " +:+ fmt_quoted name +:+ ": " +:+ ke_text e)] else plain e.

Definition conflict (kind name : string) : error :=
  [EConflict (kind +:+ " " +:+ fmt_quoted name +:+ " already exists and is not owned by this AgentChannel")].

Definition requireControlled (kind name : string) (controlled : bool) : M unit :=
  if controlled then skip else throw (conflict kind name).

(** createControlled with verifyControlled, for a Role and for a
    RoleBinding. *)
Definition createRole (name : string) (r : Role) : M unit :=
  e ← lift (CreateRole name r);
  match e with
  | None => skip
  | Some e =>
      if IsAlreadyExists e then
        current ← lift (GetRole name);
        match current with inr e => throw (plain e) | inl cur => requireControlled kindRole name (ro_Controlled cur) end
      else throw (rejectedWrite "creating" kindRole name e)
  end.

Definition createBinding (name : string) (b : RoleBinding) : M unit :=
  e ← lift (CreateBinding name b);
  match e with
  | None => skip
  | Some e =>
      if IsAlreadyExists e then
        current ← lift (GetBinding name);
        match current with inr e => throw (plain e) | inl cur => requireControlled kindRoleBinding name (rb_Controlled cur) end
      else throw (rejectedWrite "creating" kindRoleBinding name e)
  end.

Definition updateRole (name : string) (cur : Role) (rules : list PolicyRule) : M unit :=
  e ← lift (UpdateRole name (mk_role (ro_Controlled cur) rules));
  match e with None => skip | Some e => throw (rejectedWrite "updating" kindRole name e) end.

(** client.IgnoreNotFound of a delete, sorted by rejectedWrite. *)
Definition delete_answer (kind name : string) (e : option kube_error) : M unit :=
  match e with
  | Some e => if IsNotFound e then skip else throw (rejectedWrite "deleting" kind name e)
  | None => skip
  end.

(** ** The controller's own access (secret_access.go) *)

(** A read that may find nothing. *)
Definition found {A} (r : A + kube_error) : M (option A) :=
  match r with inl a => mret (Some a) | inr e => if IsNotFound e then mret None else throw (plain e) end.

Definition ensureControllerSecretAccess (roleName : string) (secrets : list string) : M unit :=
  let names := sort_strings secrets in
  r ← lift (GetRole roleName);
  current ← found r;
  match current with Some cur => requireControlled kindRole roleName (ro_Controlled cur) | None => skip end;;
  rb ← lift (GetBinding roleName);
  currentRB ← found rb;
  match currentRB with Some cur => requireControlled kindRoleBinding roleName (rb_Controlled cur) | None => skip end;;
  match names with
  | [] =>
      match currentRB with
      | Some _ => e ← lift (DeleteBinding roleName); delete_answer kindRoleBinding roleName e
      | None => skip
      end;;
      match current with
      | Some _ => e ← lift (DeleteRole roleName); delete_answer kindRole roleName e
      | None => skip
      end
  | _ =>
      let rules := [secrets_rule names] in
      match current with
      | None => createRole roleName (mk_role true rules)
      | Some cur => if bool_decide (Rules cur = rules) then skip else updateRole roleName cur rules
      end;;
      match currentRB with
      | Some _ => skip
      | None =>
          createBinding roleName (mk_binding true (rbacGroup, kindRole, roleName)
            [(ServiceAccountKind, controllerServiceAccount, OperatorNamespace)])
      end
  end.

(** A Forbidden answer is asked again while the Role reaches the
    authorizer; the pass's context may end in between. *)
Fixpoint getSecretLive (attempts : nat) (last : channelSecretRead) (name : string) : M channelSecretRead :=
  match attempts with
  | O => mret last
  | S attempts =>
      r ← lift (GetSecret name);
      match r with
      | inl sec => mret (inl sec)
      | inr e =>
          if IsForbidden e then
            ended ← lift Backoff;
            match ended with Some text => mret (inr (mk_kube KOther text)) | None => getSecretLive attempts (inr e) name end
          else mret (inr e)
      end
  end.

(** ** The Secrets of a channel *)

Definition opted_in (read : channelSecretRead) : bool :=
  match read with inl sec => ChannelCredentialOptedIn (sec_Labels sec) | inr _ => false end.

Fixpoint read_secrets (names : list string) (reads : gmap string channelSecretRead) (optedIn : list string)
    : M (gmap string channelSecretRead * list string) :=
  match names with
  | [] => mret (reads, optedIn)
  | name :: names =>
      read ← getSecretLive secretReadAttempts (inr (mk_kube KOther "")) name;
      read_secrets names (<[name := read]> reads) (if opted_in read then optedIn ++ [name] else optedIn)
  end.

Definition readChannelSecrets : M (gmap string channelSecretRead * list string) :=
  c ← the_channel; read_secrets (authSecretNames (co_Spec c)) ∅ [].

Definition validateSecrets : M (failure_of * list string) :=
  c ← the_channel;
  r ← readChannelSecrets;
  mret (checkChannelSecrets (co_Namespace c) (co_Spec c) r.1, r.2).

Definition credential_rules (names : list string) : list PolicyRule := match names with [] => [] | _ => [secrets_rule names] end.

Definition gatewayBindingName (channelName : string) : string := channelRoleName channelName +:+ "-gateway".
Definition gateway_binding (channelName : string) : RoleBinding :=
  mk_binding true (rbacGroup, kindRole, channelRoleName channelName) [(ServiceAccountKind, gatewayServiceAccount, OperatorNamespace)].

(** The Role half and the RoleBinding half of ensureCredentialRole. *)
Definition ensure_role (name : string) (rules : list PolicyRule) : M unit :=
  r ← lift (GetRole name);
  match r with
  | inr e => if IsNotFound e then createRole name (mk_role true rules) else throw (plain e)
  | inl cur =>
      requireControlled kindRole name (ro_Controlled cur);;
      if bool_decide (Rules cur = rules) then skip else updateRole name cur rules
  end.

Definition ensure_binding (name : string) (b : RoleBinding) : M unit :=
  r ← lift (GetBinding name);
  match r with
  | inr e => if IsNotFound e then createBinding name b else throw (plain e)
  | inl cur =>
      requireControlled kindRoleBinding name (rb_Controlled cur);;
      if bool_decide (rb_RoleRef cur = rb_RoleRef b) && bool_decide (rb_Subjects cur = rb_Subjects b) then skip
      else
        e ← lift (UpdateBinding name (mk_binding (rb_Controlled cur) (rb_RoleRef b) (rb_Subjects b)));
        match e with None => skip | Some e => throw (rejectedWrite "updating" kindRoleBinding name e) end
  end.

Definition ensureCredentialRole (names : list string) : M unit :=
  c ← the_channel;
  ensure_role (channelRoleName (co_Name c)) (credential_rules names);;
  ensure_binding (gatewayBindingName (co_Name c)) (gateway_binding (co_Name c)).

Definition roleWriteReason (e : error) : M failure_of :=
  match asChildConflict e with
  | Some text => mret (Some (ReasonChildConflict, text))
  | None =>
      match asChildWriteRejected e with
      | Some text => mret (Some (ReasonChildWriteRejected, rejectionMessage text))
      | None => throw e
      end
  end.

Definition scopeCredentialRoles : M failure_of :=
  c ← the_channel;
  checked ← try (ensureControllerSecretAccess (channelCheckRoleName (co_Name c)) (authSecretNames (co_Spec c)));
  match checked with
  | inr checkErr => try (ensureCredentialRole []);; roleWriteReason checkErr
  | inl _ =>
      r ← validateSecrets;
      wrote ← try (ensureCredentialRole r.2);
      match wrote with inr e => roleWriteReason e | inl _ => mret r.1 end
  end.

(** ** The validation chain *)

Definition unresolved_event (host : string) : event :=
  mk_event true ReasonCallbackHostUnresolved "Validate"
    ("callbackUrl host " +:+ (fmt_quoted host +:+ (" does not resolve; the channel stays Ready and the gateway " +:+
      "checks the host again before every callback delivery"))).

Definition noteCallbackResolution (host : string) : M unit :=
  λ s,
    let uid := co_UID (m_channel s) in
    let hosts := unresolvedHosts s in
    if (host =? "")%string then Ret (mk_memory (m_channel s) (delete uid hosts), inl ())
    else if bool_decide (hosts !! uid = Some host) then Ret (s, inl ())
    else Do (Emit (unresolved_event host)) (λ _, Ret (mk_memory (m_channel s) (<[uid := host]> hosts), inl ())).

Definition forgetCallbackResolution : M unit :=
  λ s, Ret (mk_memory (m_channel s) (delete (co_UID (m_channel s)) (unresolvedHosts s)), inl ()).

(** A failure, or the host that did not resolve. *)
Definition validateCallbackURL (raw : string) : M ((string * string) + string) :=
  match callback_target raw with
  | None => mret (inl bad_callback_url)
  | Some host => looked ← lift (LookupIP host); mret (callback_answer CallbackPolicy host looked)
  end.

Definition validateChannel (agent : AgentView) (cred : failure_of) : M failure_of :=
  c ← the_channel;
  if negb (agentServiceEnabled agent) then
    mret (Some (ReasonAgentServiceDisabled, "Agent " +:+ (fmt_quoted (av_Name agent) +:+ " has service.enabled=false; channels need a delivery target")))
  else match check_path (co_Namespace c) (co_Spec c) with
  | Some e => mret (Some e)
  | None =>
      listed ← lift (ListOnPath (Path (co_Spec c)));
      match match listed with inl others => check_conflict c others | inr _ => None end with
      | Some e => mret (Some e)
      | None =>
          match cred with
          | Some e => mret (Some e)
          | None =>
              r ← match Webhook (co_Spec c) with
                  | Some w => match wh_CallbackURL w with Some raw => validateCallbackURL raw | None => mret (inr "") end
                  | None => mret (inr "")
                  end;
              match r with
              | inl e => mret (Some e)
              | inr unresolved => noteCallbackResolution unresolved;; mret None
              end
          end
      end
  end.

(** ** Status *)

Definition updateStatusIfChanged (before : AgentChannelStatus) : M unit :=
  c ← the_channel;
  if bool_decide (before = co_Status c) then skip
  else
    r ← lift (UpdateStatus c);
    match r with inl c => put_channel c | inr e => throw (plain e) end.

Definition setChannelReady (ok : bool) (reason msg : string) : M unit :=
  now ← lift Now;
  edit (λ s, set_conditions (SetCondition now (cs_Conditions s)
    (mk_status_condition ConditionReady (if ok then ConditionTrue else ConditionFalse) reason msg 0%Z)) s).

(** The loop of a prune over what the list answered. *)
Fixpoint prune_loop (sweepAll : bool) (now : Time) (cms : list ConfigMap) : M unit :=
  match cms with
  | [] => skip
  | cm :: cms =>
      if negb (HasPrefix (cm_Name cm) asyncPrefix) || negb sweepAll && negb (asyncRecordExpired cm now) then prune_loop sweepAll now cms
      else
        e ← lift (DeleteRecord cm);
        match e with
        | Some e => if IsNotFound e then prune_loop sweepAll now cms else throw (plain e)
        | None => prune_loop sweepAll now cms
        end
  end.

Definition pruneAsyncConfigMaps (sweepAll : bool) : M unit :=
  c ← the_channel;
  r ← lift (ListRecords (Some (co_Namespace c +:+ ("/" +:+ co_Name c))));
  match r with
  | inr e => throw (plain e)
  | inl cms => now ← lift Now; prune_loop sweepAll now cms
  end.

Definition markChannelNotReady (before : AgentChannelStatus) (reason msg : string) : M unit :=
  c ← the_channel;
  let first := readyFalseIsNew (cs_Conditions (co_Status c)) reason in
  setChannelReady false reason msg;;
  updateStatusIfChanged before;;
  when first (lift (Emit (mk_event true reason (notReadyAction reason) msg)));;
  pruneAsyncConfigMaps false.

Fixpoint scan_health (path : string) (st : health_scan) (replicas : list ReplicaChannelHealth) : M health_scan :=
  match replicas with
  | [] => mret st
  | r :: replicas =>
      now ← (if (0 <? health_window r)%Z then lift Now else mret 0%Z);
      scan_health path (scan_replica path st r now) replicas
  end.

Definition reduceChannelHealth : M unit :=
  c ← the_channel;
  h ← lift ChannelHealth;
  match h with
  | None => skip
  | Some (reachable, total) =>
      if (total =? 0)%Z || bool_decide (reachable = []) then skip
      else
        st ← scan_health (Path (co_Spec c)) no_health reachable;
        match health_verdict st with
        | None => skip
        | Some cond => now ← lift Now; edit (λ s, set_conditions (SetCondition now (cs_Conditions s) cond) s)
        end
  end.

(** ** The pass *)

(** The requeue of ctrl.Result, [None] for none. *)
Definition result : Type := option Duration.

(** Step 1: announce. *)
Definition announce : M unit :=
  c ← the_channel;
  if (cs_Phase (co_Status c) =? ChannelTerminating)%string then skip
  else
    edit (set_phase ChannelTerminating);;
    c ← the_channel;
    r ← lift (UpdateStatus c);
    match r with inl c => put_channel c | inr e => throw (plain e) end.

(** Step 4: whether to wait on for the gateway. *)
Definition awaits_disconnect : M bool :=
  c ← the_channel;
  if (default "" (co_Annotations c !! AnnotationChannelDisconnected) =? AnnotationTrue)%string then mret false
  else now ← lift Now; mret (Sub now (default 0%Z (co_Deletion c)) <? disconnectTimeout)%Z.

(** Steps 5 and 6: sweep, release. *)
Definition release : M result :=
  pruneAsyncConfigMaps true;;
  forgetCallbackResolution;;
  c ← the_channel;
  let c := set_finalizers (List.filter (λ f, negb (f =? ChannelFinalizer)%string) (co_Finalizers c)) c in
  put_channel c;;
  r ← lift (UpdateChannel c);
  match r with inl c => put_channel c;; mret None | inr e => throw (plain e) end.

Definition reconcileDelete : M result :=
  c ← the_channel;
  if negb (bool_decide (ChannelFinalizer ∈ co_Finalizers c)) then mret None
  else
    announce;;
    waiting ← awaits_disconnect;
    if waiting : bool then mret (Some (2 * Second)%Z) else release.

(** The end of a pass over a channel that passed its checks (steps 4 to 6). *)
Definition report_ready (before : AgentChannelStatus) (agent : AgentView) : M result :=
  setChannelReady true ReasonAgentReachable "channel is valid";;
  when HealthSet reduceChannelHealth;;
  edit (set_phase (reducePhase agent));;
  updateStatusIfChanged before;;
  pruneAsyncConfigMaps false;;
  mret (Some Minute).

(** From step 1 on, with what the credential Roles came to. *)
Definition reconcile_scoped (before : AgentChannelStatus) (cred : failure_of) : M result :=
  c ← the_channel;
  a ← lift (GetAgent (AgentRef (co_Spec c)));
  match a with
  | inr e =>
      if IsNotFound e then
        edit (set_phase ChannelFailed);;
        markChannelNotReady before ReasonAgentNotFound
          ("Agent " +:+ (quoted (AgentRef (co_Spec c)) +:+ (" not found in namespace " +:+ fmt_quoted (co_Namespace c))));;
        mret (Some Minute)
      else throw (plain e)
  | inl agent =>
      invalid ← validateChannel agent cred;
      match invalid with
      | Some (reason, msg) =>
          forgetCallbackResolution;;
          edit (set_phase (reducePhase agent));;
          markChannelNotReady before reason msg;;
          mret (Some (if (reason =? ReasonChildConflict)%string || (reason =? ReasonChildWriteRejected)%string then notReadyRecheck else Minute))
      | None => report_ready before agent
      end
  end.

Definition reconcile_live (before : AgentChannelStatus) : M result :=
  cred ← scopeCredentialRoles;
  reconcile_scoped before cred.

(** The pass on the channel it read. *)
Definition reconcile_found (c : ChannelObject) : M result :=
  put_channel c;;
  if bool_decide (is_Some (co_Deletion c)) then reconcileDelete
  else if negb (bool_decide (ChannelFinalizer ∈ co_Finalizers c)) then
    r ← lift (UpdateChannel (set_finalizers (co_Finalizers c ++ [ChannelFinalizer]) c));
    match r with inl c => put_channel c;; mret None | inr e => throw (plain e) end
  else
    let before := co_Status c in
    edit (set_observed (co_Generation c));;
    if (co_Namespace c =? OperatorNamespace)%string then
      edit (set_phase ChannelFailed);;
      markChannelNotReady before ReasonSystemNamespaceForbidden
        ("AgentChannels may not live in the operator namespace " +:+ fmt_quoted OperatorNamespace);;
      mret None
    else reconcile_live before.

Definition Reconcile : M result :=
  r ← lift GetChannel;
  match r with
  | inr e => if IsNotFound e then mret None else throw (plain e)
  | inl c => reconcile_found c
  end.

(** ** The orphan pruner *)

Fixpoint orphan_loop (now : Time) (cms : list ConfigMap) : M unit :=
  match cms with
  | [] => skip
  | cm :: cms =>
      if negb (HasPrefix (cm_Name cm) asyncPrefix) || negb (asyncRecordExpired cm now) then orphan_loop now cms
      else
        let chNS := default "" (cm_Labels cm !! LabelChannelNamespace) in
        let chName := default "" (cm_Labels cm !! LabelChannelName) in
        live ← (if negb (chNS =? "")%string && negb (chName =? "")%string then
                  e ← lift (FindChannel chNS chName);
                  match e with None => mret true | Some e => if IsNotFound e then mret false else throw (plain e) end
                else mret false);
        if live : bool then orphan_loop now cms
        else
          e ← lift (DeleteRecord cm);
          match e with
          | Some e => if IsNotFound e then orphan_loop now cms else throw (plain e)
          | None => orphan_loop now cms
          end
  end.

Definition pruneOnce : M unit :=
  now ← lift Now;
  r ← lift (ListRecords None);
  match r with inr e => throw (plain e) | inl cms => orphan_loop now cms end.
End reconcile.

Arguments Ret {SC A} a.
Arguments Do {SC A B} c k.
