(* ===== verification/ChannelTrace.v ===== *)
(** Reasoning about the runs of a channel pass: what holds of the trace, the
    memory and the result whatever the answers, as weakest preconditions over
    the programs of [ChannelReconcile].

    The second half is the deletion path: what must precede the release of the
    finalizer. *)

From stdpp Require Import base gmap list strings option.
From Stdlib Require Import ZArith Lia Ascii.
From S2P Require Import CallbackPolicy Prelude GoFloat GoTime Json JsonString ProblemList BudgetReducer Conditions AgentLifecycle TaskReconcile Rfc3339 ChannelHealth Sha256 ChannelApi ChannelAuth AsyncDelivery Discord WhatsApp ChannelCheck ChannelReconcile.

Section logic.
Context {SC : StatusConditions}.
Implicit Types (tr pre ext : list step) (s : memory).

(** What is assumed of an answer: a status write that succeeds answers the
    same object with the status that was written. *)
Definition honest {B} (c : call B) : B → Prop :=
  match c in call B return B → Prop with
  | UpdateStatus c => λ r, match r with
      | inl c' => co_Namespace c' = co_Namespace c ∧ co_Name c' = co_Name c ∧ co_Deletion c' = co_Deletion c ∧ co_Status c' = co_Status c
      | inr _ => True
      end
  | _ => λ _, True
  end.

Definition honest_answers (ans : answers) : Prop := ∀ B tr (c : call B), honest c (ans B tr c).

Fixpoint wp {A} (p : prog A) tr (Q : list step → A → Prop) : Prop :=
  match p with
  | Ret a => Q tr a
  | Do c k => ∀ b, honest c b → wp (k b) (tr ++ [Step c b]) Q
  end.

Lemma pwp_mono {A} (p : prog A) tr (Q Q' : list step → A → Prop) : (∀ tr' a, Q tr' a → Q' tr' a) → wp p tr Q → wp p tr Q'.
Proof. revert tr. induction p as [a|B c k IH]; cbn; [auto|]. intros tr HQ H b Hb. apply IH; auto. Qed.

Lemma pwp_bind {A B} (p : prog A) (f : A → prog B) tr Q : wp p tr (λ tr' a, wp (f a) tr' Q) → wp (prog_bind p f) tr Q.
Proof. revert tr. induction p as [a|C c k IH]; cbn; auto. Qed.

Lemma wp_exec {A} ans (p : prog A) tr Q : honest_answers ans → wp p tr Q → Q (exec ans tr p).1 (exec ans tr p).2.
Proof. intros Hh. revert tr. induction p as [a|B c k IH]; cbn; auto. Qed.

(** *** Programs with memory and errors *)

Definition mwp {A} (m : M A) s tr (Q : list step → memory → A + error → Prop) : Prop := wp (m s) tr (λ tr' r, Q tr' r.1 r.2).

Lemma mwp_mono {A} (m : M A) s tr (Q Q' : list step → memory → A + error → Prop) :
  mwp m s tr Q → (∀ tr' s' r, Q tr' s' r → Q' tr' s' r) → mwp m s tr Q'.
Proof. intros H HQ. eapply pwp_mono; [|exact H]. cbn. auto. Qed.

Lemma wp_and {A} (p : prog A) tr Q Q' : wp p tr Q → wp p tr Q' → wp p tr (λ tr' a, Q tr' a ∧ Q' tr' a).
Proof. revert tr. induction p as [a|B c k IH]; cbn; auto. Qed.

Lemma mwp_and {A} (m : M A) s tr Q Q' : mwp m s tr Q → mwp m s tr Q' → mwp m s tr (λ tr' s' r, Q tr' s' r ∧ Q' tr' s' r).
Proof. apply wp_and. Qed.

Lemma mwp_ret {A} (a : A) s tr Q : Q tr s (inl a) → mwp (mret (M := M) (MRet := M_ret) a) s tr Q.
Proof. done. Qed.
Lemma mwp_throw {A} e s tr Q : Q tr s (inr e) → mwp (throw (A := A) e) s tr Q.
Proof. done. Qed.
Lemma mwp_lift {B} (c : call B) s tr Q : (∀ b, honest c b → Q (tr ++ [Step c b]) s (inl b)) → mwp (lift c) s tr Q.
Proof. done. Qed.
Lemma mwp_channel s tr Q : Q tr s (inl (m_channel s)) → mwp the_channel s tr Q.
Proof. done. Qed.
Lemma mwp_put c s tr Q : Q tr (mk_memory c (unresolvedHosts s)) (inl ()) → mwp (put_channel c) s tr Q.
Proof. done. Qed.
Lemma mwp_edit f s tr Q : Q tr (mk_memory (set_status f (m_channel s)) (unresolvedHosts s)) (inl ()) → mwp (edit f) s tr Q.
Proof. done. Qed.
Lemma mwp_forget s tr Q :
  Q tr (mk_memory (m_channel s) (delete (co_UID (m_channel s)) (unresolvedHosts s))) (inl ()) → mwp forgetCallbackResolution s tr Q.
Proof. done. Qed.

Lemma mwp_bind {A B} (m : M A) (f : A → M B) s tr Q :
  mwp m s tr (λ tr' s' r, match r with inl a => mwp (f a) s' tr' Q | inr e => Q tr' s' (inr e) end) →
  mwp (mbind (M := M) (MBind := M_bind) f m) s tr Q.
Proof. intros H. apply pwp_bind. eapply pwp_mono; [|exact H]. intros tr' [s' [a|e]]; done. Qed.

Lemma mwp_try {A} (m : M A) s tr Q : mwp m s tr (λ tr' s' r, Q tr' s' (inl r)) → mwp (try m) s tr Q.
Proof. intros H. apply pwp_bind. eapply pwp_mono; [|exact H]. done. Qed.

(** *** Calls of one sort *)

(** Every call of [m] is of the sort [ok], and [m] keeps the channel's
    identity: only its status may change. *)
Definition same_meta (c c' : ChannelObject) : Prop := c' = set_status (λ _, co_Status c') c.

Definition extends (ok : step → Prop) tr tr' : Prop := ∃ ext, tr' = tr ++ ext ∧ Forall ok ext.

Lemma extends_refl ok tr : extends ok tr tr.
Proof. exists []. by rewrite List.app_nil_r. Qed.
Lemma extends_trans ok tr1 tr2 tr3 : extends ok tr1 tr2 → extends ok tr2 tr3 → extends ok tr1 tr3.
Proof. intros (e1 & -> & H1) (e2 & -> & H2). exists (e1 ++ e2). rewrite List.app_assoc. split; [done|]. by apply Forall_app. Qed.
Lemma extends_step (ok : step → Prop) tr B (c : call B) b : ok (Step c b) → extends ok tr (tr ++ [Step c b]).
Proof. intros H. exists [Step c b]. by repeat constructor. Qed.
Lemma extends_mono (ok ok' : step → Prop) tr tr' : (∀ st, ok st → ok' st) → extends ok tr tr' → extends ok' tr tr'.
Proof. intros Hm (e & -> & H). exists e. split; [done|]. eapply List.Forall_impl; eauto. Qed.
Lemma extends_in ok tr tr' st : extends ok tr tr' → st ∈ tr → st ∈ tr'.
Proof. intros (e & -> & _) H. apply elem_of_app. by left. Qed.

Definition only (ok : step → Prop) {A} (m : M A) : Prop := ∀ s tr, mwp m s tr (λ tr' s' r, extends ok tr tr').

Section only.
Context (ok : step → Prop).

Lemma only_ret {A} (a : A) : only ok (mret (M := M) (MRet := M_ret) a).
Proof. intros s tr. apply extends_refl. Qed.
Lemma only_throw {A} e : only ok (throw (A := A) e).
Proof. intros s tr. apply extends_refl. Qed.
Lemma only_lift {B} (c : call B) : (∀ b, ok (Step c b)) → only ok (lift c).
Proof. intros H s tr b _. by apply extends_step. Qed.
Lemma only_channel : only ok the_channel.
Proof. intros s tr. apply extends_refl. Qed.
Lemma only_put c : only ok (put_channel c).
Proof. intros s tr. apply extends_refl. Qed.
Lemma only_edit f : only ok (edit f).
Proof. intros s tr. apply extends_refl. Qed.
Lemma only_forget : only ok forgetCallbackResolution.
Proof. intros s tr. apply extends_refl. Qed.
Lemma only_bind {A B} (m : M A) (f : A → M B) : only ok m → (∀ a, only ok (f a)) → only ok (mbind (M := M) (MBind := M_bind) f m).
Proof.
  intros Hm Hf s tr. apply mwp_bind. eapply mwp_mono; [apply Hm|]. intros tr' s' [a|e] H; [|done].
  eapply mwp_mono; [apply Hf|]. intros tr'' s'' r H'. by eapply extends_trans.
Qed.
Lemma only_try {A} (m : M A) : only ok m → only ok (try m).
Proof. intros H s tr. apply mwp_try. apply H. Qed.
Lemma only_when b m : only ok m → only ok (when b m).
Proof. intros H. destruct b; [done|apply only_ret]. Qed.
End only.

(** *** A condition on each call, of the trace before it *)

Definition each (R : list step → step → Prop) tr : Prop := ∀ pre st post, tr = pre ++ st :: post → R pre st.

Lemma each_nil R : each R [].
Proof. intros pre st post E. by destruct pre. Qed.

Lemma each_snoc R tr st : each R tr → R tr st → each R (tr ++ [st]).
Proof.
  intros H Hst pre st' post E. destruct post as [|p post _] using rev_ind.
  - apply app_inj_tail in E as [-> ->]. done.
  - rewrite app_comm_cons, List.app_assoc in E. apply app_inj_tail in E as [-> _]. by eapply H.
Qed.

Lemma each_one R st : R [] st → each R [st].
Proof. intros H. by apply (each_snoc _ []); [apply each_nil|]. Qed.

Lemma each_extends R tr tr' : each R tr → extends (λ st, ∀ pre, R pre st) tr tr' → each R tr'.
Proof.
  intros H (ext & -> & Hext). induction ext as [|st ext IH] using rev_ind; [by rewrite List.app_nil_r|].
  rewrite List.app_assoc. apply Forall_app in Hext as [H1 H2]. apply each_snoc; [by apply IH|]. apply List.Forall_inv in H2. by apply H2.
Qed.
End logic.

(** Walks [only ok m] through the structure of [m]; each call is of the sort
    by [solve_call], and the parts left are lemmas or hypotheses. *)
Ltac only_with solve_call :=
  repeat match goal with
    | |- ∀ _, _ => intro
    | H : ∀ _, _ |- only _ _ => apply H
    | |- only _ (mret _) => apply only_ret
    | |- only _ skip => apply only_ret
    | |- only _ (throw _) => apply only_throw
    | |- only _ the_channel => apply only_channel
    | |- only _ (put_channel _) => apply only_put
    | |- only _ (edit _) => apply only_edit
    | |- only _ forgetCallbackResolution => apply only_forget
    | |- only _ (mbind _ _) => apply only_bind
    | |- only _ (try _) => apply only_try
    | |- only _ (when _ _) => apply only_when
    | |- only _ (lift _) => apply only_lift; intro; solve_call
    | |- only _ (match ?x with _ => _ end) => destruct x
    | |- only _ (let _ := _ in _) => cbv zeta
    end.

(** One step of symbolic execution. *)
Ltac wp_step :=
  match goal with
  | |- mwp (mbind _ _) _ _ _ => apply mwp_bind
  | |- mwp (mret _) _ _ _ => apply mwp_ret; cbn
  | |- mwp skip _ _ _ => apply mwp_ret; cbn
  | |- mwp (throw _) _ _ _ => apply mwp_throw; cbn
  | |- mwp (lift _) _ _ _ => apply mwp_lift; intros ? ?; cbn
  | |- mwp the_channel _ _ _ => apply mwp_channel; cbn
  | |- mwp (put_channel _) _ _ _ => apply mwp_put; cbn
  | |- mwp (edit _) _ _ _ => apply mwp_edit; cbn
  | |- mwp forgetCallbackResolution _ _ _ => apply mwp_forget; cbn
  | |- mwp (try _) _ _ _ => apply mwp_try
  end.

(** ** The sorts of calls each part of a pass makes *)

Inductive call_kind := Reading | RoleWrite | StatusWrite | ChannelWrite | RecordDelete | Eventing.

#[global] Instance call_kind_eq_dec : EqDecision call_kind.
Proof. solve_decision. Defined.

Section kinds.
Context {U : Unicode} {F : FoldTable} {P : UrlParser} {SC : StatusConditions}.
Context (operator : string) (policy : Policy) (health : bool).

Definition kind_of (st : step) : call_kind :=
  match st with Step c _ =>
    match c with
    | UpdateChannel _ => ChannelWrite
    | UpdateStatus _ => StatusWrite
    | CreateRole _ _ | UpdateRole _ _ | DeleteRole _ | CreateBinding _ _ | UpdateBinding _ _ | DeleteBinding _ => RoleWrite
    | DeleteRecord _ => RecordDelete
    | Emit _ => Eventing
    | _ => Reading
    end
  end.

Definition within (l : list call_kind) (st : step) : Prop := bool_decide (kind_of st ∈ l) = true.

Lemma only_sub l l' {A} (m : M A) : bool_decide (l ⊆ l') = true → only (within l) m → only (within l') m.
Proof.
  intros Hsub H s tr. eapply mwp_mono; [apply H|]. intros tr' s' r. apply extends_mono. intros st. unfold within.
  rewrite !bool_decide_eq_true in *. set_solver.
Qed.

Ltac walk := only_with ltac:(by vm_compute).

Lemma only_prune sweepAll : only (within [Reading; RecordDelete]) (pruneAsyncConfigMaps sweepAll).
Proof.
  assert (∀ now cms, only (within [Reading; RecordDelete]) (prune_loop sweepAll now cms)) as Hl.
  { intros now cms. induction cms as [|cm cms IH]; cbn [prune_loop]; [walk|]. destruct (_ || _); [done|]. walk; done. }
  unfold pruneAsyncConfigMaps. walk.
Qed.

Lemma only_access role secrets : only (within [Reading; RoleWrite]) (ensureControllerSecretAccess operator role secrets).
Proof. unfold ensureControllerSecretAccess, found, createRole, createBinding, updateRole, delete_answer, requireControlled. walk. Qed.

Lemma only_secrets names reads optedIn : only (within [Reading]) (read_secrets names reads optedIn).
Proof.
  assert (∀ n last name, only (within [Reading]) (getSecretLive n last name)) as Hl.
  { intros n. induction n as [|n IH]; intros last name; cbn [getSecretLive]; [walk|]. walk; done. }
  revert reads optedIn. induction names as [|name names IH]; intros reads optedIn; cbn [read_secrets]; [walk|]. walk; done.
Qed.

Lemma only_role name rules : only (within [Reading; RoleWrite]) (ensure_role name rules).
Proof. unfold ensure_role, createRole, updateRole, requireControlled. walk. Qed.

Lemma only_binding name b : only (within [Reading; RoleWrite]) (ensure_binding name b).
Proof. unfold ensure_binding, createBinding, requireControlled. walk. Qed.

Lemma only_cred names : only (within [Reading; RoleWrite]) (ensureCredentialRole operator names).
Proof. unfold ensureCredentialRole. walk; [apply only_role|apply only_binding]. Qed.

Lemma only_scope : only (within [Reading; RoleWrite]) (scopeCredentialRoles operator).
Proof.
  unfold scopeCredentialRoles, roleWriteReason, validateSecrets, readChannelSecrets. walk; try apply only_access; try apply only_cred.
  eapply only_sub; [|apply only_secrets]. done.
Qed.

Lemma only_note host : only (within [Reading; Eventing]) (noteCallbackResolution host).
Proof.
  intros s tr. unfold mwp, noteCallbackResolution. destruct (host =? "")%string; [apply extends_refl|].
  case_bool_decide; [apply extends_refl|]. intros b _. by apply extends_step.
Qed.

Lemma only_validate agent cred : only (within [Reading; Eventing]) (validateChannel policy agent cred).
Proof. unfold validateChannel, validateCallbackURL. walk. apply only_note. Qed.

Lemma only_ready ok reason msg : only (within [Reading]) (setChannelReady ok reason msg).
Proof. unfold setChannelReady. walk. Qed.

Lemma only_write before : only (within [StatusWrite]) (updateStatusIfChanged before).
Proof. unfold updateStatusIfChanged. walk. Qed.

Lemma only_mark before reason msg : only (within [Reading; StatusWrite; Eventing; RecordDelete]) (markChannelNotReady before reason msg).
Proof.
  unfold markChannelNotReady. walk;
    first [eapply only_sub; [|apply only_ready]; done|eapply only_sub; [|apply only_write]; done|eapply only_sub; [|apply only_prune]; done].
Qed.

Lemma only_health : only (within [Reading]) reduceChannelHealth.
Proof.
  assert (∀ path st l, only (within [Reading]) (scan_health path st l)) as Hl.
  { intros path st l. revert st. induction l as [|r l IH]; intros st; cbn [scan_health]; [walk|]. walk; done. }
  unfold reduceChannelHealth. walk.
Qed.

Lemma only_scoped before cred : only (within [Reading; StatusWrite; Eventing; RecordDelete]) (reconcile_scoped policy health before cred).
Proof.
  unfold reconcile_scoped, report_ready. walk;
    first [eapply only_sub; [|apply only_mark]; done|eapply only_sub; [|apply only_validate]; done
          |eapply only_sub; [|apply only_ready]; done|eapply only_sub; [|apply only_health]; done|eapply only_sub; [|apply only_write]; done
          |eapply only_sub; [|apply only_prune]; done].
Qed.

Lemma only_live before : only (within [Reading; RoleWrite; StatusWrite; Eventing; RecordDelete]) (reconcile_live operator policy health before).
Proof.
  unfold reconcile_live. walk; [eapply only_sub; [|apply only_scope]; done|eapply only_sub; [|apply only_scoped]; done].
Qed.

Lemma only_delete : only (within [Reading; StatusWrite; ChannelWrite; RecordDelete]) reconcileDelete.
Proof.
  unfold reconcileDelete, announce, awaits_disconnect, release. walk. eapply only_sub; [|apply only_prune]. done.
Qed.

(** A run of a pass, from what it read of the channel. *)
Lemma exec_reconcile ans s : exec ans [] (Reconcile operator policy health s) =
  match ans _ [] GetChannel with
  | inl c => exec ans [Step GetChannel (inl c)] (reconcile_found operator policy health c s)
  | inr e => ([Step GetChannel (inr e)], (s, if IsNotFound e then inl None else inr (plain e)))
  end.
Proof.
  unfold Reconcile. unfold mbind, M_bind. cbn [lift prog_bind exec]. cbv zeta.
  destruct (ans _ [] GetChannel) as [c|e]; [reflexivity|]. cbn. destruct (IsNotFound e); reflexivity.
Qed.

(** A condition that holds of every call of the sorts [l] is kept by what
    makes only such calls. *)
Lemma each_within R l tr tr' : (∀ pre st, kind_of st ∈ l → R pre st) → each R tr → extends (within l) tr tr' → each R tr'.
Proof.
  intros HR He Hx. eapply each_extends; [done|]. eapply extends_mono; [|done]. intros st H%bool_decide_eq_true pre. by apply HR.
Qed.

Lemma mwp_within R l {A} (m : M A) s tr Q : (∀ pre st, kind_of st ∈ l → R pre st) → only (within l) m → each R tr →
  (∀ tr' s' r, each R tr' → extends (within l) tr tr' → Q tr' s' r) → mwp m s tr Q.
Proof. intros HR Ho He HQ. eapply mwp_mono; [apply Ho|]. intros tr' s' r Hx. apply HQ; [|done]. by eapply each_within. Qed.
End kinds.

(** ** A cluster that stands still *)

(** Answers that do not change during the pass, where every write succeeds. *)
Record cluster {SC : StatusConditions} := mk_cluster {
  cl_now : Time;
  cl_channel : ChannelObject + kube_error;
  cl_agent : AgentView + kube_error;
  cl_role : string → Role + kube_error;
  cl_binding : string → RoleBinding + kube_error;
  cl_secret : string → Secret + kube_error;
  cl_on_path : list ChannelObject;
  cl_ips : option (list IP);
  cl_health : option (list ReplicaChannelHealth * Z);
  cl_records : list ConfigMap;
  cl_known : string → string → bool;
}.

Arguments mk_cluster {SC}.

Definition not_found : kube_error := mk_kube KNotFound "not found".

Definition still {SC : StatusConditions} (cl : cluster) : answers := λ B _ c,
  match c in call B return B with
  | Now => cl_now cl
  | GetChannel => cl_channel cl
  | UpdateChannel c => inl c
  | UpdateStatus c => inl c
  | GetAgent _ => cl_agent cl
  | GetRole name => cl_role cl name
  | GetBinding name => cl_binding cl name
  | CreateRole _ _ | UpdateRole _ _ | DeleteRole _ | CreateBinding _ _ | UpdateBinding _ _ | DeleteBinding _ | DeleteRecord _ => None
  | GetSecret name => cl_secret cl name
  | Backoff => None
  | ListOnPath _ => inl (cl_on_path cl)
  | LookupIP _ => cl_ips cl
  | ChannelHealth => cl_health cl
  | ListRecords key =>
      inl (match key with None => cl_records cl | Some k => List.filter (λ cm, existsb (String.eqb k) (asyncChannelIndex cm)) (cl_records cl) end)
  | FindChannel ns name => if cl_known cl ns name then None else Some not_found
  | Emit _ => ()
  end.

Lemma still_honest {SC : StatusConditions} cl : honest_answers (still cl).
Proof. intros B tr c. by destruct c. Qed.

(** The delete handshake of a channel, and the records it sweeps. *)


Section release.
Context {U : Unicode} {F : FoldTable} {P : UrlParser} {SC : StatusConditions}.
Context (operator : string) (policy : Policy) (health : bool).
Implicit Types (tr pre : list step) (s : memory).

(** A record that a delete removed, or found gone. *)
Definition gone tr (cm : ConfigMap) : Prop :=
  ∃ e, Step (DeleteRecord cm) e ∈ tr ∧ match e with Some e => IsNotFound e = true | None => True end.

(** What a prune may delete of what it listed. *)
Definition prunable (sweepAll : bool) (now : Time) (cm : ConfigMap) : Prop :=
  HasPrefix (cm_Name cm) asyncPrefix = true ∧ (sweepAll = true ∨ asyncRecordExpired cm now = true).

Definition prunes (sweepAll : bool) (now : Time) (cms : list ConfigMap) (st : step) : Prop :=
  ∃ cm e, st = Step (DeleteRecord cm) e ∧ cm ∈ cms ∧ prunable sweepAll now cm.

(** What a prune of [cms] leaves on the trace after [tr]. *)
Definition pruned (sweepAll : bool) (now : Time) (cms : list ConfigMap) tr tr' (r : unit + error) : Prop :=
  ∃ ext, tr' = tr ++ ext ∧ Forall (prunes sweepAll now cms) ext ∧
    (r = inl () → ∀ cm, cm ∈ cms → prunable sweepAll now cm → gone ext cm).

Lemma gone_cons st tr cm : gone tr cm → gone (st :: tr) cm.
Proof. intros (e & H & He). exists e. split; [by right|done]. Qed.

Lemma prunes_cons sweepAll now cm cms ext : Forall (prunes sweepAll now cms) ext → Forall (prunes sweepAll now (cm :: cms)) ext.
Proof. apply List.Forall_impl. intros st (cm' & e & -> & Hin & Hp). exists cm', e. split_and!; [done|by right|done]. Qed.

Lemma pruned_skip sweepAll now cm cms tr tr' r : ¬ prunable sweepAll now cm → pruned sweepAll now cms tr tr' r → pruned sweepAll now (cm :: cms) tr tr' r.
Proof.
  intros Hn (ext & -> & Hext & Hgone). exists ext. split_and!; [done|by apply prunes_cons|].
  intros Hr cm' [->|Hin]%elem_of_cons Hp; [done|by apply Hgone].
Qed.

Lemma pruned_delete sweepAll now cm cms e tr tr' r : prunable sweepAll now cm →
  (r = inl () → match e with Some e => IsNotFound e = true | None => True end) →
  pruned sweepAll now cms (tr ++ [Step (DeleteRecord cm) e]) tr' r → pruned sweepAll now (cm :: cms) tr tr' r.
Proof.
  intros Hp He (ext & -> & Hext & Hgone). exists (Step (DeleteRecord cm) e :: ext). rewrite <- List.app_assoc. split_and!; [done| |].
  - apply List.Forall_cons; [|by apply prunes_cons]. exists cm, e. split_and!; [done|by left|done].
  - intros Hr cm' [->|Hin]%elem_of_cons Hp'; [exists e; split; [by left|by apply He]|]. by apply gone_cons, Hgone.
Qed.

Lemma prune_loop_spec sweepAll now cms s tr :
  mwp (prune_loop sweepAll now cms) s tr (λ tr' s' r, s' = s ∧ pruned sweepAll now cms tr tr' r).
Proof.
  revert tr. induction cms as [|cm cms IH]; intros tr; cbn [prune_loop].
  { split; [done|]. exists []. rewrite List.app_nil_r. split_and!; [done|done|]. intros _ cm Hcm. by apply not_elem_of_nil in Hcm. }
  destruct (negb (HasPrefix _ _) || _) eqn:Eskip.
  - eapply mwp_mono; [apply IH|]. intros tr' s' r [-> H]. split; [done|]. apply pruned_skip; [|done].
    intros [H1 [->|H2]]; rewrite ?H1, ?H2 in Eskip; cbn in Eskip; [done|]. by rewrite andb_false_r in Eskip.
  - assert (prunable sweepAll now cm) as Hp.
    { apply orb_false_iff in Eskip as [H1%negb_false_iff H2]. split; [done|]. destruct sweepAll; [by left|right]. by apply negb_false_iff in H2. }
    apply mwp_bind, mwp_lift. intros e _.
    assert (match e with Some e => IsNotFound e = true | None => True end →
      mwp (prune_loop sweepAll now cms) s (tr ++ [Step (DeleteRecord cm) e]) (λ tr' s' r, s' = s ∧ pruned sweepAll now (cm :: cms) tr tr' r)) as Hgo.
    { intros He. eapply mwp_mono; [apply IH|]. intros tr' s' r [-> H]. split; [done|]. by eapply pruned_delete. }
    destruct e as [e|]; [|by apply Hgo]. destruct (IsNotFound e) eqn:En; [by apply Hgo|].
    apply mwp_throw. split; [done|]. apply (pruned_delete _ _ _ _ (Some e)); [done|done|]. exists []. by rewrite List.app_nil_r.
Qed.

Definition record_key (c : ChannelObject) : string := co_Namespace c +:+ ("/" +:+ co_Name c).

(** The sweep listed the channel's records and removed every one. *)
Definition swept tr (c : ChannelObject) : Prop :=
  ∃ cms, Step (ListRecords (Some (record_key c))) (inl cms) ∈ tr ∧ ∀ cm, cm ∈ cms → HasPrefix (cm_Name cm) asyncPrefix = true → gone tr cm.

(** Calls that neither write the channel nor its status. *)
Definition reads_or_prunes (st : step) : Prop :=
  match st with Step c _ => match c with UpdateChannel _ | UpdateStatus _ => False | _ => True end end.

Lemma sweep_spec s tr : mwp (pruneAsyncConfigMaps true) s tr (λ tr' s' r,
  s' = s ∧ ∃ ext, tr' = tr ++ ext ∧ Forall reads_or_prunes ext ∧ (r = inl () → swept ext (m_channel s))).
Proof.
  unfold pruneAsyncConfigMaps. repeat wp_step. destruct b as [cms|e].
  2: { wp_step. split; [done|]. eexists. by repeat constructor. }
  repeat wp_step. rename b into now. eapply mwp_mono; [apply prune_loop_spec|]. intros tr' s' r (-> & ext & -> & Hext & Hgone).
  split; [done|]. rewrite <- !List.app_assoc. eexists. split_and!; [done| |].
  - repeat (apply List.Forall_cons; [done|]). eapply List.Forall_impl; [|done]. by intros st (cm & e & -> & _).
  - intros Hr. exists cms. split; [left|]. intros cm Hin Hp. apply gone_cons, gone_cons, Hgone; [done|done|]. split; [done|by left].
Qed.

(** ** The handshake *)

(** The API server held the channel as [c0], which is Terminating. *)
Definition announced tr (c0 : ChannelObject) : Prop :=
  is_Some (co_Deletion c0) ∧ cs_Phase (co_Status c0) = ChannelTerminating ∧
  (Step GetChannel (inl c0) ∈ tr ∨ ∃ c1, Step (UpdateStatus c1) (inl c0) ∈ tr).

(** The gateway confirmed on that object, or the clock then showed that it had
    its time. *)
Definition let_go tr (c0 : ChannelObject) : Prop :=
  co_Annotations c0 !! AnnotationChannelDisconnected = Some AnnotationTrue ∨
  ∃ now, Step Now now ∈ tr ∧ (disconnectTimeout <= Sub now (default 0%Z (co_Deletion c0)))%Z.

Definition drops_finalizer (st : step) : Prop :=
  match st with Step c _ => match c with UpdateChannel c' => ChannelFinalizer ∉ co_Finalizers c' | _ => False end end.

Definition releases (pre : list step) (st : step) : Prop :=
  match st with Step c _ =>
    match c with
    | UpdateChannel c' =>
        ChannelFinalizer ∉ co_Finalizers c' →
        ∃ p1 p2 p3 c0, pre = p1 ++ p2 ++ p3 ∧ c' = set_finalizers (co_Finalizers c') c0 ∧
          announced p1 c0 ∧ let_go p2 c0 ∧ swept p3 c'
    | _ => True
    end
  end.

Definition no_update (st : step) : Prop := match st with Step c _ => match c with UpdateChannel _ => False | _ => True end end.

Lemma no_update_releases tr tr' : each releases tr → extends no_update tr tr' → each releases tr'.
Proof. intros H He. eapply each_extends; [done|]. eapply extends_mono; [|done]. intros [B c b] Hn pre. by destruct c. Qed.

Lemma each_releases_app tr ext : each releases tr → Forall no_update ext → each releases (tr ++ ext).
Proof. intros H Hext. eapply no_update_releases; [done|]. by exists ext. Qed.

Lemma disconnected_true (c : ChannelObject) :
  (default "" (co_Annotations c !! AnnotationChannelDisconnected) =? AnnotationTrue)%string = true →
  co_Annotations c !! AnnotationChannelDisconnected = Some AnnotationTrue.
Proof. destruct (_ !! _) as [v|]; cbn; [|done]. by intros ->%String.eqb_eq. Qed.

Lemma release_spec s p1 p2 : each releases (p1 ++ p2) → announced p1 (m_channel s) → let_go p2 (m_channel s) →
  mwp release s (p1 ++ p2) (λ tr' _ r, each releases tr' ∧ (r = inl None → ∃ st, st ∈ tr' ∧ drops_finalizer st)).
Proof.
  intros He Ha Hl. unfold release. wp_step. eapply mwp_mono; [apply sweep_spec|]. intros tr' s' r (-> & ext & -> & Hext & Hsw).
  set (tr := p1 ++ p2) in *. assert (each releases (tr ++ ext)) as He'.
  { apply each_releases_app; [done|]. eapply List.Forall_impl; [|exact Hext]. intros [B c b]. by destruct c. }
  destruct r as [[]|e]; [|done]. specialize (Hsw eq_refl). repeat wp_step.
  set (c' := set_finalizers _ _) in *.
  assert (ChannelFinalizer ∉ co_Finalizers c') as Hf.
  { cbn. rewrite list_elem_of_In, List.filter_In. by intros [_ H2]. }
  assert (each releases ((tr ++ ext) ++ [Step (UpdateChannel c') b])) as Hend.
  { apply each_snoc; [done|]. intros _. exists p1, p2, ext, (m_channel s). by rewrite List.app_assoc. }
  destruct b as [c|e]; repeat wp_step; [|done]. split; [done|]. intros _. eexists. split; [apply elem_of_app; right; by apply list_elem_of_singleton|done].
Qed.

Lemma awaits_spec s tr : each releases tr → mwp awaits_disconnect s tr (λ tr' s' r,
  s' = s ∧ each releases tr' ∧ ∃ ext, tr' = tr ++ ext ∧ (r = inl false → let_go ext (m_channel s))).
Proof.
  intros He. unfold awaits_disconnect. repeat wp_step. destruct (_ =? AnnotationTrue)%string eqn:Ed.
  - wp_step. split_and!; [done|done|]. exists []. rewrite List.app_nil_r. split; [done|]. intros _. left. by apply disconnected_true.
  - repeat wp_step. split_and!; [done|by apply each_snoc|]. eexists. split; [done|]. intros [= Hlt%Z.ltb_ge]. right. exists b.
    split; [by apply list_elem_of_singleton|done].
Qed.

Lemma announce_spec s tr : each releases tr → is_Some (co_Deletion (m_channel s)) → Step GetChannel (inl (m_channel s)) ∈ tr →
  mwp announce s tr (λ tr' s' r, each releases tr' ∧ (r = inl () → announced tr' (m_channel s'))).
Proof.
  intros He Hd Hin. unfold announce. repeat wp_step. destruct (_ =? ChannelTerminating)%string eqn:Ep.
  - wp_step. split; [done|]. intros _. apply String.eqb_eq in Ep. split_and!; eauto.
  - repeat wp_step. destruct b as [c|e]; repeat wp_step; (split; [by apply each_snoc|]); [|done].
    intros _. destruct H as (Hn & Hm & Hdel & Hst). split_and!; [by rewrite Hdel|by rewrite Hst|].
    right. eexists. apply elem_of_app. right. by apply list_elem_of_singleton.
Qed.

Lemma delete_spec s tr : each releases tr → is_Some (co_Deletion (m_channel s)) → Step GetChannel (inl (m_channel s)) ∈ tr →
  mwp reconcileDelete s tr (λ tr' _ r, each releases tr' ∧
    (ChannelFinalizer ∈ co_Finalizers (m_channel s) → r = inl None → ∃ st, st ∈ tr' ∧ drops_finalizer st)).
Proof.
  intros He Hd Hin. unfold reconcileDelete. repeat wp_step. case_bool_decide as Hf; cbn [negb]; [|by wp_step].
  wp_step. eapply mwp_mono; [by apply announce_spec|]. intros tr1 s1 r [He1 Ha]. destruct r as [[]|e]; [|done]. specialize (Ha eq_refl).
  wp_step. eapply mwp_mono; [by apply awaits_spec|]. intros tr2 s2 r (-> & He2 & ext & -> & Hl). destruct r as [[]|e]; [by wp_step| |done].
  eapply mwp_mono; [apply release_spec; [done|done|by apply Hl]|]. intros tr' s' r [? ?]. split; [done|auto].
Qed.

(** ** Passes that do not release *)

Lemma within_releases (l : list call_kind) pre st : ChannelWrite ∉ l → kind_of st ∈ l → releases pre st.
Proof. intros Hl Hin. destruct st as [B c b]. by destruct c. Qed.

Definition released (c : ChannelObject) tr (r : result + error) : Prop :=
  is_Some (co_Deletion c) → ChannelFinalizer ∈ co_Finalizers c → r = inl None → ∃ st, st ∈ tr ∧ drops_finalizer st.

Lemma found_releases c s tr : each releases tr → Step GetChannel (inl c) ∈ tr →
  mwp (reconcile_found operator policy health c) s tr (λ tr' _ r, each releases tr' ∧ released c tr' r).
Proof.
  intros He Hin. unfold reconcile_found. repeat wp_step. case_bool_decide as Hd.
  { eapply mwp_mono; [by apply delete_spec|]. intros tr' s' r [? H]. split; [done|]. intros _. apply H. }
  case_bool_decide as Hf; cbn [negb].
  - cbv zeta. repeat wp_step. destruct (_ =? operator)%string.
    + repeat wp_step. eapply mwp_within; [|apply only_mark|done|]; [intros ??; apply within_releases; set_solver|]. intros tr' s' [r|e] He' _; repeat wp_step; (split; [done|by intros ?]).
    + eapply mwp_within; [|apply only_live|done|]; [intros ??; apply within_releases; set_solver|]. intros tr' s' r He' _. (split; [done|by intros ?]).
  - repeat wp_step. assert (each releases (tr ++ [Step (UpdateChannel (set_finalizers (co_Finalizers c ++ [ChannelFinalizer]) c)) b])) as He'.
    { apply each_snoc; [done|]. cbn. intros Hn. exfalso. apply Hn. set_solver. }
    destruct b; repeat wp_step; (split; [done|by intros ?]).
Qed.

(** C13: whatever the API server, the caches and the clock answer, a pass
    removes a channel's finalizer only in this order: first the API server
    answers with the channel as Terminating; then, that object carries the
    gateway's disconnect annotation, or a reading of the clock is past the
    disconnect timeout; then the pass lists the channel's async records and
    deletes, or finds gone, every one of them; and what it writes is that
    object without the finalizer.  Whether the annotation is newer than the
    phase is not checked.  A pass over a deleting channel that ends without an
    error and asks for no other pass has removed the finalizer. *)
Theorem channel_released_after_sweep ans s :
  honest_answers ans →
  let '(tr, (_, r)) := exec ans [] (Reconcile operator policy health s) in
  each releases tr ∧ ∀ c, ans _ [] GetChannel = inl c → released c tr r.
Proof.
  intros Hh. rewrite exec_reconcile. destruct (ans _ [] GetChannel) as [c|e] eqn:E; [|by split; [apply each_one|]].
  pose proof (wp_exec ans _ [Step GetChannel (inl c)] _ Hh (found_releases c s [Step GetChannel (inl c)] ltac:(by apply each_one) ltac:(by left))) as H.
  destruct (exec ans _ _) as [tr [s' r]]. cbn in H. destruct H as [H1 H2]. split; [done|]. by intros c' [= ->].
Qed.
End release.

(** ** A deleting channel *)

Module ReleaseRun.
#[local] Existing Instance map_status_conditions.
#[local] Instance no_fold : FoldTable := {| same_fold := λ _ _, false |}.
#[local] Instance no_urls : UrlParser := {| url_Parse := λ _, None |}.

Definition webhook : AgentChannelWebhook :=
  mk_webhook "/channels/team/hook" (mk_channel_auth "bearer" (Some (mk_secret_ref "hook" "token")) None)
    (mk_extractor None None None) (mk_extractor None None None) "async" None None 0%Z.
Definition spec : AgentChannelSpec := mk_channel_spec "bot" "webhook" (Some webhook) None None false.

Definition deleting : ChannelObject :=
  mk_channel_object "team" "hook" "uid-1" (1000 * Second)%Z 2%Z (Some (5000 * Second)%Z) [ChannelFinalizer]
    {[AnnotationChannelDisconnected := AnnotationTrue]} spec (mk_channel_status 2%Z ChannelActive ∅).

Definition pending : ConfigMap :=
  mk_config_map "kaalm-system" "kaalm-async-1" {[LabelChannelNamespace := "team"; LabelChannelName := "hook"]} ∅ ∅ 0%Z.

Definition world : cluster :=
  mk_cluster (5001 * Second)%Z (inl deleting) (inr not_found) (λ _, inr not_found) (λ _, inr not_found) (λ _, inr not_found) [] None None
    [pending] (λ _ _, false).

Definition run : list step * (memory * (result + error)) :=
  exec (still world) [] (Reconcile (U := plain_unicode) "kaalm-system" default_policy false (mk_memory deleting ∅)).

Lemma channel_released_after_sweep_witness :
  honest_answers (still world) ∧ each releases run.1 ∧ gone run.1 pending ∧ ∃ st, st ∈ run.1 ∧ drops_finalizer st.
Proof.
  split; [apply still_honest|].
  pose proof (channel_released_after_sweep (U := plain_unicode) "kaalm-system" default_policy false (still world) (mk_memory deleting ∅) (still_honest world)) as H.
  change (exec (still world) [] (Reconcile "kaalm-system" default_policy false (mk_memory deleting ∅))) with run in H.
  destruct run as [tr [s r]] eqn:E.
  assert (r = inl None) as Hr by (transitivity (run.2.2); [by rewrite E|vm_compute; reflexivity]).
  destruct H as [H1 H2]. split; [done|]. split.
  - exists None. split; [|done]. replace tr with run.1 by (by rewrite E). apply (list_elem_of_lookup_2 _ 4). vm_compute. reflexivity.
  - apply (H2 deleting); [reflexivity|by eexists|by left|done].
Defined.
End ReleaseRun.
