(* ===== verification/ChannelGrants.v ===== *)
(** The Roles a channel pass writes: the gateway is granted the labelled
    Secrets of the channel and no other.

    The second half is the Ready condition: what must have been read before it
    is written. *)

From stdpp Require Import base gmap list sorting strings option.
From Stdlib Require Import ZArith Lia Ascii.
From S2P Require Import CallbackPolicy Prelude GoFloat GoTime Json JsonString ProblemList BudgetReducer Conditions AgentLifecycle TaskReconcile Rfc3339 ChannelHealth Sha256 ChannelApi ChannelAuth AsyncDelivery Discord WhatsApp ChannelCheck ChannelReconcile ChannelTrace.

Section grants.
Context {U : Unicode} {F : FoldTable} {P : UrlParser} {SC : StatusConditions}.
Context (operator : string) (policy : Policy) (health : bool).
Implicit Types (tr pre : list step) (s : memory).

(** A Secret read with the opt-in label. *)
Definition read_opted tr (n : string) : Prop :=
  ∃ sec, Step (GetSecret n) (inl sec) ∈ tr ∧ ChannelCredentialOptedIn (sec_Labels sec) = true.

(** Every rule only reads Secrets, names at least one (a rule without names is
    one over every Secret of the namespace), and names allowed ones only. *)
Definition reads_named (allowed : string → Prop) (rules : list PolicyRule) : Prop :=
  ∀ r, r ∈ rules → APIGroups r = [""] ∧ Resources r = ["secrets"] ∧ (∀ v, v ∈ Verbs r → v ∈ ["get"; "list"; "watch"]) ∧
    ResourceNames r ≠ [] ∧ ∀ n, n ∈ ResourceNames r → allowed n.

(** The Secrets the rules name. *)
Definition named (rules : list PolicyRule) : list string := flat_map ResourceNames rules.

(** The rules of a Role a pass over [c] may write, after [pre]: the
    controller's own, over the Secrets of the channel, and the gateway's. *)
Definition role_allowed (c : ChannelObject) pre (name : string) (rules : list PolicyRule) : Prop :=
  (name = channelCheckRoleName (co_Name c) ∧ reads_named (λ n, n ∈ authSecretNames (co_Spec c)) rules ∧
     named rules ≡ₚ authSecretNames (co_Spec c)) ∨
  (name = channelRoleName (co_Name c) ∧ reads_named (λ n, n ∈ authSecretNames (co_Spec c) ∧ read_opted pre n) rules).

Lemma credential_rules_named (allowed : string → Prop) names : (∀ n, n ∈ names → allowed n) →
  reads_named allowed (credential_rules names) ∧ named (credential_rules names) = names.
Proof.
  intros H. destruct names as [|n names]; cbn.
  - split; [|done]. intros r Hr. by apply not_elem_of_nil in Hr.
  - rewrite List.app_nil_r. split; [|done]. intros r ->%list_elem_of_singleton. by split_and!.
Qed.

Lemma reads_named_mono (Q R : string → Prop) rules : (∀ n, Q n → R n) → reads_named Q rules → reads_named R rules.
Proof. intros H Hq r Hr. destruct (Hq r Hr) as (?&?&?&?&?). split_and!; auto. Qed.

(** Who a RoleBinding it writes gives that to. *)
Definition binding_allowed (c : ChannelObject) (name : string) (b : RoleBinding) : Prop :=
  (name = channelCheckRoleName (co_Name c) ∧ rb_RoleRef b = (rbacGroup, kindRole, channelCheckRoleName (co_Name c)) ∧
     rb_Subjects b = [(ServiceAccountKind, controllerServiceAccount, operator)]) ∨
  (name = gatewayBindingName (co_Name c) ∧ rb_RoleRef b = (rbacGroup, kindRole, channelRoleName (co_Name c)) ∧
     rb_Subjects b = [(ServiceAccountKind, gatewayServiceAccount, operator)]).

Definition grants (c : ChannelObject) (pre : list step) (st : step) : Prop :=
  match st with Step call _ =>
    match call with
    | CreateRole name r | UpdateRole name r => role_allowed c pre name (Rules r)
    | CreateBinding name b | UpdateBinding name b => binding_allowed c name b
    | _ => True
    end
  end.

Lemma within_grants (l : list call_kind) c pre st : RoleWrite ∉ l → kind_of st ∈ l → grants c pre st.
Proof. intros Hl Hin. destruct st as [B call b]. by destruct call. Qed.

(** A write with its answer, where the next calls are reads. *)
Ltac snoc := match goal with |- each _ (_ ++ [_]) => apply each_snoc; [|try done; try exact I] end.
Ltac run_writes := repeat first [wp_step | match goal with |- mwp (match ?x with _ => _ end) _ _ _ => destruct x eqn:? end]; cbn [negb].

Lemma create_role_grants c name r s tr : each (grants c) tr → role_allowed c tr name (Rules r) →
  mwp (createRole name r) s tr (λ tr' s' _, s' = s ∧ each (grants c) tr').
Proof.
  intros He Hr. unfold createRole, requireControlled. run_writes; (split; [done|]); repeat snoc; done.
Qed.

Lemma create_binding_grants c name b s tr : each (grants c) tr → binding_allowed c name b →
  mwp (createBinding name b) s tr (λ tr' s' _, s' = s ∧ each (grants c) tr').
Proof.
  intros He Hr. unfold createBinding, requireControlled. run_writes; (split; [done|]); repeat snoc; done.
Qed.

Lemma update_role_grants c name cur rules s tr : each (grants c) tr → role_allowed c tr name rules →
  mwp (updateRole name cur rules) s tr (λ tr' s' _, s' = s ∧ each (grants c) tr').
Proof. intros He Hr. unfold updateRole. run_writes; (split; [done|]); repeat snoc; done. Qed.

Lemma allowed_later ok c tr tr' name rules : extends ok tr tr' → role_allowed c tr name rules → role_allowed c tr' name rules.
Proof.
  intros Hx [H|(-> & H)]; [by left|right]. split; [done|]. eapply reads_named_mono; [|exact H].
  intros n [? (sec & Hs & ?)]. split; [done|]. exists sec. split; [|done]. by eapply extends_in.
Qed.

Lemma opted_later ok tr tr' n : extends ok tr tr' → read_opted tr n → read_opted tr' n.
Proof. intros Hx (sec & Hs & ?). exists sec. split; [|done]. by eapply extends_in. Qed.

Lemma in_snoc tr (st : step) : st ∈ tr ++ [st].
Proof. apply elem_of_app. right. by apply list_elem_of_singleton. Qed.
Lemma in_snoc_later tr (st st' : step) : st ∈ tr → st ∈ tr ++ [st'].
Proof. intros. apply elem_of_app. by left. Qed.

(** The Role holds [rules] and the channel controls it: it was read or written
    so.  Where the cache showed no Role and the create found the name taken,
    the Role read next is the channel's, with the rules an earlier pass gave
    it. *)
Definition role_stands tr (name : string) (rules : list PolicyRule) : Prop :=
  (∃ r, ro_Controlled r = true ∧ Rules r = rules ∧
     (Step (GetRole name) (inl r) ∈ tr ∨ Step (CreateRole name r) None ∈ tr ∨ Step (UpdateRole name r) None ∈ tr)) ∨
  ∃ r e cur, Rules r = rules ∧ Step (CreateRole name r) (Some e) ∈ tr ∧ IsAlreadyExists e = true ∧
    Step (GetRole name) (inl cur) ∈ tr ∧ ro_Controlled cur = true.

Lemma ensure_role_grants c name rules s tr : each (grants c) tr → role_allowed c tr name rules →
  mwp (ensure_role name rules) s tr (λ tr' s' r, s' = s ∧ each (grants c) tr' ∧ (r = inl () → role_stands tr' name rules)).
Proof.
  intros He Hr. unfold ensure_role, createRole, updateRole, requireControlled.
  assert (∀ b, role_allowed c (tr ++ [Step (GetRole name) b]) name rules) as Hr'.
  { intros b. eapply allowed_later; [|done]. by apply (extends_step (λ _, True)). }
  wp_step. wp_step. destruct b as [cur|e].
  - destruct (ro_Controlled cur) eqn:Ectl; run_writes; (split_and!; [done|repeat snoc; try done; apply Hr'|]); intros Hi; try done; left.
    + exists cur. split_and!; [done|by eapply bool_decide_eq_true_1|]. left. apply in_snoc.
    + eexists. split_and!; [| |right; right; apply in_snoc]; done.
  - run_writes; (split_and!; [done|repeat snoc; try done; apply Hr'|]); intros Hi; try done.
    + right. do 3 eexists. split_and!; [|apply in_snoc_later, in_snoc|done|apply in_snoc|done]. done.
    + left. eexists. split_and!; [| |right; left; apply in_snoc]; done.
Qed.

(** The gateway's ServiceAccount is bound to the Role, likewise. *)
Definition gateway_bound tr (c : ChannelObject) : Prop :=
  (∃ b, rb_Controlled b = true ∧ rb_RoleRef b = (rbacGroup, kindRole, channelRoleName (co_Name c)) ∧ rb_Subjects b = [(ServiceAccountKind, gatewayServiceAccount, operator)] ∧
     (Step (GetBinding (gatewayBindingName (co_Name c))) (inl b) ∈ tr ∨ Step (CreateBinding (gatewayBindingName (co_Name c)) b) None ∈ tr ∨
      Step (UpdateBinding (gatewayBindingName (co_Name c)) b) None ∈ tr)) ∨
  ∃ b e cur, Step (CreateBinding (gatewayBindingName (co_Name c)) b) (Some e) ∈ tr ∧ IsAlreadyExists e = true ∧
    Step (GetBinding (gatewayBindingName (co_Name c))) (inl cur) ∈ tr ∧ rb_Controlled cur = true.

Lemma ensure_binding_grants c s tr : each (grants c) tr →
  mwp (ensure_binding (gatewayBindingName (co_Name c)) (gateway_binding operator (co_Name c))) s tr
    (λ tr' s' r, s' = s ∧ each (grants c) tr' ∧ (r = inl () → gateway_bound tr' c)).
Proof.
  intros He. unfold ensure_binding, createBinding, requireControlled. wp_step. wp_step. destruct b as [cur|e].
  - destruct (rb_Controlled cur) eqn:Ectl; run_writes; (split_and!; [done|repeat snoc; try done; by right|]); intros Hi; try done; left.
    + apply andb_true_iff in Heqb as [E1%bool_decide_eq_true_1 E2%bool_decide_eq_true_1]. exists cur. split_and!; [done..|]. left. apply in_snoc.
    + eexists. split_and!; [| | |right; right; apply in_snoc]; done.
  - run_writes; (split_and!; [done|repeat snoc; try done; by right|]); intros Hi; try done.
    + right. do 3 eexists. split_and!; [apply in_snoc_later, in_snoc|done|apply in_snoc|done].
    + left. eexists. split_and!; [| | |right; left; apply in_snoc]; done.
Qed.

Lemma stands_later ok tr tr' name rules : extends ok tr tr' → role_stands tr name rules → role_stands tr' name rules.
Proof.
  intros Hx [(r & ? & ? & H)|(r & e & cur & ? & H & ? & H' & ?)];
    [left; exists r; split_and!; [done|done|]; destruct H as [H|[H|H]]|right; exists r, e, cur; split_and!; try done]; eauto using extends_in.
Qed.

(** What a finished [ensureCredentialRole] leaves: a Role that reads the named
    Secrets, all of them and no other, bound to the gateway. *)
Definition granted tr (c : ChannelObject) (names : list string) : Prop :=
  (∃ rules, role_stands tr (channelRoleName (co_Name c)) rules ∧ reads_named (λ n, n ∈ names) rules ∧ named rules = names) ∧
  gateway_bound tr c.

Lemma credential_role_grants names s tr : each (grants (m_channel s)) tr →
  (∀ n, n ∈ names → n ∈ authSecretNames (co_Spec (m_channel s)) ∧ read_opted tr n) →
  mwp (ensureCredentialRole operator names) s tr (λ tr' s' r,
    s' = s ∧ each (grants (m_channel s)) tr' ∧ (r = inl () → granted tr' (m_channel s) names)).
Proof.
  intros He Hn. unfold ensureCredentialRole. wp_step. wp_step. wp_step.
  eapply mwp_mono; [apply ensure_role_grants; [exact He|right; split; [done|by apply credential_rules_named]]|]. intros tr1 s1 r (-> & He1 & Hs). destruct r as [[]|e]; [|done].
  specialize (Hs eq_refl). eapply mwp_mono; [apply mwp_and; [by apply ensure_binding_grants|apply only_binding]|].
  intros tr2 s2 r ((-> & He2 & Hb) & Hx). split_and!; [done|done|]. intros ->. split; [|by apply Hb].
  exists (credential_rules names). split; [by eapply stands_later|by apply credential_rules_named].
Qed.

Lemma access_grants c s tr : each (grants c) tr →
  mwp (ensureControllerSecretAccess operator (channelCheckRoleName (co_Name c)) (authSecretNames (co_Spec c))) s tr
    (λ tr' s' _, s' = s ∧ each (grants c) tr').
Proof.
  intros He. unfold ensureControllerSecretAccess, found, requireControlled.
  destruct (sort_strings (authSecretNames (co_Spec c))) as [|n names] eqn:Es.
  - unfold delete_answer. run_writes; (split; [done|]); repeat snoc; done.
  - assert (∀ pre, role_allowed c pre (channelCheckRoleName (co_Name c)) [secrets_rule (n :: names)]) as Hr.
    { assert (n :: names ≡ₚ authSecretNames (co_Spec c)) as Hperm by (rewrite <- Es; apply merge_sort_Permutation).
      intros pre. left. split; [done|]. cbn. rewrite List.app_nil_r. split; [|done].
      intros r ->%list_elem_of_singleton. split_and!; [done..|]. intros m Hm. by rewrite <- Hperm. }
    assert (binding_allowed c (channelCheckRoleName (co_Name c)) (mk_binding true (rbacGroup, kindRole, channelCheckRoleName (co_Name c))
      [(ServiceAccountKind, controllerServiceAccount, operator)])) as Hb by by left.
    unfold createRole, createBinding, updateRole, requireControlled. run_writes; (split; [done|]); repeat snoc; try done; first [apply Hr|exact Hb].
Qed.

(** ** Reading the Secrets *)

Definition read_evidence tr (n : string) (read : channelSecretRead) : Prop :=
  match read with inl sec => Step (GetSecret n) (inl sec) ∈ tr | inr _ => True end.

Lemma evidence_later ok tr tr' n read : extends ok tr tr' → read_evidence tr n read → read_evidence tr' n read.
Proof. intros Hx. destruct read; [|done]. cbn. by eapply extends_in. Qed.

Lemma secret_live_spec k last n s tr : (∃ e, last = inr e) →
  mwp (getSecretLive k last n) s tr (λ tr' s' r, s' = s ∧ ∃ read, r = inl read ∧ read_evidence tr' n read).
Proof.
  revert last tr. induction k as [|k IH]; intros last tr [e ->]; cbn [getSecretLive].
  { wp_step. split; [done|]. by exists (inr e). }
  wp_step. wp_step. destruct b as [sec|e'].
  - wp_step. split; [done|]. exists (inl sec). split; [done|]. apply in_snoc.
  - destruct (IsForbidden e'); [|wp_step; split; [done|by exists (inr e')]].
    wp_step. wp_step. destruct b as [text|]; [wp_step; split; [done|by eexists (inr _)]|]. apply IH. by eexists.
Qed.

(** Every Secret was read, and the labelled ones are listed in order. *)
Definition reads_of tr (names : list string) (reads : gmap string channelSecretRead) : Prop :=
  ∀ n, n ∈ names → ∃ read, reads !! n = Some read ∧ read_evidence tr n read.
Definition labelled (reads : gmap string channelSecretRead) (names : list string) : list string :=
  List.filter (λ n, match reads !! n with Some read => opted_in read | None => false end) names.

Lemma read_secrets_spec names reads optedIn s tr : NoDup names → (∀ n, n ∈ names → reads !! n = None) →
  mwp (read_secrets names reads optedIn) s tr (λ tr' s' r, s' = s ∧ ∃ reads', r = inl (reads', optedIn ++ labelled reads' names) ∧
    reads_of tr' names reads' ∧ ∀ n, n ∉ names → reads' !! n = reads !! n).
Proof.
  revert reads optedIn tr. induction names as [|n names IH]; intros reads optedIn tr Hnd Hfresh; cbn [read_secrets].
  { wp_step. split; [done|]. exists reads. rewrite List.app_nil_r. split_and!; [done| |done]. intros m Hm. by apply not_elem_of_nil in Hm. }
  apply list.NoDup_cons in Hnd as [Hn Hnd]. wp_step.
  eapply mwp_mono; [apply secret_live_spec; by eexists|]. intros tr1 s1 r (-> & read & -> & Hev).
  eapply mwp_mono; [apply mwp_and; [apply IH; [done|]|apply only_secrets]|].
  { intros m Hm. rewrite lookup_insert_ne by set_solver. apply Hfresh. by right. }
  intros tr2 s2 r ((-> & reads' & -> & Hreads & Hold) & Hx). split; [done|]. exists reads'.
  assert (reads' !! n = Some read) as Hn' by (by rewrite Hold, lookup_insert_eq).
  split_and!.
  - unfold labelled. cbn [List.filter]. rewrite Hn'. by destruct (opted_in read); rewrite <- ?List.app_assoc.
  - intros m [->|Hm]%elem_of_cons; [|by apply Hreads]. exists read. split; [done|]. by eapply evidence_later.
  - intros m Hm. rewrite Hold by set_solver. rewrite lookup_insert_ne; set_solver.
Qed.

Lemma auth_names_nodup sp : NoDup (authSecretNames sp).
Proof. unfold authSecretNames, sort_strings. rewrite merge_sort_Permutation. apply NoDup_elements. Qed.

Lemma labelled_opted tr names reads n : reads_of tr names reads → n ∈ labelled reads names → n ∈ names ∧ read_opted tr n.
Proof.
  intros Hr. unfold labelled. rewrite list_elem_of_In, List.filter_In, <- list_elem_of_In. intros [Hn H]. split; [done|].
  destruct (Hr n Hn) as (read & E & Hev). rewrite E in H. destruct read as [sec|]; [|done]. by exists sec.
Qed.

Lemma bound_later ok tr tr' c : extends ok tr tr' → gateway_bound tr c → gateway_bound tr' c.
Proof.
  intros Hx [(b & ? & ? & ? & Hin)|(b & e & cur & Hin & ? & Hin' & ?)];
    [left; exists b; split_and!; [done..|]; destruct Hin as [Hin|[Hin|Hin]]|right; exists b, e, cur; split_and!; try done]; eauto using extends_in.
Qed.
Lemma granted_later ok tr tr' c names : extends ok tr tr' → granted tr c names → granted tr' c names.
Proof. intros Hx [(rules & Hr & ?) Hb]. split; [exists rules; split; [by eapply stands_later|done]|by eapply bound_later]. Qed.
Lemma reads_later ok tr tr' names reads : extends ok tr tr' → reads_of tr names reads → reads_of tr' names reads.
Proof. intros Hx Hr n Hn. destruct (Hr n Hn) as (read & ? & Hev). exists read. split; [done|]. by eapply evidence_later. Qed.

(** What a pass over the Roles that reports no failed write comes to. *)
Definition scoped tr (c : ChannelObject) (cred : failure_of) : Prop :=
  (∃ msg, cred = Some (ReasonChildConflict, msg) ∨ cred = Some (ReasonChildWriteRejected, msg)) ∨
  ∃ reads, reads_of tr (authSecretNames (co_Spec c)) reads ∧ granted tr c (labelled reads (authSecretNames (co_Spec c))) ∧
    cred = checkChannelSecrets (co_Namespace c) (co_Spec c) reads.

Lemma reason_scoped e s tr Q : (∀ cred, (∃ msg, cred = Some (ReasonChildConflict, msg) ∨ cred = Some (ReasonChildWriteRejected, msg)) → Q tr s (inl cred)) →
  (∀ e, Q tr s (inr e)) → mwp (roleWriteReason e) s tr Q.
Proof. intros H1 H2. unfold roleWriteReason. run_writes; [apply H1; eauto..|apply H2]. Qed.

Lemma scope_spec s tr : each (grants (m_channel s)) tr → mwp (scopeCredentialRoles operator) s tr (λ tr' s' r,
  s' = s ∧ each (grants (m_channel s)) tr' ∧ ∀ cred, r = inl cred → scoped tr' (m_channel s) cred).
Proof.
  intros He. unfold scopeCredentialRoles. wp_step. wp_step. wp_step. wp_step.
  eapply mwp_mono; [by apply access_grants|]. intros tr1 s1 r (-> & He1). destruct r as [_|e].
  - wp_step. unfold validateSecrets, readChannelSecrets. repeat wp_step.
    eapply mwp_mono; [apply mwp_and; [apply read_secrets_spec; [apply auth_names_nodup|by intros; rewrite lookup_empty]|apply only_secrets]|].
    intros tr2 s2 r ((-> & reads & -> & Hreads & _) & Hx). repeat wp_step.
    assert (each (grants (m_channel s)) tr2) as He2 by (eapply each_within; [|done|done]; intros ??; apply within_grants; set_solver).
    eapply mwp_mono; [apply mwp_and; [apply credential_role_grants; [done|intros n; apply labelled_opted, Hreads]|apply only_cred]|].
    intros tr3 s3 r ((-> & He3 & Hg) & Hx3). destruct r as [[]|e].
    + wp_step. split_and!; [done|done|]. intros cred [= <-]. right. exists reads. split_and!; [by eapply reads_later|by apply Hg|done].
    + apply reason_scoped; [|done]. intros cred Hc. split_and!; [done|done|]. intros ? [= <-]. by left.
  - wp_step. wp_step. eapply mwp_mono; [apply credential_role_grants; [done|intros n Hn; by apply not_elem_of_nil in Hn]|].
    intros tr2 s2 r (-> & He2 & _). destruct r as [[]|e'].
    all: apply reason_scoped; [|done]; intros cred Hc; split_and!; [done|done|]; intros ? [= <-]; by left.
Qed.
End grants.

(** What a pass over a channel writes: the Roles follow the Secret labels and
    Ready follows the checks. *)


#[local] Existing Instance ChannelReconcile.M_ret.
#[local] Existing Instance ChannelReconcile.M_bind.

Section earned.
Context {U : Unicode} {F : FoldTable} {P : UrlParser} {SC : StatusConditions}.
Context (operator : string) (policy : Policy) (health : bool).
Implicit Types (tr pre : list step) (s : memory).

(** Every resolved address of the callback host is allowed. *)
Definition callback_cleared tr (c : ChannelObject) : Prop :=
  ∀ w raw, Webhook (co_Spec c) = Some w → wh_CallbackURL w = Some raw →
    ∃ host looked, callback_target raw = Some host ∧ Step (LookupIP host) looked ∈ tr ∧
      ∀ ips ip, looked = Some ips → ip ∈ ips → Allowed policy host ip = true.

(** Every other channel listed on the path is younger, or as old with a later
    name.  Where the listing failed the code does not check. *)
Definition path_won tr (c : ChannelObject) : Prop :=
  (∃ others, Step (ListOnPath (Path (co_Spec c))) (inl others) ∈ tr ∧
     ∀ o, o ∈ others → co_Name o = co_Name c ∨ key_le (cached c) (cached o)) ∨
  ∃ e, Step (ListOnPath (Path (co_Spec c))) (inr e) ∈ tr.

Lemma wins_precedes (o c : ChannelObject) : wins_over o c = channelPrecedes (cached o) (cached c).
Proof.
  unfold wins_over, channelPrecedes, Before. cbn. destruct (Z.eqb_spec (co_Created o) (co_Created c)) as [->|]; cbn; [by rewrite Z.ltb_irrefl|].
  apply orb_false_r.
Qed.

Lemma conflict_won c others : check_conflict c others = None → ∀ o, o ∈ others → co_Name o = co_Name c ∨ key_le (cached c) (cached o).
Proof.
  unfold check_conflict. destruct (List.find _ others) as [|] eqn:E; [done|]. intros _ o Ho. apply list_elem_of_In in Ho.
  apply (List.find_none _ _ E) in Ho. destruct (String.eqb_spec (co_Name o) (co_Name c)) as [En|En]; cbn in Ho; [by left|right].
  apply not_precedes. by rewrite <- wins_precedes.
Qed.

Definition earned tr (c : ChannelObject) : Prop :=
  (∃ agent, Step (GetAgent (AgentRef (co_Spec c))) (inl agent) ∈ tr ∧ agentServiceEnabled agent = true) ∧
  HasPrefix (Path (co_Spec c)) (channel_prefix (co_Namespace c)) = true ∧
  path_won tr c ∧
  (∃ reads, reads_of tr (authSecretNames (co_Spec c)) reads ∧ checkChannelSecrets (co_Namespace c) (co_Spec c) reads = None ∧
     granted operator tr c (labelled reads (authSecretNames (co_Spec c)))) ∧
  callback_cleared tr c.

(** What the gateway would route. *)
Definition status_earned (pre : list step) (st : step) : Prop :=
  match st with Step call _ =>
    match call with
    | UpdateStatus c => co_Deletion c = None → channelReady (cached c) = true → earned pre c
    | _ => True
    end
  end.

Lemma within_status (l : list call_kind) pre st : StatusWrite ∉ l → kind_of st ∈ l → status_earned pre st.
Proof. intros Hl Hin. destruct st as [B call b]. by destruct call. Qed.

(** *** The parts *)

Lemma refused_none host ips ip : refused_address policy host ips = None → ip ∈ ips → Allowed policy host ip = true.
Proof.
  induction ips as [|x ips IH]; cbn; [intros _ H; by apply not_elem_of_nil in H|]. destruct (Allowed policy host x) eqn:E; [|done].
  intros H [->|Hin]%elem_of_cons; auto.
Qed.

Lemma note_spec host s tr : mwp (noteCallbackResolution host) s tr (λ tr' s' r, m_channel s' = m_channel s ∧ r = inl ()).
Proof. unfold mwp, noteCallbackResolution. destruct (host =? "")%string; [done|]. case_bool_decide; [done|]. by intros b _. Qed.

Lemma callback_spec raw s tr : mwp (validateCallbackURL policy raw) s tr (λ tr' s' r, s' = s ∧ ∀ h, r = inl (inr h) →
  ∃ host looked, callback_target raw = Some host ∧ Step (LookupIP host) looked ∈ tr' ∧
    ∀ ips ip, looked = Some ips → ip ∈ ips → Allowed policy host ip = true).
Proof.
  unfold validateCallbackURL. destruct (callback_target raw) as [host|]; [|wp_step; by split].
  repeat wp_step. split; [done|]. intros h E. exists host, b. split_and!; [done|apply in_snoc|]. intros ips ip -> Hin.
  unfold callback_answer in E. destruct (refused_address policy host ips) eqn:Er; [done|]. by eapply refused_none.
Qed.

Definition valid_evidence tr (c : ChannelObject) (agent : AgentView) (cred : failure_of) : Prop :=
  cred = None ∧ agentServiceEnabled agent = true ∧ HasPrefix (Path (co_Spec c)) (channel_prefix (co_Namespace c)) = true ∧
  path_won tr c ∧ callback_cleared tr c.

Lemma cleared_later ok tr tr' c : extends ok tr tr' → callback_cleared tr c → callback_cleared tr' c.
Proof.
  intros Hx H w raw Hw Hr. destruct (H w raw Hw Hr) as (host & looked & ? & Hs & ?). exists host, looked. split_and!; [done| |done].
  by eapply extends_in.
Qed.
Lemma won_later ok tr tr' c : extends ok tr tr' → path_won tr c → path_won tr' c.
Proof. intros Hx [(listed & Hs & ?)|(e & Hs)]; [left; exists listed; split; [|done]|right; exists e]; by eapply extends_in. Qed.

Lemma finish_valid c agent s tr host : m_channel s = c → valid_evidence tr c agent None →
  mwp (noteCallbackResolution host;; mret (None : failure_of)) s tr (λ tr' s' r, m_channel s' = c ∧ (r = inl None → valid_evidence tr' c agent None)).
Proof.
  intros <- (_ & Ha & Hp & Hw & Hc). wp_step. eapply mwp_mono; [apply mwp_and; [apply note_spec|apply only_note]|].
  intros tr' s' r [[Es ->] Hx]. wp_step. split; [done|]. intros _. split_and!; [done..|by eapply won_later|by eapply cleared_later].
Qed.

Lemma validate_spec agent cred s tr : mwp (validateChannel policy agent cred) s tr (λ tr' s' r,
  m_channel s' = m_channel s ∧ (r = inl None → valid_evidence tr' (m_channel s) agent cred)).
Proof.
  unfold validateChannel. wp_step. wp_step. destruct (agentServiceEnabled agent) eqn:Ea; cbn [negb]; [|wp_step; by split].
  destruct (check_path _ _) as [e|] eqn:Ep; [wp_step; by split|].
  assert (HasPrefix (Path (co_Spec (m_channel s))) (channel_prefix (co_Namespace (m_channel s))) = true) as Hp.
  { unfold check_path in Ep. destruct (_ =? "")%string; [done|]. by destruct (HasPrefix _ _). }
  wp_step. wp_step. match goal with |- mwp (match ?x with _ => _ end) _ _ _ => destruct x as [e|] eqn:Ec; [wp_step; by split|] end.
  assert (path_won (tr ++ [Step (ListOnPath (Path (co_Spec (m_channel s)))) b]) (m_channel s)) as Hw.
  { destruct b as [others|e]; [left; exists others|right; exists e; apply in_snoc]. split; [apply in_snoc|by apply conflict_won]. }
  destruct cred as [e|]; [wp_step; by split|]. wp_step.
  destruct (Webhook (co_Spec (m_channel s))) as [w|] eqn:Ew; [destruct (wh_CallbackURL w) as [raw|] eqn:Er|].
  - eapply mwp_mono; [apply mwp_and; [apply callback_spec|]|].
    { apply (only_sub [Reading] [Reading]); [done|]. unfold validateCallbackURL. only_with ltac:(by vm_compute). }
    intros tr1 s1 r [[-> Hc] Hx]. destruct r as [[e|h]|e]; [wp_step; by split| |by split].
    apply finish_valid; [done|]. split_and!; [done..|by eapply won_later|]. intros w' raw' Hw' Hr'. simplify_eq. by apply (Hc h).
  - wp_step. apply finish_valid; [done|]. split_and!; [done..|]. intros w' raw' Hw' Hr'. congruence.
  - wp_step. apply finish_valid; [done|]. split_and!; [done..|]. intros w' raw' Hw' Hr'. congruence.
Qed.

(** *** The status writes *)

Lemma ready_set c now st reason msg :
  channelReady (cached (set_status (λ x, set_conditions (SetCondition now (cs_Conditions x) (mk_status_condition ConditionReady st reason msg 0%Z)) x) c))
  = (st =? "True")%string.
Proof.
  unfold channelReady, cached. cbn -[FindCondition SetCondition].
  pose proof (find_condition_set now (cs_Conditions (co_Status c)) (mk_status_condition ConditionReady st reason msg 0%Z)) as H. cbn in H. rewrite H.
  cbn. by rewrite orb_false_r.
Qed.

Lemma write_status before s tr : each status_earned tr → (∀ b, status_earned tr (Step (UpdateStatus (m_channel s)) b)) →
  mwp (updateStatusIfChanged before) s tr (λ tr' _ _, each status_earned tr').
Proof.
  intros He Hs. unfold updateStatusIfChanged. wp_step. wp_step. case_bool_decide; [by wp_step|]. wp_step. wp_step.
  destruct b; wp_step; apply each_snoc; auto.
Qed.

Lemma prune_status sweepAll s tr : each status_earned tr → mwp (pruneAsyncConfigMaps sweepAll) s tr (λ tr' _ _, each status_earned tr').
Proof. intros He. eapply mwp_within; [|apply only_prune|exact He|done]. intros ??. apply within_status. set_solver. Qed.

Lemma mark_status before reason msg s tr : each status_earned tr →
  mwp (markChannelNotReady before reason msg) s tr (λ tr' _ _, each status_earned tr').
Proof.
  intros He. unfold markChannelNotReady, setChannelReady. cbv zeta. do 6 wp_step.
  eapply mwp_mono; [apply write_status|].
  - by apply each_snoc.
  - intros b'. unfold status_earned. cbn [m_channel]. by rewrite ready_set.
  - intros tr' s' r He'. destruct r as [[]|e]; [|done]. wp_step. destruct (readyFalseIsNew _ _); cbn [when].
    + wp_step. by apply prune_status, each_snoc.
    + wp_step. by apply prune_status.
Qed.

Lemma same_meta_refl c : same_meta c c.
Proof. by destruct c. Qed.
Lemma same_meta_edit f c c' : same_meta c c' → same_meta c (set_status f c').
Proof. unfold same_meta. intros ->. by destruct c. Qed.

Lemma earned_meta tr c c' : same_meta c c' → earned tr c → earned tr c'.
Proof. unfold same_meta. intros ->. by destruct c. Qed.

Lemma health_keeps s tr : mwp reduceChannelHealth s tr (λ tr' s' _, same_meta (m_channel s) (m_channel s')).
Proof.
  assert (∀ path l st s tr, mwp (scan_health path st l) s tr (λ _ s' _, s' = s)) as Hl.
  { intros path l. induction l as [|r l IH]; intros st s0 tr0; cbn [scan_health]; [by wp_step|]. wp_step.
    destruct (0 <? health_window r)%Z; wp_step; apply IH. }
  unfold reduceChannelHealth. repeat wp_step. destruct b as [[reachable total]|]; [|wp_step; apply same_meta_refl].
  destruct (_ || _); [wp_step; apply same_meta_refl|]. wp_step. eapply mwp_mono; [apply Hl|]. intros tr' s' [st|e] ->; [|apply same_meta_refl].
  destruct (health_verdict st); repeat wp_step; [apply same_meta_edit|]; apply same_meta_refl.
Qed.

Lemma earned_later ok tr tr' c : extends ok tr tr' → earned tr c → earned tr' c.
Proof.
  intros Hx ((agent & Hs & ?) & Hp & Hw & (reads & Hr & Hc & Hg) & Hcb). split_and!.
  - exists agent. split; [|done]. by eapply extends_in.
  - done.
  - by eapply won_later.
  - exists reads. split_and!; [by eapply reads_later|done|by eapply granted_later].
  - by eapply cleared_later.
Qed.

(** The end of a pass over a channel that passed its checks. *)
Lemma ready_tail before agent s tr : each status_earned tr → earned tr (m_channel s) →
  mwp (report_ready health before agent) s tr (λ tr' _ _, each status_earned tr').
Proof.
  intros He Hearn. unfold report_ready, setChannelReady. do 4 wp_step.
  set (tr1 := tr ++ [Step Now b]). assert (each status_earned tr1) as He1 by by apply each_snoc.
  assert (earned tr1 (m_channel s)) as Hearn1 by (eapply earned_later; [by apply (extends_step (λ _, True))|done]).
  assert (∀ tr' s', each status_earned tr' → earned tr' (m_channel s') →
    mwp (edit (set_phase (reducePhase agent));; updateStatusIfChanged before;; pruneAsyncConfigMaps false;; mret (Some Minute)) s' tr'
      (λ tr'' _ _, each status_earned tr'')) as Hend.
  { intros tr' s' He' Hearn'. wp_step. wp_step. wp_step. eapply mwp_mono; [apply write_status; [done|]|].
    - intros b' _ _. eapply earned_meta; [|exact Hearn']. apply same_meta_edit, same_meta_refl.
    - intros tr2 s2 [[]|e] He2; [|done]. wp_step. eapply mwp_mono; [by apply prune_status|]. intros tr3 s3 [[]|e] He3; [by wp_step|done]. }
  assert (earned tr1 (set_status (λ st, set_conditions (SetCondition b (cs_Conditions st)
    (mk_status_condition ConditionReady ConditionTrue ReasonAgentReachable "channel is valid" 0%Z)) st) (m_channel s))) as Hearn2.
  { eapply earned_meta; [|exact Hearn1]. apply same_meta_edit, same_meta_refl. }
  destruct health; cbn [when].
  - eapply mwp_mono; [apply mwp_and; [apply health_keeps|apply only_health]|]. intros tr2 s2 r [Hm Hx].
    assert (each status_earned tr2) as He2 by (eapply each_within; [|exact He1|exact Hx]; intros ??; apply within_status; set_solver).
    destruct r as [[]|e]; [|done]. apply Hend; [done|]. eapply earned_meta; [exact Hm|]. by eapply earned_later.
  - wp_step. by apply Hend.
Qed.

Lemma scoped_status before cred s tr : each status_earned tr → scoped operator tr (m_channel s) cred →
  mwp (reconcile_scoped policy health before cred) s tr (λ tr' _ _, each status_earned tr').
Proof.
  intros He Hs. unfold reconcile_scoped. wp_step. wp_step. wp_step. wp_step. rename b into a.
  assert (each status_earned (tr ++ [Step (GetAgent (AgentRef (co_Spec (m_channel s)))) a])) as Hea by by apply each_snoc.
  destruct a as [agent|e]; [|destruct (IsNotFound e); [|by wp_step]].
  2: { wp_step. wp_step. wp_step. eapply mwp_mono; [by apply mark_status|]. by intros tr' s' [[]|e'] H'. }
  wp_step. eapply mwp_mono; [apply mwp_and; [apply validate_spec|apply only_validate]|]. intros tr2 s2 r [[Em Hv] Hx2].
  assert (each status_earned tr2) as He2 by (eapply each_within; [|exact Hea|exact Hx2]; intros ??; apply within_status; set_solver).
  destruct r as [[[reason msg]|]|e]; [| |done].
  { do 5 wp_step. eapply mwp_mono; [by apply mark_status|]. by intros tr' s' [[]|e'] H'. }
  destruct (Hv eq_refl) as (-> & Ha & Hp & Hw & Hc). apply ready_tail; [done|]. rewrite Em.
  destruct Hs as [[msg [?|?]]|(reads & Hr & Hg & Hck)]; [done|done|].
  assert (extends (λ _, True) tr tr2) as Hx.
  { eapply extends_trans; [by apply (extends_step _ tr _ (GetAgent (AgentRef (co_Spec (m_channel s)))) (inl agent))|]. by eapply extends_mono; [|exact Hx2]. }
  split_and!; [|done|done| |done].
  - exists agent. split; [|done]. eapply extends_in; [exact Hx2|apply in_snoc].
  - exists reads. split_and!; [|done|by eapply granted_later]. by eapply reads_later.
Qed.

Lemma live_spec before s tr : each (grants operator (m_channel s)) tr → each status_earned tr →
  mwp (reconcile_live operator policy health before) s tr (λ tr' _ _, each (grants operator (m_channel s)) tr' ∧ each status_earned tr').
Proof.
  intros Hg He. unfold reconcile_live. wp_step.
  eapply mwp_mono; [apply mwp_and; [by apply scope_spec|apply only_scope]|]. intros tr1 s1 r ((-> & Hg1 & Hs) & Hx1).
  assert (each status_earned tr1) as He1 by (eapply each_within; [|exact He|exact Hx1]; intros ??; apply within_status; set_solver).
  destruct r as [cred|e]; [|done]. eapply mwp_mono; [apply mwp_and; [by apply scoped_status, Hs|apply only_scoped]|].
  intros tr2 s2 r [He2 Hx2]. split; [|done]. eapply each_within; [|exact Hg1|exact Hx2]. intros ??. apply within_grants. set_solver.
Qed.

Lemma delete_status s tr : each status_earned tr → is_Some (co_Deletion (m_channel s)) →
  mwp reconcileDelete s tr (λ tr' _ _, each status_earned tr').
Proof.
  intros He Hd. assert (only (within [Reading]) awaits_disconnect) as Hw.
  { unfold awaits_disconnect. only_with ltac:(by vm_compute). }
  assert (only (within [Reading; RecordDelete; ChannelWrite]) release) as Hr.
  { unfold release. only_with ltac:(by vm_compute). eapply only_sub; [|apply only_prune]. done. }
  unfold reconcileDelete. wp_step. wp_step. case_bool_decide; cbn [negb]; [|by wp_step]. wp_step.
  eapply (mwp_mono _ _ _ (λ tr' _ _, each status_earned tr')).
  { unfold announce. wp_step. wp_step. destruct (_ =? ChannelTerminating)%string; [by wp_step|]. repeat wp_step.
    destruct b; wp_step; apply each_snoc; try done; cbn; intros E; rewrite E in Hd; by destruct Hd. }
  intros tr1 s1 r He1. destruct r as [[]|e]; [|done]. wp_step.
  eapply mwp_within; [|exact Hw|exact He1|]; [intros ??; apply within_status; set_solver|]. intros tr2 s2 r He2 _. destruct r as [[]|e]; [by wp_step| |done].
  eapply mwp_within; [|exact Hr|exact He2|done]. intros ??; apply within_status; set_solver.
Qed.

Lemma found_writes c s tr : each (grants operator c) tr → each status_earned tr →
  mwp (reconcile_found operator policy health c) s tr (λ tr' _ _, each (grants operator c) tr' ∧ each status_earned tr').
Proof.
  intros Hg He. unfold reconcile_found. wp_step. wp_step. case_bool_decide as Hd.
  { eapply mwp_mono; [apply mwp_and; [by apply delete_status|apply only_delete]|]. intros tr' s' r [? Hx]. split; [|done].
    eapply each_within; [|exact Hg|exact Hx]. intros ??. apply within_grants. set_solver. }
  case_bool_decide as Hf; cbn [negb].
  - cbv zeta. wp_step. wp_step. destruct (_ =? operator)%string.
    + do 3 wp_step. eapply mwp_mono; [apply mwp_and; [by apply mark_status|apply only_mark]|]. intros tr' s' r [? Hx].
      assert (each (grants operator c) tr') by (eapply each_within; [|exact Hg|exact Hx]; intros ??; apply within_grants; set_solver).
      destruct r; [by wp_step|done].
    + eapply mwp_mono; [by apply live_spec; [destruct c|]|]. intros tr' s' r. by destruct c.
  - wp_step. wp_step. destruct b; repeat wp_step; (split; by apply each_snoc).
Qed.
End earned.
