(* ===== verification/ChannelClaims.v ===== *)
(** What the AgentChannel reconciler promises: its Roles, its Ready
    condition, the channel that holds a path, and that what it calls Ready
    works at the gateway.

    The last part ties the checks of the controller to the gateway's use of
    the same credentials. *)

From stdpp Require Import base gmap list strings option.
From Stdlib Require Import ZArith Lia Ascii.
From S2P Require Import CallbackPolicy Prelude GoFloat GoTime Json JsonString ProblemList BudgetReducer Conditions AgentLifecycle TaskReconcile Rfc3339 ChannelHealth Sha256 ChannelApi ChannelAuth AsyncDelivery Discord WhatsApp ChannelCheck ChannelReconcile ChannelTrace ChannelGrants.

Section pass.
Context {U : Unicode} {F : FoldTable} {P : UrlParser} {SC : StatusConditions}.
Context (operator : string) (policy : Policy) (health : bool).

(** C11: whatever the answers, every Role a pass writes for a channel is one of
    two: the controller's check Role over exactly the Secrets the channel
    names, or the gateway's Role over Secrets the channel names and the pass
    read with the opt-in label before.  Every rule of either only reads
    Secrets and names at least one, since a rule with no names would be one
    over every Secret of the namespace.  Every RoleBinding binds the check Role
    to the controller alone or the gateway's Role to the gateway alone. *)
Theorem grants_follow_labels ans s c :
  honest_answers ans →
  ans _ [] GetChannel = inl c →
  each (grants operator c) (exec ans [] (Reconcile operator policy health s)).1.
Proof.
  intros Hh E. rewrite exec_reconcile, E.
  exact (proj1 (wp_exec ans _ _ _ Hh (found_writes operator policy health c s [Step GetChannel (inl c)] ltac:(by apply each_one) ltac:(by apply each_one)))).
Qed.

End pass.

(** ** Who holds a path *)

Section path.
Context {U : Unicode} {SC : StatusConditions}.
Implicit Types (c o : ChannelObject).

Definition least (l : list ChannelObject) c : Prop := ∀ o, o ∈ l → key_le (cached c) (cached o).

Lemma key_le_refl (a : AgentChannel) : key_le a a.
Proof. right. split; [done|reflexivity]. Qed.

Lemma key_le_total (a b : AgentChannel) : key_le a b ∨ key_le b a.
Proof. destruct (channelPrecedes b a) eqn:E; [right; by apply precedes_le|left; by apply not_precedes]. Qed.

Lemma key_le_name (a b : AgentChannel) : key_le a b → key_le b a → ch_Name a = ch_Name b.
Proof. intros [?|[? H1]] [?|[? H2]]; try lia. by apply (anti_symm String.le). Qed.

Lemma name_unique l c o : NoDup (map co_Name l) → c ∈ l → o ∈ l → co_Name c = co_Name o → c = o.
Proof.
  intros Hnd Hc Ho E. apply list_elem_of_lookup in Hc as [i Hi], Ho as [j Hj].
  assert (i = j) as ->; [|congruence]. eapply (NoDup_lookup (map co_Name l)); [done| |]; rewrite list_lookup_fmap; [by rewrite Hi|rewrite Hj; cbn; by rewrite E].
Qed.

Lemma conflict_least l c : NoDup (map co_Name l) → c ∈ l → check_conflict c l = None ↔ least l c.
Proof.
  intros Hnd Hc. unfold check_conflict. split.
  - destruct (List.find _ l) as [|] eqn:E; [done|]. intros _ o Ho. apply list_elem_of_In in Ho as Ho'. apply (List.find_none _ _ E) in Ho'.
    destruct (String.eqb_spec (co_Name o) (co_Name c)) as [En|En]; cbn in Ho'.
    + rewrite (name_unique l o c) by done. apply key_le_refl.
    + apply not_precedes. by rewrite <- wins_precedes.
  - intros Hl. destruct (List.find _ l) as [o|] eqn:E; [|done]. apply List.find_some in E as [Ho [Hn Hw]%andb_true_iff]. exfalso.
    rewrite wins_precedes in Hw. apply list_elem_of_In in Ho. apply Hl, not_precedes in Ho. congruence.
Qed.

Lemma least_exists l : l ≠ [] → ∃ c, c ∈ l ∧ least l c.
Proof.
  induction l as [|c l IH]; [done|]. intros _. destruct (decide (l = [])) as [->|Hl].
  { exists c. split; [by left|]. intros o ->%list_elem_of_singleton. apply key_le_refl. }
  destruct (IH Hl) as (m & Hm & Hle). destruct (key_le_total (cached c) (cached m)) as [H|H].
  - exists c. split; [by left|]. intros o [->|Ho]%elem_of_cons; [apply key_le_refl|]. eapply key_le_trans; [exact H|by apply Hle].
  - exists m. split; [by right|]. intros o [->|Ho]%elem_of_cons; [done|by apply Hle].
Qed.

(** C16: of the channels of a namespace registered at one path, exactly one
    passes the reconciler's conflict check, and while its status makes it
    routable the gateway routes the path to that one, whichever of the others
    are Ready and whatever order they are listed in: the two sides agree on
    who holds a path. *)
Theorem path_holder_agreed l l' path :
  NoDup (map co_Name l) →
  l ≠ [] →
  l' ≡ₚ l →
  ∃ c, c ∈ l ∧ (∀ o, o ∈ l → check_conflict o l = None ↔ o = c) ∧
    (routable path (cached c) = true → ChannelByPath (Some (map cached l')) path = Some (cached c)).
Proof.
  intros Hnd Hl Hp. destruct (least_exists l Hl) as (c & Hc & Hle). exists c. split; [done|].
  assert (∀ o, o ∈ l → key_le (cached o) (cached c) → o = c) as Huniq.
  { intros o Ho H. apply (name_unique l); [done..|]. exact (key_le_name _ _ H (Hle o Ho)). }
  split.
  - intros o Ho. rewrite conflict_least by done. split; [intros H; by apply Huniq, H|by intros ->].
  - intros Hr. unfold ChannelByPath. pose proof (pick_least path (map cached l')) as H. destruct (foldl _ None _) as [w|].
    + destruct H as (Hw & _ & Hmin). apply list_elem_of_fmap in Hw as (o & -> & Ho). rewrite Hp in Ho. do 2 f_equal. apply Huniq; [done|].
      apply Hmin; [|done]. apply list_elem_of_fmap. exists c. by rewrite Hp.
    + rewrite (H (cached c)) in Hr; [done|]. apply list_elem_of_fmap. exists c. by rewrite Hp.
Qed.
End path.

(** ** A live channel *)

Module PassRun.
#[local] Existing Instance plain_unicode.
#[local] Existing Instance map_status_conditions.
#[local] Existing Instance ReleaseRun.no_fold.
#[local] Existing Instance ReleaseRun.no_urls.

Definition hook (name : string) (created : Time) : ChannelObject :=
  mk_channel_object "team" name ("uid-" +:+ name) created 2%Z None [ChannelFinalizer] ∅ ReleaseRun.spec (mk_channel_status 1%Z "" ∅).
Definition channel : ChannelObject := hook "hook" (1000 * Second)%Z.

(** Two Secrets exist; the one the channel names carries the label. *)
Definition token : Secret := mk_secret {[LabelChannelCredential := AnnotationTrue]} ∅ {["token" := "s3cret"]}.

Definition world : cluster :=
  mk_cluster (5001 * Second)%Z (inl channel) (inl (mk_agent_view "bot" AgentRunning None)) (λ _, inr not_found) (λ _, inr not_found)
    (λ _, inl token) [channel] None None [] (λ _ _, false).

Definition start : memory := mk_memory channel ∅.
Definition trace : list step := (exec (still world) [] (Reconcile "kaalm-system" default_policy false start)).1.

Definition role_writes (tr : list step) : list (string * list PolicyRule) :=
  omap (λ st, match st with Step c _ => match c with CreateRole n r | UpdateRole n r => Some (n, Rules r) | _ => None end end) tr.
Definition ready_writes (tr : list step) : list bool :=
  omap (λ st, match st with Step c _ => match c with UpdateStatus c => Some (channelReady (cached c)) | _ => None end end) tr.

Lemma grants_follow_labels_witness :
  honest_answers (still world) ∧ each (grants "kaalm-system" channel) trace ∧
  role_writes trace = [("kaalm-channel-hook-check", [secrets_rule ["hook"]]); ("kaalm-channel-hook-creds", [secrets_rule ["hook"]])].
Proof.
  split; [apply still_honest|]. split; [|vm_compute; reflexivity].
  apply (grants_follow_labels "kaalm-system" default_policy false (still world) start channel); [apply still_honest|reflexivity].
Defined.


Definition rivals : list ChannelObject := [hook "late" (2000 * Second)%Z; hook "b" (1000 * Second)%Z; hook "a" (1000 * Second)%Z].

Lemma path_holder_agreed_witness :
  map (λ c, bool_decide (check_conflict c rivals = None)) rivals = [false; false; true] ∧
  ∃ c, c ∈ rivals ∧ (∀ o, o ∈ rivals → check_conflict o rivals = None ↔ o = c) ∧
    (routable "/channels/team/hook" (cached c) = true →
     ChannelByPath (Some (map cached (reverse rivals))) "/channels/team/hook" = Some (cached c)).
Proof.
  split; [vm_compute; reflexivity|]. apply path_holder_agreed; [|done|apply reverse_Permutation].
  apply (bool_decide_eq_true_1 (NoDup (map co_Name rivals))). vm_compute. reflexivity.
Defined.
End PassRun.

(** What the reconciler's Secret checks are worth at the gateway, and how long
    a record of the gateway lives under the controller's prunes. *)


Section credentials.
Context {U : Unicode} {F : FoldTable} {P : UrlParser}.
Context (secret : string → string → Secret + string) (ns : string) (reads : gmap string channelSecretRead).

(** The gateway reads the Secrets the reconciler read. *)
Definition same_secrets : Prop := ∀ n sec, reads !! n = Some (inl sec) → secret ns n = inl sec.

Lemma readOf_inl n sec : readOf reads n = inl sec → reads !! n = Some (inl sec).
Proof. unfold readOf. by destruct (reads !! n) as [[]|]; cbn; intros [= ->]. Qed.

Lemma first_failure_none {A} (f : A → failure_of) l x : first_failure f l = None → x ∈ l → f x = None.
Proof.
  induction l as [|y l IH]; cbn; [intros _ H; by apply not_elem_of_nil in H|]. destruct (f y) eqn:E; [done|].
  intros H [->|Hin]%elem_of_cons; auto.
Qed.

(** A reference that passed is a value the gateway reads. *)
Lemma checked_ref missing empty host ref : same_secrets → check_ref ns reads missing empty host ref = None →
  ∃ sec v, secret ns (sk_Name ref) = inl sec ∧ ChannelCredentialOptedIn (sec_Labels sec) = true ∧
    (host ≠ "" → CallbackHostApproved (sec_Annotations sec) host = true) ∧ v ≠ "" ∧ secretKey sec ns (sk_Name ref) (sk_Key ref) = inl v.
Proof.
  intros Hs. unfold check_ref. destruct (readOf reads (sk_Name ref)) as [sec|e] eqn:Er; [|done].
  destruct (ChannelCredentialOptedIn _) eqn:Eo; cbn [negb]; [|done].
  destruct (negb (host =? "")%string && _) eqn:Eh; [done|]. destruct (sec_Data sec !! sk_Key ref) as [v|] eqn:Ev; [|done].
  destruct (String.eqb_spec v "") as [|Hv]; [done|]. intros _. exists sec, v. split_and!; [by apply Hs, readOf_inl|done| |done|].
  - intros Hh. apply String.eqb_neq in Hh. rewrite Hh in Eh. by destruct (CallbackHostApproved _ _).
  - unfold secretKey. rewrite Ev. by rewrite (proj2 (String.eqb_neq v "") Hv).
Qed.

(** The blocks CRD validation admits: a type with its reference. *)
Definition auth_formed (a : ChannelAuth) : Prop :=
  (ca_Type a = authTypeBearer ∧ ca_SecretRef a ≠ None) ∨ (ca_Type a = authTypeHMAC ∧ ca_HMAC a ≠ None).

Lemma inbound_works missing empty host a : same_secrets → auth_formed a →
  first_failure (check_ref ns reads missing empty host) (authSecretRefs a) = None →
  ∃ v, v ≠ "" ∧ channelSecret (SecretValue secret) ns a = inl v.
Proof.
  intros Hs Ha Hc. assert (∀ ref, ref ∈ authSecretRefs a → ∃ v, v ≠ "" ∧ SecretValue secret ns (sk_Name ref) (sk_Key ref) = inl v) as Href.
  { intros ref Hin. destruct (checked_ref _ _ _ ref Hs (first_failure_none _ _ _ Hc Hin)) as (sec & v & E & Eo & _ & Hv & Ek).
    exists v. split; [done|]. unfold SecretValue, channelCredential. by rewrite E, Eo. }
  unfold channelSecret, authSecretRefs in *. destruct Ha as [[-> H]|[-> H]]; cbn.
  - destruct (ca_SecretRef a) as [r|]; [|done]. apply Href. by left.
  - destruct (ca_HMAC a) as [h|]; [|done]. apply Href. apply elem_of_app. right. by left.
Qed.

Lemma callback_works channel w a raw host : same_secrets → ch_Namespace channel = ns → wh_CallbackURL w = Some raw → wh_CallbackAuth w = Some a →
  auth_formed a → callbackHost raw = host → host ≠ "" → check_callback ns reads w = None →
  ∃ v, v ≠ "" ∧ callbackSecret secret channel w host = inl v.
Proof.
  intros Hs Hn Hu Ha Hf Hh Hne. unfold check_callback. rewrite Hu, Ha. destruct (names_no_secret a); [done|]. rewrite Hh.
  destruct (first_failure _ _) as [[]|] eqn:Ec; [done|]. intros _. unfold callbackSecret. rewrite Ha, Hn.
  destruct Hf as [[Et Hr]|[Et Hr]]; rewrite Et in Ec |- *.
  - cbn -[first_failure check_ref]. change (authTypeBearer =? authTypeBearer)%string with true in Ec. cbn iota in Ec.
    destruct (ca_SecretRef a) as [r|] eqn:Er; [|done].
    assert (r ∈ authSecretRefs a) as Hin by (unfold authSecretRefs; rewrite Er; by left).
    destruct (checked_ref _ _ _ r Hs (first_failure_none _ _ _ Ec Hin)) as (sec & v & E & Eo & Eh & Hv & Ek).
    exists v. split; [done|]. unfold CallbackSecretValue, channelCredential. by rewrite E, Eo, (Eh Hne).
  - change (negb (authTypeHMAC =? authTypeBearer)%string) with true. cbn iota. eapply inbound_works; [done|by right|exact Ec].
Qed.

Lemma platform_secret_value name required shape key : same_secrets →
  validatePlatformSecret (readOf reads name) ns name required shape = None → key ∈ required →
  ∃ sec v, reads !! name = Some (inl sec) ∧ sec_Data sec !! key = Some v ∧ v ≠ "" ∧ SecretValue secret ns name key = inl v ∧
    match shape with Some f => f (sec_Data sec) = "" | None => True end.
Proof.
  intros Hs. unfold validatePlatformSecret. destruct (readOf reads name) as [sec|] eqn:Er; [|done].
  destruct (ChannelCredentialOptedIn _) eqn:Eo; cbn [negb]; [|done]. destruct (first_failure _ _) eqn:Ef; [done|]. intros Hsh Hin.
  pose proof (first_failure_none _ _ _ Ef Hin) as Hk. unfold required_key in Hk. destruct (sec_Data sec !! key) as [v|] eqn:Ev; [|done].
  destruct (String.eqb_spec v "") as [|Hv]; [done|]. apply readOf_inl in Er. exists sec, v. split_and!; [done|done|done| |].
  - unfold SecretValue, channelCredential, secretKey. rewrite (Hs _ _ Er), Eo, Ev. by rewrite (proj2 (String.eqb_neq v "") Hv).
  - destruct shape as [f|]; [|done]. by destruct (String.eqb_spec (f (sec_Data sec)) "").
Qed.

Lemma str_bytes s : str (bs s) = s.
Proof. apply String.string_of_list_ascii_of_string. Qed.

(** Hexadecimal text has no space to trim. *)
Definition solid (c : ascii) : Prop := (ascii_Z c <? 128)%Z = true ∧ IsSpaceRune (ascii_Z c) = false.

Lemma hex_val_solid c z : hex_val c = Some z → solid c.
Proof.
  unfold hex_val, solid, is_digit, IsSpaceRune. intros H.
  assert (48 <= ascii_Z c < 103)%Z as Hc by (repeat (case_match; try done); lia). split; [lia|]. repeat (apply orb_false_iff; split); lia.
Qed.

Lemma hex_solid b : is_Some (hex_decode b) → Forall solid b.
Proof.
  induction b as [b IH] using (induction_ltof1 _ (@length ascii)). unfold ltof in IH. destruct b as [|x [|y b]]; cbn; [by constructor|by intros []|].
  intros [v H]. destruct (hex_val x) eqn:Ex; [|done]. destruct (hex_val y) eqn:Ey; [|done]. destruct (hex_decode b) eqn:Eb; [|done].
  constructor; [by eapply hex_val_solid|]. constructor; [by eapply hex_val_solid|]. apply IH; [cbn; lia|by eexists].
Qed.

Lemma text_end_solid b i e : Forall solid b → text_end 0 i e b = match b with [] => e | _ => i + length b end.
Proof.
  revert i e. induction b as [|c b IH]; intros i e H; [done|]. inversion H as [|? ? [Hc Hs] Hb]; subst. cbn [text_end].
  rewrite (DecodeRune_ascii _ _ Hc), Hs. cbn [Nat.sub]. rewrite IH by done. destruct b; cbn; lia.
Qed.

Lemma TrimText_solid s : Forall solid (bs s) → TrimText s = s.
Proof.
  intros H. unfold TrimText. rewrite text_end_solid by done.
  replace (match bs s with [] => 0 | _ => 0 + length (bs s) end) with (length (bs s)) by (by destruct (bs s)).
  rewrite firstn_all. destruct (bs s) as [|c b] eqn:E; [by rewrite <- (str_bytes s), E|].
  inversion H as [|? ? [Hc Hs] Hb]; subst. cbn [skip_space]. rewrite (DecodeRune_ascii _ _ Hc), Hs, <- E. apply str_bytes.
Qed.

(** What the gateway needs of a channel's credentials to serve it. *)
Definition credentials_usable (channel : AgentChannel) : Prop :=
  match block_of (ch_Spec channel) with
  | BWebhook w =>
      (auth_formed (wh_Auth w) → ∃ v, v ≠ "" ∧ channelSecret (SecretValue secret) ns (wh_Auth w) = inl v) ∧
      (∀ a raw host, wh_CallbackURL w = Some raw → wh_CallbackAuth w = Some a → auth_formed a → callback_target raw = Some host →
         ∃ v, v ≠ "" ∧ callbackSecret secret channel w host = inl v)
  | BDiscord d =>
      ∃ raw, SecretValue secret ns (dc_CredentialsRef d) discordKeyPublicKey = inl raw ∧
        ((∃ key, length key = 32%nat ∧ publicKey secret channel d = inl key) ↔ TrimText raw = raw)
  | BWhatsApp w =>
      ∀ key, key ∈ [whatsAppKeyVerifyToken; whatsAppKeyAppSecret; whatsAppKeyAccessToken] →
        ∃ v, v ≠ "" ∧ SecretValue secret ns (wa_CredentialsRef w) key = inl v
  | BNone => True
  end.

Lemma target_host raw host : callback_target raw = Some host → callbackHost raw = host ∧ host ≠ "".
Proof.
  unfold callback_target, callbackHost. destruct (url_Parse raw) as [u|]; [|done]. destruct (u_Scheme u =? "https")%string; cbn; [|done].
  destruct (String.eqb_spec (u_Hostname u) ""); [done|]. by intros [= <-].
Qed.

End credentials.

(** ** Records *)

(** A record the gateway wrote is pruned from its expiry on, to the second,
    and not before. *)
Theorem record_lives_to_expiry operator requestID channel expires created now : year_in_layout expires →
  asyncRecordExpired (placeholder operator requestID channel expires created) now = (stored_time expires <=? now)%Z.
Proof.
  intros Hy. unfold asyncRecordExpired, placeholder. cbn [cm_Annotations]. rewrite lookup_singleton_eq. cbn [default from_option id].
  rewrite rfc3339_roundtrip by done. unfold After. by rewrite Z.leb_antisym.
Qed.

(** ** A key with a newline *)

Module PaddedKey.
#[local] Existing Instance plain_unicode.
#[local] Instance no_fold : FoldTable := {| same_fold := λ _ _, false |}.
#[local] Instance no_urls : UrlParser := {| url_Parse := λ _, None |}.

Definition key_text : string := "d75a980182b10ab7d54bfed3c964073a0ee172f3daa62325af021a68f707511a".
Definition secret_with (v : string) : Secret := mk_secret {[LabelChannelCredential := AnnotationTrue]} ∅ {[discordKeyPublicKey := v]}.
Definition discord : AgentChannelDiscord := mk_discord "/channels/team/bot" "bot" None [] "".
Definition channel : AgentChannel :=
  mk_channel "team" "bot" 0%Z (mk_channel_spec "agent" ChannelTypeDiscord None (Some discord) None false) ChannelActive [].
Definition padded : Secret := secret_with (key_text +:+ String "010" "").

(** The reconciler trims the key before it decodes it and the gateway does
    not: with a trailing newline the channel is Ready and no interaction
    verifies. *)
Lemma padded_key_passes :
  checkChannelSecrets "team" (ch_Spec channel) {["bot" := inl padded]} = None ∧
  ∃ e, publicKey (λ _ _, inl padded) channel discord = inr e.
Proof. split; [vm_compute; reflexivity|]. eexists. vm_compute. reflexivity. Qed.

End PaddedKey.
