(* ===== verification/ChannelWatch.v ===== *)
(** What starts a channel pass and what a wake is: the watches and indexes of
    the AgentChannel reconciler (agentchannel_controller.go, indexers.go), the
    health fan-out's cache (agentchannel_health.go) and the activator's
    handler (activator.go).

    The last part is the handshake of a deletion with the gateway. *)

From stdpp Require Import base gmap list strings option.
From Stdlib Require Import ZArith Lia Ascii.
From S2P Require Import CallbackPolicy Prelude GoFloat GoTime Json JsonString ProblemList BudgetReducer Conditions AgentLifecycle Rfc3339 ChannelHealth Sha256 ChannelApi ChannelAuth AsyncDelivery Discord WhatsApp ChannelCheck.

(** ** Indexes and watches *)

Definition channelAgentRefIndex (s : AgentChannelSpec) : list string := [AgentRef s].
Definition channelSecretRefIndex (s : AgentChannelSpec) : list string := authSecretNames s.
Definition channelPathIndex (s : AgentChannelSpec) : list string := if (Path s =? "")%string then [] else [Path s].

Section watches.
Context {SC : StatusConditions}.
Implicit Types (c o : ChannelObject).

(** A list through an index: the channels of a namespace under a key. *)
Definition list_by (index : AgentChannelSpec → list string) (channels : list ChannelObject) (namespace key : string) : list ChannelObject :=
  List.filter (λ c, (co_Namespace c =? namespace)%string && existsb (String.eqb key) (index (co_Spec c))) channels.

Definition request_of (c : ChannelObject) : string * string := (co_Namespace c, co_Name c).

(** [listed] is [None] when the cache answered an error. *)
Definition requests (listed : option (list ChannelObject)) : list (string * string) :=
  match listed with None => [] | Some l => map request_of l end.
Definition channelsForAgent (listed : option (list ChannelObject)) : list (string * string) := requests listed.
Definition channelsForSecret (listed : option (list ChannelObject)) : list (string * string) := requests listed.

Definition enqueuePathSiblings (list_path : string → string → option (list ChannelObject)) (c : ChannelObject) : list (string * string) :=
  if (Path (co_Spec c) =? "")%string then []
  else match list_path (co_Namespace c) (Path (co_Spec c)) with
       | None => []
       | Some siblings => map request_of (List.filter (λ o, negb (co_Name o =? co_Name c)%string) siblings)
       end.

(** The handlers of pathSiblingHandler. *)
Definition on_path_create := enqueuePathSiblings.
Definition on_path_delete := enqueuePathSiblings.
Definition on_path_update (list_path : string → string → option (list ChannelObject)) (old new : ChannelObject) : list (string * string) :=
  if (Path (co_Spec old) =? Path (co_Spec new))%string then [] else enqueuePathSiblings list_path old ++ enqueuePathSiblings list_path new.

Lemma list_by_in index channels ns key c : c ∈ list_by index channels ns key ↔ c ∈ channels ∧ co_Namespace c = ns ∧ key ∈ index (co_Spec c).
Proof.
  unfold list_by. rewrite !list_elem_of_In, List.filter_In, andb_true_iff, String.eqb_eq, existsb_exists. split.
  - intros (H & -> & x & Hx & ->%String.eqb_eq). done.
  - intros (H & -> & Hx). split_and!; [done|done|]. exists key. by rewrite String.eqb_refl.
Qed.

(** A changed Secret starts a pass of every channel that names it, and of no
    other. *)
Theorem secret_change_reaches channels ns name c : NoDup (map request_of channels) → c ∈ channels →
  request_of c ∈ channelsForSecret (Some (list_by channelSecretRefIndex channels ns name)) ↔ co_Namespace c = ns ∧ name ∈ authSecretNames (co_Spec c).
Proof.
  intros Hnd Hc. unfold channelsForSecret, requests. rewrite list_elem_of_fmap. split.
  - intros (o & E & Ho). apply list_by_in in Ho as (Ho & Hns & Hn). assert (c = o) as ->; [|done].
    apply list_elem_of_lookup in Hc as [i Hi], Ho as [j Hj]. assert (i = j) as ->; [|congruence].
    eapply (NoDup_lookup (map request_of channels)); [done| |]; rewrite list_lookup_fmap; [by rewrite Hi|rewrite Hj; cbn; by rewrite E].
  - intros [Hns Hn]. exists c. split; [done|]. by apply list_by_in.
Qed.

(** When a channel's path changes, every other channel on the path it left or
    joined is checked again. *)
Theorem path_change_reaches channels old new o : o ∈ channels → co_Namespace o = co_Namespace new → co_Namespace old = co_Namespace new →
  co_Name old = co_Name new → co_Name o ≠ co_Name new → Path (co_Spec old) ≠ Path (co_Spec new) → Path (co_Spec o) ≠ "" →
  Path (co_Spec o) = Path (co_Spec old) ∨ Path (co_Spec o) = Path (co_Spec new) →
  request_of o ∈ on_path_update (λ ns path, Some (list_by channelPathIndex channels ns path)) old new.
Proof.
  intros Ho Hns Hns' Hname Hne Hp Ho' Hon. unfold on_path_update. rewrite (proj2 (String.eqb_neq _ _) Hp). apply elem_of_app.
  assert (∀ c, co_Namespace o = co_Namespace c → co_Name o ≠ co_Name c → Path (co_Spec o) = Path (co_Spec c) →
    request_of o ∈ enqueuePathSiblings (λ ns path, Some (list_by channelPathIndex channels ns path)) c) as Hq.
  { intros c H1 H2 H3. unfold enqueuePathSiblings. rewrite <- H3, (proj2 (String.eqb_neq _ _) Ho'). apply list_elem_of_fmap. exists o. split; [done|].
    apply list_elem_of_In, List.filter_In. split; [|by apply negb_true_iff, String.eqb_neq]. apply list_elem_of_In, list_by_in. split_and!; [done|done|].
    unfold channelPathIndex. rewrite (proj2 (String.eqb_neq _ _) Ho'). by left. }
  destruct Hon as [H|H]; [left|right]; apply Hq; congruence.
Qed.
End watches.

(** ** The health fan-out *)

Record channelHealthCacheEntry := mk_health_cache { hc_fetched : Time; hc_reachable : list ReplicaChannelHealth; hc_total : Z }.

(** [fetch] is what the fan-out answers when it is dialled, at the time
    [now'] it answers. *)
Definition NamespaceChannelHealth (cache : gmap string channelHealthCacheEntry) (now now' : Time) (namespace : string)
    (fetch : option (list ReplicaChannelHealth * Z)) : gmap string channelHealthCacheEntry * option (list ReplicaChannelHealth * Z) :=
  match cache !! namespace with
  | Some e =>
      if (Sub now (hc_fetched e) <? activityCacheWindow)%Z then (cache, Some (hc_reachable e, hc_total e))
      else match fetch with None => (cache, None) | Some (r, n) => (<[namespace := mk_health_cache now' r n]> cache, Some (r, n)) end
  | None => match fetch with None => (cache, None) | Some (r, n) => (<[namespace := mk_health_cache now' r n]> cache, Some (r, n)) end
  end.

(** ** The reduction *)

Section health.
Context {U : Unicode}.

Definition scan_all (path : string) (answers : list (ReplicaChannelHealth * Time)) : health_scan :=
  foldl (λ st r, scan_replica path st r.1 r.2) no_health answers.

Definition state_at (path : string) (r : ReplicaChannelHealth * Time) : option string := hs_State <$> rh_Channels r.1 !! path.

Lemma take_newer_some last s : is_Some (take_newer last s).
Proof. unfold take_newer. destruct last; [|by eexists]. by destruct (newerHealth _ _); eexists. Qed.

Lemma exists_snoc {A} (p : A → Prop) l x : (∃ y, y ∈ l ++ [x] ∧ p y) ↔ (∃ y, y ∈ l ∧ p y) ∨ p x.
Proof.
  split; [intros (y & [H|H%list_elem_of_singleton]%elem_of_app & Hy); [left; eauto|right; by subst]|].
  intros [(y & H & Hy)|Hx]; [exists y|exists x]; (split; [apply elem_of_app|done]); [by left|right; by apply list_elem_of_singleton].
Qed.

Lemma forall_snoc {A} (p : A → Prop) l x : (∀ y, y ∈ l ++ [x] → p y) ↔ (∀ y, y ∈ l → p y) ∧ p x.
Proof.
  split; [intros H; split; [intros y Hy|]; apply H, elem_of_app; [by left|right; by apply list_elem_of_singleton]|].
  intros [H Hx] y [Hy|Hy%list_elem_of_singleton]%elem_of_app; [by apply H|by subst].
Qed.

Definition silent (path : string) (r : ReplicaChannelHealth * Time) : Prop := state_at path r = None ∨ state_at path r = Some "empty".

Lemma scan_invariant path answers : let st := scan_all path answers in
  (is_Some (scan_success st) ↔ ∃ r, r ∈ answers ∧ state_at path r = Some "success") ∧
  (is_Some (scan_failure st) ↔ ∃ r, r ∈ answers ∧ state_at path r = Some "failure") ∧
  (allEmpty st = true ↔ ∀ r, r ∈ answers → silent path r).
Proof.
  cbn zeta. induction answers as [|r l IH] using rev_ind.
  { cbn. split_and!; [split; [by intros []|by intros (r & H%not_elem_of_nil & _)]..|]. split; [|done]. by intros _ r H%not_elem_of_nil. }
  unfold scan_all in *. rewrite foldl_app. cbn [foldl]. set (st := foldl _ _ l) in *. destruct IH as (IH1 & IH2 & IH3).
  rewrite !exists_snoc, forall_snoc, <- IH1, <- IH2, <- IH3. clear IH1 IH2 IH3. unfold scan_replica, state_at, silent, state_at.
  destruct (rh_Channels r.1 !! path) as [[state reason err ts]|]; cbn [fmap option_fmap option_map hs_State].
  2: { cbn. split_and!; [split; [by left|by intros [|]]..|]. split; [by intros; split; [|left]|by intros []]. }
  destruct (String.eqb_spec state "empty") as [->|Hne]; cbn [scan_success scan_failure allEmpty].
  { split_and!; [split; [by left|by intros [|[=]]]..|]. split; [by intros; split; [|right]|by intros []]. }
  split_and!.
  - destruct (String.eqb_spec state "success") as [->|Hs]; [split; [by right|intros _; apply take_newer_some]|].
    split; [by left|]. intros [|[=]]; [done|congruence].
  - destruct (String.eqb_spec state "failure") as [->|Hs]; [split; [by right|intros _; apply take_newer_some]|].
    split; [by left|]. intros [|[=]]; [done|congruence].
  - split; [done|]. intros [_ [[=]|[=]]]. congruence.
Qed.

(** The four rules: any success shows connected, otherwise any failure shows
    it is not, and with nothing seen the answer is unknown only when a replica
    watched a whole window; in every other case the condition stays. *)
Theorem health_rules path answers : match health_verdict (scan_all path answers) with
  | Some c =>
      sc_Type c = ConditionPlatformConnected ∧
      ((sc_Status c = ConditionTrue ∧ ∃ r, r ∈ answers ∧ state_at path r = Some "success") ∨
       (sc_Status c = ConditionFalse ∧ (∃ r, r ∈ answers ∧ state_at path r = Some "failure") ∧ ¬ ∃ r, r ∈ answers ∧ state_at path r = Some "success") ∨
       (sc_Status c = ConditionUnknown ∧ fullWindow (scan_all path answers) = true ∧ ∀ r, r ∈ answers → silent path r))
  | None =>
      (¬ ∃ r, r ∈ answers ∧ (state_at path r = Some "success" ∨ state_at path r = Some "failure")) ∧
      (fullWindow (scan_all path answers) = false ∨ ¬ ∀ r, r ∈ answers → silent path r)
  end.
Proof.
  pose proof (scan_invariant path answers) as (H1 & H2 & H3). cbn zeta in *. unfold health_verdict.
  destruct (scan_success _) as [x|]; [split; [done|]; left; split; [done|]; apply H1; by eexists|].
  assert (¬ ∃ r, r ∈ answers ∧ state_at path r = Some "success") as Hn by (rewrite <- H1; by intros []).
  destruct (scan_failure _) as [f|]; [split; [done|]; right; left; split_and!; [done|apply H2; by eexists|done]|].
  assert (¬ ∃ r, r ∈ answers ∧ state_at path r = Some "failure") as Hf by (rewrite <- H2; by intros []).
  destruct (fullWindow _) eqn:Ew, (allEmpty _) eqn:Ea; cbn [andb].
  - split; [done|]. right; right. split_and!; [done|done|by apply H3].
  - split; [|right; by rewrite <- H3]. intros (r & Hr & [|]); eauto.
  - split; [|by left]. intros (r & Hr & [|]); eauto.
  - split; [|by left]. intros (r & Hr & [|]); eauto.
Qed.
End health.

(** ** The activator *)

Definition gatewayServiceName : string := "kaalm-gateway".

Record activate_request := mk_activate { ac_Method : string; ac_Certs : option (list (list string)); ac_Path : string }.

(** The status and text of the answer, and the Agent patched, if any. *)
Record activate_reply := mk_activate_reply { ar_Status : Z; ar_Body : string; ar_Patched : option (string * string) }.

Section activator.
Context {U : Unicode} (OperatorNamespace : string).

(** A certificate is its DNS names. *)
Definition isGatewayCert (names : list string) : bool :=
  let long := gatewayServiceName +:+ ("." +:+ (OperatorNamespace +:+ ".svc.cluster.local")) in
  let short := gatewayServiceName +:+ ("." +:+ (OperatorNamespace +:+ ".svc")) in
  existsb (λ san, (san =? long)%string || (san =? short)%string) names.

(** The merge patch the handler sends, and what it does to the annotations. *)
Definition wake_patch : string :=
  let q s := fmt_quoted s in
  "{" +:+ (q "metadata" +:+ (":{" +:+ (q "annotations" +:+ (":{" +:+
    (q AnnotationWake +:+ (":" +:+ (q AnnotationTrue +:+ ("," +:+ (q AnnotationWakeTrigger +:+ (":" +:+ (q AnnotationWakeTriggerChannel +:+ "}}}"))))))))))).
Definition woken (annotations : gmap string string) : gmap string string :=
  <[AnnotationWakeTrigger := AnnotationWakeTriggerChannel]> (<[AnnotationWake := AnnotationTrue]> annotations).

(** [patch] is what the API server answers the patch of an Agent. *)
Definition handleActivate (patch : string → string → string → option kube_error) (r : activate_request) : activate_reply :=
  if negb (ac_Method r =? "POST")%string then mk_activate_reply 405 "method not allowed" None
  else match ac_Certs r with
  | None | Some [] => mk_activate_reply 401 "client certificate required" None
  | Some (cert :: _) =>
      if negb (isGatewayCert cert) then mk_activate_reply 403 "this path requires the gateway identity" None
      else match split_char "/" (TrimPrefix (ac_Path r) "/v1/activate/") with
      | [namespace; name] =>
          if (namespace =? "")%string || (name =? "")%string then mk_activate_reply 400 "path must be /v1/activate/{namespace}/{agentName}" None
          else match patch namespace name wake_patch with
               | None => mk_activate_reply 202 "" (Some (namespace, name))
               | Some e => if IsNotFound e then mk_activate_reply 404 "agent not found" None else mk_activate_reply 500 (ke_text e) None
               end
      | _ => mk_activate_reply 400 "path must be /v1/activate/{namespace}/{agentName}" None
      end
  end.

(** The handler patches an Agent exactly when a request with the gateway's
    certificate names it and the API server takes the patch, and answers 202
    then and only then. *)
Theorem only_gateway_wakes patch r : match ar_Patched (handleActivate patch r) with
  | Some (ns, name) =>
      ar_Status (handleActivate patch r) = 202%Z ∧ ac_Method r = "POST" ∧ patch ns name wake_patch = None ∧
      (∃ cert certs, ac_Certs r = Some (cert :: certs) ∧ isGatewayCert cert = true) ∧
      split_char "/" (TrimPrefix (ac_Path r) "/v1/activate/") = [ns; name] ∧ ns ≠ "" ∧ name ≠ ""
  | None => ar_Status (handleActivate patch r) ≠ 202%Z
  end.
Proof.
  unfold handleActivate. destruct (String.eqb_spec (ac_Method r) "POST") as [Em|]; cbn [negb]; [|done].
  destruct (ac_Certs r) as [[|cert certs]|]; [done| |done]. destruct (isGatewayCert cert) eqn:Ec; cbn [negb]; [|done].
  destruct (split_char "/" _) as [|ns [|name [|x l]]] eqn:Es; [done|done| |done].
  destruct (String.eqb_spec ns ""), (String.eqb_spec name ""); cbn [orb]; [done..|].
  destruct (patch ns name wake_patch) as [e|] eqn:Ep; [by destruct (IsNotFound e)|]. split_and!; try done. by exists cert, certs.
Qed.
End activator.

(** The patch the handler writes is read as a channel's wake. *)
Lemma woken_is_channel_wake {CD : Conditions} a : wakeTrigger (with_annotations a (woken (Annotations a))) = (wakeTriggerChannel, true).
Proof.
  unfold wakeTrigger, woken, with_annotations. cbn -[lookup insert]. rewrite lookup_insert_eq.
  by rewrite lookup_insert_ne, lookup_insert_eq by done.
Qed.

(** The delete handshake end to end: the reconciler's passes with the
    gateway's disconnect handler (cmd/gateway/channel_disconnect.go), and the
    event handler that forgets deleted Agents (cmd/gateway/agent_delete.go). *)

From S2P Require Import Activity TaskReconcile ChannelReconcile ChannelTrace.

Section handshake.
Context {U : Unicode} {F : FoldTable} {P : UrlParser} {SC : StatusConditions}.
Context (operator : string) (policy : Policy) (health : bool).
Implicit Types (tr : list step) (s : memory).

(** The annotations after the merge patch of [confirm], [None] when it sends
    none. *)
Definition confirm (c : ChannelObject) : option (gmap string string) :=
  if negb (cs_Phase (co_Status c) =? ChannelTerminating)%string then None
  else if (default "" (co_Annotations c !! AnnotationChannelDisconnected) =? AnnotationTrue)%string then None
  else Some (<[AnnotationChannelDisconnected := AnnotationTrue]> (co_Annotations c)).

Definition set_annotations (a : gmap string string) (c : ChannelObject) : ChannelObject :=
  mk_channel_object (co_Namespace c) (co_Name c) (co_UID c) (co_Created c) (co_Generation c) (co_Deletion c) (co_Finalizers c) a (co_Spec c) (co_Status c).

(** The stored channel after a replica saw it. *)
Definition confirmed (c : ChannelObject) : ChannelObject := match confirm c with Some a => set_annotations a c | None => c end.

Definition terminating (c : ChannelObject) : ChannelObject := set_status (set_phase ChannelTerminating) c.

(** A cluster whose answers stand still and which stores [c]. *)
Definition storing (cl : cluster) (c : ChannelObject) : cluster :=
  mk_cluster (cl_now cl) (inl c) (cl_agent cl) (cl_role cl) (cl_binding cl) (cl_secret cl) (cl_on_path cl) (cl_ips cl) (cl_health cl) (cl_records cl) (cl_known cl).

Lemma exec_bind {A B} ans (p : prog A) (f : A → prog B) tr :
  exec ans tr (prog_bind p f) = exec ans (exec ans tr p).1 (f (exec ans tr p).2).
Proof. revert tr. induction p as [a|C c k IH]; intros tr; cbn; [done|apply IH]. Qed.

Lemma exec_mbind {A B} ans (m : M A) (f : A → M B) s tr :
  exec ans tr (mbind (M := M) (MBind := ChannelReconcile.M_bind) f m s) =
  let '(tr1, (s1, r)) := exec ans tr (m s) in match r with inl a => exec ans tr1 (f a s1) | inr e => (tr1, (s1, inr e)) end.
Proof. unfold mbind, ChannelReconcile.M_bind. rewrite exec_bind. destruct (exec ans tr (m s)) as [tr1 [s1 [a|e]]]; done. Qed.

(** Deletes that succeed carry a sweep through. *)
Lemma exec_prune cl sweepAll now cms s tr : ∃ tr', exec (still cl) tr (prune_loop sweepAll now cms s) = (tr', (s, inl ())).
Proof.
  revert tr. induction cms as [|cm cms IH]; intros tr; cbn [prune_loop]; [by eexists|]. destruct (_ || _); [apply IH|].
  rewrite exec_mbind. cbn. apply IH.
Qed.

Lemma exec_sweep cl s tr : ∃ tr', exec (still cl) tr (pruneAsyncConfigMaps true s) = (tr', (s, inl ())).
Proof. unfold pruneAsyncConfigMaps. do 3 (rewrite exec_mbind; cbn [exec lift the_channel still]). apply exec_prune. Qed.

Lemma exec_release cl s tr : ∃ tr' s' c', exec (still cl) tr (release s) = (tr', (s', inl None)) ∧
  Step (UpdateChannel c') (inl c') ∈ tr' ∧ ChannelFinalizer ∉ co_Finalizers c' ∧ record_key c' = record_key (m_channel s).
Proof.
  unfold release. rewrite exec_mbind. destruct (exec_sweep cl s tr) as [tr1 ->]. do 5 (rewrite exec_mbind; cbn).
  eexists _, _, _. split_and!; [reflexivity|apply elem_of_app; right; by apply list_elem_of_singleton| |done].
  cbn. rewrite list_elem_of_In, List.filter_In. by intros [_ H].
Qed.

(** Whether the channel need not be waited for, at [now]. *)
Definition may_go (now : Time) (c : ChannelObject) : bool :=
  (default "" (co_Annotations c !! AnnotationChannelDisconnected) =? AnnotationTrue)%string ||
  negb (Sub now (default 0%Z (co_Deletion c)) <? disconnectTimeout)%Z.

Lemma exec_keeps {A} ans (p : prog A) tr (st : step) : st ∈ tr → st ∈ (exec ans tr p).1.
Proof. revert tr. induction p as [a|B c k IH]; intros tr H; cbn; [done|]. apply IH. apply elem_of_app. by left. Qed.

(** Steps 4 to 6 on a channel in hand. *)
Definition released_or_waits (now : Time) (c : ChannelObject) tr (r : result) : Prop :=
  if may_go now c
  then r = None ∧ ∃ c', Step (UpdateChannel c') (inl c') ∈ tr ∧ ChannelFinalizer ∉ co_Finalizers c' ∧ record_key c' = record_key c
  else r = Some (2 * Second)%Z.

Definition await_and_release : M result := mbind (M := M) (MBind := ChannelReconcile.M_bind)
  (λ waiting : bool, if waiting then mret (MRet := ChannelReconcile.M_ret) (Some (2 * Second)%Z) else release) awaits_disconnect.

Lemma exec_tail cl s tr : ∃ s' r, (exec (still cl) tr (await_and_release s)).2 = (s', inl r) ∧
  released_or_waits (cl_now cl) (m_channel s) (exec (still cl) tr (await_and_release s)).1 r.
Proof.
  unfold await_and_release. rewrite exec_mbind. unfold awaits_disconnect, released_or_waits, may_go. rewrite exec_mbind. cbn [exec the_channel].
  destruct (_ =? AnnotationTrue)%string; cbn [orb].
  - cbn [exec mret ChannelReconcile.M_ret]. cbv beta iota. destruct (exec_release cl s tr) as (tr' & s' & c' & -> & ? & ? & ?). by eauto 10.
  - rewrite exec_mbind. cbn [exec lift still mret ChannelReconcile.M_ret]. destruct (_ <? disconnectTimeout)%Z; cbn [negb].
    + cbn [exec mret ChannelReconcile.M_ret]. by eauto.
    + match goal with |- context [exec _ ?tr' (release s)] => destruct (exec_release cl s tr') as (tr2 & s' & c' & -> & ? & ? & ?) end. by eauto 10.
Qed.

Lemma exec_delete cl s tr : ChannelFinalizer ∈ co_Finalizers (m_channel s) →
  ∃ s' r, (exec (still cl) tr (reconcileDelete s)).2 = (s', inl r) ∧
    (cs_Phase (co_Status (m_channel s)) = ChannelTerminating ∨
     Step (UpdateStatus (terminating (m_channel s))) (inl (terminating (m_channel s))) ∈ (exec (still cl) tr (reconcileDelete s)).1) ∧
    released_or_waits (cl_now cl) (m_channel s) (exec (still cl) tr (reconcileDelete s)).1 r.
Proof.
  intros Hf. unfold reconcileDelete. rewrite exec_mbind. cbn [exec the_channel]. rewrite bool_decide_true by done. cbn [negb].
  rewrite exec_mbind. unfold announce. rewrite exec_mbind. cbn [exec the_channel].
  destruct (String.eqb_spec (cs_Phase (co_Status (m_channel s))) ChannelTerminating) as [Ep|Ep].
  - cbn [exec skip mret ChannelReconcile.M_ret]. destruct (exec_tail cl s tr) as (s' & r & E & H). fold await_and_release. rewrite E. eauto 10.
  - rewrite exec_mbind. cbn [exec edit]. rewrite exec_mbind. cbn [exec the_channel m_channel]. rewrite exec_mbind. cbn [exec lift still put_channel unresolvedHosts].
    fold (terminating (m_channel s)). fold await_and_release.
    match goal with |- context [exec (still cl) (?t ++ ?l) (await_and_release ?m)] => destruct (exec_tail cl m (t ++ l)) as (s' & r & -> & H) end.
    exists s', r. split_and!; [done| |exact H]. right. apply exec_keeps. apply elem_of_app. right. by apply list_elem_of_singleton.
Qed.

(** ** Deleted Agents *)

(** What the informer hands a delete handler. *)
Inductive deleted_object := DeletedAgent (namespace name : string) | DeletedFinalStateUnknown (o : deleted_object) | DeletedOther.

Definition agentDeleteHandler (activity : ActivityStore) (o : deleted_object) : ActivityStore :=
  match match o with DeletedFinalStateUnknown o => o | _ => o end with
  | DeletedAgent namespace name => Forget activity namespace name
  | _ => activity
  end.

(** One pass over a stored channel. *)
Definition pass (cl : cluster) (c : ChannelObject) s : list step * (memory * (result + error)) :=
  exec (still (storing cl c)) [] (Reconcile operator policy health s).

(** C14: where API calls succeed a deleting channel goes: a pass over it stores
    Terminating if it was not, on the stored channel every gateway replica
    answers with the disconnect annotation, and a pass over the annotated
    channel, or a pass after the disconnect timeout without any gateway,
    removes the finalizer and asks for no other; until then a pass asks for
    the next in two seconds. *)
Theorem deletion_completes cl c s s' :
  is_Some (co_Deletion c) →
  ChannelFinalizer ∈ co_Finalizers c →
  (∃ r, (pass cl c s).2.2 = inl r ∧ released_or_waits (cl_now cl) c (pass cl c s).1 r ∧
     (cs_Phase (co_Status c) = ChannelTerminating ∨ Step (UpdateStatus (terminating c)) (inl (terminating c)) ∈ (pass cl c s).1)) ∧
  (let c' := confirmed (terminating c) in
   (pass cl c' s').2.2 = inl None ∧
   ∃ c'', Step (UpdateChannel c'') (inl c'') ∈ (pass cl c' s').1 ∧ ChannelFinalizer ∉ co_Finalizers c'' ∧ record_key c'' = record_key c).
Proof.
  intros Hd Hf.
  assert (∀ c0 s0, is_Some (co_Deletion c0) → pass cl c0 s0 =
    exec (still (storing cl c0)) [Step GetChannel (inl c0)] (reconcileDelete (mk_memory c0 (unresolvedHosts s0)))) as Hpass.
  { intros c0 s0 H0. unfold pass. rewrite exec_reconcile. cbn [still storing cl_channel]. unfold reconcile_found. rewrite exec_mbind. cbn [exec put_channel].
    by rewrite bool_decide_true. }
  split.
  - rewrite Hpass by done. destruct (exec_delete (storing cl c) (mk_memory c (unresolvedHosts s)) [Step GetChannel (inl c)] Hf) as (s1 & r & E & Ht & Hr).
    exists r. rewrite E. done.
  - cbn zeta. assert (is_Some (co_Deletion (confirmed (terminating c))) ∧ ChannelFinalizer ∈ co_Finalizers (confirmed (terminating c)) ∧
      record_key (confirmed (terminating c)) = record_key c ∧
      (default "" (co_Annotations (confirmed (terminating c)) !! AnnotationChannelDisconnected) =? AnnotationTrue)%string = true) as (Hd' & Hf' & Hk & Ha).
    { unfold confirmed, confirm. cbn [terminating set_status co_Status set_phase cs_Phase co_Annotations]. rewrite String.eqb_refl. cbn [negb].
      destruct (_ =? AnnotationTrue)%string eqn:Ea; [done|]. split_and!; try done. cbn [set_annotations co_Annotations]. by rewrite lookup_insert_eq. }
    rewrite Hpass by done. set (c' := confirmed (terminating c)) in *.
    destruct (exec_delete (storing cl c') (mk_memory c' (unresolvedHosts s')) [Step GetChannel (inl c')] Hf') as (s1 & r & E & _ & Hr).
    rewrite E. unfold released_or_waits, may_go in Hr. cbn [m_channel] in Hr. rewrite Ha in Hr. cbn [orb] in Hr. destruct Hr as (-> & c'' & ? & ? & Hk').
    split; [done|]. exists c''. split_and!; [done|done|congruence].
Qed.
End handshake.

Module HandshakeRun.
#[local] Existing Instance plain_unicode.
#[local] Existing Instance map_status_conditions.
#[local] Existing Instance ReleaseRun.no_fold.
#[local] Existing Instance ReleaseRun.no_urls.

(** The channel of [ReleaseRun] before any gateway saw it go, one second into
    its deletion. *)
Definition leaving : ChannelObject := set_annotations ∅ ReleaseRun.deleting.

Lemma deletion_completes_witness :
  (pass "kaalm-system" default_policy false ReleaseRun.world leaving (mk_memory leaving ∅)).2.2 = inl (Some (2 * Second)%Z) ∧
  (pass "kaalm-system" default_policy false ReleaseRun.world (confirmed (terminating leaving)) (mk_memory leaving ∅)).2.2 = inl None.
Proof.
  destruct (deletion_completes "kaalm-system" default_policy false ReleaseRun.world leaving (mk_memory leaving ∅) (mk_memory leaving ∅)) as [(r & E & Hr & _) [Hend _]];
    [by eexists|by left|]. split; [|exact Hend]. rewrite E. f_equal. unfold released_or_waits in Hr.
  replace (may_go (cl_now ReleaseRun.world) leaving) with false in Hr by (vm_compute; reflexivity). exact Hr.
Defined.
End HandshakeRun.
